(* ===== verification/_CoqProject ===== *)
-Q . S2P
Prelude.v
Graph.v
ArithUint256.v
Chain.v
Amount.v
Script.v
Transaction.v
Serialize.v
Coins.v
Pow.v
TxVerify.v
Interpreter.v
VersionBits.v
Merkle.v
MerkleBlock.v
AuxPow.v
BlockCheck.v
BestChain.v
Mempool.v
MempoolRemove.v
MempoolAdd.v
MempoolProps.v
Compressor.v
Base58.v
Ranges.v
AssetAllocation.v
Asset.v
Standard.v
Bloom.v
Accept.v
Assembler.v
Miner.v
