(* ===== verification/Prelude.v ===== *)
(** * Minerium Core: a verification development

    The repository is a full node of a proof-of-work chain (Bitcoin Core 0.14 with the changes of Dash) to which
    services - aliases, assets, certificates, offers, escrows - were added that travel in prefixes of output scripts.
    This library models the parts that decide which blocks and transactions a node accepts and what state results,
    as executable definitions named like the code, with theorems about them.

    ** How the parts interact

    A block arrives as bytes ([Serialize], [AuxPow]), its header is checked and entered into the block index
    ([BlockCheck] on [Chain], [Pow], [AuxPow], [VersionBits]), its body is checked ([BlockCheck] on [Merkle],
    [TxVerify], [Script]), the best chain moves ([BestChain]), which connects and disconnects blocks on the coins views
    ([Coins]) after running the scripts ([Interpreter]) and the services' handlers ([Asset] and [AssetAllocation] on
    [Ranges]), and the transactions of the block leave the memory pool ([Mempool]).  A loose transaction enters the
    pool by [Accept], which runs the checks of [TxVerify] and [Standard] on a view of [Coins] over the pool, has its
    scripts run by [Interpreter] - at once or in a task of a thread pool - and changes [Mempool].  A new block is made of the pool:
    [Assembler] chooses transactions, [Miner] puts them in order, adds the coinbase and fills in the header.  What a light client
    is sent of blocks and transactions is decided by its filter ([Bloom], with the partial trees of [MerkleBlock]).

    ** The files, each with the sources it models under src/src

    - [Prelude]: integers at their widths with their wrap-around, checked signed sums, list lemmas, tactics, hints.
    - [Graph]: reachability in finite graphs and worklists; used by [Mempool].
    - [ArithUint256] (arith_uint256.h, .cpp): [base_uint] as eight limbs, every operator as its loop, compact targets.
    - [Chain] (chain.h, .cpp, parts of validation.cpp and net_processing.cpp): the block index, skip lists, chains.
    - [Amount] (amount.h, .cpp, [GetBlockSubsidy]): money, fee rates, the subsidy with its [double].
    - [Script] (script/script.h, .cpp; the service prefixes of alias.cpp and its siblings): numbers, pushes, reading.
    - [Transaction], [Serialize] (primitives/transaction.h, serialize.h): data and formats.
    - [Coins] (coins.h, .cpp, txdb.cpp, the UTXO part of validation.cpp): views as a class of operations with a class
      of laws against the abstract set of unspent outputs; the database and every cache over a lawful view obey them.
    - [Pow] (pow.cpp, consensus/params.h, chainparams.cpp): the difficulty algorithms and the check of a hash.
    - [TxVerify] (validation.cpp, consensus/validation.h): the checks of a transaction with their states and scores.
    - [Interpreter] (script/interpreter.cpp): encodings, all opcodes, the signature hash, [VerifyScript].
    - [VersionBits] (versionbits.cpp): the threshold state machine with its caches.
    - [Merkle], [MerkleBlock] (consensus/merkle.cpp, merkleblock.cpp): roots and partial trees.
    - [AuxPow] (auxpow.h, .cpp, primitives/block.h, pureheader.h): merged mining and blocks as bytes.
    - [BlockCheck] (validation.cpp, checkpoints.cpp): checks of headers and blocks, and accepting headers.
    - [BestChain] (validation.cpp): candidates, [ActivateBestChain] and what it calls, invalidating blocks.
    - [Mempool] (txmempool.h, .cpp) with [MempoolRemove], [MempoolAdd] and [MempoolProps]: the pool and its accounting.
    - [Compressor] (compressor.h, .cpp, coins.h, undo.h, txdb.cpp): records of coins and undo data in the database.
    - [Base58] (base58.h, .cpp, chainparams.cpp): addresses and secrets as text.
    - [Ranges], [AssetAllocation] (ranges.cpp, assetallocation.cpp): tokens and balances of assets.
    - [Asset] (asset.h, asset.cpp): issuing, updating, transferring and sending an asset.
    - [Standard] (script/standard.h, .cpp, policy/policy.cpp, the dust of primitives/transaction.h): templates of
      output scripts, destinations, standard transactions.
    - [Bloom] (bloom.h, .cpp, [MurmurHash3] of hash.cpp, merkleblock.cpp, the filter messages of net_processing.cpp):
      the filters of light clients and the filter of recent rejects.
    - [Accept] (validation.cpp, txmempool.h, .cpp, coins.cpp): [AcceptToMemoryPoolWorker] and its callers,
      [CheckInputs], the view over the pool, priorities, [LimitMempoolSize], the task of the thread pool.
    - [Assembler] (miner.h, .cpp, the comparators of txmempool.h): the choice of the transactions of a block.
    - [Miner] (miner.cpp, graph.cpp, masternode-payments.cpp): [CreateNewBlock] with the order by arrival times and the
      payments of the coinbase, [UpdateTime], [IncrementExtraNonce].

    ** What the groups of theorems show

    - Functional: the checks return exactly the verdict, reject code and score of their rules, in their order, on every
      branch ([CheckBlock_correct], [CheckTransaction_correct], [CheckTxInputs_correct], [CheckProofOfWork_correct],
      [ContextualCheckBlock_correct]); difficulty, version bits, Merkle roots and the candidate chosen are what a
      definition without caches, limbs or arrays gives ([next_work_required], [VersionBitsState_correct],
      [ComputeMerkleRoot_correct], [FindMostWorkChain_correct]); scripts and transactions are standard exactly when
      they have the documented form, but for a script hash behind two prefixes ([Solver_correct], [IsStandardTx_correct]); what an update of an asset may change
      ([asset_update_changes]) and what a filter matches and learns ([IsRelevantAndUpdate_correct]).
    - Refinement: coins caches implement one set of unspent outputs ([coins_cache_refines]); limb arithmetic implements
      integers modulo [2^256] ([arith_ops_refine]).
    - Invariants: the block index stays well formed ([block_index_invariant]); a step of activation keeps the chain and
      the candidates coherent ([ActivateBestChainStep_correct]); every operation of the memory pool keeps each entry's
      counters those of its ancestors and descendants ([accept_consistent], [RemoveStaged_consistent],
      [PrioritiseTransaction_consistent]); sums of asset balances are preserved ([amounts_conserved],
      [asset_send_conserves]), and so are ranges of tokens ([ranges_moved], [asset_send_range]).
    - Termination and progress: scripts end within their length ([EvalScript_terminates]), activation reaches the best
      valid chain ([ActivateBestChain_reaches_best]) under a hypothesis whose failure makes it spin
      ([ActivateBestChain_spins]), trimming ends ([TrimToSize_ends]).
    - Round trips: transactions, blocks, partial trees, coin and undo records ([coin_record_roundtrip],
      [block_undo_roundtrip], where a script over the limit comes back as OP_RETURN), addresses ([base58_exact], for the lengths
      whose sizes fit in an int, [address_roundtrip], with the test network's addresses that are lost; [destination_roundtrip] for their scripts); disconnecting a block undoes connecting it
      ([block_connect_disconnect]).
    - Safety against what a peer sends: [accepted_headers_sound], [auxpow_no_reuse], [VerifyScript_no_assert] and its
      exception [nested_prefix_aborts], [removeForBlock_clean]; a transaction taken into the pool passed every check and
      left the pool consistent, a refused one changed nothing but for two stated cases ([accept_sound],
      [accept_refused]), and the task that verifies its scripts later removes it when they fail ([run_task_correct]).
    - Making blocks: the choice of transactions ends, with parents first and the limits kept
      ([select_transactions_sound]), on counters that follow what is in the block already ([package_counters]); the template
      is what the rules of payments and headers ask for ([CreateNewBlock_correct]), unless the order by arrival breaks it
      ([CreateNewBlock_throws]).
    - Filters: no transaction a client asked for is withheld from it ([filter_serves_client],
      [filtered_block_served]); the rolling filter knows its last entries ([rolling_keeps_last]).
    - Behaviour of the code that its own comments or tests of other branches contradict is stated as theorems too
      ([self_payment_mints], [unchecked_payload], [asset_transfer_unsigned], [asset_supply_unbounded],
      [multithreaded_blind]), and so are the overflows of the average of targets ([mainnet_average_overflows],
      [devnet_average_overflows]).

    ** Conventions

    A pointer into a container is its key; [None] is a failed [assert], a null or dangling dereference, a missing
    element, a container of a negative size or the overflow of a signed integer, and every theorem of success excludes it.  Integers are [Z] with
    [u32], [u64], [i32], [i64] written at each wrap-around.  Hashes are 256-bit integers.  Functions that hash, verify
    a curve signature, decode a service's payload, read a disk, a clock or a network are parameters; what is assumed
    of them is a named hypothesis, always one the witness of the theorem instantiates.

    ** Fuel

    Loops without a structural measure take fuel: [EvalScript] the length of the script (each instruction takes a
    byte), the walks of the pool the number of entries plus one (each round adds an entry to the set), [trim_loop]
    likewise (each round removes one), the walks back over the index the height of where they start plus one,
    [FindMostWorkChain] the number of candidates plus one, the loops of [Assembler] products of the number of entries
    (each round puts an entry into the block or shortens an index).  Only [ActivateBestChain], which need not end, takes it as
    an argument; where it ends, anything above all heights is enough.  Each has a lemma that its fuel is enough, so that
    no theorem reads "if it returns".

    ** Not modelled, and why

    Wallet, RPC, GUI, network, init and storage are input and output around the core.  Masternodes, governance,
    sporks, PrivateSend and InstantSend are network protocols with timers; the answers the block checks ask of them are
    parameters.  The handlers of aliases, certificates, offers and escrows are not modelled but for their
    prefixes: they follow the plan of the handlers of assets, and what the latter ask of aliases is a
    parameter.  Of the pool, the updates after a reorganization, the fee estimator, the address
    and spent indexes and the rolling minimum fee are not modelled.  Of the network, only headers and filters are.
    Cryptography and the hash functions under src/src/crypto are parameters. *)

From Stdlib Require Export ZArith Lia.
From stdpp Require Export base tactics numbers option list.

#[global] Open Scope Z_scope.

(** ** Fixed-width machine integers

    A C++ integer of [w] bits is a [Z]; a conversion to an unsigned type of
    [w] bits is [wrap w], a conversion to a signed (two's complement) type of
    [w] bits is [swrap w]. *)

Definition wrap (w z : Z) : Z := z mod 2 ^ w.
Definition swrap (w z : Z) : Z := (z + 2 ^ (w - 1)) mod 2 ^ w - 2 ^ (w - 1).

Abbreviation u8 := (wrap 8).
Abbreviation u16 := (wrap 16).
Abbreviation u32 := (wrap 32).
Abbreviation u64 := (wrap 64).
Abbreviation i32 := (swrap 32).
Abbreviation i64 := (swrap 64).

Definition in_u (w z : Z) : Prop := 0 <= z < 2 ^ w.
Definition in_s (w z : Z) : Prop := - 2 ^ (w - 1) <= z < 2 ^ (w - 1).

Abbreviation is_byte := (in_u 8).
Abbreviation bytes_ok := (Forall (in_u 8)).

#[global] Instance in_u_dec w z : Decision (in_u w z).
Proof. unfold in_u. apply _. Defined.
#[global] Instance in_s_dec w z : Decision (in_s w z).
Proof. unfold in_s. apply _. Defined.

Create HintDb mach.

Lemma wrap_range w z : 0 <= w -> in_u w (wrap w z).
Proof. intros. apply Z.mod_pos_bound. lia. Qed.

Lemma wrap_small w z : in_u w z -> wrap w z = z.
Proof. apply Z.mod_small. Qed.

Lemma swrap_range w z : 0 < w -> in_s w (swrap w z).
Proof.
  intros. unfold in_s, swrap.
  pose proof (Z.mod_pos_bound (z + 2 ^ (w - 1)) (2 ^ w) ltac:(lia)).
  replace (2 ^ w) with (2 * 2 ^ (w - 1)) in * by (rewrite <- Z.pow_succ_r by lia; f_equal; lia).
  lia.
Qed.

Lemma swrap_small w z : 0 < w -> in_s w z -> swrap w z = z.
Proof.
  unfold in_s, swrap. intros Hw Hz. rewrite Z.mod_small; [lia|].
  replace (2 ^ w) with (2 * 2 ^ (w - 1)) by (rewrite <- Z.pow_succ_r by lia; f_equal; lia).
  lia.
Qed.

#[export] Hint Resolve wrap_range swrap_range : mach.

(** ** Bit operations as arithmetic *)

Lemma land_mask32 n : Z.land n 0xffffffff = n mod 2 ^ 32.
Proof. change 0xffffffff with (Z.ones 32). apply Z.land_ones. lia. Qed.

Lemma land_disjoint_shiftl a b k :
  0 <= k -> 0 <= a < 2 ^ k -> Z.land a (Z.shiftl b k) = 0.
Proof.
  intros Hk Ha. apply Z.bits_inj'. intros n Hn.
  rewrite Z.land_spec, Z.bits_0, Z.shiftl_spec by lia.
  destruct (Z.lt_ge_cases n k).
  - rewrite (Z.testbit_neg_r b) by lia. apply andb_false_r.
  - assert (a = 0 \/ 0 < a) as [->|] by lia; [by rewrite Z.bits_0|].
    rewrite Z.bits_above_log2; [done|lia|].
    apply Z.log2_lt_pow2; [lia|].
    eapply Z.lt_le_trans; [apply Ha|]. apply Z.pow_le_mono_r; lia.
Qed.

Lemma lor_shiftl_add a b k :
  0 <= k -> 0 <= a < 2 ^ k -> Z.lor a (Z.shiftl b k) = a + b * 2 ^ k.
Proof.
  intros Hk Ha. rewrite <- Z.shiftl_mul_pow2 by lia.
  pose proof (land_disjoint_shiftl a b k Hk Ha).
  rewrite <- Z.lxor_lor by done. symmetry. by apply Z.add_nocarry_lxor.
Qed.

(** Two values whose set bits cannot meet: one below [2^k], one a multiple of [2^k]. *)
Lemma lor_mult_add a b k :
  0 <= k -> 0 <= a < 2 ^ k -> b mod 2 ^ k = 0 -> Z.lor a b = a + b.
Proof.
  intros Hk Ha Hb.
  replace b with (Z.shiftl (b / 2 ^ k) k).
  { rewrite lor_shiftl_add, Z.shiftl_mul_pow2 by lia. done. }
  rewrite Z.shiftl_mul_pow2 by lia.
  pose proof (Z.div_mod b (2 ^ k) ltac:(lia)). lia.
Qed.

Lemma lnot_u32 x : in_u 32 x -> u32 (Z.lnot x) = 2 ^ 32 - 1 - x.
Proof.
  unfold in_u, wrap, Z.lnot. intros.
  rewrite <- (Z.mod_add _ 1) by lia. rewrite Z.mod_small; lia.
Qed.

Lemma land_le_l a b : 0 <= a -> 0 <= Z.land a b <= a.
Proof.
  intros Ha. split; [apply Z.land_nonneg; by left|].
  assert (a - Z.land a b = Z.ldiff a (Z.land a b)) as E.
  { apply Z.sub_nocarry_ldiff. apply Z.bits_inj'. intros n Hn.
    rewrite Z.ldiff_spec, Z.land_spec, Z.bits_0. by destruct (Z.testbit a n), (Z.testbit b n). }
  assert (0 <= Z.ldiff a (Z.land a b)) by (apply Z.ldiff_nonneg; by left).
  lia.
Qed.

(** Testing one bit of a word with a mask. *)
Lemma land_pow2_testbit x n :
  0 <= n -> negb (Z.land x (Z.shiftl 1 n) =? 0) = Z.testbit x n.
Proof.
  intros Hn. destruct (Z.testbit x n) eqn:E.
  - apply negb_true_iff, Z.eqb_neq. intros C.
    assert (Z.testbit (Z.land x (Z.shiftl 1 n)) n = false) as Hb by (rewrite C; apply Z.bits_0).
    rewrite Z.land_spec, E, Z.shiftl_spec, Z.sub_diag in Hb by lia. done.
  - apply negb_false_iff, Z.eqb_eq. apply Z.bits_inj'. intros m Hm.
    rewrite Z.land_spec, Z.bits_0, Z.shiftl_spec by lia.
    destruct (Z.eq_dec m n) as [->|]; [by rewrite E|].
    rewrite andb_comm. destruct (Z.lt_ge_cases m n).
    + by rewrite Z.testbit_neg_r by lia.
    + rewrite Z.bits_above_log2; [done|lia|]. simpl. lia.
Qed.

(** ** Little-endian byte strings

    [le_encode n x] are the [n] bytes of [x], least significant first
    ([WriteLE16/32/64] of crypto/common.h for [n] = 2, 4, 8); [le_decode] reads
    them back ([ReadLE16/32/64]). *)

Fixpoint le_encode (n : nat) (x : Z) : list Z :=
  match n with
  | O => []
  | S m => u8 x :: le_encode m (Z.shiftr x 8)
  end.

Fixpoint le_decode (l : list Z) : Z :=
  match l with
  | [] => 0
  | b :: l' => b + 2 ^ 8 * le_decode l'
  end.

Lemma le_encode_length n x : length (le_encode n x) = n.
Proof. revert x. induction n; intros; simpl; [done|]. by rewrite IHn. Qed.

Lemma le_encode_bytes n x : bytes_ok (le_encode n x).
Proof.
  revert x. induction n; intros; simpl; [constructor|].
  constructor; [by apply wrap_range|apply IHn].
Qed.

Lemma le_decode_encode n x : 0 <= x < 2 ^ (8 * Z.of_nat n) -> le_decode (le_encode n x) = x.
Proof.
  revert x. induction n as [|n IH]; intros x Hx; simpl le_encode; simpl le_decode.
  { simpl in Hx. lia. }
  unfold wrap. rewrite Z.shiftr_div_pow2 by lia.
  rewrite IH.
  - pose proof (Z.div_mod x (2 ^ 8) ltac:(lia)). lia.
  - replace (8 * Z.of_nat (S n)) with (8 + 8 * Z.of_nat n) in Hx by lia.
    rewrite Z.pow_add_r in Hx by lia.
    split; [apply Z.div_pos; lia|]. apply Z.div_lt_upper_bound; lia.
Qed.

Lemma le_decode_range l : bytes_ok l -> 0 <= le_decode l < 2 ^ (8 * Z.of_nat (length l)).
Proof.
  induction 1 as [|b l Hb Hl IH]; simpl length; simpl le_decode; [lia|].
  replace (8 * Z.of_nat (S (length l))) with (8 + 8 * Z.of_nat (length l)) by lia.
  rewrite Z.pow_add_r by lia. unfold in_u in Hb. nia.
Qed.

Lemma le_encode_decode l : bytes_ok l -> le_encode (length l) (le_decode l) = l.
Proof.
  induction 1 as [|b l Hb Hl IH]; simpl length; simpl le_encode; simpl le_decode; [done|].
  unfold in_u in Hb. f_equal.
  - unfold wrap. rewrite Z.mul_comm, Z.mod_add by lia. by apply Z.mod_small.
  - rewrite Z.shiftr_div_pow2 by lia. rewrite Z.mul_comm, Z.div_add by lia.
    rewrite Z.div_small by lia. apply IH.
Qed.

(** ** Case analysis on the boolean tests of the code *)

Ltac zbool :=
  repeat match goal with
  | H : (_ =? _) = true |- _ => apply Z.eqb_eq in H
  | H : (_ =? _) = false |- _ => apply Z.eqb_neq in H
  | H : (_ <? _) = true |- _ => apply Z.ltb_lt in H
  | H : (_ <? _) = false |- _ => apply Z.ltb_ge in H
  | H : (_ <=? _) = true |- _ => apply Z.leb_le in H
  | H : (_ <=? _) = false |- _ => apply Z.leb_gt in H
  | H : (_ >? _) = _ |- _ => rewrite Z.gtb_ltb in H
  | H : (_ >=? _) = _ |- _ => rewrite Z.geb_leb in H
  | H : _ && _ = true |- _ => apply andb_true_iff in H as [? ?]
  | H : _ || _ = false |- _ => apply orb_false_iff in H as [? ?]
  | H : negb _ = true |- _ => apply negb_true_iff in H
  | H : negb _ = false |- _ => apply negb_false_iff in H
  end.

(** Split on the condition of the first [if] of the goal. *)
Ltac case_if :=
  match goal with
  | |- context [if ?b then _ else _] =>
      lazymatch type of b with bool => destruct b eqn:?; zbool end
  end.

Ltac case_if_in H :=
  match type of H with
  | context [if ?b then _ else _] =>
      lazymatch type of b with bool => destruct b eqn:?; zbool end
  end.

(** ** Lists *)

Lemma list_len_S {A} (l : list A) n :
  length l = S n -> exists x l', l = x :: l' /\ length l' = n.
Proof. destruct l; simpl; intros; [lia|]. eauto with lia. Qed.

(** Name the elements of a list whose length is a numeral. *)
Ltac explode_list l H :=
  lazymatch type of H with
  | length _ = S _ =>
      let x := fresh "limb" in let l' := fresh "l" in let H' := fresh "Hlen" in
      apply list_len_S in H; destruct H as (x & l' & -> & H'); explode_list l' H'
  | length _ = O => apply nil_length_inv in H; subst l
  end.

(** ** Byte facts checked on all 256 bytes *)

Lemma byte_forall (P : Z -> bool) b :
  forallb P (seqZ 0 256) = true -> is_byte b -> P b = true.
Proof.
  intros H Hb. rewrite forallb_forall in H.
  apply H, list_elem_of_In, elem_of_seqZ. unfold in_u in Hb. lia.
Qed.

(** Prove an equation of boolean or integer byte functions by running it on every byte. *)
Ltac by_bytes b Hb :=
  pattern b;
  match goal with
  | |- (fun x => @?l x = @?r x) b =>
      lazymatch type of (l b) with
      | bool => apply eqb_prop, (byte_forall (fun x => eqb (l x) (r x)) b); [vm_compute; reflexivity|exact Hb]
      | Z => apply Z.eqb_eq, (byte_forall (fun x => l x =? r x) b); [vm_compute; reflexivity|exact Hb]
      end
  end.

Lemma land_byte_80 b : is_byte b -> (Z.land b 0x80 =? 0) = (b <? 128).
Proof. intros Hb. by_bytes b Hb. Qed.

Lemma land_byte_7f b : is_byte b -> (Z.land b 0x7f =? 0) = (b =? 0) || (b =? 128).
Proof. intros Hb. by_bytes b Hb. Qed.

Lemma le_decode_app l k :
  le_decode (l ++ k) = le_decode l + 2 ^ (8 * Z.of_nat (length l)) * le_decode k.
Proof.
  induction l as [|b l IH]; cbn [app le_decode length]; [change (8 * Z.of_nat 0) with 0; lia|].
  replace (8 * Z.of_nat (S (length l))) with (8 + 8 * Z.of_nat (length l)) by lia.
  rewrite IH, Z.pow_add_r by lia. lia.
Qed.

Lemma wrap_lor w a b : 0 <= w -> wrap w (Z.lor a b) = Z.lor (wrap w a) (wrap w b).
Proof. intros. unfold wrap. rewrite <- !Z.land_ones by done. apply Z.land_lor_distr_l. Qed.

Lemma wrap_land w a b : 0 <= w -> wrap w (Z.land a b) = Z.land (wrap w a) (wrap w b).
Proof.
  intros. unfold wrap. rewrite <- !Z.land_ones by done. apply Z.bits_inj'. intros n Hn.
  rewrite !Z.land_spec. by destruct (Z.testbit a n), (Z.testbit b n), (Z.testbit (Z.ones w) n).
Qed.

Lemma wrap_swrap w z : 0 < w -> wrap w (swrap w z) = wrap w z.
Proof.
  intros. unfold wrap, swrap. rewrite Zminus_mod_idemp_l. f_equal. lia.
Qed.

Lemma swrap_wrap w z : 0 < w -> swrap w (wrap w z) = swrap w z.
Proof. intros. unfold wrap, swrap. by rewrite Zplus_mod_idemp_l. Qed.

Lemma lor_in_s w a b : 0 < w -> in_s w a -> in_s w b -> in_s w (Z.lor a b).
Proof.
  unfold in_s. intros Hw Ha Hb.
  assert (forall a b, 0 <= a < 2 ^ (w - 1) -> 0 <= b < 2 ^ (w - 1) -> 0 <= Z.lor a b < 2 ^ (w - 1)) as Hpos.
  { intros c d Hc Hd. split; [apply Z.lor_nonneg; lia|].
    rewrite <- (Z.mod_small c (2 ^ (w - 1))), <- (Z.mod_small d (2 ^ (w - 1))) by lia.
    fold (wrap (w - 1) c) (wrap (w - 1) d). rewrite <- wrap_lor by lia.
    apply wrap_range. lia. }
  assert (forall a b, - 2 ^ (w - 1) <= a < 0 -> - 2 ^ (w - 1) <= b < 2 ^ (w - 1) ->
            - 2 ^ (w - 1) <= Z.lor a b < 0) as Hneg.
  { intros c d Hc Hd. pose proof (Z.lnot_lor c d) as E.
    pose proof (land_le_l (Z.lnot c) (Z.lnot d) ltac:(unfold Z.lnot; lia)).
    unfold Z.lnot in *. lia. }
  destruct (Z.lt_ge_cases a 0), (Z.lt_ge_cases b 0).
  - specialize (Hneg a b). lia.
  - specialize (Hneg a b). lia.
  - rewrite Z.lor_comm. specialize (Hneg b a). lia.
  - specialize (Hpos a b). lia.
Qed.

(** ** Checked signed arithmetic *)

(** The value of a signed 64-bit expression, [None] where it overflows, which is undefined behaviour. *)
Definition checked (z : Z) : option Z := if decide (in_s 64 z) then Some z else None.

Lemma checked_Some z n : checked z = Some n -> n = z /\ in_s 64 z.
Proof. unfold checked. destruct (decide (in_s 64 z)); [by intros [= <-]|done]. Qed.

Ltac step_checked H :=
  let n := fresh "n" in let E := fresh "E" in
  match type of H with
  | context [checked ?z] => destruct (checked z) as [n|] eqn:E; cbn [mbind option_bind] in H; [apply checked_Some in E as [-> E]|done]
  end.

Lemma checked_in z : in_s 64 z -> checked z = Some z.
Proof. intros Hz. unfold checked. by rewrite decide_True. Qed.
