(* ===== verification/Graph.v ===== *)
(** * Finite directed graphs and worklists

    Shared by the models that walk over a graph with a set of nodes still to visit: sums over finite sets of
    identifiers, reachability, and the step of a worklist traversal with its measure.  A graph is the function
    from a node to the set of its successors. *)

From stdpp Require Import gmap relations.
From S2P Require Import Prelude.

(** ** Sums over finite sets *)

Definition sum_over (f : Z -> Z) (s : gset Z) : Z := foldr (fun x n => f x + n) 0 (elements s).

Lemma sum_list_perm (f : Z -> Z) l1 l2 : l1 ≡ₚ l2 -> foldr (fun x n => f x + n) 0 l1 = foldr (fun x n => f x + n) 0 l2.
Proof. induction 1; cbn; lia. Qed.

Lemma sum_list_app (f : Z -> Z) l1 l2 : foldr (fun x n => f x + n) 0 (l1 ++ l2) = foldr (fun x n => f x + n) 0 l1 + foldr (fun x n => f x + n) 0 l2.
Proof. induction l1; cbn; lia. Qed.

Lemma sum_over_empty f : sum_over f ∅ = 0.
Proof. unfold sum_over. by rewrite elements_empty. Qed.

Lemma sum_over_singleton f x : sum_over f {[x]} = f x.
Proof. unfold sum_over. rewrite elements_singleton. cbn. lia. Qed.

Lemma sum_over_disj f s t : s ## t -> sum_over f (s ∪ t) = sum_over f s + sum_over f t.
Proof. intros Hd. unfold sum_over. rewrite <- sum_list_app. apply sum_list_perm. by apply elements_disj_union. Qed.

Lemma sum_over_split f s t : sum_over f s = sum_over f (s ∖ t) + sum_over f (s ∩ t).
Proof. rewrite <- sum_over_disj by set_solver. f_equal. apply set_eq. intros x. rewrite elem_of_union, elem_of_difference, elem_of_intersection. destruct (decide (x ∈ t)); tauto. Qed.

Lemma sum_over_insert f x s : x ∉ s -> sum_over f ({[x]} ∪ s) = f x + sum_over f s.
Proof. intros Hx. rewrite sum_over_disj by (by apply disjoint_singleton_l). by rewrite sum_over_singleton. Qed.

Lemma sum_over_delete f x s : x ∈ s -> sum_over f s = f x + sum_over f (s ∖ {[x]}).
Proof.
  intros Hx. rewrite (sum_over_split f s {[x]}). assert (s ∩ {[x]} = {[x]}) as ->; [|rewrite sum_over_singleton; lia].
  apply set_eq. intros y. rewrite elem_of_intersection, elem_of_singleton. split; [by intros [_ ?]|by intros ->].
Qed.

Lemma sum_over_ext f g s : (forall x, x ∈ s -> f x = g x) -> sum_over f s = sum_over g s.
Proof.
  intros H. unfold sum_over. assert (forall x, x ∈ elements s -> f x = g x) as Hl by (intros x Hx; apply H; by apply elem_of_elements).
  induction (elements s) as [|x l IH]; cbn; [done|]. rewrite Hl, IH; [done| |left]. intros y Hy. apply Hl. by right.
Qed.

Lemma sum_over_add f g s : sum_over (fun x => f x + g x) s = sum_over f s + sum_over g s.
Proof. unfold sum_over. induction (elements s); cbn; lia. Qed.

Lemma sum_over_le f g s : (forall x, x ∈ s -> f x <= g x) -> sum_over f s <= sum_over g s.
Proof.
  intros H. unfold sum_over. assert (forall x, x ∈ elements s -> f x <= g x) as Hl by (intros x Hx; apply H; by apply elem_of_elements).
  induction (elements s) as [|x l IH]; cbn; [lia|]. pose proof (Hl x ltac:(left)). assert (forall y, y ∈ l -> f y <= g y) as H2 by (intros y Hy; apply Hl; by right).
  specialize (IH H2). lia.
Qed.

Lemma sum_over_zero s : sum_over (fun _ => 0) s = 0.
Proof. unfold sum_over. induction (elements s); cbn; lia. Qed.

Lemma sum_over_nonneg f s : (forall x, x ∈ s -> 0 <= f x) -> 0 <= sum_over f s.
Proof. intros H. rewrite <- (sum_over_zero s). by apply sum_over_le. Qed.

Lemma sum_over_subset f s t : s ⊆ t -> (forall x, x ∈ t -> 0 <= f x) -> sum_over f s <= sum_over f t.
Proof.
  intros Hs H. rewrite (sum_over_split f t s). assert (t ∩ s = s) as -> by (apply set_eq; intros y; rewrite elem_of_intersection; split; [tauto|auto]).
  pose proof (sum_over_nonneg f (t ∖ s) ltac:(intros x [Hx _]%elem_of_difference; by apply H)). lia.
Qed.

Lemma sum_over_abs f s : Z.abs (sum_over f s) <= sum_over (fun x => Z.abs (f x)) s.
Proof. unfold sum_over. induction (elements s); cbn; lia. Qed.

Lemma sum_over_one s : sum_over (fun _ => 1) s = Z.of_nat (size s).
Proof. unfold sum_over, size, set_size. cbn. induction (elements s); cbn; lia. Qed.

(** ** Reachability *)

Section Graph.
Variable next : Z -> gset Z.

Definition step (x y : Z) : Prop := y ∈ next x.

(** The nodes reached from [x] by one step or more. *)
Definition reach_set (x : Z) (s : gset Z) : Prop := forall y, y ∈ s <-> tc step x y.

Lemma reach_set_unique x s t : reach_set x s -> reach_set x t -> s = t.
Proof. intros Hs Ht. apply set_eq. intros y. by rewrite (Hs y), (Ht y). Qed.

Lemma rtc_tc_iff x y : rtc step x y <-> x = y \/ tc step x y.
Proof.
  split.
  - intros [->|(z & H1 & H2)]%rtc_inv; [by left|right]. by eapply tc_rtc_r; [by apply tc_once|].
  - intros [->|H]; [done|by apply tc_rtc].
Qed.

Lemma tc_rtc_iff x y : tc step x y <-> exists z, z ∈ next x /\ rtc step z y.
Proof.
  split.
  - destruct 1 as [x y H|x y z H1 H2]; [by exists y|]. exists y. split; [done|by apply tc_rtc].
  - intros (z & Hz & Hr). eapply tc_rtc_r; [by apply tc_once|done].
Qed.

(** ** Worklists *)

(** Nodes in [seen] are expanded: what they lead to is seen or staged. *)
Record worklist (stage seen : gset Z) : Prop := {
  wl_disj : stage ## seen;
  wl_expanded : forall x y, x ∈ seen -> y ∈ next x -> y ∈ seen \/ y ∈ stage;
}.

(** What the traversal ends with. *)
Definition covered (stage seen : gset Z) (y : Z) : Prop := y ∈ seen \/ exists s, s ∈ stage /\ rtc step s y.

Definition expand (x : Z) (stage seen : gset Z) : gset Z := (stage ∖ {[x]}) ∪ (next x ∖ ({[x]} ∪ seen)).

Lemma worklist_expand x stage seen : x ∈ stage -> worklist stage seen -> worklist (expand x stage seen) ({[x]} ∪ seen).
Proof.
  intros Hx [D E]. unfold expand. constructor; [set_solver|]. intros u v Hu Hv. destruct (decide (v ∈ {[x]} ∪ seen)); [by left|right].
  apply elem_of_union in Hu as [->%elem_of_singleton|Hu]; [set_solver|]. destruct (E u v Hu Hv); set_solver.
Qed.

Lemma covered_from stage seen u y : worklist stage seen -> u ∈ seen \/ u ∈ stage -> rtc step u y -> covered stage seen y.
Proof.
  intros W Hu Hr. induction Hr as [u|u v y Huv Hr IH].
  - destruct Hu; [by left|right; by exists u].
  - destruct Hu as [Hu|Hu]; [apply IH; by apply (wl_expanded _ _ W u v)|]. right. exists u. split; [done|by eapply rtc_l].
Qed.

Lemma covered_expand x stage seen y :
  x ∈ stage -> worklist stage seen -> covered (expand x stage seen) ({[x]} ∪ seen) y <-> covered stage seen y.
Proof.
  intros Hx W. split.
  - intros [[->%elem_of_singleton|Hy]%elem_of_union|(s & Hs & Hr)].
    + right. by exists x.
    + by left.
    + unfold expand in Hs. apply elem_of_union in Hs as [Hs|Hs]; right; [exists s; set_solver|].
      exists x. split; [done|]. eapply rtc_l; [|exact Hr]. unfold step. set_solver.
  - pose proof (worklist_expand x stage seen Hx W) as W'. intros [Hy|(s & Hs & Hr)]; [left; set_solver|].
    apply (covered_from _ _ s); [done| |done]. unfold expand. destruct (decide (s = x)); [left|right]; set_solver.
Qed.

(** An expansion sees one more node of any set that holds the staged ones and is closed under the graph. *)
Definition within (u stage seen : gset Z) : Prop := stage ⊆ u /\ seen ⊆ u /\ forall x, x ∈ u -> next x ⊆ u.

Lemma within_expand u x stage seen : x ∈ stage -> within u stage seen -> within u (expand x stage seen) ({[x]} ∪ seen).
Proof. intros Hx (H1 & H2 & H3). unfold expand. pose proof (H3 x ltac:(set_solver)). split_and!; [set_solver|set_solver|done]. Qed.

Lemma measure_expand u x stage seen :
  x ∈ stage -> worklist stage seen -> within u stage seen -> (size (u ∖ ({[x]} ∪ seen)) < size (u ∖ seen))%nat.
Proof. intros Hx W (H1 & _ & _). apply subset_size. pose proof (wl_disj _ _ W). set_solver. Qed.

Lemma covered_done seen y : covered ∅ seen y <-> y ∈ seen.
Proof. unfold covered. split; [intros [?|(s & ? & _)]; [done|set_solver]|by left]. Qed.

(** The set a traversal ends with exists. *)
Lemma covered_exists u stage seen : worklist stage seen -> within u stage seen -> exists t : gset Z, forall y, y ∈ t <-> covered stage seen y.
Proof.
  remember (size (u ∖ seen)) as n eqn:En. revert stage seen En. induction n as [n IH] using lt_wf_ind. intros stage seen -> W I.
  destruct (decide (stage = ∅)) as [->|Hne]; [exists seen; intros y; by rewrite covered_done|].
  apply set_choose_L in Hne as [x Hx].
  destruct (IH _ (measure_expand u x stage seen Hx W I) _ _ eq_refl (worklist_expand x stage seen Hx W) (within_expand u x stage seen Hx I)) as [t Ht].
  exists t. intros y. by rewrite Ht, covered_expand.
Qed.

Lemma covered_within u stage seen y : within u stage seen -> covered stage seen y -> y ∈ u.
Proof.
  intros (H1 & H2 & H3) [Hy|(s & Hs & Hr)]; [by apply H2|]. apply H1 in Hs. induction Hr as [|a b c Hab _ IH]; [done|]. apply IH. by apply (H3 a).
Qed.

Lemma covered_start x y : covered (next x) ∅ y <-> tc step x y.
Proof. rewrite tc_rtc_iff. unfold covered. split; [intros [?%elem_of_empty|?]; [done|done]|by right]. Qed.

Lemma covered_one x y : covered {[x]} ∅ y <-> rtc step x y.
Proof.
  unfold covered. split; [intros [?%elem_of_empty|(s & ->%elem_of_singleton & ?)]; done|]. intros Hr. right. exists x. by rewrite elem_of_singleton.
Qed.

Lemma worklist_start stage : worklist stage ∅.
Proof. constructor; [apply disjoint_empty_r|]. by intros x y ?%elem_of_empty. Qed.

Lemma within_start u stage : stage ⊆ u -> (forall x, x ∈ u -> next x ⊆ u) -> within u stage ∅.
Proof. intros H1 H2. split_and!; [done|apply empty_subseteq|done]. Qed.

(** The nodes reached from one, itself included, by a traversal of a closed set [u]. *)
Fixpoint traverse (fuel : nat) (stage seen : gset Z) : gset Z :=
  match fuel with
  | O => seen
  | S fuel => match elements stage with [] => seen | x :: _ => traverse fuel (expand x stage seen) ({[x]} ∪ seen) end
  end.

Definition closure (u : gset Z) (x : Z) : gset Z := traverse (S (size u)) {[x]} ∅.

Lemma traverse_ok u fuel stage seen y :
  worklist stage seen -> within u stage seen -> (size (u ∖ seen) < fuel)%nat -> y ∈ traverse fuel stage seen <-> covered stage seen y.
Proof.
  revert stage seen. induction fuel as [|fuel IH]; intros stage seen W I Hf; [lia|]. cbn [traverse].
  destruct (elements stage) as [|x l] eqn:E.
  - apply elements_empty_inv in E. assert (stage = ∅) as -> by by apply leibniz_equiv. by rewrite covered_done.
  - assert (x ∈ stage) as Hx by (apply elem_of_elements; rewrite E; left). pose proof (measure_expand u x stage seen Hx W I).
    rewrite IH by (lia || by apply worklist_expand || by apply within_expand). by apply covered_expand.
Qed.

Lemma closure_ok u x y : x ∈ u -> (forall z, z ∈ u -> next z ⊆ u) -> y ∈ closure u x <-> rtc step x y.
Proof.
  intros Hx Hu. unfold closure. rewrite (traverse_ok u); [apply covered_one|apply worklist_start| |].
  - apply within_start; [|done]. by apply singleton_subseteq_l.
  - pose proof (subseteq_size (u ∖ ∅) u ltac:(intros z [? _]%elem_of_difference; done)). lia.
Qed.

Lemma closure_subset u x : x ∈ u -> (forall z, z ∈ u -> next z ⊆ u) -> closure u x ⊆ u.
Proof.
  intros Hx Hu y Hy. apply closure_ok in Hy; [|done|done]. apply (covered_within u {[x]} ∅); [|by apply covered_one].
  apply within_start; [|done]. by apply singleton_subseteq_l.
Qed.

End Graph.

(** The successors of the nodes of a set, the reversed graph. *)
Lemma step_reverse next prev x y : (forall a b, b ∈ next a <-> a ∈ prev b) -> tc (step next) x y <-> tc (step prev) y x.
Proof.
  intros H. split.
  - induction 1 as [a b Hs|a b c Hs _ IH]; [apply tc_once; by apply H|]. eapply tc_r; [exact IH|by apply H].
  - induction 1 as [a b Hs|a b c Hs _ IH]; [apply tc_once; by apply H|]. eapply tc_r; [exact IH|by apply H].
Qed.

(** Reachability outside of a set that is closed forward or backward. *)
Lemma rtc_restrict next next' (s : gset Z) k y :
  (forall x, x ∉ s -> next' x = next x ∖ s) ->
  (forall x z, x ∈ s -> z ∈ next x -> z ∈ s) \/ (forall x z, z ∈ s -> z ∈ next x -> x ∈ s) ->
  k ∉ s -> rtc (step next') k y <-> rtc (step next) k y /\ y ∉ s.
Proof.
  intros Hn Hc Hk. split.
  - intros Hr. induction Hr as [x|x z y Hxz Hr IH]; [done|]. unfold step in Hxz. rewrite Hn in Hxz by done. apply elem_of_difference in Hxz as [Hxz Hz].
    destruct (IH Hz) as [IH1 IH2]. split; [|done]. by eapply rtc_l.
  - intros [Hr Hy]. induction Hr as [x|x z y Hxz Hr IH]; [done|]. assert (z ∉ s) as Hz.
    { destruct Hc as [Hf|Hb]; [|intros Hz; by apply Hk, (Hb x z)]. clear IH Hxz. intros Hz. apply Hy. clear -Hr Hz Hf. induction Hr as [|a b c Hab _ IH]; [done|]. apply IH. by apply (Hf a). }
    eapply rtc_l; [|by apply IH]. unfold step. rewrite Hn by done. by apply elem_of_difference.
Qed.

Lemma rtc_reverse next prev x y : (forall a b, b ∈ next a <-> a ∈ prev b) -> rtc (step next) x y <-> rtc (step prev) y x.
Proof. intros H. rewrite !rtc_tc_iff, (step_reverse next prev) by done. split; (intros [->|?]; [by left|by right]). Qed.

Lemma tc_congruence_step next next' x y : (forall a b, step next a b -> step next' a b) -> tc (step next) x y -> tc (step next') x y.
Proof. intros H. apply (tc_congruence id). exact H. Qed.

Lemma rtc_same next next' x y : (forall a, next a = next' a) -> rtc (step next) x y <-> rtc (step next') x y.
Proof.
  intros H. split; intros Hr; (induction Hr as [|a b c Hab _ IH]; [done|]); (eapply rtc_l; [|exact IH]); unfold step in *; by rewrite H in *.
Qed.
