(* ===== verification/ArithUint256.v ===== *)
(** * 256-bit unsigned integers and the compact target encoding

    Models [src/src/arith_uint256.h] and [src/src/arith_uint256.cpp]:
    [base_uint<256>] as its eight little-endian 32-bit limbs, every operator as
    the limb loop of the source, and [arith_uint256::SetCompact] /
    [GetCompact].  The theorems relate the limb loops to integer arithmetic
    modulo [2^256] through [val]. *)

From S2P Require Import Prelude.

(** [enum { WIDTH=BITS/32 }; uint32_t pn[WIDTH];] with [BITS = 256]. *)
Definition WIDTH : nat := 8.
Abbreviation base_uint := (list Z) (only parsing).

(** The limb [pn[i]]; every index the code uses is below [WIDTH]. *)
Definition limb (a : base_uint) (i : nat) : Z := nth i a 0.

(** [base_uint()] *)
Definition bn_zero : base_uint := replicate WIDTH 0.

(** [base_uint(uint64_t b)] and [operator=(uint64_t b)] *)
Definition of_u64 (b : Z) : base_uint :=
  u32 b :: u32 (Z.shiftr (u64 b) 32) :: replicate (WIDTH - 2) 0.

(** [operator!] *)
Definition bn_is_zero (a : base_uint) : bool := forallb (fun x => x =? 0) a.

(** [operator~] *)
Definition bn_not (a : base_uint) : base_uint := map (fun x => u32 (Z.lnot x)) a.

(** [operator++]: [while (++pn[i] == 0 && i < WIDTH-1) i++;] *)
Fixpoint bn_inc (a : base_uint) : base_uint :=
  match a with
  | [] => []
  | x :: a' =>
      let x' := u32 (x + 1) in
      if x' =? 0 then x' :: bn_inc a' else x' :: a'
  end.

(** [operator--]: [while (--pn[i] == (uint32_t)-1 && i < WIDTH-1) i++;] *)
Fixpoint bn_dec (a : base_uint) : base_uint :=
  match a with
  | [] => []
  | x :: a' =>
      let x' := u32 (x - 1) in
      if x' =? 2 ^ 32 - 1 then x' :: bn_dec a' else x' :: a'
  end.

(** unary [operator-]: complement every limb, then [ret++] *)
Definition bn_neg (a : base_uint) : base_uint := bn_inc (bn_not a).

(** [operator^=], [operator&=], [operator|=] *)
Definition bn_xor (a b : base_uint) : base_uint := zip_with Z.lxor a b.
Definition bn_and (a b : base_uint) : base_uint := zip_with Z.land a b.
Definition bn_or (a b : base_uint) : base_uint := zip_with Z.lor a b.

(** [operator+=(const base_uint& b)]: the carry loop *)
Fixpoint add_loop (carry : Z) (a b : base_uint) : base_uint :=
  match a, b with
  | x :: a', y :: b' =>
      let n := u64 (carry + x + y) in
      Z.land n 0xffffffff :: add_loop (Z.shiftr n 32) a' b'
  | _, _ => []
  end.

Definition bn_add (a b : base_uint) : base_uint := add_loop 0 a b.

(** [operator-=]: [*this += -b] *)
Definition bn_sub (a b : base_uint) : base_uint := bn_add a (bn_neg b).

(** [operator+=(uint64_t)] and [operator-=(uint64_t)] *)
Definition bn_add_u64 (a : base_uint) (b64 : Z) : base_uint := bn_add a (of_u64 b64).
Definition bn_sub_u64 (a : base_uint) (b64 : Z) : base_uint := bn_add a (bn_neg (of_u64 b64)).

(** [operator*=(uint32_t b32)] *)
Fixpoint mul32_loop (carry b32 : Z) (a : base_uint) : base_uint :=
  match a with
  | [] => []
  | x :: a' =>
      let n := u64 (carry + u64 (b32 * x)) in
      Z.land n 0xffffffff :: mul32_loop (Z.shiftr n 32) b32 a'
  end.

Definition bn_mul32 (a : base_uint) (b32 : Z) : base_uint := mul32_loop 0 (u32 b32) a.

(** [operator*=(const base_uint& b)]: the inner loop over [i] with [i + j < WIDTH],
    on the limbs [pn[j..]] *)
Fixpoint mul_row (carry aj : Z) (p b : base_uint) : base_uint :=
  match p, b with
  | x :: p', y :: b' =>
      let n := u64 (carry + x + u64 (aj * y)) in
      Z.land n 0xffffffff :: mul_row (Z.shiftr n 32) aj p' b'
  | _, _ => []
  end.

Definition mul_step (a b p : base_uint) (j : nat) : base_uint :=
  take j p ++ mul_row 0 (limb a j) (drop j p) b.

Definition bn_mul (a b : base_uint) : base_uint :=
  foldl (mul_step a b) (of_u64 0) (seq 0 WIDTH).

(** [pn[i] |= v] *)
Definition or_limb (p : base_uint) (i : nat) (v : Z) : base_uint :=
  <[i := Z.lor (limb p i) v]> p.

(** [operator<<=] *)
Definition shl_step (a : base_uint) (k : nat) (s : Z) (p : base_uint) (i : nat) : base_uint :=
  let p1 := if (i + k + 1 <? WIDTH)%nat && negb (s =? 0)
            then or_limb p (i + k + 1) (Z.shiftr (limb a i) (32 - s)) else p in
  if (i + k <? WIDTH)%nat then or_limb p1 (i + k) (u32 (Z.shiftl (limb a i) s)) else p1.

Definition bn_shl (a : base_uint) (shift : Z) : base_uint :=
  let k := Z.to_nat (u32 shift / 32) in
  let s := u32 shift mod 32 in
  foldl (shl_step a k s) bn_zero (seq 0 WIDTH).

(** [operator>>=] *)
Definition shr_step (a : base_uint) (k : nat) (s : Z) (p : base_uint) (i : nat) : base_uint :=
  let p1 := if (k + 1 <=? i)%nat && negb (s =? 0)
            then or_limb p (i - k - 1) (u32 (Z.shiftl (limb a i) (32 - s))) else p in
  if (k <=? i)%nat then or_limb p1 (i - k) (Z.shiftr (limb a i) s) else p1.

Definition bn_shr (a : base_uint) (shift : Z) : base_uint :=
  let k := Z.to_nat (u32 shift / 32) in
  let s := u32 shift mod 32 in
  foldl (shr_step a k s) bn_zero (seq 0 WIDTH).

(** [CompareTo]: from the most significant limb down; [l1], [l2] are the limbs
    below the current index in descending order *)
Fixpoint compare_loop (l1 l2 : list Z) : Z :=
  match l1, l2 with
  | x :: l1', y :: l2' => if x <? y then -1 else if x >? y then 1 else compare_loop l1' l2'
  | _, _ => 0
  end.

Definition CompareTo (a b : base_uint) : Z := compare_loop (reverse a) (reverse b).

Definition bn_gt (a b : base_uint) : bool := CompareTo a b >? 0.
Definition bn_lt (a b : base_uint) : bool := CompareTo a b <? 0.
Definition bn_ge (a b : base_uint) : bool := CompareTo a b >=? 0.
Definition bn_le (a b : base_uint) : bool := CompareTo a b <=? 0.
Definition bn_eq (a b : base_uint) : bool := bool_decide (a = b).

(** [EqualTo(uint64_t b)] *)
Definition EqualTo (a : base_uint) (b : Z) : bool :=
  if existsb (fun x => negb (x =? 0)) (drop 2 a) then false
  else if negb (limb a 1 =? Z.shiftr b 32) then false
  else if negb (limb a 0 =? Z.land b 0xffffffff) then false
  else true.

(** [bits()]: the scan [for (int bits = 31; bits > 0; bits--)] of one limb ... *)
Fixpoint top_bit (x : Z) (bits : nat) : Z :=
  match bits with
  | O => 0
  | S m => if negb (Z.land x (Z.shiftl 1 (Z.of_nat bits)) =? 0) then Z.of_nat bits else top_bit x m
  end.

(** ... inside the scan of the limbs from the top; [pos] counts down. *)
Fixpoint bits_loop (a : base_uint) (pos : nat) : Z :=
  match pos with
  | O => 0
  | S p => if negb (limb a p =? 0) then 32 * Z.of_nat p + top_bit (limb a p) 31 + 1
           else bits_loop a p
  end.

Definition bn_bits (a : base_uint) : Z := bits_loop a WIDTH.

(** [GetLow64] *)
Definition GetLow64 (a : base_uint) : Z := Z.lor (limb a 0) (Z.shiftl (limb a 1) 32).

(** [operator/=]: [shift] counts down from [num_bits - div_bits]; [n = shift + 1]. *)
Fixpoint div_loop (n : nat) (num div q : base_uint) : base_uint :=
  match n with
  | O => q
  | S shift =>
      let '(num', q') :=
        if bn_ge num div
        then (bn_sub num div,
              or_limb q (shift / 32) (u32 (Z.shiftl 1 (Z.land (Z.of_nat shift) 31))))
        else (num, q) in
      div_loop shift num' (bn_shr div 1) q'
  end.

(** [None] is the exception [uint_error("Division by zero")]. *)
Definition bn_div (a b : base_uint) : option base_uint :=
  let num_bits := bn_bits a in
  let div_bits := bn_bits b in
  if div_bits =? 0 then None
  else if div_bits >? num_bits then Some (of_u64 0)
  else
    let shift := num_bits - div_bits in
    Some (div_loop (S (Z.to_nat shift)) a (bn_shl b shift) (of_u64 0)).

(** [arith_uint256::SetCompact]: the value, [*pfNegative] and [*pfOverflow] *)
Definition SetCompact (nCompact : Z) : base_uint * bool * bool :=
  let nSize := Z.shiftr nCompact 24 in
  let nWord0 := Z.land nCompact 0x007fffff in
  let '(nWord, this) :=
    if nSize <=? 3
    then let w := Z.shiftr nWord0 (8 * (3 - nSize)) in (w, of_u64 w)
    else (nWord0, bn_shl (of_u64 nWord0) (8 * (nSize - 3))) in
  let fNegative := negb (nWord =? 0) && negb (Z.land nCompact 0x00800000 =? 0) in
  let fOverflow := negb (nWord =? 0) &&
                   ((nSize >? 34) || ((nWord >? 0xff) && (nSize >? 33)) ||
                    ((nWord >? 0xffff) && (nSize >? 32))) in
  (this, fNegative, fOverflow).

Definition SetCompact_val (nCompact : Z) : base_uint := (SetCompact nCompact).1.1.

(** [arith_uint256::GetCompact]; [None] is a failed [assert]. *)
Definition GetCompact_sign (a : base_uint) (fNegative : bool) : option Z :=
  let nSize := (bn_bits a + 7) / 8 in
  let nCompact :=
    if nSize <=? 3 then u32 (u64 (Z.shiftl (GetLow64 a) (8 * (3 - nSize))))
    else u32 (GetLow64 (bn_shr a (8 * (nSize - 3)))) in
  let '(nCompact, nSize) :=
    if negb (Z.land nCompact 0x00800000 =? 0)
    then (Z.shiftr nCompact 8, nSize + 1) else (nCompact, nSize) in
  if negb (Z.land nCompact (u32 (Z.lnot 0x007fffff)) =? 0) then None
  else if negb (nSize <? 256) then None
  else
    let nCompact := Z.lor nCompact (u32 (Z.shiftl nSize 24)) in
    Some (Z.lor nCompact
            (if fNegative && negb (Z.land nCompact 0x007fffff =? 0) then 0x00800000 else 0)).

Definition GetCompact (a : base_uint) : option Z := GetCompact_sign a false.

(** The conversions to and from the 32-byte little-endian [uint256] *)
Definition ArithToUint256 (a : base_uint) : list Z :=
  concat (map (fun x => le_encode 4 (limb a x)) (seq 0 WIDTH)).

Definition UintToArith256 (b : list Z) : base_uint :=
  map (fun x => le_decode (take 4 (drop (x * 4) b))) (seq 0 WIDTH).

(** ** Value of a limb sequence *)

Fixpoint val (a : base_uint) : Z :=
  match a with
  | [] => 0
  | x :: a' => x + 2 ^ 32 * val a'
  end.

Definition wf (a : base_uint) : Prop := length a = WIDTH /\ Forall (in_u 32) a.

(** The modulus of a limb sequence of length [n]. *)
Abbreviation modulus n := (2 ^ (32 * Z.of_nat n)).

Lemma modulus_S n : modulus (S n) = 2 ^ 32 * modulus n.
Proof. rewrite <- Z.pow_add_r by lia. f_equal. lia. Qed.

(** Reducing a number of two parts modulo a multiple of the lower part's base
    reduces the upper part. *)
Lemma mod_split B x v m :
  0 < m -> 0 <= x < B -> (x + B * v) mod (B * m) = x + B * (v mod m).
Proof.
  intros Hm Hx. pose proof (Z.div_mod v m ltac:(lia)).
  pose proof (Z.mod_pos_bound v m Hm).
  symmetry. apply Z.mod_unique with (v / m); nia.
Qed.

Lemma val_range a : Forall (in_u 32) a -> 0 <= val a < modulus (length a).
Proof.
  induction 1 as [|x a Hx Ha IH]; simpl length; [simpl; lia|].
  rewrite modulus_S. simpl val. unfold in_u in Hx. nia.
Qed.

Lemma wf_range a : wf a -> 0 <= val a < 2 ^ 256.
Proof. intros [Hl Hf]. pose proof (val_range a Hf) as H. by rewrite Hl in H. Qed.

Lemma val_app a b : val (a ++ b) = val a + modulus (length a) * val b.
Proof.
  induction a as [|x a IH]; [simpl; lia|].
  simpl app. simpl val. simpl length. rewrite modulus_S, IH. lia.
Qed.

Lemma val_inj a b :
  length a = length b -> Forall (in_u 32) a -> Forall (in_u 32) b -> val a = val b -> a = b.
Proof.
  revert b. induction a as [|x a IH]; intros [|y b] Hl Ha Hb Hv; simpl in Hl; try lia; [done|].
  inversion_clear Ha. inversion_clear Hb. simpl in Hv. unfold in_u in *.
  assert (x = y /\ val a = val b) as [-> ?] by lia. f_equal. apply IH; auto.
Qed.

Lemma val_replicate n : val (replicate n 0) = 0.
Proof. induction n; [done|]. simpl replicate. simpl val. lia. Qed.

Lemma wf_zero : wf bn_zero.
Proof. split; [done|]. by apply Forall_replicate. Qed.

Lemma wf_of_u64 b : wf (of_u64 b).
Proof.
  split; [done|]. unfold of_u64. constructor; [by apply wrap_range|].
  constructor; [by apply wrap_range|]. by apply Forall_replicate.
Qed.

Lemma val_of_u64 b : in_u 64 b -> val (of_u64 b) = b.
Proof.
  intros Hb. unfold of_u64. cbn [val]. rewrite val_replicate.
  rewrite (wrap_small 64) by done. unfold in_u in Hb. unfold wrap.
  rewrite Z.shiftr_div_pow2 by lia.
  rewrite (Z.mod_small (b / 2 ^ 32)) by (split; [apply Z.div_pos|apply Z.div_lt_upper_bound]; lia).
  pose proof (Z.div_mod b (2 ^ 32) ltac:(lia)). lia.
Qed.

#[export] Hint Resolve wf_zero wf_of_u64 : mach.

(** ** Complement, increment, negation *)

Lemma not_forall a : Forall (in_u 32) (bn_not a).
Proof. apply Forall_map, Forall_true. intros. by apply wrap_range. Qed.

Lemma not_val a : Forall (in_u 32) a -> val (bn_not a) = modulus (length a) - 1 - val a.
Proof.
  induction 1 as [|x a Hx Ha IH]; [done|].
  change (bn_not (x :: a)) with (u32 (Z.lnot x) :: bn_not a).
  simpl length. rewrite modulus_S. cbn [val].
  rewrite IH, lnot_u32 by done. lia.
Qed.

Lemma inc_length a : length (bn_inc a) = length a.
Proof. induction a as [|x a IH]; [done|]. cbn. case_if; simpl; lia. Qed.

Lemma inc_forall a : Forall (in_u 32) a -> Forall (in_u 32) (bn_inc a).
Proof.
  induction 1 as [|x a Hx Ha IH]; [constructor|].
  cbn. case_if; constructor; auto; by apply wrap_range.
Qed.

Lemma inc_val a : Forall (in_u 32) a -> val (bn_inc a) = (val a + 1) mod modulus (length a).
Proof.
  induction 1 as [|x a Hx Ha IH]; [cbn; by rewrite Z.mod_1_r|].
  pose proof (val_range a Ha) as Hr. unfold in_u in Hx.
  simpl length. rewrite modulus_S. cbn [bn_inc val]. case_if; cbn [val].
  - unfold wrap in *.
    assert (x = 2 ^ 32 - 1) as -> by (destruct (Z.eq_dec x (2 ^ 32 - 1)); [done|];
      rewrite Z.mod_small in Heqb by lia; lia).
    rewrite IH, Heqb. replace (2 ^ 32 - 1 + 2 ^ 32 * val a + 1) with (2 ^ 32 * (val a + 1)) by lia.
    rewrite Z.mul_mod_distr_l by lia. lia.
  - unfold wrap in *.
    assert (x <> 2 ^ 32 - 1) by (intros ->; by rewrite Z.sub_add, Z.mod_same in Heqb by lia).
    rewrite !Z.mod_small by nia. lia.
Qed.

Lemma neg_val a : Forall (in_u 32) a -> val (bn_neg a) = (- val a) mod modulus (length a).
Proof.
  intros Ha. unfold bn_neg. rewrite inc_val by apply not_forall. rewrite not_val by done.
  unfold bn_not. rewrite length_map.
  replace (_ - 1 - val a + 1) with (- val a + 1 * modulus (length a)) by lia.
  by rewrite Z.mod_add by lia.
Qed.

Lemma neg_wf a : wf a -> wf (bn_neg a).
Proof.
  intros [Hl Hf]. split.
  - unfold bn_neg, bn_not. by rewrite inc_length, length_map.
  - apply inc_forall, not_forall.
Qed.

Lemma dec_length a : length (bn_dec a) = length a.
Proof. induction a as [|x a IH]; [done|]. cbn. case_if; simpl; lia. Qed.

Lemma dec_forall a : Forall (in_u 32) a -> Forall (in_u 32) (bn_dec a).
Proof.
  induction 1 as [|x a Hx Ha IH]; [constructor|].
  cbn. case_if; constructor; auto; by apply wrap_range.
Qed.

Lemma dec_val a : Forall (in_u 32) a -> val (bn_dec a) = (val a - 1) mod modulus (length a).
Proof.
  induction 1 as [|x a Hx Ha IH]; [cbn; by rewrite Z.mod_1_r|].
  pose proof (val_range a Ha) as Hr. unfold in_u in Hx.
  simpl length. rewrite modulus_S. cbn [bn_dec val]. case_if; cbn [val].
  - unfold wrap in *.
    assert (x = 0) as -> by (destruct (Z.eq_dec x 0); [done|];
      rewrite Z.mod_small in Heqb by lia; lia).
    rewrite IH, Heqb.
    replace (0 + 2 ^ 32 * val a - 1) with (2 ^ 32 - 1 + 2 ^ 32 * (val a - 1)) by lia.
    by rewrite mod_split by lia.
  - unfold wrap in *.
    assert (x <> 0) by (intros ->; by vm_compute in Heqb).
    rewrite !Z.mod_small by nia. lia.
Qed.

(** ** Addition and subtraction *)

Lemma add_loop_length c a b : length a = length b -> length (add_loop c a b) = length a.
Proof.
  revert c b. induction a as [|x a IH]; intros c [|y b] H; simpl in *; try lia.
  rewrite IH; lia.
Qed.

Lemma land_limb n : in_u 32 (Z.land n 0xffffffff).
Proof. rewrite land_mask32. by apply (wrap_range 32). Qed.

Lemma add_loop_forall c a b : Forall (in_u 32) (add_loop c a b).
Proof.
  revert c b. induction a as [|x a IH]; intros c [|y b]; cbn [add_loop]; constructor; auto.
  apply land_limb.
Qed.

(** One step of a carry chain: the low limb of [n] and the carry out of it. *)
Lemma carry_split n t m :
  0 < m -> 0 <= n ->
  Z.land n 0xffffffff + 2 ^ 32 * ((Z.shiftr n 32 + t) mod m) = (n + 2 ^ 32 * t) mod (2 ^ 32 * m).
Proof.
  intros. rewrite land_mask32, Z.shiftr_div_pow2 by lia.
  rewrite <- mod_split; [|lia|apply Z.mod_pos_bound; lia].
  f_equal. pose proof (Z.div_mod n (2 ^ 32) ltac:(lia)). lia.
Qed.

Lemma add_loop_val c a b :
  length a = length b -> Forall (in_u 32) a -> Forall (in_u 32) b -> 0 <= c <= 1 ->
  val (add_loop c a b) = (c + val a + val b) mod modulus (length a).
Proof.
  revert c b. induction a as [|x a IH]; intros c [|y b] Hl Ha Hb Hc; simpl in Hl; try lia.
  { cbn. by rewrite Z.mod_1_r. }
  inversion_clear Ha. inversion_clear Hb. unfold in_u in *.
  simpl length. rewrite modulus_S. cbn [add_loop val].
  rewrite (wrap_small 64) by (unfold in_u; lia).
  assert (0 <= Z.shiftr (c + x + y) 32 <= 1).
  { rewrite Z.shiftr_div_pow2 by lia. split; [apply Z.div_pos; lia|].
    apply Z.lt_succ_r, Z.div_lt_upper_bound; lia. }
  rewrite IH by (done || lia).
  rewrite <- (Z.add_assoc (Z.shiftr _ _)), carry_split by lia. f_equal. lia.
Qed.

Lemma add_wf a b : wf a -> wf b -> wf (bn_add a b).
Proof.
  intros [Ha _] [Hb _]. split; [|apply add_loop_forall].
  unfold bn_add. rewrite add_loop_length; lia.
Qed.

Lemma add_val a b : wf a -> wf b -> val (bn_add a b) = (val a + val b) mod 2 ^ 256.
Proof.
  intros [Ha Fa] [Hb Fb]. unfold bn_add. rewrite add_loop_val by (done || lia).
  by rewrite Ha.
Qed.

Lemma sub_wf a b : wf a -> wf b -> wf (bn_sub a b).
Proof. intros. apply add_wf; [done|]. by apply neg_wf. Qed.

Lemma sub_val a b : wf a -> wf b -> val (bn_sub a b) = (val a - val b) mod 2 ^ 256.
Proof.
  intros Ha Hb. unfold bn_sub. rewrite add_val by (done || by apply neg_wf).
  destruct Hb as [Hl Fb]. rewrite neg_val, Hl by done.
  change (modulus WIDTH) with (2 ^ 256). rewrite Z.add_mod_idemp_r by lia. f_equal.
Qed.

(** ** Multiplication *)

Lemma mul32_loop_length c b a : length (mul32_loop c b a) = length a.
Proof. revert c. induction a as [|x a IH]; intros; simpl; [done|]. by rewrite IH. Qed.

Lemma mul32_loop_forall c b a : Forall (in_u 32) (mul32_loop c b a).
Proof.
  revert c. induction a as [|x a IH]; intros c; cbn [mul32_loop]; constructor; auto.
  apply land_limb.
Qed.

(** The double-width product plus two carries does not overflow 64 bits. *)
Lemma fma_bound x y c d :
  0 <= x < 2 ^ 32 -> 0 <= y < 2 ^ 32 -> 0 <= c < 2 ^ 32 -> 0 <= d < 2 ^ 32 ->
  0 <= c + d + x * y < 2 ^ 64 /\ 0 <= x * y < 2 ^ 64 /\
  0 <= Z.shiftr (c + d + x * y) 32 < 2 ^ 32.
Proof.
  intros. assert (0 <= x * y <= (2 ^ 32 - 1) * (2 ^ 32 - 1)) by nia.
  rewrite Z.shiftr_div_pow2 by lia.
  repeat split; try lia; [apply Z.div_pos; lia|apply Z.div_lt_upper_bound; lia].
Qed.

Lemma mul32_loop_val c b a :
  Forall (in_u 32) a -> in_u 32 b -> in_u 32 c ->
  val (mul32_loop c b a) = (c + b * val a) mod modulus (length a).
Proof.
  unfold in_u. intros Ha Hb. revert c. induction Ha as [|x a Hx Ha IH]; intros c Hc.
  { cbn. by rewrite Z.mod_1_r. }
  destruct (fma_bound b x c 0) as (H1 & H2 & H3); try lia. rewrite Z.add_0_r in *.
  simpl length. rewrite modulus_S. cbn [mul32_loop val].
  rewrite !(wrap_small 64) by (unfold in_u; rewrite ?(wrap_small 64) by (unfold in_u; lia); lia).
  rewrite IH by done. rewrite carry_split by lia. f_equal. lia.
Qed.

Lemma mul32_wf a b : wf a -> wf (bn_mul32 a b).
Proof.
  intros [Ha _]. split; [|apply mul32_loop_forall].
  unfold bn_mul32. by rewrite mul32_loop_length.
Qed.

Lemma mul32_val a b : wf a -> val (bn_mul32 a b) = (u32 b * val a) mod 2 ^ 256.
Proof.
  intros [Ha Fa]. unfold bn_mul32.
  rewrite mul32_loop_val; [|done|by apply wrap_range|by unfold in_u]. by rewrite Ha.
Qed.

Lemma mul_row_length c x p b : (length p <= length b)%nat -> length (mul_row c x p b) = length p.
Proof.
  revert c b. induction p as [|z p IH]; intros c [|y b] H; simpl in *; try lia.
  rewrite IH; lia.
Qed.

Lemma mul_row_forall c x p b : Forall (in_u 32) (mul_row c x p b).
Proof.
  revert c b. induction p as [|z p IH]; intros c [|y b]; cbn [mul_row]; constructor; auto.
  apply land_limb.
Qed.

Lemma mul_row_val c x p b :
  (length p <= length b)%nat -> Forall (in_u 32) p -> Forall (in_u 32) b ->
  in_u 32 x -> in_u 32 c ->
  val (mul_row c x p b) = (c + val p + x * val b) mod modulus (length p).
Proof.
  unfold in_u. intros Hl Hp Hb Hx. revert c b Hl Hb.
  induction Hp as [|z p Hz Hp IH]; intros c b Hl Hb Hc.
  { cbn. by rewrite Z.mod_1_r. }
  destruct Hb as [|y b Hy Hb]; simpl in Hl; [lia|].
  destruct (fma_bound x y c z) as (H1 & H2 & H3); try lia.
  simpl length. rewrite modulus_S. cbn [mul_row val].
  rewrite !(wrap_small 64) by (unfold in_u; rewrite ?(wrap_small 64) by (unfold in_u; lia); lia).
  rewrite IH by (done || lia). rewrite <- (Z.add_assoc (Z.shiftr _ _)), carry_split by lia. f_equal. lia.
Qed.

Lemma limb_range a i : Forall (in_u 32) a -> in_u 32 (limb a i).
Proof.
  intros Ha. revert i. induction Ha as [|x a Hx Ha IH]; intros [|i]; try done; try (by unfold in_u, limb; simpl).
  apply IH.
Qed.

Lemma val_take_drop j a : (j <= length a)%nat -> val a = val (take j a) + modulus j * val (drop j a).
Proof.
  intros Hj. rewrite <- (take_drop j a) at 1. rewrite val_app, length_take.
  by rewrite Nat.min_l.
Qed.

Lemma val_take_S j a :
  (j < length a)%nat -> val (take (S j) a) = val (take j a) + modulus j * limb a j.
Proof.
  revert a. induction j as [|j IH]; intros [|x a] Hj; simpl in Hj; try lia.
  { unfold limb. simpl. lia. }
  change (take (S (S j)) (x :: a)) with (x :: take (S j) a).
  change (take (S j) (x :: a)) with (x :: take j a). cbn [val].
  rewrite IH by lia. rewrite modulus_S. change (limb (x :: a) (S j)) with (limb a j). lia.
Qed.

Lemma mul_step_ok a b p j :
  wf a -> wf b -> wf p -> (j < WIDTH)%nat ->
  wf (mul_step a b p j) /\
  val (mul_step a b p j) = (val p + modulus j * limb a j * val b) mod 2 ^ 256.
Proof.
  intros [Ha Fa] [Hb Fb] [Hp Fp] Hj. unfold mul_step.
  assert (length (drop j p) <= length b)%nat by (rewrite length_drop; lia).
  split; [split|].
  - rewrite length_app, length_take, mul_row_length, length_drop by done. lia.
  - apply Forall_app. split; [by apply Forall_take|apply mul_row_forall].
  - rewrite val_app, length_take, Nat.min_l by lia.
    rewrite mul_row_val; [|done|by apply Forall_drop|done|by apply limb_range|by unfold in_u].
    rewrite length_drop. rewrite (val_take_drop j p) by lia.
    replace (2 ^ 256) with (modulus j * modulus (length p - j))
      by (rewrite <- Z.pow_add_r by lia; rewrite Hp; f_equal; unfold WIDTH in *; lia).
    replace (val (take j p) + modulus j * val (drop j p) + modulus j * limb a j * val b)
      with (val (take j p) + modulus j * (val (drop j p) + limb a j * val b)) by lia.
    rewrite mod_split; [by rewrite Z.add_0_l|lia|].
    pose proof (val_range (take j p) ltac:(by apply Forall_take)) as Hr.
    rewrite length_take, Nat.min_l in Hr by lia. done.
Qed.

Lemma mul_loop_ok a b n :
  wf a -> wf b -> (n <= WIDTH)%nat ->
  let p := foldl (mul_step a b) (of_u64 0) (seq 0 n) in
  wf p /\ val p = (val (take n a) * val b) mod 2 ^ 256.
Proof.
  intros Ha Hb. induction n as [|n IH]; intros Hn.
  { split; [apply wf_of_u64|done]. }
  rewrite seq_S, foldl_app. cbn [foldl Nat.add].
  destruct IH as [IHw IHv]; [lia|].
  destruct (mul_step_ok a b _ n Ha Hb IHw ltac:(lia)) as [Hw Hv].
  split; [done|]. rewrite Hv, IHv, Z.add_mod_idemp_l by lia.
  f_equal. rewrite val_take_S by (destruct Ha; lia). lia.
Qed.

Lemma mul_wf a b : wf a -> wf b -> wf (bn_mul a b).
Proof. intros. by apply (mul_loop_ok a b WIDTH). Qed.

Lemma mul_val a b : wf a -> wf b -> val (bn_mul a b) = (val a * val b) mod 2 ^ 256.
Proof.
  intros Ha Hb. destruct (mul_loop_ok a b WIDTH Ha Hb ltac:(lia)) as [_ H].
  unfold bn_mul. rewrite H. by rewrite take_ge by (destruct Ha; lia).
Qed.

(** ** Shifts

    [shl_chain] and [shr_chain] are the carry-chain readings of the two index
    loops: limb [j] of the result joins the shifted limb and its neighbour. *)

Fixpoint shl_chain (s c : Z) (a : base_uint) : base_uint :=
  match a with
  | [] => []
  | x :: a' => (c + (x * 2 ^ s) mod 2 ^ 32) :: shl_chain s (x * 2 ^ s / 2 ^ 32) a'
  end.

Fixpoint shr_chain (s : Z) (a : base_uint) : base_uint :=
  match a with
  | [] => []
  | x :: a' => (x / 2 ^ s + 2 ^ (32 - s) * (hd 0 a' mod 2 ^ s)) :: shr_chain s a'
  end.

Lemma pow2_split32 s : 0 <= s < 32 -> 2 ^ 32 = 2 ^ s * 2 ^ (32 - s).
Proof. intros. rewrite <- Z.pow_add_r by lia. f_equal. lia. Qed.

Lemma shl_lo_mult s x : 0 <= s < 32 -> ((x * 2 ^ s) mod 2 ^ 32) mod 2 ^ s = 0.
Proof.
  intros. rewrite (pow2_split32 s) by lia. rewrite (Z.mul_comm x).
  rewrite Z.mul_mod_distr_l by lia. by rewrite Z.mul_comm, Z.mod_mul by lia.
Qed.

Lemma shl_hi_range s x : 0 <= s < 32 -> in_u 32 x -> 0 <= x * 2 ^ s / 2 ^ 32 < 2 ^ s.
Proof.
  unfold in_u. intros. split; [apply Z.div_pos; lia|].
  apply Z.div_lt_upper_bound; nia.
Qed.

Lemma shl_limb_eq s c x :
  0 <= s < 32 -> 0 <= c < 2 ^ s -> Z.lor c (u32 (Z.shiftl x s)) = c + (x * 2 ^ s) mod 2 ^ 32.
Proof.
  intros Hs Hc. rewrite Z.shiftl_mul_pow2 by lia. unfold wrap.
  apply lor_mult_add with s; [lia|done|by apply shl_lo_mult].
Qed.

Lemma shl_hi_eq s x : 0 < s < 32 -> Z.shiftr x (32 - s) = x * 2 ^ s / 2 ^ 32.
Proof.
  intros. rewrite Z.shiftr_div_pow2 by lia. rewrite (pow2_split32 s), (Z.mul_comm x) by lia.
  by rewrite Z.div_mul_cancel_l by lia.
Qed.

Lemma shl_chain_ok s c a :
  0 <= s < 32 -> 0 <= c < 2 ^ s -> Forall (in_u 32) a ->
  Forall (in_u 32) (shl_chain s c a) /\
  val (shl_chain s c a) = (c + val a * 2 ^ s) mod modulus (length a).
Proof.
  intros Hs Hc Ha. revert c Hc. induction Ha as [|x a Hx Ha IH]; intros c Hc.
  { split; [constructor|]. cbn. by rewrite Z.mod_1_r. }
  destruct (IH _ (shl_hi_range s x Hs Hx)) as [IHf IHv].
  pose proof (Z.mod_pos_bound (x * 2 ^ s) (2 ^ 32) ltac:(lia)).
  pose proof (shl_lo_mult s x Hs) as Hm.
  assert (0 <= c + (x * 2 ^ s) mod 2 ^ 32 < 2 ^ 32).
  { split; [lia|]. pose proof (pow2_split32 s Hs).
    pose proof (Z.div_mod ((x * 2 ^ s) mod 2 ^ 32) (2 ^ s) ltac:(lia)) as Hd.
    rewrite Hm in Hd.
    assert (((x * 2 ^ s) mod 2 ^ 32) / 2 ^ s < 2 ^ (32 - s))
      by (apply Z.div_lt_upper_bound; lia).
    nia. }
  cbn [shl_chain val length]. split; [by constructor|].
  rewrite modulus_S, IHv. rewrite <- mod_split by lia. f_equal.
  pose proof (Z.div_mod (x * 2 ^ s) (2 ^ 32) ltac:(lia)). lia.
Qed.

Lemma shr_limb_eq s x y :
  0 <= s < 32 -> in_u 32 x ->
  Z.lor (Z.shiftr x s) (u32 (Z.shiftl y (32 - s))) = x / 2 ^ s + 2 ^ (32 - s) * (y mod 2 ^ s).
Proof.
  unfold in_u. intros Hs Hx. rewrite Z.shiftr_div_pow2, Z.shiftl_mul_pow2 by lia.
  assert (u32 (y * 2 ^ (32 - s)) = 2 ^ (32 - s) * (y mod 2 ^ s)) as ->.
  { unfold wrap. rewrite (pow2_split32 s), (Z.mul_comm y), (Z.mul_comm (2 ^ s)) by lia.
    by rewrite Z.mul_mod_distr_l by lia. }
  apply lor_mult_add with (32 - s); [lia| |by rewrite Z.mul_comm, Z.mod_mul by lia].
  split; [apply Z.div_pos; lia|]. apply Z.div_lt_upper_bound; [lia|].
  rewrite <- pow2_split32 by lia. lia.
Qed.

Lemma shr_chain_ok s a :
  0 <= s < 32 -> Forall (in_u 32) a ->
  Forall (in_u 32) (shr_chain s a) /\ val (shr_chain s a) = val a / 2 ^ s.
Proof.
  intros Hs. induction 1 as [|x a Hx Ha [IHf IHv]].
  { split; [constructor|]. by cbn [shr_chain val]. }
  pose proof (pow2_split32 s Hs) as Hp. unfold in_u in Hx.
  assert (0 <= x / 2 ^ s < 2 ^ (32 - s)).
  { split; [apply Z.div_pos; lia|]. apply Z.div_lt_upper_bound; lia. }
  pose proof (Z.mod_pos_bound (hd 0 a) (2 ^ s) ltac:(lia)) as Hh.
  cbn [shr_chain val]. split; [constructor; [unfold in_u; nia|done]|].
  assert (hd 0 a mod 2 ^ s = val a mod 2 ^ s) as ->.
  { destruct a as [|y a]; [done|]. cbn [val hd]. rewrite Hp, <- Z.mul_assoc.
    by rewrite (Z.mul_comm (2 ^ s)), Z.mod_add by lia. }
  rewrite IHv.
  pose proof (Z.div_mod (val a) (2 ^ s) ltac:(lia)).
  pose proof (Z.div_mod x (2 ^ s) ltac:(lia)).
  pose proof (Z.mod_pos_bound x (2 ^ s) ltac:(lia)).
  apply Z.div_unique with (x mod 2 ^ s); [lia|]. rewrite Hp. nia.
Qed.

(** The index loops agree with the carry chains, for each distance in limbs. *)
Ltac limb_cbn :=
  cbn -[Z.lor Z.shiftr Z.shiftl wrap Z.mul Z.div Z.modulo Z.pow Z.add Z.sub Z.eqb].

Ltac explode_forall H :=
  repeat match type of H with
  | Forall _ (_ :: _) => let Hl := fresh "Hlimb" in apply Forall_cons_1 in H as [Hl H]
  end.

Lemma shl_limbs a k s :
  wf a -> 0 <= s < 32 ->
  foldl (shl_step a k s) bn_zero (seq 0 WIDTH) =
  take WIDTH (replicate k 0 ++ shl_chain s 0 a).
Proof.
  intros [Hl Hf] Hs. unfold WIDTH in Hl. explode_list a Hl. explode_forall Hf.
  assert (forall x, in_u 32 x -> (s =? 0) = true -> x * 2 ^ s / 2 ^ 32 = 0) as H0.
  { intros x Hx E. zbool. subst s. rewrite Z.mul_1_r. by apply Z.div_small. }
  assert (forall x, (s =? 0) = false -> Z.shiftr x (32 - s) = x * 2 ^ s / 2 ^ 32) as Hhi.
  { intros x E. zbool. apply shl_hi_eq. lia. }
  do 8 (destruct k as [|k]; [
    limb_cbn; destruct (s =? 0) eqn:E; limb_cbn;
    rewrite ?Z.lor_0_l, ?Hhi, ?H0 by done; repeat f_equal;
    ((apply shl_limb_eq || (rewrite <- (Z.lor_0_l (u32 _)) at 1; apply shl_limb_eq));
     [lia|by apply shl_hi_range || lia]) |]).
  limb_cbn. done.
Qed.

Lemma shl_chain_length s c a : length (shl_chain s c a) = length a.
Proof. revert c. induction a as [|x a IH]; intros; [done|]. cbn. by rewrite IH. Qed.

Lemma shl_ok a shift :
  wf a -> in_u 32 shift ->
  wf (bn_shl a shift) /\ val (bn_shl a shift) = (val a * 2 ^ shift) mod 2 ^ 256.
Proof.
  intros Ha Hsh. unfold bn_shl. rewrite (wrap_small 32) by done. unfold in_u in Hsh.
  set (s := shift mod 32). set (k := Z.to_nat (shift / 32)).
  assert (0 <= s < 32) as Hs by (apply Z.mod_pos_bound; lia).
  assert (shift = 32 * Z.of_nat k + s) as Hsplit.
  { unfold k, s. rewrite Z2Nat.id by (apply Z.div_pos; lia). apply Z.div_mod. lia. }
  clearbody s k. subst shift. rewrite shl_limbs by done. destruct Ha as [Hl Hf].
  destruct (shl_chain_ok s 0 a Hs ltac:(lia) Hf) as [Hcf Hcv].
  set (l := replicate k 0 ++ shl_chain s 0 a).
  assert (Forall (in_u 32) l) as Hlf.
  { apply Forall_app. split; [by apply Forall_replicate|done]. }
  assert (length l = (k + WIDTH)%nat) as Hll.
  { unfold l. by rewrite length_app, length_replicate, shl_chain_length, Hl. }
  split; [split; [rewrite length_take; lia|by apply Forall_take]|].
  assert (val l = val (take WIDTH l) + modulus WIDTH * val (drop WIDTH l)) as Hv
    by (apply val_take_drop; lia).
  pose proof (val_range (take WIDTH l) ltac:(by apply Forall_take)) as Hr.
  rewrite length_take, Nat.min_l in Hr by lia.
  assert (val (take WIDTH l) = val l mod modulus WIDTH) as ->.
  { apply Z.mod_unique with (val (drop WIDTH l)); lia. }
  unfold l. rewrite val_app, val_replicate, length_replicate, Hcv, Hl.
  change (modulus WIDTH) with (2 ^ 256). rewrite !Z.add_0_l.
  rewrite Z.mul_mod_idemp_r by lia. f_equal. rewrite Z.pow_add_r by lia. lia.
Qed.

Lemma shr_limbs a k s :
  wf a -> 0 <= s < 32 ->
  foldl (shr_step a k s) bn_zero (seq 0 WIDTH) =
  take WIDTH (drop k (shr_chain s a) ++ replicate k 0).
Proof.
  intros [Hl Hf] Hs. unfold WIDTH in Hl. explode_list a Hl. explode_forall Hf.
  assert (forall x y, in_u 32 x -> (s =? 0) = true ->
            Z.lor 0 (Z.shiftr x s) = x / 2 ^ s + 2 ^ (32 - s) * (y mod 2 ^ s)) as H0.
  { intros x y Hx E. zbool. subst s. rewrite Z.lor_0_l, Z.shiftr_0_r, Z.mod_1_r, Z.div_1_r. lia. }
  assert (forall x y, in_u 32 x ->
            Z.lor (Z.lor 0 (Z.shiftr x s)) (u32 (Z.shiftl y (32 - s)))
            = x / 2 ^ s + 2 ^ (32 - s) * (y mod 2 ^ s)) as H1.
  { intros x y Hx. rewrite Z.lor_0_l. by apply shr_limb_eq. }
  assert (forall x, in_u 32 x ->
            Z.lor 0 (Z.shiftr x s) = x / 2 ^ s + 2 ^ (32 - s) * (0 mod 2 ^ s)) as H2.
  { intros x Hx. rewrite Z.lor_0_l, Z.shiftr_div_pow2, Z.mod_0_l by lia. lia. }
  do 8 (destruct k as [|k]; [
    limb_cbn; destruct (s =? 0) eqn:E; limb_cbn; repeat f_equal; auto |]).
  limb_cbn. by destruct k.
Qed.

Lemma shr_chain_length s a : length (shr_chain s a) = length a.
Proof. induction a as [|x a IH]; [done|]. cbn. by rewrite IH. Qed.

Lemma val_drop k a :
  Forall (in_u 32) a -> val (drop k a) = val a / modulus k.
Proof.
  intros Ha. destruct (decide (k <= length a)%nat).
  - rewrite (val_take_drop k a) by done.
    pose proof (val_range (take k a) ltac:(by apply Forall_take)) as Hr.
    rewrite length_take, Nat.min_l in Hr by lia.
    apply Z.div_unique with (val (take k a)); lia.
  - rewrite drop_ge by lia. pose proof (val_range a Ha).
    rewrite Z.div_small; [done|]. split; [lia|].
    eapply Z.lt_le_trans; [apply H|]. apply Z.pow_le_mono_r; lia.
Qed.

Lemma shr_ok a shift :
  wf a -> in_u 32 shift ->
  wf (bn_shr a shift) /\ val (bn_shr a shift) = val a / 2 ^ shift.
Proof.
  intros Ha Hsh. unfold bn_shr. rewrite (wrap_small 32) by done. unfold in_u in Hsh.
  set (s := shift mod 32). set (k := Z.to_nat (shift / 32)).
  assert (0 <= s < 32) as Hs by (apply Z.mod_pos_bound; lia).
  assert (shift = s + 32 * Z.of_nat k) as Hsplit.
  { unfold k, s. rewrite Z2Nat.id by (apply Z.div_pos; lia).
    pose proof (Z.div_mod shift 32 ltac:(lia)). lia. }
  clearbody s k. subst shift. rewrite shr_limbs by done. destruct Ha as [Hl Hf].
  destruct (shr_chain_ok s a Hs Hf) as [Hcf Hcv].
  pose proof (shr_chain_length s a) as Hcl.
  assert (val (take WIDTH (drop k (shr_chain s a) ++ replicate k 0)) = val (drop k (shr_chain s a))) as ->.
  { rewrite take_app, val_app. rewrite take_replicate, val_replicate.
    rewrite take_ge by (rewrite length_drop; lia). lia. }
  split; [split|].
  - rewrite length_take, length_app, length_drop, length_replicate. lia.
  - apply Forall_take, Forall_app. split; [by apply Forall_drop|by apply Forall_replicate].
  - rewrite val_drop, Hcv by done. rewrite Z.pow_add_r by lia.
    by rewrite Z.div_div by lia.
Qed.

(** ** Comparison *)

Lemma compare_loop_spec l1 l2 :
  length l1 = length l2 -> Forall (in_u 32) l1 -> Forall (in_u 32) l2 ->
  compare_loop l1 l2 =
  match val (reverse l1) ?= val (reverse l2) with Lt => -1 | Eq => 0 | Gt => 1 end.
Proof.
  revert l2. induction l1 as [|x l1 IH]; intros [|y l2] Hl H1 H2; simpl in Hl; try lia; [done|].
  apply Forall_cons_1 in H1 as [Hx H1]. apply Forall_cons_1 in H2 as [Hy H2].
  injection Hl as Hl.
  rewrite !reverse_cons, !val_app, !length_reverse, Hl. cbn [val compare_loop].
  pose proof (val_range (reverse l1) ltac:(by apply Forall_reverse)) as R1.
  pose proof (val_range (reverse l2) ltac:(by apply Forall_reverse)) as R2.
  rewrite length_reverse in R1, R2. rewrite Hl in R1. rewrite IH by done.
  set (m := modulus (length l2)) in *.
  destruct (x <? y) eqn:E1; zbool; [|destruct (x >? y) eqn:E2; zbool].
  - destruct (Z.compare_spec (val (reverse l1) + m * (x + 2 ^ 32 * 0))
                             (val (reverse l2) + m * (y + 2 ^ 32 * 0))); [nia|done|nia].
  - destruct (Z.compare_spec (val (reverse l1) + m * (x + 2 ^ 32 * 0))
                             (val (reverse l2) + m * (y + 2 ^ 32 * 0))); [nia|nia|done].
  - assert (x = y) as -> by lia. rewrite !(Z.add_comm (val (reverse _))). by rewrite Z.add_compare_mono_l.
Qed.

Lemma CompareTo_spec a b :
  wf a -> wf b ->
  CompareTo a b = match val a ?= val b with Lt => -1 | Eq => 0 | Gt => 1 end.
Proof.
  intros [Ha Fa] [Hb Fb]. unfold CompareTo.
  rewrite compare_loop_spec by (rewrite ?length_reverse, ?Forall_reverse; congruence || done).
  by rewrite !reverse_involutive.
Qed.

Ltac compare_cases :=
  intros; unfold bn_gt, bn_ge, bn_lt, bn_le; rewrite CompareTo_spec by done;
  match goal with |- context [val ?a ?= val ?b] => destruct (Z.compare_spec (val a) (val b)) end;
  symmetry; rewrite ?Z.ltb_lt, ?Z.leb_le, ?Z.ltb_ge, ?Z.leb_gt; cbn;
  rewrite ?Z.ltb_lt, ?Z.leb_le, ?Z.ltb_ge, ?Z.leb_gt; lia.

Lemma gt_val a b : wf a -> wf b -> bn_gt a b = (val b <? val a).
Proof. compare_cases. Qed.
Lemma ge_val a b : wf a -> wf b -> bn_ge a b = (val b <=? val a).
Proof. compare_cases. Qed.
Lemma lt_val a b : wf a -> wf b -> bn_lt a b = (val a <? val b).
Proof. compare_cases. Qed.
Lemma le_val a b : wf a -> wf b -> bn_le a b = (val a <=? val b).
Proof. compare_cases. Qed.

Lemma val_eq_iff a b : wf a -> wf b -> a = b <-> val a = val b.
Proof.
  intros [Ha Fa] [Hb Fb]. split; [by intros ->|].
  apply val_inj; (done || congruence).
Qed.

Lemma EqualTo_val a b : wf a -> in_u 64 b -> EqualTo a b = (val a =? b).
Proof.
  intros [Hl Hf] Hb. unfold WIDTH in Hl. explode_list a Hl. explode_forall Hf.
  unfold EqualTo, limb. cbn [drop nth existsb]. rewrite land_mask32, Z.shiftr_div_pow2 by lia.
  unfold in_u in *. cbn [val].
  pose proof (Z.div_mod b (2 ^ 32) ltac:(lia)). pose proof (Z.mod_pos_bound b (2 ^ 32) ltac:(lia)).
  symmetry. repeat case_if; zbool; rewrite ?Z.eqb_eq, ?Z.eqb_neq.
  - repeat (apply orb_true_iff in Heqb0 as [Heqb0|Heqb0]; zbool; [lia|]). done.
  - lia.
  - lia.
  - repeat match goal with H : _ || _ = false |- _ => apply orb_false_iff in H as [? ?]; zbool end.
    lia.
Qed.

(** ** Position of the highest bit *)

Lemma top_bit_spec x n :
  (n <= 31)%nat -> 0 < x < 2 ^ (Z.of_nat n + 1) -> top_bit x n = Z.log2 x.
Proof.
  revert x. induction n as [|n IH]; intros x Hn Hx.
  { simpl. assert (x = 1) as -> by lia. done. }
  cbn [top_bit]. rewrite land_pow2_testbit by lia.
  destruct (Z.testbit x (Z.of_nat (S n))) eqn:E.
  - symmetry. apply Z.log2_unique; [lia|]. split; [|rewrite <- Z.add_1_r; apply Hx].
    destruct (Z.le_gt_cases (2 ^ Z.of_nat (S n)) x) as [|C]; [done|].
    rewrite Z.bits_above_log2 in E; [done|lia|]. apply Z.log2_lt_pow2; lia.
  - apply IH; [lia|]. split; [lia|].
    destruct (Z.lt_ge_cases x (2 ^ (Z.of_nat n + 1))) as [|C]; [done|].
    assert (Z.log2 x = Z.of_nat (S n)) as Hlog.
    { apply Z.log2_unique; [lia|]. rewrite <- Z.add_1_r. split; [|apply Hx].
      replace (Z.of_nat (S n)) with (Z.of_nat n + 1) by lia. lia. }
    rewrite <- Hlog, Z.bit_log2 in E by lia. done.
Qed.

(** [bits] of a value: the number of significant bits. *)
Definition nbits (z : Z) : Z := if z =? 0 then 0 else Z.log2 z + 1.

Lemma bits_loop_spec a n :
  Forall (in_u 32) a -> (n <= length a)%nat -> bits_loop a n = nbits (val (take n a)).
Proof.
  intros Ha. induction n as [|n IH]; intros Hn; [done|].
  cbn [bits_loop]. pose proof (limb_range a n Ha) as Hx. unfold in_u in Hx.
  rewrite val_take_S by lia.
  pose proof (val_range (take n a) ltac:(by apply Forall_take)) as Hr.
  rewrite length_take, Nat.min_l in Hr by lia.
  case_if.
  - rewrite top_bit_spec by lia. unfold nbits.
    assert (0 < limb a n) by lia.
    rewrite (proj2 (Z.eqb_neq _ _)) by nia.
    rewrite (Z.log2_unique (val (take n a) + _) (32 * Z.of_nat n + Z.log2 (limb a n))); [lia| |].
    + pose proof (Z.log2_nonneg (limb a n)). lia.
    + pose proof (Z.log2_spec (limb a n) ltac:(lia)) as [L1 L2].
      pose proof (Z.log2_nonneg (limb a n)).
      rewrite <- Z.add_succ_r, !Z.pow_add_r by lia. nia.
  - rewrite Heqb, Z.mul_0_r, Z.add_0_r. apply IH. lia.
Qed.

Lemma bits_val a : wf a -> bn_bits a = nbits (val a).
Proof.
  intros [Ha Fa]. unfold bn_bits. rewrite bits_loop_spec by (done || lia).
  by rewrite take_ge by lia.
Qed.

Lemma nbits_bounds z : 0 < z -> 0 < nbits z /\ 2 ^ (nbits z - 1) <= z < 2 ^ nbits z.
Proof.
  intros Hz. unfold nbits. rewrite (proj2 (Z.eqb_neq _ _)) by lia.
  pose proof (Z.log2_spec z Hz). pose proof (Z.log2_nonneg z).
  replace (Z.log2 z + 1 - 1) with (Z.log2 z) by lia. rewrite Z.add_1_r. lia.
Qed.

Lemma nbits_nonneg z : 0 <= nbits z.
Proof. unfold nbits. pose proof (Z.log2_nonneg z). case_if; lia. Qed.

Lemma nbits_le z n : 0 <= n -> 0 <= z < 2 ^ n -> nbits z <= n.
Proof.
  intros Hn Hz. unfold nbits. case_if; [lia|].
  assert (Z.log2 z < n); [apply Z.log2_lt_pow2; lia|lia].
Qed.

(** ** Division *)

Lemma limb_val a i :
  Forall (in_u 32) a -> (i < length a)%nat -> limb a i = (val a / modulus i) mod 2 ^ 32.
Proof.
  intros Ha Hi. rewrite <- val_drop by done.
  revert i Hi. induction Ha as [|x a Hx Ha IH]; intros [|i] Hi; simpl in Hi; try lia.
  - cbn [limb drop val]. rewrite Z.mul_comm, Z.mod_add by lia. symmetry. by apply Z.mod_small.
  - change (limb (x :: a) (S i)) with (limb a i). cbn [drop]. apply IH. lia.
Qed.

Lemma insert_limb_val a i v :
  (i < length a)%nat -> val (<[i := v]> a) = val a + modulus i * (v - limb a i).
Proof.
  revert i. induction a as [|x a IH]; intros [|i] Hi; simpl in Hi; try lia.
  - cbn [insert list_insert val limb nth]. change (modulus 0) with 1. lia.
  - change (<[S i:=v]> (x :: a)) with (x :: <[i:=v]> a). cbn [val].
    change (limb (x :: a) (S i)) with (limb a i).
    rewrite IH, modulus_S by lia. lia.
Qed.

(** Setting a bit above which [q] is already zero-free: [q] is a multiple of [2^(n+1)]. *)
Lemma set_bit_ok q n :
  wf q -> (n < 256)%nat -> val q mod 2 ^ (Z.of_nat n + 1) = 0 ->
  let q' := or_limb q (n / 32) (u32 (Z.shiftl 1 (Z.land (Z.of_nat n) 31))) in
  wf q' /\ val q' = val q + 2 ^ Z.of_nat n.
Proof.
  intros [Hl Hf] Hn Hq. cbv zeta.
  change 31 with (Z.ones 5). rewrite Z.land_ones, Z.shiftl_1_l by lia.
  set (i := (n / 32)%nat). set (m := Z.of_nat n mod 2 ^ 5).
  assert (Z.of_nat n = 32 * Z.of_nat i + m) as Hsplit.
  { unfold i, m. rewrite Nat2Z.inj_div. apply Z.div_mod. lia. }
  assert (0 <= m < 32) as Hm by (apply Z.mod_pos_bound; lia).
  assert (i < 8)%nat as Hi by (apply Nat.Div0.div_lt_upper_bound; lia).
  clearbody i m.
  assert (0 < 2 ^ m < 2 ^ 32) by (split; [lia|apply Z.pow_lt_mono_r; lia]).
  rewrite (wrap_small 32) by (unfold in_u; lia).
  assert (limb q i mod 2 ^ (m + 1) = 0) as Hlow.
  { rewrite limb_val by (done || unfold WIDTH in *; lia).
    apply Z.mod_divide in Hq as [t Ht]; [|lia]. rewrite Ht, Hsplit.
    rewrite <- Z.add_assoc, (Z.pow_add_r 2 (32 * _)) by lia.
    rewrite (Z.mul_comm (2 ^ (32 * _))), Z.mul_assoc, Z.div_mul by lia.
    replace (2 ^ 32) with (2 ^ (31 - m) * 2 ^ (m + 1)) by (rewrite <- Z.pow_add_r by lia; f_equal; lia).
    rewrite Z.mul_mod_distr_r by lia. apply Z.mod_mul. lia. }
  assert (2 ^ m < 2 ^ (m + 1)) by (apply Z.pow_lt_mono_r; lia).
  assert (Z.lor (limb q i) (2 ^ m) = limb q i + 2 ^ m) as Hor.
  { rewrite Z.lor_comm, (lor_mult_add _ _ (m + 1)) by (done || lia). lia. }
  pose proof (limb_range q i Hf) as Hx. unfold in_u in Hx.
  unfold or_limb. rewrite Hor. split.
  - split; [by rewrite length_insert|]. apply Forall_insert; [done|]. unfold in_u.
    split; [lia|]. apply Z.mod_divide in Hlow as [t Ht]; [|lia].
    assert (2 ^ 32 = 2 ^ (31 - m) * 2 ^ (m + 1)) as E by (rewrite <- Z.pow_add_r by lia; f_equal; lia).
    assert (t < 2 ^ (31 - m)) by (apply (Z.mul_lt_mono_pos_r (2 ^ (m + 1))); lia).
    assert ((t + 1) * 2 ^ (m + 1) <= 2 ^ (31 - m) * 2 ^ (m + 1)) by (apply Z.mul_le_mono_nonneg_r; lia).
    lia.
  - rewrite insert_limb_val by (unfold WIDTH in *; lia).
    rewrite Hsplit, Z.pow_add_r by lia. lia.
Qed.

(** The invariant of the division loop: [div = d * 2^shift], the remainder is
    below [2 * div], the quotient has only bits above [shift]. *)
Lemma div_loop_ok d n num div q :
  0 < d -> wf num -> wf div -> wf q -> (n <= 256)%nat ->
  (forall s, n = S s -> val div = d * 2 ^ Z.of_nat s) ->
  val num < d * 2 ^ Z.of_nat n -> val q mod 2 ^ Z.of_nat n = 0 ->
  wf (div_loop n num div q) /\ val (div_loop n num div q) = val q + val num / d.
Proof.
  intros Hd. revert num div q.
  induction n as [|s IH]; intros num div q Wn Wd Wq Hn Hdiv Hnum Hq.
  { cbn [div_loop]. split; [done|]. pose proof (wf_range num Wn).
    rewrite Z.div_small by lia. lia. }
  specialize (Hdiv s eq_refl). cbn [div_loop].
  pose proof (wf_range num Wn). pose proof (wf_range div Wd).
  destruct (shr_ok div 1 Wd ltac:(by unfold in_u)) as [Wsh Vsh].
  replace (Z.of_nat (S s)) with (Z.of_nat s + 1) in * by lia.
  rewrite Z.pow_add_r in Hnum by lia.
  assert (forall s', s = S s' -> val (bn_shr div 1) = d * 2 ^ Z.of_nat s') as Hdiv'.
  { intros s' ->. rewrite Vsh, Hdiv.
    replace (Z.of_nat (S s')) with (Z.of_nat s' + 1) by lia.
    rewrite Z.pow_add_r, Z.mul_assoc by lia. apply Z.div_mul. lia. }
  assert (val q mod 2 ^ Z.of_nat s = 0) as Hq'.
  { apply Z.mod_divide in Hq as [t Ht]; [|lia]. rewrite Ht, Z.pow_add_r by lia.
    apply Z.mod_divide; [lia|]. exists (t * 2). lia. }
  rewrite ge_val by done. case_if.
  - destruct (set_bit_ok q s Wq ltac:(lia) Hq) as [Wq' Vq'].
    assert (val (bn_sub num div) = val num - val div) as Vsub.
    { rewrite sub_val by done. apply Z.mod_small. lia. }
    destruct (IH (bn_sub num div) (bn_shr div 1) (or_limb q (s / 32) (u32 (Z.shiftl 1 (Z.land (Z.of_nat s) 31)))))
      as [HW HV]; try done; [by apply sub_wf|lia|lia| |].
    { rewrite Vq'. rewrite <- Z.add_mod_idemp_l, Hq' by lia. by rewrite Z.add_0_l, Z.mod_same by lia. }
    split; [done|]. rewrite HV, Vq', Vsub, Hdiv.
    replace (val num - d * 2 ^ Z.of_nat s) with (val num + (- 2 ^ Z.of_nat s) * d) by lia.
    rewrite Z.div_add by lia. lia.
  - destruct (IH num (bn_shr div 1) q) as [HW HV]; try done; lia.
Qed.

Lemma div_ok a b :
  wf a -> wf b -> 0 < val b ->
  exists q, bn_div a b = Some q /\ wf q /\ val q = val a / val b.
Proof.
  intros Wa Wb Hb. unfold bn_div. rewrite !bits_val by done.
  destruct (nbits_bounds (val b) Hb) as (B1 & B2 & B3).
  pose proof (wf_range a Wa) as Ra. pose proof (wf_range b Wb).
  rewrite (proj2 (Z.eqb_neq _ _)) by lia.
  pose proof (nbits_le (val a) 256 ltac:(lia) Ra).
  case_if.
  - eexists. split; [done|]. split; [apply wf_of_u64|].
    rewrite val_of_u64 by (by unfold in_u). symmetry. apply Z.div_small. split; [lia|].
    destruct (Z.eq_dec (val a) 0); [lia|].
    destruct (nbits_bounds (val a) ltac:(lia)) as (A1 & A2 & A3).
    assert (2 ^ nbits (val a) <= 2 ^ (nbits (val b) - 1)) by (apply Z.pow_le_mono_r; lia). lia.
  - assert (0 < val a) as Hpos.
    { destruct (Z.eq_dec (val a) 0) as [E|]; [|lia]. rewrite E in Heqb0. change (nbits 0) with 0 in Heqb0. lia. }
    destruct (nbits_bounds (val a) Hpos) as (A1 & A2 & A3).
    set (sh := nbits (val a) - nbits (val b)) in *.
    destruct (shl_ok b sh Wb) as [Ws Vs]; [unfold in_u; lia|].
    assert (val b * 2 ^ sh < 2 ^ 256).
    { assert (val b * 2 ^ sh < 2 ^ nbits (val b) * 2 ^ sh) as L by (apply Z.mul_lt_mono_pos_r; lia).
      rewrite <- Z.pow_add_r in L by lia. eapply Z.lt_le_trans; [apply L|].
      apply Z.pow_le_mono_r; lia. }
    assert (val b * 2 ^ Z.of_nat (S (Z.to_nat sh)) > val a).
    { replace (Z.of_nat (S (Z.to_nat sh))) with (sh + 1) by lia.
      assert (2 ^ (nbits (val b) - 1) * 2 ^ (sh + 1) <= val b * 2 ^ (sh + 1))
        by (apply Z.mul_le_mono_nonneg_r; lia).
      rewrite <- Z.pow_add_r in * by lia.
      replace (nbits (val b) - 1 + (sh + 1)) with (nbits (val a)) in * by lia. lia. }
    destruct (div_loop_ok (val b) (S (Z.to_nat sh)) a (bn_shl b sh) (of_u64 0))
      as [HW HV]; try done; try lia; [apply wf_of_u64|..].
    + intros s Hs. injection Hs as <-. rewrite Vs, Z2Nat.id by lia. apply Z.mod_small. lia.
    + eexists. split; [done|]. split; [done|]. rewrite HV, val_of_u64 by (by unfold in_u). lia.
Qed.

Lemma div_zero a b : wf b -> val b = 0 -> bn_div a b = None.
Proof. intros Wb Hb. unfold bn_div. rewrite bits_val, Hb by done. done. Qed.

(** ** Compact encoding *)

(** The size byte and the 23-bit mantissa of a compact word. *)
Definition csize (c : Z) : Z := c / 2 ^ 24.
Definition cword (c : Z) : Z := c mod 2 ^ 23.
Definition csign (c : Z) : bool := Z.testbit c 23.

(** The exact (unreduced) magnitude a compact word denotes. *)
Definition compact_value (c : Z) : Z :=
  if csize c <=? 3 then cword c / 2 ^ (8 * (3 - csize c))
  else cword c * 2 ^ (8 * (csize c - 3)).

Lemma SetCompact_unfold c :
  let w := if csize c <=? 3 then cword c / 2 ^ (8 * (3 - csize c)) else cword c in
  SetCompact c =
  ((if csize c <=? 3 then of_u64 w else bn_shl (of_u64 w) (8 * (csize c - 3))),
   negb (w =? 0) && csign c,
   negb (w =? 0) && ((csize c >? 34) || ((w >? 0xff) && (csize c >? 33)) ||
                     ((w >? 0xffff) && (csize c >? 32)))).
Proof.
  cbv zeta. unfold SetCompact.
  assert (Z.shiftr c 24 = csize c) as -> by (apply Z.shiftr_div_pow2; lia).
  assert (Z.land c 0x7fffff = cword c) as ->.
  { change 0x7fffff with (Z.ones 23). apply Z.land_ones. lia. }
  change 0x800000 with (Z.shiftl 1 23). rewrite land_pow2_testbit by lia. fold (csign c).
  case_if; [|done]. by rewrite Z.shiftr_div_pow2 by lia.
Qed.

Lemma cword_range c : 0 <= cword c < 2 ^ 23.
Proof. apply Z.mod_pos_bound. lia. Qed.

Lemma csize_range c : in_u 32 c -> 0 <= csize c < 256.
Proof.
  unfold in_u, csize. intros. split; [apply Z.div_pos; lia|]. apply Z.div_lt_upper_bound; lia.
Qed.

Lemma SetCompact_ok c :
  in_u 32 c -> wf (SetCompact_val c) /\ val (SetCompact_val c) = compact_value c mod 2 ^ 256.
Proof.
  intros Hc. unfold SetCompact_val. rewrite SetCompact_unfold. cbn [fst]. unfold compact_value.
  pose proof (cword_range c). pose proof (csize_range c Hc). case_if.
  - split; [apply wf_of_u64|].
    assert (0 <= cword c / 2 ^ (8 * (3 - csize c)) <= cword c).
    { split; [apply Z.div_pos; lia|]. apply Z.div_le_upper_bound; [lia|]. nia. }
    rewrite val_of_u64 by (unfold in_u; lia). symmetry. apply Z.mod_small. lia.
  - destruct (shl_ok (of_u64 (cword c)) (8 * (csize c - 3))) as [W V];
      [apply wf_of_u64|unfold in_u; lia|].
    split; [done|]. rewrite V, val_of_u64 by (unfold in_u; lia). done.
Qed.

Lemma pow256_le a b : 0 <= a -> a <= b -> 2 ^ a <= 2 ^ b.
Proof. intros. apply Z.pow_le_mono_r; lia. Qed.

Lemma SetCompact_overflow c :
  in_u 32 c -> (SetCompact c).2 = true <-> 2 ^ 256 <= compact_value c.
Proof.
  intros Hc. rewrite SetCompact_unfold. cbn [snd]. unfold compact_value.
  pose proof (cword_range c). pose proof (csize_range c Hc). case_if.
  { assert (0 <= cword c / 2 ^ (8 * (3 - csize c)) <= cword c).
    { split; [apply Z.div_pos; lia|]. apply Z.div_le_upper_bound; [lia|]. nia. }
    split; [|lia]. rewrite !(Z.gtb_ltb (csize c)).
    rewrite !(proj2 (Z.ltb_ge _ (csize c))) by lia.
    rewrite !andb_false_r. done. }
  destruct (Z.eq_dec (cword c) 0) as [->|Hw]; [cbn; split; [done|lia]|].
  rewrite (proj2 (Z.eqb_neq _ _)) by done. cbn [negb andb].
  assert (csize c <= 32 \/ csize c = 33 \/ csize c = 34 \/ 34 < csize c) as [Hs|[Hs|[Hs|Hs]]] by lia.
  - split.
    + rewrite !Z.gtb_ltb, !(proj2 (Z.ltb_ge _ (csize c))) by lia. by rewrite !andb_false_r.
    + intros. pose proof (pow256_le (8 * (csize c - 3)) (8 * 29)). nia.
  - rewrite Hs. cbn. rewrite andb_false_r, andb_true_r. cbn. rewrite Z.gtb_ltb, Z.ltb_lt. lia.
  - rewrite Hs. cbn. rewrite andb_true_r. rewrite orb_true_iff, !Z.gtb_ltb, andb_true_iff, !Z.ltb_lt. lia.
  - rewrite Z.gtb_ltb, (proj2 (Z.ltb_lt _ _)) by lia. cbn. split; [|done]. intros _.
    pose proof (pow256_le (8 * 32) (8 * (csize c - 3))). nia.
Qed.

(** *** [GetCompact] *)

(** Number of significant bytes of a value. *)
Definition nbytes (v : Z) : Z := (nbits v + 7) / 8.

Lemma nbytes_bounds v :
  0 < v < 2 ^ 256 -> 1 <= nbytes v <= 32 /\ 2 ^ (8 * (nbytes v - 1)) <= v < 2 ^ (8 * nbytes v).
Proof.
  intros Hv. destruct (nbits_bounds v ltac:(lia)) as (B1 & B2 & B3).
  pose proof (nbits_le v 256 ltac:(lia) ltac:(lia)).
  unfold nbytes. pose proof (Z.div_mod (nbits v + 7) 8 ltac:(lia)).
  pose proof (Z.mod_pos_bound (nbits v + 7) 8 ltac:(lia)).
  set (k := (nbits v + 7) / 8) in *.
  repeat split; try lia.
  - pose proof (pow256_le (8 * (k - 1)) (nbits v - 1)). lia.
  - pose proof (pow256_le (nbits v) (8 * k)). lia.
Qed.

(** The mantissa before normalisation: the top three bytes of the value. *)
Definition mantissa (v : Z) : Z :=
  if nbytes v <=? 3 then v * 2 ^ (8 * (3 - nbytes v)) else v / 2 ^ (8 * (nbytes v - 3)).

Lemma mantissa_range v : 0 < v < 2 ^ 256 -> 2 ^ 16 <= mantissa v < 2 ^ 24.
Proof.
  intros Hv. destruct (nbytes_bounds v Hv) as (B1 & B2 & B3). unfold mantissa. case_if.
  - set (n := nbytes v) in *.
    assert (2 ^ 16 = 2 ^ (8 * (n - 1)) * 2 ^ (8 * (3 - n))) as ->
      by (rewrite <- Z.pow_add_r by lia; f_equal; lia).
    assert (2 ^ 24 = 2 ^ (8 * n) * 2 ^ (8 * (3 - n))) as ->
      by (rewrite <- Z.pow_add_r by lia; f_equal; lia).
    split; [apply Z.mul_le_mono_nonneg_r|apply Z.mul_lt_mono_pos_r]; lia.
  - set (n := nbytes v) in *. split.
    + apply Z.div_le_lower_bound; [lia|]. rewrite <- Z.pow_add_r by lia.
      by replace (8 * (n - 3) + 16) with (8 * (n - 1)) by lia.
    + apply Z.div_lt_upper_bound; [lia|]. rewrite <- Z.pow_add_r by lia.
      by replace (8 * (n - 3) + 24) with (8 * n) by lia.
Qed.

Lemma GetLow64_val a : wf a -> GetLow64 a = val a mod 2 ^ 64.
Proof.
  intros [Hl Hf]. unfold WIDTH in Hl. explode_list a Hl. explode_forall Hf.
  unfold GetLow64, limb. cbn [nth val]. unfold in_u in *.
  rewrite lor_shiftl_add by lia.
  match goal with |- ?x + ?y * 2 ^ 32 = (?x + 2 ^ 32 * (?y + 2 ^ 32 * ?r)) mod _ =>
    apply Z.mod_unique with r; lia end.
Qed.

Lemma GetCompact_mantissa a :
  wf a ->
  (if nbytes (val a) <=? 3 then u32 (u64 (Z.shiftl (GetLow64 a) (8 * (3 - nbytes (val a)))))
   else u32 (GetLow64 (bn_shr a (8 * (nbytes (val a) - 3)))))
  = mantissa (val a).
Proof.
  intros Wa. pose proof (wf_range a Wa) as Hr.
  destruct (Z.eq_dec (val a) 0) as [E|].
  { rewrite GetLow64_val, E by done. done. }
  pose proof (mantissa_range (val a) ltac:(lia)) as Hm.
  destruct (nbytes_bounds (val a) ltac:(lia)) as (B1 & B2 & B3).
  unfold mantissa in *. case_if.
  - rewrite GetLow64_val by done.
    assert (val a < 2 ^ 64) by (pose proof (pow256_le (8 * nbytes (val a)) 64); lia).
    rewrite Z.mod_small, Z.shiftl_mul_pow2 by lia.
    rewrite (wrap_small 64), (wrap_small 32); unfold in_u; rewrite ?(wrap_small 64); unfold in_u; lia.
  - destruct (shr_ok a (8 * (nbytes (val a) - 3))) as [Ws Vs]; [done|unfold in_u; lia|].
    rewrite GetLow64_val, Vs by done. rewrite Z.mod_small by lia.
    apply wrap_small. unfold in_u. lia.
Qed.

(** Mantissa and size after normalisation (the sign bit is kept clear). *)
Definition norm_mant (v : Z) : Z := if mantissa v <? 2 ^ 23 then mantissa v else mantissa v / 2 ^ 8.
Definition norm_size (v : Z) : Z := if mantissa v <? 2 ^ 23 then nbytes v else nbytes v + 1.

Lemma norm_range v :
  0 < v < 2 ^ 256 -> 2 ^ 15 <= norm_mant v < 2 ^ 23 /\ 1 <= norm_size v <= 33.
Proof.
  intros Hv. pose proof (mantissa_range v Hv). destruct (nbytes_bounds v Hv) as (B1 & _).
  unfold norm_mant, norm_size. case_if; [lia|]. split; [|lia].
  split; [apply Z.div_le_lower_bound; lia|apply Z.div_lt_upper_bound; lia].
Qed.

Lemma testbit23 m : 0 <= m < 2 ^ 24 -> Z.testbit m 23 = negb (m <? 2 ^ 23).
Proof.
  intros Hm. rewrite Z.testbit_eqb by lia. destruct (m <? 2 ^ 23) eqn:E; zbool; cbn [negb].
  - by rewrite Z.div_small by lia.
  - assert (m / 2 ^ 23 = 1) as -> by (symmetry; apply Z.div_unique with (m - 2 ^ 23); lia). done.
Qed.

Lemma land_high_zero m : 0 <= m < 2 ^ 23 -> Z.land m (u32 (Z.lnot 0x7fffff)) = 0.
Proof.
  intros Hm. change (u32 (Z.lnot 0x7fffff)) with (Z.shiftl 0x1ff 23).
  apply land_disjoint_shiftl; lia.
Qed.

Lemma GetCompact_eq a :
  wf a -> 0 < val a ->
  GetCompact a = Some (norm_mant (val a) + norm_size (val a) * 2 ^ 24).
Proof.
  intros Wa Hpos. pose proof (wf_range a Wa) as Hr.
  pose proof (mantissa_range (val a) ltac:(lia)) as Hm.
  pose proof (norm_range (val a) ltac:(lia)) as [Hn Hs].
  unfold GetCompact, GetCompact_sign. rewrite bits_val by done.
  fold (nbytes (val a)). rewrite GetCompact_mantissa by done.
  change 0x800000 with (Z.shiftl 1 23). rewrite land_pow2_testbit by lia.
  rewrite testbit23 by lia. unfold norm_mant, norm_size in *.
  destruct (mantissa (val a) <? 2 ^ 23) eqn:E; zbool; cbn [negb andb].
  all: rewrite ?Z.shiftr_div_pow2 by lia.
  all: rewrite land_high_zero by lia; rewrite (proj2 (Z.ltb_lt _ _)) by lia; cbn [Z.eqb negb].
  all: rewrite Z.lor_0_r, (wrap_small 32) by (rewrite Z.shiftl_mul_pow2 by lia; unfold in_u; lia).
  all: by rewrite lor_shiftl_add by lia.
Qed.

Lemma GetCompact_zero a : wf a -> val a = 0 -> GetCompact a = Some 0.
Proof.
  intros Wa E. unfold GetCompact, GetCompact_sign. rewrite bits_val, GetLow64_val, E by done. done.
Qed.

(** The weight of one unit of the mantissa. *)
Definition compact_unit (v : Z) : Z := 2 ^ (8 * Z.max 0 (norm_size v - 3)).

Lemma split_compact m e :
  0 <= m < 2 ^ 23 -> 0 <= e ->
  csize (m + e * 2 ^ 24) = e /\ cword (m + e * 2 ^ 24) = m /\ csign (m + e * 2 ^ 24) = false.
Proof.
  intros Hm He. unfold csize, cword, csign. repeat split.
  - rewrite Z.div_add by lia. rewrite Z.div_small by lia. lia.
  - replace (m + e * 2 ^ 24) with (m + e * 2 * 2 ^ 23) by lia. rewrite Z.mod_add by lia.
    apply Z.mod_small. lia.
  - rewrite Z.testbit_eqb by lia.
    replace (m + e * 2 ^ 24) with (m + e * 2 * 2 ^ 23) by lia. rewrite Z.div_add by lia.
    rewrite Z.div_small, Z.add_0_l, Z.mod_mul by lia. done.
Qed.

(** What the encoding keeps of a value: the multiple of the unit below it. *)
Lemma compact_value_norm v :
  0 < v < 2 ^ 256 ->
  compact_value (norm_mant v + norm_size v * 2 ^ 24) = v / compact_unit v * compact_unit v.
Proof.
  intros Hv. pose proof (norm_range v Hv) as [Hn Hs].
  destruct (split_compact (norm_mant v) (norm_size v)) as (E1 & E2 & _); [lia|lia|].
  unfold compact_value, compact_unit. rewrite E1, E2.
  pose proof (mantissa_range v Hv) as Hm. destruct (nbytes_bounds v Hv) as (B1 & _).
  unfold norm_mant, norm_size, mantissa in *.
  set (n := nbytes v) in *. destruct (n <=? 3) eqn:En; zbool;
    destruct (_ <? 2 ^ 23) eqn:Ec; zbool.
  - rewrite (proj2 (Z.leb_le _ _)) by lia. rewrite Z.max_l by lia.
    rewrite Z.div_mul by lia. change (2 ^ (8 * 0)) with 1. rewrite Z.div_1_r. lia.
  - assert (n = 3 \/ n <= 2) as [Hn3|Hn2] by lia.
    + rewrite Hn3. cbn -[Z.mul Z.div Z.pow]. change (2 ^ (8 * 0)) with 1. change (2 ^ (8 * 1)) with (2 ^ 8).
      by rewrite Z.mul_1_r.
    + rewrite (proj2 (Z.leb_le _ _)) by lia. rewrite Z.max_l by lia.
      change (2 ^ (8 * 0)) with 1. rewrite Z.div_1_r.
      replace (8 * (3 - n)) with (8 * (3 - (n + 1)) + 8) by lia.
      rewrite Z.pow_add_r, Z.mul_assoc, !Z.div_mul by lia. lia.
  - rewrite (proj2 (Z.leb_gt _ _)) by lia. rewrite Z.max_r by lia. done.
  - rewrite (proj2 (Z.leb_gt _ _)) by lia. rewrite Z.max_r by lia.
    replace (8 * (n + 1 - 3)) with (8 * (n - 3) + 8) by lia.
    rewrite Z.pow_add_r, <- Z.div_div by lia. done.
Qed.

(** The kept part has at least 16 significant bits. *)
Lemma compact_unit_small v : 0 < v < 2 ^ 256 -> 1 < compact_unit v -> 2 ^ 15 <= v / compact_unit v.
Proof.
  intros Hv Hu. pose proof (norm_range v Hv) as [Hn Hs].
  assert (3 < norm_size v) as Hbig.
  { destruct (Z.le_gt_cases (norm_size v) 3); [|done].
    unfold compact_unit in Hu. rewrite Z.max_l in Hu by lia. cbn in Hu. lia. }
  pose proof (compact_value_norm v Hv) as Hc. unfold compact_value in Hc.
  destruct (split_compact (norm_mant v) (norm_size v)) as (E1 & E2 & _); [lia|lia|].
  rewrite E1, E2, (proj2 (Z.leb_gt _ _)) in Hc by lia.
  unfold compact_unit in *. rewrite Z.max_r in * by lia. nia.
Qed.

Lemma nbytes_unique v n :
  1 <= n -> 2 ^ (8 * (n - 1)) <= v < 2 ^ (8 * n) -> nbytes v = n.
Proof.
  intros Hn Hv. assert (0 < v) by (pose proof (Z.pow_pos_nonneg 2 (8 * (n - 1))); lia).
  destruct (nbits_bounds v ltac:(lia)) as (B1 & B2 & B3).
  assert (nbits v <= 8 * n) by (apply nbits_le; lia).
  assert (8 * (n - 1) < nbits v) by (apply (Z.pow_lt_mono_r_iff 2); lia).
  unfold nbytes. symmetry. apply Z.div_unique with (nbits v + 7 - 8 * n); lia.
Qed.

(** A compact word in the form [GetCompact] produces: clear sign bit, a mantissa
    that uses its top byte (or the sign-avoiding shift of it), no overflow, and no
    mantissa bits that [SetCompact] would shift out. *)
Definition canonical (c : Z) : Prop :=
  in_u 32 c /\ csign c = false /\
  (c = 0 \/ (2 ^ 15 <= cword c /\ compact_value c < 2 ^ 256 /\
             (csize c < 3 -> cword c mod 2 ^ (8 * (3 - csize c)) = 0))).

#[global] Instance canonical_dec c : Decision (canonical c).
Proof. unfold canonical. apply _. Defined.

Lemma compact_split c : csign c = false -> c = cword c + csize c * 2 ^ 24.
Proof.
  intros Hs. unfold csign in Hs. rewrite Z.testbit_eqb in Hs by lia.
  unfold cword, csize. pose proof (Z.div_mod c (2 ^ 23) ltac:(lia)).
  assert (c / 2 ^ 24 = c / 2 ^ 23 / 2) as -> by (rewrite Z.div_div by lia; f_equal).
  pose proof (Z.div_mod (c / 2 ^ 23) 2 ltac:(lia)).
  apply Z.eqb_neq in Hs. pose proof (Z.mod_pos_bound (c / 2 ^ 23) 2 ltac:(lia)). lia.
Qed.

(** The mantissa of a value of [n] bytes, whichever branch computes it. *)
Lemma mantissa_eq v n m :
  nbytes v = n -> (n <= 3 -> m = v * 2 ^ (8 * (3 - n))) ->
  (3 < n -> v = m * 2 ^ (8 * (n - 3))) -> mantissa v = m.
Proof.
  intros Hn H1 H2. unfold mantissa. rewrite Hn. case_if; [by rewrite <- H1|].
  rewrite H2 by lia. apply Z.div_mul. lia.
Qed.

Lemma canonical_value c :
  canonical c -> c <> 0 ->
  0 < compact_value c < 2 ^ 256 /\
  norm_mant (compact_value c) = cword c /\ norm_size (compact_value c) = csize c.
Proof.
  intros (Hc & Hsg & [->|(Hw & Hv & Hlow)]) Hnz; [done|].
  pose proof (cword_range c) as Hwr. pose proof (csize_range c Hc) as Hsr.
  set (w := cword c) in *. set (e := csize c) in *. set (v := compact_value c) in *.
  assert (1 <= e) as He.
  { destruct (Z.eq_dec e 0) as [E|]; [|lia]. specialize (Hlow ltac:(lia)).
    rewrite E in Hlow. change (8 * (3 - 0)) with 24 in Hlow. rewrite Z.mod_small in Hlow; lia. }
  (* the value scaled to three bytes is the mantissa *)
  assert ((e <= 3 -> w = v * 2 ^ (8 * (3 - e))) /\ (3 < e -> v = w * 2 ^ (8 * (e - 3)))) as [V1 V2].
  { unfold v, compact_value. fold w e. destruct (e <=? 3) eqn:E; zbool; (split; [intros|lia || done]); [|lia].
    assert (w mod 2 ^ (8 * (3 - e)) = 0) as Hm.
    { destruct (Z.eq_dec e 3) as [->|]; [apply Z.mod_1_r|apply Hlow; lia]. }
    pose proof (Z.div_mod w (2 ^ (8 * (3 - e))) ltac:(lia)). lia. }
  assert (forall lo hi, 0 <= 8 * (e - 3) + lo -> 0 <= 8 * (e - 3) + hi -> 0 <= lo -> 0 <= hi ->
    2 ^ lo <= w < 2 ^ hi -> 2 ^ (8 * (e - 3) + lo) <= v < 2 ^ (8 * (e - 3) + hi)) as Hscale.
  { intros lo hi ? ? ? ? Hb. destruct (Z.le_gt_cases e 3).
    - rewrite V1 in Hb by lia.
      replace lo with ((8 * (e - 3) + lo) + 8 * (3 - e)) in Hb by lia.
      replace hi with ((8 * (e - 3) + hi) + 8 * (3 - e)) in Hb by lia.
      rewrite (Z.pow_add_r _ (8 * (e - 3) + lo)), (Z.pow_add_r _ (8 * (e - 3) + hi)) in Hb by lia. nia.
    - rewrite V2 by lia. rewrite !Z.pow_add_r by lia. nia. }
  assert (0 < v).
  { destruct (Z.le_gt_cases e 3); [rewrite V1 in Hw by lia; nia|rewrite V2 by lia; nia]. }
  split; [lia|].
  destruct (Z.lt_ge_cases w (2 ^ 16)) as [Hsmall|Hlarge].
  - assert (2 <= e) by (destruct (Z.eq_dec e 1) as [E|]; [|lia];
      rewrite V1, E in Hw, Hsmall by lia; change (2 ^ (8 * (3 - 1))) with (2 ^ 16) in *; lia).
    assert (nbytes v = e - 1) as Hn.
    { apply nbytes_unique; [lia|]. specialize (Hscale 15 16 ltac:(lia) ltac:(lia) ltac:(lia) ltac:(lia) ltac:(lia)).
      replace (8 * (e - 1)) with (8 * (e - 3) + 16) by lia.
      pose proof (pow256_le (8 * (e - 1 - 1)) (8 * (e - 3) + 15)). lia. }
    assert (mantissa v = w * 2 ^ 8) as Hm.
    { apply mantissa_eq with (e - 1); [done| |].
      - intros. destruct (Z.eq_dec e 4) as [E4|].
        + rewrite V2 by lia. rewrite E4. change (2 ^ (8 * (4 - 3))) with (2 ^ 8).
          change (8 * (3 - (4 - 1))) with 0. lia.
        + rewrite V1 by lia. replace (8 * (3 - (e - 1))) with (8 * (3 - e) + 8) by lia.
          rewrite Z.pow_add_r by lia. lia.
      - intros. rewrite V2 by lia. replace (8 * (e - 3)) with (8 + 8 * (e - 1 - 3)) by lia.
        rewrite Z.pow_add_r by lia. lia. }
    unfold norm_mant, norm_size. rewrite Hm, Hn, (proj2 (Z.ltb_ge _ _)) by lia.
    rewrite Z.div_mul by lia. lia.
  - assert (nbytes v = e) as Hn.
    { apply nbytes_unique; [lia|]. specialize (Hscale 16 23 ltac:(lia) ltac:(lia) ltac:(lia) ltac:(lia) ltac:(lia)).
      replace (8 * (e - 1)) with (8 * (e - 3) + 16) by lia.
      pose proof (pow256_le (8 * (e - 3) + 23) (8 * e)). lia. }
    assert (mantissa v = w) as Hm by (by apply mantissa_eq with e).
    unfold norm_mant, norm_size. rewrite Hm, Hn, (proj2 (Z.ltb_lt _ _)) by lia. done.
Qed.

Lemma not_ok a : wf a -> wf (bn_not a) /\ val (bn_not a) = 2 ^ 256 - 1 - val a.
Proof.
  intros [Ha Fa]. rewrite not_val, Ha by done. split; [split|done].
  - unfold bn_not. by rewrite length_map.
  - apply not_forall.
Qed.

Lemma inc_ok a : wf a -> wf (bn_inc a) /\ val (bn_inc a) = (val a + 1) mod 2 ^ 256.
Proof.
  intros [Ha Fa]. rewrite inc_val, Ha by done. split; [split|done].
  - by rewrite inc_length.
  - by apply inc_forall.
Qed.

Lemma dec_ok a : wf a -> wf (bn_dec a) /\ val (bn_dec a) = (val a - 1) mod 2 ^ 256.
Proof.
  intros [Ha Fa]. rewrite dec_val, Ha by done. split; [split|done].
  - by rewrite dec_length.
  - by apply dec_forall.
Qed.

(** ** Properties *)

(** The limb loops of [base_uint<256>] (addition, subtraction, negation,
    complement, increment, decrement, both multiplications, both shifts) keep the
    eight limbs in range and compute the integer operation modulo [2^256]
    (a right shift: the exact quotient). *)
Theorem arith_ops_refine a b n :
  wf a -> wf b -> in_u 32 n ->
  (wf (bn_add a b) /\ val (bn_add a b) = (val a + val b) mod 2 ^ 256) /\
  (wf (bn_sub a b) /\ val (bn_sub a b) = (val a - val b) mod 2 ^ 256) /\
  (wf (bn_neg a) /\ val (bn_neg a) = (- val a) mod 2 ^ 256) /\
  (wf (bn_not a) /\ val (bn_not a) = 2 ^ 256 - 1 - val a) /\
  (wf (bn_inc a) /\ val (bn_inc a) = (val a + 1) mod 2 ^ 256) /\
  (wf (bn_dec a) /\ val (bn_dec a) = (val a - 1) mod 2 ^ 256) /\
  (wf (bn_mul a b) /\ val (bn_mul a b) = (val a * val b) mod 2 ^ 256) /\
  (wf (bn_mul32 a n) /\ val (bn_mul32 a n) = (n * val a) mod 2 ^ 256) /\
  (wf (bn_shl a n) /\ val (bn_shl a n) = (val a * 2 ^ n) mod 2 ^ 256) /\
  (wf (bn_shr a n) /\ val (bn_shr a n) = val a / 2 ^ n).
Proof.
  intros Wa Wb Hn. rewrite mul32_val, (wrap_small 32), add_val, sub_val, mul_val by done.
  pose proof Wa as [La Fa]. rewrite neg_val, La by done.
  split_and!; auto using add_wf, sub_wf, neg_wf, mul_wf, mul32_wf.
  1-2: by apply not_ok.
  1-2: by apply inc_ok.
  1-2: by apply dec_ok.
  1-2: by apply shl_ok.
  1-2: by apply shr_ok.
Qed.

(** [operator/=] throws exactly on a zero divisor and otherwise terminates
    with the integer quotient. *)
Theorem arith_div_refines a b :
  wf a -> wf b ->
  match bn_div a b with
  | None => val b = 0
  | Some q => wf q /\ 0 < val b /\ val q = val a / val b
  end.
Proof.
  intros Wa Wb. pose proof (wf_range b Wb). destruct (Z.eq_dec (val b) 0) as [E|].
  - by rewrite div_zero.
  - destruct (div_ok a b Wa Wb ltac:(lia)) as (q & -> & Wq & Vq). auto with lia.
Qed.

(** The comparison operators, [EqualTo] and [bits] decide the order of the
    represented integers and the number of their significant bits. *)
Theorem arith_order_refines a b n :
  wf a -> wf b -> in_u 64 n ->
  bn_gt a b = (val b <? val a) /\ bn_ge a b = (val b <=? val a) /\
  bn_lt a b = (val a <? val b) /\ bn_le a b = (val a <=? val b) /\
  bn_eq a b = (val a =? val b) /\ EqualTo a n = (val a =? n) /\
  (val a = 0 -> bn_bits a = 0) /\
  (0 < val a -> 2 ^ (bn_bits a - 1) <= val a < 2 ^ bn_bits a).
Proof.
  intros Wa Wb Hn. rewrite gt_val, ge_val, lt_val, le_val, EqualTo_val, bits_val by done.
  repeat split; [| |by apply nbits_bounds..].
  - unfold bn_eq. rewrite (bool_decide_ext _ _ (val_eq_iff a b Wa Wb)).
    destruct (Z.eqb_spec (val a) (val b)); [by apply bool_decide_eq_true|by apply bool_decide_eq_false].
  - by intros ->.
Qed.

(** Encoding a 256-bit target never fails an assertion, decoding the result
    raises neither flag, and loses less than one part in [2^15], always rounding
    down. *)
Theorem compact_encode_decode a :
  wf a ->
  exists c a', GetCompact a = Some c /\ in_u 32 c /\ SetCompact c = (a', false, false) /\ wf a' /\
    val a' <= val a /\ (val a - val a') * 2 ^ 15 <= val a'.
Proof.
  intros Wa. pose proof (wf_range a Wa) as Hr.
  destruct (Z.eq_dec (val a) 0) as [E|].
  { exists 0, (of_u64 0). rewrite GetCompact_zero, E by done. split; [done|].
    split; [by unfold in_u|]. split; [done|]. split; [apply wf_of_u64|]. vm_compute; split; congruence. }
  set (v := val a) in *. set (c := norm_mant v + norm_size v * 2 ^ 24).
  pose proof (norm_range v ltac:(lia)) as [Hn Hs].
  assert (in_u 32 c) as Hc by (unfold in_u, c; lia).
  destruct (SetCompact_ok c Hc) as [Wc Vc].
  destruct (split_compact (norm_mant v) (norm_size v)) as (E1 & E2 & E3); [lia|lia|].
  assert (0 < compact_unit v) by (unfold compact_unit; lia).
  pose proof (compact_value_norm v ltac:(lia)) as Hval. fold c in Hval, E1, E2, E3.
  pose proof (Z.div_mod v (compact_unit v) ltac:(lia)).
  pose proof (Z.mod_pos_bound v (compact_unit v) ltac:(lia)). pose proof (Z.mod_le v (compact_unit v) ltac:(lia) ltac:(lia)).
  exists c, (SetCompact_val c). rewrite (GetCompact_eq a) by (done || lia).
  rewrite Z.mod_small in Vc by lia.
  split; [done|]. split; [done|]. split; [|split; [done|]].
  - destruct (SetCompact c) as [[x neg] ovf] eqn:ES. unfold SetCompact_val. rewrite ES. cbn [fst].
    assert (ovf = false) as ->.
    { destruct ovf; [|done]. pose proof (proj1 (SetCompact_overflow c Hc)) as Ho.
      rewrite ES in Ho. specialize (Ho eq_refl). lia. }
    rewrite SetCompact_unfold in ES. injection ES as _ <- _. by rewrite E3, andb_false_r.
  - rewrite Vc, Hval. split; [lia|].
    destruct (Z.eq_dec (compact_unit v) 1) as [->|]; [rewrite Z.div_1_r; lia|].
    pose proof (compact_unit_small v ltac:(lia) ltac:(lia)). nia.
Qed.

(** Decoding a canonical compact word and encoding it again is the identity. *)
Theorem compact_decode_encode c :
  canonical c -> GetCompact (SetCompact_val c) = Some c.
Proof.
  intros Hcan. destruct (SetCompact_ok c) as [W V]; [by destruct Hcan|].
  destruct (Z.eq_dec c 0) as [->|Hnz]; [done|].
  destruct (canonical_value c Hcan Hnz) as (Hv & Hm & Hs).
  rewrite Z.mod_small in V by lia.
  rewrite GetCompact_eq, V, Hm, Hs by (done || lia).
  f_equal. symmetry. apply compact_split. by destruct Hcan as (_ & ? & _).
Qed.

(** The flags and the value of [SetCompact]: the value is the denoted
    magnitude modulo [2^256], the overflow flag is set exactly when that reduction
    lost something, the sign flag exactly for a non-zero mantissa with bit 23 set. *)
Theorem SetCompact_flags c :
  in_u 32 c ->
  let '(a, fNegative, fOverflow) := SetCompact c in
  wf a /\ val a = compact_value c mod 2 ^ 256 /\
  (fOverflow = true <-> 2 ^ 256 <= compact_value c) /\
  (fNegative = true <-> csign c = true /\ 0 < compact_value c).
Proof.
  intros Hc. pose proof (SetCompact_ok c Hc) as [W V]. pose proof (SetCompact_overflow c Hc) as O.
  unfold SetCompact_val in *. destruct (SetCompact c) as [[a neg] ovf] eqn:E. cbn [fst snd] in *.
  split; [done|]. split; [done|]. split; [done|].
  rewrite SetCompact_unfold in E. injection E as _ <- _.
  rewrite andb_true_iff, negb_true_iff, Z.eqb_neq. unfold compact_value.
  pose proof (cword_range c). pose proof (csize_range c Hc). case_if.
  - assert (0 <= cword c / 2 ^ (8 * (3 - csize c))) by (apply Z.div_pos; lia).
    split; intros []; split; (done || lia).
  - assert (0 < 2 ^ (8 * (csize c - 3))) by lia.
    split; intros []; split; (done || nia).
Qed.

(** ** Witnesses *)


Definition arith_sample : base_uint := bn_shl (of_u64 0x1234567890abcdef) 100.

Lemma arith_sample_wf : wf arith_sample.
Proof. apply shl_ok; [apply wf_of_u64|by unfold in_u]. Qed.

Lemma arith_ops_refine_witness : val (bn_mul arith_sample (of_u64 12345)) =
  (val arith_sample * val (of_u64 12345)) mod 2 ^ 256.
Proof.
  pose proof (arith_ops_refine arith_sample (of_u64 12345) 37 arith_sample_wf (wf_of_u64 _)
    ltac:(by unfold in_u)) as H. tauto.
Defined.

Lemma arith_div_refines_witness :
  match bn_div arith_sample (of_u64 1000) with
  | Some q => val q = val arith_sample / 1000 | None => False end.
Proof.
  pose proof (arith_div_refines arith_sample (of_u64 1000) arith_sample_wf (wf_of_u64 _)) as H.
  destruct (bn_div arith_sample (of_u64 1000)); [exact (proj2 (proj2 H))|discriminate H].
Defined.

Lemma arith_order_refines_witness :
  bn_gt arith_sample (of_u64 7) = (val (of_u64 7) <? val arith_sample).
Proof.
  exact (proj1 (arith_order_refines arith_sample (of_u64 7) 7 arith_sample_wf (wf_of_u64 _)
    ltac:(by unfold in_u))).
Defined.

Lemma compact_encode_decode_witness : exists c, GetCompact arith_sample = Some c /\ in_u 32 c.
Proof.
  destruct (compact_encode_decode arith_sample arith_sample_wf) as (c & a' & H1 & H2 & _).
  exists c. exact (conj H1 H2).
Defined.

Lemma compact_decode_encode_witness : GetCompact (SetCompact_val 0x1d00ffff) = Some 0x1d00ffff.
Proof.
  apply (compact_decode_encode 0x1d00ffff).
  apply (bool_decide_unpack (canonical 0x1d00ffff)). vm_compute. exact I.
Defined.

Lemma SetCompact_flags_witness : wf (SetCompact 0x1d00ffff).1.1.
Proof.
  pose proof (SetCompact_flags 0x1d00ffff ltac:(by unfold in_u)) as H.
  destruct (SetCompact 0x1d00ffff) as [[a n] o]. exact (proj1 H).
Defined.
