(* ===== verification/Chain.v ===== *)
(** * The block index and the active chain

    Models [src/src/chain.h], [src/src/chain.cpp], and the functions that build
    and query the block index in [src/src/validation.cpp] ([AddToBlockIndex],
    [FindForkInGlobalIndex]) and [src/src/net_processing.cpp]
    ([LastCommonAncestor]).

    A [CBlockIndex*] is the key of its entry in [mapBlockIndex] (the block hash,
    the object [phashBlock] points to), so pointer comparison is equality of
    keys and a dereference is a lookup; [NULL] is [None].  A function that can
    fail an [assert] or dereference a missing entry returns [None] there. *)

From stdpp Require Import gmap sorting.
From S2P Require Import Prelude ArithUint256.

Abbreviation ptr := Z (only parsing).

Record CBlockHeader := {
  hd_nVersion : Z;
  hd_hashPrevBlock : ptr;
  hd_hashMerkleRoot : Z;
  hd_nTime : Z;
  hd_nBits : Z;
  hd_nNonce : Z
}.

(** The fields of [CBlockIndex]; the disk position is left out. *)
Record CBlockIndex := {
  pprev : option ptr;
  pskip : option ptr;
  nHeight : Z;
  nChainWork : base_uint;
  nTx : Z;
  nChainTx : Z;
  nStatus : Z;
  nVersion : Z;
  hashMerkleRoot : Z;
  nTime : Z;
  nBits : Z;
  nNonce : Z;
  nSequenceId : Z;
  nTimeMax : Z
}.

(** [CBlockIndex(const CBlockHeader&)] after [SetNull()] *)
Definition CBlockIndex_of (block : CBlockHeader) : CBlockIndex := {|
  pprev := None; pskip := None; nHeight := 0; nChainWork := bn_zero; nTx := 0; nChainTx := 0;
  nStatus := 0; nVersion := hd_nVersion block; hashMerkleRoot := hd_hashMerkleRoot block;
  nTime := hd_nTime block; nBits := hd_nBits block; nNonce := hd_nNonce block;
  nSequenceId := 0; nTimeMax := 0
|}.

Abbreviation BlockMap := (gmap ptr CBlockIndex) (only parsing).

(** ** Skip list *)

Definition InvertLowestOne (n : Z) : Z := Z.land n (n - 1).

Definition GetSkipHeight (height : Z) : Z :=
  if height <? 2 then 0
  else if negb (Z.land height 1 =? 0)
       then InvertLowestOne (InvertLowestOne (height - 1)) + 1
       else InvertLowestOne height.

(** The loop of [GetAncestor]; the fuel bounds [heightWalk - height]. *)
Fixpoint ancestor_walk (fuel : nat) (m : BlockMap) (pindexWalk : ptr) (heightWalk height : Z)
    : option ptr :=
  if heightWalk >? height then
    match fuel with
    | O => None
    | S fuel' =>
        match m !! pindexWalk with
        | None => None
        | Some b =>
            let heightSkip := GetSkipHeight heightWalk in
            let heightSkipPrev := GetSkipHeight (heightWalk - 1) in
            let use_skip :=
              (heightSkip =? height) ||
              ((heightSkip >? height) &&
               negb ((heightSkipPrev <? heightSkip - 2) && (heightSkipPrev >=? height))) in
            match pskip b with
            | Some skip =>
                if use_skip then ancestor_walk fuel' m skip heightSkip height
                else match pprev b with
                     | Some prev => ancestor_walk fuel' m prev (heightWalk - 1) height
                     | None => None
                     end
            | None =>
                match pprev b with
                | Some prev => ancestor_walk fuel' m prev (heightWalk - 1) height
                | None => None
                end
            end
        end
    end
  else Some pindexWalk.

Definition GetAncestor (m : BlockMap) (this : ptr) (height : Z) : option (option ptr) :=
  b ← m !! this;
  if (height >? nHeight b) || (height <? 0) then Some None
  else
    q ← ancestor_walk (Z.to_nat (nHeight b - height)) m this (nHeight b) height;
    Some (Some q).

(** ** Work *)

(** [GetBlockProof]; [None] is the division exception. *)
Definition GetBlockProof (bits : Z) : option base_uint :=
  let '(bnTarget, fNegative, fOverflow) := SetCompact bits in
  if fNegative || fOverflow || EqualTo bnTarget 0 then Some (of_u64 0)
  else
    q ← bn_div (bn_not bnTarget) (bn_add bnTarget (of_u64 1));
    Some (bn_add q (of_u64 1)).

Definition int64_max : Z := 2 ^ 63 - 1.

Definition GetBlockProofEquivalentTime (to_ from tip : CBlockIndex) (nPowTargetSpacing : Z) : option Z :=
  let '(r, sign) :=
    if bn_gt (nChainWork to_) (nChainWork from)
    then (bn_sub (nChainWork to_) (nChainWork from), 1)
    else (bn_sub (nChainWork from) (nChainWork to_), -1) in
  proof ← GetBlockProof (nBits tip);
  r ← bn_div (bn_mul r (of_u64 nPowTargetSpacing)) proof;
  Some (if bn_bits r >? 63 then sign * int64_max
        else i64 (u64 (u64 sign * GetLow64 r))).

(** ** Building the index *)

Definition BLOCK_VALID_TREE : Z := 2.
Definition BLOCK_VALID_MASK : Z := 7.
Definition BLOCK_FAILED_MASK : Z := 96.

(** [RaiseValidity]; [None] is the failed [assert] on [nUpTo]. *)
Definition RaiseValidity (b : CBlockIndex) (nUpTo : Z) : option (CBlockIndex * bool) :=
  if negb (Z.land nUpTo (Z.lnot BLOCK_VALID_MASK) =? 0) then None
  else if negb (Z.land (nStatus b) BLOCK_FAILED_MASK =? 0) then Some (b, false)
  else if Z.land (nStatus b) BLOCK_VALID_MASK <? nUpTo then
    Some ({| pprev := pprev b; pskip := pskip b; nHeight := nHeight b; nChainWork := nChainWork b;
        nTx := nTx b; nChainTx := nChainTx b;
        nStatus := Z.lor (Z.land (nStatus b) (u32 (Z.lnot BLOCK_VALID_MASK))) nUpTo;
        nVersion := nVersion b; hashMerkleRoot := hashMerkleRoot b; nTime := nTime b;
        nBits := nBits b; nNonce := nNonce b; nSequenceId := nSequenceId b;
        nTimeMax := nTimeMax b |}, true)
  else Some (b, false).

(** [IsValid] *)
Definition IsValid (b : CBlockIndex) (nUpTo : Z) : option bool :=
  if negb (Z.land nUpTo (Z.lnot BLOCK_VALID_MASK) =? 0) then None
  else if negb (Z.land (nStatus b) BLOCK_FAILED_MASK =? 0) then Some false
  else Some (Z.land (nStatus b) BLOCK_VALID_MASK >=? nUpTo).

(** The globals of validation.cpp that the index code touches. *)
Record ChainState := {
  mapBlockIndex : BlockMap;
  pindexBestHeader : option ptr;
  setDirtyBlockIndex : gset ptr
}.

Section AddBlock.

(** [CBlockHeader::GetHash] (double SHA-256 of the serialised header). *)
Variable GetHash : CBlockHeader -> ptr.

(** The new entry once [pprev] is known: height, skip pointer ([BuildSkip]),
    [nTimeMax] and [nChainWork]. [m] is the map the parent is looked up in. *)
Definition link_block (m : BlockMap) (block : CBlockHeader) : option CBlockIndex :=
  let new := CBlockIndex_of block in
  proof ← GetBlockProof (hd_nBits block);
  match m !! hd_hashPrevBlock block with
  | Some prev =>
      skip ← GetAncestor m (hd_hashPrevBlock block) (GetSkipHeight (nHeight prev + 1));
      Some {| pprev := Some (hd_hashPrevBlock block); pskip := skip; nHeight := nHeight prev + 1;
              nChainWork := bn_add (nChainWork prev) proof; nTx := 0; nChainTx := 0; nStatus := 0;
              nVersion := nVersion new; hashMerkleRoot := hashMerkleRoot new; nTime := nTime new;
              nBits := nBits new; nNonce := nNonce new; nSequenceId := 0;
              nTimeMax := Z.max (nTimeMax prev) (nTime new) |}
  | None =>
      Some {| pprev := None; pskip := None; nHeight := 0;
              nChainWork := bn_add (of_u64 0) proof; nTx := 0; nChainTx := 0; nStatus := 0;
              nVersion := nVersion new; hashMerkleRoot := hashMerkleRoot new; nTime := nTime new;
              nBits := nBits new; nNonce := nNonce new; nSequenceId := 0;
              nTimeMax := nTime new |}
  end.

(** [AddToBlockIndex]: the new state and the returned entry. The parent is looked
    up after the (still unlinked) new entry is in the map, as in the source. *)
Definition AddToBlockIndex (st : ChainState) (block : CBlockHeader) : option (ChainState * ptr) :=
  let hash := GetHash block in
  match mapBlockIndex st !! hash with
  | Some _ => Some (st, hash)
  | None =>
      let m1 := <[hash := CBlockIndex_of block]> (mapBlockIndex st) in
      linked ← link_block m1 block;
      '(new, _) ← RaiseValidity linked BLOCK_VALID_TREE;
      best ← match pindexBestHeader st with
             | None => Some hash
             | Some best =>
                 bb ← m1 !! best;
                 Some (if bn_lt (nChainWork bb) (nChainWork new) then hash else best)
             end;
      Some ({| mapBlockIndex := <[hash := new]> m1;
               pindexBestHeader := Some best;
               setDirtyBlockIndex := {[hash]} ∪ setDirtyBlockIndex st |}, hash)
  end.

End AddBlock.

(** ** Median time *)

Definition nMedianTimeSpan : nat := 11.

(** The times of the entry and up to [n - 1] of its predecessors, oldest first (the
    buffer is filled from its end). *)
Fixpoint collect_times (n : nat) (m : BlockMap) (pindex : option ptr) (acc : list Z) : list Z :=
  match n, pindex with
  | S n', Some p =>
      match m !! p with
      | Some b => collect_times n' m (pprev b) (nTime b :: acc)
      | None => acc
      end
  | _, _ => acc
  end.

Definition sort_times (l : list Z) : list Z := merge_sort (≤) l.

Definition GetMedianTimePast (m : BlockMap) (this : ptr) : Z :=
  let p := sort_times (collect_times nMedianTimeSpan m (Some this) []) in
  nth (length p / 2) p 0.

(** ** The active chain: [CChain], with [vChain : std::vector<CBlockIndex*>] *)

Abbreviation CChain := (list (option ptr)) (only parsing).

Definition chain_Genesis (c : CChain) : option ptr :=
  match c with [] => None | x :: _ => x end.
Definition chain_Tip (c : CChain) : option ptr := List.last c None.
Definition chain_Height (c : CChain) : Z := Z.of_nat (length c) - 1.

(** [operator[](int nHeight)] *)
Definition chain_at (c : CChain) (h : Z) : option ptr :=
  if (h <? 0) || (h >=? Z.of_nat (length c)) then None else nth (Z.to_nat h) c None.

Definition chain_Contains (m : BlockMap) (c : CChain) (pindex : ptr) : bool :=
  match m !! pindex with
  | Some b => bool_decide (chain_at c (nHeight b) = Some pindex)
  | None => false
  end.

Definition chain_Next (m : BlockMap) (c : CChain) (pindex : ptr) : option ptr :=
  if chain_Contains m c pindex then
    match m !! pindex with Some b => chain_at c (nHeight b + 1) | None => None end
  else None.

(** [vChain.resize(n)] fills with [NULL]. *)
Definition chain_resize (c : CChain) (n : nat) : CChain := resize n None c.

(** The loop of [SetTip]; the fuel bounds the heights still to visit. *)
Fixpoint set_tip_loop (fuel : nat) (m : BlockMap) (v : CChain) (pindex : option ptr) : option CChain :=
  match pindex with
  | None => Some v
  | Some p =>
      match m !! p with
      | None => None
      | Some b =>
          let i := Z.to_nat (nHeight b) in
          if bool_decide (v !! i = Some (Some p)) then Some v
          else match fuel with
               | O => None
               | S fuel' => set_tip_loop fuel' m (<[i := Some p]> v) (pprev b)
               end
      end
  end.

Definition SetTip (m : BlockMap) (c : CChain) (pindex : option ptr) : option CChain :=
  match pindex with
  | None => Some []
  | Some p =>
      b ← m !! p;
      let n := S (Z.to_nat (nHeight b)) in
      set_tip_loop n m (chain_resize c n) (Some p)
  end.

(** [GetLocator]: the loop over [pindex], [nStep] and the number of hashes so far. *)
Fixpoint locator_loop (fuel : nat) (m : BlockMap) (c : CChain) (pindex : option ptr)
    (nStep : Z) (vHave : list ptr) : option (list ptr) :=
  match pindex with
  | None => Some vHave
  | Some p =>
      match fuel with
      | O => None
      | S fuel' =>
          b ← m !! p;
          let vHave' := vHave ++ [p] in
          if nHeight b =? 0 then Some vHave'
          else
            let h := Z.max (nHeight b - nStep) 0 in
            next ← (if chain_Contains m c p then Some (chain_at c h) else GetAncestor m p h);
            let nStep' := if (10 <? length vHave')%nat then nStep * 2 else nStep in
            locator_loop fuel' m c next nStep' vHave'
      end
  end.

(** The hash of an entry is its key. *)
Definition GetLocator (m : BlockMap) (c : CChain) (pindex : option ptr) : option (list ptr) :=
  let start := match pindex with Some p => Some p | None => chain_Tip c end in
  match start with
  | None => Some []
  | Some p =>
      b ← m !! p;
      locator_loop (S (Z.to_nat (nHeight b))) m c start 1 []
  end.

(** [FindFork] *)
Fixpoint fork_loop (fuel : nat) (m : BlockMap) (c : CChain) (pindex : option ptr) : option (option ptr) :=
  match pindex with
  | None => Some None
  | Some p =>
      if chain_Contains m c p then Some (Some p)
      else match fuel with
           | O => None
           | S fuel' => b ← m !! p; fork_loop fuel' m c (pprev b)
           end
  end.

Definition FindFork (m : BlockMap) (c : CChain) (pindex : option ptr) : option (option ptr) :=
  match pindex with
  | None => Some None
  | Some p =>
      b ← m !! p;
      start ← (if nHeight b >? chain_Height c then GetAncestor m p (chain_Height c) else Some (Some p));
      fork_loop (S (Z.to_nat (nHeight b))) m c start
  end.

(** [std::lower_bound] over [vChain] with the predicate
    [GetBlockTimeMax() < time]: the usual halving search. *)
Fixpoint lower_bound (fuel : nat) (lt : nat -> bool) (first count : nat) : nat :=
  match fuel with
  | O => first
  | S fuel' =>
      if (count =? 0)%nat then first
      else
        let step := (count / 2)%nat in
        let it := (first + step)%nat in
        if lt it then lower_bound fuel' lt (S it) (count - S step)
        else lower_bound fuel' lt first step
  end.

Definition time_max_at (m : BlockMap) (c : CChain) (i : nat) : Z :=
  match nth i c None with
  | Some p => match m !! p with Some b => nTimeMax b | None => 0 end
  | None => 0
  end.

Definition FindEarliestAtLeast (m : BlockMap) (c : CChain) (time : Z) : option ptr :=
  let i := lower_bound (length c) (fun i => time_max_at m c i <? time) 0 (length c) in
  if (i =? length c)%nat then None else nth i c None.

(** [FindForkInGlobalIndex] *)
Fixpoint FindForkInGlobalIndex (m : BlockMap) (c : CChain) (vHave : list ptr) : option ptr :=
  match vHave with
  | [] => chain_Genesis c
  | hash :: vHave' =>
      match m !! hash with
      | Some _ => if chain_Contains m c hash then Some hash else FindForkInGlobalIndex m c vHave'
      | None => FindForkInGlobalIndex m c vHave'
      end
  end.

(** [LastCommonAncestor] *)
Fixpoint lca_loop (fuel : nat) (m : BlockMap) (pa pb : option ptr) : option (option ptr) :=
  if bool_decide (pa = pb) then Some pa
  else match pa, pb, fuel with
       | Some a, Some b, S fuel' =>
           ba ← m !! a; bb ← m !! b;
           lca_loop fuel' m (pprev ba) (pprev bb)
       | _, _, _ => None
       end.

Definition LastCommonAncestor (m : BlockMap) (pa pb : ptr) : option (option ptr) :=
  ba ← m !! pa; bb ← m !! pb;
  if nHeight ba >? nHeight bb then
    pa' ← GetAncestor m pa (nHeight bb);
    lca_loop (S (Z.to_nat (nHeight bb))) m pa' (Some pb)
  else if nHeight bb >? nHeight ba then
    pb' ← GetAncestor m pb (nHeight ba);
    lca_loop (S (Z.to_nat (nHeight ba))) m (Some pa) pb'
  else lca_loop (S (Z.to_nat (nHeight ba))) m (Some pa) (Some pb).

(** ** Well-formed index *)

(** [n] steps of [pprev]. *)
Fixpoint prev_iter (m : BlockMap) (p : ptr) (n : nat) : option ptr :=
  match n with
  | O => Some p
  | S n' => match m !! p with
            | Some b => match pprev b with Some q => prev_iter m q n' | None => None end
            | None => None
            end
  end.

(** The ancestor of [p] at height [h], by following [pprev] only. *)
Definition ancestor (m : BlockMap) (p : ptr) (h : Z) : option ptr :=
  match m !! p with
  | Some b => if (0 <=? h) && (h <=? nHeight b) then prev_iter m p (Z.to_nat (nHeight b - h)) else None
  | None => None
  end.

Definition proof_of (bits : Z) : Z :=
  match GetBlockProof bits with Some w => val w | None => 0 end.

(** The links of an entry: height, parent and skip pointer. *)
Record wf_link (m : BlockMap) (p : ptr) (b : CBlockIndex) : Prop := {
  wb_root : pprev b = None -> nHeight b = 0 /\ pskip b = None;
  wb_prev : forall q, pprev b = Some q -> exists bq, m !! q = Some bq /\ nHeight b = nHeight bq + 1;
  wb_skip : forall q, pskip b = Some q -> ancestor m p (GetSkipHeight (nHeight b)) = Some q;
  wb_height : 0 <= nHeight b
}.

Definition wf_index (m : BlockMap) : Prop := forall p b, m !! p = Some b -> wf_link m p b.

(** The accumulated time and work of an entry. *)
Record wf_data (m : BlockMap) (b : CBlockIndex) : Prop := {
  wd_root : pprev b = None -> nTimeMax b = nTime b /\ val (nChainWork b) = proof_of (nBits b);
  wd_prev : forall q bq, pprev b = Some q -> m !! q = Some bq ->
              nTimeMax b = Z.max (nTimeMax bq) (nTime b) /\
              val (nChainWork b) = (val (nChainWork bq) + proof_of (nBits b)) mod 2 ^ 256;
  wd_work : wf (nChainWork b)
}.

(** ** The skip height *)

Lemma InvertLowestOne_bound n : 0 <= n -> 0 <= InvertLowestOne n /\ (0 < n -> InvertLowestOne n < n).
Proof.
  intros Hn. unfold InvertLowestOne. pose proof (land_le_l n (n - 1) Hn). split; [lia|].
  intros. rewrite Z.land_comm. pose proof (land_le_l (n - 1) n ltac:(lia)). lia.
Qed.

Lemma GetSkipHeight_bound h : 0 <= GetSkipHeight h /\ (0 < h -> GetSkipHeight h < h).
Proof.
  unfold GetSkipHeight. case_if; [lia|]. case_if.
  - destruct (InvertLowestOne_bound (h - 1) ltac:(lia)) as [A1 A2]. specialize (A2 ltac:(lia)).
    destruct (InvertLowestOne_bound (InvertLowestOne (h - 1)) A1) as [B1 B2].
    destruct (Z.eq_dec (InvertLowestOne (h - 1)) 0) as [E|]; [|lia].
    rewrite E. change (InvertLowestOne 0) with 0. lia.
  - destruct (InvertLowestOne_bound h ltac:(lia)). lia.
Qed.

(** ** Ancestors *)

Lemma prev_iter_add m p q a b :
  prev_iter m p a = Some q -> prev_iter m p (a + b) = prev_iter m q b.
Proof.
  revert p. induction a as [|a IH]; intros p H; cbn in *; [by simplify_eq|].
  destruct (m !! p) as [bp|]; [|done]. destruct (pprev bp); [|done]. by apply IH.
Qed.

(** In a well-formed index an entry of height [h] has exactly [h] predecessors. *)
Lemma prev_iter_ok m p b n :
  wf_index m -> m !! p = Some b -> (n <= Z.to_nat (nHeight b))%nat ->
  exists q bq, prev_iter m p n = Some q /\ m !! q = Some bq /\ nHeight bq = nHeight b - Z.of_nat n.
Proof.
  intros W. revert p b. induction n as [|n IH]; intros p b Hp Hn.
  { exists p, b. cbn. auto with lia. }
  pose proof (W p b Hp) as Wb. destruct (pprev b) as [q|] eqn:E.
  - destruct (wb_prev _ _ _ Wb q E) as (bq & Hq & Hh).
    destruct (IH q bq Hq ltac:(lia)) as (r & br & H1 & H2 & H3).
    exists r, br. cbn. rewrite Hp, E. auto with lia.
  - destruct (wb_root _ _ _ Wb E). lia.
Qed.

Lemma ancestor_ok m p b h :
  wf_index m -> m !! p = Some b -> 0 <= h <= nHeight b ->
  exists q bq, ancestor m p h = Some q /\ m !! q = Some bq /\ nHeight bq = h.
Proof.
  intros W Hp Hh. unfold ancestor. rewrite Hp.
  rewrite (proj2 (Z.leb_le 0 h)), (proj2 (Z.leb_le h _)) by lia. cbn [andb].
  destruct (prev_iter_ok m p b (Z.to_nat (nHeight b - h)) W Hp ltac:(lia)) as (q & bq & H1 & H2 & H3).
  exists q, bq. auto with lia.
Qed.

(** Ancestors of an ancestor. *)
Lemma ancestor_trans m p b q h1 h2 :
  wf_index m -> m !! p = Some b -> 0 <= h2 <= h1 -> h1 <= nHeight b ->
  ancestor m p h1 = Some q -> ancestor m q h2 = ancestor m p h2.
Proof.
  intros W Hp Hh1 Hh2 Hq.
  destruct (ancestor_ok m p b h1 W Hp ltac:(lia)) as (q' & bq & E & Hbq & Hhq).
  rewrite Hq in E. injection E as <-.
  unfold ancestor in *. rewrite Hp in *. rewrite Hbq, Hhq.
  rewrite !(proj2 (Z.leb_le _ _)) in * by lia. cbn [andb] in *.
  replace (Z.to_nat (nHeight b - h2)) with (Z.to_nat (nHeight b - h1) + Z.to_nat (h1 - h2))%nat by lia.
  symmetry. by apply prev_iter_add.
Qed.

Lemma ancestor_self m p b : m !! p = Some b -> 0 <= nHeight b -> ancestor m p (nHeight b) = Some p.
Proof.
  intros Hp Hh. unfold ancestor. rewrite Hp, (proj2 (Z.leb_le _ _)), (proj2 (Z.leb_le _ _)) by lia.
  cbn [andb]. by rewrite Z.sub_diag.
Qed.

Lemma ancestor_prev m p b q h :
  wf_index m -> m !! p = Some b -> pprev b = Some q -> 0 <= h < nHeight b ->
  ancestor m p h = ancestor m q h.
Proof.
  intros W Hp E Hh. destruct (wb_prev _ _ _ (W p b Hp) q E) as (bq & Hq & Hhq).
  unfold ancestor. rewrite Hp, Hq, !(proj2 (Z.leb_le _ _)) by lia. cbn [andb].
  replace (Z.to_nat (nHeight b - h)) with (S (Z.to_nat (nHeight bq - h))) by lia.
  cbn. by rewrite Hp, E.
Qed.

Lemma ancestor_walk_ok m p b h fuel :
  wf_index m -> m !! p = Some b -> 0 <= h <= nHeight b -> nHeight b - h <= Z.of_nat fuel ->
  ancestor_walk fuel m p (nHeight b) h = ancestor m p h.
Proof.
  intros W. revert p b. induction fuel as [|fuel IH]; intros p b Hp Hh Hf.
  { cbn. assert (h = nHeight b) as -> by lia.
    rewrite Z.gtb_ltb, (proj2 (Z.ltb_ge _ _)) by lia. symmetry. apply ancestor_self; [done|lia]. }
  cbn [ancestor_walk]. rewrite Z.gtb_ltb. destruct (h <? nHeight b) eqn:E; zbool.
  2: { assert (h = nHeight b) as -> by lia. symmetry. apply ancestor_self; [done|lia]. }
  rewrite Hp. pose proof (W p b Hp) as Wb.
  destruct (pprev b) as [q|] eqn:Eq; [|destruct (wb_root _ _ _ Wb Eq); lia].
  destruct (wb_prev _ _ _ Wb q Eq) as (bq & Hq & Hhq).
  assert (ancestor_walk fuel m q (nHeight b - 1) h = ancestor m p h) as Hprev.
  { replace (nHeight b - 1) with (nHeight bq) by lia. rewrite (IH q bq Hq) by lia.
    symmetry. apply (ancestor_prev m p b); (done || lia). }
  destruct (pskip b) as [s|] eqn:Es; [|done]. case_if; [|done].
  destruct (GetSkipHeight_bound (nHeight b)) as [G1 G2]. specialize (G2 ltac:(lia)).
  pose proof (wb_skip _ _ _ Wb s Es) as Hs.
  destruct (ancestor_ok m p b _ W Hp (conj G1 (Z.lt_le_incl _ _ G2))) as (s' & bs & E1 & E2 & E3).
  rewrite Hs in E1. injection E1 as <-.
  assert (h <= GetSkipHeight (nHeight b)).
  { apply orb_true_iff in Heqb0 as [?|?]; zbool; lia. }
  rewrite <- E3, (IH s bs E2) by lia. rewrite <- E3 in Hs.
  apply (ancestor_trans m p b s (nHeight bs)); (done || lia).
Qed.

Lemma GetAncestor_ok m p b h :
  wf_index m -> m !! p = Some b -> GetAncestor m p h = Some (ancestor m p h).
Proof.
  intros W Hp. unfold GetAncestor. rewrite Hp. cbn.
  rewrite Z.gtb_ltb. case_if.
  - unfold ancestor. rewrite Hp. apply orb_true_iff in Heqb0 as [?|?]; zbool.
    + by rewrite (proj2 (Z.leb_gt h (nHeight b))), andb_false_r by lia.
    + by rewrite (proj2 (Z.leb_gt 0 _)) by lia.
  - rewrite (ancestor_walk_ok m p b h) by (done || lia).
    destruct (ancestor_ok m p b h W Hp ltac:(lia)) as (q & _ & -> & _). done.
Qed.

(** ** Proof of work of a block *)

(** The target a compact word stands for, [0] when it stands for none. *)
Definition target_of (bits : Z) : Z :=
  if csign bits || (2 ^ 256 <=? compact_value bits) then 0 else compact_value bits.

Lemma compact_value_nonneg c : in_u 32 c -> 0 <= compact_value c.
Proof.
  intros Hc. pose proof (cword_range c). pose proof (csize_range c Hc). unfold compact_value.
  case_if; [apply Z.div_pos; lia|nia].
Qed.

(** [2^256 - 1] is not the value of a compact word. *)
Lemma compact_value_not_max c : in_u 32 c -> compact_value c <> 2 ^ 256 - 1.
Proof.
  intros Hc. pose proof (cword_range c). pose proof (csize_range c Hc). unfold compact_value.
  case_if.
  - assert (cword c / 2 ^ (8 * (3 - csize c)) <= cword c); [|lia].
    apply Z.div_le_upper_bound; nia.
  - replace (8 * (csize c - 3)) with (1 + (8 * (csize c - 3) - 1)) by lia.
    rewrite Z.pow_add_r by lia. lia.
Qed.

Lemma SetCompact_cases c :
  in_u 32 c ->
  exists a neg ovf, SetCompact c = (a, neg, ovf) /\ wf a /\
    val a = compact_value c mod 2 ^ 256 /\
    (ovf = true <-> 2 ^ 256 <= compact_value c) /\ (neg = true -> csign c = true) /\
    (csign c = true -> 0 < compact_value c -> neg = true).
Proof.
  intros Hc. destruct (SetCompact_ok c Hc) as [W V]. pose proof (SetCompact_overflow c Hc) as O.
  unfold SetCompact_val in *. destruct (SetCompact c) as [[a neg] ovf] eqn:E. cbn [fst snd] in *.
  exists a, neg, ovf. split_and!; try done.
  - rewrite SetCompact_unfold in E. injection E as _ <- _. intros. by zbool.
  - rewrite SetCompact_unfold in E. injection E as _ <- _. intros -> Hv.
    rewrite andb_true_r, negb_true_iff, Z.eqb_neq. unfold compact_value in Hv.
    pose proof (cword_range c). pose proof (csize_range c Hc). case_if; nia.
Qed.

Lemma GetBlockProof_ok c :
  in_u 32 c ->
  exists w, GetBlockProof c = Some w /\ wf w /\
    val w = (if target_of c =? 0 then 0 else 2 ^ 256 / (target_of c + 1)).
Proof.
  intros Hc. unfold GetBlockProof, target_of.
  destruct (SetCompact_cases c Hc) as (a & neg & ovf & -> & Wa & Va & Ho & Hn & Hn').
  pose proof (compact_value_nonneg c Hc). pose proof (compact_value_not_max c Hc).
  rewrite EqualTo_val by (done || by unfold in_u).
  assert (wf (of_u64 0) /\ val (of_u64 0) = 0) as [W0 V0] by (split; [apply wf_of_u64|done]).
  destruct (2 ^ 256 <=? compact_value c) eqn:Eo; zbool.
  { rewrite (proj2 Ho) by done. rewrite !orb_true_r. cbn. eauto. }
  assert (ovf = false) as -> by (destruct ovf; [|done]; pose proof (proj1 Ho eq_refl); lia).
  rewrite Z.mod_small in Va by lia. rewrite Va, !orb_false_r.
  destruct (csign c) eqn:Es.
  { cbn [orb]. destruct (Z.eq_dec (compact_value c) 0) as [E0|].
    - rewrite E0. rewrite orb_true_r. eauto.
    - rewrite Hn' by (done || lia). cbn. eauto. }
  assert (neg = false) as -> by (destruct neg; [|done]; by discriminate Hn).
  cbn [orb]. destruct (compact_value c =? 0) eqn:E0; zbool; [eauto|].
  set (t := compact_value c) in *.
  destruct (not_ok a Wa) as [Wn Vn].
  assert (wf (of_u64 1)) as W1 by apply wf_of_u64.
  assert (val (bn_add a (of_u64 1)) = t + 1) as Vt.
  { rewrite add_val, val_of_u64, Va by (done || by unfold in_u). apply Z.mod_small. lia. }
  destruct (div_ok (bn_not a) (bn_add a (of_u64 1))) as (q & Eq & Wq & Vq);
    [done|by apply add_wf|lia|].
  rewrite Eq. cbn. eexists. split; [done|]. split; [by apply add_wf|].
  assert (2 ^ 256 / (t + 1) = (2 ^ 256 - 1 - t) / (t + 1) + 1) as ->.
  { replace (2 ^ 256) with ((2 ^ 256 - 1 - t) + 1 * (t + 1)) at 1 by lia. by rewrite Z.div_add by lia. }
  rewrite add_val, val_of_u64, Vq, Vn, Vt, Va by (done || by unfold in_u).
  apply Z.mod_small. split.
  - assert (0 <= (2 ^ 256 - 1 - t) / (t + 1)) by (apply Z.div_pos; lia). lia.
  - assert ((2 ^ 256 - 1 - t) / (t + 1) < 2 ^ 255); [|lia].
    apply Z.div_lt_upper_bound; lia.
Qed.

(** ** Adding a block keeps the index well formed *)

Lemma link_prev_in m p b q :
  wf_index m -> m !! p = Some b -> pprev b = Some q -> is_Some (m !! q).
Proof. intros W Hp E. destruct (wb_prev _ _ _ (W p b Hp) q E) as (bq & -> & _). eauto. Qed.

Lemma prev_iter_insert m x bx p n :
  wf_index m -> m !! x = None -> is_Some (m !! p) ->
  prev_iter (<[x := bx]> m) p n = prev_iter m p n.
Proof.
  intros W Hx. revert p. induction n as [|n IH]; intros p [b Hp]; [done|].
  cbn. assert (x <> p) by congruence. rewrite lookup_insert_ne, Hp by done.
  destruct (pprev b) as [q|] eqn:E; [|done]. apply IH. by eapply link_prev_in.
Qed.

Lemma ancestor_insert m x bx p h :
  wf_index m -> m !! x = None -> is_Some (m !! p) ->
  ancestor (<[x := bx]> m) p h = ancestor m p h.
Proof.
  intros W Hx [b Hp]. unfold ancestor. assert (x <> p) by congruence.
  rewrite lookup_insert_ne, Hp by done. case_if; [|done]. by apply prev_iter_insert.
Qed.

Lemma wf_index_insert m x bx :
  wf_index m -> m !! x = None -> wf_link (<[x := bx]> m) x bx -> wf_index (<[x := bx]> m).
Proof.
  intros W Hx Wx p b Hp. destruct (decide (x = p)) as [->|Hne].
  { rewrite lookup_insert_eq in Hp. by injection Hp as <-. }
  rewrite lookup_insert_ne in Hp by done. destruct (W p b Hp) as [R P S H].
  split; [done| | |done].
  - intros q Eq. destruct (P q Eq) as (bq & Hq & Hh). exists bq. split; [|done].
    rewrite lookup_insert_ne; [done|congruence].
  - intros q Eq. rewrite ancestor_insert; eauto.
Qed.

Definition wf_blockmap (m : BlockMap) : Prop :=
  wf_index m /\ forall p b, m !! p = Some b -> wf_data m b.

(** The best header is an entry of maximal work. *)
Definition best_ok (m : BlockMap) (best : option ptr) : Prop :=
  match best with
  | None => m = ∅
  | Some q => exists bq, m !! q = Some bq /\
                forall p b, m !! p = Some b -> val (nChainWork b) <= val (nChainWork bq)
  end.

Definition index_inv (st : ChainState) : Prop :=
  wf_blockmap (mapBlockIndex st) /\ best_ok (mapBlockIndex st) (pindexBestHeader st) /\
  forall q, q ∈ setDirtyBlockIndex st -> is_Some (mapBlockIndex st !! q).

Lemma link_block_ok m block :
  wf_blockmap m -> in_u 32 (hd_nBits block) ->
  forall x, m !! x = None -> x <> hd_hashPrevBlock block ->
  exists b, link_block (<[x := CBlockIndex_of block]> m) block = Some b /\
    wf_link (<[x := b]> m) x b /\ wf_data (<[x := b]> m) b /\ nStatus b = 0.
Proof.
  intros [W D] Hbits x Hx Hself.
  destruct (GetBlockProof_ok (hd_nBits block) Hbits) as (w & Ew & Ww & Vw).
  assert (wf_index (<[x := CBlockIndex_of block]> m)) as W1.
  { apply wf_index_insert; [done|done|]. split; cbn; try done. }
  unfold link_block. rewrite Ew. cbn [mbind option_bind]. rewrite lookup_insert_ne by done.
  destruct (m !! hd_hashPrevBlock block) as [prev|] eqn:Ep.
  - assert (<[x := CBlockIndex_of block]> m !! hd_hashPrevBlock block = Some prev) as Ep1
      by (by rewrite lookup_insert_ne).
    rewrite (GetAncestor_ok _ _ _ _ W1 Ep1), ancestor_insert by eauto. cbn [mbind option_bind].
    pose proof (wb_height _ _ _ (W _ _ Ep)) as Hh.
    destruct (GetSkipHeight_bound (nHeight prev + 1)) as [G1 G2].
    destruct (ancestor_ok m _ prev (GetSkipHeight (nHeight prev + 1)) W Ep ltac:(lia))
      as (s & bs & Es & _).
    rewrite Es. eexists. split; [done|]. split; [|split; [|done]].
    + split; cbn; [done| | |lia].
      * intros q [= <-]. exists prev. by rewrite lookup_insert_ne.
      * intros q [= <-]. unfold ancestor at 1. rewrite lookup_insert_eq. cbn.
        rewrite !(proj2 (Z.leb_le _ _)) by lia. cbn [andb].
        replace (Z.to_nat (nHeight prev + 1 - GetSkipHeight (nHeight prev + 1)))
          with (S (Z.to_nat (nHeight prev - GetSkipHeight (nHeight prev + 1)))) by lia.
        cbn. rewrite lookup_insert_eq. cbn. rewrite prev_iter_insert by eauto.
        unfold ancestor in Es. rewrite Ep, !(proj2 (Z.leb_le _ _)) in Es by lia. done.
    + split; cbn -[bn_add of_u64 val]; [done| |].
      * intros q bq [= <-] Hq. rewrite lookup_insert_ne, Ep in Hq by done. injection Hq as <-.
        split; [done|]. unfold proof_of. rewrite Ew.
        apply add_val; [|done]. by apply (D _ _ Ep).
      * apply add_wf; [|done]. by apply (D _ _ Ep).
  - eexists. split; [done|]. split; [|split; [|done]]; (split; cbn -[bn_add of_u64 val]; try done).
    + intros _. split; [done|]. unfold proof_of. rewrite Ew, add_val by (done || apply wf_of_u64).
      rewrite val_of_u64 by (by unfold in_u). apply Z.mod_small. pose proof (wf_range w Ww). lia.
    + apply add_wf; [apply wf_of_u64|done].
Qed.

(** Two entries that differ only in fields the links and the data do not use. *)
Definition same_block (b b' : CBlockIndex) : Prop :=
  pprev b = pprev b' /\ pskip b = pskip b' /\ nHeight b = nHeight b' /\
  nChainWork b = nChainWork b' /\ nTime b = nTime b' /\ nBits b = nBits b' /\ nTimeMax b = nTimeMax b'.

Lemma RaiseValidity_tree_same b :
  exists b' chg, RaiseValidity b BLOCK_VALID_TREE = Some (b', chg) /\ same_block b b'.
Proof.
  unfold RaiseValidity, same_block. change (Z.land BLOCK_VALID_TREE _) with 0. cbn [negb Z.eqb].
  repeat case_if; eauto 20.
Qed.

Lemma prev_iter_same m x b b' p n :
  pprev b = pprev b' -> prev_iter (<[x := b]> m) p n = prev_iter (<[x := b']> m) p n.
Proof.
  intros E. revert p. induction n as [|n IH]; intros p; [done|]. cbn.
  destruct (decide (x = p)) as [->|].
  - rewrite !lookup_insert_eq, E. by destruct (pprev b').
  - rewrite !lookup_insert_ne by done. destruct (m !! p) as [bp|]; [|done]. by destruct (pprev bp).
Qed.

Lemma wf_link_same m x b b' :
  same_block b b' -> x <> default 0 (pprev b) \/ pprev b = None ->
  wf_link (<[x := b]> m) x b -> wf_link (<[x := b']> m) x b'.
Proof.
  intros (E1 & E2 & E3 & _) Hne [R P S H]. rewrite E1, E2, E3 in *.
  split; [done| | |done].
  - intros q Eq. destruct (P q Eq) as (bq & Hq & Hh). rewrite Eq in Hne.
    destruct Hne as [Hne|]; [|done]. cbn in Hne. rewrite lookup_insert_ne in Hq |- * by done. eauto.
  - intros q Eq. rewrite <- (S q Eq). unfold ancestor. rewrite !lookup_insert_eq, E3.
    case_if; [|done]. by apply prev_iter_same.
Qed.

Lemma wf_data_same m x b b' :
  same_block b b' -> x <> default 0 (pprev b) \/ pprev b = None ->
  wf_data (<[x := b]> m) b -> wf_data (<[x := b']> m) b'.
Proof.
  intros (E1 & _ & _ & E4 & E5 & E6 & E7) Hne [R P W]. rewrite E1, E4, E5, E6, E7 in *.
  split; [done| |done]. intros q bq Eq Hq. rewrite Eq in Hne. destruct Hne as [Hne|]; [|done].
  cbn in Hne. apply (P q); [done|]. by rewrite lookup_insert_ne in Hq |- *.
Qed.

Lemma wf_data_insert m x bx b :
  m !! x = None -> (forall q, pprev b = Some q -> is_Some (m !! q)) ->
  wf_data m b -> wf_data (<[x := bx]> m) b.
Proof.
  intros Hx Hprev [R P W]. split; [done| |done]. intros q bq Eq Hq.
  destruct (Hprev q Eq) as [bq' Hq']. assert (x <> q) by congruence.
  rewrite lookup_insert_ne in Hq by done. by apply (P q).
Qed.

Section AddBlockOk.

Context (GetHash : CBlockHeader -> ptr).

Lemma AddToBlockIndex_ok st block :
  index_inv st -> in_u 32 (hd_nBits block) -> GetHash block <> hd_hashPrevBlock block ->
  exists st', AddToBlockIndex GetHash st block = Some (st', GetHash block) /\ index_inv st' /\
    is_Some (mapBlockIndex st' !! GetHash block) /\
    (forall p b, mapBlockIndex st !! p = Some b -> mapBlockIndex st' !! p = Some b).
Proof.
  intros ([W D] & Hbest & Hdirty) Hbits Hself. unfold AddToBlockIndex.
  set (x := GetHash block) in *. set (m := mapBlockIndex st) in *.
  destruct (m !! x) as [bx|] eqn:Hx.
  { exists st. split; [done|]. split; [done|]. split; [|done]. fold m. by rewrite Hx. }
  destruct (link_block_ok m block (conj W D) Hbits x Hx Hself) as (b & Eb & Wl & Wd & Hst).
  rewrite Eb. cbn [mbind option_bind].
  destruct (RaiseValidity_tree_same b) as (new & chg & -> & Hsame). cbn [mbind option_bind].
  assert (x <> default 0 (pprev b) \/ pprev b = None) as Hpp.
  { destruct (pprev b) as [q|] eqn:Eq; [left|by right]. cbn. intros <-.
    destruct (wb_prev _ _ _ Wl x Eq) as (bq & Hq & Hh). rewrite lookup_insert_eq in Hq.
    injection Hq as <-. lia. }
  pose proof (wf_link_same m x b new Hsame Hpp Wl) as Wl'.
  pose proof (wf_data_same m x b new Hsame Hpp Wd) as Wd'.
  assert (wf_blockmap (<[x := new]> m)) as Wm.
  { split; [by apply wf_index_insert|]. intros p bp Hp.
    destruct (decide (x = p)) as [->|]; [rewrite lookup_insert_eq in Hp; by injection Hp as <-|].
    rewrite lookup_insert_ne in Hp by done. apply wf_data_insert; [done| |by apply (D p)].
    intros q Eq. by eapply link_prev_in. }
  assert (exists best', (match pindexBestHeader st with
            | None => Some x
            | Some best => bb ← <[x := CBlockIndex_of block]> m !! best;
                           Some (if bn_lt (nChainWork bb) (nChainWork new) then x else best)
            end) = Some best' /\ best_ok (<[x := new]> m) (Some best')) as (best' & -> & Hb').
  { unfold best_ok in Hbest. destruct (pindexBestHeader st) as [best|].
    - destruct Hbest as (bb & Hbb & Hmax). assert (x <> best) by congruence.
      rewrite lookup_insert_ne, Hbb by done. cbn. eexists. split; [done|].
      rewrite lt_val by (apply (D _ _ Hbb) || apply Wd'). case_if.
      + exists new. rewrite lookup_insert_eq. split; [done|]. intros p bp Hp.
        destruct (decide (x = p)) as [->|]; [rewrite lookup_insert_eq in Hp; injection Hp as <-; lia|].
        rewrite lookup_insert_ne in Hp by done. specialize (Hmax p bp Hp). lia.
      + exists bb. rewrite lookup_insert_ne by done. split; [done|]. intros p bp Hp.
        destruct (decide (x = p)) as [->|]; [rewrite lookup_insert_eq in Hp; injection Hp as <-; lia|].
        rewrite lookup_insert_ne in Hp by done. by apply (Hmax p).
    - eexists. split; [done|]. exists new. rewrite lookup_insert_eq. split; [done|].
      intros p bp Hp. fold m in Hbest. rewrite Hbest in Hp.
      destruct (decide (x = p)) as [->|]; [rewrite lookup_insert_eq in Hp; injection Hp as <-; lia|].
      rewrite lookup_insert_ne in Hp by done. done. }
  cbn [mbind option_bind]. rewrite insert_insert_eq. eexists. split; [done|].
  split; [split; [done|split; [done|]]|split].
  - cbn. intros q Hq. destruct (decide (x = q)) as [->|]; [by rewrite lookup_insert_eq|].
    rewrite lookup_insert_ne by done. apply Hdirty.
    apply elem_of_union in Hq as [Hq%elem_of_singleton|Hq]; [congruence|done].
  - cbn. rewrite lookup_insert_eq. eauto.
  - cbn. intros p bp Hp. rewrite lookup_insert_ne; [done|congruence].
Qed.

End AddBlockOk.

(** ** Median time past *)

(** How many entries are below a bound. *)
Definition count_lt (x : Z) (l : list Z) : nat := length (filter (fun t => t < x) l).

Lemma count_lt_cons x y l : count_lt x (y :: l) = ((if decide (y < x)%Z then 1 else 0) + count_lt x l)%nat.
Proof. unfold count_lt. rewrite filter_cons. by case_decide. Qed.

Lemma count_lt_app x l1 l2 : count_lt x (l1 ++ l2) = (count_lt x l1 + count_lt x l2)%nat.
Proof. induction l1 as [|y l1 IH]; [done|]. cbn [app]. rewrite !count_lt_cons, IH. lia. Qed.

Lemma count_lt_perm x l1 l2 : l1 ≡ₚ l2 -> count_lt x l1 = count_lt x l2.
Proof. intros H. unfold count_lt. by rewrite H. Qed.

Lemma count_lt_zero x l : Forall (fun t => x <= t) l -> count_lt x l = 0%nat.
Proof. induction 1; [done|]. rewrite count_lt_cons. case_decide; lia. Qed.

(** In a sorted list the [k]-th entry is at least [x] iff at most [k] entries are below [x]. *)
Lemma sorted_nth_count x l k :
  StronglySorted (≤) l -> (k < length l)%nat -> x <= nth k l 0 <-> (count_lt x l <= k)%nat.
Proof.
  intros Hs. revert k. induction Hs as [|y l Hs IH Hall]; intros k Hk; simpl in Hk; [lia|].
  rewrite count_lt_cons. destruct k as [|k]; cbn [nth].
  - case_decide; [lia|]. rewrite count_lt_zero; [lia|].
    eapply Forall_impl; [apply Hall|]. cbn. intros; lia.
  - case_decide.
    + rewrite (IH k) by lia. lia.
    + rewrite count_lt_zero; [|eapply Forall_impl; [apply Hall|]; cbn; intros; lia].
      split; [lia|]. intros _.
      assert (y <= nth k l 0); [|lia]. rewrite Forall_forall in Hall. apply Hall.
      apply list_elem_of_In, nth_In. lia.
Qed.

(** The median of a non-empty window. *)
Definition median (l : list Z) : Z := nth (length l / 2) (sort_times l) 0.

Lemma sort_times_length l : length (sort_times l) = length l.
Proof. apply Permutation_length, merge_sort_Permutation. Qed.

Lemma median_ge x l : l <> [] -> x <= median l <-> (count_lt x l <= length l / 2)%nat.
Proof.
  intros Hl. unfold median. assert (0 < length l)%nat by (destruct l; simpl; [done|lia]).
  rewrite sorted_nth_count.
    unfold sort_times. by rewrite (count_lt_perm x _ _ (merge_sort_Permutation _ l)).
  - apply StronglySorted_merge_sort; apply _.
  - rewrite sort_times_length. apply Nat.div_lt; lia.
Qed.

(** Shifting the window: a new time above the median comes in, at most one old
    time goes out. *)
Lemma median_shift t l l' :
  l <> [] -> median l < t ->
  (l' = l ++ [t] \/ exists old rest, l = old :: rest /\ l' = rest ++ [t]) ->
  (length l <= length l')%nat -> median l <= median l'.
Proof.
  intros Hl Ht Hl' Hlen.
  pose proof (proj1 (median_ge (median l) l Hl) ltac:(lia)) as Hc.
  assert (length l / 2 <= length l' / 2)%nat by (by apply Nat.Div0.div_le_mono).
  destruct Hl' as [->|(old & rest & -> & ->)].
  - apply median_ge; [by destruct l|]. rewrite count_lt_app, count_lt_cons.
    case_decide; [lia|]. change (count_lt (median l) []) with 0%nat. lia.
  - apply median_ge; [by destruct rest|]. rewrite count_lt_app, count_lt_cons.
    rewrite decide_False by lia. change (count_lt (median (old :: rest)) []) with 0%nat.
    rewrite count_lt_cons in Hc. case_decide; lia.
Qed.

Lemma collect_times_app n m p acc : collect_times n m p acc = collect_times n m p [] ++ acc.
Proof.
  revert p acc. induction n as [|n IH]; intros [p|] acc; cbn; try done.
  destruct (m !! p) as [b|]; [|done]. rewrite (IH _ [_]), (IH _ (_ :: acc)).
  by rewrite <- app_assoc.
Qed.

(** The window of [n + 1] entries is the window of [n] entries with the next older time in front. *)
Lemma collect_times_S n m p :
  collect_times (S n) m p [] = collect_times n m p [] \/
  exists t, collect_times (S n) m p [] = t :: collect_times n m p [].
Proof.
  revert p. induction n as [|n IH]; intros [p|]; cbn [collect_times]; try (by left).
  - destruct (m !! p) as [b|]; [right|by left]. exists (nTime b). by destruct (pprev b).
  - destruct (m !! p) as [b|]; [|by left].
    change (match pprev b with Some p0 => _ | None => _ end)
      with (collect_times (S n) m (pprev b) [nTime b]).
    rewrite (collect_times_app (S n)), (collect_times_app n).
    destruct (IH (pprev b)) as [->|[t ->]]; [by left|right]. by exists t.
Qed.

Lemma GetMedianTimePast_median m p :
  GetMedianTimePast m p = median (collect_times nMedianTimeSpan m (Some p) []).
Proof. unfold GetMedianTimePast, median. by rewrite sort_times_length. Qed.

Lemma collect_times_some n m p b acc :
  m !! p = Some b -> collect_times (S n) m (Some p) acc = collect_times n m (pprev b) (nTime b :: acc).
Proof. intros Hp. cbn. by rewrite Hp. Qed.

Lemma mtp_step m p b q :
  m !! p = Some b -> pprev b = Some q -> is_Some (m !! q) ->
  GetMedianTimePast m q < nTime b -> GetMedianTimePast m q <= GetMedianTimePast m p.
Proof.
  intros Hp Eq [bq Hq]. rewrite !GetMedianTimePast_median. intros Ht.
  change nMedianTimeSpan with (S 10) in *.
  assert (collect_times (S 10) m (Some p) [] = collect_times 10 m (Some q) [] ++ [nTime b]) as Ep.
  { rewrite (collect_times_some _ _ _ _ _ Hp), Eq. apply collect_times_app. }
  assert (collect_times (S 10) m (Some q) [] <> []) as Hne.
  { rewrite (collect_times_some _ _ _ _ _ Hq), collect_times_app.
    by destruct (collect_times 10 m (pprev bq) []). }
  destruct (collect_times_S 10 m (Some q)) as [E|[t E]].
  all: apply median_shift with (nTime b); [done|done| |]; rewrite Ep, E; [eauto|].
  all: rewrite length_app; cbn [length]; lia.
Qed.

(** The rule [ContextualCheckBlockHeader] enforces ("time-too-old"). *)
Definition time_rule (m : BlockMap) : Prop :=
  forall p b q, m !! p = Some b -> pprev b = Some q -> GetMedianTimePast m q < nTime b.

Lemma mtp_prev_iter m p b n q :
  wf_index m -> time_rule m -> m !! p = Some b -> (n <= Z.to_nat (nHeight b))%nat ->
  prev_iter m p n = Some q -> GetMedianTimePast m q <= GetMedianTimePast m p.
Proof.
  intros W T. revert p b. induction n as [|n IH]; intros p b Hp Hn Hq; cbn in Hq; [by simplify_eq|].
  rewrite Hp in Hq. destruct (pprev b) as [r|] eqn:Er; [|done].
  destruct (wb_prev _ _ _ (W p b Hp) r Er) as (br & Hr & Hh).
  etransitivity; [eapply (IH r br); (done || lia)|].
  apply (mtp_step m p b r); eauto.
Qed.

(** ** The active chain *)

(** [c] holds at every index the ancestor of its tip at that height. *)
Definition chain_ok (m : BlockMap) (c : CChain) : Prop :=
  forall i o, c !! i = Some o -> exists p b, o = Some p /\ m !! p = Some b /\ nHeight b = Z.of_nat i /\
    forall j, i = S j -> c !! j = Some (pprev b).

Lemma chain_ok_prev_iter m c i p n :
  wf_index m -> chain_ok m c -> c !! i = Some (Some p) -> (n <= i)%nat ->
  c !! (i - n)%nat = Some (prev_iter m p n).
Proof.
  intros W C. revert i p. induction n as [|n IH]; intros i p Hi Hn.
  { by rewrite Nat.sub_0_r. }
  destruct (C i _ Hi) as (p' & b & [= <-] & Hp & Hh & Hprev).
  destruct i as [|j]; [lia|]. specialize (Hprev j eq_refl).
  cbn. rewrite Hp. destruct (pprev b) as [q|] eqn:Eq.
  - apply (IH j q Hprev ltac:(lia)).
  - destruct (wb_root _ _ _ (W p b Hp) Eq). lia.
Qed.

Lemma chain_ok_ancestor m c i p j :
  wf_index m -> chain_ok m c -> c !! i = Some (Some p) -> (j <= i)%nat ->
  c !! j = Some (ancestor m p (Z.of_nat j)).
Proof.
  intros W C Hi Hj. destruct (C i _ Hi) as (p' & b & [= <-] & Hp & Hh & _).
  replace j with (i - (i - j))%nat at 1 by lia. rewrite (chain_ok_prev_iter m c i p) by (done || lia).
  unfold ancestor. rewrite Hp, Hh, !(proj2 (Z.leb_le _ _)) by lia. cbn [andb].
  do 2 f_equal. lia.
Qed.

(** The chain of ancestors of [p]. *)
Definition ancestors_of (m : BlockMap) (p : ptr) (h : Z) : CChain :=
  map (fun i => ancestor m p (Z.of_nat i)) (seq 0 (S (Z.to_nat h))).

Lemma ancestors_of_lookup m p h i :
  (i <= Z.to_nat h)%nat -> ancestors_of m p h !! i = Some (ancestor m p (Z.of_nat i)).
Proof.
  intros Hi. unfold ancestors_of. rewrite list_lookup_fmap, lookup_seq_lt by lia. done.
Qed.

Lemma ancestors_of_ok m p b :
  wf_index m -> m !! p = Some b -> chain_ok m (ancestors_of m p (nHeight b)).
Proof.
  intros W Hp i o Hi.
  assert (i <= Z.to_nat (nHeight b))%nat as Hle.
  { apply lookup_lt_Some in Hi. unfold ancestors_of in Hi. rewrite length_map, length_seq in Hi. lia. }
  rewrite ancestors_of_lookup in Hi by done. injection Hi as <-.
  pose proof (wb_height _ _ _ (W p b Hp)).
  destruct (ancestor_ok m p b (Z.of_nat i) W Hp ltac:(lia)) as (q & bq & Eq & Hq & Hh).
  exists q, bq. split_and!; try done. intros j ->. rewrite ancestors_of_lookup by lia. f_equal.
  rewrite <- (ancestor_trans m p b q (Z.of_nat (S j))) by (done || lia).
  pose proof (wb_root _ _ _ (W q bq Hq)).
  destruct (pprev bq) as [r|] eqn:Er; [|destruct (H0 eq_refl); lia].
  destruct (wb_prev _ _ _ (W q bq Hq) r Er) as (br & Hr & Hhr).
  rewrite (ancestor_prev m q bq r) by (done || lia).
  replace (Z.of_nat j) with (nHeight br) by lia. apply ancestor_self; [done|lia].
Qed.

(** Invariant of [SetTip]: above the current height the vector already holds the
    ancestors of the new tip, below it the old chain (or [NULL]). *)
Lemma set_tip_loop_ok m c0 p b fuel v q bq :
  wf_index m -> chain_ok m c0 -> m !! p = Some b ->
  length v = S (Z.to_nat (nHeight b)) ->
  m !! q = Some bq -> nHeight bq <= nHeight b -> ancestor m p (nHeight bq) = Some q ->
  (forall i, nHeight bq < Z.of_nat i <= nHeight b -> v !! i = Some (ancestor m p (Z.of_nat i))) ->
  (forall i, Z.of_nat i <= nHeight bq -> v !! i = Some (default None (c0 !! i))) ->
  nHeight bq < Z.of_nat fuel ->
  set_tip_loop fuel m v (Some q) = Some (ancestors_of m p (nHeight b)).
Proof.
  intros W C Hp. revert v q bq.
  induction fuel as [|fuel IH]; intros v q bq Hlen Hq Hle Hanc Hhi Hlo Hf.
  { pose proof (wb_height _ _ _ (W q bq Hq)). lia. }
  pose proof (W q bq Hq) as Wq. pose proof (wb_height _ _ _ Wq) as Hh0.
  assert (forall v', length v' = S (Z.to_nat (nHeight b)) ->
    (forall i, (i <= Z.to_nat (nHeight b))%nat -> v' !! i = Some (ancestor m p (Z.of_nat i))) ->
    v' = ancestors_of m p (nHeight b)) as Hext.
  { intros v' Hl Hv'. apply list_eq. intros i.
    destruct (decide (i <= Z.to_nat (nHeight b))%nat) as [Hi|Hi].
    - by rewrite ancestors_of_lookup, Hv'.
    - rewrite !lookup_ge_None_2; [done| |lia]. unfold ancestors_of. rewrite length_map, length_seq. lia. }
  cbn [set_tip_loop]. rewrite Hq. case_bool_decide as Hv.
  - f_equal. apply Hext; [done|]. intros i Hi.
    destruct (decide (nHeight bq < Z.of_nat i)); [apply Hhi; lia|].
    rewrite (Hlo (Z.to_nat (nHeight bq))) in Hv by lia.
    destruct (c0 !! Z.to_nat (nHeight bq)) as [o|] eqn:Ho; cbn in Hv; [|done].
    injection Hv as ->.
    rewrite Hlo by lia.
    rewrite (chain_ok_ancestor m c0 _ q i W C Ho) by lia. cbn.
    by rewrite (ancestor_trans m p b q (nHeight bq)) by (done || lia).
  - set (v' := <[Z.to_nat (nHeight bq):=Some q]> v).
    assert (length v' = S (Z.to_nat (nHeight b))) as Hlen' by (unfold v'; by rewrite length_insert).
    assert (forall i, nHeight bq <= Z.of_nat i <= nHeight b -> v' !! i = Some (ancestor m p (Z.of_nat i))) as Hhi'.
    { intros i Hi. unfold v'. destruct (decide (i = Z.to_nat (nHeight bq))) as [->|].
      - rewrite list_lookup_insert_eq by lia. rewrite Z2Nat.id by lia. by rewrite Hanc.
      - rewrite list_lookup_insert_ne by done. apply Hhi. lia. }
    destruct (pprev bq) as [r|] eqn:Er.
    + destruct (wb_prev _ _ _ Wq r Er) as (br & Hr & Hhr).
      assert (ancestor m p (nHeight br) = Some r) as Har.
      { pose proof (wb_height _ _ _ (W r br Hr)).
        rewrite <- (ancestor_trans m p b q (nHeight bq)) by (done || lia).
        rewrite (ancestor_prev m q bq r) by (done || lia). apply ancestor_self; [done|lia]. }
      apply (IH v' r br); try (done || lia).
      * intros i Hi. apply Hhi'. lia.
      * intros i Hi. unfold v'. rewrite list_lookup_insert_ne by lia. apply Hlo. lia.
    + destruct fuel; cbn; f_equal; apply Hext; try done; intros i Hi; apply Hhi';
        destruct (wb_root _ _ _ Wq Er); lia.
Qed.

Lemma SetTip_ok m c p b :
  wf_index m -> chain_ok m c -> m !! p = Some b ->
  SetTip m c (Some p) = Some (ancestors_of m p (nHeight b)).
Proof.
  intros W C Hp. unfold SetTip. rewrite Hp. cbn [mbind option_bind].
  pose proof (wb_height _ _ _ (W p b Hp)).
  apply (set_tip_loop_ok m c p b _ _ p b); try done; try lia.
  - unfold chain_resize. by rewrite length_resize.
  - by apply ancestor_self.
  - intros i Hi. unfold chain_resize. destruct (decide (i < length c)%nat).
    + rewrite lookup_resize by lia. destruct (c !! i) eqn:E; [done|].
      apply lookup_ge_None_1 in E. lia.
    + rewrite lookup_resize_new by lia. by rewrite lookup_ge_None_2 by lia.
Qed.

(** ** Queries on the active chain *)

Lemma chain_at_lookup c h : 0 <= h -> chain_at c h = default None (c !! Z.to_nat h).
Proof.
  intros Hh. unfold chain_at. rewrite (proj2 (Z.ltb_ge _ _)) by lia. cbn [orb].
  rewrite Z.geb_leb. case_if.
  - by rewrite lookup_ge_None_2 by lia.
  - rewrite nth_lookup. done.
Qed.

Lemma chain_Contains_ok m c p b :
  wf_index m -> chain_ok m c -> m !! p = Some b ->
  chain_Contains m c p = true <-> c !! Z.to_nat (nHeight b) = Some (Some p).
Proof.
  intros W C Hp. unfold chain_Contains. rewrite Hp, bool_decide_eq_true.
  rewrite chain_at_lookup by apply (W p b Hp).
  destruct (c !! Z.to_nat (nHeight b)) as [o|]; cbn; split; intros E; congruence.
Qed.

Lemma contains_ancestor m c p b h :
  wf_index m -> chain_ok m c -> m !! p = Some b -> chain_Contains m c p = true ->
  0 <= h <= nHeight b -> chain_at c h = ancestor m p h.
Proof.
  intros W C Hp Hc Hh. apply (chain_Contains_ok m c p b W C Hp) in Hc.
  rewrite chain_at_lookup by lia.
  rewrite (chain_ok_ancestor m c _ p (Z.to_nat h) W C Hc) by lia. cbn. by rewrite Z2Nat.id by lia.
Qed.

(** Ancestors at every height, from the definition. *)
Lemma ancestor_height m p q h :
  wf_index m -> ancestor m p h = Some q -> exists b bq, m !! p = Some b /\ m !! q = Some bq /\
    0 <= h <= nHeight b /\ nHeight bq = h.
Proof.
  intros W E. unfold ancestor in E. destruct (m !! p) as [b|] eqn:Hp; [|done].
  case_if_in E; [|done]. exists b.
  destruct (ancestor_ok m p b h W Hp ltac:(lia)) as (q' & bq & E' & Hq & Hh).
  unfold ancestor in E'. rewrite Hp, !(proj2 (Z.leb_le _ _)) in E' by lia. cbn [andb] in E'.
  rewrite E in E'. injection E' as <-. exists bq. split_and!; (done || lia).
Qed.

(** [f] is the last entry of [p]'s ancestry that satisfies [P]. *)
Definition last_ancestor (m : BlockMap) (p : ptr) (P : ptr -> Prop) (f : option ptr) : Prop :=
  match f with
  | Some q => P q /\ exists h, ancestor m p h = Some q /\
                forall h' q', ancestor m p h' = Some q' -> P q' -> h' <= h
  | None => forall h q, ancestor m p h = Some q -> ~ P q
  end.

Lemma last_ancestor_step m p b q P f :
  wf_index m -> m !! p = Some b -> pprev b = Some q -> ~ P p ->
  last_ancestor m q P f -> last_ancestor m p P f.
Proof.
  intros W Hp Eq Hn.
  assert (forall h r, ancestor m p h = Some r -> P r -> ancestor m q h = Some r) as Hdown.
  { intros h r Hr HP. destruct (ancestor_height m p r h W Hr) as (b' & br & E & Hbr & Hh & Hhr).
    rewrite Hp in E. injection E as <-.
    destruct (Z.eq_dec h (nHeight b)) as [->|].
    - rewrite ancestor_self in Hr by (done || lia). congruence.
    - by rewrite <- (ancestor_prev m p b q) by (done || lia). }
  destruct f as [f|]; cbn.
  - intros (HP & h & Hf & Hmax). split; [done|]. exists h. split.
    + destruct (ancestor_height m q f h W Hf) as (bq & bf & Hq & Hbf & Hh & Hhf).
      destruct (wb_prev _ _ _ (W p b Hp) q Eq) as (bq' & E & Hhb). rewrite Hq in E. injection E as <-.
      rewrite (ancestor_prev m p b q) by (done || lia). done.
    + intros h' q' Hq' HP'. eapply Hmax; eauto.
  - intros Hall h r Hr HP. by eapply Hall; eauto.
Qed.

Lemma last_ancestor_self m p b (P : ptr -> Prop) :
  wf_index m -> m !! p = Some b -> P p -> last_ancestor m p P (Some p).
Proof.
  intros W Hp HP. split; [done|]. exists (nHeight b). split.
  - apply ancestor_self; [done|]. apply (W p b Hp).
  - intros h q Hq _. destruct (ancestor_height m p q h W Hq) as (b' & _ & E & _ & Hh & _).
    rewrite Hp in E. injection E as <-. lia.
Qed.

Lemma last_ancestor_root m p b (P : ptr -> Prop) :
  wf_index m -> m !! p = Some b -> pprev b = None -> ~ P p -> last_ancestor m p P None.
Proof.
  intros W Hp Eq HP h q Hq. destruct (ancestor_height m p q h W Hq) as (b' & bq & E & Hbq & Hh & Hhq).
  rewrite Hp in E. injection E as <-. destruct (wb_root _ _ _ (W p b Hp) Eq) as [H0 _].
  assert (h = nHeight b) as -> by lia. rewrite ancestor_self in Hq by (done || lia). congruence.
Qed.

Lemma fork_loop_ok m c p b fuel :
  wf_index m -> m !! p = Some b -> nHeight b < Z.of_nat fuel ->
  exists f, fork_loop fuel m c (Some p) = Some f /\
    last_ancestor m p (fun q => chain_Contains m c q = true) f.
Proof.
  intros W. revert p b. induction fuel as [|fuel IH]; intros p b Hp Hf.
  { pose proof (wb_height _ _ _ (W p b Hp)). lia. }
  cbn [fork_loop]. destruct (chain_Contains m c p) eqn:E.
  { exists (Some p). split; [done|]. by eapply last_ancestor_self. }
  rewrite Hp. cbn [mbind option_bind]. destruct (pprev b) as [q|] eqn:Eq.
  - destruct (wb_prev _ _ _ (W p b Hp) q Eq) as (bq & Hq & Hh).
    destruct (IH q bq Hq ltac:(lia)) as (f & -> & Hl). exists f. split; [done|].
    eapply last_ancestor_step; eauto. congruence.
  - exists None. split; [by destruct fuel|]. eapply last_ancestor_root; eauto. congruence.
Qed.

(** Nothing above the chain's height is on the chain. *)
Lemma contains_height m c p b :
  m !! p = Some b -> chain_Contains m c p = true -> nHeight b <= chain_Height c.
Proof.
  intros Hp. unfold chain_Contains, chain_at, chain_Height. rewrite Hp, bool_decide_eq_true.
  case_if; [done|]. intros _. lia.
Qed.

Lemma last_ancestor_below m p b q h P f :
  wf_index m -> m !! p = Some b -> ancestor m p h = Some q ->
  (forall r br, m !! r = Some br -> P r -> nHeight br <= h) ->
  last_ancestor m q P f -> last_ancestor m p P f.
Proof.
  intros W Hp Hq HP. destruct (ancestor_height m p q h W Hq) as (b' & bq & E & Hbq & Hh & Hhq).
  rewrite Hp in E. injection E as <-.
  assert (forall h' r, ancestor m p h' = Some r -> P r -> ancestor m q h' = Some r) as Hdown.
  { intros h' r Hr Pr. destruct (ancestor_height m p r h' W Hr) as (b' & br & E & Hbr & Hh' & Hhr).
    specialize (HP r br Hbr Pr). rewrite (ancestor_trans m p b q h) by (done || lia). done. }
  destruct f as [f|]; cbn.
  - intros (Pf & h' & Hf & Hmax). split; [done|]. exists h'. split; [|eauto].
    destruct (ancestor_height m q f h' W Hf) as (bq' & bf & E & Hbf & Hh' & Hhf).
    rewrite Hbq in E. injection E as <-.
    by rewrite <- (ancestor_trans m p b q h) by (done || lia).
  - intros Hall h' r Hr Pr. by eapply Hall; eauto.
Qed.

Lemma FindFork_ok m c p b :
  wf_index m -> m !! p = Some b ->
  exists f, FindFork m c (Some p) = Some f /\
    last_ancestor m p (fun q => chain_Contains m c q = true) f.
Proof.
  intros W Hp. unfold FindFork. rewrite Hp. cbn [mbind option_bind]. rewrite Z.gtb_ltb.
  pose proof (wb_height _ _ _ (W p b Hp)). case_if.
  - rewrite (GetAncestor_ok m p b _ W Hp). cbn [mbind option_bind].
    destruct (ancestor m p (chain_Height c)) as [q|] eqn:E.
    + destruct (ancestor_height m p q _ W E) as (b' & bq & E' & Hbq & Hh & Hhq).
      destruct (fork_loop_ok m c q bq (S (Z.to_nat (nHeight b))) W Hbq ltac:(lia)) as (f & -> & Hl).
      exists f. split; [done|]. eapply last_ancestor_below; eauto.
      intros r br Hr Hc. by eapply contains_height.
    + exists None. split; [done|]. intros h q Hq Hc.
      destruct (ancestor_height m p q h W Hq) as (b' & bq & E' & Hbq & Hh & Hhq).
      pose proof (contains_height m c q bq Hbq Hc).
      unfold ancestor in E. rewrite Hp, !(proj2 (Z.leb_le _ _)) in E by lia. cbn [andb] in E.
      destruct (prev_iter_ok m p b (Z.to_nat (nHeight b - chain_Height c)) W Hp ltac:(lia)) as (? & ? & ? & _).
      congruence.
  - cbn [mbind option_bind].
    destruct (fork_loop_ok m c p b (S (Z.to_nat (nHeight b))) W Hp ltac:(lia)) as (f & -> & Hl). eauto.
Qed.

(** *** Locator *)

(** The heights a locator lists: [n] is the number of hashes already pushed. *)
Fixpoint locator_heights (fuel : nat) (h nStep : Z) (n : nat) : list Z :=
  match fuel with
  | O => []
  | S fuel' =>
      h :: (if h =? 0 then []
            else locator_heights fuel' (Z.max (h - nStep) 0)
                   (if (10 <? S n)%nat then nStep * 2 else nStep) (S n))
  end.

Lemma locator_loop_ok m c p b fuel nStep acc :
  wf_index m -> chain_ok m c -> m !! p = Some b -> 0 < nStep -> nHeight b < Z.of_nat fuel ->
  exists l, locator_loop fuel m c (Some p) nStep acc = Some (acc ++ l) /\
    map Some l = map (ancestor m p) (locator_heights fuel (nHeight b) nStep (length acc)).
Proof.
  intros W C. revert p b nStep acc. induction fuel as [|fuel IH]; intros p b nStep acc Hp Hs Hf.
  { pose proof (wb_height _ _ _ (W p b Hp)). lia. }
  pose proof (wb_height _ _ _ (W p b Hp)) as Hh.
  cbn [locator_loop locator_heights]. rewrite Hp. cbn [mbind option_bind].
  destruct (nHeight b =? 0) eqn:E; zbool.
  { exists [p]. split; [done|]. cbn. by rewrite ancestor_self by done. }
  set (h := Z.max (nHeight b - nStep) 0).
  assert ((if chain_Contains m c p then Some (chain_at c h) else GetAncestor m p h)
          = Some (ancestor m p h)) as ->.
  { destruct (chain_Contains m c p) eqn:Ec; [|by apply (GetAncestor_ok m p b)].
    f_equal. apply (contains_ancestor m c p b); (done || lia). }
  cbn [mbind option_bind].
  destruct (ancestor_ok m p b h W Hp ltac:(lia)) as (q & bq & Eq & Hq & Hhq). rewrite Eq.
  rewrite length_app, Nat.add_1_r.
  set (s' := if (10 <? S (length acc))%nat then nStep * 2 else nStep).
  assert (0 < s') by (unfold s'; case_if; lia).
  destruct (IH q bq s' (acc ++ [p]) Hq ltac:(lia) ltac:(lia)) as (l & El & Ml).
  exists (p :: l). rewrite El, <- app_assoc. split; [done|].
  cbn [map]. rewrite Ml, length_app, Nat.add_1_r, Hhq, ancestor_self by done. f_equal.
  apply map_ext_in. intros h' Hin.
  assert (h' <= h /\ 0 <= h') as [? ?].
  { clear -Hin H. assert (0 <= h) as H0 by lia. clearbody h s'.
    revert h s' H H0 Hin. generalize (S (length acc)).
    induction fuel as [|fuel IH]; intros n h s' Hs Hh Hin; cbn in Hin; [done|].
    destruct Hin as [<-|Hin]; [lia|]. case_if_in Hin; [done|].
    destruct (IH _ (Z.max (h - s') 0) (if (10 <? S n)%nat then s' * 2 else s')
                ltac:(case_if; lia) ltac:(lia) Hin). lia. }
  apply (ancestor_trans m p b q h); (done || lia).
Qed.

Lemma locator_heights_sorted fuel h s n :
  0 < s -> 0 <= h < Z.of_nat fuel ->
  exists l, locator_heights fuel h s n = h :: l /\ StronglySorted (fun a b => b < a) (h :: l) /\
    List.last (h :: l) 0 = 0 /\ Forall (fun x => 0 <= x) (h :: l).
Proof.
  revert h s n. induction fuel as [|fuel IH]; intros h s n Hs Hh; [lia|].
  cbn [locator_heights]. destruct (h =? 0) eqn:E; zbool.
  { subst h. exists []. repeat split; repeat constructor; lia. }
  destruct (IH (Z.max (h - s) 0) (if (10 <? S n)%nat then s * 2 else s) (S n))
    as (l & El & Sl & Ll & Fl); [case_if; lia|lia|].
  rewrite El. eexists. split; [done|]. split; [|split; [done|constructor; [lia|done]]].
  constructor; [done|]. apply StronglySorted_inv in Sl as [_ Hall].
  constructor; [lia|]. eapply Forall_impl; [apply Hall|]. cbn. intros; lia.
Qed.

Lemma locator_heights_log fuel h s n k :
  (10 <= n)%nat -> 0 < s -> 0 <= h <= s * (2 ^ Z.of_nat k - 1) ->
  (length (locator_heights fuel h s n) <= S k)%nat.
Proof.
  revert h s n k. induction fuel as [|fuel IH]; intros h s n k Hn Hs Hh; cbn [locator_heights length]; [lia|].
  destruct (h =? 0) eqn:E; zbool; [cbn; lia|].
  rewrite (proj2 (Nat.ltb_lt 10 (S n))) by lia.
  destruct k as [|k]; [simpl in Hh; lia|].
  assert (2 ^ Z.of_nat (S k) = 2 * 2 ^ Z.of_nat k) as Hp.
  { replace (Z.of_nat (S k)) with (1 + Z.of_nat k) by lia. by rewrite Z.pow_add_r by lia. }
  assert (0 < 2 ^ Z.of_nat k) by lia.
  specialize (IH (Z.max (h - s) 0) (s * 2) (S n) k ltac:(lia) ltac:(lia)). nia.
Qed.

Lemma locator_heights_head fuel h n k :
  (n <= 10)%nat -> 0 <= h <= 2 ^ Z.of_nat k - 1 ->
  (length (locator_heights fuel h 1 n) <= (10 - n) + S k)%nat.
Proof.
  revert h n. induction fuel as [|fuel IH]; intros h n Hn Hh.
  { cbn. lia. }
  destruct (decide (n = 10%nat)) as [->|].
  { pose proof (locator_heights_log (S fuel) h 1 10 k ltac:(lia) ltac:(lia) ltac:(lia)). lia. }
  cbn [locator_heights length]. destruct (h =? 0) eqn:E; zbool; [cbn; lia|].
  rewrite (proj2 (Nat.ltb_ge 10 (S n))) by lia.
  specialize (IH (Z.max (h - 1) 0) (S n) ltac:(lia) ltac:(lia)). lia.
Qed.

Lemma locator_heights_length fuel h :
  0 <= h -> Z.of_nat (length (locator_heights fuel h 1 0)) <= 12 + Z.log2 h.
Proof.
  intros Hh. destruct (Z.eq_dec h 0) as [->|].
  { destruct fuel; cbn; lia. }
  pose proof (Z.log2_spec h ltac:(lia)) as [_ L]. pose proof (Z.log2_nonneg h).
  pose proof (locator_heights_head fuel h 0 (Z.to_nat (Z.log2 h + 1)) ltac:(lia)) as B.
  rewrite Z2Nat.id in B by lia. rewrite Z.add_1_r in B. specialize (B ltac:(lia)). lia.
Qed.

(** *** Last common ancestor *)

(** [q] is an ancestor of [p] (or [p] itself). *)
Definition is_ancestor (m : BlockMap) (p q : ptr) : Prop := exists h, ancestor m p h = Some q.

Lemma is_ancestor_self m p b : wf_index m -> m !! p = Some b -> is_ancestor m p p.
Proof. intros W Hp. exists (nHeight b). apply ancestor_self; [done|]. apply (W p b Hp). Qed.

Lemma last_ancestor_ext m p P Q f :
  (forall h q, ancestor m p h = Some q -> (P q <-> Q q)) -> last_ancestor m p P f -> last_ancestor m p Q f.
Proof.
  intros E. destruct f as [f|]; cbn.
  - intros (HP & h & Hf & Hmax). split; [by apply (E h f Hf)|]. exists h. split; [done|].
    intros h' q' Hq' HQ. eapply Hmax; eauto. by apply (E h' q').
  - intros Hall h q Hq HQ. eapply Hall; eauto. by apply (E h q).
Qed.

Lemma lca_loop_ok m a ba b bb fuel :
  wf_index m -> m !! a = Some ba -> m !! b = Some bb -> nHeight ba = nHeight bb ->
  nHeight ba < Z.of_nat fuel ->
  exists f, lca_loop fuel m (Some a) (Some b) = Some f /\ last_ancestor m a (is_ancestor m b) f.
Proof.
  intros W. revert a ba b bb. induction fuel as [|fuel IH]; intros a ba b bb Ha Hb Hh Hf.
  { pose proof (wb_height _ _ _ (W a ba Ha)). lia. }
  cbn [lca_loop]. case_bool_decide as E.
  { injection E as <-. exists (Some a). split; [done|]. eapply last_ancestor_self; eauto.
    by eapply is_ancestor_self. }
  rewrite Ha, Hb. cbn [mbind option_bind].
  assert (~ is_ancestor m b a) as Hna.
  { intros [h Hanc]. destruct (ancestor_height m b a h W Hanc) as (b' & a' & E1 & E2 & H1 & H2).
    assert (h = nHeight bb) as -> by congruence.
    rewrite ancestor_self in Hanc; [congruence|done|apply (W b bb Hb)]. }
  destruct (pprev ba) as [qa|] eqn:Ea, (pprev bb) as [qb|] eqn:Eb.
  - destruct (wb_prev _ _ _ (W a ba Ha) qa Ea) as (bqa & Hqa & Hha).
    destruct (wb_prev _ _ _ (W b bb Hb) qb Eb) as (bqb & Hqb & Hhb).
    destruct (IH qa bqa qb bqb Hqa Hqb ltac:(lia) ltac:(lia)) as (f & -> & Hl).
    exists f. split; [done|]. eapply last_ancestor_step; eauto.
    eapply last_ancestor_ext; [|apply Hl]. intros h q Hq. cbn. unfold is_ancestor.
    destruct (ancestor_height m qa q h W Hq) as (x & y & E1 & E2 & H1 & H2).
    rewrite Hqa in E1. injection E1 as <-. split; intros [h' Hh']; exists h'.
    + destruct (ancestor_height m qb q h' W Hh') as (? & ? & E3 & E4 & H3 & H4).
      rewrite Hqb in E3. injection E3 as <-. by rewrite (ancestor_prev m b bb qb) by (done || lia).
    + destruct (ancestor_height m b q h' W Hh') as (? & ? & E3 & E4 & H3 & H4).
      rewrite Hb in E3. injection E3 as <-. rewrite E2 in E4. injection E4 as <-.
      by rewrite <- (ancestor_prev m b bb qb) by (done || lia).
  - destruct (wb_root _ _ _ (W b bb Hb) Eb). destruct (wb_prev _ _ _ (W a ba Ha) qa Ea) as (bqa & Hqa & Hha).
    pose proof (wb_height _ _ _ (W qa bqa Hqa)). lia.
  - destruct (wb_root _ _ _ (W a ba Ha) Ea). destruct (wb_prev _ _ _ (W b bb Hb) qb Eb) as (bqb & Hqb & Hhb).
    pose proof (wb_height _ _ _ (W qb bqb Hqb)). lia.
  - exists None. split; [by destruct fuel|]. by eapply last_ancestor_root.
Qed.

(** *** Binary search *)

Lemma lower_bound_ok fuel lt first count :
  (count <= fuel)%nat ->
  (forall i j, (first <= i < j)%nat -> (j < first + count)%nat -> lt j = true -> lt i = true) ->
  let r := lower_bound fuel lt first count in
  (first <= r <= first + count)%nat /\
  (forall i, (first <= i < r)%nat -> lt i = true) /\
  (forall i, (r <= i < first + count)%nat -> lt i = false).
Proof.
  revert first count. induction fuel as [|fuel IH]; intros first count Hf Hm; cbn [lower_bound].
  { split_and!; intros; lia. }
  destruct (count =? 0)%nat eqn:E; [apply Nat.eqb_eq in E; split_and!; intros; lia|].
  apply Nat.eqb_neq in E.
  assert (count / 2 < count)%nat as Hstep by (apply Nat.div_lt; lia).
  set (step := (count / 2)%nat) in *.
  destruct (lt (first + step)%nat) eqn:El.
  - destruct (IH (S (first + step)) (count - S step)%nat) as (H1 & H2 & H3); [lia| |].
    { intros i j Hi Hj. apply Hm; lia. }
    cbv zeta in *. split_and!; [lia|lia| |].
    + intros i Hi. destruct (decide (S (first + step) <= i)%nat); [apply H2; lia|].
      destruct (decide (i = first + step)%nat) as [->|]; [done|].
      apply (Hm i (first + step)%nat); (done || lia).
    + intros i Hi. apply H3. lia.
  - destruct (IH first step) as (H1 & H2 & H3); [lia| |].
    { intros i j Hi Hj. apply Hm; lia. }
    cbv zeta in *. split_and!; [lia|lia|done|].
    intros i Hi. destruct (decide (i < first + step)%nat); [apply H3; lia|].
    destruct (lt i) eqn:Ei; [|done]. destruct (decide (i = first + step)%nat) as [->|]; [congruence|].
    rewrite (Hm (first + step)%nat i) in El; (done || lia).
Qed.

Lemma time_max_mono m c i j :
  wf_blockmap m -> chain_ok m c -> (i <= j < length c)%nat -> time_max_at m c i <= time_max_at m c j.
Proof.
  intros [W D] C [Hij Hj]. induction j as [|j IH]; [by replace i with 0%nat by lia|].
  destruct (decide (i = S j)) as [->|]; [done|].
  etransitivity; [apply IH; lia|]. clear IH.
  destruct (lookup_lt_is_Some_2 c (S j) Hj) as [o Ho].
  destruct (C _ _ Ho) as (p & b & -> & Hp & Hh & Hprev). specialize (Hprev j eq_refl).
  unfold time_max_at. rewrite !nth_lookup, Ho, Hprev. cbn. rewrite Hp.
  destruct (pprev b) as [q|] eqn:Eq.
  - destruct (wb_prev _ _ _ (W p b Hp) q Eq) as (bq & Hq & _). rewrite Hq.
    destruct (wd_prev _ _ (D p b Hp) q bq Eq Hq). lia.
  - destruct (wb_root _ _ _ (W p b Hp) Eq). lia.
Qed.

(** ** Reachable block indexes *)

Definition init_state : ChainState :=
  {| mapBlockIndex := ∅; pindexBestHeader := None; setDirtyBlockIndex := ∅ |}.

(** A header whose hash is not its own parent link, with 32-bit [nBits]. *)
Definition valid_header (GetHash : CBlockHeader -> ptr) (block : CBlockHeader) : Prop :=
  in_u 32 (hd_nBits block) /\ GetHash block <> hd_hashPrevBlock block.

Inductive reachable (GetHash : CBlockHeader -> ptr) : ChainState -> Prop :=
| reach_init : reachable GetHash init_state
| reach_add st block st' p :
    reachable GetHash st -> valid_header GetHash block ->
    AddToBlockIndex GetHash st block = Some (st', p) -> reachable GetHash st'.

Lemma init_inv : index_inv init_state.
Proof. split_and!; [split; intros p b Hp; done|done|]. intros q Hq. set_solver. Qed.

Lemma reachable_inv GetHash st : reachable GetHash st -> index_inv st.
Proof.
  induction 1 as [|st block st' p Hr IH [Hb Hs] Ha]; [apply init_inv|].
  destruct (AddToBlockIndex_ok GetHash st block IH Hb Hs) as (st'' & E & Hinv & _).
  rewrite E in Ha. by injection Ha as <- _.
Qed.

Lemma inv_index st : index_inv st -> wf_index (mapBlockIndex st).
Proof. by intros [[W _] _]. Qed.

(** ** Properties *)

(** C6: every block index built by [AddToBlockIndex] has parent and skip pointers
    that agree with the heights, accumulated work and time maxima, and a best
    header of maximal work; adding a header never fails and keeps old entries. *)
Theorem block_index_invariant GetHash st :
  reachable GetHash st ->
  index_inv st /\
  forall block, valid_header GetHash block ->
    exists st', AddToBlockIndex GetHash st block = Some (st', GetHash block) /\
      is_Some (mapBlockIndex st' !! GetHash block) /\
      (forall p b, mapBlockIndex st !! p = Some b -> mapBlockIndex st' !! p = Some b).
Proof.
  intros Hr. pose proof (reachable_inv GetHash st Hr) as Hinv. split; [done|].
  intros block [Hb Hs]. destruct (AddToBlockIndex_ok GetHash st block Hinv Hb Hs) as (st' & E & _ & H1 & H2).
  eauto.
Qed.

(** The skip-list walk of [GetAncestor] terminates without failing its
    assertion and returns exactly the entry reached by following [pprev], [NULL]
    exactly when the height is out of range. *)
Theorem GetAncestor_correct st p b height :
  index_inv st -> mapBlockIndex st !! p = Some b ->
  GetAncestor (mapBlockIndex st) p height =
    Some (if (0 <=? height) && (height <=? nHeight b)
          then prev_iter (mapBlockIndex st) p (Z.to_nat (nHeight b - height)) else None) /\
  (0 <= height <= nHeight b ->
   exists q bq, GetAncestor (mapBlockIndex st) p height = Some (Some q) /\
     mapBlockIndex st !! q = Some bq /\ nHeight bq = height).
Proof.
  intros Hinv Hp. pose proof (inv_index st Hinv) as W. rewrite (GetAncestor_ok _ p b) by done. split.
  - unfold ancestor. by rewrite Hp.
  - intros Hh. destruct (ancestor_ok _ p b height W Hp Hh) as (q & bq & -> & H1 & H2). eauto.
Qed.

(** [SetTip], which stops at the first entry that already agrees, leaves the
    vector holding exactly the ancestors of the new tip, whatever consistent
    chain it held before. *)
Theorem SetTip_correct st c p b :
  index_inv st -> chain_ok (mapBlockIndex st) c -> mapBlockIndex st !! p = Some b ->
  exists c', SetTip (mapBlockIndex st) c (Some p) = Some c' /\ chain_ok (mapBlockIndex st) c' /\
    length c' = S (Z.to_nat (nHeight b)) /\
    forall h, 0 <= h <= nHeight b -> chain_at c' h = ancestor (mapBlockIndex st) p h.
Proof.
  intros Hinv C Hp. pose proof (inv_index st Hinv) as W.
  rewrite (SetTip_ok _ c p b) by done. eexists. split; [done|].
  split; [by apply ancestors_of_ok|]. split; [unfold ancestors_of; by rewrite length_map, length_seq|].
  intros h Hh. rewrite chain_at_lookup by lia. rewrite ancestors_of_lookup by lia.
  cbn. by rewrite Z2Nat.id by lia.
Qed.

(** [FindFork] returns the highest ancestor of the given entry that is on the
    active chain, and [NULL] only when no ancestor is. *)
Theorem FindFork_correct st c p b :
  index_inv st -> mapBlockIndex st !! p = Some b ->
  exists f, FindFork (mapBlockIndex st) c (Some p) = Some f /\
    last_ancestor (mapBlockIndex st) p (fun q => chain_Contains (mapBlockIndex st) c q = true) f.
Proof. intros Hinv Hp. apply (FindFork_ok _ c p b); [by apply inv_index|done]. Qed.

(** [LastCommonAncestor] never fails its assertion and returns the highest
    entry that is an ancestor of both arguments, [NULL] if there is none. *)
Theorem LastCommonAncestor_correct st pa pb a b :
  index_inv st -> mapBlockIndex st !! pa = Some a -> mapBlockIndex st !! pb = Some b ->
  nHeight a <= nHeight b ->
  exists f, LastCommonAncestor (mapBlockIndex st) pa pb = Some f /\
    last_ancestor (mapBlockIndex st) pa (is_ancestor (mapBlockIndex st) pb) f.
Proof.
  intros Hinv Ha Hb Hh. pose proof (inv_index st Hinv) as W. set (m := mapBlockIndex st) in *.
  pose proof (wb_height _ _ _ (W pa a Ha)).
  unfold LastCommonAncestor. rewrite Ha, Hb. cbn [mbind option_bind].
  rewrite !Z.gtb_ltb, (proj2 (Z.ltb_ge (nHeight b) _)) by lia. case_if.
  - rewrite (GetAncestor_ok m pb b) by done. cbn [mbind option_bind].
    destruct (ancestor_ok m pb b (nHeight a) W Hb ltac:(lia)) as (q & bq & Eq & Hq & Hhq). rewrite Eq.
    destruct (lca_loop_ok m pa a q bq (S (Z.to_nat (nHeight a))) W Ha Hq ltac:(lia) ltac:(lia)) as (f & -> & Hl).
    exists f. split; [done|]. eapply last_ancestor_ext; [|apply Hl]. intros h r Hr. cbn.
    destruct (ancestor_height m pa r h W Hr) as (a' & br & E1 & Hbr & H1 & H2).
    rewrite Ha in E1. injection E1 as <-. split; intros [h' Hh'].
    + destruct (ancestor_height m q r h' W Hh') as (? & ? & E3 & E4 & H3 & H4).
      rewrite Hq in E3. injection E3 as <-. exists h'.
      by rewrite <- (ancestor_trans m pb b q (nHeight a)) by (done || lia).
    + destruct (ancestor_height m pb r h' W Hh') as (? & ? & E3 & E4 & H3 & H4).
      rewrite Hbr in E4. injection E4 as <-. exists h'.
      by rewrite (ancestor_trans m pb b q (nHeight a)) by (done || lia).
  - apply (lca_loop_ok m pa a pb b); (done || lia).
Qed.

(** A block locator lists, starting at the given block, hashes of ancestors
    at strictly decreasing heights down to the genesis block, and has at most
    [12 + log2 height] entries. *)
Theorem GetLocator_correct st c p b :
  index_inv st -> chain_ok (mapBlockIndex st) c -> mapBlockIndex st !! p = Some b ->
  exists vHave hs, GetLocator (mapBlockIndex st) c (Some p) = Some vHave /\
    map Some vHave = map (ancestor (mapBlockIndex st) p) hs /\
    (exists hs', hs = nHeight b :: hs') /\ StronglySorted (fun x y => y < x) hs /\
    List.last hs 0 = 0 /\ Z.of_nat (length vHave) <= 12 + Z.log2 (nHeight b).
Proof.
  intros Hinv C Hp. pose proof (inv_index st Hinv) as W. set (m := mapBlockIndex st) in *.
  pose proof (wb_height _ _ _ (W p b Hp)). unfold GetLocator. rewrite Hp. cbn [mbind option_bind].
  destruct (locator_loop_ok m c p b (S (Z.to_nat (nHeight b))) 1 [] W C Hp ltac:(lia) ltac:(lia))
    as (l & El & Ml). rewrite El. cbn [length app] in *.
  destruct (locator_heights_sorted (S (Z.to_nat (nHeight b))) (nHeight b) 1 0 ltac:(lia) ltac:(lia))
    as (hs & Eh & Sh & Lh & _).
  exists l, (nHeight b :: hs). split; [done|]. rewrite Eh in Ml. split; [done|].
  split; [eauto|]. split; [done|]. split; [done|].
  rewrite <- (length_map Some l), Ml, length_map, <- Eh. apply locator_heights_length. lia.
Qed.

(** On a chain whose blocks respect the median-time rule, the median time past
    never decreases from a block to its descendants. *)
Theorem median_time_monotone st p b h1 h2 q1 q2 :
  index_inv st -> time_rule (mapBlockIndex st) -> mapBlockIndex st !! p = Some b ->
  h1 <= h2 -> ancestor (mapBlockIndex st) p h1 = Some q1 -> ancestor (mapBlockIndex st) p h2 = Some q2 ->
  GetMedianTimePast (mapBlockIndex st) q1 <= GetMedianTimePast (mapBlockIndex st) q2.
Proof.
  intros Hinv T Hp Hh E1 E2. pose proof (inv_index st Hinv) as W. set (m := mapBlockIndex st) in *.
  destruct (ancestor_height m p q1 h1 W E1) as (b' & b1 & Eb & Hb1 & H1 & Hh1).
  destruct (ancestor_height m p q2 h2 W E2) as (b'' & b2 & Eb' & Hb2 & H2 & Hh2).
  rewrite Hp in Eb'. injection Eb' as <-.
  rewrite <- (ancestor_trans m p b q2 h2) in E1 by (done || congruence || lia).
  unfold ancestor in E1. rewrite Hb2, !(proj2 (Z.leb_le _ _)) in E1 by lia. cbn [andb] in E1.
  apply (mtp_prev_iter m q2 b2 (Z.to_nat (nHeight b2 - h1))); (done || lia).
Qed.

(** [FindEarliestAtLeast] finds the first block of the chain whose time maximum
    reaches the given time. *)
Theorem FindEarliestAtLeast_correct st c time :
  index_inv st -> chain_ok (mapBlockIndex st) c ->
  exists i, (i <= length c)%nat /\
    FindEarliestAtLeast (mapBlockIndex st) c time = default None (c !! i) /\
    (forall j, (j < i)%nat -> time_max_at (mapBlockIndex st) c j < time) /\
    (forall j, (i <= j < length c)%nat -> time <= time_max_at (mapBlockIndex st) c j).
Proof.
  intros [Hm _] C. set (m := mapBlockIndex st) in *.
  destruct (lower_bound_ok (length c) (fun i => time_max_at m c i <? time) 0 (length c))
    as (H1 & H2 & H3); [lia| |].
  { intros i j Hij Hj Hlt. zbool. apply Z.ltb_lt.
    pose proof (time_max_mono m c i j Hm C ltac:(lia)). lia. }
  unfold FindEarliestAtLeast. cbv zeta in *.
  set (r := lower_bound _ _ _ _) in *. exists r. split; [lia|]. split; [|split].
  - destruct (r =? length c)%nat eqn:E.
    + apply Nat.eqb_eq in E. by rewrite lookup_ge_None_2 by lia.
    + by rewrite nth_lookup.
  - intros j Hj. specialize (H2 j ltac:(lia)). by zbool.
  - intros j Hj. specialize (H3 j ltac:(lia)). by zbool.
Qed.

(** The proof of a valid target [t] is [2^256 / (t + 1)], computed without
    leaving 256 bits and without dividing by zero; an invalid target has none. *)
Theorem GetBlockProof_correct bits :
  in_u 32 bits ->
  exists w, GetBlockProof bits = Some w /\ wf w /\
    val w = (if target_of bits =? 0 then 0 else 2 ^ 256 / (target_of bits + 1)).
Proof. apply GetBlockProof_ok. Qed.

(** ** Witnesses: a chain of eight blocks and a fork at height 3 *)

Definition toy_hash (block : CBlockHeader) : ptr := hd_nNonce block.

Definition toy_header (hash prev time : Z) : CBlockHeader :=
  {| hd_nVersion := 4; hd_hashPrevBlock := prev; hd_hashMerkleRoot := 0; hd_nTime := time;
     hd_nBits := 0x1d00ffff; hd_nNonce := hash |}.

Definition toy_blocks : list CBlockHeader :=
  map (fun i => toy_header i (i - 1) (1000 + 60 * i)) [1; 2; 3; 4; 5; 6; 7; 8] ++
  [toy_header 20 3 1500; toy_header 21 20 1560].

Definition grow (st : ChainState) (block : CBlockHeader) : ChainState :=
  match AddToBlockIndex toy_hash st block with Some (st', _) => st' | None => st end.

Definition toy_state : ChainState := foldl grow init_state toy_blocks.

Lemma grow_reachable st block :
  reachable toy_hash st -> valid_header toy_hash block -> reachable toy_hash (grow st block).
Proof.
  intros Hr Hv. unfold grow. destruct (AddToBlockIndex toy_hash st block) as [[st' p]|] eqn:E; [|done].
  by eapply reach_add.
Qed.

Lemma toy_reachable : reachable toy_hash toy_state.
Proof.
  unfold toy_state, toy_blocks. cbn [map app foldl].
  repeat (apply grow_reachable; [|split; [by unfold in_u|done]]). apply reach_init.
Qed.

Lemma toy_inv : index_inv toy_state.
Proof. apply (reachable_inv toy_hash), toy_reachable. Qed.

Definition toy_block (p : ptr) : CBlockIndex :=
  match mapBlockIndex toy_state !! p with
  | Some b => b | None => CBlockIndex_of (toy_header 0 0 0) end.

Lemma toy_lookup p :
  (match mapBlockIndex toy_state !! p with Some _ => true | None => false end) = true ->
  mapBlockIndex toy_state !! p = Some (toy_block p).
Proof. unfold toy_block. by destruct (mapBlockIndex toy_state !! p). Qed.

Definition toy_chain : CChain := ancestors_of (mapBlockIndex toy_state) 8 (nHeight (toy_block 8)).

Lemma toy_chain_ok : chain_ok (mapBlockIndex toy_state) toy_chain.
Proof.
  apply (ancestors_of_ok (mapBlockIndex toy_state) 8 (toy_block 8)); [apply inv_index, toy_inv|].
  apply toy_lookup. vm_compute. reflexivity.
Qed.

Lemma block_index_invariant_witness : index_inv toy_state.
Proof. exact (proj1 (block_index_invariant toy_hash toy_state toy_reachable)). Defined.

Lemma GetAncestor_correct_witness : GetAncestor (mapBlockIndex toy_state) 21 2 = Some (Some 3).
Proof.
  rewrite (proj1 (GetAncestor_correct toy_state 21 (toy_block 21) 2 toy_inv
    (toy_lookup 21 ltac:(vm_compute; reflexivity)))).
  vm_compute. reflexivity.
Defined.

Lemma SetTip_correct_witness : exists c',
  SetTip (mapBlockIndex toy_state) toy_chain (Some 21) = Some c' /\ length c' = 5%nat.
Proof.
  destruct (SetTip_correct toy_state toy_chain 21 (toy_block 21) toy_inv toy_chain_ok
    (toy_lookup 21 ltac:(vm_compute; reflexivity))) as (c' & H1 & _ & H2 & _).
  exists c'. exact (conj H1 H2).
Defined.

Lemma FindFork_correct_witness : exists f,
  FindFork (mapBlockIndex toy_state) toy_chain (Some 21) = Some f.
Proof.
  destruct (FindFork_correct toy_state toy_chain 21 (toy_block 21) toy_inv
    (toy_lookup 21 ltac:(vm_compute; reflexivity))) as (f & H & _).
  exists f. exact H.
Defined.

Lemma LastCommonAncestor_correct_witness : exists f,
  LastCommonAncestor (mapBlockIndex toy_state) 21 8 = Some f.
Proof.
  destruct (LastCommonAncestor_correct toy_state 21 8 (toy_block 21) (toy_block 8) toy_inv
    (toy_lookup 21 ltac:(vm_compute; reflexivity)) (toy_lookup 8 ltac:(vm_compute; reflexivity))
    ltac:(vm_compute; discriminate)) as (f & H & _).
  exists f. exact H.
Defined.

Lemma GetLocator_correct_witness : exists v,
  GetLocator (mapBlockIndex toy_state) toy_chain (Some 21) = Some v /\ Z.of_nat (length v) <= 14.
Proof.
  destruct (GetLocator_correct toy_state toy_chain 21 (toy_block 21) toy_inv toy_chain_ok
    (toy_lookup 21 ltac:(vm_compute; reflexivity))) as (v & hs & H1 & _ & _ & _ & _ & H2).
  exists v. split; [exact H1|]. exact H2.
Defined.

Lemma toy_time_rule : time_rule (mapBlockIndex toy_state).
Proof.
  intros p b q Hp Hq.
  assert (map_Forall (fun _ b => (match pprev b with
            | Some q => GetMedianTimePast (mapBlockIndex toy_state) q <? nTime b
            | None => true end) = true) (mapBlockIndex toy_state)) as H.
  { apply (bool_decide_unpack _). vm_compute. exact I. }
  pose proof (H p b Hp) as Hb. lazy beta in Hb. rewrite Hq in Hb. by apply Z.ltb_lt.
Qed.

Lemma median_time_monotone_witness :
  GetMedianTimePast (mapBlockIndex toy_state) 3 <= GetMedianTimePast (mapBlockIndex toy_state) 20.
Proof.
  exact (median_time_monotone toy_state 21 (toy_block 21) 2 3 3 20 toy_inv toy_time_rule
    (toy_lookup 21 ltac:(vm_compute; reflexivity)) ltac:(lia)
    ltac:(vm_compute; reflexivity) ltac:(vm_compute; reflexivity)).
Defined.

Lemma FindEarliestAtLeast_correct_witness : exists i,
  FindEarliestAtLeast (mapBlockIndex toy_state) toy_chain 1200 = default None (toy_chain !! i).
Proof.
  destruct (FindEarliestAtLeast_correct toy_state toy_chain 1200 toy_inv toy_chain_ok) as (i & _ & H & _).
  exists i. exact H.
Defined.

Lemma GetBlockProof_correct_witness : exists w, GetBlockProof 0x1d00ffff = Some w /\ wf w.
Proof.
  destruct (GetBlockProof_correct 0x1d00ffff ltac:(by unfold in_u)) as (w & H1 & H2 & _).
  exists w. exact (conj H1 H2).
Defined.
