(* ===== verification/Amount.v ===== *)
(** * Amounts, fee rates and the block subsidy

    Models [src/src/amount.h], [src/src/amount.cpp] and [GetBlockSubsidy] of
    [src/src/validation.cpp].  The masternode share of the subsidy is computed in
    C++ through a [double]; it is modelled with the IEEE 754 binary64 operations
    of the Standard Library's [SpecFloat]. *)

From Stdlib Require Import SpecFloat.
From S2P Require Import Prelude.

(** ** Amounts *)

Definition COIN : Z := 100000000.
Definition CENT : Z := 1000000.
Definition MAX_MONEY : Z := 666000000 * COIN.

Definition MoneyRange (nValue : Z) : bool := (nValue >=? 0) && (nValue <=? MAX_MONEY).

(** [CFeeRate]: the field [nSatoshisPerK]. *)
Record CFeeRate := { nSatoshisPerK : Z }.

(** [CFeeRate(const CAmount& nFeePaid, size_t nBytes_)]; [None] is the failed [assert].
    C++ division truncates towards zero. *)
Definition CFeeRate_make (nFeePaid nBytes_ : Z) : option CFeeRate :=
  if negb (nBytes_ <=? 2 ^ 63 - 1) then None
  else
    let nSize := nBytes_ in
    Some {| nSatoshisPerK := if nSize >? 0 then Z.quot (nFeePaid * 1000) nSize else 0 |}.

(** The product is an [int64_t] in the code; it is computed over the integers here, which is the same
    as long as rate times size stays below 2^63. *)
Definition GetFee (r : CFeeRate) (nBytes_ : Z) : option Z :=
  if negb (nBytes_ <=? 2 ^ 63 - 1) then None
  else
    let nSize := nBytes_ in
    let nFee := Z.quot (nSatoshisPerK r * nSize) 1000 in
    Some (if (nFee =? 0) && negb (nSize =? 0) then
            if nSatoshisPerK r <? 0 then -1
            else if nSatoshisPerK r >? 0 then 1 else nFee
          else nFee).

Definition GetFeePerK (r : CFeeRate) : option Z := GetFee r 1000.

(** ** Doubles *)

(** Conversion of an [int64_t] to [double], product, and truncation back. *)
Definition double_of_int (z : Z) : spec_float := binary_normalize 53 1024 z 0 false.
Definition double_mul (x y : spec_float) : spec_float := SFmul 53 1024 x y.
Definition int_of_double (x : spec_float) : Z :=
  match x with
  | S754_finite s m e =>
      let a := if 0 <=? e then Zpos m * 2 ^ e else Z.quot (Zpos m) (2 ^ (- e)) in
      if s then - a else a
  | _ => 0
  end.

(** The [double] values of the literals of the source. *)
Definition d_1_00 : spec_float := S754_finite false 4503599627370496 (-52).
Definition d_0_50 : spec_float := S754_finite false 4503599627370496 (-53).
Definition d_0_25 : spec_float := S754_finite false 4503599627370496 (-54).
Definition d_0_20 : spec_float := S754_finite false 7205759403792794 (-55).
Definition d_0_35 : spec_float := S754_finite false 6305039478318694 (-54).

(** [nSubsidy *= d] *)
Definition mul_double (n : Z) (d : spec_float) : Z := int_of_double (double_mul (double_of_int n) d).

(** ** Block subsidy *)

Definition between (h lo hi : Z) : bool := (h >=? lo) && (h <=? hi).

(** The if-chain that sets [nSubsidy]. *)
Definition base_subsidy (nHeight : Z) : Z :=
  if nHeight =? 0 then 1 * COIN
  else if nHeight =? 1 then 3000000 * COIN
  else if between nHeight 2 50 then 0 * COIN
  else if between nHeight 51 10080 then 6 * COIN
  else if between nHeight 10081 10320 then 126 * COIN
  else if between nHeight 10321 10560 then 226 * COIN
  else if between nHeight 10561 10800 then 1006 * COIN
  else if between nHeight 10801 11040 then 2746 * COIN
  else if between nHeight 11041 11280 then 416 * COIN
  else if between nHeight 11281 11520 then 506 * COIN
  else if between nHeight 60481 61920 then 256 * COIN
  else if between nHeight 97921 99360 then 46 * COIN
  else if between nHeight 156961 158400 then 116 * COIN
  else if between nHeight 208801 210240 then 86 * COIN
  else if between nHeight 234721 236160 then 666 * COIN
  else if between nHeight 270721 272160 then 316 * COIN
  else if between nHeight 308161 309600 then 526 * COIN
  else if between nHeight 365761 367200 then 116 * COIN
  else if between nHeight 411841 413280 then 336 * COIN
  else if between nHeight 470881 472320 then 766 * COIN
  else if between nHeight 491041 492480 then 676 * COIN
  else if between nHeight 532801 534240 then 316 * COIN
  else if between nHeight 564481 565920 then 286 * COIN
  else if between nHeight 627481 629280 then 446 * COIN
  else if between nHeight 673921 675360 then 666 * COIN
  else if between nHeight 718561 720000 then 306 * COIN
  else if between nHeight 743041 744480 then 176 * COIN
  else if between nHeight 793441 794880 then 326 * COIN
  else if between nHeight 839521 840960 then 196 * COIN
  else if between nHeight 889921 891360 then 449 * COIN
  else if between nHeight 920161 921600 then 686 * COIN
  else if between nHeight 973441 974880 then 166 * COIN
  else if between nHeight 1002241 1003680 then 56 * COIN
  else if between nHeight 1049761 1051200 then 2886 * COIN
  else 16 * COIN.

(** The masternode part: the factor by height. *)
Definition masternode_factor (nHeight : Z) : spec_float :=
  if between nHeight 2 10080 then d_1_00
  else if between nHeight 10081 10800 then d_0_20
  else if between nHeight 10801 61920 then d_0_35
  else if between nHeight 61921 234720 then d_0_25
  else if between nHeight 234721 236160 then d_0_50
  else if between nHeight 236161 308160 then d_0_25
  else if between nHeight 308161 367200 then d_0_20
  else if between nHeight 367201 534240 then d_0_35
  else if between nHeight 534241 1049760 then d_0_25
  else if between nHeight 1049761 1051200 then d_0_50
  else d_0_20.

(** [GetBlockSubsidy]: the returned amount and the value of the reference parameter
    [nTotalRewardWithMasternodes] afterwards. *)
Definition GetBlockSubsidy (nHeight nTotalRewardWithMasternodes : Z)
    (fSuperblockPartOnly fMasternodePartOnly : bool) : Z * Z :=
  let nSubsidy := base_subsidy nHeight in
  let nSuperblockPart := nSubsidy * 0 in
  if fSuperblockPartOnly then (nSuperblockPart, nTotalRewardWithMasternodes)
  else
    let nSubsidy := nSubsidy - nSuperblockPart in
    let nTotal := nSubsidy in
    if fMasternodePartOnly
    then (mul_double nSubsidy (masternode_factor nHeight), nTotal)
    else (nSubsidy, nTotal).

(** ** The schedule as a table *)

Abbreviation segment := (Z * Z * Z)%type.

(** Inclusive height ranges with their amount, in the order of the tests. *)
Fixpoint table_lookup (t : list segment) (dflt h : Z) : Z :=
  match t with
  | [] => dflt
  | (lo, hi, c) :: t' => if between h lo hi then c else table_lookup t' dflt h
  end.

Definition subsidy_table : list segment :=
  [(0, 0, 1 * COIN); (1, 1, 3000000 * COIN); (2, 50, 0 * COIN); (51, 10080, 6 * COIN); (10081, 10320, 126 * COIN);
   (10321, 10560, 226 * COIN); (10561, 10800, 1006 * COIN); (10801, 11040, 2746 * COIN); (11041, 11280, 416 * COIN); (11281, 11520, 506 * COIN);
   (60481, 61920, 256 * COIN); (97921, 99360, 46 * COIN); (156961, 158400, 116 * COIN); (208801, 210240, 86 * COIN); (234721, 236160, 666 * COIN);
   (270721, 272160, 316 * COIN); (308161, 309600, 526 * COIN); (365761, 367200, 116 * COIN); (411841, 413280, 336 * COIN); (470881, 472320, 766 * COIN);
   (491041, 492480, 676 * COIN); (532801, 534240, 316 * COIN); (564481, 565920, 286 * COIN); (627481, 629280, 446 * COIN); (673921, 675360, 666 * COIN);
   (718561, 720000, 306 * COIN); (743041, 744480, 176 * COIN); (793441, 794880, 326 * COIN); (839521, 840960, 196 * COIN); (889921, 891360, 449 * COIN);
   (920161, 921600, 686 * COIN); (973441, 974880, 166 * COIN); (1002241, 1003680, 56 * COIN); (1049761, 1051200, 2886 * COIN)].

Lemma base_subsidy_table h : base_subsidy h = table_lookup subsidy_table (16 * COIN) h.
Proof.
  unfold base_subsidy, subsidy_table. cbn [table_lookup].
  assert (forall n, (h =? n) = between h n n) as E.
  { intros n. unfold between. rewrite Z.geb_leb.
    destruct (h =? n) eqn:E1; zbool; symmetry.
    - subst. by rewrite Z.leb_refl.
    - apply andb_false_iff. rewrite !Z.leb_gt. lia. }
  by rewrite !E.
Qed.

Lemma table_lookup_in t d h : table_lookup t d h ∈ d :: map snd t.
Proof.
  induction t as [|[[lo hi] c] t IH]; cbn [table_lookup map]; [apply list_elem_of_here|].
  case_if; [apply list_elem_of_further, list_elem_of_here|].
  apply elem_of_cons in IH as [->|IH]; [apply list_elem_of_here|by do 2 apply list_elem_of_further].
Qed.

(** Each entry is either disjoint from the range or contains it. *)
Definition range_check (t : list segment) (lo hi : Z) : bool :=
  forallb (fun '(a, b, _) => (hi <? a) || (b <? lo) || ((a <=? lo) && (hi <=? b))) t.

Lemma range_check_const t d lo hi h :
  range_check t lo hi = true -> lo <= h <= hi -> table_lookup t d h = table_lookup t d lo.
Proof.
  intros Hc Hh. induction t as [|[[a b] c] t IH]; [done|].
  cbn [range_check forallb] in Hc. fold (range_check t lo hi) in Hc.
  apply andb_true_iff in Hc as [Hc1 Hc2]. cbn [table_lookup]. rewrite (IH Hc2).
  assert (between h a b = between lo a b) as ->; [|done].
  unfold between. rewrite !Z.geb_leb.
  repeat (apply orb_true_iff in Hc1 as [Hc1|Hc1]); zbool.
  - rewrite !(proj2 (Z.leb_gt a _)) by lia. done.
  - rewrite !(proj2 (Z.leb_gt _ b)) by lia. by rewrite !andb_false_r.
  - by rewrite !(proj2 (Z.leb_le _ _)) by lia.
Qed.

(** ** Issuance *)

(** Coins created by the blocks of height below [n]. *)
Fixpoint issued (n : nat) : Z :=
  match n with
  | O => 0
  | S m => issued m + base_subsidy (Z.of_nat m)
  end.

Lemma issued_const lo n c :
  (forall h, Z.of_nat lo <= h < Z.of_nat lo + Z.of_nat n -> base_subsidy h = c) ->
  issued (lo + n) = issued lo + Z.of_nat n * c.
Proof.
  induction n as [|n IH]; intros Hc.
  { rewrite Nat.add_0_r. lia. }
  rewrite Nat.add_succ_r. cbn [issued]. rewrite IH by (intros; apply Hc; lia).
  rewrite Hc by lia. lia.
Qed.

(** The sum over consecutive ranges that start at [lo] and end at the listed bounds. *)
Fixpoint sum_ranges (lo : Z) (bounds : list Z) : Z :=
  match bounds with
  | [] => 0
  | hi :: bs => (hi - lo) * table_lookup subsidy_table (16 * COIN) lo + sum_ranges hi bs
  end.

Fixpoint ranges_check (lo : Z) (bounds : list Z) : bool :=
  match bounds with
  | [] => true
  | hi :: bs => (lo <? hi) && range_check subsidy_table lo (hi - 1) && ranges_check hi bs
  end.

Lemma last_cons_default (hi : Z) bs lo : List.last (hi :: bs) lo = List.last bs hi.
Proof.
  revert hi lo. induction bs as [|b bs IH]; intros; [done|].
  change (List.last (hi :: b :: bs) lo) with (List.last (b :: bs) lo). by rewrite !IH.
Qed.

Lemma issued_ranges lo bounds :
  0 <= lo -> ranges_check lo bounds = true ->
  issued (Z.to_nat (List.last bounds lo)) = issued (Z.to_nat lo) + sum_ranges lo bounds /\
  lo <= List.last bounds lo.
Proof.
  revert lo. induction bounds as [|hi bs IH]; intros lo Hlo Hc.
  { cbn [List.last sum_ranges]. lia. }
  cbn [ranges_check] in Hc. apply andb_true_iff in Hc as [Hc Hbs]. zbool.
  rewrite last_cons_default.
  destruct (IH hi ltac:(lia) Hbs) as [-> ?]. split; [|lia]. cbn [sum_ranges].
  replace (Z.to_nat hi) with (Z.to_nat lo + Z.to_nat (hi - lo))%nat by lia.
  rewrite (issued_const _ _ (table_lookup subsidy_table (16 * COIN) lo)); [lia|].
  intros h Hh. rewrite base_subsidy_table. apply (range_check_const _ _ lo (hi - 1)); [done|lia].
Qed.

(** The heights at which the schedule changes. *)
Definition schedule_bounds : list Z :=
  [1; 2; 51; 10081; 10321; 10561; 10801; 11041; 11281; 11521; 60481; 61921; 97921; 99361; 156961; 158401;
   208801; 210241; 234721; 236161; 270721; 272161; 308161; 309601; 365761; 367201; 411841; 413281;
   470881; 472321; 491041; 492481; 532801; 534241; 564481; 565921; 627481; 629281; 673921; 675361;
   718561; 720001; 743041; 744481; 793441; 794881; 839521; 840961; 889921; 891361; 920161; 921601;
   973441; 974881; 1002241; 1003681; 1049761; 1051201].

Lemma issued_schedule : issued (Z.to_nat 1051201) = 36151621 * COIN.
Proof.
  assert (ranges_check 0 schedule_bounds = true) as Hc by (vm_compute; reflexivity).
  assert (sum_ranges 0 schedule_bounds = 36151621 * COIN) as Hs by (vm_compute; reflexivity).
  destruct (issued_ranges 0 schedule_bounds ltac:(lia) Hc) as [E _].
  rewrite Hs in E. exact E.
Qed.

Lemma tail_subsidy h : 1051201 <= h -> base_subsidy h = 16 * COIN.
Proof.
  intros Hh. unfold base_subsidy, between.
  rewrite !(proj2 (Z.eqb_neq h _)) by lia.
  rewrite !(proj2 (Z.leb_gt h _)) by lia. by rewrite !andb_false_r.
Qed.

Lemma issued_tail h :
  1051200 <= h -> issued (Z.to_nat (h + 1)) = (36151621 + 16 * (h - 1051200)) * COIN.
Proof.
  intros Hh. replace (Z.to_nat (h + 1)) with (Z.to_nat 1051201 + Z.to_nat (h - 1051200))%nat by lia.
  rewrite (issued_const _ _ (16 * COIN)).
  - rewrite issued_schedule. rewrite Z2Nat.id by lia. lia.
  - intros h' Hh'. apply tail_subsidy. lia.
Qed.

(** ** The masternode part *)

(** The percentage the code's comments and literals name. *)
Definition masternode_percent (nHeight : Z) : Z :=
  if between nHeight 2 10080 then 100
  else if between nHeight 10081 10800 then 20
  else if between nHeight 10801 61920 then 35
  else if between nHeight 61921 234720 then 25
  else if between nHeight 234721 236160 then 50
  else if between nHeight 236161 308160 then 25
  else if between nHeight 308161 367200 then 20
  else if between nHeight 367201 534240 then 35
  else if between nHeight 534241 1049760 then 25
  else if between nHeight 1049761 1051200 then 50
  else 20.

Definition percent_table : list segment :=
  [(2, 10080, 100); (10081, 10800, 20); (10801, 61920, 35); (61921, 234720, 25); (234721, 236160, 50);
   (236161, 308160, 25); (308161, 367200, 20); (367201, 534240, 35); (534241, 1049760, 25);
   (1049761, 1051200, 50)].

Lemma percent_lookup h : masternode_percent h = table_lookup percent_table 20 h.
Proof. reflexivity. Qed.

Definition factor_of (p : Z) : spec_float :=
  if p =? 100 then d_1_00 else if p =? 50 then d_0_50 else if p =? 25 then d_0_25
  else if p =? 35 then d_0_35 else d_0_20.

Lemma factor_of_percent h : masternode_factor h = factor_of (masternode_percent h).
Proof. unfold masternode_factor, masternode_percent. repeat case_if; reflexivity. Qed.

(** Rounding in binary64 loses nothing for one subsidy and percentage. *)
Definition share_exact (s p : Z) : bool := 100 * mul_double s (factor_of p) =? s * p.

Fixpoint share_check (lo : Z) (bounds : list Z) : bool :=
  match bounds with
  | [] => true
  | hi :: bs =>
      range_check subsidy_table lo (hi - 1) && range_check percent_table lo (hi - 1) &&
      share_exact (table_lookup subsidy_table (16 * COIN) lo) (table_lookup percent_table 20 lo) &&
      share_check hi bs
  end.

Lemma share_check_ok lo bounds h :
  share_check lo bounds = true -> lo <= h < List.last bounds lo ->
  share_exact (base_subsidy h) (masternode_percent h) = true.
Proof.
  revert lo. induction bounds as [|hi bs IH]; intros lo Hc Hh; [cbn in Hh; lia|].
  cbn [share_check] in Hc. apply andb_true_iff in Hc as [Hc Hbs].
  apply andb_true_iff in Hc as [Hc Hex]. apply andb_true_iff in Hc as [Hs Hp].
  destruct (Z.lt_ge_cases h hi).
  - rewrite base_subsidy_table, percent_lookup.
    rewrite (range_check_const subsidy_table (16 * COIN) lo (hi - 1) h Hs ltac:(lia)).
    rewrite (range_check_const percent_table 20 lo (hi - 1) h Hp ltac:(lia)). exact Hex.
  - apply (IH hi Hbs). rewrite last_cons_default in Hh. lia.
Qed.

Lemma schedule_shares : share_check 0 schedule_bounds = true.
Proof. vm_compute. reflexivity. Qed.

Lemma masternode_exact h :
  0 <= h ->
  100 * mul_double (base_subsidy h) (masternode_factor h) = base_subsidy h * masternode_percent h.
Proof.
  intros H0. rewrite factor_of_percent. apply Z.eqb_eq.
  change (share_exact (base_subsidy h) (masternode_percent h) = true).
  destruct (Z.lt_ge_cases h 1051201).
  - apply (share_check_ok 0 schedule_bounds); [apply schedule_shares|].
    change (List.last schedule_bounds 0) with 1051201. lia.
  - rewrite tail_subsidy by done. unfold masternode_percent, between.
    rewrite !(proj2 (Z.leb_gt h _)) by lia. rewrite !andb_false_r. vm_compute. reflexivity.
Qed.

Lemma percent_range h : 20 <= masternode_percent h <= 100.
Proof. unfold masternode_percent. repeat case_if; lia. Qed.

Lemma subsidy_range h : 0 <= base_subsidy h <= 3000000 * COIN.
Proof.
  rewrite base_subsidy_table.
  assert (Forall (fun s => 0 <= s <= 3000000 * COIN) (16 * COIN :: map snd subsidy_table)) as H.
  { apply (bool_decide_unpack _). vm_compute. exact I. }
  rewrite Forall_forall in H. apply H, table_lookup_in.
Qed.

(** ** Properties *)

(** The masternode part of the subsidy, computed through a [double], is the exact
    percentage of the block subsidy at every height; the full call returns the whole
    subsidy and sets the total, the superblock part is always zero. *)
Theorem subsidy_parts h t :
  0 <= h ->
  let total := base_subsidy h in
  0 <= total <= 3000000 * COIN /\ MoneyRange total = true /\
  GetBlockSubsidy h t false false = (total, total) /\
  GetBlockSubsidy h t true false = (0, t) /\
  exists part, GetBlockSubsidy h t false true = (part, total) /\
    100 * part = masternode_percent h * total /\ 0 <= part <= total.
Proof.
  intros Hh. cbv zeta. pose proof (subsidy_range h) as Hr. unfold GetBlockSubsidy. cbv zeta.
  rewrite Z.mul_0_r, Z.sub_0_r. split; [done|]. split.
  { unfold MoneyRange. rewrite Z.geb_leb, !(proj2 (Z.leb_le _ _)); [done| |lia].
    unfold MAX_MONEY, COIN in *. lia. }
  split; [done|]. split; [done|].
  pose proof (masternode_exact h Hh) as He. pose proof (percent_range h).
  eexists. split; [done|]. split; [lia|]. nia.
Qed.

(** The schedule issues exactly 36,151,621 coins up to height 1,051,200 and 16
    coins per block for ever after, so no bound on the supply holds: the 36,000,660
    coins named as the maximum are exceeded, and every amount is exceeded by some
    height. *)
Theorem issuance_unbounded :
  (forall h, 1051200 <= h -> issued (Z.to_nat (h + 1)) = (36151621 + 16 * (h - 1051200)) * COIN) /\
  36000660 * COIN < issued (Z.to_nat 1051201) /\
  (forall bound, exists h, bound < issued (Z.to_nat (h + 1))).
Proof.
  split; [apply issued_tail|]. split; [rewrite issued_schedule; unfold COIN; lia|].
  intros bound. exists (1051200 + Z.max 0 bound). rewrite issued_tail by lia. unfold COIN. lia.
Qed.

(** A fee rate built from a fee and a size charges, for that size, the fee up to
    rounding down, never more; the fee of a non-empty size is never zero for a
    positive rate. *)
Theorem fee_rate_bounds fee size r f :
  0 <= fee -> 0 < size -> CFeeRate_make fee size = Some r -> GetFee r size = Some f ->
  f <= Z.max 1 fee /\ (0 < nSatoshisPerK r -> 0 < f) /\ (fee - f) * 1000 <= size + 999.
Proof.
  intros Hfee Hsize Hr Hf. unfold CFeeRate_make in Hr. case_if_in Hr; [done|]. injection Hr as <-.
  rewrite Z.gtb_ltb, (proj2 (Z.ltb_lt _ _)) in * by lia. rewrite Z.quot_div_nonneg in * by lia.
  set (k := fee * 1000 / size) in *.
  unfold GetFee in Hf. cbn [nSatoshisPerK] in *. case_if_in Hf; [done|].
  pose proof (Z.div_mod (fee * 1000) size ltac:(lia)) as D1. fold k in D1.
  pose proof (Z.mod_pos_bound (fee * 1000) size ltac:(lia)).
  assert (0 <= k) by (apply Z.div_pos; lia).
  rewrite (Z.quot_div_nonneg (k * size)) in Hf by nia. set (f0 := k * size / 1000) in *.
  pose proof (Z.div_mod (k * size) 1000 ltac:(lia)) as D2. fold f0 in D2.
  pose proof (Z.mod_pos_bound (k * size) 1000 ltac:(lia)).
  assert (0 <= f0) by (apply Z.div_pos; nia).
  rewrite (proj2 (Z.ltb_ge k 0)), (proj2 (Z.eqb_neq size 0)) in Hf by lia.
  rewrite Z.gtb_ltb in Hf. cbn [negb] in Hf. rewrite andb_true_r in Hf.
  destruct (f0 =? 0) eqn:E0; zbool.
  - destruct (0 <? k) eqn:Ek; zbool; injection Hf as <-; split_and!; nia.
  - injection Hf as <-. split_and!; nia.
Qed.

(** ** Witnesses *)

Lemma fee_rate_bounds_witness : 1 <= Z.max 1 5000 /\
  exists f, GetFee {| nSatoshisPerK := 22123 |} 226 = Some f /\ f <= 5000.
Proof.
  split; [lia|]. eexists. split; [reflexivity|].
  exact (proj1 (fee_rate_bounds 5000 226 {| nSatoshisPerK := 22123 |} _ ltac:(lia) ltac:(lia)
    ltac:(vm_compute; reflexivity) ltac:(vm_compute; reflexivity))).
Defined.

Lemma subsidy_parts_witness : GetBlockSubsidy 60500 0 false false = (256 * COIN, 256 * COIN).
Proof. exact (proj1 (proj2 (proj2 (subsidy_parts 60500 0 ltac:(lia))))). Defined.
