(* ===== verification/Script.v ===== *)
(** * Scripts

    Models [src/src/script/script.h] and [src/src/script/script.cpp] (script
    numbers, pushes, the instruction reader and the loops over it) and the
    service prefixes Minerium puts in front of an output script
    ([RemoveMineriumScript] of [src/src/alias.cpp] and the [Decode...Script]
    functions it calls in alias.cpp, offer.cpp, cert.cpp, escrow.cpp, asset.cpp
    and assetallocation.cpp).

    A script is the list of its bytes.  A [const_iterator] into a script is the
    suffix of the script it points at: [*pc++] takes the head, [end() - pc] is
    the length of the suffix. *)

From S2P Require Import Prelude.

Definition MAX_SCRIPT_ELEMENT_SIZE : Z := 520.
Definition MAX_OPS_PER_SCRIPT : Z := 201.
Definition MAX_PUBKEYS_PER_MULTISIG : Z := 20.
Definition MAX_SCRIPT_SIZE : Z := 10000.
Definition LOCKTIME_THRESHOLD : Z := 500000000.

(** ** Opcodes used by the functions of this file *)

Definition OP_0 : Z := 0x00.
Definition OP_PUSHDATA1 : Z := 0x4c.
Definition OP_PUSHDATA2 : Z := 0x4d.
Definition OP_PUSHDATA4 : Z := 0x4e.
Definition OP_1 : Z := 0x51.
Definition OP_16 : Z := 0x60.
Definition OP_RETURN : Z := 0x6a.
Definition OP_2DROP : Z := 0x6d.
Definition OP_DROP : Z := 0x75.
Definition OP_DUP : Z := 0x76.
Definition OP_EQUAL : Z := 0x87.
Definition OP_EQUALVERIFY : Z := 0x88.
Definition OP_HASH160 : Z := 0xa9.
Definition OP_CHECKSIG : Z := 0xac.
Definition OP_CHECKSIGVERIFY : Z := 0xad.
Definition OP_CHECKMULTISIG : Z := 0xae.
Definition OP_CHECKMULTISIGVERIFY : Z := 0xaf.
Definition OP_INVALIDOPCODE : Z := 0xff.

(** ** Script numbers *)

(** The [while(absvalue)] loop of [CScriptNum::serialize]; eight bytes are enough
    for a [uint64_t]. *)
Fixpoint serialize_abs (fuel : nat) (absvalue : Z) : list Z :=
  match fuel with
  | O => []
  | S f => if absvalue =? 0 then []
           else Z.land absvalue 0xff :: serialize_abs f (Z.shiftr absvalue 8)
  end.

(** Replacing the last byte: [result.back() |= 0x80]. *)
Fixpoint or_back (l : list Z) (m : Z) : list Z :=
  match l with
  | [] => []
  | [b] => [Z.lor b m]
  | b :: l' => b :: or_back l' m
  end.

Definition back (l : list Z) : Z := default 0 (last l).

Definition scriptnum_serialize (value : Z) : list Z :=
  if value =? 0 then []
  else
    let neg := value <? 0 in
    let absvalue := u64 (if neg then - value else value) in
    let result := serialize_abs 8 absvalue in
    if negb (Z.land (back result) 0x80 =? 0) then result ++ [if neg then 0x80 else 0]
    else if neg then or_back result 0x80
    else result.

(** The loop [result |= static_cast<int64_t>(vch[i]) << 8*i] of [set_vch],
    reading the bytes from index [i] on. *)
Fixpoint set_vch_loop (i : Z) (vch : list Z) (result : Z) : Z :=
  match vch with
  | [] => result
  | b :: vch' => set_vch_loop (i + 1) vch' (Z.lor result (i64 (Z.shiftl b (8 * i))))
  end.

Definition set_vch (vch : list Z) : Z :=
  if (length vch =? 0)%nat then 0
  else
    let result := set_vch_loop 0 vch 0 in
    if negb (Z.land (back vch) 0x80 =? 0) then
      - i64 (Z.land (u64 result)
                    (u64 (Z.lnot (u64 (Z.shiftl 0x80 (8 * (Z.of_nat (length vch) - 1)))))))
    else result.

Definition nDefaultMaxNumSize : Z := 4.

(** [CScriptNum(vch, fRequireMinimal, nMaxNumSize)]; [None] is [scriptnum_error]. *)
Definition CScriptNum (vch : list Z) (fRequireMinimal : bool) (nMaxNumSize : Z) : option Z :=
  if Z.of_nat (length vch) >? nMaxNumSize then None
  else if fRequireMinimal && (0 <? length vch)%nat
          && (Z.land (back vch) 0x7f =? 0)
          && ((length vch <=? 1)%nat || (Z.land (vch !!! (length vch - 2)%nat) 0x80 =? 0))
  then None
  else Some (set_vch vch).

Definition int_max : Z := 2 ^ 31 - 1.
Definition int_min : Z := - 2 ^ 31.

Definition getint (m_value : Z) : Z :=
  if m_value >? int_max then int_max
  else if m_value <? int_min then int_min
  else m_value.

(** [operator+=], [operator-=] and unary minus of [CScriptNum]; [None] is a failed
    [assert]. *)
Definition int64_min : Z := - 2 ^ 63.
Definition int64_max : Z := 2 ^ 63 - 1.

Definition scriptnum_add (m rhs : Z) : option Z :=
  if (rhs =? 0) || ((rhs >? 0) && (m <=? int64_max - rhs)) || ((rhs <? 0) && (m >=? int64_min - rhs))
  then Some (m + rhs) else None.

Definition scriptnum_sub (m rhs : Z) : option Z :=
  if (rhs =? 0) || ((rhs >? 0) && (m >=? int64_min + rhs)) || ((rhs <? 0) && (m <=? int64_max + rhs))
  then Some (m - rhs) else None.

Definition scriptnum_neg (m : Z) : option Z :=
  if negb (m =? int64_min) then Some (- m) else None.

(** ** Writing scripts *)

(** [operator<<(const std::vector<unsigned char>& b)] *)
Definition push_data (s b : list Z) : list Z :=
  let n := Z.of_nat (length b) in
  let s :=
    if n <? OP_PUSHDATA1 then s ++ [u8 n]
    else if n <=? 0xff then (s ++ [OP_PUSHDATA1]) ++ [u8 n]
    else if n <=? 0xffff then (s ++ [OP_PUSHDATA2]) ++ le_encode 2 n
    else (s ++ [OP_PUSHDATA4]) ++ le_encode 4 n in
  s ++ b.

(** [operator<<(opcodetype opcode)]; [None] is the [runtime_error]. *)
Definition push_opcode (s : list Z) (opcode : Z) : option (list Z) :=
  if (opcode <? 0) || (opcode >? 0xff) then None else Some (s ++ [opcode]).

Definition push_int64 (s : list Z) (n : Z) : list Z :=
  if (n =? -1) || ((n >=? 1) && (n <=? 16)) then s ++ [u8 (n + (OP_1 - 1))]
  else if n =? 0 then s ++ [OP_0]
  else push_data s (scriptnum_serialize n).

(** ** Reading scripts *)

Record GetOpResult := {
  fRet : bool;
  opcodeRet : Z;
  vchRet : list Z;
  pcRet : list Z;
}.

(** The size of an immediate operand and the iterator after the size bytes;
    [None] when the size bytes run past the end. *)
Definition read_push_size (opcode : Z) (pc : list Z) : option Z * list Z :=
  if opcode <? OP_PUSHDATA1 then (Some opcode, pc)
  else if opcode =? OP_PUSHDATA1 then
    if (length pc <? 1)%nat then (None, pc) else (Some (pc !!! 0%nat), drop 1 pc)
  else if opcode =? OP_PUSHDATA2 then
    if (length pc <? 2)%nat then (None, pc) else (Some (le_decode (take 2 pc)), drop 2 pc)
  else
    if (length pc <? 4)%nat then (None, pc) else (Some (le_decode (take 4 pc)), drop 4 pc).

Definition GetOp2 (pc : list Z) : GetOpResult :=
  let failed pc := {| fRet := false; opcodeRet := OP_INVALIDOPCODE; vchRet := []; pcRet := pc |} in
  match pc with
  | [] => failed []
  | opcode :: pc =>
      if opcode <=? OP_PUSHDATA4 then
        match read_push_size opcode pc with
        | (None, pc) => failed pc
        | (Some nSize, pc) =>
            if Z.of_nat (length pc) <? nSize then failed pc
            else {| fRet := true; opcodeRet := opcode;
                    vchRet := take (Z.to_nat nSize) pc; pcRet := drop (Z.to_nat nSize) pc |}
        end
      else {| fRet := true; opcodeRet := opcode; vchRet := []; pcRet := pc |}
  end.

Definition DecodeOP_N (opcode : Z) : option Z :=
  if opcode =? OP_0 then Some 0
  else if (opcode >=? OP_1) && (opcode <=? OP_16) then Some (opcode - (OP_1 - 1))
  else None.

Definition EncodeOP_N (n : Z) : option Z :=
  if negb ((n >=? 0) && (n <=? 16)) then None
  else if n =? 0 then Some OP_0 else Some (OP_1 + n - 1).

(** The loops over a script.  Every iteration consumes at least one byte, so the
    length of the script is fuel enough ([sigop_loop_fuel] and the like below). *)

Fixpoint sigop_loop (fuel : nat) (fAccurate : bool) (pc : list Z) (lastOpcode n : Z) : Z :=
  match fuel with
  | O => n
  | S f =>
      if (length pc =? 0)%nat then n
      else
        let r := GetOp2 pc in
        if negb (fRet r) then n
        else
          let opcode := opcodeRet r in
          let n :=
            if (opcode =? OP_CHECKSIG) || (opcode =? OP_CHECKSIGVERIFY) then u32 (n + 1)
            else if (opcode =? OP_CHECKMULTISIG) || (opcode =? OP_CHECKMULTISIGVERIFY) then
              if fAccurate && (lastOpcode >=? OP_1) && (lastOpcode <=? OP_16)
              then u32 (n + default 0 (DecodeOP_N lastOpcode))
              else u32 (n + MAX_PUBKEYS_PER_MULTISIG)
            else n in
          sigop_loop f fAccurate (pcRet r) opcode n
  end.

(** [CScript::GetSigOpCount(bool fAccurate)] *)
Definition GetSigOpCount (s : list Z) (fAccurate : bool) : Z :=
  sigop_loop (length s) fAccurate s OP_INVALIDOPCODE 0.

Fixpoint push_only_loop (fuel : nat) (pc : list Z) : bool :=
  match fuel with
  | O => true
  | S f =>
      if (length pc =? 0)%nat then true
      else
        let r := GetOp2 pc in
        if negb (fRet r) then false
        else if opcodeRet r >? OP_16 then false
        else push_only_loop f (pcRet r)
  end.

Definition IsPushOnly (pc : list Z) : bool := push_only_loop (length pc) pc.

Fixpoint find_loop (fuel : nat) (op : Z) (pc : list Z) (nFound : Z) : Z :=
  match fuel with
  | O => nFound
  | S f =>
      if (length pc =? 0)%nat then nFound
      else
        let r := GetOp2 pc in
        if negb (fRet r) then nFound
        else find_loop f op (pcRet r) (if opcodeRet r =? op then nFound + 1 else nFound)
  end.

(** [CScript::Find(opcodetype op)] *)
Definition Find (s : list Z) (op : Z) : Z := find_loop (length s) op s 0.

(** [FindAndDelete]: the inner [while] skips occurrences of [b] at [pc]. *)
Fixpoint skip_matches (fuel : nat) (b pc : list Z) (nFound : Z) : list Z * Z :=
  match fuel with
  | O => (pc, nFound)
  | S f =>
      if (length b <=? length pc)%nat && bool_decide (take (length b) pc = b)
      then skip_matches f b (drop (length b) pc) (nFound + 1)
      else (pc, nFound)
  end.

(** The outer [do ... while (GetOp(pc, opcode))]: [pc2] is the iterator before the
    last instruction read and [pc] the one after it, so [result] receives the
    bytes between them. *)
Fixpoint fad_loop (fuel : nat) (b pc2 pc result : list Z) (nFound : Z) : list Z * list Z * Z :=
  let result := result ++ take (length pc2 - length pc) pc2 in
  let '(pc, nFound) := skip_matches (length pc) b pc nFound in
  let pc2 := pc in
  match fuel with
  | O => (pc2, result, nFound)
  | S f =>
      let r := GetOp2 pc in
      if fRet r then fad_loop f b pc2 (pcRet r) result nFound
      else (pc2, result, nFound)
  end.

(** The script after the call and the number of occurrences removed. *)
Definition FindAndDelete (s b : list Z) : list Z * Z :=
  if (length b =? 0)%nat then (s, 0)
  else
    let '(pc2, result, nFound) := fad_loop (length s) b s s [] 0 in
    if nFound >? 0 then (result ++ pc2, nFound) else (s, nFound).

Definition IsUnspendable (s : list Z) : bool :=
  ((0 <? length s)%nat && (s !!! 0%nat =? OP_RETURN)) || (Z.of_nat (length s) >? MAX_SCRIPT_SIZE).

(** ** Service prefixes *)

Definition OP_MINERIUM_ALIAS : Z := 0x01.
Definition OP_MINERIUM_CERT : Z := 0x02.
Definition OP_MINERIUM_ESCROW : Z := 0x03.
Definition OP_MINERIUM_OFFER : Z := 0x04.
Definition OP_MINERIUM_ASSET : Z := 0x05.
Definition OP_MINERIUM_ASSET_ALLOCATION : Z := 0x06.

Definition IsAliasOp (op : Z) : bool := (op =? 0x01) || (op =? 0x02).
Definition IsOfferOp (op : Z) : bool := (op =? 0x01) || (op =? 0x02).
Definition IsCertOp (op : Z) : bool := (op =? 0x01) || (op =? 0x02) || (op =? 0x03).
Definition IsEscrowOp (op : Z) : bool :=
  (op =? 0x01) || (op =? 0x02) || (op =? 0x03) || (op =? 0x05) || (op =? 0x04)
  || (op =? 0x06) || (op =? 0x09) || (op =? 0x07) || (op =? 0x08).
Definition IsAssetOp (op : Z) : bool :=
  (op =? 0x01) || (op =? 0x02) || (op =? 0x03) || (op =? 0x04).

Definition is_drop (opcode : Z) : bool := (opcode =? OP_DROP) || (opcode =? OP_2DROP).

(** The two leading small integers: the value and the iterator after it. *)
Definition read_OP_N (pc : list Z) : option (Z * list Z) :=
  let r := GetOp2 pc in
  if negb (fRet r) then None
  else if (opcodeRet r <? OP_1) || (opcodeRet r >? OP_16) then None
  else op ← DecodeOP_N (opcodeRet r); Some (op, pcRet r).

(** The [for (;;)] loop that collects the pushed arguments up to a drop. *)
Fixpoint decode_args (fuel : nat) (pc : list Z) (vvch : list (list Z))
  : option (list (list Z) * Z * list Z) :=
  match fuel with
  | O => None
  | S f =>
      let r := GetOp2 pc in
      if negb (fRet r) then None
      else if is_drop (opcodeRet r) then Some (vvch, opcodeRet r, pcRet r)
      else if negb ((opcodeRet r >=? 0) && (opcodeRet r <=? OP_PUSHDATA4)) then None
      else decode_args f (pcRet r) (vvch ++ [vchRet r])
  end.

(** The [while] loop that moves past the drops; a failed [GetOp] breaks out with
    the iterator where the failure left it. *)
Fixpoint skip_drops (fuel : nat) (opcode : Z) (pc : list Z) : list Z :=
  match fuel with
  | O => pc
  | S f =>
      if is_drop opcode then
        let r := GetOp2 pc in
        if negb (fRet r) then pcRet r else skip_drops f (opcodeRet r) (pcRet r)
      else pc
  end.

(** [pc--]: the iterator one byte before [pc]. *)
Definition step_back (script pc : list Z) : list Z :=
  drop (length script - S (length pc)) script.

(** The body shared word for word by the six [Decode...Script] functions: [service] is the
    [OP_MINERIUM_...] tag and [isOp] the check of the operation.  The result is
    the operation, the arguments and the iterator returned in [pc]. *)
Definition decode_service (service : Z) (isOp : Z -> bool) (script : list Z)
  : option (Z * list (list Z) * list Z) :=
  '(op, pc) ← read_OP_N script;
  if negb (op =? service) then None
  else
    '(op, pc) ← read_OP_N pc;
    if negb (isOp op) then None
    else
      '(vvch, opcode, pc) ← decode_args (length script) pc [];
      let pc := skip_drops (S (length script)) opcode pc in
      Some (op, vvch, step_back script pc).

Definition DecodeAliasScript := decode_service OP_MINERIUM_ALIAS IsAliasOp.
Definition DecodeOfferScript := decode_service OP_MINERIUM_OFFER IsOfferOp.
Definition DecodeCertScript := decode_service OP_MINERIUM_CERT IsCertOp.
Definition DecodeEscrowScript := decode_service OP_MINERIUM_ESCROW IsEscrowOp.
Definition DecodeAssetScript := decode_service OP_MINERIUM_ASSET IsAssetOp.
Definition DecodeAssetAllocationScript := decode_service OP_MINERIUM_ASSET_ALLOCATION IsAssetOp.

(** [Remove...ScriptPrefix]: the script from the returned iterator on. *)
Definition RemoveAliasScriptPrefix (s : list Z) : option (list Z) := snd <$> DecodeAliasScript s.
Definition RemoveOfferScriptPrefix (s : list Z) : option (list Z) := snd <$> DecodeOfferScript s.
Definition RemoveCertScriptPrefix (s : list Z) : option (list Z) := snd <$> DecodeCertScript s.
Definition RemoveEscrowScriptPrefix (s : list Z) : option (list Z) := snd <$> DecodeEscrowScript s.
Definition RemoveAssetScriptPrefix (s : list Z) : option (list Z) := snd <$> DecodeAssetScript s.
Definition RemoveAssetAllocationScriptPrefix (s : list Z) : option (list Z) :=
  snd <$> DecodeAssetAllocationScript s.

(** [None]: the function returns false. *)
Definition RemoveMineriumScript (s : list Z) : option (list Z) :=
  match RemoveAliasScriptPrefix s with
  | Some o => Some o
  | None => match RemoveOfferScriptPrefix s with
    | Some o => Some o
    | None => match RemoveCertScriptPrefix s with
      | Some o => Some o
      | None => match RemoveEscrowScriptPrefix s with
        | Some o => Some o
        | None => match RemoveAssetScriptPrefix s with
          | Some o => Some o
          | None => RemoveAssetAllocationScriptPrefix s
          end
        end
      end
    end
  end.

(** The script the callers go on with. *)
Definition strip_service (s : list Z) : list Z := default s (RemoveMineriumScript s).

Definition byte_at (s : list Z) (i : nat) (b : Z) : bool := s !!! i =? b.

Definition IsPayToPublicKeyHash (s : list Z) : bool :=
  let scriptOut := strip_service s in
  (length scriptOut =? 25)%nat && byte_at scriptOut 0 OP_DUP && byte_at scriptOut 1 OP_HASH160
  && byte_at scriptOut 2 0x14 && byte_at scriptOut 23 OP_EQUALVERIFY
  && byte_at scriptOut 24 OP_CHECKSIG.

Definition IsPayToScriptHash (s : list Z) : bool :=
  let scriptOut := strip_service s in
  (length scriptOut =? 23)%nat && byte_at scriptOut 0 OP_HASH160
  && byte_at scriptOut 1 0x14 && byte_at scriptOut 22 OP_EQUAL.

Definition IsPayToPublicKey (s : list Z) : bool :=
  let scriptOut := strip_service s in
  if (length scriptOut =? 35)%nat then
    (byte_at scriptOut 1 0x02 || byte_at scriptOut 1 0x03) && byte_at scriptOut 34 OP_CHECKSIG
  else if (length scriptOut =? 67)%nat then
    byte_at scriptOut 1 0x04 && byte_at scriptOut 66 OP_CHECKSIG
  else false.

(** The loop of [GetSigOpCount(scriptSig)] that finds the last item pushed. *)
Fixpoint last_push_loop (fuel : nat) (pc data : list Z) : option (list Z) :=
  match fuel with
  | O => Some data
  | S f =>
      if (length pc =? 0)%nat then Some data
      else
        let r := GetOp2 pc in
        if negb (fRet r) then None
        else if opcodeRet r >? OP_16 then None
        else last_push_loop f (pcRet r) (vchRet r)
  end.

(** [CScript::GetSigOpCount(const CScript& scriptSig)] *)
Definition GetSigOpCount_P2SH (s scriptSig : list Z) : Z :=
  if negb (IsPayToScriptHash s) then GetSigOpCount s true
  else match last_push_loop (length scriptSig) scriptSig [] with
       | None => 0
       | Some data => GetSigOpCount data true
       end.

(** ** Script numbers: the sign-and-magnitude format *)

Lemma list_snoc_inv {A} (l : list A) : l <> [] -> exists k x, l = k ++ [x].
Proof. intros H. destruct (exists_last H) as (k & x & ->). eauto. Qed.

Lemma Forall_snoc {A} (P : A -> Prop) l x : Forall P (l ++ [x]) <-> Forall P l /\ P x.
Proof. by rewrite Forall_app, Forall_singleton. Qed.

Lemma back_snoc l t : back (l ++ [t]) = t.
Proof. unfold back. by rewrite last_snoc. Qed.

Lemma or_back_snoc l t m : or_back (l ++ [t]) m = l ++ [Z.lor t m].
Proof. induction l as [|b [|c l] IH]; simpl in *; [done..|]. by rewrite IH. Qed.

Lemma serialize_abs_ok n a :
  0 < a < 2 ^ (8 * Z.of_nat n) ->
  exists l t, serialize_abs n a = l ++ [t] /\ bytes_ok (l ++ [t]) /\ 0 < t
    /\ le_decode (l ++ [t]) = a /\ (length (l ++ [t]) <= n)%nat.
Proof.
  revert a. induction n as [|n IH]; intros a Ha; [simpl in Ha; lia|].
  replace (8 * Z.of_nat (S n)) with (8 + 8 * Z.of_nat n) in Ha by lia.
  rewrite Z.pow_add_r in Ha by lia. cbn [serialize_abs].
  case_if; [lia|]. change 0xff with (Z.ones 8). rewrite Z.land_ones, Z.shiftr_div_pow2 by lia.
  pose proof (Z.div_mod a (2 ^ 8) ltac:(lia)).
  pose proof (Z.mod_pos_bound a (2 ^ 8) ltac:(lia)).
  destruct (Z.eq_dec (a / 2 ^ 8) 0) as [E|E].
  - rewrite E. exists [], (a mod 2 ^ 8).
    replace (serialize_abs n 0) with (@nil Z) by (by destruct n).
    cbn [app le_decode length]. split_and!; [done| |lia..].
    by apply Forall_singleton.
  - destruct (IH (a / 2 ^ 8)) as (l & t & -> & Hb & Ht & Hd & Hl).
    { assert (0 <= a / 2 ^ 8) by (apply Z.div_pos; lia).
      split; [lia|]. apply Z.div_lt_upper_bound; lia. }
    exists (a mod 2 ^ 8 :: l), t. rewrite <- app_comm_cons. split_and!; [done|by constructor|done|cbn [le_decode]; lia|simpl; lia].
Qed.

Lemma serialize_abs_decode n l t :
  bytes_ok (l ++ [t]) -> 0 < t -> (length (l ++ [t]) <= n)%nat ->
  serialize_abs n (le_decode (l ++ [t])) = l ++ [t].
Proof.
  revert n. induction l as [|b l IH]; intros n Hb Ht Hn; (destruct n as [|n]; [simpl in Hn; lia|]).
  - inversion Hb as [|? ? Hx _]; subst. unfold in_u in Hx. cbn [app le_decode serialize_abs].
    rewrite Z.mul_0_r, Z.add_0_r. case_if; [lia|].
    change 0xff with (Z.ones 8). rewrite Z.land_ones, Z.shiftr_div_pow2 by lia.
    rewrite Z.mod_small, Z.div_small by lia. by destruct n.
  - rewrite <- app_comm_cons in *. inversion Hb as [|? ? Hx Hr]; subst. unfold in_u in Hx.
    cbn [le_decode serialize_abs].
    assert (0 < le_decode (l ++ [t])).
    { rewrite le_decode_app. pose proof (le_decode_range l ltac:(by apply Forall_app in Hr as [? _])).
      cbn [le_decode]. nia. }
    case_if; [lia|].
    change 0xff with (Z.ones 8). rewrite Z.land_ones, Z.shiftr_div_pow2 by lia.
    rewrite Z.mul_comm, Z.mod_add, Z.div_add, Z.mod_small, Z.div_small by lia.
    rewrite Z.add_0_l, IH; [done|done|done|simpl in Hn; lia].
Qed.

Lemma set_vch_loop_u64 v i r :
  bytes_ok v -> 0 <= i -> i + Z.of_nat (length v) <= 8 -> 0 <= u64 r < 2 ^ (8 * i) ->
  u64 (set_vch_loop i v r) = u64 r + 2 ^ (8 * i) * le_decode v.
Proof.
  revert i r. induction v as [|b v IH]; intros i r Hb Hi Hl Hr; cbn [set_vch_loop le_decode length] in *.
  { lia. }
  inversion Hb as [|? ? Hx Hv]; subst. unfold in_u in Hx.
  assert (2 ^ (8 * (i + 1)) = 2 ^ (8 * i) * 2 ^ 8) as E8
    by (rewrite <- Z.pow_add_r by lia; f_equal; lia).
  assert (2 ^ (8 * (i + 1)) <= 2 ^ 64) by (apply Z.pow_le_mono_r; lia).
  assert (u64 (Z.lor r (i64 (Z.shiftl b (8 * i)))) = u64 r + b * 2 ^ (8 * i)) as E.
  { rewrite wrap_lor, wrap_swrap by lia. rewrite (wrap_small _ (Z.shiftl _ _)).
    - apply lor_shiftl_add; lia.
    - unfold in_u. rewrite Z.shiftl_mul_pow2 by lia. nia. }
  rewrite IH; [rewrite E; lia|done|lia|lia|]. rewrite E. nia.
Qed.

Lemma set_vch_loop_in_s v i r : in_s 64 r -> in_s 64 (set_vch_loop i v r).
Proof.
  revert i r. induction v; intros i r Hr; [done|]. cbn [set_vch_loop]. apply IHv.
  apply lor_in_s; [lia|done|by apply swrap_range].
Qed.

Lemma le_decode_snoc l t : le_decode (l ++ [t]) = le_decode l + 2 ^ (8 * Z.of_nat (length l)) * t.
Proof. rewrite le_decode_app. cbn [le_decode]. lia. Qed.

Lemma u64_loop_value v : bytes_ok v -> (length v <= 8)%nat -> u64 (set_vch_loop 0 v 0) = le_decode v.
Proof. intros. rewrite set_vch_loop_u64; [change (u64 0) with 0; lia|done|lia|lia|done]. Qed.

(** [le_decode] of a magnitude whose top byte is below 128 fits an [int64_t]. *)
Lemma magnitude_bound l t :
  bytes_ok l -> 0 <= t < 128 -> (length (l ++ [t]) <= 8)%nat -> 0 <= le_decode (l ++ [t]) < 2 ^ 63.
Proof.
  intros Hl Ht Hn. rewrite le_decode_snoc. pose proof (le_decode_range l Hl).
  rewrite length_app in Hn. cbn [length] in Hn.
  set (p := 2 ^ (8 * Z.of_nat (length l))) in *.
  assert (p <= 2 ^ 56) by (apply Z.pow_le_mono_r; lia). nia.
Qed.

Lemma set_vch_snoc l t :
  bytes_ok (l ++ [t]) -> (length (l ++ [t]) <= 8)%nat ->
  set_vch (l ++ [t]) = if t <? 128 then le_decode (l ++ [t]) else - le_decode (l ++ [t - 128]).
Proof.
  intros Hb Hn. pose proof (u64_loop_value _ Hb Hn) as E.
  pose proof Hb as [Hl Ht]%Forall_app. rewrite Forall_singleton in Ht.
  assert (in_s 64 (set_vch_loop 0 (l ++ [t]) 0)) as Hs by (apply set_vch_loop_in_s; unfold in_s; lia).
  unfold set_vch. rewrite back_snoc. rewrite land_byte_80 by exact Ht.
  rewrite (proj2 (Nat.eqb_neq _ _)) by (rewrite length_app; simpl; lia).
  unfold in_u in Ht. destruct (t <? 128) eqn:Ht8; zbool; cbn [negb].
  - rewrite <- (swrap_small 64 _ ltac:(lia) Hs), <- swrap_wrap, E by lia.
    apply swrap_small; [lia|]. pose proof (magnitude_bound l t Hl ltac:(lia) Hn).
    unfold in_s. lia.
  - rewrite E. f_equal. pose proof (magnitude_bound l (t - 128) Hl ltac:(lia)) as Hm.
    rewrite length_app in Hm, Hn. cbn [length] in Hm, Hn. specialize (Hm Hn). rewrite length_app; cbn [length].
    replace (Z.of_nat (length l + 1) - 1) with (Z.of_nat (length l)) by lia.
    rewrite !le_decode_snoc in *. pose proof (le_decode_range l Hl).
    set (k := 8 * Z.of_nat (length l)) in *.
    assert (2 ^ k <= 2 ^ 56) by (apply Z.pow_le_mono_r; lia).
    assert (u64 (Z.lnot (u64 (Z.shiftl 0x80 k))) = Z.ldiff (Z.ones 64) (Z.shiftl 1 (k + 7))) as ->.
    { change 0x80 with (Z.shiftl 1 7). rewrite Z.shiftl_shiftl, Z.add_comm by lia.
      rewrite (wrap_small _ (Z.shiftl 1 _)).
      - unfold wrap. rewrite <- Z.land_ones, Z.land_comm by lia. by rewrite Z.ldiff_land.
      - unfold in_u. rewrite Z.shiftl_1_l. split; [lia|]. apply Z.pow_lt_mono_r; lia. }
    assert (0 <= k) by lia.
    assert (2 ^ (k + 7) = 128 * 2 ^ k) as E7 by (rewrite Z.pow_add_r by lia; lia).
    assert (forall x, 0 <= x < 2 ^ (k + 7) ->
              Z.land (x + 2 ^ (k + 7)) (Z.ldiff (Z.ones 64) (Z.shiftl 1 (k + 7))) = x) as Hclear.
    { intros x Hx.
      assert (x + 2 ^ (k + 7) = Z.lor x (Z.shiftl 1 (k + 7))) as ->
        by (rewrite lor_shiftl_add by lia; lia).
      pose proof (land_disjoint_shiftl x 1 (k + 7) ltac:(lia) Hx) as D.
      transitivity (Z.land x (Z.ones 64)).
      - apply Z.bits_inj'. intros m Hm'. apply (f_equal (fun z => Z.testbit z m)) in D.
        rewrite Z.land_spec, Z.bits_0 in D.
        rewrite !Z.land_spec, Z.ldiff_spec, Z.lor_spec.
        by destruct (Z.testbit x m), (Z.testbit (Z.shiftl 1 (k + 7)) m), (Z.testbit (Z.ones 64) m).
      - rewrite Z.land_ones by lia. apply Z.mod_small.
        assert (2 ^ (k + 7) <= 2 ^ 63) by (apply Z.pow_le_mono_r; lia). lia. }
    replace (le_decode l + 2 ^ k * t) with ((le_decode l + 2 ^ k * (t - 128)) + 2 ^ (k + 7)) by lia.
    rewrite Hclear by nia. apply swrap_small; [lia|]. unfold in_s. lia.
Qed.

(** The bytes [CScriptNum::serialize] produces: sign bit, magnitude, shortest length. *)
Lemma serialize_spec n :
  - 2 ^ 63 < n < 2 ^ 63 -> n <> 0 ->
  exists l t, scriptnum_serialize n = l ++ [t] /\ bytes_ok (l ++ [t]) /\ (length (l ++ [t]) <= 8)%nat
    /\ ((t <? 128) = (0 <? n)) /\ le_decode (l ++ [if t <? 128 then t else t - 128]) = Z.abs n
    /\ (t = 0 \/ t = 128 -> exists l' u, l = l' ++ [u] /\ 128 <= u).
Proof.
  intros Hn Hz. unfold scriptnum_serialize. case_if; [lia|].
  set (a := u64 (if n <? 0 then - n else n)).
  assert (a = Z.abs n) as Ha.
  { unfold a. rewrite wrap_small; [case_if; lia|]. unfold in_u. case_if; lia. }
  destruct (serialize_abs_ok 8 a) as (l & t & E & Hb & Ht & Hd & Hl); [change (8 * Z.of_nat 8) with 64; lia|].
  rewrite E, back_snoc. pose proof Hb as [Hbl Hbt]%Forall_app. rewrite Forall_singleton in Hbt.
  rewrite land_byte_80 by done. unfold in_u in Hbt.
  destruct (t <? 128) eqn:Ht8; zbool; cbn [negb].
  - destruct (n <? 0) eqn:Hneg; zbool.
    + rewrite or_back_snoc. assert (Z.lor t 128 = t + 128) as ->.
      { change (Z.lor t 128) with (Z.lor t (Z.shiftl 1 7)). rewrite lor_shiftl_add; lia. }
      exists l, (t + 128). assert (length (l ++ [t + 128]) = length (l ++ [t])) by by rewrite !length_app.
      rewrite (proj2 (Z.ltb_ge (t + 128) 128)), (proj2 (Z.ltb_ge 0 n)) by lia.
      replace (t + 128 - 128) with t by lia.
      split_and!; [done| |lia|done|lia|lia].
      apply Forall_app. split; [done|]. apply Forall_singleton. unfold in_u. lia.
    + exists l, t. rewrite (proj2 (Z.ltb_lt t _)), (proj2 (Z.ltb_lt 0 n)) by lia.
      split_and!; [done..|lia|lia].
  - exists (l ++ [t]), (if n <? 0 then 0x80 else 0).
    assert (forall b : Z, length ((l ++ [t]) ++ [b]) <= 8)%nat as H8.
    { intros b. rewrite length_app. cbn [length]. assert (length (l ++ [t]) <> 8)%nat; [|lia]. intros E8.
      rewrite le_decode_snoc in Hd. rewrite length_app in E8. cbn [length] in E8.
      replace (length l) with 7%nat in Hd by lia. pose proof (le_decode_range l Hbl).
      change (8 * Z.of_nat 7) with 56 in Hd. lia. }
    split_and!; [done| |apply H8| | |intros _; eauto].
    + apply Forall_app. split; [done|]. rewrite Forall_singleton. unfold in_u. destruct (n <? 0); lia.
    + destruct (n <? 0) eqn:?; zbool; cbn; symmetry; [apply Z.ltb_ge|apply Z.ltb_lt]; lia.
    + replace (if _ <? 128 then _ else _) with 0 by (by destruct (n <? 0)).
      rewrite le_decode_snoc. lia.
Qed.

(** Shortest encodings: no superfluous most significant byte. *)
Definition scriptnum_minimal (v : list Z) : bool :=
  negb ((0 <? length v)%nat && (Z.land (back v) 0x7f =? 0)
        && ((length v <=? 1)%nat || (Z.land (v !!! (length v - 2)%nat) 0x80 =? 0))).

Lemma CScriptNum_unfold v fMin k :
  CScriptNum v fMin k =
    if Z.of_nat (length v) >? k then None
    else if fMin && negb (scriptnum_minimal v) then None else Some (set_vch v).
Proof.
  unfold CScriptNum, scriptnum_minimal. case_if; [done|]. rewrite negb_involutive, !andb_assoc. done.
Qed.

Lemma minimal_snoc l t :
  bytes_ok (l ++ [t]) ->
  scriptnum_minimal (l ++ [t]) = true <->
    (t = 0 \/ t = 128 -> exists l' u, l = l' ++ [u] /\ 128 <= u).
Proof.
  intros Hb. pose proof Hb as [Hl Ht]%Forall_app. rewrite Forall_singleton in Ht.
  unfold scriptnum_minimal. rewrite back_snoc, land_byte_7f by done.
  rewrite (proj2 (Nat.ltb_lt _ _)) by (rewrite length_app; simpl; lia). cbn [andb].
  rewrite negb_true_iff, andb_false_iff, orb_false_iff, orb_false_iff, Z.eqb_neq, Z.eqb_neq, Nat.leb_gt.
  destruct l as [|? ?] using rev_ind.
  - cbn [app length]. split; [intros [?|[? _]]; lia|]. intros H. left.
    split; intros ->; destruct H as (l' & u & E & _); auto; by destruct l'.
  - rewrite Forall_snoc in Hl. destruct Hl as [_ Hx].
    replace (length ((l ++ [x]) ++ [t]) - 2)%nat with (length l)
      by (rewrite !length_app; simpl; lia).
    assert (((l ++ [x]) ++ [t]) !!! length l = x) as ->.
    { apply list_lookup_total_correct. rewrite <- app_assoc, lookup_app_r by lia.
      by rewrite Nat.sub_diag. }
    rewrite land_byte_80 by done. rewrite Z.ltb_ge, !length_app. cbn [length].
    split.
    + intros [[? ?]|[_ ?]] ?; [lia|]. eauto.
    + intros H. destruct (Z.eq_dec t 0); [|destruct (Z.eq_dec t 128); [|tauto]];
        right; (split; [lia|]); (destruct H as (l' & u & E & ?); [tauto|]);
        apply app_inj_tail in E as [-> ->]; done.
Qed.

Lemma serialize_minimal n : - 2 ^ 63 < n < 2 ^ 63 -> scriptnum_minimal (scriptnum_serialize n) = true.
Proof.
  intros Hn. destruct (Z.eq_dec n 0) as [->|]; [done|].
  destruct (serialize_spec n) as (l & t & -> & Hb & _ & _ & _ & H); [done..|].
  by apply minimal_snoc.
Qed.

Lemma serialize_value n : - 2 ^ 63 < n < 2 ^ 63 -> set_vch (scriptnum_serialize n) = n.
Proof.
  intros Hn. destruct (Z.eq_dec n 0) as [->|]; [done|].
  destruct (serialize_spec n) as (l & t & -> & Hb & Hl & Hs & Hd & _); [done..|].
  rewrite set_vch_snoc by done. destruct (t <? 128) eqn:?; symmetry in Hs; zbool; lia.
Qed.

(** A magnitude with top byte below 128 has at least [2^(8(k-1)-1)] unless a byte is wasted. *)
Lemma serialize_length n k :
  - 2 ^ 63 < n < 2 ^ 63 -> (length (scriptnum_serialize n) <= k)%nat <-> - 2 ^ (8 * Z.of_nat k - 1) < n < 2 ^ (8 * Z.of_nat k - 1) \/ n = 0.
Proof.
  intros Hn. destruct (Z.eq_dec n 0) as [->|Hz]; [simpl; split; intros; [by right|lia]|].
  destruct (serialize_spec n) as (l & t & -> & Hb & Hl & Hs & Hd & Hm); [done..|].
  pose proof Hb as [Hbl Hbt]%Forall_app. rewrite Forall_singleton in Hbt. unfold in_u in Hbt.
  rewrite length_app. cbn [length]. rewrite le_decode_snoc in Hd. pose proof (le_decode_range l Hbl) as Hr.
  set (m := if t <? 128 then t else t - 128) in *.
  assert (0 <= m < 128) by (unfold m; case_if; lia).
  set (p := 2 ^ (8 * Z.of_nat (length l))) in *.
  split.
  - intros Hk. left. assert (2 ^ (8 * Z.of_nat k - 1) >= 128 * p) as Hp.
    { unfold p. change 128 with (2 ^ 7). rewrite <- Z.pow_add_r by lia.
      apply Z.le_ge, Z.pow_le_mono_r; lia. }
    assert (Z.abs n < 128 * p) by nia. lia.
  - intros [Hk|?]; [|lia]. destruct (decide (length l + 1 <= k)%nat) as [|Hgt]; [done|exfalso].
    assert (2 ^ (8 * Z.of_nat k - 1) <= Z.abs n); [|lia]. rewrite <- Hd.
    destruct (Z.eq_dec m 0) as [E0|].
    + destruct Hm as (l' & u & -> & Hu).
      { unfold m in E0. destruct (t <? 128) eqn:?; zbool; lia. }
      rewrite le_decode_snoc, length_app in *. cbn [length] in *.
      rewrite Forall_snoc in Hbl. pose proof (le_decode_range l' (proj1 Hbl)).
      transitivity (2 ^ (8 * Z.of_nat (length l')) * 128); [|nia].
      change 128 with (2 ^ 7). destruct (Z.lt_ge_cases (8 * Z.of_nat k - 1) 0).
      { rewrite Z.pow_neg_r by lia. nia. }
      rewrite <- Z.pow_add_r by lia. apply Z.pow_le_mono_r; lia.
    + destruct (Z.lt_ge_cases (8 * Z.of_nat k - 1) 0); [rewrite Z.pow_neg_r by lia; nia|].
      assert (2 ^ (8 * Z.of_nat k - 1) <= p) by (apply Z.pow_le_mono_r; lia). nia.
Qed.

Lemma set_vch_serialize v :
  bytes_ok v -> (length v <= 8)%nat -> scriptnum_minimal v = true ->
  scriptnum_serialize (set_vch v) = v.
Proof.
  intros Hb Hn Hm. destruct v as [|t l _] using rev_ind; [done|].
  pose proof Hb as [Hbl Hbt]%Forall_app. rewrite Forall_singleton in Hbt. unfold in_u in Hbt.
  rewrite minimal_snoc in Hm by done. rewrite set_vch_snoc by done.
  set (m := if t <? 128 then t else t - 128).
  assert (0 <= m < 128) by (unfold m; destruct (t <? 128) eqn:?; zbool; lia).
  assert (bytes_ok (l ++ [m])) as Hbm by (apply Forall_app; split; [done|]; rewrite Forall_singleton; unfold in_u; lia).
  assert (length (l ++ [m]) <= 8)%nat as Hnm by (rewrite !length_app in *; done).
  pose proof (magnitude_bound l m Hbl ltac:(lia) Hnm) as Hbd.
  set (a := le_decode (l ++ [m])) in *.
  assert ((if t <? 128 then le_decode (l ++ [t]) else - le_decode (l ++ [t - 128])) = if t <? 128 then a else - a) as ->
    by (unfold a, m; by destruct (t <? 128)).
  assert (serialize_abs 8 a = (if m =? 0 then l else l ++ [m]) /\ 0 < a) as [Ea Ha].
  { case_if.
    - destruct Hm as (l' & u & El & Hu); [unfold m in *; destruct (t <? 128) eqn:?; zbool; lia|].
      assert (a = le_decode (l' ++ [u])) as ->.
      { unfold a. rewrite le_decode_snoc, <- El. replace m with 0 by lia. lia. }
      rewrite El. rewrite El, Forall_snoc in Hbl. destruct Hbl as [Hbl' Hbu].
      rewrite serialize_abs_decode; [split; [done|]|by rewrite Forall_snoc|lia|].
      + rewrite le_decode_snoc. pose proof (le_decode_range l' Hbl'). nia.
      + rewrite El, !length_app in Hnm. rewrite length_app. simpl in *. lia.
    - unfold a. rewrite serialize_abs_decode; [split; [done|]|done|lia|done].
      rewrite le_decode_snoc. pose proof (le_decode_range l Hbl). nia. }
  unfold scriptnum_serialize.
  assert (((if t <? 128 then a else - a) =? 0) = false) as -> by (apply Z.eqb_neq; case_if; lia).
  assert (u64 (if (if t <? 128 then a else - a) <? 0 then - (if t <? 128 then a else - a)
               else if t <? 128 then a else - a) = a) as ->.
  { destruct (t <? 128); case_if; rewrite wrap_small; unfold in_u; lia. }
  assert (((if t <? 128 then a else - a) <? 0) = negb (t <? 128)) as ->.
  { destruct (t <? 128); cbn [negb]; [apply Z.ltb_ge|apply Z.ltb_lt]; lia. }
  rewrite Ea. unfold m in *. clear Ea. destruct (t <? 128) eqn:Ht; zbool; cbn [negb].
  - destruct (t =? 0) eqn:?; zbool.
    + destruct Hm as (l' & u & -> & Hu); [lia|]. rewrite Forall_snoc in Hbl.
      rewrite back_snoc, land_byte_80 by apply Hbl. rewrite (proj2 (Z.ltb_ge _ _)) by lia. cbn [negb].
      repeat f_equal. lia.
    + rewrite back_snoc, land_byte_80 by (unfold in_u; lia).
      by rewrite (proj2 (Z.ltb_lt _ _)) by lia.
  - destruct (t - 128 =? 0) eqn:?; zbool.
    + destruct Hm as (l' & u & -> & Hu); [lia|]. rewrite Forall_snoc in Hbl.
      rewrite back_snoc, land_byte_80 by apply Hbl. rewrite (proj2 (Z.ltb_ge _ _)) by lia. cbn [negb].
      repeat f_equal. lia.
    + rewrite back_snoc, land_byte_80 by (unfold in_u; lia).
      rewrite (proj2 (Z.ltb_lt _ _)) by lia. cbn [negb]. rewrite or_back_snoc. do 2 f_equal.
      change (Z.lor (t - 128) 128) with (Z.lor (t - 128) (Z.shiftl 1 7)).
      rewrite lor_shiftl_add; lia.
Qed.

(** ** The instruction reader *)

Lemma read_push_size_suffix opcode pc r pc' :
  read_push_size opcode pc = (r, pc') -> exists k, pc = take k pc ++ pc' /\ pc' = drop k pc.
Proof.
  unfold read_push_size. intros H.
  repeat case_if_in H; simplify_eq;
    first [exists 0%nat; by rewrite drop_0 | eexists; by rewrite take_drop].
Qed.

(** Reading one instruction moves the iterator forward, at least over the opcode. *)
Lemma GetOp2_suffix pc : exists k, pcRet (GetOp2 pc) = drop k pc /\ (pc <> [] -> (1 <= k)%nat).
Proof.
  unfold GetOp2. destruct pc as [|o pc]; [by exists 0%nat|].
  case_if.
  - destruct (read_push_size o pc) as [[n|] pc'] eqn:E;
      destruct (read_push_size_suffix _ _ _ _ E) as (k & _ & ->).
    + case_if; cbn [pcRet].
      * exists (S k). split; [done|lia].
      * exists (S (k + Z.to_nat n)). split; [cbn [drop]; by rewrite drop_drop|lia].
    + exists (S k). split; [done|lia].
  - exists 1%nat. done.
Qed.

Lemma GetOp2_shrinks pc : pc <> [] -> (length (pcRet (GetOp2 pc)) < length pc)%nat.
Proof.
  intros H. destruct (GetOp2_suffix pc) as (k & -> & Hk). specialize (Hk H).
  rewrite length_drop. destruct pc; [done|]. simpl. lia.
Qed.

Lemma GetOp2_nil : fRet (GetOp2 []) = false.
Proof. done. Qed.

Lemma GetOp2_nonempty pc : fRet (GetOp2 pc) = true -> pc <> [].
Proof. by destruct pc. Qed.

Lemma GetOp2_split pc : exists hd, pc = hd ++ pcRet (GetOp2 pc) /\ (pc <> [] -> hd <> []).
Proof.
  destruct (GetOp2_suffix pc) as (k & E & Hk). exists (take k pc). rewrite E.
  split; [by rewrite take_drop|]. intros H. specialize (Hk H).
  destruct pc, k; simpl; by try lia.
Qed.

(** An opcode above [OP_PUSHDATA4] is read alone. *)
Lemma GetOp2_opcode o pc :
  OP_PUSHDATA4 < o ->
  GetOp2 (o :: pc) = {| fRet := true; opcodeRet := o; vchRet := []; pcRet := pc |}.
Proof. intros Ho. unfold GetOp2. by rewrite (proj2 (Z.leb_gt _ _)) by done. Qed.

Lemma push_data_app s b : push_data s b = s ++ push_data [] b.
Proof. unfold push_data. repeat case_if; by rewrite <- ?app_assoc. Qed.

(** Every vector pushed by [operator<<] is read back by [GetOp], which stops right after it. *)
Lemma GetOp2_push b rest :
  Z.of_nat (length b) < 2 ^ 32 ->
  exists o, GetOp2 (push_data [] b ++ rest) = {| fRet := true; opcodeRet := o; vchRet := b; pcRet := rest |}
    /\ 0 <= o <= OP_PUSHDATA4.
Proof.
  intros Hb. set (n := Z.of_nat (length b)) in *.
  assert (Htake : forall (o : Z) pc, GetOp2 (o :: pc) =
      if o <=? OP_PUSHDATA4 then
        match read_push_size o pc with
        | (None, pc) => {| fRet := false; opcodeRet := OP_INVALIDOPCODE; vchRet := []; pcRet := pc |}
        | (Some m, pc) => if Z.of_nat (length pc) <? m
            then {| fRet := false; opcodeRet := OP_INVALIDOPCODE; vchRet := []; pcRet := pc |}
            else {| fRet := true; opcodeRet := o; vchRet := take (Z.to_nat m) pc; pcRet := drop (Z.to_nat m) pc |}
        end
      else {| fRet := true; opcodeRet := o; vchRet := []; pcRet := pc |}) by done.
  assert (Hfin : forall o pc, 0 <= o <= OP_PUSHDATA4 -> read_push_size o pc = (Some n, b ++ rest) ->
     exists o', GetOp2 (o :: pc) = {| fRet := true; opcodeRet := o'; vchRet := b; pcRet := rest |}
       /\ 0 <= o' <= OP_PUSHDATA4).
  { intros o pc Ho E. exists o. split; [|done]. rewrite Htake, (proj2 (Z.leb_le _ _)), E by lia.
    rewrite (proj2 (Z.ltb_ge _ _)) by (rewrite length_app; lia).
    unfold n. rewrite Nat2Z.id, take_app_length, drop_app_length. done. }
  unfold push_data. fold n. unfold OP_PUSHDATA1, OP_PUSHDATA2, OP_PUSHDATA4 in *.
  destruct (n <? 76) eqn:H1; [|destruct (n <=? 255) eqn:H2; [|destruct (n <=? 65535) eqn:H3]]; zbool;
    cbn [app]; rewrite <- ?app_assoc; cbn [app]; apply Hfin; try lia.
  - rewrite wrap_small by (unfold in_u; lia). lia.
  - rewrite wrap_small by (unfold in_u; lia). unfold read_push_size.
    by rewrite (proj2 (Z.ltb_lt _ _)) by done.
  - cbn. by rewrite wrap_small by (unfold in_u; lia).
  - unfold read_push_size. cbn [Z.ltb Z.eqb Z.compare OP_PUSHDATA1 OP_PUSHDATA2 Pos.compare Pos.compare_cont Pos.eqb].
    rewrite length_app, le_encode_length. cbn [Nat.ltb Nat.leb Nat.add].
    rewrite take_app_length', drop_app_length' by (by rewrite le_encode_length).
    rewrite le_decode_encode by (change (8 * Z.of_nat 2) with 16; lia). done.
  - unfold read_push_size. cbn [Z.ltb Z.eqb Z.compare OP_PUSHDATA1 OP_PUSHDATA2 Pos.compare Pos.compare_cont Pos.eqb].
    rewrite length_app, le_encode_length. cbn [Nat.ltb Nat.leb Nat.add].
    rewrite take_app_length', drop_app_length' by (by rewrite le_encode_length).
    rewrite le_decode_encode by (change (8 * Z.of_nat 4) with 32; lia). done.
Qed.

(** ** The instructions of a script

    [instrs pc l e]: reading from [pc] yields the instructions [l] (opcode and
    data) and stops at [e], where no instruction can be read ([e] is empty when
    the whole script was read). *)
Inductive instrs : list Z -> list (Z * list Z) -> list Z -> Prop :=
  | instrs_stop pc : fRet (GetOp2 pc) = false -> instrs pc [] pc
  | instrs_step pc l e :
      fRet (GetOp2 pc) = true -> instrs (pcRet (GetOp2 pc)) l e ->
      instrs pc ((opcodeRet (GetOp2 pc), vchRet (GetOp2 pc)) :: l) e.

Lemma instrs_total pc : exists l e, instrs pc l e.
Proof.
  induction pc as [pc IH] using (induction_ltof1 _ length). unfold ltof in IH.
  destruct (fRet (GetOp2 pc)) eqn:E; [|eauto using instrs_stop].
  destruct (IH (pcRet (GetOp2 pc))) as (l & e & H).
  { by apply GetOp2_shrinks, GetOp2_nonempty. }
  eauto using instrs_step.
Qed.

Lemma instrs_fun pc l e l' e' : instrs pc l e -> instrs pc l' e' -> l = l' /\ e = e'.
Proof.
  intros H. revert l' e'. induction H as [|pc l e H Hl IH]; intros l' e' H'; inversion H'; subst; try done; try congruence.
  edestruct IH as [-> ->]; [eassumption|]. done.
Qed.

Lemma instrs_length pc l e : instrs pc l e -> (length l + length e <= length pc)%nat.
Proof.
  induction 1 as [|pc l e H _ IH]; simpl; [lia|].
  pose proof (GetOp2_shrinks pc (GetOp2_nonempty pc H)). lia.
Qed.

(** Signature operations of a list of instructions, without wrap-around. *)
Definition op_sigops (fAccurate : bool) (lastOpcode opcode : Z) : Z :=
  if (opcode =? OP_CHECKSIG) || (opcode =? OP_CHECKSIGVERIFY) then 1
  else if (opcode =? OP_CHECKMULTISIG) || (opcode =? OP_CHECKMULTISIGVERIFY) then
    if fAccurate && (lastOpcode >=? OP_1) && (lastOpcode <=? OP_16) then lastOpcode - (OP_1 - 1)
    else 20
  else 0.

Fixpoint count_sigops (fAccurate : bool) (lastOpcode : Z) (l : list (Z * list Z)) : Z :=
  match l with
  | [] => 0
  | (o, _) :: l => op_sigops fAccurate lastOpcode o + count_sigops fAccurate o l
  end.

Lemma op_sigops_bounds last o :
  0 <= op_sigops true last o <= op_sigops false last o /\ op_sigops false last o <= 20.
Proof.
  unfold op_sigops. unfold OP_1, OP_16.
  destruct ((o =? OP_CHECKSIG) || _); [lia|].
  destruct ((o =? OP_CHECKMULTISIG) || _); [|lia]. cbn [andb].
  destruct ((last >=? 81) && (last <=? 96)) eqn:E; zbool; lia.
Qed.

Lemma count_sigops_bounds last l :
  0 <= count_sigops true last l <= count_sigops false last l
  /\ count_sigops false last l <= 20 * Z.of_nat (length l).
Proof.
  revert last. induction l as [|[o d] l IH]; intros last; simpl count_sigops; simpl length; [lia|].
  pose proof (op_sigops_bounds last o). specialize (IH o). lia.
Qed.

Lemma op_sigops_nonneg acc last o : 0 <= op_sigops acc last o <= 20.
Proof. pose proof (op_sigops_bounds last o). destruct acc; lia. Qed.

Lemma count_sigops_range acc last l : 0 <= count_sigops acc last l <= 20 * Z.of_nat (length l).
Proof. pose proof (count_sigops_bounds last l). destruct acc; lia. Qed.

Lemma DecodeOP_N_small o : OP_1 <= o <= OP_16 -> DecodeOP_N o = Some (o - (OP_1 - 1)).
Proof.
  intros H. unfold DecodeOP_N, OP_0, OP_1, OP_16 in *.
  rewrite (proj2 (Z.eqb_neq _ _)) by lia.
  by rewrite (proj2 (Z.geb_le _ _)), (proj2 (Z.leb_le _ _)) by lia.
Qed.

Lemma sigop_loop_count pc l e :
  instrs pc l e -> forall fuel acc last n,
  (length pc <= fuel)%nat -> 0 <= n -> n + 20 * Z.of_nat (length l) < 2 ^ 32 ->
  sigop_loop fuel acc pc last n = n + count_sigops acc last l.
Proof.
  induction 1 as [pc H|pc l e H Hl IH]; intros fuel acc last n Hf Hn Hb;
    (destruct fuel as [|fuel]; cbn [sigop_loop count_sigops]).
  { lia. }
  { rewrite H. destruct (length pc =? 0)%nat; cbn [negb]; lia. }
  { pose proof (GetOp2_nonempty pc H). destruct pc; simpl in *; [done|lia]. }
  pose proof (GetOp2_nonempty pc H) as Hne.
  rewrite (proj2 (Nat.eqb_neq _ _)) by (destruct pc; [done|simpl; lia]).
  rewrite H. cbn [negb length] in *. set (o := opcodeRet (GetOp2 pc)) in *.
  pose proof (op_sigops_nonneg acc last o).
  match goal with |- sigop_loop _ _ _ _ ?m = _ => assert (m = n + op_sigops acc last o) as -> end.
  { unfold op_sigops in *. destruct ((o =? OP_CHECKSIG) || _); [apply wrap_small; unfold in_u; lia|].
    destruct ((o =? OP_CHECKMULTISIG) || _); [|lia].
    destruct (acc && _ && _) eqn:E; [|apply wrap_small; unfold in_u, MAX_PUBKEYS_PER_MULTISIG; lia].
    zbool. rewrite DecodeOP_N_small by done. apply wrap_small. unfold in_u. unfold default. lia. }
  rewrite IH; [lia| |lia|lia]. pose proof (GetOp2_shrinks pc Hne). lia.
Qed.

Lemma push_only_loop_ok pc l e :
  instrs pc l e -> forall fuel, (length pc <= fuel)%nat ->
  push_only_loop fuel pc = true <-> e = [] /\ Forall (fun op => op.1 <= OP_16) l.
Proof.
  induction 1 as [pc H|pc l e H Hl IH]; intros fuel Hf;
    (destruct fuel as [|fuel]; cbn [push_only_loop]).
  - destruct pc; [|simpl in Hf; lia]. split; auto.
  - destruct pc as [|o pc]; [split; auto|]. rewrite H. cbn. split; [done|]. by intros [? _].
  - pose proof (GetOp2_nonempty pc H). destruct pc; simpl in *; [done|lia].
  - pose proof (GetOp2_nonempty pc H) as Hne.
    rewrite (proj2 (Nat.eqb_neq _ _)) by (destruct pc; [done|simpl; lia]).
    rewrite H. cbn [negb]. rewrite Forall_cons. cbn [fst].
    case_if; [split; [done|lia]|].
    rewrite IH by (pose proof (GetOp2_shrinks pc Hne); lia). tauto.
Qed.

Lemma IsPushOnly_ok pc l e :
  instrs pc l e -> IsPushOnly pc = true <-> e = [] /\ Forall (fun op => op.1 <= OP_16) l.
Proof. intros H. by apply (push_only_loop_ok pc l e). Qed.

Lemma find_loop_ok pc l e :
  instrs pc l e -> forall fuel op n, (length pc <= fuel)%nat ->
  find_loop fuel op pc n = n + Z.of_nat (length (filter (fun i => i.1 = op) l)).
Proof.
  induction 1 as [pc H|pc l e H Hl IH]; intros fuel op n Hf;
    (destruct fuel as [|fuel]; cbn [find_loop]).
  { simpl. lia. }
  { rewrite H. destruct (length pc =? 0)%nat; simpl; lia. }
  { pose proof (GetOp2_nonempty pc H). destruct pc; simpl in *; [done|lia]. }
  pose proof (GetOp2_nonempty pc H) as Hne.
  rewrite (proj2 (Nat.eqb_neq _ _)) by (destruct pc; [done|simpl; lia]).
  rewrite H. cbn [negb]. rewrite IH by (pose proof (GetOp2_shrinks pc Hne); lia).
  rewrite filter_cons. cbn [fst]. destruct (decide _) as [->|Hd].
  - rewrite Z.eqb_refl. simpl length. lia.
  - by rewrite (proj2 (Z.eqb_neq _ _)) by done.
Qed.

(** ** Service prefixes as the services build them

    [CScript() << CScript::EncodeOP_N(service) << CScript::EncodeOP_N(op) << arg ... << OP_2DROP ...] *)
Definition service_prefix (service op : Z) (args : list (list Z)) (drops : list Z) : list Z :=
  [OP_1 + service - 1; OP_1 + op - 1] ++ concat (map (push_data []) args) ++ drops.

(** The operations each service accepts. *)
Definition service_op_ok (service op : Z) : bool :=
  if service =? OP_MINERIUM_ALIAS then IsAliasOp op
  else if service =? OP_MINERIUM_CERT then IsCertOp op
  else if service =? OP_MINERIUM_ESCROW then IsEscrowOp op
  else if service =? OP_MINERIUM_OFFER then IsOfferOp op
  else if (service =? OP_MINERIUM_ASSET) || (service =? OP_MINERIUM_ASSET_ALLOCATION) then IsAssetOp op
  else false.

Lemma service_op_range service op :
  service_op_ok service op = true -> 1 <= service <= 6 /\ 1 <= op <= 9.
Proof.
  unfold service_op_ok, IsAliasOp, IsCertOp, IsEscrowOp, IsOfferOp, IsAssetOp,
    OP_MINERIUM_ALIAS, OP_MINERIUM_CERT, OP_MINERIUM_ESCROW, OP_MINERIUM_OFFER,
    OP_MINERIUM_ASSET, OP_MINERIUM_ASSET_ALLOCATION.
  intros H. split; repeat case_if_in H;
    repeat match goal with H : _ || _ = true |- _ => apply orb_true_iff in H as [H|H] end; zbool; lia.
Qed.

Lemma read_OP_N_ok n pc : 1 <= n <= 16 -> read_OP_N (OP_1 + n - 1 :: pc) = Some (n, pc).
Proof.
  intros Hn. unfold read_OP_N. rewrite GetOp2_opcode by (unfold OP_PUSHDATA4, OP_1; lia).
  cbn [fRet opcodeRet pcRet negb]. rewrite DecodeOP_N_small by (unfold OP_1, OP_16; lia).
  rewrite (proj2 (Z.ltb_ge _ _)) by (unfold OP_1; lia).
  rewrite Z.gtb_ltb, (proj2 (Z.ltb_ge _ _)) by (unfold OP_1, OP_16; lia). cbn. do 2 f_equal. unfold OP_1. lia.
Qed.

Lemma is_drop_opcode d : is_drop d = true -> OP_PUSHDATA4 < d.
Proof.
  unfold is_drop, OP_DROP, OP_2DROP, OP_PUSHDATA4. intros [?|?]%orb_true_iff; zbool; lia.
Qed.

Lemma decode_args_ok args fuel acc d pc :
  Forall (fun a => Z.of_nat (length a) < 2 ^ 32) args -> is_drop d = true ->
  (length args < fuel)%nat ->
  decode_args fuel (concat (map (push_data []) args) ++ d :: pc) acc = Some (acc ++ args, d, pc).
Proof.
  revert fuel acc. induction args as [|a args IH]; intros fuel acc Ha Hd Hf;
    (destruct fuel as [|fuel]; [simpl in Hf; lia|]).
  - cbn [concat map app decode_args]. rewrite GetOp2_opcode by by apply is_drop_opcode.
    cbn [fRet opcodeRet pcRet negb]. by rewrite Hd, app_nil_r.
  - inversion Ha; subst. cbn [map concat]. rewrite <- app_assoc.
    destruct (GetOp2_push a (concat (map (push_data []) args) ++ d :: pc)) as (o & E & Ho); [done|].
    cbn [decode_args]. rewrite E. cbn [fRet opcodeRet vchRet pcRet negb].
    assert (is_drop o = false) as ->.
    { destruct (is_drop o) eqn:Ho'; [|done]. apply is_drop_opcode in Ho'. lia. }
    rewrite (proj2 (Z.geb_le _ _)), (proj2 (Z.leb_le o _)) by lia. cbn [andb negb].
    rewrite IH by (simpl in Hf; auto with lia). by rewrite <- app_assoc.
Qed.

Lemma concat_push_length (args : list (list Z)) :
  (length args <= length (concat (map (push_data []) args)))%nat.
Proof.
  induction args as [|a args IH]; [done|]. cbn [map concat]. rewrite length_app.
  assert (1 <= length (push_data [] a))%nat; [|simpl; lia].
  unfold push_data. repeat case_if; rewrite !length_app; simpl; lia.
Qed.

Lemma skip_drops_ok drops fuel d pc :
  Forall (fun x => is_drop x = true) drops -> is_drop d = true ->
  (length drops < fuel)%nat ->
  skip_drops fuel d (drops ++ pc) =
    (if fRet (GetOp2 pc) then skip_drops (fuel - S (length drops)) (opcodeRet (GetOp2 pc)) (pcRet (GetOp2 pc))
     else pcRet (GetOp2 pc)).
Proof.
  revert fuel d. induction drops as [|x drops IH]; intros fuel d Hx Hd Hf;
    (destruct fuel as [|fuel]; [simpl in Hf; lia|]); cbn [skip_drops app length].
  - rewrite Hd, Nat.sub_succ, Nat.sub_0_r. by destruct (fRet (GetOp2 pc)).
  - inversion Hx; subst. rewrite Hd, GetOp2_opcode by by apply is_drop_opcode.
    cbn [fRet opcodeRet pcRet negb]. rewrite IH by (simpl in Hf; auto with lia). done.
Qed.

Lemma step_back_app l x pc : step_back (l ++ x :: pc) pc = x :: pc.
Proof.
  unfold step_back. replace (length (l ++ x :: pc) - S (length pc))%nat with (length l)
    by (rewrite length_app; simpl; lia).
  apply drop_app_length.
Qed.

(** The decoder on a prefix followed by any script [pc]: what is left is where
    reading one more instruction of [pc] ends, moved back one byte. *)
Lemma decode_service_prefix service isOp op args drops pc :
  1 <= service <= 16 -> 1 <= op <= 16 -> isOp op = true ->
  Forall (fun a => Z.of_nat (length a) < 2 ^ 32) args ->
  drops <> [] -> Forall (fun x => is_drop x = true) drops ->
  fRet (GetOp2 pc) = true -> is_drop (opcodeRet (GetOp2 pc)) = false ->
  decode_service service isOp (service_prefix service op args drops ++ pc) =
    Some (op, args, step_back (service_prefix service op args drops ++ pc) (pcRet (GetOp2 pc))).
Proof.
  intros Hs Hop Hisop Ha Hne Hd Hpc Hndrop. destruct drops as [|d drops]; [done|].
  inversion Hd; subst. unfold decode_service, service_prefix.
  set (script := ([OP_1 + service - 1; OP_1 + op - 1] ++ _ ++ d :: drops) ++ pc).
  assert (script = OP_1 + service - 1 :: OP_1 + op - 1 :: concat (map (push_data []) args) ++ d :: drops ++ pc) as Es.
  { unfold script. by rewrite <- !app_assoc. }
  assert (length args + length drops + 3 <= length script)%nat as Hlen.
  { rewrite Es. pose proof (concat_push_length args). simpl. rewrite !length_app. simpl.
    rewrite length_app. lia. }
  rewrite Es at 1. rewrite read_OP_N_ok by done. cbn [mbind option_bind].
  rewrite Z.eqb_refl. cbn [negb]. rewrite read_OP_N_ok by done. cbn [mbind option_bind].
  rewrite Hisop. cbn [negb]. rewrite decode_args_ok by (done || lia).
  cbn [mbind option_bind app]. rewrite skip_drops_ok by (done || lia). rewrite Hpc.
  destruct (S (length script) - S (length drops))%nat eqn:Ef; [lia|].
  cbn [skip_drops]. by rewrite Hndrop.
Qed.

Lemma decode_service_other service service' isOp op args drops pc :
  1 <= service <= 16 -> service <> service' ->
  decode_service service' isOp (service_prefix service op args drops ++ pc) = None.
Proof.
  intros Hs Hne. unfold decode_service, service_prefix. cbn [app]. rewrite read_OP_N_ok by done.
  cbn [mbind option_bind]. by rewrite (proj2 (Z.eqb_neq _ _)) by done.
Qed.

(** Exactly one of the six decoders accepts a service script. *)
Lemma RemoveMineriumScript_prefix service op args drops pc :
  service_op_ok service op = true ->
  Forall (fun a => Z.of_nat (length a) < 2 ^ 32) args ->
  drops <> [] -> Forall (fun x => is_drop x = true) drops ->
  fRet (GetOp2 pc) = true -> is_drop (opcodeRet (GetOp2 pc)) = false ->
  RemoveMineriumScript (service_prefix service op args drops ++ pc) =
    Some (step_back (service_prefix service op args drops ++ pc) (pcRet (GetOp2 pc))).
Proof.
  intros Hop Ha Hne Hd Hpc Hnd. pose proof (service_op_range _ _ Hop) as [Hs Ho].
  pose proof (fun isOp H => decode_service_prefix service isOp op args drops pc ltac:(lia) ltac:(lia) H Ha Hne Hd Hpc Hnd) as Hyes.
  pose proof (fun s' isOp H => decode_service_other service s' isOp op args drops pc ltac:(lia) H) as Hno.
  unfold RemoveMineriumScript, RemoveAliasScriptPrefix, RemoveOfferScriptPrefix, RemoveCertScriptPrefix,
    RemoveEscrowScriptPrefix, RemoveAssetScriptPrefix, RemoveAssetAllocationScriptPrefix,
    DecodeAliasScript, DecodeOfferScript, DecodeCertScript, DecodeEscrowScript, DecodeAssetScript,
    DecodeAssetAllocationScript, service_op_ok, OP_MINERIUM_ALIAS, OP_MINERIUM_CERT, OP_MINERIUM_ESCROW,
    OP_MINERIUM_OFFER, OP_MINERIUM_ASSET, OP_MINERIUM_ASSET_ALLOCATION in *.
  assert (service = 1 \/ service = 2 \/ service = 3 \/ service = 4 \/ service = 5 \/ service = 6) as E by lia.
  destruct E as [->|[->|[->|[->|[->| ->]]]]]; simpl in Hop;
    rewrite ?Hno by lia; cbn [fmap option_fmap option_map]; by rewrite Hyes by done.
Qed.

(** ** [FindAndDelete] as a relation

    Reading instruction by instruction, every occurrence of [b] that starts at an
    instruction boundary is deleted, and the rest is copied; bytes that do not
    parse are copied as they are. *)
Inductive deleted (b : list Z) : list Z -> list Z -> Z -> Prop :=
  | deleted_stop s :
      ~ b `prefix_of` s -> fRet (GetOp2 s) = false -> deleted b s s 0
  | deleted_match s r n : deleted b s r n -> deleted b (b ++ s) r (n + 1)
  | deleted_copy s hd r n :
      ~ b `prefix_of` s -> fRet (GetOp2 s) = true -> s = hd ++ pcRet (GetOp2 s) ->
      deleted b (pcRet (GetOp2 s)) r n -> deleted b s (hd ++ r) n.

Lemma skip_matches_ok fuel b pc n pc' n' :
  b <> [] -> (length pc <= fuel)%nat -> skip_matches fuel b pc n = (pc', n') ->
  ~ b `prefix_of` pc' /\ (length pc' <= length pc)%nat /\ n <= n'
  /\ (forall r m, deleted b pc' r m -> deleted b pc r (m + (n' - n))).
Proof.
  intros Hb. revert pc n. induction fuel as [|fuel IH]; intros pc n Hf H; cbn [skip_matches] in H.
  - simplify_eq. destruct pc'; [|simpl in Hf; lia]. split_and!; [|lia|lia|].
    + intros [k E]. destruct b; done.
    + intros r m. by rewrite Z.sub_diag, Z.add_0_r.
  - destruct ((_ <=? _)%nat && _) eqn:E.
    + apply andb_true_iff in E as [Hle%Nat.leb_le Et%bool_decide_eq_true].
      destruct (IH (drop (length b) pc) (n + 1)) as (Hnp & Hlen & Hn & Hdel).
      { rewrite length_drop. destruct b; [done|]. simpl in *. lia. }
      { done. }
      rewrite length_drop in Hlen. split_and!; [done|lia|lia|]. intros r m Hr.
      replace (m + (n' - n)) with (m + (n' - (n + 1)) + 1) by lia.
      rewrite <- (take_drop (length b) pc), Et. apply deleted_match. by apply Hdel.
    + simplify_eq. split_and!; [|lia|lia|].
      * intros [k ->]. rewrite length_app, take_app_length in E.
        rewrite (proj2 (Nat.leb_le _ _)), bool_decide_true in E by (done || lia). done.
      * intros r m. by rewrite Z.sub_diag, Z.add_0_r.
Qed.

Lemma fad_loop_ok b fuel pc2 pc hd result n :
  b <> [] -> (length pc <= fuel)%nat -> pc2 = hd ++ pc ->
  exists r m pcE res, fad_loop fuel b pc2 pc result n = (pcE, res, n + m)
    /\ deleted b pc r m /\ 0 <= m /\ res ++ pcE = result ++ hd ++ r.
Proof.
  intros Hb. revert pc2 pc hd result n. induction fuel as [|fuel IH]; intros pc2 pc hd result n Hf ->;
    cbn [fad_loop]; (destruct (skip_matches (length pc) b pc n) as [pc' n'] eqn:E);
    (destruct (skip_matches_ok _ _ _ _ _ _ Hb (le_n _) E) as (Hnp & Hlen & Hn & Hdel));
    rewrite length_app; replace (length hd + length pc - length pc)%nat with (length hd) by lia;
    rewrite take_app_length.
  - assert (pc' = []) as -> by (destruct pc'; [done|simpl in *; lia]).
    exists [], (n' - n), [], (result ++ hd). split_and!; [f_equal; lia| |lia|by rewrite !app_nil_r].
    apply (Hdel [] 0). by apply deleted_stop.
  - destruct (fRet (GetOp2 pc')) eqn:Ef.
    + pose proof (GetOp2_shrinks pc' (GetOp2_nonempty pc' Ef)).
      destruct (GetOp2_split pc') as (hd' & Ehd & _).
      destruct (IH pc' (pcRet (GetOp2 pc')) hd' (result ++ hd) n' ltac:(lia) Ehd)
        as (r & m & pcE & res & -> & Hr & Hm & Eres).
      exists (hd' ++ r), (m + (n' - n)), pcE, res. split_and!; [f_equal; lia| |lia|by rewrite Eres, <- !app_assoc].
      apply Hdel. by apply deleted_copy.
    + exists pc', (n' - n), pc', (result ++ hd). split_and!; [f_equal; lia| |lia|by rewrite <- app_assoc].
      apply (Hdel pc' 0). by apply deleted_stop.
Qed.

Lemma deleted_fun b s r n r' n' :
  b <> [] -> deleted b s r n -> deleted b s r' n' -> r = r' /\ n = n'.
Proof.
  intros Hb H. revert r' n'. induction H as [s Hp Hf|s r n H IH|s hd r n Hp Hf E H IH]; intros r' n' H'.
  - inversion H'; subst; [done| |congruence]. destruct Hp. by eexists.
  - inversion H' as [? Hp|? ? ? H1 E|? ? ? ? Hp]; subst; [destruct Hp; by eexists| |destruct Hp; by eexists].
    apply app_inv_head in E as ->. by destruct (IH _ _ H1) as [-> ->].
  - inversion H' as [|? ? ? H1|? hd' ? ? _ _ E' H1]; subst; [congruence|destruct Hp; by eexists|].
    destruct (IH _ _ H1) as [-> ->]. rewrite E in E' at 1. by apply app_inv_tail in E' as ->.
Qed.

Lemma deleted_length b s r n : deleted b s r n -> Z.of_nat (length s) = Z.of_nat (length r) + n * Z.of_nat (length b).
Proof.
  induction 1 as [|s r n H IH|s hd r n Hp Hf E H IH]; [lia|rewrite length_app; lia|].
  rewrite E at 1. rewrite !length_app. lia.
Qed.

Lemma deleted_zero b s r n : deleted b s r n -> 0 <= n /\ (n = 0 -> r = s).
Proof.
  induction 1 as [|s r n H [IH1 IH2]|s hd r n Hp Hf E H [IH1 IH2]]; [done|lia|].
  split; [done|]. intros ?. by rewrite IH2, <- E.
Qed.

Lemma FindAndDelete_deleted s b :
  b <> [] -> deleted b s (FindAndDelete s b).1 (FindAndDelete s b).2.
Proof.
  intros Hb. unfold FindAndDelete. rewrite (proj2 (Nat.eqb_neq _ _)) by (by destruct b).
  destruct (fad_loop_ok b (length s) s s [] [] 0 Hb (le_n _) eq_refl) as (r & m & pcE & res & -> & Hd & Hm & E).
  cbn [app] in E. rewrite Z.add_0_l. case_if; cbn [fst snd]; [by rewrite E|].
  replace m with 0 in * by lia. destruct (deleted_zero _ _ _ _ Hd) as [_ Hr]. by rewrite Hr in Hd.
Qed.

(** ** Properties *)

(** Script numbers round trip through their canonical encoding.  Encoding an
    integer and decoding it with the minimality check and a limit of [k] bytes
    gives the integer back exactly when its magnitude is below [2^(8k-1)], and is
    an error otherwise; and a byte vector of at most eight bytes that the checked
    decoder accepts is the encoding of the integer it returns, so an integer has
    one accepted encoding. *)
Theorem scriptnum_roundtrip (n : Z) (k : nat) :
  - 2 ^ 63 < n < 2 ^ 63 -> (1 <= k <= 8)%nat ->
  CScriptNum (scriptnum_serialize n) true (Z.of_nat k) =
    (if (- 2 ^ (8 * Z.of_nat k - 1) <? n) && (n <? 2 ^ (8 * Z.of_nat k - 1)) then Some n else None)
  /\ (forall v, bytes_ok v -> CScriptNum v true (Z.of_nat k) = Some n -> scriptnum_serialize n = v).
Proof.
  intros Hn Hk. split.
  - rewrite CScriptNum_unfold, serialize_minimal, serialize_value by done. cbn [andb negb].
    pose proof (serialize_length n k Hn) as Hl. assert (0 < 2 ^ (8 * Z.of_nat k - 1)) by lia.
    destruct ((_ <? n) && _) eqn:E; zbool.
    + rewrite Z.gtb_ltb, (proj2 (Z.ltb_ge _ _)); [done|]. apply inj_le, Hl. lia.
    + rewrite Z.gtb_ltb, (proj2 (Z.ltb_lt _ _)); [done|].
      apply andb_false_iff in E as [E|E]; zbool; apply inj_lt, Nat.nle_gt; rewrite Hl; lia.
  - intros v Hv H. rewrite CScriptNum_unfold in H.
    case_if_in H; [done|]. destruct (scriptnum_minimal v) eqn:Hm; [|done]. cbn in H. simplify_eq.
    apply set_vch_serialize; [done|lia|done].
Qed.

Lemma scriptnum_roundtrip_witness :
  CScriptNum (scriptnum_serialize (-129)) true 4 = Some (-129) /\ scriptnum_serialize (-129) = [0x81; 0x80]
  /\ scriptnum_serialize 255 = [0xff; 0x00].
Proof.
  destruct (scriptnum_roundtrip (-129) 4 ltac:(lia) ltac:(lia)) as [E _]. split_and!; [exact E|reflexivity..].
Defined.

(** A vector pushed onto a script is read back: after any script prefix that
    ends where reading starts, [GetOp] returns the vector pushed by [operator<<]
    and leaves the iterator just behind it, whatever follows. *)
Theorem push_read_roundtrip (s b rest : list Z) :
  Z.of_nat (length b) < 2 ^ 32 ->
  let r := GetOp2 (drop (length s) (push_data s b ++ rest)) in
  fRet r = true /\ vchRet r = b /\ pcRet r = rest.
Proof.
  intros Hb. rewrite push_data_app, <- app_assoc, drop_app_length.
  destruct (GetOp2_push b rest Hb) as (o & -> & _). done.
Qed.

Lemma push_read_roundtrip_witness :
  let r := GetOp2 (drop 1 (push_data [OP_DUP] (replicate 300 7) ++ [OP_EQUAL])) in
  fRet r = true /\ vchRet r = replicate 300 7 /\ pcRet r = [OP_EQUAL].
Proof. exact (push_read_roundtrip [OP_DUP] (replicate 300 7) [OP_EQUAL] ltac:(vm_compute; reflexivity)). Defined.

(** [GetSigOpCount] counts the signature operations of the instructions of the
    script up to the first byte that does not parse, without overflow for scripts
    of less than [2^32/20] bytes; the accurate count never exceeds the legacy one,
    which is at most 20 per byte. *)
Theorem sigop_count_correct (s : list Z) :
  20 * Z.of_nat (length s) < 2 ^ 32 ->
  exists l e, instrs s l e
    /\ (forall fAccurate, GetSigOpCount s fAccurate = count_sigops fAccurate OP_INVALIDOPCODE l)
    /\ 0 <= GetSigOpCount s true <= GetSigOpCount s false
    /\ GetSigOpCount s false <= 20 * Z.of_nat (length s).
Proof.
  intros Hs. destruct (instrs_total s) as (l & e & H). exists l, e.
  pose proof (instrs_length s l e H).
  assert (forall acc, GetSigOpCount s acc = count_sigops acc OP_INVALIDOPCODE l) as E.
  { intros acc. unfold GetSigOpCount. rewrite (sigop_loop_count s l e H) by lia. lia. }
  rewrite !E. pose proof (count_sigops_bounds OP_INVALIDOPCODE l).
  split; [done|]. split; [done|]. lia.
Qed.

Lemma sigop_count_correct_witness :
  GetSigOpCount [OP_1; OP_1 + 2; OP_CHECKMULTISIG] true = 3
  /\ 0 <= GetSigOpCount [OP_1; OP_1 + 2; OP_CHECKMULTISIG] true <= 20.
Proof.
  split; [reflexivity|].
  destruct (sigop_count_correct [OP_1; OP_1 + 2; OP_CHECKMULTISIG] ltac:(vm_compute; reflexivity))
    as (l & e & _ & _ & H & _). exact H.
Defined.

(** [FindAndDelete] deletes exactly the occurrences of a non-empty pattern that
    start at an instruction boundary and copies everything else; it reports how
    many it deleted, the length shrinks by that many patterns, and the result is
    the only one with this description. *)
Theorem FindAndDelete_correct (s b : list Z) :
  b <> [] ->
  deleted b s (FindAndDelete s b).1 (FindAndDelete s b).2
  /\ (forall r n, deleted b s r n -> FindAndDelete s b = (r, n))
  /\ Z.of_nat (length s) =
       Z.of_nat (length (FindAndDelete s b).1) + (FindAndDelete s b).2 * Z.of_nat (length b).
Proof.
  intros Hb. pose proof (FindAndDelete_deleted s b Hb) as H. split_and!; [done| |by apply deleted_length].
  intros r n Hr. destruct (deleted_fun _ _ _ _ _ _ Hb H Hr) as [<- <-]. by destruct (FindAndDelete s b).
Qed.

Lemma FindAndDelete_correct_witness :
  FindAndDelete [0x02; 0xac; 0xac; 0xac; 0x76; 0xac] [0xac] = ([0x02; 0xac; 0xac; 0x76], 2)
  /\ Z.of_nat (length [0x02; 0xac; 0xac; 0xac; 0x76; 0xac]) = 4 + 2 * 1.
Proof.
  split; [reflexivity|].
  apply (FindAndDelete_correct [0x02; 0xac; 0xac; 0xac; 0x76; 0xac] [0xac] ltac:(discriminate)).
Defined.

(** A service prefix put in front of an output script is removed exactly: when
    the output script starts with an opcode above [OP_PUSHDATA4] that is not a drop
    (as pay-to-pubkey-hash and pay-to-script-hash scripts do), [RemoveMineriumScript]
    returns the output script itself, for every service, operation, argument list
    and run of drops. *)
Theorem service_prefix_roundtrip (service op : Z) (args : list (list Z)) (drops : list Z) (o : Z) (rest : list Z) :
  service_op_ok service op = true ->
  Forall (fun a => Z.of_nat (length a) < 2 ^ 32) args ->
  drops <> [] -> Forall (fun x => is_drop x = true) drops ->
  OP_PUSHDATA4 < o -> is_drop o = false ->
  RemoveMineriumScript (service_prefix service op args drops ++ o :: rest) = Some (o :: rest).
Proof.
  intros Hop Ha Hne Hd Ho Hnd.
  rewrite RemoveMineriumScript_prefix by (rewrite ?GetOp2_opcode by done; done).
  rewrite GetOp2_opcode by done. cbn [pcRet]. by rewrite step_back_app.
Qed.

Lemma service_prefix_roundtrip_witness :
  RemoveMineriumScript (service_prefix OP_MINERIUM_ALIAS 2 [[97]; [98; 99]] [OP_2DROP; OP_2DROP]
                        ++ OP_DUP :: [OP_HASH160]) = Some [OP_DUP; OP_HASH160].
Proof.
  apply service_prefix_roundtrip; [reflexivity| |discriminate| |reflexivity|reflexivity];
    repeat constructor.
Defined.

(** In front of an output script that starts with a data push, the prefix is
    not removed exactly: the iterator is moved back by one byte from behind the
    pushed data, not from behind the opcode, so that all of the push but its last
    data byte is lost. *)
Theorem service_prefix_eats_push (service op : Z) (args : list (list Z)) (drops d : list Z) (x : Z) (rest : list Z) :
  service_op_ok service op = true ->
  Forall (fun a => Z.of_nat (length a) < 2 ^ 32) args ->
  drops <> [] -> Forall (fun x => is_drop x = true) drops ->
  Z.of_nat (length (d ++ [x])) < 2 ^ 32 ->
  RemoveMineriumScript (service_prefix service op args drops ++ push_data [] (d ++ [x]) ++ rest)
    = Some (x :: rest).
Proof.
  intros Hop Ha Hne Hd Hl. destruct (GetOp2_push (d ++ [x]) rest Hl) as (o & E & Ho).
  rewrite RemoveMineriumScript_prefix; rewrite ?E; try done.
  - cbn [pcRet]. assert (exists hd, push_data [] (d ++ [x]) = hd ++ [x]) as [hd ->].
    { unfold push_data. rewrite app_assoc. by eexists. }
    rewrite <- (app_assoc hd [x] rest). rewrite (app_assoc (service_prefix _ _ _ _) hd ([x] ++ rest)).
    cbn [app]. by rewrite step_back_app.
  - cbn [opcodeRet]. destruct (is_drop o) eqn:Ho'; [|done]. apply is_drop_opcode in Ho'. lia.
Qed.

Lemma service_prefix_eats_push_witness :
  RemoveMineriumScript (service_prefix OP_MINERIUM_ALIAS 2 [[97]] [OP_2DROP]
    ++ push_data [] (replicate 32 2 ++ [9]) ++ [OP_CHECKSIG]) = Some [9; OP_CHECKSIG]
  /\ IsPayToPublicKey (push_data [] (replicate 32 2 ++ [9]) ++ [OP_CHECKSIG]) = true
  /\ IsPayToPublicKey (service_prefix OP_MINERIUM_ALIAS 2 [[97]] [OP_2DROP]
    ++ push_data [] (replicate 32 2 ++ [9]) ++ [OP_CHECKSIG]) = false.
Proof.
  split; [|split; vm_compute; reflexivity].
  apply service_prefix_eats_push; [reflexivity| |discriminate| |vm_compute; reflexivity];
    repeat constructor.
Defined.
