(* ===== verification/Transaction.v ===== *)
(** * Transactions

    Models [src/src/primitives/transaction.h] and
    [src/src/primitives/transaction.cpp]: the data of a transaction, its value
    out and its size for priority.  A [uint256] is its value as an integer; the
    memory-only [hash] of a transaction is a field, as in the source. *)

From stdpp Require Import gmap.
From S2P Require Import Prelude Amount Script.

Record COutPoint := { op_hash : Z; op_n : Z }.

#[global] Instance COutPoint_eq_dec : EqDecision COutPoint.
Proof. solve_decision. Defined.
#[global] Instance COutPoint_countable : Countable COutPoint.
Proof.
  refine (inj_countable' (fun o => (op_hash o, op_n o)) (fun p => {| op_hash := p.1; op_n := p.2 |}) _).
  by intros [].
Defined.

(** [COutPoint::SetNull] *)
Definition COutPoint_null : COutPoint := {| op_hash := 0; op_n := 2 ^ 32 - 1 |}.
Definition COutPoint_IsNull (o : COutPoint) : bool := (op_hash o =? 0) && (op_n o =? 2 ^ 32 - 1).

Definition SEQUENCE_FINAL : Z := 0xffffffff.
Definition SEQUENCE_LOCKTIME_DISABLE_FLAG : Z := Z.shiftl 1 31.
Definition SEQUENCE_LOCKTIME_TYPE_FLAG : Z := Z.shiftl 1 22.
Definition SEQUENCE_LOCKTIME_MASK : Z := 0x0000ffff.
Definition SEQUENCE_LOCKTIME_GRANULARITY : Z := 9.

Record CTxIn := { prevout : COutPoint; scriptSig : list Z; nSequence : Z }.

Record CTxOut := { nValue : Z; scriptPubKey : list Z; nRounds : Z }.

#[global] Instance CTxIn_eq_dec : EqDecision CTxIn.
Proof. solve_decision. Defined.
#[global] Instance CTxOut_eq_dec : EqDecision CTxOut.
Proof. solve_decision. Defined.

(** [CTxOut(nValueIn, scriptPubKeyIn)], [SetNull] and [IsNull]. *)
Definition CTxOut_make (nValueIn : Z) (scriptPubKeyIn : list Z) : CTxOut :=
  {| nValue := nValueIn; scriptPubKey := scriptPubKeyIn; nRounds := -10 |}.
Definition CTxOut_null : CTxOut := {| nValue := -1; scriptPubKey := []; nRounds := -10 |}.
Definition CTxOut_IsNull (o : CTxOut) : bool := nValue o =? -1.

Record CTransaction := {
  tx_nVersion : Z;
  vin : list CTxIn;
  vout : list CTxOut;
  nLockTime : Z;
  tx_hash : Z;
}.

#[global] Instance CTransaction_eq_dec : EqDecision CTransaction.
Proof. solve_decision. Defined.

(** [CTransaction::CURRENT_VERSION] *)
Definition CURRENT_VERSION : Z := 2.

Definition tx_IsNull (tx : CTransaction) : bool :=
  (length (vin tx) =? 0)%nat && (length (vout tx) =? 0)%nat.

Definition IsCoinBase (tx : CTransaction) : bool :=
  match vin tx with
  | [i] => COutPoint_IsNull (prevout i)
  | _ => false
  end.

(** [GetValueOut]; [None] is the [runtime_error]. *)
Fixpoint value_out_loop (l : list CTxOut) (nValueOut : Z) : option Z :=
  match l with
  | [] => Some nValueOut
  | o :: l =>
      let nValueOut := nValueOut + nValue o in
      if negb (MoneyRange (nValue o)) || negb (MoneyRange nValueOut) then None
      else value_out_loop l nValueOut
  end.

Definition GetValueOut (tx : CTransaction) : option Z := value_out_loop (vout tx) 0.

(** [CalculateModifiedSize(nTxSize)]; [txSize] is [GetSerializeSize] of the transaction. *)
Fixpoint modified_size_loop (l : list CTxIn) (nTxSize : Z) : Z :=
  match l with
  | [] => nTxSize
  | i :: l =>
      let offset := 41 + Z.min 110 (Z.of_nat (length (scriptSig i))) in
      modified_size_loop l (if nTxSize >? offset then nTxSize - offset else nTxSize)
  end.

Definition CalculateModifiedSize (txSize : Z) (tx : CTransaction) (nTxSize : Z) : Z :=
  modified_size_loop (vin tx) (if nTxSize =? 0 then txSize else nTxSize).

(** ** Lemmas *)

Definition sum_values (l : list CTxOut) : Z := foldr (fun o s => nValue o + s) 0 l.

Lemma MoneyRange_iff v : MoneyRange v = true <-> 0 <= v <= MAX_MONEY.
Proof. unfold MoneyRange. rewrite andb_true_iff, Z.geb_le, Z.leb_le. done. Qed.

Lemma value_out_loop_ok l acc v :
  0 <= acc <= MAX_MONEY ->
  value_out_loop l acc = Some v <->
    Forall (fun o => 0 <= nValue o <= MAX_MONEY) l /\ v = acc + sum_values l /\ acc + sum_values l <= MAX_MONEY.
Proof.
  revert acc. induction l as [|o l IH]; intros acc Hacc; cbn [value_out_loop sum_values foldr].
  { split; [intros [= <-]|intros (_ & -> & _); f_equal; lia]. split_and!; [constructor|lia|lia]. }
  fold (sum_values l). rewrite Forall_cons.
  assert (forall l, Forall (fun o => 0 <= nValue o <= MAX_MONEY) l -> 0 <= sum_values l) as Hnn.
  { induction 1; cbn; [lia|]. fold (sum_values l0). lia. }
  destruct (MoneyRange (nValue o)) eqn:E1; cbn [negb orb].
  2:{ apply not_true_iff_false in E1. rewrite MoneyRange_iff in E1. split; [done|tauto]. }
  destruct (MoneyRange (acc + nValue o)) eqn:E2; cbn [negb].
  - rewrite MoneyRange_iff in E1, E2. rewrite IH by lia. split; intros (? & ? & ?); split_and!; try done; try lia; tauto.
  - apply not_true_iff_false in E2. rewrite MoneyRange_iff in E1, E2. split; [done|].
    intros ((_ & Hl) & _ & Hs). specialize (Hnn l Hl). lia.
Qed.

Lemma GetValueOut_ok tx v :
  GetValueOut tx = Some v <->
    Forall (fun o => 0 <= nValue o <= MAX_MONEY) (vout tx) /\ v = sum_values (vout tx) /\ sum_values (vout tx) <= MAX_MONEY.
Proof. apply (value_out_loop_ok (vout tx) 0 v). unfold MAX_MONEY, COIN. lia. Qed.

Lemma IsCoinBase_iff tx : IsCoinBase tx = true <-> exists i, vin tx = [i] /\ COutPoint_IsNull (prevout i) = true.
Proof.
  unfold IsCoinBase. destruct (vin tx) as [|i [|]]; split; try done; try (intros (? & ? & _); done).
  - eauto.
  - by intros (? & [= <-] & ?).
Qed.
