(* ===== verification/Serialize.v ===== *)
(** * Serialization

    Models the formats of [src/src/serialize.h] (compact sizes, variable-length
    integers, vectors) and the serialization of transactions in
    [src/src/primitives/transaction.h].

    Writing returns the bytes; reading takes the bytes of the stream and returns the
    value and the bytes left, [None] being the [std::ios_base::failure] thrown at the
    end of the data or on a malformed value.  Reading a vector in blocks of bounded
    memory, as the code does, reads its elements one after the other. *)

From stdpp Require Import gmap.
From S2P Require Import Prelude Script Transaction.

Definition Reader (A : Type) : Type := list Z -> option (A * list Z).

Definition rd_ret {A} (a : A) : Reader A := fun s => Some (a, s).
Definition rd_bind {A B} (r : Reader A) (f : A -> Reader B) : Reader B :=
  fun s => match r s with Some (a, s) => f a s | None => None end.
Definition rd_fail {A} : Reader A := fun _ => None.

Declare Scope reader_scope.
Delimit Scope reader_scope with reader.
Notation "x <- r ;; k" := (rd_bind r (fun x => k))
  (at level 100, r at next level, right associativity, format "x  <-  r ;;  '/' k") : reader_scope.

(** ** Integers *)

(** [ser_writedata8/16/32/64] and [ser_readdata8/16/32/64], by the number of bytes. *)
Definition ser_writedata (n : nat) (obj : Z) : list Z := le_encode n obj.

Definition ser_readdata (n : nat) : Reader Z :=
  fun s => if (length s <? n)%nat then None else Some (le_decode (take n s), drop n s).

Definition MAX_SIZE : Z := 0x02000000.

Definition GetSizeOfCompactSize (nSize : Z) : Z :=
  if nSize <? 253 then 1
  else if nSize <=? 2 ^ 16 - 1 then 3
  else if nSize <=? 2 ^ 32 - 1 then 5
  else 9.

Definition WriteCompactSize (nSize : Z) : list Z :=
  if nSize <? 253 then ser_writedata 1 nSize
  else if nSize <=? 2 ^ 16 - 1 then ser_writedata 1 253 ++ ser_writedata 2 nSize
  else if nSize <=? 2 ^ 32 - 1 then ser_writedata 1 254 ++ ser_writedata 4 nSize
  else ser_writedata 1 255 ++ ser_writedata 8 nSize.

Definition ReadCompactSize : Reader Z := (
  chSize <- ser_readdata 1 ;;
  nSizeRet <- (if chSize <? 253 then rd_ret chSize
               else if chSize =? 253 then
                 n <- ser_readdata 2 ;; if n <? 253 then rd_fail else rd_ret n
               else if chSize =? 254 then
                 n <- ser_readdata 4 ;; if n <? 0x10000 then rd_fail else rd_ret n
               else
                 n <- ser_readdata 8 ;; if n <? 0x100000000 then rd_fail else rd_ret n) ;;
  if nSizeRet >? MAX_SIZE then rd_fail else rd_ret nSizeRet)%reader.

(** [GetSizeOfVarInt<I>], [WriteVarInt<Stream,I>] and [ReadVarInt<Stream,I>] for an unsigned
    type [I] of [w] bits.  The buffer [tmp] is filled from the low end and written from the
    high end; its size [(w + 6) / 7] is the fuel. *)
Definition varint_max (w : Z) : nat := Z.to_nat ((w + 6) / 7).

Fixpoint varint_size_loop (fuel : nat) (n nRet : Z) : Z :=
  match fuel with
  | O => nRet
  | S f =>
      let nRet := nRet + 1 in
      if n <=? 0x7F then nRet else varint_size_loop f (Z.shiftr n 7 - 1) nRet
  end.

Definition GetSizeOfVarInt (w n : Z) : Z := varint_size_loop (varint_max w) n 0.

Fixpoint varint_groups (fuel : nat) (n len : Z) : list Z :=
  match fuel with
  | O => []
  | S f =>
      let tmp := Z.lor (Z.land n 0x7F) (if negb (len =? 0) then 0x80 else 0x00) in
      if n <=? 0x7F then [tmp] else tmp :: varint_groups f (Z.shiftr n 7 - 1) (len + 1)
  end.

Definition WriteVarInt (w n : Z) : list Z := reverse (varint_groups (varint_max w) n 0).

Fixpoint read_varint_loop (w n : Z) (s : list Z) : option (Z * list Z) :=
  match s with
  | [] => None
  | chData :: s =>
      let n := Z.lor (wrap w (Z.shiftl n 7)) (Z.land chData 0x7F) in
      if negb (Z.land chData 0x80 =? 0) then read_varint_loop w (wrap w (n + 1)) s else Some (n, s)
  end.

Definition ReadVarInt (w : Z) : Reader Z := read_varint_loop w 0.

(** ** Vectors *)

Definition ser_vector {A} (f : A -> list Z) (v : list A) : list Z :=
  WriteCompactSize (Z.of_nat (length v)) ++ concat (map f v).

Fixpoint read_elements {A} (r : Reader A) (n : nat) : Reader (list A) :=
  match n with
  | O => rd_ret []
  | S n => (x <- r ;; l <- read_elements r n ;; rd_ret (x :: l))%reader
  end.

Definition read_vector {A} (r : Reader A) : Reader (list A) := (
  nSize <- ReadCompactSize ;; read_elements r (Z.to_nat nSize))%reader.

(** Vectors of bytes, such as [CScriptBase], are one opaque block. *)
Definition ser_bytes (v : list Z) : list Z := WriteCompactSize (Z.of_nat (length v)) ++ v.

Definition read_block (n : nat) : Reader (list Z) :=
  fun s => if (length s <? n)%nat then None else Some (take n s, drop n s).

Definition read_bytes : Reader (list Z) := (
  nSize <- ReadCompactSize ;; read_block (Z.to_nat nSize))%reader.

(** ** Transactions *)

(** A signed integer of [n] bytes. *)
Definition read_signed (n : nat) : Reader Z := (
  x <- ser_readdata n ;; rd_ret (swrap (8 * Z.of_nat n) x))%reader.

Definition ser_outpoint (o : COutPoint) : list Z := le_encode 32 (op_hash o) ++ ser_writedata 4 (op_n o).

Definition read_outpoint : Reader COutPoint := (
  h <- read_block 32 ;; n <- ser_readdata 4 ;;
  rd_ret {| op_hash := le_decode h; op_n := n |})%reader.

Definition ser_txin (i : CTxIn) : list Z :=
  ser_outpoint (prevout i) ++ ser_bytes (scriptSig i) ++ ser_writedata 4 (nSequence i).

Definition read_txin : Reader CTxIn := (
  p <- read_outpoint ;; sig <- read_bytes ;; q <- ser_readdata 4 ;;
  rd_ret {| prevout := p; scriptSig := sig; nSequence := q |})%reader.

Section Tx.

(** [timeToPrune script]: [GetTimeToPrune] succeeds on the script of a service output;
    [expired script]: [IsSysServiceExpired] of the time it returned. *)
Variable timeToPrune expired : list Z -> bool.

(** The script that [CTxOut::SerializationOp] writes; [getHash] is [SER_GETHASH]. *)
Definition written_script (getHash : bool) (s : list Z) : list Z :=
  if IsUnspendable s && timeToPrune s then
    if getHash || expired s then [OP_RETURN] else s
  else s.

Definition ser_txout (getHash : bool) (o : CTxOut) : list Z :=
  ser_writedata 8 (nValue o) ++ ser_bytes (written_script getHash (scriptPubKey o)).

Definition read_txout : Reader CTxOut := (
  v <- read_signed 8 ;; s <- read_bytes ;; rd_ret (CTxOut_make v s))%reader.

Definition ser_tx (getHash : bool) (tx : CTransaction) : list Z :=
  ser_writedata 4 (tx_nVersion tx) ++ ser_vector ser_txin (vin tx)
  ++ ser_vector (ser_txout getHash) (vout tx) ++ ser_writedata 4 (nLockTime tx).

(** [SerializeHash] of the bytes. *)
Variable Hash : list Z -> Z.

(** [CTransaction(CMutableTransaction&&)]: the hash is computed from the fields. *)
Definition ComputeHash (tx : CTransaction) : Z := Hash (ser_tx true tx).

Definition tx_make (v : Z) (i : list CTxIn) (o : list CTxOut) (l : Z) : CTransaction :=
  let tx := {| tx_nVersion := v; vin := i; vout := o; nLockTime := l; tx_hash := 0 |} in
  {| tx_nVersion := v; vin := i; vout := o; nLockTime := l; tx_hash := ComputeHash tx |}.

Definition read_tx : Reader CTransaction := (
  v <- read_signed 4 ;; i <- read_vector read_txin ;; o <- read_vector read_txout ;; l <- ser_readdata 4 ;;
  rd_ret (tx_make v i o l))%reader.

(** [GetSerializeSize(tx, SER_NETWORK, PROTOCOL_VERSION)] *)
Definition GetSerializeSize (tx : CTransaction) : Z := Z.of_nat (length (ser_tx false tx)).

End Tx.

(** ** Lemmas *)

Lemma rd_bind_ok {A B} (r : Reader A) (f : A -> Reader B) s a s' :
  r s = Some (a, s') -> rd_bind r f s = f a s'.
Proof. intros E. unfold rd_bind. by rewrite E. Qed.

(** [reads r bytes a]: on a stream that starts with [bytes], [r] returns [a] and
    consumes exactly these bytes. *)
Definition reads {A} (r : Reader A) (bytes : list Z) (a : A) : Prop :=
  forall rest, r (bytes ++ rest) = Some (a, rest).

Lemma reads_ret {A} (a : A) : reads (rd_ret a) [] a.
Proof. by intros rest. Qed.

Lemma reads_bind {A B} (r : Reader A) (f : A -> Reader B) b1 b2 a b :
  reads r b1 a -> reads (f a) b2 b -> reads (rd_bind r f) (b1 ++ b2) b.
Proof. intros H1 H2 rest. rewrite <- app_assoc, (rd_bind_ok _ _ _ _ _ (H1 (b2 ++ rest))). apply H2. Qed.

Lemma reads_bind_ret {A B} (r : Reader A) (f : A -> B) b a :
  reads r b a -> reads (rd_bind r (fun x => rd_ret (f x))) b (f a).
Proof. intros H. rewrite <- (app_nil_r b). eapply reads_bind; [exact H|apply reads_ret]. Qed.

Lemma reads_block v : reads (read_block (length v)) v v.
Proof.
  intros rest. unfold read_block. rewrite (proj2 (Nat.ltb_ge _ _)) by (rewrite length_app; lia).
  by rewrite take_app_length, drop_app_length.
Qed.

Lemma reads_data n x : 0 <= x < 2 ^ (8 * Z.of_nat n) -> reads (ser_readdata n) (ser_writedata n x) x.
Proof.
  intros Hx rest. unfold ser_readdata, ser_writedata.
  rewrite (proj2 (Nat.ltb_ge _ _)) by (rewrite length_app, le_encode_length; lia).
  rewrite take_app_length', drop_app_length' by by rewrite le_encode_length.
  by rewrite le_decode_encode.
Qed.

Lemma le_encode_wrap n x : le_encode n x = le_encode n (wrap (8 * Z.of_nat n) x).
Proof.
  revert x. induction n as [|n IH]; intros x; [done|]. cbn [le_encode].
  unfold wrap in *. replace (8 * Z.of_nat (S n)) with (8 + 8 * Z.of_nat n) by lia.
  assert (0 < 2 ^ 8 /\ 0 < 2 ^ (8 * Z.of_nat n)) as [H8 Hn] by lia.
  rewrite Z.pow_add_r by lia. f_equal.
  - rewrite Z.rem_mul_r by lia. rewrite Z.mul_comm, Z.mod_add, Z.mod_mod by lia. done.
  - rewrite IH, (IH (Z.shiftr (_ mod _) 8)). f_equal. rewrite !Z.shiftr_div_pow2 by lia.
    rewrite Z.rem_mul_r by lia. rewrite (Z.mul_comm (2 ^ 8)), Z.div_add by lia.
    rewrite (Z.div_small (x mod _)) by (apply Z.mod_pos_bound; lia).
    rewrite Z.add_0_l, Z.mod_mod by lia. done.
Qed.

Lemma reads_signed n x : (0 < n)%nat -> in_s (8 * Z.of_nat n) x -> reads (read_signed n) (ser_writedata n x) x.
Proof.
  intros Hn Hx. unfold ser_writedata. rewrite le_encode_wrap. unfold read_signed.
  rewrite <- (swrap_small (8 * Z.of_nat n) x) at 2 by (done || lia).
  rewrite <- swrap_wrap by lia.
  apply (reads_bind_ret _ (swrap (8 * Z.of_nat n))). apply reads_data. apply wrap_range. lia.
Qed.

Lemma reads_CompactSize n : 0 <= n <= MAX_SIZE -> reads ReadCompactSize (WriteCompactSize n) n.
Proof.
  unfold MAX_SIZE. intros Hn. unfold ReadCompactSize, WriteCompactSize.
  assert (forall A (x y : A), (if n >? MAX_SIZE then x else y) = y) as Hmax
    by (intros; rewrite Z.gtb_ltb, (proj2 (Z.ltb_ge _ _)); [done|unfold MAX_SIZE; lia]).
  destruct (n <? 253) eqn:H1; [|destruct (n <=? 2 ^ 16 - 1) eqn:H2; [|rewrite (proj2 (Z.leb_le _ _)) by lia]]; zbool.
  - rewrite <- (app_nil_r (ser_writedata 1 n)). eapply reads_bind; [apply reads_data; lia|].
    rewrite (proj2 (Z.ltb_lt _ _)) by lia. eapply (reads_bind _ _ [] []); [apply reads_ret|].
    rewrite Hmax. apply reads_ret.
  - eapply reads_bind; [apply reads_data; lia|]. cbn [Z.ltb Z.eqb Z.compare Pos.compare Pos.compare_cont Pos.eqb].
    rewrite <- (app_nil_r (ser_writedata 2 n)). eapply reads_bind.
    + rewrite <- (app_nil_r (ser_writedata 2 n)). eapply reads_bind; [apply reads_data; lia|].
      rewrite (proj2 (Z.ltb_ge _ _)) by lia. apply reads_ret.
    + rewrite Hmax. apply reads_ret.
  - eapply reads_bind; [apply reads_data; lia|]. cbn [Z.ltb Z.eqb Z.compare Pos.compare Pos.compare_cont Pos.eqb].
    rewrite <- (app_nil_r (ser_writedata 4 n)). eapply reads_bind.
    + rewrite <- (app_nil_r (ser_writedata 4 n)). eapply reads_bind; [apply reads_data; lia|].
      rewrite (proj2 (Z.ltb_ge _ _)) by lia. apply reads_ret.
    + rewrite Hmax. apply reads_ret.
Qed.

Lemma CompactSize_length n : 0 <= n -> Z.of_nat (length (WriteCompactSize n)) = GetSizeOfCompactSize n.
Proof.
  intros. unfold WriteCompactSize, GetSizeOfCompactSize, ser_writedata.
  repeat case_if; rewrite ?length_app, ?le_encode_length; done.
Qed.

Lemma rd_bind_inv {A B} (r : Reader A) (f : A -> Reader B) s b s2 :
  rd_bind r f s = Some (b, s2) -> exists a s1, r s = Some (a, s1) /\ f a s1 = Some (b, s2).
Proof. unfold rd_bind. destruct (r s) as [[a s1]|]; [|done]. eauto. Qed.

(** A reader of integers reads only what the writer writes. *)
Lemma ser_readdata_inv k s n rest :
  bytes_ok s -> ser_readdata k s = Some (n, rest) ->
  s = ser_writedata k n ++ rest /\ 0 <= n < 2 ^ (8 * Z.of_nat k) /\ bytes_ok rest.
Proof.
  intros Hs. unfold ser_readdata. destruct (length s <? k)%nat eqn:El; [done|]. intros [= <- <-]. apply Nat.ltb_ge in El.
  assert (length (take k s) = k) as Elen by (rewrite length_take; lia).
  pose proof (le_decode_range (take k s) ltac:(by apply Forall_take)) as Hr. rewrite Elen in Hr.
  split_and!; [|apply Hr|apply Hr|by apply Forall_drop]. unfold ser_writedata. rewrite <- Elen at 1.
  rewrite le_encode_decode by by apply Forall_take. by rewrite take_drop.
Qed.

Lemma ReadCompactSize_inv s n rest :
  bytes_ok s -> ReadCompactSize s = Some (n, rest) -> s = WriteCompactSize n ++ rest.
Proof.
  intros Hs (ch & s1 & H1 & H)%rd_bind_inv. apply ser_readdata_inv in H1 as (-> & Hch & Hs1); [|done].
  apply rd_bind_inv in H as (m & s2 & H & H2).
  assert (m = n /\ s2 = rest /\ m <= MAX_SIZE) as (-> & -> & Hmax).
  { case_if_in H2; [done|]. injection H2 as -> ->. zbool. done. }
  unfold WriteCompactSize. cbn in Hch.
  destruct (ch <? 253) eqn:E1; [|destruct (ch =? 253) eqn:E2; [|destruct (ch =? 254) eqn:E3]]; zbool.
  { injection H as <- <-. by rewrite (proj2 (Z.ltb_lt _ _)) by lia. }
  all: apply rd_bind_inv in H as (m & s3 & H1 & H); apply ser_readdata_inv in H1 as (-> & Hm & _); [|done].
  all: cbn in Hm; case_if_in H; [done|]; injection H as -> ->.
  all: rewrite (proj2 (Z.ltb_ge _ 253)) by lia.
  - rewrite (proj2 (Z.leb_le _ _)) by lia. by rewrite <- app_assoc, E2.
  - rewrite (proj2 (Z.leb_gt _ _)), (proj2 (Z.leb_le _ _)) by lia. by rewrite <- app_assoc, E3.
  - unfold MAX_SIZE in Hmax. lia.
Qed.

Lemma reads_bytes v : Z.of_nat (length v) <= MAX_SIZE -> reads read_bytes (ser_bytes v) v.
Proof.
  intros Hl. unfold read_bytes, ser_bytes. eapply reads_bind; [apply reads_CompactSize; lia|].
  rewrite Nat2Z.id. apply reads_block.
Qed.

Lemma reads_elements {A} (r : Reader A) (f : A -> list Z) v :
  Forall (fun x => reads r (f x) x) v -> reads (read_elements r (length v)) (concat (map f v)) v.
Proof.
  induction 1 as [|x v Hx Hv IH]; [apply reads_ret|]. cbn [length read_elements map concat].
  eapply reads_bind; [exact Hx|]. apply (reads_bind_ret _ (cons x)), IH.
Qed.

Lemma reads_vector {A} (r : Reader A) (f : A -> list Z) v :
  Z.of_nat (length v) <= MAX_SIZE -> Forall (fun x => reads r (f x) x) v ->
  reads (read_vector r) (ser_vector f v) v.
Proof.
  intros Hl Hv. unfold read_vector, ser_vector. eapply reads_bind; [apply reads_CompactSize; lia|].
  rewrite Nat2Z.id. by apply reads_elements.
Qed.

(** *** Variable-length integers *)

Lemma land_7f n : 0 <= n -> Z.land n 0x7F = n mod 2 ^ 7.
Proof. intros. change 0x7F with (Z.ones 7). apply Z.land_ones. lia. Qed.

Lemma flagged_byte d : 0 <= d < 2 ^ 7 -> Z.lor d 0x80 = d + 128.
Proof. intros. change (Z.lor d 0x80) with (Z.lor d (Z.shiftl 1 7)). rewrite lor_shiftl_add; lia. Qed.

(** One step of the reader on a byte built from the digit [d]. *)
Lemma read_varint_step w acc d (flag : bool) s :
  7 <= w -> 0 <= d < 2 ^ 7 -> 0 <= acc -> acc * 2 ^ 7 + d + (if flag then 1 else 0) < 2 ^ w ->
  read_varint_loop w acc ((if flag then d + 128 else d) :: s) =
    if flag then read_varint_loop w (acc * 2 ^ 7 + d + 1) s else Some (acc * 2 ^ 7 + d, s).
Proof.
  intros Hw Hd Hacc Hlt. cbn [read_varint_loop].
  assert (is_byte (if flag then d + 128 else d)) as Hb by (unfold in_u; destruct flag; lia).
  assert (Z.land (if flag then d + 128 else d) 0x7F = d) as ->.
  { rewrite land_7f by (destruct flag; lia). destruct flag.
    - change 128 with (1 * 2 ^ 7). rewrite Z.mod_add by lia. apply Z.mod_small. lia.
    - apply Z.mod_small. lia. }
  rewrite land_byte_80 by done.
  rewrite Z.shiftl_mul_pow2 by lia. rewrite (wrap_small w (acc * 2 ^ 7)) by (unfold in_u; destruct flag; lia).
  assert (Z.lor (acc * 2 ^ 7) d = acc * 2 ^ 7 + d) as ->.
  { rewrite Z.lor_comm, <- Z.shiftl_mul_pow2, lor_shiftl_add, Z.shiftl_mul_pow2 by lia. lia. }
  destruct flag.
  - rewrite (proj2 (Z.ltb_ge _ _)) by lia. cbn [negb]. by rewrite wrap_small by (unfold in_u; lia).
  - rewrite (proj2 (Z.ltb_lt _ _)) by lia. done.
Qed.

Lemma shiftr7 n : Z.shiftr n 7 = n / 2 ^ 7.
Proof. by rewrite Z.shiftr_div_pow2 by lia. Qed.

Lemma read_varint_groups w fuel n len rest :
  7 <= w -> (1 <= fuel)%nat -> 0 <= n -> n < 2 ^ (7 * Z.of_nat fuel) -> n + 1 < 2 ^ w -> 0 < len ->
  read_varint_loop w 0 (reverse (varint_groups fuel n len) ++ rest) = read_varint_loop w (n + 1) rest.
Proof.
  intros Hw. revert n len rest. induction fuel as [|fuel IH]; intros n len rest H1 Hn Hf Hlt Hlen; [lia|].
  cbn [varint_groups]. rewrite (proj2 (Z.eqb_neq len 0)) by lia. cbn [negb].
  rewrite land_7f by done. pose proof (Z.mod_pos_bound n (2 ^ 7) ltac:(lia)) as Hd.
  rewrite flagged_byte by done. pose proof (Z.div_mod n (2 ^ 7) ltac:(lia)).
  case_if.
  - rewrite reverse_singleton. cbn [app]. rewrite (Z.mod_small n) by lia.
    rewrite (read_varint_step w 0 n true) by lia. f_equal.
  - rewrite reverse_cons, <- app_assoc, shiftr7. cbn [app].
    replace (7 * Z.of_nat (S fuel)) with (7 + 7 * Z.of_nat fuel) in Hf by lia. rewrite Z.pow_add_r in Hf by lia.
    assert (1 <= n / 2 ^ 7 < 2 ^ (7 * Z.of_nat fuel)).
    { split; [apply Z.div_le_lower_bound; lia|apply Z.div_lt_upper_bound; lia]. }
    assert (1 <= fuel)%nat by (destruct fuel; [simpl in *|]; lia).
    rewrite IH by lia. rewrite Z.sub_add.
    rewrite (read_varint_step w (n / 2 ^ 7) (n mod 2 ^ 7) true) by lia. f_equal. lia.
Qed.

Lemma varint_fuel w n : 0 < w -> n < 2 ^ w -> n < 2 ^ (7 * Z.of_nat (varint_max w)).
Proof.
  intros Hw Hn. eapply Z.lt_le_trans; [exact Hn|]. apply Z.pow_le_mono_r; [lia|]. unfold varint_max.
  pose proof (Z.div_mod (w + 6) 7 ltac:(lia)). pose proof (Z.mod_pos_bound (w + 6) 7 ltac:(lia)). lia.
Qed.

Lemma reads_VarInt w n : 7 <= w -> 0 <= n < 2 ^ w -> reads (ReadVarInt w) (WriteVarInt w n) n.
Proof.
  intros Hw Hn rest. unfold ReadVarInt, WriteVarInt.
  pose proof (varint_fuel w n ltac:(lia) ltac:(lia)) as Hf.
  assert (varint_max w <> O) by (unfold varint_max; pose proof (Z.div_le_lower_bound (w + 6) 7 1 ltac:(lia) ltac:(lia)); lia).
  destruct (varint_max w) as [|fuel]; [done|]. cbn [varint_groups Z.eqb negb].
  rewrite Z.lor_0_r, land_7f by lia. pose proof (Z.mod_pos_bound n (2 ^ 7) ltac:(lia)).
  pose proof (Z.div_mod n (2 ^ 7) ltac:(lia)). case_if.
  - rewrite reverse_singleton. cbn [app]. rewrite (Z.mod_small n) by lia.
    rewrite (read_varint_step w 0 n false) by lia. done.
  - rewrite reverse_cons, <- app_assoc, shiftr7. cbn [app].
    replace (7 * Z.of_nat (S fuel)) with (7 + 7 * Z.of_nat fuel) in Hf by lia. rewrite Z.pow_add_r in Hf by lia.
    assert (1 <= n / 2 ^ 7 < 2 ^ (7 * Z.of_nat fuel)).
    { split; [apply Z.div_le_lower_bound; lia|apply Z.div_lt_upper_bound; lia]. }
    assert (1 <= fuel)%nat by (destruct fuel; [simpl in *|]; lia).
    rewrite read_varint_groups by lia. rewrite Z.sub_add.
    rewrite (read_varint_step w (n / 2 ^ 7) (n mod 2 ^ 7) false) by lia. do 2 f_equal. lia.
Qed.

Lemma varint_size_loop_ok fuel n len r :
  varint_size_loop fuel n r = r + Z.of_nat (length (varint_groups fuel n len)).
Proof.
  revert n len r. induction fuel as [|fuel IH]; intros n len r; cbn [varint_size_loop varint_groups]; [simpl; lia|].
  case_if; [simpl; lia|]. rewrite (IH _ (len + 1)). simpl length. lia.
Qed.

Lemma WriteVarInt_length w n : Z.of_nat (length (WriteVarInt w n)) = GetSizeOfVarInt w n.
Proof. unfold WriteVarInt, GetSizeOfVarInt. rewrite length_reverse, (varint_size_loop_ok _ _ 0). lia. Qed.

Lemma varint_groups_length fuel n len : (length (varint_groups fuel n len) <= fuel)%nat.
Proof.
  revert n len. induction fuel as [|fuel IH]; intros n len; cbn [varint_groups]; [done|].
  case_if; simpl; [lia|]. specialize (IH (Z.shiftr n 7 - 1) (len + 1)). lia.
Qed.

(** *** Transactions *)

Definition outpoint_ok (o : COutPoint) : Prop := in_u 256 (op_hash o) /\ in_u 32 (op_n o).
Definition txin_ok (i : CTxIn) : Prop :=
  outpoint_ok (prevout i) /\ Z.of_nat (length (scriptSig i)) <= MAX_SIZE /\ in_u 32 (nSequence i).
Definition txout_ok (o : CTxOut) : Prop :=
  in_s 64 (nValue o) /\ Z.of_nat (length (scriptPubKey o)) <= MAX_SIZE /\ nRounds o = -10.
(** The fields of a transaction fit their types and the vectors fit a message. *)
Definition tx_ok (tx : CTransaction) : Prop :=
  in_s 32 (tx_nVersion tx) /\ Z.of_nat (length (vin tx)) <= MAX_SIZE /\ Z.of_nat (length (vout tx)) <= MAX_SIZE
  /\ Forall txin_ok (vin tx) /\ Forall txout_ok (vout tx) /\ in_u 32 (nLockTime tx).

#[global] Instance outpoint_ok_dec o : Decision (outpoint_ok o).
Proof. unfold outpoint_ok. apply _. Defined.
#[global] Instance txin_ok_dec i : Decision (txin_ok i).
Proof. unfold txin_ok. apply _. Defined.
#[global] Instance txout_ok_dec o : Decision (txout_ok o).
Proof. unfold txout_ok. apply _. Defined.
#[global] Instance tx_ok_dec tx : Decision (tx_ok tx).
Proof. unfold tx_ok. apply _. Defined.

Lemma reads_outpoint o : outpoint_ok o -> reads read_outpoint (ser_outpoint o) o.
Proof.
  intros [Hh Hn]. unfold read_outpoint, ser_outpoint. eapply reads_bind.
  - replace 32%nat with (length (le_encode 32 (op_hash o))) at 1 by apply le_encode_length. apply reads_block.
  - rewrite le_decode_encode by exact Hh. destruct o as [h n]. cbn [op_hash op_n] in *.
    apply (reads_bind_ret _ (fun n => {| op_hash := h; op_n := n |})). by apply reads_data.
Qed.

Lemma reads_txin i : txin_ok i -> reads read_txin (ser_txin i) i.
Proof.
  intros (Ho & Hs & Hq). unfold read_txin, ser_txin. eapply reads_bind; [by apply reads_outpoint|].
  eapply reads_bind; [by apply reads_bytes|]. destruct i as [p g q]. cbn [prevout scriptSig nSequence] in *.
  apply (reads_bind_ret _ (fun q => {| prevout := p; scriptSig := g; nSequence := q |})). by apply reads_data.
Qed.

Section TxLemmas.
Variable timeToPrune expired : list Z -> bool.
Variable Hash : list Z -> Z.

Definition pruned_out (getHash : bool) (o : CTxOut) : CTxOut :=
  CTxOut_make (nValue o) (written_script timeToPrune expired getHash (scriptPubKey o)).

Lemma reads_txout getHash o :
  txout_ok o -> reads read_txout (ser_txout timeToPrune expired getHash o) (pruned_out getHash o).
Proof.
  intros (Hv & Hs & Hr). unfold read_txout, ser_txout. eapply reads_bind; [by apply (reads_signed 8); [lia|]|].
  apply (reads_bind_ret _ (CTxOut_make (nValue o))), reads_bytes.
  unfold written_script. repeat case_if; [simpl; unfold MAX_SIZE; lia|done|done].
Qed.

Lemma reads_vout getHash l :
  Z.of_nat (length l) <= MAX_SIZE -> Forall txout_ok l ->
  reads (read_vector read_txout) (ser_vector (ser_txout timeToPrune expired getHash) l) (map (pruned_out getHash) l).
Proof.
  intros Hl Ho. unfold read_vector, ser_vector. eapply reads_bind; [apply reads_CompactSize; lia|].
  rewrite Nat2Z.id. clear Hl. induction Ho as [|o l Ho Hl IH]; [apply reads_ret|].
  cbn [length read_elements map concat]. eapply reads_bind; [by apply reads_txout|].
  apply (reads_bind_ret _ (cons _)), IH.
Qed.

Lemma reads_tx getHash tx :
  tx_ok tx ->
  reads (read_tx timeToPrune expired Hash) (ser_tx timeToPrune expired getHash tx)
    (tx_make timeToPrune expired Hash (tx_nVersion tx) (vin tx) (map (pruned_out getHash) (vout tx)) (nLockTime tx)).
Proof.
  intros (Hv & Hi & Ho & Hin & Hout & Hl). unfold read_tx, ser_tx.
  eapply reads_bind; [by apply (reads_signed 4); [lia|]|].
  eapply reads_bind; [apply reads_vector; [done|]|].
  { eapply Forall_impl; [exact Hin|]. intros i. apply reads_txin. }
  eapply reads_bind; [by apply reads_vout|].
  apply (reads_bind_ret _ (tx_make _ _ _ _ _ _)). by apply reads_data.
Qed.

Lemma pruned_out_id getHash o :
  nRounds o = -10 -> (IsUnspendable (scriptPubKey o) && timeToPrune (scriptPubKey o) = true ->
                      getHash = false /\ expired (scriptPubKey o) = false) ->
  pruned_out getHash o = o.
Proof.
  intros Hr Hp. unfold pruned_out, written_script, CTxOut_make. destruct o as [v s r]. cbn in *. subst r.
  destruct (IsUnspendable s && timeToPrune s); [|done]. destruct (Hp eq_refl) as [-> ->]. done.
Qed.

(** A written script is at least kept in its first byte: unspendable stays unspendable. *)
Lemma written_script_unspendable getHash s :
  IsUnspendable (written_script timeToPrune expired getHash s) = IsUnspendable s.
Proof. unfold written_script. destruct (IsUnspendable s) eqn:E; cbn [andb]; [|done]. by repeat case_if. Qed.

End TxLemmas.

(** ** What the readers return

    [yields r P]: whatever the bytes of the stream are, a value that [r] returns
    satisfies [P], and the stream left still consists of bytes. *)

Definition yields {A} (r : Reader A) (P : A -> Prop) : Prop :=
  forall s a rest, bytes_ok s -> r s = Some (a, rest) -> P a /\ bytes_ok rest.

Lemma yields_ret {A} (a : A) (P : A -> Prop) : P a -> yields (rd_ret a) P.
Proof. intros Ha s b rest Hs [= <- <-]. done. Qed.

Lemma yields_bind {A B} (r : Reader A) (f : A -> Reader B) P Q :
  yields r P -> (forall a, P a -> yields (f a) Q) -> yields (rd_bind r f) Q.
Proof. intros Hr Hf s b rest Hs (a & s1 & H1 & H2)%rd_bind_inv. apply Hr in H1 as [Ha H1]; [|done]. by eapply Hf. Qed.

Lemma yields_fail {A} (P : A -> Prop) : yields rd_fail P.
Proof. by intros s a rest _ ?. Qed.

Lemma yields_data n : yields (ser_readdata n) (in_u (8 * Z.of_nat n)).
Proof. intros s a rest Hs H. apply ser_readdata_inv in H as (_ & Ha & Hr); [|done]. done. Qed.

Lemma yields_signed n : (0 < n)%nat -> yields (read_signed n) (in_s (8 * Z.of_nat n)).
Proof. intros Hn. eapply yields_bind; [apply yields_data|]. intros a _. apply yields_ret, swrap_range. lia. Qed.

Lemma yields_block n : yields (read_block n) (fun b => bytes_ok b /\ length b = n).
Proof.
  intros s a rest Hs. unfold read_block. destruct (length s <? n)%nat eqn:E; [done|]. intros [= <- <-].
  apply Nat.ltb_ge in E. rewrite length_take. split_and!; [by apply Forall_take|lia|by apply Forall_drop].
Qed.

Lemma yields_CompactSize : yields ReadCompactSize (fun n => 0 <= n <= MAX_SIZE).
Proof.
  eapply yields_bind; [apply (yields_data 1)|]. intros ch Hch.
  eapply (yields_bind _ _ (fun n => 0 <= n)).
  - repeat case_if; [apply yields_ret; unfold in_u in Hch; lia|..].
    all: eapply yields_bind; [apply yields_data|]; intros n Hn; case_if; [apply yields_fail|apply yields_ret; unfold in_u in Hn; lia].
  - intros n Hn. case_if; [apply yields_fail|apply yields_ret; lia].
Qed.

Lemma yields_elements {A} (r : Reader A) P n :
  yields r P -> yields (read_elements r n) (fun l => Forall P l /\ length l = n).
Proof.
  intros Hr. induction n as [|n IH]; [apply yields_ret; by split|]. cbn [read_elements].
  eapply yields_bind; [exact Hr|]. intros a Ha. eapply yields_bind; [exact IH|]. intros l [Hl El].
  apply yields_ret. split; [by constructor|]. cbn. by rewrite El.
Qed.

Lemma yields_vector {A} (r : Reader A) P :
  yields r P -> yields (read_vector r) (fun l => Forall P l /\ Z.of_nat (length l) <= MAX_SIZE).
Proof.
  intros Hr. eapply yields_bind; [apply yields_CompactSize|]. intros n [Hn0 Hn] s l rest Hs H.
  apply (yields_elements _ P) in H as [[Hl El] Hrest]; [|done..]. split_and!; [done|lia|done].
Qed.

Lemma yields_bytes : yields read_bytes (fun b => bytes_ok b /\ Z.of_nat (length b) <= MAX_SIZE).
Proof.
  eapply yields_bind; [apply yields_CompactSize|]. intros n [Hn0 Hn] s l rest Hs H.
  apply yields_block in H as [[Hl El] Hrest]; [|done]. split_and!; [done|lia|done].
Qed.

Lemma yields_outpoint : yields read_outpoint outpoint_ok.
Proof.
  eapply yields_bind; [apply yields_block|]. intros b [Hb Eb]. eapply yields_bind; [apply (yields_data 4)|].
  intros n Hn. apply yields_ret. split; [|done]. cbn. unfold in_u. pose proof (le_decode_range b Hb) as Hr. rewrite Eb in Hr. exact Hr.
Qed.

Lemma yields_txin : yields read_txin txin_ok.
Proof.
  eapply yields_bind; [apply yields_outpoint|]. intros o Ho. eapply yields_bind; [apply yields_bytes|]. intros b [_ Hb].
  eapply yields_bind; [apply (yields_data 4)|]. intros n Hn. by apply yields_ret.
Qed.

Lemma yields_txout : yields read_txout txout_ok.
Proof.
  eapply yields_bind; [by apply (yields_signed 8); lia|]. intros v Hv. eapply yields_bind; [apply yields_bytes|]. intros b [_ Hb].
  by apply yields_ret.
Qed.

Lemma yields_tx timeToPrune expired Hash :
  yields (read_tx timeToPrune expired Hash) (fun tx => tx_ok tx /\ tx_hash tx = ComputeHash timeToPrune expired Hash tx).
Proof.
  eapply yields_bind; [by apply (yields_signed 4); lia|]. intros v Hv.
  eapply yields_bind; [apply yields_vector, yields_txin|]. intros i [Hi Li].
  eapply yields_bind; [apply yields_vector, yields_txout|]. intros o [Ho Lo].
  eapply yields_bind; [apply (yields_data 4)|]. intros l Hl. apply yields_ret. by split_and!.
Qed.

(** ** Properties *)

(** Variable-length integers of any unsigned width from 7 bits on round trip:
    reading what was written returns the integer and stops right behind it; the
    writer's buffer of [(w + 6) / 7] bytes is never overrun, and [GetSizeOfVarInt] is
    the number of bytes written. *)
Theorem varint_roundtrip (w n : Z) (rest : list Z) :
  7 <= w -> 0 <= n < 2 ^ w ->
  ReadVarInt w (WriteVarInt w n ++ rest) = Some (n, rest)
  /\ (length (WriteVarInt w n) <= varint_max w)%nat
  /\ Z.of_nat (length (WriteVarInt w n)) = GetSizeOfVarInt w n.
Proof.
  intros Hw Hn. split_and!; [by apply reads_VarInt| |apply WriteVarInt_length].
  unfold WriteVarInt. rewrite length_reverse. apply varint_groups_length.
Qed.

Lemma varint_roundtrip_witness :
  ReadVarInt 64 (WriteVarInt 64 (2 ^ 32) ++ [7]) = Some (2 ^ 32, [7])
  /\ WriteVarInt 64 (2 ^ 32) = [0x8E; 0xFE; 0xFE; 0xFF; 0x00].
Proof. split; [apply (varint_roundtrip 64 (2 ^ 32) [7]); lia|vm_compute; reflexivity]. Defined.

(** Compact sizes round trip up to [MAX_SIZE] and take the announced number of
    bytes, and the reader accepts only the shortest form: whatever it reads is what
    the writer would have written. *)
Theorem compact_size_roundtrip (n : Z) (s rest : list Z) :
  0 <= n <= MAX_SIZE -> bytes_ok s ->
  ReadCompactSize (WriteCompactSize n ++ rest) = Some (n, rest)
  /\ Z.of_nat (length (WriteCompactSize n)) = GetSizeOfCompactSize n
  /\ (ReadCompactSize s = Some (n, rest) -> s = WriteCompactSize n ++ rest).
Proof.
  intros Hn Hs. split_and!; [by apply reads_CompactSize|by apply CompactSize_length; lia|].
  intros H. by apply ReadCompactSize_inv.
Qed.

Lemma compact_size_roundtrip_witness :
  ReadCompactSize (WriteCompactSize 70000 ++ [1]) = Some (70000, [1]) /\ ReadCompactSize [253; 10; 0] = None.
Proof.
  split; [|reflexivity]. apply (compact_size_roundtrip 70000 [] [1]); [unfold MAX_SIZE; lia|constructor].
Defined.

(** A transaction whose fields fit their types is read back from its network
    serialization, with the hash of its contents, and nothing behind it is consumed,
    provided that none of its service outputs has expired; an expired service output
    comes back with the single byte [OP_RETURN] as its script.  The transaction hash is
    that of the transaction with every service output replaced in this way. *)
Theorem tx_roundtrip (timeToPrune expired : list Z -> bool) (Hash : list Z -> Z) (tx : CTransaction) (rest : list Z) :
  tx_ok tx ->
  let read := read_tx timeToPrune expired Hash (ser_tx timeToPrune expired false tx ++ rest) in
  let prune o := if IsUnspendable (scriptPubKey o) && timeToPrune (scriptPubKey o) && expired (scriptPubKey o)
                 then CTxOut_make (nValue o) [OP_RETURN] else o in
  (exists tx', read = Some (tx', rest) /\ vin tx' = vin tx /\ vout tx' = map prune (vout tx)
     /\ tx_nVersion tx' = tx_nVersion tx /\ nLockTime tx' = nLockTime tx)
  /\ (Forall (fun o => prune o = o) (vout tx) -> tx_hash tx = ComputeHash timeToPrune expired Hash tx ->
      read = Some (tx, rest)).
Proof.
  intros Hok read prune.
  assert (map (pruned_out timeToPrune expired false) (vout tx) = map prune (vout tx)) as Ep.
  { destruct Hok as (_ & _ & _ & _ & Hout & _). apply map_ext_Forall. eapply Forall_impl; [exact Hout|].
    intros o (_ & _ & Hr). unfold prune, pruned_out, written_script, CTxOut_make. destruct o as [v s r]. cbn in *. subst r.
    destruct (IsUnspendable s && timeToPrune s); [|done]. cbn. by destruct (expired s). }
  pose proof (reads_tx timeToPrune expired Hash false tx Hok rest) as E. rewrite Ep in E. fold read in E.
  split; [by eexists|]. intros Hall Hh. rewrite E.
  assert (map prune (vout tx) = vout tx) as ->.
  { clear -Hall. induction Hall as [|o l Ho Hl IH]; [done|]. cbn. by rewrite Ho, IH. }
  do 2 f_equal. destruct tx as [v i o l h]. cbn in *. unfold tx_make. f_equal. rewrite Hh.
  unfold ComputeHash, ser_tx. done.
Qed.

Definition toy_service_tx : CTransaction :=
  tx_make (fun _ => true) (fun _ => false) (fun s => Z.of_nat (length s)) 2
    [{| prevout := {| op_hash := 5; op_n := 1 |}; scriptSig := [1; 2]; nSequence := SEQUENCE_FINAL |}]
    [CTxOut_make 10 [0x51]; CTxOut_make 0 [OP_RETURN; 3; 1; 2; 3]] 0.

Lemma tx_roundtrip_witness :
  read_tx (fun _ => true) (fun _ => false) (fun s => Z.of_nat (length s))
    (ser_tx (fun _ => true) (fun _ => false) false toy_service_tx ++ [99]) = Some (toy_service_tx, [99]).
Proof.
  apply (tx_roundtrip (fun _ => true) (fun _ => false) (fun s => Z.of_nat (length s)) toy_service_tx [99]).
  - apply (bool_decide_unpack (tx_ok toy_service_tx)). vm_compute. exact I.
  - repeat constructor.
  - reflexivity.
Defined.
