(* ===== verification/Coins.v ===== *)
(** * The coins view: caches over the set of unspent outputs

    Models [src/src/coins.h], [src/src/coins.cpp], the coins database of
    [src/src/txdb.cpp], and the functions of [src/src/validation.cpp] that connect
    and disconnect transactions on a coins view ([UpdateCoins], [ApplyTxInUndo],
    and the UTXO part of [ConnectBlock] and [DisconnectBlock]).

    The virtual class [CCoinsView] is a type class of operations.  Its methods are
    [const] in C++ but fill caches, so that here they return the new view.  The
    laws a view must obey are a second class, stated against the abstract set of
    unspent outputs [view_utxo]; the database obeys them, and a cache over any view
    that obeys them obeys them too, so that the laws hold for every stack of caches.

    A thrown exception or a failed [assert] is [None]. *)

From stdpp Require Import gmap fin_maps.
From S2P Require Import Prelude Amount Script Transaction.

(** ** Coins *)

Record Coin := { out : CTxOut; fCoinBase : bool; coin_nHeight : Z }.

#[global] Instance Coin_eq_dec : EqDecision Coin.
Proof. solve_decision. Defined.

(** [Coin(outIn, nHeightIn, fCoinBaseIn)]: the height is kept in 31 bits. *)
Definition Coin_make (outIn : CTxOut) (nHeightIn : Z) (fCoinBaseIn : bool) : Coin :=
  {| out := outIn; fCoinBase := fCoinBaseIn; coin_nHeight := wrap 31 nHeightIn |}.

(** [Coin()] and the result of [Clear()]. *)
Definition coinEmpty : Coin := {| out := CTxOut_null; fCoinBase := false; coin_nHeight := 0 |}.

Definition IsSpent (c : Coin) : bool := CTxOut_IsNull (out c).

(** [memusage::MallocUsage] with 64-bit pointers. *)
Definition MallocUsage (alloc : Z) : Z :=
  if alloc =? 0 then 0 else Z.shiftl (Z.shiftr (alloc + 31) 4) 4.

(** [Coin::DynamicMemoryUsage]: a script of at most 28 bytes is stored in place; a
    copied or deserialized [prevector] has the capacity of its size. *)
Definition DynamicMemoryUsage (c : Coin) : Z :=
  let n := Z.of_nat (length (scriptPubKey (out c))) in
  MallocUsage (if n <=? 28 then 0 else n).

Record CCoinsCacheEntry := { coin : Coin; flags : Z }.
Definition DIRTY : Z := Z.shiftl 1 0.
Definition FRESH : Z := Z.shiftl 1 1.

Definition has_flag (f mask : Z) : bool := negb (Z.land f mask =? 0).

Abbreviation CCoinsMap := (gmap COutPoint CCoinsCacheEntry).

(** ** Views *)

Class CCoinsView (V : Type) := {
  view_GetCoin : COutPoint -> V -> option Coin * V;
  view_GetBestBlock : V -> Z * V;
  (** The map is the sequence of its entries in iteration order. *)
  view_BatchWrite : list (COutPoint * CCoinsCacheEntry) -> Z -> V -> option (bool * V);
}.

(** [CCoinsView::HaveCoin] and [CCoinsViewBacked::HaveCoin]. *)
Definition view_HaveCoin {V} `{CCoinsView V} (outpoint : COutPoint) (v : V) : bool * V :=
  let '(r, v) := view_GetCoin outpoint v in (bool_decide (is_Some r), v).

(** ** The coins database *)

Record CCoinsViewDB := { db_coins : gmap COutPoint Coin; db_best : Z }.

Definition db_GetCoin (outpoint : COutPoint) (v : CCoinsViewDB) : option Coin * CCoinsViewDB :=
  (db_coins v !! outpoint, v).

(** The loop that collects erasures and writes in a [CDBBatch]. *)
Definition db_apply_entry (m : gmap COutPoint Coin) (x : COutPoint * CCoinsCacheEntry) : gmap COutPoint Coin :=
  if has_flag (flags x.2) DIRTY then
    if IsSpent (coin x.2) then delete x.1 m else <[x.1 := coin x.2]> m
  else m.

Definition db_BatchWrite (mapCoins : list (COutPoint * CCoinsCacheEntry)) (hashBlock : Z) (v : CCoinsViewDB)
  : option (bool * CCoinsViewDB) :=
  Some (true, {| db_coins := foldl db_apply_entry (db_coins v) mapCoins;
                 db_best := if negb (hashBlock =? 0) then hashBlock else db_best v |}).

#[global] Instance CCoinsViewDB_view : CCoinsView CCoinsViewDB := {
  view_GetCoin := db_GetCoin;
  view_GetBestBlock v := (db_best v, v);
  view_BatchWrite := db_BatchWrite;
}.

(** ** The cache *)

Record CCoinsViewCache (V : Type) := {
  base : V;
  hashBlock : Z;
  cacheCoins : CCoinsMap;
  cachedCoinsUsage : Z;
}.
Arguments base {V} _. Arguments hashBlock {V} _.
Arguments cacheCoins {V} _. Arguments cachedCoinsUsage {V} _.

Section Cache.
Context {V : Type} `{CCoinsView V}.
Abbreviation cache := (CCoinsViewCache V).

(** [CCoinsViewCache(CCoinsView *baseIn)] *)
Definition CCoinsViewCache_make (baseIn : V) : cache :=
  {| base := baseIn; hashBlock := 0; cacheCoins := ∅; cachedCoinsUsage := 0 |}.

Definition set_coins (c : cache) (m : CCoinsMap) (u : Z) : cache :=
  {| base := base c; hashBlock := hashBlock c; cacheCoins := m; cachedCoinsUsage := u64 u |}.

(** [FetchCoin]: the entry, if any, and the cache with the entry loaded. *)
Definition FetchCoin (outpoint : COutPoint) (c : cache) : option CCoinsCacheEntry * cache :=
  match cacheCoins c !! outpoint with
  | Some e => (Some e, c)
  | None =>
      let '(r, b) := view_GetCoin outpoint (base c) in
      let c := {| base := b; hashBlock := hashBlock c; cacheCoins := cacheCoins c;
                  cachedCoinsUsage := cachedCoinsUsage c |} in
      match r with
      | None => (None, c)
      | Some tmp =>
          let ret := {| coin := tmp; flags := if IsSpent tmp then FRESH else 0 |} in
          (Some ret, set_coins c (<[outpoint := ret]> (cacheCoins c))
                               (cachedCoinsUsage c + DynamicMemoryUsage (coin ret)))
      end
  end.

(** [GetCoin]: [Some] when true is returned. *)
Definition GetCoin (outpoint : COutPoint) (c : cache) : option Coin * cache :=
  let '(it, c) := FetchCoin outpoint c in
  match it with
  | Some e => (if IsSpent (coin e) then None else Some (coin e), c)
  | None => (None, c)
  end.

Definition AddCoin (outpoint : COutPoint) (coin_ : Coin) (possible_overwrite : bool) (c : cache) : option cache :=
  if IsSpent coin_ then None
  else if IsUnspendable (scriptPubKey (out coin_)) then Some c
  else
    let it := default {| coin := coinEmpty; flags := 0 |} (cacheCoins c !! outpoint) in
    let usage := if bool_decide (is_Some (cacheCoins c !! outpoint))
                 then u64 (cachedCoinsUsage c - DynamicMemoryUsage (coin it))
                 else cachedCoinsUsage c in
    if negb possible_overwrite && negb (IsSpent (coin it)) then None
    else
      let fresh := if possible_overwrite then false else negb (has_flag (flags it) DIRTY) in
      let it := {| coin := coin_;
                   flags := Z.lor (flags it) (Z.lor DIRTY (if fresh then FRESH else 0)) |} in
      Some (set_coins c (<[outpoint := it]> (cacheCoins c)) (usage + DynamicMemoryUsage (coin it))).

(** [SpendCoin]: the value returned, the coin moved to [*moveout], the cache. *)
Definition SpendCoin (outpoint : COutPoint) (c : cache) : bool * Coin * cache :=
  let '(it, c) := FetchCoin outpoint c in
  match it with
  | None => (false, coinEmpty, c)
  | Some e =>
      let usage := cachedCoinsUsage c - DynamicMemoryUsage (coin e) in
      let moveout := coin e in
      if has_flag (flags e) FRESH then (true, moveout, set_coins c (delete outpoint (cacheCoins c)) usage)
      else
        let e := {| coin := coinEmpty; flags := Z.lor (flags e) DIRTY |} in
        (true, moveout, set_coins c (<[outpoint := e]> (cacheCoins c)) usage)
  end.

Definition AccessCoin (outpoint : COutPoint) (c : cache) : Coin * cache :=
  let '(it, c) := FetchCoin outpoint c in
  match it with None => (coinEmpty, c) | Some e => (coin e, c) end.

Definition HaveCoin (outpoint : COutPoint) (c : cache) : bool * cache :=
  let '(it, c) := FetchCoin outpoint c in
  (match it with None => false | Some e => negb (IsSpent (coin e)) end, c).

Definition HaveCoinInCache (outpoint : COutPoint) (c : cache) : bool :=
  match cacheCoins c !! outpoint with None => false | Some e => negb (IsSpent (coin e)) end.

Definition GetBestBlock (c : cache) : Z * cache :=
  if hashBlock c =? 0 then
    let '(h, b) := view_GetBestBlock (base c) in
    (h, {| base := b; hashBlock := h; cacheCoins := cacheCoins c; cachedCoinsUsage := cachedCoinsUsage c |})
  else (hashBlock c, c).

Definition SetBestBlock (hashBlockIn : Z) (c : cache) : cache :=
  {| base := base c; hashBlock := hashBlockIn; cacheCoins := cacheCoins c; cachedCoinsUsage := cachedCoinsUsage c |}.

(** One iteration of [BatchWrite]: the child's entry [x] meets this cache. *)
Definition batch_entry (x : COutPoint * CCoinsCacheEntry) (c : cache) : option cache :=
  let '(k, it) := x in
  if has_flag (flags it) DIRTY then
    match cacheCoins c !! k with
    | None =>
        if negb (has_flag (flags it) FRESH && IsSpent (coin it)) then
          let entry := {| coin := coin it;
                          flags := if has_flag (flags it) FRESH then Z.lor DIRTY FRESH else DIRTY |} in
          Some (set_coins c (<[k := entry]> (cacheCoins c)) (cachedCoinsUsage c + DynamicMemoryUsage (coin entry)))
        else Some c
    | Some itUs =>
        if has_flag (flags it) FRESH && negb (IsSpent (coin itUs)) then None
        else if has_flag (flags itUs) FRESH && IsSpent (coin it) then
          Some (set_coins c (delete k (cacheCoins c)) (cachedCoinsUsage c - DynamicMemoryUsage (coin itUs)))
        else
          let itUs' := {| coin := coin it; flags := Z.lor (flags itUs) DIRTY |} in
          Some (set_coins c (<[k := itUs']> (cacheCoins c))
                  (u64 (cachedCoinsUsage c - DynamicMemoryUsage (coin itUs)) + DynamicMemoryUsage (coin itUs')))
    end
  else Some c.

Fixpoint batch_loop (l : list (COutPoint * CCoinsCacheEntry)) (c : cache) : option cache :=
  match l with
  | [] => Some c
  | x :: l => c ← batch_entry x c; batch_loop l c
  end.

Definition BatchWrite (mapCoins : list (COutPoint * CCoinsCacheEntry)) (hashBlockIn : Z) (c : cache)
  : option (bool * cache) :=
  c ← batch_loop mapCoins c;
  Some (true, SetBestBlock hashBlockIn c).

(** [Flush] *)
Definition Flush (c : cache) : option (bool * cache) :=
  '(fOk, b) ← view_BatchWrite (map_to_list (cacheCoins c)) (hashBlock c) (base c);
  Some (fOk, {| base := b; hashBlock := hashBlock c; cacheCoins := ∅; cachedCoinsUsage := 0 |}).

Definition Uncache (outpoint : COutPoint) (c : cache) : cache :=
  match cacheCoins c !! outpoint with
  | Some e => if flags e =? 0
              then set_coins c (delete outpoint (cacheCoins c)) (cachedCoinsUsage c - DynamicMemoryUsage (coin e))
              else c
  | None => c
  end.

Definition GetCacheSize (c : cache) : Z := Z.of_nat (size (cacheCoins c)).

(** [GetValueIn] *)
Fixpoint value_in_loop (l : list CTxIn) (nResult : Z) (c : cache) : Z * cache :=
  match l with
  | [] => (nResult, c)
  | i :: l => let '(co, c) := AccessCoin (prevout i) c in
              value_in_loop l (nResult + nValue (out co)) c
  end.

Definition GetValueIn (tx : CTransaction) (c : cache) : Z * cache :=
  if IsCoinBase tx then (0, c) else value_in_loop (vin tx) 0 c.

(** [HaveInputs] *)
Fixpoint have_inputs_loop (l : list CTxIn) (c : cache) : bool * cache :=
  match l with
  | [] => (true, c)
  | i :: l => let '(h, c) := HaveCoin (prevout i) c in
              if h then have_inputs_loop l c else (false, c)
  end.

Definition HaveInputs (tx : CTransaction) (c : cache) : bool * cache :=
  if IsCoinBase tx then (true, c) else have_inputs_loop (vin tx) c.

(** [AddCoins] *)
Fixpoint add_coins_loop (l : list CTxOut) (txid : Z) (i nHeight : Z) (fCoinbase : bool) (c : cache) : option cache :=
  match l with
  | [] => Some c
  | o :: l =>
      c ← AddCoin {| op_hash := txid; op_n := i |} (Coin_make o nHeight fCoinbase) fCoinbase c;
      add_coins_loop l txid (i + 1) nHeight fCoinbase c
  end.

Definition AddCoins (tx : CTransaction) (nHeight : Z) (c : cache) : option cache :=
  add_coins_loop (vout tx) (tx_hash tx) 0 nHeight (IsCoinBase tx) c.

(** [MaxBlockSize(true) / GetSerializeSize(CTxOut())]: an empty output takes nine bytes. *)
Definition MAX_OUTPUTS_PER_BLOCK : Z := 10 * 1000 * 1000 / 9.

Fixpoint access_by_txid_loop (fuel : nat) (txid n : Z) (c : cache) : Coin * cache :=
  match fuel with
  | O => (coinEmpty, c)
  | S f =>
      let '(alternate, c) := AccessCoin {| op_hash := txid; op_n := n |} c in
      if negb (IsSpent alternate) then (alternate, c) else access_by_txid_loop f txid (n + 1) c
  end.

Definition AccessByTxid (txid : Z) (c : cache) : Coin * cache :=
  access_by_txid_loop (Z.to_nat MAX_OUTPUTS_PER_BLOCK) txid 0 c.

(** ** Connecting and disconnecting transactions *)

(** [UpdateCoins]: the undo data ([CTxUndo::vprevout]) and the cache. *)
Fixpoint spend_inputs (l : list CTxIn) (c : cache) : option (list Coin * cache) :=
  match l with
  | [] => Some ([], c)
  | i :: l =>
      let '(is_spent, undo, c) := SpendCoin (prevout i) c in
      if negb is_spent then None
      else '(rest, c) ← spend_inputs l c; Some (undo :: rest, c)
  end.

Definition UpdateCoins (tx : CTransaction) (nHeight : Z) (c : cache) : option (list Coin * cache) :=
  '(vprevout, c) ← (if negb (IsCoinBase tx) then spend_inputs (vin tx) c else Some ([], c));
  c ← AddCoins tx nHeight c;
  Some (vprevout, c).

Inductive DisconnectResult := DISCONNECT_OK | DISCONNECT_UNCLEAN | DISCONNECT_FAILED.

(** [ApplyTxInUndo] *)
Definition ApplyTxInUndo (undo : Coin) (outp : COutPoint) (c : cache) : option (DisconnectResult * cache) :=
  let '(have, c) := HaveCoin outp c in
  let fClean := negb have in
  let add undo c :=
    c ← AddCoin outp undo (fCoinBase undo) c;
    Some (if fClean then DISCONNECT_OK else DISCONNECT_UNCLEAN, c) in
  if coin_nHeight undo =? 0 then
    let '(alternate, c) := AccessByTxid (op_hash outp) c in
    if negb (IsSpent alternate)
    then add {| out := out undo; fCoinBase := fCoinBase alternate; coin_nHeight := coin_nHeight alternate |} c
    else Some (DISCONNECT_FAILED, c)
  else add undo c.

(** The loop of [DisconnectBlock] that removes the outputs of a transaction; the
    boolean is [fClean]. *)
Fixpoint undo_outputs (l : list CTxOut) (txid o nHeight : Z) (is_coinbase fClean : bool) (c : cache) : bool * cache :=
  match l with
  | [] => (fClean, c)
  | ot :: l =>
      if negb (IsUnspendable (scriptPubKey ot)) then
        let '(is_spent, co, c) := SpendCoin {| op_hash := txid; op_n := o |} c in
        let fClean :=
          if negb is_spent || negb (bool_decide (ot = out co)) || negb (nHeight =? coin_nHeight co)
             || negb (eqb is_coinbase (fCoinBase co))
          then false else fClean in
        undo_outputs l txid (o + 1) nHeight is_coinbase fClean c
      else undo_outputs l txid (o + 1) nHeight is_coinbase fClean c
  end.

(** The loop that restores the inputs, last to first: the lists are reversed. *)
Fixpoint restore_inputs (l : list (CTxIn * Coin)) (fClean : bool) (c : cache) : option (DisconnectResult * cache) :=
  match l with
  | [] => Some (if fClean then DISCONNECT_OK else DISCONNECT_UNCLEAN, c)
  | (i, undo) :: l =>
      '(res, c) ← ApplyTxInUndo undo (prevout i) c;
      match res with
      | DISCONNECT_FAILED => Some (DISCONNECT_FAILED, c)
      | DISCONNECT_UNCLEAN => restore_inputs l false c
      | DISCONNECT_OK => restore_inputs l fClean c
      end
  end.

(** One iteration of the transaction loop of [DisconnectBlock]; [txundo] is absent
    for the first transaction of the block. *)
Definition disconnect_tx (tx : CTransaction) (txundo : option (list Coin)) (nHeight : Z) (fClean : bool) (c : cache)
  : option (DisconnectResult * cache) :=
  let '(fClean, c) := undo_outputs (vout tx) (tx_hash tx) 0 nHeight (IsCoinBase tx) fClean c in
  match txundo with
  | None => Some (if fClean then DISCONNECT_OK else DISCONNECT_UNCLEAN, c)
  | Some vprevout =>
      if negb (length vprevout =? length (vin tx))%nat then Some (DISCONNECT_FAILED, c)
      else restore_inputs (rev (zip (vin tx) vprevout)) fClean c
  end.

(** The loop over the transactions, last to first. *)
Fixpoint disconnect_loop (l : list (CTransaction * option (list Coin))) (nHeight : Z) (fClean : bool) (c : cache)
  : option (DisconnectResult * cache) :=
  match l with
  | [] => Some (if fClean then DISCONNECT_OK else DISCONNECT_UNCLEAN, c)
  | (tx, txundo) :: l =>
      '(res, c) ← disconnect_tx tx txundo nHeight fClean c;
      match res with
      | DISCONNECT_FAILED => Some (DISCONNECT_FAILED, c)
      | DISCONNECT_UNCLEAN => disconnect_loop l nHeight false c
      | DISCONNECT_OK => disconnect_loop l nHeight fClean c
      end
  end.

(** The coins part of [DisconnectBlock], given the undo data read from disk. *)
Definition DisconnectBlock (vtx : list CTransaction) (vtxundo : list (list Coin)) (nHeight hashPrev : Z) (c : cache)
  : option (DisconnectResult * cache) :=
  if negb (length vtxundo + 1 =? length vtx)%nat then Some (DISCONNECT_FAILED, c)
  else
    '(res, c) ← disconnect_loop (rev (zip vtx (None :: map Some vtxundo))) nHeight true c;
    match res with
    | DISCONNECT_FAILED => Some (DISCONNECT_FAILED, c)
    | r => Some (r, SetBestBlock hashPrev c)
    end.

(** The loop of [ConnectBlock] that rejects a block that would overwrite a coin. *)
Fixpoint have_outputs (l : list CTxOut) (txid o : Z) (c : cache) : bool * cache :=
  match l with
  | [] => (false, c)
  | _ :: l => let '(h, c) := HaveCoin {| op_hash := txid; op_n := o |} c in
              if h then (true, c) else have_outputs l txid (o + 1) c
  end.

Fixpoint bip30_loop (vtx : list CTransaction) (c : cache) : bool * cache :=
  match vtx with
  | [] => (true, c)
  | tx :: vtx => let '(h, c) := have_outputs (vout tx) (tx_hash tx) 0 c in
                 if h then (false, c) else bip30_loop vtx c
  end.

(** The coins part of the transaction loop of [ConnectBlock]: the undo data of every
    transaction and the cache; an inner [None] is a rejected block. *)
Fixpoint connect_loop (vtx : list CTransaction) (nHeight : Z) (c : cache)
  : option (option (list (list Coin)) * cache) :=
  match vtx with
  | [] => Some (Some [], c)
  | tx :: vtx =>
      let '(ok, c) := if negb (IsCoinBase tx) then HaveInputs tx c else (true, c) in
      if negb ok then Some (None, c)
      else
        '(undo, c) ← UpdateCoins tx nHeight c;
        '(rest, c) ← connect_loop vtx nHeight c;
        Some (option_map (cons undo) rest, c)
  end.

(** The coins part of [ConnectBlock]; the undo data of the first transaction is
    thrown away ([undoDummy]). *)
Definition ConnectBlock (vtx : list CTransaction) (nHeight hashBlk : Z) (c : cache)
  : option (option (list (list Coin)) * cache) :=
  let '(ok, c) := bip30_loop vtx c in
  if negb ok then Some (None, c)
  else
    '(r, c) ← connect_loop vtx nHeight c;
    match r with
    | None => Some (None, c)
    | Some undos => Some (Some (drop 1 undos), SetBestBlock hashBlk c)
    end.

End Cache.

#[global] Instance CCoinsViewCache_view {V} `{CCoinsView V} : CCoinsView (CCoinsViewCache V) := {
  view_GetCoin := GetCoin;
  view_GetBestBlock := GetBestBlock;
  view_BatchWrite := BatchWrite;
}.

(** ** The abstract set of unspent outputs *)

(** What an entry with this coin stands for. *)
Definition live (c : Coin) : option Coin := if IsSpent c then None else Some c.

(** A cache entry is consistent with what the view below has: [FRESH] entries are
    unknown below, entries that are not [DIRTY] agree with it. *)
Definition entry_ok (e : CCoinsCacheEntry) (below : option Coin) : Prop :=
  (has_flag (flags e) FRESH = true -> below = None)
  /\ (has_flag (flags e) DIRTY = false -> live (coin e) = below).

Definition all_unspent (m : gmap COutPoint Coin) : Prop := map_Forall (fun _ c => IsSpent c = false) m.

Class CCoinsViewLaws (V : Type) `{CCoinsView V} := {
  view_ok : V -> Prop;
  view_utxo : V -> gmap COutPoint Coin;
  view_best : V -> Z;
  law_unspent v : view_ok v -> all_unspent (view_utxo v);
  law_GetCoin o v r v' :
    view_ok v -> view_GetCoin o v = (r, v') ->
    r = view_utxo v !! o /\ view_ok v' /\ view_utxo v' = view_utxo v /\ view_best v' = view_best v;
  law_GetBestBlock v h v' :
    view_ok v -> view_GetBestBlock v = (h, v') ->
    h = view_best v /\ view_ok v' /\ view_utxo v' = view_utxo v /\ view_best v' = view_best v;
  law_BatchWrite l h v :
    view_ok v -> NoDup l.*1 -> Forall (fun x => entry_ok x.2 (view_utxo v !! x.1)) l ->
    exists v', view_BatchWrite l h v = Some (true, v') /\ view_ok v'
      /\ view_utxo v' = foldl db_apply_entry (view_utxo v) l
      /\ (h <> 0 -> view_best v' = h);
}.

(** *** Flags *)

Lemma has_DIRTY f : has_flag f DIRTY = Z.testbit f 0.
Proof. by apply (land_pow2_testbit f 0). Qed.
Lemma has_FRESH f : has_flag f FRESH = Z.testbit f 1.
Proof. by apply (land_pow2_testbit f 1). Qed.
Lemma has_DIRTY_lor f g : has_flag (Z.lor f g) DIRTY = has_flag f DIRTY || has_flag g DIRTY.
Proof. rewrite !has_DIRTY. apply Z.lor_spec. Qed.
Lemma has_FRESH_lor f g : has_flag (Z.lor f g) FRESH = has_flag f FRESH || has_flag g FRESH.
Proof. rewrite !has_FRESH. apply Z.lor_spec. Qed.

Lemma live_empty : live coinEmpty = None.
Proof. done. Qed.
Lemma live_unspent c : IsSpent c = false -> live c = Some c.
Proof. unfold live. by intros ->. Qed.
Lemma live_Some c d : live c = Some d -> c = d /\ IsSpent c = false.
Proof. unfold live. by destruct (IsSpent c) eqn:E; intros [= <-]. Qed.
Lemma live_spent c : IsSpent c = true -> live c = None.
Proof. unfold live. by intros ->. Qed.

(** *** Entries written to a set of coins *)

Lemma apply_entry_lookup m x k :
  db_apply_entry m x !! k =
    if decide (x.1 = k) then (if has_flag (flags x.2) DIRTY then live (coin x.2) else m !! k) else m !! k.
Proof.
  unfold db_apply_entry, live. destruct x as [o e]; cbn [fst snd].
  destruct (decide (o = k)) as [->|Hne]; repeat case_if; rewrite ?lookup_delete_eq, ?lookup_insert_eq; try done.
  - by rewrite lookup_delete_ne.
  - by rewrite lookup_insert_ne.
Qed.

Lemma apply_entries_lookup l m k :
  NoDup l.*1 ->
  foldl db_apply_entry m l !! k =
    match (list_to_map l : CCoinsMap) !! k with
    | Some e => if has_flag (flags e) DIRTY then live (coin e) else m !! k
    | None => m !! k
    end.
Proof.
  revert m. induction l as [|[o e] l IH]; intros m Hnd; cbn [foldl]; [by rewrite list_to_map_nil, lookup_empty|].
  rewrite fmap_cons in Hnd. apply NoDup_cons in Hnd as [Hni Hnd]. rewrite IH by done.
  rewrite apply_entry_lookup. cbn [fst snd]. rewrite list_to_map_cons.
  destruct (decide (o = k)) as [->|Hne].
  - rewrite lookup_insert_eq. rewrite (not_elem_of_list_to_map_1 l k) by done. done.
  - rewrite lookup_insert_ne by done. done.
Qed.

Lemma apply_entry_unspent m x : all_unspent m -> all_unspent (db_apply_entry m x).
Proof.
  intros Hm k c Hk. rewrite apply_entry_lookup in Hk.
  repeat case_decide; try by apply (Hm k). case_if_in Hk; [by apply live_Some in Hk as [-> ?]|by apply (Hm k)].
Qed.

Lemma apply_entries_unspent l m : all_unspent m -> all_unspent (foldl db_apply_entry m l).
Proof. revert m. induction l; intros m Hm; [done|]. by apply IHl, apply_entry_unspent. Qed.

(** *** The database obeys the laws *)

#[global] Program Instance CCoinsViewDB_laws : CCoinsViewLaws CCoinsViewDB := {
  view_ok v := all_unspent (db_coins v);
  view_utxo := db_coins;
  view_best := db_best;
}.
Next Obligation. done. Qed.
Next Obligation. intros o v r v' Hok [= <- <-]. done. Qed.
Next Obligation. intros v h v' Hok [= <- <-]. done. Qed.
Next Obligation.
  intros l h v Hok Hnd Hl. eexists. split; [done|]. cbn [db_coins db_best].
  split_and!; [by apply apply_entries_unspent|done|].
  intros Hh. by rewrite (proj2 (Z.eqb_neq _ _)).
Qed.

(** ** The cache over a view that obeys the laws *)

Definition usage_sum (m : CCoinsMap) : Z := map_fold (fun _ e s => DynamicMemoryUsage (coin e) + s) 0 m.

Lemma usage_sum_insert m o e :
  m !! o = None -> usage_sum (<[o := e]> m) = DynamicMemoryUsage (coin e) + usage_sum m.
Proof. intros. unfold usage_sum. rewrite map_fold_insert_L; [done|intros; lia|done]. Qed.

Lemma usage_sum_delete m o e :
  m !! o = Some e -> usage_sum m = DynamicMemoryUsage (coin e) + usage_sum (delete o m).
Proof. intros. unfold usage_sum. rewrite (map_fold_delete_L _ _ o e m); [done|intros; lia|done]. Qed.

Lemma usage_sum_replace m o e e' :
  m !! o = Some e ->
  usage_sum (<[o := e']> m) = usage_sum m - DynamicMemoryUsage (coin e) + DynamicMemoryUsage (coin e').
Proof.
  intros Ho. rewrite <- insert_delete_eq, usage_sum_insert by apply lookup_delete_eq.
  rewrite (usage_sum_delete m o e Ho). lia.
Qed.

Section CacheLaws.
Context {V : Type} `{CCoinsViewLaws V}.
Abbreviation cache := (CCoinsViewCache V).
Implicit Types (c : cache) (o : COutPoint) (b : V).

Definition cache_utxo c : gmap COutPoint Coin :=
  merge (fun oe ob => match oe with Some e => live (coin e) | None => ob end) (cacheCoins c) (view_utxo (base c)).

Definition cache_best c : Z := if hashBlock c =? 0 then view_best (base c) else hashBlock c.

(** The invariant of the cache: consistent entries and an exact memory count. *)
Record cache_ok c : Prop := {
  ok_base : view_ok (base c);
  ok_entries : map_Forall (fun o e => entry_ok e (view_utxo (base c) !! o)) (cacheCoins c);
  ok_usage : cachedCoinsUsage c = u64 (usage_sum (cacheCoins c));
}.

Lemma cache_utxo_lookup c o :
  cache_utxo c !! o = match cacheCoins c !! o with Some e => live (coin e) | None => view_utxo (base c) !! o end.
Proof. unfold cache_utxo. rewrite lookup_merge. by destruct (cacheCoins c !! o), (view_utxo (base c) !! o). Qed.

Lemma cache_utxo_unspent c : cache_ok c -> all_unspent (cache_utxo c).
Proof.
  intros Hok o co. rewrite cache_utxo_lookup. destruct (cacheCoins c !! o).
  - by intros [-> ?]%live_Some.
  - apply (law_unspent _ (ok_base c Hok)).
Qed.

(** A fresh cache shows what its base shows. *)
Lemma cache_make_ok b :
  view_ok b -> cache_ok (CCoinsViewCache_make b) /\ cache_utxo (CCoinsViewCache_make b) = view_utxo b
    /\ cache_best (CCoinsViewCache_make b) = view_best b.
Proof.
  intros Hb. split_and!; [split; [done|apply map_Forall_empty|done]| |done].
  apply map_eq. intros o. rewrite cache_utxo_lookup. cbn. by rewrite lookup_empty.
Qed.

(** The effect of replacing entries is local. *)
Lemma cache_ok_insert c o e u :
  cache_ok c -> entry_ok e (view_utxo (base c) !! o) ->
  u64 u = u64 (usage_sum (<[o := e]> (cacheCoins c))) ->
  cache_ok (set_coins c (<[o := e]> (cacheCoins c)) u).
Proof.
  intros [Hb He Hu] Heo Hu'. split; cbn; [done| |done].
  by apply map_Forall_insert_2.
Qed.

Lemma cache_ok_delete c o u :
  cache_ok c -> u64 u = u64 (usage_sum (delete o (cacheCoins c))) ->
  cache_ok (set_coins c (delete o (cacheCoins c)) u).
Proof. intros [Hb He Hu] Hu'. split; cbn; [done| |done]. by apply map_Forall_delete. Qed.

Lemma utxo_insert c o e u :
  cache_utxo (set_coins c (<[o := e]> (cacheCoins c)) u) =
    match live (coin e) with Some co => <[o := co]> (cache_utxo c) | None => delete o (cache_utxo c) end.
Proof.
  apply map_eq. intros k. rewrite cache_utxo_lookup. cbn [set_coins cacheCoins base].
  destruct (decide (o = k)) as [->|Hne].
  - rewrite lookup_insert_eq. destruct (live (coin e)); by rewrite ?lookup_insert_eq, ?lookup_delete_eq.
  - rewrite lookup_insert_ne by done.
    destruct (live (coin e)); rewrite ?lookup_insert_ne, ?lookup_delete_ne by done; by rewrite cache_utxo_lookup.
Qed.

Lemma utxo_delete c o u :
  view_utxo (base c) !! o = None ->
  cache_utxo (set_coins c (delete o (cacheCoins c)) u) = delete o (cache_utxo c).
Proof.
  intros Ho. apply map_eq. intros k. rewrite cache_utxo_lookup. cbn [set_coins cacheCoins base].
  destruct (decide (o = k)) as [->|Hne].
  - by rewrite !lookup_delete_eq.
  - by rewrite !lookup_delete_ne, cache_utxo_lookup by done.
Qed.

Lemma u64_add a d : u64 (u64 a + d) = u64 (a + d).
Proof. unfold wrap. by rewrite Zplus_mod_idemp_l. Qed.
Lemma u64_sub a d : u64 (u64 a - d) = u64 (a - d).
Proof. unfold wrap. by rewrite Zminus_mod_idemp_l. Qed.
Lemma u64_sub_add (x y z : Z) : u64 (u64 (u64 x - y) + z) = u64 (x - y + z).
Proof. rewrite u64_add, <- Z.add_sub_swap, <- u64_sub, u64_add, u64_sub. f_equal. lia. Qed.

(** [FetchCoin] loads an entry without changing the set, and says what it holds. *)
Lemma FetchCoin_ok o c it c' :
  cache_ok c -> FetchCoin o c = (it, c') ->
  cache_ok c' /\ cache_utxo c' = cache_utxo c /\ cache_best c' = cache_best c
  /\ hashBlock c' = hashBlock c
  /\ cacheCoins c' !! o = it
  /\ match it with Some e => live (coin e) = cache_utxo c !! o | None => cache_utxo c !! o = None end.
Proof.
  intros Hok. unfold FetchCoin. rewrite cache_utxo_lookup.
  destruct (cacheCoins c !! o) as [e|] eqn:Ho; [by intros [= <- <-]|].
  destruct (view_GetCoin o (base c)) as [r b] eqn:Hg.
  destruct (law_GetCoin _ _ _ _ (ok_base c Hok) Hg) as (-> & Hb & Hutxo & Hbest).
  set (c1 := {| base := b; hashBlock := hashBlock c; cacheCoins := cacheCoins c; cachedCoinsUsage := cachedCoinsUsage c |}).
  assert (cache_ok c1) as Hok1.
  { destruct Hok as [? He Hu]. split; [done| |done]. cbn. by rewrite Hutxo. }
  assert (cache_utxo c1 = cache_utxo c) as Hu1 by (unfold cache_utxo; cbn; by rewrite Hutxo).
  assert (cache_best c1 = cache_best c) as Hb1 by (unfold cache_best; cbn; by rewrite Hbest).
  destruct (view_utxo (base c) !! o) as [co|] eqn:Hco; intros [= <- <-]; [|done].
  pose proof (law_unspent _ (ok_base c Hok) o co Hco) as Hsp. cbv beta in Hsp. rewrite Hsp. cbn [coin].
  split_and!.
  - apply (cache_ok_insert c1); [done| |].
    + split; cbn; [done|]. intros _. rewrite Hutxo, Hco. by apply live_unspent.
    + rewrite usage_sum_insert by done. rewrite (ok_usage c Hok), u64_add. cbn. f_equal. lia.
  - rewrite (utxo_insert c1). cbn [coin]. rewrite live_unspent, Hu1 by done.
    apply insert_id. by rewrite cache_utxo_lookup, Ho.
  - done.
  - done.
  - cbn. apply lookup_insert_eq.
  - by apply live_unspent.
Qed.

(** [c'] shows the same set and best block as [c]. *)
Definition same_view c c' : Prop :=
  cache_ok c' /\ cache_utxo c' = cache_utxo c /\ cache_best c' = cache_best c.

Lemma same_view_refl c : cache_ok c -> same_view c c.
Proof. done. Qed.
Lemma same_view_trans c c' c'' : same_view c c' -> same_view c' c'' -> same_view c c''.
Proof. intros (? & E1 & E2) (? & E3 & E4). split_and!; [done|by rewrite E3|by rewrite E4]. Qed.

Lemma FetchCoin_same o c it c' : cache_ok c -> FetchCoin o c = (it, c') -> same_view c c'.
Proof. intros Hok Hf. destruct (FetchCoin_ok _ _ _ _ Hok Hf) as (? & ? & ? & _). done. Qed.

Lemma GetCoin_ok o c r c' :
  cache_ok c -> GetCoin o c = (r, c') -> r = cache_utxo c !! o /\ same_view c c'.
Proof.
  intros Hok. unfold GetCoin. destruct (FetchCoin o c) as [it c1] eqn:Hf.
  pose proof (FetchCoin_same _ _ _ _ Hok Hf). destruct (FetchCoin_ok _ _ _ _ Hok Hf) as (_ & _ & _ & _ & _ & Hit).
  destruct it as [e|]; intros [= <- <-]; by rewrite <- Hit.
Qed.

Lemma AccessCoin_ok o c r c' :
  cache_ok c -> AccessCoin o c = (r, c') -> live r = cache_utxo c !! o /\ same_view c c'.
Proof.
  intros Hok. unfold AccessCoin. destruct (FetchCoin o c) as [it c1] eqn:Hf.
  pose proof (FetchCoin_same _ _ _ _ Hok Hf). destruct (FetchCoin_ok _ _ _ _ Hok Hf) as (_ & _ & _ & _ & _ & Hit).
  destruct it as [e|]; intros [= <- <-]; by rewrite Hit.
Qed.

Lemma HaveCoin_ok o c r c' :
  cache_ok c -> HaveCoin o c = (r, c') -> r = bool_decide (is_Some (cache_utxo c !! o)) /\ same_view c c'.
Proof.
  intros Hok. unfold HaveCoin. destruct (FetchCoin o c) as [it c1] eqn:Hf.
  pose proof (FetchCoin_same _ _ _ _ Hok Hf). destruct (FetchCoin_ok _ _ _ _ Hok Hf) as (_ & _ & _ & _ & _ & Hit).
  intros [= <- <-]. split; [|done]. destruct it as [e|].
  - rewrite <- Hit. unfold live. by destruct (IsSpent (coin e)).
  - by rewrite Hit.
Qed.

(** What [AddCoin] and [AddCoins] do to the set: unspendable outputs never enter it. *)
Definition utxo_add o (co : Coin) (m : gmap COutPoint Coin) : gmap COutPoint Coin :=
  if IsUnspendable (scriptPubKey (out co)) then m else <[o := co]> m.

Lemma AddCoin_ok o co ow c :
  cache_ok c -> IsSpent co = false ->
  (ow = false -> IsUnspendable (scriptPubKey (out co)) = false -> cache_utxo c !! o = None) ->
  exists c', AddCoin o co ow c = Some c' /\ cache_ok c'
    /\ cache_utxo c' = utxo_add o co (cache_utxo c) /\ cache_best c' = cache_best c.
Proof.
  intros Hok Hsp How. unfold AddCoin, utxo_add. rewrite Hsp.
  destruct (IsUnspendable _) eqn:Hun; [by eexists|]. specialize (fun Ho => How Ho eq_refl).
  set (it := default {| coin := coinEmpty; flags := 0 |} (cacheCoins c !! o)).
  assert (ow = false -> live (coin it) = None) as Hit.
  { intros Ho. specialize (How Ho). rewrite cache_utxo_lookup in How. unfold it.
    by destruct (cacheCoins c !! o). }
  destruct (negb ow && negb (IsSpent (coin it))) eqn:Hthrow.
  { apply andb_true_iff in Hthrow as [Ho%negb_true_iff Hs%negb_true_iff].
    specialize (Hit Ho). by rewrite live_unspent in Hit. }
  eexists. split; [done|]. split_and!; [|by rewrite utxo_insert; cbn [coin]; rewrite live_unspent|done].
  apply cache_ok_insert; [done| |].
  - split; cbn [flags coin].
    + rewrite !has_FRESH_lor. intros Hf.
      assert (has_flag (flags it) FRESH = true \/ ow = false /\ has_flag (flags it) DIRTY = false) as Hc.
      { destruct (has_flag (flags it) FRESH); [by left|]. right. destruct ow; [done|].
        split; [done|]. by destruct (has_flag (flags it) DIRTY). }
      unfold it in *. destruct (cacheCoins c !! o) as [e|] eqn:He; cbn [default] in *.
      * destruct (ok_entries c Hok o e He) as [HF HD]. destruct Hc as [Hc|[Ho Hc]]; [by apply HF|].
        rewrite <- HD by done. by apply Hit.
      * destruct Hc as [?|[Ho _]]; [done|]. specialize (How Ho). by rewrite cache_utxo_lookup, He in How.
    + rewrite !has_DIRTY_lor. cbn. by rewrite orb_true_r.
  - unfold it. destruct (cacheCoins c !! o) as [e|] eqn:He; cbn [default coin].
    + rewrite bool_decide_true by done. rewrite (usage_sum_replace _ _ e) by done.
      rewrite (ok_usage c Hok), u64_sub_add. done.
    + rewrite bool_decide_false by (by intros [? ?]). rewrite usage_sum_insert by done.
      rewrite (ok_usage c Hok), u64_add. cbn [coin]. f_equal. lia.
Qed.

Lemma SpendCoin_ok o c r co c' :
  cache_ok c -> SpendCoin o c = (r, co, c') ->
  cache_ok c' /\ cache_utxo c' = delete o (cache_utxo c) /\ cache_best c' = cache_best c
  /\ live co = cache_utxo c !! o /\ (is_Some (cache_utxo c !! o) -> r = true).
Proof.
  intros Hok. unfold SpendCoin. destruct (FetchCoin o c) as [it c1] eqn:Hf.
  destruct (FetchCoin_ok _ _ _ _ Hok Hf) as (Hok1 & Hu1 & Hb1 & _ & Hlk & Hit).
  destruct it as [e|]; cycle 1.
  { intros [= <- <- <-]. split_and!; [done| |done|by rewrite Hit|by rewrite Hit; intros [? ?]].
    by rewrite Hu1, delete_id. }
  destruct (ok_entries _ Hok1 o e Hlk) as [HF HD].
  destruct (has_flag (flags e) FRESH) eqn:Hfresh; intros [= <- <- <-].
  - split_and!; [|by rewrite utxo_delete, Hu1 by auto|done|done|done].
    apply cache_ok_delete; [done|]. rewrite (ok_usage _ Hok1), u64_sub.
    rewrite (usage_sum_delete _ o e Hlk). f_equal. lia.
  - split_and!; [|by rewrite utxo_insert; cbn [coin]; rewrite live_empty, Hu1|done|done|done].
    apply cache_ok_insert; [done| |].
    + split; cbn [flags coin].
      * rewrite has_FRESH_lor, Hfresh. done.
      * rewrite has_DIRTY_lor. cbn. by rewrite orb_true_r.
    + rewrite (ok_usage _ Hok1), u64_sub, (usage_sum_replace _ o e) by done. f_equal.
      cbn [coin]. change (DynamicMemoryUsage coinEmpty) with 0. lia.
Qed.

Lemma Uncache_ok o c : cache_ok c -> same_view c (Uncache o c).
Proof.
  intros Hok. unfold Uncache. destruct (cacheCoins c !! o) as [e|] eqn:He; [|done].
  destruct (flags e =? 0) eqn:Hz; [|done]. apply Z.eqb_eq in Hz.
  destruct (ok_entries c Hok o e He) as [HF HD].
  assert (live (coin e) = view_utxo (base c) !! o) as Hlv by (apply HD; by rewrite Hz).
  split_and!; [| |done].
  - apply cache_ok_delete; [done|]. rewrite (ok_usage c Hok), u64_sub, (usage_sum_delete _ o e He). f_equal. lia.
  - apply map_eq. intros k. rewrite !cache_utxo_lookup. cbn [set_coins cacheCoins base].
    destruct (decide (o = k)) as [<-|Hne].
    + by rewrite lookup_delete_eq, He.
    + by rewrite lookup_delete_ne.
Qed.

Lemma GetBestBlock_ok c h c' :
  cache_ok c -> GetBestBlock c = (h, c') -> h = cache_best c /\ same_view c c'.
Proof.
  intros Hok. unfold GetBestBlock, same_view, cache_best. case_if; [|by intros [= <- <-]; case_if; split_and!].
  destruct (view_GetBestBlock (base c)) as [h' b] eqn:E. intros [= <- <-].
  destruct (law_GetBestBlock _ _ _ (ok_base c Hok) E) as (-> & Hb & Hu & Hbest). cbn.
  split_and!; [done| | |].
  - destruct Hok as [? He Hus]. split; [done| |done]. cbn. by rewrite Hu.
  - unfold cache_utxo. cbn. by rewrite Hu.
  - by case_if.
Qed.

(** *** Writing a child's entries into this cache *)

Lemma batch_entry_ok k e c :
  cache_ok c -> entry_ok e (cache_utxo c !! k) ->
  exists c', batch_entry (k, e) c = Some c' /\ cache_ok c' /\ base c' = base c
    /\ cache_utxo c' = db_apply_entry (cache_utxo c) (k, e).
Proof.
  intros Hok [HF HD]. unfold batch_entry, db_apply_entry. cbn [fst snd].
  destruct (has_flag (flags e) DIRTY) eqn:Hdirty; [|by eexists].
  assert (forall m : gmap COutPoint Coin,
    (if IsSpent (coin e) then delete k m else <[k := coin e]> m) =
    match live (coin e) with Some co => <[k := co]> m | None => delete k m end) as Elive
    by (intros; unfold live; by destruct (IsSpent (coin e))).
  rewrite Elive. rewrite cache_utxo_lookup in HF.
  destruct (cacheCoins c !! k) as [us|] eqn:Hk.
  - destruct (has_flag (flags e) FRESH && negb (IsSpent (coin us))) eqn:Hmis.
    { apply andb_true_iff in Hmis as [Hf Hs%negb_true_iff]. specialize (HF Hf). by rewrite live_unspent in HF. }
    destruct (ok_entries c Hok k us Hk) as [UF UD].
    destruct (has_flag (flags us) FRESH && IsSpent (coin e)) eqn:Herase.
    + apply andb_true_iff in Herase as [Hf Hs]. rewrite (live_spent _ Hs).
      eexists. split; [done|]. split_and!; [|done|apply utxo_delete; auto].
      apply cache_ok_delete; [done|]. rewrite (ok_usage c Hok), u64_sub, (usage_sum_delete _ k us Hk). f_equal. lia.
    + eexists. split; [done|]. split_and!; [|done|by rewrite utxo_insert].
      apply cache_ok_insert; [done| |].
      * split; cbn [flags coin]; [rewrite has_FRESH_lor; change (has_flag DIRTY FRESH) with false; rewrite orb_false_r; auto|].
        rewrite has_DIRTY_lor. cbn. by rewrite orb_true_r.
      * rewrite (ok_usage c Hok), u64_sub_add, (usage_sum_replace _ k us) by done. done.
  - destruct (has_flag (flags e) FRESH && IsSpent (coin e)) eqn:Hskip; cbn [negb].
    + apply andb_true_iff in Hskip as [Hf Hs]. rewrite (live_spent _ Hs).
      eexists. split; [done|]. split_and!; [done|done|].
      rewrite delete_id; [done|]. rewrite cache_utxo_lookup, Hk. auto.
    + eexists. split; [done|]. split_and!; [|done|by rewrite utxo_insert].
      apply cache_ok_insert; [done| |].
      * split; cbn [flags coin]; destruct (has_flag (flags e) FRESH); auto; done.
      * rewrite (ok_usage c Hok), u64_add, usage_sum_insert by done. cbn [coin]. f_equal. lia.
Qed.

Lemma batch_loop_ok l c :
  cache_ok c -> NoDup l.*1 -> Forall (fun x => entry_ok x.2 (cache_utxo c !! x.1)) l ->
  exists c', batch_loop l c = Some c' /\ cache_ok c' /\ base c' = base c
    /\ cache_utxo c' = foldl db_apply_entry (cache_utxo c) l.
Proof.
  revert c. induction l as [|[k e] l IH]; intros c Hok Hnd Hl; [by eexists|].
  rewrite fmap_cons in Hnd. apply NoDup_cons in Hnd as [Hni Hnd]. apply Forall_cons in Hl as [He Hl].
  destruct (batch_entry_ok k e c Hok He) as (c1 & E1 & Hok1 & Hb1 & Hu1).
  cbn [batch_loop foldl]. rewrite E1. cbn [mbind option_bind].
  destruct (IH c1 Hok1 Hnd) as (c2 & -> & Hok2 & Hb2 & Hu2).
  - apply Forall_forall. intros [k' e'] Hin. rewrite Forall_forall in Hl. specialize (Hl _ Hin). cbn [fst snd] in *.
    rewrite Hu1, apply_entry_lookup. cbn [fst]. rewrite decide_False; [done|].
    intros <-. apply Hni, list_elem_of_fmap. by exists (k, e').
  - exists c2. split_and!; [done|done|by rewrite Hb2|by rewrite Hu2, Hu1].
Qed.

Lemma SetBestBlock_ok h c :
  cache_ok c -> cache_ok (SetBestBlock h c) /\ cache_utxo (SetBestBlock h c) = cache_utxo c
    /\ (h <> 0 -> cache_best (SetBestBlock h c) = h).
Proof.
  intros [? ? ?]. split_and!; [by split|done|]. intros Hh. unfold cache_best. cbn. by rewrite (proj2 (Z.eqb_neq _ _)).
Qed.

(** [Flush] writes the set of the cache to its base and shows the same set afterwards. *)
Lemma Flush_ok c :
  cache_ok c ->
  exists c', Flush c = Some (true, c') /\ cache_ok c' /\ cache_utxo c' = cache_utxo c
    /\ view_utxo (base c') = cache_utxo c /\ cacheCoins c' = ∅
    /\ (hashBlock c <> 0 -> view_best (base c') = hashBlock c).
Proof.
  intros Hok.
  destruct (law_BatchWrite (map_to_list (cacheCoins c)) (hashBlock c) (base c) (ok_base c Hok))
    as (b & E & Hb & Hu & Hbest).
  { apply NoDup_fst_map_to_list. }
  { apply Forall_forall. intros [k e] Hin%elem_of_map_to_list. by apply (ok_entries c Hok). }
  assert (view_utxo b = cache_utxo c) as Hu'.
  { rewrite Hu. apply map_eq. intros k.
    rewrite apply_entries_lookup by apply NoDup_fst_map_to_list.
    rewrite list_to_map_to_list, cache_utxo_lookup.
    destruct (cacheCoins c !! k) as [e|] eqn:Hk; [|done]. case_if; [done|].
    symmetry. by apply (ok_entries c Hok k e Hk). }
  unfold Flush. rewrite E. cbn [mbind option_bind]. eexists. split; [done|]. cbn [base cacheCoins].
  split_and!; [|  |done|done|done].
  - split; [done|apply map_Forall_empty|done].
  - rewrite <- Hu'. apply map_eq. intros o. rewrite cache_utxo_lookup. cbn. by rewrite lookup_empty.
Qed.

End CacheLaws.

Arguments same_view {V _ _} c c'.

#[global] Program Instance CCoinsViewCache_laws {V} `{CCoinsViewLaws V} : CCoinsViewLaws (CCoinsViewCache V) := {
  view_ok := cache_ok;
  view_utxo := cache_utxo;
  view_best := cache_best;
}.
Next Obligation. intros V ? ? c Hok. by apply cache_utxo_unspent. Qed.
Next Obligation. intros V ? ? o c r c' Hok E. by apply GetCoin_ok. Qed.
Next Obligation. intros V ? ? c h c' Hok E. by apply GetBestBlock_ok. Qed.
Next Obligation.
  intros V ? ? l h c Hok Hnd Hl. cbn [view_BatchWrite CCoinsViewCache_view]. unfold BatchWrite.
  destruct (batch_loop_ok l c Hok Hnd Hl) as (c' & -> & Hok' & _ & Hu).
  cbn [mbind option_bind]. eexists. split; [done|].
  destruct (SetBestBlock_ok h c' Hok') as (? & ? & ?). by rewrite <- Hu.
Qed.

(** ** Transactions on the abstract set *)

Definition utxo_spend (ins : list CTxIn) (m : gmap COutPoint Coin) : gmap COutPoint Coin :=
  foldl (fun m i => delete (prevout i) m) m ins.

Fixpoint utxo_outputs (l : list CTxOut) (txid i nHeight : Z) (cb : bool) (m : gmap COutPoint Coin)
  : gmap COutPoint Coin :=
  match l with
  | [] => m
  | o :: l => utxo_outputs l txid (i + 1) nHeight cb
                (utxo_add {| op_hash := txid; op_n := i |} (Coin_make o nHeight cb) m)
  end.

(** The effect of a transaction included at [nHeight]. *)
Definition utxo_update (tx : CTransaction) (nHeight : Z) (m : gmap COutPoint Coin) : gmap COutPoint Coin :=
  utxo_outputs (vout tx) (tx_hash tx) 0 nHeight (IsCoinBase tx)
    (if IsCoinBase tx then m else utxo_spend (vin tx) m).

Definition outputs_absent (tx : CTransaction) (m : gmap COutPoint Coin) : Prop :=
  forall n, 0 <= n < Z.of_nat (length (vout tx)) -> m !! {| op_hash := tx_hash tx; op_n := n |} = None.

(** What [CheckTransaction] guarantees of a transaction: no null output, and the
    inputs of a transaction that is not a coinbase are distinct. *)
Definition tx_wf (tx : CTransaction) : Prop :=
  Forall (fun o => nValue o <> -1) (vout tx) /\ (IsCoinBase tx = false -> NoDup (map prevout (vin tx))).

Definition inputs_present (tx : CTransaction) (m : gmap COutPoint Coin) : Prop :=
  IsCoinBase tx = false -> Forall (fun i => is_Some (m !! prevout i)) (vin tx).

Lemma utxo_spend_lookup ins m o :
  utxo_spend ins m !! o = if decide (o ∈ map prevout ins) then None else m !! o.
Proof.
  revert m. induction ins as [|i ins IH]; intros m; cbn [utxo_spend foldl map].
  { by rewrite decide_False by (by intros ?%not_elem_of_nil). }
  fold (utxo_spend ins (delete (prevout i) m)). rewrite IH.
  destruct (decide (o = prevout i)) as [->|Hne].
  - rewrite (decide_True (P := prevout i ∈ prevout i :: _)) by apply list_elem_of_here.
    rewrite lookup_delete_eq. by case_decide.
  - rewrite lookup_delete_ne by done. case_decide as H1; case_decide as H2; try done.
    + destruct H2. by apply list_elem_of_further.
    + apply elem_of_cons in H2 as [?|?]; done.
Qed.

Lemma utxo_add_lookup_ne o o' co m : o <> o' -> utxo_add o co m !! o' = m !! o'.
Proof. intros. unfold utxo_add. case_if; [done|]. by apply lookup_insert_ne. Qed.

Lemma utxo_outputs_lookup_ne l txid i h cb m o :
  op_hash o <> txid \/ op_n o < i -> utxo_outputs l txid i h cb m !! o = m !! o.
Proof.
  revert i m. induction l as [|x l IH]; intros i m Ho; [done|]. cbn [utxo_outputs].
  rewrite IH by (destruct Ho; [by left|right; lia]). apply utxo_add_lookup_ne.
  intros E. subst o. cbn in Ho. lia.
Qed.

Lemma utxo_outputs_delete l txid i h cb m o :
  op_n o < i -> delete o (utxo_outputs l txid i h cb m) = utxo_outputs l txid i h cb (delete o m).
Proof.
  revert i m. induction l as [|x l IH]; intros i m Ho; [done|]. cbn [utxo_outputs].
  rewrite IH by lia. f_equal. unfold utxo_add. case_if; [done|].
  apply delete_insert_ne. intros E. subst o. cbn in Ho. lia.
Qed.

Section Transactions.
Context {V : Type} `{CCoinsViewLaws V}.
Abbreviation cache := (CCoinsViewCache V).
Implicit Types (c : cache) (m : gmap COutPoint Coin).

Lemma spend_inputs_ok ins c :
  cache_ok c -> NoDup (map prevout ins) -> Forall (fun i => is_Some (cache_utxo c !! prevout i)) ins ->
  exists undo c', spend_inputs ins c = Some (undo, c') /\ cache_ok c'
    /\ cache_utxo c' = utxo_spend ins (cache_utxo c) /\ cache_best c' = cache_best c
    /\ Forall2 (fun i u => cache_utxo c !! prevout i = Some u) ins undo.
Proof.
  revert c. induction ins as [|i ins IH]; intros c Hok Hnd Hin.
  { exists [], c. done. }
  cbn [map] in Hnd. apply NoDup_cons in Hnd as [Hni Hnd]. apply Forall_cons in Hin as [[u Hu] Hin].
  cbn [spend_inputs]. destruct (SpendCoin (prevout i) c) as [[r co] c1] eqn:E.
  destruct (SpendCoin_ok _ _ _ _ _ Hok E) as (Hok1 & Hu1 & Hb1 & Hco & Hr).
  rewrite Hr by (by rewrite Hu). cbn [negb]. rewrite Hu in Hco. apply live_Some in Hco as [-> _].
  assert (forall i', i' ∈ ins -> cache_utxo c1 !! prevout i' = cache_utxo c !! prevout i') as Hsame.
  { intros i' Hi'. rewrite Hu1. apply lookup_delete_ne. intros Heq. apply Hni. rewrite Heq.
    by apply list_elem_of_fmap_2. }
  destruct (IH c1 Hok1 Hnd) as (undo & c2 & -> & Hok2 & Hu2 & Hb2 & Hundo).
  { rewrite Forall_forall in *. intros i' Hi'. rewrite Hsame by done. by apply Hin. }
  exists (u :: undo), c2. cbn [mbind option_bind]. split_and!; [done|done|by rewrite Hu2, Hu1|by rewrite Hb2|].
  constructor; [done|]. apply Forall2_same_length_lookup in Hundo as [Hl Hundo].
  apply Forall2_same_length_lookup. split; [done|]. intros n x y Hx Hy.
  rewrite <- Hsame by (by eapply list_elem_of_lookup_2). by eapply Hundo.
Qed.

Lemma add_coins_loop_ok l txid i h cb c :
  cache_ok c -> Forall (fun o => nValue o <> -1) l ->
  (cb = false -> forall n, i <= n < i + Z.of_nat (length l) ->
     cache_utxo c !! {| op_hash := txid; op_n := n |} = None) ->
  exists c', add_coins_loop l txid i h cb c = Some c' /\ cache_ok c'
    /\ cache_utxo c' = utxo_outputs l txid i h cb (cache_utxo c) /\ cache_best c' = cache_best c.
Proof.
  intros Hok Hl Hno. revert i c Hok Hno. induction Hl as [|o l Ho Hl IH]; intros i c Hok Hno; [by exists c|].
  cbn [add_coins_loop utxo_outputs].
  destruct (AddCoin_ok {| op_hash := txid; op_n := i |} (Coin_make o h cb) cb c) as (c1 & -> & Hok1 & Hu1 & Hb1).
  { done. } { by apply Z.eqb_neq. } { intros Hcb _. apply Hno; [done|cbn [length]; lia]. }
  cbn [mbind option_bind]. destruct (IH (i + 1) c1 Hok1) as (c2 & -> & Hok2 & Hu2 & Hb2).
  { intros Hcb n Hn. rewrite Hu1, utxo_add_lookup_ne by (intros [=]; lia). apply Hno; [done|cbn [length]; lia]. }
  exists c2. by rewrite Hu2, Hb2, Hu1.
Qed.

Lemma UpdateCoins_ok tx h c :
  cache_ok c -> tx_wf tx -> inputs_present tx (cache_utxo c) ->
  (IsCoinBase tx = false -> outputs_absent tx (cache_utxo c)) ->
  exists undo c', UpdateCoins tx h c = Some (undo, c') /\ cache_ok c'
    /\ cache_utxo c' = utxo_update tx h (cache_utxo c) /\ cache_best c' = cache_best c
    /\ (if IsCoinBase tx then undo = []
        else Forall2 (fun i u => cache_utxo c !! prevout i = Some u) (vin tx) undo).
Proof.
  intros Hok [Hout Hnd] Hin Hno. unfold UpdateCoins, utxo_update, AddCoins, inputs_present in *.
  destruct (IsCoinBase tx) eqn:Hcb; cbn [negb].
  - cbn [mbind option_bind].
    destruct (add_coins_loop_ok (vout tx) (tx_hash tx) 0 h true c) as (c' & -> & ? & ? & ?); [done|done|done|].
    by exists [], c'.
  - destruct (spend_inputs_ok (vin tx) c Hok (Hnd eq_refl) (Hin eq_refl)) as (undo & c1 & -> & Hok1 & Hu1 & Hb1 & Hundo).
    cbn [mbind option_bind].
    destruct (add_coins_loop_ok (vout tx) (tx_hash tx) 0 h false c1) as (c' & -> & ? & Hu & Hb); [done|done| |].
    { intros _ n Hn. rewrite Hu1, utxo_spend_lookup. case_decide; [done|]. by apply Hno. }
    exists undo, c'. cbn [mbind option_bind]. by rewrite Hu, Hb, Hu1.
Qed.

Lemma have_inputs_loop_ok l c r c' :
  cache_ok c -> have_inputs_loop l c = (r, c') ->
  same_view c c' /\ (r = true <-> Forall (fun i => is_Some (cache_utxo c !! prevout i)) l).
Proof.
  revert c. induction l as [|i l IH]; intros c Hok; cbn [have_inputs_loop].
  { intros [= <- <-]. split; [by apply same_view_refl|]. split; auto. }
  destruct (HaveCoin (prevout i) c) as [h c1] eqn:E. destruct (HaveCoin_ok _ _ _ _ Hok E) as (-> & Hsv).
  rewrite Forall_cons. case_bool_decide as Hi.
  - intros E2. destruct Hsv as (Hok1 & Hu1 & Hb1). destruct (IH c1 Hok1 E2) as (Hsv2 & Hr).
    split; [by apply (same_view_trans _ c1)|]. rewrite Hr, Hu1. tauto.
  - intros [= <- <-]. split; [done|]. split; [done|]. tauto.
Qed.

Lemma HaveInputs_ok tx c r c' :
  cache_ok c -> HaveInputs tx c = (r, c') ->
  same_view c c' /\ (r = true <-> inputs_present tx (cache_utxo c)).
Proof.
  intros Hok. unfold HaveInputs, inputs_present. destruct (IsCoinBase tx).
  - intros [= <- <-]. split; [by apply same_view_refl|]. done.
  - intros E. destruct (have_inputs_loop_ok _ _ _ _ Hok E) as [? ->]. tauto.
Qed.

Lemma value_in_loop_ok l acc c v c' :
  cache_ok c -> value_in_loop l acc c = (v, c') -> Forall (fun i => is_Some (cache_utxo c !! prevout i)) l ->
  same_view c c' /\ v = acc + foldr (fun i s => from_option (fun co => nValue (out co)) 0 (cache_utxo c !! prevout i) + s) 0 l.
Proof.
  revert acc c. induction l as [|i l IH]; intros acc c Hok; cbn [value_in_loop foldr].
  { intros [= <- <-] _. split; [by apply same_view_refl|lia]. }
  destruct (AccessCoin (prevout i) c) as [co c1] eqn:E. destruct (AccessCoin_ok _ _ _ _ Hok E) as (Hlv & Hsv).
  intros E2 [[u Hu] Hl]%Forall_cons. destruct Hsv as (Hok1 & Hu1 & Hb1).
  destruct (IH _ c1 Hok1 E2) as (Hsv2 & ->); [by rewrite Hu1|].
  split; [by apply (same_view_trans _ c1)|]. rewrite Hu1, Hu in *. apply live_Some in Hlv as [-> _]. cbn. lia.
Qed.

(** *** Disconnecting *)

Lemma undo_outputs_ok l txid i h cb c m :
  cache_ok c -> 0 <= h < 2 ^ 31 -> cache_utxo c = utxo_outputs l txid i h cb m ->
  (forall n, i <= n < i + Z.of_nat (length l) -> m !! {| op_hash := txid; op_n := n |} = None) ->
  exists c', undo_outputs l txid i h cb true c = (true, c') /\ cache_ok c' /\ cache_utxo c' = m
    /\ cache_best c' = cache_best c.
Proof.
  intros Hok Hh. revert i c m Hok. induction l as [|x l IH]; intros i c m Hok Hu Hno; [by exists c|].
  cbn [undo_outputs utxo_outputs] in *. unfold utxo_add in Hu. cbn [out Coin_make] in Hu.
  destruct (IsUnspendable (scriptPubKey x)); cbn [negb].
  { apply IH; [done|done|]. intros n Hn. apply Hno. cbn [length]. lia. }
  destruct (SpendCoin _ c) as [[r co] c1] eqn:E.
  destruct (SpendCoin_ok _ _ _ _ _ Hok E) as (Hok1 & Hu1 & Hb1 & Hco & Hr).
  assert (cache_utxo c !! {| op_hash := txid; op_n := i |} = Some (Coin_make x h cb)) as Hlk.
  { rewrite Hu, utxo_outputs_lookup_ne by (cbn; lia). apply lookup_insert_eq. }
  rewrite Hlk in Hco, Hr. apply live_Some in Hco as [-> _]. rewrite Hr by done.
  cbn [Coin_make out coin_nHeight fCoinBase negb orb]. rewrite bool_decide_true by done.
  rewrite wrap_small by done. rewrite Z.eqb_refl, eqb_reflx. cbn [negb orb].
  destruct (IH (i + 1) c1 m Hok1) as (c2 & E2 & Hok2 & Hu2 & Hb2).
  - rewrite Hu1, Hu, utxo_outputs_delete by (cbn; lia). f_equal. apply delete_insert_id. apply Hno. cbn [length]. lia.
  - intros n Hn. apply Hno. cbn [length]. lia.
  - exists c2. by rewrite E2, Hu2, Hb2, Hb1.
Qed.

(** A coin with a known height is restored where there is none. *)
Lemma ApplyTxInUndo_ok u o c :
  cache_ok c -> coin_nHeight u <> 0 -> IsSpent u = false -> cache_utxo c !! o = None ->
  exists c', ApplyTxInUndo u o c = Some (DISCONNECT_OK, c') /\ cache_ok c'
    /\ cache_utxo c' = utxo_add o u (cache_utxo c) /\ cache_best c' = cache_best c.
Proof.
  intros Hok Hh Hsp Hno. unfold ApplyTxInUndo. destruct (HaveCoin o c) as [b c1] eqn:E.
  destruct (HaveCoin_ok _ _ _ _ Hok E) as (-> & Hok1 & Hu1 & Hb1).
  rewrite Hno, (proj2 (Z.eqb_neq _ _)) by done.
  destruct (AddCoin_ok o u (fCoinBase u) c1) as (c2 & -> & Hok2 & Hu2 & Hb2); [done|done|by rewrite Hu1|].
  exists c2. cbn. by rewrite Hu2, Hb2, Hu1.
Qed.

Lemma restore_inputs_ok ins undo c m :
  cache_ok c -> NoDup (map prevout ins) ->
  cache_utxo c = utxo_spend ins m ->
  Forall2 (fun i u => m !! prevout i = Some u /\ coin_nHeight u <> 0 /\ IsSpent u = false
                      /\ IsUnspendable (scriptPubKey (out u)) = false) ins undo ->
  exists c', restore_inputs (rev (zip ins undo)) true c = Some (DISCONNECT_OK, c') /\ cache_ok c'
    /\ cache_utxo c' = m /\ cache_best c' = cache_best c.
Proof.
  intros Hok Hnd Hu Hundo. revert undo c Hok Hnd Hu Hundo.
  induction ins as [|i ins IH] using rev_ind; intros undo c Hok Hnd Hu Hundo.
  { apply Forall2_nil_inv_l in Hundo as ->. by exists c. }
  apply Forall2_app_inv_l in Hundo as (undo' & [|u [|]] & Hundo & Hlast & ->);
    [by inversion Hlast| |by inversion Hlast as [|? ? ? ? ? Hx]; inversion Hx].
  apply Forall2_cons in Hlast as [(Hm & Hh & Hsp & Hun) _].
  rewrite zip_with_app by (by apply Forall2_length in Hundo). cbn [zip_with].
  rewrite rev_app_distr. cbn [rev app restore_inputs].
  rewrite map_app in Hnd. apply NoDup_app in Hnd as (Hnd & Hdisj & _).
  assert (prevout i ∉ map prevout ins) as Hni.
  { intros Hin. apply (Hdisj _ Hin). apply list_elem_of_here. }
  assert (cache_utxo c = delete (prevout i) (utxo_spend ins m)) as Hu'.
  { rewrite Hu. unfold utxo_spend. by rewrite foldl_app. }
  destruct (ApplyTxInUndo_ok u (prevout i) c Hok Hh Hsp) as (c1 & -> & Hok1 & Hu1 & Hb1).
  { rewrite Hu'. apply lookup_delete_eq. }
  cbn [mbind option_bind]. destruct (IH undo' c1 Hok1 Hnd) as (c2 & -> & Hok2 & Hu2 & Hb2); [|done|by exists c2; rewrite Hb2].
  rewrite Hu1, Hu'. unfold utxo_add. rewrite Hun. rewrite insert_delete_eq. apply insert_id.
  rewrite utxo_spend_lookup, decide_False by done. done.
Qed.

(** Coins as connected blocks leave them: known height, spendable script. *)
Definition coins_known m : Prop :=
  map_Forall (fun _ co => coin_nHeight co <> 0 /\ IsUnspendable (scriptPubKey (out co)) = false) m.

Lemma disconnect_tx_ok tx undo h c m :
  cache_ok c -> 0 <= h < 2 ^ 31 -> tx_wf tx -> all_unspent m -> coins_known m ->
  cache_utxo c = utxo_update tx h m ->
  outputs_absent tx m ->
  (if IsCoinBase tx then undo = [] else Forall2 (fun i u => m !! prevout i = Some u) (vin tx) undo) ->
  exists c', disconnect_tx tx (if IsCoinBase tx then None else Some undo) h true c = Some (DISCONNECT_OK, c')
    /\ cache_ok c' /\ cache_utxo c' = m /\ cache_best c' = cache_best c.
Proof.
  intros Hok Hh [_ Hnd] Hall Hknown Hu Hno Hundo. unfold disconnect_tx, utxo_update in *.
  destruct (undo_outputs_ok _ _ _ _ _ _ _ Hok Hh Hu) as (c1 & -> & Hok1 & Hu1 & Hb1).
  { intros n Hn. destruct (IsCoinBase tx); [by apply Hno|].
    rewrite utxo_spend_lookup. case_decide; [done|by apply Hno]. }
  destruct (IsCoinBase tx); [by exists c1|].
  rewrite (Forall2_length _ _ _ Hundo), Nat.eqb_refl. cbn [negb].
  destruct (restore_inputs_ok (vin tx) undo c1 m Hok1 (Hnd eq_refl) Hu1) as (c2 & -> & ? & ? & Hb2).
  - eapply Forall2_impl; [exact Hundo|]. intros i u Hi. cbv beta.
    destruct (Hknown _ _ Hi). split_and!; [done|done|by apply (Hall _ _ Hi)|done].
  - exists c2. by rewrite Hb2.
Qed.

(** Once unclean, the result is never [DISCONNECT_OK]. *)
Lemma undo_outputs_unclean l txid i h cb c : (undo_outputs l txid i h cb false c).1 = false.
Proof.
  revert i c. induction l as [|x l IH]; intros i c; [done|]. cbn [undo_outputs].
  case_if; [|apply IH]. destruct (SpendCoin _ c) as [[r co] c1]. case_if; apply IH.
Qed.

Lemma restore_inputs_unclean l c c' : restore_inputs l false c <> Some (DISCONNECT_OK, c').
Proof.
  revert c. induction l as [|[i u] l IH]; intros c; cbn [restore_inputs]; [done|].
  destruct (ApplyTxInUndo u (prevout i) c) as [[[] c1]|]; cbn [mbind option_bind]; [apply IH|apply IH|done|done].
Qed.

Lemma disconnect_loop_unclean l h c c' : disconnect_loop l h false c <> Some (DISCONNECT_OK, c').
Proof.
  revert c. induction l as [|[tx u] l IH]; intros c; cbn [disconnect_loop]; [done|].
  destruct (disconnect_tx tx u h false c) as [[[] c1]|] eqn:E; cbn [mbind option_bind]; [apply IH|apply IH|done|done].
Qed.

Lemma disconnect_loop_app l1 l2 h c c1 :
  disconnect_loop l1 h true c = Some (DISCONNECT_OK, c1) ->
  disconnect_loop (l1 ++ l2) h true c = disconnect_loop l2 h true c1.
Proof.
  revert c. induction l1 as [|[tx u] l1 IH]; intros c; cbn [disconnect_loop app].
  { by intros [= ->]. }
  destruct (disconnect_tx tx u h true c) as [[r c2]|]; [|done]. cbn [mbind option_bind].
  destruct r; [apply IH| |done]. by intros E%disconnect_loop_unclean.
Qed.

(** *** Connecting a block *)

Lemma have_outputs_ok l txid i c r c' :
  cache_ok c -> have_outputs l txid i c = (r, c') ->
  same_view c c' /\ (r = false <-> forall n, i <= n < i + Z.of_nat (length l) ->
                       cache_utxo c !! {| op_hash := txid; op_n := n |} = None).
Proof.
  revert i c. induction l as [|x l IH]; intros i c Hok; cbn [have_outputs].
  { intros [= <- <-]. split; [by apply same_view_refl|]. split; [|done]. intros _ n. simpl. lia. }
  destruct (HaveCoin _ c) as [b c1] eqn:E. destruct (HaveCoin_ok _ _ _ _ Hok E) as (-> & Hsv).
  cbn [length]. case_bool_decide as Hi.
  { intros [= <- <-]. split; [done|]. split; [done|]. intros Hn. destruct Hi as [u Hi].
    specialize (Hn i ltac:(lia)). by rewrite Hi in Hn. }
  intros E2. destruct Hsv as (Hok1 & Hu1 & Hb1). destruct (IH _ c1 Hok1 E2) as (Hsv2 & Hr).
  split; [by apply (same_view_trans _ c1)|]. rewrite Hr, Hu1. split; intros Hf n Hn; [|apply Hf; lia].
  destruct (Z.eq_dec n i) as [->|]; [by apply eq_None_not_Some|apply Hf; lia].
Qed.

Lemma bip30_loop_ok vtx c r c' :
  cache_ok c -> bip30_loop vtx c = (r, c') ->
  same_view c c' /\ (r = true <-> Forall (fun tx => outputs_absent tx (cache_utxo c)) vtx).
Proof.
  revert c. induction vtx as [|tx vtx IH]; intros c Hok; cbn [bip30_loop].
  { intros [= <- <-]. split; [by apply same_view_refl|]. done. }
  destruct (have_outputs _ _ _ c) as [b c1] eqn:E. destruct (have_outputs_ok _ _ _ _ _ _ Hok E) as (Hsv & Hb).
  rewrite Forall_cons. destruct b.
  { intros [= <- <-]. split; [done|]. split; [done|]. intros [Ha _]. by apply (proj2 Hb) in Ha. }
  intros E2. destruct Hsv as (Hok1 & Hu1 & Hb1).
  destruct (IH c1 Hok1 E2) as (Hsv2 & Hr). split; [by apply (same_view_trans _ c1)|].
  rewrite Hr, Hu1. split; [intros ?; split; [exact (proj1 Hb eq_refl)|done]|tauto].
Qed.

Lemma utxo_outputs_known l txid i h cb m :
  0 < h < 2 ^ 31 -> coins_known m -> coins_known (utxo_outputs l txid i h cb m).
Proof.
  intros Hh. revert i m. induction l as [|x l IH]; intros i m Hm; [done|]. cbn [utxo_outputs]. apply IH.
  unfold utxo_add. destruct (IsUnspendable _) eqn:Hun; [done|]. apply map_Forall_insert_2; [|done].
  split; [|done]. cbn. rewrite wrap_small by (unfold in_u; lia). lia.
Qed.

Lemma utxo_spend_known ins m : coins_known m -> coins_known (utxo_spend ins m).
Proof.
  intros Hm o co. rewrite utxo_spend_lookup. case_decide; [done|]. apply Hm.
Qed.

Lemma utxo_update_known tx h m : 0 < h < 2 ^ 31 -> coins_known m -> coins_known (utxo_update tx h m).
Proof.
  intros Hh Hm. apply utxo_outputs_known; [done|]. destruct (IsCoinBase tx); [done|by apply utxo_spend_known].
Qed.

Lemma utxo_update_absent tx tx' h m :
  tx_hash tx <> tx_hash tx' -> outputs_absent tx' m -> outputs_absent tx' (utxo_update tx h m).
Proof.
  intros Hne Hno n Hn. unfold utxo_update. rewrite utxo_outputs_lookup_ne by (left; cbn; done).
  destruct (IsCoinBase tx); [by apply Hno|]. rewrite utxo_spend_lookup. case_decide; [done|by apply Hno].
Qed.

(** The state after the transactions of a block, and when they can all be spent. *)
Definition utxo_block (vtx : list CTransaction) (h : Z) m : gmap COutPoint Coin :=
  foldl (fun m tx => utxo_update tx h m) m vtx.

Fixpoint inputs_available (vtx : list CTransaction) (h : Z) m : Prop :=
  match vtx with
  | [] => True
  | tx :: vtx => inputs_present tx m /\ inputs_available vtx h (utxo_update tx h m)
  end.

Lemma connect_loop_ok vtx h c :
  cache_ok c -> 0 < h < 2 ^ 31 -> Forall tx_wf vtx -> NoDup (map tx_hash vtx) ->
  Forall (fun tx => outputs_absent tx (cache_utxo c)) vtx -> coins_known (cache_utxo c) ->
  exists r c', connect_loop vtx h c = Some (r, c') /\ cache_ok c' /\ cache_best c' = cache_best c
  /\ (inputs_available vtx h (cache_utxo c) <-> is_Some r)
  /\ forall undos, r = Some undos ->
       cache_utxo c' = utxo_block vtx h (cache_utxo c) /\ length undos = length vtx
       /\ forall c2, cache_ok c2 -> cache_utxo c2 = cache_utxo c' ->
            exists c3, disconnect_loop
                (rev (zip_with (fun tx u => (tx, if IsCoinBase tx then None else Some u)) vtx undos)) h true c2
                = Some (DISCONNECT_OK, c3)
              /\ cache_ok c3 /\ cache_utxo c3 = cache_utxo c /\ cache_best c3 = cache_best c2.
Proof.
  revert c. induction vtx as [|tx vtx IH]; intros c Hok Hh Hwf Hnd Habs Hkn.
  { exists (Some []), c. split_and!; try done. intros undos [= <-]. split_and!; [done|done|]. intros c2 ? ?. by exists c2. }
  apply Forall_cons in Hwf as [Hwf1 Hwf]. cbn [map] in Hnd. apply NoDup_cons in Hnd as [Hni Hnd].
  apply Forall_cons in Habs as [Habs1 Habs]. cbn [connect_loop inputs_available].
  assert (exists b c1, (if negb (IsCoinBase tx) then HaveInputs tx c else (true, c)) = (b, c1)
            /\ same_view c c1 /\ (b = true <-> inputs_present tx (cache_utxo c))) as (b & c1 & -> & Hsv & Hb).
  { destruct (IsCoinBase tx) eqn:Hcb; cbn [negb].
    - exists true, c. split_and!; [done|by apply same_view_refl|]. unfold inputs_present. rewrite Hcb. done.
    - destruct (HaveInputs tx c) as [b c1] eqn:E. exists b, c1. split; [done|]. by apply HaveInputs_ok. }
  destruct Hsv as (Hok1 & Hu1 & Hb1).
  destruct b; cbn [negb]; cycle 1.
  { exists None, c1. split_and!; [done|done|done| |done]. split; [|by intros [? ?]].
    intros [Hp _]. by apply Hb in Hp. }
  assert (inputs_present tx (cache_utxo c)) as Hp by by apply Hb.
  destruct (UpdateCoins_ok tx h c1 Hok1 Hwf1) as (undo & c2 & -> & Hok2 & Hu2 & Hb2 & Hundo); [by rewrite Hu1..|].
  cbn [mbind option_bind]. rewrite Hu1 in Hu2, Hundo.
  destruct (IH c2 Hok2 Hh Hwf Hnd) as (r & c3 & -> & Hok3 & Hb3 & Hr & Hundos).
  { rewrite Hu2. apply Forall_forall. intros tx' Hin. rewrite Forall_forall in Habs.
    apply utxo_update_absent; [|by apply Habs]. intros Heq. apply Hni. rewrite Heq. by apply list_elem_of_fmap_2. }
  { rewrite Hu2. by apply utxo_update_known. }
  cbn [mbind option_bind]. exists (option_map (cons undo) r), c3.
  split_and!; [done|done|by rewrite Hb3, Hb2| |].
  { rewrite <- Hu2, Hr. destruct r; cbn; split; try (intros [_ [? ?]]; done); try (intros [? ?]; done); eauto. }
  intros undos' E. destruct r as [undos|]; [|done]. injection E as <-.
  destruct (Hundos undos eq_refl) as (Hu3 & Hlen & Hdis).
  split_and!; [by rewrite Hu3, Hu2|cbn; by rewrite Hlen|]. intros c4 Hok4 Hu4.
  destruct (Hdis c4 Hok4 Hu4) as (c5 & E5 & Hok5 & Hu5 & Hb5).
  cbn [zip_with rev]. rewrite (disconnect_loop_app _ _ _ _ _ E5). cbn [disconnect_loop].
  destruct (disconnect_tx_ok tx undo h c5 (cache_utxo c)) as (c6 & -> & ? & ? & Hb6);
    [done|lia|done|by apply cache_utxo_unspent|done|by rewrite Hu5|done|done|].
  exists c6. cbn [mbind option_bind]. split_and!; [done|done|done|by rewrite Hb6].
Qed.

(** The first transaction of a block, and only it, is a coinbase ([CheckBlock]). *)
Definition coinbase_first (vtx : list CTransaction) : Prop :=
  match vtx with
  | [] => False
  | tx :: rest => IsCoinBase tx = true /\ Forall (fun tx => IsCoinBase tx = false) rest
  end.

Lemma zip_coinbase_first vtx (undos : list (list Coin)) :
  coinbase_first vtx -> length undos = length vtx ->
  zip_with (fun tx u => (tx, if IsCoinBase tx then None else Some u)) vtx undos
  = zip vtx (None :: map Some (drop 1 undos)).
Proof.
  intros Hcb Hl. destruct vtx as [|tx vtx], undos as [|u undos]; try done.
  destruct Hcb as [Hcb Hrest]. cbn [zip_with drop map]. rewrite Hcb, drop_0. f_equal.
  assert (length undos = length vtx) as Hl' by (simpl in Hl; lia). clear Hl Hcb.
  revert undos Hl'. induction Hrest as [|x l Hx Hr IH]; intros [|u' undos] Hl'; try done.
  cbn [zip_with map]. rewrite Hx, IH by (simpl in Hl'; lia). done.
Qed.

Lemma disconnect_block_ok vtx undos h hashPrev c c1 :
  coinbase_first vtx -> length undos = length vtx ->
  disconnect_loop (rev (zip_with (fun tx u => (tx, if IsCoinBase tx then None else Some u)) vtx undos)) h true c
    = Some (DISCONNECT_OK, c1) ->
  DisconnectBlock vtx (drop 1 undos) h hashPrev c = Some (DISCONNECT_OK, SetBestBlock hashPrev c1).
Proof.
  intros Hcb Hl E. unfold DisconnectBlock.
  assert ((length (drop 1 undos) + 1 =? length vtx)%nat = true) as ->.
  { apply Nat.eqb_eq. rewrite length_drop. destruct vtx; [done|]. simpl in Hl |- *. lia. }
  cbn [negb]. rewrite <- zip_coinbase_first, E by done. done.
Qed.

(** *** Value *)

Definition total_value m : Z := map_fold (fun _ co s => nValue (out co) + s) 0 m.

Lemma total_insert m o co : m !! o = None -> total_value (<[o := co]> m) = nValue (out co) + total_value m.
Proof. intros. unfold total_value. rewrite map_fold_insert_L; [done|intros; lia|done]. Qed.

Lemma total_delete m o co : m !! o = Some co -> total_value m = nValue (out co) + total_value (delete o m).
Proof. intros. unfold total_value. rewrite (map_fold_delete_L _ _ o co m); [done|intros; lia|done]. Qed.

(** Values of the inputs, of all outputs, and of the outputs nobody can spend. *)
Definition sum_inputs (ins : list CTxIn) m : Z :=
  foldr (fun i s => from_option (fun co => nValue (out co)) 0 (m !! prevout i) + s) 0 ins.
Definition sum_burned (l : list CTxOut) : Z :=
  foldr (fun o s => (if IsUnspendable (scriptPubKey o) then nValue o else 0) + s) 0 l.

Lemma total_spend ins m :
  NoDup (map prevout ins) -> Forall (fun i => is_Some (m !! prevout i)) ins ->
  total_value (utxo_spend ins m) = total_value m - sum_inputs ins m.
Proof.
  revert m. induction ins as [|i ins IH]; intros m Hnd Hin; cbn [utxo_spend foldl sum_inputs foldr]; [lia|].
  fold (utxo_spend ins (delete (prevout i) m)) (sum_inputs ins m).
  cbn [map] in Hnd. apply NoDup_cons in Hnd as [Hni Hnd]. apply Forall_cons in Hin as [[u Hu] Hin].
  assert (forall i', i' ∈ ins -> delete (prevout i) m !! prevout i' = m !! prevout i') as Hsame.
  { intros i' Hi'. apply lookup_delete_ne. intros Heq. apply Hni. rewrite Heq. by apply list_elem_of_fmap_2. }
  rewrite IH; [|done|].
  - rewrite (total_delete m _ _ Hu), Hu. cbn [from_option].
    assert (sum_inputs ins (delete (prevout i) m) = sum_inputs ins m) as ->; [|lia].
    unfold sum_inputs. clear -Hsame. induction ins as [|j ins IH]; [done|]. cbn [foldr].
    rewrite Hsame by apply list_elem_of_here. rewrite IH; [done|]. intros. apply Hsame. by apply list_elem_of_further.
  - rewrite Forall_forall in *. intros i' Hi'. rewrite Hsame by done. by apply Hin.
Qed.

Lemma total_outputs l txid i h cb m :
  (forall n, i <= n < i + Z.of_nat (length l) -> m !! {| op_hash := txid; op_n := n |} = None) ->
  total_value (utxo_outputs l txid i h cb m) = total_value m + sum_values l - sum_burned l.
Proof.
  revert i m. induction l as [|x l IH]; intros i m Hno; cbn [utxo_outputs sum_values sum_burned foldr]; [lia|].
  fold (sum_values l) (sum_burned l). cbn [length] in Hno. unfold utxo_add at 1. cbn [out Coin_make].
  destruct (IsUnspendable (scriptPubKey x)) eqn:Hun.
  - rewrite IH; [lia|]. intros n Hn. apply Hno. lia.
  - rewrite IH; [rewrite total_insert by (apply Hno; lia); cbn [out Coin_make]; lia|].
    intros n Hn. rewrite lookup_insert_ne by (intros [=]; lia). apply Hno. lia.
Qed.

Lemma utxo_update_total tx h m :
  tx_wf tx -> IsCoinBase tx = false -> inputs_present tx m -> outputs_absent tx m ->
  total_value (utxo_update tx h m) =
    total_value m - sum_inputs (vin tx) m + sum_values (vout tx) - sum_burned (vout tx).
Proof.
  intros [_ Hnd] Hcb Hp Hno. unfold utxo_update. rewrite Hcb, total_outputs.
  - rewrite total_spend by auto. lia.
  - intros n Hn. rewrite utxo_spend_lookup. case_decide; [done|by apply Hno].
Qed.

(** [AccessByTxid] returns the first unspent output of a transaction below the bound. *)
Lemma access_by_txid_loop_ok fuel txid i c co c' :
  cache_ok c -> access_by_txid_loop fuel txid i c = (co, c') ->
  same_view c c'
  /\ ((live co = None /\ forall n, i <= n < i + Z.of_nat fuel -> cache_utxo c !! {| op_hash := txid; op_n := n |} = None)
      \/ exists n, i <= n < i + Z.of_nat fuel /\ cache_utxo c !! {| op_hash := txid; op_n := n |} = Some co
           /\ forall k, i <= k < n -> cache_utxo c !! {| op_hash := txid; op_n := k |} = None).
Proof.
  revert i c. induction fuel as [|fuel IH]; intros i c Hok; cbn [access_by_txid_loop].
  { intros [= <- <-]. split; [by apply same_view_refl|]. left. split; [done|lia]. }
  destruct (AccessCoin _ c) as [a c1] eqn:E. destruct (AccessCoin_ok _ _ _ _ Hok E) as (Hlv & Hsv).
  destruct (IsSpent a) eqn:Hs; cbn [negb].
  - rewrite live_spent in Hlv by done. intros E2. destruct Hsv as (Hok1 & Hu1 & Hb1).
    destruct (IH _ c1 Hok1 E2) as (Hsv2 & Hres). split; [by apply (same_view_trans _ c1)|]. rewrite Hu1 in Hres.
    destruct Hres as [[Hn Hall]|(n & Hn & Hlk & Hk)].
    + left. split; [done|]. intros n Hn'. destruct (Z.eq_dec n i) as [->|]; [done|apply Hall; lia].
    + right. exists n. split_and!; [lia|lia|done|]. intros k Hk'.
      destruct (Z.eq_dec k i) as [->|]; [done|apply Hk; lia].
  - rewrite live_unspent in Hlv by done. intros [= <- <-]. split; [done|]. right.
    exists i. split_and!; [lia|lia|done|intros; lia].
Qed.

(** *** The whole block *)

Lemma ConnectBlock_ok vtx h hash c :
  cache_ok c -> 0 < h < 2 ^ 31 -> hash <> 0 -> coinbase_first vtx -> Forall tx_wf vtx -> NoDup (map tx_hash vtx) ->
  coins_known (cache_utxo c) ->
  exists r c', ConnectBlock vtx h hash c = Some (r, c') /\ cache_ok c'
  /\ (is_Some r <-> Forall (fun tx => outputs_absent tx (cache_utxo c)) vtx /\ inputs_available vtx h (cache_utxo c))
  /\ forall undos, r = Some undos ->
       cache_utxo c' = utxo_block vtx h (cache_utxo c) /\ cache_best c' = hash
       /\ forall hashPrev, hashPrev <> 0 ->
            exists c'', DisconnectBlock vtx undos h hashPrev c' = Some (DISCONNECT_OK, c'')
              /\ cache_ok c'' /\ cache_utxo c'' = cache_utxo c /\ cache_best c'' = hashPrev.
Proof.
  intros Hok Hh Hhash Hcb Hwf Hnd Hkn. unfold ConnectBlock.
  destruct (bip30_loop vtx c) as [b c1] eqn:Eb. destruct (bip30_loop_ok _ _ _ _ Hok Eb) as ((Hok1 & Hu1 & Hb1) & Hb).
  destruct b; cbn [negb]; cycle 1.
  { exists None, c1. split_and!; [done|done| |done]. split; [by intros [? ?]|].
    intros [Habs _]. by apply Hb in Habs. }
  assert (Forall (fun tx => outputs_absent tx (cache_utxo c)) vtx) as Habs by by apply Hb.
  destruct (connect_loop_ok vtx h c1) as (r & c2 & -> & Hok2 & Hb2 & Hr & Hundos); rewrite ?Hu1; try done.
  rewrite Hu1 in Hr, Hundos. cbn [mbind option_bind]. destruct r as [undos|]; cycle 1.
  { exists None, c2. split_and!; [done|done| |done]. rewrite Hr. tauto. }
  destruct (Hundos undos eq_refl) as (Hu2 & Hlen & Hdis).
  destruct (SetBestBlock_ok hash c2 Hok2) as (Hok3 & Hu3 & Hb3).
  eexists _, _. split; [done|]. split_and!; [done| |].
  { split; [|by eexists]. intros _. split; [done|]. by apply Hr. }
  intros undos' [= <-]. split_and!; [by rewrite Hu3|by apply Hb3|]. intros hashPrev Hprev.
  destruct (Hdis _ Hok3 Hu3) as (c4 & E4 & Hok4 & Hu4 & Hb4).
  eexists. split; [by apply disconnect_block_ok|].
  destruct (SetBestBlock_ok hashPrev c4 Hok4) as (Hok5 & Hu5 & Hb5). split_and!; [done|by rewrite Hu5|by apply Hb5].
Qed.

End Transactions.

(** ** A stack of two caches over a database with one coin, for the witnesses *)

Definition toy_outpoint : COutPoint := {| op_hash := 7; op_n := 0 |}.
Definition toy_coin : Coin := Coin_make (CTxOut_make 50 [0x51]) 5 false.
Definition toy_db : CCoinsViewDB := {| db_coins := {[ toy_outpoint := toy_coin ]}; db_best := 9 |}.
Definition toy_cache : CCoinsViewCache (CCoinsViewCache CCoinsViewDB) :=
  CCoinsViewCache_make (CCoinsViewCache_make toy_db).
Definition toy_tx (h : Z) (ins : list COutPoint) (vals : list Z) : CTransaction :=
  {| tx_nVersion := 2; vin := map (fun o => {| prevout := o; scriptSig := []; nSequence := SEQUENCE_FINAL |}) ins;
     vout := map (fun v => CTxOut_make v (if v =? 3 then [OP_RETURN] else [0x51])) vals; nLockTime := 0; tx_hash := h |}.
Definition toy_block : list CTransaction :=
  [toy_tx 20 [COutPoint_null] [100]; toy_tx 21 [toy_outpoint] [30; 3; 10]; toy_tx 22 [{| op_hash := 21; op_n := 2 |}] [10]].

Lemma toy_db_ok : view_ok toy_db.
Proof. apply map_Forall_singleton. reflexivity. Qed.

Lemma toy_cache_ok : cache_ok toy_cache.
Proof. apply cache_make_ok, cache_make_ok, toy_db_ok. Qed.

Lemma toy_cache_utxo : cache_utxo toy_cache = {[ toy_outpoint := toy_coin ]}.
Proof.
  unfold toy_cache. destruct (cache_make_ok (CCoinsViewCache_make toy_db)) as (_ & -> & _); [apply cache_make_ok, toy_db_ok|].
  destruct (cache_make_ok toy_db toy_db_ok) as (_ & E & _). exact E.
Qed.

Lemma toy_known : coins_known (cache_utxo toy_cache).
Proof. rewrite toy_cache_utxo. apply map_Forall_singleton. done. Qed.

(** ** Properties *)

(** C2: a cache over any view that keeps the view contract behaves as the set of
    unspent outputs it stands for, whatever it has cached: reading returns the
    element of the set and never changes it; adding a spendable coin where none is
    recorded (or with overwriting allowed) never throws and inserts it, an
    unspendable one is ignored; spending removes the element and hands out the coin;
    uncaching changes nothing.  The entry flags and the memory count stay exact
    ([cache_ok]). *)
Theorem coins_cache_refines {V : Type} `{CCoinsViewLaws V} (c : CCoinsViewCache V) (o : COutPoint) :
  cache_ok c ->
  (forall r c', GetCoin o c = (r, c') -> r = cache_utxo c !! o /\ same_view c c')
  /\ (forall r c', HaveCoin o c = (r, c') -> r = bool_decide (is_Some (cache_utxo c !! o)) /\ same_view c c')
  /\ (forall co c', AccessCoin o c = (co, c') -> live co = cache_utxo c !! o /\ same_view c c')
  /\ (forall co ow, IsSpent co = false -> (ow = false -> cache_utxo c !! o = None) ->
        exists c', AddCoin o co ow c = Some c' /\ cache_ok c' /\ cache_best c' = cache_best c
          /\ cache_utxo c' = if IsUnspendable (scriptPubKey (out co)) then cache_utxo c else <[o := co]> (cache_utxo c))
  /\ (forall r co c', SpendCoin o c = (r, co, c') ->
        cache_ok c' /\ cache_utxo c' = delete o (cache_utxo c) /\ live co = cache_utxo c !! o
        /\ (is_Some (cache_utxo c !! o) -> r = true))
  /\ same_view c (Uncache o c).
Proof.
  intros Hok. split_and!.
  - intros r c'. by apply GetCoin_ok.
  - intros r c'. by apply HaveCoin_ok.
  - intros co c'. by apply AccessCoin_ok.
  - intros co ow Hs Hno. destruct (AddCoin_ok o co ow c Hok Hs) as (c' & ? & ? & ? & ?); [auto|]. by exists c'.
  - intros r co c' E. by destruct (SpendCoin_ok _ _ _ _ _ Hok E) as (? & ? & _ & ? & ?).
  - by apply Uncache_ok.
Qed.

Lemma coins_cache_refines_witness :
  exists c', SpendCoin toy_outpoint toy_cache = (true, toy_coin, c') /\ cache_utxo c' = ∅.
Proof.
  destruct (SpendCoin toy_outpoint toy_cache) as [[r co] c'] eqn:E.
  destruct (coins_cache_refines toy_cache toy_outpoint toy_cache_ok) as (_ & _ & _ & _ & Hspend & _).
  destruct (Hspend r co c' E) as (_ & Hu & Hlv & Hr).
  exists c'. rewrite toy_cache_utxo in Hu, Hlv, Hr. rewrite lookup_singleton_eq in Hlv, Hr.
  rewrite Hr by done. apply live_Some in Hlv as [-> _]. split; [done|]. rewrite Hu. by apply delete_singleton_eq.
Defined.

(** [Flush] never throws on a consistent cache: the base ends up with exactly
    the set the cache showed and with its best block, the cache is empty and shows
    the same set.  The base may itself be a cache, whose [BatchWrite] then merges
    the entries with its own. *)
Theorem coins_flush_correct {V : Type} `{CCoinsViewLaws V} (c : CCoinsViewCache V) :
  cache_ok c ->
  exists c', Flush c = Some (true, c') /\ cache_ok c' /\ cacheCoins c' = ∅
    /\ cache_utxo c' = cache_utxo c /\ view_utxo (base c') = cache_utxo c
    /\ (hashBlock c <> 0 -> view_best (base c') = hashBlock c).
Proof.
  intros Hok. destruct (Flush_ok c Hok) as (c' & ? & ? & ? & ? & ? & ?). by exists c'.
Qed.

Lemma coins_flush_correct_witness :
  exists c1 c2, AddCoin {| op_hash := 8; op_n := 1 |} toy_coin false toy_cache = Some c1
    /\ Flush c1 = Some (true, c2) /\ size (view_utxo (base c2)) = 2%nat.
Proof.
  destruct (AddCoin_ok {| op_hash := 8; op_n := 1 |} toy_coin false toy_cache toy_cache_ok) as (c1 & E1 & Hok1 & Hu1 & _).
  { reflexivity. } { intros _ _. rewrite toy_cache_utxo. reflexivity. }
  destruct (coins_flush_correct c1 Hok1) as (c2 & E2 & _ & _ & _ & Hu2 & _).
  exists c1, c2. split_and!; [exact E1|exact E2|]. rewrite Hu2, Hu1, toy_cache_utxo. vm_compute. reflexivity.
Defined.

(** C1: connecting a block and disconnecting it with the undo data it produced is
    the identity on the set of unspent outputs.  A block with a leading coinbase,
    distinct txids and well-formed transactions never makes an assertion fail;
    it is accepted exactly when no output exists already and every transaction
    finds its inputs in the set left by its predecessors; the set is then the one
    obtained transaction by transaction, and [DisconnectBlock] reports
    [DISCONNECT_OK] and restores the set and the best block. *)
Theorem block_connect_disconnect {V : Type} `{CCoinsViewLaws V} (c : CCoinsViewCache V)
    (vtx : list CTransaction) (h hash hashPrev : Z) :
  cache_ok c -> 0 < h < 2 ^ 31 -> hash <> 0 -> hashPrev <> 0 ->
  coinbase_first vtx -> Forall tx_wf vtx -> NoDup (map tx_hash vtx) -> coins_known (cache_utxo c) ->
  exists r c', ConnectBlock vtx h hash c = Some (r, c')
  /\ (is_Some r <-> Forall (fun tx => outputs_absent tx (cache_utxo c)) vtx /\ inputs_available vtx h (cache_utxo c))
  /\ forall undos, r = Some undos ->
       cache_utxo c' = utxo_block vtx h (cache_utxo c) /\ cache_best c' = hash
       /\ exists c'', DisconnectBlock vtx undos h hashPrev c' = Some (DISCONNECT_OK, c'')
            /\ cache_ok c'' /\ cache_utxo c'' = cache_utxo c /\ cache_best c'' = hashPrev.
Proof.
  intros. destruct (ConnectBlock_ok vtx h hash c) as (r & c' & E & _ & Hr & Hu); [done..|].
  exists r, c'. split_and!; [done|done|]. intros undos Hundos. destruct (Hu undos Hundos) as (? & ? & Hd). auto.
Qed.

Lemma block_connect_disconnect_witness :
  exists undos c' c'', ConnectBlock toy_block 11 12 toy_cache = Some (Some undos, c')
    /\ size (cache_utxo c') = 3%nat
    /\ DisconnectBlock toy_block undos 11 9 c' = Some (DISCONNECT_OK, c'')
    /\ cache_utxo c'' = {[ toy_outpoint := toy_coin ]}.
Proof.
  destruct (block_connect_disconnect toy_cache toy_block 11 12 9 toy_cache_ok ltac:(lia) ltac:(lia) ltac:(lia))
    as (r & c' & E & Hr & Hu).
  - split; [reflexivity|]. repeat constructor.
  - repeat (apply Forall_cons; split; [split; [repeat (apply Forall_cons; split; [discriminate|]); apply Forall_nil; exact I|
      intros _; apply NoDup_singleton]|]). apply Forall_nil. exact I.
  - apply (bool_decide_unpack (NoDup (map tx_hash toy_block))). vm_compute. exact I.
  - exact toy_known.
  - assert (is_Some r) as [undos ->].
    { assert (Ev : option_map (fun x => bool_decide (is_Some x.1)) (ConnectBlock toy_block 11 12 toy_cache) = Some true)
        by (vm_compute; reflexivity).
      rewrite E in Ev. cbn in Ev. by case_bool_decide. }
    destruct (Hu undos eq_refl) as (Hu' & _ & c'' & E2 & _ & Hu2 & _).
    exists undos, c', c''. split_and!; [exact E| |exact E2|by rewrite Hu2, toy_cache_utxo].
    rewrite Hu', toy_cache_utxo. vm_compute. reflexivity.
Defined.

(** [UpdateCoins] of a transaction whose inputs are available never fails and
    creates no value: the total value of the unspent outputs changes by the value
    of the spendable outputs minus the value of the inputs, that is, it drops by the
    fee ([GetValueIn] minus [GetValueOut]) and by what goes to unspendable scripts. *)
Theorem update_coins_value {V : Type} `{CCoinsViewLaws V} (c : CCoinsViewCache V) (tx : CTransaction) (h vo : Z) :
  cache_ok c -> tx_wf tx -> IsCoinBase tx = false ->
  inputs_present tx (cache_utxo c) -> outputs_absent tx (cache_utxo c) -> GetValueOut tx = Some vo ->
  exists vi c1 undo c', GetValueIn tx c = (vi, c1) /\ same_view c c1
    /\ UpdateCoins tx h c = Some (undo, c') /\ cache_ok c'
    /\ vi = foldr (fun u s => nValue (out u) + s) 0 undo
    /\ total_value (cache_utxo c') = total_value (cache_utxo c) - (vi - vo) - sum_burned (vout tx).
Proof.
  intros Hok Hwf Hcb Hp Hno Hvo.
  destruct (GetValueIn tx c) as [vi c1] eqn:Evi. unfold GetValueIn in Evi. rewrite Hcb in Evi.
  destruct (value_in_loop_ok _ _ _ _ _ Hok Evi (Hp Hcb)) as (Hsv & Hvi).
  destruct (UpdateCoins_ok tx h c Hok Hwf Hp) as (undo & c' & Eu & Hok' & Hu & _ & Hundo); [done|].
  rewrite Hcb in Hundo. exists vi, c1, undo, c'. split_and!; [done..| |].
  - rewrite Hvi. clear -Hundo. induction Hundo as [|i u l k Hi Hl IH]; [done|]. cbn [foldr]. rewrite Hi. cbn [from_option]. lia.
  - rewrite Hu, utxo_update_total by done. apply GetValueOut_ok in Hvo as (_ & -> & _).
    unfold sum_inputs. lia.
Qed.

Lemma update_coins_value_witness :
  exists c', UpdateCoins (toy_tx 21 [toy_outpoint] [30; 3; 10]) 11 toy_cache = Some ([toy_coin], c')
    /\ total_value (cache_utxo c') = 50 - 7 - 3.
Proof.
  destruct (update_coins_value toy_cache (toy_tx 21 [toy_outpoint] [30; 3; 10]) 11 43 toy_cache_ok)
    as (vi & c1 & undo & c' & Evi & _ & Eu & _ & Hvi & Ht).
  - split; [repeat (apply Forall_cons; split; [discriminate|]); apply Forall_nil; exact I|]. intros _. apply NoDup_singleton.
  - reflexivity.
  - intros _. apply Forall_singleton. rewrite toy_cache_utxo. eexists. reflexivity.
  - intros n _. rewrite toy_cache_utxo. by apply lookup_singleton_ne.
  - vm_compute. reflexivity.
  - exists c'. assert (undo = [toy_coin]) as ->.
    { assert (Ev : option_map fst (UpdateCoins (toy_tx 21 [toy_outpoint] [30; 3; 10]) 11 toy_cache) = Some [toy_coin])
        by (vm_compute; reflexivity).
      rewrite Eu in Ev. by injection Ev. }
    split; [exact Eu|]. rewrite Ht, Hvi, toy_cache_utxo. vm_compute. reflexivity.
Defined.

(** [ApplyTxInUndo] restores a coin of known height where there is none and
    reports [DISCONNECT_OK].  Where a coin exists already, only a coinbase is
    overwritten with the result [DISCONNECT_UNCLEAN]; for any other spendable coin
    the call to [AddCoin] throws, so that the unclean result its comment announces is
    never returned. *)
Theorem apply_undo_cases {V : Type} `{CCoinsViewLaws V} (c : CCoinsViewCache V) (u : Coin) (o : COutPoint) :
  cache_ok c -> coin_nHeight u <> 0 -> IsSpent u = false -> IsUnspendable (scriptPubKey (out u)) = false ->
  match cache_utxo c !! o with
  | None => exists c', ApplyTxInUndo u o c = Some (DISCONNECT_OK, c') /\ cache_ok c' /\ cache_utxo c' = <[o := u]> (cache_utxo c)
  | Some _ =>
      if fCoinBase u
      then exists c', ApplyTxInUndo u o c = Some (DISCONNECT_UNCLEAN, c') /\ cache_ok c' /\ cache_utxo c' = <[o := u]> (cache_utxo c)
      else ApplyTxInUndo u o c = None
  end.
Proof.
  intros Hok Hh Hsp Hun. destruct (cache_utxo c !! o) as [x|] eqn:Hx.
  - unfold ApplyTxInUndo. destruct (HaveCoin o c) as [b c1] eqn:E.
    destruct (HaveCoin_ok _ _ _ _ Hok E) as (-> & Hok1 & Hu1 & _). rewrite Hx.
    rewrite (proj2 (Z.eqb_neq _ _)), bool_decide_true by done. cbn [negb].
    destruct (fCoinBase u) eqn:Hcb.
    + destruct (AddCoin_ok o u true c1 Hok1 Hsp) as (c2 & -> & Hok2 & Hu2 & _); [done|].
      exists c2. cbn. split_and!; [done|done|]. rewrite Hu2. unfold utxo_add. by rewrite Hun, Hu1.
    + assert (HaveCoinInCache o c1 = true) as Hin.
      { unfold HaveCoin in E. destruct (FetchCoin o c) as [it c2] eqn:Ef.
        destruct (FetchCoin_ok _ _ _ _ Hok Ef) as (_ & _ & _ & _ & Hlk & Hit).
        injection E as Eb <-. unfold HaveCoinInCache. rewrite Hlk. destruct it; [|by rewrite Hx in Hit].
        rewrite Hx in Hit. by apply live_Some in Hit as [_ ->]. }
      unfold AddCoin. rewrite Hsp, Hun. unfold HaveCoinInCache in Hin.
      destruct (cacheCoins c1 !! o) as [e|]; [|done]. cbn [from_option]. unfold id. cbn [negb andb]. by rewrite Hin.
  - destruct (ApplyTxInUndo_ok u o c Hok Hh Hsp Hx) as (c' & ? & ? & Hu & _). exists c'.
    split_and!; [done|done|]. rewrite Hu. unfold utxo_add. by rewrite Hun.
Qed.

Lemma apply_undo_cases_witness : ApplyTxInUndo toy_coin toy_outpoint toy_cache = None.
Proof.
  pose proof (apply_undo_cases toy_cache toy_coin toy_outpoint toy_cache_ok ltac:(discriminate) eq_refl eq_refl) as H.
  rewrite toy_cache_utxo in H. rewrite lookup_singleton_eq in H. exact H.
Defined.
