(* ===== verification/Pow.v ===== *)
(** * Proof of work

    Models [src/src/pow.cpp] (the three difficulty algorithms, their dispatch and
    the check of a block hash), the proof-of-work parameters of
    [src/src/consensus/params.h] and their values for the four networks in
    [src/src/chainparams.cpp].

    A [CBlockIndex*] is a key of the block index, as in [Chain].  A null pointer
    that is dereferenced and a failed [assert] are [None].  The event horizon of
    Kimoto's gravity well is computed in C++ with [pow] on doubles; whether a step is
    outside the horizon is a parameter of the model. *)

From stdpp Require Import gmap.
From Stdlib Require Import SpecFloat.
From S2P Require Import Prelude ArithUint256 Amount Chain.

(** ** Parameters *)

Record Params := {
  powLimit : Z;
  fPowAllowMinDifficultyBlocks : bool;
  fPowNoRetargeting : bool;
  nPowTargetSpacing : Z;
  nPowTargetTimespan : Z;
  nPowKGWHeight : Z;
  nPowDGWHeight : Z;
}.

Definition DifficultyAdjustmentInterval (p : Params) : Z :=
  Z.quot (nPowTargetTimespan p) (nPowTargetSpacing p).

Inductive Network := MAIN | TESTNET | DEVNET | REGTEST.

#[global] Instance Network_eq_dec : EqDecision Network.
Proof. solve_decision. Defined.

Definition main_params : Params := {|
  powLimit := 0x00000fffffffffffffffffffffffffffffffffffffffffffffffffffffffffff;
  fPowAllowMinDifficultyBlocks := false; fPowNoRetargeting := false;
  nPowTargetSpacing := 60; nPowTargetTimespan := 180; nPowKGWHeight := 15200; nPowDGWHeight := 0 |}.
Definition test_params : Params := {|
  powLimit := 0x00000fffffffffffffffffffffffffffffffffffffffffffffffffffffffffff;
  fPowAllowMinDifficultyBlocks := true; fPowNoRetargeting := false;
  nPowTargetSpacing := 60; nPowTargetTimespan := 300; nPowKGWHeight := 4001; nPowDGWHeight := 0 |}.
Definition dev_params : Params := {|
  powLimit := 0x7fffffffffffffffffffffffffffffffffffffffffffffffffffffffffffffff;
  fPowAllowMinDifficultyBlocks := true; fPowNoRetargeting := false;
  nPowTargetSpacing := 60; nPowTargetTimespan := 300; nPowKGWHeight := 4001; nPowDGWHeight := 0 |}.
Definition regtest_params : Params := {|
  powLimit := 0x7fffffffffffffffffffffffffffffffffffffffffffffffffffffffffffffff;
  fPowAllowMinDifficultyBlocks := true; fPowNoRetargeting := true;
  nPowTargetSpacing := 60; nPowTargetTimespan := 300; nPowKGWHeight := 15200; nPowDGWHeight := 0 |}.

(** [Params(network).GetConsensus()] *)
Definition params_of (n : Network) : Params :=
  match n with MAIN => main_params | TESTNET => test_params | DEVNET => dev_params | REGTEST => regtest_params end.

(** [UintToArith256] of the [uint256] with this value. *)
Definition arith_of (h : Z) : base_uint := UintToArith256 (le_encode 32 h).

(** [UintToArith256(Params(CBaseChainParams::REGTEST).GetConsensus().powLimit).GetCompact()] *)
Definition regTestBits : option Z := GetCompact (arith_of (powLimit regtest_params)).

Section Work.
Variable m : BlockMap.

Definition GetBlockTime (b : CBlockIndex) : Z := nTime b.

(** ** Dark Gravity Wave *)

Definition nPastBlocks : Z := 24.

(** The loop over the window: [n] iterations are left, [nCountBlocks] counts from 1. *)
Fixpoint dgw_loop (n : nat) (nCountBlocks : Z) (pindex : ptr) (bnPastTargetAvg : base_uint)
  : option (base_uint * ptr) :=
  match n with
  | O => Some (bnPastTargetAvg, pindex)
  | S n' =>
      b ← m !! pindex;
      let bnTarget := SetCompact_val (nBits b) in
      avg ← (if nCountBlocks =? 1 then Some bnTarget
             else bn_div (bn_add (bn_mul32 bnPastTargetAvg nCountBlocks) bnTarget) (of_u64 (nCountBlocks + 1)));
      if negb (nCountBlocks =? nPastBlocks) then
        q ← pprev b;
        dgw_loop n' (nCountBlocks + 1) q avg
      else dgw_loop n' (nCountBlocks + 1) pindex avg
  end.

Definition DarkGravityWave (pindexLast : ptr) (blockTime : Z) (params : Params) : option Z :=
  last ← m !! pindexLast;
  if fPowNoRetargeting params then Some (nBits last)
  else
    let bnPowLimit := arith_of (powLimit params) in
    if nHeight last <=? nPastBlocks then regTestBits
    else if fPowAllowMinDifficultyBlocks params
            && (blockTime >? GetBlockTime last + nPowTargetSpacing params * 2)
    then GetCompact bnPowLimit
    else
      '(bnPastTargetAvg, pindex) ← dgw_loop (Z.to_nat nPastBlocks) 1 pindexLast bn_zero;
      first ← m !! pindex;
      let nActualTimespan := GetBlockTime last - GetBlockTime first in
      let nTargetTimespan := nPastBlocks * nPowTargetSpacing params in
      let nActualTimespan :=
        if nActualTimespan <? Z.quot nTargetTimespan 10 then Z.quot nTargetTimespan 10 else nActualTimespan in
      let nActualTimespan :=
        if nActualTimespan >? nTargetTimespan * 10 then nTargetTimespan * 10 else nActualTimespan in
      bnNew ← bn_div (bn_mul32 bnPastTargetAvg nActualTimespan) (of_u64 nTargetTimespan);
      let bnNew := if bn_gt bnNew bnPowLimit then bnPowLimit else bnNew in
      GetCompact bnNew.

(** ** Kimoto's gravity well *)

Section Kimoto.
(** [outside mass target actual]: the adjustment ratio of a window of [mass] blocks lies
    outside the event horizon. *)
Variable outside : Z -> Z -> Z -> bool.

(** [params.nPowTargetTimespan * 0.025] *)
Definition d_0_025 : spec_float := S754_finite false 7205759403792794 (-58).

Definition kgw_average (i : Z) (avg prev : base_uint) : option base_uint :=
  if i >? 1 then
    if bn_ge avg prev
    then q ← bn_div (bn_sub avg prev) (of_u64 i); Some (bn_add q prev)
    else q ← bn_div (bn_sub prev avg) (of_u64 i); Some (bn_sub prev q)
  else Some avg.

(** The window loop: the average, the actual and the target seconds. *)
Fixpoint kgw_loop (fuel : nat) (params : Params) (solved : CBlockIndex) (reading : option ptr)
    (i mass pastMin pastMax : Z) (prev : base_uint) (actual target : Z) : option (base_uint * Z * Z) :=
  match fuel, reading with
  | S fuel', Some p =>
      b ← m !! p;
      if negb (nHeight b >? 0) then Some (prev, actual, target)
      else if (pastMax >? 0) && (i >? pastMax) then Some (prev, actual, target)
      else
        let mass := mass + 1 in
        avg ← kgw_average i (SetCompact_val (nBits b)) prev;
        let actual := GetBlockTime solved - GetBlockTime b in
        let target := nPowTargetSpacing params * mass in
        let actual := if actual <? 0 then 0 else actual in
        if (mass >=? pastMin) && outside mass target actual then Some (avg, actual, target)
        else
          match pprev b with
          | None => Some (avg, actual, target)
          | Some q => kgw_loop fuel' params solved (Some q) (i + 1) mass pastMin pastMax avg actual target
          end
  | _, _ => Some (prev, actual, target)
  end.

Definition KimotoGravityWell (pindexLast : ptr) (params : Params) : option Z :=
  last ← m !! pindexLast;
  let pastSecondsMin := mul_double (nPowTargetTimespan params) d_0_025 in
  let pastSecondsMax := nPowTargetTimespan params * 7 in
  let pastMin := Z.quot pastSecondsMin (nPowTargetSpacing params) in
  let pastMax := Z.quot pastSecondsMax (nPowTargetSpacing params) in
  let bnPowLimit := arith_of (powLimit params) in
  if (nHeight last <=? 1000) || (nHeight last <? pastMin) then GetCompact bnPowLimit
  else
    '(bnNew, actual, target) ←
      kgw_loop (S (Z.to_nat (nHeight last))) params last (Some pindexLast) 1 0 pastMin pastMax bn_zero 0 0;
    bnNew ← (if negb (actual =? 0) && negb (target =? 0)
             then bn_div (bn_mul32 bnNew actual) (of_u64 target) else Some bnNew);
    GetCompact (if bn_gt bnNew bnPowLimit then bnPowLimit else bnNew).

(** ** The original retargeting *)

Definition CalculateNextWorkRequired (pindexLast : ptr) (nFirstBlockTime : Z) (params : Params) : option Z :=
  last ← m !! pindexLast;
  if fPowNoRetargeting params then Some (nBits last)
  else
    let nActualTimespan := GetBlockTime last - nFirstBlockTime in
    let span := nPowTargetTimespan params in
    let nActualTimespan := if nActualTimespan <? Z.quot span 4 then Z.quot span 4 else nActualTimespan in
    let nActualTimespan := if nActualTimespan >? span * 4 then span * 4 else nActualTimespan in
    let bnPowLimit := arith_of (powLimit params) in
    bnNew ← bn_div (bn_mul32 (SetCompact_val (nBits last)) nActualTimespan) (of_u64 span);
    GetCompact (if bn_gt bnNew bnPowLimit then bnPowLimit else bnNew).

(** The walk back over minimum-difficulty blocks. *)
Fixpoint skip_min_difficulty (fuel : nat) (interval limitBits : Z) (pindex : ptr) : option Z :=
  b ← m !! pindex;
  match fuel, pprev b with
  | S f, Some q =>
      if negb (Z.rem (nHeight b) interval =? 0) && (nBits b =? limitBits)
      then skip_min_difficulty f interval limitBits q else Some (nBits b)
  | _, _ => Some (nBits b)
  end.

Definition GetNextWorkRequiredBTC (pindexLast : option ptr) (blockTime : Z) (params : Params) : option Z :=
  nProofOfWorkLimit ← GetCompact (arith_of (powLimit params));
  match pindexLast with
  | None => Some nProofOfWorkLimit
  | Some p =>
      last ← m !! p;
      let interval := DifficultyAdjustmentInterval params in
      if negb (Z.rem (nHeight last + 1) interval =? 0) then
        if fPowAllowMinDifficultyBlocks params then
          if blockTime >? GetBlockTime last + nPowTargetSpacing params * 2 then Some nProofOfWorkLimit
          else skip_min_difficulty (Z.to_nat (nHeight last)) interval nProofOfWorkLimit p
        else Some (nBits last)
      else
        let nHeightFirst := nHeight last - (interval - 1) in
        if negb (nHeightFirst >=? 0) then None
        else
          pf ← GetAncestor m p nHeightFirst;
          pindexFirst ← pf;
          first ← m !! pindexFirst;
          CalculateNextWorkRequired p (GetBlockTime first) params
  end.

Definition GetNextWorkRequired (pindexLast : ptr) (blockTime : Z) (params : Params) : option Z :=
  last ← m !! pindexLast;
  if nHeight last + 1 >=? nPowDGWHeight params then DarkGravityWave pindexLast blockTime params
  else if nHeight last + 1 >=? nPowKGWHeight params then KimotoGravityWell pindexLast params
  else GetNextWorkRequiredBTC (Some pindexLast) blockTime params.

End Kimoto.
End Work.

(** ** Checking a hash *)

Definition CheckProofOfWork (network : Network) (hash nBits : Z) (params : Params) : option bool :=
  regBits ← regTestBits;
  if negb (bool_decide (network = REGTEST)) && (nBits =? regBits) then Some true
  else
    let '(bnTarget, fNegative, fOverflow) := SetCompact nBits in
    if fNegative || EqualTo bnTarget 0 || fOverflow || bn_gt bnTarget (arith_of (powLimit params)) then Some false
    else if bn_gt (arith_of hash) bnTarget then Some false
    else Some true.

(** ** Reference definitions over the integers *)

(** The last [n] entries of a chain, newest first. *)
Fixpoint window (m : BlockMap) (n : nat) (p : ptr) : option (list CBlockIndex) :=
  match n with
  | O => Some []
  | S n' =>
      b ← m !! p;
      match n' with
      | O => Some [b]
      | _ => q ← pprev b; rest ← window m n' q; Some (b :: rest)
      end
  end.

Definition target (b : CBlockIndex) : Z := compact_value (nBits b).

(** The moving average of targets, newest first: the [k]-th is weighted [1/(k+1)]. *)
Fixpoint moving_average (k avg : Z) (ts : list Z) : Z :=
  match ts with
  | [] => avg
  | t :: ts => moving_average (k + 1) (if k =? 1 then t else (avg * k + t) / (k + 1)) ts
  end.

(** The same computed modulo [2^256], as the code does it. *)
Fixpoint wrapped_average (k avg : Z) (ts : list Z) : Z :=
  match ts with
  | [] => avg
  | t :: ts => wrapped_average (k + 1) (if k =? 1 then wrap 256 t else wrap 256 (avg * k + t) / (k + 1)) ts
  end.

Definition clamp (lo hi x : Z) : Z := Z.min hi (Z.max lo x).

(** The new target before it is encoded: the average, scaled by the clamped time ratio
    and capped by the limit; over the integers and modulo [2^256]. *)
Definition dgw_target (limit spacing : Z) (bs : list CBlockIndex) (elapsed : Z) : Z :=
  let span := 24 * spacing in
  Z.min limit (moving_average 1 0 (map target bs) * clamp (span / 10) (span * 10) elapsed / span).

Definition dgw_wrapped (limit spacing : Z) (bs : list CBlockIndex) (elapsed : Z) : Z :=
  let span := 24 * spacing in
  Z.min limit (wrap 256 (wrapped_average 1 0 (map target bs) * clamp (span / 10) (span * 10) elapsed) / span).

(** ** Lemmas *)

Lemma UintToArith256_val b :
  length b = 32%nat -> bytes_ok b -> wf (UintToArith256 b) /\ val (UintToArith256 b) = le_decode b.
Proof.
  intros Hl Hb. split.
  - split; [done|]. unfold UintToArith256. apply Forall_map, Forall_forall. intros x Hx.
    rewrite elem_of_seq in Hx. unfold compose, WIDTH in *.
    pose proof (le_decode_range (take 4 (drop (x * 4) b)) ltac:(by apply Forall_take, Forall_drop)) as H.
    rewrite length_take, length_drop in H. unfold in_u.
    replace (Nat.min 4 (length b - x * 4)) with 4%nat in H by lia. exact H.
  - clear Hb. explode_list b Hl. cbn [UintToArith256 map seq WIDTH Nat.mul Nat.add take drop val le_decode]. lia.
Qed.

Lemma arith_of_ok h : in_u 256 h -> wf (arith_of h) /\ val (arith_of h) = h.
Proof.
  intros Hh. destruct (UintToArith256_val (le_encode 32 h)) as [W V].
  - apply le_encode_length.
  - apply le_encode_bytes.
  - split; [done|]. unfold arith_of. rewrite V. by apply le_decode_encode.
Qed.

Lemma regTestBits_value : regTestBits = Some 0x207fffff.
Proof. vm_compute. reflexivity. Qed.

Lemma moving_average_bounds lo hi k avg ts :
  1 <= k -> (k = 1 \/ lo <= avg <= hi) -> ts <> [] \/ k <> 1 ->
  Forall (fun t => lo <= t <= hi) ts -> lo <= moving_average k avg ts <= hi.
Proof.
  intros Hk Havg Hne Hts. revert k avg Hk Havg Hne.
  induction Hts as [|t ts Ht Hts IH]; intros k avg Hk Havg Hne; cbn [moving_average].
  { destruct Hne; [done|]. lia. }
  apply IH; [lia| |right; lia]. right. destruct (k =? 1) eqn:E; zbool; [done|].
  destruct Havg as [?|Havg]; [lia|]. split; [apply Z.div_le_lower_bound; nia|].
  apply Z.lt_succ_r, Z.div_lt_upper_bound; nia.
Qed.

Lemma wrapped_average_small limit k avg ts :
  limit * 25 < 2 ^ 256 -> 1 <= k -> k + Z.of_nat (length ts) <= 25 -> (k = 1 \/ 0 <= avg <= limit) ->
  Forall (fun t => 0 <= t <= limit) ts -> wrapped_average k avg ts = moving_average k avg ts.
Proof.
  intros Hlim Hk Hlen Havg Hts. revert k avg Hk Hlen Havg.
  induction Hts as [|t ts Ht Hts IH]; intros k avg Hk Hlen Havg; cbn [wrapped_average moving_average]; [done|].
  cbn [length] in Hlen. destruct (Z.eqb_spec k 1) as [->|Hk1].
  - rewrite wrap_small by (unfold in_u; lia). apply IH; [lia|lia|by right].
  - destruct Havg as [?|Havg]; [done|]. rewrite wrap_small by (unfold in_u; nia). apply IH; [lia|lia|right].
    split; [apply Z.div_pos; nia|apply Z.lt_succ_r, Z.div_lt_upper_bound; nia].
Qed.

Lemma average_step avg t k :
  wf avg -> wf t -> 1 <= k <= 24 ->
  exists q, bn_div (bn_add (bn_mul32 avg k) t) (of_u64 (k + 1)) = Some q /\ wf q
    /\ val q = wrap 256 (val avg * k + val t) / (k + 1).
Proof.
  intros Wa Wt Hk. destruct (div_ok (bn_add (bn_mul32 avg k) t) (of_u64 (k + 1))) as (q & E & Wq & Vq).
  - apply add_wf; [by apply mul32_wf|done].
  - apply wf_of_u64.
  - rewrite val_of_u64; unfold in_u; lia.
  - exists q. split_and!; [done|done|]. rewrite Vq, val_of_u64 by (unfold in_u; lia).
    rewrite add_val, mul32_val by (done || by apply mul32_wf).
    rewrite wrap_small by (unfold in_u; lia). unfold wrap. rewrite Zplus_mod_idemp_l. do 2 f_equal. lia.
Qed.

(** The loop goes through the window whatever the targets are. *)
Lemma dgw_loop_ok m bs n k p avg :
  window m n p = Some bs -> Forall (fun b => in_u 32 (nBits b)) bs ->
  k + Z.of_nat n = 25 -> 1 <= k -> (0 < n)%nat -> wf avg ->
  exists avg' q b, dgw_loop m n k p avg = Some (avg', q) /\ wf avg'
    /\ val avg' = wrapped_average k (val avg) (map target bs) /\ m !! q = Some b /\ last bs = Some b.
Proof.
  intros Hw Hbs. revert bs k p avg Hw Hbs.
  induction n as [|n IH]; intros bs k p avg Hw Hbs Hkn Hk Hn Wavg; [lia|].
  cbn [window] in Hw. destruct (m !! p) as [b|] eqn:Hp; [|done]. cbn [mbind option_bind] in Hw.
  cbn [dgw_loop]. rewrite Hp. cbn [mbind option_bind].
  assert (exists bs', bs = b :: bs') as [bs' ->].
  { destruct n; [by injection Hw as <-; eexists|]. destruct (pprev b) as [q|]; [|done]. cbn [mbind option_bind] in Hw.
    destruct (window m (S n) q); [|done]. cbn [mbind option_bind] in Hw. injection Hw as <-. by eexists. }
  apply Forall_cons in Hbs as [Hbits Hbs]. destruct (SetCompact_ok (nBits b) Hbits) as [Wt Vt].
  assert (exists avg1, (if k =? 1 then Some (SetCompact_val (nBits b))
      else bn_div (bn_add (bn_mul32 avg k) (SetCompact_val (nBits b))) (of_u64 (k + 1))) = Some avg1
      /\ wf avg1 /\ val avg1 = (if k =? 1 then wrap 256 (target b) else wrap 256 (val avg * k + target b) / (k + 1)))
    as (avg1 & -> & W1 & V1).
  { destruct (k =? 1); [by eexists|]. destruct (average_step avg (SetCompact_val (nBits b)) k Wavg Wt) as (q & Eq & Wq & Vq); [lia|].
    exists q. split_and!; [done|done|]. rewrite Vq, Vt. unfold wrap. by rewrite Zplus_mod_idemp_r. }
  cbn [mbind option_bind map wrapped_average]. rewrite <- V1. unfold nPastBlocks.
  destruct n as [|n].
  - rewrite (proj2 (Z.eqb_eq k 24)) by lia. cbn [negb dgw_loop]. injection Hw as <-.
    exists avg1, p, b. done.
  - rewrite (proj2 (Z.eqb_neq k 24)) by lia. cbn [negb].
    destruct (pprev b) as [q|]; [|done]. cbn [mbind option_bind] in Hw |- *.
    destruct (window m (S n) q) as [rest|] eqn:Hq; [|done]. cbn [mbind option_bind] in Hw. injection Hw as ->.
    destruct (IH bs' (k + 1) q avg1 Hq Hbs) as (avg' & q' & b' & E & W' & V' & Hq' & Hlast); [lia|lia|lia|done|].
    exists avg', q', b'. split_and!; [done..|]. destruct bs'; [done|exact Hlast].
Qed.

(** The window exists in every well-formed index above the minimum height. *)
Lemma window_exists m p b n :
  wf_index m -> m !! p = Some b -> Z.of_nat n <= nHeight b + 1 -> exists bs, window m n p = Some bs /\ length bs = n.
Proof.
  intros W. revert p b. induction n as [|n IH]; intros p b Hp Hn; [by exists []|].
  cbn [window]. rewrite Hp. cbn [mbind option_bind]. destruct n as [|n]; [by exists [b]|].
  destruct (W p b Hp) as [Hroot Hprev _ _]. destruct (pprev b) as [q|]; [|destruct Hroot; [done|lia]].
  destruct (Hprev q eq_refl) as (bq & Hq & Hh). destruct (IH q bq Hq) as (bs & E & Hl); [lia|].
  cbn [mbind option_bind]. rewrite E. cbn [mbind option_bind]. exists (b :: bs). simpl in *. auto with lia.
Qed.

(** Scaling a target by a bounded ratio, modulo [2^256]. *)
Lemma retarget_ok a actual span limit :
  wf a -> 0 < span < 2 ^ 32 -> 0 <= actual < 2 ^ 32 -> in_u 256 limit ->
  exists q, bn_div (bn_mul32 a actual) (of_u64 span) = Some q /\
    exists r, (if bn_gt q (arith_of limit) then arith_of limit else q) = r /\ wf r
      /\ val r = Z.min limit (wrap 256 (val a * actual) / span).
Proof.
  intros Wa Hspan Hact Hlim. destruct (arith_of_ok limit Hlim) as [Wl Vl].
  destruct (div_ok (bn_mul32 a actual) (of_u64 span)) as (q & E & Wq & Vq).
  - by apply mul32_wf.
  - apply wf_of_u64.
  - rewrite val_of_u64; unfold in_u; lia.
  - exists q. split; [done|]. rewrite val_of_u64, mul32_val in Vq by (done || (unfold in_u; lia)).
    rewrite wrap_small, Z.mul_comm in Vq by (unfold in_u; lia). change (val q = wrap 256 (val a * actual) / span) in Vq.
    eexists. split; [done|]. rewrite gt_val, Vl by done.
    destruct (limit <? val q) eqn:El; zbool; split; [done|rewrite Vl; lia|done|lia].
Qed.

Lemma clamp_code lo hi x :
  0 <= lo <= hi ->
  (let a := if x <? lo then lo else x in if a >? hi then hi else a) = clamp lo hi x.
Proof.
  intros. cbv zeta. unfold clamp. rewrite Z.gtb_ltb.
  destruct (x <? lo) eqn:E1; zbool; destruct (hi <? _) eqn:E2; zbool; lia.
Qed.

(** The compact encoding of a value, as [GetCompact] returns it. *)
Definition compact_of (v : Z) : Z := if v =? 0 then 0 else norm_mant v + norm_size v * 2 ^ 24.

Lemma GetCompact_of a : wf a -> GetCompact a = Some (compact_of (val a)).
Proof.
  intros Wa. pose proof (wf_range _ Wa). unfold compact_of. case_if; [by apply GetCompact_zero|].
  apply GetCompact_eq; [done|lia].
Qed.

(** On every network the dispatch always takes Dark Gravity Wave. *)
Lemma GetNextWorkRequired_dgw m outside n p b t :
  m !! p = Some b -> 0 <= nHeight b ->
  GetNextWorkRequired m outside p t (params_of n) = DarkGravityWave m p t (params_of n).
Proof.
  intros Hp Hh. unfold GetNextWorkRequired. rewrite Hp. cbn [mbind option_bind].
  by rewrite (proj2 (Z.geb_le _ _)) by (destruct n; cbn; lia).
Qed.

(** The timestamp of the next block lies more than two minutes after the last one's. *)
Definition is_late (t : Z) (last : CBlockIndex) : Prop := nTime last + 2 * 60 < t.

Lemma DarkGravityWave_ok m p last t (params : Params) bs first :
  m !! p = Some last -> 24 < nHeight last -> fPowNoRetargeting params = false ->
  (fPowAllowMinDifficultyBlocks params = true -> ~ is_late t last) ->
  nPowTargetSpacing params = 60 -> in_u 256 (powLimit params) ->
  window m 24 p = Some bs -> Forall (fun b => in_u 32 (nBits b)) bs -> list.last bs = Some first ->
  DarkGravityWave m p t params =
    Some (compact_of (dgw_wrapped (powLimit params) 60 bs (nTime last - nTime first))).
Proof.
  intros Hp Hh Hno Hmin Hsp Hlim Hw Hbs Hfirst. unfold DarkGravityWave, GetBlockTime. rewrite Hp. cbn [mbind option_bind].
  rewrite Hno. unfold nPastBlocks at 1. rewrite (proj2 (Z.leb_gt _ _)) by lia.
  assert (fPowAllowMinDifficultyBlocks params && (t >? nTime last + nPowTargetSpacing params * 2) = false) as ->.
  { destruct (fPowAllowMinDifficultyBlocks params); [|done]. specialize (Hmin eq_refl). unfold is_late in Hmin.
    cbn [andb]. rewrite Z.gtb_ltb, Hsp. apply Z.ltb_ge. lia. }
  destruct (dgw_loop_ok m bs 24 1 p bn_zero Hw Hbs) as (avg & q & b & E & Wavg & Vavg & Hq & Hlast);
    [lia|lia|lia|apply wf_zero|].
  change (Z.to_nat nPastBlocks) with 24%nat. rewrite E. cbn [mbind option_bind]. rewrite Hq. cbn [mbind option_bind].
  rewrite Hfirst in Hlast. injection Hlast as <-.
  rewrite Hsp. unfold nPastBlocks. change (24 * 60) with 1440. change (Z.quot 1440 10) with 144. change (1440 * 10) with 14400.
  pose proof (clamp_code 144 14400 (nTime last - nTime first) ltac:(lia)) as Hc. cbv zeta in Hc. rewrite Hc.
  change (val bn_zero) with 0 in Vavg.
  destruct (retarget_ok avg (clamp 144 14400 (nTime last - nTime first)) 1440 (powLimit params) Wavg)
    as (r & -> & r' & Er & Wr & Vr); [lia|unfold clamp; lia|done|].
  cbn [mbind option_bind]. rewrite Er, (GetCompact_of _ Wr), Vr. unfold dgw_wrapped. rewrite <- Vavg. done.
Qed.

(** Late blocks, where the network has a rule for them. *)
Lemma DarkGravityWave_late m p last t (params : Params) :
  m !! p = Some last -> 24 < nHeight last -> fPowNoRetargeting params = false ->
  fPowAllowMinDifficultyBlocks params = true -> is_late t last -> nPowTargetSpacing params = 60 -> in_u 256 (powLimit params) ->
  DarkGravityWave m p t params = Some (compact_of (powLimit params)).
Proof.
  intros Hp Hh Hno Hmin Ht Hsp Hlim. unfold DarkGravityWave, GetBlockTime, is_late in *. rewrite Hp. cbn [mbind option_bind].
  rewrite Hno, Hmin, Hsp. unfold nPastBlocks at 1. rewrite (proj2 (Z.leb_gt _ _)), Z.gtb_ltb, (proj2 (Z.ltb_lt _ _)) by lia. cbn [andb].
  destruct (arith_of_ok _ Hlim) as [W V]. by rewrite (GetCompact_of _ W), V.
Qed.

(** Below [2^240] nothing overflows, and the new target is near those of the window. *)
Lemma dgw_no_overflow limit bs elapsed :
  0 < limit < 2 ^ 240 -> length bs = 24%nat -> Forall (fun b => in_u 32 (nBits b) /\ target b <= limit) bs ->
  let T := dgw_wrapped limit 60 bs elapsed in
  T = dgw_target limit 60 bs elapsed /\ 0 <= T <= limit
  /\ forall lo hi, 0 <= lo -> Forall (fun b => lo <= target b <= hi) bs -> Z.min limit (lo / 10) <= T <= 10 * hi.
Proof.
  intros Hlim Hlen Hbs.
  assert (Forall (fun t => 0 <= t <= limit) (map target bs)) as Hts.
  { apply Forall_map. eapply Forall_impl; [exact Hbs|]. intros b [Hb ?]. pose proof (compact_value_nonneg _ Hb). unfold compose, target in *. lia. }
  assert (forall lo hi, Forall (fun b => lo <= target b <= hi) bs -> lo <= moving_average 1 0 (map target bs) <= hi) as Havg.
  { intros lo hi Hall. apply moving_average_bounds; [lia|by left|left; by destruct bs|by apply Forall_map]. }
  pose proof (Havg 0 limit (proj1 (Forall_map _ _ _) Hts)) as HA.
  unfold dgw_wrapped, dgw_target. change (24 * 60) with 1440. change (1440 / 10) with 144. change (1440 * 10) with 14400.
  rewrite (wrapped_average_small limit) by (done || (rewrite ?length_map; lia) || by left).
  set (A := moving_average 1 0 (map target bs)) in *. set (c := clamp 144 14400 elapsed).
  assert (144 <= c <= 14400) as Hc by (unfold c, clamp; lia).
  rewrite wrap_small by (unfold in_u; nia). cbv zeta.
  assert (0 <= A * c / 1440) by (apply Z.div_pos; nia).
  split_and!; [done|lia|lia|]. intros lo hi Hlo Hall. specialize (Havg lo hi Hall). fold A in Havg.
  assert (A * c / 1440 <= 10 * hi) by (apply Z.div_le_upper_bound; nia).
  assert (lo / 10 <= A * c / 1440); [|lia].
  pose proof (Z.div_mod lo 10 ltac:(lia)). pose proof (Z.mod_pos_bound lo 10 ltac:(lia)).
  apply Z.div_le_lower_bound; nia.
Qed.

Lemma window_length m n p bs : window m n p = Some bs -> length bs = n.
Proof.
  revert p bs. induction n as [|n IH]; intros p bs; cbn [window]; [by intros [= <-]|].
  destruct (m !! p) as [b|]; [|done]. cbn [mbind option_bind]. destruct n as [|n]; [by intros [= <-]|].
  destruct (pprev b) as [q|]; [|done]. cbn [mbind option_bind]. destruct (window m (S n) q) as [rest|] eqn:E; [|done].
  cbn [mbind option_bind]. intros [= <-]. cbn [length]. f_equal. by eapply IH.
Qed.

Lemma window_Forall m (P : CBlockIndex -> Prop) n p bs :
  (forall q b, m !! q = Some b -> P b) -> window m n p = Some bs -> Forall P bs.
Proof.
  intros HP. revert p bs. induction n as [|n IH]; intros p bs; cbn [window]; [by intros [= <-]|].
  destruct (m !! p) as [b|] eqn:Hp; [|done]. cbn [mbind option_bind]. destruct n as [|n]; [intros [= <-]; repeat constructor; by eapply HP|].
  destruct (pprev b) as [q|]; [|done]. cbn [mbind option_bind]. destruct (window m (S n) q) as [rest|] eqn:E; [|done].
  cbn [mbind option_bind]. intros [= <-]. constructor; [by eapply HP|by eapply IH].
Qed.

(** ** Properties *)

(** C5: the difficulty of every network, at every height and for whatever bits the blocks before carry; it never
    throws.  On the regression-test network the bits of the last block are kept.  On the others, up to height 24
    of the last block the bits of the regression-test limit are demanded.  Above it, a block that comes more than two minutes
    after the last one gets the limit on the test and the development network, and in every other case the bits are
    those of Dark Gravity Wave over the last 24 blocks, which are there in a well-formed index: the running average of the
    targets, scaled by the time they took clamped to a tenth and ten times of the intended time, divided and capped by the
    limit, with each product and sum taken modulo [2^256].  When the targets of all 24 blocks are at most the limit of
    the main and the test network, nothing is lost by the modulus on these two: the new target is that of the integers, at most the limit
    and ten times the largest of the 24 targets, and at least the smaller of the limit and a tenth of the
    smallest.  That condition fails on the main network above height 24, as long as the window holds blocks
    with the bits demanded before, and there the average does overflow: [mainnet_average_overflows]. *)
Theorem next_work_required (n : Network) (m : BlockMap) (outside : Z -> Z -> Z -> bool) (p : ptr)
    (last : CBlockIndex) (t : Z) :
  m !! p = Some last -> 0 <= nHeight last -> (forall q b, m !! q = Some b -> in_u 32 (nBits b)) ->
  let limit := powLimit (params_of n) in
  let next := GetNextWorkRequired m outside p t (params_of n) in
  (n = REGTEST -> next = Some (nBits last))
  /\ (n <> REGTEST -> nHeight last <= 24 -> next = Some 0x207fffff)
  /\ (n = TESTNET \/ n = DEVNET -> 24 < nHeight last -> is_late t last -> next = Some (compact_of limit))
  /\ (wf_index m -> 24 < nHeight last -> exists bs, window m 24 p = Some bs)
  /\ forall bs first, n <> REGTEST -> 24 < nHeight last -> n = MAIN \/ ~ is_late t last ->
       window m 24 p = Some bs -> list.last bs = Some first ->
       let elapsed := nTime last - nTime first in
       let T := dgw_wrapped limit 60 bs elapsed in
       next = Some (compact_of T)
       /\ (n <> DEVNET -> Forall (fun b => target b <= limit) bs ->
           T = dgw_target limit 60 bs elapsed /\ 0 <= T <= limit
           /\ forall lo hi, 0 <= lo -> Forall (fun b => lo <= target b <= hi) bs ->
                Z.min limit (lo / 10) <= T <= 10 * hi).
Proof.
  intros Hp Hh Hbits limit next. unfold next. rewrite (GetNextWorkRequired_dgw m outside n p last t Hp Hh).
  assert (in_u 256 limit) as Hlim by (by destruct n).
  assert (nPowTargetSpacing (params_of n) = 60) as Hsp by by destruct n.
  assert (n <> REGTEST -> fPowNoRetargeting (params_of n) = false) as Hno by by destruct n.
  split_and!.
  - intros ->. unfold DarkGravityWave. by rewrite Hp.
  - intros Hn Hlow. unfold DarkGravityWave. rewrite Hp. cbn [mbind option_bind]. rewrite (Hno Hn).
    unfold nPastBlocks at 1. rewrite (proj2 (Z.leb_le _ _)) by lia. apply regTestBits_value.
  - intros Hn Hhigh Ht. by apply DarkGravityWave_late with last; destruct Hn as [->| ->].
  - intros W Hhigh. destruct (window_exists m p last 24 W Hp) as (bs & E & _); [lia|]. by exists bs.
  - intros bs first Hn Hhigh Ht Hw Hfirst.
    assert (Forall (fun b => in_u 32 (nBits b)) bs) as Hbs by by eapply window_Forall.
    split.
    + apply DarkGravityWave_ok; try done; [by apply Hno|]. intros Hmin. destruct Ht as [->|Ht]; [done|exact Ht].
    + intros Hdev Hle. apply dgw_no_overflow; [by destruct n|by eapply window_length|]. apply Forall_and. by split.
Qed.

(** A chain of blocks one minute apart, for the witnesses. *)
Definition toy_entry (bits i : Z) : ptr * CBlockIndex :=
  (i, {| pprev := if i =? 0 then None else Some (i - 1); pskip := None; nHeight := i; nChainWork := bn_zero;
         nTx := 0; nChainTx := 0; nStatus := 0; nVersion := 0; hashMerkleRoot := 0; nTime := 1000 + 60 * i;
         nBits := bits; nNonce := 0; nSequenceId := 0; nTimeMax := 0 |}).
Definition toy_chain (bits n : Z) : BlockMap := list_to_map (map (toy_entry bits) (seqZ 0 n)).
Definition toy_at (bits i : Z) : CBlockIndex := (toy_entry bits i).2.

Lemma next_work_required_witness :
  GetNextWorkRequired (toy_chain 0x1e0fffff 30) (fun _ _ _ => false) 29 0 main_params = Some 0x1e0f5554
  /\ dgw_wrapped (powLimit main_params) 60 (map (toy_at 0x1e0fffff) (reverse (seqZ 6 24))) 1380
     = dgw_target (powLimit main_params) 60 (map (toy_at 0x1e0fffff) (reverse (seqZ 6 24))) 1380.
Proof.
  destruct (next_work_required MAIN (toy_chain 0x1e0fffff 30) (fun _ _ _ => false) 29
    (toy_at 0x1e0fffff 29) 0) as (_ & _ & _ & _ & H).
  - vm_compute. reflexivity.
  - vm_compute. discriminate.
  - apply (bool_decide_unpack (map_Forall (fun _ b => in_u 32 (nBits b)) (toy_chain 0x1e0fffff 30))). vm_compute. exact I.
  - destruct (H (map (toy_at 0x1e0fffff) (reverse (seqZ 6 24))) (toy_at 0x1e0fffff 6)) as (E & HT & _).
    + discriminate.
    + vm_compute. reflexivity.
    + left. reflexivity.
    + vm_compute. reflexivity.
    + vm_compute. reflexivity.
    + discriminate.
    + apply (bool_decide_unpack (Forall (fun b => target b <= powLimit (params_of MAIN))
        (map (toy_at 0x1e0fffff) (reverse (seqZ 6 24))))). vm_compute. exact I.
    + split; [|exact HT]. change main_params with (params_of MAIN). rewrite E. vm_compute. reflexivity.
Defined.

(** [CheckProofOfWork] accepts a hash exactly when the compact target is
    positive, not negative, not overflowing and within the limit and the hash does
    not exceed it, or when, outside the regression-test network, the bits are those
    of that network's limit, and then whatever the hash is. *)
Theorem CheckProofOfWork_correct (network : Network) (hash bits : Z) (params : Params) :
  in_u 256 hash -> in_u 32 bits -> in_u 256 (powLimit params) ->
  exists r, CheckProofOfWork network hash bits params = Some r
  /\ (r = true <->
      (network <> REGTEST /\ bits = 0x207fffff)
      \/ (csign bits = false /\ 0 < compact_value bits <= powLimit params /\ hash <= compact_value bits)).
Proof.
  intros Hh Hb Hl. unfold CheckProofOfWork. rewrite regTestBits_value. cbn [mbind option_bind].
  destruct (negb (bool_decide (network = REGTEST)) && (bits =? 0x207fffff)) eqn:Ereg.
  { exists true. split; [done|]. apply andb_true_iff in Ereg as [E1 E2]. zbool. case_bool_decide; [done|]. tauto. }
  assert (~ (network <> REGTEST /\ bits = 0x207fffff)) as Hreg.
  { intros [H1 ->]. by rewrite bool_decide_false in Ereg. }
  destruct (SetCompact_cases bits Hb) as (a & neg & ovf & -> & Wa & Va & Hovf & Hneg & Hneg').
  destruct (arith_of_ok _ Hl) as [Wl Vl]. destruct (arith_of_ok _ Hh) as [Wh Vh].
  pose proof (compact_value_nonneg bits Hb).
  rewrite EqualTo_val, !gt_val, Vl, Vh by (done || (unfold in_u; lia)).
  destruct (neg || (val a =? 0) || ovf || (powLimit params <? val a)) eqn:E.
  - exists false. split; [done|]. split; [done|]. intros [?|(Hs & Hv & _)]; [done|].
    rewrite Z.mod_small in Va by (unfold in_u in Hl; lia).
    destruct neg; [by rewrite Hneg in Hs|]. destruct ovf; [destruct Hovf as [Ho _]; specialize (Ho eq_refl); unfold in_u in Hl; lia|].
    cbn [orb] in E. rewrite orb_false_r in E. apply orb_true_iff in E as [E|E]; zbool; lia.
  - apply orb_false_iff in E as [E E4]. apply orb_false_iff in E as [E E3]. apply orb_false_iff in E as [E1 E2]. zbool. subst neg ovf.
    assert (compact_value bits < 2 ^ 256) as Hlt.
    { destruct (Z.lt_ge_cases (compact_value bits) (2 ^ 256)); [done|]. by apply Hovf in H0. }
    rewrite Z.mod_small in Va by lia.
    assert (csign bits = false) as Hs.
    { destruct (csign bits) eqn:Hs; [|done]. specialize (Hneg' eq_refl ltac:(lia)). done. }
    destruct (val a <? hash) eqn:Eh; zbool; (eexists; split; [done|]); split; try done; intros; try (right; lia).
    + exfalso. destruct H0 as [?|?]; [done|lia].
    + right. split_and!; [done|lia|lia|lia].
Qed.

Lemma CheckProofOfWork_correct_witness :
  CheckProofOfWork MAIN (2 ^ 230) 0x1e0fffff main_params = Some true
  /\ CheckProofOfWork MAIN (2 ^ 256 - 1) 0x207fffff main_params = Some true.
Proof.
  split.
  - destruct (CheckProofOfWork_correct MAIN (2 ^ 230) 0x1e0fffff main_params) as (r & -> & Hr); [by unfold in_u..|].
    f_equal. apply Hr. right. split; [vm_compute; reflexivity|]. split; [split|]; vm_compute; congruence.
  - destruct (CheckProofOfWork_correct MAIN (2 ^ 256 - 1) 0x207fffff main_params) as (r & -> & Hr); [by unfold in_u..|].
    f_equal. apply Hr. left. split; [discriminate|reflexivity].
Defined.

(** The first 25 blocks of the main network carry no proof of work: up to height
    24 of the parent the required bits are those of the regression-test limit, and
    [CheckProofOfWork] accepts every hash with those bits. *)
Theorem bootstrap_without_work (m : BlockMap) (outside : Z -> Z -> Z -> bool) (p : ptr) (last : CBlockIndex) (t : Z) :
  m !! p = Some last -> 0 <= nHeight last <= 24 ->
  exists bits, GetNextWorkRequired m outside p t main_params = Some bits
    /\ forall hash, CheckProofOfWork MAIN hash bits main_params = Some true.
Proof.
  intros Hp Hh. exists 0x207fffff. split.
  - change main_params with (params_of MAIN). rewrite (GetNextWorkRequired_dgw m outside MAIN p last t Hp) by lia.
    unfold DarkGravityWave. rewrite Hp. cbn [mbind option_bind params_of fPowNoRetargeting main_params].
    unfold nPastBlocks at 1. rewrite (proj2 (Z.leb_le _ _)) by lia. apply regTestBits_value.
  - intros hash. unfold CheckProofOfWork. rewrite regTestBits_value. reflexivity.
Qed.

Lemma bootstrap_without_work_witness :
  exists bits, GetNextWorkRequired (toy_chain 0x207fffff 5) (fun _ _ _ => false) 4 0 main_params = Some bits.
Proof.
  destruct (bootstrap_without_work (toy_chain 0x207fffff 5) (fun _ _ _ => false) 4 (toy_at 0x207fffff 4) 0)
    as (bits & E & _); [vm_compute; reflexivity|split; discriminate|].
  exists bits. exact E.
Defined.

(** The window average overflows on the development network, whose limit is close to
    [2^255]: blocks at the limit that arrive on schedule are followed by a target
    hundreds of times smaller. *)
Lemma devnet_average_overflows :
  GetNextWorkRequired (toy_chain 0x207fffff 30) (fun _ _ _ => false) 29 0 dev_params = Some 0x1f1b4d8c
  /\ compact_value 0x1f1b4d8c * 1000 < compact_value 0x207fffff.
Proof. vm_compute. split; reflexivity. Qed.

(** On the main network too, as long as the window holds blocks with the bits that are demanded up to height 24: on a chain
    that carries exactly the demanded bits and is on schedule, the block after height 27 has to meet a sixteenth of
    the target that the average over the integers gives, which is the limit. *)
Definition main_start : BlockMap :=
  list_to_map (map (fun i => toy_entry (if i <=? 25 then 0x207fffff else 0x1e0fffff) i) (seqZ 0 28)).

Lemma mainnet_average_overflows :
  forallb (fun h => match main_start !! (h + 1) with
                    | Some b => bool_decide (GetNextWorkRequired main_start (fun _ _ _ => false) h 0 main_params = Some (nBits b))
                    | None => false
                    end) (seqZ 0 27) = true
  /\ GetNextWorkRequired main_start (fun _ _ _ => false) 27 0 main_params = Some 0x1e00ff25
  /\ option_map (fun bs => compact_of (dgw_target (powLimit main_params) 60 bs 1380)) (window main_start 24 27) = Some 0x1e0fffff.
Proof. vm_compute. split_and!; reflexivity. Qed.
