(* ===== verification/TxVerify.v ===== *)
(** * Transaction checks

    Models the transaction checks of [src/src/validation.cpp] ([IsFinalTx], the relative
    lock times, the signature operation counts, [CheckTransaction],
    [ContextualCheckTransaction], [Consensus::CheckTxInputs]), with [CValidationState] of
    [src/src/consensus/validation.h] and the limits of [src/src/consensus/consensus.h].
    Blocks are those of [Chain], coins those of [Coins], scripts those of [Script].  The
    debug message of a state is left out: it is only logged. *)

From stdpp Require Import gmap strings.
From S2P Require Import Prelude Chain Amount Script Transaction Serialize Coins.

(** ** [CValidationState] *)

Definition REJECT_INVALID : Z := 0x10.

Inductive mode_state := MODE_VALID | MODE_INVALID | MODE_ERROR.

#[global] Instance mode_state_eq_dec : EqDecision mode_state.
Proof. solve_decision. Defined.

Record CValidationState := {
  mode : mode_state;
  nDoS : Z;
  strRejectReason : string;
  chRejectCode : Z;
  corruptionPossible : bool;
}.

Definition CValidationState_make : CValidationState :=
  {| mode := MODE_VALID; nDoS := 0; strRejectReason := ""; chRejectCode := 0; corruptionPossible := false |}.

(** [DoS(level, ret, chRejectCodeIn, strRejectReasonIn, corruptionIn)]: the value returned
    and the new state. *)
Definition DoS (st : CValidationState) (level : Z) (ret : bool) (code : Z) (reason : string) (corruption : bool)
    : bool * CValidationState :=
  let st' m n := {| mode := m; nDoS := n; strRejectReason := reason; chRejectCode := code;
                    corruptionPossible := corruption |} in
  match mode st with
  | MODE_ERROR => (ret, st' MODE_ERROR (nDoS st))
  | _ => (ret, st' MODE_INVALID (i32 (nDoS st + level)))
  end.

Definition state_Invalid (st : CValidationState) (ret : bool) (code : Z) (reason : string) : bool * CValidationState :=
  DoS st 0 ret code reason false.

Definition state_Error (st : CValidationState) (reason : string) : bool * CValidationState :=
  (false, {| mode := MODE_ERROR; nDoS := nDoS st;
             strRejectReason := match mode st with MODE_VALID => reason | _ => strRejectReason st end;
             chRejectCode := chRejectCode st; corruptionPossible := corruptionPossible st |}).

Definition state_IsValid (st : CValidationState) : bool := bool_decide (mode st = MODE_VALID).
Definition state_IsInvalid (st : CValidationState) : bool := bool_decide (mode st = MODE_INVALID).
Definition state_IsError (st : CValidationState) : bool := bool_decide (mode st = MODE_ERROR).

(** ** Limits *)

Definition MAX_LEGACY_BLOCK_SIZE : Z := 10 * 1000 * 1000.
Definition MAX_DIP0001_BLOCK_SIZE : Z := 10 * 1000 * 1000.
Definition MaxBlockSize (fDIP0001Active : bool) : Z :=
  if fDIP0001Active then MAX_DIP0001_BLOCK_SIZE else MAX_LEGACY_BLOCK_SIZE.
Definition MaxBlockSigOps (fDIP0001Active : bool) : Z := MaxBlockSize fDIP0001Active / 50.
Definition COINBASE_MATURITY : Z := 36.
Definition LOCKTIME_VERIFY_SEQUENCE : Z := Z.shiftl 1 0.
Definition LOCKTIME_MEDIAN_TIME_PAST : Z := Z.shiftl 1 1.
Definition MAX_STANDARD_TX_SIZE : Z := 100000.
Definition MEMPOOL_HEIGHT : Z := 0x7FFFFFFF.

Abbreviation BlockMap := (gmap Z CBlockIndex) (only parsing).
Abbreviation CChain := (list (option Z)) (only parsing).

(** ** Absolute lock times *)

Definition IsFinalTx (tx : CTransaction) (nBlockHeight nBlockTime : Z) : bool :=
  if nLockTime tx =? 0 then true
  else if nLockTime tx <? (if nLockTime tx <? LOCKTIME_THRESHOLD then nBlockHeight else nBlockTime) then true
  else forallb (fun txin => nSequence txin =? SEQUENCE_FINAL) (vin tx).

(** [adjusted] is [GetAdjustedTime()]; [None] is the null dereference on an empty chain. *)
Definition CheckFinalTx (m : BlockMap) (c : CChain) (adjusted : Z) (tx : CTransaction) (flags : Z) : option bool :=
  let flags := Z.max flags 0 in
  let nBlockHeight := chain_Height c + 1 in
  nBlockTime ← (if negb (Z.land flags LOCKTIME_MEDIAN_TIME_PAST =? 0)
                then tip ← chain_Tip c; Some (GetMedianTimePast m tip)
                else Some adjusted);
  Some (IsFinalTx tx nBlockHeight nBlockTime).

(** ** Relative lock times *)

(** The loop of [CalculateSequenceLocks] on the inputs and their heights: the minimal
    height and time, and the heights with those of the inputs without lock set to 0. *)
Fixpoint sequence_locks_loop (m : BlockMap) (block : ptr) (l : list (CTxIn * Z)) (nMinHeight nMinTime : Z)
    : option (Z * Z * list Z) :=
  match l with
  | [] => Some (nMinHeight, nMinTime, [])
  | (txin, nCoinHeight) :: l =>
      if negb (Z.land (nSequence txin) SEQUENCE_LOCKTIME_DISABLE_FLAG =? 0) then
        '(h, t, hs) ← sequence_locks_loop m block l nMinHeight nMinTime; Some (h, t, 0 :: hs)
      else if negb (Z.land (nSequence txin) SEQUENCE_LOCKTIME_TYPE_FLAG =? 0) then
        q ← GetAncestor m block (Z.max (nCoinHeight - 1) 0);
        p ← q;
        let nCoinTime := GetMedianTimePast m p in
        let lock := Z.shiftl (Z.land (nSequence txin) SEQUENCE_LOCKTIME_MASK) SEQUENCE_LOCKTIME_GRANULARITY in
        let nMinTime := Z.max nMinTime (nCoinTime + lock - 1) in
        '(h, t, hs) ← sequence_locks_loop m block l nMinHeight nMinTime; Some (h, t, nCoinHeight :: hs)
      else
        let nMinHeight := Z.max nMinHeight (i32 (nCoinHeight + Z.land (nSequence txin) SEQUENCE_LOCKTIME_MASK - 1)) in
        '(h, t, hs) ← sequence_locks_loop m block l nMinHeight nMinTime; Some (h, t, nCoinHeight :: hs)
  end.

(** [block] is the address of the index entry. *)
Definition CalculateSequenceLocks (m : BlockMap) (tx : CTransaction) (flags : Z) (prevHeights : list Z) (block : ptr)
    : option (Z * Z * list Z) :=
  if negb (length prevHeights =? length (vin tx))%nat then None
  else
    let fEnforceBIP68 := (u32 (tx_nVersion tx) >=? 2) && negb (Z.land flags LOCKTIME_VERIFY_SEQUENCE =? 0) in
    if negb fEnforceBIP68 then Some (-1, -1, prevHeights)
    else sequence_locks_loop m block (zip (vin tx) prevHeights) (-1) (-1).

Definition EvaluateSequenceLocks (m : BlockMap) (block : ptr) (lockPair : Z * Z) : option bool :=
  b ← m !! block;
  p ← pprev b;
  let nBlockTime := GetMedianTimePast m p in
  Some (negb ((lockPair.1 >=? nHeight b) || (lockPair.2 >=? nBlockTime))).

Definition SequenceLocks (m : BlockMap) (tx : CTransaction) (flags : Z) (prevHeights : list Z) (block : ptr)
    : option (bool * list Z) :=
  '(h, t, hs) ← CalculateSequenceLocks m tx flags prevHeights block;
  r ← EvaluateSequenceLocks m block (h, t);
  Some (r, hs).

Record LockPoints := { lp_height : Z; lp_time : Z; maxInputBlock : option ptr }.

(** [lp] is not null. *)
Definition TestLockPointValidity (m : BlockMap) (c : CChain) (lp : LockPoints) : bool :=
  match maxInputBlock lp with
  | Some p => chain_Contains m c p
  | None => true
  end.

(** The address of the local [index] of [CheckSequenceLocks], which no block has. *)
Definition local_index : ptr := -1.

Section Mempool.
Context {V : Type} `{CCoinsView V}.

(** [mempool.get]: a parameter here, given by [Accept]. *)
Variable mempool_get : Z -> option CTransaction.

Definition mempool_GetCoin (outpoint : COutPoint) (v : V) : option Coin * V :=
  match mempool_get (op_hash outpoint) with
  | Some tx =>
      if op_n outpoint <? Z.of_nat (length (vout tx)) then
        (o ← vout tx !! Z.to_nat (op_n outpoint); Some (Coin_make o MEMPOOL_HEIGHT false), v)
      else (None, v)
  | None => view_GetCoin outpoint v
  end.

(** The heights of the coins an input spends; [None] is a missing input. *)
Fixpoint input_heights (l : list CTxIn) (tipHeight : Z) (v : V) : option (list Z) * V :=
  match l with
  | [] => (Some [], v)
  | txin :: l =>
      match mempool_GetCoin (prevout txin) v with
      | (None, v) => (None, v)
      | (Some coin, v) =>
          let h := if coin_nHeight coin =? MEMPOOL_HEIGHT then tipHeight + 1 else coin_nHeight coin in
          let '(r, v) := input_heights l tipHeight v in
          (cons h <$> r, v)
      end
  end.

Definition max_input_height (tipHeight : Z) (prevheights : list Z) : Z :=
  foldl (fun a height => if height =? tipHeight + 1 then a else Z.max a height) 0 prevheights.

(** The value returned and the lock points stored through [lp], if it is given. *)
Definition CheckSequenceLocks (m : BlockMap) (c : CChain) (tx : CTransaction) (flags : Z) (lp : option LockPoints)
    (useExistingLockPoints : bool) (v : V) : option (bool * option LockPoints * V) :=
  tip ← chain_Tip c;
  b ← m !! tip;
  let index := {| pprev := Some tip; pskip := None; nHeight := nHeight b + 1; nChainWork := ArithUint256.bn_zero;
                  nTx := 0; nChainTx := 0; nStatus := 0; nVersion := 0; hashMerkleRoot := 0; nTime := 0;
                  nBits := 0; nNonce := 0; nSequenceId := 0; nTimeMax := 0 |} in
  let m' := <[local_index := index]> m in
  if useExistingLockPoints then
    l ← lp;
    r ← EvaluateSequenceLocks m' local_index (lp_height l, lp_time l);
    Some (r, lp, v)
  else
    match input_heights (vin tx) (nHeight b) v with
    | (None, v) => Some (false, lp, v)
    | (Some prevheights, v) =>
        '(h, t, hs) ← CalculateSequenceLocks m' tx flags prevheights local_index;
        lp' ← (match lp with
               | None => Some None
               | Some _ => q ← GetAncestor m tip (max_input_height (nHeight b) hs);
                           Some (Some {| lp_height := h; lp_time := t; maxInputBlock := q |})
               end);
        r ← EvaluateSequenceLocks m' local_index (h, t);
        Some (r, lp', v)
    end.

End Mempool.

(** ** Signature operations *)

Definition GetLegacySigOpCount (tx : CTransaction) : Z :=
  let n := foldl (fun n i => u32 (n + GetSigOpCount (scriptSig i) false)) 0 (vin tx) in
  foldl (fun n o => u32 (n + GetSigOpCount (scriptPubKey o) false)) n (vout tx).

Section Inputs.
Context {V : Type} `{CCoinsView V}.
Abbreviation cache := (CCoinsViewCache V).

Fixpoint p2sh_sigops_loop (l : list CTxIn) (nSigOps : Z) (c : cache) : option (Z * cache) :=
  match l with
  | [] => Some (nSigOps, c)
  | i :: l =>
      let '(co, c) := AccessCoin (prevout i) c in
      if IsSpent co then None
      else
        let s := scriptPubKey (out co) in
        p2sh_sigops_loop l (if IsPayToScriptHash s then u32 (nSigOps + GetSigOpCount_P2SH s (scriptSig i)) else nSigOps) c
  end.

(** [None] is the failing assertion. *)
Definition GetP2SHSigOpCount (tx : CTransaction) (c : cache) : option (Z * cache) :=
  if IsCoinBase tx then Some (0, c) else p2sh_sigops_loop (vin tx) 0 c.

Definition GetUTXOHeight (outpoint : COutPoint) (c : cache) : Z * cache :=
  let '(r, c) := GetCoin outpoint c in
  (match r with Some co => coin_nHeight co | None => -1 end, c).

Definition GetUTXOConfirmations (chain : CChain) (outpoint : COutPoint) (c : cache) : Z * cache :=
  let '(nPrevoutHeight, c) := GetUTXOHeight outpoint c in
  (if (nPrevoutHeight >? -1) && bool_decide (is_Some (chain_Tip chain))
   then chain_Height chain - nPrevoutHeight + 1 else -1, c).

(** ** Values of the inputs *)

(** The loop of [Consensus::CheckTxInputs]: the value in, or the rejection.  [None] is the
    failing assertion. *)
Fixpoint check_inputs_loop (l : list CTxIn) (nSpendHeight nValueIn : Z) (st : CValidationState) (c : cache)
    : option ((bool * CValidationState) + Z) * cache :=
  match l with
  | [] => (Some (inr nValueIn), c)
  | i :: l =>
      let '(co, c) := AccessCoin (prevout i) c in
      if IsSpent co then (None, c)
      else if fCoinBase co && (nSpendHeight - coin_nHeight co <? COINBASE_MATURITY) then
        (Some (inl (state_Invalid st false REJECT_INVALID "bad-txns-premature-spend-of-coinbase")), c)
      else
        let nValueIn := i64 (nValueIn + nValue (out co)) in
        if negb (MoneyRange (nValue (out co))) || negb (MoneyRange nValueIn) then
          (Some (inl (DoS st 100 false REJECT_INVALID "bad-txns-inputvalues-outofrange" false)), c)
        else check_inputs_loop l nSpendHeight nValueIn st c
  end.

(** [None] is an assertion or the exception of [GetValueOut]. *)
Definition CheckTxInputs (tx : CTransaction) (st : CValidationState) (nSpendHeight : Z) (c : cache)
    : option (bool * CValidationState) * cache :=
  let '(have, c) := HaveInputs tx c in
  if negb have then (Some (state_Invalid st false 0 ""), c)
  else
    match check_inputs_loop (vin tx) nSpendHeight 0 st c with
    | (None, c) => (None, c)
    | (Some (inl r), c) => (Some r, c)
    | (Some (inr nValueIn), c) =>
        (nValueOut ← GetValueOut tx;
         Some (if nValueIn <? nValueOut then DoS st 100 false REJECT_INVALID "bad-txns-in-belowout" false
               else
                 let nTxFee := nValueIn - nValueOut in
                 if nTxFee <? 0 then DoS st 100 false REJECT_INVALID "bad-txns-fee-negative" false
                 else if negb (MoneyRange nTxFee) then DoS st 100 false REJECT_INVALID "bad-txns-fee-outofrange" false
                 else (true, st)), c)
    end.

End Inputs.

(** ** Context-free checks *)

(** The first failing output of [CheckTransaction]. *)
Fixpoint check_outputs (l : list CTxOut) (nValueOut : Z) (st : CValidationState) : option (bool * CValidationState) :=
  match l with
  | [] => None
  | txout :: l =>
      if nValue txout <? 0 then Some (DoS st 100 false REJECT_INVALID "bad-txns-vout-negative" false)
      else if nValue txout >? MAX_MONEY then Some (DoS st 100 false REJECT_INVALID "bad-txns-vout-toolarge" false)
      else
        let nValueOut := i64 (nValueOut + nValue txout) in
        if negb (MoneyRange nValueOut)
        then Some (DoS st 100 false REJECT_INVALID "bad-txns-txouttotal-toolarge" false)
        else check_outputs l nValueOut st
  end.

(** [vInOutPoints.insert] for every input: whether one of them was there already. *)
Fixpoint duplicate_inputs (l : list CTxIn) (vInOutPoints : gset COutPoint) : bool :=
  match l with
  | [] => false
  | txin :: l =>
      if bool_decide (prevout txin ∈ vInOutPoints) then true
      else duplicate_inputs l ({[prevout txin]} ∪ vInOutPoints)
  end.

Section Check.

(** As in [Serialize.GetSerializeSize]. *)
Variable timeToPrune expired : list Z -> bool.

Definition CheckTransaction (tx : CTransaction) (st : CValidationState) (fCheckDuplicateInputs : bool)
    : bool * CValidationState :=
  if (length (vin tx) =? 0)%nat then DoS st 10 false REJECT_INVALID "bad-txns-vin-empty" false
  else if (length (vout tx) =? 0)%nat then DoS st 10 false REJECT_INVALID "bad-txns-vout-empty" false
  else if GetSerializeSize timeToPrune expired tx >? MAX_LEGACY_BLOCK_SIZE
  then DoS st 100 false REJECT_INVALID "bad-txns-oversize" false
  else
    match check_outputs (vout tx) 0 st with
    | Some r => r
    | None =>
        if fCheckDuplicateInputs && duplicate_inputs (vin tx) ∅
        then DoS st 100 false REJECT_INVALID "bad-txns-inputs-duplicate" false
        else if IsCoinBase tx then
          let n := Z.of_nat (length (from_option scriptSig [] (head (vin tx)))) in
          if (n <? 2) || (n >? 100) then DoS st 100 false REJECT_INVALID "bad-cb-length" false
          else (true, st)
        else if existsb (fun txin => COutPoint_IsNull (prevout txin)) (vin tx)
        then DoS st 10 false REJECT_INVALID "bad-txns-prevout-null" false
        else (true, st)
    end.

(** [pindexPrev] is the previous block, if any; [DIP0001Height] is the consensus parameter. *)
Definition ContextualCheckTransaction (DIP0001Height : Z) (tx : CTransaction) (st : CValidationState)
    (pindexPrev : option CBlockIndex) : bool * CValidationState :=
  let nHeight := match pindexPrev with None => 0 | Some b => nHeight b + 1 end in
  let fDIP0001Active_context := nHeight >=? DIP0001Height in
  if fDIP0001Active_context && (GetSerializeSize timeToPrune expired tx >? MAX_STANDARD_TX_SIZE)
  then DoS st 100 false REJECT_INVALID "bad-txns-oversize" false
  else (true, st).

End Check.

(** ** Lemmas *)

(** *** Validation state *)

Lemma DoS_ok st level ret code reason corruption r st' :
  DoS st level ret code reason corruption = (r, st') ->
  r = ret /\ mode st' <> MODE_VALID /\ strRejectReason st' = reason /\ chRejectCode st' = code
  /\ corruptionPossible st' = corruption
  /\ nDoS st' = (if decide (mode st = MODE_ERROR) then nDoS st else i32 (nDoS st + level)).
Proof. unfold DoS. destruct (mode st); intros [= <- <-]; split_and!; cbn; done. Qed.

Lemma DoS_invalid st level code reason corruption :
  exists st', DoS st level false code reason corruption = (false, st') /\ mode st' <> MODE_VALID.
Proof. unfold DoS. destruct (mode st); by eexists. Qed.

(** *** Relative lock times *)

Definition lock_disabled (i : CTxIn) : bool := Z.testbit (nSequence i) 31.
Definition lock_by_time (i : CTxIn) : bool := Z.testbit (nSequence i) 22.
Definition lock_value (i : CTxIn) : Z := nSequence i mod 2 ^ 16.

Lemma disabled_bit i : negb (Z.land (nSequence i) SEQUENCE_LOCKTIME_DISABLE_FLAG =? 0) = lock_disabled i.
Proof. by apply land_pow2_testbit. Qed.
Lemma by_time_bit i : negb (Z.land (nSequence i) SEQUENCE_LOCKTIME_TYPE_FLAG =? 0) = lock_by_time i.
Proof. by apply land_pow2_testbit. Qed.
Lemma lock_mask i : Z.land (nSequence i) SEQUENCE_LOCKTIME_MASK = lock_value i.
Proof. apply (Z.land_ones _ 16). lia. Qed.
Lemma lock_value_range i : 0 <= lock_value i < 2 ^ 16.
Proof. apply Z.mod_pos_bound. lia. Qed.

(** The loop with the median time past of the block before the coin given by [mtp]. *)
Fixpoint seq_pure (mtp : Z -> Z) (l : list (CTxIn * Z)) (nMinHeight nMinTime : Z) : Z * Z * list Z :=
  match l with
  | [] => (nMinHeight, nMinTime, [])
  | (i, h) :: l =>
      if lock_disabled i then
        let '(a, t, hs) := seq_pure mtp l nMinHeight nMinTime in (a, t, 0 :: hs)
      else if lock_by_time i then
        let '(a, t, hs) := seq_pure mtp l nMinHeight (Z.max nMinTime (mtp h + lock_value i * 512 - 1)) in
        (a, t, h :: hs)
      else
        let '(a, t, hs) := seq_pure mtp l (Z.max nMinHeight (h + lock_value i - 1)) nMinTime in (a, t, h :: hs)
  end.

(** The input and its height give a lock on time, or a lock on height that fits an [int]. *)
Definition lock_known (m : BlockMap) (block : ptr) (mtp : Z -> Z) (x : CTxIn * Z) : Prop :=
  lock_disabled x.1 = false ->
  if lock_by_time x.1
  then exists a, GetAncestor m block (Z.max (x.2 - 1) 0) = Some (Some a) /\ GetMedianTimePast m a = mtp x.2
  else 0 <= x.2 < 2 ^ 31 - 2 ^ 16.

Lemma sequence_locks_loop_ok m block mtp l h0 t0 :
  Forall (lock_known m block mtp) l -> sequence_locks_loop m block l h0 t0 = Some (seq_pure mtp l h0 t0).
Proof.
  intros Hl. revert h0 t0. induction Hl as [|[i h] l Hx Hl IH]; intros h0 t0; [done|].
  cbn [sequence_locks_loop seq_pure]. rewrite disabled_bit, by_time_bit, lock_mask.
  pose proof (lock_value_range i). unfold lock_known in Hx. cbn [fst snd] in Hx.
  destruct (lock_disabled i); [|specialize (Hx eq_refl); destruct (lock_by_time i)].
  - rewrite IH. cbn. by destruct (seq_pure mtp l h0 t0) as [[??]?].
  - destruct Hx as (a & -> & Ha). cbn [mbind option_bind]. rewrite Ha, IH, Z.shiftl_mul_pow2 by done.
    change (2 ^ SEQUENCE_LOCKTIME_GRANULARITY) with 512. by destruct (seq_pure mtp l h0 _) as [[??]?].
  - rewrite swrap_small by (try unfold in_s; lia). rewrite IH. cbn. by destruct (seq_pure mtp l _ t0) as [[??]?].
Qed.

(** One input allows a block at height [H] whose parent has the median time past [T]. *)
Definition lock_met (mtp : Z -> Z) (H T : Z) (x : CTxIn * Z) : Prop :=
  if lock_disabled x.1 then True
  else if lock_by_time x.1 then mtp x.2 + 512 * lock_value x.1 <= T
  else x.2 + lock_value x.1 <= H.

Definition kept_height (x : CTxIn * Z) : Z := if lock_disabled x.1 then 0 else x.2.

Lemma seq_pure_ok mtp H T l h0 t0 :
  let '(h, t, hs) := seq_pure mtp l h0 t0 in
  (h < H /\ t < T <-> h0 < H /\ t0 < T /\ Forall (lock_met mtp H T) l) /\ hs = map kept_height l.
Proof.
  revert h0 t0. induction l as [|[i x] l IH]; intros h0 t0; cbn [seq_pure map].
  { split; [|done]. split; [intros [? ?]; split_and!; [done|done|constructor]|tauto]. }
  unfold lock_met at 1, kept_height at 1. cbn [fst snd].
  destruct (lock_disabled i) eqn:Ed; [|destruct (lock_by_time i) eqn:Et].
  - specialize (IH h0 t0). destruct (seq_pure mtp l h0 t0) as [[h t] hs]. destruct IH as [IH ->].
    split; [|done]. rewrite IH, Forall_cons. cbn [fst]. rewrite Ed. tauto.
  - match goal with |- context [seq_pure _ _ ?a ?b] => specialize (IH a b); destruct (seq_pure mtp l a b) as [[h t] hs] end.
    destruct IH as [IH ->]. split; [|done]. rewrite IH, Forall_cons. cbn [fst snd]. rewrite Ed, Et.
    rewrite Z.max_lub_lt_iff. intuition lia.
  - match goal with |- context [seq_pure _ _ ?a ?b] => specialize (IH a b); destruct (seq_pure mtp l a b) as [[h t] hs] end.
    destruct IH as [IH ->]. split; [|done]. rewrite IH, Forall_cons. cbn [fst snd]. rewrite Ed, Et.
    rewrite Z.max_lub_lt_iff. intuition lia.
Qed.

Lemma seq_pure_ext f g l h0 t0 :
  Forall (fun x => lock_disabled x.1 = false -> f x.2 = g x.2) l -> seq_pure f l h0 t0 = seq_pure g l h0 t0.
Proof.
  intros Hl. revert h0 t0. induction Hl as [|[i x] l Hx Hl IH]; intros h0 t0; [done|]. cbn [seq_pure].
  cbn [fst snd] in Hx. destruct (lock_disabled i); [by rewrite IH|]. rewrite Hx by done. by rewrite !IH.
Qed.

Definition bip68_active (tx : CTransaction) (flags : Z) : bool :=
  (u32 (tx_nVersion tx) >=? 2) && Z.testbit flags 0.

Lemma CalculateSequenceLocks_ok m block mtp tx flags hs :
  length hs = length (vin tx) -> Forall (lock_known m block mtp) (zip (vin tx) hs) ->
  CalculateSequenceLocks m tx flags hs block =
    Some (if bip68_active tx flags then seq_pure mtp (zip (vin tx) hs) (-1) (-1) else (-1, -1, hs)).
Proof.
  intros Hlen Hl. unfold CalculateSequenceLocks, bip68_active.
  rewrite (proj2 (Nat.eqb_eq _ _)) by done. cbn [negb].
  unfold LOCKTIME_VERIFY_SEQUENCE. rewrite land_pow2_testbit by done.
  destruct ((u32 (tx_nVersion tx) >=? 2) && Z.testbit flags 0); cbn [negb]; [|done].
  by apply sequence_locks_loop_ok.
Qed.

(** The median time past of the block before height [h], on the chain of [block]. *)
Definition mtp_before (m : BlockMap) (block : ptr) (h : Z) : Z :=
  from_option (GetMedianTimePast m) 0 (ancestor m block (Z.max (h - 1) 0)).

Lemma lock_known_index m block b x :
  wf_index m -> m !! block = Some b -> 0 <= x.2 <= nHeight b + 1 -> nHeight b < 2 ^ 31 - 2 ^ 16 - 1 ->
  lock_known m block (mtp_before m block) x.
Proof.
  intros W Hb Hx Hh _. pose proof (wb_height _ _ _ (W _ _ Hb)). destruct (lock_by_time x.1); [|lia].
  destruct (ancestor_ok m block b (Z.max (x.2 - 1) 0) W Hb ltac:(lia)) as (a & ba & Ea & _).
  exists a. rewrite (GetAncestor_ok m block b) by done. unfold mtp_before. rewrite Ea. done.
Qed.

Lemma EvaluateSequenceLocks_ok m block b q h t :
  m !! block = Some b -> pprev b = Some q ->
  exists r, EvaluateSequenceLocks m block (h, t) = Some r
    /\ (r = true <-> h < nHeight b /\ t < GetMedianTimePast m q).
Proof.
  intros Hb Hq. unfold EvaluateSequenceLocks. rewrite Hb. cbn. rewrite Hq. cbn. eexists. split; [done|].
  rewrite negb_true_iff, orb_false_iff, !Z.geb_leb, !Z.leb_gt. done.
Qed.

(** *** The block that extends the tip *)

Definition next_index (tip : ptr) (h : Z) : CBlockIndex :=
  {| pprev := Some tip; pskip := None; nHeight := h + 1; nChainWork := ArithUint256.bn_zero;
     nTx := 0; nChainTx := 0; nStatus := 0; nVersion := 0; hashMerkleRoot := 0; nTime := 0;
     nBits := 0; nNonce := 0; nSequenceId := 0; nTimeMax := 0 |}.

Abbreviation with_next m tip h := (<[local_index := next_index tip h]> m) (only parsing).

Lemma with_next_ok m tip b :
  wf_index m -> m !! local_index = None -> m !! tip = Some b -> wf_index (with_next m tip (nHeight b)).
Proof.
  intros W Hl Hb. apply wf_index_insert; [done|done|]. assert (local_index <> tip) by congruence.
  split; cbn; [done| |done|pose proof (wb_height _ _ _ (W _ _ Hb)); lia].
  intros q [= <-]. exists b. by rewrite lookup_insert_ne.
Qed.

Lemma collect_times_insert m x bx n p acc :
  wf_index m -> m !! x = None -> is_Some (m !! p) ->
  collect_times n (<[x := bx]> m) (Some p) acc = collect_times n m (Some p) acc.
Proof.
  intros W Hx. revert p acc. induction n as [|n IH]; intros p acc [b Hp]; [done|]. cbn [collect_times].
  assert (x <> p) by congruence. rewrite lookup_insert_ne, Hp by done.
  destruct (pprev b) as [q|] eqn:Eq; [|by destruct n].
  apply IH. destruct (wb_prev _ _ _ (W p b Hp) q Eq) as (bq & -> & _). done.
Qed.

Lemma MedianTimePast_insert m x bx p :
  wf_index m -> m !! x = None -> is_Some (m !! p) -> GetMedianTimePast (<[x := bx]> m) p = GetMedianTimePast m p.
Proof. intros. unfold GetMedianTimePast. by rewrite collect_times_insert. Qed.

(** Below the new block its ancestors are those of the tip. *)
Lemma mtp_before_next m tip b h :
  wf_index m -> m !! local_index = None -> m !! tip = Some b -> h <= nHeight b + 1 ->
  mtp_before (with_next m tip (nHeight b)) local_index h = mtp_before m tip h.
Proof.
  intros W Hl Hb Hh. pose proof (wb_height _ _ _ (W _ _ Hb)). unfold mtp_before.
  rewrite (ancestor_prev _ local_index (next_index tip (nHeight b)) tip).
  - rewrite ancestor_insert by done.
    destruct (ancestor_ok m tip b (Z.max (h - 1) 0) W Hb ltac:(lia)) as (a & ba & -> & Ha & _).
    cbn [from_option]. by apply MedianTimePast_insert.
  - by apply with_next_ok.
  - apply lookup_insert_eq.
  - done.
  - cbn. lia.
Qed.

(** *** Inputs *)

Lemma max_input_height_ok tipHeight l acc :
  let r := foldl (fun a height => if height =? tipHeight + 1 then a else Z.max a height) acc l in
  acc <= r /\ (Forall (fun h => h <= tipHeight) l -> Forall (fun h => h <= r) l)
  /\ (acc <= tipHeight -> Forall (fun h => h <= tipHeight + 1) l -> r <= tipHeight).
Proof.
  revert acc. induction l as [|h l IH]; intros acc; cbn [foldl]; [split_and!; [lia|constructor|done]|].
  case_if.
  - destruct (IH acc) as (H1 & H2 & H3). split_and!; [done| |].
    + intros [? ?]%Forall_cons. lia.
    + intros ? [? ?]%Forall_cons. auto.
  - destruct (IH (Z.max acc h)) as (H1 & H2 & H3). split_and!; [lia| |].
    + intros [? Hl]%Forall_cons. constructor; [lia|auto].
    + intros ? [? Hl]%Forall_cons. apply H3; [lia|done].
Qed.

(** *** Lock points *)

Lemma chain_Tip_lookup c p : chain_Tip c = Some p -> c !! (length c - 1)%nat = Some (Some p) /\ c <> [].
Proof.
  unfold chain_Tip. destruct c as [|x c] using rev_ind; [done|]. rewrite List.last_last. intros ->.
  rewrite length_app, lookup_app_r by (cbn; lia). cbn [length].
  replace (length c + 1 - 1 - length c)%nat with O by lia. split; [done|by destruct c].
Qed.

(** A block on the chain is the ancestor of the tip at its height. *)
Lemma contains_tip m c t q bq :
  wf_index m -> chain_ok m c -> chain_Tip c = Some t -> m !! q = Some bq -> chain_Contains m c q = true ->
  ancestor m t (nHeight bq) = Some q.
Proof.
  intros W C Ht Hq Hc. apply (chain_Contains_ok m c q bq W C Hq) in Hc.
  destruct (chain_Tip_lookup c t Ht) as [Hl _]. pose proof (lookup_lt_Some _ _ _ Hc).
  rewrite (chain_ok_ancestor m c (length c - 1) t) in Hc by (done || lia).
  rewrite Z2Nat.id in Hc by apply (W q bq Hq). by injection Hc.
Qed.

(** The lock points of a transaction whose inputs have the heights [hs] on the chain of [t]. *)
Definition lock_points (m : BlockMap) (t : ptr) (h : Z) (tx : CTransaction) (flags : Z) (hs : list Z) : LockPoints :=
  let '(a, b, hs') := if bip68_active tx flags then seq_pure (mtp_before m t) (zip (vin tx) hs) (-1) (-1)
                      else (-1, -1, hs) in
  {| lp_height := a; lp_time := b; maxInputBlock := ancestor m t (max_input_height h hs') |}.

Lemma CheckSequenceLocks_ok {V} `{CCoinsView V} get m c tx flags lp (v v' : V) t b hs :
  wf_index m -> m !! local_index = None -> chain_Tip c = Some t -> m !! t = Some b -> nHeight b < 2 ^ 31 - 2 ^ 16 - 2 ->
  input_heights get (vin tx) (nHeight b) v = (Some hs, v') -> length hs = length (vin tx) ->
  Forall (fun h => 0 <= h <= nHeight b + 1) hs ->
  let l := lock_points m t (nHeight b) tx flags hs in
  exists r, CheckSequenceLocks get m c tx flags (Some lp) false v = Some (r, Some l, v')
    /\ (r = true <-> lp_height l < nHeight b + 1 /\ lp_time l < GetMedianTimePast m t).
Proof.
  intros W Hl Ht Hb Hmax Hin Hlen Hhs. unfold CheckSequenceLocks. rewrite Ht. cbn [mbind option_bind]. rewrite Hb. cbn [mbind option_bind]. rewrite Hin.
  change (<[local_index := _]> m) with (with_next m t (nHeight b)).
  pose proof (with_next_ok m t b W Hl Hb) as W'. pose proof (wb_height _ _ _ (W _ _ Hb)).
  assert (forall x, x ∈ zip (vin tx) hs -> 0 <= x.2 <= nHeight b + 1) as Hz.
  { intros [i h] Hx. apply elem_of_zip_r in Hx. rewrite Forall_forall in Hhs. by apply Hhs. }
  rewrite (CalculateSequenceLocks_ok _ _ (mtp_before (with_next m t (nHeight b)) local_index)); [|done|].
  2:{ apply Forall_forall. intros x Hx. specialize (Hz x Hx).
      apply (lock_known_index _ _ (next_index t (nHeight b))); [done|apply lookup_insert_eq|cbn; lia..]. }
  rewrite (seq_pure_ext _ (mtp_before m t)).
  2:{ apply Forall_forall. intros x Hx _. specialize (Hz x Hx). apply mtp_before_next; (done || lia). }
  unfold lock_points. destruct (if bip68_active tx flags then _ else _) as [[a d] hs'] eqn:E.
  cbn [mbind option_bind lp_height lp_time]. rewrite (GetAncestor_ok m t b) by done. cbn [mbind option_bind].
  destruct (EvaluateSequenceLocks_ok (with_next m t (nHeight b)) local_index (next_index t (nHeight b)) t a d)
    as (r & -> & Hr); [apply lookup_insert_eq|done|].
  exists r. split; [done|]. rewrite Hr, MedianTimePast_insert by done. done.
Qed.

Lemma foldl_max_bound l a : Forall (fun h => h <= foldl Z.max a l) l /\ a <= foldl Z.max a l.
Proof.
  revert a. induction l as [|y l IH]; intros a; cbn [foldl]; [split; [constructor|lia]|].
  destruct (IH (Z.max a y)) as [I1 I2]. split; [constructor; [lia|done]|lia].
Qed.

(** Without unconfirmed inputs no height is ignored. *)
Lemma max_input_height_confirmed h hs : Forall (fun x => x <= h) hs -> max_input_height h hs = foldl Z.max 0 hs.
Proof.
  unfold max_input_height. generalize 0. intros a Hf. revert a. induction Hf as [|x l Hx Hf IH]; intros a; [done|].
  cbn [foldl]. rewrite (proj2 (Z.eqb_neq _ _)) by lia. apply IH.
Qed.

(** Two tips that agree below the heights of the coins give the same lock points. *)
Lemma lock_points_agree m t1 b1 t2 b2 tx flags hs q :
  wf_index m -> m !! t1 = Some b1 -> m !! t2 = Some b2 ->
  Forall (fun h => 0 <= h <= nHeight b1) hs -> Forall (fun h => 0 <= h <= nHeight b2) hs ->
  maxInputBlock (lock_points m t1 (nHeight b1) tx flags hs) = Some q ->
  (forall bq, m !! q = Some bq -> ancestor m t2 (nHeight bq) = Some q) ->
  length hs = length (vin tx) ->
  lock_points m t2 (nHeight b2) tx flags hs = lock_points m t1 (nHeight b1) tx flags hs.
Proof.
  intros W Hb1 Hb2 Hh1 Hh2. unfold lock_points.
  set (z := zip (vin tx) hs).
  assert (forall h', Forall (fun h => 0 <= h <= h') hs -> 0 <= h' -> Forall (fun h => h <= h') (map kept_height z)) as Hkept.
  { intros h' Hf Hh'. apply Forall_forall. intros x (y & -> & Hy)%list_elem_of_fmap. destruct y as [i h].
    apply elem_of_zip_r in Hy. rewrite Forall_forall in Hf. specialize (Hf h Hy). unfold kept_height. cbn. case_match; lia. }
  pose proof (wb_height _ _ _ (W _ _ Hb1)) as Hp1. pose proof (wb_height _ _ _ (W _ _ Hb2)) as Hp2.
  destruct (bip68_active tx flags).
  - pose proof (seq_pure_ok (mtp_before m t1) 0 0 z (-1) (-1)) as E1.
    destruct (seq_pure (mtp_before m t1) z (-1) (-1)) as [[a1 d1] hs1] eqn:S1. destruct E1 as [_ ->].
    cbn [maxInputBlock]. rewrite max_input_height_confirmed by by apply Hkept. intros Hq Hanc Hlen.
    destruct (ancestor_height m t1 q _ W Hq) as (? & bq & Hb1' & Hbq & Hr & Hhq).
    rewrite Hb1 in Hb1'. injection Hb1' as <-. specialize (Hanc bq Hbq). rewrite Hhq in Hanc.
    set (mx := foldl Z.max 0 (map kept_height z)) in *.
    destruct (ancestor_height m t2 q _ W Hanc) as (? & _ & Hb2' & _ & Hr2 & _).
    rewrite Hb2 in Hb2'. injection Hb2' as <-.
    rewrite (seq_pure_ext _ (mtp_before m t1)).
    { rewrite S1. cbn [maxInputBlock]. rewrite max_input_height_confirmed by by apply Hkept. fold mx. by rewrite Hq, Hanc. }
    apply Forall_forall. intros x Hx Hd. unfold mtp_before.
    assert (0 <= x.2 <= mx) as Hxm.
    { split; [destruct x as [i h]; apply elem_of_zip_r in Hx; rewrite Forall_forall in Hh1; by apply (Hh1 h)|].
      destruct (foldl_max_bound (map kept_height z) 0) as [Hf _]. rewrite Forall_forall in Hf. apply Hf.
      replace x.2 with (kept_height x) by (unfold kept_height; by rewrite Hd). by apply list_elem_of_fmap_2. }
    rewrite <- (ancestor_trans m t2 b2 q mx), <- (ancestor_trans m t1 b1 q mx) by (done || lia). done.
  - cbn [maxInputBlock]. assert (forall h', Forall (fun h => 0 <= h <= h') hs -> Forall (fun h => h <= h') hs) as Hle.
    { intros h' Hf. eapply Forall_impl; [exact Hf|]. cbn. lia. }
    rewrite !max_input_height_confirmed by by apply Hle. intros Hq Hanc _.
    destruct (ancestor_height m t1 q _ W Hq) as (? & bq & _ & Hbq & _ & Hhq).
    specialize (Hanc bq Hbq). rewrite Hhq in Hanc. by rewrite Hq, Hanc.
Qed.

(** The maximal input block exists. *)
Lemma maxInputBlock_some m t b tx flags hs :
  wf_index m -> m !! t = Some b -> Forall (fun h => 0 <= h <= nHeight b) hs ->
  maxInputBlock (lock_points m t (nHeight b) tx flags hs) <> None.
Proof.
  intros W Hb Hf. pose proof (wb_height _ _ _ (W _ _ Hb)). unfold lock_points.
  assert (Forall (fun h => 0 <= h <= nHeight b) (map kept_height (zip (vin tx) hs))) as Hk.
  { apply Forall_forall. intros x (y & -> & Hy)%list_elem_of_fmap. destruct y as [i h].
    apply elem_of_zip_r in Hy. rewrite Forall_forall in Hf. specialize (Hf h Hy). unfold kept_height. cbn. case_match; lia. }
  assert (forall l, Forall (fun h => 0 <= h <= nHeight b) l -> ancestor m t (max_input_height (nHeight b) l) <> None) as Hl.
  { intros l Hl. destruct (max_input_height_ok (nHeight b) l 0) as (H1 & _ & H3).
    destruct (ancestor_ok m t b (max_input_height (nHeight b) l) W Hb) as (q & bq & -> & _); [|done].
    split; [exact H1|]. apply H3; [lia|]. eapply Forall_impl; [exact Hl|]. cbn. lia. }
  destruct (bip68_active tx flags); [|by apply Hl].
  pose proof (seq_pure_ok (mtp_before m t) 0 0 (zip (vin tx) hs) (-1) (-1)) as E.
  destruct (seq_pure _ _ _ _) as [[a d] hs']. destruct E as [_ ->]. by apply Hl.
Qed.

(** *** Context-free checks *)

Lemma check_outputs_ok l acc st :
  0 <= acc <= MAX_MONEY -> Forall (fun o => in_s 64 (nValue o)) l ->
  (check_outputs l acc st = None <-> is_Some (value_out_loop l acc))
  /\ forall r, check_outputs l acc st = Some r -> exists reason, r = DoS st 100 false REJECT_INVALID reason false.
Proof.
  intros Hacc Hl. revert acc Hacc. induction Hl as [|o l Ho Hl IH]; intros acc Hacc; cbn [check_outputs value_out_loop].
  { split; [split; [by eexists|done]|done]. }
  unfold MoneyRange at 2. rewrite Z.geb_leb, Z.gtb_ltb.
  destruct (nValue o <? 0) eqn:E1; zbool.
  { rewrite (proj2 (Z.leb_gt _ _)) by lia. cbn. split; [split; [done|by intros []]|intros r [= <-]; by eexists]. }
  rewrite (proj2 (Z.leb_le 0 _)) by lia. cbn [andb].
  destruct (MAX_MONEY <? nValue o) eqn:E2; zbool.
  { rewrite (proj2 (Z.leb_gt _ _)) by lia. cbn. split; [split; [done|by intros []]|intros r [= <-]; by eexists]. }
  rewrite (proj2 (Z.leb_le _ _)) by lia. cbn [negb orb].
  rewrite swrap_small by (try unfold in_s, MAX_MONEY, COIN in *; lia).
  destruct (MoneyRange (acc + nValue o)) eqn:E3; cbn [negb].
  - apply IH. by apply MoneyRange_iff.
  - split; [split; [done|by intros []]|intros r [= <-]; by eexists].
Qed.

Lemma duplicate_inputs_ok l s :
  duplicate_inputs l s = false <-> NoDup (map prevout l) /\ Forall (fun i => prevout i ∉ s) l.
Proof.
  revert s. induction l as [|i l IH]; intros s; cbn [duplicate_inputs map].
  { split; [split; constructor|done]. }
  rewrite NoDup_cons, Forall_cons. case_bool_decide as Hi; [split; [done|tauto]|].
  rewrite IH. assert (Forall (fun i' => prevout i' ∉ ({[prevout i]} ∪ s)) l <->
                      (prevout i ∉ map prevout l) /\ Forall (fun i => prevout i ∉ s) l) as ->; [|intuition].
  rewrite !Forall_forall. split.
  - intros Hf. split; [|intros x Hx; specialize (Hf x Hx); set_solver].
    intros (y & Hy & Hin)%list_elem_of_fmap. specialize (Hf y Hin). set_solver.
  - intros [Hni Hf] x Hx. specialize (Hf x Hx). assert (prevout x <> prevout i); [|set_solver].
    intros E. apply Hni. rewrite <- E. by apply list_elem_of_fmap_2.
Qed.

Lemma COutPoint_IsNull_iff o : COutPoint_IsNull o = true <-> o = COutPoint_null.
Proof.
  unfold COutPoint_IsNull, COutPoint_null. rewrite andb_true_iff, !Z.eqb_eq. destruct o; cbn.
  split; [by intros [-> ->]|by intros [= -> ->]].
Qed.

(** What [CheckTransaction] accepts. *)
Definition checked (timeToPrune expired : list Z -> bool) (fCheckDuplicateInputs : bool) (tx : CTransaction) : Prop :=
  vin tx <> [] /\ vout tx <> []
  /\ GetSerializeSize timeToPrune expired tx <= MAX_LEGACY_BLOCK_SIZE
  /\ is_Some (GetValueOut tx)
  /\ (fCheckDuplicateInputs = true -> NoDup (map prevout (vin tx)))
  /\ (if IsCoinBase tx then Forall (fun i => 2 <= Z.of_nat (length (scriptSig i)) <= 100) (vin tx)
      else Forall (fun i => prevout i <> COutPoint_null) (vin tx)).

Lemma checked_tx_wf timeToPrune expired tx : checked timeToPrune expired true tx -> tx_wf tx.
Proof.
  intros (_ & _ & _ & [v Hv] & Hnd & _). split; [|intros _; by apply Hnd].
  apply GetValueOut_ok in Hv as (Hv & _ & _). eapply Forall_impl; [exact Hv|]. cbn. lia.
Qed.

(** *** Values of the inputs *)

Section InputLemmas.
Context {V : Type} `{CCoinsViewLaws V}.
Implicit Types c : CCoinsViewCache V.

(** The coin spent by an input is mature and its value is in range. *)
Definition input_ok (m : gmap COutPoint Coin) (nSpendHeight : Z) (i : CTxIn) : Prop :=
  exists co, m !! prevout i = Some co /\ 0 <= nValue (out co) <= MAX_MONEY
    /\ (fCoinBase co = true -> COINBASE_MATURITY <= nSpendHeight - coin_nHeight co).

Lemma check_inputs_loop_ok l h acc st c r c' :
  cache_ok c -> Forall (fun i => is_Some (cache_utxo c !! prevout i)) l ->
  (forall o co, cache_utxo c !! o = Some co -> in_s 64 (nValue (out co))) -> 0 <= acc <= MAX_MONEY ->
  check_inputs_loop l h acc st c = (r, c') ->
  same_view c c' /\
  ((r = Some (inr (acc + sum_inputs l (cache_utxo c))) /\ Forall (input_ok (cache_utxo c) h) l
    /\ acc <= acc + sum_inputs l (cache_utxo c) <= MAX_MONEY)
   \/ (exists st', r = Some (inl (false, st')) /\ mode st' <> MODE_VALID)
      /\ ~ (Forall (input_ok (cache_utxo c) h) l /\ acc + sum_inputs l (cache_utxo c) <= MAX_MONEY)).
Proof.
  intros Hok Hl Hv Hacc. revert c acc Hok Hl Hv Hacc. induction l as [|i l IH]; intros c acc Hok Hl Hv Hacc.
  { intros [= <- <-]. split; [by apply same_view_refl|]. left. cbn. split_and!; [|constructor|lia|lia].
    do 2 f_equal. lia. }
  cbn [check_inputs_loop]. destruct (AccessCoin (prevout i) c) as [co c1] eqn:Ea.
  destruct (AccessCoin_ok _ _ _ _ Hok Ea) as (Hlv & Hsv). apply Forall_cons in Hl as [[u Hu] Hl].
  rewrite Hu in Hlv. apply live_Some in Hlv as [-> Hsp]. rewrite Hsp.
  pose proof (Hv _ _ Hu) as Hr. cbn [sum_inputs foldr]. fold (sum_inputs l (cache_utxo c)). rewrite Hu. cbn [from_option].
  assert (0 <= sum_inputs l (cache_utxo c) \/ ~ Forall (input_ok (cache_utxo c) h) l) as Hnn.
  { destruct (decide (0 <= sum_inputs l (cache_utxo c))) as [|Hneg]; [by left|]. right. intros Hall. apply Hneg.
    clear -Hall. induction Hall as [|x l (co & Hx & Hr & _) Hall IH']; [done|]. cbn. fold (sum_inputs l (cache_utxo c)).
    rewrite Hx. cbn. lia. }
  destruct (fCoinBase u && (h - coin_nHeight u <? COINBASE_MATURITY)) eqn:Ecb.
  { unfold state_Invalid. destruct (DoS_invalid st 0 REJECT_INVALID "bad-txns-premature-spend-of-coinbase" false) as (st' & -> & Hst).
    intros [= <- <-]. split; [done|]. right. zbool. split; [by eexists|].
    intros [Hin _]. apply Forall_cons in Hin as [(co & Hco & _ & Hm) _]. rewrite Hu in Hco. injection Hco as <-.
    specialize (Hm ltac:(done)). lia. }
  assert (fCoinBase u = true -> COINBASE_MATURITY <= h - coin_nHeight u) as Hm.
  { intros Hcb. rewrite Hcb in Ecb. cbn in Ecb. zbool. done. }
  destruct (negb (MoneyRange (nValue (out u))) || negb (MoneyRange (i64 (acc + nValue (out u))))) eqn:Emr.
  { destruct (DoS_invalid st 100 REJECT_INVALID "bad-txns-inputvalues-outofrange" false) as (st' & -> & Hst).
    intros [= <- <-]. split; [done|]. right. split; [by eexists|].
    intros [Hin Hs]. pose proof Hin as Hin'. apply Forall_cons in Hin as [(co & Hco & Hrg & _) Hin].
    rewrite Hu in Hco. injection Hco as <-. destruct Hnn as [Hnn|Hnn]; [|done].
    rewrite swrap_small in Emr by (try unfold in_s, MAX_MONEY, COIN in *; lia).
    rewrite (proj2 (MoneyRange_iff _)), (proj2 (MoneyRange_iff _)) in Emr by lia. done. }
  zbool. apply MoneyRange_iff in H1.
  rewrite swrap_small in * by (try unfold in_s, MAX_MONEY, COIN in *; lia). apply MoneyRange_iff in H2.
  intros E. destruct Hsv as (Hok1 & Hu1 & Hb1).
  destruct (IH c1 (acc + nValue (out u)) Hok1 ltac:(by rewrite Hu1) ltac:(by rewrite Hu1) H2 E) as (Hsv2 & Hres).
  rewrite Hu1 in Hres. split; [by apply (same_view_trans _ c1)|].
  replace (acc + (nValue (out u) + sum_inputs l (cache_utxo c))) with (acc + nValue (out u) + sum_inputs l (cache_utxo c)) by lia.
  destruct Hres as [(-> & Hin & Hs)|(Hst & Hno)]; [left|right].
  - split_and!; [done| |lia|lia]. constructor; [by exists u|done].
  - split; [done|]. intros [Hin Hs]. apply Hno. apply Forall_cons in Hin as [_ Hin]. by split.
Qed.

Lemma CheckTxInputs_ok tx st h c vo r c' :
  cache_ok c -> IsCoinBase tx = false -> GetValueOut tx = Some vo ->
  (forall o co, cache_utxo c !! o = Some co -> in_s 64 (nValue (out co))) ->
  CheckTxInputs tx st h c = (r, c') ->
  let m := cache_utxo c in
  let accepted := Forall (input_ok m h) (vin tx) /\ vo <= sum_inputs (vin tx) m <= MAX_MONEY in
  same_view c c' /\
  (r = Some (true, st) /\ accepted \/ (exists st', r = Some (false, st') /\ mode st' <> MODE_VALID) /\ ~ accepted).
Proof.
  intros Hok Hcb Hvo Hv E m accepted. unfold CheckTxInputs in E.
  destruct (HaveInputs tx c) as [have c1] eqn:Eh. destruct (HaveInputs_ok _ _ _ _ Hok Eh) as (Hsv & Hh).
  destruct have; cbn [negb] in E.
  2:{ unfold state_Invalid in E. destruct (DoS_invalid st 0 0 "" false) as (st' & Est & Hst). rewrite Est in E.
      injection E as <- <-. split; [done|]. right. split; [by eexists|].
      intros [Hin _]. enough (inputs_present tx m) as Hp by (apply Hh in Hp; done). intros _.
      eapply Forall_impl; [exact Hin|]. intros i (co & -> & _). done. }
  pose proof (proj1 Hh eq_refl Hcb) as Hp. destruct Hsv as (Hok1 & Hu1 & Hb1).
  destruct (check_inputs_loop (vin tx) h 0 st c1) as [r1 c2] eqn:El.
  destruct (check_inputs_loop_ok (vin tx) h 0 st c1 r1 c2 Hok1 ltac:(by rewrite Hu1) ltac:(by rewrite Hu1)
              ltac:(unfold MAX_MONEY, COIN; lia) El) as (Hsv2 & Hres).
  rewrite Hu1 in Hres. fold m in Hres. pose proof (proj1 (GetValueOut_ok _ _) Hvo) as (Hvr & -> & Hvs).
  assert (same_view c c2) as Hsv3 by by apply (same_view_trans _ c1).
  destruct Hres as [(-> & Hin & Hs)|((st' & -> & Hst) & Hno)].
  - rewrite Hvo in E. cbn [mbind option_bind] in E. injection E as <- <-. split; [done|]. rewrite Z.add_0_l in *.
    assert (0 <= sum_values (vout tx)) as Hnn.
    { clear -Hvr. induction Hvr; cbn; [done|]. fold (sum_values l). lia. }
    destruct (sum_inputs (vin tx) m <? sum_values (vout tx)) eqn:E1; zbool.
    + right. split; [|intros [_ ?]; lia].
      destruct (DoS_invalid st 100 REJECT_INVALID "bad-txns-in-belowout" false) as (st' & -> & Hst). by eexists.
    + left. split; [|split; [done|lia]]. rewrite (proj2 (Z.ltb_ge _ _)) by lia.
      rewrite (proj2 (MoneyRange_iff _)) by lia. done.
  - injection E as <- <-. split; [done|]. right. split; [by eexists|]. intros [Hin Hs]. apply Hno. split; [done|lia].
Qed.

End InputLemmas.

(** *** Transactions *)

Lemma reject_ok st (P : Prop) level reason :
  level = 10 \/ level = 100 -> ~ P ->
  let '(r, st') := DoS st level false REJECT_INVALID reason false in
  (r = true <-> P) /\ (r = true -> st' = st)
  /\ (r = false -> mode st' <> MODE_VALID /\ corruptionPossible st' = false /\ chRejectCode st' = REJECT_INVALID
      /\ (mode st <> MODE_ERROR -> nDoS st' = i32 (nDoS st + 10) \/ nDoS st' = i32 (nDoS st + 100))).
Proof.
  intros Hlv HP. destruct (DoS _ _ _ _ _ _) as [r st'] eqn:E.
  apply DoS_ok in E as (-> & Hm & _ & Hc & Hcp & Hn).
  split_and!; [by split; [done|intros []%HP]|done|]. intros _. split_and!; [done..|].
  intros Hne. rewrite decide_False in Hn by done. rewrite Hn. destruct Hlv as [->| ->]; auto.
Qed.

Lemma CheckTransaction_ok (timeToPrune expired : list Z -> bool) (tx : CTransaction) (st : CValidationState)
    (dup : bool) :
  Forall (fun o => in_s 64 (nValue o)) (vout tx) ->
  let '(r, st') := CheckTransaction timeToPrune expired tx st dup in
  (r = true <-> checked timeToPrune expired dup tx) /\ (r = true -> st' = st)
  /\ (r = false -> mode st' <> MODE_VALID /\ corruptionPossible st' = false /\ chRejectCode st' = REJECT_INVALID
      /\ (mode st <> MODE_ERROR -> nDoS st' = i32 (nDoS st + 10) \/ nDoS st' = i32 (nDoS st + 100))).
Proof.
  intros Hv. unfold CheckTransaction, checked.
  pose proof (fun P level reason => reject_ok st P level reason) as Hrej.
  destruct (vin tx) as [|i l] eqn:Ei; [apply Hrej; [auto|tauto]|].
  destruct (vout tx) as [|o l'] eqn:Eo; [apply Hrej; [auto|tauto]|]. cbn [length Nat.eqb]. rewrite <- Eo, <- Ei in *.
  case_if; [apply Hrej; [auto|lia]|]. unfold GetValueOut.
  destruct (check_outputs_ok (vout tx) 0 st ltac:(unfold MAX_MONEY, COIN; lia) Hv) as [Hco1 Hco2].
  destruct (check_outputs (vout tx) 0 st) as [r|].
  { destruct (Hco2 r eq_refl) as [reason ->]. apply Hrej; [auto|]. intros (_ & _ & _ & H & _). by apply Hco1 in H. }
  pose proof (proj1 Hco1 eq_refl) as Hvo.
  pose proof (duplicate_inputs_ok (vin tx) ∅) as Hdup.
  destruct (dup && duplicate_inputs (vin tx) ∅) eqn:Ed.
  { zbool. apply Hrej; [auto|]. intros (_ & _ & _ & _ & Hnd & _). rewrite (proj2 Hdup) in *; [done|].
    split; [auto|]. apply Forall_true. set_solver. }
  assert (dup = true -> NoDup (map prevout (vin tx))) as Hnd.
  { intros ->. cbn in Ed. by apply Hdup. }
  assert (vin tx <> [] /\ vout tx <> []) as [Hi Ho] by by rewrite Ei, Eo.
  destruct (IsCoinBase tx) eqn:Ecb.
  - apply IsCoinBase_iff in Ecb as (i' & Hi' & _). rewrite Hi' in *. cbn [head from_option].
    rewrite Z.gtb_ltb. destruct ((Z.of_nat (length (scriptSig i')) <? 2) || (100 <? Z.of_nat (length (scriptSig i')))) eqn:El.
    + apply Hrej; [auto|]. intros (_ & _ & _ & _ & _ & H). rewrite Forall_singleton in H.
      apply orb_true_iff in El as [?|?]; zbool; lia.
    + zbool. split_and!; [|done|done]. rewrite Forall_singleton. split; [intros _; split_and!; (done || lia)|done].
  - destruct (existsb _ (vin tx)) eqn:Ex.
    + apply Hrej; [auto|]. intros (_ & _ & _ & _ & _ & H). apply existsb_exists in Ex as (x & Hx & Hn).
      apply COutPoint_IsNull_iff in Hn. rewrite Forall_forall in H. apply (H x); [by apply list_elem_of_In|done].
    + split_and!; [|done|done]. split; [intros _; split_and!; try done|done].
      apply Forall_forall. intros x Hx Hn. apply COutPoint_IsNull_iff in Hn.
      apply not_true_iff_false in Ex. apply Ex, existsb_exists. exists x. split; [by apply list_elem_of_In|done].
Qed.

(** ** Properties *)

(** C35: [CheckTransaction] accepts exactly the transactions with inputs and outputs,
    at most [MAX_LEGACY_BLOCK_SIZE] bytes, output values and their sum in the money
    range, distinct inputs (when asked), a coinbase script of 2 to 100 bytes and no null
    inputs outside a coinbase.  It leaves the state alone when it accepts; a rejection
    makes the state invalid, never blames corruption, and adds 10 or 100 to the score of
    a state without error. *)
Theorem CheckTransaction_correct (timeToPrune expired : list Z -> bool) (tx : CTransaction) (st : CValidationState)
    (dup : bool) :
  Forall (fun o => in_s 64 (nValue o)) (vout tx) ->
  let '(r, st') := CheckTransaction timeToPrune expired tx st dup in
  (r = true <-> checked timeToPrune expired dup tx) /\ (r = true -> st' = st)
  /\ (r = false -> mode st' <> MODE_VALID /\ corruptionPossible st' = false /\ chRejectCode st' = REJECT_INVALID
      /\ (mode st <> MODE_ERROR -> nDoS st' = i32 (nDoS st + 10) \/ nDoS st' = i32 (nDoS st + 100))).
Proof. apply CheckTransaction_ok. Qed.

Definition spend_tx (dup : bool) : CTransaction :=
  {| tx_nVersion := 2;
     vin := let i := {| prevout := Coins.toy_outpoint; scriptSig := [0x51]; nSequence := 3 |} in if dup then [i; i] else [i];
     vout := [CTxOut_make 40 [0x51]]; nLockTime := 0; tx_hash := 99 |}.

Lemma CheckTransaction_correct_witness :
  checked (fun _ => false) (fun _ => false) true (spend_tx false)
  /\ CheckTransaction (fun _ => false) (fun _ => false) (spend_tx true) CValidationState_make true
     = DoS CValidationState_make 100 false REJECT_INVALID "bad-txns-inputs-duplicate" false.
Proof.
  split; [|vm_compute; reflexivity].
  assert (Forall (fun o => in_s 64 (nValue o)) (vout (spend_tx false))) as Hv by (repeat constructor; by unfold in_s).
  pose proof (CheckTransaction_correct (fun _ => false) (fun _ => false) (spend_tx false) CValidationState_make true Hv) as Hc.
  replace (CheckTransaction (fun _ => false) (fun _ => false) (spend_tx false) CValidationState_make true)
    with (true, CValidationState_make) in Hc by (vm_compute; reflexivity).
  by apply Hc.
Defined.

(** C24: [Consensus::CheckTxInputs] of a transaction that passed [CheckTransaction] and
    is no coinbase neither throws nor changes what the view shows.  It accepts, leaving
    the state alone, exactly when every input spends an existing coin that is in the
    money range and, from a coinbase, at least [COINBASE_MATURITY] blocks deep, and the
    inputs are worth at least the outputs and at most [MAX_MONEY]: the fee is in the
    money range.  Otherwise the state becomes invalid. *)
Theorem CheckTxInputs_correct {V} `{CCoinsViewLaws V} (tx : CTransaction) (st : CValidationState) (nSpendHeight : Z)
    (c : CCoinsViewCache V) (vo : Z) :
  cache_ok c -> IsCoinBase tx = false -> GetValueOut tx = Some vo ->
  (forall o co, cache_utxo c !! o = Some co -> in_s 64 (nValue (out co))) ->
  let m := cache_utxo c in
  let accepted := Forall (input_ok m nSpendHeight) (vin tx) /\ vo <= sum_inputs (vin tx) m <= MAX_MONEY in
  exists c', same_view c c' /\
    (CheckTxInputs tx st nSpendHeight c = (Some (true, st), c') /\ accepted
       /\ 0 <= sum_inputs (vin tx) m - vo <= MAX_MONEY
     \/ exists st', CheckTxInputs tx st nSpendHeight c = (Some (false, st'), c') /\ mode st' <> MODE_VALID /\ ~ accepted).
Proof.
  intros Hok Hcb Hvo Hv m accepted. destruct (CheckTxInputs tx st nSpendHeight c) as [r c'] eqn:E.
  destruct (CheckTxInputs_ok _ _ _ _ _ _ _ Hok Hcb Hvo Hv E) as (Hsv & [[-> Ha]|[(st' & -> & Hm) Ha]]);
    exists c'; (split; [done|]); [left|right].
  - split; [done|]. split; [done|]. destruct Ha as [_ Ha]. fold m in Ha.
    apply GetValueOut_ok in Hvo as (Hvr & -> & _). enough (0 <= sum_values (vout tx)) by lia.
    clear -Hvr. induction Hvr; cbn; [done|]. fold (sum_values l). lia.
  - exists st'. done.
Qed.

Lemma CheckTxInputs_correct_witness :
  exists c', same_view toy_cache c' /\ CheckTxInputs (spend_tx false) CValidationState_make 6 toy_cache
    = (Some (true, CValidationState_make), c').
Proof.
  destruct (CheckTxInputs_correct (spend_tx false) CValidationState_make 6 toy_cache 40 toy_cache_ok
              ltac:(reflexivity) ltac:(reflexivity)) as (c' & Hsv & [(E & _)|(st' & E & _)]).
  - rewrite toy_cache_utxo. intros o co Hco. apply lookup_singleton_Some in Hco as [_ <-]. by vm_compute.
  - exists c'. exact (conj Hsv E).
  - exfalso. assert (fst (CheckTxInputs (spend_tx false) CValidationState_make 6 toy_cache)
                     = Some (true, CValidationState_make)) as E' by (vm_compute; reflexivity).
    rewrite E in E'. discriminate.
Defined.

(** Relative lock times (BIP 68).  For a block whose parent has the median time
    past [T], [SequenceLocks] does not throw and returns true exactly when the
    transaction is of version 1 or the rule is off, or every input without the disable
    bit has waited long enough: [n] blocks after its coin, or [512 * n] seconds from the
    median time past before its coin to [T], with [n] the low 16 bits of the sequence
    number.  It sets the heights of the disabled inputs to zero and no others. *)
Theorem SequenceLocks_correct (m : BlockMap) (block : ptr) (b : CBlockIndex) (q : ptr) (tx : CTransaction)
    (flags : Z) (hs : list Z) :
  wf_index m -> m !! block = Some b -> pprev b = Some q -> 0 <= GetMedianTimePast m q ->
  nHeight b < 2 ^ 31 - 2 ^ 16 - 1 -> length hs = length (vin tx) -> Forall (fun h => 0 <= h <= nHeight b) hs ->
  exists r, SequenceLocks m tx flags hs block =
      Some (r, if bip68_active tx flags then map kept_height (zip (vin tx) hs) else hs)
    /\ (r = true <-> (bip68_active tx flags = true ->
          Forall (lock_met (mtp_before m block) (nHeight b) (GetMedianTimePast m q)) (zip (vin tx) hs))).
Proof.
  intros W Hb Hq HT Hmax Hlen Hhs. unfold SequenceLocks. pose proof (wb_height _ _ _ (W _ _ Hb)) as Hh0.
  rewrite (CalculateSequenceLocks_ok m block (mtp_before m block)); [|done|].
  2:{ apply Forall_forall. intros x Hx. apply (lock_known_index m block b); [done|done| |lia].
      destruct x as [i h]. apply elem_of_zip_r in Hx. rewrite Forall_forall in Hhs. specialize (Hhs h Hx). cbn. lia. }
  pose proof (seq_pure_ok (mtp_before m block) (nHeight b) (GetMedianTimePast m q) (zip (vin tx) hs) (-1) (-1)) as Hp.
  destruct (bip68_active tx flags); [destruct (seq_pure _ _ _ _) as [[h t] hs']; destruct Hp as [Hp ->]|];
    cbn [mbind option_bind];
    match goal with |- context [EvaluateSequenceLocks _ _ (?h, ?t)] =>
      destruct (EvaluateSequenceLocks_ok m block b q h t Hb Hq) as (r & -> & Hr) end;
    exists r; (split; [done|]); rewrite Hr; [rewrite Hp|]; intuition lia.
Qed.

Lemma SequenceLocks_correct_witness :
  let m := mapBlockIndex toy_state in let tx := spend_tx false in
  SequenceLocks m tx 1 [4] 8 = Some (true, [4]) /\ SequenceLocks m tx 1 [6] 8 = Some (false, [6])
  /\ (forall r, SequenceLocks m tx 1 [4] 8 = Some (r, [4]) -> r = true).
Proof.
  split; [vm_compute; reflexivity|]. split; [vm_compute; reflexivity|]. intros r E.
  destruct (SequenceLocks_correct (mapBlockIndex toy_state) 8 (Chain.toy_block 8) 7 (spend_tx false) 1 [4]
    (inv_index _ toy_inv) (toy_lookup 8 ltac:(vm_compute; reflexivity)) ltac:(vm_compute; reflexivity)
    ltac:(vm_compute; discriminate) ltac:(vm_compute; reflexivity) eq_refl
    ltac:(constructor; [split; vm_compute; discriminate|constructor])) as (r' & E' & Hr').
  change (if bip68_active (spend_tx false) 1 then _ else _) with [4] in E'. rewrite E in E'. injection E' as ->.
  apply Hr'. intros _. constructor; [|constructor]. vm_compute. discriminate.
Defined.

(** Stored lock points.  Suppose [CheckSequenceLocks] computed lock points for a
    transaction with confirmed inputs on one chain.  On any other chain on which the
    coins have the same heights and for which [TestLockPointValidity] holds, checking the
    transaction with the stored lock points gives the same answer as computing them
    anew, which stores the same lock points again. *)
Theorem lock_points_reusable {V} `{CCoinsView V} (get : Z -> option CTransaction) (m : BlockMap) (c1 c2 : CChain)
    (tx : CTransaction) (flags : Z) (lp0 lp lp2 : LockPoints) (r1 : bool) (v1 v1' v2 v2' : V) (t1 t2 : ptr)
    (b1 b2 : CBlockIndex) (hs : list Z) :
  wf_index m -> m !! local_index = None -> chain_ok m c2 ->
  chain_Tip c1 = Some t1 -> m !! t1 = Some b1 -> nHeight b1 < 2 ^ 31 - 2 ^ 16 - 2 ->
  chain_Tip c2 = Some t2 -> m !! t2 = Some b2 -> nHeight b2 < 2 ^ 31 - 2 ^ 16 - 2 ->
  input_heights get (vin tx) (nHeight b1) v1 = (Some hs, v1') ->
  input_heights get (vin tx) (nHeight b2) v2 = (Some hs, v2') ->
  length hs = length (vin tx) ->
  Forall (fun h => 0 <= h <= nHeight b1) hs -> Forall (fun h => 0 <= h <= nHeight b2) hs ->
  CheckSequenceLocks get m c1 tx flags (Some lp0) false v1 = Some (r1, Some lp, v1') ->
  TestLockPointValidity m c2 lp = true ->
  exists r, CheckSequenceLocks get m c2 tx flags (Some lp) true v2 = Some (r, Some lp, v2)
    /\ CheckSequenceLocks get m c2 tx flags (Some lp2) false v2 = Some (r, Some lp, v2').
Proof.
  intros W Hl C2 Ht1 Hb1 Hm1 Ht2 Hb2 Hm2 Hin1 Hin2 Hlen Hh1 Hh2 E1 Hv.
  assert (forall h, Forall (fun x => 0 <= x <= h) hs -> Forall (fun x => 0 <= x <= h + 1) hs) as Hw.
  { intros h Hf. eapply Forall_impl; [exact Hf|]. cbn. lia. }
  destruct (CheckSequenceLocks_ok get m c1 tx flags lp0 v1 v1' t1 b1 hs) as (r & E1' & _); auto.
  destruct (CheckSequenceLocks_ok get m c2 tx flags lp2 v2 v2' t2 b2 hs) as (r2 & E2 & Hr2); auto.
  rewrite E1 in E1'. injection E1' as _ ->.
  assert (lock_points m t2 (nHeight b2) tx flags hs = lock_points m t1 (nHeight b1) tx flags hs) as Eq.
  { unfold TestLockPointValidity in Hv.
    destruct (maxInputBlock (lock_points m t1 (nHeight b1) tx flags hs)) as [q|] eqn:Eq.
    - eapply lock_points_agree; [done..| |done]. intros bq Hbq. by eapply contains_tip.
    - exfalso. by apply (maxInputBlock_some m t1 b1 tx flags hs). }
  rewrite Eq in *. exists r2. split; [|done]. unfold CheckSequenceLocks. rewrite Ht2. cbn [mbind option_bind].
  rewrite Hb2. cbn [mbind option_bind]. change (<[local_index := _]> m) with (with_next m t2 (nHeight b2)).
  destruct (EvaluateSequenceLocks_ok (with_next m t2 (nHeight b2)) local_index (next_index t2 (nHeight b2)) t2
    (lp_height (lock_points m t1 (nHeight b1) tx flags hs)) (lp_time (lock_points m t1 (nHeight b1) tx flags hs)))
    as (r' & -> & Hr'); [apply lookup_insert_eq|done|]. cbn [mbind option_bind]. do 3 f_equal.
  apply eq_true_iff_eq. rewrite Hr', Hr2, MedianTimePast_insert by done. done.
Qed.

(** The coin spent was created at height 2, the last block before the fork of [toy_state]. *)
Definition fork_db : CCoinsViewDB :=
  {| db_coins := {[ Coins.toy_outpoint := Coin_make (CTxOut_make 50 [0x51]) 2 false ]}; db_best := 9 |}.
Definition fork_chain : CChain := ancestors_of (mapBlockIndex toy_state) 21 (nHeight (Chain.toy_block 21)).
Definition no_points : LockPoints := {| lp_height := 0; lp_time := 0; maxInputBlock := None |}.
Definition fork_points : LockPoints := lock_points (mapBlockIndex toy_state) 8 7 (spend_tx false) 1 [2].

Lemma fork_chain_ok : chain_ok (mapBlockIndex toy_state) fork_chain.
Proof.
  apply (ancestors_of_ok (mapBlockIndex toy_state) 21 (Chain.toy_block 21)); [apply inv_index, toy_inv|].
  apply toy_lookup. vm_compute. reflexivity.
Qed.

Lemma lock_points_reusable_witness :
  maxInputBlock fork_points = Some 3 /\
  exists r, CheckSequenceLocks (fun _ => None) (mapBlockIndex toy_state) fork_chain (spend_tx false) 1
              (Some fork_points) true fork_db = Some (r, Some fork_points, fork_db).
Proof.
  split; [vm_compute; reflexivity|].
  destruct (lock_points_reusable (fun _ => None) (mapBlockIndex toy_state) toy_chain fork_chain (spend_tx false) 1
    no_points fork_points no_points true fork_db fork_db fork_db fork_db 8 21 (Chain.toy_block 8) (Chain.toy_block 21) [2])
    as (r & E & _).
  - apply inv_index, toy_inv.
  - vm_compute. reflexivity.
  - apply fork_chain_ok.
  - vm_compute. reflexivity.
  - apply toy_lookup. vm_compute. reflexivity.
  - vm_compute. reflexivity.
  - vm_compute. reflexivity.
  - apply toy_lookup. vm_compute. reflexivity.
  - vm_compute. reflexivity.
  - vm_compute. reflexivity.
  - vm_compute. reflexivity.
  - reflexivity.
  - constructor; [split; vm_compute; discriminate|constructor].
  - constructor; [split; vm_compute; discriminate|constructor].
  - vm_compute. reflexivity.
  - vm_compute. reflexivity.
  - exists r. exact E.
Defined.
