(* ===== verification/Interpreter.v ===== *)
(** * The script interpreter

    Models [src/src/script/interpreter.cpp]: the signature and key encodings, [EvalScript]
    with all its opcodes, the signature hash, [TransactionSignatureChecker] and
    [VerifyScript], with [src/src/script/script_error.h] and the flags of
    [src/src/script/interpreter.h].  Scripts are those of [Script], transactions those of
    [Transaction], their serialization that of [Serialize].

    A stack is a list with its top at the head.  An exception inside [EvalScript] ends in
    its handler and is [Err SCRIPT_ERR_UNKNOWN_ERROR]; a failed [assert] is [Abort].  The
    hash functions and the verification of a signature by the curve library are
    parameters. *)

From stdpp Require Import gmap.
From S2P Require Import Prelude Amount Script Transaction Serialize.

Abbreviation valtype := (list Z) (only parsing).

(** ** Opcodes, flags and errors *)

Definition OP_1NEGATE : Z := 0x4f.
Definition OP_NOP : Z := 0x61.
Definition OP_IF : Z := 0x63.
Definition OP_NOTIF : Z := 0x64.
Definition OP_ELSE : Z := 0x67.
Definition OP_ENDIF : Z := 0x68.
Definition OP_VERIFY : Z := 0x69.
Definition OP_TOALTSTACK : Z := 0x6b.
Definition OP_FROMALTSTACK : Z := 0x6c.
Definition OP_2DUP : Z := 0x6e.
Definition OP_3DUP : Z := 0x6f.
Definition OP_2OVER : Z := 0x70.
Definition OP_2ROT : Z := 0x71.
Definition OP_2SWAP : Z := 0x72.
Definition OP_IFDUP : Z := 0x73.
Definition OP_DEPTH : Z := 0x74.
Definition OP_NIP : Z := 0x77.
Definition OP_OVER : Z := 0x78.
Definition OP_PICK : Z := 0x79.
Definition OP_ROLL : Z := 0x7a.
Definition OP_ROT : Z := 0x7b.
Definition OP_SWAP : Z := 0x7c.
Definition OP_TUCK : Z := 0x7d.
Definition OP_CAT : Z := 0x7e.
Definition OP_SUBSTR : Z := 0x7f.
Definition OP_LEFT : Z := 0x80.
Definition OP_RIGHT : Z := 0x81.
Definition OP_SIZE : Z := 0x82.
Definition OP_INVERT : Z := 0x83.
Definition OP_AND : Z := 0x84.
Definition OP_OR : Z := 0x85.
Definition OP_XOR : Z := 0x86.
Definition OP_1ADD : Z := 0x8b.
Definition OP_1SUB : Z := 0x8c.
Definition OP_2MUL : Z := 0x8d.
Definition OP_2DIV : Z := 0x8e.
Definition OP_NEGATE : Z := 0x8f.
Definition OP_ABS : Z := 0x90.
Definition OP_NOT : Z := 0x91.
Definition OP_0NOTEQUAL : Z := 0x92.
Definition OP_ADD : Z := 0x93.
Definition OP_SUB : Z := 0x94.
Definition OP_MUL : Z := 0x95.
Definition OP_DIV : Z := 0x96.
Definition OP_MOD : Z := 0x97.
Definition OP_LSHIFT : Z := 0x98.
Definition OP_RSHIFT : Z := 0x99.
Definition OP_BOOLAND : Z := 0x9a.
Definition OP_BOOLOR : Z := 0x9b.
Definition OP_NUMEQUAL : Z := 0x9c.
Definition OP_NUMEQUALVERIFY : Z := 0x9d.
Definition OP_NUMNOTEQUAL : Z := 0x9e.
Definition OP_LESSTHAN : Z := 0x9f.
Definition OP_GREATERTHAN : Z := 0xa0.
Definition OP_LESSTHANOREQUAL : Z := 0xa1.
Definition OP_GREATERTHANOREQUAL : Z := 0xa2.
Definition OP_MIN : Z := 0xa3.
Definition OP_MAX : Z := 0xa4.
Definition OP_WITHIN : Z := 0xa5.
Definition OP_RIPEMD160 : Z := 0xa6.
Definition OP_SHA1 : Z := 0xa7.
Definition OP_SHA256 : Z := 0xa8.
Definition OP_HASH256 : Z := 0xaa.
Definition OP_CODESEPARATOR : Z := 0xab.
Definition OP_NOP1 : Z := 0xb0.
Definition OP_CHECKLOCKTIMEVERIFY : Z := 0xb1.
Definition OP_CHECKSEQUENCEVERIFY : Z := 0xb2.
Definition OP_NOP4 : Z := 0xb3.
Definition OP_NOP10 : Z := 0xb9.

Definition SCRIPT_VERIFY_P2SH : Z := Z.shiftl 1 0.
Definition SCRIPT_VERIFY_STRICTENC : Z := Z.shiftl 1 1.
Definition SCRIPT_VERIFY_DERSIG : Z := Z.shiftl 1 2.
Definition SCRIPT_VERIFY_LOW_S : Z := Z.shiftl 1 3.
Definition SCRIPT_VERIFY_NULLDUMMY : Z := Z.shiftl 1 4.
Definition SCRIPT_VERIFY_SIGPUSHONLY : Z := Z.shiftl 1 5.
Definition SCRIPT_VERIFY_MINIMALDATA : Z := Z.shiftl 1 6.
Definition SCRIPT_VERIFY_DISCOURAGE_UPGRADABLE_NOPS : Z := Z.shiftl 1 7.
Definition SCRIPT_VERIFY_CLEANSTACK : Z := Z.shiftl 1 8.
Definition SCRIPT_VERIFY_CHECKLOCKTIMEVERIFY : Z := Z.shiftl 1 9.
Definition SCRIPT_VERIFY_CHECKSEQUENCEVERIFY : Z := Z.shiftl 1 10.
Definition SCRIPT_VERIFY_NULLFAIL : Z := Z.shiftl 1 14.

(** [flags & f] *)
Definition flag_set (flags f : Z) : bool := negb (Z.land flags f =? 0).

Definition SIGHASH_ALL : Z := 1.
Definition SIGHASH_NONE : Z := 2.
Definition SIGHASH_SINGLE : Z := 3.
Definition SIGHASH_ANYONECANPAY : Z := 0x80.

Inductive ScriptError :=
| SCRIPT_ERR_OK
| SCRIPT_ERR_UNKNOWN_ERROR
| SCRIPT_ERR_EVAL_FALSE
| SCRIPT_ERR_OP_RETURN
| SCRIPT_ERR_SCRIPT_SIZE
| SCRIPT_ERR_PUSH_SIZE
| SCRIPT_ERR_OP_COUNT
| SCRIPT_ERR_STACK_SIZE
| SCRIPT_ERR_SIG_COUNT
| SCRIPT_ERR_PUBKEY_COUNT
| SCRIPT_ERR_VERIFY
| SCRIPT_ERR_EQUALVERIFY
| SCRIPT_ERR_CHECKMULTISIGVERIFY
| SCRIPT_ERR_CHECKSIGVERIFY
| SCRIPT_ERR_NUMEQUALVERIFY
| SCRIPT_ERR_BAD_OPCODE
| SCRIPT_ERR_DISABLED_OPCODE
| SCRIPT_ERR_INVALID_STACK_OPERATION
| SCRIPT_ERR_INVALID_ALTSTACK_OPERATION
| SCRIPT_ERR_UNBALANCED_CONDITIONAL
| SCRIPT_ERR_NEGATIVE_LOCKTIME
| SCRIPT_ERR_UNSATISFIED_LOCKTIME
| SCRIPT_ERR_SIG_HASHTYPE
| SCRIPT_ERR_SIG_DER
| SCRIPT_ERR_MINIMALDATA
| SCRIPT_ERR_SIG_PUSHONLY
| SCRIPT_ERR_SIG_HIGH_S
| SCRIPT_ERR_SIG_NULLDUMMY
| SCRIPT_ERR_PUBKEYTYPE
| SCRIPT_ERR_CLEANSTACK
| SCRIPT_ERR_SIG_NULLFAIL
| SCRIPT_ERR_DISCOURAGE_UPGRADABLE_NOPS.

#[global] Instance ScriptError_eq_dec : EqDecision ScriptError.
Proof. solve_decision. Defined.

(** The result of a fallible step: [Err] is [return set_error(serror, e)]. *)
Inductive outcome (A : Type) := Ok (a : A) | Err (e : ScriptError) | Abort.
Arguments Ok {A} a.
Arguments Err {A} e.
Arguments Abort {A}.

#[global] Instance outcome_ret : MRet outcome := @Ok.
#[global] Instance outcome_bind : MBind outcome := fun A B f x =>
  match x with Ok a => f a | Err e => Err e | Abort => Abort end.

(** An exception reaches the handler of [EvalScript]. *)
Definition throws {A} (o : option A) : outcome A :=
  match o with Some a => Ok a | None => Err SCRIPT_ERR_UNKNOWN_ERROR end.
Definition asserts {A} (o : option A) : outcome A := match o with Some a => Ok a | None => Abort end.
(** [if (!b) return set_error(serror, e)] *)
Definition require (b : bool) (e : ScriptError) : outcome unit := if b then Ok tt else Err e.

(** ** Values and encodings *)

(** The loop of [CastToBool]: [vch[i..]]. *)
Fixpoint CastToBool (vch : valtype) : bool :=
  match vch with
  | [] => false
  | b :: vch => if negb (b =? 0) then negb ((length vch =? 0)%nat && (b =? 0x80)) else CastToBool vch
  end.

Definition vchTrue : valtype := [1].
Definition vchFalse : valtype := [].
Definition of_bool (b : bool) : valtype := if b then vchTrue else vchFalse.

Definition IsCompressedOrUncompressedPubKey (vchPubKey : valtype) : bool :=
  let n := Z.of_nat (length vchPubKey) in
  if n <? 33 then false
  else if vchPubKey !!! 0%nat =? 0x04 then negb (negb (n =? 65))
  else if (vchPubKey !!! 0%nat =? 0x02) || (vchPubKey !!! 0%nat =? 0x03) then negb (negb (n =? 33))
  else false.

Definition IsValidSignatureEncoding (sig : valtype) : bool :=
  let n := Z.of_nat (length sig) in
  let at_ i := sig !!! Z.to_nat i in
  if n <? 9 then false
  else if n >? 73 then false
  else if negb (at_ 0 =? 0x30) then false
  else if negb (at_ 1 =? n - 3) then false
  else
    let lenR := at_ 3 in
    if 5 + lenR >=? n then false
    else
      let lenS := at_ (5 + lenR) in
      if negb (lenR + lenS + 7 =? n) then false
      else if negb (at_ 2 =? 0x02) then false
      else if lenR =? 0 then false
      else if negb (Z.land (at_ 4) 0x80 =? 0) then false
      else if (lenR >? 1) && (at_ 4 =? 0x00) && negb (negb (Z.land (at_ 5) 0x80 =? 0)) then false
      else if negb (at_ (lenR + 4) =? 0x02) then false
      else if lenS =? 0 then false
      else if negb (Z.land (at_ (lenR + 6)) 0x80 =? 0) then false
      else if (lenS >? 1) && (at_ (lenR + 6) =? 0x00) && negb (negb (Z.land (at_ (lenR + 7)) 0x80 =? 0)) then false
      else true.

Definition IsDefinedHashtypeSignature (vchSig : valtype) : bool :=
  if (length vchSig =? 0)%nat then false
  else
    let nHashType := u8 (Z.land (vchSig !!! (length vchSig - 1)%nat) (Z.lnot SIGHASH_ANYONECANPAY)) in
    if (nHashType <? SIGHASH_ALL) || (nHashType >? SIGHASH_SINGLE) then false else true.

Definition CheckPubKeyEncoding (vchPubKey : valtype) (flags : Z) : outcome unit :=
  if flag_set flags SCRIPT_VERIFY_STRICTENC && negb (IsCompressedOrUncompressedPubKey vchPubKey)
  then Err SCRIPT_ERR_PUBKEYTYPE else Ok tt.

Definition CheckMinimalPush (data : valtype) (opcode : Z) : bool :=
  let n := Z.of_nat (length data) in
  if n =? 0 then opcode =? OP_0
  else if (n =? 1) && (data !!! 0%nat >=? 1) && (data !!! 0%nat <=? 16) then opcode =? OP_1 + (data !!! 0%nat - 1)
  else if (n =? 1) && (data !!! 0%nat =? 0x81) then opcode =? OP_1NEGATE
  else if n <=? 75 then opcode =? n
  else if n <=? 255 then opcode =? OP_PUSHDATA1
  else if n <=? 65535 then opcode =? OP_PUSHDATA2
  else true.

(** [BaseSignatureChecker] *)
Record SignatureChecker := {
  CheckSig : valtype -> valtype -> list Z -> bool;
  CheckLockTime : Z -> bool;
  CheckSequence : Z -> bool;
}.

Definition BaseSignatureChecker : SignatureChecker :=
  {| CheckSig _ _ _ := false; CheckLockTime _ := false; CheckSequence _ := false |}.

Section Interpreter.

(** [CPubKey::CheckLowS] and the hash functions of [src/src/crypto]. *)
Variable CheckLowS : valtype -> bool.
Variable RIPEMD160 SHA1 SHA256 HASH160 HASH256 : valtype -> valtype.

Definition IsLowDERSignature (vchSig : valtype) : outcome unit :=
  if negb (IsValidSignatureEncoding vchSig) then Err SCRIPT_ERR_SIG_DER
  else if negb (CheckLowS (take (length vchSig - 1) vchSig)) then Err SCRIPT_ERR_SIG_HIGH_S
  else Ok tt.

(** The three flags of the first test are tested in one mask. *)
Definition CheckSignatureEncoding (vchSig : valtype) (flags : Z) : outcome unit :=
  if (length vchSig =? 0)%nat then Ok tt
  else if flag_set flags (Z.lor (Z.lor SCRIPT_VERIFY_DERSIG SCRIPT_VERIFY_LOW_S) SCRIPT_VERIFY_STRICTENC)
          && negb (IsValidSignatureEncoding vchSig)
  then Err SCRIPT_ERR_SIG_DER
  else
    _ ← (if flag_set flags SCRIPT_VERIFY_LOW_S then IsLowDERSignature vchSig else Ok tt);
    if flag_set flags SCRIPT_VERIFY_STRICTENC && negb (IsDefinedHashtypeSignature vchSig)
    then Err SCRIPT_ERR_SIG_HASHTYPE else Ok tt.

(** ** Opcodes *)

(** Whether the operands of an opcode are on the stack. *)
Definition need (b : bool) : outcome unit := require b SCRIPT_ERR_INVALID_STACK_OPERATION.

Definition stacktop (stack : list valtype) (i : Z) : outcome valtype :=
  throws (stack !! Z.to_nat (i - 1)).
Definition popstack (stack : list valtype) : outcome (list valtype) :=
  match stack with [] => Err SCRIPT_ERR_UNKNOWN_ERROR | _ :: s => Ok s end.

Definition op_locktime (checker : SignatureChecker) (flags : Z) (fRequireMinimal : bool) (stack : list valtype) : outcome unit :=
  if negb (flag_set flags SCRIPT_VERIFY_CHECKLOCKTIMEVERIFY) then
    require (negb (flag_set flags SCRIPT_VERIFY_DISCOURAGE_UPGRADABLE_NOPS)) SCRIPT_ERR_DISCOURAGE_UPGRADABLE_NOPS
  else
    _ ← need (negb (length stack <? 1)%nat);
    top ← stacktop stack 1;
    nLockTime ← throws (CScriptNum top fRequireMinimal 5);
    if nLockTime <? 0 then Err SCRIPT_ERR_NEGATIVE_LOCKTIME
    else require (CheckLockTime checker nLockTime) SCRIPT_ERR_UNSATISFIED_LOCKTIME.

Definition op_sequence (checker : SignatureChecker) (flags : Z) (fRequireMinimal : bool) (stack : list valtype) : outcome unit :=
  if negb (flag_set flags SCRIPT_VERIFY_CHECKSEQUENCEVERIFY) then
    require (negb (flag_set flags SCRIPT_VERIFY_DISCOURAGE_UPGRADABLE_NOPS)) SCRIPT_ERR_DISCOURAGE_UPGRADABLE_NOPS
  else
    _ ← need (negb (length stack <? 1)%nat);
    top ← stacktop stack 1;
    nSequence ← throws (CScriptNum top fRequireMinimal 5);
    if nSequence <? 0 then Err SCRIPT_ERR_NEGATIVE_LOCKTIME
    else if negb (Z.land nSequence SEQUENCE_LOCKTIME_DISABLE_FLAG =? 0) then Ok tt
    else require (CheckSequence checker nSequence) SCRIPT_ERR_UNSATISFIED_LOCKTIME.

(** [OP_IF] and [OP_NOTIF]: the new stack and the branch taken. *)
Definition op_if (fExec : bool) (opcode : Z) (stack : list valtype) : outcome (list valtype * bool) :=
  if fExec then
    match stack with
    | [] => Err SCRIPT_ERR_UNBALANCED_CONDITIONAL
    | vch :: s => let fValue := CastToBool vch in Ok (s, if opcode =? OP_NOTIF then negb fValue else fValue)
    end
  else Ok (stack, false).

Definition op_else (vfExec : list bool) : outcome (list bool) :=
  match vfExec with [] => Err SCRIPT_ERR_UNBALANCED_CONDITIONAL | b :: v => Ok (negb b :: v) end.
Definition op_endif (vfExec : list bool) : outcome (list bool) :=
  match vfExec with [] => Err SCRIPT_ERR_UNBALANCED_CONDITIONAL | _ :: v => Ok v end.

Definition op_verify (stack : list valtype) : outcome (list valtype) :=
  match stack with
  | [] => Err SCRIPT_ERR_INVALID_STACK_OPERATION
  | vch :: s => if CastToBool vch then Ok s else Err SCRIPT_ERR_VERIFY
  end.

Definition op_toaltstack (stack altstack : list valtype) : outcome (list valtype * list valtype) :=
  match stack with x :: s => Ok (s, x :: altstack) | [] => Err SCRIPT_ERR_INVALID_STACK_OPERATION end.
Definition op_fromaltstack (stack altstack : list valtype) : outcome (list valtype * list valtype) :=
  match altstack with x :: a => Ok (x :: stack, a) | [] => Err SCRIPT_ERR_INVALID_ALTSTACK_OPERATION end.

(** [OP_PICK] and [OP_ROLL] *)
Definition op_pick (fRequireMinimal : bool) (opcode : Z) (stack : list valtype) : outcome (list valtype) :=
  _ ← need (negb (length stack <? 2)%nat);
  top ← stacktop stack 1;
  bn ← throws (CScriptNum top fRequireMinimal nDefaultMaxNumSize);
  let n := getint bn in
  s ← popstack stack;
  if (n <? 0) || (n >=? Z.of_nat (length s)) then Err SCRIPT_ERR_INVALID_STACK_OPERATION
  else
    vch ← stacktop s (n + 1);
    Ok (vch :: (if opcode =? OP_ROLL then delete (Z.to_nat n) s else s)).

(** The opcodes that move stack elements, up to [OP_SIZE]; too short a stack is an error
    of each. *)
Definition op_stack (fRequireMinimal : bool) (opcode : Z) (stack : list valtype) : outcome (list valtype) :=
  let short := Err SCRIPT_ERR_INVALID_STACK_OPERATION in
  if opcode =? OP_2DROP then match stack with _ :: _ :: s => Ok s | _ => short end
  else if opcode =? OP_2DUP then
    match stack with x2 :: x1 :: s => Ok (x2 :: x1 :: x2 :: x1 :: s) | _ => short end
  else if opcode =? OP_3DUP then
    match stack with x3 :: x2 :: x1 :: s => Ok (x3 :: x2 :: x1 :: x3 :: x2 :: x1 :: s) | _ => short end
  else if opcode =? OP_2OVER then
    match stack with x4 :: x3 :: x2 :: x1 :: s => Ok (x2 :: x1 :: x4 :: x3 :: x2 :: x1 :: s) | _ => short end
  else if opcode =? OP_2ROT then
    match stack with
    | x6 :: x5 :: x4 :: x3 :: x2 :: x1 :: s => Ok (x2 :: x1 :: x6 :: x5 :: x4 :: x3 :: s)
    | _ => short
    end
  else if opcode =? OP_2SWAP then
    match stack with x4 :: x3 :: x2 :: x1 :: s => Ok (x2 :: x1 :: x4 :: x3 :: s) | _ => short end
  else if opcode =? OP_IFDUP then
    match stack with x :: s => Ok (if CastToBool x then x :: x :: s else x :: s) | _ => short end
  else if opcode =? OP_DEPTH then Ok (scriptnum_serialize (Z.of_nat (length stack)) :: stack)
  else if opcode =? OP_DROP then match stack with _ :: s => Ok s | _ => short end
  else if opcode =? OP_DUP then match stack with x :: s => Ok (x :: x :: s) | _ => short end
  else if opcode =? OP_NIP then match stack with x2 :: _ :: s => Ok (x2 :: s) | _ => short end
  else if opcode =? OP_OVER then match stack with x2 :: x1 :: s => Ok (x1 :: x2 :: x1 :: s) | _ => short end
  else if (opcode =? OP_PICK) || (opcode =? OP_ROLL) then op_pick fRequireMinimal opcode stack
  else if opcode =? OP_ROT then
    match stack with x3 :: x2 :: x1 :: s => Ok (x1 :: x3 :: x2 :: s) | _ => short end
  else if opcode =? OP_SWAP then match stack with x2 :: x1 :: s => Ok (x1 :: x2 :: s) | _ => short end
  else if opcode =? OP_TUCK then match stack with x2 :: x1 :: s => Ok (x2 :: x1 :: x2 :: s) | _ => short end
  else if opcode =? OP_SIZE then
    match stack with x :: s => Ok (scriptnum_serialize (Z.of_nat (length x)) :: x :: s) | _ => short end
  else Err SCRIPT_ERR_BAD_OPCODE.

(** [OP_EQUAL] and [OP_EQUALVERIFY] *)
Definition op_equal (opcode : Z) (stack : list valtype) : outcome (list valtype) :=
  match stack with
  | vch2 :: vch1 :: s =>
      let fEqual := bool_decide (vch1 = vch2) in
      if opcode =? OP_EQUALVERIFY then if fEqual then Ok s else Err SCRIPT_ERR_EQUALVERIFY
      else Ok (of_bool fEqual :: s)
  | _ => Err SCRIPT_ERR_INVALID_STACK_OPERATION
  end.

Definition bit (b : bool) : Z := if b then 1 else 0.

(** The arithmetic of one operand. *)
Definition unary_num (opcode bn : Z) : outcome Z :=
  if opcode =? OP_1ADD then asserts (scriptnum_add bn 1)
  else if opcode =? OP_1SUB then asserts (scriptnum_sub bn 1)
  else if opcode =? OP_NEGATE then asserts (scriptnum_neg bn)
  else if opcode =? OP_ABS then if bn <? 0 then asserts (scriptnum_neg bn) else Ok bn
  else if opcode =? OP_NOT then Ok (bit (bn =? 0))
  else if opcode =? OP_0NOTEQUAL then Ok (bit (negb (bn =? 0)))
  else Abort.

Definition op_unary (fRequireMinimal : bool) (opcode : Z) (stack : list valtype) : outcome (list valtype) :=
  match stack with
  | x :: s =>
      bn ← throws (CScriptNum x fRequireMinimal nDefaultMaxNumSize);
      bn ← unary_num opcode bn;
      Ok (scriptnum_serialize bn :: s)
  | _ => Err SCRIPT_ERR_INVALID_STACK_OPERATION
  end.

(** The arithmetic of two operands. *)
Definition binary_num (opcode bn1 bn2 : Z) : outcome Z :=
  if opcode =? OP_ADD then asserts (scriptnum_add bn1 bn2)
  else if opcode =? OP_SUB then asserts (scriptnum_sub bn1 bn2)
  else if opcode =? OP_BOOLAND then Ok (bit (negb (bn1 =? 0) && negb (bn2 =? 0)))
  else if opcode =? OP_BOOLOR then Ok (bit (negb (bn1 =? 0) || negb (bn2 =? 0)))
  else if opcode =? OP_NUMEQUAL then Ok (bit (bn1 =? bn2))
  else if opcode =? OP_NUMEQUALVERIFY then Ok (bit (bn1 =? bn2))
  else if opcode =? OP_NUMNOTEQUAL then Ok (bit (negb (bn1 =? bn2)))
  else if opcode =? OP_LESSTHAN then Ok (bit (bn1 <? bn2))
  else if opcode =? OP_GREATERTHAN then Ok (bit (bn1 >? bn2))
  else if opcode =? OP_LESSTHANOREQUAL then Ok (bit (bn1 <=? bn2))
  else if opcode =? OP_GREATERTHANOREQUAL then Ok (bit (bn1 >=? bn2))
  else if opcode =? OP_MIN then Ok (if bn1 <? bn2 then bn1 else bn2)
  else if opcode =? OP_MAX then Ok (if bn1 >? bn2 then bn1 else bn2)
  else Abort.

Definition op_binary (fRequireMinimal : bool) (opcode : Z) (stack : list valtype) : outcome (list valtype) :=
  match stack with
  | x2 :: x1 :: s =>
      bn1 ← throws (CScriptNum x1 fRequireMinimal nDefaultMaxNumSize);
      bn2 ← throws (CScriptNum x2 fRequireMinimal nDefaultMaxNumSize);
      bn ← binary_num opcode bn1 bn2;
      let s := scriptnum_serialize bn :: s in
      if opcode =? OP_NUMEQUALVERIFY then
        top ← stacktop s 1;
        if CastToBool top then popstack s else Err SCRIPT_ERR_NUMEQUALVERIFY
      else Ok s
  | _ => Err SCRIPT_ERR_INVALID_STACK_OPERATION
  end.

Definition op_within (fRequireMinimal : bool) (stack : list valtype) : outcome (list valtype) :=
  match stack with
  | x3 :: x2 :: x1 :: s =>
      bn1 ← throws (CScriptNum x1 fRequireMinimal nDefaultMaxNumSize);
      bn2 ← throws (CScriptNum x2 fRequireMinimal nDefaultMaxNumSize);
      bn3 ← throws (CScriptNum x3 fRequireMinimal nDefaultMaxNumSize);
      Ok (of_bool ((bn2 <=? bn1) && (bn1 <? bn3)) :: s)
  | _ => Err SCRIPT_ERR_INVALID_STACK_OPERATION
  end.

Definition op_hash (opcode : Z) (stack : list valtype) : outcome (list valtype) :=
  match stack with
  | vch :: s =>
      let vchHash :=
        if opcode =? OP_RIPEMD160 then RIPEMD160 vch
        else if opcode =? OP_SHA1 then SHA1 vch
        else if opcode =? OP_SHA256 then SHA256 vch
        else if opcode =? OP_HASH160 then HASH160 vch
        else HASH256 vch in
      Ok (vchHash :: s)
  | _ => Err SCRIPT_ERR_INVALID_STACK_OPERATION
  end.

(** ** Signature opcodes *)

(** [scriptCode.FindAndDelete(CScript(vchSig))] *)
Definition drop_signature (scriptCode : list Z) (vchSig : valtype) : list Z :=
  fst (FindAndDelete scriptCode (push_data [] vchSig)).

(** The encodings are checked before the signature is verified. *)
Definition check_sig (checker : SignatureChecker) (flags : Z) (scriptCode : list Z) (vchSig vchPubKey : valtype)
    : outcome bool :=
  _ ← CheckSignatureEncoding vchSig flags;
  _ ← CheckPubKeyEncoding vchPubKey flags;
  Ok (CheckSig checker vchSig vchPubKey scriptCode).

Definition op_checksig (checker : SignatureChecker) (flags opcode : Z) (pbegincodehash : list Z)
    (stack : list valtype) : outcome (list valtype) :=
  match stack with
  | vchPubKey :: vchSig :: s =>
      let scriptCode := drop_signature pbegincodehash vchSig in
      fSuccess ← check_sig checker flags scriptCode vchSig vchPubKey;
      if negb fSuccess && flag_set flags SCRIPT_VERIFY_NULLFAIL && negb (length vchSig =? 0)%nat
      then Err SCRIPT_ERR_SIG_NULLFAIL
      else if opcode =? OP_CHECKSIGVERIFY then if fSuccess then Ok s else Err SCRIPT_ERR_CHECKSIGVERIFY
      else Ok (of_bool fSuccess :: s)
  | _ => Err SCRIPT_ERR_INVALID_STACK_OPERATION
  end.

(** Dropping the [n] signatures from position [isig] of the stack. *)
Fixpoint drop_signatures (n : nat) (isig : Z) (stack : list valtype) (scriptCode : list Z) : outcome (list Z) :=
  match n with
  | O => Ok scriptCode
  | S n =>
      vchSig ← stacktop stack isig;
      drop_signatures n (isig + 1) stack (drop_signature scriptCode vchSig)
  end.

(** The matching loop.  Every round uses up a key, so the number of keys is fuel enough
    ([multisig_loop_keys] below). *)
Fixpoint multisig_loop (fuel : nat) (checker : SignatureChecker) (flags : Z) (scriptCode : list Z)
    (stack : list valtype) (isig ikey nSigsCount nKeysCount : Z) : outcome bool :=
  if negb (nSigsCount >? 0) then Ok true
  else
    match fuel with
    | O => Ok false
    | S fuel =>
        vchSig ← stacktop stack isig;
        vchPubKey ← stacktop stack ikey;
        fOk ← check_sig checker flags scriptCode vchSig vchPubKey;
        let isig := if (fOk : bool) then isig + 1 else isig in
        let nSigsCount := if fOk then nSigsCount - 1 else nSigsCount in
        let nKeysCount := nKeysCount - 1 in
        if nSigsCount >? nKeysCount then Ok false
        else multisig_loop fuel checker flags scriptCode stack isig (ikey + 1) nSigsCount nKeysCount
    end.

(** Popping the [n] arguments; [ikey2] counts down to the signatures. *)
Fixpoint multisig_cleanup (n : nat) (flags : Z) (fSuccess : bool) (ikey2 : Z) (stack : list valtype)
    : outcome (list valtype) :=
  match n with
  | O => Ok stack
  | S n =>
      top ← stacktop stack 1;
      if negb fSuccess && flag_set flags SCRIPT_VERIFY_NULLFAIL && (ikey2 =? 0) && negb (length top =? 0)%nat
      then Err SCRIPT_ERR_SIG_NULLFAIL
      else
        s ← popstack stack;
        multisig_cleanup n flags fSuccess (if ikey2 >? 0 then ikey2 - 1 else ikey2) s
  end.

(** The second half of [OP_CHECKMULTISIG] and [OP_CHECKMULTISIGVERIFY], behind the checks of
    the counts: matching the signatures and cleaning up the stack. *)
Definition multisig_finish (checker : SignatureChecker) (flags opcode : Z) (pbegincodehash : list Z)
    (stack : list valtype) (i isig ikey ikey2 nSigsCount nKeysCount nOpCount : Z) : outcome (list valtype * Z) :=
  scriptCode ← drop_signatures (Z.to_nat nSigsCount) isig stack pbegincodehash;
  fSuccess ← multisig_loop (Z.to_nat nKeysCount) checker flags scriptCode stack isig ikey nSigsCount nKeysCount;
  s ← multisig_cleanup (Z.to_nat (i - 1)) flags fSuccess ikey2 stack;
  _ ← need (negb (length s <? 1)%nat);
  dummy ← stacktop s 1;
  _ ← require (negb (flag_set flags SCRIPT_VERIFY_NULLDUMMY && negb (length dummy =? 0)%nat)) SCRIPT_ERR_SIG_NULLDUMMY;
  s ← popstack s;
  if opcode =? OP_CHECKMULTISIGVERIFY
  then if (fSuccess : bool) then Ok (s, nOpCount) else Err SCRIPT_ERR_CHECKMULTISIGVERIFY
  else Ok (of_bool fSuccess :: s, nOpCount).

(** [OP_CHECKMULTISIG] and [OP_CHECKMULTISIGVERIFY]: the new stack and operation count. *)
Definition op_checkmultisig (checker : SignatureChecker) (flags : Z) (fRequireMinimal : bool) (opcode : Z)
    (pbegincodehash : list Z) (stack : list valtype) (nOpCount : Z) : outcome (list valtype * Z) :=
  let size := Z.of_nat (length stack) in
  let i := 1 in
  _ ← need (negb (size <? i));
  top ← stacktop stack i;
  bn ← throws (CScriptNum top fRequireMinimal nDefaultMaxNumSize);
  let nKeysCount := getint bn in
  _ ← require (negb ((nKeysCount <? 0) || (nKeysCount >? MAX_PUBKEYS_PER_MULTISIG))) SCRIPT_ERR_PUBKEY_COUNT;
  let nOpCount := nOpCount + nKeysCount in
  _ ← require (negb (nOpCount >? MAX_OPS_PER_SCRIPT)) SCRIPT_ERR_OP_COUNT;
  let i := i + 1 in
  let ikey := i in
  let ikey2 := nKeysCount + 2 in
  let i := i + nKeysCount in
  _ ← need (negb (size <? i));
  top ← stacktop stack i;
  bn ← throws (CScriptNum top fRequireMinimal nDefaultMaxNumSize);
  let nSigsCount := getint bn in
  _ ← require (negb ((nSigsCount <? 0) || (nSigsCount >? nKeysCount))) SCRIPT_ERR_SIG_COUNT;
  let i := i + 1 in
  let isig := i in
  let i := i + nSigsCount in
  _ ← need (negb (size <? i));
  multisig_finish checker flags opcode pbegincodehash stack i isig ikey ikey2 nSigsCount nKeysCount nOpCount.

(** ** The machine *)

Record Machine := {
  stk : list valtype;
  altstack : list valtype;
  vfExec : list bool;
  nOpCount : Z;
  pbegincodehash : list Z;
}.

Definition set_stk (m : Machine) (s : list valtype) : Machine :=
  {| stk := s; altstack := altstack m; vfExec := vfExec m; nOpCount := nOpCount m; pbegincodehash := pbegincodehash m |}.
Definition set_alt (m : Machine) (p : list valtype * list valtype) : Machine :=
  {| stk := p.1; altstack := p.2; vfExec := vfExec m; nOpCount := nOpCount m; pbegincodehash := pbegincodehash m |}.
Definition set_exec (m : Machine) (s : list valtype) (v : list bool) : Machine :=
  {| stk := s; altstack := altstack m; vfExec := v; nOpCount := nOpCount m; pbegincodehash := pbegincodehash m |}.
Definition set_count (m : Machine) (s : list valtype) (n : Z) : Machine :=
  {| stk := s; altstack := altstack m; vfExec := vfExec m; nOpCount := n; pbegincodehash := pbegincodehash m |}.
Definition set_code (m : Machine) (pc : list Z) : Machine :=
  {| stk := stk m; altstack := altstack m; vfExec := vfExec m; nOpCount := nOpCount m; pbegincodehash := pc |}.

Definition between (lo op hi : Z) : bool := (lo <=? op) && (op <=? hi).

(** The [switch] of [EvalScript]; [pc] is the iterator behind the instruction. *)
Definition exec_op (checker : SignatureChecker) (flags : Z) (fExec : bool) (opcode : Z) (pc : list Z) (m : Machine)
    : outcome Machine :=
  let fRequireMinimal := flag_set flags SCRIPT_VERIFY_MINIMALDATA in
  let stack := stk m in
  if (opcode =? OP_1NEGATE) || between OP_1 opcode OP_16 then
    Ok (set_stk m (scriptnum_serialize (opcode - (OP_1 - 1)) :: stack))
  else if opcode =? OP_NOP then Ok m
  else if opcode =? OP_CHECKLOCKTIMEVERIFY then _ ← op_locktime checker flags fRequireMinimal stack; Ok m
  else if opcode =? OP_CHECKSEQUENCEVERIFY then _ ← op_sequence checker flags fRequireMinimal stack; Ok m
  else if (opcode =? OP_NOP1) || between OP_NOP4 opcode OP_NOP10 then
    _ ← require (negb (flag_set flags SCRIPT_VERIFY_DISCOURAGE_UPGRADABLE_NOPS)) SCRIPT_ERR_DISCOURAGE_UPGRADABLE_NOPS;
    Ok m
  else if (opcode =? OP_IF) || (opcode =? OP_NOTIF) then
    '(s, fValue) ← op_if fExec opcode stack; Ok (set_exec m s (fValue :: vfExec m))
  else if opcode =? OP_ELSE then v ← op_else (vfExec m); Ok (set_exec m stack v)
  else if opcode =? OP_ENDIF then v ← op_endif (vfExec m); Ok (set_exec m stack v)
  else if opcode =? OP_VERIFY then s ← op_verify stack; Ok (set_stk m s)
  else if opcode =? OP_RETURN then Err SCRIPT_ERR_OP_RETURN
  else if opcode =? OP_TOALTSTACK then p ← op_toaltstack stack (altstack m); Ok (set_alt m p)
  else if opcode =? OP_FROMALTSTACK then p ← op_fromaltstack stack (altstack m); Ok (set_alt m p)
  else if between OP_2DROP opcode OP_TUCK || (opcode =? OP_SIZE) then
    s ← op_stack fRequireMinimal opcode stack; Ok (set_stk m s)
  else if (opcode =? OP_EQUAL) || (opcode =? OP_EQUALVERIFY) then s ← op_equal opcode stack; Ok (set_stk m s)
  else if (opcode =? OP_1ADD) || (opcode =? OP_1SUB) || between OP_NEGATE opcode OP_0NOTEQUAL then
    s ← op_unary fRequireMinimal opcode stack; Ok (set_stk m s)
  else if (opcode =? OP_ADD) || (opcode =? OP_SUB) || between OP_BOOLAND opcode OP_MAX then
    s ← op_binary fRequireMinimal opcode stack; Ok (set_stk m s)
  else if opcode =? OP_WITHIN then s ← op_within fRequireMinimal stack; Ok (set_stk m s)
  else if between OP_RIPEMD160 opcode OP_HASH256 then s ← op_hash opcode stack; Ok (set_stk m s)
  else if opcode =? OP_CODESEPARATOR then Ok (set_code m pc)
  else if (opcode =? OP_CHECKSIG) || (opcode =? OP_CHECKSIGVERIFY) then
    s ← op_checksig checker flags opcode (pbegincodehash m) stack; Ok (set_stk m s)
  else if (opcode =? OP_CHECKMULTISIG) || (opcode =? OP_CHECKMULTISIGVERIFY) then
    '(s, n) ← op_checkmultisig checker flags fRequireMinimal opcode (pbegincodehash m) stack (nOpCount m);
    Ok (set_count m s n)
  else Err SCRIPT_ERR_BAD_OPCODE.

Definition disabled_opcode (opcode : Z) : bool :=
  (opcode =? OP_CAT) || (opcode =? OP_SUBSTR) || (opcode =? OP_LEFT) || (opcode =? OP_RIGHT)
  || (opcode =? OP_INVERT) || (opcode =? OP_AND) || (opcode =? OP_OR) || (opcode =? OP_XOR)
  || (opcode =? OP_2MUL) || (opcode =? OP_2DIV) || (opcode =? OP_MUL) || (opcode =? OP_DIV)
  || (opcode =? OP_MOD) || (opcode =? OP_LSHIFT) || (opcode =? OP_RSHIFT).

(** One round of the loop of [EvalScript]. *)
Definition eval_step (checker : SignatureChecker) (flags : Z) (pc : list Z) (m : Machine) : outcome (list Z * Machine) :=
  let fExec := forallb id (vfExec m) in
  let r := GetOp2 pc in
  let opcode := opcodeRet r in
  let vchPushValue := vchRet r in
  _ ← require (fRet r) SCRIPT_ERR_BAD_OPCODE;
  _ ← require (negb (Z.of_nat (length vchPushValue) >? MAX_SCRIPT_ELEMENT_SIZE)) SCRIPT_ERR_PUSH_SIZE;
  let n := if opcode >? OP_16 then nOpCount m + 1 else nOpCount m in
  let m := set_count m (stk m) n in
  _ ← require (negb ((opcode >? OP_16) && (n >? MAX_OPS_PER_SCRIPT))) SCRIPT_ERR_OP_COUNT;
  _ ← require (negb (disabled_opcode opcode)) SCRIPT_ERR_DISABLED_OPCODE;
  m ← (if fExec && between 0 opcode OP_PUSHDATA4 then
         _ ← require (negb (flag_set flags SCRIPT_VERIFY_MINIMALDATA && negb (CheckMinimalPush vchPushValue opcode)))
                     SCRIPT_ERR_MINIMALDATA;
         Ok (set_stk m (vchPushValue :: stk m))
       else if fExec || between OP_IF opcode OP_ENDIF then exec_op checker flags fExec opcode (pcRet r) m
       else Ok m);
  _ ← require (negb (Z.of_nat (length (stk m)) + Z.of_nat (length (altstack m)) >? 1000)) SCRIPT_ERR_STACK_SIZE;
  Ok (pcRet r, m).

(** Every round consumes at least one byte: the length of the script is fuel enough. *)
Fixpoint eval_loop (fuel : nat) (checker : SignatureChecker) (flags : Z) (pc : list Z) (m : Machine) : outcome Machine :=
  if (length pc =? 0)%nat then Ok m
  else
    match fuel with
    | O => Abort
    | S fuel => '(pc, m) ← eval_step checker flags pc m; eval_loop fuel checker flags pc m
    end.

(** [EvalScript]: [Ok stack] is [true] with the final stack. *)
Definition EvalScript (stack : list valtype) (script : list Z) (flags : Z) (checker : SignatureChecker)
    : outcome (list valtype) :=
  _ ← require (negb (Z.of_nat (length script) >? MAX_SCRIPT_SIZE)) SCRIPT_ERR_SCRIPT_SIZE;
  m ← eval_loop (length script) checker flags script
        {| stk := stack; altstack := []; vfExec := []; nOpCount := 0; pbegincodehash := script |};
  match vfExec m with [] => Ok (stk m) | _ => Err SCRIPT_ERR_UNBALANCED_CONDITIONAL end.

(** ** Verifying a pair of scripts *)

(** [Ok tt] is [true]. *)
Definition VerifyScript (scriptSig scriptPubKeyIn : list Z) (flags : Z) (checker : SignatureChecker) : outcome unit :=
  let scriptPubKey := match RemoveMineriumScript scriptPubKeyIn with Some s => s | None => scriptPubKeyIn end in
  _ ← require (negb (flag_set flags SCRIPT_VERIFY_SIGPUSHONLY && negb (IsPushOnly scriptSig))) SCRIPT_ERR_SIG_PUSHONLY;
  stack ← EvalScript [] scriptSig flags checker;
  let stackCopy := if flag_set flags SCRIPT_VERIFY_P2SH then stack else [] in
  stack ← EvalScript stack scriptPubKey flags checker;
  _ ← require (match stack with [] => false | vch :: _ => CastToBool vch end) SCRIPT_ERR_EVAL_FALSE;
  stack ← (if flag_set flags SCRIPT_VERIFY_P2SH && IsPayToScriptHash scriptPubKey then
             _ ← require (IsPushOnly scriptSig) SCRIPT_ERR_SIG_PUSHONLY;
             match stackCopy with
             | [] => Abort
             | pubKey2 :: s =>
                 stack ← EvalScript s pubKey2 flags checker;
                 _ ← require (match stack with [] => false | vch :: _ => CastToBool vch end) SCRIPT_ERR_EVAL_FALSE;
                 Ok stack
             end
           else Ok stack);
  if flag_set flags SCRIPT_VERIFY_CLEANSTACK then
    if negb (flag_set flags SCRIPT_VERIFY_P2SH) then Abort
    else require (length stack =? 1)%nat SCRIPT_ERR_CLEANSTACK
  else Ok tt.

End Interpreter.

(** ** The signature hash: [CTransactionSignatureSerializer] *)

(** The first loop of [SerializeScriptCode]: the number of code separators. *)
Fixpoint count_separators (fuel : nat) (it : list Z) (nCodeSeparators : Z) : Z :=
  match fuel with
  | O => nCodeSeparators
  | S fuel =>
      let r := GetOp2 it in
      if fRet r then
        count_separators fuel (pcRet r) (if opcodeRet r =? OP_CODESEPARATOR then nCodeSeparators + 1 else nCodeSeparators)
      else nCodeSeparators
  end.

(** The second loop: [itBegin] is the start of the bytes not yet written. *)
Fixpoint write_code (fuel : nat) (itBegin it s : list Z) : list Z :=
  let fin it := if (length itBegin =? 0)%nat then s else s ++ take (length itBegin - length it) itBegin in
  match fuel with
  | O => fin it
  | S fuel =>
      let r := GetOp2 it in
      if fRet r then
        if opcodeRet r =? OP_CODESEPARATOR
        then write_code fuel (pcRet r) (pcRet r) (s ++ take (length itBegin - length (pcRet r) - 1) itBegin)
        else write_code fuel itBegin (pcRet r) s
      else fin (pcRet r)
  end.

Definition SerializeScriptCode (scriptCode : list Z) : list Z :=
  WriteCompactSize (Z.of_nat (length scriptCode) - count_separators (S (length scriptCode)) scriptCode 0)
  ++ write_code (S (length scriptCode)) scriptCode scriptCode [].

Section SignatureHash.

(** As in [Serialize]; [Hash] is [CHashWriter]. *)
Variable timeToPrune expired : list Z -> bool.
Variable Hash : list Z -> Z.

Variable txTo : CTransaction.
Variable scriptCode : list Z.
Variable nIn : nat.
Variable nHashType : Z.

Definition fAnyoneCanPay : bool := negb (Z.land nHashType SIGHASH_ANYONECANPAY =? 0).
Definition fHashSingle : bool := Z.land nHashType 0x1f =? SIGHASH_SINGLE.
Definition fHashNone : bool := Z.land nHashType 0x1f =? SIGHASH_NONE.

(** [nInput] is an index of [vin], checked by [SignatureHash]. *)
Definition SerializeInput (nInput : nat) : list Z :=
  let nInput := if fAnyoneCanPay then nIn else nInput in
  match vin txTo !! nInput with
  | None => []
  | Some txin =>
      ser_outpoint (prevout txin)
      ++ (if negb (nInput =? nIn)%nat then ser_bytes [] else SerializeScriptCode scriptCode)
      ++ ser_writedata 4 (if negb (nInput =? nIn)%nat && (fHashSingle || fHashNone) then 0 else nSequence txin)
  end.

Definition SerializeOutput (nOutput : nat) : list Z :=
  if fHashSingle && negb (nOutput =? nIn)%nat then ser_txout timeToPrune expired true CTxOut_null
  else match vout txTo !! nOutput with
       | None => []
       | Some o => ser_txout timeToPrune expired true o
       end.

Definition SerializeForSignature : list Z :=
  let nInputs := if fAnyoneCanPay then 1%nat else length (vin txTo) in
  let nOutputs := if fHashNone then 0%nat else if fHashSingle then S nIn else length (vout txTo) in
  ser_writedata 4 (tx_nVersion txTo)
  ++ WriteCompactSize (Z.of_nat nInputs) ++ concat (map SerializeInput (seq 0 nInputs))
  ++ WriteCompactSize (Z.of_nat nOutputs) ++ concat (map SerializeOutput (seq 0 nOutputs))
  ++ ser_writedata 4 (nLockTime txTo).

Definition SignatureHash : Z :=
  if (length (vin txTo) <=? nIn)%nat then 1
  else if (Z.land nHashType 0x1f =? SIGHASH_SINGLE) && (length (vout txTo) <=? nIn)%nat then 1
  else Hash (SerializeForSignature ++ ser_writedata 4 nHashType).

End SignatureHash.

(** ** [TransactionSignatureChecker] *)

(** [CPubKey::GetLen], [CPubKey::Set] and [CPubKey::IsValid] on the bytes of a key. *)
Definition GetLen (chHeader : Z) : Z :=
  if (chHeader =? 2) || (chHeader =? 3) then 33
  else if (chHeader =? 4) || (chHeader =? 6) || (chHeader =? 7) then 65
  else 0.
Definition pubkey_IsValid (vch : list Z) : bool :=
  match vch with
  | [] => false
  | h :: _ => negb (GetLen h =? 0) && (GetLen h =? Z.of_nat (length vch))
  end.

Section TransactionChecker.

Variable timeToPrune expired : list Z -> bool.
Variable Hash : list Z -> Z.
(** [CPubKey::Verify]: key, hash and signature. *)
Variable Verify : valtype -> Z -> valtype -> bool.
Variable txTo : CTransaction.
Variable nIn : nat.

Definition tx_CheckSig (vchSigIn vchPubKey : valtype) (scriptCode : list Z) : bool :=
  if negb (pubkey_IsValid vchPubKey) then false
  else if (length vchSigIn =? 0)%nat then false
  else
    let nHashType := back vchSigIn in
    let vchSig := take (length vchSigIn - 1) vchSigIn in
    let sighash := SignatureHash timeToPrune expired Hash txTo scriptCode nIn nHashType in
    Verify vchPubKey sighash vchSig.

(** The sequence number of the input being signed. *)
Definition txin_sequence : Z := from_option nSequence 0 (vin txTo !! nIn).

Definition tx_CheckLockTime (lockTime : Z) : bool :=
  if negb (((nLockTime txTo <? LOCKTIME_THRESHOLD) && (lockTime <? LOCKTIME_THRESHOLD))
           || ((nLockTime txTo >=? LOCKTIME_THRESHOLD) && (lockTime >=? LOCKTIME_THRESHOLD))) then false
  else if lockTime >? nLockTime txTo then false
  else if SEQUENCE_FINAL =? txin_sequence then false
  else true.

Definition tx_CheckSequence (sequence : Z) : bool :=
  let txToSequence := txin_sequence in
  if u32 (tx_nVersion txTo) <? 2 then false
  else if negb (Z.land txToSequence SEQUENCE_LOCKTIME_DISABLE_FLAG =? 0) then false
  else
    let nLockTimeMask := Z.lor SEQUENCE_LOCKTIME_TYPE_FLAG SEQUENCE_LOCKTIME_MASK in
    let txToSequenceMasked := Z.land txToSequence nLockTimeMask in
    let nSequenceMasked := Z.land sequence nLockTimeMask in
    if negb (((txToSequenceMasked <? SEQUENCE_LOCKTIME_TYPE_FLAG) && (nSequenceMasked <? SEQUENCE_LOCKTIME_TYPE_FLAG))
             || ((txToSequenceMasked >=? SEQUENCE_LOCKTIME_TYPE_FLAG) && (nSequenceMasked >=? SEQUENCE_LOCKTIME_TYPE_FLAG)))
    then false
    else if nSequenceMasked >? txToSequenceMasked then false
    else true.

Definition TransactionSignatureChecker : SignatureChecker :=
  {| CheckSig := tx_CheckSig; CheckLockTime := tx_CheckLockTime; CheckSequence := tx_CheckSequence |}.

End TransactionChecker.

(** ** Lemmas *)

(** *** Outcomes *)

(** No assertion fails, and a successful result satisfies [P]. *)
Definition ospec {A} (P : A -> Prop) (x : outcome A) : Prop :=
  match x with Ok a => P a | Err _ => True | Abort => False end.

Lemma ospec_bind {A B} (P : A -> Prop) (Q : B -> Prop) x (f : A -> outcome B) :
  ospec P x -> (forall a, P a -> ospec Q (f a)) -> ospec Q (x ≫= f).
Proof. destruct x; cbn; auto. Qed.
Lemma ospec_mono {A} (P Q : A -> Prop) x : ospec P x -> (forall a, P a -> Q a) -> ospec Q x.
Proof. destruct x; cbn; auto. Qed.
Lemma ospec_require b e : ospec (fun _ => b = true) (require b e).
Proof. by destruct b. Qed.
Lemma ospec_throws {A} (o : option A) : ospec (fun a => o = Some a) (throws o).
Proof. by destruct o. Qed.

Lemma bind_Ok {A B} (x : outcome A) (f : A -> outcome B) b :
  (x ≫= f) = Ok b <-> exists a, x = Ok a /\ f a = Ok b.
Proof. destruct x; cbn; split; try done; [eauto|by intros (? & [= ->] & ?)|by intros (? & ? & _)..]. Qed.
Lemma require_Ok b e u : require b e = Ok u <-> b = true.
Proof. destruct b, u; split; done. Qed.

(** *** Numbers *)

Definition elem_ok (v : valtype) : Prop := bytes_ok v /\ Z.of_nat (length v) <= MAX_SCRIPT_ELEMENT_SIZE.

Lemma scriptnum_range v fMin k n :
  bytes_ok v -> 1 <= k <= 8 -> CScriptNum v fMin k = Some n -> - 2 ^ (8 * k - 1) < n < 2 ^ (8 * k - 1).
Proof.
  intros Hb Hk H. unfold CScriptNum in H. case_if_in H; [done|]. case_if_in H; [done|]. injection H as <-.
  destruct (decide (v = [])) as [->|Hv]; [cbn; pose proof (Z.pow_pos_nonneg 2 (8 * k - 1)); lia|].
  apply list_snoc_inv in Hv as (l & t & ->). pose proof Hb as [Hl Ht]%Forall_app. rewrite Forall_singleton in Ht.
  rewrite set_vch_snoc by (done || lia). rewrite length_app in Heqb. cbn [length] in Heqb. unfold in_u in Ht.
  assert (forall u, 0 <= u < 128 -> 0 <= le_decode (l ++ [u]) < 2 ^ (8 * k - 1)) as Hm.
  { intros u Hu. rewrite le_decode_snoc. pose proof (le_decode_range l Hl).
    set (p := 2 ^ (8 * Z.of_nat (length l))) in *.
    assert (2 ^ 7 * p <= 2 ^ (8 * k - 1)).
    { unfold p. rewrite <- Z.pow_add_r by lia. apply Z.pow_le_mono_r; lia. }
    nia. }
  case_if; [specialize (Hm t)|specialize (Hm (t - 128))]; lia.
Qed.

Lemma serialize_ok n : - 2 ^ 63 < n < 2 ^ 63 -> elem_ok (scriptnum_serialize n).
Proof.
  intros Hn. unfold elem_ok, MAX_SCRIPT_ELEMENT_SIZE. destruct (Z.eq_dec n 0) as [->|Hz]; [split; [constructor|cbn; lia]|].
  destruct (serialize_spec n Hn Hz) as (l & t & -> & Hb & Hl & _). split; [done|lia].
Qed.

Lemma of_bool_ok b : elem_ok (of_bool b).
Proof. destruct b; split; cbn; unfold MAX_SCRIPT_ELEMENT_SIZE; [repeat constructor|lia|constructor|lia]; done. Qed.

Lemma stacktop_ok P stack i : Forall P stack -> ospec P (stacktop stack i).
Proof.
  intros Hs. unfold stacktop. destruct (stack !! Z.to_nat (i - 1)) as [x|] eqn:E; cbn; [|done].
  by eapply Forall_lookup_1.
Qed.

Abbreviation elems_ok := (Forall elem_ok) (only parsing).

Lemma num_ok v fMin : elem_ok v ->
  ospec (fun n => - 2 ^ 31 < n < 2 ^ 31) (throws (CScriptNum v fMin nDefaultMaxNumSize)).
Proof.
  intros [Hb _]. destruct (CScriptNum v fMin nDefaultMaxNumSize) as [n|] eqn:E; cbn; [|done].
  apply (scriptnum_range v fMin 4 n Hb ltac:(lia) E).
Qed.

Lemma unary_num_ok opcode n :
  (opcode =? OP_1ADD) || (opcode =? OP_1SUB) || between OP_NEGATE opcode OP_0NOTEQUAL = true ->
  - 2 ^ 31 < n < 2 ^ 31 -> ospec (fun r => - 2 ^ 32 < r < 2 ^ 32) (unary_num opcode n).
Proof.
  intros Ho Hn. unfold unary_num, scriptnum_add, scriptnum_sub, scriptnum_neg, bit.
  assert (forall r, - 2 ^ 32 < r < 2 ^ 32 -> ospec (fun r => - 2 ^ 32 < r < 2 ^ 32) (Ok r)) as Hok by done.
  unfold between in Ho. rewrite !orb_true_iff, andb_true_iff, !Z.eqb_eq, !Z.leb_le in Ho.
  unfold OP_NEGATE, OP_0NOTEQUAL, OP_1ADD, OP_1SUB, OP_ABS, OP_NOT, int64_max, int64_min in *.
  repeat case_if; cbn [asserts]; try (apply Hok; lia); try (cbn; lia).
Qed.

Lemma binary_num_ok opcode m n :
  (opcode =? OP_ADD) || (opcode =? OP_SUB) || between OP_BOOLAND opcode OP_MAX = true ->
  - 2 ^ 31 < m < 2 ^ 31 -> - 2 ^ 31 < n < 2 ^ 31 -> ospec (fun r => - 2 ^ 32 < r < 2 ^ 32) (binary_num opcode m n).
Proof.
  intros Ho Hm Hn. unfold binary_num, scriptnum_add, scriptnum_sub, bit.
  assert (forall r, - 2 ^ 32 < r < 2 ^ 32 -> ospec (fun r => - 2 ^ 32 < r < 2 ^ 32) (Ok r)) as Hok by done.
  unfold between in Ho. rewrite !orb_true_iff, andb_true_iff, !Z.eqb_eq, !Z.leb_le in Ho.
  unfold OP_ADD, OP_SUB, OP_BOOLAND, OP_BOOLOR, OP_NUMEQUAL, OP_NUMEQUALVERIFY, OP_NUMNOTEQUAL, OP_LESSTHAN,
    OP_GREATERTHAN, OP_LESSTHANOREQUAL, OP_GREATERTHANOREQUAL, OP_MIN, OP_MAX, int64_max, int64_min in *.
  repeat case_if; cbn [asserts]; try (apply Hok; lia); try lia.
Qed.

(** *** Every opcode keeps the elements within their limits *)

Ltac stack_cases :=
  repeat match goal with
  | |- context [match ?s with [] => _ | _ :: _ => _ end] => is_var s; destruct s
  end.
Ltac elems :=
  repeat match goal with H : Forall _ (_ :: _) |- _ => apply Forall_cons in H as [? ?] end;
  repeat (constructor; try assumption).

Section Limits.
Variable CheckLowS : valtype -> bool.
Variable RIPEMD160 SHA1 SHA256 HASH160 HASH256 : valtype -> valtype.
Hypothesis hashes_ok : forall v, elem_ok (RIPEMD160 v) /\ elem_ok (SHA1 v) /\ elem_ok (SHA256 v)
  /\ elem_ok (HASH160 v) /\ elem_ok (HASH256 v).
Variable checker : SignatureChecker.

Lemma op_pick_ok fMin opcode stack : elems_ok stack -> ospec elems_ok (op_pick fMin opcode stack).
Proof.
  intros Hs. unfold op_pick. eapply ospec_bind; [apply ospec_require|intros _ _].
  eapply ospec_bind; [by apply stacktop_ok|intros top Ht]. eapply ospec_bind; [apply ospec_throws|intros bn _].
  destruct stack as [|x s]; cbn [popstack mbind outcome_bind]; [done|]. apply Forall_cons in Hs as [_ Hs].
  case_if; [done|]. eapply ospec_bind; [by apply stacktop_ok|intros v Hv]. constructor; [done|].
  case_if; [|done]. by apply Forall_delete.
Qed.

Lemma op_stack_ok fMin opcode stack :
  elems_ok stack -> Z.of_nat (length stack) < 2 ^ 63 -> ospec elems_ok (op_stack fMin opcode stack).
Proof.
  intros Hs Hlen. unfold op_stack. repeat case_if; try (by apply op_pick_ok); stack_cases; try done.
  all: try (by cbn; elems).
  - cbn. case_match; elems.
  - cbn [ospec]. constructor; [apply serialize_ok; lia|done].
  - cbn [ospec]. apply Forall_cons in Hs as [[Hx1 Hx2] Hs]. unfold MAX_SCRIPT_ELEMENT_SIZE in Hx2.
    constructor; [apply serialize_ok; lia|]. constructor; [by split|done].
Qed.

Lemma op_unary_ok fMin opcode stack :
  (opcode =? OP_1ADD) || (opcode =? OP_1SUB) || between OP_NEGATE opcode OP_0NOTEQUAL = true ->
  elems_ok stack -> ospec elems_ok (op_unary fMin opcode stack).
Proof.
  intros Ho Hs. destruct stack as [|x s]; cbn [op_unary]; [done|]. apply Forall_cons in Hs as [Hx Hs].
  eapply ospec_bind; [by apply num_ok|intros n Hn]. eapply ospec_bind; [by apply unary_num_ok|intros r Hr].
  lazy beta in Hr. constructor; [apply serialize_ok; lia|done].
Qed.

Lemma op_binary_ok fMin opcode stack :
  (opcode =? OP_ADD) || (opcode =? OP_SUB) || between OP_BOOLAND opcode OP_MAX = true ->
  elems_ok stack -> ospec elems_ok (op_binary fMin opcode stack).
Proof.
  intros Ho Hs. destruct stack as [|x2 [|x1 s]]; cbn [op_binary]; [done..|].
  apply Forall_cons in Hs as [H2 Hs]. apply Forall_cons in Hs as [H1 Hs].
  eapply ospec_bind; [by apply num_ok|intros m Hm]. eapply ospec_bind; [by apply num_ok|intros n Hn].
  eapply ospec_bind; [by apply binary_num_ok|intros r Hr; lazy beta in Hr]. assert (elem_ok (scriptnum_serialize r)) by (apply serialize_ok; lia).
  case_if; [|by constructor].
  eapply ospec_bind; [by apply (stacktop_ok elem_ok); constructor|intros top _]. by case_if.
Qed.

Lemma op_within_ok fMin stack : elems_ok stack -> ospec elems_ok (op_within fMin stack).
Proof.
  intros Hs. destruct stack as [|x3 [|x2 [|x1 s]]]; cbn [op_within]; [done..|]. elems.
  repeat (eapply ospec_bind; [apply ospec_throws|intros ? _]). constructor; [apply of_bool_ok|done].
Qed.

Lemma op_hash_ok opcode stack :
  elems_ok stack -> ospec elems_ok (op_hash RIPEMD160 SHA1 SHA256 HASH160 HASH256 opcode stack).
Proof.
  intros Hs. destruct stack as [|x s]; cbn [op_hash ospec]; [done|]. apply Forall_cons in Hs as [_ Hs].
  constructor; [|done]. destruct (hashes_ok x) as (? & ? & ? & ? & ?). by repeat case_if.
Qed.

Lemma check_sig_ok flags code sig key : ospec (fun _ => True) (check_sig CheckLowS checker flags code sig key).
Proof.
  unfold check_sig, CheckSignatureEncoding, CheckPubKeyEncoding, IsLowDERSignature.
  repeat first [done | case_if | eapply ospec_bind; [|intros ? _]]; cbn; try done; by instantiate (1 := fun _ => True).
Qed.
Lemma op_checksig_ok flags opcode code stack :
  elems_ok stack -> ospec elems_ok (op_checksig CheckLowS checker flags opcode code stack).
Proof.
  intros Hs. destruct stack as [|key [|sig s]]; cbn [op_checksig]; [done..|]. elems.
  eapply ospec_bind; [apply check_sig_ok|intros ok _]. repeat case_if; cbn; try done.
  constructor; [apply of_bool_ok|done].
Qed.

Lemma drop_signatures_ok n i stack code : ospec (fun _ => True) (drop_signatures n i stack code).
Proof.
  revert i code. induction n as [|n IH]; intros i code; cbn [drop_signatures]; [done|].
  eapply ospec_bind; [apply (stacktop_ok (fun _ => True)); by apply Forall_true|intros v _; apply IH].
Qed.

Lemma multisig_loop_ok fuel flags code stack isig ikey ns nk :
  ospec (fun _ => True) (multisig_loop CheckLowS fuel checker flags code stack isig ikey ns nk).
Proof.
  revert isig ikey ns nk. induction fuel as [|fuel IH]; intros isig ikey ns nk; cbn [multisig_loop]; case_if; try done.
  eapply ospec_bind; [apply (stacktop_ok (fun _ => True)); by apply Forall_true|intros sig _].
  eapply ospec_bind; [apply (stacktop_ok (fun _ => True)); by apply Forall_true|intros key _].
  eapply ospec_bind; [apply check_sig_ok|intros ok _]. case_match; [done|apply IH].
Qed.

Lemma popstack_ok stack : elems_ok stack -> ospec elems_ok (popstack stack).
Proof. destruct stack; cbn; [done|]. by intros [? ?]%Forall_cons. Qed.

Lemma multisig_cleanup_ok n flags ok i stack :
  elems_ok stack -> ospec elems_ok (multisig_cleanup n flags ok i stack).
Proof.
  revert i stack. induction n as [|n IH]; intros i stack Hs; cbn [multisig_cleanup]; [done|].
  eapply ospec_bind; [by apply stacktop_ok|intros top _]. case_if; [done|].
  eapply ospec_bind; [by apply popstack_ok|intros s Hs']. by apply IH.
Qed.

Lemma op_checkmultisig_ok flags fMin opcode code stack n :
  elems_ok stack -> 0 <= n <= MAX_OPS_PER_SCRIPT ->
  ospec (fun p => elems_ok p.1 /\ 0 <= p.2 <= MAX_OPS_PER_SCRIPT)
    (op_checkmultisig CheckLowS checker flags fMin opcode code stack n).
Proof.
  intros Hs Hn. unfold op_checkmultisig.
  eapply ospec_bind; [apply ospec_require|intros _ _]. eapply ospec_bind; [by apply stacktop_ok|intros top _].
  eapply ospec_bind; [apply ospec_throws|intros bn _]. eapply ospec_bind; [apply ospec_require|intros [] Hk].
  eapply ospec_bind; [apply ospec_require|intros [] Hc]. eapply ospec_bind; [apply ospec_require|intros _ _].
  eapply ospec_bind; [by apply stacktop_ok|intros top2 _]. eapply ospec_bind; [apply ospec_throws|intros bn2 _].
  do 2 (eapply ospec_bind; [apply ospec_require|intros _ _]). unfold multisig_finish.
  eapply ospec_bind; [apply drop_signatures_ok|intros code' _]. eapply ospec_bind; [apply multisig_loop_ok|intros ok _].
  eapply ospec_bind; [by apply multisig_cleanup_ok|intros s Hs1]. eapply ospec_bind; [apply ospec_require|intros _ _].
  eapply ospec_bind; [by apply stacktop_ok|intros dummy _]. eapply ospec_bind; [apply ospec_require|intros _ _].
  eapply ospec_bind; [by apply popstack_ok|intros s2 Hs2]. lazy beta in *. zbool.
  repeat case_if; cbn; try done; (split; [|lia]); [done|]. constructor; [apply of_bool_ok|done].
Qed.

(** The machine is within the limits of the interpreter. *)
Record machine_ok (m : Machine) : Prop := {
  ok_stk : elems_ok (stk m);
  ok_alt : elems_ok (altstack m);
  ok_count : 0 <= nOpCount m <= MAX_OPS_PER_SCRIPT;
}.

Lemma set_stk_ok m x : machine_ok m -> ospec elems_ok x -> ospec machine_ok (s ← x; Ok (set_stk m s)).
Proof. intros [H1 H2 H3] Hx. eapply ospec_bind; [exact Hx|]. intros s Hs. by split. Qed.

Lemma op_locktime_ok flags fMin stack : ospec (fun _ => True) (op_locktime checker flags fMin stack).
Proof.
  unfold op_locktime. case_if; [by eapply ospec_mono; [apply ospec_require|]|].
  eapply ospec_bind; [apply ospec_require|intros _ _].
  eapply ospec_bind; [apply (stacktop_ok (fun _ => True)); by apply Forall_true|intros top _].
  eapply ospec_bind; [apply ospec_throws|intros n _]. case_if; [done|]. by eapply ospec_mono; [apply ospec_require|].
Qed.

Lemma op_sequence_ok flags fMin stack : ospec (fun _ => True) (op_sequence checker flags fMin stack).
Proof.
  unfold op_sequence. case_if; [by eapply ospec_mono; [apply ospec_require|]|].
  eapply ospec_bind; [apply ospec_require|intros _ _].
  eapply ospec_bind; [apply (stacktop_ok (fun _ => True)); by apply Forall_true|intros top _].
  eapply ospec_bind; [apply ospec_throws|intros n _]. do 2 (case_if; [done|]). by eapply ospec_mono; [apply ospec_require|].
Qed.

Lemma op_if_ok fExec opcode stack : elems_ok stack -> ospec (fun p => elems_ok p.1) (op_if fExec opcode stack).
Proof. intros Hs. unfold op_if. case_if; [|done]. destruct stack; cbn; [done|]. by apply Forall_cons in Hs as [_ ?]. Qed.

Lemma exec_op_ok flags fExec opcode pc m :
  machine_ok m -> Z.of_nat (length (stk m)) <= 1000 ->
  ospec machine_ok (exec_op CheckLowS RIPEMD160 SHA1 SHA256 HASH160 HASH256 checker flags fExec opcode pc m).
Proof.
  intros Hm Hlen. pose proof Hm as [Hs Ha Hc]. unfold exec_op.
  case_if. { split; cbn; [|done|done]. constructor; [|done]. apply serialize_ok.
    unfold between, OP_1NEGATE, OP_1, OP_16 in *. rewrite orb_true_iff, andb_true_iff, Z.eqb_eq, !Z.leb_le in Heqb. lia. }
  case_if; [done|]. case_if; [eapply ospec_bind; [apply op_locktime_ok|done]|].
  case_if; [eapply ospec_bind; [apply op_sequence_ok|done]|].
  case_if; [eapply ospec_bind; [apply ospec_require|done]|].
  case_if; [eapply ospec_bind; [by apply op_if_ok|intros [s v] Hs'; by split]|].
  case_if; [destruct (vfExec m); by cbn|]. case_if; [destruct (vfExec m); by cbn|].
  case_if. { apply set_stk_ok; [done|]. destruct (stk m); cbn; [done|]. case_if; [|done]. by apply Forall_cons in Hs as [_ ?]. }
  case_if; [done|].
  case_if. { destruct (stk m); cbn; [done|]. apply Forall_cons in Hs as [? ?]. split; cbn; [done|by constructor|done]. }
  case_if. { destruct (altstack m); cbn; [done|]. apply Forall_cons in Ha as [? ?]. split; cbn; [by constructor|done|done]. }
  case_if; [apply set_stk_ok; [done|apply op_stack_ok; [done|lia]]|].
  case_if. { apply set_stk_ok; [done|]. destruct (stk m) as [|x [|y s]]; cbn; try done. elems.
             repeat case_if; try done; constructor; done || apply of_bool_ok. }
  case_if; [apply set_stk_ok; [done|by apply op_unary_ok]|]. case_if; [apply set_stk_ok; [done|by apply op_binary_ok]|].
  case_if; [apply set_stk_ok; [done|by apply op_within_ok]|]. case_if; [apply set_stk_ok; [done|by apply op_hash_ok]|].
  case_if; [done|]. case_if; [apply set_stk_ok; [done|by apply op_checksig_ok]|].
  case_if; [|done]. eapply ospec_bind; [by apply op_checkmultisig_ok|]. intros [s n] [? ?]. by split.
Qed.
Lemma GetOp2_bytes pc : bytes_ok pc -> bytes_ok (vchRet (GetOp2 pc)) /\ bytes_ok (pcRet (GetOp2 pc)).
Proof.
  intros Hpc. destruct (GetOp2_suffix pc) as (k & Ek & _). split; [|rewrite Ek; by apply Forall_drop].
  unfold GetOp2. destruct pc as [|o pc]; [constructor|]. apply Forall_cons in Hpc as [_ Hpc]. case_if; [|constructor].
  destruct (read_push_size o pc) as [[n|] pc'] eqn:E; [|constructor].
  destruct (read_push_size_suffix _ _ _ _ E) as (j & _ & ->). case_if; [constructor|]. cbn [vchRet]. apply Forall_take, Forall_drop, Hpc.
Qed.

Lemma eval_step_ok flags pc m :
  bytes_ok pc -> machine_ok m -> Z.of_nat (length (stk m)) <= 1000 ->
  ospec (fun p => bytes_ok p.1 /\ machine_ok p.2 /\ Z.of_nat (length (stk p.2)) + Z.of_nat (length (altstack p.2)) <= 1000
                  /\ (length p.1 < length pc)%nat)
    (eval_step CheckLowS RIPEMD160 SHA1 SHA256 HASH160 HASH256 checker flags pc m).
Proof.
  intros Hpc Hm Hlen. pose proof (GetOp2_bytes pc Hpc) as [Hv Hr]. unfold eval_step.
  eapply ospec_bind; [apply ospec_require|intros [] Hret]. eapply ospec_bind; [apply ospec_require|intros [] Hpush].
  eapply ospec_bind; [apply ospec_require|intros [] Hcnt]. eapply ospec_bind; [apply ospec_require|intros [] _].
  lazy beta in *. set (n := if opcodeRet (GetOp2 pc) >? OP_16 then nOpCount m + 1 else nOpCount m) in *.
  assert (machine_ok (set_count m (stk m) n)) as Hm'.
  { destruct Hm as [? ? ?]. split; cbn; [done|done|]. unfold n in *.
    destruct (opcodeRet (GetOp2 pc) >? OP_16); cbn in Hcnt; zbool; lia. }
  apply (ospec_bind machine_ok).
  - case_if.
    + eapply ospec_bind; [apply ospec_require|intros [] _]. destruct Hm' as [? ? ?]. split; cbn; [|done|done].
      constructor; [|done]. split; [done|]. zbool. lia.
    + case_if; [|done]. by apply exec_op_ok.
  - intros m1 Hm1. eapply ospec_bind; [apply ospec_require|intros [] Hsz]. lazy beta in Hsz. zbool.
    split_and!; [done|done|done|]. apply GetOp2_shrinks. by apply GetOp2_nonempty.
Qed.

Lemma eval_loop_ok flags fuel pc m :
  (length pc <= fuel)%nat -> bytes_ok pc -> machine_ok m ->
  Z.of_nat (length (stk m)) + Z.of_nat (length (altstack m)) <= 1000 ->
  ospec (fun m => machine_ok m /\ Z.of_nat (length (stk m)) + Z.of_nat (length (altstack m)) <= 1000)
    (eval_loop CheckLowS RIPEMD160 SHA1 SHA256 HASH160 HASH256 fuel checker flags pc m).
Proof.
  revert pc m. induction fuel as [|fuel IH]; intros pc m Hf Hpc Hm Hlen; cbn [eval_loop].
  { destruct pc; [done|]. cbn in Hf. lia. }
  case_if; [done|]. eapply ospec_bind; [apply eval_step_ok; [done|done|lia]|].
  intros [pc' m'] (? & ? & ? & ?). cbn in *. apply IH; [lia|done..].
Qed.

Lemma EvalScript_ok stack script flags :
  bytes_ok script -> elems_ok stack -> Z.of_nat (length stack) <= 1000 ->
  ospec (fun s => elems_ok s /\ Z.of_nat (length s) <= 1000)
    (EvalScript CheckLowS RIPEMD160 SHA1 SHA256 HASH160 HASH256 stack script flags checker).
Proof.
  intros Hsc Hst Hlen. unfold EvalScript. eapply ospec_bind; [apply ospec_require|intros _ _].
  eapply ospec_bind; [apply eval_loop_ok; [done|done| |cbn; lia]|].
  - split; cbn; [done|constructor|unfold MAX_OPS_PER_SCRIPT; lia].
  - intros m [[? ? ?] ?]. destruct (vfExec m); [|done]. split; [done|lia].
Qed.
End Limits.

(** *** Running a script step by step *)

Section Running.
Variable CheckLowS : valtype -> bool.
Variable RIPEMD160 SHA1 SHA256 HASH160 HASH256 : valtype -> valtype.
Variable checker : SignatureChecker.
Variable flags : Z.

Abbreviation step := (eval_step CheckLowS RIPEMD160 SHA1 SHA256 HASH160 HASH256 checker flags) (only parsing).
Abbreviation loop f := (eval_loop CheckLowS RIPEMD160 SHA1 SHA256 HASH160 HASH256 f checker flags) (only parsing).
Abbreviation exec := (exec_op CheckLowS RIPEMD160 SHA1 SHA256 HASH160 HASH256 checker flags) (only parsing).
Abbreviation eval st s := (EvalScript CheckLowS RIPEMD160 SHA1 SHA256 HASH160 HASH256 st s flags checker) (only parsing).
Abbreviation verify sg pk := (VerifyScript CheckLowS RIPEMD160 SHA1 SHA256 HASH160 HASH256 sg pk flags checker) (only parsing).

Lemma eval_step_shrinks pc m pc' m' : step pc m = Ok (pc', m') -> (length pc' < length pc)%nat.
Proof.
  unfold eval_step. intros H. do 4 apply bind_Ok in H as (? & ?%require_Ok & H).
  apply bind_Ok in H as (m1 & _ & H). apply bind_Ok in H as (? & _ & [= <- _]).
  by apply GetOp2_shrinks, GetOp2_nonempty.
Qed.

Lemma eval_loop_fuel f f' pc m : (length pc <= f)%nat -> (length pc <= f')%nat -> loop f pc m = loop f' pc m.
Proof.
  revert f' pc m. induction f as [|f IH]; intros f' pc m Hf Hf'; destruct pc as [|o pc]; [by destruct f'|cbn in Hf; lia| |].
  { by destruct f'. }
  destruct f' as [|f']; [cbn in Hf'; lia|]. cbn [eval_loop length Nat.eqb].
  destruct (step (o :: pc) m) as [[pc' m']|e|] eqn:E; cbn; [|done..].
  apply eval_step_shrinks in E. cbn in *. apply IH; lia.
Qed.

Lemma eval_loop_step pc m :
  pc <> [] -> loop (length pc) pc m = p ← step pc m; loop (length p.1) p.1 p.2.
Proof.
  intros Hpc. destruct pc as [|o pc]; [done|]. cbn [length eval_loop Nat.eqb].
  destruct (step (o :: pc) m) as [[pc' m']|e|] eqn:E; cbn; [|done..].
  apply eval_step_shrinks in E. cbn in E. apply eval_loop_fuel; lia.
Qed.

Lemma step_op o pc m :
  OP_16 < o -> forallb id (vfExec m) = true -> nOpCount m + 1 <= MAX_OPS_PER_SCRIPT -> disabled_opcode o = false ->
  step (o :: pc) m =
    m ← exec true o pc (set_count m (stk m) (nOpCount m + 1));
    _ ← require (negb (Z.of_nat (length (stk m)) + Z.of_nat (length (altstack m)) >? 1000)) SCRIPT_ERR_STACK_SIZE;
    Ok (pc, m).
Proof.
  intros Ho Hx Hn Hd. unfold eval_step. rewrite GetOp2_opcode by (unfold OP_16, OP_PUSHDATA4 in *; lia).
  cbn [fRet opcodeRet vchRet pcRet length require mbind outcome_bind]. rewrite Hx, Hd.
  rewrite (Z.gtb_ltb o), (proj2 (Z.ltb_lt _ _)) by done. cbn [negb].
  rewrite (Z.gtb_ltb (nOpCount m + 1)), (proj2 (Z.ltb_ge _ _)) by done. cbn [negb andb require mbind outcome_bind].
  unfold between at 1. rewrite (proj2 (Z.leb_gt o OP_PUSHDATA4)), andb_false_r by (unfold OP_16, OP_PUSHDATA4 in *; lia).
  cbn [orb andb]. done.
Qed.

Lemma GetOp2_direct b rest :
  Z.of_nat (length b) < 76 ->
  GetOp2 (push_data [] b ++ rest) = {| fRet := true; opcodeRet := Z.of_nat (length b); vchRet := b; pcRet := rest |}.
Proof.
  intros Hb. unfold push_data. rewrite (proj2 (Z.ltb_lt _ _)) by done. rewrite wrap_small by (unfold in_u; lia).
  cbn [app GetOp2]. unfold OP_PUSHDATA4. rewrite (proj2 (Z.leb_le _ _)) by lia. unfold read_push_size, OP_PUSHDATA1.
  rewrite (proj2 (Z.ltb_lt _ _)) by lia. rewrite (proj2 (Z.ltb_ge _ _)) by (rewrite length_app; lia).
  by rewrite Nat2Z.id, take_app_length, drop_app_length.
Qed.

(** A direct push of at least two bytes is minimal. *)
Lemma step_push b rest m :
  2 <= Z.of_nat (length b) <= 75 -> forallb id (vfExec m) = true ->
  Z.of_nat (length (stk m)) + Z.of_nat (length (altstack m)) < 1000 ->
  step (push_data [] b ++ rest) m = Ok (rest, set_stk m (b :: stk m)).
Proof.
  intros Hb Hx Hs. unfold eval_step. rewrite GetOp2_direct by lia. cbn [fRet opcodeRet vchRet pcRet require mbind outcome_bind].
  rewrite (Z.gtb_ltb _ MAX_SCRIPT_ELEMENT_SIZE), (proj2 (Z.ltb_ge _ _)) by (unfold MAX_SCRIPT_ELEMENT_SIZE; lia).
  rewrite (Z.gtb_ltb _ OP_16), (proj2 (Z.ltb_ge OP_16 _)) by (unfold OP_16; lia). cbn [negb andb require mbind outcome_bind].
  assert (disabled_opcode (Z.of_nat (length b)) = false) as ->.
  { unfold disabled_opcode. repeat (apply orb_false_iff; split); apply Z.eqb_neq;
      unfold OP_CAT, OP_SUBSTR, OP_LEFT, OP_RIGHT, OP_INVERT, OP_AND, OP_OR, OP_XOR, OP_2MUL, OP_2DIV, OP_MUL, OP_DIV,
        OP_MOD, OP_LSHIFT, OP_RSHIFT; lia. }
  cbn [negb require mbind outcome_bind]. rewrite Hx. unfold between, OP_PUSHDATA4.
  rewrite !(proj2 (Z.leb_le _ _)) by lia. cbn [andb].
  assert (CheckMinimalPush b (Z.of_nat (length b)) = true) as ->.
  { unfold CheckMinimalPush. rewrite !(proj2 (Z.eqb_neq _ _)) by lia. cbn [andb].
    rewrite (proj2 (Z.leb_le _ _)) by lia. apply Z.eqb_refl. }
  rewrite andb_false_r. cbn [negb require mbind outcome_bind set_stk set_count stk altstack nOpCount].
  rewrite (Z.gtb_ltb _ 1000), (proj2 (Z.ltb_ge 1000 _)) by (cbn [length]; lia). done.
Qed.

(** A script that starts with [OP_HASH160] fails on an empty stack. *)
Lemma hash_on_empty r st : eval [] (OP_HASH160 :: r) <> Ok st.
Proof.
  unfold EvalScript. intros H. apply bind_Ok in H as (? & _ & H). apply bind_Ok in H as (m & H & _).
  rewrite eval_loop_step in H by done. rewrite step_op in H by done. apply bind_Ok in H as (p & H & _).
  apply bind_Ok in H as (m' & H & _). discriminate H.
Qed.
(** *** Assertions of [VerifyScript] *)

Lemma strip_bytes s : bytes_ok s -> bytes_ok (strip_service s).
Proof.
  intros Hs. assert (forall service isOp x, snd <$> decode_service service isOp s = Some x -> bytes_ok x) as Hd.
  { intros service isOp x. unfold decode_service. destruct (read_OP_N s) as [[op pc]|]; cbn; [|done]. case_if; [done|].
    destruct (read_OP_N pc) as [[op' pc']|]; cbn; [|done]. case_if; [done|].
    destruct (decode_args _ _ _) as [[[v o] pc2]|]; cbn; [|done]. intros [= <-]. unfold step_back. by apply Forall_drop. }
  unfold strip_service. destruct (RemoveMineriumScript s) as [x|] eqn:E; cbn [default from_option]; unfold id; [|done].
  unfold RemoveMineriumScript in E. repeat case_match; simplify_eq; eapply Hd; eassumption.
Qed.

Lemma p2sh_head s : RemoveMineriumScript s = None -> IsPayToScriptHash s = true -> exists r, s = OP_HASH160 :: r.
Proof.
  intros Hr H. unfold IsPayToScriptHash, strip_service in H. rewrite Hr in H. cbn [default from_option] in H. unfold id in H.
  zbool. unfold byte_at in *. destruct s as [|o r]; [done|]. zbool. cbn in *. subst. eauto.
Qed.

Lemma VerifyScript_ok sig spk :
  (forall v, elem_ok (RIPEMD160 v) /\ elem_ok (SHA1 v) /\ elem_ok (SHA256 v) /\ elem_ok (HASH160 v) /\ elem_ok (HASH256 v)) ->
  bytes_ok sig -> bytes_ok spk ->
  (flag_set flags SCRIPT_VERIFY_CLEANSTACK = true -> flag_set flags SCRIPT_VERIFY_P2SH = true) ->
  RemoveMineriumScript (strip_service spk) = None ->
  ospec (fun _ => True) (verify sig spk).
Proof.
  intros Hh Hsig Hspk Hfl Hnest. unfold VerifyScript.
  change (match RemoveMineriumScript spk with Some s => s | None => spk end) with (strip_service spk).
  set (pk := strip_service spk) in *. assert (bytes_ok pk) as Hpk by by apply strip_bytes.
  assert (forall st s, bytes_ok s -> elems_ok st /\ Z.of_nat (length st) <= 1000 ->
            ospec (fun s => elems_ok s /\ Z.of_nat (length s) <= 1000) (eval st s)) as Hev.
  { intros st s Hs [H1 H2]. by apply EvalScript_ok. }
  eapply ospec_bind; [apply ospec_require|intros _ _].
  destruct (eval [] sig) as [st|e|] eqn:Esig; cbn [mbind outcome_bind ospec]; [|done|].
  2:{ specialize (Hev [] sig Hsig ltac:(split; [constructor|cbn; lia])). by rewrite Esig in Hev. }
  pose proof (Hev [] sig Hsig ltac:(split; [constructor|cbn; lia])) as Hst. rewrite Esig in Hst. cbn in Hst.
  destruct (eval st pk) as [st2|e|] eqn:Epk; cbn [mbind outcome_bind ospec]; [|done|].
  2:{ specialize (Hev st pk Hpk Hst). by rewrite Epk in Hev. }
  eapply ospec_bind; [apply ospec_require|intros _ _]. apply (ospec_bind (fun _ => True)).
  - destruct (flag_set flags SCRIPT_VERIFY_P2SH && IsPayToScriptHash pk) eqn:Ef; [|done].
    apply andb_true_iff in Ef as [Hf Hp]. eapply ospec_bind; [apply ospec_require|intros _ _].
    rewrite Hf. destruct st as [|key s].
    + destruct (p2sh_head pk Hnest) as [r Er]; [done|]. rewrite Er in Epk. by apply hash_on_empty in Epk.
    + destruct Hst as [Hst1 Hst2]. apply Forall_cons in Hst1 as [[Hk _] Hst1]. cbn in Hst2.
      eapply ospec_bind; [apply Hev; [done|split; [done|lia]]|intros st3 _].
      eapply ospec_bind; [apply ospec_require|done].
  - intros st3 _. case_if; [|done]. rewrite Hfl by done. cbn [negb]. by eapply ospec_mono; [apply ospec_require|].
Qed.
(** *** Two standard scripts *)

Lemma step_small o pc m :
  OP_1 <= o <= OP_16 -> forallb id (vfExec m) = true ->
  Z.of_nat (length (stk m)) + Z.of_nat (length (altstack m)) < 1000 ->
  step (o :: pc) m = Ok (pc, set_stk m (scriptnum_serialize (o - (OP_1 - 1)) :: stk m)).
Proof.
  intros Ho Hx Hs. unfold eval_step. rewrite GetOp2_opcode by (unfold OP_1, OP_PUSHDATA4 in *; lia).
  cbn [fRet opcodeRet vchRet pcRet length require mbind outcome_bind]. rewrite Hx.
  rewrite (Z.gtb_ltb o), (proj2 (Z.ltb_ge _ _)) by lia. cbn [negb andb require mbind outcome_bind].
  assert (disabled_opcode o = false) as ->.
  { unfold disabled_opcode, OP_1, OP_16 in *. repeat (apply orb_false_iff; split); apply Z.eqb_neq;
      unfold OP_CAT, OP_SUBSTR, OP_LEFT, OP_RIGHT, OP_INVERT, OP_AND, OP_OR, OP_XOR, OP_2MUL, OP_2DIV, OP_MUL, OP_DIV,
        OP_MOD, OP_LSHIFT, OP_RSHIFT; lia. }
  cbn [negb require mbind outcome_bind]. unfold between at 1.
  rewrite (proj2 (Z.leb_gt o OP_PUSHDATA4)), andb_false_r by (unfold OP_1, OP_PUSHDATA4 in *; lia). cbn [orb andb].
  unfold exec_op. unfold between at 1. rewrite !(proj2 (Z.leb_le _ _)) by lia. rewrite orb_true_r.
  cbn [mbind outcome_bind set_stk set_count stk altstack length].
  rewrite (Z.gtb_ltb _ 1000), (proj2 (Z.ltb_ge 1000 _)) by lia. done.
Qed.

Definition p2sh_script (h : list Z) : list Z := OP_HASH160 :: push_data [] h ++ [OP_EQUAL].
Definition p2pkh_script (h : list Z) : list Z :=
  OP_DUP :: OP_HASH160 :: push_data [] h ++ [OP_EQUALVERIFY; OP_CHECKSIG].

Definition start (st : list valtype) (s : list Z) : Machine :=
  {| stk := st; altstack := []; vfExec := []; nOpCount := 0; pbegincodehash := s |}.

Lemma eval_start st s :
  Z.of_nat (length s) <= MAX_SCRIPT_SIZE ->
  eval st s = m ← loop (length s) s (start st s);
              match vfExec m with [] => Ok (stk m) | _ => Err SCRIPT_ERR_UNBALANCED_CONDITIONAL end.
Proof.
  intros Hs. unfold EvalScript. by rewrite (Z.gtb_ltb _ MAX_SCRIPT_SIZE), (proj2 (Z.ltb_ge _ _)) by done.
Qed.

Lemma push_direct b : Z.of_nat (length b) < 76 -> push_data [] b = Z.of_nat (length b) :: b.
Proof.
  intros Hb. unfold push_data. rewrite (proj2 (Z.ltb_lt _ _)) by done. by rewrite wrap_small by (unfold in_u; lia).
Qed.

(** One opcode, one direct push or one small number of the loop. *)
Lemma loop_op o pc m m' :
  OP_16 < o -> forallb id (vfExec m) = true -> nOpCount m + 1 <= MAX_OPS_PER_SCRIPT -> disabled_opcode o = false ->
  exec true o pc (set_count m (stk m) (nOpCount m + 1)) = Ok m' ->
  Z.of_nat (length (stk m')) + Z.of_nat (length (altstack m')) <= 1000 ->
  loop (length (o :: pc)) (o :: pc) m = loop (length pc) pc m'.
Proof.
  intros Ho Hx Hn Hd He Hs. rewrite eval_loop_step, step_op by done. rewrite He. cbn [mbind outcome_bind].
  by rewrite (Z.gtb_ltb _ 1000), (proj2 (Z.ltb_ge 1000 _)) by done.
Qed.

Lemma loop_op_Err o pc m e :
  OP_16 < o -> forallb id (vfExec m) = true -> nOpCount m + 1 <= MAX_OPS_PER_SCRIPT -> disabled_opcode o = false ->
  exec true o pc (set_count m (stk m) (nOpCount m + 1)) = Err e ->
  loop (length (o :: pc)) (o :: pc) m = Err e.
Proof. intros Ho Hx Hn Hd He. rewrite eval_loop_step, step_op by done. by rewrite He. Qed.

Lemma loop_push b rest m :
  2 <= Z.of_nat (length b) <= 75 -> forallb id (vfExec m) = true ->
  Z.of_nat (length (stk m)) + Z.of_nat (length (altstack m)) < 1000 ->
  loop (length (push_data [] b ++ rest)) (push_data [] b ++ rest) m = loop (length rest) rest (set_stk m (b :: stk m)).
Proof.
  intros Hb Hx Hs. rewrite eval_loop_step by (by rewrite push_direct by lia). by rewrite step_push by done.
Qed.

Lemma loop_small o pc m :
  OP_1 <= o <= OP_16 -> forallb id (vfExec m) = true ->
  Z.of_nat (length (stk m)) + Z.of_nat (length (altstack m)) < 1000 ->
  loop (length (o :: pc)) (o :: pc) m = loop (length pc) pc (set_stk m (scriptnum_serialize (o - (OP_1 - 1)) :: stk m)).
Proof. intros Ho Hx Hs. rewrite eval_loop_step by done. by rewrite step_small by done. Qed.

(** The pushes of a signature and a key. *)
Lemma eval_two_pushes a b :
  2 <= Z.of_nat (length a) <= 75 -> 2 <= Z.of_nat (length b) <= 75 ->
  eval [] (push_data [] a ++ push_data [] b) = Ok [b; a].
Proof.
  intros Ha Hb. rewrite eval_start.
  2:{ rewrite !push_direct, length_app by lia. cbn [length]. unfold MAX_SCRIPT_SIZE. lia. }
  rewrite loop_push by (cbn; done || lia). rewrite <- (app_nil_r (push_data [] b)) at 1 2.
  rewrite loop_push by (cbn; done || lia). done.
Qed.

Lemma eval_p2pkh h key sig :
  length h = 20%nat ->
  eval [key; sig] (p2pkh_script h) =
    if bool_decide (HASH160 key = h) then
      ok ← check_sig CheckLowS checker flags (drop_signature (p2pkh_script h) sig) sig key;
      if negb ok && flag_set flags SCRIPT_VERIFY_NULLFAIL && negb (length sig =? 0)%nat
      then Err SCRIPT_ERR_SIG_NULLFAIL else Ok [of_bool ok]
    else Err SCRIPT_ERR_EQUALVERIFY.
Proof.
  intros Hh. assert (Z.of_nat (length (push_data [] h)) = 21) as Hpl by (rewrite push_direct by lia; cbn [length]; lia).
  rewrite eval_start by (unfold p2pkh_script; cbn [length]; rewrite length_app; cbn [length]; unfold MAX_SCRIPT_SIZE; lia).
  unfold p2pkh_script at 1 2. set (s := p2pkh_script h).
  erewrite loop_op; [|done|done|done|done|reflexivity|cbn; lia].
  erewrite loop_op; [|done|done|done|done|reflexivity|cbn; lia]. rewrite loop_push by (cbn; done || lia).
  case_bool_decide as Hk.
  2:{ erewrite loop_op_Err; [done|done..|]. cbn -[bool_decide]. by rewrite bool_decide_eq_false_2. }
  erewrite loop_op; [|done|done|done|done|cbn -[bool_decide]; by rewrite bool_decide_eq_true_2|cbn; lia].
  rewrite eval_loop_step, step_op by done. unfold exec_op. cbn -[check_sig].
  destruct (check_sig _ _ _ _ _ _) as [ok|e|]; cbn; [|done..]. by destruct (negb ok && _ && _).
Qed.
(** *** Multiple signatures *)

(** The signatures, in order, are valid for keys taken in order. *)
Fixpoint matches (code : list Z) (ss ks : list valtype) : bool :=
  match ks with
  | [] => (length ss =? 0)%nat
  | k :: ks =>
      match ss with
      | [] => true
      | s :: ss' => if CheckSig checker s k code then matches code ss' ks else matches code ss ks
      end
  end.

Lemma matches_nil code ks : matches code [] ks = true.
Proof. by destruct ks. Qed.

Lemma matches_length code ss ks : (length ks < length ss)%nat -> matches code ss ks = false.
Proof.
  revert ss. induction ks as [|k ks IH]; intros ss Hl; cbn [matches].
  { destruct ss; [cbn in Hl; lia|done]. }
  destruct ss as [|s ss]; [cbn in Hl; lia|]. cbn in Hl. case_match; apply IH; cbn; lia.
Qed.

(** Matching greedily finds an order-preserving assignment whenever there is one. *)
Lemma matches_sublist code ss ks :
  matches code ss ks = true <->
  exists ks', sublist ks' ks /\ Forall2 (fun s k => CheckSig checker s k code = true) ss ks'.
Proof.
  revert ss. induction ks as [|k ks IH]; intros ss; cbn [matches].
  { split.
    - intros H. destruct ss; [|done]. exists []. split; [constructor|constructor].
    - intros (ks' & H & Hf). apply sublist_nil_r in H as ->. by inversion Hf. }
  destruct ss as [|s ss].
  { split; [|done]. intros _. exists []. split; [apply sublist_nil_l|constructor]. }
  destruct (CheckSig checker s k code) eqn:E; rewrite IH; split.
  - intros (ks' & H & Hf). exists (k :: ks'). split; [by apply sublist_skip|by constructor].
  - intros (ks' & H & Hf). inversion Hf as [|? k1 ? ks1 Hk1 Hf1]; subst. exists ks1. split; [|done].
    apply sublist_cons_r in H as [H|(l & [= -> ->] & H)]; [|done]. etrans; [|exact H]. by apply sublist_cons.
  - intros (ks' & H & Hf). exists ks'. split; [by apply sublist_cons|done].
  - intros (ks' & H & Hf). inversion Hf as [|? k1 ? ks1 Hk1 Hf1]; subst. exists (k1 :: ks1). split; [|done].
    apply sublist_cons_r in H as [H|(l & [= -> ->] & H)]; [done|]. by rewrite E in Hk1.
Qed.

Definition encodings_ok (ss ks : list valtype) : Prop :=
  Forall (fun s => CheckSignatureEncoding CheckLowS s flags = Ok tt) ss
  /\ Forall (fun k => CheckPubKeyEncoding k flags = Ok tt) ks.

Lemma multisig_loop_keys code stack ss ks isig ikey fuel :
  (length ks <= fuel)%nat -> (length ss <= length ks)%nat -> encodings_ok ss ks ->
  (forall j x, ss !! j = Some x -> stack !! (Z.to_nat (isig - 1) + j)%nat = Some x) ->
  (forall j x, ks !! j = Some x -> stack !! (Z.to_nat (ikey - 1) + j)%nat = Some x) -> 1 <= isig -> 1 <= ikey ->
  multisig_loop CheckLowS fuel checker flags code stack isig ikey (Z.of_nat (length ss)) (Z.of_nat (length ks))
    = Ok (matches code ss ks).
Proof.
  revert ss ks isig ikey. induction fuel as [|fuel IH]; intros ss ks isig ikey Hf Hl [Hes Hek] Hss Hks Hi1 Hi2.
  { destruct ks; [|cbn in Hf; lia]. destruct ss; [done|cbn in Hl; lia]. }
  cbn [multisig_loop]. destruct ss as [|s ss]; [by rewrite matches_nil|]. destruct ks as [|k ks]; [cbn in Hl; lia|].
  rewrite (Z.gtb_ltb _ 0), (proj2 (Z.ltb_lt _ _)) by (cbn [length]; lia). cbn [negb].
  pose proof (Hss 0%nat s eq_refl) as Hs. pose proof (Hks 0%nat k eq_refl) as Hk. rewrite Nat.add_0_r in Hs, Hk.
  unfold stacktop at 1 2. rewrite Hs, Hk. cbn [throws mbind outcome_bind].
  apply Forall_cons in Hes as [He1 Hes]. apply Forall_cons in Hek as [He2 Hek].
  unfold check_sig at 1. rewrite He1, He2. cbn [mbind outcome_bind matches].
  assert (forall j x, ks !! j = Some x -> stack !! (Z.to_nat (ikey + 1 - 1) + j)%nat = Some x) as Hks'.
  { intros j x Hj. rewrite <- (Hks (S j) x Hj). f_equal. lia. }
  destruct (CheckSig checker s k code).
  - replace (Z.of_nat (length (s :: ss)) - 1) with (Z.of_nat (length ss)) by (cbn [length]; lia).
    replace (Z.of_nat (length (k :: ks)) - 1) with (Z.of_nat (length ks)) by (cbn [length]; lia).
    cbn in Hl, Hf. rewrite Z.gtb_ltb, (proj2 (Z.ltb_ge _ _)) by lia.
    apply IH; [lia|lia|by split| |done|lia|lia]. intros j x Hj. rewrite <- (Hss (S j) x Hj). f_equal. lia.
  - replace (Z.of_nat (length (k :: ks)) - 1) with (Z.of_nat (length ks)) by (cbn [length]; lia).
    rewrite Z.gtb_ltb. destruct (Z.of_nat (length ks) <? Z.of_nat (length (s :: ss))) eqn:El; zbool.
    + rewrite matches_length by lia. done.
    + cbn in Hf. apply IH; [lia|lia|by split; [constructor|]|done|done|lia|lia].
Qed.

Lemma drop_signatures_fold ss isig stack code :
  (forall j x, ss !! j = Some x -> stack !! (Z.to_nat (isig - 1) + j)%nat = Some x) -> 1 <= isig ->
  drop_signatures (length ss) isig stack code = Ok (foldl drop_signature code ss).
Proof.
  revert isig code. induction ss as [|s ss IH]; intros isig code Hss Hi; [done|]. cbn [length drop_signatures foldl].
  unfold stacktop. pose proof (Hss 0%nat s eq_refl) as Hs. rewrite Nat.add_0_r in Hs. rewrite Hs.
  cbn [throws mbind outcome_bind]. apply IH; [|lia]. intros j x Hj. rewrite <- (Hss (S j) x Hj). f_equal. lia.
Qed.

Lemma cleanup_below l n ok rest :
  multisig_cleanup (length l + n) flags ok (Z.of_nat (length l)) (l ++ rest) = multisig_cleanup n flags ok 0 rest.
Proof.
  induction l as [|x l IH]; [done|]. cbn [length Nat.add multisig_cleanup app stacktop].
  change (stacktop (x :: l ++ rest) 1) with (Ok x). cbn [mbind outcome_bind popstack].
  rewrite (proj2 (Z.eqb_neq _ _)), !andb_false_r by lia. cbn [andb].
  rewrite Z.gtb_ltb, (proj2 (Z.ltb_lt _ _)) by lia.
  replace (Z.of_nat (S (length l)) - 1) with (Z.of_nat (length l)) by lia. apply IH.
Qed.

Lemma cleanup_sigs ss ok rest :
  multisig_cleanup (length ss) flags ok 0 (ss ++ rest) =
    if negb ok && flag_set flags SCRIPT_VERIFY_NULLFAIL && existsb (fun s => negb (length s =? 0)%nat) ss
    then Err SCRIPT_ERR_SIG_NULLFAIL else Ok rest.
Proof.
  induction ss as [|s ss IH]; [by rewrite andb_false_r|]. cbn [length multisig_cleanup app existsb].
  change (stacktop (s :: ss ++ rest) 1) with (Ok s). cbn [mbind outcome_bind popstack Z.eqb Z.gtb Z.compare].
  rewrite IH. destruct ok, (flag_set flags SCRIPT_VERIFY_NULLFAIL), (length s =? 0)%nat, (existsb _ ss); reflexivity.
Qed.
Lemma small_num_decode n fMin : 0 <= n <= 20 -> CScriptNum (scriptnum_serialize n) fMin nDefaultMaxNumSize = Some n.
Proof.
  intros Hn. rewrite CScriptNum_unfold, serialize_minimal, serialize_value by lia. rewrite andb_false_r.
  pose proof (proj2 (serialize_length n 4 ltac:(lia)) ltac:(left; lia)). unfold nDefaultMaxNumSize.
  by rewrite Z.gtb_ltb, (proj2 (Z.ltb_ge _ _)) by lia.
Qed.

Lemma lookup_middle {A} (l k r : list A) (i : Z) j x :
  Z.to_nat (i - 1) = length l -> k !! j = Some x -> (l ++ k ++ r) !! (Z.to_nat (i - 1) + j)%nat = Some x.
Proof.
  intros -> Hj. rewrite lookup_app_r by lia. replace (length l + j - length l)%nat with j by lia.
  by apply lookup_app_l_Some.
Qed.

Definition multisig_stack (ks ss : list valtype) (dummy : valtype) (rest : list valtype) : list valtype :=
  scriptnum_serialize (Z.of_nat (length ks)) :: ks ++ scriptnum_serialize (Z.of_nat (length ss)) :: ss ++ dummy :: rest.

Lemma op_checkmultisig_header fMin opcode code ks ss dummy rest n :
  (length ss <= length ks <= 20)%nat -> n + Z.of_nat (length ks) <= MAX_OPS_PER_SCRIPT ->
  let nk := Z.of_nat (length ks) in let ns := Z.of_nat (length ss) in let st := multisig_stack ks ss dummy rest in
  op_checkmultisig CheckLowS checker flags fMin opcode code st n =
    multisig_finish CheckLowS checker flags opcode code st (nk + ns + 3) (nk + 3) 2 (nk + 2) ns nk (n + nk).
Proof.
  intros Hl Hn nk ns st.
  assert (length st = length ks + length ss + 3 + length rest)%nat as Hsz.
  { unfold st, multisig_stack. repeat (cbn [length]; rewrite ?length_app). lia. }
  assert (forall i, i <= Z.of_nat (length ks) + Z.of_nat (length ss) + 3 ->
            need (negb (Z.of_nat (length st) <? i)) = Ok tt) as Hneed.
  { intros i Hi. unfold need. by rewrite (proj2 (Z.ltb_ge _ _)) by lia. }
  assert (stacktop st (1 + 1 + Z.of_nat (length ks)) = Ok (scriptnum_serialize (Z.of_nat (length ss)))) as Htop.
  { unfold stacktop. replace (Z.to_nat _) with (S (length ks)) by lia. unfold st, multisig_stack.
    rewrite lookup_cons_ne_0 by done. cbn [Nat.pred]. by rewrite list_lookup_middle. }
  unfold op_checkmultisig. rewrite Hneed by lia. cbn [mbind outcome_bind].
  change (stacktop st 1) with (Ok (scriptnum_serialize (Z.of_nat (length ks)))). cbn [mbind outcome_bind].
  rewrite small_num_decode by lia. cbn [throws mbind outcome_bind].
  assert (forall n, 0 <= n <= 20 -> getint n = n) as Hgi.
  { intros z Hz. unfold getint, int_max, int_min. rewrite Z.gtb_ltb, !(proj2 (Z.ltb_ge _ _)) by lia. done. }
  rewrite !Hgi by lia. unfold MAX_PUBKEYS_PER_MULTISIG, require at 1 2.
  rewrite !Z.gtb_ltb, !(proj2 (Z.ltb_ge _ _)) by lia. cbn [negb orb need require mbind outcome_bind]. rewrite Htop. cbn [mbind outcome_bind].
  rewrite small_num_decode by lia. cbn [throws mbind outcome_bind]. rewrite !Hgi by lia.
  rewrite !Z.gtb_ltb, !(proj2 (Z.ltb_ge _ _)) by lia. cbn [negb orb need require mbind outcome_bind].
  unfold nk, ns. f_equal; lia.
Qed.

Lemma op_checkmultisig_run fMin opcode code ks ss dummy rest n :
  (length ss <= length ks <= 20)%nat -> n + Z.of_nat (length ks) <= MAX_OPS_PER_SCRIPT -> encodings_ok ss ks ->
  let ok := matches (foldl drop_signature code ss) ss ks in
  op_checkmultisig CheckLowS checker flags fMin opcode code (multisig_stack ks ss dummy rest) n =
    if negb ok && flag_set flags SCRIPT_VERIFY_NULLFAIL && existsb (fun s => negb (length s =? 0)%nat) ss
    then Err SCRIPT_ERR_SIG_NULLFAIL
    else if flag_set flags SCRIPT_VERIFY_NULLDUMMY && negb (length dummy =? 0)%nat then Err SCRIPT_ERR_SIG_NULLDUMMY
    else if opcode =? OP_CHECKMULTISIGVERIFY
         then if ok then Ok (rest, n + Z.of_nat (length ks)) else Err SCRIPT_ERR_CHECKMULTISIGVERIFY
         else Ok (of_bool ok :: rest, n + Z.of_nat (length ks)).
Proof.
  intros Hl Hn Henc ok. rewrite op_checkmultisig_header by done. set (st := multisig_stack ks ss dummy rest).
  unfold multisig_finish. rewrite !Nat2Z.id.
  assert (forall j x, ss !! j = Some x ->
    st !! (Z.to_nat (Z.of_nat (length ks) + 3 - 1) + j)%nat = Some x) as Hss.
  { intros j x Hj. unfold st, multisig_stack.
    replace (_ :: ks ++ _) with ((scriptnum_serialize (Z.of_nat (length ks)) :: ks ++ [scriptnum_serialize (Z.of_nat (length ss))])
      ++ ss ++ dummy :: rest) by (cbn; by rewrite <- app_assoc).
    apply lookup_middle; [|done]. cbn [length]. rewrite length_app. cbn [length]. lia. }
  rewrite drop_signatures_fold by (done || lia). cbn [mbind outcome_bind].
  rewrite multisig_loop_keys; [|lia|lia|done|done| |lia|lia].
  2:{ intros j x Hj. apply (lookup_middle [_]); [done|done]. }
  cbn [mbind outcome_bind]. fold ok.
  set (pre := scriptnum_serialize (Z.of_nat (length ks)) :: ks ++ [scriptnum_serialize (Z.of_nat (length ss))]).
  assert (st = pre ++ ss ++ dummy :: rest) as -> by (unfold st, multisig_stack, pre; cbn; by rewrite <- app_assoc).
  assert (length pre = length ks + 2)%nat as Hpre by (unfold pre; cbn [length]; rewrite length_app; cbn [length]; lia).
  replace (Z.to_nat _) with (length pre + length ss)%nat by lia.
  replace (Z.of_nat (length ks) + 2) with (Z.of_nat (length pre)) by lia. rewrite cleanup_below, cleanup_sigs.
  destruct (negb ok && _ && _); cbn [mbind outcome_bind]; [done|].
  change (stacktop (dummy :: rest) 1) with (Ok dummy). cbn [length Nat.ltb Nat.leb negb need require mbind outcome_bind].
  destruct (flag_set flags SCRIPT_VERIFY_NULLDUMMY && _); cbn [negb require mbind outcome_bind popstack]; [done|].
  by destruct (opcode =? OP_CHECKMULTISIGVERIFY).
Qed.
End Running.

(** *** DER signatures *)

(** A positive integer in its shortest big-endian form. *)
Definition der_int (v : list Z) : Prop :=
  v <> [] /\ v !!! 0%nat < 128 /\ ((1 < length v)%nat -> v !!! 0%nat = 0 -> 128 <= v !!! 1%nat).

(** [30 len 02 |R| R 02 |S| S hashtype] *)
Definition der_signature (R S : list Z) (hashtype : Z) : list Z :=
  [0x30; Z.of_nat (length R + length S + 4); 0x02; Z.of_nat (length R)] ++ R
  ++ [0x02; Z.of_nat (length S)] ++ S ++ [hashtype].

Definition der_checks (R S : list Z) : bool :=
  let sign v := negb (Z.land (v !!! 0%nat) 0x80 =? 0) in
  let padded v := (1 <? length v)%nat && (v !!! 0%nat =? 0) && (Z.land (v !!! 1%nat) 0x80 =? 0) in
  negb (length R =? 0)%nat && negb (sign R) && negb (padded R)
  && negb (length S =? 0)%nat && negb (sign S) && negb (padded S).

Lemma lookup_total_at (l k : list Z) (i : Z) n :
  Z.to_nat i = (length l + n)%nat -> (l ++ k) !!! Z.to_nat i = k !!! n.
Proof. intros ->. rewrite lookup_total_app_r by lia. f_equal. lia. Qed.

Lemma reject_true (b k : bool) : (if b then false else k) = true <-> b = false /\ k = true.
Proof. destruct b; split; [done|by intros []|done|by intros []]. Qed.

(** A byte string of four header bytes, two integers with their two header bytes, and a
    last byte: the test looks at the headers and at the first bytes of the integers. *)
Lemma IsValid_shape h0 h1 h2 R x y S t :
  IsValidSignatureEncoding ([h0; h1; h2; Z.of_nat (length R)] ++ R ++ [x; y] ++ S ++ [t]) = true <->
  (9 <= length R + length S + 7 <= 73)%nat /\ h0 = 0x30 /\ h1 = Z.of_nat (length R + length S + 4) /\ h2 = 0x02
  /\ x = 0x02 /\ y = Z.of_nat (length S) /\ der_checks R S = true.
Proof.
  set (sig := _ ++ _). assert (length sig = length R + length S + 7)%nat as Hn.
  { unfold sig. repeat (cbn [length]; rewrite ?length_app). lia. }
  assert (sig !!! Z.to_nat (5 + Z.of_nat (length R)) = y) as Hy.
  { unfold sig. rewrite app_assoc. rewrite (lookup_total_at _ _ _ 1%nat); [done|rewrite length_app; cbn [length]; lia]. }
  assert (sig !!! Z.to_nat (Z.of_nat (length R) + 4) = x) as Hx.
  { unfold sig. rewrite app_assoc. rewrite (lookup_total_at _ _ _ 0%nat); [done|rewrite length_app; cbn [length]; lia]. }
  assert (forall i n, Z.to_nat i = (4 + n)%nat -> (n < length R)%nat -> sig !!! Z.to_nat i = R !!! n) as HR.
  { intros i n Hi Hlt. unfold sig. rewrite (lookup_total_at _ _ _ n) by (cbn [length]; lia). by apply lookup_total_app_l. }
  assert (forall i n, Z.to_nat i = (length R + 6 + n)%nat -> (n < length S)%nat -> sig !!! Z.to_nat i = S !!! n) as HS.
  { intros i n Hi Hlt. unfold sig. rewrite (app_assoc _ R), (app_assoc _ [x; y]).
    rewrite (lookup_total_at _ _ _ n) by (rewrite !length_app; cbn [length]; lia). by apply lookup_total_app_l. }
  unfold IsValidSignatureEncoding, der_checks. cbv zeta.
  change (sig !!! Z.to_nat 0) with h0. change (sig !!! Z.to_nat 1) with h1. change (sig !!! Z.to_nat 2) with h2.
  change (sig !!! Z.to_nat 3) with (Z.of_nat (length R)). rewrite Hn, Hy, Hx. repeat rewrite reject_true.
  rewrite !andb_true_iff, !negb_true_iff, !negb_false_iff, !Z.gtb_ltb, Z.geb_leb, !Z.eqb_eq, !Z.eqb_neq, !Z.ltb_ge, !Z.leb_gt,
    !Nat.eqb_neq.
  assert (forall n, (1 <? Z.of_nat n) = (1 <? n)%nat) as Hlt.
  { intros n. apply eq_true_iff_eq. rewrite Z.ltb_lt, Nat.ltb_lt. lia. }
  assert ((1 <? Z.of_nat (length R)) && (R !!! 0%nat =? 0) && negb (negb (Z.land (sig !!! Z.to_nat 5) 128 =? 0))
    = (1 <? length R)%nat && (R !!! 0%nat =? 0) && (Z.land (R !!! 1%nat) 128 =? 0)) as HpR.
  { rewrite Hlt, negb_involutive. destruct (1 <? length R)%nat eqn:E; [|done]. apply Nat.ltb_lt in E.
    by rewrite (HR 5 1%nat) by lia. }
  assert ((1 <? Z.of_nat (length S)) && (S !!! 0%nat =? 0)
      && negb (negb (Z.land (sig !!! Z.to_nat (Z.of_nat (length R) + 7)) 128 =? 0))
    = (1 <? length S)%nat && (S !!! 0%nat =? 0) && (Z.land (S !!! 1%nat) 128 =? 0)) as HpS.
  { rewrite Hlt, negb_involutive. destruct (1 <? length S)%nat eqn:E; [|done]. apply Nat.ltb_lt in E.
    by rewrite (HS (Z.of_nat (length R) + 7) 1%nat) by lia. }
  destruct (decide (length R = 0%nat)) as [H0|H0]; [intuition lia|]. rewrite (HR 4 0%nat) by lia.
  destruct (decide (length S = 0%nat)) as [H1|H1]; [intuition lia|].
  rewrite (HS (Z.of_nat (length R) + 6) 0%nat) by lia. rewrite HpR.
  assert (y = Z.of_nat (length S) \/ y <> Z.of_nat (length S)) as [->|Hne] by lia; [rewrite HpS|]; intuition lia.
Qed.

Lemma sign_bit v : bytes_ok v -> v <> [] -> Z.land (v !!! 0%nat) 0x80 = 0 <-> v !!! 0%nat < 128.
Proof.
  intros Hv Hne. destruct v as [|b v]; [done|]. apply Forall_cons in Hv as [Hb _]. cbn.
  pose proof (land_byte_80 b Hb) as E. rewrite <- Z.eqb_eq, E. apply Z.ltb_lt.
Qed.

Lemma der_checks_iff R S : bytes_ok R -> bytes_ok S -> der_checks R S = true <-> der_int R /\ der_int S.
Proof.
  assert (forall v, bytes_ok v ->
    negb (length v =? 0)%nat = true /\ negb (negb (Z.land (v !!! 0%nat) 0x80 =? 0)) = true
    /\ negb ((1 <? length v)%nat && (v !!! 0%nat =? 0) && (Z.land (v !!! 1%nat) 0x80 =? 0)) = true <-> der_int v) as Hd.
  { intros v Hv. unfold der_int. destruct v as [|b v]; [cbn; intuition done|].
    rewrite negb_involutive, Z.eqb_eq, sign_bit by done. rewrite negb_true_iff, Nat.eqb_neq, negb_true_iff.
    rewrite !andb_false_iff, Nat.ltb_ge, !Z.eqb_neq. cbn [length].
    destruct v as [|c v]; [cbn; intuition (done || lia)|]. pose proof Hv as [Hb [Hc _]%Forall_cons]%Forall_cons.
    change ((b :: c :: v) !!! 1%nat) with c. change ((b :: c :: v) !!! 0%nat) with b.
    assert (Z.land c 128 <> 0 <-> 128 <= c) as -> by by rewrite <- Z.eqb_neq, (land_byte_80 c Hc), Z.ltb_ge.
    cbn [length]. intuition (done || lia). }
  intros HR HS. rewrite <- (Hd R HR), <- (Hd S HS). unfold der_checks. rewrite !andb_true_iff. tauto.
Qed.

(** A byte string of at least nine bytes has the shape that its fourth byte announces. *)
Lemma signature_shape sig :
  bytes_ok sig -> IsValidSignatureEncoding sig = true ->
  exists h0 h1 h2 R x y S t, sig = [h0; h1; h2; Z.of_nat (length R)] ++ R ++ [x; y] ++ S ++ [t].
Proof.
  intros Hb H.
  assert ((9 <= length sig)%nat /\ 5 + sig !!! 3%nat < Z.of_nat (length sig)
    /\ sig !!! 3%nat + sig !!! Z.to_nat (5 + sig !!! 3%nat) + 7 = Z.of_nat (length sig)) as (Hn & Hr & Hs).
  { unfold IsValidSignatureEncoding in H. cbv zeta in H. repeat rewrite reject_true in H.
    destruct H as (H1 & _ & _ & _ & H2 & H3 & _). zbool. split_and!; [lia|exact H2|exact H3]. }
  assert (forall i, (i < length sig)%nat -> is_byte (sig !!! i)) as Hat.
  { intros i Hi. apply lookup_lt_is_Some in Hi as [b Ei]. rewrite (list_lookup_total_correct _ _ _ Ei).
    by apply (Forall_lookup_1 _ _ i b Hb). }
  assert (sig !!! 3%nat + 7 <= Z.of_nat (length sig)) as Hl.
  { pose proof (Hat 3%nat ltac:(lia)) as H3. unfold in_u in H3.
    pose proof (Hat (Z.to_nat (5 + sig !!! 3%nat)) ltac:(lia)) as H4. unfold in_u in H4. lia. }
  clear Hr Hs Hat.
  destruct sig as [|h0 [|h1 [|h2 [|h3 r]]]]; [cbn in Hn; lia..|].
  change (h3 + 7 <= Z.of_nat (S (S (S (S (length r)))))) in Hl. cbn [length] in Hn. assert (is_byte h3) as Hh3.
  { do 4 apply Forall_cons in Hb as [? Hb]. done. }
  unfold in_u in Hh3. set (n := Z.to_nat h3). exists h0, h1, h2, (take n r).
  assert (3 <= length (drop n r))%nat as Hd by (rewrite length_drop; lia).
  destruct (drop n r) as [|x [|y k]] eqn:Ed; [cbn in Hd; lia..|].
  assert (k <> []) as Hk by (by intros ->; cbn in Hd; lia). apply list_snoc_inv in Hk as (S & t & ->).
  exists x, y, S, t. rewrite length_take, Nat.min_l by lia. unfold n at 1. rewrite Z2Nat.id by lia.
  change (_ ++ take n r ++ ?a) with (h0 :: h1 :: h2 :: h3 :: take n r ++ a).
  change ([x; y] ++ S ++ [t]) with (x :: y :: S ++ [t]). by rewrite <- Ed, take_drop.
Qed.

Lemma IsValid_der sig :
  bytes_ok sig ->
  IsValidSignatureEncoding sig = true <->
  exists R S t, sig = der_signature R S t /\ der_int R /\ der_int S /\ (length R + length S <= 66)%nat.
Proof.
  intros Hb. split.
  - intros H. destruct (signature_shape sig Hb H) as (h0 & h1 & h2 & R & x & y & S & t & ->).
    apply IsValid_shape in H as (Hn & -> & -> & -> & -> & -> & Hd). exists R, S, t.
    do 4 apply Forall_cons in Hb as [_ Hb]. apply Forall_app in Hb as [HbR Hb]. do 2 apply Forall_cons in Hb as [_ Hb].
    apply Forall_app in Hb as [HbS _]. apply der_checks_iff in Hd as [? ?]; [|done..]. split_and!; [done..|lia].
  - intros (R & S & t & -> & HR & HS & Hl). unfold der_signature in *.
    do 4 apply Forall_cons in Hb as [_ Hb]. apply Forall_app in Hb as [HbR Hb]. do 2 apply Forall_cons in Hb as [_ Hb].
    apply Forall_app in Hb as [HbS _]. apply IsValid_shape. pose proof HR as [HR0 _]. pose proof HS as [HS0 _].
    assert (length R <> 0 /\ length S <> 0)%nat as [? ?] by (by destruct R, S).
    split_and!; try done; [lia|lia|]. by apply der_checks_iff.
Qed.

Lemma p2pkh_no_prefix h : RemoveMineriumScript (p2pkh_script h) = None.
Proof.
  assert (forall service isOp, decode_service service isOp (p2pkh_script h) = None) as Hd by done.
  unfold RemoveMineriumScript, RemoveAliasScriptPrefix, RemoveOfferScriptPrefix, RemoveCertScriptPrefix,
    RemoveEscrowScriptPrefix, RemoveAssetScriptPrefix, RemoveAssetAllocationScriptPrefix,
    DecodeAliasScript, DecodeOfferScript, DecodeCertScript, DecodeEscrowScript, DecodeAssetScript, DecodeAssetAllocationScript.
  by rewrite !Hd.
Qed.

Lemma two_pushes_push_only a b :
  Z.of_nat (length a) < 76 -> Z.of_nat (length b) < 76 -> IsPushOnly (push_data [] a ++ push_data [] b) = true.
Proof.
  intros Ha Hb. apply (IsPushOnly_ok _ [(Z.of_nat (length a), a); (Z.of_nat (length b), b)] []).
  - assert (forall v rest, Z.of_nat (length v) < 76 -> forall l e, instrs rest l e ->
              instrs (push_data [] v ++ rest) ((Z.of_nat (length v), v) :: l) e) as Hc.
    { intros v rest Hv l e Hi. pose proof (GetOp2_direct v rest Hv) as E.
      pose proof (instrs_step (push_data [] v ++ rest) l e) as Hi'. rewrite E in Hi'. cbn in Hi'. by apply Hi'. }
    apply Hc; [done|]. rewrite <- (app_nil_r (push_data [] b)). apply Hc; [done|]. by apply instrs_stop.
  - split; [done|]. unfold OP_16. repeat constructor; cbn; lia.
Qed.

(** The run of an alias prefix with a single drop in front of a script hash of [[1]]. *)
Lemma eval_inner CheckLowS RIPEMD160 SHA1 SHA256 HASH160 HASH256 checker flags :
  length (HASH160 [1]) = 20%nat ->
  EvalScript CheckLowS RIPEMD160 SHA1 SHA256 HASH160 HASH256 []
    (service_prefix OP_MINERIUM_ALIAS 1 [] [OP_DROP] ++ p2sh_script (HASH160 [1])) flags checker = Ok [vchTrue].
Proof.
  intros Hh. set (h := HASH160 [1]) in *.
  assert (Z.of_nat (length (push_data [] h)) = 21) as Hpl by (rewrite push_direct by lia; cbn [length]; lia).
  rewrite eval_start.
  2:{ unfold service_prefix, p2sh_script. cbn [length app map concat]. rewrite length_app. cbn [length]. unfold MAX_SCRIPT_SIZE. lia. }
  change (service_prefix OP_MINERIUM_ALIAS 1 [] [OP_DROP] ++ p2sh_script h)
    with (OP_1 :: OP_1 :: OP_DROP :: OP_HASH160 :: push_data [] h ++ [OP_EQUAL]). set (s := OP_1 :: _) at 3.
  do 2 (rewrite loop_small; [|done|done|cbn; lia]).
  erewrite loop_op; [|done|done|done|done|reflexivity|cbn; lia].
  erewrite loop_op; [|done|done|done|done|reflexivity|cbn; lia]. rewrite loop_push by (cbn; done || lia).
  erewrite loop_op; [|done|done|done|done| |].
  2:{ unfold exec_op. cbn -[bool_decide]. change (HASH160 [1]) with h. by rewrite bool_decide_eq_true_2. }
  - done.
  - cbn. lia.
Qed.

(** ** Properties *)

(** C22: EvalScript terminates within its limits. Its loop needs no more rounds than the
    script has bytes: any larger bound gives the same outcome, and no bound is ever
    exhausted, nor does an [assert] fail. When it succeeds the stack holds at most 1000
    elements, each a byte string of at most 520 bytes. *)
Theorem EvalScript_terminates CheckLowS RIPEMD160 SHA1 SHA256 HASH160 HASH256 checker flags stack script :
  (forall v, elem_ok (RIPEMD160 v) /\ elem_ok (SHA1 v) /\ elem_ok (SHA256 v) /\ elem_ok (HASH160 v) /\ elem_ok (HASH256 v)) ->
  bytes_ok script -> Forall elem_ok stack -> Z.of_nat (length stack) <= 1000 ->
  (forall fuel m, (length script <= fuel)%nat ->
     eval_loop CheckLowS RIPEMD160 SHA1 SHA256 HASH160 HASH256 fuel checker flags script m
     = eval_loop CheckLowS RIPEMD160 SHA1 SHA256 HASH160 HASH256 (length script) checker flags script m)
  /\ match EvalScript CheckLowS RIPEMD160 SHA1 SHA256 HASH160 HASH256 stack script flags checker with
     | Ok s => Z.of_nat (length s) <= 1000 /\ Forall (fun v => bytes_ok v /\ Z.of_nat (length v) <= 520) s
     | Err _ => True
     | Abort => False
     end.
Proof.
  intros Hh Hs Hst Hlen. split; [intros fuel m Hf; by apply eval_loop_fuel|].
  pose proof (EvalScript_ok CheckLowS _ _ _ _ _ Hh checker stack script flags Hs Hst Hlen) as H.
  destruct (EvalScript _ _ _ _ _ _ _ _ _ _) as [s|e|]; [|done..]. by destruct H.
Qed.

Lemma EvalScript_terminates_witness :
  EvalScript (fun _ => true) (fun _ => []) (fun _ => []) (fun _ => []) (fun _ => []) (fun _ => []) [[1]] [OP_DUP; OP_EQUAL] 0
    BaseSignatureChecker = Ok [[1]] /\
  match EvalScript (fun _ => true) (fun _ => []) (fun _ => []) (fun _ => []) (fun _ => []) (fun _ => []) [[1]] [OP_DUP; OP_EQUAL] 0
          BaseSignatureChecker with
  | Ok s => Z.of_nat (length s) <= 1000 /\ Forall (fun v => bytes_ok v /\ Z.of_nat (length v) <= 520) s
  | Err _ => True
  | Abort => False
  end.
Proof.
  split; [reflexivity|]. eapply EvalScript_terminates; [|by repeat constructor| |done].
  - intros v. assert (elem_ok []) by (split; [constructor|done]). done.
  - repeat constructor; done.
Defined.

(** C30: no assertion of VerifyScript fails, whatever the two scripts are, when clean
    stacks are only asked for together with P2SH and the output script carries at most
    one service prefix. *)
Theorem VerifyScript_no_assert CheckLowS RIPEMD160 SHA1 SHA256 HASH160 HASH256 checker flags scriptSig scriptPubKey :
  (forall v, elem_ok (RIPEMD160 v) /\ elem_ok (SHA1 v) /\ elem_ok (SHA256 v) /\ elem_ok (HASH160 v) /\ elem_ok (HASH256 v)) ->
  bytes_ok scriptSig -> bytes_ok scriptPubKey ->
  (flag_set flags SCRIPT_VERIFY_CLEANSTACK = true -> flag_set flags SCRIPT_VERIFY_P2SH = true) ->
  RemoveMineriumScript (strip_service scriptPubKey) = None ->
  VerifyScript CheckLowS RIPEMD160 SHA1 SHA256 HASH160 HASH256 scriptSig scriptPubKey flags checker <> Abort.
Proof.
  intros Hh Hsig Hpk Hfl Hnest. pose proof (VerifyScript_ok CheckLowS _ _ _ _ _ checker _ _ _ Hh Hsig Hpk Hfl Hnest) as H.
  by destruct (VerifyScript _ _ _ _ _ _ _ _ _ _).
Qed.

Lemma VerifyScript_no_assert_witness :
  VerifyScript (fun _ => true) (fun _ => []) (fun _ => []) (fun _ => []) (fun _ => []) (fun _ => [])
    [OP_1] (service_prefix OP_MINERIUM_ALIAS 2 [[97]] [OP_2DROP; OP_DROP] ++ [OP_DUP; OP_EQUAL]) SCRIPT_VERIFY_P2SH
    BaseSignatureChecker <> Abort.
Proof.
  apply VerifyScript_no_assert; [|by repeat constructor| |done|reflexivity].
  - intros v. assert (elem_ok []) by (split; [constructor|done]). done.
  - vm_compute. repeat constructor; discriminate.
Defined.

(** Two service prefixes in front of a pay-to-script-hash script defeat the guard:
    VerifyScript strips the first one and evaluates the rest, IsPayToScriptHash strips the
    second one too and answers true, but the evaluation has hashed the element that the
    second prefix left on the stack. For the script hash of [[1]] it succeeds with an empty
    scriptSig, and [assert(!stack.empty())] fails. *)
Theorem nested_prefix_aborts CheckLowS RIPEMD160 SHA1 SHA256 HASH160 HASH256 checker flags :
  length (HASH160 [1]) = 20%nat -> flag_set flags SCRIPT_VERIFY_P2SH = true ->
  VerifyScript CheckLowS RIPEMD160 SHA1 SHA256 HASH160 HASH256 []
    (service_prefix OP_MINERIUM_ALIAS 1 [] [OP_2DROP] ++ service_prefix OP_MINERIUM_ALIAS 1 [] [OP_DROP]
     ++ p2sh_script (HASH160 [1])) flags checker = Abort.
Proof.
  intros Hh Hp. set (inner := service_prefix OP_MINERIUM_ALIAS 1 [] [OP_DROP] ++ p2sh_script (HASH160 [1])).
  unfold VerifyScript. rewrite RemoveMineriumScript_prefix by first [done | discriminate | by repeat constructor].
  replace (step_back _ _) with inner by (by change (pcRet (GetOp2 inner)) with (pcRet (GetOp2 (OP_1 :: OP_1 :: OP_DROP :: p2sh_script (HASH160 [1]))));
    rewrite GetOp2_opcode by done; cbn [pcRet]; change inner with (OP_1 :: OP_1 :: OP_DROP :: p2sh_script (HASH160 [1]));
    rewrite step_back_app).
  assert (IsPayToScriptHash inner = true) as ->.
  { unfold IsPayToScriptHash, strip_service, inner.
    rewrite RemoveMineriumScript_prefix by first [done | discriminate | by repeat constructor].
    unfold p2sh_script. rewrite GetOp2_opcode by done. cbn [pcRet]. rewrite step_back_app.
    rewrite push_direct by lia. destruct (HASH160 [1]) as [|? l]; [done|].
    repeat (destruct l as [|? l]; try done). }
  assert (flag_set flags SCRIPT_VERIFY_SIGPUSHONLY && negb (IsPushOnly []) = false) as -> by apply andb_false_r.
  change (EvalScript _ _ _ _ _ _ [] [] flags checker) with (Ok (@nil valtype)). cbn [negb require mbind outcome_bind].
  assert (EvalScript CheckLowS RIPEMD160 SHA1 SHA256 HASH160 HASH256 [] inner flags checker = Ok [vchTrue]) as ->.
  { apply eval_inner. done. }
  cbn [require mbind outcome_bind CastToBool vchTrue]. by rewrite Hp.
Qed.

Lemma nested_prefix_aborts_witness :
  VerifyScript (fun _ => true) (fun _ => []) (fun _ => []) (fun _ => []) (fun _ => replicate 20 7) (fun _ => []) []
    (service_prefix OP_MINERIUM_ALIAS 1 [] [OP_2DROP] ++ service_prefix OP_MINERIUM_ALIAS 1 [] [OP_DROP]
     ++ p2sh_script (replicate 20 7)) SCRIPT_VERIFY_P2SH BaseSignatureChecker = Abort.
Proof. apply (nested_prefix_aborts _ _ _ _ (fun _ => replicate 20 7)); reflexivity. Defined.

(** Spending a pay-to-pubkey-hash output: VerifyScript accepts the usual pair of
    pushes exactly when the key hashes to the hash in the output and its signature is
    valid for the output script (with the signature's own bytes deleted from it). *)
Theorem verify_p2pkh CheckLowS RIPEMD160 SHA1 SHA256 HASH160 HASH256 checker flags h key sig :
  length h = 20%nat -> (2 <= length sig <= 75)%nat -> (2 <= length key <= 75)%nat ->
  (flag_set flags SCRIPT_VERIFY_CLEANSTACK = true -> flag_set flags SCRIPT_VERIFY_P2SH = true) ->
  encodings_ok CheckLowS flags [sig] [key] ->
  VerifyScript CheckLowS RIPEMD160 SHA1 SHA256 HASH160 HASH256 (push_data [] sig ++ push_data [] key) (p2pkh_script h)
    flags checker = Ok tt <->
  HASH160 key = h /\ CheckSig checker sig key (drop_signature (p2pkh_script h) sig) = true.
Proof.
  intros Hh Hs Hk Hfl [He1 He2]. rewrite Forall_singleton in He1, He2. unfold VerifyScript.
  pose proof (p2pkh_no_prefix h) as Hno. rewrite Hno. assert (IsPayToScriptHash (p2pkh_script h) = false) as ->.
  { unfold IsPayToScriptHash, strip_service. rewrite Hno. cbn [default from_option]. unfold id.
    by rewrite andb_false_r. }
  rewrite two_pushes_push_only by lia. rewrite !andb_false_r. cbn [negb require mbind outcome_bind].
  rewrite eval_two_pushes by lia. cbn [mbind outcome_bind]. rewrite eval_p2pkh by done.
  unfold check_sig. rewrite He1, He2. cbn [mbind outcome_bind].
  case_bool_decide as Hd; [|by split; [|intros [? ?]]].
  destruct (CheckSig _ _ _ _); cbn -[flag_set].
  - split; [done|intros _]. case_match; [|done]. by rewrite Hfl.
  - split; [|by intros [_ ?]]. by destruct (flag_set _ _ && _).
Qed.

Lemma verify_p2pkh_witness :
  VerifyScript (fun _ => true) (fun _ => []) (fun _ => []) (fun _ => []) (fun _ => replicate 20 7) (fun _ => [])
    (push_data [] [1; 2; 3] ++ push_data [] [2; 9]) (p2pkh_script (replicate 20 7)) SCRIPT_VERIFY_P2SH
    {| CheckSig _ key _ := bool_decide (key = [2; 9]); CheckLockTime _ := false; CheckSequence _ := false |} = Ok tt.
Proof.
  apply verify_p2pkh; [reflexivity|cbn; lia|cbn; lia|done|by split; repeat constructor|by split; reflexivity].
Defined.

(** OP_CHECKMULTISIG with well-encoded signatures and keys runs through its
    signature loop, its clean-up and its dummy element without leaving the stack, and its
    verdict is true exactly when the signatures, in the order given, are valid for some of the
    keys in the same order. NULLFAIL and NULLDUMMY reject exactly a failed check with a
    non-empty signature and a non-empty dummy. The operations count the keys. *)
Theorem checkmultisig_correct CheckLowS checker flags fMin code ks ss dummy rest n :
  (length ss <= length ks <= 20)%nat -> n + Z.of_nat (length ks) <= MAX_OPS_PER_SCRIPT -> encodings_ok CheckLowS flags ss ks ->
  exists ok,
    (ok = true <-> exists ks', sublist ks' ks
       /\ Forall2 (fun s k => CheckSig checker s k (foldl drop_signature code ss) = true) ss ks')
    /\ op_checkmultisig CheckLowS checker flags fMin OP_CHECKMULTISIG code (multisig_stack ks ss dummy rest) n =
         (if negb ok && flag_set flags SCRIPT_VERIFY_NULLFAIL && existsb (fun s => negb (length s =? 0)%nat) ss
          then Err SCRIPT_ERR_SIG_NULLFAIL
          else if flag_set flags SCRIPT_VERIFY_NULLDUMMY && negb (length dummy =? 0)%nat then Err SCRIPT_ERR_SIG_NULLDUMMY
          else Ok (of_bool ok :: rest, n + Z.of_nat (length ks))).
Proof.
  intros Hl Hn He. exists (matches checker (foldl drop_signature code ss) ss ks). split; [apply matches_sublist|].
  by rewrite op_checkmultisig_run.
Qed.

Lemma checkmultisig_correct_witness :
  (1 <= 2 <= 20)%nat /\ exists ok,
    (ok = true <-> exists ks', sublist ks' [[2]; [3]]
       /\ Forall2 (fun s k => CheckSig BaseSignatureChecker s k (foldl drop_signature [] [[9]]) = true) [[9]] ks')
    /\ op_checkmultisig (fun _ => true) BaseSignatureChecker 0 false OP_CHECKMULTISIG []
         (multisig_stack [[2]; [3]] [[9]] [] [[5]]) 1 =
         (if negb ok && flag_set 0 SCRIPT_VERIFY_NULLFAIL && existsb (fun s => negb (length s =? 0)%nat) [[9]]
          then Err SCRIPT_ERR_SIG_NULLFAIL
          else if flag_set 0 SCRIPT_VERIFY_NULLDUMMY && negb (0 =? 0)%nat then Err SCRIPT_ERR_SIG_NULLDUMMY
          else Ok (of_bool ok :: [[5]], 1 + 2)).
Proof.
  split; [lia|]. apply (checkmultisig_correct _ _ 0 false [] [[2]; [3]] [[9]] [] [[5]] 1);
    [cbn; lia|cbn; unfold MAX_OPS_PER_SCRIPT; lia|split; repeat constructor].
Defined.

(** IsValidSignatureEncoding accepts exactly the strict DER signatures: two positive
    integers in their shortest form, with the lengths that the headers announce, followed
    by one hash type byte, at most 73 bytes in all. *)
Theorem IsValidSignatureEncoding_correct sig :
  bytes_ok sig ->
  IsValidSignatureEncoding sig = true <->
  exists R S t, sig = der_signature R S t /\ der_int R /\ der_int S /\ (length R + length S <= 66)%nat.
Proof. apply IsValid_der. Qed.

Lemma IsValidSignatureEncoding_correct_witness :
  bytes_ok (der_signature [0; 200] [5] 1) /\ IsValidSignatureEncoding (der_signature [0; 200] [5] 1) = true.
Proof.
  assert (bytes_ok (der_signature [0; 200] [5] 1)) as Hb by (vm_compute; repeat constructor; discriminate).
  split; [exact Hb|]. apply (IsValidSignatureEncoding_correct _ Hb). exists [0; 200], [5], 1.
  split_and!; [reflexivity| |split_and!; [discriminate|vm_compute; reflexivity|cbn; lia]|cbn; lia].
  split_and!; [discriminate|vm_compute; reflexivity|intros _ _; vm_compute; discriminate].
Defined.
