(* ===== verification/VersionBits.v ===== *)
(** * Version bits (versionbits.cpp, versionbits.h, and their users in validation.cpp)

    The threshold state machine of a soft fork: [GetStateFor] walks back over the
    confirmation periods until it finds a cached state and forward again, filling the
    cache; [GetStateSinceHeightFor] finds the first height of the current state. The
    abstract condition checker is a record of its virtual functions; the condition may
    itself read and fill a cache (the checker for unknown bits calls
    [ComputeBlockVersion]), so it carries a state of type [S]. [None] is a null pointer
    dereference, a failed assertion or a division by zero. *)

From stdpp Require Import gmap sorting.
From S2P Require Import Prelude ArithUint256 Chain.


Definition VERSIONBITS_LAST_OLD_BLOCK_VERSION : Z := 4.
Definition VERSIONBITS_TOP_BITS : Z := i32 0x20000000.
Definition VERSIONBITS_TOP_MASK : Z := i32 0xE0000000.
Definition VERSIONBITS_NUM_BITS : Z := 29.

Inductive ThresholdState :=
| THRESHOLD_DEFINED
| THRESHOLD_STARTED
| THRESHOLD_LOCKED_IN
| THRESHOLD_ACTIVE
| THRESHOLD_FAILED.

#[global] Instance ThresholdState_eq_dec : EqDecision ThresholdState.
Proof. solve_decision. Defined.

Abbreviation ThresholdConditionCache := (gmap (option ptr) ThresholdState) (only parsing).

Record BIP9Deployment := {
  bit : Z;
  nStartTime : Z;
  nTimeout : Z;
  nWindowSize : Z;
  nThreshold : Z;
}.

Record BIP9Params := {
  nRuleChangeActivationThreshold : Z;
  nMinerConfirmationWindow : Z;
  vDeployments : list BIP9Deployment;
}.

(** [AbstractThresholdConditionChecker]: the virtual functions. *)
Record ConditionChecker (S : Type) := {
  BeginTime : Z;
  EndTime : Z;
  Period : Z;
  Threshold : Z;
  Condition : S -> CBlockIndex -> option (bool * S);
}.
Arguments BeginTime {S} _. Arguments EndTime {S} _. Arguments Period {S} _. Arguments Threshold {S} _.
Arguments Condition {S} _ _ _.

Section Checker.
Context {S : Type} (c : ConditionChecker S) (m : BlockMap).

(** The loop back to a known state; [vToCompute] has its back at the head. *)
Fixpoint back_loop (fuel : nat) (cache : ThresholdConditionCache) (pindexPrev : option ptr) (vToCompute : list ptr)
    : option (ThresholdConditionCache * option ptr * list ptr) :=
  match cache !! pindexPrev with
  | Some _ => Some (cache, pindexPrev, vToCompute)
  | None =>
      match pindexPrev with
      | None => Some (<[pindexPrev := THRESHOLD_DEFINED]> cache, pindexPrev, vToCompute)
      | Some p =>
          if GetMedianTimePast m p <? BeginTime c
          then Some (<[pindexPrev := THRESHOLD_DEFINED]> cache, pindexPrev, vToCompute)
          else
            match fuel with
            | O => None
            | Datatypes.S fuel =>
                b ← m !! p;
                prev ← GetAncestor m p (nHeight b - Period c);
                back_loop fuel cache prev (p :: vToCompute)
            end
      end
  end.

(** The counting loop of [THRESHOLD_STARTED]. *)
Fixpoint count_loop (n : nat) (s : S) (pindexCount : option ptr) (count : Z) : option (Z * S) :=
  match n with
  | O => Some (count, s)
  | Datatypes.S n =>
      p ← pindexCount;
      b ← m !! p;
      '(ok, s) ← Condition c s b;
      count_loop n s (pprev b) (if (ok : bool) then count + 1 else count)
  end.

(** The [switch] over the state. *)
Definition next_state (s : S) (state : ThresholdState) (p : ptr) : option (ThresholdState * S) :=
  match state with
  | THRESHOLD_DEFINED =>
      if GetMedianTimePast m p >=? EndTime c then Some (THRESHOLD_FAILED, s)
      else if GetMedianTimePast m p >=? BeginTime c then Some (THRESHOLD_STARTED, s)
      else Some (state, s)
  | THRESHOLD_STARTED =>
      if GetMedianTimePast m p >=? EndTime c then Some (THRESHOLD_FAILED, s)
      else
        '(count, s) ← count_loop (Z.to_nat (Period c)) s (Some p) 0;
        Some (if count >=? Threshold c then THRESHOLD_LOCKED_IN else state, s)
  | THRESHOLD_LOCKED_IN => Some (THRESHOLD_ACTIVE, s)
  | THRESHOLD_FAILED | THRESHOLD_ACTIVE => Some (state, s)
  end.

(** The walk forward. *)
Fixpoint forward_loop (s : S) (cache : ThresholdConditionCache) (state : ThresholdState) (vToCompute : list ptr)
    : option (ThresholdState * ThresholdConditionCache * S) :=
  match vToCompute with
  | [] => Some (state, cache, s)
  | p :: vToCompute =>
      '(stateNext, s) ← next_state s state p;
      forward_loop s (<[Some p := stateNext]> cache) stateNext vToCompute
  end.

(** The last block of the period before the one that follows [p]. *)
Definition period_parent (p : ptr) : option (option ptr) :=
  b ← m !! p;
  if Period c =? 0 then None else GetAncestor m p (nHeight b - Z.rem (nHeight b + 1) (Period c)).

Definition back_fuel (pindexPrev : option ptr) : nat :=
  match pindexPrev with
  | None => O
  | Some p => match m !! p with Some b => Datatypes.S (Z.to_nat (nHeight b)) | None => O end
  end.

Definition GetStateFor (s : S) (cache : ThresholdConditionCache) (pindexPrev : option ptr)
    : option (ThresholdState * ThresholdConditionCache * S) :=
  pindexPrev ← match pindexPrev with None => Some None | Some p => period_parent p end;
  '(cache, pindexPrev, vToCompute) ← back_loop (back_fuel pindexPrev) cache pindexPrev [];
  state ← cache !! pindexPrev;
  forward_loop s cache state vToCompute.

(** The loop of [GetStateSinceHeightFor] from [pindexPrev]. *)
Fixpoint since_loop (fuel : nat) (initialState : ThresholdState) (s : S) (cache : ThresholdConditionCache)
    (pindexPrev : ptr) : option (Z * ThresholdConditionCache * S) :=
  b ← m !! pindexPrev;
  previousPeriodParent ← GetAncestor m pindexPrev (nHeight b - Period c);
  match previousPeriodParent with
  | None => Some (nHeight b + 1, cache, s)
  | Some q =>
      '(state, cache, s) ← GetStateFor s cache (Some q);
      if bool_decide (state = initialState) then
        match fuel with
        | O => None
        | Datatypes.S fuel => since_loop fuel initialState s cache q
        end
      else Some (nHeight b + 1, cache, s)
  end.

Definition GetStateSinceHeightFor (s : S) (cache : ThresholdConditionCache) (pindexPrev : option ptr)
    : option (Z * ThresholdConditionCache * S) :=
  '(initialState, cache, s) ← GetStateFor s cache pindexPrev;
  if bool_decide (initialState = THRESHOLD_DEFINED) then Some (0, cache, s)
  else
    p ← pindexPrev;
    pindexPrev ← period_parent p;
    p ← pindexPrev;
    since_loop (back_fuel pindexPrev) initialState s cache p.

End Checker.

(** ** [VersionBitsConditionChecker] *)

Section VersionBits.
Context (params : BIP9Params) (m : BlockMap).

Definition bits_Mask (d : BIP9Deployment) : Z := u32 (Z.shiftl 1 (bit d)).

Definition bits_Condition (d : BIP9Deployment) (b : CBlockIndex) : bool :=
  (Z.land (nVersion b) VERSIONBITS_TOP_MASK =? VERSIONBITS_TOP_BITS)
  && negb (Z.land (u32 (nVersion b)) (bits_Mask d) =? 0).

Definition VersionBitsConditionChecker (d : BIP9Deployment) : ConditionChecker unit := {|
  BeginTime := nStartTime d;
  EndTime := nTimeout d;
  Period := i32 (if negb (nWindowSize d =? 0) then nWindowSize d else nMinerConfirmationWindow params);
  Threshold := i32 (if negb (nThreshold d =? 0) then nThreshold d else nRuleChangeActivationThreshold params);
  Condition _ b := Some (bits_Condition d b, tt);
|}.

(** [VersionBitsCache] is an array of caches; [pos] indexes [vDeployments] and the caches. *)
Definition VersionBitsState (caches : list ThresholdConditionCache) (pindexPrev : option ptr) (pos : nat)
    : option (ThresholdState * list ThresholdConditionCache) :=
  d ← vDeployments params !! pos;
  cache ← caches !! pos;
  '(state, cache, _) ← GetStateFor (VersionBitsConditionChecker d) m tt cache pindexPrev;
  Some (state, <[pos := cache]> caches).

Definition VersionBitsStateSinceHeight (caches : list ThresholdConditionCache) (pindexPrev : option ptr) (pos : nat)
    : option (Z * list ThresholdConditionCache) :=
  d ← vDeployments params !! pos;
  cache ← caches !! pos;
  '(h, cache, _) ← GetStateSinceHeightFor (VersionBitsConditionChecker d) m tt cache pindexPrev;
  Some (h, <[pos := cache]> caches).

Definition VersionBitsMask (pos : nat) : option Z := bits_Mask <$> vDeployments params !! pos.

Definition caches_Clear (caches : list ThresholdConditionCache) : list ThresholdConditionCache :=
  map (fun _ => ∅) caches.

(** ** [ComputeBlockVersion] *)

Fixpoint version_loop (positions : list nat) (pindexPrev : option ptr) (nVersion : Z)
    (caches : list ThresholdConditionCache) : option (Z * list ThresholdConditionCache) :=
  match positions with
  | [] => Some (nVersion, caches)
  | pos :: positions =>
      '(state, caches) ← VersionBitsState caches pindexPrev pos;
      if bool_decide (state = THRESHOLD_LOCKED_IN) || bool_decide (state = THRESHOLD_STARTED) then
        mask ← VersionBitsMask pos;
        version_loop positions pindexPrev (i32 (Z.lor (u32 nVersion) mask)) caches
      else version_loop positions pindexPrev nVersion caches
  end.

Definition ComputeBlockVersion (caches : list ThresholdConditionCache) (pindexPrev : option ptr)
    : option (Z * list ThresholdConditionCache) :=
  version_loop (seq 0 (length (vDeployments params))) pindexPrev VERSIONBITS_TOP_BITS caches.

(** ** [WarningBitsConditionChecker]: signals on bits this node does not know *)

Definition WarningBitsConditionChecker (nbit : Z) : ConditionChecker (list ThresholdConditionCache) := {|
  BeginTime := 0;
  EndTime := int64_max;
  Period := i32 (nMinerConfirmationWindow params);
  Threshold := i32 (nRuleChangeActivationThreshold params);
  Condition caches b :=
    if (Z.land (nVersion b) VERSIONBITS_TOP_MASK =? VERSIONBITS_TOP_BITS)
       && negb (Z.land (Z.shiftr (nVersion b) nbit) 1 =? 0)
    then
      '(v, caches) ← ComputeBlockVersion caches (pprev b);
      Some (Z.land (Z.shiftr v nbit) 1 =? 0, caches)
    else Some (false, caches);
|}.

End VersionBits.

(** ** The states a deployment goes through, by definition (BIP 9) *)

Section Spec.
Context (m : BlockMap) (begin_ end_ period threshold : Z) (cond : CBlockIndex -> bool).

(** The blocks among the last [n] up to [q] that meet the condition. *)
Fixpoint signals (n : nat) (q : option ptr) : Z :=
  match n with
  | O => 0
  | S n =>
      match b ← (q ≫= (m !!.)); Some b with
      | Some b => (if cond b then 1 else 0) + signals n (pprev b)
      | None => 0
      end
  end.

(** The state of the period that starts after [q], from the state of the period that ends with [q]. *)
Definition transition (q : ptr) (state : ThresholdState) : ThresholdState :=
  match state with
  | THRESHOLD_DEFINED =>
      if end_ <=? GetMedianTimePast m q then THRESHOLD_FAILED
      else if begin_ <=? GetMedianTimePast m q then THRESHOLD_STARTED else THRESHOLD_DEFINED
  | THRESHOLD_STARTED =>
      if end_ <=? GetMedianTimePast m q then THRESHOLD_FAILED
      else if threshold <=? signals (Z.to_nat period) (Some q) then THRESHOLD_LOCKED_IN else THRESHOLD_STARTED
  | THRESHOLD_LOCKED_IN => THRESHOLD_ACTIVE
  | THRESHOLD_ACTIVE => THRESHOLD_ACTIVE
  | THRESHOLD_FAILED => THRESHOLD_FAILED
  end.

(** The last block of the [k]-th period of the chain of [p]. *)
Definition boundary (p : ptr) (k : nat) : option ptr :=
  match k with O => None | S _ => ancestor m p (Z.of_nat k * period - 1) end.

(** The state of the period number [k]: the first period is defined. *)
Fixpoint period_state (p : ptr) (k : nat) : ThresholdState :=
  match k with
  | O => THRESHOLD_DEFINED
  | S k' => match boundary p k with
            | Some q => transition q (period_state p k')
            | None => THRESHOLD_DEFINED
            end
  end.

Definition periods (h : Z) : nat := Z.to_nat ((h + 1) / period).

(** The state of the block after [pindexPrev]. *)
Definition state_after (pindexPrev : option ptr) : ThresholdState :=
  match pindexPrev with
  | None => THRESHOLD_DEFINED
  | Some p => match m !! p with Some b => period_state p (periods (nHeight b)) | None => THRESHOLD_DEFINED end
  end.

(** Every cached state is the state, and is cached for the last block of a period. *)
Definition cache_ok (cache : ThresholdConditionCache) : Prop :=
  forall o st, cache !! o = Some st ->
    st = state_after o /\
    match o with
    | None => True
    | Some q => exists b k, m !! q = Some b /\ nHeight b = Z.of_nat (S k) * period - 1
    end.

End Spec.

(** What [GetStateFor] needs of a checker: a sensible period and interval, and a condition
    that never fails, keeps its own state consistent and depends on the block only. *)
Class LawfulChecker {T : Type} (m : BlockMap) (c : ConditionChecker T) (inv : T -> Prop) (cond : CBlockIndex -> bool) : Prop := {
  lc_index : wf_index m;
  lc_times : time_rule m;
  lc_period : 1 <= Period c;
  lc_interval : BeginTime c <= EndTime c;
  lc_condition : forall s p b, inv s -> m !! p = Some b -> exists s', Condition c s b = Some (cond b, s') /\ inv s';
}.

Section Lawful.
Context {T : Type} (m : BlockMap) (c : ConditionChecker T) (inv : T -> Prop) (cond : CBlockIndex -> bool).
Context {LC : LawfulChecker m c inv cond}.

Abbreviation P := (Period c) (only parsing).
Abbreviation trans := (transition m (BeginTime c) (EndTime c) P (Threshold c) cond) (only parsing).
Abbreviation pstate := (period_state m (BeginTime c) (EndTime c) P (Threshold c) cond) (only parsing).
Abbreviation bnd := (boundary m P) (only parsing).
Abbreviation after := (state_after m (BeginTime c) (EndTime c) P (Threshold c) cond) (only parsing).
Abbreviation cok := (cache_ok m (BeginTime c) (EndTime c) P (Threshold c) cond) (only parsing).

Lemma boundary_ok p b k :
  m !! p = Some b -> Z.of_nat (S k) * P - 1 <= nHeight b ->
  exists q bq, bnd p (S k) = Some q /\ m !! q = Some bq /\ nHeight bq = Z.of_nat (S k) * P - 1.
Proof.
  intros Hp Hk. pose proof lc_period. cbn [boundary]. apply (ancestor_ok m p b); [apply lc_index|done|nia].
Qed.

(** The boundaries, and so the states, only depend on the chain. *)
Lemma boundary_ancestor p b q h k :
  m !! p = Some b -> ancestor m p h = Some q -> Z.of_nat k * P - 1 <= h -> h <= nHeight b -> bnd q k = bnd p k.
Proof.
  intros Hp Hq Hk Hh. pose proof lc_period. destruct k as [|k]; [done|]. cbn [boundary].
  apply (ancestor_trans m p b q h); [apply lc_index|done|nia|done|done].
Qed.

Lemma period_state_ancestor p b q h k :
  m !! p = Some b -> ancestor m p h = Some q -> Z.of_nat k * P - 1 <= h -> h <= nHeight b -> pstate q k = pstate p k.
Proof.
  intros Hp Hq Hk Hh. pose proof lc_period. induction k as [|k IH]; [done|]. cbn [period_state].
  rewrite (boundary_ancestor p b q h) by done. destruct (bnd p (S k)); [|done]. by rewrite IH by nia.
Qed.

Lemma periods_boundary k : periods P (Z.of_nat k * P - 1) = k.
Proof.
  pose proof lc_period. unfold periods. replace (Z.of_nat k * P - 1 + 1) with (Z.of_nat k * P) by lia.
  rewrite Z.div_mul by lia. apply Nat2Z.id.
Qed.

(** The state after the last block of a period, seen from any descendant. *)
Lemma state_after_boundary p b k :
  m !! p = Some b -> Z.of_nat k * P - 1 <= nHeight b -> after (bnd p k) = pstate p k.
Proof.
  intros Hp Hk. destruct k as [|k]; [done|]. destruct (boundary_ok p b k Hp Hk) as (q & bq & Eq & Hq & Hh).
  rewrite Eq. unfold state_after. rewrite Hq, Hh, periods_boundary.
  apply (period_state_ancestor p b q (Z.of_nat (S k) * P - 1)); [done|done|lia|done].
Qed.

Lemma state_after_ok p b : m !! p = Some b -> after (Some p) = pstate p (periods P (nHeight b)).
Proof. intros Hp. unfold state_after. by rewrite Hp. Qed.

Lemma periods_spec h : 0 <= h -> Z.of_nat (periods P h) * P - 1 <= h < Z.of_nat (S (periods P h)) * P - 1.
Proof.
  intros Hh. pose proof lc_period. unfold periods.
  pose proof (Z.div_mod (h + 1) P ltac:(lia)). pose proof (Z.mod_pos_bound (h + 1) P ltac:(lia)).
  assert (0 <= (h + 1) / P) by (apply Z.div_pos; lia). rewrite Nat2Z.inj_succ, Z2Nat.id by done. nia.
Qed.

(** Before the start time every earlier period is defined too. *)
Lemma early_defined p b q k :
  m !! p = Some b -> Z.of_nat k * P - 1 <= nHeight b -> bnd p k = Some q ->
  GetMedianTimePast m q < BeginTime c -> pstate p k = THRESHOLD_DEFINED.
Proof.
  intros Hp. pose proof lc_period. pose proof lc_interval. revert q. induction k as [|k IH]; intros q Hk Hq Ht; [done|].
  cbn [period_state]. rewrite Hq. destruct (boundary_ok p b k Hp Hk) as (q' & bq & Eq & Hbq & Hh).
  rewrite Hq in Eq. injection Eq as <-.
  assert (pstate p k = THRESHOLD_DEFINED) as ->.
  { destruct k as [|k]; [done|]. destruct (boundary_ok p b k Hp ltac:(nia)) as (r & br & Er & Hr & Hhr).
    apply (IH r); [nia|done|]. eapply Z.le_lt_trans; [|exact Ht].
    apply (mtp_prev_iter m q bq (Z.to_nat P)); [apply lc_index|apply lc_times|done|nia|].
    cbn [boundary] in Er, Hq. rewrite <- (ancestor_trans m p b q (Z.of_nat (S (S k)) * P - 1)) in Er;
      [|apply lc_index|done|nia|done|done].
    unfold ancestor in Er. rewrite Hbq, !(proj2 (Z.leb_le _ _)) in Er by nia. cbn [andb] in Er.
    rewrite <- Er. f_equal. nia. }
  cbn [transition]. rewrite !(proj2 (Z.leb_gt _ _)) by lia. done.
Qed.

Lemma count_loop_ok n s q count :
  inv s -> (exists b, m !! q = Some b /\ Z.of_nat n <= nHeight b + 1) ->
  exists s', count_loop c m n s (Some q) count = Some (count + signals m cond n (Some q), s') /\ inv s'.
Proof.
  revert s q count. induction n as [|n IH]; intros s q count Hs (b & Hq & Hn).
  { exists s. cbn. by rewrite Z.add_0_r. }
  cbn [count_loop signals mbind option_bind]. rewrite Hq. cbn [mbind option_bind].
  destruct (lc_condition s q b Hs Hq) as (s1 & -> & Hs1). cbn [mbind option_bind].
  destruct n as [|n].
  { exists s1. split; [|done]. cbn. f_equal. destruct (cond b); f_equal; lia. }
  destruct (pprev b) as [r|] eqn:Er.
  2:{ destruct (wb_root _ _ _ (lc_index q b Hq) Er). lia. }
  destruct (wb_prev _ _ _ (lc_index q b Hq) r Er) as (br & Hr & Hhr).
  destruct (IH s1 r (if cond b then count + 1 else count) Hs1) as (s2 & -> & Hs2); [exists br; split; [done|lia]|].
  exists s2. split; [|done]. do 2 f_equal. destruct (cond b); lia.
Qed.

Lemma next_state_ok s q b k st :
  inv s -> m !! q = Some b -> nHeight b = Z.of_nat (S k) * P - 1 ->
  exists s', next_state c m s st q = Some (trans q st, s') /\ inv s'.
Proof.
  intros Hs Hq Hh. pose proof lc_period. destruct st; cbn [next_state transition]; rewrite ?Z.geb_leb; eauto.
  - destruct (EndTime c <=? _); eauto. destruct (BeginTime c <=? _); eauto.
  - destruct (EndTime c <=? _); eauto.
    destruct (count_loop_ok (Z.to_nat P) s q 0 Hs) as (s' & -> & Hs'); [exists b; split; [done|nia]|].
    cbn [mbind option_bind]. rewrite Z.add_0_l, Z.geb_leb. destruct (Threshold c <=? _); eauto.
Qed.

Lemma cache_insert cache p b k :
  cok cache -> m !! p = Some b -> Z.of_nat k * P - 1 <= nHeight b -> cok (<[bnd p k := pstate p k]> cache).
Proof.
  intros Hc Hp Hk o st Ho. apply lookup_insert_Some in Ho as [[<- <-]|[_ Ho]]; [|by apply Hc].
  split; [symmetry; by apply (state_after_boundary p b)|]. destruct k as [|k]; [done|].
  destruct (boundary_ok p b k Hp Hk) as (q & bq & -> & Hq & Hh). eauto.
Qed.

(** One period further back. *)
Lemma boundary_prev p b q bq k :
  m !! p = Some b -> Z.of_nat (S k) * P - 1 <= nHeight b -> bnd p (S k) = Some q -> m !! q = Some bq ->
  GetAncestor m q (nHeight bq - P) = Some (bnd p k).
Proof.
  intros Hp Hk Eq Hq. pose proof lc_period. destruct (boundary_ok p b k Hp Hk) as (q' & bq' & Eq' & Hq' & Hh).
  simplify_eq. rewrite (GetAncestor_ok m q bq) by (done || apply lc_index). f_equal.
  rewrite Hh. replace (Z.of_nat (S k) * P - 1 - P) with (Z.of_nat k * P - 1) by lia. destruct k as [|k].
  - unfold ancestor. rewrite Hq. by rewrite (proj2 (Z.leb_gt 0 _)) by lia.
  - cbn [boundary] in *. apply (ancestor_trans m p b q (Z.of_nat (S (S k)) * P - 1)); [apply lc_index|done|nia|done|done].
Qed.

(** Back to a known state and forward again: whatever remains to be computed afterwards,
    it continues from the state of the period [k]. *)
Lemma back_forward_ok p b k fuel cache s v :
  m !! p = Some b -> Z.of_nat k * P - 1 <= nHeight b -> (k <= fuel)%nat -> cok cache -> inv s ->
  exists cache1 q1 v1 st1 cache2 s2,
    back_loop c m fuel cache (bnd p k) v = Some (cache1, q1, v1) /\ cache1 !! q1 = Some st1 /\
    forward_loop c m s cache1 st1 v1 = forward_loop c m s2 cache2 (pstate p k) v /\
    cok cache2 /\ inv s2.
Proof.
  intros Hp. pose proof lc_period. revert fuel v. induction k as [|k IH]; intros fuel v Hk Hf Hc Hs.
  { assert (forall f, back_loop c m f cache None v =
      match cache !! None with Some _ => Some (cache, None, v) | None => Some (<[None := THRESHOLD_DEFINED]> cache, None, v) end) as E
      by (intros [|f]; done).
    cbn [boundary period_state]. rewrite E. destruct (cache !! None) as [st|] eqn:Ec.
    - destruct (Hc None st Ec) as [-> _]. exists cache, None, v, THRESHOLD_DEFINED, cache, s. done.
    - exists (<[None := THRESHOLD_DEFINED]> cache), None, v, THRESHOLD_DEFINED, (<[None := THRESHOLD_DEFINED]> cache), s.
      split_and!; [done|by rewrite lookup_insert_eq|done| |done]. by apply (cache_insert cache p b 0). }
  destruct (boundary_ok p b k Hp Hk) as (q & bq & Eq & Hq & Hh). rewrite Eq.
  destruct fuel as [|fuel]; [lia|]. cbn [back_loop]. destruct (cache !! Some q) as [st|] eqn:Ec.
  { destruct (Hc (Some q) st Ec) as [-> _]. rewrite <- Eq, (state_after_boundary p b) in Ec by done. rewrite Eq in Ec.
    by exists cache, (Some q), v, (pstate p (S k)), cache, s. }
  destruct (GetMedianTimePast m q <? BeginTime c) eqn:Et; zbool.
  { pose proof (early_defined p b q (S k) Hp Hk Eq Et) as Ed. rewrite Ed.
    exists (<[Some q := THRESHOLD_DEFINED]> cache), (Some q), v, THRESHOLD_DEFINED, (<[Some q := THRESHOLD_DEFINED]> cache), s.
    split_and!; [done|by rewrite lookup_insert_eq|done| |done]. rewrite <- Eq, <- Ed. by apply (cache_insert cache p b). }
  rewrite Hq. cbn [mbind option_bind]. rewrite (boundary_prev p b q bq k) by done. cbn [mbind option_bind].
  destruct (IH fuel (q :: v) ltac:(nia) ltac:(lia) Hc Hs) as (c1 & q1 & v1 & st1 & c2 & s2 & E1 & E2 & E3 & Hc2 & Hs2).
  destruct (next_state_ok s2 q bq k (pstate p k) Hs2 Hq Hh) as (s3 & E4 & Hs3).
  exists c1, q1, v1, st1, (<[Some q := pstate p (S k)]> c2), s3. split_and!; [done|done| | |done].
  - rewrite E3. cbn [forward_loop]. rewrite E4. cbn [mbind option_bind period_state]. by rewrite Eq.
  - rewrite <- Eq. by apply (cache_insert c2 p b).
Qed.

Lemma period_parent_ok p b : m !! p = Some b -> period_parent c m p = Some (bnd p (periods P (nHeight b))).
Proof.
  intros Hb. pose proof lc_period. pose proof (wb_height _ _ _ (lc_index p b Hb)).
  unfold period_parent. rewrite Hb. cbn [mbind option_bind]. rewrite (proj2 (Z.eqb_neq _ _)) by lia.
  rewrite (GetAncestor_ok m p b) by (done || apply lc_index). f_equal. rewrite Z.rem_mod_nonneg by lia.
  assert (nHeight b - (nHeight b + 1) mod P = Z.of_nat (periods P (nHeight b)) * P - 1) as ->.
  { pose proof (Z.div_mod (nHeight b + 1) P ltac:(lia)). unfold periods.
    rewrite Z2Nat.id by (apply Z.div_pos; lia). lia. }
  destruct (periods P (nHeight b)); [|done]. unfold ancestor. rewrite Hb. by rewrite (proj2 (Z.leb_gt 0 _)) by lia.
Qed.

Lemma back_fuel_ok p b k : m !! p = Some b -> Z.of_nat k * P - 1 <= nHeight b -> (k <= back_fuel m (bnd p k))%nat.
Proof.
  intros Hb Hk. pose proof lc_period. destruct k as [|k]; [lia|].
  destruct (boundary_ok p b k Hb Hk) as (q & bq & -> & Hq & Hh). unfold back_fuel. rewrite Hq, Hh. nia.
Qed.

Lemma GetStateFor_ok s cache pindexPrev :
  cok cache -> inv s -> (forall p, pindexPrev = Some p -> is_Some (m !! p)) ->
  exists cache' s', GetStateFor c m s cache pindexPrev = Some (after pindexPrev, cache', s') /\ cok cache' /\ inv s'.
Proof.
  intros Hc Hs Hp. pose proof lc_period. unfold GetStateFor. destruct pindexPrev as [p|].
  2:{ cbn [mbind option_bind back_fuel]. cbn [back_loop]. destruct (cache !! None) as [st|] eqn:Ec.
      - cbn [mbind option_bind]. rewrite Ec. cbn. destruct (Hc None st Ec) as [-> _]. eauto.
      - cbn [mbind option_bind]. rewrite lookup_insert_eq. cbn. eexists _, s. split_and!; [done| |done].
        intros o st Ho. apply lookup_insert_Some in Ho as [[<- <-]|[_ Ho]]; [done|by apply Hc]. }
  destruct (Hp p eq_refl) as [b Hb]. pose proof (wb_height _ _ _ (lc_index p b Hb)) as H0.
  pose proof (periods_spec (nHeight b) H0) as Hk. set (k := periods P (nHeight b)) in *.
  unfold k. rewrite (period_parent_ok p b) by done. fold k.
  cbn [mbind option_bind].
  pose proof (back_fuel_ok p b k Hb ltac:(lia)) as Hf.
  destruct (back_forward_ok p b k _ cache s [] Hb ltac:(lia) Hf Hc Hs) as (c1 & q1 & v1 & st1 & c2 & s2 & E1 & E2 & E3 & ? & ?).
  rewrite E1. cbn [mbind option_bind]. rewrite E2. cbn [mbind option_bind]. rewrite E3. cbn [forward_loop].
  rewrite (state_after_ok p b) by done. eauto.
Qed.

Lemma since_loop_ok s cache p b k fuel :
  m !! p = Some b -> Z.of_nat (S k) * P - 1 <= nHeight b -> (k <= fuel)%nat -> cok cache -> inv s ->
  pstate p (S k) <> THRESHOLD_DEFINED ->
  exists q cache' s' k0, bnd p (S k) = Some q /\
    since_loop c m fuel (pstate p (S k)) s cache q = Some (Z.of_nat k0 * P, cache', s') /\
    (1 <= k0 <= S k)%nat /\ (forall j, (k0 <= j <= S k)%nat -> pstate p j = pstate p (S k)) /\
    pstate p (k0 - 1) <> pstate p (S k) /\ cok cache' /\ inv s'.
Proof.
  intros Hp. pose proof lc_period. revert s cache fuel.
  induction k as [|k IH]; intros s cache fuel Hk Hf Hc Hs Hst;
    destruct (boundary_ok p b _ Hp Hk) as (q & bq & Eq & Hq & Hh); exists q;
    pose proof (boundary_prev p b q bq _ Hp Hk Eq Hq) as Hprev.
  - exists cache, s, 1%nat. split; [done|]. split; [|split_and!; [lia..| |done|done|done]].
    + destruct fuel; cbn [since_loop]; rewrite Hq; cbn [mbind option_bind]; rewrite Hprev; cbn; do 3 f_equal; lia.
    + intros j Hj. by replace j with 1%nat by lia.
  - destruct (boundary_ok p b k Hp ltac:(nia)) as (r & br & Er & Hr & Hhr).
    destruct fuel as [|fuel]; [lia|]. cbn [since_loop]. rewrite Hq. cbn [mbind option_bind]. rewrite Hprev, Er.
    cbn [mbind option_bind].
    destruct (GetStateFor_ok s cache (Some r) Hc Hs) as (cache1 & s1 & -> & Hc1 & Hs1); [intros ? [= <-]; by eexists|].
    cbn [mbind option_bind]. rewrite <- Er, (state_after_boundary p b) by (done || nia). case_bool_decide as Hd.
    + rewrite <- Hd. destruct (IH s1 cache1 fuel ltac:(nia) ltac:(lia) Hc1 Hs1) as (r' & c' & s' & k0 & Er' & E & Hk0 & Hall & Hne & ? & ?);
        [by rewrite Hd|]. assert (r' = r) as -> by congruence. exists c', s', k0.
      split_and!; [done|done|lia|lia| |done..]. intros j Hj. destruct (decide (j = S (S k))) as [->|]; [done|].
      apply Hall. lia.
    + exists cache1, s1, (S (S k)). split_and!; [done|do 3 f_equal; lia|lia|lia| | |done..].
      * intros j Hj. by replace j with (S (S k)) by lia.
      * by replace (S (S k) - 1)%nat with (S k) by lia.
Qed.

(** [GetStateSinceHeightFor]: the first height of the run of periods in the present state. *)
Lemma GetStateSinceHeightFor_ok s cache p b :
  m !! p = Some b -> cok cache -> inv s ->
  let k := periods P (nHeight b) in
  exists k0 cache' s',
    GetStateSinceHeightFor c m s cache (Some p) = Some (Z.of_nat k0 * P, cache', s') /\ cok cache' /\ inv s' /\
    (pstate p k = THRESHOLD_DEFINED -> k0 = 0%nat) /\
    (pstate p k <> THRESHOLD_DEFINED -> (1 <= k0 <= k)%nat /\
       (forall j, (k0 <= j <= k)%nat -> pstate p j = pstate p k) /\ pstate p (k0 - 1) <> pstate p k).
Proof.
  intros Hp Hc Hs k. unfold GetStateSinceHeightFor. pose proof (wb_height _ _ _ (lc_index p b Hp)) as H0.
  destruct (GetStateFor_ok s cache (Some p) Hc Hs) as (c1 & s1 & -> & Hc1 & Hs1); [intros ? [= <-]; by eexists|].
  cbn [mbind option_bind]. rewrite (state_after_ok p b) by done. fold k. case_bool_decide as Hd.
  { exists 0%nat, c1, s1. split_and!; [done..|by intros []]. }
  unfold k. rewrite (period_parent_ok p b) by done. fold k. cbn [mbind option_bind].
  pose proof (periods_spec (nHeight b) H0) as [Hk _]. fold k in Hk.
  pose proof (back_fuel_ok p b k Hp Hk) as Hf. destruct k as [|k]; [done|].
  destruct (since_loop_ok s1 c1 p b k (back_fuel m (bnd p (S k))) Hp Hk ltac:(lia) Hc1 Hs1 Hd)
    as (q & c2 & s2 & k0 & Eq & E & H1 & H2 & H3 & H4 & H5).
  exists k0, c2, s2. rewrite Eq in *. cbn [mbind option_bind]. rewrite E. done.
Qed.

(** Once the timeout has passed at the end of a period, or the deployment is active, nothing changes. *)
Definition final (st : ThresholdState) : Prop := st = THRESHOLD_ACTIVE \/ st = THRESHOLD_FAILED.

Lemma period_state_final p k j : (k <= j)%nat -> final (pstate p k) ->
  (forall i, (k < i <= j)%nat -> is_Some (bnd p i)) -> pstate p j = pstate p k.
Proof.
  intros Hj Hf. induction Hj as [|j Hj IH]; [done|]. intros Hb. cbn [period_state].
  destruct (Hb (S j) ltac:(lia)) as [q ->]. rewrite IH by (intros i Hi; apply Hb; lia).
  by destruct Hf as [-> | ->].
Qed.

Lemma timeout_final p k q : bnd p (S k) = Some q -> EndTime c <= GetMedianTimePast m q -> final (pstate p (S k)).
Proof.
  intros Eq Ht. cbn [period_state]. rewrite Eq. unfold final. destruct (pstate p k); cbn [transition];
    rewrite ?(proj2 (Z.leb_le _ _)) by done; auto.
Qed.

Lemma boundary_some p b i : m !! p = Some b -> Z.of_nat i * P - 1 <= nHeight b -> (1 <= i)%nat -> is_Some (bnd p i).
Proof.
  intros Hp Hi H1. destruct i as [|i]; [lia|]. destruct (boundary_ok p b i Hp Hi) as (q & _ & -> & _). by eexists.
Qed.
End Lawful.

(** ** Deployments *)

Section Deployments.
Context (params : BIP9Params) (m : BlockMap).

Abbreviation checker d := (VersionBitsConditionChecker params d) (only parsing).

(** A deployment with a period of at least one block and a start no later than its timeout. *)
Definition deployment_ok (d : BIP9Deployment) : Prop :=
  1 <= Period (checker d) /\ BeginTime (checker d) <= EndTime (checker d).

#[local] Instance deployment_lawful d :
  wf_index m -> time_rule m -> deployment_ok d -> LawfulChecker m (checker d) (fun _ => True) (bits_Condition d).
Proof. intros W T [H1 H2]. split; [done..|]. intros [] p b _ _. by exists tt. Qed.

Definition deployment_state (d : BIP9Deployment) (pindexPrev : option ptr) : ThresholdState :=
  state_after m (BeginTime (checker d)) (EndTime (checker d)) (Period (checker d)) (Threshold (checker d))
    (bits_Condition d) pindexPrev.

Definition caches_ok (caches : list ThresholdConditionCache) : Prop :=
  Forall2 (fun d cache => cache_ok m (BeginTime (checker d)) (EndTime (checker d)) (Period (checker d)) (Threshold (checker d))
             (bits_Condition d) cache) (vDeployments params) caches.

Record setting_ok : Prop := {
  so_index : wf_index m;
  so_times : time_rule m;
  so_deployments : Forall deployment_ok (vDeployments params);
}.

Definition in_index (pindexPrev : option ptr) : Prop := forall p, pindexPrev = Some p -> is_Some (m !! p).

Lemma VersionBitsState_ok caches pindexPrev pos d :
  setting_ok -> caches_ok caches -> in_index pindexPrev -> vDeployments params !! pos = Some d ->
  exists caches', VersionBitsState params m caches pindexPrev pos = Some (deployment_state d pindexPrev, caches')
    /\ caches_ok caches' /\ forall i, i <> pos -> caches' !! i = caches !! i.
Proof.
  intros [W T Hds] Hc Hin Hd. destruct (Forall2_lookup_l _ _ _ _ _ Hc Hd) as (cache & Ec & Hok).
  pose proof (Forall_lookup_1 _ _ _ _ Hds Hd) as Hdo. pose proof (deployment_lawful d W T Hdo) as HL.
  unfold VersionBitsState. rewrite Hd. cbn [mbind option_bind]. rewrite Ec. cbn [mbind option_bind].
  destruct (GetStateFor_ok m (checker d) _ _ tt cache pindexPrev Hok I Hin) as (cache' & [] & -> & Hok' & _).
  cbn [mbind option_bind]. eexists. split; [done|]. split.
  - unfold caches_ok. rewrite <- (list_insert_id _ _ _ Hd). by apply Forall2_insert.
  - intros i Hi. by rewrite list_lookup_insert_ne.
Qed.

Lemma caches_Clear_ok caches : length caches = length (vDeployments params) -> caches_ok (caches_Clear caches).
Proof.
  intros Hl. apply Forall2_same_length_lookup_2.
  - unfold caches_Clear. by rewrite length_map.
  - intros i d cache _ Hc. unfold caches_Clear in Hc. apply list_lookup_fmap_Some in Hc as (? & -> & _). intros o st Ho. done.
Qed.

(** *** The version of a new block *)

(** The deployment signals: it is started or locked in. *)
Definition signalling (d : BIP9Deployment) (pindexPrev : option ptr) : bool :=
  bool_decide (deployment_state d pindexPrev = THRESHOLD_LOCKED_IN)
  || bool_decide (deployment_state d pindexPrev = THRESHOLD_STARTED).

Definition bits_ok : Prop := Forall (fun d => 0 <= bit d < VERSIONBITS_NUM_BITS) (vDeployments params).

Lemma Mask_bit d : 0 <= bit d < VERSIONBITS_NUM_BITS -> bits_Mask d = 2 ^ bit d /\ 0 <= bits_Mask d < 2 ^ 29.
Proof.
  intros Hb. unfold bits_Mask, VERSIONBITS_NUM_BITS in *. rewrite Z.shiftl_1_l.
  assert (0 < 2 ^ bit d < 2 ^ 29) by (split; [apply Z.pow_pos_nonneg; lia|apply Z.pow_lt_mono_r; lia]).
  rewrite wrap_small by (unfold in_u; lia). lia.
Qed.

Lemma lor_version v d : 0 <= v < 2 ^ 30 -> 0 <= bit d < VERSIONBITS_NUM_BITS ->
  i32 (Z.lor (u32 v) (bits_Mask d)) = Z.lor v (2 ^ bit d) /\ 0 <= Z.lor v (2 ^ bit d) < 2 ^ 30.
Proof.
  intros Hv Hb. destruct (Mask_bit d Hb) as [-> Hm]. rewrite wrap_small by (unfold in_u; lia).
  assert (0 <= Z.lor v (2 ^ bit d) < 2 ^ 30) as Hl.
  { split; [apply Z.lor_nonneg; lia|]. pose proof (Z.lor_nonneg v (2 ^ bit d)).
    assert (Z.lor v (2 ^ bit d) = 0 \/ 0 < Z.lor v (2 ^ bit d)) as [->|Hpos] by lia; [lia|].
    apply Z.log2_lt_pow2; [lia|]. rewrite Z.log2_lor by lia. unfold VERSIONBITS_NUM_BITS in Hb.
    rewrite Z.log2_pow2 by lia. assert (Z.log2 v < 30); [|lia].
    destruct (Z.eq_dec v 0) as [->|]; [cbn; lia|]. apply Z.log2_lt_pow2; lia. }
  split; [|done]. apply swrap_small; [lia|]. unfold in_s. lia.
Qed.

Lemma version_loop_ok pindexPrev ds pos v caches :
  setting_ok -> bits_ok -> in_index pindexPrev -> drop pos (vDeployments params) = ds ->
  caches_ok caches -> 0 <= v < 2 ^ 30 ->
  exists v' caches', version_loop params m (seq pos (length ds)) pindexPrev v caches = Some (v', caches')
    /\ caches_ok caches' /\ 0 <= v' < 2 ^ 30
    /\ forall i, 0 <= i -> Z.testbit v' i = Z.testbit v i || existsb (fun d => (bit d =? i) && signalling d pindexPrev) ds.
Proof.
  intros Hset Hbits Hin. revert pos v caches. induction ds as [|d ds IH]; intros pos v caches Hdr Hc Hv.
  { exists v, caches. split_and!; [done|done|lia|lia|]. intros i Hi. by rewrite orb_false_r. }
  assert (vDeployments params !! pos = Some d) as Hd by (rewrite <- (Nat.add_0_r pos), <- lookup_drop; by rewrite Hdr).
  assert (drop (S pos) (vDeployments params) = ds) as Hdr'.
  { rewrite <- Nat.add_1_r, <- drop_drop, Hdr. done. }
  pose proof (Forall_lookup_1 _ _ _ _ Hbits Hd) as Hb. lazy beta in Hb.
  destruct (VersionBitsState_ok caches pindexPrev pos d Hset Hc Hin Hd) as (c1 & E & Hc1 & _).
  cbn [length seq version_loop]. rewrite E. cbn [mbind option_bind existsb].
  change (bool_decide _ || bool_decide _) with (signalling d pindexPrev).
  destruct (signalling d pindexPrev).
  - unfold VersionBitsMask. rewrite Hd. cbn [fmap option_fmap option_map mbind option_bind].
    destruct (lor_version v d Hv Hb) as [-> Hv'].
    destruct (IH (S pos) (Z.lor v (2 ^ bit d)) c1 Hdr' Hc1 Hv') as (v' & c' & E' & Hc' & Hr & Ht).
    exists v', c'. split_and!; [done|done|lia|lia|]. intros i Hi. rewrite Ht by done. rewrite Z.lor_spec, andb_true_r.
    rewrite Z.pow2_bits_eqb by lia. by rewrite orb_assoc.
  - destruct (IH (S pos) v c1 Hdr' Hc1 Hv) as (v' & c' & E' & Hc' & Hr & Ht).
    exists v', c'. split_and!; [done|done|lia|lia|]. intros i Hi. rewrite Ht by done. by rewrite andb_false_r.
Qed.

Lemma ComputeBlockVersion_ok caches pindexPrev :
  setting_ok -> bits_ok -> in_index pindexPrev -> caches_ok caches ->
  exists v caches', ComputeBlockVersion params m caches pindexPrev = Some (v, caches') /\ caches_ok caches'
    /\ 0 <= v < 2 ^ 30
    /\ forall i, 0 <= i -> Z.testbit v i = (i =? 29) || existsb (fun d => (bit d =? i) && signalling d pindexPrev) (vDeployments params).
Proof.
  intros Hset Hb Hin Hc. unfold ComputeBlockVersion.
  destruct (version_loop_ok pindexPrev (vDeployments params) 0 VERSIONBITS_TOP_BITS caches Hset Hb Hin (drop_0 _) Hc) as (v & c' & E & H1 & H2 & H3);
    [by vm_compute|].
  exists v, c'. split_and!; [done|done|lia|lia|]. intros i Hi. rewrite H3 by done. f_equal.
  change VERSIONBITS_TOP_BITS with (2 ^ 29). rewrite Z.pow2_bits_eqb by lia. apply Z.eqb_sym.
Qed.

(** *** Unknown bits: the checker that calls [ComputeBlockVersion] is lawful too *)

Definition warning_Condition (nbit : Z) (b : CBlockIndex) : bool :=
  (Z.land (nVersion b) VERSIONBITS_TOP_MASK =? VERSIONBITS_TOP_BITS) && Z.testbit (nVersion b) nbit
  && negb ((nbit =? 29) || existsb (fun d => (bit d =? nbit) && signalling d (pprev b)) (vDeployments params)).

Lemma land_shiftr_bit v n : 0 <= n -> (Z.land (Z.shiftr v n) 1 =? 0) = negb (Z.testbit v n).
Proof.
  intros Hn. rewrite <- (Z.add_0_l n) at 2. rewrite <- Z.shiftr_spec by lia. change 1 with (Z.shiftl 1 0).
  rewrite <- land_pow2_testbit by lia. by rewrite negb_involutive.
Qed.

Lemma warning_lawful nbit :
  setting_ok -> bits_ok -> 0 <= nbit -> 1 <= i32 (nMinerConfirmationWindow params) ->
  LawfulChecker m (WarningBitsConditionChecker params m nbit) caches_ok (warning_Condition nbit).
Proof.
  intros Hset Hb Hn HP. pose proof Hset as [W T _]. split; [done|done|done| |].
  { cbn. unfold int64_max. lia. }
  intros caches p b Hc Hp. cbn [Condition WarningBitsConditionChecker]. unfold warning_Condition.
  rewrite land_shiftr_bit, negb_involutive by done.
  destruct ((Z.land _ _ =? _) && Z.testbit (nVersion b) nbit); [|by exists caches].
  destruct (ComputeBlockVersion_ok caches (pprev b) Hset Hb) as (v & c' & -> & Hc' & _ & Ht); [|done|].
  { intros q Hq. destruct (wb_prev _ _ _ (W p b Hp) q Hq) as (bq & ? & _). by eexists. }
  cbn [mbind option_bind]. rewrite land_shiftr_bit by done. rewrite Ht by done. by exists c'.
Qed.
End Deployments.

(** ** Properties *)

Abbreviation dperiod params d := (Period (VersionBitsConditionChecker params d)) (only parsing).
Abbreviation dstate params m d p k := (period_state m (nStartTime d) (nTimeout d) (dperiod params d)
  (Threshold (VersionBitsConditionChecker params d)) (bits_Condition d) p k) (only parsing).

(** C32: VersionBitsState never fails and returns the state that BIP 9 defines for the
    block after [pindexPrev], by recursion over the confirmation periods from genesis,
    although it stops at cached states and at the first block before the start time; the
    caches stay correct, and only the cache of the deployment changes. *)
Theorem VersionBitsState_correct params m caches pindexPrev pos d :
  setting_ok params m -> caches_ok params m caches -> in_index m pindexPrev -> vDeployments params !! pos = Some d ->
  exists caches',
    VersionBitsState params m caches pindexPrev pos = Some (deployment_state params m d pindexPrev, caches')
    /\ caches_ok params m caches' /\ (forall i, i <> pos -> caches' !! i = caches !! i).
Proof. apply VersionBitsState_ok. Qed.

(** Every deployment is resolved. Let [q] end the period number [S j] of the chain of [p].
    When the median time past of [q] has reached the timeout, every later block finds the deployment
    active or failed. When the deployment was started before that period, the timeout is still
    ahead and enough blocks of the period signal, every block that comes at least one period
    later finds it active. *)
Theorem deployment_resolves params m caches pos d p b j q :
  setting_ok params m -> caches_ok params m caches -> vDeployments params !! pos = Some d ->
  m !! p = Some b -> Z.of_nat (S j) * dperiod params d - 1 <= nHeight b -> boundary m (dperiod params d) p (S j) = Some q ->
  exists st caches', VersionBitsState params m caches (Some p) pos = Some (st, caches') /\
    (nTimeout d <= GetMedianTimePast m q -> st = THRESHOLD_ACTIVE \/ st = THRESHOLD_FAILED) /\
    (dstate params m d p j = THRESHOLD_STARTED -> GetMedianTimePast m q < nTimeout d ->
     Threshold (VersionBitsConditionChecker params d) <= signals m (bits_Condition d) (Z.to_nat (dperiod params d)) (Some q) ->
     Z.of_nat (S (S j)) * dperiod params d - 1 <= nHeight b -> st = THRESHOLD_ACTIVE).
Proof.
  intros Hset Hc Hd Hp Hj Eq. pose proof Hset as [W T Hds]. pose proof (Forall_lookup_1 _ _ _ _ Hds Hd) as Hdo.
  pose proof (deployment_lawful params m d W T Hdo) as HL. pose proof Hdo as [HP _].
  destruct (VersionBitsState_ok params m caches (Some p) pos d Hset Hc ltac:(by intros ? [= <-]) Hd) as (c' & -> & _).
  exists (deployment_state params m d (Some p)), c'. split; [done|].
  unfold deployment_state. erewrite state_after_ok by done.
  pose proof (periods_spec m _ _ _ (nHeight b) (wb_height _ _ _ (W p b Hp))) as Hk.
  set (k := periods _ (nHeight b)) in *.
  assert (forall i, (1 <= i <= k)%nat -> is_Some (boundary m (dperiod params d) p i)) as Hbs.
  { intros i Hi. apply (boundary_some m _ _ _ p b i Hp); [nia|lia]. }
  split.
  - intros Ht. pose proof (timeout_final m (VersionBitsConditionChecker params d) (bits_Condition d) p j q Eq Ht) as Hf.
    rewrite (period_state_final m (VersionBitsConditionChecker params d) (bits_Condition d) p (S j) k); [exact Hf|nia|exact Hf|].
    intros i Hi. apply Hbs. lia.
  - intros Hs Ht Hn Hh. assert (dstate params m d p (S j) = THRESHOLD_LOCKED_IN) as Hl.
    { cbn [period_state]. rewrite Eq, Hs. cbn [transition]. by rewrite (proj2 (Z.leb_gt _ _)), (proj2 (Z.leb_le _ _)). }
    assert (dstate params m d p (S (S j)) = THRESHOLD_ACTIVE) as Ha.
    { cbn [period_state]. destruct (Hbs (S (S j)) ltac:(nia)) as [r Er]. rewrite Er. cbn [period_state] in Hl. by rewrite Hl. }
    rewrite (period_state_final m (VersionBitsConditionChecker params d) (bits_Condition d) p (S (S j)) k); [exact Ha|nia|left; exact Ha|].
    intros i Hi. apply Hbs. lia.
Qed.

(** VersionBitsStateSinceHeight is the first height of the present state: zero for a
    defined deployment, otherwise the first block of the first period of the run of
    periods in that state. *)
Theorem VersionBitsStateSinceHeight_correct params m caches pos d p b :
  setting_ok params m -> caches_ok params m caches -> vDeployments params !! pos = Some d -> m !! p = Some b ->
  let k := periods (dperiod params d) (nHeight b) in
  exists k0 caches', VersionBitsStateSinceHeight params m caches (Some p) pos = Some (Z.of_nat k0 * dperiod params d, caches') /\
    (dstate params m d p k = THRESHOLD_DEFINED -> k0 = 0%nat) /\
    (dstate params m d p k <> THRESHOLD_DEFINED ->
       (1 <= k0 <= k)%nat /\ (forall j, (k0 <= j <= k)%nat -> dstate params m d p j = dstate params m d p k)
       /\ dstate params m d p (k0 - 1) <> dstate params m d p k).
Proof.
  intros [W T Hds] Hc Hd Hp k. destruct (Forall2_lookup_l _ _ _ _ _ Hc Hd) as (cache & Ec & Hok).
  pose proof (deployment_lawful params m d W T (Forall_lookup_1 _ _ _ _ Hds Hd)) as HL.
  destruct (GetStateSinceHeightFor_ok m _ _ _ tt cache p b Hp Hok I) as (k0 & c' & [] & E & _ & _ & H1 & H2).
  exists k0, (<[pos := c']> caches). split; [|by split].
  unfold VersionBitsStateSinceHeight. rewrite Hd. cbn [mbind option_bind]. rewrite Ec. cbn [mbind option_bind]. by rewrite E.
Qed.

(** The version of a new block carries the version bits marker and exactly the bits of the
    deployments that are started or locked in after [pindexPrev]. *)
Theorem ComputeBlockVersion_correct params m caches pindexPrev :
  setting_ok params m -> bits_ok params -> in_index m pindexPrev -> caches_ok params m caches ->
  exists v caches', ComputeBlockVersion params m caches pindexPrev = Some (v, caches') /\ caches_ok params m caches'
    /\ Z.land v VERSIONBITS_TOP_MASK = VERSIONBITS_TOP_BITS
    /\ forall i, 0 <= i < VERSIONBITS_NUM_BITS ->
         Z.testbit v i = true <-> exists d, d ∈ vDeployments params /\ bit d = i
           /\ (deployment_state params m d pindexPrev = THRESHOLD_STARTED \/ deployment_state params m d pindexPrev = THRESHOLD_LOCKED_IN).
Proof.
  intros Hset Hb Hin Hc. destruct (ComputeBlockVersion_ok params m caches pindexPrev Hset Hb Hin Hc) as (v & c' & -> & Hc' & Hr & Ht).
  exists v, c'. split_and!; [done|done| |].
  - apply Z.bits_inj'. intros n Hn. rewrite Z.land_spec, Ht by done.
    destruct (decide (n < 29)).
    { assert (Z.testbit VERSIONBITS_TOP_MASK n = false /\ Z.testbit VERSIONBITS_TOP_BITS n = false) as [-> ->]; [|by rewrite andb_false_r].
      change VERSIONBITS_TOP_MASK with (Z.lnot (Z.ones 29)). change VERSIONBITS_TOP_BITS with (2 ^ 29).
      rewrite Z.lnot_spec, Z.ones_spec_low, Z.pow2_bits_false by lia. done. }
    change VERSIONBITS_TOP_MASK with (Z.lnot (Z.ones 29)). change VERSIONBITS_TOP_BITS with (2 ^ 29).
    rewrite Z.lnot_spec, Z.ones_spec_high, Z.pow2_bits_eqb by lia. cbn [negb]. rewrite andb_true_r, (Z.eqb_sym 29).
    destruct (n =? 29) eqn:E; [done|]. cbn [orb]. zbool. apply not_true_iff_false. rewrite existsb_exists. intros (d & Hd & Hx). apply list_elem_of_In in Hd.
    pose proof (proj1 (Forall_forall _ _) Hb d Hd) as Hbd. unfold VERSIONBITS_NUM_BITS in Hbd. lazy beta in Hbd.
    zbool. lia.
  - intros i Hi. unfold VERSIONBITS_NUM_BITS in Hi. rewrite Ht, (proj2 (Z.eqb_neq i 29)) by lia. cbn [orb].
    rewrite existsb_exists. unfold signalling. split.
    + intros (d & Hd & Hx). apply andb_true_iff in Hx as [Hx Hy]. zbool. exists d. rewrite list_elem_of_In. split_and!; [done..|].
      apply orb_true_iff in Hy as [Hy|Hy]; apply bool_decide_eq_true in Hy; auto.
    + intros (d & Hd & Hx & Hy). exists d. rewrite <- list_elem_of_In. split; [done|].
      rewrite (proj2 (Z.eqb_eq _ _)) by done. apply orb_true_iff.
      destruct Hy as [-> | ->]; [right|left]; by apply bool_decide_eq_true.
Qed.

(** *** Witnesses: eleven blocks that signal, in periods of three *)

Definition bits_blocks : list CBlockHeader :=
  map (fun i => {| hd_nVersion := 0x20000001; hd_hashPrevBlock := i - 1; hd_hashMerkleRoot := 0; hd_nTime := 1000 + 60 * i;
                   hd_nBits := 0x1d00ffff; hd_nNonce := i |}) [1; 2; 3; 4; 5; 6; 7; 8; 9; 10; 11].
Definition bits_state : ChainState := foldl grow init_state bits_blocks.
Definition bits_map : BlockMap := mapBlockIndex bits_state.
Definition bits_params : BIP9Params :=
  {| nRuleChangeActivationThreshold := 2; nMinerConfirmationWindow := 3;
     vDeployments := [{| bit := 0; nStartTime := 0; nTimeout := 9999; nWindowSize := 0; nThreshold := 0 |};
                      {| bit := 1; nStartTime := 1; nTimeout := 1200; nWindowSize := 0; nThreshold := 3 |}] |}.

Lemma bits_setting : setting_ok bits_params bits_map.
Proof.
  split.
  - apply inv_index, (reachable_inv toy_hash). unfold bits_state, bits_blocks. cbn [map foldl].
    repeat (apply grow_reachable; [|split; [by unfold in_u|done]]). apply reach_init.
  - intros p b q Hp Hq.
    assert (map_Forall (fun _ b => (match pprev b with
            | Some q => GetMedianTimePast bits_map q <? nTime b | None => true end) = true) bits_map) as H.
    { apply (bool_decide_unpack _). vm_compute. exact I. }
    pose proof (H p b Hp) as Hb. lazy beta in Hb. rewrite Hq in Hb. by apply Z.ltb_lt.
  - unfold bits_params, vDeployments. apply Forall_cons. split; [by split; vm_compute|].
    apply Forall_singleton. by split; vm_compute.
Qed.

Lemma bits_caches : caches_ok bits_params bits_map [∅; ∅].
Proof. apply (caches_Clear_ok bits_params bits_map [∅; ∅]). done. Qed.

Definition bits_block (p : ptr) : CBlockIndex := default (CBlockIndex_of (toy_header 0 0 0)) (bits_map !! p).
Lemma bits_lookup p :
  (match bits_map !! p with Some _ => true | None => false end) = true -> bits_map !! p = Some (bits_block p).
Proof. intros H. unfold bits_block. by destruct (bits_map !! p). Qed.

Lemma VersionBitsState_correct_witness : exists caches',
  VersionBitsState bits_params bits_map [∅; ∅] (Some 11) 0 = Some (THRESHOLD_ACTIVE, caches').
Proof.
  destruct (VersionBitsState_correct bits_params bits_map [∅; ∅] (Some 11) 0 _ bits_setting bits_caches
    ltac:(intros ? [= <-]; eexists; exact (bits_lookup 11 ltac:(vm_compute; reflexivity))) ltac:(reflexivity)) as (c' & H & _).
  exists c'. rewrite H. vm_compute. reflexivity.
Defined.

Lemma deployment_resolves_witness : exists st caches',
  VersionBitsState bits_params bits_map [∅; ∅] (Some 9) 0 = Some (st, caches') /\ st = THRESHOLD_ACTIVE.
Proof.
  destruct (deployment_resolves bits_params bits_map [∅; ∅] 0 _ 9 (bits_block 9) 1 6 bits_setting bits_caches
    ltac:(reflexivity) (bits_lookup 9 ltac:(vm_compute; reflexivity)) ltac:(vm_compute; discriminate) ltac:(vm_compute; reflexivity))
    as (st & c' & H & _ & Ha).
  exists st, c'. split; [exact H|]. apply Ha; vm_compute; (reflexivity || discriminate).
Defined.

Lemma VersionBitsStateSinceHeight_correct_witness : exists k0 caches',
  VersionBitsStateSinceHeight bits_params bits_map [∅; ∅] (Some 11) 1 = Some (Z.of_nat k0 * 3, caches') /\ (1 <= k0 <= 3)%nat.
Proof.
  destruct (VersionBitsStateSinceHeight_correct bits_params bits_map [∅; ∅] 1 _ 11 (bits_block 11) bits_setting bits_caches
    ltac:(reflexivity) (bits_lookup 11 ltac:(vm_compute; reflexivity))) as (k0 & c' & H & _ & Ha).
  exists k0, c'. split; [exact H|]. exact (proj1 (Ha ltac:(vm_compute; discriminate))).
Defined.

Lemma ComputeBlockVersion_correct_witness : exists v caches',
  ComputeBlockVersion bits_params bits_map [∅; ∅] (Some 2) = Some (v, caches') /\
  Z.land v VERSIONBITS_TOP_MASK = VERSIONBITS_TOP_BITS.
Proof.
  destruct (ComputeBlockVersion_correct bits_params bits_map [∅; ∅] (Some 2) bits_setting
    ltac:(unfold bits_ok, bits_params, vDeployments; apply Forall_cons; split; [vm_compute; intuition discriminate|apply Forall_singleton; vm_compute; intuition discriminate])
    ltac:(intros ? [= <-]; eexists; exact (bits_lookup 2 ltac:(vm_compute; reflexivity))) bits_caches) as (v & c' & H & _ & Ha & _).
  exists v, c'. exact (conj H Ha).
Defined.
