(* ===== verification/Merkle.v ===== *)
(** * Merkle trees (consensus/merkle.cpp)

    [MerkleComputation] computes the root, the mutation flag and a branch in one pass over
    the leaves with an array of 32 subtree hashes. It is modelled with its array, its bit
    tests and its loops, and shown to compute the tree that is defined level by level.
    Hashes are 256-bit integers; [Hash] is the double SHA-256 of the concatenation of two
    hashes ([CHash256().Write(a).Write(b)] and [Hash(BEGIN(a), END(a), BEGIN(b), END(b))]). *)

From stdpp Require Import list.
From S2P Require Import Prelude.


Section Merkle.

Variable Hash : Z -> Z -> Z.

(** The local variables of [MerkleComputation] that its loops change. *)
Record Walk := {
  level : nat;
  h : Z;
  matchh : bool;
  mutated : bool;
  pbranch : list Z;
}.

(** [!(count & (((uint32_t)1) << level))] *)
Definition bit_clear (count : Z) (level : nat) : bool := Z.land count (u32 (Z.shiftl 1 (Z.of_nat level))) =? 0.

(** The body of the loop that combines [h] with [inner[level]]; [want] is [pbranch != NULL],
    [check] whether [mutated] is updated. *)
Definition combine_step (want check : bool) (inner : list Z) (matchlevel : Z) (w : Walk) : Walk :=
  let x := inner !!! level w in
  let push := want && matchh w in
  let found := want && negb (matchh w) && (matchlevel =? Z.of_nat (level w)) in
  {| level := S (level w);
     h := Hash x (h w);
     matchh := matchh w || found;
     mutated := mutated w || (check && (x =? h w));
     pbranch := if push then pbranch w ++ [x] else if found then pbranch w ++ [h w] else pbranch w |}.

Fixpoint combine_loop (fuel : nat) (want check : bool) (count : Z) (inner : list Z) (matchlevel : Z) (w : Walk) : option Walk :=
  if bit_clear count (level w) then
    match fuel with
    | O => None
    | S fuel => combine_loop fuel want check count inner matchlevel (combine_step want check inner matchlevel w)
    end
  else Some w.

(** The state of the loop over the leaves. *)
Record Leaves := {
  count : Z;
  inner : list Z;
  matchlevel : Z;
  lmutated : bool;
  lbranch : list Z;
}.

Definition leaf_step (want : bool) (branchpos : Z) (st : Leaves) (leaf : Z) : option Leaves :=
  let is_match := count st =? branchpos in
  let count' := u32 (count st + 1) in
  w ← combine_loop 32 want true count' (inner st) (matchlevel st)
        {| level := 0; h := leaf; matchh := is_match; mutated := lmutated st; pbranch := lbranch st |};
  Some {| count := count';
          inner := <[level w := h w]> (inner st);
          matchlevel := if matchh w then Z.of_nat (level w) else matchlevel st;
          lmutated := mutated w;
          lbranch := pbranch w |}.

Fixpoint leaves_loop (want : bool) (branchpos : Z) (st : Leaves) (leaves : list Z) : option Leaves :=
  match leaves with
  | [] => Some st
  | leaf :: leaves => st ← leaf_step want branchpos st leaf; leaves_loop want branchpos st leaves
  end.

(** [while (!(count & (((uint32_t)1) << level))) level++;] *)
Fixpoint skip_levels (fuel : nat) (count : Z) (level : nat) : option nat :=
  if bit_clear count level then
    match fuel with O => None | S fuel => skip_levels fuel count (S level) end
  else Some level.

(** The final sweep. *)
Fixpoint sweep_loop (fuel : nat) (want : bool) (inner : list Z) (matchlevel : Z) (count : Z) (w : Walk) : option Walk :=
  let top := u32 (Z.shiftl 1 (Z.of_nat (level w))) in
  if negb (count =? top) then
    match fuel with
    | O => None
    | S fuel =>
        let branch := if want && matchh w then pbranch w ++ [h w] else pbranch w in
        let count' := u32 (count + top) in
        w ← combine_loop 32 want false count' inner matchlevel
              {| level := S (level w); h := Hash (h w) (h w); matchh := matchh w; mutated := mutated w; pbranch := branch |};
        sweep_loop fuel want inner matchlevel count' w
    end
  else Some w.

(** Root, mutation flag and branch. *)
Definition MerkleComputation (want : bool) (leaves : list Z) (branchpos : Z) : option (Z * bool * list Z) :=
  if (length leaves =? 0)%nat then Some (0, false, [])
  else
    st ← leaves_loop want branchpos
           {| count := 0; inner := replicate 32 0; matchlevel := -1; lmutated := false; lbranch := [] |} leaves;
    level ← skip_levels 32 (count st) 0;
    w ← sweep_loop 32 want (inner st) (matchlevel st) (count st)
          {| level := level; h := inner st !!! level; matchh := matchlevel st =? Z.of_nat level;
             mutated := lmutated st; pbranch := lbranch st |};
    Some (h w, mutated w, pbranch w).

Definition ComputeMerkleRoot (leaves : list Z) : option (Z * bool) :=
  '(root, mutated, _) ← MerkleComputation false leaves (u32 (-1));
  Some (root, mutated).

Definition ComputeMerkleBranch (leaves : list Z) (position : Z) : option (list Z) :=
  '(_, _, branch) ← MerkleComputation true leaves position;
  Some branch.

Fixpoint ComputeMerkleRootFromBranch (hash : Z) (vMerkleBranch : list Z) (nIndex : Z) : Z :=
  match vMerkleBranch with
  | [] => hash
  | it :: vMerkleBranch =>
      let hash := if negb (Z.land nIndex 1 =? 0) then Hash it hash else Hash hash it in
      ComputeMerkleRootFromBranch hash vMerkleBranch (Z.shiftr nIndex 1)
  end.

(** [BlockMerkleRoot] and [BlockMerkleBranch] on the transaction hashes of a block. *)
Definition BlockMerkleRoot {T} (GetHash : T -> Z) (vtx : list T) : option (Z * bool) := ComputeMerkleRoot (map GetHash vtx).
Definition BlockMerkleBranch {T} (GetHash : T -> Z) (vtx : list T) (position : Z) : option (list Z) :=
  ComputeMerkleBranch (map GetHash vtx) position.

End Merkle.

(** ** The tree, level by level *)

Section Tree.
Variable Hash : Z -> Z -> Z.

(** The next level: pairs, the last hash of an odd level paired with itself. *)
Fixpoint pair_up (l : list Z) : list Z :=
  match l with
  | a :: b :: l => Hash a b :: pair_up l
  | [a] => [Hash a a]
  | [] => []
  end.

(** Without the odd one. *)
Fixpoint full_pairs (l : list Z) : list Z :=
  match l with a :: b :: l => Hash a b :: full_pairs l | _ => [] end.

(** A pair of equal hashes. *)
Fixpoint equal_pair (l : list Z) : bool :=
  match l with a :: b :: l => (a =? b) || equal_pair l | _ => false end.

Fixpoint tree_root (depth : nat) (l : list Z) : Z :=
  match l with
  | [] => 0
  | [x] => x
  | _ => match depth with O => 0 | S depth => tree_root depth (pair_up l) end
  end.

(** Two complete subtrees that are siblings are equal. *)
Fixpoint tree_mutated (depth : nat) (l : list Z) : bool :=
  match depth with O => false | S depth => equal_pair l || tree_mutated depth (full_pairs l) end.

(** The sibling of position [pos]. *)
Definition sibling (l : list Z) (pos : nat) : Z :=
  if Nat.odd pos then l !!! (pos - 1)%nat else default (l !!! pos) (l !! S pos).

Fixpoint tree_branch (depth : nat) (l : list Z) (pos : nat) : list Z :=
  match depth with
  | O => []
  | S depth => if (length l <=? 1)%nat then [] else sibling l pos :: tree_branch depth (pair_up l) (pos / 2)
  end.

Lemma pair_ind (P : list Z -> Prop) :
  P [] -> (forall a, P [a]) -> (forall a b l, P l -> P (a :: b :: l)) -> forall l, P l.
Proof.
  intros H0 H1 H2. fix IH 1. intros [|a [|b l]]; [exact H0|apply H1|apply H2, IH].
Qed.

Lemma pair_up_length l : length (pair_up l) = (S (length l) / 2)%nat.
Proof.
  induction l as [| |a b l IH] using pair_ind; [done..|]. cbn [pair_up length]. rewrite IH.
  replace (S (S (S (length l)))) with (S (length l) + 1 * 2)%nat by lia. rewrite Nat.div_add by lia. lia.
Qed.

(** ** Marked hashes and the forest of complete subtrees *)

(** A hash, and whether its subtree holds the position of the branch. *)
Abbreviation node := (Z * bool)%type (only parsing).

Definition comb (x n : node) : node := (Hash x.1 n.1, n.2 || x.2).
Definition push (x n : node) : list Z := if n.2 then [x.1] else if x.2 then [n.1] else [].

(** Adding a subtree at the lowest level, as to a binary counter: forest, branch, mutation. *)
Fixpoint fadd (n : node) (f : list (option node)) : list (option node) * list Z * bool :=
  match f with
  | [] => ([Some n], [], false)
  | None :: f => (Some n :: f, [], false)
  | Some x :: f =>
      let '(f', p, m) := fadd (comb x n) f in (None :: f', push x n ++ p, (x.1 =? n.1) || m)
  end.

Fixpoint frun (f : list (option node)) (l : list node) : list (option node) * list Z * bool :=
  match l with
  | [] => (f, [], false)
  | n :: l =>
      let '(f1, p1, m1) := fadd n f in
      let '(f2, p2, m2) := frun f1 l in (f2, p1 ++ p2, m1 || m2)
  end.

Definition is_none {A} (o : option A) : bool := match o with None => true | Some _ => false end.

Definition dup (n : node) : node := (Hash n.1 n.1, n.2).

Fixpoint finish (fuel : nat) (f : list (option node)) : node * list Z :=
  match fuel with
  | O => ((0, false), [])
  | S fuel =>
      match f with
      | [] => ((0, false), [])
      | None :: f => finish fuel f
      | Some n :: f =>
          if forallb is_none f then (n, [])
          else
            let '(f', p, _) := fadd (dup n) f in
            let r := finish fuel f' in
            (r.1, (if n.2 then [n.1] else []) ++ p ++ r.2)
      end
  end.

(** The levels of marked hashes. *)
Fixpoint npairs (l : list node) : list node :=
  match l with a :: b :: l => comb a b :: npairs l | _ => [] end.
Fixpoint npair_up (l : list node) : list node :=
  match l with a :: b :: l => comb a b :: npair_up l | [a] => [dup a] | [] => [] end.
Fixpoint odd_last (l : list node) : option node :=
  match l with _ :: _ :: l => odd_last l | [a] => Some a | [] => None end.
Fixpoint npush (l : list node) : list Z :=
  match l with a :: b :: l => push a b ++ npush l | _ => [] end.
Fixpoint lpush (l : list node) : list Z :=
  match l with a :: b :: l => push a b ++ lpush l | [a] => if a.2 then [a.1] else [] | [] => [] end.
Fixpoint nequal (l : list node) : bool :=
  match l with a :: b :: l => (a.1 =? b.1) || nequal l | _ => false end.

Lemma npair_ind (P : list node -> Prop) :
  P [] -> (forall a, P [a]) -> (forall a b l, P l -> P (a :: b :: l)) -> forall l, P l.
Proof. intros H0 H1 H2. fix IH 1. intros [|a [|b l]]; [exact H0|apply H1|apply H2, IH]. Qed.

(** The number of marks. *)
Definition bnat (b : bool) : nat := if b then 1 else 0.
Fixpoint marks (l : list node) : nat := match l with [] => 0 | n :: l => bnat n.2 + marks l end.
Fixpoint fmarks (f : list (option node)) : nat :=
  match f with [] => 0 | None :: f => fmarks f | Some n :: f => bnat n.2 + fmarks f end.

Lemma fadd_marks n f : (bnat n.2 + fmarks f <= 1)%nat ->
  fmarks (fadd n f).1.1 = (bnat n.2 + fmarks f)%nat /\ ((bnat n.2 + fmarks f)%nat = 0%nat -> (fadd n f).1.2 = []).
Proof.
  revert n. induction f as [|[x|] f IH]; intros n Hm; cbn [fadd fmarks fst snd] in *; [split; [lia|done]| |done].
  specialize (IH (comb x n)). destruct (fadd (comb x n) f) as [[f' p] m]. cbn [fst snd fmarks comb] in *.
  unfold push. destruct n as [hn [|]], x as [hx [|]]; cbn [bnat orb snd fst] in *; destruct IH as [IH1 IH2]; try lia.
  all: split; [lia|]. all: intros H; try lia; apply IH2; lia.
Qed.

Lemma frun_marks l f : (marks l + fmarks f <= 1)%nat ->
  fmarks (frun f l).1.1 = (marks l + fmarks f)%nat /\ ((marks l + fmarks f)%nat = 0%nat -> (frun f l).1.2 = []).
Proof.
  revert f. induction l as [|n l IH]; intros f Hm; cbn [frun marks fst snd] in *; [done|].
  pose proof (fadd_marks n f ltac:(lia)) as [H1 H2]. destruct (fadd n f) as [[f1 p1] m1]. cbn [fst snd] in *.
  specialize (IH f1 ltac:(lia)). destruct (frun f1 l) as [[f2 p2] m2]. cbn [fst snd] in *.
  destruct IH as [H3 H4]. split; [lia|]. intros H. rewrite H2, H4 by lia. done.
Qed.

Lemma npush_nomark l : marks l = 0%nat -> npush l = [].
Proof.
  induction l as [|a|[ha a] [hb b] l IH] using npair_ind; intros H; [done..|]. cbn [marks npush] in *.
  destruct a, b; cbn [snd bnat] in H; try lia. cbn. apply IH. lia.
Qed.

Lemma comb_mark a b : (bnat a.2 + bnat b.2 <= 1)%nat -> bnat (comb a b).2 = (bnat a.2 + bnat b.2)%nat.
Proof. destruct a as [? []], b as [? []]; cbn; lia. Qed.

Lemma marks_npairs l : (marks l <= 1)%nat -> (marks (npairs l) <= marks l)%nat.
Proof.
  induction l as [|a|a b l IH] using npair_ind; intros H; cbn [marks npairs] in *; [lia..|].
  rewrite comb_mark by lia. lia.
Qed.

(** Running over the leaves is running over the pairs one level up. *)
Lemma frun_level l g : (marks l + fmarks g <= 1)%nat ->
  frun (None :: g) l =
    (odd_last l :: (frun g (npairs l)).1.1, npush l ++ (frun g (npairs l)).1.2, nequal l || (frun g (npairs l)).2).
Proof.
  revert g. induction l as [|a|a b l IH] using npair_ind; intros g Hm; [done..|].
  cbn [frun fadd npairs odd_last npush nequal marks] in *. pose proof (comb_mark a b ltac:(lia)) as Hcm.
  pose proof (fadd_marks (comb a b) g ltac:(lia)) as [H1 H2].
  destruct (fadd (comb a b) g) as [[g1 p1] m1]. cbn [fst snd] in H1, H2. rewrite (IH g1) by lia.
  pose proof (marks_npairs l ltac:(lia)) as Hl.
  pose proof (frun_marks (npairs l) g1 ltac:(lia)) as [H3 H4].
  destruct (frun g1 (npairs l)) as [[g2 p2] m2]. cbn [fst snd app orb] in *. f_equal; [f_equal|].
  - destruct (decide (marks l = 0%nat)) as [E|E].
    + rewrite npush_nomark by done. by rewrite ?app_nil_r, <- ?app_assoc.
    + rewrite H2 by lia. assert (push a b = []) as ->; [|done].
      unfold push. destruct a as [? []], b as [? []]; cbn [snd bnat] in *; (lia || done).
  - destruct (a.1 =? b.1), m1, (nequal l), m2; done.
Qed.

Lemma frun_app f l1 l2 :
  frun f (l1 ++ l2) =
    ((frun (frun f l1).1.1 l2).1.1, (frun f l1).1.2 ++ (frun (frun f l1).1.1 l2).1.2,
     (frun f l1).2 || (frun (frun f l1).1.1 l2).2).
Proof.
  revert f. induction l1 as [|n l1 IH]; intros f; cbn [app frun fst snd]; [by destruct (frun f l2) as [[? ?] ?]|].
  destruct (fadd n f) as [[f1 p1] m1]. rewrite (IH f1). destruct (frun f1 l1) as [[f2 p2] m2].
  cbn [fst snd]. by rewrite app_assoc, orb_assoc.
Qed.

Lemma fadd_some n f : forallb is_none (fadd n f).1.1 = false.
Proof.
  revert n. induction f as [|[x|] f IH]; intros n; cbn [fadd]; [done| |done].
  specialize (IH (comb x n)). by destruct (fadd (comb x n) f) as [[f' p] m].
Qed.

Lemma frun_some f l : l <> [] -> forallb is_none (frun f l).1.1 = false.
Proof.
  intros Hl. apply exists_last in Hl as (l' & n & ->). rewrite frun_app. cbn [fst frun].
  pose proof (fadd_some n (frun f l').1.1). by destruct (fadd n _) as [[? ?] ?].
Qed.

Lemma npair_up_split l : npair_up l = npairs l ++ match odd_last l with Some a => [dup a] | None => [] end.
Proof. induction l as [|a|a b l IH] using npair_ind; cbn; [done..|]. by rewrite IH. Qed.
Lemma lpush_split l : lpush l = npush l ++ match odd_last l with Some a => if a.2 then [a.1] else [] | None => [] end.
Proof. induction l as [|a|a b l IH] using npair_ind; cbn; [done..|]. by rewrite IH, app_assoc. Qed.
Lemma odd_last_marks l a : (marks l <= 1)%nat -> odd_last l = Some a -> (bnat a.2 + marks (npairs l) <= 1)%nat.
Proof.
  induction l as [|x|x y l IH] using npair_ind; cbn [odd_last marks npairs]; intros Hm H; [done|by simplify_eq|].
  specialize (IH ltac:(lia) H). rewrite comb_mark by lia. 
  assert (forall k, (marks k <= 1)%nat -> odd_last k = Some a -> (bnat a.2 + marks (npairs k) <= marks k)%nat) as Hk.
  { clear. induction k as [|u|u v k IH] using npair_ind; cbn [odd_last marks npairs]; intros Hm H; [done|simplify_eq; lia|].
    rewrite comb_mark by lia. specialize (IH ltac:(lia) H). lia. }
  specialize (Hk l ltac:(lia) H). lia.
Qed.

(** Root and branch of the forest of the leaves. *)
Definition total (N : nat) (l : list node) : node * list Z :=
  let r := frun (replicate N None) l in
  let s := finish N r.1.1 in (s.1, r.1.2 ++ s.2).

Lemma total_level N l : (2 <= length l)%nat -> (marks l <= 1)%nat ->
  total (S N) l = ((total N (npair_up l)).1, lpush l ++ (total N (npair_up l)).2).
Proof.
  intros Hl Hm. unfold total. cbn [replicate].
  assert (fmarks (replicate N None) = 0%nat) as H0 by (clear; induction N; done).
  rewrite frun_level by lia. rewrite npair_up_split, lpush_split, frun_app. cbn [fst snd].
  destruct (odd_last l) as [a|] eqn:Eo; cbn [finish].
  2:{ cbn [frun fst snd]. by rewrite !app_nil_r, <- !app_assoc. }
  rewrite frun_some by (destruct l as [|? [|? ?]]; cbn in Hl; (lia || done)).
  pose proof (odd_last_marks l a Hm Eo) as Hoa.
  pose proof (frun_marks (npairs l) (replicate N None) ltac:(lia)) as [_ Hn].
  destruct (frun (replicate N None) (npairs l)) as [[G P] M]. cbn [fst snd frun] in *.
  destruct (fadd (dup a) G) as [[f' p] m]. cbn [fst snd]. rewrite app_nil_r. f_equal.
  destruct (a.2) eqn:Ea; cbn [bnat app] in *; [|by rewrite app_nil_r, <- !app_assoc].
  rewrite Hn by lia. rewrite app_nil_r. cbn [app]. by rewrite <- app_assoc.
Qed.

Lemma fst_npair_up l : map fst (npair_up l) = pair_up (map fst l).
Proof. induction l as [|a|a b l IH] using npair_ind; cbn; [done..|]. by rewrite IH. Qed.
Lemma fst_npairs l : map fst (npairs l) = full_pairs (map fst l).
Proof. induction l as [|a|a b l IH] using npair_ind; cbn; [done..|]. by rewrite IH. Qed.
Lemma fst_nequal l : nequal l = equal_pair (map fst l).
Proof. induction l as [|a|a b l IH] using npair_ind; cbn; [done..|]. by rewrite IH. Qed.

Lemma npair_up_length l : length (npair_up l) = (S (length l) / 2)%nat.
Proof. rewrite <- (length_map fst), fst_npair_up, pair_up_length. by rewrite length_map. Qed.

Lemma marks_npair_up l : (marks l <= 1)%nat -> (marks (npair_up l) <= marks l)%nat.
Proof.
  induction l as [|a|a b l IH] using npair_ind; intros H; cbn [marks npair_up dup snd] in *; [lia..|].
  rewrite comb_mark by lia. lia.
Qed.

Lemma total_root N l : (1 <= length l <= 2 ^ N)%nat -> (marks l <= 1)%nat ->
  (total (S N) l).1.1 = tree_root N (map fst l).
Proof.
  revert l. induction N as [|N IH]; intros l Hl Hm.
  { destruct l as [|a [|b l]]; cbn in Hl; try lia. done. }
  destruct (decide (length l = 1%nat)) as [E|E].
  { destruct l as [|a [|b l]]; cbn in E; try lia. unfold total. cbn.
    assert (forallb is_none (replicate N None : list (option node)) = true) as -> by (clear; induction N; done). done. }
  rewrite total_level by (done || lia). cbn [fst]. rewrite IH.
  - rewrite fst_npair_up. by destruct l as [|a [|b l]]; cbn in E, Hl; try lia.
  - rewrite npair_up_length. cbn [Nat.pow] in Hl. split; [apply Nat.div_le_lower_bound; lia|].
    assert (S (length l) / 2 < S (2 ^ N))%nat; [apply Nat.Div0.div_lt_upper_bound; lia|lia].
  - pose proof (marks_npair_up l Hm). lia.
Qed.

Lemma total_mutated N l : (length l < 2 ^ S N)%nat -> (marks l <= 1)%nat ->
  (frun (replicate (S N) None) l).2 = tree_mutated (S N) (map fst l).
Proof.
  assert (fmarks (replicate N None) = 0%nat) as H0 by (clear; induction N; done).
  revert l H0. induction N as [|N IH]; intros l H0 Hl Hm.
  { destruct l as [|a [|b l]]; cbn in Hl; [done..|lia]. }
  change (replicate (S (S N)) None) with (@None node :: replicate (S N) None).
  rewrite frun_level by (cbn in *; lia). cbn [snd tree_mutated]. rewrite fst_nequal, <- fst_npairs. f_equal.
  pose proof (marks_npairs l Hm). rewrite IH; [done|done| |lia].
  assert (length (npairs l) <= length l / 2)%nat as Hp.
  { clear. induction l as [|a|a b l IH] using npair_ind; cbn [npairs length]; [lia..|].
    replace (S (S (length l))) with (length l + 1 * 2)%nat by lia. rewrite Nat.div_add by lia. lia. }
  eapply Nat.le_lt_trans; [exact Hp|]. apply Nat.Div0.div_lt_upper_bound. cbn [Nat.pow] in *. lia.
Qed.

(** *** The branch *)

(** The leaves from number [i] on, with the leaf number [bp] marked. *)
Fixpoint at_pos (i bp : Z) (l : list Z) : list node :=
  match l with [] => [] | x :: l => (x, i =? bp) :: at_pos (i + 1) bp l end.

Lemma at_pos_fst i bp l : map fst (at_pos i bp l) = l.
Proof. revert i. induction l as [|x l IH]; intros i; cbn; [done|]. by rewrite IH. Qed.
Lemma at_pos_length i bp l : length (at_pos i bp l) = length l.
Proof. rewrite <- (length_map fst). by rewrite at_pos_fst. Qed.

Lemma at_pos_above i bp l : bp < i -> marks (at_pos i bp l) = 0%nat.
Proof. revert i. induction l as [|x l IH]; intros i Hi; cbn; [done|]. rewrite (proj2 (Z.eqb_neq _ _)), IH by lia. done. Qed.
Lemma at_pos_marks i bp l : (marks (at_pos i bp l) <= 1)%nat.
Proof.
  revert i. induction l as [|x l IH]; intros i; cbn; [lia|]. destruct (i =? bp) eqn:E; zbool; cbn.
  - rewrite at_pos_above by lia. lia.
  - apply IH.
Qed.

Lemma half_eqb j bp : ((2 * j + 1 =? bp) || (2 * j =? bp)) = (j =? bp / 2).
Proof. apply eq_true_iff_eq. rewrite orb_true_iff, !Z.eqb_eq. split; intros; Z.to_euclidean_division_equations; lia. Qed.

Lemma npair_up_at_pos j bp l : bp < 2 * j + Z.of_nat (length l) ->
  npair_up (at_pos (2 * j) bp l) = at_pos j (bp / 2) (pair_up l).
Proof.
  revert j. induction l as [|a|a b l IH] using pair_ind; intros j Hb; cbn [at_pos npair_up pair_up] in *; [done| |].
  - unfold dup. cbn [fst snd]. cbn in Hb. do 2 f_equal. rewrite <- half_eqb, (proj2 (Z.eqb_neq (2 * j + 1) bp)) by lia. done.
  - unfold comb. cbn [fst snd]. rewrite half_eqb. f_equal.
    replace (2 * j + 1 + 1) with (2 * (j + 1)) by lia. apply IH. cbn [length] in Hb. lia.
Qed.

Lemma lpush_above i bp l : bp < i -> lpush (at_pos i bp l) = [].
Proof.
  intros Hi. pose proof (at_pos_above i bp l Hi) as H. rewrite lpush_split, npush_nomark by done.
  destruct (odd_last _) as [a|] eqn:E; [|done]. cbn [app].
  destruct (a.2) eqn:Ea; [|done]. exfalso.
  revert E H Ea. clear. generalize (at_pos i bp l). intros k. induction k as [|u|u v k IH] using npair_ind; cbn; intros E H Ea; [done| |].
  - simplify_eq. rewrite Ea in H. done.
  - apply IH; [done|lia|done].
Qed.

Lemma lpush_sibling j l p : (p < length l)%nat -> lpush (at_pos (2 * j) (2 * j + Z.of_nat p) l) = [sibling l p].
Proof.
  revert j p. induction l as [|a|a b l IH] using pair_ind; intros j p Hp; cbn [length] in Hp; [lia| |].
  - assert (p = 0%nat) as -> by lia. cbn. by rewrite Z.add_0_r, Z.eqb_refl.
  - cbn [at_pos lpush]. replace (2 * j + 1 + 1) with (2 * (j + 1)) by lia.
    destruct p as [|[|p]].
    + rewrite lpush_above by lia. unfold push. cbn [fst snd]. rewrite (proj2 (Z.eqb_neq (2 * j + 1) _)) by lia.
      by rewrite (proj2 (Z.eqb_eq _ _)) by lia.
    + rewrite lpush_above by lia. unfold push. cbn [fst snd]. by rewrite (proj2 (Z.eqb_eq (2 * j + 1) _)) by lia.
    + unfold push. cbn [fst snd]. rewrite !(proj2 (Z.eqb_neq _ _)) by lia. cbn [app].
      replace (2 * j + Z.of_nat (S (S p))) with (2 * (j + 1) + Z.of_nat p) by lia. rewrite IH by lia.
      unfold sibling. f_equal. cbn [Nat.odd]. destruct (Nat.odd p) eqn:Eo; change (Nat.odd (S (S p))) with (Nat.odd p); rewrite Eo; [|done].
      destruct p as [|p]; [done|]. replace (S (S (S p)) - 1)%nat with (S (S p)) by lia. by replace (S p - 1)%nat with p by lia.
Qed.

Lemma total_branch N l p : (p < length l)%nat -> (length l <= 2 ^ N)%nat ->
  (total (S N) (at_pos 0 (Z.of_nat p) l)).2 = tree_branch N l p.
Proof.
  revert l p. induction N as [|N IH]; intros l p Hp Hl.
  { destruct l as [|a [|b l]]; cbn in Hl, Hp; try lia. done. }
  cbn [tree_branch]. destruct (decide (length l = 1%nat)) as [E|E].
  { rewrite E. destruct l as [|a [|b l]]; cbn in E; try lia. unfold total. cbn.
    assert (forallb is_none (replicate N None : list (option node)) = true) as -> by (clear; induction N; done). done. }
  rewrite (proj2 (Nat.leb_gt _ _)) by lia.
  rewrite total_level; [|rewrite at_pos_length; lia|apply at_pos_marks]. cbn [snd].
  pose proof (lpush_sibling 0 l p Hp) as Hs. pose proof (npair_up_at_pos 0 (Z.of_nat p) l ltac:(lia)) as Hu.
  rewrite Z.mul_0_r in Hs, Hu. rewrite Z.add_0_l in Hs. rewrite Hs, Hu. cbn [app]. f_equal.
  replace (Z.of_nat p / 2) with (Z.of_nat (p / 2)) by (by rewrite Nat2Z.inj_div). apply IH.
  - rewrite pair_up_length. apply Nat.Div0.div_lt_upper_bound.
    pose proof (Nat.div_mod_eq (S (length l)) 2). pose proof (Nat.mod_upper_bound (S (length l)) 2 ltac:(lia)). lia.
  - rewrite pair_up_length. cbn [Nat.pow] in Hl.
    assert (S (length l) / 2 < S (2 ^ N))%nat; [apply Nat.Div0.div_lt_upper_bound; lia|lia].
Qed.

(** The branch leads from the leaf to the root. *)
Lemma pair_up_lookup l p : (p < length l)%nat ->
  pair_up l !!! (p / 2)%nat = if Nat.odd p then Hash (sibling l p) (l !!! p) else Hash (l !!! p) (sibling l p).
Proof.
  revert p. induction l as [|a|a b l IH] using pair_ind; intros p Hp; cbn [length] in Hp; [lia| |].
  - assert (p = 0%nat) as -> by lia. done.
  - destruct p as [|[|p]]; [done|done|]. replace (S (S p)) with (p + 1 * 2)%nat at 1 by lia.
    rewrite Nat.div_add, Nat.add_1_r by lia. cbn [pair_up]. specialize (IH p ltac:(lia)).
    change ((Hash a b :: pair_up l) !!! S (p / 2)) with (pair_up l !!! (p / 2)%nat). rewrite IH.
    change (Nat.odd (S (S p))) with (Nat.odd p). unfold sibling. change (Nat.odd (S (S p))) with (Nat.odd p).
    destruct (Nat.odd p) eqn:Eo; [|done]. destruct p as [|p]; [done|].
    replace (S (S (S p)) - 1)%nat with (S (S p)) by lia. by replace (S p - 1)%nat with p by lia.
Qed.

Lemma land_1_odd p : negb (Z.land (Z.of_nat p) 1 =? 0) = Nat.odd p.
Proof.
  change 1 with (Z.ones 1). rewrite Z.land_ones by lia. change (2 ^ 1) with 2. rewrite Zmod_odd.
  assert (Z.odd (Z.of_nat p) = Nat.odd p) as ->; [|by destruct (Nat.odd p)]. induction p as [|p IH]; [done|].
  rewrite Nat2Z.inj_succ, Z.odd_succ, <- Z.negb_odd, IH, Nat.odd_succ, Nat.negb_odd. done.
Qed.

Lemma branch_fold N l p : (p < length l)%nat -> (length l <= 2 ^ N)%nat ->
  ComputeMerkleRootFromBranch Hash (l !!! p) (tree_branch N l p) (Z.of_nat p) = tree_root N l.
Proof.
  revert l p. induction N as [|N IH]; intros l p Hp Hl.
  { destruct l as [|a [|b l]]; cbn in Hl, Hp; try lia. by replace p with 0%nat by lia. }
  cbn [tree_branch tree_root]. destruct l as [|a [|b l]]; [cbn in Hp; lia|cbn in *; by replace p with 0%nat by lia|].
  set (k := a :: b :: l) in *. rewrite (proj2 (Nat.leb_gt (length k) 1)) by (cbn; lia).
  cbn [ComputeMerkleRootFromBranch]. rewrite land_1_odd, Z.shiftr_div_pow2 by lia.
  replace (Z.of_nat p / 2 ^ 1) with (Z.of_nat (p / 2)) by (by rewrite Nat2Z.inj_div).
  assert (length k <= 2 * 2 ^ N)%nat as Hl' by (cbn [Nat.pow] in Hl; lia).
  rewrite <- (IH (pair_up k) (p / 2)%nat); [by rewrite pair_up_lookup by done| |].
  - rewrite pair_up_length. apply Nat.Div0.div_lt_upper_bound.
    pose proof (Nat.div_mod_eq (S (length k)) 2). pose proof (Nat.mod_upper_bound (S (length k)) 2 ltac:(lia)). lia.
  - rewrite pair_up_length. assert (S (length k) / 2 < S (2 ^ N))%nat; [apply Nat.Div0.div_lt_upper_bound; lia|lia].
Qed.

(** *** Two lists of leaves with one root *)

(** The pairs that are hashed on one level, and on all levels. *)
Fixpoint level_pairs (l : list Z) : list (Z * Z) :=
  match l with a :: b :: l => (a, b) :: level_pairs l | [a] => [(a, a)] | [] => [] end.

Fixpoint hashed (depth : nat) (l : list Z) : list (Z * Z) :=
  match depth with
  | O => []
  | S depth => if (length l <=? 1)%nat then [] else level_pairs l ++ hashed depth (pair_up l)
  end.

Section Injective.
(** No two of the given pairs collide. *)
Variable G : list (Z * Z).
Hypothesis Hash_inj : forall a b c d, (a, b) ∈ G -> (c, d) ∈ G -> Hash a b = Hash c d -> a = c /\ b = d.

(** A level as the computation sees it: the complete subtrees and the padded last one. *)
Definition padded_level (c : list Z) (t : option Z) : list Z := c ++ match t with Some x => [x] | None => [] end.

Definition pad_pair (c : list Z) (t : option Z) : option (Z * Z) :=
  match t with
  | Some x => Some (if Nat.odd (length c) then List.last c 0 else x, x)
  | None => if Nat.odd (length c) then Some (List.last c 0, List.last c 0) else None
  end.
Definition next_pad (c : list Z) (t : option Z) : option Z := (fun p => Hash p.1 p.2) <$> pad_pair c t.

Lemma pair_up_padded c t : pair_up (padded_level c t) = padded_level (full_pairs c) (next_pad c t).
Proof.
  unfold padded_level, next_pad, pad_pair. induction c as [|a|a b c IH] using pair_ind; [by destruct t|by destruct t|].
  cbn [app pair_up full_pairs length]. change (Nat.odd (S (S (length c)))) with (Nat.odd (length c)). rewrite IH.
  destruct c as [|x c]; [by destruct t|]. done.
Qed.

Lemma pad_pair_in c t p : pad_pair c t = Some p -> p ∈ level_pairs (padded_level c t).
Proof.
  unfold padded_level, pad_pair. induction c as [|a|a b c IH] using pair_ind.
  - destruct t; intros [= <-]. by left.
  - destruct t; intros [= <-]; by left.
  - cbn [app level_pairs length]. change (Nat.odd (S (S (length c)))) with (Nat.odd (length c)). intros H. right. apply IH.
    destruct c as [|x c]; [by destruct t|]. done.
Qed.

Lemma in_full_pairs x y c t :
  (x, y) ∈ G -> level_pairs (padded_level c t) ⊆ G -> Hash x y ∈ full_pairs c ->
  x ∈ c /\ y ∈ c /\ (x = y -> equal_pair c = true).
Proof.
  intros HG. unfold padded_level.
  induction c as [|a|a b c IH] using pair_ind; cbn [app level_pairs full_pairs equal_pair]; intros Hs H; [by apply elem_of_nil in H..|].
  apply elem_of_cons in H as [H|H].
  - apply Hash_inj in H as [-> ->]; [|done|apply Hs; by left]. rewrite !elem_of_cons. split_and!; [tauto..|].
    intros ->. by rewrite Z.eqb_refl.
  - destruct IH as (? & ? & He); [intros p Hp; apply Hs; by right|done|]. rewrite !elem_of_cons. split_and!; [tauto..|].
    intros E. rewrite (He E). apply orb_true_r.
Qed.

(** The padded subtree never equals a complete one unless siblings are equal below. *)
Definition pad_fresh (c : list Z) (t : option Z) : Prop := match t with Some x => x ∉ c | None => True end.

Lemma next_pad_fresh c t :
  level_pairs (padded_level c t) ⊆ G -> equal_pair c = false -> pad_fresh c t -> pad_fresh (full_pairs c) (next_pad c t).
Proof.
  intros Hs He Hf. unfold next_pad. destruct (pad_pair c t) as [[x y]|] eqn:E; [|done]. cbn [fmap option_fmap option_map pad_fresh fst snd].
  intros H. apply (in_full_pairs x y c t (Hs _ (pad_pair_in c t _ E)) Hs) in H as (H1 & H2 & H3). unfold pad_pair, pad_fresh in *.
  destruct t as [z|]; [by injection E as _ ->|]. destruct (Nat.odd (length c)); [|done]. injection E as <- <-. by rewrite H3 in He.
Qed.

(** Lists with the same next level are equal or differ by a repeated last element. *)
Lemma pair_up_inj l k : level_pairs l ⊆ G -> level_pairs k ⊆ G ->
  pair_up l = pair_up k -> l = k \/ k = l ++ [List.last l 0] \/ l = k ++ [List.last k 0].
Proof.
  assert (forall a b r, (a, b) :: r ⊆ G -> (a, b) ∈ G /\ r ⊆ G) as Hcons.
  { intros a b r H. split; [apply H; by left|intros p Hp; apply H; by right]. }
  revert k. induction l as [|a|a b l IH] using pair_ind; intros [|c [|d k]] Hl Hk H; cbn in Hl, Hk, H; try done.
  - by left.
  - left. injection H as H. apply Hcons in Hl as [Hl _], Hk as [Hk _]. by apply Hash_inj in H as [-> _].
  - injection H as H Hnil. apply Hcons in Hl as [Hl _], Hk as [Hk _]. apply Hash_inj in H as [-> ->]; [|done..].
    destruct k as [|e [|? ?]]; try done. by right; left.
  - injection H as H Hnil. apply Hcons in Hl as [Hl _], Hk as [Hk _]. apply Hash_inj in H as [-> ->]; [|done..].
    destruct l as [|e [|? ?]]; try done. by right; right.
  - injection H as H Hrest. apply Hcons in Hl as [Hl Hl'], Hk as [Hk Hk']. apply Hash_inj in H as [-> ->]; [|done..].
    destruct (IH k Hl' Hk' Hrest) as [-> | [-> | ->]]; [by left| |].
    + right; left. destruct l; done.
    + right; right. destruct k; done.
Qed.

(** An even list that ends in a repeated element has an equal pair. *)
Lemma repeated_last l e : Nat.odd (length l) = true -> List.last l 0 = e -> equal_pair (l ++ [e]) = true.
Proof.
  revert e. induction l as [|a|a b l IH] using pair_ind; intros e Ho He; [done|cbn in *; subst; by rewrite Z.eqb_refl|].
  cbn [app equal_pair]. rewrite IH; [apply orb_true_r|done|]. destruct l; [done|]. done.
Qed.

Lemma last_in (l : list Z) : l <> [] -> List.last l 0 ∈ l.
Proof.
  intros H. apply exists_last in H as (l' & x & ->). rewrite last_last. apply elem_of_app. right. by left.
Qed.

Lemma repeated_level l c t :
  padded_level c t = l ++ [List.last l 0] -> Nat.odd (length l) = true -> equal_pair c = false -> ~ pad_fresh c t.
Proof.
  unfold padded_level, pad_fresh. intros E Ho He Hf. destruct t as [x|].
  - apply app_inj_tail in E as [-> Ex]. rewrite Ex in Hf. apply Hf, last_in. by intros ->.
  - rewrite app_nil_r in E. subst c. by rewrite (repeated_last l _ Ho eq_refl) in He.
Qed.

(** The number of levels up to the root. *)
Fixpoint height (depth : nat) (l : list Z) : nat :=
  match depth with
  | O => O
  | S depth => if (length l <=? 1)%nat then O else S (height depth (pair_up l))
  end.

Lemma pair_up_even_odd l k : pair_up l = pair_up k -> k = l ++ [List.last l 0] -> l <> [] -> Nat.odd (length l) = true.
Proof.
  intros H -> Hl. destruct (Nat.odd (length l)) eqn:E; [done|]. exfalso.
  apply (f_equal length) in H. rewrite !pair_up_length, length_app in H. cbn [length] in H.
  rewrite <- Nat.negb_even in E. apply negb_false_iff, Nat.even_spec in E as [m Em]. rewrite Em in H.
  replace (S (2 * m)) with (1 + m * 2)%nat in H by lia. replace (S (2 * m + 1)) with ((m + 1) * 2)%nat in H by lia.
  rewrite Nat.div_add, Nat.div_mul in H by lia. cbn in H. lia.
Qed.

Lemma level_injective depth c t c' t' :
  hashed depth (padded_level c t) ⊆ G -> hashed depth (padded_level c' t') ⊆ G ->
  (length (padded_level c t) <= 2 ^ depth)%nat -> (length (padded_level c' t') <= 2 ^ depth)%nat ->
  padded_level c t <> [] -> padded_level c' t' <> [] ->
  height depth (padded_level c t) = height depth (padded_level c' t') ->
  tree_root depth (padded_level c t) = tree_root depth (padded_level c' t') ->
  tree_mutated depth c = false -> tree_mutated depth c' = false -> pad_fresh c t -> pad_fresh c' t' ->
  padded_level c t = padded_level c' t'.
Proof.
  revert c t c' t'. induction depth as [|depth IH]; intros c t c' t' HG HG' Hl Hl' Hn Hn' Hh Hr Hm Hm' Hf Hf'.
  { destruct (padded_level c t) as [|a [|? ?]], (padded_level c' t') as [|a' [|? ?]]; cbn in *; (done || lia || congruence). }
  cbn [tree_mutated] in Hm, Hm'. apply orb_false_iff in Hm as [Hm1 Hm2]. apply orb_false_iff in Hm' as [Hm1' Hm2'].
  pose proof (pair_up_padded c t) as Ep. pose proof (pair_up_padded c' t') as Ep'.
  pose proof (repeated_level (padded_level c' t') c t) as Hrep. pose proof (repeated_level (padded_level c t) c' t') as Hrep'.
  pose proof (next_pad_fresh c t) as Hf2. pose proof (next_pad_fresh c' t') as Hf2'.
  set (l := padded_level c t) in *. set (l' := padded_level c' t') in *. cbn [height hashed] in Hh, HG, HG'.
  destruct (length l <=? 1)%nat eqn:E1, (length l' <=? 1)%nat eqn:E2; try done.
  { apply Nat.leb_le in E1, E2. destruct l as [|a [|? ?]], l' as [|a' [|? ?]]; cbn in E1, E2, Hr; (done || lia || congruence). }
  apply Nat.leb_gt in E1, E2. injection Hh as Hh. apply list_subseteq_app_iff_l in HG as [HG HGn], HG' as [HG' HGn'].
  specialize (Hf2 HG Hm1 Hf). specialize (Hf2' HG' Hm1' Hf').
  assert (forall k, (1 < length k)%nat -> (length k <= 2 ^ S depth)%nat ->
            tree_root (S depth) k = tree_root depth (pair_up k) /\ (length (pair_up k) <= 2 ^ depth)%nat /\ pair_up k <> []) as Hk.
  { intros k Hk1 Hk2. split_and!; [by destruct k as [|? [|? ?]]; cbn in Hk1; try lia| |by destruct k as [|? [|? ?]]; cbn in Hk1; try lia].
    rewrite pair_up_length. cbn [Nat.pow] in Hk2.
    assert (S (length k) / 2 < S (2 ^ depth))%nat; [apply Nat.Div0.div_lt_upper_bound; lia|lia]. }
  destruct (Hk l E1 Hl) as (R1 & L1 & N1). destruct (Hk l' E2 Hl') as (R2 & L2 & N2). rewrite R1, R2 in Hr.
  assert (pair_up l = pair_up l') as Heq by (rewrite Ep, Ep' in *; by apply IH).
  destruct (pair_up_inj _ _ HG HG' Heq) as [?|[E|E]]; [done| |].
  - pose proof (pair_up_even_odd l l' Heq E Hn). exfalso. by apply Hrep'.
  - pose proof (pair_up_even_odd l' l (eq_sym Heq) E Hn'). exfalso. by apply Hrep.
Qed.

Lemma tree_injective depth l l' :
  hashed depth l ⊆ G -> hashed depth l' ⊆ G ->
  (1 <= length l <= 2 ^ depth)%nat -> (1 <= length l' <= 2 ^ depth)%nat -> height depth l = height depth l' ->
  tree_root depth l = tree_root depth l' -> tree_mutated depth l = false -> tree_mutated depth l' = false -> l = l'.
Proof.
  intros HG HG' H1 H2 Hh Hr Hm Hm'. pose proof (level_injective depth l None l' None) as H. unfold padded_level in H.
  rewrite !app_nil_r in H. apply H; try done; try lia; intros ->; cbn in *; lia.
Qed.
End Injective.

(** ** The array and its counter hold the forest *)

(** From level [lv] up: the entry of every set bit of the counter [c], marked where [ml]
    says; [ml] never names the level of a clear bit. *)
Fixpoint repr (inner : list Z) (ml : Z) (n lv : nat) (c : Z) (f : list (option node)) : Prop :=
  match n with
  | O => c = 0 /\ f = []
  | S n => exists f', f = (if Z.odd c then Some (inner !!! lv, ml =? Z.of_nat lv) else None) :: f' /\
             (Z.odd c = false -> ml <> Z.of_nat lv) /\ repr inner ml n (S lv) (c / 2) f'
  end.

Lemma repr_frame inner inner' ml ml' n lv c f :
  (forall j, (lv <= j)%nat -> inner' !!! j = inner !!! j) ->
  (forall j, (lv <= j)%nat -> ml' = Z.of_nat j <-> ml = Z.of_nat j) ->
  repr inner ml n lv c f -> repr inner' ml' n lv c f.
Proof.
  revert lv c f. induction n as [|n IH]; intros lv c f Hi Hm; [done|]. cbn [repr]. intros (f' & -> & H1 & H2).
  exists f'. split_and!.
  - rewrite Hi by done. assert ((ml' =? Z.of_nat lv) = (ml =? Z.of_nat lv)) as ->; [|done].
    apply eq_true_iff_eq. rewrite !Z.eqb_eq. by apply Hm.
  - intros Ho H. apply (H1 Ho). by apply Hm.
  - apply IH; [intros j Hj; apply Hi; lia|intros j Hj; apply Hm; lia|done].
Qed.

(** A forest whose lowest subtree is [n] at level [lv + k]. *)
Definition lowest (inner : list Z) (ml : Z) (n lv : nat) (c : Z) (f : list (option node)) (k : nat) (x : node) : Prop :=
  exists n' c' g, n = (k + S n')%nat /\ 0 <= c' /\ c = 2 ^ Z.of_nat k * (2 * c' + 1) /\
    f = replicate k None ++ Some x :: g /\ repr inner ml n' (S (lv + k)) c' g.

Lemma odd_half c : Z.odd c = true -> c = 2 * (c / 2) + 1.
Proof. intros H. pose proof (Z.div2_odd c) as E. rewrite H, Z.div2_div in E. cbn in E. lia. Qed.
Lemma even_half c : Z.odd c = false -> c = 2 * (c / 2).
Proof. intros H. pose proof (Z.div2_odd c) as E. rewrite H, Z.div2_div in E. cbn in E. lia. Qed.

Lemma bit_clear_ok C lv c : (lv < 32)%nat -> C = 2 ^ Z.of_nat lv * c -> bit_clear C lv = negb (Z.odd c).
Proof.
  intros Hl ->. unfold bit_clear. rewrite wrap_small.
  2:{ rewrite Z.shiftl_1_l. split; [apply Z.pow_nonneg; lia|apply Z.pow_lt_mono_r; lia]. }
  rewrite <- (negb_involutive (_ =? 0)), land_pow2_testbit by lia. f_equal.
  rewrite Z.mul_comm, Z.mul_pow2_bits, Z.sub_diag by lia. apply Z.bit0_odd.
Qed.

(** The combining loop adds the hash to the forest. The counter, already incremented, is
    [c + 1] from level [lv] up. *)
Lemma combine_loop_ok inner ml check C n lv c f w fuel :
  repr inner ml n lv c f -> (n + lv = 32)%nat -> (n <= fuel)%nat -> 0 <= c -> c + 1 < 2 ^ Z.of_nat n ->
  C = 2 ^ Z.of_nat lv * (c + 1) -> level w = lv -> (matchh w = true -> ml < Z.of_nat lv) ->
  exists w' k, combine_loop Hash fuel true check C inner ml w = Some w' /\ level w' = (lv + k)%nat /\
    lowest inner ml n lv (c + 1) (fadd (h w, matchh w) f).1.1 k (h w', matchh w') /\
    pbranch w' = pbranch w ++ (fadd (h w, matchh w) f).1.2 /\
    mutated w' = mutated w || (check && (fadd (h w, matchh w) f).2) /\
    (matchh w' = true -> ml <= Z.of_nat (level w')) /\ (matchh w = true -> matchh w' = true) /\
    (matchh w' = true -> matchh w = true \/ 0 <= ml) /\
    (matchh w' = false -> forall j, (lv <= j <= level w')%nat -> ml <> Z.of_nat j).
Proof.
  revert lv c f w fuel. induction n as [|n IH]; intros lv c f w fuel Hr Hn Hf Hc0 Hc HC Hlv Hm.
  { cbn in Hc. lia. }
  cbn [repr] in Hr. destruct Hr as (f' & -> & Hclr & Hr).
  assert (bit_clear C lv = Z.odd c) as Hbit.
  { rewrite (bit_clear_ok C lv (c + 1)) by (done || lia). rewrite Z.odd_add. by destruct (Z.odd c). }
  destruct fuel as [|fuel]; [lia|]. cbn [combine_loop]. rewrite Hlv, Hbit. destruct (Z.odd c) eqn:Eo.
  - pose proof (odd_half c Eo) as Ec. set (w1 := combine_step Hash true check inner ml w).
    rewrite Nat2Z.inj_succ, Z.pow_succ_r in Hc by lia.
    destruct (IH (S lv) (c / 2) f' w1 fuel Hr) as (w' & k & E & Hl & Hlow & Hp & Hmu & Hm1 & Hm2 & Hm4 & Hm3).
    + lia.
    + lia.
    + apply Z.div_pos; lia.
    + lia.
    + rewrite HC, Nat2Z.inj_succ, Z.pow_succ_r by lia. rewrite Ec at 1. lia.
    + unfold w1. cbn. by rewrite Hlv.
    + unfold w1. cbn [matchh combine_step]. rewrite Hlv. destruct (matchh w); [intros _; specialize (Hm eq_refl); lia|].
      cbn [orb andb negb]. intros H. apply Z.eqb_eq in H. lia.
    + assert (comb (inner !!! lv, ml =? Z.of_nat lv) (h w, matchh w) = (h w1, matchh w1)) as Ecomb.
      { unfold comb, w1, combine_step. cbn [h matchh fst snd andb]. rewrite Hlv. f_equal. by destruct (matchh w). }
      cbn [fadd]. rewrite Ecomb. destruct (fadd (h w1, matchh w1) f') as [[f1 p1] m1]. cbn [fst snd] in *.
      exists w', (S k). split_and!; [done|lia| | | | |intros Hw; apply Hm2; unfold w1; cbn; by rewrite Hw| |].
      * destruct Hlow as (n' & c' & g & -> & H0 & H1 & H2 & H3). exists n', c', g. split_and!; [lia|done| |by rewrite H2|].
        { rewrite Nat2Z.inj_succ, Z.pow_succ_r by lia. lia. }
        by replace (S (lv + S k)) with (S (S lv + k)) by lia.
      * rewrite Hp. unfold w1, combine_step, push. cbn [pbranch fst snd andb]. rewrite Hlv.
        destruct (matchh w), (ml =? Z.of_nat lv); cbn [negb andb orb]; by rewrite <- ?app_assoc.
      * rewrite Hmu. unfold w1, combine_step. cbn [mutated]. rewrite Hlv. destruct (mutated w), check, (inner !!! lv =? h w); done.
      * done.
      * intros Hw. destruct (Hm4 Hw) as [H1|]; [|by right]. unfold w1, combine_step in H1. cbn [matchh] in H1.
        rewrite Hlv in H1. destruct (matchh w); [by left|]. right. cbn in H1. apply Z.eqb_eq in H1. lia.
      * intros Hw j Hj. destruct (decide (j = lv)) as [->|]; [|apply (Hm3 Hw); lia]. intros ->.
        assert (matchh w1 = true) as H1; [|by rewrite (Hm2 H1) in Hw].
        unfold w1, combine_step. cbn [matchh]. rewrite Hlv, Z.eqb_refl. by destruct (matchh w).
  - exists w, 0%nat. pose proof (even_half c Eo) as Ec. cbn [fadd fst snd]. rewrite app_nil_r, andb_false_r, orb_false_r.
    split_and!; try done; try lia.
    + exists n, (c / 2), f'. rewrite Nat.add_0_r. split_and!; [lia|apply Z.div_pos; lia|cbn; lia|done|done].
    + intros H. specialize (Hm H). lia.
    + intros H. by left.
Qed.

(** Storing the hash at its level. *)
Lemma lowest_store inner ml n lv c f k x ml' :
  lowest inner ml n lv c f k x -> (lv + k < length inner)%nat ->
  (x.2 = true -> ml' = Z.of_nat (lv + k)) -> (x.2 = true -> ml <= Z.of_nat (lv + k)) -> (x.2 = false -> ml' = ml) ->
  (x.2 = false -> forall j, (lv <= j <= lv + k)%nat -> ml <> Z.of_nat j) ->
  repr (<[(lv + k)%nat := x.1]> inner) ml' n lv c f.
Proof.
  intros (n' & c' & g & -> & H0 & -> & -> & Hr) Hlen Hm1 Hm1' Hm2 Hm3.
  revert lv Hr Hlen Hm1 Hm1' Hm3. induction k as [|k IH]; intros lv Hr Hlen Hm1 Hm1' Hm3.
  - rewrite Nat.add_0_r in *. cbn [Nat.add repr replicate app]. change (Z.of_nat 0) with 0. rewrite Z.pow_0_r, Z.mul_1_l.
    assert (Z.odd (2 * c' + 1) = true) as Eo by (rewrite Z.odd_add, Z.odd_mul; done).
    rewrite Eo. replace ((2 * c' + 1) / 2) with c' by (Z.to_euclidean_division_equations; lia).
    exists g. split_and!; [|done|].
    + rewrite list_lookup_total_insert_eq by lia. destruct x as [hx [|]]; cbn [fst snd] in *.
      * by rewrite (Hm1 eq_refl), Z.eqb_refl.
      * rewrite (Hm2 eq_refl). rewrite (proj2 (Z.eqb_neq _ _)); [done|]. apply (Hm3 eq_refl). lia.
    + eapply repr_frame; [| |exact Hr].
      * intros j Hj. apply list_lookup_total_insert_ne. lia.
      * intros j Hj. destruct (x.2); [rewrite (Hm1 eq_refl); specialize (Hm1' eq_refl); lia|by rewrite (Hm2 eq_refl)].
  - cbn [Nat.add repr replicate app].
    assert (2 ^ Z.of_nat (S k) * (2 * c' + 1) = 2 * (2 ^ Z.of_nat k * (2 * c' + 1))) as ->.
    { rewrite Nat2Z.inj_succ, Z.pow_succ_r by lia. lia. }
    rewrite Z.odd_mul. cbn [Z.odd andb]. rewrite (Z.mul_comm 2), Z.div_mul by lia.
    exists (replicate k None ++ Some x :: g). split_and!; [done| |].
    + intros _. destruct (x.2); [rewrite (Hm1 eq_refl); lia|]. rewrite (Hm2 eq_refl). apply (Hm3 eq_refl). lia.
    + replace (lv + S k)%nat with (S lv + k)%nat in * by lia. apply IH; [done|lia|done|done|].
      intros Hx j Hj. apply (Hm3 Hx). lia.
Qed.

(** The state of the loop over the leaves, and the forest it stands for. *)
Record leaves_ok (bp : Z) (st : Leaves) (c : Z) (f : list (option node)) : Prop := {
  lo_count : count st = c;
  lo_inner : length (inner st) = 32%nat;
  lo_repr : repr (inner st) (matchlevel st) 32 0 c f;
  lo_match : matchlevel st = -1 \/ bp < c;
}.

Lemma leaf_step_ok bp st c f x :
  leaves_ok bp st c f -> 0 <= c < 2 ^ 31 ->
  exists st', leaf_step Hash true bp st x = Some st' /\
    leaves_ok bp st' (c + 1) (fadd (x, c =? bp) f).1.1 /\
    lbranch st' = lbranch st ++ (fadd (x, c =? bp) f).1.2 /\
    lmutated st' = lmutated st || (fadd (x, c =? bp) f).2.
Proof.
  intros [Hc Hi Hr Hm] Hb. unfold leaf_step. rewrite Hc, wrap_small by (unfold in_u; lia).
  set (w := {| level := 0; h := x; matchh := c =? bp; mutated := lmutated st; pbranch := lbranch st |}).
  destruct (combine_loop_ok (inner st) (matchlevel st) true (c + 1) 32 0 c f w 32 Hr)
    as (w' & k & -> & Hl & Hlow & Hp & Hmu & Hm1 & Hm2 & Hm4 & Hm3); try done; try lia.
  { cbn. intros E. apply Z.eqb_eq in E. lia. }
  cbn [mbind option_bind]. eexists. split; [done|]. cbn [andb] in Hmu. change (h w, matchh w) with (x, c =? bp) in *.
  split_and!; [|done|done]. assert (k < 32)%nat as Hk by (destruct Hlow as (n' & ? & ? & ? & _); lia).
  split; cbn [count inner matchlevel].
  - done.
  - by rewrite length_insert.
  - rewrite Hl. apply (lowest_store (inner st) (matchlevel st) 32 0 (c + 1) _ k (h w', matchh w')); cbn [fst snd];
      [done|lia|by intros ->|rewrite Hl in Hm1; done|by intros ->|rewrite Hl in Hm3; done].
  - destruct (matchh w') eqn:E; [|lia].
    right. destruct (Hm4 eq_refl) as [H|]; [apply Z.eqb_eq in H; lia|]. destruct Hm; lia.
Qed.

Lemma leaves_loop_ok bp st c f l :
  leaves_ok bp st c f -> 0 <= c -> c + Z.of_nat (length l) <= 2 ^ 31 ->
  exists st', leaves_loop Hash true bp st l = Some st' /\
    leaves_ok bp st' (c + Z.of_nat (length l)) (frun f (at_pos c bp l)).1.1 /\
    lbranch st' = lbranch st ++ (frun f (at_pos c bp l)).1.2 /\
    lmutated st' = lmutated st || (frun f (at_pos c bp l)).2.
Proof.
  revert st c f. induction l as [|x l IH]; intros st c f Hst Hc Hl.
  { exists st. cbn. by rewrite Z.add_0_r, app_nil_r, orb_false_r. }
  cbn [length] in Hl. destruct (leaf_step_ok bp st c f x Hst ltac:(lia)) as (st1 & E1 & H1 & Hb1 & Hm1).
  cbn [leaves_loop at_pos frun]. rewrite E1. cbn [mbind option_bind].
  destruct (fadd (x, c =? bp) f) as [[f1 p1] m1]. cbn [fst snd] in *.
  destruct (IH st1 (c + 1) f1 H1 ltac:(lia) ltac:(lia)) as (st2 & E2 & H2 & Hb2 & Hm2).
  destruct (frun f1 (at_pos (c + 1) bp l)) as [[f2 p2] m2]. cbn [fst snd] in *.
  exists st2. split_and!; [done| |by rewrite Hb2, Hb1, app_assoc|by rewrite Hm2, Hm1, orb_assoc].
  cbn [length]. by replace (c + Z.of_nat (S (length l))) with (c + 1 + Z.of_nat (length l)) by lia.
Qed.

Lemma repr_empty inner n lv : repr inner (-1) n lv 0 (replicate n None).
Proof.
  revert lv. induction n as [|n IH]; intros lv; [done|]. cbn [repr replicate]. exists (replicate n None).
  split_and!; [done|lia|apply IH].
Qed.

Lemma repr_none inner ml n lv c f : 0 <= c -> repr inner ml n lv c f -> forallb is_none f = (c =? 0).
Proof.
  revert lv c f. induction n as [|n IH]; intros lv c f Hc; cbn [repr]; [by intros [-> ->]|].
  intros (f' & -> & _ & Hr). cbn [forallb]. rewrite (IH (S lv) (c / 2)) by (done || (apply Z.div_pos; lia)).
  destruct (Z.odd c) eqn:Eo; cbn [is_none andb].
  - pose proof (odd_half c Eo). symmetry. apply Z.eqb_neq. lia.
  - pose proof (even_half c Eo). apply eq_true_iff_eq. rewrite !Z.eqb_eq. lia.
Qed.

Lemma skip_levels_ok inner ml C n lv c f fuel :
  repr inner ml n lv c f -> 1 <= c -> C = 2 ^ Z.of_nat lv * c -> (n + lv = 32)%nat -> (n <= fuel)%nat ->
  exists k, skip_levels fuel C lv = Some (lv + k)%nat /\
    lowest inner ml n lv c f k (inner !!! (lv + k)%nat, ml =? Z.of_nat (lv + k)).
Proof.
  revert lv c f fuel. induction n as [|n IH]; intros lv c f fuel Hr Hc HC Hn Hf; [destruct Hr as [-> _]; lia|].
  cbn [repr] in Hr. destruct Hr as (f' & -> & _ & Hr). destruct fuel as [|fuel]; [lia|]. cbn [skip_levels].
  rewrite (bit_clear_ok C lv c) by (done || lia). destruct (Z.odd c) eqn:Eo; cbn [negb].
  - exists 0%nat. rewrite Nat.add_0_r. split; [done|]. pose proof (odd_half c Eo).
    exists n, (c / 2), f'. rewrite Nat.add_0_r. split_and!; [lia|apply Z.div_pos; lia|cbn; lia|done|done].
  - pose proof (even_half c Eo) as Ec. destruct (IH (S lv) (c / 2) f' fuel Hr) as (k & E & Hlow); [lia| |lia|lia|].
    { rewrite HC, Nat2Z.inj_succ, Z.pow_succ_r by lia. rewrite Ec at 1. lia. }
    exists (S k). replace (lv + S k)%nat with (S lv + k)%nat by lia. split; [done|].
    destruct Hlow as (n' & c' & g & -> & H0 & H1 & -> & H3). exists n', c', g.
    split_and!; [lia|done| |done|].
    + rewrite Nat2Z.inj_succ, Z.pow_succ_r by lia. lia.
    + by replace (S (lv + S k)) with (S (S lv + k)) by lia.
Qed.

Lemma finish_skip fuel k r : (k <= fuel)%nat -> finish fuel (replicate k None ++ r) = finish (fuel - k) r.
Proof.
  revert fuel. induction k as [|k IH]; intros fuel Hk; [by rewrite Nat.sub_0_r|].
  destruct fuel as [|fuel]; [lia|]. cbn [replicate app finish]. rewrite IH by lia. done.
Qed.

Lemma sweep_loop_ok inner ml C n L c g w fuel :
  repr inner ml n (S L) c g -> level w = L -> (n + S L = 32)%nat -> (n < fuel)%nat -> 0 <= c ->
  C = 2 ^ Z.of_nat L * (2 * c + 1) -> C <= 2 ^ 31 -> (matchh w = true -> ml <= Z.of_nat L) ->
  exists w', sweep_loop Hash fuel true inner ml C w = Some w' /\
    h w' = (finish (S n) (Some (h w, matchh w) :: g)).1.1 /\
    pbranch w' = pbranch w ++ (finish (S n) (Some (h w, matchh w) :: g)).2 /\ mutated w' = mutated w.
Proof.
  revert C L c g w fuel. induction n as [n IH] using lt_wf_ind. intros C L c g w fuel Hr HL Hn Hf Hc HC Hmax Hm.
  destruct fuel as [|fuel]; [lia|]. cbn [sweep_loop]. rewrite HL. cbn [finish].
  rewrite (repr_none inner ml n (S L) c g) by done.
  assert (0 < 2 ^ Z.of_nat L <= 2 ^ 31) as Hpow by (split; [apply Z.pow_pos_nonneg; lia|apply Z.pow_le_mono_r; lia]).
  assert (u32 (Z.shiftl 1 (Z.of_nat L)) = 2 ^ Z.of_nat L) as ->.
  { rewrite Z.shiftl_1_l. apply wrap_small. unfold in_u. lia. }
  destruct (Z.eqb_spec c 0) as [->|Hc1].
  { rewrite (proj2 (Z.eqb_eq C _)) by lia. exists w. cbn. by rewrite app_nil_r. }
  rewrite (proj2 (Z.eqb_neq C _)) by nia. cbn [negb andb]. rewrite wrap_small by (unfold in_u; lia).
  set (w0 := {| level := S L; h := Hash (h w) (h w); matchh := matchh w; mutated := mutated w;
                pbranch := if matchh w then pbranch w ++ [h w] else pbranch w |}).
  assert (2 * c + 1 <= 2 ^ Z.of_nat n) as Hcn.
  { replace 31 with (Z.of_nat L + Z.of_nat n) in Hmax by lia. rewrite Z.pow_add_r in Hmax by lia. nia. }
  assert (1 <= n)%nat as Hn1 by (destruct n; [cbn in Hcn; lia|lia]).
  assert (2 * (c + 1) <= 2 ^ Z.of_nat n) as Hcn2.
  { destruct n as [|n0]; [lia|]. rewrite Nat2Z.inj_succ, Z.pow_succ_r in * by lia. lia. }
  destruct (combine_loop_ok inner ml false (C + 2 ^ Z.of_nat L) n (S L) c g w0 32 Hr)
    as (w1 & k & -> & Hl1 & Hlow & Hp & Hmu & Hm1 & _); try done; try lia.
  { rewrite HC, Nat2Z.inj_succ, Z.pow_succ_r by lia. lia. }
  { intros H. cbn in H. specialize (Hm H). lia. }
  cbn [mbind option_bind]. change (h w0, matchh w0) with (dup (h w, matchh w)) in *.
  destruct (fadd (dup (h w, matchh w)) g) as [[f1 p1] m1]. cbn [fst snd] in *.
  destruct Hlow as (n' & c' & g' & -> & H0 & H1 & -> & H3).
  destruct (IH n' ltac:(lia) (C + 2 ^ Z.of_nat L) (S L + k)%nat c' g' w1 fuel) as (w2 & -> & E1 & E2 & E3); try done; try lia.
  { rewrite Nat2Z.inj_add, Z.pow_add_r, <- Z.mul_assoc, <- H1 by lia. rewrite HC, Nat2Z.inj_succ, Z.pow_succ_r by lia. lia. }
  { replace (2 ^ 31) with (2 ^ Z.of_nat L * 2 ^ Z.of_nat (k + S n')) by (rewrite <- Z.pow_add_r by lia; f_equal; lia). nia. }
  { by rewrite Hl1 in Hm1. }
  exists w2. split; [done|]. rewrite finish_skip by lia. replace (k + S n' - k)%nat with (S n') by lia.
  rewrite E1, E2, E3, Hp, Hmu. unfold w0. cbn [pbranch mutated]. rewrite orb_false_r. split_and!; [done| |done].
  destruct (matchh w); by rewrite <- ?app_assoc.
Qed.
End Tree.

(** ** The computation *)

Section Computation.
Variable Hash : Z -> Z -> Z.

(** Without a branch the marks are not followed; root and flag do not depend on them. *)
Definition same_hash (w w' : Walk) : Prop := level w = level w' /\ h w = h w' /\ mutated w = mutated w'.

Lemma combine_loop_want fuel check C inner ml ml' w w' :
  same_hash w w' ->
  match combine_loop Hash fuel true check C inner ml w, combine_loop Hash fuel false check C inner ml' w' with
  | Some v, Some v' => same_hash v v' | None, None => True | _, _ => False
  end.
Proof.
  revert w w'. induction fuel as [|fuel IH]; intros w w' (E1 & E2 & E3); cbn [combine_loop]; rewrite <- E1;
    destruct (bit_clear C (level w)); try done.
  apply IH. unfold combine_step, same_hash. cbn. by rewrite <- E1, <- E2, <- E3.
Qed.

Definition same_leaves (st st' : Leaves) : Prop := count st = count st' /\ inner st = inner st' /\ lmutated st = lmutated st'.

Lemma leaves_loop_want bp bp' l st st' :
  same_leaves st st' ->
  match leaves_loop Hash true bp st l, leaves_loop Hash false bp' st' l with
  | Some v, Some v' => same_leaves v v' | None, None => True | _, _ => False
  end.
Proof.
  revert st st'. induction l as [|x l IH]; intros st st' (E1 & E2 & E3); cbn [leaves_loop]; [done|].
  unfold leaf_step. rewrite <- E1, <- E2, <- E3.
  pose proof (combine_loop_want 32 true (u32 (count st + 1)) (inner st) (matchlevel st) (matchlevel st')
    {| level := 0; h := x; matchh := count st =? bp; mutated := lmutated st; pbranch := lbranch st |}
    {| level := 0; h := x; matchh := count st =? bp'; mutated := lmutated st; pbranch := lbranch st' |} ltac:(done)) as H.
  destruct (combine_loop Hash 32 true _ _ _ _ _) as [w|], (combine_loop Hash 32 false _ _ _ _ _) as [w'|];
    cbn [mbind option_bind]; try done.
  destruct H as (H1 & H2 & H3). apply IH. unfold same_leaves. cbn. by rewrite H1, H2, H3.
Qed.

Lemma sweep_loop_want fuel inner ml ml' C w w' :
  same_hash w w' ->
  match sweep_loop Hash fuel true inner ml C w, sweep_loop Hash fuel false inner ml' C w' with
  | Some v, Some v' => same_hash v v' | None, None => True | _, _ => False
  end.
Proof.
  revert C w w'. induction fuel as [|fuel IH]; intros C w w' (E1 & E2 & E3); cbn [sweep_loop]; rewrite <- E1, <- ?E2, <- ?E3;
    destruct (negb _); try done.
  match goal with |- context [combine_loop Hash 32 true false ?c _ _ ?v] =>
    match goal with |- context [combine_loop Hash 32 false false c _ _ ?v'] =>
      pose proof (combine_loop_want 32 false c inner ml ml' v v' ltac:(done)) as H end end.
  destruct (combine_loop Hash 32 true _ _ _ _ _), (combine_loop Hash 32 false _ _ _ _ _); cbn [mbind option_bind]; try done.
  by apply IH.
Qed.

Lemma MerkleComputation_want l bp bp' :
  (fun r => r.1) <$> MerkleComputation Hash false l bp' = (fun r => r.1) <$> MerkleComputation Hash true l bp.
Proof.
  unfold MerkleComputation. destruct (length l =? 0)%nat; [done|].
  pose proof (leaves_loop_want bp bp' l
    {| count := 0; inner := replicate 32 0; matchlevel := -1; lmutated := false; lbranch := [] |} _ ltac:(done)) as H.
  destruct (leaves_loop Hash true _ _ _) as [st|], (leaves_loop Hash false _ _ _) as [st'|]; cbn [mbind option_bind]; try done.
  destruct H as (E1 & E2 & E3). rewrite <- E1, <- E2. destruct (skip_levels 32 (count st) 0) as [lv|]; cbn [mbind option_bind]; [|done].
  pose proof (sweep_loop_want 32 (inner st) (matchlevel st) (matchlevel st') (count st)
    {| level := lv; h := inner st !!! lv; matchh := matchlevel st =? Z.of_nat lv; mutated := lmutated st; pbranch := lbranch st |}
    {| level := lv; h := inner st !!! lv; matchh := matchlevel st' =? Z.of_nat lv; mutated := lmutated st'; pbranch := lbranch st' |}
    ltac:(by rewrite E3)) as H.
  destruct (sweep_loop Hash 32 true _ _ _ _) as [w|], (sweep_loop Hash 32 false _ _ _ _) as [w'|]; cbn; try done.
  by destruct H as (_ & -> & ->).
Qed.

Lemma pow2_nat_Z n : Z.of_nat (2 ^ n) = 2 ^ Z.of_nat n.
Proof. induction n as [|n IH]; [done|]. rewrite Nat2Z.inj_succ, Z.pow_succ_r by lia. cbn [Nat.pow]. lia. Qed.

Lemma total_fst N (l : list (Z * bool)) : (total Hash N l).1 = (finish Hash N (frun Hash (replicate N None) l).1.1).1.
Proof. done. Qed.
Lemma total_snd N (l : list (Z * bool)) :
  (total Hash N l).2 = (frun Hash (replicate N None) l).1.2 ++ (finish Hash N (frun Hash (replicate N None) l).1.1).2.
Proof. done. Qed.

(** The sizes as integers: [2 ^ 31] is never a unary number. *)
Lemma size_Z n N : Z.of_nat n <= 2 ^ Z.of_nat N -> (n <= 2 ^ N)%nat.
Proof. intros H. apply Nat2Z.inj_le. by rewrite pow2_nat_Z. Qed.

Lemma total_root_Z N (l : list (Z * bool)) : l <> [] -> Z.of_nat (length l) <= 2 ^ Z.of_nat N -> (marks l <= 1)%nat ->
  (total Hash (S N) l).1.1 = tree_root Hash N (map fst l).
Proof. intros Hl Hn Hm. apply total_root; [|done]. apply size_Z in Hn. destruct l; [done|]. cbn in *. lia. Qed.

Lemma total_mutated_Z N (l : list (Z * bool)) : Z.of_nat (length l) <= 2 ^ Z.of_nat N -> (marks l <= 1)%nat ->
  (frun Hash (replicate (S N) None) l).2 = tree_mutated Hash (S N) (map fst l).
Proof.
  intros Hn Hm. apply total_mutated; [|done]. apply Nat2Z.inj_lt. rewrite pow2_nat_Z, Nat2Z.inj_succ, Z.pow_succ_r by lia.
  pose proof (Z.pow_pos_nonneg 2 (Z.of_nat N)). lia.
Qed.

Lemma MerkleComputation_ok l bp :
  l <> [] -> Z.of_nat (length l) <= 2 ^ 31 -> 0 <= bp ->
  MerkleComputation Hash true l bp =
    Some (tree_root Hash 31 l, tree_mutated Hash 32 l, (total Hash 32 (at_pos 0 bp l)).2).
Proof.
  intros Hne Hl Hbp. unfold MerkleComputation.
  rewrite (proj2 (Nat.eqb_neq (length l) 0)) by (by destruct l).
  set (st0 := {| count := 0; inner := replicate 32 0; matchlevel := -1; lmutated := false; lbranch := [] |}).
  assert (leaves_ok bp st0 0 (replicate 32 None)) as H0 by (split; [done|done|apply repr_empty|by left]).
  destruct (leaves_loop_ok Hash bp st0 0 _ l H0 ltac:(lia) ltac:(lia)) as (st & -> & [Hc Hi Hr Hm] & Hb & Hmu).
  cbn [mbind option_bind]. rewrite Z.add_0_l in Hc, Hr.
  assert (1 <= Z.of_nat (length l)) as Hpos by (destruct l; [done|cbn; lia]).
  destruct (skip_levels_ok (inner st) (matchlevel st) (count st) 32 0 _ _ 32 Hr) as (k & -> & Hlow); [lia|rewrite Hc; lia|done|done|].
  cbn [mbind option_bind Nat.add]. destruct Hlow as (n' & c' & g & Hn & Hc0 & Hcc & Hf & Hr').
  set (w := {| level := k; h := inner st !!! k; matchh := matchlevel st =? Z.of_nat k; mutated := lmutated st; pbranch := lbranch st |}).
  destruct (sweep_loop_ok Hash (inner st) (matchlevel st) (count st) n' k c' g w 32 Hr') as (w' & -> & E1 & E2 & E3);
    [done|lia|lia|lia|rewrite Hc; exact Hcc|rewrite Hc; lia| |].
  { cbn. intros E. apply Z.eqb_eq in E. lia. }
  cbn [mbind option_bind]. rewrite E1, E2, E3.
  assert (finish Hash (S n') (Some (h w, matchh w) :: g) = finish Hash 32 (frun Hash (replicate 32 None) (at_pos 0 bp l)).1.1) as ->.
  { rewrite Hf. rewrite finish_skip by lia. by replace (32 - k)%nat with (S n') by lia. }
  assert (at_pos 0 bp l <> []) as Hne2 by (by destruct l).
  pose proof (total_root_Z 31 (at_pos 0 bp l) Hne2 ltac:(rewrite at_pos_length; exact Hl) (at_pos_marks _ _ _)) as HR.
  pose proof (total_mutated_Z 31 (at_pos 0 bp l) ltac:(rewrite at_pos_length; exact Hl) (at_pos_marks _ _ _)) as HM.
  rewrite at_pos_fst in HR, HM. rewrite <- HR, <- HM. clear HR HM. cbn [w mutated pbranch]. rewrite Hmu, Hb. cbn [lmutated lbranch st0 orb app].
  by rewrite total_fst, total_snd.
Qed.

Lemma total_branch_Z N l p : (p < length l)%nat -> Z.of_nat (length l) <= 2 ^ Z.of_nat N ->
  (total Hash (S N) (at_pos 0 (Z.of_nat p) l)).2 = tree_branch Hash N l p.
Proof. intros Hp Hn. apply total_branch; [done|by apply size_Z]. Qed.

Lemma ComputeMerkleRoot_ok l :
  l <> [] -> Z.of_nat (length l) <= 2 ^ 31 ->
  ComputeMerkleRoot Hash l = Some (tree_root Hash 31 l, tree_mutated Hash 32 l).
Proof.
  intros Hne Hl. unfold ComputeMerkleRoot. pose proof (MerkleComputation_want l 0 (u32 (-1))) as H.
  rewrite (MerkleComputation_ok l 0) in H by (done || lia). cbn [fmap option_fmap option_map fst] in H.
  destruct (MerkleComputation Hash false l _) as [[[r m] b]|]; [|done]. cbn in *. congruence.
Qed.

Lemma ComputeMerkleBranch_ok l p :
  (p < length l)%nat -> Z.of_nat (length l) <= 2 ^ 31 ->
  ComputeMerkleBranch Hash l (Z.of_nat p) = Some (tree_branch Hash 31 l p).
Proof.
  intros Hp Hl. unfold ComputeMerkleBranch. rewrite MerkleComputation_ok by (done || lia || (by intros ->; cbn in Hp; lia)).
  cbn [mbind option_bind]. f_equal. apply total_branch_Z; done.
Qed.
Lemma branch_fold_Z N l p : (p < length l)%nat -> Z.of_nat (length l) <= 2 ^ Z.of_nat N ->
  ComputeMerkleRootFromBranch Hash (l !!! p) (tree_branch Hash N l p) (Z.of_nat p) = tree_root Hash N l.
Proof. intros Hp Hn. apply branch_fold; [done|by apply size_Z]. Qed.

Lemma tree_mutated_less N l : tree_mutated Hash (S N) l = false -> tree_mutated Hash N l = false.
Proof.
  revert l. induction N as [|N IH]; intros l H; [done|]. cbn [tree_mutated] in *. apply orb_false_iff in H as [H1 H2].
  rewrite H1. cbn. by apply IH.
Qed.

Lemma tree_injective_Z G N l l' :
  (forall a b c d, (a, b) ∈ G -> (c, d) ∈ G -> Hash a b = Hash c d -> a = c /\ b = d) ->
  l <> [] -> l' <> [] -> Z.of_nat (length l) <= 2 ^ Z.of_nat N -> Z.of_nat (length l') <= 2 ^ Z.of_nat N ->
  hashed Hash N l ⊆ G -> hashed Hash N l' ⊆ G -> height Hash N l = height Hash N l' ->
  tree_root Hash N l = tree_root Hash N l' -> tree_mutated Hash N l = false -> tree_mutated Hash N l' = false -> l = l'.
Proof.
  intros Hinj H1 H2 Hl Hl' HG HG' Hh Hr Hm Hm'. apply size_Z in Hl, Hl'.
  apply (tree_injective Hash G Hinj N); try done; split; try done; [destruct l|destruct l']; (done || cbn; lia).
Qed.
End Computation.

(** ** Properties *)

(** The depth of the tree over [n] leaves is the logarithm of [n], rounded up. *)
Lemma height_log Hash depth l :
  (1 <= length l)%nat -> Z.of_nat (length l) <= 2 ^ Z.of_nat depth -> height Hash depth l = Nat.log2_up (length l).
Proof.
  revert l. induction depth as [|depth IH]; intros l H1 Hl.
  { cbn in Hl. by replace (length l) with 1%nat by lia. }
  cbn [height]. destruct (length l <=? 1)%nat eqn:E; [apply Nat.leb_le in E; by replace (length l) with 1%nat by lia|].
  apply Nat.leb_gt in E. rewrite Nat2Z.inj_succ, Z.pow_succ_r in Hl by lia. pose proof (pair_up_length Hash l) as Hp.
  pose proof (Nat.div_mod_eq (S (length l)) 2) as Hd. pose proof (Nat.mod_upper_bound (S (length l)) 2 ltac:(lia)).
  rewrite IH by lia. rewrite Hp. set (n := (S (length l) / 2)%nat) in *. symmetry. apply Nat.log2_up_unique; [lia|].
  destruct (decide (n = 1%nat)) as [->|Hn]; [change (Nat.log2_up 1) with 0%nat; cbn; lia|].
  pose proof (Nat.log2_up_spec n ltac:(lia)) as [Hs1 Hs2].
  pose proof (Nat.log2_up_pos n ltac:(lia)) as Hpos. cbn [Nat.pred].
  replace (2 ^ Nat.log2_up n)%nat with (2 * 2 ^ Nat.pred (Nat.log2_up n))%nat
    by (rewrite <- Nat.pow_succ_r'; f_equal; lia).
  rewrite Nat.pow_succ_r'. replace (2 ^ Nat.log2_up n)%nat with (2 * 2 ^ Nat.pred (Nat.log2_up n))%nat in *
    by (rewrite <- Nat.pow_succ_r'; f_equal; lia). lia.
Qed.

Lemma Some_pair {A B} (a c : A) (b d : B) : Some (a, b) = Some (c, d) -> a = c /\ b = d.
Proof. by intros [= -> ->]. Qed.

Lemma ComputeMerkleRoot_injective (Hash : Z -> Z -> Z) (l l' : list Z) (root : Z) :
  l <> [] -> l' <> [] -> Z.of_nat (length l) <= 2 ^ 31 -> Z.of_nat (length l') <= 2 ^ 31 ->
  (forall a b c d, (a, b) ∈ hashed Hash 31 l ++ hashed Hash 31 l' -> (c, d) ∈ hashed Hash 31 l ++ hashed Hash 31 l' ->
     Hash a b = Hash c d -> a = c /\ b = d) ->
  Nat.log2_up (length l) = Nat.log2_up (length l') ->
  ComputeMerkleRoot Hash l = Some (root, false) -> ComputeMerkleRoot Hash l' = Some (root, false) -> l = l'.
Proof.
  intros Hne Hne' Hl Hl' Hinj Hh. rewrite !ComputeMerkleRoot_ok by done. intros [Hr Hm]%Some_pair [Hr' Hm']%Some_pair.
  apply (tree_injective_Z Hash _ 31 l l' Hinj); try done.
  - intros p Hp. apply elem_of_app. by left.
  - intros p Hp. apply elem_of_app. by right.
  - rewrite !height_log; [done| |done| |done]; [destruct l'|destruct l]; (done || cbn; lia).
  - by rewrite Hr, Hr'.
  - by apply tree_mutated_less in Hm.
  - by apply tree_mutated_less in Hm'.
Qed.

(** C34: the one-pass computation of ComputeMerkleRoot terminates, never leaves its array of 32
    hashes, and returns the root of the tree that is built level by level, the last hash
    of an odd level paired with itself; its flag says that two sibling subtrees that are
    both complete are equal. 31 levels are enough for the 2^31 leaves a vector may hold. *)
Theorem ComputeMerkleRoot_correct (Hash : Z -> Z -> Z) (leaves : list Z) :
  Z.of_nat (length leaves) <= 2 ^ 31 ->
  ComputeMerkleRoot Hash leaves =
    Some (if (length leaves =? 0)%nat then (0, false) else (tree_root Hash 31 leaves, tree_mutated Hash 32 leaves)).
Proof.
  intros Hl. destruct leaves as [|x l]; [done|]. by rewrite ComputeMerkleRoot_ok.
Qed.

Lemma ComputeMerkleRoot_correct_witness :
  ComputeMerkleRoot (fun a b => 3 * a + 5 * b + 1) [1; 2; 3] = Some (168, false).
Proof. rewrite (ComputeMerkleRoot_correct (fun a b => 3 * a + 5 * b + 1) [1; 2; 3]); [reflexivity|cbn; lia]. Defined.

(** The branch that ComputeMerkleBranch extracts for a leaf leads
    ComputeMerkleRootFromBranch from that leaf to the root of ComputeMerkleRoot. *)
Theorem merkle_branch_roundtrip (Hash : Z -> Z -> Z) (leaves : list Z) (p : nat) :
  (p < length leaves)%nat -> Z.of_nat (length leaves) <= 2 ^ 31 ->
  exists branch root mutated, ComputeMerkleBranch Hash leaves (Z.of_nat p) = Some branch
    /\ ComputeMerkleRoot Hash leaves = Some (root, mutated)
    /\ ComputeMerkleRootFromBranch Hash (leaves !!! p) branch (Z.of_nat p) = root.
Proof.
  intros Hp Hl. exists (tree_branch Hash 31 leaves p), (tree_root Hash 31 leaves), (tree_mutated Hash 32 leaves).
  split_and!; [by apply ComputeMerkleBranch_ok|apply ComputeMerkleRoot_ok; [by intros ->; cbn in Hp; lia|done]|].
  by apply branch_fold_Z.
Qed.

Lemma merkle_branch_roundtrip_witness : exists branch root mutated,
  ComputeMerkleBranch (fun a b => 3 * a + 5 * b + 1) [1; 2; 3; 4; 5] 4 = Some branch
  /\ ComputeMerkleRoot (fun a b => 3 * a + 5 * b + 1) [1; 2; 3; 4; 5] = Some (root, mutated)
  /\ ComputeMerkleRootFromBranch (fun a b => 3 * a + 5 * b + 1) 5 branch 4 = root.
Proof. apply (merkle_branch_roundtrip _ [1; 2; 3; 4; 5] 4); cbn; lia. Defined.

(** The mutation flag defends against CVE-2012-2459: two lists of leaves with trees of the same
    height and the same root, neither flagged as mutated, are equal, as long as no two of the pairs
    hashed in the two trees collide. *)
Theorem merkle_root_injective (Hash : Z -> Z -> Z) (l l' : list Z) (root : Z) :
  l <> [] -> l' <> [] -> Z.of_nat (length l) <= 2 ^ 31 -> Z.of_nat (length l') <= 2 ^ 31 ->
  (forall a b c d, (a, b) ∈ hashed Hash 31 l ++ hashed Hash 31 l' -> (c, d) ∈ hashed Hash 31 l ++ hashed Hash 31 l' ->
     Hash a b = Hash c d -> a = c /\ b = d) ->
  Nat.log2_up (length l) = Nat.log2_up (length l') ->
  ComputeMerkleRoot Hash l = Some (root, false) -> ComputeMerkleRoot Hash l' = Some (root, false) -> l = l'.
Proof. apply ComputeMerkleRoot_injective. Qed.

(** Freedom from collisions can be tested. *)
Definition collision_free (Hash : Z -> Z -> Z) (G : list (Z * Z)) : bool :=
  forallb (fun p => forallb (fun q => implb (Hash p.1 p.2 =? Hash q.1 q.2) ((p.1 =? q.1) && (p.2 =? q.2))) G) G.

Lemma collision_free_ok Hash G : collision_free Hash G = true ->
  forall a b c d, (a, b) ∈ G -> (c, d) ∈ G -> Hash a b = Hash c d -> a = c /\ b = d.
Proof.
  intros H a b c d H1 H2 E. apply list_elem_of_In in H1, H2. unfold collision_free in H. rewrite forallb_forall in H.
  specialize (H _ H1). rewrite forallb_forall in H. specialize (H _ H2). cbn in H. rewrite E, Z.eqb_refl in H.
  cbn in H. by zbool.
Qed.

(** A hash without collisions on the witness. *)
Definition toy_merkle_hash (a b : Z) : Z := 1000 * a + b.

Lemma merkle_root_injective_witness : [1; 2; 3] = [1; 2; 3] /\
  ComputeMerkleRoot toy_merkle_hash [1; 2; 3; 3] <> Some (tree_root toy_merkle_hash 31 [1; 2; 3], false).
Proof.
  split; [|vm_compute; discriminate].
  apply (merkle_root_injective toy_merkle_hash [1; 2; 3] [1; 2; 3] (tree_root toy_merkle_hash 31 [1; 2; 3]));
    [discriminate|discriminate|cbn; lia|cbn; lia| |reflexivity|vm_compute; reflexivity|vm_compute; reflexivity].
  apply collision_free_ok. vm_compute. reflexivity.
Defined.
