(* ===== verification/MerkleBlock.v ===== *)
(** * Partial Merkle trees (merkleblock.cpp, merkleblock.h)

    [CPartialMerkleTree] carries a subset of the transactions of a block: the depth-first
    traversal [TraverseAndBuild] stores one bit per node and the hashes of the subtrees that
    hold no match, [TraverseAndExtract] consumes them. The theorems: extraction after
    building (also through the bit packing of the serialisation) returns the root of the
    block and exactly the matches; and whatever a peer sends, the matches of a partial tree
    that extracts to the root of a block are transactions of that block, at their
    positions, unless two hashed pairs collide. [None] is an access out of range. *)

From stdpp Require Import list.
From S2P Require Import Prelude TxVerify Merkle.


Section PartialMerkleTree.

Variable Hash : Z -> Z -> Z.

Record CPartialMerkleTree := {
  nTransactions : Z;
  vBits : list bool;
  vHash : list Z;
  fBad : bool;
}.

(** Counts are [unsigned int]; [1 << height] is an [int]. *)
Definition CalcTreeWidth (nTransactions : Z) (height : nat) : Z :=
  Z.shiftr (u32 (nTransactions + Z.shiftl 1 (Z.of_nat height) - 1)) (Z.of_nat height).

Fixpoint CalcHash (nTransactions : Z) (height : nat) (pos : Z) (vTxid : list Z) : option Z :=
  match height with
  | O => vTxid !! Z.to_nat pos
  | S height =>
      hl ← CalcHash nTransactions height (u32 (pos * 2)) vTxid;
      hr ← (if u32 (pos * 2 + 1) <? CalcTreeWidth nTransactions height
               then CalcHash nTransactions height (u32 (pos * 2 + 1)) vTxid else Some hl);
      Some (Hash hl hr)
  end.

(** The loop over the transactions below a node, from [p] to [last]. *)
Fixpoint parent_of_match (fuel : nat) (nTransactions p last : Z) (vMatch : list bool) : option bool :=
  if (p <? last) && (p <? nTransactions) then
    match fuel with
    | O => None
    | S fuel =>
        m ← vMatch !! Z.to_nat p;
        r ← parent_of_match fuel nTransactions (u32 (p + 1)) last vMatch;
        Some (m || r)
    end
  else Some false.

(** The bits and hashes stored so far are appended to. *)
Fixpoint TraverseAndBuild (nTransactions : Z) (height : nat) (pos : Z) (vTxid : list Z) (vMatch : list bool)
    (acc : list bool * list Z) : option (list bool * list Z) :=
  fParentOfMatch ← parent_of_match (Z.to_nat nTransactions) nTransactions (u32 (Z.shiftl pos (Z.of_nat height)))
                     (u32 (Z.shiftl (u32 (pos + 1)) (Z.of_nat height))) vMatch;
  let bits := acc.1 ++ [fParentOfMatch] in
  match height with
  | O => x ← CalcHash nTransactions height pos vTxid; Some (bits, acc.2 ++ [x])
  | S height' =>
      if negb fParentOfMatch then x ← CalcHash nTransactions height pos vTxid; Some (bits, acc.2 ++ [x])
      else
        acc ← TraverseAndBuild nTransactions height' (u32 (pos * 2)) vTxid vMatch (bits, acc.2);
        if u32 (pos * 2 + 1) <? CalcTreeWidth nTransactions height'
        then TraverseAndBuild nTransactions height' (u32 (pos * 2 + 1)) vTxid vMatch acc
        else Some acc
  end.

(** [while (CalcTreeWidth(nHeight) > 1) nHeight++;] *)
Fixpoint tree_height (fuel : nat) (nTransactions : Z) (nHeight : nat) : option nat :=
  if CalcTreeWidth nTransactions nHeight >? 1 then
    match fuel with O => None | S fuel => tree_height fuel nTransactions (S nHeight) end
  else Some nHeight.

(** The constructor from the transaction hashes and the selection. *)
Definition CPartialMerkleTree_of (vTxid : list Z) (vMatch : list bool) : option CPartialMerkleTree :=
  let n := u32 (Z.of_nat (length vTxid)) in
  nHeight ← tree_height 32 n 0;
  '(bits, hashes) ← TraverseAndBuild n nHeight 0 vTxid vMatch ([], []);
  Some {| nTransactions := n; vBits := bits; vHash := hashes; fBad := false |}.

(** The state of an extraction. *)
Record Extract := {
  nBitsUsed : nat;
  nHashUsed : nat;
  vMatched : list Z;
  vnIndex : list Z;
  bad : bool;
}.

Fixpoint TraverseAndExtract (t : CPartialMerkleTree) (height : nat) (pos : Z) (e : Extract) : Z * Extract :=
  match vBits t !! nBitsUsed e with
  | None => (0, {| nBitsUsed := nBitsUsed e; nHashUsed := nHashUsed e; vMatched := vMatched e; vnIndex := vnIndex e; bad := true |})
  | Some fParentOfMatch =>
      let e := {| nBitsUsed := S (nBitsUsed e); nHashUsed := nHashUsed e; vMatched := vMatched e; vnIndex := vnIndex e; bad := bad e |} in
      let leaf (is_leaf : bool) :=
        match vHash t !! nHashUsed e with
        | None => (0, {| nBitsUsed := nBitsUsed e; nHashUsed := nHashUsed e; vMatched := vMatched e; vnIndex := vnIndex e; bad := true |})
        | Some hash =>
            (hash, {| nBitsUsed := nBitsUsed e; nHashUsed := S (nHashUsed e);
                      vMatched := if is_leaf && fParentOfMatch then vMatched e ++ [hash] else vMatched e;
                      vnIndex := if is_leaf && fParentOfMatch then vnIndex e ++ [pos] else vnIndex e; bad := bad e |})
        end in
      match height with
      | O => leaf true
      | S height =>
          if negb fParentOfMatch then leaf false
          else
            let '(hl, e) := TraverseAndExtract t height (u32 (pos * 2)) e in
            if u32 (pos * 2 + 1) <? CalcTreeWidth (nTransactions t) height then
              let '(hr, e) := TraverseAndExtract t height (u32 (pos * 2 + 1)) e in
              (Hash hl hr,
               {| nBitsUsed := nBitsUsed e; nHashUsed := nHashUsed e; vMatched := vMatched e; vnIndex := vnIndex e;
                  bad := bad e || (hr =? hl) |})
            else (Hash hl hl, e)
      end
  end.

(** [ExtractMatches]: the root, or 0 on failure, with the matches and their positions; [None] when
    the height loop does not end.  The code clears the vector of matches and appends to that of the positions, which
    its caller outside of the tests, in [rpc/rawtransaction.cpp], passes empty. *)
Definition ExtractMatches (t : CPartialMerkleTree) : option (Z * list Z * list Z) :=
  if nTransactions t =? 0 then Some (0, [], [])
  else if nTransactions t >? MaxBlockSize true / 60 then Some (0, [], [])
  else if Z.of_nat (length (vHash t)) >? nTransactions t then Some (0, [], [])
  else if (length (vBits t) <? length (vHash t))%nat then Some (0, [], [])
  else
    nHeight ← tree_height 32 (nTransactions t) 0;
    let '(hashMerkleRoot, e) :=
      TraverseAndExtract t nHeight 0 {| nBitsUsed := 0; nHashUsed := 0; vMatched := []; vnIndex := []; bad := fBad t |} in
    if bad e then Some (0, vMatched e, vnIndex e)
    else if negb ((nBitsUsed e + 7) / 8 =? (length (vBits t) + 7) / 8)%nat then Some (0, vMatched e, vnIndex e)
    else if negb (nHashUsed e =? length (vHash t))%nat then Some (0, vMatched e, vnIndex e)
    else Some (hashMerkleRoot, vMatched e, vnIndex e).

(** *** The bits on the wire *)

(** [vBytes[p / 8] |= vBits[p] << (p % 8)]: the bits of one byte. *)
Fixpoint pack_byte (n : nat) (bits : list bool) : Z :=
  match n, bits with
  | S n, b :: bits => (if b then 1 else 0) + 2 * pack_byte n bits
  | _, _ => 0
  end.
Fixpoint pack_bytes (n : nat) (bits : list bool) : list Z :=
  match n with O => [] | S n => pack_byte 8 bits :: pack_bytes n (drop 8 bits) end.
Definition pack_bits (bits : list bool) : list Z := pack_bytes ((length bits + 7) / 8) bits.

(** [vBits[p] = (vBytes[p / 8] & (1 << (p % 8))) != 0] *)
Definition unpack_bits (bytes : list Z) : list bool :=
  concat (map (fun b => map (fun p => negb (Z.land b (Z.shiftl 1 (Z.of_nat p)) =? 0)) (seq 0 8)) bytes).

(** What a peer reads of a tree that was written. *)
Definition reread (t : CPartialMerkleTree) : CPartialMerkleTree :=
  {| nTransactions := nTransactions t; vBits := unpack_bits (pack_bits (vBits t)); vHash := vHash t; fBad := false |}.

End PartialMerkleTree.

(** [CMerkleBlock(block, txids)]: the partial tree of the transactions in the set. *)
Definition CMerkleBlock_of (Hash : Z -> Z -> Z) (txids : Z -> bool) (hashes : list Z) : option CPartialMerkleTree :=
  CPartialMerkleTree_of Hash hashes (map txids hashes).

(** ** The levels of the tree *)

Section Levels.
Variable Hash : Z -> Z -> Z.
Variable l : list Z.
Abbreviation N := (Z.of_nat (length l)) (only parsing).

Fixpoint level_of (k : nat) : list Z := match k with O => l | S k => pair_up Hash (level_of k) end.

Definition width (k : nat) : Z := (N + 2 ^ Z.of_nat k - 1) / 2 ^ Z.of_nat k.

Lemma pow_S k : 2 ^ Z.of_nat (S k) = 2 * 2 ^ Z.of_nat k /\ 0 < 2 ^ Z.of_nat k.
Proof. rewrite Nat2Z.inj_succ, Z.pow_succ_r by lia. split; [done|apply Z.pow_pos_nonneg; lia]. Qed.

Lemma width_0 : width 0 = N.
Proof. unfold width. change (2 ^ Z.of_nat 0) with 1. rewrite Z.div_1_r. lia. Qed.

Lemma width_S k : width (S k) = (width k + 1) / 2.
Proof.
  unfold width. destruct (pow_S k) as [-> Hp]. set (p := 2 ^ Z.of_nat k) in *.
  rewrite (Z.mul_comm 2 p), <- Z.div_div by lia. f_equal.
  replace (N + p * 2 - 1) with (N + p - 1 + 1 * p) by lia. by rewrite Z.div_add by lia.
Qed.

Lemma level_length k : Z.of_nat (length (level_of k)) = width k.
Proof.
  induction k as [|k IH]; [by rewrite width_0|]. cbn [level_of]. rewrite pair_up_length, Nat2Z.inj_div, Nat2Z.inj_succ, IH, width_S.
  done.
Qed.

Lemma width_bounds k : N <= width k * 2 ^ Z.of_nat k < N + 2 ^ Z.of_nat k.
Proof.
  unfold width. destruct (pow_S k) as [_ Hp]. set (p := 2 ^ Z.of_nat k) in *.
  pose proof (Z.div_mod (N + p - 1) p ltac:(lia)). pose proof (Z.mod_pos_bound (N + p - 1) p Hp). lia.
Qed.

Lemma width_le k : (1 <= length l)%nat -> 1 <= width k <= N.
Proof.
  intros H. pose proof (width_bounds k). destruct (pow_S k) as [_ Hp]. split; [nia|].
  unfold width. apply Z.lt_succ_r, Z.div_lt_upper_bound; [lia|]. nia.
Qed.

Hypothesis Hn : 1 <= N <= 2 ^ 18.

Lemma CalcTreeWidth_ok k : (k <= 18)%nat -> CalcTreeWidth N k = width k.
Proof.
  intros Hk. unfold CalcTreeWidth, width. destruct (pow_S k) as [_ Hp].
  assert (2 ^ Z.of_nat k <= 2 ^ 18) by (apply Z.pow_le_mono_r; lia).
  rewrite Z.shiftl_1_l, wrap_small by (unfold in_u; lia). by rewrite Z.shiftr_div_pow2 by lia.
Qed.

(** The children of a node. *)
Lemma pair_up_lookup_opt L p :
  pair_up Hash L !! p = (fun a => Hash a (default a (L !! S (2 * p))%nat)) <$> L !! (2 * p)%nat.
Proof.
  revert p. induction L as [|a|a b L IH] using pair_ind; intros p; [done| |].
  - destruct p as [|p]; [done|]. cbn. by replace (p + S (p + 0))%nat with (S (2 * p)) by lia.
  - destruct p as [|p]; [done|]. cbn [pair_up]. replace (2 * S p)%nat with (S (S (2 * p))) by lia. apply (IH p).
Qed.

(** [pos] is a node of level [k]. *)
Definition node_pos (k : nat) (pos : Z) : Prop := 0 <= pos < width k.

Lemma node_lookup k pos : node_pos k pos -> is_Some (level_of k !! Z.to_nat pos).
Proof. intros [H1 H2]. apply lookup_lt_is_Some. pose proof (level_length k). lia. Qed.

Lemma node_children k pos : node_pos (S k) pos -> (k <= 17)%nat ->
  node_pos k (pos * 2) /\ u32 (pos * 2) = pos * 2 /\ u32 (pos * 2 + 1) = pos * 2 + 1
  /\ (u32 (pos * 2 + 1) <? CalcTreeWidth N k) = bool_decide (node_pos k (pos * 2 + 1)).
Proof.
  intros [H1 H2] Hk. rewrite width_S in H2. pose proof (width_le k ltac:(lia)).
  pose proof (Z.div_mod (width k + 1) 2 ltac:(lia)). pose proof (Z.mod_pos_bound (width k + 1) 2 ltac:(lia)).
  split; [split; lia|]. rewrite !wrap_small by (unfold in_u; lia). split_and!; [done..|].
  rewrite CalcTreeWidth_ok by lia. unfold node_pos. case_bool_decide; [apply Z.ltb_lt; lia|apply Z.ltb_ge; lia].
Qed.

(** The value of a node from its children. *)
Lemma node_value k pos : node_pos (S k) pos -> (k <= 17)%nat ->
  exists a, level_of k !! Z.to_nat (pos * 2) = Some a /\
    level_of (S k) !! Z.to_nat pos = Some (Hash a (default a (level_of k !! Z.to_nat (pos * 2 + 1)))) /\
    (~ node_pos k (pos * 2 + 1) -> level_of k !! Z.to_nat (pos * 2 + 1) = None).
Proof.
  intros Hp Hk. destruct (node_children k pos Hp Hk) as (Hc & _). destruct (node_lookup k _ Hc) as [a Ha].
  exists a. split; [done|]. destruct Hp as [Hp _]. split.
  - cbn [level_of]. rewrite pair_up_lookup_opt. replace (2 * Z.to_nat pos)%nat with (Z.to_nat (pos * 2)) by lia.
    rewrite Ha. cbn. by replace (S (Z.to_nat (pos * 2))) with (Z.to_nat (pos * 2 + 1)) by lia.
  - intros H. apply lookup_ge_None_2. pose proof (level_length k). unfold node_pos in H. lia.
Qed.

Lemma CalcHash_ok k pos : node_pos k pos -> (k <= 18)%nat -> CalcHash Hash N k pos l = level_of k !! Z.to_nat pos.
Proof.
  revert pos. induction k as [|k IH]; intros pos Hp Hk; [done|]. cbn [CalcHash].
  destruct (node_children k pos Hp ltac:(lia)) as (Hc & E1 & E2 & E3). rewrite E3, E1, E2, (IH _ Hc) by lia.
  destruct (node_value k pos Hp ltac:(lia)) as (a & Ha & -> & Hnone). rewrite Ha. cbn [mbind option_bind].
  case_bool_decide as Hd.
  - rewrite (IH _ Hd) by lia. destruct (node_lookup k _ Hd) as [b ->]. done.
  - by rewrite Hnone.
Qed.

(** *** The height *)

Lemma tree_height_ok fuel k : (k <= 18)%nat -> (18 <= fuel + k)%nat ->
  exists H, tree_height fuel N k = Some H /\ (k <= H <= 18)%nat /\ width H = 1 /\ forall j, (k <= j < H)%nat -> 1 < width j.
Proof.
  revert k. induction fuel as [|fuel IH]; intros k Hk Hf; cbn [tree_height];
    rewrite CalcTreeWidth_ok, Z.gtb_ltb by lia; destruct (1 <? width k) eqn:E; zbool.
  - exfalso. assert (k = 18%nat) as -> by lia. pose proof (width_bounds 18). change (2 ^ Z.of_nat 18) with 262144 in *. nia.
  - exists k. pose proof (width_le k ltac:(lia)). split_and!; try done; try lia; intros j Hj; lia.
  - destruct (decide (k = 18%nat)) as [->|].
    { exfalso. pose proof (width_bounds 18). change (2 ^ Z.of_nat 18) with 262144 in *. nia. }
    destruct (IH (S k) ltac:(lia) ltac:(lia)) as (H & E1 & E2 & E3 & E4). exists H. split_and!; [done|lia|lia|done|].
    intros j Hj. destruct (decide (j = k)) as [->|]; [done|]. apply E4. lia.
  - exists k. pose proof (width_le k ltac:(lia)). split_and!; try done; try lia; intros j Hj; lia.
Qed.
End Levels.

Lemma level_of_shift Hash l k : level_of Hash l (S k) = level_of Hash (pair_up Hash l) k.
Proof. induction k as [|k IH]; [done|]. cbn [level_of] in *. by rewrite IH. Qed.

(** The only node of the highest level is the root of the tree. *)
Lemma level_root Hash l H depth :
  (H <= depth)%nat -> width l H = 1 -> (forall j, (j < H)%nat -> 1 < width l j) ->
  level_of Hash l H = [tree_root Hash depth l].
Proof.
  revert l depth. induction H as [|H IH]; intros l depth Hd Hw Hj.
  { rewrite width_0 in Hw. destruct l as [|x [|y l]]; cbn in Hw; try lia. by destruct depth. }
  destruct depth as [|depth]; [lia|]. rewrite level_of_shift.
  assert (forall j, width (pair_up Hash l) j = width l (S j)) as Hs.
  { intros j. by rewrite <- (level_length Hash (pair_up Hash l) j), <- (level_length Hash l (S j)), level_of_shift. }
  rewrite (IH _ depth) by (try lia; rewrite ?Hs; (done || (intros j Hlt; rewrite Hs; apply Hj; lia))).
  specialize (Hj 0%nat ltac:(lia)). rewrite width_0 in Hj. by destruct l as [|x [|y l]]; cbn in Hj; try lia.
Qed.

(** ** Building and extracting *)

Section RoundTrip.
Variable Hash : Z -> Z -> Z.
Variable l : list Z.
Variable vMatch : list bool.
Abbreviation N := (Z.of_nat (length l)) (only parsing).
Hypothesis Hn : 1 <= N <= 2 ^ 18.
Hypothesis Hmatch : length vMatch = length l.
Hypothesis Hdistinct : forall k, (k <= 17)%nat -> equal_pair (level_of Hash l k) = false.

(** The matched positions in [a, b). *)
Definition sel (a b : nat) : list nat := filter (fun i => vMatch !! i = Some true) (seq a (b - a)).

Lemma sel_app a b c : (a <= b <= c)%nat -> sel a c = sel a b ++ sel b c.
Proof.
  intros H. unfold sel. rewrite <- filter_app. f_equal. replace (c - a)%nat with ((b - a) + (c - b))%nat by lia.
  rewrite seq_app. by replace (a + (b - a))%nat with b by lia.
Qed.

Lemma sel_nil a b : (b <= a)%nat -> sel a b = [].
Proof. intros H. unfold sel. by replace (b - a)%nat with 0%nat by lia. Qed.

Lemma sel_cons a b : (a < b)%nat -> sel a b = (if decide (vMatch !! a = Some true) then [a] else []) ++ sel (S a) b.
Proof.
  intros H. rewrite (sel_app a (S a) b) by lia. f_equal. unfold sel. replace (S a - a)%nat with 1%nat by lia.
  cbn [seq]. rewrite filter_cons. by destruct (decide _).
Qed.

Lemma parent_of_match_ok fuel p last :
  0 <= p -> last <= 2 ^ 32 - 1 -> N - p <= Z.of_nat fuel ->
  parent_of_match fuel N p last vMatch = Some (bool_decide (sel (Z.to_nat p) (Z.to_nat (Z.min last N)) <> [])).
Proof.
  revert p. induction fuel as [|fuel IH]; intros p Hp Hl Hf; cbn [parent_of_match];
    destruct ((p <? last) && (p <? N)) eqn:E.
  - zbool. lia.
  - rewrite sel_nil; [done|]. apply andb_false_iff in E as [E|E]; zbool; lia.
  - zbool. destruct (lookup_lt_is_Some_2 vMatch (Z.to_nat p) ltac:(lia)) as [m Em]. rewrite Em. cbn [mbind option_bind].
    rewrite wrap_small by (unfold in_u; lia). rewrite IH by lia. cbn [mbind option_bind]. f_equal.
    rewrite (sel_cons (Z.to_nat p)) by lia. rewrite Em. replace (Z.to_nat (p + 1)) with (S (Z.to_nat p)) by lia.
    destruct m; [by rewrite decide_True by done|]. by rewrite decide_False by done.
  - rewrite sel_nil; [done|]. apply andb_false_iff in E as [E|E]; zbool; lia.
Qed.

(** The transactions below a node. *)
Definition lo (k : nat) (pos : Z) : nat := Z.to_nat (pos * 2 ^ Z.of_nat k).
Definition hi (k : nat) (pos : Z) : nat := Z.to_nat (Z.min ((pos + 1) * 2 ^ Z.of_nat k) N).

Lemma parent_ok k pos : node_pos l k pos -> (k <= 18)%nat ->
  parent_of_match (Z.to_nat N) N (u32 (Z.shiftl pos (Z.of_nat k))) (u32 (Z.shiftl (u32 (pos + 1)) (Z.of_nat k))) vMatch
    = Some (bool_decide (sel (lo k pos) (hi k pos) <> [])).
Proof.
  intros [H1 H2] Hk. pose proof (width_bounds l k). pose proof (width_le l k ltac:(lia)). destruct (pow_S k) as [_ Hp].
  assert (2 ^ Z.of_nat k <= 2 ^ 18) by (apply Z.pow_le_mono_r; lia).
  rewrite (wrap_small 32 (pos + 1)) by (unfold in_u; lia). rewrite !Z.shiftl_mul_pow2 by lia.
  rewrite !wrap_small by (unfold in_u; nia). apply parent_of_match_ok; nia.
Qed.

Lemma range_split k pos : node_pos l (S k) pos -> 
  lo (S k) pos = lo k (pos * 2) /\ (lo k (pos * 2) <= hi k (pos * 2))%nat /\
  (node_pos l k (pos * 2 + 1) -> hi k (pos * 2) = lo k (pos * 2 + 1) /\ hi (S k) pos = hi k (pos * 2 + 1)
     /\ (lo k (pos * 2 + 1) <= hi k (pos * 2 + 1))%nat) /\
  (~ node_pos l k (pos * 2 + 1) -> hi (S k) pos = hi k (pos * 2)).
Proof.
  intros [H1 H2]. unfold lo, hi, node_pos. destruct (pow_S k) as [-> Hp].
  pose proof (width_bounds l k). rewrite width_S in H2. set (p := 2 ^ Z.of_nat k) in *.
  pose proof (Z.div_mod (width l k + 1) 2 ltac:(lia)). pose proof (Z.mod_pos_bound (width l k + 1) 2 ltac:(lia)).
  assert (pos * 2 + 1 <= width l k) by lia. split_and!.
  - f_equal. lia.
  - apply Z2Nat.inj_le; nia.
  - intros [_ Hw]. split_and!; [|f_equal; f_equal; lia|apply Z2Nat.inj_le; nia].
    f_equal. rewrite Z.min_l by nia. lia.
  - intros Hw. assert (width l k <= pos * 2 + 1) by lia. f_equal. rewrite !Z.min_r by nia. done.
Qed.

Lemma equal_pair_lookup L p a b : equal_pair L = false -> L !! (2 * p)%nat = Some a -> L !! S (2 * p) = Some b -> a <> b.
Proof.
  revert p. induction L as [|x|x y L IH] using pair_ind; intros p He Ha Hb; [done| |].
  - destruct p; [done|]. cbn in Ha. by destruct (p + _)%nat in Ha.
  - cbn [equal_pair] in He. apply orb_false_iff in He as [He1 He2]. destruct p as [|p].
    + cbn in Ha, Hb. simplify_eq. by apply Z.eqb_neq.
    + replace (2 * S p)%nat with (S (S (2 * p))) in * by lia. by apply (IH p).
Qed.

(** An extraction that has used [b] bits and [n] hashes more and found the positions [s]. *)
Definition advance (e : Extract) (b n : nat) (s : list nat) : Extract :=
  {| nBitsUsed := nBitsUsed e + b; nHashUsed := nHashUsed e + n; vMatched := vMatched e ++ map (l !!!.) s;
     vnIndex := vnIndex e ++ map Z.of_nat s; bad := bad e |}.

Lemma advance_advance e b n s b' n' s' : advance (advance e b n s) b' n' s' = advance e (b + b') (n + n') (s ++ s').
Proof. unfold advance. cbn. by rewrite !map_app, !app_assoc, !Nat.add_assoc. Qed.

(** The piece [B], [Hs] of the tree holds what an extraction of the node consumes. *)
Definition extracts (k : nat) (pos : Z) (B : list bool) (Hs : list Z) : Prop :=
  forall t e, nTransactions t = N -> (exists post, drop (nBitsUsed e) (vBits t) = B ++ post) ->
    (exists post, drop (nHashUsed e) (vHash t) = Hs ++ post) ->
    TraverseAndExtract Hash t k pos e =
      (level_of Hash l k !!! Z.to_nat pos, advance e (length B) (length Hs) (sel (lo k pos) (hi k pos))).

Lemma drop_cons_lookup {A} (L : list A) i x r : drop i L = x :: r -> L !! i = Some x /\ drop (S i) L = r.
Proof.
  intros H. split; [by rewrite <- (Nat.add_0_r i), <- lookup_drop, H|].
  by rewrite <- Nat.add_1_r, <- drop_drop, H.
Qed.

Lemma drop_app_eq {A} (L B R : list A) i : drop i L = B ++ R -> drop (i + length B) L = R.
Proof. intros H. rewrite <- drop_drop, H. by rewrite drop_app_length. Qed.

(** A node that is stored by its hash. *)
Lemma extracts_hash k pos : node_pos l k pos ->
  (k = 0%nat \/ sel (lo k pos) (hi k pos) = []) ->
  extracts k pos [bool_decide (sel (lo k pos) (hi k pos) <> [])] [level_of Hash l k !!! Z.to_nat pos].
Proof.
  intros Hp Hk t e Ht [post Hb] [post' Hh]. cbn [app] in Hb, Hh.
  destruct (drop_cons_lookup _ _ _ _ Hb) as [Eb _]. destruct (drop_cons_lookup _ _ _ _ Hh) as [Eh _].
  set (s := sel (lo k pos) (hi k pos)) in *. set (v := level_of Hash l k !!! Z.to_nat pos) in *.
  assert (TraverseAndExtract Hash t k pos e =
    (v, {| nBitsUsed := S (nBitsUsed e); nHashUsed := S (nHashUsed e);
           vMatched := if (k =? 0)%nat && bool_decide (s <> []) then vMatched e ++ [v] else vMatched e;
           vnIndex := if (k =? 0)%nat && bool_decide (s <> []) then vnIndex e ++ [pos] else vnIndex e; bad := bad e |})) as ->.
  { destruct k as [|k]; cbn [TraverseAndExtract]; rewrite Eb; cbn [nHashUsed]; [by rewrite Eh|].
    destruct Hk as [|Hk]; [lia|]. rewrite Hk. cbn. by rewrite Eh. }
  f_equal. unfold advance. cbn [length]. rewrite !Nat.add_1_r. destruct Hk as [->|Hk].
  - assert (s = if bool_decide (s <> []) then [Z.to_nat pos] else []) as Es.
    { unfold s, lo, hi. destruct Hp as [H1 H2]. rewrite width_0 in H2. cbn [Z.of_nat]. rewrite !Z.pow_0_r, !Z.mul_1_r.
      rewrite Z.min_l by lia. rewrite sel_cons, sel_nil, app_nil_r by lia. by case_decide. }
    cbn [Nat.eqb andb]. rewrite Es. destruct (bool_decide (s <> [])); cbn; [|by rewrite !app_nil_r].
    rewrite Z2Nat.id by (unfold node_pos in Hp; lia). done.
  - rewrite Hk. cbn. rewrite andb_false_r, !app_nil_r. done.
Qed.

Lemma range_nonempty k pos : node_pos l k pos -> (lo k pos < hi k pos)%nat.
Proof.
  intros [H1 H2]. pose proof (width_bounds l k). destruct (pow_S k) as [_ Hp]. unfold lo, hi. apply Z2Nat.inj_lt; nia.
Qed.

(** A node with one child and with two. *)
Lemma extracts_one k pos B Hs : node_pos l (S k) pos -> (k <= 17)%nat -> ~ node_pos l k (pos * 2 + 1) ->
  extracts k (pos * 2) B Hs -> extracts (S k) pos (true :: B) Hs.
Proof.
  intros Hp Hk Hd He t e Ht [post Hb] Hh. cbn [app] in Hb. destruct (drop_cons_lookup _ _ _ _ Hb) as [Eb Hb'].
  destruct (node_children l Hn k pos Hp Hk) as (Hc & E1 & _ & E3). destruct (node_value Hash l Hn k pos Hp Hk) as (a & Ha & Ev & Hnone).
  cbn [TraverseAndExtract]. rewrite Eb. cbn [negb]. rewrite E1.
  rewrite (He t _ Ht) by (cbn; eauto). rewrite Ht, E3, bool_decide_eq_false_2 by done.
  rewrite (list_lookup_total_correct _ _ _ Ha), (list_lookup_total_correct _ _ _ Ev), (Hnone Hd). cbn [default from_option].
  f_equal. destruct (range_split k pos Hp) as (-> & _ & _ & Hr). rewrite (Hr Hd).
  unfold advance. cbn. f_equal. lia.
Qed.

Lemma extracts_two k pos B1 Hs1 B2 Hs2 : node_pos l (S k) pos -> (k <= 17)%nat -> node_pos l k (pos * 2 + 1) ->
  extracts k (pos * 2) B1 Hs1 -> extracts k (pos * 2 + 1) B2 Hs2 -> extracts (S k) pos (true :: B1 ++ B2) (Hs1 ++ Hs2).
Proof.
  intros Hp Hk Hd He1 He2 t e Ht [post Hb] [post' Hh]. cbn [app] in Hb. destruct (drop_cons_lookup _ _ _ _ Hb) as [Eb Hb'].
  rewrite <- app_assoc in Hb', Hh. pose proof (drop_app_eq _ _ _ _ Hb') as Hb2. pose proof (drop_app_eq _ _ _ _ Hh) as Hh2.
  destruct (node_children l Hn k pos Hp Hk) as (Hc & E1 & E2 & E3). destruct (node_value Hash l Hn k pos Hp Hk) as (a & Ha & Ev & _).
  destruct (node_lookup Hash l k _ Hd) as [b Hb1].
  cbn [TraverseAndExtract]. rewrite Eb. cbn [negb]. rewrite E1.
  rewrite (He1 t _ Ht) by (cbn; eauto). rewrite Ht, E3, bool_decide_eq_true_2, E2 by done.
  rewrite (He2 t _ Ht) by (cbn; eauto).
  rewrite (list_lookup_total_correct _ _ _ Ha), (list_lookup_total_correct _ _ _ Hb1), (list_lookup_total_correct _ _ _ Ev), Hb1.
  cbn [default from_option]. f_equal. rewrite advance_advance. unfold advance. cbn [nBitsUsed nHashUsed vMatched vnIndex bad].
  assert ((b =? a) = false) as ->.
  { apply Z.eqb_neq. intros ->. destruct Hp as [Hp0 _]. apply (equal_pair_lookup _ (Z.to_nat pos) a a (Hdistinct k Hk)); [| |done].
    - rewrite <- Ha. f_equal. lia.
    - rewrite <- Hb1. f_equal. lia. }
  rewrite orb_false_r. destruct (range_split k pos Hp) as (-> & Hle & Hr & _). destruct (Hr Hd) as (Er1 & -> & Hle2).
  rewrite (sel_app (lo k (pos * 2)) (hi k (pos * 2)) (hi k (pos * 2 + 1))) by lia. rewrite Er1.
  cbn [length]. rewrite !length_app, !map_app. f_equal; lia.
Qed.

Lemma build_extract k pos acc : node_pos l k pos -> (k <= 18)%nat ->
  exists B Hs, TraverseAndBuild Hash N k pos l vMatch acc = Some (acc.1 ++ B, acc.2 ++ Hs) /\
    extracts k pos B Hs /\ (length Hs <= length B)%nat /\ (length Hs <= hi k pos - lo k pos)%nat.
Proof.
  revert pos acc. induction k as [|k IH]; intros pos acc Hp Hk.
  - exists [bool_decide (sel (lo 0 pos) (hi 0 pos) <> [])], [level_of Hash l 0 !!! Z.to_nat pos].
    cbn [TraverseAndBuild]. rewrite (parent_ok 0 pos) by done. cbn [mbind option_bind].
    rewrite CalcHash_ok by done. destruct (node_lookup Hash l 0 pos Hp) as [v Ev]. rewrite (list_lookup_total_correct _ _ _ Ev), Ev.
    split_and!; [done| |cbn; lia|].
    + rewrite <- (list_lookup_total_correct _ _ _ Ev). by apply extracts_hash; [|left].
    + destruct Hp as [H1 H2]. rewrite width_0 in H2. unfold lo, hi. cbn [length]. change (2 ^ Z.of_nat 0) with 1. lia.
  - cbn [TraverseAndBuild]. rewrite (parent_ok (S k) pos) by done. cbn [mbind option_bind].
    case_bool_decide as Hs; cbn [negb].
    2:{ rewrite CalcHash_ok by done. destruct (node_lookup Hash l (S k) pos Hp) as [v Ev]. rewrite Ev.
        exists [false], [v]. split_and!; [done| |cbn; lia|].
        - pose proof (extracts_hash (S k) pos Hp (or_intror Hs)) as He. rewrite (list_lookup_total_correct _ _ _ Ev) in He.
          rewrite bool_decide_eq_false_2 in He; [done|]. by intros ?.
        - pose proof (range_nonempty (S k) pos Hp). cbn [length]. lia. }
    destruct (node_children l Hn k pos Hp ltac:(lia)) as (Hc & E1 & E2 & E3). rewrite E1.
    destruct (range_split k pos Hp) as (Elo & Hle & Hr & Hr1).
    destruct (IH (pos * 2) (acc.1 ++ [true], acc.2) Hc ltac:(lia)) as (B1 & Hs1 & -> & He1 & Hl1 & Hc1).
    cbn [mbind option_bind fst snd]. rewrite E3. case_bool_decide as Hd.
    + rewrite E2. destruct (IH (pos * 2 + 1) ((acc.1 ++ [true]) ++ B1, acc.2 ++ Hs1) Hd ltac:(lia)) as (B2 & Hs2 & -> & He2 & Hl2 & Hc2).
      destruct (Hr Hd) as (Er1 & Er2 & Hle2). exists (true :: B1 ++ B2), (Hs1 ++ Hs2). cbn [fst snd]. split_and!.
      * by rewrite <- !app_assoc.
      * apply extracts_two; [done|lia|done..].
      * cbn [length]. rewrite !length_app. lia.
      * rewrite length_app, Er2, Elo. lia.
    + exists (true :: B1), Hs1. split_and!.
      * by rewrite <- !app_assoc.
      * apply extracts_one; [done|lia|done..].
      * cbn [length]. lia.
      * rewrite (Hr1 Hd), Elo. lia.
Qed.
End RoundTrip.

(** ** The bits on the wire *)

Lemma pack_byte_bit n bits p : (p < n)%nat -> Z.testbit (pack_byte n bits) (Z.of_nat p) = nth p bits false.
Proof.
  revert bits p. induction n as [|n IH]; intros bits p Hp; [lia|].
  destruct bits as [|b bits]; cbn [pack_byte]; [rewrite Z.bits_0; by destruct p|].
  assert ((if b then 1 else 0) = Z.b2z b) as -> by by destruct b. rewrite Z.add_comm. destruct p as [|p].
  - apply Z.testbit_0_r.
  - rewrite Nat2Z.inj_succ, Z.testbit_succ_r by lia. cbn [nth]. apply IH. lia.
Qed.

Lemma map_nth_take n (bits : list bool) :
  map (fun p => nth p bits false) (seq 0 n) = take n bits ++ replicate (n - length bits) false.
Proof.
  revert bits. induction n as [|n IH]; intros bits; [done|]. cbn [seq map]. rewrite <- seq_shift, map_map.
  destruct bits as [|b bits]; cbn [nth take app length Nat.sub replicate].
  - f_equal. specialize (IH []). rewrite take_nil, Nat.sub_0_r in IH. cbn [app] in IH. rewrite <- IH.
    apply map_ext. intros p. by destruct p.
  - f_equal. apply IH.
Qed.

Lemma unpack_pack n bits :
  unpack_bits (pack_bytes n bits) = take (8 * n) bits ++ replicate (8 * n - length bits) false.
Proof.
  revert bits. induction n as [|n IH]; intros bits; [done|]. cbn [pack_bytes]. unfold unpack_bits in *.
  cbn [map concat]. rewrite (IH (drop 8 bits)), length_drop.
  assert (map (fun p => negb (Z.land (pack_byte 8 bits) (Z.shiftl 1 (Z.of_nat p)) =? 0)) (seq 0 8)
    = map (fun p => nth p bits false) (seq 0 8)) as ->.
  { apply map_ext_in. intros p Hp. apply in_seq in Hp. rewrite land_pow2_testbit by lia. apply pack_byte_bit. lia. }
  rewrite map_nth_take. replace (8 * S n)%nat with (8 + 8 * n)%nat by lia.
  destruct (decide (length bits < 8)%nat).
  - rewrite (take_ge bits 8), (take_ge bits (8 + 8 * n)), (drop_ge bits 8), take_nil by lia. cbn [app].
    rewrite <- app_assoc, <- replicate_add. do 2 f_equal. lia.
  - replace (8 - length bits)%nat with 0%nat by lia. cbn [replicate]. rewrite app_nil_r, app_assoc. f_equal; [|f_equal; lia].
    rewrite <- (take_drop 8 bits) at 3. rewrite take_app_ge; rewrite length_take; [|lia]. do 2 f_equal. lia.
Qed.

Lemma unpack_pack_bits bits : exists n,
  unpack_bits (pack_bits bits) = bits ++ replicate n false /\ ((length bits + 7) / 8 = (length (bits ++ replicate n false) + 7) / 8)%nat.
Proof.
  unfold pack_bits. set (n := ((length bits + 7) / 8)%nat). exists (8 * n - length bits)%nat.
  pose proof (Nat.div_mod_eq (length bits + 7) 8) as Hd. pose proof (Nat.mod_upper_bound (length bits + 7) 8 ltac:(lia)).
  fold n in Hd. rewrite unpack_pack, take_ge by lia. split; [done|].
  rewrite length_app, length_replicate. replace (length bits + (8 * n - length bits) + 7)%nat with (7 + n * 8)%nat by lia.
  rewrite Nat.div_add by lia. done.
Qed.

(** ** Whole trees *)

Definition start_extract : Extract := {| nBitsUsed := 0; nHashUsed := 0; vMatched := []; vnIndex := []; bad := false |}.

(** Subtrees that are siblings have different hashes, on every level. *)
Definition siblings_differ (Hash : Z -> Z -> Z) (l : list Z) : Prop :=
  forall k, (k <= 17)%nat -> equal_pair (level_of Hash l k) = false.

Definition max_transactions : Z := MaxBlockSize true / 60.

(** The matched positions of a block. *)
Definition matched (vMatch : list bool) : list nat := sel vMatch 0 (length vMatch).

Section Whole.
Variable Hash : Z -> Z -> Z.
Variable l : list Z.
Hypothesis Hn : 1 <= Z.of_nat (length l) <= max_transactions.

Lemma small_block : 1 <= Z.of_nat (length l) <= 2 ^ 18.
Proof. unfold max_transactions in Hn. change (MaxBlockSize true / 60) with 166666 in Hn. lia. Qed.

(** The height of the tree and its root. *)
Lemma tree_top : exists H, tree_height 32 (Z.of_nat (length l)) 0 = Some H /\ (H <= 18)%nat /\ width l H = 1 /\
  (forall j, (j < H)%nat -> 1 < width l j) /\ level_of Hash l H = [tree_root Hash 31 l] /\ node_pos l H 0.
Proof.
  pose proof small_block as Hs. destruct (tree_height_ok l Hs 32 0 ltac:(lia) ltac:(lia)) as (H & E1 & E2 & E3 & E4).
  exists H. split_and!; [done|lia|done|intros j Hj; apply E4; lia| |unfold node_pos; lia].
  apply level_root; [lia|done|]. intros j Hj. apply E4. lia.
Qed.

Lemma roundtrip_ok vMatch : length vMatch = length l -> siblings_differ Hash l ->
  exists t, CPartialMerkleTree_of Hash l vMatch = Some t /\ fBad t = false /\
    forall t', nTransactions t' = nTransactions t -> vHash t' = vHash t -> fBad t' = false ->
      (exists n, vBits t' = vBits t ++ replicate n false) -> ((length (vBits t) + 7) / 8 = (length (vBits t') + 7) / 8)%nat ->
      ExtractMatches Hash t' = Some (tree_root Hash 31 l, map (l !!!.) (matched vMatch), map Z.of_nat (matched vMatch)).
Proof.
  intros Hm Hd. pose proof small_block as Hs. destruct tree_top as (H & E1 & E2 & E3 & E4 & E5 & E6).
  destruct (build_extract Hash l vMatch Hs Hm Hd H 0 ([], []) E6 E2) as (B & Hh & E7 & He & Hl & Hc).
  unfold CPartialMerkleTree_of. rewrite wrap_small by (unfold in_u; lia). rewrite E1. cbn [mbind option_bind].
  rewrite E7. cbn [mbind option_bind fst snd app]. eexists. split; [done|]. split; [done|]. cbn [nTransactions vHash vBits].
  intros [n' b' h' f'] Hn' Hh' Hf' (m & Hb') Hlen. cbn [nTransactions vHash vBits fBad] in *. subst n' b' h' f'.
  assert (lo H 0 = 0%nat /\ hi l H 0 = length l) as [Elo Ehi].
  { unfold lo, hi. split; [done|]. pose proof (width_bounds l H) as Hw. rewrite E3 in Hw. rewrite Z.min_r by lia. lia. }
  rewrite Elo, Ehi in Hc. unfold ExtractMatches. cbn [nTransactions vHash vBits fBad].
  rewrite (proj2 (Z.eqb_neq _ 0)) by lia. fold max_transactions.
  rewrite !Z.gtb_ltb, (proj2 (Z.ltb_ge max_transactions _)), (proj2 (Z.ltb_ge _ (Z.of_nat (length Hh)))) by lia.
  rewrite (proj2 (Nat.ltb_ge _ _)) by (rewrite length_app; lia). rewrite E1. cbn [mbind option_bind].
  rewrite He; [|done|by exists (replicate m false)|exists []; by rewrite app_nil_r].
  rewrite Elo, Ehi. cbn [advance bad nBitsUsed nHashUsed vMatched vnIndex Nat.add app].
  rewrite Hlen, !Nat.eqb_refl. cbn [negb]. unfold matched. rewrite Hm, E5. done.
Qed.
End Whole.

(** ** What a peer sends: soundness of the extraction *)

(** The pairs that an extraction hashes. *)
Fixpoint extract_pairs (Hash : Z -> Z -> Z) (t : CPartialMerkleTree) (height : nat) (pos : Z) (e : Extract) : list (Z * Z) :=
  match vBits t !! nBitsUsed e with
  | None => []
  | Some fParentOfMatch =>
      let e := {| nBitsUsed := S (nBitsUsed e); nHashUsed := nHashUsed e; vMatched := vMatched e; vnIndex := vnIndex e; bad := bad e |} in
      match height with
      | O => []
      | S height =>
          if negb fParentOfMatch then []
          else
            let l := TraverseAndExtract Hash t height (u32 (pos * 2)) e in
            extract_pairs Hash t height (u32 (pos * 2)) e ++
            (if u32 (pos * 2 + 1) <? CalcTreeWidth (nTransactions t) height then
               let r := TraverseAndExtract Hash t height (u32 (pos * 2 + 1)) l.2 in
               extract_pairs Hash t height (u32 (pos * 2 + 1)) l.2 ++ [(l.1, r.1)]
             else [(l.1, l.1)])
      end
  end.

Lemma level_pairs_lookup L p a : L !! (2 * p)%nat = Some a -> (a, default a (L !! S (2 * p))) ∈ level_pairs L.
Proof.
  revert p. induction L as [|x|x y L IH] using pair_ind; intros p Ha; [done| |].
  - destruct p; cbn in Ha; [simplify_eq; by left|]. by destruct (p + _)%nat in Ha.
  - destruct p as [|p].
    + cbn in *. simplify_eq. by left.
    + replace (2 * S p)%nat with (S (S (2 * p))) in * by lia. right. by apply IH.
Qed.

Lemma hashed_level Hash depth l j :
  (j < depth)%nat -> (forall i, (i <= j)%nat -> (1 < length (level_of Hash l i))%nat) ->
  level_pairs (level_of Hash l j) ⊆ hashed Hash depth l.
Proof.
  revert l j. induction depth as [|depth IH]; intros l j Hj Hl; [lia|]. cbn [hashed].
  pose proof (Hl 0%nat ltac:(lia)) as H0. cbn [level_of] in H0. rewrite (proj2 (Nat.leb_gt _ _)) by lia.
  destruct j as [|j]; [by apply list_subseteq_app_l|]. rewrite level_of_shift. apply list_subseteq_app_r, IH; [lia|].
  intros i Hi. rewrite <- level_of_shift. apply Hl. lia.
Qed.

Section Sound.
Variable Hash : Z -> Z -> Z.
Variable l : list Z.
Variable t : CPartialMerkleTree.
Variable G : list (Z * Z).
Variable top : nat.
Hypothesis Hn : 1 <= Z.of_nat (length l) <= 2 ^ 18.
Hypothesis Ht : nTransactions t = Z.of_nat (length l).
Hypothesis Hash_inj : forall a b c d, (a, b) ∈ G -> (c, d) ∈ G -> Hash a b = Hash c d -> a = c /\ b = d.
Hypothesis Hhonest : forall j, (j < top)%nat -> level_pairs (level_of Hash l j) ⊆ G.

Lemma bad_stays k pos e : bad e = true -> bad (TraverseAndExtract Hash t k pos e).2 = true.
Proof.
  revert pos e. induction k as [|k IH]; intros pos e Hb; cbn [TraverseAndExtract].
  - by destruct (vBits t !! _); [destruct (vHash t !! _)|].
  - destruct (vBits t !! nBitsUsed e) as [f|]; [|done]. destruct (negb f); [by destruct (vHash t !! _)|].
    set (e1 := {| nBitsUsed := _ |}). pose proof (IH (u32 (pos * 2)) e1 Hb) as H1.
    destruct (TraverseAndExtract Hash t k (u32 (pos * 2)) e1) as [x e2]. cbn [snd] in H1. destruct (_ <? _); [|done].
    pose proof (IH (u32 (pos * 2 + 1)) e2 H1) as H2.
    destruct (TraverseAndExtract Hash t k (u32 (pos * 2 + 1)) e2) as [y e3]. cbn [snd bad] in *. by rewrite H2.
Qed.

(** The extraction found transactions of the block at the positions it reports. *)
Definition found (e e' : Extract) : Prop :=
  exists s, Forall (fun i => (i < length l)%nat) s /\
    vMatched e' = vMatched e ++ map (l !!!.) s /\ vnIndex e' = vnIndex e ++ map Z.of_nat s.

Lemma found_nil e e' : vMatched e' = vMatched e -> vnIndex e' = vnIndex e -> found e e'.
Proof. intros E1 E2. exists []. rewrite E1, E2, !app_nil_r. done. Qed.

Lemma found_trans e1 e2 e3 : found e1 e2 -> found e2 e3 -> found e1 e3.
Proof.
  intros (s & H1 & H2 & H3) (s' & H1' & H2' & H3'). exists (s ++ s'). split; [by apply Forall_app|].
  by rewrite H2', H3', H2, H3, !map_app, !app_assoc.
Qed.

Lemma extract_sound k pos e :
  node_pos l k pos -> (k <= top)%nat -> (k <= 18)%nat -> extract_pairs Hash t k pos e ⊆ G ->
  let r := TraverseAndExtract Hash t k pos e in
  bad r.2 = false -> level_of Hash l k !! Z.to_nat pos = Some r.1 -> found e r.2.
Proof.
  revert pos e. induction k as [|k IH]; intros pos e Hp Hk Hk' HG r Hb Hr; subst r.
  { cbn [TraverseAndExtract] in *. destruct (vBits t !! nBitsUsed e) as [f|]; [|done]. cbn [nHashUsed] in *.
    destruct (vHash t !! nHashUsed e) as [x|]; [|done]. cbn [fst snd level_of andb] in *.
    destruct f; [|by apply found_nil]. exists [Z.to_nat pos]. cbn. rewrite (list_lookup_total_correct _ _ _ Hr).
    destruct Hp as [H1 H2]. rewrite width_0 in H2. rewrite Z2Nat.id by done. split; [|done].
    apply Forall_singleton. lia. }
  cbn [TraverseAndExtract extract_pairs] in *. destruct (vBits t !! nBitsUsed e) as [f|]; [|done].
  destruct (negb f).
  { cbn [nHashUsed] in *. destruct (vHash t !! nHashUsed e) as [x|]; [|done]. by apply found_nil. }
  set (e1 := {| nBitsUsed := S (nBitsUsed e); nHashUsed := nHashUsed e; vMatched := vMatched e; vnIndex := vnIndex e; bad := bad e |}) in *.
  destruct (node_children l Hn k pos Hp ltac:(lia)) as (Hc & E1 & E2 & E3).
  destruct (node_value Hash l Hn k pos Hp ltac:(lia)) as (a & Ha & Ev & Hnone).
  rewrite Ht, E1, E3, E2 in *. rewrite Ev in Hr.
  assert ((a, default a (level_of Hash l k !! Z.to_nat (pos * 2 + 1))) ∈ G) as Hab.
  { apply (Hhonest k ltac:(lia)). destruct Hp as [Hp0 _].
    replace (Z.to_nat (pos * 2 + 1)) with (S (2 * Z.to_nat pos)) by lia. apply level_pairs_lookup.
    rewrite <- Ha. f_equal. lia. }
  pose proof (IH (pos * 2) e1 Hc ltac:(lia) ltac:(lia)) as IH1.
  destruct (TraverseAndExtract Hash t k (pos * 2) e1) as [x e2] eqn:Ex. cbn [fst snd] in *.
  apply list_subseteq_app_iff_l in HG as [HG1 HG2].
  case_bool_decide as Hd.
  - pose proof (IH (pos * 2 + 1) e2 Hd ltac:(lia) ltac:(lia)) as IH2.
    pose proof (bad_stays k (pos * 2 + 1) e2) as Hbad.
    destruct (TraverseAndExtract Hash t k (pos * 2 + 1) e2) as [y e3] eqn:Ey. cbn [fst snd bad] in *.
    apply list_subseteq_app_iff_l in HG2 as [HG2 HG3]. apply orb_false_iff in Hb as [Hb _].
    injection Hr as Hr. apply Hash_inj in Hr as [-> Hy]; [|done|apply HG3; by left].
    destruct (node_lookup Hash l k _ Hd) as [b Hb1]. rewrite Hb1 in Hy. cbn in Hy. subst y.
    apply (found_trans e1 e2); [apply IH1; [done| |done]|].
    + destruct (bad e2); [by rewrite Hbad in Hb|done].
    + apply found_trans with e3; [apply IH2; [exact HG2|exact Hb|exact Hb1]|by apply found_nil].
  - injection Hr as Hr. apply Hash_inj in Hr as [-> _]; [|done|apply HG2; by left]. by apply IH1.
Qed.
End Sound.

(** ** Properties *)

(** C33: the partial tree of a block round trips: CPartialMerkleTree builds it without leaving the
    vectors, and ExtractMatches, on the tree itself and on the tree as a peer reads it from its
    packed bytes, returns the Merkle root of the block with exactly the matched hashes and their
    positions, when no two sibling subtrees are equal and the block is of admissible size. *)
Theorem partial_tree_roundtrip (Hash : Z -> Z -> Z) (hashes : list Z) (vMatch : list bool) :
  1 <= Z.of_nat (length hashes) <= MaxBlockSize true / 60 -> length vMatch = length hashes -> siblings_differ Hash hashes ->
  exists t, CPartialMerkleTree_of Hash hashes vMatch = Some t /\
    let r := (tree_root Hash 31 hashes, map (hashes !!!.) (matched vMatch), map Z.of_nat (matched vMatch)) in
    ExtractMatches Hash t = Some r /\ ExtractMatches Hash (reread t) = Some r.
Proof.
  intros Hn Hm Hd. destruct (roundtrip_ok Hash hashes Hn vMatch Hm Hd) as (t & E & Hf & Ht). exists t. split; [done|]. split.
  - apply Ht; try done. exists 0%nat. cbn. by rewrite app_nil_r.
  - destruct (unpack_pack_bits (vBits t)) as (n & Eu & El). apply Ht; try done.
    + exists n. done.
    + unfold reread. cbn [vBits]. by rewrite Eu.
Qed.

Definition toy_hashes : list Z := [11; 22; 33; 44; 55].

Lemma partial_tree_roundtrip_witness : exists t,
  CPartialMerkleTree_of toy_merkle_hash toy_hashes [false; true; false; false; true] = Some t /\
  ExtractMatches toy_merkle_hash (reread t) = Some (tree_root toy_merkle_hash 31 toy_hashes, [22; 55], [1; 4]).
Proof.
  destruct (partial_tree_roundtrip toy_merkle_hash toy_hashes [false; true; false; false; true]) as (t & H1 & _ & H2);
    [vm_compute; split; discriminate|reflexivity| |exists t; exact (conj H1 H2)].
  intros k Hk. do 18 (destruct k as [|k]; [vm_compute; reflexivity|]). lia.
Defined.

(** Whatever tree a peer sends for a block of [n] transactions: when ExtractMatches returns the
    (non-zero) Merkle root of the block, every hash it reports is the hash of the transaction
    at the position it reports, unless two of the pairs hashed by the block's tree and by the
    extraction collide. *)
Theorem partial_tree_sound (Hash : Z -> Z -> Z) (hashes : list Z) (t : CPartialMerkleTree) (root : Z) (vMatched_ vnIndex_ : list Z) (H : nat) :
  1 <= Z.of_nat (length hashes) <= MaxBlockSize true / 60 -> nTransactions t = Z.of_nat (length hashes) -> fBad t = false ->
  tree_height 32 (nTransactions t) 0 = Some H ->
  (let G := hashed Hash 31 hashes ++ extract_pairs Hash t H 0 start_extract in
   forall a b c d, (a, b) ∈ G -> (c, d) ∈ G -> Hash a b = Hash c d -> a = c /\ b = d) ->
  tree_root Hash 31 hashes <> 0 -> ExtractMatches Hash t = Some (tree_root Hash 31 hashes, vMatched_, vnIndex_) ->
  Forall2 (fun h i => hashes !! Z.to_nat i = Some h) vMatched_ vnIndex_.
Proof.
  intros Hn Ht Hbad EH Hinj H0 E. destruct (tree_top Hash hashes Hn) as (H' & E1 & E2 & E3 & E4 & E5 & E6).
  rewrite Ht, E1 in EH. injection EH as ->.
  set (r := tree_root Hash 31 hashes) in *. clearbody r. unfold ExtractMatches in E. rewrite Ht, E1 in E.
  repeat (case_if_in E; [congruence|]). cbn [mbind option_bind] in E. rewrite Hbad in E. fold start_extract in E.
  pose proof (extract_sound Hash hashes t (hashed Hash 31 hashes ++ extract_pairs Hash t H 0 start_extract) H
    (small_block hashes Hn) Ht Hinj) as Hsound.
  destruct (TraverseAndExtract Hash t H 0 start_extract) as [x e] eqn:Ex.
  repeat (case_if_in E; [congruence|]). injection E as -> <- <-.
  destruct (Hsound) with (k := H) (pos := 0) (e := start_extract) as (s & Hs & Em & Ei); try done; try lia.
  - intros j Hj. apply (transitivity (y := hashed Hash 31 hashes)); [|by apply list_subseteq_app_l].
    apply hashed_level; [lia|]. intros i Hi. specialize (E4 i ltac:(lia)). rewrite <- (level_length Hash) in E4. lia.
  - by apply list_subseteq_app_r.
  - by rewrite Ex.
  - rewrite Ex, E5. done.
  - rewrite Ex in Em, Ei. cbn in Em, Ei. rewrite Em, Ei. clear -Hs. induction Hs as [|i s Hi Hs IH]; constructor; [|done].
    rewrite Nat2Z.id. by apply list_lookup_lookup_total_lt.
Qed.

Lemma partial_tree_sound_witness : Forall2 (fun h i => toy_hashes !! Z.to_nat i = Some h) [22; 55] [1; 4].
Proof.
  apply (partial_tree_sound toy_merkle_hash toy_hashes
    {| nTransactions := 5; vBits := [true; true; true; false; true; false; true; true; true; false; false; false; false; false; false; false];
       vHash := [11; 22; toy_merkle_hash 33 44; 55]; fBad := false |} (tree_root toy_merkle_hash 31 toy_hashes) [22; 55] [1; 4] 3);
    [vm_compute; split; discriminate|reflexivity|reflexivity|vm_compute; reflexivity| |vm_compute; discriminate|vm_compute; reflexivity].
  apply collision_free_ok. vm_compute. reflexivity.
Defined.
