(* ===== verification/AuxPow.v ===== *)
(** * Merged mining: block versions, the auxiliary proof of work, block serialization

    Models [src/src/primitives/pureheader.h] (the version of a block as base version,
    flag and chain ID), [src/src/primitives/block.h] (headers with an optional
    auxiliary proof of work, and blocks), [src/src/auxpow.h] and [src/src/auxpow.cpp],
    and [CheckProofOfWork] of a block header in [src/src/validation.cpp].

    A pure header is the record [Chain.CBlockHeader].  Iterators into a script are
    positions; [error(...)] returns [Some false]; [None] is undefined behaviour or a
    failed [assert]. *)

From stdpp Require Import gmap.
From S2P Require Import Prelude ArithUint256 Chain Script Transaction Serialize Pow TxVerify VersionBits Merkle.

Abbreviation CPureBlockHeader := Chain.CBlockHeader (only parsing).

(** ** The version of a header *)

Definition VERSION_AUXPOW : Z := Z.shiftl 1 8.
Definition VERSION_CHAIN_START : Z := Z.shiftl 1 16.

Definition GetBaseVersion (ver : Z) : Z := Z.rem ver VERSION_AUXPOW.

(** The products are computed in [int32_t]; [None] is their overflow. *)
Definition chain_version (nChainId : Z) : option Z :=
  let p := nChainId * VERSION_CHAIN_START in
  if decide (in_s 32 p) then Some p else None.

Definition SetBaseVersion (nBaseVersion nChainId : Z) : option Z :=
  c ← chain_version nChainId; Some (Z.lor nBaseVersion c).

Definition GetChainId (nVersion : Z) : Z :=
  Z.quot (Z.land nVersion (Z.lnot VERSIONBITS_TOP_MASK)) VERSION_CHAIN_START.

Definition SetChainId (nVersion chainId : Z) : option Z :=
  c ← chain_version chainId; Some (Z.lor (Z.rem nVersion VERSION_CHAIN_START) c).

Definition IsAuxpow (nVersion : Z) : bool := negb (Z.land nVersion VERSION_AUXPOW =? 0).

Definition SetAuxpowVersion (nVersion : Z) (auxpow : bool) : Z :=
  if auxpow then Z.lor nVersion VERSION_AUXPOW else Z.land nVersion (Z.lnot VERSION_AUXPOW).

Definition IsLegacy (nVersion : Z) : bool := nVersion =? 1.

Definition set_version (h : CPureBlockHeader) (v : Z) : CPureBlockHeader :=
  {| hd_nVersion := v; hd_hashPrevBlock := hd_hashPrevBlock h; hd_hashMerkleRoot := hd_hashMerkleRoot h;
     hd_nTime := hd_nTime h; hd_nBits := hd_nBits h; hd_nNonce := hd_nNonce h |}.

(** [SetNull] and [IsNull] *)
Definition pure_null : CPureBlockHeader :=
  {| hd_nVersion := 0; hd_hashPrevBlock := 0; hd_hashMerkleRoot := 0; hd_nTime := 0; hd_nBits := 0; hd_nNonce := 0 |}.
Definition pure_IsNull (h : CPureBlockHeader) : bool := hd_nBits h =? 0.

(** ** Data *)

Record CMerkleTx := { mtx_tx : CTransaction; hashBlock : Z; vMerkleBranch : list Z; nIndex : Z }.

Record CAuxPow := {
  merkleTx : CMerkleTx;
  vChainMerkleBranch : list Z;
  nChainIndex : Z;
  parentBlock : CPureBlockHeader;
}.

Record CBlockHeader := { pure : CPureBlockHeader; auxpow : option CAuxPow }.

Record CBlock := { header : CBlockHeader; vtx : list CTransaction }.

Definition ABANDON_HASH : Z := 1.

(** [CMerkleTx(CTransactionRef)] *)
Definition CMerkleTx_of (arg : CTransaction) : CMerkleTx :=
  {| mtx_tx := arg; hashBlock := 0; vMerkleBranch := []; nIndex := -1 |}.

Definition hashUnset (m : CMerkleTx) : bool := (hashBlock m =? 0) || (hashBlock m =? ABANDON_HASH).
Definition isAbandoned (m : CMerkleTx) : bool := hashBlock m =? ABANDON_HASH.
Definition setAbandoned (m : CMerkleTx) : CMerkleTx :=
  {| mtx_tx := mtx_tx m; hashBlock := ABANDON_HASH; vMerkleBranch := vMerkleBranch m; nIndex := nIndex m |}.

(** [SetMerkleBranch(pindex, posInBlock)]; [hash] is [pindex->GetBlockHash()]. *)
Definition SetMerkleBranch (m : CMerkleTx) (hash posInBlock : Z) : CMerkleTx :=
  {| mtx_tx := mtx_tx m; hashBlock := hash; vMerkleBranch := vMerkleBranch m; nIndex := posInBlock |}.

(** [SetAuxpow(apow)] *)
Definition SetAuxpow (h : CBlockHeader) (apow : option CAuxPow) : CBlockHeader :=
  match apow with
  | Some a => {| pure := set_version (pure h) (SetAuxpowVersion (hd_nVersion (pure h)) true); auxpow := Some a |}
  | None => {| pure := set_version (pure h) (SetAuxpowVersion (hd_nVersion (pure h)) false); auxpow := None |}
  end.

(** ** Depth of a transaction in the active chain *)

(** The entry is returned with the depth when the transaction is in the chain;
    [inMempool] is [mempool.exists(GetHash())]. *)
Definition GetDepthInMainChain (m : BlockMap) (chainActive : CChain) (inMempool : Z -> bool) (tx : CMerkleTx)
    : Z * option ptr :=
  if hashUnset tx then (0, None)
  else
    match m !! hashBlock tx with
    | None => (0, None)
    | Some b =>
        if negb (chain_Contains m chainActive (hashBlock tx)) then (0, None)
        else
          let nResult := (if nIndex tx =? -1 then -1 else 1) * (chain_Height chainActive - nHeight b + 1) in
          if (nResult =? 0) && negb (inMempool (tx_hash (mtx_tx tx))) then (-1, Some (hashBlock tx))
          else (nResult, Some (hashBlock tx))
    end.

Definition GetBlocksToMaturity (m : BlockMap) (chainActive : CChain) (inMempool : Z -> bool) (tx : CMerkleTx) : Z :=
  if negb (IsCoinBase (mtx_tx tx)) then 0
  else Z.max 0 ((COINBASE_MATURITY + 1) - (GetDepthInMainChain m chainActive inMempool tx).1).

(** ** Searching in a script *)

(** [std::search(l.begin(), l.end(), pat.begin(), pat.end())] as a position; the length of
    [l] is [l.end()]. *)
Fixpoint search (pat l : list Z) : nat :=
  if bool_decide (take (length pat) l = pat) then 0%nat
  else match l with [] => 0%nat | _ :: l => S (search pat l) end.

(** [{ 0xfa, 0xbe, 'm', 'm' }] *)
Definition pchMergedMiningHeader : list Z := [0xfa; 0xbe; 0x6d; 0x6d].

(** ** Checking an auxiliary proof of work *)

(** The loop of [CheckMerkleBranch]; [pair] hashes the concatenation of two hashes. *)
Fixpoint merkle_branch_loop (pair : Z -> Z -> Z) (hash : Z) (vMerkleBranch : list Z) (nIndex : Z) : Z :=
  match vMerkleBranch with
  | [] => hash
  | it :: vMerkleBranch =>
      let hash := if negb (Z.land nIndex 1 =? 0) then pair it hash else pair hash it in
      merkle_branch_loop pair hash vMerkleBranch (Z.shiftr nIndex 1)
  end.

Definition CheckMerkleBranch (pair : Z -> Z -> Z) (hash : Z) (vMerkleBranch : list Z) (nIndex : Z) : Z :=
  if nIndex =? -1 then 0 else merkle_branch_loop pair hash vMerkleBranch nIndex.

Definition getExpectedIndex (nNonce nChainId h : Z) : Z :=
  let rand := u32 (u32 (nNonce * 1103515245) + 12345) in
  let rand := u32 (rand + u32 nChainId) in
  let rand := u32 (u32 (rand * 1103515245) + 12345) in
  i32 (rand mod u32 (Z.shiftl 1 h)).

(** The checks on the position of the chain root, between the two searches and the
    reading of the size: [pc] is the position of the root. *)
Definition root_position_ok (script : list Z) (pc : nat) : bool :=
  let pcHead := search pchMergedMiningHeader script in
  if negb (pcHead =? length script)%nat then
    if negb (length script =? S pcHead + search pchMergedMiningHeader (drop (S pcHead) script))%nat then false
    else if negb (pcHead + length pchMergedMiningHeader =? pc)%nat then false
    else true
  else if (20 <? pc)%nat then false
  else true.

Definition check_coinbase (script vchRootHash : list Z) (nChainIndex merkleHeight nChainId : Z) : bool :=
  let pc := search vchRootHash script in
  if (pc =? length script)%nat then false
  else if negb (root_position_ok script pc) then false
  else
    let pc := (pc + length vchRootHash)%nat in
    if (length script - pc <? 8)%nat then false
    else
      let nSize := le_decode (take 4 (drop pc script)) in
      if negb (nSize =? u32 (Z.shiftl 1 merkleHeight)) then false
      else
        let nNonce := le_decode (take 4 (drop (pc + 4) script)) in
        if negb (nChainIndex =? getExpectedIndex nNonce nChainId merkleHeight) then false
        else true.

(** The bytes of the chain root in the order the coinbase has them. *)
Definition root_bytes (nRootHash : Z) : list Z := reverse (le_encode 32 nRootHash).

Definition check (pair : Z -> Z -> Z) (a : CAuxPow) (hashAuxBlock nChainId : Z) : option bool :=
  if negb (nIndex (merkleTx a) =? 0) then Some false
  else if GetChainId (hd_nVersion (parentBlock a)) =? nChainId then Some false
  else if (30 <? length (vChainMerkleBranch a))%nat then Some false
  else
    let nRootHash := CheckMerkleBranch pair hashAuxBlock (vChainMerkleBranch a) (nChainIndex a) in
    let vchRootHash := root_bytes nRootHash in
    if negb (CheckMerkleBranch pair (tx_hash (mtx_tx (merkleTx a))) (vMerkleBranch (merkleTx a)) (nIndex (merkleTx a))
             =? hd_hashMerkleRoot (parentBlock a)) then Some false
    else
      input ← head (vin (mtx_tx (merkleTx a)));
      Some (check_coinbase (scriptSig input) vchRootHash (nChainIndex a)
              (Z.of_nat (length (vChainMerkleBranch a))) nChainId).

(** ** Serialization *)

Definition read_uint256 : Reader Z := (b <- read_block 32 ;; rd_ret (le_decode b))%reader.
Definition ser_uint256 (h : Z) : list Z := le_encode 32 h.

Definition ser_pure_header (h : CPureBlockHeader) : list Z :=
  ser_writedata 4 (hd_nVersion h) ++ ser_uint256 (hd_hashPrevBlock h) ++ ser_uint256 (hd_hashMerkleRoot h)
  ++ ser_writedata 4 (hd_nTime h) ++ ser_writedata 4 (hd_nBits h) ++ ser_writedata 4 (hd_nNonce h).

Definition read_pure_header : Reader CPureBlockHeader := (
  v <- read_signed 4 ;; p <- read_uint256 ;; r <- read_uint256 ;;
  t <- ser_readdata 4 ;; b <- ser_readdata 4 ;; n <- ser_readdata 4 ;;
  rd_ret {| hd_nVersion := v; hd_hashPrevBlock := p; hd_hashMerkleRoot := r;
            hd_nTime := t; hd_nBits := b; hd_nNonce := n |})%reader.

(** [CBlockLocator]: written with the stream's version, unless it is hashed. *)
Definition ser_locator (getHash : bool) (nVersion : Z) (vHave : list Z) : list Z :=
  (if negb getHash then ser_writedata 4 nVersion else []) ++ ser_vector ser_uint256 vHave.

Definition read_locator (getHash : bool) : Reader (list Z) :=
  if negb getHash then (_ <- read_signed 4 ;; read_vector read_uint256)%reader else read_vector read_uint256.

Section Blocks.

(** [timeToPrune], [expired]: as for transactions; [Hash]: double SHA-256 of bytes. *)
Variable timeToPrune expired : list Z -> bool.
Variable Hash : list Z -> Z.

Definition pure_GetHash (h : CPureBlockHeader) : Z := Hash (ser_pure_header h).

(** [Hash(BEGIN(a), END(a), BEGIN(b), END(b))] *)
Definition hash_pair (a b : Z) : Z := Hash (ser_uint256 a ++ ser_uint256 b).

Definition ser_merkle_tx (getHash : bool) (m : CMerkleTx) : list Z :=
  ser_tx timeToPrune expired getHash (mtx_tx m) ++ ser_uint256 (hashBlock m)
  ++ ser_vector ser_uint256 (vMerkleBranch m) ++ ser_writedata 4 (nIndex m).

Definition read_merkle_tx : Reader CMerkleTx := (
  t <- read_tx timeToPrune expired Hash ;; h <- read_uint256 ;; v <- read_vector read_uint256 ;; i <- read_signed 4 ;;
  rd_ret {| mtx_tx := t; hashBlock := h; vMerkleBranch := v; nIndex := i |})%reader.

Definition ser_auxpow (getHash : bool) (a : CAuxPow) : list Z :=
  ser_merkle_tx getHash (merkleTx a) ++ ser_vector ser_uint256 (vChainMerkleBranch a)
  ++ ser_writedata 4 (nChainIndex a) ++ ser_pure_header (parentBlock a).

Definition read_auxpow : Reader CAuxPow := (
  m <- read_merkle_tx ;; v <- read_vector read_uint256 ;; i <- read_signed 4 ;; p <- read_pure_header ;;
  rd_ret {| merkleTx := m; vChainMerkleBranch := v; nChainIndex := i; parentBlock := p |})%reader.

(** [CBlockHeader::SerializationOp]: the flag in the version decides whether an auxpow
    follows; [None] is the failed [assert(auxpow)]. *)
Definition ser_header (getHash : bool) (h : CBlockHeader) : option (list Z) :=
  if IsAuxpow (hd_nVersion (pure h)) then
    a ← auxpow h; Some (ser_pure_header (pure h) ++ ser_auxpow getHash a)
  else Some (ser_pure_header (pure h)).

Definition read_header : Reader CBlockHeader := (
  p <- read_pure_header ;;
  if IsAuxpow (hd_nVersion p) then a <- read_auxpow ;; rd_ret {| pure := p; auxpow := Some a |}
  else rd_ret {| pure := p; auxpow := None |})%reader.

Definition ser_block (getHash : bool) (b : CBlock) : option (list Z) :=
  h ← ser_header getHash (header b);
  Some (h ++ ser_vector (ser_tx timeToPrune expired getHash) (vtx b)).

Definition read_full_block : Reader CBlock := (
  h <- read_header ;; v <- read_vector (read_tx timeToPrune expired Hash) ;; rd_ret {| header := h; vtx := v |})%reader.

(** ** Building an auxpow *)

(** [InitMerkleBranch(block, posInBlock)] *)
Definition InitMerkleBranch (m : CMerkleTx) (block : CBlock) (posInBlock : Z) : option CMerkleTx :=
  branch ← BlockMerkleBranch hash_pair tx_hash (vtx block) posInBlock;
  Some {| mtx_tx := mtx_tx m; hashBlock := pure_GetHash (pure (header block)); vMerkleBranch := branch; nIndex := posInBlock |}.

Definition initAuxPow (h : CBlockHeader) : option CBlockHeader :=
  let h := {| pure := set_version (pure h) (SetAuxpowVersion (hd_nVersion (pure h)) true); auxpow := auxpow h |} in
  let blockHash := pure_GetHash (pure h) in
  let inputData := reverse (le_encode 32 blockHash) ++ [1] ++ replicate 7 0 in
  (* the fields of a default CMutableTransaction *)
  let input := {| prevout := COutPoint_null; scriptSig := push_data [] inputData; nSequence := SEQUENCE_FINAL |} in
  let coinbaseRef := tx_make timeToPrune expired Hash CURRENT_VERSION [input] [] 0 in
  '(root, _) ← BlockMerkleRoot hash_pair tx_hash [coinbaseRef];
  let parent := {| hd_nVersion := 1; hd_hashPrevBlock := 0; hd_hashMerkleRoot := root; hd_nTime := 0; hd_nBits := 0; hd_nNonce := 0 |} in
  let m := CMerkleTx_of coinbaseRef in
  Some (SetAuxpow h (Some {|
    merkleTx := {| mtx_tx := mtx_tx m; hashBlock := hashBlock m; vMerkleBranch := vMerkleBranch m; nIndex := 0 |};
    vChainMerkleBranch := []; nChainIndex := 0; parentBlock := parent |})).

(** ** The proof of work of a block *)

Definition CheckBlockProofOfWork (network : Network) (block : CBlockHeader) (nAuxpowChainId : Z) (params : Params) : option bool :=
  let nVersion := hd_nVersion (pure block) in
  let nBits := hd_nBits (pure block) in
  match auxpow block with
  | None =>
      if IsAuxpow nVersion then Some false
      else
        ok ← CheckProofOfWork network (pure_GetHash (pure block)) nBits params;
        if negb ok then Some false else Some true
  | Some a =>
      if negb (GetChainId nVersion =? nAuxpowChainId) then Some false
      else if negb (IsAuxpow nVersion) then Some false
      else
        ok ← check hash_pair a (pure_GetHash (pure block)) (GetChainId nVersion);
        if negb ok then Some false
        else
          ok ← CheckProofOfWork network (pure_GetHash (parentBlock a)) nBits params;
          if negb ok then Some false else Some true
  end.

End Blocks.

(** ** Lemmas: the version *)

Lemma testbit_flag i : Z.testbit VERSION_AUXPOW i = (i =? 8).
Proof. unfold VERSION_AUXPOW. rewrite Z.shiftl_1_l. destruct (Z.eqb_spec i 8) as [->|]; [done|]. by apply Z.pow2_bits_false. Qed.

Lemma IsAuxpow_testbit v : IsAuxpow v = Z.testbit v 8.
Proof. unfold IsAuxpow, VERSION_AUXPOW. by rewrite land_pow2_testbit. Qed.

Lemma GetChainId_bits v : GetChainId v = Z.shiftr (v mod 2 ^ 29) 16.
Proof.
  unfold GetChainId. change (Z.lnot VERSIONBITS_TOP_MASK) with (Z.ones 29). rewrite Z.land_ones by lia.
  pose proof (Z.mod_pos_bound v (2 ^ 29) ltac:(lia)).
  rewrite Z.quot_div_nonneg by (unfold VERSION_CHAIN_START; rewrite ?Z.shiftl_1_l; lia). by rewrite Z.shiftr_div_pow2.
Qed.

Lemma SetAuxpowVersion_testbit v flag i :
  0 <= i -> Z.testbit (SetAuxpowVersion v flag) i = if i =? 8 then flag else Z.testbit v i.
Proof.
  intros Hi. unfold SetAuxpowVersion. destruct flag.
  - rewrite Z.lor_spec, testbit_flag. case_if; [by rewrite orb_true_r|by rewrite orb_false_r].
  - rewrite Z.land_spec, Z.lnot_spec, testbit_flag by done. case_if; [by rewrite andb_false_r|by rewrite andb_true_r].
Qed.

(** The flag does not touch the chain ID. *)
Lemma GetChainId_SetAuxpow v flag : GetChainId (SetAuxpowVersion v flag) = GetChainId v.
Proof.
  rewrite !GetChainId_bits. apply Z.bits_inj'. intros i Hi. rewrite !Z.shiftr_spec by done.
  destruct (Z.lt_ge_cases (i + 16) 29).
  - rewrite !Z.mod_pow2_bits_low, SetAuxpowVersion_testbit by lia. by rewrite (proj2 (Z.eqb_neq _ _)) by lia.
  - by rewrite !Z.mod_pow2_bits_high by lia.
Qed.

Lemma IsAuxpow_Set v flag : IsAuxpow (SetAuxpowVersion v flag) = flag.
Proof. rewrite IsAuxpow_testbit, SetAuxpowVersion_testbit by lia. done. Qed.

Lemma SetAuxpow_clear v flag : IsAuxpow v = false -> SetAuxpowVersion (SetAuxpowVersion v flag) false = v.
Proof.
  rewrite IsAuxpow_testbit. intros Hv. apply Z.bits_inj'. intros i Hi. rewrite !SetAuxpowVersion_testbit by done.
  case_if; [subst; by rewrite Hv|done].
Qed.

Lemma SetAuxpow_twice v flag : SetAuxpowVersion (SetAuxpowVersion v flag) flag = SetAuxpowVersion v flag.
Proof. apply Z.bits_inj'. intros i Hi. rewrite !SetAuxpowVersion_testbit by done. by case_if. Qed.

Lemma chain_bits base c i : 0 <= i -> Z.testbit (Z.lor base (c * VERSION_CHAIN_START)) i = Z.testbit base i || Z.testbit c (i - 16).
Proof. intros Hi. unfold VERSION_CHAIN_START. rewrite Z.shiftl_1_l, <- Z.shiftl_mul_pow2, Z.lor_spec, Z.shiftl_spec by lia. done. Qed.

Lemma GetChainId_lor base c :
  (forall i, 16 <= i < 29 -> Z.testbit base i = false) -> 0 <= c < 2 ^ 13 ->
  GetChainId (Z.lor base (c * VERSION_CHAIN_START)) = c.
Proof.
  intros Hb Hc. rewrite GetChainId_bits. apply Z.bits_inj'. intros i Hi. rewrite Z.shiftr_spec by done.
  destruct (Z.lt_ge_cases (i + 16) 29).
  - rewrite Z.mod_pow2_bits_low, chain_bits, Hb by lia. cbn [orb]. f_equal. lia.
  - rewrite Z.mod_pow2_bits_high by lia. rewrite <- (Z.mod_small c (2 ^ 13)) by done. by rewrite Z.mod_pow2_bits_high by lia.
Qed.

(** ** Lemmas: searching *)

Definition occurs_at (pat l : list Z) (n : nat) : Prop := take (length pat) (drop n l) = pat.

Lemma occurs_bound pat l n : pat <> [] -> occurs_at pat l n -> (n + length pat <= length l)%nat.
Proof.
  unfold occurs_at. intros Hp E. apply (f_equal length) in E. rewrite length_take, length_drop in E.
  assert (0 < length pat)%nat by (destruct pat; cbn; [done|lia]). lia.
Qed.

Lemma search_le pat l : (search pat l <= length l)%nat.
Proof. induction l; cbn; case_bool_decide; lia. Qed.

Lemma search_found pat l : pat <> [] -> (search pat l < length l)%nat -> occurs_at pat l (search pat l).
Proof.
  intros Hp. induction l as [|x l IH]; cbn [search length]; [case_bool_decide; lia|].
  case_bool_decide as E; [done|]. intros Hl. apply IH. lia.
Qed.

Lemma search_first pat l n : occurs_at pat l n -> (search pat l <= n)%nat.
Proof.
  revert n. induction l as [|x l IH]; intros n Hn; cbn [search]; case_bool_decide as E; try lia.
  destruct n as [|n]; [done|]. specialize (IH n Hn). lia.
Qed.

Lemma search_none pat l : pat <> [] -> search pat l = length l <-> forall n, ~ occurs_at pat l n.
Proof.
  intros Hp. split.
  - intros E n Hn. pose proof (occurs_bound _ _ _ Hp Hn). pose proof (search_first _ _ _ Hn).
    assert (0 < length pat)%nat by (destruct pat; cbn; [done|lia]). lia.
  - intros H. pose proof (search_le pat l). destruct (decide (search pat l < length l)%nat) as [Hl|]; [|lia].
    by destruct (H _ (search_found _ _ Hp Hl)).
Qed.

(** The result of a search is the first occurrence. *)
Lemma search_unique pat l n :
  pat <> [] -> occurs_at pat l n -> (forall k, occurs_at pat l k -> (n <= k)%nat) -> search pat l = n.
Proof.
  intros Hp Hn Hk. pose proof (search_first _ _ _ Hn). pose proof (occurs_bound _ _ _ Hp Hn).
  assert (0 < length pat)%nat by (destruct pat; cbn; [done|lia]).
  pose proof (Hk _ (search_found pat l Hp ltac:(lia))). lia.
Qed.

Lemma occurs_middle pre pat post : occurs_at pat (pre ++ pat ++ post) (length pre).
Proof. unfold occurs_at. by rewrite drop_app_length, take_app_length. Qed.

Lemma occurs_split pat l n : occurs_at pat l n -> l = take n l ++ pat ++ drop (n + length pat) l.
Proof. unfold occurs_at. intros E. rewrite <- E at 1. by rewrite <- drop_drop, take_drop, take_drop. Qed.

Lemma occurs_drop pat l k n : occurs_at pat (drop k l) n <-> occurs_at pat l (k + n).
Proof. unfold occurs_at. by rewrite drop_drop. Qed.

(** ** Lemmas: the coinbase of the parent *)

(** Where the chain root may start: right behind the only merged-mining header, or
    without any header within the first 20 bytes. *)
Definition header_before (script : list Z) (p : nat) : Prop :=
  (exists q, p = (q + 4)%nat /\ forall n, occurs_at pchMergedMiningHeader script n <-> n = q)
  \/ ((forall n, ~ occurs_at pchMergedMiningHeader script n) /\ (p <= 20)%nat).

(** The coinbase script commits to the root, the size [2^h] of the tree and a nonce at
    position [p], the first position of the root. *)
Definition commits_at (script root : list Z) (h nonce : Z) (p : nat) : Prop :=
  occurs_at (root ++ le_encode 4 (2 ^ h) ++ le_encode 4 nonce) script p
  /\ (forall n, occurs_at root script n -> (p <= n)%nat)
  /\ header_before script p.

Lemma header_nonempty : pchMergedMiningHeader <> [].
Proof. done. Qed.

Lemma header_once script q :
  occurs_at pchMergedMiningHeader script q ->
  (forall n, occurs_at pchMergedMiningHeader script n -> (q <= n)%nat) ->
  search pchMergedMiningHeader (drop (S q) script) = (length script - S q)%nat <->
  (forall n, occurs_at pchMergedMiningHeader script n <-> n = q).
Proof.
  intros Hq Hfirst. rewrite <- length_drop, search_none by done. split.
  - intros H n. split; [|by intros ->]. intros Hn. pose proof (Hfirst n Hn).
    destruct (decide (n = q)); [done|]. destruct (H (n - S q)%nat). apply occurs_drop.
    by replace (S q + (n - S q))%nat with n by lia.
  - intros H n Hn%occurs_drop. apply H in Hn. lia.
Qed.

Lemma root_position_ok_iff script p : root_position_ok script p = true <-> header_before script p.
Proof.
  unfold root_position_ok, header_before. set (q := search pchMergedMiningHeader script).
  destruct (Nat.eqb_spec q (length script)) as [E|E]; cbn [negb].
  - unfold q in E. rewrite search_none in E by done. destruct (Nat.ltb_spec 20 p).
    + split; [done|]. intros [(k & -> & Hk)|[_ ?]]; [|lia]. exfalso. apply (E k). by apply Hk.
    + split; [|done]. intros _. right. split; [exact E|lia].
  - pose proof (search_le pchMergedMiningHeader script) as Hle. fold q in Hle.
    pose proof (search_found pchMergedMiningHeader script ltac:(done) ltac:(lia)) as Hq. fold q in Hq.
    pose proof (occurs_bound _ _ _ header_nonempty Hq) as Hb. cbn [length pchMergedMiningHeader] in Hb |- *.
    pose proof (header_once script q Hq (search_first _ _)) as Ho.
    pose proof (search_le pchMergedMiningHeader (drop (S q) script)) as Hl. rewrite length_drop in Hl.
    destruct (Nat.eqb_spec (length script) (S q + search pchMergedMiningHeader (drop (S q) script))) as [E1|E1]; cbn [negb].
    + destruct (Nat.eqb_spec (q + 4) p) as [E2|E2]; cbn [negb].
      * split; [|done]. intros _. left. exists q. split; [done|]. apply Ho. lia.
      * split; [done|]. intros [(k & -> & Hk)|[Hn _]]; [apply Hk in Hq; subst k; lia|by apply Hn in Hq].
    + split; [done|]. intros [(k & -> & Hk)|[Hn _]]; [|by apply Hn in Hq].
      assert (k = q) as -> by (symmetry; by apply Hk). apply Ho in Hk. lia.
Qed.

Lemma occurs_app p1 p2 l n : occurs_at (p1 ++ p2) l n <-> occurs_at p1 l n /\ occurs_at p2 l (n + length p1).
Proof.
  unfold occurs_at. rewrite length_app, <- drop_drop. set (k := drop n l). split.
  - intros E. split.
    + apply (f_equal (take (length p1))) in E. rewrite take_take, take_app_length in E. by replace (length p1) with (length p1 `min` (length p1 + length p2))%nat by lia.
    + apply (f_equal (drop (length p1))) in E. rewrite skipn_firstn_comm, drop_app_length in E.
      by replace (length p1 + length p2 - length p1)%nat with (length p2) in E by lia.
  - intros [E1 E2]. rewrite <- (take_drop (length p1) k) at 1. rewrite E1, take_app_add. by rewrite E2.
Qed.

(** The four bytes at a position, as the number they encode. *)
Lemma occurs_word l n x : bytes_ok l -> (n + 4 <= length l)%nat -> in_u 32 x ->
  occurs_at (le_encode 4 x) l n <-> le_decode (take 4 (drop n l)) = x.
Proof.
  intros Hl Hn Hx. unfold occurs_at. rewrite le_encode_length. split.
  - intros ->. by apply le_decode_encode.
  - intros <-. assert (length (take 4 (drop n l)) = 4%nat) as E by (rewrite length_take, length_drop; lia).
    rewrite <- E at 2. rewrite le_encode_decode; [done|]. by apply Forall_take, Forall_drop.
Qed.

Lemma read_word_range l n : bytes_ok l -> in_u 32 (le_decode (take 4 (drop n l))).
Proof.
  intros Hl. pose proof (le_decode_range (take 4 (drop n l)) ltac:(by apply Forall_take, Forall_drop)) as H.
  unfold in_u. pose proof (length_take (drop n l) 4).
  assert (2 ^ (8 * Z.of_nat (length (take 4 (drop n l)))) <= 2 ^ 32) by (apply Z.pow_le_mono_r; lia). lia.
Qed.

Lemma check_coinbase_ok script root idx h c :
  bytes_ok script -> root <> [] -> 0 <= h <= 30 ->
  check_coinbase script root idx h c = true <->
  exists p nonce, in_u 32 nonce /\ commits_at script root h nonce p /\ idx = getExpectedIndex nonce c h.
Proof.
  intros Hs Hr Hh. unfold check_coinbase, commits_at.
  assert (u32 (Z.shiftl 1 h) = 2 ^ h /\ in_u 32 (2 ^ h)) as [Eh Uh].
  { rewrite Z.shiftl_1_l. assert (in_u 32 (2 ^ h)); [|by rewrite wrap_small].
    unfold in_u. pose proof (Z.pow_lt_mono_r 2 h 32 ltac:(lia) ltac:(lia) ltac:(lia)). lia. }
  rewrite Eh. pose proof (search_le root script) as Hle. set (p := search root script) in *.
  destruct (Nat.eqb_spec p (length script)) as [E|E].
  { split; [done|]. intros (k & nonce & _ & (Ho & _) & _). apply occurs_app in Ho as [Ho _].
    unfold p in E. rewrite search_none in E by done. by destruct (E k). }
  pose proof (search_found root script Hr ltac:(lia)) as Hp. fold p in Hp.
  pose proof (occurs_bound _ _ _ Hr Hp) as Hb.
  split.
  - destruct (root_position_ok script p) eqn:Epos; cbn [negb]; [|done]. apply root_position_ok_iff in Epos.
    destruct (Nat.ltb_spec (length script - (p + length root)) 8); [done|].
    case_if; [done|]. case_if; [done|]. intros _. exists p, (le_decode (take 4 (drop (p + length root + 4) script))).
    split_and!; [by apply read_word_range| |apply search_first|done|done].
    rewrite !occurs_app, le_encode_length. split_and!; [done|..].
    + apply occurs_word; [done|lia|done|done].
    + apply occurs_word; [done|lia|by apply read_word_range|done].
  - intros (k & nonce & Hnonce & (Ho & Hf & Hpos) & ->).
    assert (p = k) as <-.
    { apply occurs_app in Ho as [Ho _]. by apply search_unique. }
    apply root_position_ok_iff in Hpos. rewrite Hpos. cbn [negb].
    rewrite !occurs_app, le_encode_length in Ho. destruct Ho as (_ & Ho1 & Ho2).
    pose proof (occurs_bound (le_encode 4 nonce) script _ ltac:(done) Ho2) as Hb2. rewrite le_encode_length in Hb2.
    rewrite (proj2 (Nat.ltb_ge _ _)) by lia.
    apply occurs_word in Ho1; [|done|lia|done]. apply occurs_word in Ho2; [|done|lia|done].
    by rewrite Ho1, Ho2, !Z.eqb_refl.
Qed.

Lemma getExpectedIndex_range nonce c h : 0 <= h <= 30 -> 0 <= getExpectedIndex nonce c h < 2 ^ h.
Proof.
  intros Hh. unfold getExpectedIndex. rewrite Z.shiftl_1_l.
  assert (0 < 2 ^ h <= 2 ^ 30) by (split; [lia|apply Z.pow_le_mono_r; lia]).
  rewrite (wrap_small 32 (2 ^ h)) by (unfold in_u; lia).
  match goal with |- context [?r mod 2 ^ h] => pose proof (Z.mod_pos_bound r (2 ^ h) ltac:(lia)) end.
  rewrite swrap_small; [done|lia|]. unfold in_s. lia.
Qed.

(** ** Lemmas: merkle branches *)

(** The pairs that are hashed along a branch. *)
Fixpoint branch_inputs (pair : Z -> Z -> Z) (hash : Z) (branch : list Z) (i : Z) : list (Z * Z) :=
  match branch with
  | [] => []
  | it :: branch =>
      let p := if negb (Z.land i 1 =? 0) then (it, hash) else (hash, it) in
      p :: branch_inputs pair (pair p.1 p.2) branch (Z.shiftr i 1)
  end.

Lemma merkle_branch_loop_inj pair b1 b2 h1 h2 i :
  length b1 = length b2 ->
  collision_free pair (branch_inputs pair h1 b1 i ++ branch_inputs pair h2 b2 i) = true ->
  merkle_branch_loop pair h1 b1 i = merkle_branch_loop pair h2 b2 i -> h1 = h2 /\ b1 = b2.
Proof.
  intros El Hc. pose proof (collision_free_ok _ _ Hc) as Hinj. clear Hc.
  revert b2 h1 h2 i El Hinj. induction b1 as [|x b1 IH]; intros [|y b2] h1 h2 i El Hinj; try done.
  cbn [merkle_branch_loop branch_inputs app] in *. injection El as El.
  destruct (negb (Z.land i 1 =? 0)) eqn:Ebit; cbn [fst snd] in *.
  all: intros E; apply IH in E as [E ->]; [|done|].
  2, 4: intros a b c d [?|?]%elem_of_app [?|?]%elem_of_app ?; apply Hinj; rewrite ?elem_of_cons, ?elem_of_app, ?elem_of_cons; tauto.
  all: apply Hinj in E as [-> ->]; [done|left|right; apply elem_of_app; right; left].
Qed.

Lemma merkle_branch_loop_same pair h b i :
  merkle_branch_loop pair h b i = ComputeMerkleRootFromBranch pair h b i.
Proof. revert h i. induction b as [|x b IH]; intros h i; [done|]. apply IH. Qed.

Lemma tree_root_single Hash d x : tree_root Hash d [x] = x.
Proof. by destruct d. Qed.

Lemma root_bytes_inj a b : in_u 256 a -> in_u 256 b -> root_bytes a = root_bytes b -> a = b.
Proof.
  intros Ha Hb E. apply (inj reverse) in E. rewrite <- (le_decode_encode 32 a), <- (le_decode_encode 32 b) by done. by rewrite E.
Qed.

Lemma root_bytes_length r : length (root_bytes r) = 32%nat.
Proof. unfold root_bytes. by rewrite length_reverse, le_encode_length. Qed.

Lemma merkle_branch_loop_range pair h b i :
  (forall x y, in_u 256 (pair x y)) -> in_u 256 h -> in_u 256 (merkle_branch_loop pair h b i).
Proof. intros Hp. revert h i. induction b as [|x b IH]; intros h i Hh; [done|]. cbn [merkle_branch_loop]. apply IH. by case_if. Qed.

(** ** Properties of the check *)

(** What [check] establishes of an auxpow whose coinbase has the given input script. *)
Definition auxpow_valid (pair : Z -> Z -> Z) (a : CAuxPow) (script : list Z) (hashAuxBlock nChainId : Z) : Prop :=
  nIndex (merkleTx a) = 0 /\ GetChainId (hd_nVersion (parentBlock a)) <> nChainId
  /\ (length (vChainMerkleBranch a) <= 30)%nat
  /\ merkle_branch_loop pair (tx_hash (mtx_tx (merkleTx a))) (vMerkleBranch (merkleTx a)) 0 = hd_hashMerkleRoot (parentBlock a)
  /\ exists p nonce, in_u 32 nonce
     /\ commits_at script (root_bytes (merkle_branch_loop pair hashAuxBlock (vChainMerkleBranch a) (nChainIndex a)))
          (Z.of_nat (length (vChainMerkleBranch a))) nonce p
     /\ nChainIndex a = getExpectedIndex nonce nChainId (Z.of_nat (length (vChainMerkleBranch a))).

Lemma check_ok pair a hash c input rest :
  vin (mtx_tx (merkleTx a)) = input :: rest -> bytes_ok (scriptSig input) ->
  check pair a hash c = Some true <-> auxpow_valid pair a (scriptSig input) hash c.
Proof.
  intros Ev Hs. unfold check, auxpow_valid. rewrite Ev. cbn [head mbind option_bind].
  destruct (Z.eqb_spec (nIndex (merkleTx a)) 0) as [Ei|Ei]; cbn [negb]; [rewrite Ei|split; [done|tauto]].
  destruct (Z.eqb_spec (GetChainId (hd_nVersion (parentBlock a))) c) as [Ec|Ec]; [split; [done|tauto]|].
  destruct (Nat.ltb_spec 30 (length (vChainMerkleBranch a))) as [El|El]; [split; [done|lia]|].
  change (CheckMerkleBranch pair (tx_hash (mtx_tx (merkleTx a))) (vMerkleBranch (merkleTx a)) 0)
    with (merkle_branch_loop pair (tx_hash (mtx_tx (merkleTx a))) (vMerkleBranch (merkleTx a)) 0).
  destruct (Z.eqb_spec (merkle_branch_loop pair (tx_hash (mtx_tx (merkleTx a))) (vMerkleBranch (merkleTx a)) 0)
              (hd_hashMerkleRoot (parentBlock a))) as [Er|Er]; cbn [negb]; [|split; [done|tauto]].
  transitivity (check_coinbase (scriptSig input) (root_bytes (CheckMerkleBranch pair hash (vChainMerkleBranch a) (nChainIndex a)))
                  (nChainIndex a) (Z.of_nat (length (vChainMerkleBranch a))) c = true); [split; [by intros [= ->]|by intros ->]|].
  rewrite check_coinbase_ok; [|done|by intros E%(f_equal length); rewrite root_bytes_length in E|lia].
  unfold CheckMerkleBranch. split.
  - intros (p & nonce & Hn & Hc & E).
    pose proof (getExpectedIndex_range nonce c (Z.of_nat (length (vChainMerkleBranch a))) ltac:(lia)).
    rewrite (proj2 (Z.eqb_neq _ _)) in Hc by lia. eauto 10.
  - intros (_ & _ & _ & _ & p & nonce & Hn & Hc & E).
    pose proof (getExpectedIndex_range nonce c (Z.of_nat (length (vChainMerkleBranch a))) ltac:(lia)).
    rewrite (proj2 (Z.eqb_neq _ _)) by lia. eauto 10.
Qed.

Lemma occurs_same (p1 p2 : list Z) l n : length p1 = length p2 -> occurs_at p1 l n -> occurs_at p2 l n -> p1 = p2.
Proof. unfold occurs_at. intros E <- H. by rewrite <- H, E. Qed.

(** One script with a header commits to one root, height and nonce. *)
Lemma commits_unique script r1 r2 h1 h2 n1 n2 p1 p2 k :
  length r1 = length r2 -> 0 <= h1 <= 30 -> 0 <= h2 <= 30 -> in_u 32 n1 -> in_u 32 n2 ->
  occurs_at pchMergedMiningHeader script k ->
  commits_at script r1 h1 n1 p1 -> commits_at script r2 h2 n2 p2 -> r1 = r2 /\ h1 = h2 /\ n1 = n2.
Proof.
  intros El H1 H2 Hn1 Hn2 Hk (O1 & _ & B1) (O2 & _ & B2).
  assert (p1 = p2) as <-.
  { destruct B1 as [(q1 & -> & Q1)|[Q1 _]]; [|by destruct (Q1 k)]. destruct B2 as [(q2 & -> & Q2)|[Q2 _]]; [|by destruct (Q2 k)].
    apply Q1 in Hk as E1. apply Q2 in Hk as E2. congruence. }
  rewrite !occurs_app, !le_encode_length in O1, O2. destruct O1 as (A1 & B1' & C1), O2 as (A2 & B2' & C2).
  pose proof (occurs_same _ _ _ _ El A1 A2) as ->.
  assert (forall h, 0 <= h <= 30 -> in_u 32 (2 ^ h)) as Hp.
  { intros h Hh. unfold in_u. pose proof (Z.pow_lt_mono_r 2 h 32 ltac:(lia) ltac:(lia) ltac:(lia)). lia. }
  assert (forall x y l n, in_u 32 x -> in_u 32 y -> occurs_at (le_encode 4 x) l n -> occurs_at (le_encode 4 y) l n -> x = y) as Hw.
  { intros x y l n Hx Hy Ox Oy. pose proof (occurs_same (le_encode 4 x) (le_encode 4 y) l n ltac:(by rewrite !le_encode_length) Ox Oy) as E.
    rewrite <- (le_decode_encode 4 x), <- (le_decode_encode 4 y) by done. by rewrite E. }
  split_and!; [done| |by eapply Hw]. apply (Z.pow_inj_r 2); [lia..|]. by eapply Hw; [apply Hp|apply Hp|..].
Qed.

(** ** Lemmas: serialization *)

Definition pure_ok (h : CPureBlockHeader) : Prop :=
  in_s 32 (hd_nVersion h) /\ in_u 256 (hd_hashPrevBlock h) /\ in_u 256 (hd_hashMerkleRoot h)
  /\ in_u 32 (hd_nTime h) /\ in_u 32 (hd_nBits h) /\ in_u 32 (hd_nNonce h).

Definition branch_ok (v : list Z) : Prop := Forall (in_u 256) v /\ Z.of_nat (length v) <= MAX_SIZE.

Section Typing.
Variable timeToPrune expired : list Z -> bool.
Variable Hash : list Z -> Z.

(** A transaction whose fields fit their types and whose hash is the one computed. *)
Definition hashed_tx_ok (tx : CTransaction) : Prop := tx_ok tx /\ tx_hash tx = ComputeHash timeToPrune expired Hash tx.

Definition auxpow_ok (a : CAuxPow) : Prop :=
  hashed_tx_ok (mtx_tx (merkleTx a)) /\ in_u 256 (hashBlock (merkleTx a)) /\ branch_ok (vMerkleBranch (merkleTx a))
  /\ in_s 32 (nIndex (merkleTx a)) /\ branch_ok (vChainMerkleBranch a) /\ in_s 32 (nChainIndex a) /\ pure_ok (parentBlock a).

(** The auxpow is there exactly when the version has the flag. *)
Definition header_ok (h : CBlockHeader) : Prop :=
  pure_ok (pure h) /\
  match auxpow h with
  | Some a => IsAuxpow (hd_nVersion (pure h)) = true /\ auxpow_ok a
  | None => IsAuxpow (hd_nVersion (pure h)) = false
  end.

Definition block_ok (b : CBlock) : Prop :=
  header_ok (header b) /\ Forall hashed_tx_ok (vtx b) /\ Z.of_nat (length (vtx b)) <= MAX_SIZE.

#[global] Instance pure_ok_dec h : Decision (pure_ok h).
Proof. unfold pure_ok. apply _. Defined.
#[global] Instance branch_ok_dec v : Decision (branch_ok v).
Proof. unfold branch_ok. apply _. Defined.
#[global] Instance hashed_tx_ok_dec tx : Decision (hashed_tx_ok tx).
Proof. unfold hashed_tx_ok. apply _. Defined.
#[global] Instance auxpow_ok_dec a : Decision (auxpow_ok a).
Proof. unfold auxpow_ok. apply _. Defined.
#[global] Instance header_ok_dec h : Decision (header_ok h).
Proof. unfold header_ok. destruct (auxpow h); apply _. Defined.
#[global] Instance block_ok_dec b : Decision (block_ok b).
Proof. unfold block_ok. apply _. Defined.

Lemma yields_uint256 : yields read_uint256 (in_u 256).
Proof.
  eapply yields_bind; [apply yields_block|]. intros b [Hb Eb]. apply yields_ret.
  pose proof (le_decode_range b Hb) as Hr. rewrite Eb in Hr. exact Hr.
Qed.

Lemma yields_pure_header : yields read_pure_header pure_ok.
Proof.
  eapply yields_bind; [by apply (yields_signed 4); lia|]. intros v Hv.
  do 2 (eapply yields_bind; [apply yields_uint256|]; intros ? ?).
  do 3 (eapply yields_bind; [apply (yields_data 4)|]; intros ? ?).
  by apply yields_ret.
Qed.

Lemma yields_auxpow : yields (read_auxpow timeToPrune expired Hash) auxpow_ok.
Proof.
  eapply (yields_bind _ _ (fun m => hashed_tx_ok (mtx_tx m) /\ in_u 256 (hashBlock m) /\ branch_ok (vMerkleBranch m) /\ in_s 32 (nIndex m))).
  - eapply yields_bind; [apply yields_tx|]. intros t Ht. eapply yields_bind; [apply yields_uint256|]. intros h Hh.
    eapply yields_bind; [apply yields_vector, yields_uint256|]. intros v Hv.
    eapply yields_bind; [by apply (yields_signed 4); lia|]. intros i Hi. by apply yields_ret.
  - intros m (Ht & Hh & Hv & Hi). eapply yields_bind; [apply yields_vector, yields_uint256|]. intros v Hcv.
    eapply yields_bind; [by apply (yields_signed 4); lia|]. intros i Hci.
    eapply yields_bind; [apply yields_pure_header|]. intros p Hp. by apply yields_ret.
Qed.

Lemma yields_header : yields (read_header timeToPrune expired Hash) header_ok.
Proof.
  eapply yields_bind; [apply yields_pure_header|]. intros p Hp. destruct (IsAuxpow (hd_nVersion p)) eqn:E.
  - eapply yields_bind; [apply yields_auxpow|]. intros a Ha. by apply yields_ret.
  - by apply yields_ret.
Qed.

Lemma yields_full_block : yields (read_full_block timeToPrune expired Hash) block_ok.
Proof.
  eapply yields_bind; [apply yields_header|]. intros h Hh.
  eapply yields_bind; [apply yields_vector, yields_tx|]. intros v [Hv Lv]. by apply yields_ret.
Qed.

Lemma reads_uint256 h : in_u 256 h -> reads read_uint256 (ser_uint256 h) h.
Proof.
  intros Hh. unfold read_uint256, ser_uint256. rewrite <- (le_decode_encode 32 h) at 2 by exact Hh.
  apply (reads_bind_ret _ le_decode). replace 32%nat with (length (le_encode 32 h)) at 1 by apply le_encode_length. apply reads_block.
Qed.

Lemma reads_branch v : branch_ok v -> reads (read_vector read_uint256) (ser_vector ser_uint256 v) v.
Proof. intros [Hv Lv]. apply reads_vector; [done|]. eapply Forall_impl; [exact Hv|]. intros x. apply reads_uint256. Qed.

Lemma reads_pure_header h : pure_ok h -> reads read_pure_header (ser_pure_header h) h.
Proof.
  intros (Hv & Hp & Hm & Ht & Hb & Hn). unfold read_pure_header, ser_pure_header.
  eapply reads_bind; [by apply (reads_signed 4); [lia|]|].
  do 2 (eapply reads_bind; [by apply reads_uint256|]).
  do 2 (eapply reads_bind; [by apply reads_data|]). destruct h as [v p r t b n]. cbn [hd_nVersion hd_hashPrevBlock hd_hashMerkleRoot hd_nTime hd_nBits hd_nNonce] in *.
  apply (reads_bind_ret _ (Chain.Build_CBlockHeader v p r t b)). by apply reads_data.
Qed.

(** No output of the transaction is a service output that has expired. *)
Definition unexpired (tx : CTransaction) : Prop :=
  Forall (fun o => IsUnspendable (scriptPubKey o) && timeToPrune (scriptPubKey o) && expired (scriptPubKey o) = false) (vout tx).

Lemma reads_hashed_tx tx :
  hashed_tx_ok tx -> unexpired tx -> reads (read_tx timeToPrune expired Hash) (ser_tx timeToPrune expired false tx) tx.
Proof.
  intros [Hok Hh] Hu. pose proof (reads_tx timeToPrune expired Hash false tx Hok) as H.
  assert (map (pruned_out timeToPrune expired false) (vout tx) = vout tx) as E.
  { destruct Hok as (_ & _ & _ & _ & Ho & _). clear -Hu Ho. unfold unexpired in Hu.
    induction (vout tx) as [|o l IH]; [done|]. apply Forall_cons in Ho as [(_ & _ & Ho) Hl], Hu as [Hu Hul]. cbn [map].
    rewrite IH by done. f_equal. apply pruned_out_id; [done|]. intros E. rewrite E in Hu. done. }
  rewrite E in H. replace tx with (tx_make timeToPrune expired Hash (tx_nVersion tx) (vin tx) (vout tx) (nLockTime tx)) at 2; [exact H|].
  destruct tx as [v i o l h]. unfold tx_make. f_equal. exact (eq_sym Hh).
Qed.

Lemma reads_auxpow a : auxpow_ok a -> unexpired (mtx_tx (merkleTx a)) ->
  reads (read_auxpow timeToPrune expired Hash) (ser_auxpow timeToPrune expired false a) a.
Proof.
  intros (Ht & Hh & Hv & Hi & Hcv & Hci & Hp) Hu. unfold read_auxpow, ser_auxpow.
  destruct a as [[t h v i] cv ci p]. cbn [merkleTx mtx_tx hashBlock vMerkleBranch nIndex vChainMerkleBranch nChainIndex parentBlock] in *.
  eapply reads_bind.
  { unfold read_merkle_tx, ser_merkle_tx. cbn [mtx_tx hashBlock vMerkleBranch nIndex].
    eapply reads_bind; [by apply reads_hashed_tx|]. eapply reads_bind; [by apply reads_uint256|].
    eapply reads_bind; [by apply reads_branch|]. apply (reads_bind_ret _ (Build_CMerkleTx t h v)). by apply (reads_signed 4); [lia|]. }
  eapply reads_bind; [by apply reads_branch|]. eapply reads_bind; [by apply (reads_signed 4); [lia|]|].
  apply (reads_bind_ret _ (Build_CAuxPow _ cv ci)). by apply reads_pure_header.
Qed.

(** The transactions a header and a block carry. *)
Definition header_txs (h : CBlockHeader) : list CTransaction :=
  match auxpow h with Some a => [mtx_tx (merkleTx a)] | None => [] end.
Definition block_txs (b : CBlock) : list CTransaction := header_txs (header b) ++ vtx b.

Lemma reads_header h : header_ok h -> Forall unexpired (header_txs h) ->
  exists bytes, ser_header timeToPrune expired false h = Some bytes /\ reads (read_header timeToPrune expired Hash) bytes h.
Proof.
  intros [Hp Ha] Hu. unfold ser_header, header_txs, read_header in *. destruct h as [p [a|]]; cbn [pure auxpow] in *.
  - destruct Ha as [Hf Ha]. rewrite Hf. cbn [mbind option_bind]. eexists. split; [done|].
    eapply reads_bind; [by apply reads_pure_header|]. rewrite Hf.
    apply (reads_bind_ret _ (fun a => Build_CBlockHeader p (Some a))). apply reads_auxpow; [done|]. by inversion Hu.
  - rewrite Ha. eexists. split; [done|]. rewrite <- (app_nil_r (ser_pure_header p)).
    eapply reads_bind; [by apply reads_pure_header|]. rewrite Ha. apply reads_ret.
Qed.

Lemma reads_full_block b : block_ok b -> Forall unexpired (block_txs b) ->
  exists bytes, ser_block timeToPrune expired false b = Some bytes /\ reads (read_full_block timeToPrune expired Hash) bytes b.
Proof.
  intros (Hh & Hv & Lv) [Hu1 Hu2]%Forall_app. unfold ser_block, read_full_block.
  destruct (reads_header _ Hh Hu1) as (bytes & -> & Hr). cbn [mbind option_bind]. eexists. split; [done|].
  eapply reads_bind; [exact Hr|]. destruct b as [h v]. cbn [header vtx] in *. apply (reads_bind_ret _ (Build_CBlock h)).
  apply reads_vector; [done|]. apply Forall_forall. intros tx Hin. apply reads_hashed_tx.
  - by apply (Forall_forall _ _) with (x := tx) in Hv.
  - by apply (Forall_forall _ _) with (x := tx) in Hu2.
Qed.

End Typing.

(** An auxiliary proof of work passes [check] exactly when the coinbase is
    committed to by the parent's merkle root under a foreign chain ID, and its first input
    script holds, from the first position of the chain root on, that root, the size of
    the chain tree and a nonce that selects the leaf at which the root is reached from the
    block's hash; a merged-mining header must be the only one and sit right before the
    root, and without one the root must start within the first 20 bytes. *)
Theorem auxpow_check_correct (pair : Z -> Z -> Z) (a : CAuxPow) (hashAuxBlock nChainId : Z) (input : CTxIn) (rest : list CTxIn) :
  vin (mtx_tx (merkleTx a)) = input :: rest -> bytes_ok (scriptSig input) ->
  check pair a hashAuxBlock nChainId = Some true <-> auxpow_valid pair a (scriptSig input) hashAuxBlock nChainId.
Proof. apply check_ok. Qed.

(** C23: the same work is not counted twice: two auxiliary proofs of work that pass [check]
    for the same chain with the same coinbase script, one with a merged-mining header,
    vouch for the same block, at the same place of the chain tree and along the same
    branch, unless two of the pairs hashed along the branches collide. *)
Theorem auxpow_no_reuse (pair : Z -> Z -> Z) (a1 a2 : CAuxPow) (hash1 hash2 nChainId : Z) (i1 i2 : CTxIn) (r1 r2 : list CTxIn) (k : nat) :
  vin (mtx_tx (merkleTx a1)) = i1 :: r1 -> vin (mtx_tx (merkleTx a2)) = i2 :: r2 -> scriptSig i1 = scriptSig i2 ->
  bytes_ok (scriptSig i1) -> occurs_at pchMergedMiningHeader (scriptSig i1) k ->
  (forall x y, in_u 256 (pair x y)) -> in_u 256 hash1 -> in_u 256 hash2 ->
  collision_free pair (branch_inputs pair hash1 (vChainMerkleBranch a1) (nChainIndex a1)
                       ++ branch_inputs pair hash2 (vChainMerkleBranch a2) (nChainIndex a2)) = true ->
  check pair a1 hash1 nChainId = Some true -> check pair a2 hash2 nChainId = Some true ->
  hash1 = hash2 /\ nChainIndex a1 = nChainIndex a2 /\ vChainMerkleBranch a1 = vChainMerkleBranch a2.
Proof.
  intros E1 E2 Es Hs Hk Hp Hh1 Hh2 Hcol H1 H2.
  rewrite (check_ok _ _ _ _ _ _ E1 Hs) in H1. rewrite (check_ok _ _ _ _ _ _ E2) in H2 by by rewrite <- Es. rewrite <- Es in H2.
  destruct H1 as (_ & _ & L1 & _ & p1 & n1 & N1 & C1 & X1), H2 as (_ & _ & L2 & _ & p2 & n2 & N2 & C2 & X2).
  pose proof (merkle_branch_loop_range pair hash1 (vChainMerkleBranch a1) (nChainIndex a1) Hp Hh1) as R1.
  pose proof (merkle_branch_loop_range pair hash2 (vChainMerkleBranch a2) (nChainIndex a2) Hp Hh2) as R2.
  eapply commits_unique in C2; [|..|exact C1]; [|by rewrite !root_bytes_length|lia|lia|done|done|done].
  destruct C2 as (Er & El & ->). apply root_bytes_inj in Er; [|done..]. apply Nat2Z.inj in El.
  assert (nChainIndex a1 = nChainIndex a2) as Ei by (rewrite X1, X2, El; done).
  rewrite Ei in Er, Hcol. split_and!; [..|done|].
  all: by apply (merkle_branch_loop_inj pair _ _ _ _ (nChainIndex a2) El Hcol Er).
Qed.

(** The parts of a version do not disturb each other: for a base version without bits from 8 to 28 and a
    chain ID below 2^13, [SetBaseVersion] does not overflow, and in the version it builds, whatever the auxpow flag is
    then set to, the chain ID, the flag and the base version are read back, and clearing the flag restores it. *)
Theorem version_fields (base c : Z) (flag : bool) :
  0 <= base < 2 ^ 31 -> (forall i, 8 <= i < 29 -> Z.testbit base i = false) -> 0 <= c < 2 ^ 13 ->
  exists v, SetBaseVersion base c = Some v /\ in_s 32 v /\ IsAuxpow v = false
    /\ GetChainId (SetAuxpowVersion v flag) = c /\ IsAuxpow (SetAuxpowVersion v flag) = flag
    /\ GetBaseVersion (SetAuxpowVersion v flag) = base mod 2 ^ 8
    /\ SetAuxpowVersion (SetAuxpowVersion v flag) false = v.
Proof.
  intros Hbase Hb Hc.
  assert (in_s 32 (c * VERSION_CHAIN_START)) as Hp by (unfold in_s, VERSION_CHAIN_START; rewrite Z.shiftl_1_l; lia).
  unfold SetBaseVersion, chain_version. rewrite decide_True by exact Hp. cbn [mbind option_bind].
  set (v := Z.lor base (c * VERSION_CHAIN_START)).
  assert (0 <= v < 2 ^ 31) as Hv.
  { split; [apply Z.lor_nonneg; unfold VERSION_CHAIN_START; rewrite Z.shiftl_1_l; lia|].
    assert (in_s 32 v) as [_ Hlt] by (apply lor_in_s; [lia|unfold in_s; lia|exact Hp]). exact Hlt. }
  assert (IsAuxpow v = false) as Hf.
  { rewrite IsAuxpow_testbit. unfold v. rewrite chain_bits, Hb, Z.testbit_neg_r by lia. done. }
  exists v. split_and!; [done|unfold in_s; lia|done| |apply IsAuxpow_Set| |by apply SetAuxpow_clear].
  - rewrite GetChainId_SetAuxpow. apply GetChainId_lor; [intros; apply Hb; lia|done].
  - unfold GetBaseVersion. assert (0 <= SetAuxpowVersion v flag).
    { unfold SetAuxpowVersion, VERSION_AUXPOW. rewrite Z.shiftl_1_l. destruct flag; [apply Z.lor_nonneg|apply Z.land_nonneg]; lia. }
    unfold VERSION_AUXPOW at 1. rewrite Z.shiftl_1_l, Z.rem_mod_nonneg by lia. apply Z.bits_inj'. intros i Hi.
    destruct (Z.lt_ge_cases i 8); [|by rewrite !Z.mod_pow2_bits_high by lia].
    rewrite !Z.mod_pow2_bits_low, SetAuxpowVersion_testbit by lia. rewrite (proj2 (Z.eqb_neq _ _)) by lia.
    unfold v. rewrite chain_bits, (Z.testbit_neg_r c) by lia. apply orb_false_r.
Qed.

Lemma version_fields_witness : exists v, SetBaseVersion 0x20000003 0xfff = Some v /\ in_s 32 v /\ IsAuxpow v = false
    /\ GetChainId (SetAuxpowVersion v true) = 0xfff /\ IsAuxpow (SetAuxpowVersion v true) = true
    /\ GetBaseVersion (SetAuxpowVersion v true) = 0x20000003 mod 2 ^ 8
    /\ SetAuxpowVersion (SetAuxpowVersion v true) false = v.
Proof.
  apply (version_fields 0x20000003 0xfff true); [lia| |lia].
  intros i Hi. assert (In i (seqZ 8 21)) as Hin by (apply list_elem_of_In, elem_of_seqZ; lia).
  apply negb_true_iff. clear Hi. revert i Hin.
  apply (forallb_forall (fun i => negb (Z.testbit 0x20000003 i)) (seqZ 8 21)). vm_compute. reflexivity.
Defined.

(** C37: blocks read from a stream are well typed: whatever the bytes are, when [CBlock] is
    read from them, every integer of the header, of its auxiliary proof of work and of
    every transaction fits its C++ type, every vector has at most [MAX_SIZE] elements, every
    transaction hash is the hash of the transaction, the auxiliary proof of work is
    present exactly when the version has its flag, and bytes are left. *)
Theorem block_read_typed (timeToPrune expired : list Z -> bool) (Hash : list Z -> Z) (s rest : list Z) (b : CBlock) :
  bytes_ok s -> read_full_block timeToPrune expired Hash s = Some (b, rest) ->
  block_ok timeToPrune expired Hash b /\ bytes_ok rest.
Proof. apply yields_full_block. Qed.

(** C36: a well-typed block, with or without an auxiliary proof of work, is written without a failed [assert] and read back
    as it was, and nothing behind it is consumed, unless a transaction has an expired service output. *)
Theorem block_roundtrip (timeToPrune expired : list Z -> bool) (Hash : list Z -> Z) (b : CBlock) (rest : list Z) :
  block_ok timeToPrune expired Hash b -> Forall (unexpired timeToPrune expired) (block_txs b) ->
  exists bytes, ser_block timeToPrune expired false b = Some bytes
    /\ read_full_block timeToPrune expired Hash (bytes ++ rest) = Some (b, rest).
Proof. intros Hb Hu. destruct (reads_full_block _ _ Hash b Hb Hu) as (bytes & E & H). eauto. Qed.

(** A list that equals itself moved by one place behind [x] is constant. *)
Lemma shifted_constant (x : Z) n l : length l = S n -> l = x :: take n l -> l = replicate (S n) x.
Proof.
  intros El E. symmetry. apply replicate_as_Forall. split; [done|]. apply Forall_lookup. intros i.
  induction i as [|i IH]; intros y Hy; rewrite E in Hy; [by injection Hy|].
  cbn in Hy. apply IH. by apply lookup_take_Some in Hy as [Hy _].
Qed.

(** The minimal auxpow that [initAuxPow] builds, for a header hash with bytes [hash]. *)
Definition minimal_script (hash : Z) : list Z := [40] ++ root_bytes hash ++ le_encode 4 1 ++ le_encode 4 0.

Lemma initAuxPow_ok timeToPrune expired Hash h :
  exists h' a input, initAuxPow timeToPrune expired Hash h = Some h'
  /\ pure h' = set_version (pure h) (SetAuxpowVersion (hd_nVersion (pure h)) true) /\ auxpow h' = Some a
  /\ nIndex (merkleTx a) = 0 /\ vChainMerkleBranch a = [] /\ vMerkleBranch (merkleTx a) = [] /\ nChainIndex a = 0
  /\ hd_nVersion (parentBlock a) = 1 /\ hd_hashMerkleRoot (parentBlock a) = tx_hash (mtx_tx (merkleTx a))
  /\ vin (mtx_tx (merkleTx a)) = [input] /\ scriptSig input = minimal_script (pure_GetHash Hash (pure h')).
Proof.
  unfold initAuxPow. set (h1 := set_version (pure h) _). cbn [pure auxpow BlockMerkleRoot map].
  unfold BlockMerkleRoot. cbn [map]. rewrite ComputeMerkleRoot_ok by (done || (cbn [length]; lia)).
  cbn [mbind option_bind]. rewrite tree_root_single. unfold SetAuxpow. cbn [pure].
  assert (set_version h1 (SetAuxpowVersion (hd_nVersion h1) true) = h1) as ->.
  { unfold h1, set_version. cbn [hd_nVersion hd_hashPrevBlock hd_hashMerkleRoot hd_nTime hd_nBits hd_nNonce]. f_equal. apply SetAuxpow_twice. }
  do 3 eexists. split; [done|]. cbn [pure auxpow]. split; [done|]. split; [done|].
  cbn [merkleTx mtx_tx nIndex vMerkleBranch CMerkleTx_of vChainMerkleBranch nChainIndex parentBlock hd_nVersion hd_hashMerkleRoot].
  split_and!; done.
Qed.

(** A block header that [initAuxPow] prepared needs only work: its minimal auxiliary
    proof of work is accepted as committing to the header, so [CheckProofOfWork] of the
    block decides on the hash of the parent alone, provided that the version has our
    (nonzero) chain ID, that the header's hash contains no merged-mining header and that
    the hash does not consist of the push opcode of the script. *)
Theorem initAuxPow_needs_work (timeToPrune expired : list Z -> bool) (Hash : list Z -> Z) (network : Network)
    (h : CBlockHeader) (nAuxpowChainId : Z) (params : Params) :
  let hash := pure_GetHash Hash (set_version (pure h) (SetAuxpowVersion (hd_nVersion (pure h)) true)) in
  GetChainId (hd_nVersion (pure h)) = nAuxpowChainId -> nAuxpowChainId <> 0 ->
  search pchMergedMiningHeader (minimal_script hash) = length (minimal_script hash) ->
  root_bytes hash <> replicate 32 40 ->
  exists h' a, initAuxPow timeToPrune expired Hash h = Some h' /\ auxpow h' = Some a
  /\ CheckBlockProofOfWork Hash network h' nAuxpowChainId params
     = CheckProofOfWork network (pure_GetHash Hash (parentBlock a)) (hd_nBits (pure h)) params.
Proof.
  intros hash Hid Hne Hmagic Hrep. destruct (initAuxPow_ok timeToPrune expired Hash h) as
    (h' & a & input & -> & Ep & Ea & Ei & Ecv & Ev & Eci & Epv & Er & Evin & Es).
  exists h', a. split_and!; [done|done|].
  assert (bytes_ok (minimal_script hash)) as Hs.
  { unfold minimal_script. repeat apply Forall_app_2; try apply le_encode_bytes; [by repeat constructor|].
    apply Forall_reverse, le_encode_bytes. }
  assert (check (hash_pair Hash) a hash nAuxpowChainId = Some true) as Hcheck.
  { apply (check_ok _ _ _ _ _ _ Evin); rewrite Es, Ep; fold hash; [done|]. unfold auxpow_valid.
    rewrite Ei, Ecv, Ev, Eci, Epv, Er. split_and!; [done| |cbn; lia|done|].
    - change (GetChainId 1) with 0. done.
    - exists 1%nat, 0. split_and!; [by unfold in_u| |pose proof (getExpectedIndex_range 0 nAuxpowChainId 0 ltac:(lia)) as Hx; change (Z.of_nat (length (@nil Z))) with 0; lia]. cbn [length merkle_branch_loop]. unfold commits_at. split_and!.
      + change (2 ^ Z.of_nat 0) with 1. unfold occurs_at.
        change (drop 1 (minimal_script hash)) with (root_bytes hash ++ le_encode 4 1 ++ le_encode 4 0). apply firstn_all.
      + intros [|n] Hn; [|lia]. exfalso. apply Hrep. apply (shifted_constant 40 31); [apply root_bytes_length|].
        unfold occurs_at, minimal_script in Hn. rewrite root_bytes_length, drop_0 in Hn.
        rewrite <- Hn at 1. change ([40] ++ root_bytes hash ++ le_encode 4 1 ++ le_encode 4 0) with (40 :: root_bytes hash ++ le_encode 4 1 ++ le_encode 4 0).
        cbn [take]. f_equal.
      + right. split; [by apply search_none|lia]. }
  unfold CheckBlockProofOfWork. rewrite Ea, Ep. fold hash.
  change (hd_nVersion (set_version (pure h) ?v)) with v. change (hd_nBits (set_version (pure h) ?v)) with (hd_nBits (pure h)).
  rewrite GetChainId_SetAuxpow, Hid, Z.eqb_refl, IsAuxpow_Set. cbn [negb].
  rewrite Hcheck. cbn [mbind option_bind negb].
  by destruct (CheckProofOfWork _ _ _ _) as [[]|].
Qed.

(** An auxiliary proof of work whose transaction has no inputs, in a block header with our chain ID, is not rejected:
    when the transaction is the only one of the parent, the check of the block's work, before any work is looked at, reads the
    first input of an empty vector, which is undefined behaviour. *)
Theorem auxpow_without_inputs (Hash : list Z -> Z) (network : Network) (h : CBlockHeader) (a : CAuxPow) (nAuxpowChainId : Z) (params : Params) :
  auxpow h = Some a -> IsAuxpow (hd_nVersion (pure h)) = true -> GetChainId (hd_nVersion (pure h)) = nAuxpowChainId ->
  nIndex (merkleTx a) = 0 -> (length (vChainMerkleBranch a) <= 30)%nat -> vMerkleBranch (merkleTx a) = [] ->
  GetChainId (hd_nVersion (parentBlock a)) <> nAuxpowChainId ->
  hd_hashMerkleRoot (parentBlock a) = tx_hash (mtx_tx (merkleTx a)) -> vin (mtx_tx (merkleTx a)) = [] ->
  CheckBlockProofOfWork Hash network h nAuxpowChainId params = None.
Proof.
  intros Ea Hf <- Ei El Ev Hp Er Evin. unfold CheckBlockProofOfWork. rewrite Ea, Z.eqb_refl, Hf. cbn [negb].
  unfold check. rewrite Ei, Ev. cbn [Z.eqb negb]. rewrite (proj2 (Z.eqb_neq _ _)) by done.
  rewrite (proj2 (Nat.ltb_ge _ _)) by done. unfold CheckMerkleBranch at 1. cbn [Z.eqb merkle_branch_loop].
  by rewrite Er, Z.eqb_refl, Evin.
Qed.

(** ** Witnesses *)

Definition toy_pair (x y : Z) : Z := (1000 * x + y) mod 2 ^ 256.
Definition toy_bytes_hash (l : list Z) : Z := foldr (fun b s => b + 3 * s) 0 l mod 2 ^ 256.

Lemma toy_pair_range x y : in_u 256 (toy_pair x y).
Proof. apply Z.mod_pos_bound. lia. Qed.

(** An auxpow for the block with hash [h] on a branch with one sibling, whose coinbase commits to the root behind a header. *)
Definition toy_input (script : list Z) : CTxIn :=
  {| prevout := COutPoint_null; scriptSig := script; nSequence := SEQUENCE_FINAL |}.
Definition toy_auxpow (h : Z) : CAuxPow :=
  let idx := getExpectedIndex 5 0xfff 1 in
  let script := [3; 1; 2; 3] ++ pchMergedMiningHeader ++ root_bytes (merkle_branch_loop toy_pair h [7] idx)
                ++ le_encode 4 2 ++ le_encode 4 5 in
  {| merkleTx := {| mtx_tx := {| tx_nVersion := 1; vin := [toy_input script]; vout := []; nLockTime := 0; tx_hash := 77 |};
                    hashBlock := 0; vMerkleBranch := [8]; nIndex := 0 |};
     vChainMerkleBranch := [7]; nChainIndex := idx;
     parentBlock := {| hd_nVersion := 1; hd_hashPrevBlock := 0; hd_hashMerkleRoot := toy_pair 77 8; hd_nTime := 0; hd_nBits := 0; hd_nNonce := 0 |} |}.
Definition toy_script : list Z := match vin (mtx_tx (merkleTx (toy_auxpow 42))) with i :: _ => scriptSig i | [] => [] end.

Lemma toy_script_bytes : bytes_ok toy_script.
Proof. apply (bool_decide_unpack _). vm_compute. exact I. Qed.

Lemma toy_auxpow_checks : check toy_pair (toy_auxpow 42) 42 0xfff = Some true.
Proof. vm_compute. reflexivity. Qed.

Lemma auxpow_check_correct_witness : auxpow_valid toy_pair (toy_auxpow 42) toy_script 42 0xfff.
Proof.
  apply (auxpow_check_correct toy_pair (toy_auxpow 42) 42 0xfff (toy_input toy_script) []); [reflexivity|exact toy_script_bytes|].
  exact toy_auxpow_checks.
Defined.

Lemma auxpow_no_reuse_witness :
  42 = 42 /\ nChainIndex (toy_auxpow 42) = nChainIndex (toy_auxpow 42) /\ vChainMerkleBranch (toy_auxpow 42) = [7].
Proof.
  apply (auxpow_no_reuse toy_pair (toy_auxpow 42) (toy_auxpow 42) 42 42 0xfff (toy_input toy_script) (toy_input toy_script) [] [] 4).
  - reflexivity.
  - reflexivity.
  - reflexivity.
  - exact toy_script_bytes.
  - vm_compute. reflexivity.
  - exact toy_pair_range.
  - unfold in_u. lia.
  - unfold in_u. lia.
  - vm_compute. reflexivity.
  - exact toy_auxpow_checks.
  - exact toy_auxpow_checks.
Defined.

(** A block with an auxpow, and its bytes. *)
Definition toy_never : list Z -> bool := fun _ => false.
Definition rehash (tx : CTransaction) : CTransaction :=
  tx_make toy_never toy_never toy_bytes_hash (tx_nVersion tx) (vin tx) (vout tx) (nLockTime tx).
Definition toy_block : CBlock :=
  let a := toy_auxpow 42 in
  {| header := {| pure := {| hd_nVersion := 0x0fff0101; hd_hashPrevBlock := 9; hd_hashMerkleRoot := 10; hd_nTime := 11; hd_nBits := 0x207fffff; hd_nNonce := 13 |};
                  auxpow := Some {| merkleTx := {| mtx_tx := rehash (mtx_tx (merkleTx a)); hashBlock := 0; vMerkleBranch := [8]; nIndex := 0 |};
                                    vChainMerkleBranch := [7]; nChainIndex := nChainIndex a; parentBlock := parentBlock a |} |};
     vtx := [rehash toy_service_tx] |}.
Definition toy_block_bytes : list Z := default [] (ser_block toy_never toy_never false toy_block).

Lemma toy_block_ok : block_ok toy_never toy_never toy_bytes_hash toy_block.
Proof. apply (bool_decide_unpack _). vm_compute. exact I. Qed.

Lemma block_read_typed_witness : block_ok toy_never toy_never toy_bytes_hash toy_block /\ bytes_ok [99].
Proof.
  apply (block_read_typed toy_never toy_never toy_bytes_hash (toy_block_bytes ++ [99]) [99] toy_block).
  - apply (bool_decide_unpack _). vm_compute. exact I.
  - vm_compute. reflexivity.
Defined.

Lemma block_roundtrip_witness : exists bytes, ser_block toy_never toy_never false toy_block = Some bytes
    /\ read_full_block toy_never toy_never toy_bytes_hash (bytes ++ [99]) = Some (toy_block, [99]).
Proof.
  apply (block_roundtrip toy_never toy_never toy_bytes_hash toy_block [99]); [exact toy_block_ok|].
  repeat constructor.
Defined.

Definition toy_header : CBlockHeader :=
  {| pure := {| hd_nVersion := 0x0fff0001; hd_hashPrevBlock := 9; hd_hashMerkleRoot := 10; hd_nTime := 11; hd_nBits := 0x207fffff; hd_nNonce := 13 |};
     auxpow := None |}.

Lemma initAuxPow_needs_work_witness :
  exists h' a, initAuxPow toy_never toy_never toy_bytes_hash toy_header = Some h' /\ auxpow h' = Some a
  /\ CheckBlockProofOfWork toy_bytes_hash MAIN h' 0xfff main_params
     = CheckProofOfWork MAIN (pure_GetHash toy_bytes_hash (parentBlock a)) 0x207fffff main_params.
Proof.
  apply (initAuxPow_needs_work toy_never toy_never toy_bytes_hash MAIN toy_header 0xfff main_params).
  - reflexivity.
  - discriminate.
  - vm_compute. reflexivity.
  - vm_compute. discriminate.
Defined.

Lemma auxpow_without_inputs_witness :
  CheckBlockProofOfWork toy_bytes_hash MAIN
    {| pure := pure (header toy_block);
       auxpow := Some {| merkleTx := {| mtx_tx := {| tx_nVersion := 1; vin := []; vout := []; nLockTime := 0; tx_hash := 77 |};
                                        hashBlock := 0; vMerkleBranch := []; nIndex := 0 |};
                         vChainMerkleBranch := []; nChainIndex := 0;
                         parentBlock := {| hd_nVersion := 1; hd_hashPrevBlock := 0; hd_hashMerkleRoot := 77; hd_nTime := 0; hd_nBits := 0; hd_nNonce := 0 |} |} |}
    0xfff main_params = None.
Proof. eapply auxpow_without_inputs; try reflexivity; [cbn; lia|vm_compute; discriminate]. Defined.
