(* ===== verification/BlockCheck.v ===== *)
(** * Accepting block headers and checking blocks

    Models the block checks of [src/src/validation.cpp]: [CheckBlockHeader],
    [CheckBlock], [CheckIndexAgainstCheckpoint] (with [src/src/checkpoints.cpp]),
    [ContextualCheckBlockHeader], [ContextualCheckBlock], [AcceptBlockHeader] and
    [ProcessNewBlockHeaders].

    The block index, proof of work, merged mining, transaction checks, Merkle trees
    and version bits are those of the files this one requires.  Outside the
    model, as parameters: the InstantSend locks and the spork that activates them, the
    clock, and the two questions that the serialization of service outputs asks. [None] is a
    failed [assert], a null dereference or undefined behaviour. *)

From stdpp Require Import gmap strings.
From S2P Require Import Prelude ArithUint256 Chain Amount Script Transaction Serialize Coins Pow TxVerify VersionBits Merkle AuxPow.

(** The fields of [Consensus::Params] the checks read. *)
Record ConsensusParams := {
  cp_network : Network;
  cp_pow : Params;
  cp_bip9 : BIP9Params;
  hashGenesisBlock : Z;
  hashDevnetGenesisBlock : Z;
  nAuxpowChainId : Z;
  BIP34Height : Z;
  DIP0001Height : Z;
}.

(** [Consensus::DEPLOYMENT_CSV] *)
Definition DEPLOYMENT_CSV : nat := 1.

(** [Checkpoints::GetLastCheckpoint]: [mapCheckpoints] in the order of its heights. *)
Fixpoint last_known (m : BlockMap) (l : list (Z * Z)) : option CBlockIndex :=
  match l with
  | [] => None
  | i :: l => match m !! i.2 with Some b => Some b | None => last_known m l end
  end.

Definition GetLastCheckpoint (m : BlockMap) (mapCheckpoints : list (Z * Z)) : option CBlockIndex :=
  last_known m (reverse mapCheckpoints).

(** The state [CheckBlock] can change: the flag of the block and [mapRejectedBlocks]. *)
Record CheckState := { fChecked : bool; mapRejectedBlocks : gmap Z Z }.

(** [mapRejectedBlocks.insert]: an entry that is there stays. *)
Definition reject_block (hash time : Z) (cs : CheckState) : CheckState :=
  {| fChecked := fChecked cs;
     mapRejectedBlocks := match mapRejectedBlocks cs !! hash with
                          | Some _ => mapRejectedBlocks cs
                          | None => <[hash := time]> (mapRejectedBlocks cs)
                          end |}.

Section Checks.

Variable timeToPrune expired : list Z -> bool.
Variable Hash : list Z -> Z.
(** [outside] of [KimotoGravityWell]. *)
Variable outside : Z -> Z -> Z -> bool.
Variable params : ConsensusParams.

Definition CheckBlockHeader (block : CBlockHeader) (st : CValidationState) (fCheckPOW : bool)
    : option (bool * CValidationState) :=
  pow ← (if fCheckPOW
         then CheckBlockProofOfWork Hash (cp_network params) block (nAuxpowChainId params) (cp_pow params)
         else Some true);
  if negb pow then Some (DoS st 50 false REJECT_INVALID "high-hash" false)
  else if negb (hashDevnetGenesisBlock params =? 0)
          && (hd_hashPrevBlock (pure block) =? hashGenesisBlock params)
          && negb (pure_GetHash Hash (pure block) =? hashDevnetGenesisBlock params)
  then Some (DoS st 100 false REJECT_INVALID "devnet-genesis" false)
  else Some (true, st).

(** The transaction of the block with an input that is locked to another transaction. *)
Fixpoint conflicting_tx (lockedTx : COutPoint -> option Z) (vtx : list CTransaction) : bool :=
  match vtx with
  | [] => false
  | tx :: vtx =>
      if IsCoinBase tx then conflicting_tx lockedTx vtx
      else if existsb (fun txin => match lockedTx (prevout txin) with
                                   | Some hashLocked => negb (hashLocked =? tx_hash tx)
                                   | None => false
                                   end) (vin tx) then true
      else conflicting_tx lockedTx vtx
  end.

(** The first transaction that [CheckTransaction] refuses, as the result of the loop. *)
Fixpoint check_transactions (vtx : list CTransaction) (st : CValidationState) : option (bool * CValidationState) :=
  match vtx with
  | [] => None
  | tx :: vtx =>
      let '(ok, st) := CheckTransaction timeToPrune expired tx st true in
      if negb ok then Some (state_Invalid st false (chRejectCode st) (strRejectReason st))
      else check_transactions vtx st
  end.

Definition block_sigops (vtx : list CTransaction) : Z := foldl (fun n tx => u32 (n + GetLegacySigOpCount tx)) 0 vtx.

(** [GetSerializeSize(block, SER_NETWORK, PROTOCOL_VERSION)] *)
Definition block_size (block : CBlock) : option Z :=
  bytes ← ser_block timeToPrune expired false block; Some (Z.of_nat (length bytes)).

(** Whether a block of this size and number of transactions is out of bounds; the
    disjuncts are evaluated one after the other. *)
Definition bad_length (block : CBlock) (nMaxBlockSize : Z) : option bool :=
  let n := Z.of_nat (length (vtx block)) in
  if (n =? 0) || (n >? nMaxBlockSize) then Some true
  else size ← block_size block; Some (size >? nMaxBlockSize).

(** [spork3]: [SPORK_3_INSTANTSEND_BLOCK_FILTERING] is active; [lockedTx] is
    [GetLockedOutPointTxHash]; [now] is [GetTime()]. *)
Definition CheckBlock (spork3 : bool) (lockedTx : COutPoint -> option Z) (now : Z)
    (block : CBlock) (st : CValidationState) (fCheckPOW fCheckMerkleRoot : bool) (cs : CheckState)
    : option (bool * CValidationState * CheckState) :=
  if fChecked cs then Some (true, st, cs)
  else
    '(ok, st) ← CheckBlockHeader (header block) st fCheckPOW;
    if negb ok then Some (false, st, cs)
    else
      merkle ← (if fCheckMerkleRoot then
                  '(hashMerkleRoot2, mutated) ← BlockMerkleRoot (hash_pair Hash) tx_hash (vtx block);
                  Some (if negb (hd_hashMerkleRoot (pure (header block)) =? hashMerkleRoot2)
                        then Some (DoS st 100 false REJECT_INVALID "bad-txnmrklroot" true)
                        else if (mutated : bool) then Some (DoS st 100 false REJECT_INVALID "bad-txns-duplicate" true)
                        else None)
                else Some None);
      match merkle with
      | Some r => Some (r, cs)
      | None =>
          bad ← bad_length block (MaxBlockSize true);
          if (bad : bool) then Some (DoS st 100 false REJECT_INVALID "bad-blk-length" false, cs)
          else if negb (match vtx block with tx :: _ => IsCoinBase tx | [] => false end)
          then Some (DoS st 100 false REJECT_INVALID "bad-cb-missing" false, cs)
          else if existsb IsCoinBase (tail (vtx block))
          then Some (DoS st 100 false REJECT_INVALID "bad-cb-multiple" false, cs)
          else if spork3 && conflicting_tx lockedTx (vtx block)
          then Some (DoS st 100 false REJECT_INVALID "conflict-tx-lock" false,
                     reject_block (pure_GetHash Hash (pure (header block))) now cs)
          else
            match check_transactions (vtx block) st with
            | Some r => Some (r, cs)
            | None =>
                if block_sigops (vtx block) >? MaxBlockSigOps true
                then Some (DoS st 100 false REJECT_INVALID "bad-blk-sigops" false, cs)
                else Some (true, st, {| fChecked := if fCheckPOW && fCheckMerkleRoot then true else fChecked cs;
                                        mapRejectedBlocks := mapRejectedBlocks cs |})
            end
      end.

(** [pindexPrev] is a block of the index, with its hash as pointer. *)
Definition CheckIndexAgainstCheckpoint (m : BlockMap) (mapCheckpoints : list (Z * Z)) (pindexPrev : ptr) (st : CValidationState)
    : option (bool * CValidationState) :=
  if pindexPrev =? hashGenesisBlock params then Some (true, st)
  else
    prev ← m !! pindexPrev;
    let height := nHeight prev + 1 in
    match GetLastCheckpoint m mapCheckpoints with
    | Some pcheckpoint =>
        if height <? nHeight pcheckpoint then Some (DoS st 100 false 0 "" false) else Some (true, st)
    | None => Some (true, st)
    end.

Definition ContextualCheckBlockHeader (m : BlockMap) (block : CBlockHeader) (st : CValidationState) (pindexPrev : option ptr)
    (nAdjustedTime : Z) : option (bool * CValidationState) :=
  prev ← pindexPrev;
  bits ← GetNextWorkRequired m outside prev (hd_nTime (pure block)) (cp_pow params);
  if negb (hd_nBits (pure block) =? bits) then Some (DoS st 100 false REJECT_INVALID "bad-diffbits" false)
  else if negb (bool_decide (cp_network params = REGTEST)) then
    if hd_nTime (pure block) <=? GetMedianTimePast m prev
    then Some (state_Invalid st false REJECT_INVALID "time-too-old")
    else if hd_nTime (pure block) >? nAdjustedTime + 2 * 60 * 60
    then Some (state_Invalid st false REJECT_INVALID "time-too-new")
    else Some (true, st)
  else Some (true, st).

(** The first transaction of a block that is not final or, once DIP0001 is active, is
    too large; otherwise the signature operations of all. *)
Fixpoint contextual_txs (dip1 : bool) (height cutoff : Z) (vtx : list CTransaction) (nSigOps : Z) (st : CValidationState)
    : (bool * CValidationState) + Z :=
  match vtx with
  | [] => inr nSigOps
  | tx :: vtx =>
      if negb (IsFinalTx tx height cutoff) then inl (DoS st 10 false REJECT_INVALID "bad-txns-nonfinal" false)
      else if dip1 && (GetSerializeSize timeToPrune expired tx >? MAX_STANDARD_TX_SIZE)
      then inl (DoS st 10 false REJECT_INVALID "bad-txns-oversized" false)
      else contextual_txs dip1 height cutoff vtx (u32 (nSigOps + GetLegacySigOpCount tx)) st
  end.

Definition ContextualCheckBlock (m : BlockMap) (caches : list ThresholdConditionCache) (block : CBlock) (st : CValidationState)
    (pindexPrev : option ptr) : option (bool * CValidationState * list ThresholdConditionCache) :=
  height ← match pindexPrev with None => Some 0 | Some p => b ← m !! p; Some (nHeight b + 1) end;
  '(state, caches) ← VersionBitsState (cp_bip9 params) m caches pindexPrev DEPLOYMENT_CSV;
  let nLockTimeFlags := if bool_decide (state = THRESHOLD_ACTIVE) then LOCKTIME_MEDIAN_TIME_PAST else 0 in
  cutoff ← (if negb (Z.land nLockTimeFlags LOCKTIME_MEDIAN_TIME_PAST =? 0)
            then p ← pindexPrev; Some (GetMedianTimePast m p)
            else Some (hd_nTime (pure (header block))));
  let fDIP0001Active_context := height >=? DIP0001Height params in
  bad ← bad_length block (MaxBlockSize fDIP0001Active_context);
  if (bad : bool) then Some (DoS st 10 false REJECT_INVALID "bad-blk-length" false, caches)
  else
    match contextual_txs fDIP0001Active_context height cutoff (vtx block) 0 st with
    | inl r => Some (r, caches)
    | inr nSigOps =>
        if nSigOps >? MaxBlockSigOps fDIP0001Active_context
        then Some (DoS st 10 false REJECT_INVALID "bad-blk-sigops" false, caches)
        else if height >=? BIP34Height params then
          let expect := push_int64 [] height in
          coinbase ← head (vtx block);
          input ← head (vin coinbase);
          if (length (scriptSig input) <? length expect)%nat
             || negb (bool_decide (take (length expect) (scriptSig input) = expect))
          then Some (DoS st 100 false REJECT_INVALID "bad-cb-height" false, caches)
          else Some (true, st, caches)
        else Some (true, st, caches)
    end.

(** ** Accepting headers *)

Variable fCheckpointsEnabled : bool.
Variable mapCheckpoints : list (Z * Z).

(** The index before the entry is added, as the checks need it; the second
    component of the result is the entry [*ppindex] points to, when it is set. *)
Definition AcceptBlockHeader (cs : ChainState) (block : CBlockHeader) (st : CValidationState) (nAdjustedTime : Z)
    : option (bool * CValidationState * ChainState * option ptr) :=
  let m := mapBlockIndex cs in
  let hash := pure_GetHash Hash (pure block) in
  let add (st : CValidationState) :=
    '(cs, pindex) ← AddToBlockIndex (pure_GetHash Hash) cs (pure block); Some (true, st, cs, Some pindex) in
  if negb (hash =? hashGenesisBlock params) then
    match m !! hash with
    | Some self =>
        if negb (Z.land (nStatus self) BLOCK_FAILED_MASK =? 0)
        then Some (state_Invalid st false 0 "duplicate", cs, Some hash)
        else Some (true, st, cs, Some hash)
    | None =>
        '(ok, st) ← CheckBlockHeader block st true;
        if negb ok then Some (false, st, cs, None)
        else
          match m !! hd_hashPrevBlock (pure block) with
          | None => Some (DoS st 10 false 0 "bad-prevblk" false, cs, None)
          | Some prev =>
              if negb (Z.land (nStatus prev) BLOCK_FAILED_MASK =? 0)
              then Some (DoS st 100 false REJECT_INVALID "bad-prevblk" false, cs, None)
              else
                '(ok, st) ← (if fCheckpointsEnabled
                             then CheckIndexAgainstCheckpoint m mapCheckpoints (hd_hashPrevBlock (pure block)) st
                             else Some (true, st));
                if negb ok then Some (false, st, cs, None)
                else
                  '(ok, st) ← ContextualCheckBlockHeader m block st (Some (hd_hashPrevBlock (pure block))) nAdjustedTime;
                  if negb ok then Some (false, st, cs, None) else add st
          end
    end
  else add st.

Fixpoint process_headers (cs : ChainState) (headers : list CBlockHeader) (st : CValidationState) (nAdjustedTime : Z)
    (ppindex : option ptr) : option (bool * CValidationState * ChainState * option ptr) :=
  match headers with
  | [] => Some (true, st, cs, ppindex)
  | header :: headers =>
      '(ok, st, cs, pindex) ← AcceptBlockHeader cs header st nAdjustedTime;
      if negb ok then Some (false, st, cs, ppindex)
      else process_headers cs headers st nAdjustedTime pindex
  end.

Definition ProcessNewBlockHeaders (cs : ChainState) (headers : list CBlockHeader) (st : CValidationState) (nAdjustedTime : Z)
    : option (bool * CValidationState * ChainState * option ptr) :=
  process_headers cs headers st nAdjustedTime None.

End Checks.

(** ** Lemmas: answers do not change when the index grows *)

(** A computation that only looks entries up and succeeds in an index gives the same
    result in every larger one. *)
Section Grow.
Context (m m' : BlockMap) (Hsub : m ⊆ m').

Lemma grow_lookup p b : m !! p = Some b -> m' !! p = Some b.
Proof. intros H. by eapply lookup_weaken. Qed.

Lemma grow_bind {A} p (f : CBlockIndex -> option A) (g : CBlockIndex -> option A) r :
  (forall b, f b = Some r -> g b = Some r) ->
  (m !! p ≫= f) = Some r -> (m' !! p ≫= g) = Some r.
Proof. intros H (b & Hb & Hf)%bind_Some. rewrite (grow_lookup _ _ Hb). cbn. by apply H. Qed.

Lemma grow_walk fuel p h1 h2 r : ancestor_walk fuel m p h1 h2 = Some r -> ancestor_walk fuel m' p h1 h2 = Some r.
Proof.
  revert p h1. induction fuel as [|fuel IH]; intros p h1; cbn [ancestor_walk]; [done|].
  destruct (h1 >? h2); [|done]. destruct (m !! p) as [b|] eqn:Hb; [|done]. rewrite (grow_lookup _ _ Hb).
  destruct (pskip b); [destruct ((_ =? _) || _); [apply IH|]|]; destruct (pprev b); (done || apply IH).
Qed.

Lemma grow_GetAncestor p h r : GetAncestor m p h = Some r -> GetAncestor m' p h = Some r.
Proof.
  unfold GetAncestor. apply grow_bind. intros b. destruct ((_ >? _) || _); [done|].
  intros (q & Hq & E)%bind_Some. by rewrite (grow_walk _ _ _ _ _ Hq).
Qed.

Lemma grow_dgw n k p avg r : dgw_loop m n k p avg = Some r -> dgw_loop m' n k p avg = Some r.
Proof.
  revert k p avg. induction n as [|n IH]; intros k p avg; cbn [dgw_loop]; [done|]. apply grow_bind. intros b.
  intros (a & Ha & H)%bind_Some. rewrite Ha. cbn [mbind option_bind]. destruct (negb _); [|by apply IH].
  apply bind_Some in H as (q & Hq & H). rewrite Hq. cbn [mbind option_bind]. by apply IH.
Qed.

Lemma grow_DarkGravityWave p t (params : Params) r :
  DarkGravityWave m p t params = Some r -> DarkGravityWave m' p t params = Some r.
Proof.
  unfold DarkGravityWave. apply grow_bind. intros b. repeat case_if; try done.
  intros ([avg q] & Hl & H)%bind_Some. rewrite (grow_dgw _ _ _ _ _ Hl). cbn [mbind option_bind]. revert H.
  apply grow_bind. done.
Qed.

Lemma grow_kgw outside fuel (params : Params) solved reading i mass mn mx prev actual target r :
  kgw_loop m outside fuel params solved reading i mass mn mx prev actual target = Some r ->
  kgw_loop m' outside fuel params solved reading i mass mn mx prev actual target = Some r.
Proof.
  revert reading i mass prev actual target. induction fuel as [|fuel IH]; intros reading i mass prev actual target; cbn [kgw_loop]; [done|].
  destruct reading as [p|]; [|done]. apply grow_bind. intros b. destruct (negb _); [done|]. destruct (_ && (_ >? _)); [done|].
  intros (a & Ha & H)%bind_Some. rewrite Ha. cbn [mbind option_bind]. revert H.
  destruct (_ && outside _ _ _); [done|]. destruct (pprev b); [apply IH|done].
Qed.

Lemma grow_Kimoto outside p (params : Params) r :
  KimotoGravityWell m outside p params = Some r -> KimotoGravityWell m' outside p params = Some r.
Proof.
  unfold KimotoGravityWell. apply grow_bind. intros b. destruct ((_ <=? _) || _); [done|].
  intros ([[a1 a2] a3] & Hl & H)%bind_Some. by rewrite (grow_kgw _ _ _ _ _ _ _ _ _ _ _ _ _ Hl).
Qed.

Lemma grow_skip fuel interval limit p r :
  skip_min_difficulty m fuel interval limit p = Some r -> skip_min_difficulty m' fuel interval limit p = Some r.
Proof.
  revert p. induction fuel as [|fuel IH]; intros p; cbn [skip_min_difficulty]; apply grow_bind; intros b; [done|].
  destruct (pprev b) as [q|]; [|done]. destruct (_ && _); [apply IH|done].
Qed.

Lemma grow_GetNextWorkRequired outside p t (params : Params) r :
  GetNextWorkRequired m outside p t params = Some r -> GetNextWorkRequired m' outside p t params = Some r.
Proof.
  unfold GetNextWorkRequired. apply grow_bind. intros b.
  destruct (_ >=? nPowDGWHeight params); [apply grow_DarkGravityWave|].
  destruct (_ >=? nPowKGWHeight params); [apply grow_Kimoto|].
  unfold GetNextWorkRequiredBTC. intros (l & -> & H)%bind_Some. cbn [mbind option_bind]. revert H.
  apply grow_bind. intros c. destruct (negb (_ =? 0)).
  - destruct (fPowAllowMinDifficultyBlocks params); [|done]. destruct (_ >? _); [done|apply grow_skip].
  - destruct (negb _); [done|]. intros (pf & Hpf & H)%bind_Some. rewrite (grow_GetAncestor _ _ _ Hpf). cbn [mbind option_bind].
    apply bind_Some in H as (q & -> & H). cbn [mbind option_bind]. revert H. apply grow_bind. intros f.
    unfold CalculateNextWorkRequired. apply grow_bind. done.
Qed.

Lemma grow_collect n p b acc :
  wf_index m -> m !! p = Some b -> collect_times n m' (Some p) acc = collect_times n m (Some p) acc.
Proof.
  intros W. revert p b acc. induction n as [|n IH]; intros p b acc Hp; [done|]. cbn [collect_times].
  rewrite Hp, (grow_lookup _ _ Hp). destruct (pprev b) as [q|] eqn:Eq; [|by destruct n].
  destruct (link_prev_in m p b q W Hp Eq) as [bq Hq]. by eapply IH.
Qed.

Lemma grow_MedianTimePast p b : wf_index m -> m !! p = Some b -> GetMedianTimePast m' p = GetMedianTimePast m p.
Proof. intros W Hp. unfold GetMedianTimePast. by rewrite (grow_collect _ p b). Qed.

End Grow.

(** ** Lemmas: the entry [AddToBlockIndex] makes *)

Lemma AddToBlockIndex_new GetHash st block st' p prev :
  AddToBlockIndex GetHash st block = Some (st', p) ->
  mapBlockIndex st !! GetHash block = None -> mapBlockIndex st !! hd_hashPrevBlock block = Some prev ->
  p = GetHash block /\ exists new, mapBlockIndex st' = <[p := new]> (mapBlockIndex st)
    /\ pprev new = Some (hd_hashPrevBlock block) /\ nTime new = hd_nTime block /\ nBits new = hd_nBits block.
Proof.
  intros E Hx Hp. unfold AddToBlockIndex in E. rewrite Hx in E. set (x := GetHash block) in *. set (m := mapBlockIndex st) in *.
  apply bind_Some in E as (linked & El & E).
  destruct (RaiseValidity_tree_same linked) as (new & chg & Er & Hsame). rewrite Er in E. cbn [mbind option_bind] in E.
  apply bind_Some in E as (best & _ & E). injection E as <- <-. split; [done|]. cbn [mapBlockIndex].
  exists new. rewrite insert_insert_eq. split; [done|].
  unfold link_block in El. apply bind_Some in El as (w & _ & El).
  assert (x <> hd_hashPrevBlock block) by congruence. rewrite lookup_insert_ne, Hp in El by done.
  apply bind_Some in El as (skip & _ & El). injection El as <-.
  destruct Hsame as (<- & _ & _ & _ & <- & <- & _). done.
Qed.

(** ** Lemmas: accepting headers *)

Section HeaderLemmas.
Context (Hash : list Z -> Z) (outside : Z -> Z -> Z -> bool) (params : ConsensusParams).

(** What a header had to satisfy before the entry [b] got under its hash [p]: it has
    the required work, its parent is in the index, it claims the difficulty the parent
    asks for, and outside the regression-test network it is later than the median
    of the blocks before it. *)
Definition header_sound (m : BlockMap) (p : ptr) (b : CBlockIndex) : Prop :=
  exists block prev, pure_GetHash Hash (pure block) = p
  /\ CheckBlockProofOfWork Hash (cp_network params) block (nAuxpowChainId params) (cp_pow params) = Some true
  /\ hd_hashPrevBlock (pure block) = prev /\ pprev b = Some prev /\ is_Some (m !! prev)
  /\ GetNextWorkRequired m outside prev (nTime b) (cp_pow params) = Some (nBits b)
  /\ (cp_network params <> REGTEST -> GetMedianTimePast m prev < nTime b).

Definition index_sound (m : BlockMap) : Prop :=
  forall p b, m !! p = Some b -> p <> hashGenesisBlock params -> header_sound m p b.

Lemma header_sound_grow m m' p b : wf_index m -> m ⊆ m' -> header_sound m p b -> header_sound m' p b.
Proof.
  intros W Hsub (block & prev & E1 & E2 & E3 & E4 & [pb E5] & E6 & E7). exists block, prev.
  split_and!; [done..| | |].
  - exists pb. by eapply grow_lookup.
  - by eapply grow_GetNextWorkRequired.
  - intros Hne. rewrite (grow_MedianTimePast m m' Hsub prev pb) by done. by apply E7.
Qed.

Lemma CheckBlockHeader_ok block st fCheckPOW r st' :
  CheckBlockHeader Hash params block st fCheckPOW = Some (r, st') ->
  (r = true -> st' = st /\ (fCheckPOW = true ->
     CheckBlockProofOfWork Hash (cp_network params) block (nAuxpowChainId params) (cp_pow params) = Some true))
  /\ (r = false -> mode st' <> MODE_VALID).
Proof.
  unfold CheckBlockHeader. intros (pow & Hpow & H)%bind_Some. destruct pow; cbn [negb] in H.
  - case_if_in H.
    + injection H as H. apply DoS_ok in H as (-> & Hm & _). done.
    + injection H as <- <-. split; [|done]. intros _. split; [done|]. by intros ->.
  - injection H as H. apply DoS_ok in H as (-> & Hm & _). done.
Qed.

Lemma CheckIndexAgainstCheckpoint_ok m cps prev st r st' :
  CheckIndexAgainstCheckpoint params m cps prev st = Some (r, st') ->
  (r = true -> st' = st) /\ (r = false -> mode st' <> MODE_VALID).
Proof.
  unfold CheckIndexAgainstCheckpoint. case_if; [by intros [= <- <-]|]. intros (b & _ & H)%bind_Some.
  destruct (GetLastCheckpoint m cps); [case_if_in H|]; try (by injection H as <- <-).
  injection H as H. apply DoS_ok in H as (-> & Hm & _). done.
Qed.

Lemma ContextualCheckBlockHeader_ok m block st prev t r st' :
  ContextualCheckBlockHeader outside params m block st (Some prev) t = Some (r, st') ->
  (r = true -> st' = st
     /\ GetNextWorkRequired m outside prev (hd_nTime (pure block)) (cp_pow params) = Some (hd_nBits (pure block))
     /\ (cp_network params <> REGTEST -> GetMedianTimePast m prev < hd_nTime (pure block) <= t + 2 * 60 * 60))
  /\ (r = false -> mode st' <> MODE_VALID).
Proof.
  unfold ContextualCheckBlockHeader. cbn [mbind option_bind]. intros (bits & Hb & H)%bind_Some.
  assert (forall level code reason, Some (DoS st level false code reason false) = Some (r, st') ->
    r = false /\ mode st' <> MODE_VALID) as Hrej.
  { intros level code reason [= E]. by apply DoS_ok in E as (-> & Hm & _). }
  case_if_in H; [apply Hrej in H as [-> ?]; done|]. subst bits.
  case_if_in H.
  - case_if_in H; [apply Hrej in H as [-> ?]; done|]. case_if_in H; [apply Hrej in H as [-> ?]; done|].
    injection H as <- <-. split; [|done]. intros _. split_and!; (done || lia).
  - injection H as <- <-. case_bool_decide; [|done]. done.
Qed.

Context (fCheckpointsEnabled : bool) (mapCheckpoints : list (Z * Z)).

Abbreviation accept := (AcceptBlockHeader Hash outside params fCheckpointsEnabled mapCheckpoints).

Lemma AcceptBlockHeader_ok cs block st t r st' cs' p :
  index_inv cs -> index_sound (mapBlockIndex cs) -> is_Some (mapBlockIndex cs !! hashGenesisBlock params) ->
  pure_ok (pure block) -> accept cs block st t = Some (r, st', cs', p) ->
  (index_inv cs' /\ index_sound (mapBlockIndex cs') /\ mapBlockIndex cs ⊆ mapBlockIndex cs')
  /\ (r = true -> st' = st /\ p = Some (pure_GetHash Hash (pure block)) /\ is_Some (mapBlockIndex cs' !! pure_GetHash Hash (pure block)))
  /\ (r = false -> cs' = cs /\ mode st' <> MODE_VALID).
Proof.
  intros Hinv Hsound [g Hg] Hpure. unfold AcceptBlockHeader. set (m := mapBlockIndex cs) in *.
  set (hash := pure_GetHash Hash (pure block)) in *.
  destruct (Z.eqb_spec hash (hashGenesisBlock params)) as [Egen|Egen]; cbn [negb].
  - unfold AddToBlockIndex. fold hash m. rewrite Egen, Hg. intros [= <- <- <- <-]. split_and!; done.
  - destruct (m !! hash) as [self|] eqn:Eself.
    { case_if; [|intros [= <- <- <- <-]; split_and!; done].
      intros [= E <- <-]. apply DoS_ok in E as (-> & Hm & _). done. }
    intros ([ok st1] & Hh & H)%bind_Some. apply CheckBlockHeader_ok in Hh as [Hh1 Hh2].
    destruct ok; cbn [negb] in H; [|injection H as <- <- <- <-; split_and!; try done; intros _; by split; [|apply Hh2]].
    destruct (Hh1 eq_refl) as [-> Hpow]. specialize (Hpow eq_refl). clear Hh1 Hh2.
    destruct (m !! hd_hashPrevBlock (pure block)) as [prev|] eqn:Eprev.
    2:{ injection H as E <- <-. apply DoS_ok in E as (-> & Hm & _). done. }
    case_if_in H. { injection H as E <- <-. apply DoS_ok in E as (-> & Hm & _). done. }
    apply bind_Some in H as ([ok st1] & Hc & H).
    assert ((ok = true -> st1 = st) /\ (ok = false -> mode st1 <> MODE_VALID)) as [Hc1 Hc2].
    { destruct fCheckpointsEnabled; [by eapply CheckIndexAgainstCheckpoint_ok|]. by injection Hc as <- <-. }
    destruct ok; cbn [negb] in H; [|injection H as <- <- <- <-; split_and!; try done; intros _; by split; [|apply Hc2]].
    rewrite (Hc1 eq_refl) in *. clear Hc Hc1 Hc2 st1.
    apply bind_Some in H as ([ok st1] & Hc & H). apply ContextualCheckBlockHeader_ok in Hc as [Hc1 Hc2].
    destruct ok; cbn [negb] in H; [|injection H as <- <- <- <-; split_and!; try done; intros _; by split; [|apply Hc2]].
    destruct (Hc1 eq_refl) as (-> & Hbits & Htime). clear Hc1 Hc2.
    assert (hash <> hd_hashPrevBlock (pure block)) as Hself by congruence.
    apply bind_Some in H as ([cs1 p1] & Ha & H). injection H as <- <- <- <-.
    destruct (AddToBlockIndex_ok (pure_GetHash Hash) cs (pure block) Hinv ltac:(apply Hpure) Hself) as (cs2 & E2 & Hinv2 & Hin & Hold).
    rewrite E2 in Ha. injection Ha as -> <-.
    destruct (AddToBlockIndex_new _ _ _ _ _ _ E2 Eself Eprev) as (_ & new & Em & Epp & Etime & Ebits). fold m hash in Em.
    assert (m ⊆ mapBlockIndex cs1) as Hsub by (rewrite Em; by apply insert_subseteq).
    pose proof (inv_index cs Hinv) as W. fold m in W.
    split_and!; [done| |done| |done]; [|intros _; done].
    intros q b Hq Hne. rewrite Em in Hq. destruct (decide (q = hash)) as [->|Hqh].
    + rewrite lookup_insert_eq in Hq. injection Hq as <-. apply (header_sound_grow m); [done..|].
      exists block, (hd_hashPrevBlock (pure block)). rewrite Etime, Ebits. split_and!; try done. intros Hnr. by apply Htime.
    + rewrite lookup_insert_ne in Hq by done. apply (header_sound_grow m); [done..|]. by apply Hsound.
Qed.

Lemma process_headers_ok headers cs st t p0 r st' cs' p :
  index_inv cs -> index_sound (mapBlockIndex cs) -> is_Some (mapBlockIndex cs !! hashGenesisBlock params) ->
  Forall (fun h => pure_ok (pure h)) headers ->
  process_headers Hash outside params fCheckpointsEnabled mapCheckpoints cs headers st t p0 = Some (r, st', cs', p) ->
  index_inv cs' /\ index_sound (mapBlockIndex cs') /\ mapBlockIndex cs ⊆ mapBlockIndex cs'
  /\ (r = true -> Forall (fun h => is_Some (mapBlockIndex cs' !! pure_GetHash Hash (pure h))) headers)
  /\ (r = false -> mode st' <> MODE_VALID).
Proof.
  revert cs st p0. induction headers as [|h headers IH]; intros cs st p0 Hinv Hs [g Hg] Hok; cbn [process_headers].
  { intros [= <- <- <- <-]. split_and!; try done. }
  intros ([[[ok st1] cs1] p1] & Ha & H)%bind_Some. apply Forall_cons in Hok as [Hh Hok].
  destruct (AcceptBlockHeader_ok _ _ _ _ _ _ _ _ Hinv Hs (mk_is_Some _ _ Hg) Hh Ha) as ((Hinv1 & Hs1 & Hsub) & Ht & Hf).
  destruct ok; cbn [negb] in H.
  - apply IH in H as (Hi & Hs' & Hsub' & Hr & Hr'); [|done|done|by exists g; eapply grow_lookup|done].
    split_and!; [done|done|by etransitivity| |done]. intros Er. constructor; [|by apply Hr].
    destruct (Ht eq_refl) as (_ & _ & [b Hb]). exists b. by eapply grow_lookup.
  - injection H as <- <- <- <-. split_and!; [done..|]. intros _. by apply Hf.
Qed.

End HeaderLemmas.

(** Block indexes that grow, from the genesis block, by the headers of any sequence of
    messages, at any times and with any results. *)
Inductive headers_reachable (Hash : list Z -> Z) (outside : Z -> Z -> Z -> bool) (params : ConsensusParams)
    (fCheckpointsEnabled : bool) (mapCheckpoints : list (Z * Z)) : ChainState -> Prop :=
| headers_genesis genesis cs p :
    valid_header (pure_GetHash Hash) genesis -> pure_GetHash Hash genesis = hashGenesisBlock params ->
    AddToBlockIndex (pure_GetHash Hash) init_state genesis = Some (cs, p) ->
    headers_reachable Hash outside params fCheckpointsEnabled mapCheckpoints cs
| headers_process cs headers st t r st' cs' p :
    headers_reachable Hash outside params fCheckpointsEnabled mapCheckpoints cs ->
    Forall (fun h => pure_ok (pure h)) headers ->
    ProcessNewBlockHeaders Hash outside params fCheckpointsEnabled mapCheckpoints cs headers st t = Some (r, st', cs', p) ->
    headers_reachable Hash outside params fCheckpointsEnabled mapCheckpoints cs'.

Lemma headers_reachable_ok Hash outside params fCheckpointsEnabled mapCheckpoints cs :
  headers_reachable Hash outside params fCheckpointsEnabled mapCheckpoints cs ->
  index_inv cs /\ index_sound Hash outside params (mapBlockIndex cs)
  /\ exists g, mapBlockIndex cs !! hashGenesisBlock params = Some g /\ pprev g = None.
Proof.
  induction 1 as [genesis cs p [Hb Hself] Hgen Ha|cs headers st t r st' cs' p Hr (Hi & Hs & g & Hg & Hgp) Hok Hp].
  - destruct (AddToBlockIndex_ok (pure_GetHash Hash) init_state genesis init_inv Hb Hself) as (cs2 & E2 & Hinv & Hin & _).
    rewrite E2 in Ha. injection Ha as -> <-.
    assert (exists new, mapBlockIndex cs = {[pure_GetHash Hash genesis := new]} /\ pprev new = None) as (new & Em & Ep).
    { unfold AddToBlockIndex in E2. cbn [init_state mapBlockIndex] in E2. rewrite lookup_empty in E2.
      apply bind_Some in E2 as (linked & El & E2). destruct (RaiseValidity_tree_same linked) as (new & chg & Er & Hsame).
      rewrite Er in E2. cbn [pindexBestHeader init_state mbind option_bind] in E2. injection E2 as <-.
      exists new. split; [cbn [mapBlockIndex]; by rewrite insert_insert_eq|]. destruct Hsame as (<- & _).
      unfold link_block in El. apply bind_Some in El as (w & _ & El).
      rewrite lookup_insert_ne, lookup_empty in El by done. by injection El as <-. }
    rewrite Em, <- Hgen, lookup_singleton_eq. split_and!; [done| |by exists new].
    intros q b Hq Hne. rewrite <- Hgen in Hne. by rewrite lookup_singleton_ne in Hq by done.
  - apply process_headers_ok in Hp as (Hi' & Hs' & Hsub & _); [|done..].
    split_and!; [done..|]. exists g. split; [by eapply grow_lookup|done].
Qed.

(** ** Lemmas: checking blocks *)

Section BlockLemmas.
Context (timeToPrune expired : list Z -> bool) (Hash : list Z -> Z) (params : ConsensusParams).

Definition values_ok (tx : CTransaction) : Prop := Forall (fun o => in_s 64 (nValue o)) (vout tx).

Lemma tx_ok_values tx : tx_ok tx -> values_ok tx.
Proof. intros (_ & _ & _ & _ & Ho & _). eapply Forall_impl; [exact Ho|]. by intros o (? & _). Qed.

Lemma check_transactions_ok vtx st :
  Forall values_ok vtx ->
  (check_transactions timeToPrune expired vtx st = None <-> Forall (checked timeToPrune expired true) vtx)
  /\ forall r st', check_transactions timeToPrune expired vtx st = Some (r, st') -> r = false /\ mode st' <> MODE_VALID.
Proof.
  induction 1 as [|tx vtx Hv Hvs IH]; cbn [check_transactions]; [by split; [split; [constructor|done]|]|].
  pose proof (CheckTransaction_ok timeToPrune expired tx st true Hv) as Hc.
  destruct (CheckTransaction timeToPrune expired tx st true) as [ok st1]. destruct Hc as (Hok & Hst & Hf).
  destruct ok; cbn [negb].
  - rewrite (Hst eq_refl), Forall_cons, (proj1 IH). split; [|apply IH]. split; [|tauto]. intros ?. split; [by apply Hok|done].
  - split.
    + split; [done|]. intros [Hx _]%Forall_cons. by apply Hok in Hx.
    + intros r st' [= E]. apply DoS_ok in E as (-> & Hm & _). done.
Qed.

(** An input of the transaction that is locked to another transaction. *)
Definition tx_conflicts (lockedTx : COutPoint -> option Z) (tx : CTransaction) : Prop :=
  exists i h, i ∈ vin tx /\ lockedTx (prevout i) = Some h /\ h <> tx_hash tx.

Lemma conflicting_tx_ok lockedTx vtx :
  conflicting_tx lockedTx vtx = false <-> Forall (fun tx => IsCoinBase tx = false -> ~ tx_conflicts lockedTx tx) vtx.
Proof.
  induction vtx as [|tx vtx IH]; cbn [conflicting_tx]; [by split; [constructor|]|]. rewrite Forall_cons, <- IH.
  destruct (IsCoinBase tx); [split; [by intros H; split|by intros [_ H]]|].
  match goal with |- (if ?e then _ else _) = _ <-> _ => assert (e = true <-> tx_conflicts lockedTx tx) as He; [|destruct e] end.
  - rewrite existsb_exists. unfold tx_conflicts. split.
    + intros (i & Hi & H). destruct (lockedTx (prevout i)) as [h|] eqn:El; [|done]. zbool.
      exists i, h. split_and!; [by apply list_elem_of_In|done|done].
    + intros (i & h & Hi & El & Hne). exists i. split; [by apply list_elem_of_In|]. rewrite El. by apply negb_true_iff, Z.eqb_neq.
  - split; [done|]. intros [H _]. exfalso. apply H; [done|by apply He].
  - split; [|tauto]. intros H. split; [|done]. intros _ Hc. by apply He in Hc.
Qed.

(** What a block has to be for [CheckBlock] to accept it. *)
Record block_checked (spork3 : bool) (lockedTx : COutPoint -> option Z) (block : CBlock) : Prop := {
  bc_pow : CheckBlockProofOfWork Hash (cp_network params) (header block) (nAuxpowChainId params) (cp_pow params) = Some true;
  bc_devnet : hashDevnetGenesisBlock params <> 0 -> hd_hashPrevBlock (pure (header block)) = hashGenesisBlock params ->
              pure_GetHash Hash (pure (header block)) = hashDevnetGenesisBlock params;
  bc_merkle : ComputeMerkleRoot (hash_pair Hash) (map tx_hash (vtx block)) = Some (hd_hashMerkleRoot (pure (header block)), false);
  bc_size : exists bytes, ser_block timeToPrune expired false block = Some bytes /\ Z.of_nat (length bytes) <= MAX_DIP0001_BLOCK_SIZE;
  bc_count : Z.of_nat (length (vtx block)) <= MAX_DIP0001_BLOCK_SIZE;
  bc_coinbase : exists cb txs, vtx block = cb :: txs /\ IsCoinBase cb = true /\ Forall (fun tx => IsCoinBase tx = false) txs;
  bc_locks : spork3 = true -> Forall (fun tx => IsCoinBase tx = false -> ~ tx_conflicts lockedTx tx) (vtx block);
  bc_txs : Forall (checked timeToPrune expired true) (vtx block);
  bc_sigops : block_sigops (vtx block) <= MAX_DIP0001_BLOCK_SIZE / 50;
}.

Lemma CheckBlockHeader_iff block st pow :
  CheckBlockProofOfWork Hash (cp_network params) block (nAuxpowChainId params) (cp_pow params) = Some pow ->
  exists r st', CheckBlockHeader Hash params block st true = Some (r, st')
  /\ (r = true <-> pow = true /\ (hashDevnetGenesisBlock params <> 0 -> hd_hashPrevBlock (pure block) = hashGenesisBlock params ->
                   pure_GetHash Hash (pure block) = hashDevnetGenesisBlock params))
  /\ (r = true -> st' = st) /\ (r = false -> mode st' <> MODE_VALID).
Proof.
  intros E. unfold CheckBlockHeader. rewrite E. cbn [mbind option_bind].
  assert (forall (P : Prop) level code reason, ~ P -> exists r st', Some (DoS st level false code reason false) = Some (r, st')
    /\ (r = true <-> P) /\ (r = true -> st' = st) /\ (r = false -> mode st' <> MODE_VALID)) as Hrej.
  { intros P level code reason HP. destruct (DoS_invalid st level code reason false) as (st' & Ed & Hm). exists false, st'. rewrite Ed.
    split_and!; [done|by split; [done|intros []%HP]|done|done]. }
  destruct pow; cbn [negb]; [|apply Hrej; by intros [? _]].
  case_if.
  - apply Hrej. intros [_ Hd]. zbool. auto.
  - exists true, st. split_and!; try done. split; [|done]. intros _. split; [done|]. intros Hd Hp.
    apply andb_false_iff in Heqb as [Heqb|Heqb]; [apply andb_false_iff in Heqb as [Heqb|Heqb]|]; zbool; congruence.
Qed.

(** The outcome of a check in state [st] accepts exactly when [P] holds. *)
Definition verdict (st : CValidationState) (cs : CheckState) (res : option (bool * CValidationState * CheckState)) (P : Prop) : Prop :=
  exists r st' cs', res = Some (r, st', cs') /\ (r = true <-> P)
  /\ (r = true -> st' = st /\ fChecked cs' = true) /\ (r = false -> mode st' <> MODE_VALID /\ fChecked cs' = fChecked cs).

Lemma verdict_reject st cs cs' level code reason corruption (P : Prop) :
  ~ P -> fChecked cs' = fChecked cs -> verdict st cs (Some (DoS st level false code reason corruption, cs')) P.
Proof.
  intros HP Hc. destruct (DoS_invalid st level code reason corruption) as (st' & E & Hm). exists false, st', cs'.
  rewrite E. split_and!; [done|by split; [done|intros []%HP]|done|done].
Qed.

Lemma ser_block_size b : block_ok timeToPrune expired Hash b -> exists bytes, ser_block timeToPrune expired false b = Some bytes.
Proof.
  intros ((Hp & Ha) & _). unfold ser_block, ser_header. destruct (auxpow (header b)) as [a|].
  - destruct Ha as [-> _]. cbn. by eexists.
  - rewrite Ha. cbn. by eexists.
Qed.

Lemma bad_length_ok b bytes max :
  ser_block timeToPrune expired false b = Some bytes ->
  exists bad, bad_length timeToPrune expired b max = Some bad
  /\ (bad = false <-> vtx b <> [] /\ Z.of_nat (length (vtx b)) <= max /\ Z.of_nat (length bytes) <= max).
Proof.
  intros E. unfold bad_length, block_size. rewrite E. cbn [mbind option_bind]. rewrite !Z.gtb_ltb.
  assert (vtx b = [] <-> Z.of_nat (length (vtx b)) = 0) as Hn by (destruct (vtx b); cbn; split; (done || lia)).
  case_if.
  - exists true. split; [done|]. split; [done|]. intros (H1 & H2 & _). apply orb_true_iff in Heqb0 as [?|?]; zbool; [tauto|lia].
  - eexists. split; [done|]. rewrite Z.ltb_ge. split; [|tauto]. intros ?. split_and!; [tauto|lia|done].
Qed.

Lemma coinbase_shape vtx :
  (match vtx with tx :: _ => IsCoinBase tx | [] => false end) = true -> existsb IsCoinBase (tail vtx) = false ->
  exists cb txs, vtx = cb :: txs /\ IsCoinBase cb = true /\ Forall (fun tx => IsCoinBase tx = false) txs.
Proof.
  destruct vtx as [|cb txs]; [done|]. intros Hc He. exists cb, txs. split_and!; [done..|]. apply Forall_forall. intros tx Hin.
  apply not_true_iff_false. intros Ht. apply not_true_iff_false in He. apply He, existsb_exists. exists tx.
  by rewrite <- list_elem_of_In.
Qed.

Lemma block_checked_shape spork3 lockedTx block : block_checked spork3 lockedTx block ->
  vtx block <> [] /\ (match vtx block with tx :: _ => IsCoinBase tx | [] => false end) = true /\ existsb IsCoinBase (tail (vtx block)) = false.
Proof.
  intros [_ _ _ _ _ (cb & txs & -> & Hcb & Htxs) _ _ _]. split_and!; [done..|]. cbn [tail]. apply not_true_iff_false.
  intros (x & Hx & Ht)%existsb_exists. rewrite Forall_forall in Htxs. specialize (Htxs x). rewrite Htxs in Ht; [done|by apply list_elem_of_In].
Qed.

Lemma CheckBlock_ok spork3 lockedTx now block st cs pow :
  block_ok timeToPrune expired Hash block ->
  CheckBlockProofOfWork Hash (cp_network params) (header block) (nAuxpowChainId params) (cp_pow params) = Some pow ->
  fChecked cs = false ->
  verdict st cs (CheckBlock timeToPrune expired Hash params spork3 lockedTx now block st true true cs)
    (block_checked spork3 lockedTx block).
Proof.
  intros Hok Hpow Hc. unfold CheckBlock. rewrite Hc.
  destruct (CheckBlockHeader_iff (header block) st pow Hpow) as (r & st1 & -> & Hr & Hst & Hf). cbn [mbind option_bind].
  destruct r; cbn [negb].
  2:{ exists false, st1, cs. split_and!; [done| |done|by auto]. split; [done|]. intros [H1 H2 _ _ _ _ _ _ _]. apply Hr.
      rewrite Hpow in H1. by injection H1 as ->. }
  destruct (proj1 Hr eq_refl) as [-> Hdev]. rewrite (Hst eq_refl) in *. clear Hr Hst Hf st1.
  destruct Hok as (Hhok & Htx & Hlen). pose proof (ser_block_size block ltac:(done)) as [bytes Hser].
  unfold BlockMerkleRoot. assert (exists root mut, ComputeMerkleRoot (hash_pair Hash) (map tx_hash (vtx block)) = Some (root, mut)) as (root & mut & Em).
  { destruct (vtx block) as [|t l] eqn:Ev; [by vm_compute; do 2 eexists|]. do 2 eexists. apply ComputeMerkleRoot_ok; [done|].
    rewrite length_map. unfold MAX_SIZE in Hlen. lia. }
  rewrite Em. cbn [mbind option_bind].
  destruct (Z.eqb_spec (hd_hashMerkleRoot (pure (header block))) root) as [<-|Hroot]; cbn [negb].
  2:{ apply verdict_reject; [|done]. intros [_ _ H _ _ _ _ _ _]. rewrite Em in H. by apply Some_pair in H as [-> _]. }
  destruct mut.
  { apply verdict_reject; [|done]. intros [_ _ H _ _ _ _ _ _]. rewrite Em in H. by apply Some_pair in H as [_ ?]. }
  destruct (bad_length_ok block bytes (MaxBlockSize true) Hser) as (bad & -> & Hbad). cbn [mbind option_bind].
  destruct bad.
  { apply verdict_reject; [|done]. intros Hb. pose proof (block_checked_shape _ _ _ Hb) as (Hne & _). destruct Hb as [_ _ _ (bs & E & Hs) Hn _ _ _ _].
    rewrite Hser in E. injection E as <-. by discriminate (proj2 Hbad (conj Hne (conj Hn Hs))). }
  destruct (proj1 Hbad eq_refl) as (Hne & Hcount & Hsize). clear Hbad.
  destruct (match vtx block with tx :: _ => IsCoinBase tx | [] => false end) eqn:Ecb; cbn [negb].
  2:{ apply verdict_reject; [|done]. intros Hb%block_checked_shape. rewrite Ecb in Hb. by destruct Hb as (_ & ? & _). }
  destruct (existsb IsCoinBase (tail (vtx block))) eqn:Etl.
  { apply verdict_reject; [|done]. intros Hb%block_checked_shape. rewrite Etl in Hb. by destruct Hb as (_ & _ & ?). }
  destruct (spork3 && conflicting_tx lockedTx (vtx block)) eqn:Elock.
  { apply verdict_reject; [|done]. intros [_ _ _ _ _ _ H _ _]. zbool. rewrite (proj2 (conflicting_tx_ok lockedTx (vtx block))) in *; [done|by apply H]. }
  destruct (check_transactions_ok (vtx block) st) as [Ht1 Ht2].
  { eapply Forall_impl; [exact Htx|]. intros t [Ht _]. by apply tx_ok_values. }
  destruct (check_transactions timeToPrune expired (vtx block) st) as [[r st1]|].
  { destruct (Ht2 r st1 eq_refl) as [-> Hm]. exists false, st1, cs. split_and!; [done| |done|by auto]. split; [done|].
    intros [_ _ _ _ _ _ _ H _]. by apply Ht1 in H. }
  rewrite Z.gtb_ltb. destruct (Z.ltb_spec (MaxBlockSigOps true) (block_sigops (vtx block))) as [Hs|Hs].
  { apply verdict_reject; [|done]. intros [_ _ _ _ _ _ _ _ H]. unfold MaxBlockSigOps, MaxBlockSize in Hs. lia. }
  eexists true, st, _. split_and!; [done| |done|done]. split; [|done]. intros _.
  split; try done; [by exists bytes|by apply coinbase_shape| |by apply Ht1].
  intros ->. by apply conflicting_tx_ok.
Qed.

End BlockLemmas.

(** ** Lemmas: the height in the coinbase *)

Lemma push_int64_shape n : 0 <= n < 2 ^ 31 ->
  (n <= 16 /\ exists b, push_int64 [] n = [b] /\ (n = 0 /\ b = 0 \/ 1 <= n /\ b = n + 80))
  \/ (16 < n /\ exists s, push_int64 [] n = Z.of_nat (length s) :: s /\ set_vch s = n /\ (1 <= length s <= 5)%nat).
Proof.
  intros Hn. unfold push_int64. rewrite !Z.geb_leb.
  rewrite (proj2 (Z.eqb_neq n (-1))) by lia. cbn [orb].
  destruct (Z.leb_spec 1 n), (Z.leb_spec n 16); cbn [andb].
  - left. split; [done|]. eexists. split; [done|]. right. split; [done|]. unfold OP_1. apply wrap_small. unfold in_u. lia.
  - right. split; [lia|]. rewrite (proj2 (Z.eqb_neq _ _)) by lia.
    assert (1 <= length (scriptnum_serialize n) <= 5)%nat as Hl.
    { split; [|apply serialize_length; [lia|left; cbn; lia]].
      destruct (decide (length (scriptnum_serialize n) <= 0)%nat) as [Hz|]; [|lia].
      apply serialize_length in Hz as [Hz|]; [|lia|lia]. cbn in Hz. lia. }
    exists (scriptnum_serialize n). split_and!; [|by apply serialize_value; lia|lia|lia].
    unfold push_data. rewrite (proj2 (Z.ltb_lt _ _)) by (unfold OP_PUSHDATA1; lia). cbn [app]. f_equal.
    apply wrap_small. unfold in_u. lia.
  - left. split; [lia|]. exists 0. rewrite (proj2 (Z.eqb_eq _ _)) by lia. split; [done|left; lia].
  - lia.
Qed.

(** No script starts with two different heights. *)
Lemma push_int64_prefix script a b :
  0 <= a < 2 ^ 31 -> 0 <= b < 2 ^ 31 ->
  take (length (push_int64 [] a)) script = push_int64 [] a -> take (length (push_int64 [] b)) script = push_int64 [] b -> a = b.
Proof.
  intros Ha Hb. destruct (push_int64_shape a Ha) as [(La & x & -> & Hx)|(La & s & -> & Hs & Ls)],
    (push_int64_shape b Hb) as [(Lb & y & -> & Hy)|(Lb & u & -> & Hu & Lu)].
  all: destruct script as [|c script]; [done|]; cbn [length take]; intros E1 E2; injection E1; injection E2.
  1-3: intros; lia.
  intros Eu Ey Es Ex. assert (length s = length u) as El by lia. rewrite El in Es. congruence.
Qed.

(** ** Lemmas: checks in context *)

Section ContextLemmas.
Context (timeToPrune expired : list Z -> bool) (Hash : list Z -> Z) (params : ConsensusParams) (m : BlockMap).

Definition tx_in_context (dip1 : bool) (height cutoff : Z) (tx : CTransaction) : Prop :=
  IsFinalTx tx height cutoff = true
  /\ (dip1 = true -> GetSerializeSize timeToPrune expired tx <= MAX_STANDARD_TX_SIZE).

Lemma contextual_txs_ok dip1 height cutoff vtx n st :
  match contextual_txs timeToPrune expired dip1 height cutoff vtx n st with
  | inr n' => Forall (tx_in_context dip1 height cutoff) vtx /\ n' = foldl (fun n tx => u32 (n + GetLegacySigOpCount tx)) n vtx
  | inl (r, st') => ~ Forall (tx_in_context dip1 height cutoff) vtx /\ r = false /\ mode st' <> MODE_VALID
  end.
Proof.
  assert (forall (Q : Prop) level code reason, ~ Q -> let '(r, st') := DoS st level false code reason false in ~ Q /\ r = false /\ mode st' <> MODE_VALID) as Hrej.
  { intros Q level code reason HQ. by destruct (DoS_invalid st level code reason false) as (st' & -> & Hm). }
  revert n. induction vtx as [|tx vtx IH]; intros n; cbn [contextual_txs foldl]; [by split; [constructor|]|].
  destruct (IsFinalTx tx height cutoff) eqn:Ef; cbn [negb].
  2:{ apply Hrej. intros [[H _] _]%Forall_cons. by rewrite Ef in H. }
  rewrite Z.gtb_ltb. destruct (dip1 && (MAX_STANDARD_TX_SIZE <? GetSerializeSize timeToPrune expired tx)) eqn:Es.
  { apply andb_true_iff in Es as [E1 E2]. apply Hrej. intros [[_ Hx] _]%Forall_cons. specialize (Hx E1). zbool. lia. }
  assert (tx_in_context dip1 height cutoff tx) as Htx.
  { split; [done|]. intros ->. cbn [andb] in Es. by zbool. }
  specialize (IH (u32 (n + GetLegacySigOpCount tx))). destruct (contextual_txs _ _ _ _ _ _ _ _) as [[r st']|n'].
  - destruct IH as (H1 & H2 & H3). split_and!; [|done|done]. intros [_ H]%Forall_cons. done.
  - destruct IH as (H1 & H2). split; [by constructor|done].
Qed.

(** The height of a block on [pindexPrev] and the time its lock times are compared with. *)
Definition next_height (pindexPrev : option ptr) : option Z :=
  match pindexPrev with None => Some 0 | Some p => b ← m !! p; Some (nHeight b + 1) end.

Definition lock_time_cutoff (block : CBlock) (pindexPrev : option ptr) (csv : BIP9Deployment) : Z :=
  match pindexPrev with
  | Some p => if bool_decide (deployment_state (cp_bip9 params) m csv pindexPrev = THRESHOLD_ACTIVE)
              then GetMedianTimePast m p else hd_nTime (pure (header block))
  | None => hd_nTime (pure (header block))
  end.

(** What a block has to be for [ContextualCheckBlock] to accept it at a height. *)
Record block_in_context (block : CBlock) (height cutoff : Z) : Prop := {
  bx_size : exists bytes, ser_block timeToPrune expired false block = Some bytes /\ Z.of_nat (length bytes) <= MAX_DIP0001_BLOCK_SIZE;
  bx_count : vtx block <> [] /\ Z.of_nat (length (vtx block)) <= MAX_DIP0001_BLOCK_SIZE;
  bx_txs : Forall (tx_in_context (height >=? DIP0001Height params) height cutoff) (vtx block);
  bx_sigops : block_sigops (vtx block) <= MAX_DIP0001_BLOCK_SIZE / 50;
  bx_height : BIP34Height params <= height ->
              exists cb i, head (vtx block) = Some cb /\ head (vin cb) = Some i
                /\ take (length (push_int64 [] height)) (scriptSig i) = push_int64 [] height;
}.

Lemma take_length_le {A} (l k : list A) : take (length k) l = k -> (length k <= length l)%nat.
Proof. intros E. apply (f_equal length) in E. rewrite length_take in E. lia. Qed.

Lemma deployment_state_genesis d : deployment_state (cp_bip9 params) m d None <> THRESHOLD_ACTIVE.
Proof. done. Qed.

Lemma ContextualCheckBlock_ok caches block st pindexPrev height csv :
  setting_ok (cp_bip9 params) m -> caches_ok (cp_bip9 params) m caches -> in_index m pindexPrev ->
  vDeployments (cp_bip9 params) !! DEPLOYMENT_CSV = Some csv -> next_height pindexPrev = Some height ->
  block_ok timeToPrune expired Hash block -> (forall cb, head (vtx block) = Some cb -> vin cb <> []) ->
  exists r st' caches', ContextualCheckBlock timeToPrune expired params m caches block st pindexPrev = Some (r, st', caches')
  /\ caches_ok (cp_bip9 params) m caches'
  /\ (r = true <-> block_in_context block height (lock_time_cutoff block pindexPrev csv))
  /\ (r = true -> st' = st) /\ (r = false -> mode st' <> MODE_VALID).
Proof.
  intros Hset Hcache Hin Hcsv Hh Hok Hvin. unfold ContextualCheckBlock. fold (next_height pindexPrev). rewrite Hh. cbn [mbind option_bind].
  destruct (VersionBitsState_ok _ m caches pindexPrev _ _ Hset Hcache Hin Hcsv) as (caches' & -> & Hcache' & _). cbn [mbind option_bind].
  assert (forall (P : Prop) level code reason, ~ P -> exists r st' c', Some (DoS st level false code reason false, caches') = Some (r, st', c')
    /\ caches_ok (cp_bip9 params) m c' /\ (r = true <-> P) /\ (r = true -> st' = st) /\ (r = false -> mode st' <> MODE_VALID)) as Hrej.
  { intros P level code reason HP. destruct (DoS_invalid st level code reason false) as (st' & E & Hm). exists false, st', caches'. rewrite E.
    split_and!; [done|done|by split; [done|intros []%HP]|done|done]. }
  set (cutoff := lock_time_cutoff block pindexPrev csv).
  match goal with |- context [(if ?c then ?a else ?b) ≫= _] => assert ((if c then a else b) = Some cutoff) as -> end.
  { unfold cutoff, lock_time_cutoff. destruct pindexPrev as [p|]; [by case_bool_decide|].
    rewrite bool_decide_false by apply deployment_state_genesis. done. }
  cbn [mbind option_bind]. destruct (ser_block_size timeToPrune expired Hash block Hok) as [bytes Hser].
  assert (forall b, MaxBlockSize b = MAX_DIP0001_BLOCK_SIZE) as -> by (by intros []).
  destruct (bad_length_ok timeToPrune expired Hash block bytes MAX_DIP0001_BLOCK_SIZE Hser) as (bad & -> & Hbad). cbn [mbind option_bind].
  destruct bad.
  { apply Hrej. intros [(bs & E & Hs) [Hne Hc] _ _ _]. rewrite Hser in E. injection E as <-. by discriminate (proj2 Hbad (conj Hne (conj Hc Hs))). }
  destruct (proj1 Hbad eq_refl) as (Hne & Hcount & Hsize). clear Hbad.
  pose proof (contextual_txs_ok (height >=? DIP0001Height params) height cutoff (vtx block) 0 st) as Htxs.
  destruct (contextual_txs _ _ _ _ _ _ _ _) as [[r st']|nSigOps].
  { destruct Htxs as (Hn & -> & Hm). exists false, st', caches'. split_and!; try done. split; [done|]. by intros [_ _ H _ _]. }
  destruct Htxs as [Htxs ->]. fold (block_sigops (vtx block)). unfold MaxBlockSigOps.
  assert (forall b, MaxBlockSize b = MAX_DIP0001_BLOCK_SIZE) as -> by (by intros []). rewrite Z.gtb_ltb.
  destruct (Z.ltb_spec (MAX_DIP0001_BLOCK_SIZE / 50) (block_sigops (vtx block))) as [Hs|Hs].
  { apply Hrej. intros [_ _ _ H _]. lia. }
  rewrite Z.geb_leb. destruct (Z.leb_spec (BIP34Height params) height) as [Hb|Hb].
  2:{ exists true, st, caches'. split_and!; try done. split; [|done]. intros _. split; try done; [by exists bytes|lia]. }
  destruct (vtx block) as [|cb txs] eqn:Ev; [done|]. cbn [head mbind option_bind].
  specialize (Hvin cb eq_refl). destruct (vin cb) as [|i ins] eqn:Evin; [done|]. cbn [head mbind option_bind].
  case_bool_decide as Eq; cbn [negb orb].
  - rewrite (proj2 (Nat.ltb_ge _ _)) by by apply take_length_le. cbn [orb].
    exists true, st, caches'. split_and!; try done. split; [|done]. intros _. rewrite <- Ev in *.
    split; try done; [by exists bytes|]. intros _. exists cb, i. by rewrite Ev, Evin.
  - rewrite orb_true_r. apply Hrej. intros [_ _ _ _ H]. destruct (H Hb) as (cb' & i' & E1 & E2 & E3).
    rewrite Ev in E1. injection E1 as <-. rewrite Evin in E2. by injection E2 as <-.
Qed.

End ContextLemmas.

(** The rule on checkpoints for a header on the block [prev] at height [height]. *)
Definition checkpoint_rule (params : ConsensusParams) (m : BlockMap) (enabled : bool) (mapCheckpoints : list (Z * Z)) (prev : ptr) (height : Z) : Prop :=
  enabled = true -> prev <> hashGenesisBlock params ->
  forall c, GetLastCheckpoint m mapCheckpoints = Some c -> nHeight c <= height.

(** What [AcceptBlockHeader] asks of a header that is not in the index, on the entry [prev]. *)
Record header_acceptable (Hash : list Z -> Z) (outside : Z -> Z -> Z -> bool) (params : ConsensusParams) (enabled : bool)
    (mapCheckpoints : list (Z * Z)) (m : BlockMap) (block : CBlockHeader) (prev : CBlockIndex) (nAdjustedTime : Z) : Prop := {
  ha_pow : CheckBlockProofOfWork Hash (cp_network params) block (nAuxpowChainId params) (cp_pow params) = Some true;
  ha_devnet : hashDevnetGenesisBlock params <> 0 -> hd_hashPrevBlock (pure block) = hashGenesisBlock params ->
              pure_GetHash Hash (pure block) = hashDevnetGenesisBlock params;
  ha_parent : Z.land (nStatus prev) BLOCK_FAILED_MASK = 0;
  ha_checkpoint : checkpoint_rule params m enabled mapCheckpoints (hd_hashPrevBlock (pure block)) (nHeight prev + 1);
  ha_bits : GetNextWorkRequired m outside (hd_hashPrevBlock (pure block)) (hd_nTime (pure block)) (cp_pow params)
            = Some (hd_nBits (pure block));
  ha_time : cp_network params <> REGTEST ->
            GetMedianTimePast m (hd_hashPrevBlock (pure block)) < hd_nTime (pure block) <= nAdjustedTime + 2 * 60 * 60;
}.

Lemma checkpoint_iff params m mapCheckpoints (enabled : bool) p prev st :
  m !! p = Some prev ->
  exists r st', (if enabled then CheckIndexAgainstCheckpoint params m mapCheckpoints p st else Some (true, st)) = Some (r, st')
  /\ (r = true <-> checkpoint_rule params m enabled mapCheckpoints p (nHeight prev + 1))
  /\ (r = true -> st' = st) /\ (r = false -> mode st' <> MODE_VALID).
Proof.
  intros Hp. unfold checkpoint_rule, CheckIndexAgainstCheckpoint. destruct enabled; [|by exists true, st].
  destruct (Z.eqb_spec p (hashGenesisBlock params)); [by exists true, st|]. rewrite Hp. cbn [mbind option_bind].
  destruct (GetLastCheckpoint m mapCheckpoints) as [c|]; [|by exists true, st].
  destruct (Z.ltb_spec (nHeight prev + 1) (nHeight c)).
  - destruct (DoS_invalid st 100 0 "" false) as (st' & -> & Hm). exists false, st'. split_and!; [done| |done|done].
    split; [done|]. intros Hr. specialize (Hr eq_refl n c eq_refl). lia.
  - exists true, st. split_and!; try done. split; [|done]. by intros _ _ _ c' [= <-].
Qed.

Lemma contextual_header_iff outside params m block st t p bits :
  GetNextWorkRequired m outside p (hd_nTime (pure block)) (cp_pow params) = Some bits ->
  exists r st', ContextualCheckBlockHeader outside params m block st (Some p) t = Some (r, st')
  /\ (r = true <-> bits = hd_nBits (pure block) /\
        (cp_network params <> REGTEST -> GetMedianTimePast m p < hd_nTime (pure block) <= t + 2 * 60 * 60))
  /\ (r = true -> st' = st) /\ (r = false -> mode st' <> MODE_VALID).
Proof.
  intros E. unfold ContextualCheckBlockHeader. cbn [mbind option_bind]. rewrite E. cbn [mbind option_bind].
  assert (forall (P : Prop) level code reason, ~ P -> exists r st', Some (DoS st level false code reason false) = Some (r, st')
    /\ (r = true <-> P) /\ (r = true -> st' = st) /\ (r = false -> mode st' <> MODE_VALID)) as Hrej.
  { intros P level code reason HP. destruct (DoS_invalid st level code reason false) as (st' & -> & Hm). exists false, st'.
    split_and!; [done|by split; [done|intros []%HP]|done|done]. }
  destruct (Z.eqb_spec (hd_nBits (pure block)) bits); cbn [negb]; [|apply Hrej; by intros [-> _]].
  case_bool_decide as Hreg; cbn [negb]; [by exists true, st|]. rewrite Z.gtb_ltb. unfold state_Invalid.
  destruct (Z.leb_spec (hd_nTime (pure block)) (GetMedianTimePast m p)); [apply Hrej; intros [_ Ht]; specialize (Ht Hreg); lia|].
  destruct (Z.ltb_spec (t + 2 * 60 * 60) (hd_nTime (pure block))); [apply Hrej; intros [_ Ht]; specialize (Ht Hreg); lia|].
  exists true, st. split_and!; [done| |done|done]. split; [intros _; split; [done|intros _; lia]|done].
Qed.

Lemma AcceptBlockHeader_new Hash outside params enabled mapCheckpoints cs block st t prev pow bits :
  let m := mapBlockIndex cs in let hash := pure_GetHash Hash (pure block) in let p := hd_hashPrevBlock (pure block) in
  index_inv cs -> in_u 32 (hd_nBits (pure block)) -> hash <> hashGenesisBlock params -> m !! hash = None -> m !! p = Some prev ->
  CheckBlockProofOfWork Hash (cp_network params) block (nAuxpowChainId params) (cp_pow params) = Some pow ->
  GetNextWorkRequired m outside p (hd_nTime (pure block)) (cp_pow params) = Some bits ->
  exists r st' cs' ppindex, AcceptBlockHeader Hash outside params enabled mapCheckpoints cs block st t = Some (r, st', cs', ppindex)
  /\ (r = true <-> header_acceptable Hash outside params enabled mapCheckpoints m block prev t)
  /\ (r = true -> st' = st /\ ppindex = Some hash /\ is_Some (mapBlockIndex cs' !! hash) /\ m ⊆ mapBlockIndex cs')
  /\ (r = false -> mode st' <> MODE_VALID /\ cs' = cs /\ ppindex = None).
Proof.
  intros m hash p Hinv Hb Hgen Hnew Hp Hpow Hbits. unfold AcceptBlockHeader. fold m hash p.
  rewrite (proj2 (Z.eqb_neq _ _) Hgen), Hnew. cbn [negb].
  assert (forall (r : bool) (st' : CValidationState) (P : Prop), ~ P -> r = false -> mode st' <> MODE_VALID -> exists r' st'' cs' pp, Some (r, st', cs, @None ptr) = Some (r', st'', cs', pp)
    /\ (r' = true <-> P) /\ (r' = true -> st'' = st /\ pp = Some hash /\ is_Some (mapBlockIndex cs' !! hash) /\ m ⊆ mapBlockIndex cs')
    /\ (r' = false -> mode st'' <> MODE_VALID /\ cs' = cs /\ pp = None)) as Hrej.
  { intros r st' P HP -> Hm. exists false, st', cs, None. split_and!; [done|by split; [done|intros []%HP]|done|done]. }
  destruct (CheckBlockHeader_iff Hash params block st pow Hpow) as (r1 & st1 & -> & H1 & S1 & F1). cbn [mbind option_bind].
  destruct r1; cbn [negb].
  2:{ apply Hrej; [|done|by auto]. intros [A1 A2 _ _ _ _]. rewrite Hpow in A1. injection A1 as ->. by discriminate (proj2 H1 (conj eq_refl A2)). }
  rewrite (S1 eq_refl), Hp. destruct (proj1 H1 eq_refl) as [-> Hdev].
  destruct (Z.eqb_spec (Z.land (nStatus prev) BLOCK_FAILED_MASK) 0) as [Hfail|Hfail]; cbn [negb].
  2:{ destruct (DoS_invalid st 100 REJECT_INVALID "bad-prevblk" false) as (st' & -> & Hm). apply Hrej; [|done|done]. by intros [_ _ A _ _ _]. }
  destruct (checkpoint_iff params m mapCheckpoints enabled p prev st Hp) as (r2 & st2 & -> & H2 & S2 & F2). cbn [mbind option_bind].
  destruct r2; cbn [negb]; [|apply Hrej; [|done|by auto]; by intros [_ _ _ A%H2 _ _]]. rewrite (S2 eq_refl).
  destruct (contextual_header_iff outside params m block st t p bits Hbits) as (r3 & st3 & -> & H3 & S3 & F3). cbn [mbind option_bind].
  destruct r3; cbn [negb].
  2:{ apply Hrej; [|done|by auto]. intros [_ _ _ _ A1 A2]. fold p in A1, A2. rewrite Hbits in A1. injection A1 as ->. by discriminate (proj2 H3 (conj eq_refl A2)). }
  destruct (proj1 H3 eq_refl) as [-> Htime].
  destruct (AddToBlockIndex_ok (pure_GetHash Hash) cs (pure block) Hinv Hb ltac:(fold hash p; congruence)) as (cs' & -> & _ & Hin & Hold).
  cbn [mbind option_bind]. rewrite (S3 eq_refl). do 4 eexists. split; [done|]. split; [|split; [|done]].
  - split; [|done]. intros _. split; (done || by apply H2).
  - intros _. split_and!; [done|done|done|]. by apply map_subseteq_spec.
Qed.

(** ** Properties *)

(** C31: whatever headers arrive, in whatever order and at whatever times, the index that starts with the genesis block and
    grows by [ProcessNewBlockHeaders] stays well formed, and every other entry has a header with the required work, claims the
    difficulty that its parent asks for (as computed in the index as it is now), and outside the regression-test
    network is later than the median of the eleven blocks before it: the rule on times that the version-bits
    state machine relies on. *)
Theorem accepted_headers_sound (Hash : list Z -> Z) (outside : Z -> Z -> Z -> bool) (params : ConsensusParams) (enabled : bool)
    (mapCheckpoints : list (Z * Z)) (cs : ChainState) :
  headers_reachable Hash outside params enabled mapCheckpoints cs ->
  index_inv cs /\ index_sound Hash outside params (mapBlockIndex cs)
  /\ (cp_network params <> REGTEST -> time_rule (mapBlockIndex cs)).
Proof.
  intros H. destruct (headers_reachable_ok _ _ _ _ _ _ H) as (Hinv & Hs & g & Hg & Hgp). split_and!; [done|done|].
  intros Hnet p b q Hp Hq. destruct (decide (p = hashGenesisBlock params)) as [->|Hne]; [congruence|].
  destruct (Hs p b Hp Hne) as (block & prev & _ & _ & _ & E & _ & _ & Ht). rewrite Hq in E. injection E as <-. by apply Ht.
Qed.

(** [AcceptBlockHeader] takes a new header on a known parent into the index exactly when it has the required work, obeys
    the development network's genesis and the last known checkpoint, its parent is not marked as failed, its bits are
    the ones the parent asks for, and, outside the regression-test network, its time lies between the median of its
    predecessors and two hours ahead of the clock; a refused header makes the state invalid and leaves the index as it was. *)
Theorem AcceptBlockHeader_correct (Hash : list Z -> Z) (outside : Z -> Z -> Z -> bool) (params : ConsensusParams) (enabled : bool)
    (mapCheckpoints : list (Z * Z)) (cs : ChainState) (block : CBlockHeader) (st : CValidationState) (t : Z)
    (prev : CBlockIndex) (pow : bool) (bits : Z) :
  let m := mapBlockIndex cs in let hash := pure_GetHash Hash (pure block) in let p := hd_hashPrevBlock (pure block) in
  index_inv cs -> in_u 32 (hd_nBits (pure block)) -> hash <> hashGenesisBlock params -> m !! hash = None -> m !! p = Some prev ->
  CheckBlockProofOfWork Hash (cp_network params) block (nAuxpowChainId params) (cp_pow params) = Some pow ->
  GetNextWorkRequired m outside p (hd_nTime (pure block)) (cp_pow params) = Some bits ->
  exists r st' cs' ppindex, AcceptBlockHeader Hash outside params enabled mapCheckpoints cs block st t = Some (r, st', cs', ppindex)
  /\ (r = true <-> header_acceptable Hash outside params enabled mapCheckpoints m block prev t)
  /\ (r = true -> st' = st /\ ppindex = Some hash /\ is_Some (mapBlockIndex cs' !! hash) /\ m ⊆ mapBlockIndex cs')
  /\ (r = false -> mode st' <> MODE_VALID /\ cs' = cs /\ ppindex = None).
Proof. apply AcceptBlockHeader_new. Qed.

(** C7: [CheckBlock] of a well-typed block that was not checked before, with work and Merkle root, accepts exactly
    the blocks with enough work whose header commits, without duplicates, to their transactions, within the limits
    on size and signature operations, with a coinbase first and nowhere else, valid transactions and, while the spork is
    on, no input locked to another transaction; then the block is marked as checked, and only then.  Valid transactions
    have no duplicate inputs: a comment in CheckTransaction says that this check is skipped in CheckBlock, but
    CheckBlock asks for it. *)
Theorem CheckBlock_correct (timeToPrune expired : list Z -> bool) (Hash : list Z -> Z) (params : ConsensusParams) (spork3 : bool)
    (lockedTx : COutPoint -> option Z) (now : Z) (block : CBlock) (st : CValidationState) (cs : CheckState) (pow : bool) :
  block_ok timeToPrune expired Hash block ->
  CheckBlockProofOfWork Hash (cp_network params) (header block) (nAuxpowChainId params) (cp_pow params) = Some pow ->
  fChecked cs = false ->
  exists r st' cs', CheckBlock timeToPrune expired Hash params spork3 lockedTx now block st true true cs = Some (r, st', cs')
  /\ (r = true <-> block_checked timeToPrune expired Hash params spork3 lockedTx block)
  /\ (r = true -> st' = st /\ fChecked cs' = true) /\ (r = false -> mode st' <> MODE_VALID /\ fChecked cs' = false).
Proof.
  intros Hok Hpow Hc. destruct (CheckBlock_ok timeToPrune expired Hash params spork3 lockedTx now block st cs pow Hok Hpow Hc)
    as (r & st' & cs' & E & H1 & H2 & H3). rewrite Hc in H3. eauto 10.
Qed.

(** A header fixes the transactions of its block: two blocks that [CheckBlock] accepts, with the same
    Merkle root in the header and Merkle trees of the same height, have the same transactions (up to their
    hashes), unless two of the pairs hashed in the two trees collide. *)
Theorem header_fixes_transactions (timeToPrune expired : list Z -> bool) (Hash : list Z -> Z) (params : ConsensusParams) (spork3 spork3' : bool)
    (lockedTx lockedTx' : COutPoint -> option Z) (now now' : Z) (b b' : CBlock) (st st' : CValidationState) (cs cs' : CheckState) (r r' : CValidationState * CheckState) :
  block_ok timeToPrune expired Hash b -> block_ok timeToPrune expired Hash b' -> fChecked cs = false -> fChecked cs' = false ->
  hd_hashMerkleRoot (pure (header b)) = hd_hashMerkleRoot (pure (header b')) ->
  Nat.log2_up (length (vtx b)) = Nat.log2_up (length (vtx b')) ->
  collision_free (hash_pair Hash) (hashed (hash_pair Hash) 31 (map tx_hash (vtx b)) ++ hashed (hash_pair Hash) 31 (map tx_hash (vtx b'))) = true ->
  CheckBlock timeToPrune expired Hash params spork3 lockedTx now b st true true cs = Some (true, r.1, r.2) ->
  CheckBlock timeToPrune expired Hash params spork3' lockedTx' now' b' st' true true cs' = Some (true, r'.1, r'.2) ->
  map tx_hash (vtx b) = map tx_hash (vtx b').
Proof.
  intros Hok Hok' Hc Hc' Hroot Hlen Hcol H H'.
  assert (forall spork3 lockedTx now b st cs r, block_ok timeToPrune expired Hash b -> fChecked cs = false ->
    CheckBlock timeToPrune expired Hash params spork3 lockedTx now b st true true cs = Some (true, r.1, r.2) ->
    block_checked timeToPrune expired Hash params spork3 lockedTx b) as Hsound.
  { clear. intros spork3 lockedTx now b st cs r Hok Hc H.
    destruct (CheckBlockProofOfWork Hash (cp_network params) (header b) (nAuxpowChainId params) (cp_pow params)) as [pow|] eqn:Hpow.
    - destruct (CheckBlock_ok timeToPrune expired Hash params spork3 lockedTx now b st cs pow Hok Hpow Hc) as (x & y & z & E & Hx & _).
      rewrite H in E. injection E as <- _ _. by apply Hx.
    - unfold CheckBlock, CheckBlockHeader in H. by rewrite Hc, Hpow in H. }
  apply Hsound in H; [|done..]. apply Hsound in H'; [|done..].
  pose proof (block_checked_shape _ _ _ _ _ _ _ H) as (Hne & _). pose proof (block_checked_shape _ _ _ _ _ _ _ H') as (Hne' & _).
  destruct H as [_ _ Hm _ Hn _ _ _ _], H' as [_ _ Hm' _ Hn' _ _ _ _]. rewrite <- Hroot in Hm'. unfold MAX_DIP0001_BLOCK_SIZE in *.
  eapply (ComputeMerkleRoot_injective (hash_pair Hash)); [..|exact Hm|exact Hm']; rewrite ?length_map; try lia.
  - by intros ?%map_eq_nil.
  - by intros ?%map_eq_nil.
  - by apply collision_free_ok.
Qed.

(** C38: in an index with a well-formed version-bits setting, [ContextualCheckBlock] of a well-typed block accepts exactly
    the blocks within the limits whose transactions are final at their height, against the median time of
    the predecessors once the deployment of relative lock times is active and the time of the block before, not
    over-sized once DIP0001 is active, and whose coinbase starts with the height from [BIP34Height] on. *)
Theorem ContextualCheckBlock_correct (timeToPrune expired : list Z -> bool) (Hash : list Z -> Z) (params : ConsensusParams) (m : BlockMap)
    (caches : list ThresholdConditionCache) (block : CBlock) (st : CValidationState) (pindexPrev : option ptr) (height : Z) (csv : BIP9Deployment) :
  setting_ok (cp_bip9 params) m -> caches_ok (cp_bip9 params) m caches -> in_index m pindexPrev ->
  vDeployments (cp_bip9 params) !! DEPLOYMENT_CSV = Some csv -> next_height m pindexPrev = Some height ->
  block_ok timeToPrune expired Hash block -> (forall cb, head (vtx block) = Some cb -> vin cb <> []) ->
  exists r st' caches', ContextualCheckBlock timeToPrune expired params m caches block st pindexPrev = Some (r, st', caches')
  /\ caches_ok (cp_bip9 params) m caches'
  /\ (r = true <-> block_in_context timeToPrune expired params block height (lock_time_cutoff params m block pindexPrev csv))
  /\ (r = true -> st' = st) /\ (r = false -> mode st' <> MODE_VALID).
Proof. apply ContextualCheckBlock_ok. Qed.

(** Coinbases at different heights differ: blocks that [ContextualCheckBlock] accepts at two different heights, from [BIP34Height]
    on, have coinbases with different input scripts, so no two of them can have the same hash but by a collision. *)
Theorem coinbase_heights_differ (timeToPrune expired : list Z -> bool) (Hash : list Z -> Z) (params : ConsensusParams) (m : BlockMap)
    (caches caches1 caches2 : list ThresholdConditionCache) (b1 b2 : CBlock) (st st1 st2 : CValidationState) (p1 p2 : option ptr) (h1 h2 : Z)
    (csv : BIP9Deployment) (cb1 cb2 : CTransaction) :
  setting_ok (cp_bip9 params) m -> caches_ok (cp_bip9 params) m caches -> in_index m p1 -> in_index m p2 ->
  vDeployments (cp_bip9 params) !! DEPLOYMENT_CSV = Some csv -> next_height m p1 = Some h1 -> next_height m p2 = Some h2 ->
  block_ok timeToPrune expired Hash b1 -> block_ok timeToPrune expired Hash b2 ->
  head (vtx b1) = Some cb1 -> head (vtx b2) = Some cb2 -> vin cb1 <> [] -> vin cb2 <> [] ->
  0 <= BIP34Height params <= h1 -> BIP34Height params <= h2 -> h1 < 2 ^ 31 -> h2 < 2 ^ 31 -> h1 <> h2 ->
  ContextualCheckBlock timeToPrune expired params m caches b1 st p1 = Some (true, st1, caches1) ->
  ContextualCheckBlock timeToPrune expired params m caches b2 st p2 = Some (true, st2, caches2) ->
  map scriptSig (vin cb1) <> map scriptSig (vin cb2).
Proof.
  intros Hset Hcache Hin1 Hin2 Hcsv Hh1 Hh2 Hok1 Hok2 Hcb1 Hcb2 Hv1 Hv2 Hb1 Hb2 Hl1 Hl2 Hne H1 H2 E.
  destruct (ContextualCheckBlock_ok timeToPrune expired Hash params m caches b1 st p1 h1 csv) as (r1 & s1 & c1 & E1 & _ & R1 & _); try done.
  { intros cb Hcb. rewrite Hcb1 in Hcb. by injection Hcb as <-. }
  destruct (ContextualCheckBlock_ok timeToPrune expired Hash params m caches b2 st p2 h2 csv) as (r2 & s2 & c2 & E2 & _ & R2 & _); try done.
  { intros cb Hcb. rewrite Hcb2 in Hcb. by injection Hcb as <-. }
  rewrite H1 in E1. rewrite H2 in E2. injection E1 as <- _ _. injection E2 as <- _ _.
  destruct (bx_height _ _ _ _ _ _ (proj1 R1 eq_refl) ltac:(lia)) as (c & i & A1 & A2 & A3).
  destruct (bx_height _ _ _ _ _ _ (proj1 R2 eq_refl) ltac:(lia)) as (c' & j & B1 & B2 & B3).
  rewrite Hcb1 in A1. injection A1 as <-. rewrite Hcb2 in B1. injection B1 as <-.
  destruct (vin cb1) as [|i' l]; [done|]. injection A2 as ->. destruct (vin cb2) as [|j' l']; [done|]. injection B2 as ->.
  injection E as Es _. rewrite Es in A3. apply Hne. apply (push_int64_prefix (scriptSig j)); (done || lia).
Qed.

(** ** Witnesses: a header on a genesis block, and blocks of one coinbase *)

Definition toy_outside : Z -> Z -> Z -> bool := fun _ _ _ => false.
Definition toy_genesis : Chain.CBlockHeader :=
  {| hd_nVersion := 1; hd_hashPrevBlock := 0; hd_hashMerkleRoot := 3; hd_nTime := 1000; hd_nBits := 0x207fffff; hd_nNonce := 1 |}.
Definition toy_cparams : ConsensusParams :=
  {| cp_network := MAIN; cp_pow := main_params; cp_bip9 := bits_params; hashGenesisBlock := pure_GetHash toy_bytes_hash toy_genesis;
     hashDevnetGenesisBlock := 0; nAuxpowChainId := 0xfff; BIP34Height := 1; DIP0001Height := 0 |}.
Definition toy_next : CBlockHeader :=
  {| pure := {| hd_nVersion := 1; hd_hashPrevBlock := pure_GetHash toy_bytes_hash toy_genesis; hd_hashMerkleRoot := 4; hd_nTime := 1060;
                hd_nBits := 0x207fffff; hd_nNonce := 2 |};
     auxpow := None |}.
Definition genesis_state : ChainState :=
  match AddToBlockIndex (pure_GetHash toy_bytes_hash) init_state toy_genesis with Some (cs, _) => cs | None => init_state end.
Definition toy_headers_state : ChainState :=
  match ProcessNewBlockHeaders toy_bytes_hash toy_outside toy_cparams true [] genesis_state [toy_next] CValidationState_make 5000 with
  | Some (_, _, cs, _) => cs | None => init_state
  end.

Lemma genesis_valid : valid_header (pure_GetHash toy_bytes_hash) toy_genesis.
Proof. split; [by unfold in_u|vm_compute; discriminate]. Qed.

Lemma genesis_added : exists p, AddToBlockIndex (pure_GetHash toy_bytes_hash) init_state toy_genesis = Some (genesis_state, p).
Proof. eexists. vm_compute. reflexivity. Qed.

Lemma genesis_reachable : headers_reachable toy_bytes_hash toy_outside toy_cparams true [] genesis_state.
Proof. destruct genesis_added as [p E]. eapply headers_genesis; [apply genesis_valid|reflexivity|exact E]. Qed.

Lemma toy_next_typed : pure_ok (pure toy_next).
Proof. apply (bool_decide_unpack _). vm_compute. exact I. Qed.

Lemma accepted_headers_sound_witness :
  index_inv toy_headers_state /\ index_sound toy_bytes_hash toy_outside toy_cparams (mapBlockIndex toy_headers_state)
  /\ time_rule (mapBlockIndex toy_headers_state) /\ size (mapBlockIndex toy_headers_state) = 2%nat.
Proof.
  destruct (accepted_headers_sound toy_bytes_hash toy_outside toy_cparams true [] toy_headers_state) as (H1 & H2 & H3).
  - eapply (headers_process _ _ _ _ _ genesis_state [toy_next] CValidationState_make 5000 true CValidationState_make _ (Some (pure_GetHash toy_bytes_hash (pure toy_next)))).
    + exact genesis_reachable.
    + constructor; [exact toy_next_typed|constructor].
    + vm_compute. reflexivity.
  - split; [exact H1|]. split; [exact H2|]. split; [apply H3; discriminate|vm_compute; reflexivity].
Defined.

Definition genesis_entry : CBlockIndex :=
  default (CBlockIndex_of toy_genesis) (mapBlockIndex genesis_state !! pure_GetHash toy_bytes_hash toy_genesis).

Lemma AcceptBlockHeader_correct_witness : exists cs',
  AcceptBlockHeader toy_bytes_hash toy_outside toy_cparams true [] genesis_state toy_next CValidationState_make 5000
    = Some (true, CValidationState_make, cs', Some (pure_GetHash toy_bytes_hash (pure toy_next)))
  /\ is_Some (mapBlockIndex cs' !! pure_GetHash toy_bytes_hash (pure toy_next)).
Proof.
  destruct (AcceptBlockHeader_correct toy_bytes_hash toy_outside toy_cparams true [] genesis_state toy_next CValidationState_make 5000
              genesis_entry true 0x207fffff) as (r & st' & cs' & pp & E & H1 & H2 & _).
  - apply (headers_reachable_ok _ _ _ _ _ _ genesis_reachable).
  - unfold in_u. cbn. lia.
  - vm_compute. discriminate.
  - vm_compute. reflexivity.
  - vm_compute. reflexivity.
  - vm_compute. reflexivity.
  - vm_compute. reflexivity.
  - assert (r = true) as ->.
    { apply H1. split.
      - vm_compute. reflexivity.
      - intros Hd. destruct (Hd eq_refl).
      - vm_compute. reflexivity.
      - intros _ _ c. vm_compute. discriminate.
      - vm_compute. reflexivity.
      - intros _. vm_compute. split; [reflexivity|discriminate]. }
    destruct (H2 eq_refl) as (-> & -> & Hin & _). exists cs'. split; [exact E|exact Hin].
Defined.

(** A block with one transaction, whose input script starts with the given height. *)
Definition height_coinbase (h : Z) : CTransaction :=
  tx_make toy_never toy_never toy_bytes_hash 1 [toy_input (push_int64 [] h ++ [1; 2])] [CTxOut_make 50 [0x51]] 0.
Definition height_block (h : Z) : CBlock :=
  let cb := height_coinbase h in
  {| header := {| pure := {| hd_nVersion := 1; hd_hashPrevBlock := 5; hd_hashMerkleRoot := tx_hash cb; hd_nTime := 5000; hd_nBits := 0x207fffff; hd_nNonce := 3 |};
                  auxpow := None |};
     vtx := [cb] |}.
Definition unchecked : CheckState := {| fChecked := false; mapRejectedBlocks := ∅ |}.
Definition no_locks : COutPoint -> option Z := fun _ => None.

Lemma height_block_ok : block_ok toy_never toy_never toy_bytes_hash (height_block 11) /\ block_ok toy_never toy_never toy_bytes_hash (height_block 10).
Proof. apply (bool_decide_unpack _). vm_compute. exact I. Qed.

Lemma CheckBlock_correct_witness : exists r st' cs',
  CheckBlock toy_never toy_never toy_bytes_hash toy_cparams true no_locks 0 (height_block 11) CValidationState_make true true unchecked = Some (r, st', cs')
  /\ r = true /\ block_checked toy_never toy_never toy_bytes_hash toy_cparams true no_locks (height_block 11).
Proof.
  destruct (CheckBlock_correct toy_never toy_never toy_bytes_hash toy_cparams true no_locks 0 (height_block 11) CValidationState_make unchecked true)
    as (r & st' & cs' & E & H1 & _).
  - exact (proj1 height_block_ok).
  - vm_compute. reflexivity.
  - reflexivity.
  - exists r, st', cs'. split; [exact E|]. assert (r = true) as ->; [|split; [reflexivity|apply H1; reflexivity]].
    destruct r; [reflexivity|]. exfalso. revert E. vm_compute. discriminate.
Defined.

Lemma header_fixes_transactions_witness : map tx_hash (vtx (height_block 11)) = map tx_hash (vtx (height_block 11)).
Proof.
  apply (header_fixes_transactions toy_never toy_never toy_bytes_hash toy_cparams true false no_locks no_locks 0 0 (height_block 11) (height_block 11)
           CValidationState_make CValidationState_make unchecked unchecked
           (CValidationState_make, {| fChecked := true; mapRejectedBlocks := ∅ |}) (CValidationState_make, {| fChecked := true; mapRejectedBlocks := ∅ |})).
  - exact (proj1 height_block_ok).
  - exact (proj1 height_block_ok).
  - reflexivity.
  - reflexivity.
  - reflexivity.
  - reflexivity.
  - vm_compute. reflexivity.
  - vm_compute. reflexivity.
  - vm_compute. reflexivity.
Defined.

Lemma bits_in_index p : (match bits_map !! p with Some _ => true | None => false end) = true -> in_index bits_map (Some p).
Proof. intros H ? [= <-]. eexists. exact (bits_lookup p H). Qed.

Definition bits_csv : BIP9Deployment := {| bit := 1; nStartTime := 1; nTimeout := 1200; nWindowSize := 0; nThreshold := 3 |}.

Lemma ContextualCheckBlock_correct_witness : exists r st' caches',
  ContextualCheckBlock toy_never toy_never toy_cparams bits_map [∅; ∅] (height_block 11) CValidationState_make (Some 11) = Some (r, st', caches')
  /\ caches_ok bits_params bits_map caches' /\ r = true.
Proof.
  destruct (ContextualCheckBlock_correct toy_never toy_never toy_bytes_hash toy_cparams bits_map [∅; ∅] (height_block 11) CValidationState_make (Some 11) 11 bits_csv)
    as (r & st' & caches' & E & Hc & _).
  - exact bits_setting.
  - exact bits_caches.
  - apply bits_in_index. vm_compute. reflexivity.
  - reflexivity.
  - vm_compute. reflexivity.
  - exact (proj1 height_block_ok).
  - intros cb [= <-]. discriminate.
  - exists r, st', caches'. split; [exact E|]. split; [exact Hc|]. destruct r; [reflexivity|]. exfalso. revert E. vm_compute. discriminate.
Defined.

Definition context_result (h : Z) (p : ptr) : bool * CValidationState * list ThresholdConditionCache :=
  default (false, CValidationState_make, [])
    (ContextualCheckBlock toy_never toy_never toy_cparams bits_map [∅; ∅] (height_block h) CValidationState_make (Some p)).

Lemma coinbase_heights_differ_witness :
  map scriptSig (vin (height_coinbase 11)) <> map scriptSig (vin (height_coinbase 10)).
Proof.
  apply (coinbase_heights_differ toy_never toy_never toy_bytes_hash toy_cparams bits_map [∅; ∅] (context_result 11 11).2 (context_result 10 10).2
           (height_block 11) (height_block 10) CValidationState_make (context_result 11 11).1.2 (context_result 10 10).1.2 (Some 11) (Some 10) 11 10 bits_csv
           (height_coinbase 11) (height_coinbase 10)).
  - exact bits_setting.
  - exact bits_caches.
  - apply bits_in_index. vm_compute. reflexivity.
  - apply bits_in_index. vm_compute. reflexivity.
  - reflexivity.
  - vm_compute. reflexivity.
  - vm_compute. reflexivity.
  - exact (proj1 height_block_ok).
  - exact (proj2 height_block_ok).
  - reflexivity.
  - reflexivity.
  - discriminate.
  - discriminate.
  - vm_compute. split; discriminate.
  - vm_compute. discriminate.
  - lia.
  - lia.
  - lia.
  - vm_compute. reflexivity.
  - vm_compute. reflexivity.
Defined.
