(* ===== verification/BestChain.v ===== *)
(** * Choosing the best chain

    Models the part of [src/src/validation.cpp] that turns accepted blocks into the
    active chain: the order on candidates ([CBlockIndexWorkComparator]),
    [ReceivedBlockTransactions], [FindMostWorkChain], [PruneBlockIndexCandidates],
    [InvalidChainFound], [InvalidBlockFound], [UpdateTip], [ConnectTip],
    [DisconnectTip], [ActivateBestChainStep], [ActivateBestChain], [InvalidateBlock] and
    [ResetBlockFailureFlags].

    A [CBlockIndex*] is its key in the index, as in [Chain]; [addr] gives the address of
    an entry, the last tie breaker of the order.  [setBlockIndexCandidates] is the set
    of its pointers, iterated in the order of the comparator as it is at the time;
    [mapBlocksUnlinked] is the list of its pairs in the order of insertion, which C++11 guarantees
    among equal keys.  Reading, checking, connecting and disconnecting the transactions of
    a block, with its files and coins, is behind the interface [ChainBackend].
    [None] is a failed [assert], a null dereference or the overflow of the
    sequence counter.  Disk positions, notifications, warnings and the memory pool are left out. *)

From stdpp Require Import gmap sorting.
From S2P Require Import Prelude ArithUint256 Chain.

(** ** Status bits *)

Definition BLOCK_VALID_TRANSACTIONS : Z := 3.
Definition BLOCK_HAVE_DATA : Z := 8.
Definition BLOCK_FAILED_VALID : Z := 32.
Definition BLOCK_FAILED_CHILD : Z := 64.

Definition failed (b : CBlockIndex) : bool := negb (Z.land (nStatus b) BLOCK_FAILED_MASK =? 0).
Definition have_data (b : CBlockIndex) : bool := negb (Z.land (nStatus b) BLOCK_HAVE_DATA =? 0).

(** ** Assignments to fields of an entry *)

Definition set_status (s : Z) (b : CBlockIndex) : CBlockIndex :=
  {| pprev := pprev b; pskip := pskip b; nHeight := nHeight b; nChainWork := nChainWork b; nTx := nTx b;
     nChainTx := nChainTx b; nStatus := s; nVersion := nVersion b; hashMerkleRoot := hashMerkleRoot b;
     nTime := nTime b; nBits := nBits b; nNonce := nNonce b; nSequenceId := nSequenceId b; nTimeMax := nTimeMax b |}.

Definition set_txs (n chain : Z) (b : CBlockIndex) : CBlockIndex :=
  {| pprev := pprev b; pskip := pskip b; nHeight := nHeight b; nChainWork := nChainWork b; nTx := n;
     nChainTx := chain; nStatus := nStatus b; nVersion := nVersion b; hashMerkleRoot := hashMerkleRoot b;
     nTime := nTime b; nBits := nBits b; nNonce := nNonce b; nSequenceId := nSequenceId b; nTimeMax := nTimeMax b |}.

Definition set_seq (s : Z) (b : CBlockIndex) : CBlockIndex :=
  {| pprev := pprev b; pskip := pskip b; nHeight := nHeight b; nChainWork := nChainWork b; nTx := nTx b;
     nChainTx := nChainTx b; nStatus := nStatus b; nVersion := nVersion b; hashMerkleRoot := hashMerkleRoot b;
     nTime := nTime b; nBits := nBits b; nNonce := nNonce b; nSequenceId := s; nTimeMax := nTimeMax b |}.

(** ** The globals *)

Record ChainMan := {
  cm_index : ChainState;
  chainActive : CChain;
  candidates : gset ptr;
  unlinked : list (ptr * ptr);
  pindexBestInvalid : option ptr;
  nBlockSequenceId : Z;
}.

Definition cm_map (cm : ChainMan) : BlockMap := mapBlockIndex (cm_index cm).

Definition with_index (cs : ChainState) (cm : ChainMan) : ChainMan :=
  {| cm_index := cs; chainActive := chainActive cm; candidates := candidates cm; unlinked := unlinked cm;
     pindexBestInvalid := pindexBestInvalid cm; nBlockSequenceId := nBlockSequenceId cm |}.
Definition with_chain (c : CChain) (cm : ChainMan) : ChainMan :=
  {| cm_index := cm_index cm; chainActive := c; candidates := candidates cm; unlinked := unlinked cm;
     pindexBestInvalid := pindexBestInvalid cm; nBlockSequenceId := nBlockSequenceId cm |}.
Definition with_candidates (s : gset ptr) (cm : ChainMan) : ChainMan :=
  {| cm_index := cm_index cm; chainActive := chainActive cm; candidates := s; unlinked := unlinked cm;
     pindexBestInvalid := pindexBestInvalid cm; nBlockSequenceId := nBlockSequenceId cm |}.
Definition with_unlinked (u : list (ptr * ptr)) (cm : ChainMan) : ChainMan :=
  {| cm_index := cm_index cm; chainActive := chainActive cm; candidates := candidates cm; unlinked := u;
     pindexBestInvalid := pindexBestInvalid cm; nBlockSequenceId := nBlockSequenceId cm |}.
Definition with_invalid (p : option ptr) (cm : ChainMan) : ChainMan :=
  {| cm_index := cm_index cm; chainActive := chainActive cm; candidates := candidates cm; unlinked := unlinked cm;
     pindexBestInvalid := p; nBlockSequenceId := nBlockSequenceId cm |}.
Definition with_sequence (s : Z) (cm : ChainMan) : ChainMan :=
  {| cm_index := cm_index cm; chainActive := chainActive cm; candidates := candidates cm; unlinked := unlinked cm;
     pindexBestInvalid := pindexBestInvalid cm; nBlockSequenceId := s |}.

(** An assignment to the entry [p] of the index, which must exist. *)
Definition update_entry (p : ptr) (f : CBlockIndex -> CBlockIndex) (cm : ChainMan) : option ChainMan :=
  b ← cm_map cm !! p;
  Some (with_index {| mapBlockIndex := <[p := f b]> (cm_map cm); pindexBestHeader := pindexBestHeader (cm_index cm);
                      setDirtyBlockIndex := setDirtyBlockIndex (cm_index cm) |} cm).

(** [setDirtyBlockIndex.insert] *)
Definition mark_dirty (p : ptr) (cm : ChainMan) : ChainMan :=
  with_index {| mapBlockIndex := cm_map cm; pindexBestHeader := pindexBestHeader (cm_index cm);
                setDirtyBlockIndex := {[p]} ∪ setDirtyBlockIndex (cm_index cm) |} cm.

(** [pindexBestHeader = p] *)
Definition set_best_header (p : option ptr) (cm : ChainMan) : ChainMan :=
  with_index {| mapBlockIndex := cm_map cm; pindexBestHeader := p;
                setDirtyBlockIndex := setDirtyBlockIndex (cm_index cm) |} cm.

(** ** The order on candidates *)

Section Order.
Variable addr : ptr -> Z.

(** [CBlockIndexWorkComparator] on two entries at their addresses. *)
Definition worse_entry (aa : Z) (pa : CBlockIndex) (ab : Z) (pb : CBlockIndex) : bool :=
  if bn_gt (nChainWork pa) (nChainWork pb) then false
  else if bn_lt (nChainWork pa) (nChainWork pb) then true
  else if nSequenceId pa <? nSequenceId pb then false
  else if nSequenceId pa >? nSequenceId pb then true
  else if aa <? ab then false
  else if aa >? ab then true
  else false.

(** The comparator on pointers, which point into the index. *)
Definition worse (m : BlockMap) (pa pb : ptr) : bool :=
  match m !! pa, m !! pb with
  | Some a, Some b => worse_entry (addr pa) a (addr pb) b
  | _, _ => false
  end.

(** The elements of a set of pointers in the order of the comparator, as an insertion sort. *)
Fixpoint insert_sorted (m : BlockMap) (p : ptr) (l : list ptr) : list ptr :=
  match l with
  | [] => [p]
  | q :: l' => if worse m p q then p :: l else q :: insert_sorted m p l'
  end.
Definition in_order (m : BlockMap) (s : gset ptr) : list ptr := foldr (insert_sorted m) [] (elements s).

(** ** Receiving the transactions of a block *)

(** [chainActive.Tip() == NULL || !setBlockIndexCandidates.value_comp()(pindex, chainActive.Tip())] *)
Definition not_worse_than_tip (cm : ChainMan) (p : ptr) : bool :=
  match chain_Tip (chainActive cm) with
  | None => true
  | Some tip => negb (worse (cm_map cm) p tip)
  end.

Definition parent_chain_tx (m : BlockMap) (b : CBlockIndex) : option Z :=
  match pprev b with
  | None => Some 0
  | Some q => bq ← m !! q; Some (nChainTx bq)
  end.

(** One turn of the loop over the queue: the entry is linked, and the entries that wait for it are returned. *)
Definition link_entry (cm : ChainMan) (pindex : ptr) : option (ChainMan * list ptr) :=
  b ← cm_map cm !! pindex;
  prev ← parent_chain_tx (cm_map cm) b;
  cm ← update_entry pindex (set_txs (nTx b) (u32 (prev + nTx b))) cm;
  if decide (nBlockSequenceId cm < 2 ^ 31 - 1) then
    cm ← update_entry pindex (set_seq (nBlockSequenceId cm)) cm;
    let cm := with_sequence (nBlockSequenceId cm + 1) cm in
    let cm := if not_worse_than_tip cm pindex then with_candidates ({[pindex]} ∪ candidates cm) cm else cm in
    let range := filter (fun x => x.1 = pindex) (unlinked cm) in
    Some (with_unlinked (filter (fun x => x.1 <> pindex) (unlinked cm)) cm, map snd range)
  else None.

Fixpoint link_loop (fuel : nat) (cm : ChainMan) (queue : list ptr) : option ChainMan :=
  match queue with
  | [] => Some cm
  | pindex :: queue =>
      match fuel with
      | O => None
      | S fuel => '(cm, next) ← link_entry cm pindex; link_loop fuel cm (queue ++ next)
      end
  end.

(** [vtxSize] is [block.vtx.size()]. *)
Definition ReceivedBlockTransactions (cm : ChainMan) (vtxSize : Z) (pindexNew : ptr) : option ChainMan :=
  b ← cm_map cm !! pindexNew;
  '(raised, _) ← RaiseValidity (set_status (Z.lor (nStatus b) BLOCK_HAVE_DATA) (set_txs (u32 vtxSize) 0 b)) BLOCK_VALID_TRANSACTIONS;
  cm ← update_entry pindexNew (fun _ => raised) cm;
  let cm := mark_dirty pindexNew cm in
  match pprev b with
  | None => link_loop (S (length (unlinked cm))) cm [pindexNew]
  | Some q =>
      bq ← cm_map cm !! q;
      if negb (nChainTx bq =? 0) then link_loop (S (length (unlinked cm))) cm [pindexNew]
      else
        ok ← Chain.IsValid bq BLOCK_VALID_TREE;
        Some (if (ok : bool) then with_unlinked (unlinked cm ++ [(q, pindexNew)]) cm else cm)
  end.

(** ** The most-work chain *)

Inductive PathCheck := PathUsable | PathStops (pindexTest : ptr).

(** The walk from a candidate to the active chain: where it stops, if it does. *)
Fixpoint check_path (fuel : nat) (m : BlockMap) (c : CChain) (pindexTest : option ptr) : option PathCheck :=
  match pindexTest with
  | None => Some PathUsable
  | Some p =>
      b ← m !! p;
      if chain_Contains m c p then Some PathUsable
      else if (nChainTx b =? 0) && negb (nHeight b =? 0) then None
      else if failed b || negb (have_data b) then Some (PathStops p)
      else match fuel with O => None | S fuel => check_path fuel m c (pprev b) end
  end.

(** The inner loop: the entries from [pindexFailed] down to above [pindexTest] stop being candidates. *)
Fixpoint discard_path (fuel : nat) (fFailedChain : bool) (pindexTest : ptr) (pindexFailed : option ptr) (cm : ChainMan) : option ChainMan :=
  p ← pindexFailed;
  if p =? pindexTest then Some cm
  else
    match fuel with
    | O => None
    | S fuel =>
        b ← cm_map cm !! p;
        cm ← (if fFailedChain then update_entry p (set_status (Z.lor (nStatus b) BLOCK_FAILED_CHILD)) cm
              else q ← pprev b; Some (with_unlinked (unlinked cm ++ [(q, p)]) cm));
        discard_path fuel fFailedChain pindexTest (pprev b) (with_candidates (candidates cm ∖ {[p]}) cm)
    end.

(** [pindexBestInvalid == NULL || pindex->nChainWork > pindexBestInvalid->nChainWork] *)
Definition more_work_than_invalid (cm : ChainMan) (p : ptr) : option bool :=
  match pindexBestInvalid cm with
  | None => Some true
  | Some q => b ← cm_map cm !! p; bq ← cm_map cm !! q; Some (bn_gt (nChainWork b) (nChainWork bq))
  end.

Fixpoint find_most_work (fuel : nat) (cm : ChainMan) : option (option ptr * ChainMan) :=
  match fuel with
  | O => None
  | S fuel =>
      match last (in_order (cm_map cm) (candidates cm)) with
      | None => Some (None, cm)
      | Some pindexNew =>
          b ← cm_map cm !! pindexNew;
          path ← check_path (S (Z.to_nat (nHeight b))) (cm_map cm) (chainActive cm) (Some pindexNew);
          match path with
          | PathUsable => Some (Some pindexNew, cm)
          | PathStops pindexTest =>
              bt ← cm_map cm !! pindexTest;
              more ← more_work_than_invalid cm pindexNew;
              let cm := if failed bt && (more : bool) then with_invalid (Some pindexNew) cm else cm in
              cm ← discard_path (S (Z.to_nat (nHeight b))) (failed bt) pindexTest (Some pindexNew) cm;
              find_most_work fuel (with_candidates (candidates cm ∖ {[pindexTest]}) cm)
          end
      end
  end.

Definition FindMostWorkChain (cm : ChainMan) : option (option ptr * ChainMan) :=
  find_most_work (S (size (candidates cm))) cm.

(** [erase] from the front while the entry is worse than the tip. *)
Fixpoint drop_worse (m : BlockMap) (tip : ptr) (l : list ptr) (s : gset ptr) : gset ptr :=
  match l with
  | [] => s
  | p :: l => if worse m p tip then drop_worse m tip l (s ∖ {[p]}) else s
  end.

Definition PruneBlockIndexCandidates (cm : ChainMan) : option ChainMan :=
  tip ← chain_Tip (chainActive cm);
  let s := drop_worse (cm_map cm) tip (in_order (cm_map cm) (candidates cm)) (candidates cm) in
  if decide (s = ∅) then None else Some (with_candidates s cm).

(** ** Blocks that turn out to be invalid *)

Definition InvalidChainFound (cm : ChainMan) (pindexNew : ptr) : option ChainMan :=
  more ← more_work_than_invalid cm pindexNew;
  _ ← chain_Tip (chainActive cm);
  Some (if (more : bool) then with_invalid (Some pindexNew) cm else cm).

Definition InvalidBlockFound (cm : ChainMan) (pindex : ptr) (corruptionPossible : bool) : option ChainMan :=
  if negb corruptionPossible then
    b ← cm_map cm !! pindex;
    cm ← update_entry pindex (set_status (Z.lor (nStatus b) BLOCK_FAILED_VALID)) cm;
    let cm := mark_dirty pindex cm in
    InvalidChainFound (with_candidates (candidates cm ∖ {[pindex]}) cm) pindex
  else Some cm.

(** ** Connecting and disconnecting *)

Inductive ConnectResult := Connected | Refused (corruptionPossible : bool) | SystemError.

End Order.

(** What connecting a block to, and disconnecting the tip from, the coins and files in state [T] can
    do: the outcome of reading the block, [ConnectBlock] or [DisconnectBlock], and flushing; the periodic
    [FlushStateToDisk]; and the option [-stopatblock]. *)
Class ChainBackend (T : Type) := {
  be_connect : ptr -> T -> ConnectResult * T;
  be_disconnect : ptr -> T -> bool * T;
  be_flush : T -> bool * T;
  stopatblocknumber : Z;
}.

Section Activate.
Context {T : Type} `{ChainBackend T}.
Variable addr : ptr -> Z.

Definition UpdateTip (cm : ChainMan) (pindexNew : option ptr) : option ChainMan :=
  c ← SetTip (cm_map cm) (chainActive cm) pindexNew; Some (with_chain c cm).

Definition DisconnectTip (cm : ChainMan) (t : T) : option (bool * ChainMan * T) :=
  pindexDelete ← chain_Tip (chainActive cm);
  let '(ok, t) := be_disconnect pindexDelete t in
  if negb ok then Some (false, cm, t)
  else
    b ← cm_map cm !! pindexDelete;
    cm ← UpdateTip cm (pprev b);
    Some (true, cm, t).

Definition ConnectTip (cm : ChainMan) (t : T) (pindexNew : ptr) : option (ConnectResult * ChainMan * T) :=
  b ← cm_map cm !! pindexNew;
  if (stopatblocknumber >? 0) && (nHeight b >=? stopatblocknumber) then Some (SystemError, cm, t)
  else if negb (bool_decide (pprev b = chain_Tip (chainActive cm))) then None
  else
    let '(r, t) := be_connect pindexNew t in
    match r with
    | Connected => cm ← UpdateTip cm (Some pindexNew); Some (Connected, cm, t)
    | Refused corruption => cm ← InvalidBlockFound cm pindexNew corruption; Some (r, cm, t)
    | SystemError => Some (r, cm, t)
    end.

Fixpoint disconnect_to (fuel : nat) (pindexFork : option ptr) (cm : ChainMan) (t : T) : option (bool * ChainMan * T) :=
  match chain_Tip (chainActive cm) with
  | None => Some (true, cm, t)
  | Some tip =>
      if bool_decide (Some tip = pindexFork) then Some (true, cm, t)
      else
        match fuel with
        | O => None
        | S fuel =>
            '(ok, cm, t) ← DisconnectTip cm t;
            if negb ok then Some (false, cm, t) else disconnect_to fuel pindexFork cm t
        end
  end.

(** [vpindexToConnect], the highest block first. *)
Fixpoint to_connect (fuel : nat) (m : BlockMap) (pindexIter : option ptr) (height : Z) : option (list ptr) :=
  match pindexIter with
  | None => Some []
  | Some p =>
      b ← m !! p;
      if nHeight b =? height then Some []
      else match fuel with
           | O => None
           | S fuel => l ← to_connect fuel m (pprev b) height; Some (p :: l)
           end
  end.

Inductive BatchResult := BatchGoOn | BatchStop | BatchInvalid | BatchError.

(** The loop over the reversed [vpindexToConnect]; [lowest] is its last element. *)
Fixpoint connect_batch (l : list ptr) (lowest : ptr) (pindexOldTip : option ptr) (cm : ChainMan) (t : T)
    : option (BatchResult * ChainMan * T) :=
  match l with
  | [] => Some (BatchGoOn, cm, t)
  | pindexConnect :: l =>
      '(r, cm, t) ← ConnectTip cm t pindexConnect;
      match r with
      | Connected =>
          cm ← PruneBlockIndexCandidates addr cm;
          better ← match pindexOldTip with
                   | None => Some true
                   | Some old =>
                       tip ← chain_Tip (chainActive cm);
                       bt ← cm_map cm !! tip; bo ← cm_map cm !! old;
                       Some (bn_gt (nChainWork bt) (nChainWork bo))
                   end;
          if (better : bool) then Some (BatchStop, cm, t) else connect_batch l lowest pindexOldTip cm t
      | Refused corruption =>
          cm ← (if negb corruption then InvalidChainFound cm lowest else Some cm);
          Some (BatchInvalid, cm, t)
      | SystemError => Some (BatchError, cm, t)
      end
  end.

Fixpoint connect_blocks (fuel : nat) (pindexMostWork : ptr) (height mostWorkHeight : Z) (pindexOldTip : option ptr) (cm : ChainMan) (t : T)
    : option (BatchResult * ChainMan * T) :=
  if height =? mostWorkHeight then Some (BatchGoOn, cm, t)
  else
    match fuel with
    | O => None
    | S fuel =>
        let nTargetHeight := Z.min (height + 32) mostWorkHeight in
        pindexIter ← GetAncestor (cm_map cm) pindexMostWork nTargetHeight;
        vpindexToConnect ← to_connect (Z.to_nat (nTargetHeight - height)) (cm_map cm) pindexIter height;
        '(r, cm, t) ← connect_batch (reverse vpindexToConnect) (List.last vpindexToConnect 0) pindexOldTip cm t;
        match r with
        | BatchGoOn => connect_blocks fuel pindexMostWork nTargetHeight mostWorkHeight pindexOldTip cm t
        | _ => Some (r, cm, t)
        end
    end.

(** The result, [fInvalidFound] and the new state. *)
Definition ActivateBestChainStep (cm : ChainMan) (t : T) (pindexMostWork : ptr) : option (bool * bool * ChainMan * T) :=
  let pindexOldTip := chain_Tip (chainActive cm) in
  pindexFork ← FindFork (cm_map cm) (chainActive cm) (Some pindexMostWork);
  '(ok, cm, t) ← disconnect_to (length (chainActive cm)) pindexFork cm t;
  if negb ok then Some (false, false, cm, t)
  else
    height ← match pindexFork with Some f => b ← cm_map cm !! f; Some (nHeight b) | None => Some (-1) end;
    b ← cm_map cm !! pindexMostWork;
    '(r, cm, t) ← connect_blocks (Z.to_nat (nHeight b - height)) pindexMostWork height (nHeight b) pindexOldTip cm t;
    match r with
    | BatchError => Some (false, false, cm, t)
    | BatchInvalid => Some (true, true, cm, t)
    | _ => Some (true, false, cm, t)
    end.

Inductive ActivateResult := ActivateReturn (ok : bool) | ActivateEnd | ActivateAgain (pindexMostWork : option ptr).

(** One turn of the loop of [ActivateBestChain], without a shutdown. *)
Definition activate_once (pindexMostWork : option ptr) (cm : ChainMan) (t : T) : option (ActivateResult * ChainMan * T) :=
  '(pindexMostWork, cm) ← match pindexMostWork with
                          | Some p => Some (Some p, cm)
                          | None => FindMostWorkChain addr cm
                          end;
  match pindexMostWork with
  | None => Some (ActivateReturn true, cm, t)
  | Some p =>
      if bool_decide (Some p = chain_Tip (chainActive cm)) then Some (ActivateReturn true, cm, t)
      else
        '(ok, fInvalidFound, cm, t) ← ActivateBestChainStep cm t p;
        if negb (ok : bool) then Some (ActivateReturn false, cm, t)
        else
          let pindexMostWork := if (fInvalidFound : bool) then None else Some p in
          if bool_decide (chain_Tip (chainActive cm) = pindexMostWork) then Some (ActivateEnd, cm, t)
          else Some (ActivateAgain pindexMostWork, cm, t)
  end.

Fixpoint activate_loop (fuel : nat) (pindexMostWork : option ptr) (cm : ChainMan) (t : T) : option (bool * ChainMan * T) :=
  match fuel with
  | O => None
  | S fuel =>
      '(r, cm, t) ← activate_once pindexMostWork cm t;
      match r with
      | ActivateReturn ok => Some (ok, cm, t)
      | ActivateEnd => let '(ok, t) := be_flush t in Some (ok, cm, t)
      | ActivateAgain p => activate_loop fuel p cm t
      end
  end.

Definition ActivateBestChain (fuel : nat) (cm : ChainMan) (t : T) : option (bool * ChainMan * T) :=
  activate_loop fuel None cm t.

(** ** Invalidating and reconsidering blocks *)

(** The walk of [InvalidateBlock] down the active chain. *)
Fixpoint invalidate_loop (fuel : nat) (pindex : ptr) (cm : ChainMan) (t : T) : option (bool * ChainMan * T) :=
  if negb (chain_Contains (cm_map cm) (chainActive cm) pindex) then Some (true, cm, t)
  else
    match fuel with
    | O => None
    | S fuel =>
        pindexWalk ← chain_Tip (chainActive cm);
        b ← cm_map cm !! pindexWalk;
        cm ← update_entry pindexWalk (set_status (Z.lor (nStatus b) BLOCK_FAILED_CHILD)) cm;
        let cm := mark_dirty pindexWalk cm in
        let cm := with_candidates (candidates cm ∖ {[pindexWalk]}) cm in
        '(ok, cm, t) ← DisconnectTip cm t;
        if negb ok then Some (false, cm, t)
        else
          let cm := if bool_decide (Some pindexWalk = pindexBestHeader (cm_index cm))
                    then set_best_header (pprev b) (with_invalid (Some pindexWalk) cm) else cm in
          invalidate_loop fuel pindex cm t
    end.

(** [IsValid(BLOCK_VALID_TRANSACTIONS) && nChainTx] *)
Definition connectable (b : CBlockIndex) : option bool :=
  ok ← Chain.IsValid b BLOCK_VALID_TRANSACTIONS; Some ((ok : bool) && negb (nChainTx b =? 0)).

(** The entries that become candidates again; the order of the iteration does not matter. *)
Fixpoint readd_candidates (tip : ptr) (l : list (ptr * CBlockIndex)) (cm : ChainMan) : option ChainMan :=
  match l with
  | [] => Some cm
  | (p, b) :: l =>
      ok ← connectable b;
      readd_candidates tip l
        (if ok && negb (worse addr (cm_map cm) p tip) then with_candidates ({[p]} ∪ candidates cm) cm else cm)
  end.

Definition InvalidateBlock (cm : ChainMan) (t : T) (pindex : ptr) : option (bool * ChainMan * T) :=
  b ← cm_map cm !! pindex;
  cm ← update_entry pindex (set_status (Z.lor (nStatus b) BLOCK_FAILED_VALID)) cm;
  let cm := mark_dirty pindex cm in
  let cm := with_candidates (candidates cm ∖ {[pindex]}) cm in
  let cm := if bool_decide (Some pindex = pindexBestHeader (cm_index cm))
            then set_best_header (pprev b) (with_invalid (Some pindex) cm) else cm in
  '(ok, cm, t) ← invalidate_loop (length (chainActive cm)) pindex cm t;
  if negb ok then Some (false, cm, t)
  else
    tip ← chain_Tip (chainActive cm);
    cm ← readd_candidates tip (map_to_list (cm_map cm)) cm;
    cm ← InvalidChainFound cm pindex;
    Some (true, cm, t).

(** One entry of the loop of [ResetBlockFailureFlags] over the index. *)
Definition reset_entry (pindex : ptr) (height : Z) (p : ptr) (cm : ChainMan) : option ChainMan :=
  b ← cm_map cm !! p;
  ok ← Chain.IsValid b BLOCK_VALID_TRANSACTIONS;
  a ← GetAncestor (cm_map cm) p height;
  if negb (ok : bool) && bool_decide (a = Some pindex) then
    let b := set_status (Z.land (nStatus b) (Z.lnot BLOCK_FAILED_MASK)) b in
    cm ← update_entry p (fun _ => b) cm;
    let cm := mark_dirty p cm in
    ok ← connectable b;
    tip_worse ← (if (ok : bool) then tip ← chain_Tip (chainActive cm); Some (worse addr (cm_map cm) tip p) else Some false);
    let cm := if (tip_worse : bool) then with_candidates ({[p]} ∪ candidates cm) cm else cm in
    Some (if bool_decide (Some p = pindexBestInvalid cm) then with_invalid None cm else cm)
  else Some cm.

Fixpoint reset_entries (pindex : ptr) (height : Z) (l : list ptr) (cm : ChainMan) : option ChainMan :=
  match l with
  | [] => Some cm
  | p :: l => cm ← reset_entry pindex height p cm; reset_entries pindex height l cm
  end.

Fixpoint reset_ancestors (fuel : nat) (pindex : option ptr) (cm : ChainMan) : option ChainMan :=
  match pindex with
  | None => Some cm
  | Some p =>
      b ← cm_map cm !! p;
      cm ← (if failed b then cm ← update_entry p (set_status (Z.land (nStatus b) (Z.lnot BLOCK_FAILED_MASK))) cm; Some (mark_dirty p cm)
            else Some cm);
      match fuel with O => None | S fuel => reset_ancestors fuel (pprev b) cm end
  end.

Definition ResetBlockFailureFlags (cm : ChainMan) (pindex : ptr) : option ChainMan :=
  b ← cm_map cm !! pindex;
  cm ← reset_entries pindex (nHeight b) (map fst (map_to_list (cm_map cm))) cm;
  reset_ancestors (S (Z.to_nat (nHeight b))) (Some pindex) cm.

End Activate.

(** ** Lemmas: the order *)

Section OrderLemmas.
Variable addr : ptr -> Z.

(** The order is total where the works are proper numbers and addresses differ. *)
Record ordered (m : BlockMap) : Prop := {
  or_work : forall p b, m !! p = Some b -> wf (nChainWork b);
  or_addr : forall p q, is_Some (m !! p) -> is_Some (m !! q) -> addr p = addr q -> p = q;
}.

Definition lex_worse (aa : Z) (a : CBlockIndex) (ab : Z) (b : CBlockIndex) : Prop :=
  val (nChainWork a) < val (nChainWork b)
  \/ val (nChainWork a) = val (nChainWork b)
     /\ (nSequenceId b < nSequenceId a \/ nSequenceId a = nSequenceId b /\ ab < aa).

Lemma worse_iff m p q a b :
  ordered m -> m !! p = Some a -> m !! q = Some b -> worse addr m p q = true <-> lex_worse (addr p) a (addr q) b.
Proof.
  intros O Hp Hq. unfold worse, worse_entry, lex_worse. rewrite Hp, Hq.
  rewrite gt_val, lt_val by (by eapply or_work). rewrite !Z.gtb_ltb.
  repeat case_if; split; intros; (done || lia).
Qed.

Lemma worse_trans m p q r :
  ordered m -> worse addr m p q = true -> worse addr m q r = true -> worse addr m p r = true.
Proof.
  intros O H1 H2.
  assert (exists a b c, m !! p = Some a /\ m !! q = Some b /\ m !! r = Some c) as (a & b & c & Ha & Hb & Hc).
  { unfold worse in H1, H2. destruct (m !! p), (m !! q), (m !! r); try done. eauto 10. }
  rewrite (worse_iff m p q a b) in H1 by done. rewrite (worse_iff m q r b c) in H2 by done.
  rewrite (worse_iff m p r a c) by done. unfold lex_worse in *. lia.
Qed.

Lemma worse_total m p q :
  ordered m -> is_Some (m !! p) -> is_Some (m !! q) -> p <> q -> worse addr m p q = true \/ worse addr m q p = true.
Proof.
  intros O [a Ha] [b Hb] Hne. rewrite (worse_iff m p q a b), (worse_iff m q p b a) by done.
  assert (addr p <> addr q) by (intros E; apply Hne; eapply or_addr; eauto). unfold lex_worse. lia.
Qed.

Lemma worse_asym m p q : ordered m -> worse addr m p q = true -> worse addr m q p = false.
Proof.
  intros O H1. apply not_true_iff_false. intros H2. pose proof (worse_trans m p q p O H1 H2) as H.
  unfold worse in H. destruct (m !! p) as [a|] eqn:Ha; [|done].
  assert (worse addr m p p = true) as Hw by (unfold worse; by rewrite Ha).
  rewrite (worse_iff m p p a a) in Hw by done. unfold lex_worse in Hw. lia.
Qed.

Lemma insert_sorted_perm m p l : insert_sorted addr m p l ≡ₚ p :: l.
Proof.
  induction l as [|q l IH]; [done|]. cbn [insert_sorted]. case_if; [done|]. rewrite IH. constructor.
Qed.

Lemma in_order_perm m s : in_order addr m s ≡ₚ elements s.
Proof. unfold in_order. induction (elements s) as [|p l IH]; [done|]. cbn [foldr]. by rewrite insert_sorted_perm, IH. Qed.

Lemma elem_of_in_order m s p : p ∈ in_order addr m s <-> p ∈ s.
Proof. by rewrite in_order_perm, elem_of_elements. Qed.

Abbreviation wsorted m := (StronglySorted (fun p q => worse addr m p q = true)) (only parsing).

Lemma insert_sorted_sorted m p l :
  ordered m -> is_Some (m !! p) -> Forall (fun q => is_Some (m !! q)) l -> p ∉ l -> wsorted m l -> wsorted m (insert_sorted addr m p l).
Proof.
  intros O Hp. induction l as [|q l IH]; intros Hl Hnin Hs; cbn [insert_sorted]; [by repeat constructor|].
  apply Forall_cons in Hl as [Hq Hl]. apply not_elem_of_cons in Hnin as [Hne Hnin]. apply StronglySorted_inv in Hs as [Hs Hall].
  case_if.
  - constructor; [by constructor|]. constructor; [done|]. eapply Forall_impl; [exact Hall|]. intros r Hr. by eapply worse_trans.
  - constructor; [by apply IH|]. rewrite insert_sorted_perm. constructor; [|done].
    destruct (worse_total m p q O Hp Hq Hne); [congruence|done].
Qed.

Lemma in_order_sorted m s : ordered m -> (forall p, p ∈ s -> is_Some (m !! p)) -> wsorted m (in_order addr m s).
Proof.
  intros O Hs. assert (Forall (fun p => is_Some (m !! p)) (elements s)) as Hall.
  { apply Forall_forall. intros p Hp. by apply Hs, elem_of_elements. }
  pose proof (NoDup_elements s) as Hnd. unfold in_order. induction (elements s) as [|p l IH]; [constructor|].
  apply Forall_cons in Hall as [Hp Hall]. apply NoDup_cons in Hnd as [Hnin Hnd]. cbn [foldr].
  assert (foldr (insert_sorted addr m) [] l ≡ₚ l) as Hperm.
  { clear. induction l as [|q l IH]; [done|]. cbn [foldr]. by rewrite insert_sorted_perm, IH. }
  apply insert_sorted_sorted; [done|done|by rewrite Hperm|by rewrite Hperm|by apply IH].
Qed.

Lemma last_sorted {A} (R : A -> A -> Prop) l x : StronglySorted R l -> last l = Some x -> forall y, y ∈ l -> y = x \/ R y x.
Proof.
  induction 1 as [|a l Hs IH Hall]; [done|]. intros Hl y Hy. destruct l as [|b l].
  - injection Hl as ->. apply list_elem_of_singleton in Hy. by left.
  - cbn [last] in Hl. apply elem_of_cons in Hy as [->|Hy]; [|by apply IH]. right.
    apply (proj1 (Forall_forall _ _) Hall). apply last_Some_elem_of. exact Hl.
Qed.

(** The last candidate is better than all others. *)
Lemma last_in_order m s p :
  ordered m -> (forall q, q ∈ s -> is_Some (m !! q)) -> last (in_order addr m s) = Some p ->
  p ∈ s /\ forall q, q ∈ s -> q = p \/ worse addr m q p = true.
Proof.
  intros O Hs Hl. split.
  - rewrite <- (elem_of_in_order m). by apply last_Some_elem_of.
  - intros q Hq. rewrite <- (elem_of_in_order m) in Hq. by eapply (last_sorted _ _ _ (in_order_sorted m s O Hs)).
Qed.

Lemma last_in_order_None m s : last (in_order addr m s) = None -> s = ∅.
Proof.
  intros Hl%last_None. apply set_eq. intros p. rewrite <- (elem_of_in_order m), Hl. set_solver.
Qed.

End OrderLemmas.

(** ** Lemmas: indexes that agree on the links *)

Definition link_of (b : CBlockIndex) : option ptr * option ptr * Z := (pprev b, pskip b, nHeight b).
Definition same_links (m m' : BlockMap) : Prop := link_of <$> m = link_of <$> m'.

(** Two indexes with the same image under a function of the entries. *)
Lemma same_image_lookup {A} (f : CBlockIndex -> A) (m m' : BlockMap) p b :
  f <$> m = f <$> m' -> m !! p = Some b -> exists b', m' !! p = Some b' /\ f b' = f b.
Proof.
  intros E Hp. assert ((f <$> m) !! p = Some (f b)) as Hs by (by rewrite lookup_fmap, Hp).
  rewrite E, lookup_fmap in Hs. apply fmap_Some in Hs as (b' & Hb' & Eb). eauto.
Qed.

Lemma same_image_None {A} (f : CBlockIndex -> A) (m m' : BlockMap) p : f <$> m = f <$> m' -> m !! p = None -> m' !! p = None.
Proof.
  intros E Hp. destruct (m' !! p) as [b|] eqn:Hp'; [|done].
  destruct (same_image_lookup f m' m p b (eq_sym E) Hp') as (? & ? & _). congruence.
Qed.

Lemma link_fields b b' : link_of b' = link_of b -> pprev b' = pprev b /\ pskip b' = pskip b /\ nHeight b' = nHeight b.
Proof. unfold link_of. intros E. injection E. auto. Qed.

Lemma same_links_prev_iter m m' p n : same_links m m' -> prev_iter m' p n = prev_iter m p n.
Proof.
  intros E. revert p. induction n as [|n IH]; intros p; [done|]. cbn [prev_iter].
  destruct (m !! p) as [b|] eqn:Hp; [|by rewrite (same_image_None _ m m' p E Hp)].
  destruct (same_image_lookup _ m m' p b E Hp) as (b' & -> & Hk). apply link_fields in Hk as (-> & _). destruct (pprev b); [apply IH|done].
Qed.

Lemma same_links_ancestor m m' p h : same_links m m' -> ancestor m' p h = ancestor m p h.
Proof.
  intros E. unfold ancestor. destruct (m !! p) as [b|] eqn:Hp; [|by rewrite (same_image_None _ m m' p E Hp)].
  destruct (same_image_lookup _ m m' p b E Hp) as (b' & -> & Hk). apply link_fields in Hk as (_ & _ & ->).
  case_if; [|done]. by apply same_links_prev_iter.
Qed.

Lemma same_links_wf_index m m' : same_links m m' -> wf_index m -> wf_index m'.
Proof.
  intros E W p b' Hp. destruct (same_image_lookup _ m' m p b' (eq_sym E) Hp) as (b & Hb & Hk).
  apply link_fields in Hk as (E1 & E2 & E3). destruct (W p b Hb) as [R P S H]. split; rewrite <- ?E1, <- ?E2, <- ?E3; try done.
  - intros q Eq. destruct (P q Eq) as (bq & Hq & Hh). destruct (same_image_lookup _ m m' q bq E Hq) as (bq' & Hq' & Hk').
    exists bq'. split; [done|]. apply link_fields in Hk' as (_ & _ & ->). done.
  - intros q Eq. rewrite (same_links_ancestor m m' p _ E). by apply S.
Qed.

Lemma same_image_update {A} (f : CBlockIndex -> A) (m : BlockMap) p b b' : m !! p = Some b -> f b' = f b -> f <$> (<[p := b']> m) = f <$> m.
Proof. intros Hp E. rewrite fmap_insert, E. apply insert_id. by rewrite lookup_fmap, Hp. Qed.

(** ** Lemmas: indexes that differ in the status of their entries *)

Definition strip (m : BlockMap) : BlockMap := set_status 0 <$> m.

Lemma strip_lookup m m' p b : strip m = strip m' -> m !! p = Some b -> exists b', m' !! p = Some b' /\ set_status 0 b' = set_status 0 b.
Proof. apply same_image_lookup. Qed.

Lemma strip_lookup_None m m' p : strip m = strip m' -> m !! p = None -> m' !! p = None.
Proof. apply same_image_None. Qed.

Lemma strip_same b b' : set_status 0 b' = set_status 0 b ->
  pprev b' = pprev b /\ nHeight b' = nHeight b /\ nChainWork b' = nChainWork b /\ nChainTx b' = nChainTx b
  /\ nSequenceId b' = nSequenceId b /\ nTx b' = nTx b.
Proof. destruct b, b'. cbv [set_status]. cbn. intros E. injection E. intros. by subst. Qed.

Lemma strip_update m p b f : m !! p = Some b -> set_status 0 (f b) = set_status 0 b -> strip (<[p := f b]> m) = strip m.
Proof.
  intros Hp E. unfold strip. rewrite fmap_insert, E. apply insert_id. by rewrite lookup_fmap, Hp.
Qed.

Lemma strip_links m m' : strip m = strip m' -> same_links m m'.
Proof.
  intros E. unfold same_links. assert (forall m0 : BlockMap, link_of <$> m0 = link_of <$> strip m0) as Hs.
  { intros m0. unfold strip. by rewrite <- map_fmap_compose. }
  by rewrite (Hs m), (Hs m'), E.
Qed.

Lemma strip_prev_iter m m' p n : strip m = strip m' -> prev_iter m' p n = prev_iter m p n.
Proof. intros E. by apply same_links_prev_iter, strip_links. Qed.

Lemma strip_Contains m m' c p : strip m = strip m' -> chain_Contains m' c p = chain_Contains m c p.
Proof.
  intros E. unfold chain_Contains. destruct (m !! p) as [b|] eqn:Hp.
  - destruct (strip_lookup m m' p b E Hp) as (b' & -> & Hs). by apply strip_same in Hs as (_ & -> & _).
  - by rewrite (strip_lookup_None m m' p E Hp).
Qed.

Lemma strip_worse addr m m' p q : strip m = strip m' -> worse addr m' p q = worse addr m p q.
Proof.
  intros E. unfold worse. destruct (m !! p) as [a|] eqn:Hp; [|by rewrite (strip_lookup_None m m' p E Hp)].
  destruct (strip_lookup m m' p a E Hp) as (a' & -> & Ha). apply strip_same in Ha as (_ & _ & Ha1 & _ & Ha2 & _).
  destruct (m !! q) as [b|] eqn:Hq; [|by rewrite (strip_lookup_None m m' q E Hq)].
  destruct (strip_lookup m m' q b E Hq) as (b' & -> & Hb). apply strip_same in Hb as (_ & _ & Hb1 & _ & Hb2 & _).
  unfold worse_entry. by rewrite Ha1, Ha2, Hb1, Hb2.
Qed.

Lemma strip_wf_index m m' : strip m = strip m' -> wf_index m -> wf_index m'.
Proof. intros E. by apply same_links_wf_index, strip_links. Qed.

(** ** Lemmas: the path from an entry to the active chain *)

(** The entry [q] is reached from [p] by parent links over entries outside the active chain. *)
Definition on_path (m : BlockMap) (c : CChain) (p q : ptr) : Prop :=
  exists n, prev_iter m p n = Some q /\ forall k r, (k <= n)%nat -> prev_iter m p k = Some r -> chain_Contains m c r = false.

Definition good (m : BlockMap) (q : ptr) : Prop := exists b, m !! q = Some b /\ failed b = false /\ have_data b = true.

(** All blocks of the path are there, and none is known to be invalid. *)
Definition usable (m : BlockMap) (c : CChain) (p : ptr) : Prop := forall q, on_path m c p q -> good m q.

Lemma on_path_self m c p : chain_Contains m c p = false -> on_path m c p p.
Proof. intros Hc. exists 0%nat. split; [done|]. intros k r Hk. replace k with 0%nat by lia. by intros [= <-]. Qed.

Lemma on_path_step m c p b q r :
  m !! p = Some b -> pprev b = Some q -> chain_Contains m c p = false -> on_path m c q r -> on_path m c p r.
Proof.
  intros Hp Eq Hc (n & Hn & Hk). exists (S n). cbn [prev_iter]. rewrite Hp, Eq. split; [done|].
  intros [|k] s Hle; cbn [prev_iter]; [by intros [= <-]|]. rewrite Hp, Eq. apply Hk. lia.
Qed.

Lemma on_path_inv m c p b r :
  m !! p = Some b -> on_path m c p r ->
  chain_Contains m c p = false /\ (r = p \/ exists q, pprev b = Some q /\ on_path m c q r).
Proof.
  intros Hp (n & Hn & Hk). split; [by apply (Hk 0%nat p); [lia|]|]. destruct n as [|n]; cbn [prev_iter] in Hn; [injection Hn; auto|].
  rewrite Hp in Hn. destruct (pprev b) as [q|] eqn:Eq; [|done]. right. exists q. split; [done|]. exists n. split; [done|].
  intros k s Hle Hs. apply (Hk (S k)); [lia|]. cbn [prev_iter]. by rewrite Hp, Eq.
Qed.

Lemma on_path_trans m c p q r : on_path m c p q -> on_path m c q r -> on_path m c p r.
Proof.
  intros (n & Hn & Hk) H. revert p Hn Hk. induction n as [|n IH]; intros p Hn Hk; cbn [prev_iter] in Hn; [by injection Hn as ->|].
  destruct (m !! p) as [b|] eqn:Hp; [|done]. destruct (pprev b) as [s|] eqn:Es; [|done].
  apply (on_path_step m c p b s); [done|done|by apply (Hk 0%nat); [lia|]|]. apply IH; [done|].
  intros k t Hle Ht. apply (Hk (S k)); [lia|]. cbn [prev_iter]. by rewrite Hp, Es.
Qed.

Lemma strip_on_path m m' c p q : strip m = strip m' -> on_path m' c p q <-> on_path m c p q.
Proof.
  intros E. unfold on_path. split; intros (n & Hn & Hk); exists n.
  - rewrite (strip_prev_iter m m' _ _ E) in Hn. split; [done|]. intros k r Hle Hr. rewrite <- (strip_Contains m m' c r E).
    apply (Hk k); [done|]. by rewrite (strip_prev_iter m m').
  - rewrite (strip_prev_iter m m' _ _ E). split; [done|]. intros k r Hle Hr. rewrite (strip_Contains m m' c r E).
    apply (Hk k); [done|]. by rewrite <- (strip_prev_iter m m').
Qed.

(** What the candidates and the fields they are judged by satisfy. *)
Record man_ok (addr : ptr -> Z) (cm : ChainMan) : Prop := {
  mo_index : wf_index (cm_map cm);
  mo_order : ordered addr (cm_map cm);
  mo_cands : forall p, p ∈ candidates cm -> is_Some (cm_map cm !! p);
  mo_linked : forall p b, p ∈ candidates cm -> cm_map cm !! p = Some b -> nChainTx b <> 0 \/ nHeight b = 0;
  mo_closed : forall p b q bq, cm_map cm !! p = Some b -> nChainTx b <> 0 -> pprev b = Some q -> cm_map cm !! q = Some bq -> nChainTx bq <> 0;
  mo_invalid : forall q, pindexBestInvalid cm = Some q -> is_Some (cm_map cm !! q);
}.

Lemma check_path_ok m c fuel p b :
  wf_index m -> (forall p b q bq, m !! p = Some b -> nChainTx b <> 0 -> pprev b = Some q -> m !! q = Some bq -> nChainTx bq <> 0) ->
  m !! p = Some b -> (Z.to_nat (nHeight b) < fuel)%nat -> nChainTx b <> 0 \/ nHeight b = 0 ->
  exists r, check_path fuel m c (Some p) = Some r /\
  match r with
  | PathUsable => usable m c p
  | PathStops t => on_path m c p t /\ exists bt, m !! t = Some bt /\ failed bt || negb (have_data bt) = true
  end.
Proof.
  intros W Hcl. revert p b. induction fuel as [|fuel IH]; intros p b Hp Hf Htx; [lia|]. cbn [check_path]. rewrite Hp. cbn [mbind option_bind].
  destruct (chain_Contains m c p) eqn:Ec.
  { exists PathUsable. split; [done|]. intros q Hq. by destruct (on_path_inv m c p b q Hp Hq) as [? _]; congruence. }
  assert ((nChainTx b =? 0) && negb (nHeight b =? 0) = false) as ->.
  { apply andb_false_iff. destruct Htx as [Htx|Htx]; [left; by apply Z.eqb_neq|right; by rewrite Htx]. }
  destruct (failed b || negb (have_data b)) eqn:Ebad.
  { exists (PathStops p). split; [done|]. split; [by apply on_path_self|]. by exists b. }
  assert (good m p) as Hgood by (exists b; zbool; done).
  destruct (pprev b) as [q|] eqn:Eq.
  - destruct (wb_prev _ _ _ (W p b Hp) q Eq) as (bq & Hq & Hh). pose proof (wb_height _ _ _ (W q bq Hq)).
    assert (nChainTx b <> 0) as Hb by (destruct Htx; [done|lia]).
    destruct (IH q bq Hq ltac:(lia) (or_introl (Hcl p b q bq Hp Hb Eq Hq))) as (r & -> & Hr). exists r. split; [done|].
    destruct r as [|t].
    + intros s Hs. destruct (on_path_inv m c p b s Hp Hs) as (_ & [->|(q' & Eq' & Hs')]); [done|].
      rewrite Eq in Eq'. injection Eq' as <-. by apply Hr.
    + destruct Hr as [Hr Ht]. split; [by eapply on_path_step|done].
  - exists PathUsable. split; [by destruct fuel|]. intros s Hs.
    destruct (on_path_inv m c p b s Hp Hs) as (_ & [->|(q' & Eq' & _)]); [done|congruence].
Qed.

Lemma failed_or s flag b : flag = BLOCK_FAILED_VALID \/ flag = BLOCK_FAILED_CHILD -> failed (set_status (Z.lor s flag) b) = true.
Proof.
  intros Hf. unfold failed. cbn [nStatus set_status]. apply negb_true_iff, Z.eqb_neq. intros E.
  assert (exists i, 0 <= i /\ Z.testbit flag i = true /\ Z.testbit BLOCK_FAILED_MASK i = true) as (i & Hi & H1 & H2).
  { destruct Hf as [-> | ->]; [exists 5|exists 6]; split_and!; (lia || reflexivity). }
  apply (f_equal (fun z => Z.testbit z i)) in E. rewrite Z.land_spec, Z.lor_spec, H1, H2, orb_true_r, Z.bits_0 in E. done.
Qed.

Lemma update_entry_ok p f cm b :
  cm_map cm !! p = Some b ->
  exists cm', update_entry p f cm = Some cm' /\ cm_map cm' = <[p := f b]> (cm_map cm)
  /\ chainActive cm' = chainActive cm /\ candidates cm' = candidates cm /\ unlinked cm' = unlinked cm
  /\ pindexBestInvalid cm' = pindexBestInvalid cm /\ nBlockSequenceId cm' = nBlockSequenceId cm.
Proof. intros Hp. unfold update_entry. rewrite Hp. cbn [mbind option_bind]. by eexists. Qed.

Lemma update_entry_eq p f cm b :
  cm_map cm !! p = Some b ->
  update_entry p f cm = Some (with_index {| mapBlockIndex := <[p := f b]> (cm_map cm); pindexBestHeader := pindexBestHeader (cm_index cm);
                                            setDirtyBlockIndex := setDirtyBlockIndex (cm_index cm) |} cm).
Proof. intros Hp. unfold update_entry. by rewrite Hp. Qed.

(** The entries that a discarded path gets marked are on it. *)
Definition discarded (m m' : BlockMap) (c : CChain) (p t : ptr) : Prop :=
  forall q b, m !! q = Some b ->
    m' !! q = Some b
    \/ (on_path m c p q /\ on_path m c q t /\ exists b', m' !! q = Some b' /\ failed b' = true).

Lemma discard_path_ok fuel fF t p b cm :
  let m := cm_map cm in let c := chainActive cm in
  wf_index m -> m !! p = Some b -> on_path m c p t -> (Z.to_nat (nHeight b) < fuel)%nat ->
  exists cm', discard_path fuel fF t (Some p) cm = Some cm' /\ strip (cm_map cm') = strip m /\ chainActive cm' = c
  /\ pindexBestInvalid cm' = pindexBestInvalid cm
  /\ candidates cm' ⊆ candidates cm
  /\ (forall q, q ∈ candidates cm -> q ∉ candidates cm' -> on_path m c p q /\ on_path m c q t)
  /\ (p = t \/ p ∉ candidates cm') /\ discarded m (cm_map cm') c p t.
Proof.
  revert p b cm. induction fuel as [|fuel IH]; intros p b cm m c W Hp Hpath Hf; [lia|].
  cbn [discard_path mbind option_bind]. destruct (Z.eqb_spec p t) as [->|Hne].
  { exists cm. split_and!; try done; [by left|]. intros q bq Hq. by left. }
  fold m. rewrite Hp. cbn [mbind option_bind].
  destruct (on_path_inv m c p b t Hp Hpath) as (Hc & [->|(q & Eq & Hqt)]); [done|].
  destruct (wb_prev _ _ _ (W p b Hp) q Eq) as (bq & Hq & Hh). pose proof (wb_height _ _ _ (W q bq Hq)).
  set (upd := if fF then update_entry p (set_status (Z.lor (nStatus b) BLOCK_FAILED_CHILD)) cm
              else pprev b ≫= fun q => Some (with_unlinked (unlinked cm ++ [(q, p)]) cm)).
  assert (exists cm1, upd = Some cm1 /\ strip (cm_map cm1) = strip m /\ chainActive cm1 = c /\ pindexBestInvalid cm1 = pindexBestInvalid cm
    /\ candidates cm1 = candidates cm /\ discarded m (cm_map cm1) c p t) as (cm1 & E1 & S1 & C1 & I1 & K1 & D1).
  { unfold upd. destruct fF.
    - destruct (update_entry_ok p (set_status (Z.lor (nStatus b) BLOCK_FAILED_CHILD)) cm b Hp) as (cm1 & -> & Em & Ec & Ek & _ & Ei & _).
      exists cm1. split_and!; try done; [rewrite Em; by apply strip_update|]. rewrite Em. intros r br Hr. destruct (decide (r = p)) as [->|Hrp].
      + right. split_and!; [by apply on_path_self|done|]. rewrite lookup_insert_eq. eexists. split; [done|]. apply failed_or. by right.
      + left. by rewrite lookup_insert_ne.
    - rewrite Eq. cbn [mbind option_bind]. eexists. split_and!; try done. intros r br Hr. by left. }
  rewrite E1. cbn [mbind option_bind]. rewrite Eq.
  set (cm2 := with_candidates (candidates cm1 ∖ {[p]}) cm1).
  assert (forall r s, on_path (cm_map cm2) (chainActive cm2) r s <-> on_path m c r s) as Hop.
  { intros r s. change (cm_map cm2) with (cm_map cm1). change (chainActive cm2) with (chainActive cm1). rewrite C1. by apply strip_on_path. }
  destruct (strip_lookup m (cm_map cm2) q bq (eq_sym S1) Hq) as (bq' & Hq' & Hs). apply strip_same in Hs as (_ & Hhq & _).
  destruct (IH q bq' cm2) as (cm' & E & Hs & Hc' & Hi & Hsub & Her & Hpt & Hd); [|done|by apply Hop|lia|].
  { by apply (strip_wf_index m). }
  exists cm'. split_and!; [done|by rewrite Hs|by rewrite Hc'|by rewrite Hi|..].
  - etransitivity; [exact Hsub|]. cbn [candidates cm2 with_candidates]. rewrite K1. by intros r [Hr _]%elem_of_difference.
  - intros r Hr Hnr. destruct (decide (r = p)) as [->|Hrp]; [split; [by apply on_path_self|done]|].
    destruct (Her r) as [H1 H2]; [cbn [candidates cm2 with_candidates]; rewrite K1; apply elem_of_difference; split; [done|by apply not_elem_of_singleton]|done|].
    apply Hop in H1, H2. split; [by eapply on_path_step|done].
  - right. intros Hin. apply Hsub, elem_of_difference in Hin as [_ Hn]. apply Hn. by apply elem_of_singleton.
  - intros r br Hr. destruct (D1 r br Hr) as [Hr1|(A & B & b' & Hr1 & Hf')].
    + destruct (Hd r br Hr1) as [Hr2|(A & B & b' & Hr2 & Hf')]; [by left|]. right. apply Hop in A, B. split_and!; [by eapply on_path_step|done|eauto].
    + right. split_and!; [done|done|]. destruct (Hd r b' Hr1) as [Hr2|(_ & _ & b'' & Hr2 & Hf'')]; eauto.
Qed.

(** ** Lemmas: [FindMostWorkChain] *)

(** What the search leaves of the state: statuses aside the index is the same, no usable candidate is lost, and
    a path is usable exactly when it was. *)
Record search_rel (cm cm' : ChainMan) : Prop := {
  sr_strip : strip (cm_map cm') = strip (cm_map cm);
  sr_chain : chainActive cm' = chainActive cm;
  sr_sub : candidates cm' ⊆ candidates cm;
  sr_lost : forall q, q ∈ candidates cm -> q ∉ candidates cm' -> ~ usable (cm_map cm) (chainActive cm) q;
  sr_usable : forall q, usable (cm_map cm') (chainActive cm') q <-> usable (cm_map cm) (chainActive cm) q;
}.

Lemma search_rel_refl cm : search_rel cm cm.
Proof. by split. Qed.

Lemma search_rel_trans cm1 cm2 cm3 : search_rel cm1 cm2 -> search_rel cm2 cm3 -> search_rel cm1 cm3.
Proof.
  intros [A1 A2 A3 A4 A5] [B1 B2 B3 B4 B5]. split.
  - by rewrite B1.
  - by rewrite B2.
  - by etransitivity.
  - intros q Hq Hn. destruct (decide (q ∈ candidates cm2)); [|by apply A4]. rewrite <- A5. by apply B4.
  - intros q. by rewrite B5.
Qed.

Lemma good_clean m q b : m !! q = Some b -> good m q -> failed b || negb (have_data b) = false.
Proof. intros Hq (b' & Hq' & Hf & Hd). rewrite Hq in Hq'. injection Hq' as <-. by rewrite Hf, Hd. Qed.

Lemma usable_discarded m m' c p t bt q :
  strip m' = strip m -> discarded m m' c p t -> m !! t = Some bt -> failed bt || negb (have_data bt) = true ->
  usable m' c q <-> usable m c q.
Proof.
  intros E D Ht Hbad. unfold usable. split; intros H r Hr.
  - rewrite <- (strip_on_path m m' c q r) in Hr by by symmetry. destruct (H r Hr) as (b' & Hb' & Hf & Hd).
    destruct (m !! r) as [b|] eqn:Hm; [|by rewrite (strip_lookup_None m m' r (eq_sym E) Hm) in Hb'].
    destruct (D r b Hm) as [Hs|(_ & _ & b'' & Hs & Hf')]; rewrite Hb' in Hs; injection Hs as ->; [by exists b|congruence].
  - rewrite (strip_on_path m m' c q r) in Hr by by symmetry. destruct (H r Hr) as (b & Hb & Hf & Hd).
    destruct (D r b Hb) as [Hs|(_ & Hrt & _)]; [by exists b|].
    pose proof (H t (on_path_trans m c q r t Hr Hrt)) as Hg. pose proof (good_clean m t bt Ht Hg). congruence.
Qed.

Lemma strip_ordered addr m m' : strip m = strip m' -> ordered addr m -> ordered addr m'.
Proof.
  intros E [Ow Oa]. split.
  - intros p b' Hb'. destruct (strip_lookup m' m p b' (eq_sym E) Hb') as (b & Hb & Hs). apply strip_same in Hs as (_ & _ & <- & _). by eapply Ow.
  - intros p q [bp Hp] [bq Hq]. destruct (strip_lookup m' m p bp (eq_sym E) Hp) as (? & ? & _), (strip_lookup m' m q bq (eq_sym E) Hq) as (? & ? & _).
    apply Oa; eauto.
Qed.

Lemma man_ok_strip addr cm cm' :
  strip (cm_map cm') = strip (cm_map cm) -> candidates cm' ⊆ candidates cm ->
  (forall q, pindexBestInvalid cm' = Some q -> is_Some (cm_map cm' !! q)) -> man_ok addr cm -> man_ok addr cm'.
Proof.
  intros E Hsub Hinv [W O Hk Hl Hcl _].
  assert (forall p b', cm_map cm' !! p = Some b' -> exists b, cm_map cm !! p = Some b /\ set_status 0 b = set_status 0 b') as Hback.
  { intros p b'. by apply strip_lookup. }
  split; try done.
  - by apply (strip_wf_index (cm_map cm)).
  - by apply (strip_ordered addr (cm_map cm)).
  - intros p Hp. destruct (Hk p (Hsub p Hp)) as [b Hb]. destruct (strip_lookup _ _ p b (eq_sym E) Hb) as (b' & Hb' & _). eauto.
  - intros p b' Hp Hb'. destruct (Hback p b' Hb') as (b & Hb & Hs). apply strip_same in Hs as (_ & <- & _ & <- & _). apply (Hl p b); [by apply Hsub|done].
  - intros p b' q bq' Hb' Hn Hq Hbq'. destruct (Hback p b' Hb') as (b & Hb & Hs). destruct (Hback q bq' Hbq') as (bq & Hbq & Hsq).
    apply strip_same in Hs as (E1 & _ & _ & E4 & _), Hsq as (_ & _ & _ & <- & _).
    apply (Hcl p b q bq); [done|congruence|congruence|done].
Qed.

Lemma find_most_work_ok addr fuel cm :
  man_ok addr cm -> (size (candidates cm) < fuel)%nat ->
  exists r cm', find_most_work addr fuel cm = Some (r, cm') /\ search_rel cm cm' /\ man_ok addr cm'
  /\ match r with
     | Some p => p ∈ candidates cm' /\ usable (cm_map cm) (chainActive cm) p
                 /\ forall q, q ∈ candidates cm' -> q = p \/ worse addr (cm_map cm) q p = true
     | None => candidates cm' = ∅
     end.
Proof.
  revert cm. induction fuel as [|fuel IH]; intros cm Hok Hf; [lia|]. cbn [find_most_work]. pose proof Hok as [W O Hk Hl Hcl Hinv].
  destruct (last (in_order addr (cm_map cm) (candidates cm))) as [p|] eqn:El.
  2:{ exists None, cm. split_and!; [done|apply search_rel_refl|done|]. by apply (last_in_order_None addr (cm_map cm)). }
  destruct (last_in_order addr _ _ _ O Hk El) as [Hp Hmax]. destruct (Hk p Hp) as [b Hb]. rewrite Hb. cbn [mbind option_bind].
  destruct (check_path_ok (cm_map cm) (chainActive cm) (S (Z.to_nat (nHeight b))) p b W Hcl Hb ltac:(lia) (Hl p b Hp Hb)) as (r & -> & Hr).
  cbn [mbind option_bind]. destruct r as [|t].
  { exists (Some p), cm. split; [done|]. split; [apply search_rel_refl|]. done. }
  destruct Hr as (Hpath & bt & Ht & Hbad). rewrite Ht. cbn [mbind option_bind].
  assert (exists more, more_work_than_invalid cm p = Some more) as [more ->].
  { unfold more_work_than_invalid. destruct (pindexBestInvalid cm) as [q|]; [|by eexists].
    destruct (Hinv q eq_refl) as [bq Hbq]. rewrite Hb, Hbq. by eexists. }
  cbn [mbind option_bind]. set (cm1 := if failed bt && more then with_invalid (Some p) cm else cm).
  assert (cm_map cm1 = cm_map cm /\ chainActive cm1 = chainActive cm /\ candidates cm1 = candidates cm) as (M1 & C1 & K1)
    by (unfold cm1; by case_if).
  destruct (discard_path_ok (S (Z.to_nat (nHeight b))) (failed bt) t p b cm1) as (cm2 & E2 & S2 & C2 & I2 & Hsub2 & Hlost & Hpt & Hd);
    rewrite ?M1, ?C1 in *; [done|done|done|lia|]. rewrite E2. cbn [mbind option_bind].
  set (cm3 := with_candidates (candidates cm2 ∖ {[t]}) cm2). rewrite K1 in *.
  assert (forall q, usable (cm_map cm3) (chainActive cm3) q <-> usable (cm_map cm) (chainActive cm) q) as Hus.
  { intros q. change (cm_map cm3) with (cm_map cm2). change (chainActive cm3) with (chainActive cm2). rewrite C2.
    by apply (usable_discarded _ _ _ p t bt). }
  assert (~ good (cm_map cm) t) as Hng by (intros Hg%(good_clean _ _ _ Ht); congruence).
  assert (search_rel cm cm3) as Hrel.
  { split; [done|done| | |done].
    - intros q [Hq _]%elem_of_difference. by apply Hsub2.
    - intros q Hq Hnq Hu. destruct (decide (q = t)) as [->|Hqt].
      + apply Hng, Hu, on_path_self. destruct Hpath as (n & Hn & Hc). by apply (Hc n t).
      + apply Hng, Hu. apply (Hlost q Hq). intros Hq2. apply Hnq, elem_of_difference. split; [done|by apply not_elem_of_singleton]. }
  assert (man_ok addr cm3) as Hok3.
  { apply (man_ok_strip addr cm); [apply Hrel|apply Hrel| |done]. intros q. change (pindexBestInvalid cm3) with (pindexBestInvalid cm2). rewrite I2.
    intros Eq. assert (is_Some (cm_map cm !! q)) as [bq Hbq]; [|destruct (strip_lookup _ (cm_map cm3) q bq (eq_sym S2) Hbq) as (x & Hx & _); eauto].
    unfold cm1 in Eq. case_if_in Eq; [injection Eq as <-; eauto|by apply Hinv]. }
  assert (size (candidates cm3) < size (candidates cm))%nat as Hsize.
  { apply subset_size. split; [apply Hrel|]. intros Hback. specialize (Hback p Hp). apply elem_of_difference in Hback as [Hp2 Hpt'].
    destruct Hpt as [->|Hpt]; [by apply Hpt', elem_of_singleton|done]. }
  destruct (IH cm3 Hok3 ltac:(lia)) as (r & cm' & -> & Hrel' & Hok' & Hr). exists r, cm'.
  split_and!; [done|by eapply search_rel_trans|done|]. destruct r as [q|]; [|done]. destruct Hr as (Hq & Hu & Hm).
  split_and!; [done|by apply Hus|]. intros s Hs. destruct (Hm s Hs) as [->|Hw]; [by left|right].
  by rewrite (strip_worse addr (cm_map cm) (cm_map cm3)) in Hw.
Qed.

(** ** Lemmas: indexes that agree on the links and the transaction counts *)

Definition key (b : CBlockIndex) : option ptr * option ptr * Z * Z := (link_of b, nTx b).
Definition same_keys (m m' : BlockMap) : Prop := key <$> m = key <$> m'.

Lemma key_fields b b' : key b' = key b -> pprev b' = pprev b /\ pskip b' = pskip b /\ nHeight b' = nHeight b /\ nTx b' = nTx b.
Proof. unfold key, link_of. intros E. injection E. auto. Qed.

Lemma keys_links m m' : same_keys m m' -> same_links m m'.
Proof.
  intros E. apply (f_equal (fmap (M := gmap Z) fst)) in E. by rewrite <- !map_fmap_compose in E.
Qed.

(** ** Lemmas: the transactions of a chain *)

(** The number of transactions up to an entry, when all its blocks have been received. *)
Fixpoint received (fuel : nat) (m : BlockMap) (p : ptr) : option Z :=
  match fuel with
  | O => None
  | S fuel =>
      b ← m !! p;
      if nTx b =? 0 then None
      else match pprev b with
           | None => Some (nTx b)
           | Some q => s ← received fuel m q; Some (s + nTx b)
           end
  end.
Definition chain_txs (m : BlockMap) (p : ptr) : option Z := b ← m !! p; received (S (Z.to_nat (nHeight b))) m p.

Lemma chain_txs_eq m p b :
  wf_index m -> m !! p = Some b ->
  chain_txs m p = if nTx b =? 0 then None
                  else match pprev b with None => Some (nTx b) | Some q => s ← chain_txs m q; Some (s + nTx b) end.
Proof.
  intros W Hp. unfold chain_txs at 1. rewrite Hp. cbn [mbind option_bind received]. rewrite Hp. cbn [mbind option_bind].
  case_if; [done|]. destruct (pprev b) as [q|] eqn:Eq; [|done].
  destruct (wb_prev _ _ _ (W p b Hp) q Eq) as (bq & Hq & Hh). pose proof (wb_height _ _ _ (W q bq Hq)).
  unfold chain_txs. rewrite Hq. cbn [mbind option_bind]. by replace (Z.to_nat (nHeight b)) with (S (Z.to_nat (nHeight bq))) by lia.
Qed.

Lemma same_keys_received fuel m m' p : same_keys m m' -> received fuel m' p = received fuel m p.
Proof.
  intros E. revert p. induction fuel as [|fuel IH]; intros p; [done|]. cbn [received].
  destruct (m !! p) as [b|] eqn:Hp; [|by rewrite (same_image_None key m m' p E Hp)].
  destruct (same_image_lookup key m m' p b E Hp) as (b' & -> & Hk). apply key_fields in Hk as (E1 & _ & _ & E4).
  cbn [mbind option_bind]. rewrite E1, E4. case_if; [done|]. destruct (pprev b); [by rewrite IH|done].
Qed.

Lemma same_keys_chain_txs m m' p : same_keys m m' -> chain_txs m' p = chain_txs m p.
Proof.
  intros E. unfold chain_txs. destruct (m !! p) as [b|] eqn:Hp; [|by rewrite (same_image_None key m m' p E Hp)].
  destruct (same_image_lookup key m m' p b E Hp) as (b' & -> & Hk). apply key_fields in Hk as (_ & _ & E3 & _).
  cbn [mbind option_bind]. rewrite E3. by apply same_keys_received.
Qed.

Lemma chain_txs_pos m p s :
  wf_index m -> (forall q b, m !! q = Some b -> 0 <= nTx b) -> chain_txs m p = Some s -> 0 < s.
Proof.
  intros W Hn. unfold chain_txs. destruct (m !! p) as [b|] eqn:Hp; [|done]. cbn [mbind option_bind].
  generalize (S (Z.to_nat (nHeight b))). intros fuel. clear Hp b. revert p s. induction fuel as [|fuel IH]; intros p s; [done|].
  cbn [received]. destruct (m !! p) as [b|] eqn:Hp; [|done]. cbn [mbind option_bind]. pose proof (Hn p b Hp).
  destruct (Z.eqb_spec (nTx b) 0); [done|]. destruct (pprev b) as [q|]; [|intros [= <-]; lia].
  destruct (received fuel m q) as [s'|] eqn:Er; [|done]. apply IH in Er. intros [= <-]. lia.
Qed.

(** ** Lemmas: the loop that links blocks *)

Record link_inv (cm : ChainMan) (queue : list ptr) : Prop := {
  ll_index : wf_index (cm_map cm);
  ll_count : forall p b, cm_map cm !! p = Some b -> 0 <= nTx b;
  ll_room : forall p s, chain_txs (cm_map cm) p = Some s -> s < 2 ^ 32;
  ll_chain : forall p b, cm_map cm !! p = Some b -> nChainTx b <> 0 -> chain_txs (cm_map cm) p = Some (nChainTx b);
  ll_queue : forall p, p ∈ queue -> exists b, cm_map cm !! p = Some b /\ nTx b <> 0
    /\ forall q bq, pprev b = Some q -> cm_map cm !! q = Some bq -> nChainTx bq <> 0;
  ll_wait : forall p b, cm_map cm !! p = Some b -> nTx b <> 0 -> nChainTx b = 0 ->
    p ∈ queue \/ exists q, pprev b = Some q /\ (q, p) ∈ unlinked cm;
  ll_unlinked : forall q p, (q, p) ∈ unlinked cm -> exists b, cm_map cm !! p = Some b /\ pprev b = Some q /\ nTx b <> 0
    /\ forall bq, cm_map cm !! q = Some bq -> nChainTx bq = 0 \/ nChainTx b <> 0;
}.

(** The count that the loop computes for an entry of the queue. *)
Lemma link_count cm queue p b :
  link_inv cm queue -> p ∈ queue -> cm_map cm !! p = Some b ->
  exists prev, parent_chain_tx (cm_map cm) b = Some prev /\ 0 < u32 (prev + nTx b)
  /\ chain_txs (cm_map cm) p = Some (u32 (prev + nTx b)).
Proof.
  intros [W Hn Hr Hc Hq _ _] Hin Hp. destruct (Hq p Hin) as (b0 & Hb0 & Htx & Hpar). rewrite Hp in Hb0. injection Hb0 as <-.
  assert (forall s, chain_txs (cm_map cm) p = Some s -> 0 < u32 s /\ u32 s = s) as Hu.
  { intros s Hs. pose proof (Hr p s Hs). pose proof (chain_txs_pos _ p s W Hn Hs). unfold u32. rewrite Z.mod_small by lia. lia. }
  pose proof (chain_txs_eq _ p b W Hp) as E. rewrite (proj2 (Z.eqb_neq _ _) Htx) in E. unfold parent_chain_tx.
  destruct (pprev b) as [q|] eqn:Eq.
  - destruct (wb_prev _ _ _ (W p b Hp) q Eq) as (bq & Hbq & _). rewrite Hbq. cbn [mbind option_bind].
    rewrite (Hc q bq Hbq (Hpar q bq eq_refl Hbq)) in E. cbn [mbind option_bind] in E. exists (nChainTx bq).
    destruct (Hu _ E) as [H1 H2]. by rewrite H2 in H1 |- *.
  - exists 0. destruct (Hu _ E) as [H1 H2]. rewrite Z.add_0_l. by rewrite H2 in H1 |- *.
Qed.

Lemma filter_split_length {A} (P : A -> Prop) `{forall x, Decision (P x)} (l : list A) :
  (length (filter P l) + length (filter (fun x => ~ P x) l) = length l)%nat.
Proof.
  induction l as [|x l IH]; [done|]. rewrite !filter_cons. destruct (decide (P x)).
  - rewrite decide_False by tauto. cbn [length]. lia.
  - rewrite decide_True by done. cbn [length]. lia.
Qed.

(** What one turn of the loop does to the index: [b'] is the new entry of [p]. *)
Lemma link_inv_step cm cm' queue p b b' s :
  link_inv cm (p :: queue) -> cm_map cm !! p = Some b -> chain_txs (cm_map cm) p = Some s -> 0 < s ->
  key b' = key b -> nChainTx b' = s -> cm_map cm' = <[p := b']> (cm_map cm) ->
  unlinked cm' = filter (fun x => x.1 <> p) (unlinked cm) ->
  link_inv cm' (queue ++ map snd (filter (fun x => x.1 = p) (unlinked cm))).
Proof.
  intros [W Hn Hr Hc Hq Hw Hul] Hp Hs Hpos Hk Hb' Em Eu.
  assert (same_keys (cm_map cm') (cm_map cm)) as SK by (rewrite Em; by eapply same_image_update).
  assert (forall x bx', cm_map cm' !! x = Some bx' -> exists bx, cm_map cm !! x = Some bx /\ key bx = key bx'
    /\ (nChainTx bx' = nChainTx bx \/ x = p /\ bx' = b')) as Hback.
  { intros x bx' Hx. rewrite Em in Hx. apply lookup_insert_Some in Hx as [[<- <-]|[Hne Hx]]; eauto 10. }
  assert (forall x bx', cm_map cm' !! x = Some bx' -> nChainTx bx' = 0 -> x <> p /\ cm_map cm !! x = Some bx') as Hzero.
  { intros x bx' Hx H0. rewrite Em in Hx. apply lookup_insert_Some in Hx as [[<- <-]|[Hne Hx]]; [lia|done]. }
  assert (forall x bx', cm_map cm' !! x = Some bx' -> nChainTx bx' <> 0 -> chain_txs (cm_map cm) x = Some (nChainTx bx')) as Hchain.
  { intros x bx' Hx H0. rewrite Em in Hx. apply lookup_insert_Some in Hx as [[<- <-]|[Hne Hx]]; [by rewrite Hb'|by apply Hc]. }
  assert (forall x bx, cm_map cm !! x = Some bx -> exists bx', cm_map cm' !! x = Some bx' /\ key bx' = key bx /\ (nChainTx bx <> 0 -> nChainTx bx' <> 0)) as Hfwd.
  { intros x bx Hx. destruct (decide (x = p)) as [->|Hne].
    - exists b'. rewrite Em, lookup_insert_eq. rewrite Hp in Hx. injection Hx as <-. split_and!; [done|done|lia].
    - exists bx. by rewrite Em, lookup_insert_ne. }
  assert (forall q bq', cm_map cm' !! q = Some bq' -> (q = p \/ exists bq, cm_map cm !! q = Some bq /\ nChainTx bq <> 0) -> nChainTx bq' <> 0) as Hup.
  { intros q bq' Hbq'. rewrite Em in Hbq'. apply lookup_insert_Some in Hbq' as [[<- <-]|[Hne Hx]]; [lia|].
    intros [->|(bq & Hbq & H0)]; [done|congruence]. }
  split.
  - apply (same_links_wf_index (cm_map cm)); [by apply keys_links|done].
  - intros x bx' Hx. destruct (Hback x bx' Hx) as (bx & Hbx & Hkx & _). apply key_fields in Hkx as (_ & _ & _ & <-). by apply (Hn x).
  - intros x t. rewrite (same_keys_chain_txs (cm_map cm) (cm_map cm')) by done. apply Hr.
  - intros x bx' Hx H0. rewrite (same_keys_chain_txs (cm_map cm) (cm_map cm')) by done. by apply Hchain.
  - intros x [Hin|Hin]%elem_of_app.
    + destruct (Hq x) as (bx & Hbx & Htx & Hpar); [by right|]. destruct (Hfwd x bx Hbx) as (bx' & Hbx' & Hkx & _).
      apply key_fields in Hkx as (E1 & _ & _ & E4). exists bx'. split_and!; [done|by rewrite E4|].
      intros q bq' Eq Hbq'. apply (Hup q bq' Hbq'). right. destruct (Hback q bq' Hbq') as (bq & Hbq & _). exists bq. split; [done|]. eapply Hpar; [by rewrite <- E1|done].
    + apply list_elem_of_fmap in Hin as ([q y] & -> & Hin). apply list_elem_of_filter in Hin as [Hqp Hin]. cbn in Hqp |- *. subst q.
      destruct (Hul p y Hin) as (by_ & Hby & Epy & Htx & _). destruct (Hfwd y by_ Hby) as (by' & Hby' & Hky & _).
      apply key_fields in Hky as (E1 & _ & _ & E4). exists by'. split_and!; [done|by rewrite E4|].
      intros q bq' Eq Hbq'. apply (Hup q bq' Hbq'). left. congruence.
  - intros x bx' Hx Htx H0. destruct (Hzero x bx' Hx H0) as [Hne Hbx]. destruct (Hw x bx' Hbx Htx H0) as [Hin|(q & Eq & Hin)].
    + left. apply elem_of_app. apply elem_of_cons in Hin as [->|Hin]; [done|by left].
    + destruct (decide (q = p)) as [->|Hqp].
      * left. apply elem_of_app. right. apply list_elem_of_fmap. exists (p, x). split; [done|]. by apply list_elem_of_filter.
      * right. exists q. split; [done|]. rewrite Eu. by apply list_elem_of_filter.
  - intros q x Hin. rewrite Eu in Hin. apply list_elem_of_filter in Hin as [Hqp Hin]. cbn in Hqp.
    destruct (Hul q x Hin) as (bx & Hbx & Epx & Htx & Hpar). destruct (Hfwd x bx Hbx) as (bx' & Hbx' & Hkx & Hnz).
    apply key_fields in Hkx as (E1 & _ & _ & E4). exists bx'. split_and!; [done|by rewrite E1|by rewrite E4|].
    intros bq. rewrite Em, lookup_insert_ne by done. intros Hbq. destruct (Hpar bq Hbq); auto.
Qed.

(** What linking changes: every entry it touches is linked, and is a candidate or worse than the tip. *)
Record link_rel (addr : ptr -> Z) (cm cm' : ChainMan) : Prop := {
  lr_keys : same_keys (cm_map cm') (cm_map cm);
  lr_active : chainActive cm' = chainActive cm;
  lr_invalid : pindexBestInvalid cm' = pindexBestInvalid cm;
  lr_status : forall p b b', cm_map cm !! p = Some b -> cm_map cm' !! p = Some b' -> nStatus b' = nStatus b /\ nChainWork b' = nChainWork b;
  lr_tip : forall tip, chain_Tip (chainActive cm) = Some tip -> cm_map cm' !! tip = cm_map cm !! tip;
  lr_sub : candidates cm ⊆ candidates cm';
  lr_new : forall p b', p ∈ candidates cm' -> cm_map cm' !! p = Some b' -> p ∈ candidates cm \/ nChainTx b' <> 0;
  lr_linked : forall p b, cm_map cm !! p = Some b -> nChainTx b <> 0 -> exists b', cm_map cm' !! p = Some b' /\ nChainTx b' <> 0;
  lr_touched : forall p, cm_map cm' !! p = cm_map cm !! p \/
    p ∈ candidates cm' \/ exists tip, chain_Tip (chainActive cm) = Some tip /\ worse addr (cm_map cm') p tip = true;
}.

Lemma link_rel_refl addr cm : link_rel addr cm cm.
Proof. split; try done; [|by left|eauto|by left]. intros p b b' H1 H2. by assert (b' = b) as -> by congruence. Qed.

Lemma link_rel_trans addr cm1 cm2 cm3 : link_rel addr cm1 cm2 -> link_rel addr cm2 cm3 -> link_rel addr cm1 cm3.
Proof.
  intros [A1 A2 A3 A4 A5 A6 A7 A8 A9] [B1 B2 B3 B4 B5 B6 B7 B8 B9]. split.
  - by etransitivity.
  - congruence.
  - congruence.
  - intros p b b' H1 H3. destruct (same_image_lookup key _ (cm_map cm2) p b (eq_sym A1) H1) as (b2 & H2 & _).
    destruct (A4 p b b2 H1 H2), (B4 p b2 b' H2 H3). split; congruence.
  - intros tip Ht. rewrite (B5 tip) by (by rewrite A2). by apply A5.
  - by etransitivity.
  - intros p b' Hin Hb'. destruct (B7 p b' Hin Hb') as [Hin2|]; [|by right].
    destruct (same_image_lookup key _ (cm_map cm2) p b' B1 Hb') as (b2 & H2 & _).
    destruct (A7 p b2 Hin2 H2) as [|Hn]; [by left|right]. destruct (B8 p b2 H2 Hn) as (? & ? & ?). congruence.
  - intros p b Hb Hn. destruct (A8 p b Hb Hn) as (b2 & H2 & Hn2). by apply (B8 p b2).
  - intros p. destruct (B9 p) as [E|[Hin|(tip & Ht & Hw)]]; [|by right; left|right; right; exists tip; by rewrite <- A2].
    destruct (A9 p) as [E2|[Hin|(tip & Ht & Hw)]]; [left; congruence|right; left; by apply B6|right; right].
    exists tip. split; [done|]. unfold worse in *. rewrite E, (B5 tip) by (by rewrite A2). done.
Qed.

Definition tip_clear (cm : ChainMan) (queue : list ptr) : Prop :=
  forall tip, chain_Tip (chainActive cm) = Some tip -> (tip ∉ queue) /\ forall q, (q, tip) ∉ unlinked cm.

(** One turn of the loop, on an entry whose chain is complete. *)
Lemma link_entry_eq addr cm queue p :
  link_inv cm (p :: queue) -> nBlockSequenceId cm < 2 ^ 31 - 1 ->
  exists cm' b b' s, link_entry addr cm p = Some (cm', map snd (filter (fun x => x.1 = p) (unlinked cm)))
  /\ cm_map cm !! p = Some b /\ b' = set_seq (nBlockSequenceId cm) (set_txs (nTx b) s b)
  /\ chain_txs (cm_map cm) p = Some s /\ 0 < s /\ cm_map cm' = <[p := b']> (cm_map cm)
  /\ chainActive cm' = chainActive cm /\ pindexBestInvalid cm' = pindexBestInvalid cm
  /\ nBlockSequenceId cm' = nBlockSequenceId cm + 1 /\ unlinked cm' = filter (fun x => x.1 <> p) (unlinked cm)
  /\ candidates cm' = if not_worse_than_tip addr cm' p then {[p]} ∪ candidates cm else candidates cm.
Proof.
  intros I Hseq. destruct (ll_queue cm _ I p) as (b & Hp & Htx & _); [by left|].
  destruct (link_count cm (p :: queue) p b I) as (prev & Hprev & Hpos & Hs); [by left|done|].
  set (s := u32 (prev + nTx b)) in *. set (b' := set_seq (nBlockSequenceId cm) (set_txs (nTx b) s b)).
  set (m' := <[p := b']> (cm_map cm)).
  set (cs' := {| mapBlockIndex := m'; pindexBestHeader := pindexBestHeader (cm_index cm); setDirtyBlockIndex := setDirtyBlockIndex (cm_index cm) |}).
  set (cm1 := with_sequence (nBlockSequenceId cm + 1) (with_index cs' cm)).
  set (cm2 := if not_worse_than_tip addr cm1 p then with_candidates ({[p]} ∪ candidates cm1) cm1 else cm1).
  set (cm' := with_unlinked (filter (fun x => x.1 <> p) (unlinked cm)) cm2).
  assert (link_entry addr cm p = Some (cm', map snd (filter (fun x => x.1 = p) (unlinked cm)))) as E.
  { unfold link_entry. rewrite Hp. cbn [mbind option_bind]. rewrite Hprev. cbn [mbind option_bind].
    rewrite (update_entry_eq p _ cm b Hp). cbn [mbind option_bind]. rewrite decide_True by done.
    match goal with |- context [update_entry p (set_seq _) ?c] => set (cma := c) end.
    rewrite (update_entry_eq p _ cma (set_txs (nTx b) s b)) by apply lookup_insert_eq. cbn [mbind option_bind].
    match goal with |- context [with_index ?c cma] => replace (with_index c cma) with (with_index cs' cm) end.
    2:{ unfold cs', m'. rewrite <- (insert_insert_eq (cm_map cm) p b' (set_txs (nTx b) s b)). reflexivity. }
    change (nBlockSequenceId (with_index cs' cm)) with (nBlockSequenceId cm). fold cm1. unfold cm', cm2.
    by destruct (not_worse_than_tip addr cm1 p). }
  exists cm', b, b', s. unfold cm', cm2 in E |- *. split_and!; try done; destruct (not_worse_than_tip addr cm1 p) eqn:Ew; try done.
  all: unfold not_worse_than_tip in *; cbn in *; by rewrite Ew.
Qed.

Lemma link_entry_ok addr cm queue p :
  link_inv cm (p :: queue) -> tip_clear cm (p :: queue) -> nBlockSequenceId cm < 2 ^ 31 - 1 ->
  exists cm' next, link_entry addr cm p = Some (cm', next) /\ link_inv cm' (queue ++ next) /\ tip_clear cm' (queue ++ next)
  /\ link_rel addr cm cm' /\ (length next + length (unlinked cm') = length (unlinked cm))%nat
  /\ nBlockSequenceId cm' = nBlockSequenceId cm + 1.
Proof.
  intros I Tc Hseq. destruct (link_entry_eq addr cm queue p I Hseq) as (cm' & b & b' & s & -> & Hp & Eb' & Hs & Hpos & Em & Ec & Ei & Es & Eu & Ek).
  assert (key b' = key b /\ nChainTx b' = s /\ nStatus b' = nStatus b /\ nChainWork b' = nChainWork b) as (Kb & Kc & Kst & Kw) by by rewrite Eb'.
  exists cm', (map snd (filter (fun x => x.1 = p) (unlinked cm))). split_and!; [done|..|done].
  - by apply (link_inv_step cm cm' queue p b b' s).
  - intros tip Ht. rewrite Ec in Ht. destruct (Tc tip Ht) as [H1 H2]. apply not_elem_of_cons in H1 as [_ H1]. split.
    + intros [Hin|Hin]%elem_of_app; [done|]. apply list_elem_of_fmap in Hin as ([q y] & -> & Hin).
      apply list_elem_of_filter in Hin as [_ Hin]. by apply (H2 q).
    + intros q Hin. rewrite Eu in Hin. apply list_elem_of_filter in Hin as [_ Hin]. by apply (H2 q).
  - split; try done.
    + rewrite Em. by eapply same_image_update.
    + intros x bx bx' Hx. rewrite Em. intros [[<- <-]|[Hne Hx']]%lookup_insert_Some; [|by assert (bx' = bx) as -> by congruence].
      rewrite Hp in Hx. by injection Hx as <-.
    + intros tip Ht. destruct (Tc tip Ht) as [H1 _]. apply not_elem_of_cons in H1 as [H1 _]. rewrite Em. by apply lookup_insert_ne.
    + rewrite Ek. case_if; [|done]. by apply union_subseteq_r.
    + intros x bx'. rewrite Ek, Em. intros Hin [[<- <-]|[Hne Hx]]%lookup_insert_Some; [right; lia|left].
      case_if_in Hin; [|done]. by apply elem_of_union in Hin as [Hin%elem_of_singleton|Hin].
    + intros x bx Hx Hn. rewrite Em. destruct (decide (x = p)) as [->|Hne]; [|exists bx; by rewrite lookup_insert_ne].
      exists b'. rewrite lookup_insert_eq. split; [done|]. lia.
    + intros x. rewrite Em, Ek. destruct (decide (x = p)) as [->|Hne]; [right|by left; rewrite lookup_insert_ne].
      destruct (not_worse_than_tip addr cm' p) eqn:Ew; [left; by apply elem_of_union_l, elem_of_singleton|right].
      rewrite <- Em. unfold not_worse_than_tip in Ew. rewrite Ec in Ew.
      destruct (chain_Tip (chainActive cm)) as [tip|]; [|done]. apply negb_false_iff in Ew. eauto.
  - rewrite Eu, length_map. apply filter_split_length.
Qed.

Lemma link_loop_ok addr fuel cm queue :
  link_inv cm queue -> tip_clear cm queue -> (length queue + length (unlinked cm) <= fuel)%nat ->
  nBlockSequenceId cm + Z.of_nat fuel <= 2 ^ 31 - 1 ->
  exists cm', link_loop addr fuel cm queue = Some cm' /\ link_inv cm' [] /\ tip_clear cm' [] /\ link_rel addr cm cm'.
Proof.
  revert cm queue. induction fuel as [|fuel IH]; intros cm [|p queue] I Tc Hf Hs; cbn [link_loop length] in *; try lia.
  1,2: exists cm; split_and!; [done|done|done|apply link_rel_refl].
  destruct (link_entry_ok addr cm queue p I Tc ltac:(lia)) as (cm' & next & -> & I' & Tc' & R & Hlen & Eseq). cbn [mbind option_bind].
  destruct (IH cm' (queue ++ next) I' Tc') as (cm'' & -> & I'' & Tc'' & R'').
  - rewrite length_app. lia.
  - lia.
  - exists cm''. split_and!; [done|done|done|by eapply link_rel_trans].
Qed.

(** ** Lemmas: receiving a block *)

(** The counts are those of the received chains, and the received blocks that cannot be linked yet wait for
    their parents. *)
Record linked (cm : ChainMan) : Prop := {
  ln_index : wf_index (cm_map cm);
  ln_count : forall p b, cm_map cm !! p = Some b -> 0 <= nTx b;
  ln_chain : forall p b, cm_map cm !! p = Some b -> nChainTx b = default 0 (chain_txs (cm_map cm) p);
  ln_wait : forall p b, cm_map cm !! p = Some b -> nTx b <> 0 -> nChainTx b = 0 ->
    exists q, pprev b = Some q /\ (q, p) ∈ unlinked cm;
  ln_unlinked : forall q p, (q, p) ∈ unlinked cm -> exists b, cm_map cm !! p = Some b /\ pprev b = Some q /\ nTx b <> 0;
  ln_tip : forall tip, chain_Tip (chainActive cm) = Some tip ->
    (exists b, cm_map cm !! tip = Some b /\ nChainTx b <> 0) /\ forall q, (q, tip) ∉ unlinked cm;
}.

(** At the end of the loop every received chain is linked. *)
Lemma linked_of_inv cm :
  link_inv cm [] -> tip_clear cm [] ->
  (forall tip, chain_Tip (chainActive cm) = Some tip -> exists b, cm_map cm !! tip = Some b /\ nChainTx b <> 0) -> linked cm.
Proof.
  intros [W Hn Hr Hc _ Hw Hu] Tc Htip.
  assert (forall p b, cm_map cm !! p = Some b -> nTx b <> 0 -> nChainTx b = 0 -> exists q, pprev b = Some q /\ (q, p) ∈ unlinked cm) as Hw'.
  { intros p b Hp Htx H0. destruct (Hw p b Hp Htx H0) as [Hin|?]; [by apply elem_of_nil in Hin|done]. }
  split; try done.
  - intros p b Hp. destruct (decide (nChainTx b = 0)) as [H0|H0]; [|by rewrite (Hc p b Hp H0)].
    destruct (chain_txs (cm_map cm) p) as [s|] eqn:Es; [exfalso|by rewrite H0].
    remember (Z.to_nat (nHeight b)) as n eqn:En. revert p b s Hp H0 Es En. induction n as [|n IH]; intros p b s Hp H0 Es En;
      rewrite (chain_txs_eq _ p b W Hp) in Es; case_if_in Es; try done; destruct (Hw' p b Hp ltac:(done) H0) as (q & Eq & Hin);
      destruct (wb_prev _ _ _ (W p b Hp) q Eq) as (bq & Hq & Hh); pose proof (wb_height _ _ _ (W q bq Hq)); [lia|].
    rewrite Eq in Es. destruct (chain_txs (cm_map cm) q) as [sq|] eqn:Esq; [|done].
    destruct (Hu q p Hin) as (b2 & Hb2 & _ & _ & Hor). destruct (Hor bq Hq) as [Hq0|]; [|congruence].
    by apply (IH q bq sq); [..|lia].
  - intros q p Hin. destruct (Hu q p Hin) as (b & Hb & Eq & Htx & _). eauto.
  - intros tip Ht. split; [by apply Htip|]. by apply (Tc tip).
Qed.

Lemma received_insert fuel m p b b1 x s :
  m !! p = Some b -> nTx b = 0 -> received fuel m x = Some s -> received fuel (<[p := b1]> m) x = Some s.
Proof.
  intros Hp H0. revert x s. induction fuel as [|fuel IH]; intros x s; [done|]. cbn [received].
  destruct (decide (x = p)) as [->|Hne]; [by rewrite Hp; cbn [mbind option_bind]; rewrite H0|]. rewrite lookup_insert_ne by done.
  destruct (m !! x) as [bx|]; [|done]. cbn [mbind option_bind]. case_if; [done|]. destruct (pprev bx) as [q|]; [|done].
  destruct (received fuel m q) as [sq|] eqn:Eq; [|done]. by rewrite (IH q sq).
Qed.

Lemma chain_txs_insert m p b b1 x s :
  m !! p = Some b -> nTx b = 0 -> nHeight b1 = nHeight b -> chain_txs m x = Some s -> chain_txs (<[p := b1]> m) x = Some s.
Proof.
  intros Hp H0 Hh. unfold chain_txs. destruct (decide (x = p)) as [->|Hne].
  - rewrite Hp. cbn [mbind option_bind received]. rewrite Hp. cbn [mbind option_bind]. by rewrite H0.
  - rewrite lookup_insert_ne by done. destruct (m !! x) as [bx|]; [|done]. by apply received_insert with b.
Qed.

(** What setting the fields of the block leaves for the loop: [wait] is the new entry of [mapBlocksUnlinked]. *)
Lemma receive_inv cm cm1 p b b1 queue wait :
  linked cm -> cm_map cm !! p = Some b -> nTx b = 0 ->
  cm_map cm1 = <[p := b1]> (cm_map cm) -> unlinked cm1 = unlinked cm ++ wait ->
  link_of b1 = link_of b -> 0 < nTx b1 -> nChainTx b1 = 0 ->
  (forall x s, chain_txs (cm_map cm1) x = Some s -> s < 2 ^ 32) ->
  (queue = [p] /\ wait = [] /\ (forall q bq, pprev b = Some q -> cm_map cm !! q = Some bq -> nChainTx bq <> 0)
   \/ exists q bq, queue = [] /\ wait = [(q, p)] /\ pprev b = Some q /\ cm_map cm !! q = Some bq /\ nChainTx bq = 0) ->
  link_inv cm1 queue.
Proof.
  intros [W Hn Hc Hw Hu _] Hp H0 Em Eu Hl Htx Hc1 Hroom Hq. pose proof (link_fields _ _ Hl) as (E1 & _ & E3).
  assert (wf_index (cm_map cm1)) as W1.
  { apply (same_links_wf_index (cm_map cm)); [|done]. unfold same_links. symmetry. rewrite Em. by eapply same_image_update. }
  assert (nChainTx b = 0) as Hcb by (rewrite (Hc p b Hp), (chain_txs_eq _ p b W Hp), H0; done).
  assert (forall x bx, cm_map cm1 !! x = Some bx -> x = p /\ bx = b1 \/ x <> p /\ cm_map cm !! x = Some bx) as Hback.
  { intros x bx. rewrite Em. intros [[<- <-]|[? ?]]%lookup_insert_Some; auto. }
  assert (forall x bx, x <> p -> cm_map cm !! x = Some bx -> cm_map cm1 !! x = Some bx) as Hfwd.
  { intros x bx Hne. by rewrite Em, lookup_insert_ne. }
  split; [done| |done| | | |].
  - intros x bx Hx. destruct (Hback x bx Hx) as [[-> ->]|[_ Hx']]; [lia|by eapply Hn].
  - intros x bx Hx Hnz. destruct (Hback x bx Hx) as [[-> ->]|[_ Hx']]; [done|]. rewrite Em. apply chain_txs_insert with b; [done..|].
    pose proof (Hc x bx Hx') as E. destruct (chain_txs (cm_map cm) x); cbn in E; [by rewrite E|done].
  - intros x Hin. destruct Hq as [(-> & _ & Hpar)|(q & bq & -> & _)]; [|by apply elem_of_nil in Hin].
    apply list_elem_of_singleton in Hin as ->. exists b1. rewrite Em, lookup_insert_eq. split_and!; [done|lia|].
    intros q bq Eq Hbq. rewrite E1 in Eq. destruct (Hback q bq ltac:(by rewrite Em)) as [[-> ->]|[_ Hq']]; [|by apply (Hpar q)].
    by pose proof (Hpar p b Eq Hp).
  - intros x bx Hx Hnz Hz. destruct (Hback x bx Hx) as [[-> ->]|[Hne Hx']].
    + destruct Hq as [(-> & _)|(q & bq & -> & Ew & Eq & _)]; [left; by apply list_elem_of_singleton|right].
      exists q. rewrite E1, Eu, Ew. split; [done|]. apply elem_of_app. right. by apply list_elem_of_singleton.
    + right. destruct (Hw x bx Hx' Hnz Hz) as (q & Eq & Hin). exists q. split; [done|]. rewrite Eu. apply elem_of_app. by left.
  - intros q x. rewrite Eu. intros [Hin|Hin]%elem_of_app.
    + destruct (Hu q x Hin) as (bx & Hx & Eq & Hnz). assert (x <> p) by (intros ->; congruence). exists bx. split_and!; auto.
      intros bq Hbq. destruct (Hback q bq Hbq) as [[-> ->]|[_ Hq']]; [by left|].
      rewrite (Hc x bx Hx), (Hc q bq Hq'), (chain_txs_eq _ x bx W Hx), (proj2 (Z.eqb_neq _ _) Hnz), Eq.
      destruct (chain_txs (cm_map cm) q) as [s|] eqn:Es; [right|by left]. cbn.
      pose proof (chain_txs_pos _ q s W Hn Es). pose proof (Hn x bx Hx). lia.
    + destruct Hq as [(_ & -> & _)|(q' & bq & _ & -> & Eq & Hbq & Hz)]; [by apply elem_of_nil in Hin|].
      apply list_elem_of_singleton in Hin. injection Hin as -> ->. exists b1. rewrite E1. split_and!; [by rewrite Em, lookup_insert_eq|done|lia|].
      intros bq' Hbq'. left. destruct (Hback q' bq' Hbq') as [[_ ->]|[_ Hq']]; [done|congruence].
Qed.

(** The fields of a block that has just been received. *)
Lemma received_entry b vtxSize :
  0 <= vtxSize < 2 ^ 32 ->
  exists b1 changed,
    RaiseValidity (set_status (Z.lor (nStatus b) BLOCK_HAVE_DATA) (set_txs (u32 vtxSize) 0 b)) BLOCK_VALID_TRANSACTIONS = Some (b1, changed)
    /\ link_of b1 = link_of b /\ nTx b1 = vtxSize /\ nChainTx b1 = 0 /\ nChainWork b1 = nChainWork b /\ have_data b1 = true.
Proof.
  intros Hv. assert (forall s, Z.testbit s 3 = true -> negb (Z.land s BLOCK_HAVE_DATA =? 0) = true) as Hbit.
  { intros s Hs. apply negb_true_iff, Z.eqb_neq. intros E. apply (f_equal (fun z => Z.testbit z 3)) in E.
    by rewrite Z.land_spec, Hs, Z.bits_0 in E. }
  assert (u32 vtxSize = vtxSize) as Hu by (apply Z.mod_small; lia).
  unfold RaiseValidity. change (Z.land BLOCK_VALID_TRANSACTIONS _) with 0. cbn [Z.eqb negb].
  repeat case_if; eexists _, _; (split; [reflexivity|]); cbn; rewrite Hu; split_and!; try done.
  all: apply Hbit; cbn [nStatus set_status]; rewrite ?Z.lor_spec, ?Z.land_spec, ?Z.lor_spec.
  all: change (Z.testbit (u32 (Z.lnot BLOCK_VALID_MASK)) 3) with true; change (Z.testbit BLOCK_HAVE_DATA 3) with true.
  all: by rewrite ?orb_true_r.
Qed.

(** The first half of [ReceivedBlockTransactions] ends in the loop, or in the wait for the parent. *)
Lemma receive_start addr cm vtxSize p b :
  linked cm -> cm_map cm !! p = Some b -> nTx b = 0 -> 0 < vtxSize < 2 ^ 32 ->
  (forall q bq, pprev b = Some q -> cm_map cm !! q = Some bq -> Chain.IsValid bq BLOCK_VALID_TREE = Some true) ->
  (forall x s, chain_txs (<[p := set_txs vtxSize 0 b]> (cm_map cm)) x = Some s -> s < 2 ^ 32) ->
  exists cm1 b1 queue, link_inv cm1 queue /\ tip_clear cm1 queue
  /\ ReceivedBlockTransactions addr cm vtxSize p = link_loop addr (S (length (unlinked cm))) cm1 queue
  /\ cm_map cm1 = <[p := b1]> (cm_map cm) /\ chainActive cm1 = chainActive cm /\ candidates cm1 = candidates cm
  /\ (length queue + length (unlinked cm1) = S (length (unlinked cm)))%nat /\ nBlockSequenceId cm1 = nBlockSequenceId cm
  /\ link_of b1 = link_of b /\ nTx b1 = vtxSize /\ nChainTx b1 = 0 /\ nChainWork b1 = nChainWork b /\ have_data b1 = true.
Proof.
  intros L Hp H0 Hv Hvalid Hroom. destruct (received_entry b vtxSize ltac:(lia)) as (b1 & ch & Er & El & Ent & Ec & Ew & Ed).
  pose proof (link_fields _ _ El) as (E1 & _ & E3).
  set (cma := mark_dirty p (with_index {| mapBlockIndex := <[p := b1]> (cm_map cm); pindexBestHeader := pindexBestHeader (cm_index cm);
                                          setDirtyBlockIndex := setDirtyBlockIndex (cm_index cm) |} cm)).
  assert (cm_map cma = <[p := b1]> (cm_map cm)) as Em by done.
  assert (forall x s, chain_txs (<[p := b1]> (cm_map cm)) x = Some s -> s < 2 ^ 32) as Hroom'.
  { intros x s. rewrite (same_keys_chain_txs (<[p := set_txs vtxSize 0 b]> (cm_map cm))); [apply Hroom|].
    unfold same_keys. rewrite !fmap_insert. replace (key b1) with (key (set_txs vtxSize 0 b)); [done|]. unfold key. by rewrite El, Ent. }
  assert (forall tip, chain_Tip (chainActive cm) = Some tip -> tip <> p /\ forall q, (q, tip) ∉ unlinked cm) as Htip.
  { intros tip Ht. destruct (ln_tip cm L tip Ht) as [(bt & Hbt & Hnz) Hu]. split; [|done]. intros ->.
    rewrite Hp in Hbt. injection Hbt as <-. apply Hnz. by rewrite (ln_chain cm L p b Hp), (chain_txs_eq _ p b (ln_index cm L) Hp), H0. }
  unfold ReceivedBlockTransactions. rewrite Hp. cbn [mbind option_bind]. rewrite Er. cbn [mbind option_bind].
  rewrite (update_entry_eq p _ cm b Hp). cbn [mbind option_bind]. fold cma. change (unlinked cma) with (unlinked cm).
  destruct (pprev b) as [q|] eqn:Eq.
  - destruct (wb_prev _ _ _ (ln_index cm L p b Hp) q Eq) as (bq & Hq & Hh). assert (q <> p) as Hqp by (intros ->; rewrite Hp in Hq; injection Hq as <-; lia).
    rewrite Em, lookup_insert_ne, Hq by done. cbn [mbind option_bind]. destruct (Z.eqb_spec (nChainTx bq) 0) as [Hz|Hnz]; cbn [negb].
    + rewrite (Hvalid q bq eq_refl Hq). cbn [mbind option_bind]. exists (with_unlinked (unlinked cm ++ [(q, p)]) cma), b1, [].
      split_and!; try done; [|intros tip Ht; destruct (Htip tip Ht) as [Hne Hu]; split; [apply not_elem_of_nil|]|].
      * apply (receive_inv cm _ p b b1 [] [(q, p)]); try done; [lia|]. right. by exists q, bq.
      * intros r [Hin|Hin]%elem_of_app; [by apply (Hu r)|]. apply list_elem_of_singleton in Hin. by injection Hin.
      * cbn [unlinked with_unlinked length]. rewrite length_app. cbn [length]. lia.
    + exists cma, b1, [p]. split_and!; try done.
      * apply (receive_inv cm _ p b b1 [p] []); try done; [by rewrite app_nil_r|lia|]. left. split_and!; [done|done|].
        intros q' bq' Eq' Hq'. congruence.
      * intros tip Ht. destruct (Htip tip Ht) as [Hne Hu]. split; [|done]. by intros ?%list_elem_of_singleton.
  - exists cma, b1, [p]. split_and!; try done.
    + apply (receive_inv cm _ p b b1 [p] []); try done; [by rewrite app_nil_r|lia|]. left. split_and!; [done|done|]. congruence.
    + intros tip Ht. destruct (Htip tip Ht) as [Hne Hu]. split; [|done]. by intros ?%list_elem_of_singleton.
Qed.

(** ** Lemmas: the active chain *)

(** [c] is the chain that ends in [a]. *)
Definition tip_is (m : BlockMap) (c : CChain) (a : ptr) : Prop :=
  exists b, m !! a = Some b /\ c = ancestors_of m a (nHeight b).

Lemma tip_is_chain_ok m c a : wf_index m -> tip_is m c a -> chain_ok m c.
Proof. intros W (b & Hb & ->). by apply ancestors_of_ok. Qed.

Lemma tip_is_tip m c a : wf_index m -> tip_is m c a -> chain_Tip c = Some a.
Proof.
  intros W (b & Hb & ->). pose proof (wb_height _ _ _ (W a b Hb)). unfold chain_Tip, ancestors_of.
  rewrite seq_S, map_app. cbn [map]. rewrite last_last. rewrite Nat.add_0_l, Z2Nat.id by lia. by apply ancestor_self.
Qed.

Lemma tip_is_Contains m c a q h :
  wf_index m -> tip_is m c a -> ancestor m a h = Some q -> chain_Contains m c q = true.
Proof.
  intros W (b & Hb & ->) Hq. destruct (ancestor_height m a q h W Hq) as (b' & bq & E & Hbq & Hh & Eh).
  rewrite Hb in E. injection E as <-. rewrite (chain_Contains_ok m _ q bq W) by (done || by apply ancestors_of_ok).
  rewrite ancestors_of_lookup by lia. rewrite Eh, Z2Nat.id by lia. by rewrite Hq.
Qed.

Lemma tip_is_Contains_inv m c a q :
  wf_index m -> tip_is m c a -> is_Some (m !! q) -> chain_Contains m c q = true -> exists h, ancestor m a h = Some q.
Proof.
  intros W (b & Hb & ->) [bq Hq] Hc. rewrite (chain_Contains_ok m _ q bq W) in Hc by (done || by apply ancestors_of_ok).
  destruct (decide (Z.to_nat (nHeight bq) <= Z.to_nat (nHeight b))%nat) as [Hle|Hgt].
  - rewrite ancestors_of_lookup in Hc by done. exists (Z.of_nat (Z.to_nat (nHeight bq))). by injection Hc.
  - apply lookup_lt_Some in Hc. unfold ancestors_of in Hc. rewrite length_map, length_seq in Hc. lia.
Qed.

Lemma tip_is_links m m' c a : same_links m m' -> tip_is m c a -> tip_is m' c a.
Proof.
  intros E (b & Hb & ->). destruct (same_image_lookup _ m m' a b E Hb) as (b' & Hb' & Hl). exists b'. split; [done|].
  apply link_fields in Hl as (_ & _ & ->). unfold ancestors_of. apply map_ext. intros i. symmetry. by apply same_links_ancestor.
Qed.

Lemma UpdateTip_ok cm a p b :
  wf_index (cm_map cm) -> tip_is (cm_map cm) (chainActive cm) a -> cm_map cm !! p = Some b ->
  exists c, UpdateTip cm (Some p) = Some (with_chain c cm) /\ tip_is (cm_map cm) c p.
Proof.
  intros W T Hp. exists (ancestors_of (cm_map cm) p (nHeight b)). split; [|by exists b].
  unfold UpdateTip. rewrite (SetTip_ok _ _ p b W) by (done || by eapply tip_is_chain_ok). done.
Qed.

(** ** Lemmas: work along a chain *)

(** Every block adds to the work of its chain. *)
Definition work_grows (m : BlockMap) : Prop :=
  forall p b q bq, m !! p = Some b -> pprev b = Some q -> m !! q = Some bq -> val (nChainWork bq) < val (nChainWork b).

Definition work (m : BlockMap) (p : ptr) : Z := match m !! p with Some b => val (nChainWork b) | None => 0 end.

Lemma strip_work m m' p : strip m = strip m' -> work m' p = work m p.
Proof.
  intros E. unfold work. destruct (m !! p) as [b|] eqn:Hp; [|by rewrite (strip_lookup_None m m' p E Hp)].
  destruct (strip_lookup m m' p b E Hp) as (b' & -> & Hs). by apply strip_same in Hs as (_ & _ & -> & _).
Qed.

Lemma strip_work_grows m m' : strip m = strip m' -> work_grows m -> work_grows m'.
Proof.
  intros E G p b' q bq' Hp Eq Hq. destruct (strip_lookup m' m p b' (eq_sym E) Hp) as (b & Hb & Hs).
  destruct (strip_lookup m' m q bq' (eq_sym E) Hq) as (bq & Hbq & Hsq).
  apply strip_same in Hs as (E1 & _ & E3 & _), Hsq as (_ & _ & E3' & _). rewrite <- E3, <- E3'. apply (G p b q); congruence.
Qed.

Lemma work_ancestor m p b q h :
  wf_index m -> work_grows m -> m !! p = Some b -> ancestor m p h = Some q -> h < nHeight b -> work m q < work m p.
Proof.
  intros W G. remember (Z.to_nat (nHeight b)) as n eqn:En. revert p b En. induction n as [|n IH]; intros p b En Hp Hq Hlt;
    destruct (ancestor_height m p q h W Hq) as (b' & bq & E & Hbq & Hh & Eh); rewrite Hp in E; injection E as <-; [lia|].
  destruct (pprev b) as [r|] eqn:Er; [|destruct (wb_root _ _ _ (W p b Hp) Er); lia].
  destruct (wb_prev _ _ _ (W p b Hp) r Er) as (br & Hr & Hhr). pose proof (G p b r br Hp Er Hr) as Hg.
  rewrite (ancestor_prev m p b r h) in Hq by (done || lia). unfold work at 2. rewrite Hp.
  assert (work m r = val (nChainWork br)) as Ewr by (unfold work; by rewrite Hr).
  destruct (decide (h = nHeight br)) as [->|Hne].
  - rewrite ancestor_self in Hq by (done || lia). injection Hq as <-. lia.
  - specialize (IH r br ltac:(lia) Hr Hq ltac:(lia)). lia.
Qed.

(** The tip is not better than a candidate above it. *)
Lemma above_not_worse addr m p q h :
  wf_index m -> ordered addr m -> work_grows m -> ancestor m p h = Some q -> worse addr m p q = false.
Proof.
  intros W O G Hq. destruct (ancestor_height m p q h W Hq) as (b & bq & Hp & Hbq & Hh & Eh).
  destruct (decide (h = nHeight b)) as [->|Hne].
  - rewrite ancestor_self in Hq by (done || lia). injection Hq as <-. apply not_true_iff_false. intros Hw.
    pose proof (worse_asym addr m p p O Hw). congruence.
  - pose proof (work_ancestor m p b q h W G Hp Hq ltac:(lia)) as Hlt. unfold work in Hlt. rewrite Hp, Hbq in Hlt.
    apply not_true_iff_false. intros Hw. rewrite (worse_iff addr m p q b bq O Hp Hbq) in Hw. unfold lex_worse in Hw. lia.
Qed.

Lemma drop_worse_sub addr m tip l s : drop_worse addr m tip l s ⊆ s.
Proof.
  revert s. induction l as [|p l IH]; intros s; [done|]. cbn [drop_worse]. case_if; [|done].
  etransitivity; [apply IH|]. intros x Hx. by apply elem_of_difference in Hx as [? _].
Qed.

Lemma drop_worse_keeps addr m tip l s p : p ∈ s -> worse addr m p tip = false -> p ∈ drop_worse addr m tip l s.
Proof.
  intros Hp Hw. revert s Hp. induction l as [|q l IH]; intros s Hp; [done|]. cbn [drop_worse].
  destruct (worse addr m q tip) eqn:E; [|done]. apply IH. apply elem_of_difference. split; [done|].
  intros ->%elem_of_singleton. congruence.
Qed.

Lemma Prune_ok addr cm a p h :
  man_ok addr cm -> work_grows (cm_map cm) -> tip_is (cm_map cm) (chainActive cm) a -> p ∈ candidates cm -> ancestor (cm_map cm) p h = Some a ->
  exists s, PruneBlockIndexCandidates addr cm = Some (with_candidates s cm) /\ s ⊆ candidates cm /\ p ∈ s.
Proof.
  intros [W O _ _ _ _] G T Hp Ha. unfold PruneBlockIndexCandidates. rewrite (tip_is_tip _ _ a W T). cbn [mbind option_bind].
  set (s := drop_worse _ _ _ _ _). assert (p ∈ s) as Hps by (apply drop_worse_keeps; [done|by eapply above_not_worse]).
  exists s. rewrite decide_False by (intros E; rewrite E in Hps; by apply elem_of_empty in Hps).
  split_and!; [done|apply drop_worse_sub|done].
Qed.

(** ** Lemmas: one step of the activation *)

Section StepLemmas.
Context {T : Type} `{ChainBackend T}.
Variable addr : ptr -> Z.

(** The index at the start, of which only statuses change, and the candidate that is to be connected. *)
Variables (m0 : BlockMap) (p : ptr).
Hypothesis W0 : wf_index m0.
Hypothesis G0 : work_grows m0.

(** The state in the middle of a step: the active chain ends in [a]. *)
Record at_tip (cm : ChainMan) (a : ptr) : Prop := {
  at_ok : man_ok addr cm;
  at_strip : strip (cm_map cm) = strip m0;
  at_chain : tip_is m0 (chainActive cm) a;
}.

(** All blocks connect and disconnect, the flush succeeds, and no height is set to stop at. *)
Definition accepts : Prop :=
  (forall q t, (be_connect q t).1 = Connected) /\ (forall q t, (be_disconnect q t).1 = true)
  /\ (forall t, (be_flush t).1 = true) /\ stopatblocknumber <= 0.

Lemma at_lookup cm a q b : at_tip cm a -> m0 !! q = Some b -> exists b', cm_map cm !! q = Some b' /\ set_status 0 b' = set_status 0 b.
Proof. intros A. apply strip_lookup. symmetry. apply A. Qed.

Lemma at_tip_is cm a : at_tip cm a -> tip_is (cm_map cm) (chainActive cm) a.
Proof. intros A. apply (tip_is_links m0); [|apply A]. apply strip_links. symmetry. apply A. Qed.

Lemma at_Tip cm a : at_tip cm a -> chain_Tip (chainActive cm) = Some a.
Proof. intros A. eapply tip_is_tip; [exact W0|apply A]. Qed.

Lemma at_same cm cm' a : at_tip cm a -> man_ok addr cm' -> strip (cm_map cm') = strip (cm_map cm) -> chainActive cm' = chainActive cm -> at_tip cm' a.
Proof. intros [A1 A2 A3] Hok Es Ec. split; [done|congruence|by rewrite Ec]. Qed.

Lemma UpdateTip_at cm a q : at_tip cm a -> is_Some (m0 !! q) -> exists c, UpdateTip cm (Some q) = Some (with_chain c cm) /\ at_tip (with_chain c cm) q.
Proof.
  intros A [b Hb]. destruct (at_lookup cm a q b A Hb) as (b' & Hb' & _).
  destruct (UpdateTip_ok cm a q b') as (c & E & Ht); [apply (at_ok _ _ A)|by apply at_tip_is|done|]. exists c. split; [done|].
  split; [|apply A|].
  - destruct (at_ok _ _ A) as [? ? ? ? ? ?]. by split.
  - apply (tip_is_links (cm_map cm)); [|done]. apply strip_links, A.
Qed.

Lemma DisconnectTip_at cm t a b q :
  at_tip cm a -> m0 !! a = Some b -> pprev b = Some q ->
  exists c, DisconnectTip cm t = Some ((be_disconnect a t).1, if (be_disconnect a t).1 then with_chain c cm else cm, (be_disconnect a t).2)
  /\ at_tip (with_chain c cm) q.
Proof.
  intros A Hb Eq. destruct (at_lookup cm a a b A Hb) as (b' & Hb' & Hs). apply strip_same in Hs as (E1 & _).
  destruct (wb_prev _ _ _ (W0 a b Hb) q Eq) as (bq & Hq & _). destruct (UpdateTip_at cm a q A) as (c & Eu & Ac); [by eexists|].
  exists c. split; [|done]. unfold DisconnectTip. rewrite (at_Tip cm a A). cbn [mbind option_bind].
  destruct (be_disconnect a t) as [ok t']. destruct ok; cbn [negb]; [|done].
  rewrite Hb'. cbn [mbind option_bind]. rewrite E1, Eq, Eu. done.
Qed.

Lemma with_chain_id cm : with_chain (chainActive cm) cm = cm.
Proof. by destruct cm. Qed.

(** Disconnecting down to an entry [f] of the chain. *)
Lemma disconnect_to_ok fuel cm t a f b :
  at_tip cm a -> m0 !! a = Some b -> (exists h, ancestor m0 a h = Some f) -> (Z.to_nat (nHeight b) <= fuel)%nat ->
  exists ok c t' a', disconnect_to fuel (Some f) cm t = Some (ok, with_chain c cm, t') /\ at_tip (with_chain c cm) a'
  /\ (exists h, ancestor m0 a h = Some a') /\ (ok = true -> a' = f) /\ (accepts -> ok = true).
Proof.
  revert cm t a b. induction fuel as [|fuel IH]; intros cm t a b A Hb [h Hf] Hfuel; cbn [disconnect_to]; rewrite (at_Tip cm a A).
  all: destruct (bool_decide (Some a = Some f)) eqn:E; [apply bool_decide_eq_true in E; injection E as ->|apply bool_decide_eq_false in E].
  1,3: exists true, (chainActive cm), t, f; rewrite with_chain_id; split_and!; [done|done|by exists h|done|done].
  all: destruct (ancestor_height m0 a f h W0 Hf) as (b' & bf & Eb & Hbf & Hh & Eh); rewrite Hb in Eb; injection Eb as <-.
  all: assert (h < nHeight b) as Hlt by (destruct (decide (h = nHeight b)) as [->|]; [rewrite ancestor_self in Hf by (done || lia); congruence|lia]).
  { lia. }
  destruct (pprev b) as [q|] eqn:Eq; [|destruct (wb_root _ _ _ (W0 a b Hb) Eq); lia].
  destruct (wb_prev _ _ _ (W0 a b Hb) q Eq) as (bq & Hq & Hhq).
  destruct (DisconnectTip_at cm t a b q A Hb Eq) as (c & -> & Ac). cbn [mbind option_bind].
  pose proof (ancestor_prev m0 a b q) as Hap. destruct ((be_disconnect a t).1) eqn:Ed; cbn [negb].
  - rewrite (ancestor_prev m0 a b q h) in Hf by (done || lia).
    destruct (IH (with_chain c cm) (be_disconnect a t).2 q bq Ac Hq) as (ok & c' & t' & a' & -> & A' & [h' Ha'] & Hok & Hacc); [eauto|lia|].
    exists ok, c', t', a'. split_and!; try done. destruct (ancestor_height m0 q a' h' W0 Ha') as (bq' & ba & Ebq & _ & Hh' & _).
    rewrite Hq in Ebq. injection Ebq as <-. exists h'. rewrite Hap by (done || lia). done.
  - exists false, (chainActive cm), (be_disconnect a t).2, a. rewrite with_chain_id. split_and!; [done|done| |done|].
    + exists (nHeight b). apply ancestor_self; [done|]. lia.
    + intros (_ & Hd & _). by rewrite Hd in Ed.
Qed.

(** What connecting one block leaves. *)
Record after_connect (cm cm' : ChainMan) (a : ptr) : Prop := {
  ac_at : at_tip cm' a;
  ac_sub : candidates cm' ⊆ candidates cm;
}.

Lemma InvalidChainFound_at cm a q : at_tip cm a -> is_Some (m0 !! q) -> exists cm', InvalidChainFound cm q = Some cm' /\ after_connect cm cm' a.
Proof.
  intros A [b0 Hb0]. destruct (at_lookup cm a q b0 A Hb0) as (b & Hb & _). unfold InvalidChainFound.
  assert (exists more, more_work_than_invalid cm q = Some more) as [more ->].
  { unfold more_work_than_invalid. pose proof (mo_invalid addr cm (at_ok _ _ A)) as Hinv.
    destruct (pindexBestInvalid cm) as [r|]; [|by eexists]. destruct (Hinv r eq_refl) as [br Hbr]. rewrite Hb, Hbr. by eexists. }
  cbn [mbind option_bind]. rewrite (at_Tip cm a A). cbn [mbind option_bind].
  exists (if more then with_invalid (Some q) cm else cm). split; [done|]. destruct more; [|by split].
  split; [|done]. apply (at_same cm); [done| |done|done]. apply (man_ok_strip addr cm); [done|done| |apply A].
  intros r [= <-]. by exists b.
Qed.

(** What connecting the entry [x] with the fields [b] comes to. *)
Definition outcome (b : CBlockIndex) (x : ptr) (t : T) : ConnectResult * T :=
  if (stopatblocknumber >? 0) && (nHeight b >=? stopatblocknumber) then (SystemError, t) else be_connect x t.

Lemma outcome_accepts b x t : accepts -> (outcome b x t).1 = Connected.
Proof. intros (Hc & _ & _ & Hs). unfold outcome. rewrite Z.gtb_ltb, (proj2 (Z.ltb_ge _ _)) by lia. apply Hc. Qed.

Lemma ConnectTip_at cm t x bx a :
  at_tip cm a -> m0 !! x = Some bx -> pprev bx = Some a ->
  exists cm', ConnectTip cm t x = Some ((outcome bx x t).1, cm', (outcome bx x t).2) /\
  after_connect cm cm' (match (outcome bx x t).1 with Connected => x | _ => a end)
  /\ ((outcome bx x t).1 = Connected -> candidates cm' = candidates cm).
Proof.
  intros A Hx Ex. destruct (at_lookup cm a x bx A Hx) as (bx' & Hx' & Hs). apply strip_same in Hs as (Ep & Eh & _).
  unfold ConnectTip, outcome. rewrite Hx'. cbn [mbind option_bind]. rewrite Eh.
  destruct ((stopatblocknumber >? 0) && (nHeight bx >=? stopatblocknumber)); [exists cm; by split_and!|].
  rewrite bool_decide_eq_true_2 by (by rewrite (at_Tip cm a A), Ep). cbn [negb].
  destruct (be_connect x t) as [r t']. cbn [fst snd]. destruct r as [|corr|].
  - destruct (UpdateTip_at cm a x A) as (c & -> & Ac); [by eexists|]. exists (with_chain c cm). by split_and!.
  - unfold InvalidBlockFound. destruct corr; cbn [negb mbind option_bind]; [exists cm; by split_and!|].
    rewrite Hx'. cbn [mbind option_bind].
    destruct (update_entry_ok x (set_status (Z.lor (nStatus bx') BLOCK_FAILED_VALID)) cm bx' Hx') as (cm1 & -> & Em & Ec & Ek & _ & Ei & _).
    cbn [mbind option_bind]. set (cm2 := with_candidates _ _).
    assert (strip (cm_map cm2) = strip (cm_map cm)) as Es by (change (cm_map cm2) with (cm_map cm1); rewrite Em; by apply strip_update).
    assert (candidates cm2 ⊆ candidates cm) as Hsub.
    { intros q Hq. apply elem_of_difference in Hq as [Hq _]. change (candidates (mark_dirty x cm1)) with (candidates cm1) in Hq. by rewrite <- Ek. }
    assert (at_tip cm2 a) as A2.
    { apply (at_same cm); [done| |done|done]. apply (man_ok_strip addr cm); [done|done| |apply A].
      change (pindexBestInvalid cm2) with (pindexBestInvalid cm1). rewrite Ei. intros q Eq.
      destruct (mo_invalid addr cm (at_ok _ _ A) q Eq) as [bq Hbq]. destruct (strip_lookup _ (cm_map cm2) q bq (eq_sym Es) Hbq) as (? & ? & _). eauto. }
    destruct (InvalidChainFound_at cm2 a x A2) as (cm3 & -> & A3 & S3); [by eexists|]. exists cm3. cbn. split; [done|].
    split; [|done]. split; [done|by etransitivity].
  - exists cm. by split_and!.
Qed.

(** The result of connecting part of the path to the candidate, from the height [h] on. *)
Definition batch_result (h : Z) (n : nat) (old : ptr) (cm : ChainMan) (r : BatchResult) (cm' : ChainMan) : Prop :=
  exists a h', at_tip cm' a /\ ancestor m0 p h' = Some a /\ h <= h' /\ candidates cm' ⊆ candidates cm
  /\ (accepts -> r = BatchGoOn \/ r = BatchStop)
  /\ match r with
     | BatchGoOn => h' = h + Z.of_nat n /\ p ∈ candidates cm'
     | BatchStop => h < h' /\ work m0 old < work m0 a /\ p ∈ candidates cm'
     | _ => True
     end.

Lemma connect_batch_ok l lowest old cm t a h :
  at_tip cm a -> ancestor m0 p h = Some a -> p ∈ candidates cm -> is_Some (m0 !! old) -> is_Some (m0 !! lowest) ->
  (forall i x, l !! i = Some x -> ancestor m0 p (h + 1 + Z.of_nat i) = Some x) ->
  exists r cm' t', connect_batch addr l lowest (Some old) cm t = Some (r, cm', t') /\ batch_result h (length l) old cm r cm'.
Proof.
  intros A Ha Hp Hold Hlow. revert cm t a h A Ha Hp. induction l as [|x l IH]; intros cm t a h A Ha Hp Hl; cbn [connect_batch].
  { exists BatchGoOn, cm, t. split; [done|]. exists a, h. split_and!; try done; [by left|cbn; lia]. }
  pose proof (Hl 0%nat x eq_refl) as Hx. rewrite Z.add_0_r in Hx.
  destruct (ancestor_height m0 p x _ W0 Hx) as (b & bx & Hb & Hbx & Hh & Eh).
  assert (pprev bx = Some a) as Ex.
  { destruct (ancestor_height m0 p a h W0 Ha) as (? & ? & _ & _ & Hh0 & _).
    rewrite <- (ancestor_trans m0 p b x (h + 1) h W0 Hb) in Ha by (done || lia).
    destruct (ancestor_height m0 x a h W0 Ha) as (bx' & ba & E & _ & Hh' & _). rewrite Hbx in E. injection E as <-.
    destruct (pprev bx) as [q|] eqn:Eq; [|destruct (wb_root _ _ _ (W0 x bx Hbx) Eq); lia].
    destruct (wb_prev _ _ _ (W0 x bx Hbx) q Eq) as (bq & Hq & Hhq). rewrite (ancestor_prev m0 x bx q h) in Ha by (done || lia).
    rewrite <- Ha. replace h with (nHeight bq) by lia. symmetry. apply ancestor_self; [done|]. pose proof (wb_height _ _ _ (W0 q bq Hq)). lia. }
  destruct (ConnectTip_at cm t x bx a A Hbx Ex) as (cm1 & -> & [A1 S1] & K1). cbn [mbind option_bind].
  destruct ((outcome bx x t).1) as [|corr|] eqn:Er.
  - assert (ancestor (cm_map cm1) p (h + 1) = Some x) as Hx1.
    { rewrite (same_links_ancestor m0); [done|]. apply strip_links. symmetry. apply A1. }
    destruct (Prune_ok addr cm1 x p (h + 1)) as (s & -> & Hs & Hps); [apply A1|apply (strip_work_grows m0); [symmetry; apply A1|done]|by apply at_tip_is|by rewrite K1|done|].
    cbn [mbind option_bind]. set (cm2 := with_candidates s cm1).
    assert (at_tip cm2 x) as A2.
    { apply (at_same cm1); [done| |done|done]. apply (man_ok_strip addr cm1); [done|done|apply A1|apply A1]. }
    rewrite (at_Tip cm2 x A2). cbn [mbind option_bind]. destruct Hold as [bo Hbo].
    destruct (at_lookup cm2 x x bx A2 Hbx) as (bx2 & -> & Hsx). destruct (at_lookup cm2 x old bo A2 Hbo) as (bo2 & -> & Hso).
    cbn [mbind option_bind]. apply strip_same in Hsx as (_ & _ & -> & _), Hso as (_ & _ & -> & _).
    assert (ordered addr m0) as O0 by (apply (strip_ordered addr (cm_map cm1)); [apply A1|apply A1]).
    rewrite gt_val by (by eapply or_work).
    destruct (Z.ltb_spec (val (nChainWork bo)) (val (nChainWork bx))) as [Hgt|Hle].
    + exists BatchStop, cm2, (outcome bx x t).2. split; [done|]. exists x, (h + 1). split_and!; try done; [lia|exact (transitivity Hs S1)|by right|lia|].
      unfold work. rewrite Hbx, Hbo. lia.
    + destruct (IH cm2 (outcome bx x t).2 x (h + 1) A2 Hx Hps) as (r & cm' & t' & -> & a' & h' & A' & Ha' & Hh' & Sub & Hacc & Hr).
      { intros i y Hy. rewrite <- (Hl (S i) y Hy). f_equal. lia. }
      exists r, cm', t'. split; [done|]. exists a', h'. split_and!; try done; [lia|exact (transitivity Sub (transitivity Hs S1))|].
      destruct r; cbn [length]; intuition lia.
  - assert (exists cm2, (if negb corr then InvalidChainFound cm1 lowest else Some cm1) = Some cm2 /\ after_connect cm1 cm2 a) as (cm2 & -> & A2 & S2).
    { destruct corr; [exists cm1; by split|]. by apply InvalidChainFound_at. }
    cbn [mbind option_bind]. exists BatchInvalid, cm2, (outcome bx x t).2. split; [done|]. exists a, h.
    split_and!; try done; [exact (transitivity S2 S1)|]. intros Hac. by rewrite (outcome_accepts bx x t Hac) in Er.
  - exists BatchError, cm1, (outcome bx x t).2. split; [done|]. exists a, h. split_and!; try done. intros Hac. by rewrite (outcome_accepts bx x t Hac) in Er.
Qed.

(** The blocks above the height [h] of the path, the highest first. *)
Lemma to_connect_ok fuel cm x bx a h :
  at_tip cm a -> m0 !! x = Some bx -> -1 <= h <= nHeight bx -> (Z.to_nat (nHeight bx - h) <= fuel)%nat ->
  exists l, to_connect fuel (cm_map cm) (Some x) h = Some l /\ length l = Z.to_nat (nHeight bx - h)
  /\ forall i y, l !! i = Some y -> ancestor m0 x (nHeight bx - Z.of_nat i) = Some y.
Proof.
  intros A. revert x bx. induction fuel as [|fuel IH]; intros x bx Hx Hh Hf; cbn [to_connect];
    destruct (at_lookup cm a x bx A Hx) as (b' & -> & Hs); apply strip_same in Hs as (E1 & E2 & _); cbn [mbind option_bind]; rewrite E2.
  { rewrite (proj2 (Z.eqb_eq _ _)) by lia. exists []. split_and!; [done|cbn; lia|]. intros i y. by rewrite lookup_nil. }
  destruct (Z.eqb_spec (nHeight bx) h) as [<-|Hne].
  { exists []. split_and!; [done|cbn; lia|]. intros i y. by rewrite lookup_nil. }
  rewrite E1. pose proof (wb_height _ _ _ (W0 x bx Hx)) as H0.
  assert (forall i y, 0 <= i -> i = 0 -> ancestor m0 x (nHeight bx - i) = Some y <-> y = x) as Hzero.
  { intros i y _ ->. rewrite Z.sub_0_r, ancestor_self by (done || lia). split; congruence. }
  destruct (pprev bx) as [q|] eqn:Eq.
  - destruct (wb_prev _ _ _ (W0 x bx Hx) q Eq) as (bq & Hq & Hhq).
    destruct (IH q bq Hq ltac:(lia) ltac:(lia)) as (l & -> & Hlen & Hl). cbn [mbind option_bind]. exists (x :: l).
    split_and!; [done|cbn [length]; lia|]. intros [|i] y Hy; cbn in Hy.
    + apply Hzero; [lia|done|congruence].
    + pose proof (Hl i y Hy) as Hy'. destruct (ancestor_height m0 q y _ W0 Hy') as (bq' & ? & Ebq & _ & Hb & _). rewrite Hq in Ebq. injection Ebq as <-.
      rewrite (ancestor_prev m0 x bx q) by (done || lia). rewrite <- Hy'. f_equal. lia.
  - destruct (wb_root _ _ _ (W0 x bx Hx) Eq) as [Hr _]. assert (h = -1) as -> by lia.
    exists [x]. split_and!; [by destruct fuel|rewrite Hr; done|]. intros [|i] y Hy; cbn in Hy; [|done].
    apply Hzero; [lia|done|congruence].
Qed.

(** One turn of the outer loop, which connects up to 32 blocks. *)
Lemma connect_turn_ok old cm t a h b :
  at_tip cm a -> ancestor m0 p h = Some a -> p ∈ candidates cm -> is_Some (m0 !! old) -> m0 !! p = Some b -> h < nHeight b ->
  let target := Z.min (h + 32) (nHeight b) in
  exists x l r cm' t', GetAncestor (cm_map cm) p target = Some (Some x) /\ to_connect (Z.to_nat (target - h)) (cm_map cm) (Some x) h = Some l
  /\ connect_batch addr (reverse l) (List.last l 0) (Some old) cm t = Some (r, cm', t')
  /\ batch_result h (Z.to_nat (target - h)) old cm r cm'.
Proof.
  intros A Ha Hp Hold Hb Hlt target. destruct (ancestor_height m0 p a h W0 Ha) as (b0 & ba & _ & _ & Hh & _).
  destruct (ancestor_ok m0 p b target W0 Hb ltac:(lia)) as (x & bx & Hx & Hbx & Ehx).
  destruct (at_lookup cm a p b A Hb) as (b' & Hb' & Hs). apply strip_same in Hs as (_ & Eh & _).
  destruct (to_connect_ok (Z.to_nat (target - h)) cm x bx a h A Hbx ltac:(lia) ltac:(lia)) as (l & El & Hlen & Hl).
  assert (forall i y, l !! i = Some y -> ancestor m0 p (target - Z.of_nat i) = Some y) as Hlp.
  { intros i y Hy. apply lookup_lt_Some in Hy as Hi. rewrite <- (ancestor_trans m0 p b x target) by (done || lia). rewrite <- Ehx. by apply Hl. }
  destruct (connect_batch_ok (reverse l) (List.last l 0) old cm t a h A Ha Hp Hold) as (r & cm' & t' & E & R).
  - destruct (exists_last (l := l)) as (l' & z & ->); [intros ->; cbn in Hlen; lia|]. rewrite last_last.
    assert (ancestor m0 p (target - Z.of_nat (length l')) = Some z) as Hz by (apply Hlp; by apply list_lookup_middle).
    destruct (ancestor_height m0 p z _ W0 Hz) as (_ & bz & _ & Hbz & _). by exists bz.
  - intros i y Hy. apply lookup_lt_Some in Hy as Hi. rewrite length_reverse in Hi. rewrite reverse_lookup in Hy by done.
    rewrite <- (Hlp _ y Hy). f_equal. lia.
  - rewrite length_reverse, Hlen, Ehx in R. exists x, l, r, cm', t'. split_and!; [|done|done|done].
    rewrite (GetAncestor_ok _ p b' target); [|eapply mo_index, A|done].
    rewrite (same_links_ancestor m0); [by rewrite Hx|]. apply strip_links. symmetry. apply A.
Qed.

Lemma connect_blocks_ok fuel old cm t a h b :
  at_tip cm a -> ancestor m0 p h = Some a -> p ∈ candidates cm -> is_Some (m0 !! old) -> m0 !! p = Some b -> h <= nHeight b ->
  (Z.to_nat (nHeight b - h) <= fuel)%nat ->
  exists r cm' t', connect_blocks addr fuel p h (nHeight b) (Some old) cm t = Some (r, cm', t')
  /\ batch_result h (Z.to_nat (nHeight b - h)) old cm r cm'.
Proof.
  revert cm t a h. induction fuel as [|fuel IH]; intros cm t a h A Ha Hp Hold Hb Hle Hf; cbn [connect_blocks];
    destruct (Z.eqb_spec h (nHeight b)) as [Eh|Hne]; try lia.
  1,2: exists BatchGoOn, cm, t; split; [done|]; exists a, h; split_and!; try done; [by left|lia].
  destruct (connect_turn_ok old cm t a h b A Ha Hp Hold Hb ltac:(lia)) as (x & l & r & cm1 & t1 & -> & El & E & a1 & h1 & A1 & Ha1 & Hh1 & S1 & Hacc & Hr).
  cbn [mbind option_bind]. rewrite El. cbn [mbind option_bind]. rewrite E. cbn [mbind option_bind].
  destruct r as [| | |]; [|eexists _, _, _; split; [reflexivity|]; by exists a1, h1..].
  destruct Hr as [Eh1 Hp1]. set (target := Z.min (h + 32) (nHeight b)) in *. assert (h1 = target) as Et by lia. rewrite <- Et.
  destruct (IH cm1 t1 a1 h1 A1 Ha1 Hp1 Hold Hb ltac:(lia) ltac:(lia)) as (r & cm' & t' & -> & a' & h' & A' & Ha' & Hh' & S' & Hacc' & Hr').
  exists r, cm', t'. split; [done|]. exists a', h'. split_and!; [done|done|lia|exact (transitivity S' S1)|done|].
  destruct r; intuition lia.
Qed.

Lemma fork_ok cm a b g :
  at_tip cm a -> m0 !! p = Some b -> ancestor m0 a 0 = Some g -> ancestor m0 p 0 = Some g ->
  exists f h, FindFork (cm_map cm) (chainActive cm) (Some p) = Some (Some f) /\ ancestor m0 a h = Some f /\ ancestor m0 p h = Some f.
Proof.
  intros A Hb Hga Hgp. destruct (at_lookup cm a p b A Hb) as (b' & Hb' & _).
  assert (wf_index (cm_map cm)) as W by eapply mo_index, A.
  assert (forall q h, ancestor (cm_map cm) q h = ancestor m0 q h) as Eanc.
  { intros q h. apply same_links_ancestor, strip_links. symmetry. apply A. }
  destruct (FindFork_ok (cm_map cm) (chainActive cm) p b' W Hb') as ([f|] & -> & Hl); cbn in Hl.
  - destruct Hl as (Hc & h & Hf & _). destruct (ancestor_height _ p f h W Hf) as (_ & bf & _ & Hbf & _ & _).
    destruct (tip_is_Contains_inv _ _ a f W (at_tip_is cm a A)) as [h' Hf']; [by eexists|done|].
    destruct (ancestor_height _ a f h' W Hf') as (_ & bf' & _ & Hbf' & _ & Eh'). destruct (ancestor_height _ p f h W Hf) as (_ & bf'' & _ & Hbf'' & _ & Eh).
    assert (h' = h) as -> by congruence. rewrite Eanc in Hf, Hf'. eauto.
  - exfalso. apply (Hl 0 g); [by rewrite Eanc|]. eapply tip_is_Contains; [exact W|by apply at_tip_is|]. by rewrite Eanc.
Qed.

Lemma ActivateBestChainStep_ok cm t a b g :
  at_tip cm a -> p ∈ candidates cm -> m0 !! p = Some b -> ancestor m0 a 0 = Some g -> ancestor m0 p 0 = Some g ->
  exists ok invalid cm' t' a', ActivateBestChainStep addr cm t p = Some (ok, invalid, cm', t') /\ at_tip cm' a'
  /\ candidates cm' ⊆ candidates cm /\ (is_ancestor m0 a a' \/ is_ancestor m0 p a') /\ (accepts -> ok = true /\ invalid = false)
  /\ (ok = true -> invalid = false -> p ∈ candidates cm' /\ is_ancestor m0 p a' /\ (a' = p \/ work m0 a < work m0 a')).
Proof.
  intros A Hp Hb Hga Hgp. destruct (fork_ok cm a b g A Hb Hga Hgp) as (f & h & Ef & Hfa & Hfp).
  destruct (ancestor_height m0 a f h W0 Hfa) as (ba & bf & Hba & Hbf & Hh & Ehf).
  destruct (ancestor_height m0 p f h W0 Hfp) as (b' & bf' & Eb & _ & Hhp & _). rewrite Hb in Eb. injection Eb as <-.
  unfold ActivateBestChainStep. rewrite Ef. cbn [mbind option_bind].
  assert (Z.to_nat (nHeight ba) <= length (chainActive cm))%nat as Hlen.
  { destruct (at_chain cm a A) as (ba' & Hba' & ->). rewrite Hba in Hba'. injection Hba' as <-. unfold ancestors_of. rewrite length_map, length_seq. lia. }
  destruct (disconnect_to_ok (length (chainActive cm)) cm t a f ba A Hba (ex_intro _ h Hfa) Hlen) as (ok & c & t1 & a1 & -> & A1 & Ha1 & Hok & Hacc).
  cbn [mbind option_bind]. destruct ok; cbn [negb].
  2:{ exists false, false, (with_chain c cm), t1, a1. split_and!; try done; [by left|]. intros Hac. by specialize (Hacc Hac). }
  rewrite (Hok eq_refl) in A1. destruct (at_lookup _ f f bf A1 Hbf) as (bf2 & -> & Hs1). destruct (at_lookup _ f p b A1 Hb) as (b2 & -> & Hs2).
  cbn [mbind option_bind]. apply strip_same in Hs1 as (_ & -> & _), Hs2 as (_ & -> & _). rewrite Ehf.
  rewrite (at_Tip cm a A).
  destruct (connect_blocks_ok (Z.to_nat (nHeight b - h)) a (with_chain c cm) t1 f h b A1 Hfp Hp) as (r & cm' & t' & -> & a' & h' & A' & Ha' & Hh' & S' & Hacc' & Hr);
    [by eexists|done|lia|lia|]. cbn [mbind option_bind].
  destruct r; [exists true, false|exists true, false|exists true, true|exists false, false]; exists cm', t', a'; (split_and!; try done; [by right; exists h'|..]).
  - intros _ _. destruct Hr as [Eh' Hp']. split_and!; [done|by exists h'|left].
    replace h' with (nHeight b) in Ha' by lia. rewrite ancestor_self in Ha' by (done || lia). congruence.
  - intros _ _. destruct Hr as (Eh' & Hw & Hp'). split_and!; [done|by exists h'|by right].
  - intros Hac. by destruct (Hacc' Hac).
  - intros Hac. by destruct (Hacc' Hac).
Qed.

(** With a backend that accepts every block the loop connects the whole path. *)
Lemma activate_loop_ok fuel cm t a b g ha :
  accepts -> at_tip cm a -> p ∈ candidates cm -> m0 !! p = Some b -> ancestor m0 p 0 = Some g ->
  ancestor m0 p ha = Some a -> a <> p -> nHeight b - ha <= Z.of_nat fuel ->
  exists cm' t', activate_loop addr fuel (Some p) cm t = Some (true, cm', t') /\ at_tip cm' p /\ candidates cm' ⊆ candidates cm.
Proof.
  intros Hacc. revert cm t a ha. induction fuel as [|fuel IH]; intros cm t a ha A Hp Hb Hg Ha Hne Hf;
    destruct (ancestor_height m0 p a ha W0 Ha) as (b' & ba & Eb & Hba & Hh & Eha); rewrite Hb in Eb; injection Eb as <-.
  { replace ha with (nHeight b) in Ha by lia. rewrite ancestor_self in Ha by (done || lia). congruence. }
  assert (ancestor m0 a 0 = Some g) as Hga by (by rewrite (ancestor_trans m0 p b a ha) by (done || lia)).
  destruct (ActivateBestChainStep_ok cm t a b g A Hp Hb Hga Hg) as (ok & inv & cm1 & t1 & a1 & E & A1 & S1 & _ & Hac & Hr).
  destruct (Hac Hacc) as [-> ->]. destruct (Hr eq_refl eq_refl) as (Hp1 & [h1 Ha1] & Hor).
  cbn [activate_loop]. unfold activate_once. cbn [mbind option_bind]. rewrite bool_decide_eq_false_2 by (rewrite (at_Tip cm a A); congruence).
  rewrite E. cbn [mbind option_bind negb]. rewrite (at_Tip cm1 a1 A1).
  destruct (bool_decide (Some a1 = Some p)) eqn:Ed.
  - apply bool_decide_eq_true in Ed. injection Ed as ->. cbn [mbind option_bind]. destruct Hacc as (_ & _ & Hfl & _).
    specialize (Hfl t1). destruct (be_flush t1) as [ok t2]. cbn in Hfl. subst ok. by exists cm1, t2.
  - apply bool_decide_eq_false in Ed. cbn [mbind option_bind]. destruct Hor as [->|Hw]; [done|].
    destruct (ancestor_height m0 p a1 h1 W0 Ha1) as (b' & ba1 & Eb & Hba1 & Hh1 & Eha1). rewrite Hb in Eb. injection Eb as <-.
    assert (ha < h1) as Hlt.
    { destruct (decide (h1 <= ha)) as [Hle|]; [|lia]. rewrite <- (ancestor_trans m0 p b a ha h1) in Ha1 by (done || lia).
      destruct (decide (h1 = ha)) as [->|]; [rewrite <- Eha, ancestor_self in Ha1 by (done || lia); injection Ha1 as ->; lia|].
      pose proof (work_ancestor m0 a ba a1 h1 W0 G0 Hba Ha1 ltac:(lia)). lia. }
    destruct (IH cm1 t1 a1 h1 A1 Hp1 Hb Hg Ha1) as (cm' & t' & -> & A' & S'); [congruence|lia|].
    exists cm', t'. split_and!; [done|done|exact (transitivity S' S1)].
Qed.

(** The turns of the loop after the search, from a tip that need not be on the path. *)
Lemma activate_from fuel cm t a b g :
  accepts -> at_tip cm a -> p ∈ candidates cm -> m0 !! p = Some b -> ancestor m0 p 0 = Some g -> ancestor m0 a 0 = Some g ->
  a <> p -> nHeight b <= Z.of_nat fuel ->
  exists cm' t', ('(r, cm1, t1) ← ('(ok, fInvalidFound, cm1, t1) ← ActivateBestChainStep addr cm t p;
      if negb (ok : bool) then Some (ActivateReturn false, cm1, t1)
      else
        let q := if (fInvalidFound : bool) then None else Some p in
        if bool_decide (chain_Tip (chainActive cm1) = q) then Some (ActivateEnd, cm1, t1) else Some (ActivateAgain q, cm1, t1));
    match r with ActivateReturn ok => Some (ok, cm1, t1) | ActivateEnd => let '(ok, t1) := be_flush t1 in Some (ok, cm1, t1) | ActivateAgain q => activate_loop addr fuel q cm1 t1 end) = Some (true, cm', t')
  /\ at_tip cm' p /\ candidates cm' ⊆ candidates cm.
Proof.
  intros Hacc A Hp Hb Hg Hga Hne Hf. destruct (ActivateBestChainStep_ok cm t a b g A Hp Hb Hga Hg) as (ok & inv & cm1 & t1 & a1 & -> & A1 & S1 & _ & Hac & Hr).
  destruct (Hac Hacc) as [-> ->]. destruct (Hr eq_refl eq_refl) as (Hp1 & [h1 Ha1] & _). cbn [mbind option_bind negb]. rewrite (at_Tip cm1 a1 A1).
  destruct (bool_decide (Some a1 = Some p)) eqn:Ed.
  - apply bool_decide_eq_true in Ed. injection Ed as ->. cbn [mbind option_bind]. destruct Hacc as (_ & _ & Hfl & _).
    specialize (Hfl t1). destruct (be_flush t1) as [ok t2]. cbn in Hfl. subst ok. by exists cm1, t2.
  - apply bool_decide_eq_false in Ed. cbn [mbind option_bind]. destruct (ancestor_height m0 p a1 h1 W0 Ha1) as (? & ? & _ & _ & Hh1 & _).
    destruct (activate_loop_ok fuel cm1 t1 a1 b g h1 Hacc A1 Hp1 Hb Hg Ha1) as (cm' & t' & -> & A' & S'); [congruence|lia|].
    exists cm', t'. split_and!; [done|done|exact (transitivity S' S1)].
Qed.

End StepLemmas.

(** ** Lemmas: a block that is refused without being marked *)

Section Spin.
Context {T : Type} `{ChainBackend T}.
Variable addr : ptr -> Z.

(** The entry [p] is the child of the tip [a]. *)
Variables (cm : ChainMan) (a p : ptr) (b ba : CBlockIndex).
Hypothesis W : wf_index (cm_map cm).
Hypothesis Htip : tip_is (cm_map cm) (chainActive cm) a.
Hypothesis Hp : cm_map cm !! p = Some b.
Hypothesis Ha : cm_map cm !! a = Some ba.
Hypothesis Eprev : pprev b = Some a.

Lemma child_height : 0 <= nHeight ba /\ nHeight b = nHeight ba + 1.
Proof.
  destruct (wb_prev _ _ _ (W p b Hp) a Eprev) as (ba' & Ha' & Hh). rewrite Ha in Ha'. injection Ha' as <-.
  pose proof (wb_height _ _ _ (W a ba Ha)). lia.
Qed.

Lemma child_fork : FindFork (cm_map cm) (chainActive cm) (Some p) = Some (Some a).
Proof.
  pose proof child_height as [H0 Hh].
  assert (ancestor (cm_map cm) p (nHeight ba) = Some a) as Hpa.
  { rewrite (ancestor_prev _ p b a) by (done || lia). by apply ancestor_self. }
  assert (chain_Contains (cm_map cm) (chainActive cm) a = true) as Hca.
  { eapply tip_is_Contains; [done..|]. by apply ancestor_self. }
  destruct (FindFork_ok (cm_map cm) (chainActive cm) p b W Hp) as ([f|] & -> & Hl); cbn in Hl; [|by destruct (Hl _ a Hpa)].
  destruct Hl as (Hc & h & Hf & Hmax). specialize (Hmax _ a Hpa Hca).
  destruct (ancestor_height _ p f h W Hf) as (b' & bf & Eb & Hbf & Hb & Eh). rewrite Hp in Eb. injection Eb as <-.
  destruct (decide (h = nHeight ba)) as [->|Hne]; [congruence|exfalso]. assert (h = nHeight b) as -> by lia.
  rewrite ancestor_self in Hf by (done || lia). injection Hf as <-.
  destruct (tip_is_Contains_inv _ _ a p W Htip) as [h' Hf']; [by eexists|done|].
  destruct (ancestor_height _ a p h' W Hf') as (ba' & b' & Ea & Eb & Hb' & Eh'). rewrite Ha in Ea. rewrite Hp in Eb.
  injection Ea as <-. injection Eb as <-. lia.
Qed.

Hypothesis Hrefused : forall t, (be_connect p t).1 = Refused true.
Hypothesis Hstop : stopatblocknumber <= 0.

Lemma step_refused t : ActivateBestChainStep addr cm t p = Some (true, true, cm, (be_connect p t).2).
Proof.
  pose proof child_height as [H0 Hh]. unfold ActivateBestChainStep. rewrite child_fork. cbn [mbind option_bind].
  assert (disconnect_to (length (chainActive cm)) (Some a) cm t = Some (true, cm, t)) as ->.
  { pose proof (tip_is_tip _ _ a W Htip) as Et. destruct (length (chainActive cm)); cbn [disconnect_to]; rewrite Et; by rewrite bool_decide_eq_true_2. }
  cbn [mbind option_bind negb]. rewrite Ha, Hp. cbn [mbind option_bind]. rewrite Hh.
  replace (Z.to_nat (nHeight ba + 1 - nHeight ba)) with 1%nat by lia. cbn [connect_blocks].
  rewrite (proj2 (Z.eqb_neq _ _)) by lia. replace (Z.min (nHeight ba + 32) (nHeight ba + 1)) with (nHeight ba + 1) by lia.
  rewrite (GetAncestor_ok _ p b _ W Hp). cbn [mbind option_bind]. rewrite <- Hh, ancestor_self by (done || lia).
  rewrite Hh. replace (Z.to_nat (nHeight ba + 1 - nHeight ba)) with 1%nat by lia. cbn [to_connect].
  rewrite Hp. cbn [mbind option_bind]. rewrite (proj2 (Z.eqb_neq (nHeight b) (nHeight ba))) by lia. rewrite Eprev, Ha. cbn [mbind option_bind].
  rewrite !Z.eqb_refl. cbn [mbind option_bind]. change (reverse [p]) with [p]. cbn [connect_batch]. unfold ConnectTip.
  rewrite Hp. cbn [mbind option_bind]. rewrite Z.gtb_ltb, (proj2 (Z.ltb_ge 0 stopatblocknumber)) by lia. cbn [andb].
  rewrite bool_decide_eq_true_2 by (by rewrite Eprev, (tip_is_tip _ _ a W Htip)). cbn [negb].
  specialize (Hrefused t). destruct (be_connect p t) as [r t']. cbn in Hrefused |- *. by rewrite Hrefused.
Qed.

Lemma activate_refused fuel t : FindMostWorkChain addr cm = Some (Some p, cm) -> activate_loop addr fuel None cm t = None.
Proof.
  intros Hf. revert t. induction fuel as [|fuel IH]; intros t; [done|]. cbn [activate_loop]. unfold activate_once. rewrite Hf. cbn [mbind option_bind].
  rewrite bool_decide_eq_false_2, step_refused.
  - cbn [mbind option_bind negb]. rewrite bool_decide_eq_false_2 by (by rewrite (tip_is_tip _ _ a W Htip)). apply IH.
  - rewrite (tip_is_tip _ _ a W Htip). intros Epa. pose proof child_height as [_ Hh]. assert (b = ba) as Eb by congruence. rewrite Eb in Hh. lia.
Qed.

End Spin.

(** ** Properties *)

(** [ReceivedBlockTransactions] records the block and links exactly what can be linked.  In a state where
    the transaction counts are those of the completely received chains and the other received blocks wait in
    [mapBlocksUnlinked], receiving the transactions of a new block fails no assertion and ends in such a state:
    every block whose chain the new one completes has its count.  The blocks linked by it become candidates
    unless they are worse than the tip, no candidate is lost, and only linked blocks become candidates. *)
Theorem ReceivedBlockTransactions_correct addr cm vtxSize p b :
  linked cm -> cm_map cm !! p = Some b -> nTx b = 0 -> 0 < vtxSize < 2 ^ 32 ->
  (forall q bq, pprev b = Some q -> cm_map cm !! q = Some bq -> Chain.IsValid bq BLOCK_VALID_TREE = Some true) ->
  (forall x s, chain_txs (<[p := set_txs vtxSize 0 b]> (cm_map cm)) x = Some s -> s < 2 ^ 32) ->
  nBlockSequenceId cm + Z.of_nat (length (unlinked cm)) + 1 < 2 ^ 31 ->
  exists cm', ReceivedBlockTransactions addr cm vtxSize p = Some cm' /\ linked cm' /\ chainActive cm' = chainActive cm
  /\ (forall x bx, cm_map cm !! x = Some bx -> exists bx', cm_map cm' !! x = Some bx' /\ link_of bx' = link_of bx
      /\ nChainWork bx' = nChainWork bx /\ nTx bx' = (if decide (x = p) then vtxSize else nTx bx)
      /\ (x = p -> have_data bx' = true) /\ (nChainTx bx <> 0 -> nChainTx bx' <> 0))
  /\ candidates cm ⊆ candidates cm'
  /\ (forall x bx', x ∈ candidates cm' -> cm_map cm' !! x = Some bx' -> x ∈ candidates cm \/ nChainTx bx' <> 0)
  /\ (forall x bx bx', cm_map cm !! x = Some bx -> nChainTx bx = 0 -> cm_map cm' !! x = Some bx' -> nChainTx bx' <> 0 ->
      x ∈ candidates cm' \/ exists tip, chain_Tip (chainActive cm) = Some tip /\ worse addr (cm_map cm') x tip = true).
Proof.
  intros L Hp H0 Hv Hvalid Hroom Hseq.
  destruct (receive_start addr cm vtxSize p b L Hp H0 Hv Hvalid Hroom) as (cm1 & b1 & queue & I & Tc & -> & Em & Ec & Ek & Hlen & Es & El & Ent & Ecn & Ew & Ed).
  destruct (link_loop_ok addr (S (length (unlinked cm))) cm1 queue I Tc) as (cm' & -> & I' & Tc' & R); [lia|lia|].
  assert (forall x bx, cm_map cm !! x = Some bx -> exists bx1, cm_map cm1 !! x = Some bx1 /\ link_of bx1 = link_of bx
    /\ nChainWork bx1 = nChainWork bx /\ nTx bx1 = (if decide (x = p) then vtxSize else nTx bx)
    /\ (x = p -> have_data bx1 = true) /\ (nChainTx bx <> 0 -> nChainTx bx1 <> 0) /\ (nChainTx bx = 0 -> nChainTx bx1 = 0)) as Hstart.
  { intros x bx Hx. rewrite Em. destruct (decide (x = p)) as [->|Hne].
    - rewrite lookup_insert_eq. exists b1. rewrite Hp in Hx. injection Hx as <-. split_and!; try done. intros Hnz. exfalso. apply Hnz.
      by rewrite (ln_chain cm L p b Hp), (chain_txs_eq _ p b (ln_index cm L) Hp), H0.
    - rewrite lookup_insert_ne by done. exists bx. by split_and!. }
  destruct R as [R1 R2 R3 R4 R5 R6 R7 R8 R9]. rewrite Ek, Ec in *. exists cm'. split; [done|]. split; [|split; [done|]].
  - apply linked_of_inv; [done..|]. intros tip Ht. rewrite R2 in Ht. destruct (ln_tip cm L tip Ht) as [(bt & Hbt & Hnz) _].
    destruct (Hstart tip bt Hbt) as (bt1 & Hbt1 & _ & _ & _ & _ & Hup & _). by apply (R8 tip bt1); auto.
  - split; [|split_and!; [done|done|]].
    + intros x bx Hx. destruct (Hstart x bx Hx) as (bx1 & Hx1 & A1 & A2 & A3 & A4 & A5 & _).
      destruct (same_image_lookup key _ (cm_map cm') x bx1 (eq_sym R1) Hx1) as (bx' & Hx' & Hk). exists bx'. split; [done|].
      pose proof (R4 x bx1 bx' Hx1 Hx') as [S1 S2]. pose proof (key_fields _ _ Hk) as (_ & _ & _ & K4).
      apply (f_equal fst) in Hk. cbn in Hk. split_and!; [congruence|congruence|congruence| |].
      * intros ->. unfold have_data. rewrite S1. by apply A4.
      * intros Hnz. destruct (R8 x bx1 Hx1 (A5 Hnz)) as (y & Hy & Hny). congruence.
    + intros x bx bx' Hx Hz Hx' Hnz. destruct (Hstart x bx Hx) as (bx1 & Hx1 & _ & _ & _ & _ & _ & A6).
      destruct (R9 x) as [E|?]; [|done]. exfalso. apply Hnz. rewrite <- (A6 Hz). congruence.
Qed.

(** [FindMostWorkChain] ends, failing no assertion, with the best candidate whose path to the active chain
    has all its blocks and none known to be invalid: no such candidate has more work, or as much and an earlier
    arrival.  It returns no entry exactly when there is no such candidate, and it drops only candidates that
    are not such. *)
Theorem FindMostWorkChain_correct addr cm :
  man_ok addr cm ->
  exists r cm', FindMostWorkChain addr cm = Some (r, cm') /\ man_ok addr cm'
  /\ candidates cm' ⊆ candidates cm
  /\ (forall q, q ∈ candidates cm -> usable (cm_map cm) (chainActive cm) q -> q ∈ candidates cm')
  /\ match r with
     | Some p => p ∈ candidates cm /\ usable (cm_map cm) (chainActive cm) p
         /\ forall q, q ∈ candidates cm -> usable (cm_map cm) (chainActive cm) q -> q = p \/ worse addr (cm_map cm) q p = true
     | None => forall q, q ∈ candidates cm -> ~ usable (cm_map cm) (chainActive cm) q
     end.
Proof.
  intros Hok. destruct (find_most_work_ok addr (S (size (candidates cm))) cm Hok ltac:(lia)) as (r & cm' & E & R & Hok' & Hr).
  assert (forall q, q ∈ candidates cm -> usable (cm_map cm) (chainActive cm) q -> q ∈ candidates cm') as Hkeep.
  { intros q Hq Hu. destruct (decide (q ∈ candidates cm')) as [|Hn]; [done|]. by destruct (sr_lost cm cm' R q Hq Hn). }
  exists r, cm'. split_and!; [exact E|done|apply R|done|].
  destruct r as [p|].
  - destruct Hr as (Hp & Hu & Hm). split_and!; [by apply (sr_sub cm cm' R)|done|]. auto.
  - intros q Hq Hu. specialize (Hkeep q Hq Hu). rewrite Hr in Hkeep. by apply elem_of_empty in Hkeep.
Qed.

(** C4: [ActivateBestChainStep] on a candidate that descends from the same genesis block: whatever connecting
    and disconnecting the blocks does, the step ends and fails no assertion, the active chain is a chain again and
    its tip an ancestor of the old tip or of the candidate; when no block was refused and no error occurred, the
    tip is the candidate, or an ancestor of it with more work than the old tip, and the candidate is still one. *)
Theorem ActivateBestChainStep_correct {T} `{ChainBackend T} addr cm (t : T) p a g :
  man_ok addr cm -> work_grows (cm_map cm) -> tip_is (cm_map cm) (chainActive cm) a -> p ∈ candidates cm ->
  ancestor (cm_map cm) a 0 = Some g -> ancestor (cm_map cm) p 0 = Some g ->
  exists ok invalid cm' t' a', ActivateBestChainStep addr cm t p = Some (ok, invalid, cm', t')
  /\ man_ok addr cm' /\ tip_is (cm_map cm') (chainActive cm') a' /\ strip (cm_map cm') = strip (cm_map cm) /\ candidates cm' ⊆ candidates cm
  /\ (is_ancestor (cm_map cm) a a' \/ is_ancestor (cm_map cm) p a')
  /\ (ok = true -> invalid = false -> p ∈ candidates cm' /\ is_ancestor (cm_map cm) p a'
      /\ (a' = p \/ work (cm_map cm) a < work (cm_map cm) a'))
  /\ (accepts -> ok = true /\ invalid = false).
Proof.
  intros Hok G Ht Hp Hga Hgp. destruct (mo_cands addr cm Hok p Hp) as [b Hb].
  destruct (ActivateBestChainStep_ok addr (cm_map cm) p (mo_index addr cm Hok) G cm t a b g) as (ok & inv & cm' & t' & a' & E & A' & S' & Hanc & Hacc & Hr);
    [by split|done..|]. exists ok, inv, cm', t', a'. split_and!; try done; [apply A'|eapply at_tip_is, A'|apply A'].
Qed.

(** C3: with blocks that all connect and disconnect, and no disk error, [ActivateBestChain] ends, within a fuel above all heights,
    with the tip on the best candidate whose path has all its blocks and none known to be invalid; without such a
    candidate the tip stays. *)
Theorem ActivateBestChain_reaches_best {T} `{ChainBackend T} addr cm (t : T) a g fuel :
  man_ok addr cm -> work_grows (cm_map cm) -> tip_is (cm_map cm) (chainActive cm) a -> ancestor (cm_map cm) a 0 = Some g ->
  (forall q, q ∈ candidates cm -> ancestor (cm_map cm) q 0 = Some g) -> accepts ->
  (forall q b, cm_map cm !! q = Some b -> nHeight b < Z.of_nat fuel) ->
  exists cm' t' a', ActivateBestChain addr fuel cm t = Some (true, cm', t')
  /\ man_ok addr cm' /\ tip_is (cm_map cm') (chainActive cm') a' /\ strip (cm_map cm') = strip (cm_map cm)
  /\ (forall q, q ∈ candidates cm -> usable (cm_map cm) (chainActive cm) q -> q = a' \/ worse addr (cm_map cm) q a' = true)
  /\ (a' = a \/ a' ∈ candidates cm /\ usable (cm_map cm) (chainActive cm) a').
Proof.
  intros Hok G Ht Hga Hcg Hacc Hfuel. destruct (find_most_work_ok addr (S (size (candidates cm))) cm Hok ltac:(lia)) as (r & cm1 & E & R & Hok1 & Hr).
  destruct Ht as (ba & Hba & Ec). pose proof (Hfuel a ba Hba). pose proof (wb_height _ _ _ (mo_index addr cm Hok a ba Hba)).
  destruct fuel as [|fuel]; [lia|]. assert (at_tip addr (cm_map cm) cm1 a) as A1.
  { split; [done|apply R|]. rewrite (sr_chain cm cm1 R). by exists ba. }
  pose proof (at_Tip addr (cm_map cm) (mo_index addr cm Hok) cm1 a A1) as Etip.
  assert (forall p, p ∈ candidates cm1 -> (forall q, q ∈ candidates cm1 -> q = p \/ worse addr (cm_map cm) q p = true) ->
    forall q, q ∈ candidates cm -> usable (cm_map cm) (chainActive cm) q -> q = p \/ worse addr (cm_map cm) q p = true) as Hbest.
  { intros p Hp Hm q Hq Hu. destruct (decide (q ∈ candidates cm1)) as [|Hn]; [by apply Hm|]. by destruct (sr_lost cm cm1 R q Hq Hn). }
  unfold ActivateBestChain. cbn [activate_loop]. unfold activate_once at 1, FindMostWorkChain. rewrite E. cbn [mbind option_bind].
  destruct r as [p|].
  2:{ exists cm1, t, a. split_and!; [done|done|eapply at_tip_is, A1|apply R| |by left]. intros q Hq Hu.
      destruct (sr_lost cm cm1 R q Hq); [|done]. rewrite Hr. apply not_elem_of_empty. }
  destruct Hr as (Hp & Hu & Hm). destruct (bool_decide (Some p = chain_Tip (chainActive cm1))) eqn:Ed.
  { apply bool_decide_eq_true in Ed. rewrite Etip in Ed. injection Ed as ->.
    exists cm1, t, a. split_and!; [done|done|eapply at_tip_is, A1|apply R|by apply Hbest|by left]. }
  apply bool_decide_eq_false in Ed. rewrite Etip in Ed. destruct (mo_cands addr cm Hok p (sr_sub cm cm1 R p Hp)) as [b Hb].
  destruct (activate_from addr (cm_map cm) p (mo_index addr cm Hok) G fuel cm1 t a b g Hacc A1 Hp Hb (Hcg p (sr_sub cm cm1 R p Hp)) Hga)
    as (cm' & t' & El & A' & S'); [congruence|specialize (Hfuel p b Hb); lia|].
  exists cm', t', p. split_and!; [exact El|apply A'|eapply at_tip_is, A'|apply A'|by apply Hbest|right]. split; [by apply (sr_sub cm cm1 R)|done].
Qed.

(** A block that extends the tip, is the best candidate and is refused each time as possibly corrupted keeps
    [ActivateBestChain] in its loop forever: it is neither marked invalid nor dropped from the candidates, so every
    turn selects it again. *)
Theorem ActivateBestChain_spins {T} `{ChainBackend T} addr cm a p b :
  wf_index (cm_map cm) -> tip_is (cm_map cm) (chainActive cm) a -> cm_map cm !! p = Some b -> pprev b = Some a ->
  FindMostWorkChain addr cm = Some (Some p, cm) -> (forall t : T, (be_connect p t).1 = Refused true) -> stopatblocknumber <= 0 ->
  forall fuel (t : T), ActivateBestChain addr fuel cm t = None.
Proof.
  intros W Ht Hp Ep Hf Hr Hs fuel t. pose proof Ht as (ba & Hba & _). by apply (activate_refused addr cm a p b ba).
Qed.

(** ** Witnesses: the blocks of [toy_state], received out of order *)

(** Every operation on the backend succeeds, or every block is refused as possibly corrupted. *)
#[local] Instance accepting : ChainBackend unit := {| be_connect _ t := (Connected, t); be_disconnect _ t := (true, t);
  be_flush t := (true, t); stopatblocknumber := 0 |}.
Definition corrupted : ChainBackend unit := {| be_connect _ t := (Refused true, t); be_disconnect _ t := (true, t);
  be_flush t := (true, t); stopatblocknumber := 0 |}.

Definition toy_addr (p : ptr) : Z := p.

Definition toy_receive (cm : ChainMan) (p : ptr) : ChainMan := default cm (ReceivedBlockTransactions toy_addr cm 2 p).

(** Blocks 1 to 4 are connected, 6 waits for 5, and of the fork 20 is there. *)
Definition toy_man1 : ChainMan :=
  with_chain (ancestors_of (mapBlockIndex toy_state) 4 3)
    (foldl toy_receive {| cm_index := toy_state; chainActive := []; candidates := ∅; unlinked := [];
                          pindexBestInvalid := None; nBlockSequenceId := 1 |} [1; 2; 3; 4; 6; 20]).
Definition toy_man2 : ChainMan := toy_receive toy_man1 5.
Definition toy_man3 : ChainMan := with_chain (ancestors_of (mapBlockIndex toy_state) 5 4) toy_man2.

Definition toy_entry (cm : ChainMan) (p : ptr) : CBlockIndex := default (toy_block p) (cm_map cm !! p).

Lemma toy_forall (P : ptr -> CBlockIndex -> bool) m :
  bool_decide (map_Forall (fun p b => P p b = true) m) = true -> forall p b, m !! p = Some b -> P p b = true.
Proof. intros H%bool_decide_eq_true p b. apply H. Qed.

Lemma toy_candidates (P : ptr -> bool) (s : gset ptr) : bool_decide (set_Forall (fun p => P p = true) s) = true -> forall p, p ∈ s -> P p = true.
Proof. intros H%bool_decide_eq_true p. apply H. Qed.

Lemma toy_links cm : bool_decide (link_of <$> mapBlockIndex toy_state = link_of <$> cm_map cm) = true -> wf_index (cm_map cm).
Proof. intros H%bool_decide_eq_true. apply (same_links_wf_index (mapBlockIndex toy_state)); [done|]. apply inv_index, toy_inv. Qed.

Definition toy_waits (cm : ChainMan) (p : ptr) (b : CBlockIndex) : bool :=
  (nTx b =? 0) || negb (nChainTx b =? 0)
  || match pprev b with Some q => bool_decide ((q, p) ∈ unlinked cm) | None => false end.

Lemma toy_linked : linked toy_man1.
Proof.
  split.
  - apply toy_links. vm_compute. reflexivity.
  - intros p b Hp. apply Z.leb_le. revert p b Hp. apply (toy_forall (fun _ b => 0 <=? nTx b)). vm_compute. reflexivity.
  - intros p b Hp. apply Z.eqb_eq. revert p b Hp. apply (toy_forall (fun p b => nChainTx b =? default 0 (chain_txs (cm_map toy_man1) p))). vm_compute. reflexivity.
  - intros p b Hp Hn Hz. pose proof (toy_forall (toy_waits toy_man1) (cm_map toy_man1) ltac:(vm_compute; reflexivity) p b Hp) as H.
    unfold toy_waits in H. rewrite (proj2 (Z.eqb_neq _ _) Hn), Hz in H. cbn [orb negb Z.eqb] in H. destruct (pprev b) as [q|]; [|done].
    apply bool_decide_eq_true in H. exists q. exact (conj eq_refl H).
  - intros q p Hin. assert (unlinked toy_man1 = [(5, 6)]) as E by (vm_compute; reflexivity). rewrite E in Hin.
    apply list_elem_of_singleton in Hin. injection Hin as -> ->. exists (toy_entry toy_man1 6). split_and!; vm_compute; (reflexivity || discriminate).
  - intros tip Ht. assert (tip = 4) as -> by (vm_compute in Ht; congruence). split.
    + exists (toy_entry toy_man1 4). split; vm_compute; (reflexivity || discriminate).
    + intros q Hin. assert (unlinked toy_man1 = [(5, 6)]) as E by (vm_compute; reflexivity). rewrite E in Hin.
      apply list_elem_of_singleton in Hin. discriminate Hin.
Qed.

Lemma toy_room m : bool_decide (map_Forall (fun p _ => (default 0 (chain_txs m p) <? 2 ^ 32) = true) m) = true -> forall x s, chain_txs m x = Some s -> s < 2 ^ 32.
Proof.
  intros H%bool_decide_eq_true x s E. destruct (m !! x) as [b|] eqn:Hx.
  - pose proof (H x b Hx) as Hb. cbn beta in Hb. rewrite E in Hb. by apply Z.ltb_lt.
  - unfold chain_txs in E. by rewrite Hx in E.
Qed.

Definition toy_valid (b : CBlockIndex) : bool := match Chain.IsValid b BLOCK_VALID_TREE with Some ok => ok | None => false end.

Lemma toy_valid_ok b : toy_valid b = true -> Chain.IsValid b BLOCK_VALID_TREE = Some true.
Proof. unfold toy_valid. by destruct (Chain.IsValid b BLOCK_VALID_TREE) as [[]|]. Qed.

Lemma ReceivedBlockTransactions_correct_witness :
  exists cm', ReceivedBlockTransactions toy_addr toy_man1 2 5 = Some cm' /\ linked cm'.
Proof.
  destruct (ReceivedBlockTransactions_correct toy_addr toy_man1 2 5 (toy_entry toy_man1 5) toy_linked) as (cm' & H1 & H2 & _).
  - vm_compute. reflexivity.
  - vm_compute. reflexivity.
  - lia.
  - intros q bq _ Hq. apply toy_valid_ok. revert q bq Hq. apply (toy_forall (fun _ b => toy_valid b)). vm_compute. reflexivity.
  - apply toy_room. vm_compute. reflexivity.
  - vm_compute. reflexivity.
  - exists cm'. exact (conj H1 H2).
Defined.

(** The state after block 5 arrived, which linked 6 too. *)
Definition toy_work (b : CBlockIndex) : bool := (Z.of_nat (length (nChainWork b)) =? 8) && forallb (fun x => (0 <=? x) && (x <? 2 ^ 32)) (nChainWork b).

Lemma toy_work_ok b : toy_work b = true -> wf (nChainWork b).
Proof.
  unfold toy_work. intros [H1 H2]%andb_true_iff. split; [unfold WIDTH; apply Z.eqb_eq in H1; lia|].
  apply Forall_forall. intros x Hx. rewrite forallb_forall in H2. specialize (H2 x). apply list_elem_of_In in Hx. specialize (H2 Hx).
  apply andb_true_iff in H2 as [H2 H3]. unfold in_u. zbool. lia.
Qed.

Definition toy_closed (m : BlockMap) (b : CBlockIndex) : bool :=
  (nChainTx b =? 0) || match pprev b with Some q => match m !! q with Some bq => negb (nChainTx bq =? 0) | None => true end | None => true end.

Definition toy_known (m : BlockMap) (p : ptr) : bool := match m !! p with Some b => negb (nChainTx b =? 0) | None => false end.

Lemma toy_man_ok cm :
  pindexBestInvalid cm = None ->
  bool_decide (link_of <$> mapBlockIndex toy_state = link_of <$> cm_map cm) = true ->
  bool_decide (map_Forall (fun (_ : ptr) b => toy_work b = true) (cm_map cm)) = true ->
  bool_decide (map_Forall (fun (_ : ptr) b => toy_closed (cm_map cm) b = true) (cm_map cm)) = true ->
  bool_decide (set_Forall (fun p => toy_known (cm_map cm) p = true) (candidates cm)) = true -> man_ok toy_addr cm.
Proof.
  intros Hi Hl Hw Hc Hk. pose proof (toy_candidates (toy_known (cm_map cm)) (candidates cm) Hk) as Hk'. unfold toy_known in Hk'. split.
  - by apply toy_links.
  - split; [|by intros p q _ _ E]. intros p b Hp. apply toy_work_ok. revert p b Hp. by apply (toy_forall (fun _ b => toy_work b)).
  - intros p Hp. specialize (Hk' p Hp). destruct (cm_map cm !! p); [eauto|done].
  - intros p b Hp Hb. specialize (Hk' p Hp). rewrite Hb in Hk'. left. zbool. done.
  - intros p b q bq Hp Hn Eq Hq. pose proof (toy_forall (fun _ b => toy_closed (cm_map cm) b) (cm_map cm) Hc p b Hp) as H.
    unfold toy_closed in H. cbn beta in H. rewrite Eq, Hq, (proj2 (Z.eqb_neq _ _) Hn) in H. cbn [orb] in H. zbool. done.
  - intros q Eq. congruence.
Qed.

Definition toy_grows (m : BlockMap) (b : CBlockIndex) : bool :=
  match pprev b with Some q => match m !! q with Some bq => val (nChainWork bq) <? val (nChainWork b) | None => true end | None => true end.

Lemma toy_grows_ok m : bool_decide (map_Forall (fun (_ : ptr) b => toy_grows m b = true) m) = true -> work_grows m.
Proof.
  intros H p b q bq Hp Eq Hq. pose proof (toy_forall (fun _ b => toy_grows m b) m H p b Hp) as Hb. unfold toy_grows in Hb. cbn beta in Hb.
  rewrite Eq, Hq in Hb. by apply Z.ltb_lt.
Qed.

Lemma toy_man2_ok : man_ok toy_addr toy_man2.
Proof. apply toy_man_ok; vm_compute; reflexivity. Qed.

Lemma toy_man2_grows : work_grows (cm_map toy_man2).
Proof. apply toy_grows_ok. vm_compute. reflexivity. Qed.

Lemma toy_tip cm p : cm_map cm !! p = Some (toy_entry cm p) -> chainActive cm = ancestors_of (cm_map cm) p (nHeight (toy_entry cm p)) -> tip_is (cm_map cm) (chainActive cm) p.
Proof. intros H1 H2. by exists (toy_entry cm p). Qed.

Lemma toy_man2_tip : tip_is (cm_map toy_man2) (chainActive toy_man2) 4.
Proof. apply toy_tip; vm_compute; reflexivity. Qed.

Lemma FindMostWorkChain_correct_witness : exists cm', FindMostWorkChain toy_addr toy_man2 = Some (Some 6, cm') /\ man_ok toy_addr cm'.
Proof.
  destruct (FindMostWorkChain_correct toy_addr toy_man2 toy_man2_ok) as (r & cm' & H1 & H2 & _).
  exists cm'. assert (r = Some 6) as Er.
  { assert (fst <$> FindMostWorkChain toy_addr toy_man2 = Some (Some 6)) as H3 by (vm_compute; reflexivity).
    rewrite H1 in H3. cbn in H3. congruence. }
  rewrite <- Er. exact (conj H1 H2).
Defined.

Lemma ActivateBestChainStep_correct_witness :
  exists ok invalid cm' t', ActivateBestChainStep (T := unit) toy_addr toy_man2 tt 6 = Some (ok, invalid, cm', t') /\ man_ok toy_addr cm'.
Proof.
  destruct (ActivateBestChainStep_correct toy_addr toy_man2 tt 6 4 1 toy_man2_ok toy_man2_grows toy_man2_tip) as (ok & inv & cm' & t' & a' & H1 & H2 & _).
  - vm_compute. reflexivity.
  - vm_compute. reflexivity.
  - vm_compute. reflexivity.
  - exists ok, inv, cm', t'. exact (conj H1 H2).
Defined.

Definition toy_root (cm : ChainMan) (g q : ptr) : bool := bool_decide (ancestor (cm_map cm) q 0 = Some g).

Lemma toy_root_ok cm g q : toy_root cm g q = true -> ancestor (cm_map cm) q 0 = Some g.
Proof. apply bool_decide_eq_true_1. Qed.

Lemma toy_man2_roots q : q ∈ candidates toy_man2 -> ancestor (cm_map toy_man2) q 0 = Some 1.
Proof. intros Hq. apply toy_root_ok. revert q Hq. apply toy_candidates. vm_compute. reflexivity. Qed.

Lemma toy_man2_low q b : cm_map toy_man2 !! q = Some b -> nHeight b < 10.
Proof. intros Hq. apply Z.ltb_lt. revert q b Hq. apply (toy_forall (fun _ b => nHeight b <? 10)). vm_compute. reflexivity. Qed.

Lemma ActivateBestChain_reaches_best_witness :
  exists cm' t', ActivateBestChain (T := unit) toy_addr 10 toy_man2 tt = Some (true, cm', t') /\ man_ok toy_addr cm'.
Proof.
  destruct (ActivateBestChain_reaches_best toy_addr toy_man2 tt 4 1 10 toy_man2_ok toy_man2_grows toy_man2_tip) as (cm' & t' & a' & H1 & H2 & _).
  - vm_compute. reflexivity.
  - exact toy_man2_roots.
  - split_and!; (reflexivity || discriminate).
  - exact toy_man2_low.
  - exists cm', t'. exact (conj H1 H2).
Defined.

Lemma ActivateBestChain_spins_witness : ActivateBestChain (H := corrupted) toy_addr 1000 toy_man3 tt = None.
Proof.
  apply (ActivateBestChain_spins (H := corrupted) toy_addr toy_man3 5 6 (toy_entry toy_man3 6)).
  - apply toy_links. vm_compute. reflexivity.
  - apply toy_tip; vm_compute; reflexivity.
  - vm_compute. reflexivity.
  - vm_compute. reflexivity.
  - vm_compute. reflexivity.
  - intros t. reflexivity.
  - discriminate.
Defined.
