(* ===== verification/Mempool.v ===== *)
(** * The memory pool

    Models the accounting of [src/src/txmempool.h] and [src/src/txmempool.cpp]: entries with the counts, sizes and
    fees of their descendants and ancestors, the links between them, adding and removing transactions, the limits
    on packages, expiry, trimming and fee deltas.

    A [txiter] is the hash of the entry's transaction, the key of [mapTx]; dereferencing one that is not there is
    [None], like a failed [assert] and the overflow of a signed integer.  A set of iterators is ordered by hash; the
    theorems hold for any order of iteration, which is behind the interface [SetOrder].  [fSearchForParents] and the
    set to extend are arguments, sets passed by reference are part of the results.  Memory usage is counted as in
    the source, the cost of one tree node and of an entry being given.  Left out: the estimator, notifications, the address
    and spent indexes, and the rolling minimum fee; priorities and accepting transactions are in [Accept]. *)

From stdpp Require Import gmap relations.
From S2P Require Import Transaction TxVerify Graph Prelude.

(** ** Entries *)

Record CTxMemPoolEntry := {
  e_tx : CTransaction;
  nFee : Z;
  nTxSize : Z;
  nUsageSize : Z;
  nTime : Z;
  entryHeight : Z;
  spendsCoinbase : bool;
  sigOpCount : Z;
  feeDelta : Z;
  lockPoints : LockPoints;
  nCountWithDescendants : Z;
  nSizeWithDescendants : Z;
  nModFeesWithDescendants : Z;
  nCountWithAncestors : Z;
  nSizeWithAncestors : Z;
  nModFeesWithAncestors : Z;
  nSigOpCountWithAncestors : Z;
  vTxHashesIdx : nat;
}.

(** The constructor, given the size of the transaction and its memory usage. *)
Definition CTxMemPoolEntry_make (tx : CTransaction) (fee time height : Z) (coinbase : bool) (sigOps : Z) (lp : LockPoints) (txSize usage : Z) : CTxMemPoolEntry :=
  {| e_tx := tx; nFee := fee; nTxSize := txSize; nUsageSize := usage; nTime := time; entryHeight := height; spendsCoinbase := coinbase;
     sigOpCount := sigOps; feeDelta := 0; lockPoints := lp;
     nCountWithDescendants := 1; nSizeWithDescendants := txSize; nModFeesWithDescendants := fee;
     nCountWithAncestors := 1; nSizeWithAncestors := txSize; nModFeesWithAncestors := fee; nSigOpCountWithAncestors := sigOps; vTxHashesIdx := 0 |}.

Definition e_hash (e : CTxMemPoolEntry) : Z := tx_hash (e_tx e).
Definition GetModifiedFee (e : CTxMemPoolEntry) : Z := nFee e + feeDelta e.

(** The state for descendants, for ancestors, the fee delta and the index. *)
Definition set_desc (count size fees : Z) (e : CTxMemPoolEntry) : CTxMemPoolEntry :=
  {| e_tx := e_tx e; nFee := nFee e; nTxSize := nTxSize e; nUsageSize := nUsageSize e; nTime := nTime e; entryHeight := entryHeight e;
     spendsCoinbase := spendsCoinbase e; sigOpCount := sigOpCount e; feeDelta := feeDelta e; lockPoints := lockPoints e;
     nCountWithDescendants := count; nSizeWithDescendants := size; nModFeesWithDescendants := fees;
     nCountWithAncestors := nCountWithAncestors e; nSizeWithAncestors := nSizeWithAncestors e; nModFeesWithAncestors := nModFeesWithAncestors e;
     nSigOpCountWithAncestors := nSigOpCountWithAncestors e; vTxHashesIdx := vTxHashesIdx e |}.
Definition set_anc (count size fees sigops : Z) (e : CTxMemPoolEntry) : CTxMemPoolEntry :=
  {| e_tx := e_tx e; nFee := nFee e; nTxSize := nTxSize e; nUsageSize := nUsageSize e; nTime := nTime e; entryHeight := entryHeight e;
     spendsCoinbase := spendsCoinbase e; sigOpCount := sigOpCount e; feeDelta := feeDelta e; lockPoints := lockPoints e;
     nCountWithDescendants := nCountWithDescendants e; nSizeWithDescendants := nSizeWithDescendants e; nModFeesWithDescendants := nModFeesWithDescendants e;
     nCountWithAncestors := count; nSizeWithAncestors := size; nModFeesWithAncestors := fees;
     nSigOpCountWithAncestors := sigops; vTxHashesIdx := vTxHashesIdx e |}.
Definition set_delta (delta : Z) (e : CTxMemPoolEntry) : CTxMemPoolEntry :=
  {| e_tx := e_tx e; nFee := nFee e; nTxSize := nTxSize e; nUsageSize := nUsageSize e; nTime := nTime e; entryHeight := entryHeight e;
     spendsCoinbase := spendsCoinbase e; sigOpCount := sigOpCount e; feeDelta := delta; lockPoints := lockPoints e;
     nCountWithDescendants := nCountWithDescendants e; nSizeWithDescendants := nSizeWithDescendants e; nModFeesWithDescendants := nModFeesWithDescendants e;
     nCountWithAncestors := nCountWithAncestors e; nSizeWithAncestors := nSizeWithAncestors e; nModFeesWithAncestors := nModFeesWithAncestors e;
     nSigOpCountWithAncestors := nSigOpCountWithAncestors e; vTxHashesIdx := vTxHashesIdx e |}.
Definition set_idx (idx : nat) (e : CTxMemPoolEntry) : CTxMemPoolEntry :=
  {| e_tx := e_tx e; nFee := nFee e; nTxSize := nTxSize e; nUsageSize := nUsageSize e; nTime := nTime e; entryHeight := entryHeight e;
     spendsCoinbase := spendsCoinbase e; sigOpCount := sigOpCount e; feeDelta := feeDelta e; lockPoints := lockPoints e;
     nCountWithDescendants := nCountWithDescendants e; nSizeWithDescendants := nSizeWithDescendants e; nModFeesWithDescendants := nModFeesWithDescendants e;
     nCountWithAncestors := nCountWithAncestors e; nSizeWithAncestors := nSizeWithAncestors e; nModFeesWithAncestors := nModFeesWithAncestors e;
     nSigOpCountWithAncestors := nSigOpCountWithAncestors e; vTxHashesIdx := idx |}.

Definition UpdateDescendantState (modifySize modifyFee modifyCount : Z) (e : CTxMemPoolEntry) : option CTxMemPoolEntry :=
  let size := u64 (nSizeWithDescendants e + modifySize) in
  if negb (i64 size >? 0) then None
  else
    fees ← checked (nModFeesWithDescendants e + modifyFee);
    let count := u64 (nCountWithDescendants e + modifyCount) in
    if negb (i64 count >? 0) then None else Some (set_desc count size fees e).

Definition UpdateAncestorState (modifySize modifyFee modifyCount modifySigOps : Z) (e : CTxMemPoolEntry) : option CTxMemPoolEntry :=
  let size := u64 (nSizeWithAncestors e + modifySize) in
  if negb (i64 size >? 0) then None
  else
    fees ← checked (nModFeesWithAncestors e + modifyFee);
    let count := u64 (nCountWithAncestors e + modifyCount) in
    if negb (i64 count >? 0) then None
    else
      let sigops := u32 (nSigOpCountWithAncestors e + modifySigOps) in
      if negb (i32 sigops >=? 0) then None else Some (set_anc count size fees sigops e).

Definition UpdateFeeDelta (newFeeDelta : Z) (e : CTxMemPoolEntry) : option CTxMemPoolEntry :=
  change ← checked (newFeeDelta - feeDelta e);
  d ← checked (nModFeesWithDescendants e + change);
  a ← checked (nModFeesWithAncestors e + change);
  Some (set_delta newFeeDelta
    (set_anc (nCountWithAncestors e) (nSizeWithAncestors e) a (nSigOpCountWithAncestors e)
      (set_desc (nCountWithDescendants e) (nSizeWithDescendants e) d e))).

(** ** The pool *)

Record TxLinks := { parents : gset Z; children : gset Z }.

Record CTxMemPool := {
  mapTx : gmap Z CTxMemPoolEntry;
  mapLinks : gmap Z TxLinks;
  mapNextTx : gmap COutPoint Z;
  mapDeltas : gmap Z Z;
  vTxHashes : list Z;
  totalTxSize : Z;
  cachedInnerUsage : Z;
  nTransactionsUpdated : Z;
}.

Definition with_tx (m : gmap Z CTxMemPoolEntry) (p : CTxMemPool) : CTxMemPool :=
  {| mapTx := m; mapLinks := mapLinks p; mapNextTx := mapNextTx p; mapDeltas := mapDeltas p; vTxHashes := vTxHashes p;
     totalTxSize := totalTxSize p; cachedInnerUsage := cachedInnerUsage p; nTransactionsUpdated := nTransactionsUpdated p |}.
Definition with_links (m : gmap Z TxLinks) (usage : Z) (p : CTxMemPool) : CTxMemPool :=
  {| mapTx := mapTx p; mapLinks := m; mapNextTx := mapNextTx p; mapDeltas := mapDeltas p; vTxHashes := vTxHashes p;
     totalTxSize := totalTxSize p; cachedInnerUsage := usage; nTransactionsUpdated := nTransactionsUpdated p |}.
Definition with_next (m : gmap COutPoint Z) (p : CTxMemPool) : CTxMemPool :=
  {| mapTx := mapTx p; mapLinks := mapLinks p; mapNextTx := m; mapDeltas := mapDeltas p; vTxHashes := vTxHashes p;
     totalTxSize := totalTxSize p; cachedInnerUsage := cachedInnerUsage p; nTransactionsUpdated := nTransactionsUpdated p |}.
Definition with_deltas (m : gmap Z Z) (p : CTxMemPool) : CTxMemPool :=
  {| mapTx := mapTx p; mapLinks := mapLinks p; mapNextTx := mapNextTx p; mapDeltas := m; vTxHashes := vTxHashes p;
     totalTxSize := totalTxSize p; cachedInnerUsage := cachedInnerUsage p; nTransactionsUpdated := nTransactionsUpdated p |}.
Definition with_totals (l : list Z) (total updated : Z) (p : CTxMemPool) : CTxMemPool :=
  {| mapTx := mapTx p; mapLinks := mapLinks p; mapNextTx := mapNextTx p; mapDeltas := mapDeltas p; vTxHashes := l;
     totalTxSize := total; cachedInnerUsage := cachedInnerUsage p; nTransactionsUpdated := updated |}.

(** The order in which a set of iterators is gone through. *)
Class SetOrder := {
  set_list : gset Z -> list Z;
  set_list_perm s : set_list s ≡ₚ elements s;
}.

(** [mapTx.modify] *)
Definition modify (f : CTxMemPoolEntry -> option CTxMemPoolEntry) (k : Z) (p : CTxMemPool) : option CTxMemPool :=
  e ← mapTx p !! k; e' ← f e; Some (with_tx (<[k := e']> (mapTx p)) p).

(** [BOOST_FOREACH] over iterators, with a body that can fail. *)
Fixpoint foreach (f : Z -> CTxMemPool -> option CTxMemPool) (l : list Z) (p : CTxMemPool) : option CTxMemPool :=
  match l with
  | [] => Some p
  | k :: l => p ← f k p; foreach f l p
  end.

Section Mempool.
Context `{SetOrder}.

(** [memusage::IncrementalDynamicUsage] of a set of iterators. *)
Variable node_usage : Z.

Definition GetMemPoolParents (p : CTxMemPool) (it : Z) : option (gset Z) := parents <$> mapLinks p !! it.
Definition GetMemPoolChildren (p : CTxMemPool) (it : Z) : option (gset Z) := children <$> mapLinks p !! it.

Definition no_links : TxLinks := {| parents := ∅; children := ∅ |}.
Definition links_of (p : CTxMemPool) (it : Z) : TxLinks := default no_links (mapLinks p !! it).

Definition UpdateChild (add : bool) (entry child : Z) (p : CTxMemPool) : CTxMemPool :=
  let l := links_of p entry in
  if add then
    with_links (<[entry := {| parents := parents l; children := {[child]} ∪ children l |}]> (mapLinks p))
      (if decide (child ∈ children l) then cachedInnerUsage p else u64 (cachedInnerUsage p + node_usage)) p
  else
    with_links (<[entry := {| parents := parents l; children := children l ∖ {[child]} |}]> (mapLinks p))
      (if decide (child ∈ children l) then u64 (cachedInnerUsage p - node_usage) else cachedInnerUsage p) p.

Definition UpdateParent (add : bool) (entry parent : Z) (p : CTxMemPool) : CTxMemPool :=
  let l := links_of p entry in
  if add then
    with_links (<[entry := {| parents := {[parent]} ∪ parents l; children := children l |}]> (mapLinks p))
      (if decide (parent ∈ parents l) then cachedInnerUsage p else u64 (cachedInnerUsage p + node_usage)) p
  else
    with_links (<[entry := {| parents := parents l ∖ {[parent]}; children := children l |}]> (mapLinks p))
      (if decide (parent ∈ parents l) then u64 (cachedInnerUsage p - node_usage) else cachedInnerUsage p) p.

(** ** Ancestors and descendants *)

(** The limits of [CalculateMemPoolAncestors] and what makes it refuse. *)
Record Limits := { limitAncestorCount : Z; limitAncestorSize : Z; limitDescendantCount : Z; limitDescendantSize : Z }.
Inductive Refusal := TooManyParents | DescendantSize (h : Z) | TooManyDescendants (h : Z) | AncestorSize | TooManyAncestors.

Definition nNoLimit : Z := 2 ^ 64 - 1.
Definition no_limits : Limits :=
  {| limitAncestorCount := nNoLimit; limitAncestorSize := nNoLimit; limitDescendantCount := nNoLimit; limitDescendantSize := nNoLimit |}.

Definition set_size (s : gset Z) : Z := Z.of_nat (size s).

(** The parents found by the inputs of a transaction. *)
Fixpoint parents_by_inputs (p : CTxMemPool) (lim : Limits) (l : list CTxIn) (acc : gset Z) : Refusal + gset Z :=
  match l with
  | [] => inr acc
  | i :: l =>
      let h := op_hash (prevout i) in
      match mapTx p !! h with
      | Some _ =>
          let acc := {[h]} ∪ acc in
          if u64 (set_size acc + 1) >? limitAncestorCount lim then inl TooManyParents else parents_by_inputs p lim l acc
      | None => parents_by_inputs p lim l acc
      end
  end.

(** Staging the parents of an ancestor. *)
Fixpoint stage_parents (lim : Limits) (l : list Z) (parentHashes setAncestors : gset Z) : Refusal + gset Z :=
  match l with
  | [] => inr parentHashes
  | phash :: l =>
      let parentHashes := if decide (phash ∈ setAncestors) then parentHashes else {[phash]} ∪ parentHashes in
      if u64 (set_size parentHashes + set_size setAncestors + 1) >? limitAncestorCount lim then inl TooManyAncestors
      else stage_parents lim l parentHashes setAncestors
  end.

Fixpoint ancestors_loop (fuel : nat) (p : CTxMemPool) (size : Z) (lim : Limits) (parentHashes setAncestors : gset Z) (total : Z)
    : option (gset Z * option Refusal) :=
  match fuel with
  | O => None
  | S fuel =>
      match set_list parentHashes with
      | [] => Some (setAncestors, None)
      | stageit :: _ =>
          let setAncestors := {[stageit]} ∪ setAncestors in
          let parentHashes := parentHashes ∖ {[stageit]} in
          e ← mapTx p !! stageit;
          let total := u64 (total + nTxSize e) in
          if u64 (nSizeWithDescendants e + size) >? limitDescendantSize lim then Some (setAncestors, Some (DescendantSize stageit))
          else if u64 (nCountWithDescendants e + 1) >? limitDescendantCount lim then Some (setAncestors, Some (TooManyDescendants stageit))
          else if total >? limitAncestorSize lim then Some (setAncestors, Some AncestorSize)
          else
            ps ← GetMemPoolParents p stageit;
            match stage_parents lim (set_list ps) parentHashes setAncestors with
            | inl r => Some (setAncestors, Some r)
            | inr parentHashes => ancestors_loop fuel p size lim parentHashes setAncestors total
            end
      end
  end.

(** The set of ancestors, with the refusal that cut it short if there is one. *)
Definition CalculateMemPoolAncestors (p : CTxMemPool) (entry : CTxMemPoolEntry) (setAncestors : gset Z) (lim : Limits) (fSearchForParents : bool)
    : option (gset Z * option Refusal) :=
  let run parentHashes := ancestors_loop (S (size (mapTx p))) p (nTxSize entry) lim parentHashes setAncestors (nTxSize entry) in
  if fSearchForParents then
    match parents_by_inputs p lim (vin (e_tx entry)) ∅ with
    | inl r => Some (setAncestors, Some r)
    | inr parentHashes => run parentHashes
    end
  else ps ← GetMemPoolParents p (e_hash entry); run ps.

Fixpoint stage_children (l : list Z) (stage setDescendants : gset Z) : gset Z :=
  match l with
  | [] => stage
  | c :: l => stage_children l (if decide (c ∈ setDescendants) then stage else {[c]} ∪ stage) setDescendants
  end.

Fixpoint descendants_loop (fuel : nat) (p : CTxMemPool) (stage setDescendants : gset Z) : option (gset Z) :=
  match fuel with
  | O => None
  | S fuel =>
      match set_list stage with
      | [] => Some setDescendants
      | it :: _ =>
          let setDescendants := {[it]} ∪ setDescendants in
          cs ← GetMemPoolChildren p it;
          descendants_loop fuel p (stage_children (set_list cs) (stage ∖ {[it]}) setDescendants) setDescendants
      end
  end.

Definition CalculateDescendants (p : CTxMemPool) (entryit : Z) (setDescendants : gset Z) : option (gset Z) :=
  descendants_loop (S (size (mapTx p))) p (if decide (entryit ∈ setDescendants) then ∅ else {[entryit]}) setDescendants.

(** ** Adding *)

(** Links to the parents are cut or made on their side, and the state of all ancestors follows. *)
Definition UpdateAncestorsOf (add : bool) (it : Z) (setAncestors : gset Z) (p : CTxMemPool) : option CTxMemPool :=
  ps ← GetMemPoolParents p it;
  let p := foldl (fun p piter => UpdateChild add piter it p) p (set_list ps) in
  e ← mapTx p !! it;
  let updateCount := if add then 1 else -1 in
  let updateSize := i64 (updateCount * nTxSize e) in
  updateFee ← checked (updateCount * GetModifiedFee e);
  foreach (modify (UpdateDescendantState updateSize updateFee updateCount)) (set_list setAncestors) p.

(** The sums of sizes, fees and signature operations over a list of entries. *)
Fixpoint entry_sums (p : CTxMemPool) (l : list Z) (acc : Z * Z * Z) : option (Z * Z * Z) :=
  match l with
  | [] => Some acc
  | k :: l =>
      let '(updateSize, updateFee, updateSigOps) := acc in
      e ← mapTx p !! k;
      fee ← checked (updateFee + GetModifiedFee e);
      entry_sums p l (i64 (updateSize + nTxSize e), fee, i32 (updateSigOps + sigOpCount e))
  end.

Definition UpdateEntryForAncestors (it : Z) (setAncestors : gset Z) (p : CTxMemPool) : option CTxMemPool :=
  '(updateSize, updateFee, updateSigOps) ← entry_sums p (set_list setAncestors) (0, 0, 0);
  modify (UpdateAncestorState updateSize updateFee (set_size setAncestors) updateSigOps) it p.

(** [mapNextTx.insert] for every input; an outpoint that is there keeps its spender. *)
Definition insert_inputs (h : Z) (l : list CTxIn) (m : gmap COutPoint Z) : gmap COutPoint Z :=
  foldl (fun m i => match m !! prevout i with Some _ => m | None => <[prevout i := h]> m end) m l.

Definition input_hashes (l : list CTxIn) : gset Z := list_to_set (map (fun i => op_hash (prevout i)) l).

(** The part of [addUnchecked] before the ancestors are updated. *)
Definition insert_entry (entry : CTxMemPoolEntry) (p : CTxMemPool) : option CTxMemPool :=
  let newit := e_hash entry in
  let p := with_tx (match mapTx p !! newit with Some _ => mapTx p | None => <[newit := entry]> (mapTx p) end) p in
  let p := with_links (match mapLinks p !! newit with Some _ => mapLinks p | None => <[newit := no_links]> (mapLinks p) end)
             (cachedInnerUsage p) p in
  p ← (match mapDeltas p !! newit with
       | Some d => if negb (d =? 0) then modify (UpdateFeeDelta d) newit p else Some p
       | None => Some p
       end);
  let p := with_links (mapLinks p) (u64 (cachedInnerUsage p + nUsageSize entry)) p in
  let p := with_next (insert_inputs newit (vin (e_tx entry)) (mapNextTx p)) p in
  Some (foldl (fun p phash => match mapTx p !! phash with Some _ => UpdateParent true newit phash p | None => p end) p
         (set_list (input_hashes (vin (e_tx entry))))).

Definition addUnchecked (entry : CTxMemPoolEntry) (setAncestors : gset Z) (p : CTxMemPool) : option CTxMemPool :=
  let newit := e_hash entry in
  p ← insert_entry entry p;
  p ← UpdateAncestorsOf true newit setAncestors p;
  p ← UpdateEntryForAncestors newit setAncestors p;
  let l := vTxHashes p ++ [newit] in
  let p := with_totals l (u64 (totalTxSize p + nTxSize entry)) (u32 (nTransactionsUpdated p + 1)) p in
  modify (fun e => Some (set_idx (length l - 1) e)) newit p.

(** [addUnchecked] without a set of ancestors *)
Definition addUnchecked_alone (entry : CTxMemPoolEntry) (p : CTxMemPool) : option CTxMemPool :=
  '(setAncestors, _) ← CalculateMemPoolAncestors p entry ∅ no_limits true;
  addUnchecked entry setAncestors p.

(** ** Removing *)

Definition UpdateChildrenForRemoval (it : Z) (p : CTxMemPool) : option CTxMemPool :=
  cs ← GetMemPoolChildren p it;
  Some (foldl (fun p updateIt => UpdateParent false updateIt it p) p (set_list cs)).

(** One transaction taken out of the state for ancestors of its descendants, and out of the state for descendants of its ancestors. *)
Definition forget_ancestor (removeIt : Z) (p : CTxMemPool) : option CTxMemPool :=
  setDescendants ← CalculateDescendants p removeIt ∅;
  e ← mapTx p !! removeIt;
  modifyFee ← checked (- GetModifiedFee e);
  foreach (modify (UpdateAncestorState (- i64 (nTxSize e)) modifyFee (-1) (i32 (- sigOpCount e)))) (set_list (setDescendants ∖ {[removeIt]})) p.

Definition forget_descendant (removeIt : Z) (p : CTxMemPool) : option CTxMemPool :=
  entry ← mapTx p !! removeIt;
  '(setAncestors, _) ← CalculateMemPoolAncestors p entry ∅ no_limits false;
  UpdateAncestorsOf false removeIt setAncestors p.

Definition UpdateForRemoveFromMempool (entriesToRemove : gset Z) (updateDescendants : bool) (p : CTxMemPool) : option CTxMemPool :=
  p ← (if updateDescendants then foreach forget_ancestor (set_list entriesToRemove) p else Some p);
  p ← foreach forget_descendant (set_list entriesToRemove) p;
  foreach UpdateChildrenForRemoval (set_list entriesToRemove) p.

(** The entry's place in [vTxHashes] is taken by the last one. *)
Definition remove_hash (idx : nat) (p : CTxMemPool) : option CTxMemPool :=
  if (1 <? length (vTxHashes p))%nat then
    back ← last (vTxHashes p);
    _ ← vTxHashes p !! idx;
    let l := <[idx := back]> (vTxHashes p) in
    p ← modify (fun e => Some (set_idx idx e)) back p;
    Some (with_totals (take (length l - 1) l) (totalTxSize p) (nTransactionsUpdated p) p)
  else Some (with_totals [] (totalTxSize p) (nTransactionsUpdated p) p).

Definition removeUnchecked (it : Z) (p : CTxMemPool) : option CTxMemPool :=
  e ← mapTx p !! it;
  let p := with_next (foldl (fun m i => delete (prevout i) m) (mapNextTx p) (vin (e_tx e))) p in
  p ← remove_hash (vTxHashesIdx e) p;
  let p := with_totals (vTxHashes p) (u64 (totalTxSize p - nTxSize e)) (u32 (nTransactionsUpdated p + 1)) p in
  let l := links_of p it in
  let usage := u64 (cachedInnerUsage p - nUsageSize e - node_usage * (set_size (parents l) + set_size (children l))) in
  Some (with_tx (delete it (mapTx p)) (with_links (delete it (mapLinks p)) usage p)).

Definition RemoveStaged (stage : gset Z) (updateDescendants : bool) (p : CTxMemPool) : option CTxMemPool :=
  p ← UpdateForRemoveFromMempool stage updateDescendants p;
  foreach removeUnchecked (set_list stage) p.

(** The descendants of several entries. *)
Fixpoint all_descendants (p : CTxMemPool) (l : list Z) (setAllRemoves : gset Z) : option (gset Z) :=
  match l with
  | [] => Some setAllRemoves
  | it :: l => s ← CalculateDescendants p it setAllRemoves; all_descendants p l s
  end.

(** The transactions of the pool that spend outputs of one that is not there, from output [i] on. *)
Fixpoint spenders_of (p : CTxMemPool) (h : Z) (n : nat) (i : Z) : option (gset Z) :=
  match n with
  | O => Some ∅
  | S n =>
      rest ← spenders_of p h n (i + 1);
      match mapNextTx p !! {| op_hash := h; op_n := i |} with
      | None => Some rest
      | Some s => _ ← mapTx p !! s; Some ({[s]} ∪ rest)
      end
  end.

Definition removeRecursive (origTx : CTransaction) (p : CTxMemPool) : option CTxMemPool :=
  txToRemove ← (match mapTx p !! tx_hash origTx with
                | Some _ => Some {[tx_hash origTx]}
                | None => spenders_of p (tx_hash origTx) (length (vout origTx)) 0
                end);
  setAllRemoves ← all_descendants p (set_list txToRemove) ∅;
  RemoveStaged setAllRemoves false p.

Definition ClearPrioritisation (hash : Z) (p : CTxMemPool) : CTxMemPool := with_deltas (delete hash (mapDeltas p)) p.

Fixpoint remove_conflicts (tx : CTransaction) (l : list CTxIn) (p : CTxMemPool) : option CTxMemPool :=
  match l with
  | [] => Some p
  | i :: l =>
      p ← (match mapNextTx p !! prevout i with
           | None => Some p
           | Some h =>
               txConflict ← mapTx p !! h;
               if e_hash txConflict =? tx_hash tx then Some p
               else removeRecursive (e_tx txConflict) (ClearPrioritisation (e_hash txConflict) p)
           end);
      remove_conflicts tx l p
  end.

Definition removeConflicts (tx : CTransaction) (p : CTxMemPool) : option CTxMemPool := remove_conflicts tx (vin tx) p.

Fixpoint removeForBlock (vtx : list CTransaction) (p : CTxMemPool) : option CTxMemPool :=
  match vtx with
  | [] => Some p
  | tx :: vtx =>
      p ← (match mapTx p !! tx_hash tx with Some _ => RemoveStaged {[tx_hash tx]} true p | None => Some p end);
      p ← removeConflicts tx p;
      removeForBlock vtx (ClearPrioritisation (tx_hash tx) p)
  end.

(** Entries older than [time] that are not locked, with their descendants, and how many. *)
Definition Expire (locked : Z -> bool) (time : Z) (p : CTxMemPool) : option (CTxMemPool * Z) :=
  let toremove : gset Z := dom (filter (fun x => ((nTime x.2 <? time) && negb (locked x.1)) = true) (mapTx p)) in
  stage ← all_descendants p (set_list toremove) ∅;
  p ← RemoveStaged stage false p;
  Some (p, set_size stage).

Definition exists_tx (p : CTxMemPool) (hash : Z) : bool := bool_decide (is_Some (mapTx p !! hash)).

(** The outpoints spent by removed transactions whose own transactions are not in the pool. *)
Definition no_spends_remaining (p : CTxMemPool) (txn : list CTransaction) : list COutPoint :=
  flat_map (fun tx => filter (fun o => exists_tx p (op_hash o) = false) (map prevout (vin tx))) txn.

(** [TrimToSize]: the entry of lowest score goes with its descendants until the usage is within the limit; the
    outpoints that are spent by nothing any more are appended to a list. *)
Variable usage : CTxMemPool -> Z.
Variable worst : CTxMemPool -> option Z.

Fixpoint trim_loop (fuel : nat) (sizelimit : Z) (p : CTxMemPool) (pvNoSpendsRemaining : list COutPoint) : option (CTxMemPool * list COutPoint) :=
  match fuel with
  | O => None
  | S fuel =>
      if bool_decide (mapTx p = ∅) || negb (usage p >? sizelimit) then Some (p, pvNoSpendsRemaining)
      else
        it ← worst p;
        stage ← CalculateDescendants p it ∅;
        let txn := map e_tx (omap (fun k => mapTx p !! k) (set_list stage)) in
        p ← RemoveStaged stage false p;
        trim_loop fuel sizelimit p (pvNoSpendsRemaining ++ no_spends_remaining p txn)
  end.

Definition TrimToSize (sizelimit : Z) (p : CTxMemPool) : option (CTxMemPool * list COutPoint) := trim_loop (S (size (mapTx p))) sizelimit p [].

(** ** Prioritising and queries *)

Definition PrioritiseTransaction (hash nFeeDelta : Z) (p : CTxMemPool) : option CTxMemPool :=
  delta ← checked (default 0 (mapDeltas p !! hash) + nFeeDelta);
  let p := with_deltas (<[hash := delta]> (mapDeltas p)) p in
  match mapTx p !! hash with
  | None => Some p
  | Some _ =>
      p ← modify (UpdateFeeDelta delta) hash p;
      e ← mapTx p !! hash;
      '(setAncestors, _) ← CalculateMemPoolAncestors p e ∅ no_limits false;
      p ← foreach (modify (UpdateDescendantState 0 nFeeDelta 0)) (set_list setAncestors) p;
      setDescendants ← CalculateDescendants p hash ∅;
      p ← foreach (modify (UpdateAncestorState 0 nFeeDelta 0 0)) (set_list (setDescendants ∖ {[hash]})) p;
      Some (with_totals (vTxHashes p) (totalTxSize p) (u32 (nTransactionsUpdated p + 1)) p)
  end.

Definition isSpent (p : CTxMemPool) (outpoint : COutPoint) : bool := bool_decide (is_Some (mapNextTx p !! outpoint)).
Definition HasNoInputsOf (p : CTxMemPool) (tx : CTransaction) : bool := forallb (fun i => negb (exists_tx p (op_hash (prevout i)))) (vin tx).
Definition TransactionWithinChainLimit (p : CTxMemPool) (txid chainLimit : Z) : bool :=
  match mapTx p !! txid with
  | None => true
  | Some e => (nCountWithAncestors e <? chainLimit) && (nCountWithDescendants e <? chainLimit)
  end.

End Mempool.

(** ** Lemmas: iteration *)

Section Iteration.
Context `{SetOrder}.

Lemma elem_of_set_list x s : x ∈ set_list s <-> x ∈ s.
Proof. by rewrite (set_list_perm s), elem_of_elements. Qed.

Lemma NoDup_set_list s : NoDup (set_list s).
Proof. rewrite (set_list_perm s). apply NoDup_elements. Qed.

Lemma set_list_nil s : set_list s = [] -> s = ∅.
Proof. intros E. apply set_eq. intros x. rewrite <- (elem_of_set_list x s), E. split; [by intros ?%elem_of_nil|by intros ?%elem_of_empty]. Qed.

Lemma set_list_head s x l : set_list s = x :: l -> x ∈ s.
Proof. intros E. apply elem_of_set_list. rewrite E. left. Qed.

Lemma modify_ok f k p e e' : mapTx p !! k = Some e -> f e = Some e' -> modify f k p = Some (with_tx (<[k := e']> (mapTx p)) p).
Proof. intros He Hf. unfold modify. rewrite He. cbn [mbind option_bind]. by rewrite Hf. Qed.

(** Updates of distinct entries by one function, all at once. *)
Lemma foreach_modify f l p :
  NoDup l -> (forall k, k ∈ l -> exists e e', mapTx p !! k = Some e /\ f e = Some e') ->
  exists m', foreach (modify f) l p = Some (with_tx m' p) /\ forall k, m' !! k = if decide (k ∈ l) then mapTx p !! k ≫= f else mapTx p !! k.
Proof.
  revert p. induction l as [|k l IH]; intros p Hn Hl; cbn [foreach].
  { exists (mapTx p). split; [by destruct p|]. intros k. by rewrite decide_False by apply not_elem_of_nil. }
  apply NoDup_cons in Hn as [Hk Hn]. destruct (Hl k ltac:(left)) as (e & e' & He & Hf). rewrite (modify_ok f k p e e' He Hf). cbn [mbind option_bind].
  destruct (IH (with_tx (<[k := e']> (mapTx p)) p)) as (m' & E & Hm); [done| |].
  { intros j Hj. cbn [mapTx with_tx]. assert (j <> k) by (intros ->; done). rewrite lookup_insert_ne by congruence. apply Hl. by right. }
  exists m'. split; [exact E|]. intros j. rewrite Hm. cbn [mapTx with_tx]. destruct (decide (j = k)) as [->|Hne].
  - rewrite decide_False by done. rewrite lookup_insert_eq, decide_True by left. by rewrite He.
  - rewrite lookup_insert_ne by congruence. destruct (decide (j ∈ l)); [by rewrite decide_True by (by right)|].
    rewrite decide_False; [done|]. by intros [->|?]%elem_of_cons.
Qed.

Lemma stage_children_ok l stage seen : stage_children l stage seen = stage ∪ (list_to_set l ∖ seen).
Proof.
  revert stage. induction l as [|c l IH]; intros stage; cbn [stage_children list_to_set]; [set_solver|]. rewrite IH. case_decide; set_solver.
Qed.

Lemma set_list_to_set s : list_to_set (set_list s) = s.
Proof. apply set_eq. intros x. by rewrite elem_of_list_to_set, elem_of_set_list. Qed.

End Iteration.

(** ** Lemmas: the graph of the links *)

Definition up (p : CTxMemPool) (x : Z) : gset Z := parents (links_of p x).
Definition down (p : CTxMemPool) (x : Z) : gset Z := children (links_of p x).
Abbreviation pool p := (dom (mapTx p)) (only parsing).

(** Both directions of the links agree, and they stay in the pool. *)
Record linked (p : CTxMemPool) : Prop := {
  lk_dom : dom (mapLinks p) = dom (mapTx p);
  lk_sym : forall x y, y ∈ up p x <-> x ∈ down p y;
  lk_up : forall x, up p x ⊆ dom (mapTx p);
}.

Lemma linked_down p x : linked p -> down p x ⊆ dom (mapTx p).
Proof.
  intros L y Hy. apply (lk_sym p L) in Hy. destruct (mapLinks p !! y) as [l|] eqn:E.
  - rewrite <- (lk_dom p L). apply elem_of_dom. eauto.
  - unfold up, links_of in Hy. rewrite E in Hy. by apply elem_of_empty in Hy.
Qed.

Lemma linked_children p x : linked p -> x ∈ pool p -> GetMemPoolChildren p x = Some (down p x).
Proof. intros L Hx. rewrite <- (lk_dom p L) in Hx. apply elem_of_dom in Hx as [l E]. unfold GetMemPoolChildren, down, links_of. by rewrite E. Qed.

Lemma linked_reverse p x y : linked p -> tc (step (up p)) x y <-> tc (step (down p)) y x.
Proof. intros L. apply step_reverse. apply (lk_sym p L). Qed.

(** What a walk over the parents needs. *)
Record up_ok (p : CTxMemPool) : Prop := { uo_dom : dom (mapLinks p) = dom (mapTx p); uo_up : forall x, up p x ⊆ dom (mapTx p) }.

Lemma linked_up_ok p : linked p -> up_ok p.
Proof. intros [D _ U]. by constructor. Qed.

Lemma up_ok_parents p x : up_ok p -> x ∈ pool p -> GetMemPoolParents p x = Some (up p x).
Proof. intros [D _] Hx. rewrite <- D in Hx. apply elem_of_dom in Hx as [l E]. unfold GetMemPoolParents, up, links_of. by rewrite E. Qed.

Section Descendants.
Context `{SetOrder}.

Lemma descendants_loop_ok fuel p stage seen :
  linked p -> worklist (down p) stage seen -> within (down p) (pool p) stage seen -> (size (pool p ∖ seen) < fuel)%nat ->
  exists s, descendants_loop fuel p stage seen = Some s /\ forall y, y ∈ s <-> covered (down p) stage seen y.
Proof.
  intros L. revert stage seen. induction fuel as [|fuel IH]; intros stage seen W I Hf; [lia|]. cbn [descendants_loop].
  destruct (set_list stage) as [|it l] eqn:E.
  { apply set_list_nil in E as ->. exists seen. split; [done|]. intros y. by rewrite covered_done. }
  apply set_list_head in E. rewrite linked_children; [|done|by apply (proj1 I)]. cbn [mbind option_bind].
  rewrite stage_children_ok, set_list_to_set. change (stage ∖ {[it]} ∪ _) with (expand (down p) it stage seen).
  pose proof (measure_expand _ _ _ _ _ E W I).
  destruct (IH _ _ (worklist_expand _ _ _ _ E W) (within_expand _ _ _ _ _ E I)) as (s & Es & Hs); [lia|].
  exists s. split; [done|]. intros y. by rewrite Hs, covered_expand.
Qed.

(** [CalculateDescendants] adds an entry and all it leads to. *)
Lemma CalculateDescendants_ok p it seen :
  linked p -> it ∈ pool p -> seen ⊆ pool p -> (forall x y, x ∈ seen -> y ∈ down p x -> y ∈ seen) ->
  exists s, CalculateDescendants p it seen = Some s /\ forall y, y ∈ s <-> y ∈ seen \/ rtc (step (down p)) it y.
Proof.
  intros L Hit Hs Hc. unfold CalculateDescendants.
  assert (size (pool p ∖ seen) < S (size (mapTx p)))%nat as Hf.
  { pose proof (subseteq_size (pool p ∖ seen) (pool p) ltac:(set_solver)) as Hle. rewrite size_dom in Hle. lia. }
  assert (forall x, x ∈ pool p -> down p x ⊆ pool p) as Hd by (intros; by apply linked_down).
  case_decide as Hin.
  - destruct (descendants_loop_ok (S (size (mapTx p))) p ∅ seen L) as (s & E & Hy); [|split_and!; [set_solver|done|done]|done|].
    { constructor; [set_solver|]. intros x y Hx Hxy. left. by eapply Hc. }
    exists s. split; [done|]. intros y. rewrite Hy, covered_done. split; [by left|]. intros [?|Hr]; [done|].
    clear -Hin Hr Hc. induction Hr as [|a b c Hab _ IH]; [done|]. apply IH. by eapply Hc.
  - destruct (descendants_loop_ok (S (size (mapTx p))) p {[it]} seen L) as (s & E & Hy); [|split_and!; [set_solver|done|done]|done|].
    { constructor; [set_solver|]. intros x y Hx Hxy. left. by eapply Hc. }
    exists s. split; [done|]. intros y. rewrite Hy. unfold covered. split; (intros [?|Hr]; [by left|right]).
    + by destruct Hr as (s' & ->%elem_of_singleton & ?).
    + exists it. by rewrite elem_of_singleton.
Qed.

Lemma all_descendants_ok p l seen :
  linked p -> Forall (fun x => x ∈ pool p) l -> seen ⊆ pool p -> (forall x y, x ∈ seen -> y ∈ down p x -> y ∈ seen) ->
  exists s, all_descendants p l seen = Some s /\ s ⊆ pool p /\ (forall x y, x ∈ s -> y ∈ down p x -> y ∈ s)
  /\ forall y, y ∈ s <-> y ∈ seen \/ exists x, x ∈ l /\ rtc (step (down p)) x y.
Proof.
  intros L. revert seen. induction l as [|x l IH]; intros seen Hl Hs Hc; cbn [all_descendants].
  { exists seen. split_and!; try done. intros y. split; [by left|]. intros [?|(x & ?%elem_of_nil & _)]; done. }
  apply Forall_cons in Hl as [Hx Hl]. destruct (CalculateDescendants_ok p x seen L Hx Hs Hc) as (s1 & E1 & H1). rewrite E1. cbn [mbind option_bind].
  destruct (IH s1 Hl) as (s & E & S1 & S2 & S3).
  - intros y [Hy|Hr]%H1; [by apply Hs|]. apply (covered_within (down p) _ {[x]} ∅); [|by apply covered_one].
    apply within_start; [set_solver|]. intros; by apply linked_down.
  - intros u v Hu Huv. apply H1. apply H1 in Hu as [Hu|Hu]; [left; by eapply Hc|right; by eapply rtc_r].
  - exists s. split_and!; try done. intros y. rewrite S3, H1. split.
    + intros [[?|?]|(z & ? & ?)]; [by left|right; exists x; split; [left|done]|right; exists z; split; [by right|done]].
    + intros [?|(z & [->|?]%elem_of_cons & ?)]; [by left; left|by left; right|right; by exists z].
Qed.

End Descendants.

(** ** Lemmas: ancestors and the limits on packages *)

Definition size_of (m : gmap Z CTxMemPoolEntry) (x : Z) : Z := default 0 (nTxSize <$> m !! x).
Definition fee_of (m : gmap Z CTxMemPoolEntry) (x : Z) : Z := default 0 (GetModifiedFee <$> m !! x).
Definition sig_of (m : gmap Z CTxMemPoolEntry) (x : Z) : Z := default 0 (sigOpCount <$> m !! x).

(** The limits for a transaction of size [size] with the ancestors [t]. *)
Definition within_limits (p : CTxMemPool) (size : Z) (lim : Limits) (t : gset Z) : Prop :=
  (forall x e, x ∈ t -> mapTx p !! x = Some e ->
    nSizeWithDescendants e + size <= limitDescendantSize lim /\ nCountWithDescendants e + 1 <= limitDescendantCount lim)
  /\ (t <> ∅ -> size + sum_over (size_of (mapTx p)) t <= limitAncestorSize lim /\ set_size t + 1 <= limitAncestorCount lim).

(** What keeps the sums of the walk within 64 bits. *)
Record small_pool (p : CTxMemPool) (size : Z) : Prop := {
  sp_entry : forall x e, mapTx p !! x = Some e -> 0 < nTxSize e /\ 0 <= nSizeWithDescendants e < 2 ^ 63 /\ 0 <= nCountWithDescendants e < 2 ^ 63;
  sp_total : sum_over (size_of (mapTx p)) (pool p) < 2 ^ 63;
  sp_size : 0 < size < 2 ^ 63;
}.

Lemma size_of_pos p size x : small_pool p size -> x ∈ pool p -> 1 <= size_of (mapTx p) x.
Proof. intros S [e He]%elem_of_dom. unfold size_of. rewrite He. cbn. pose proof (sp_entry _ _ S x e He). lia. Qed.

Lemma set_size_le s t : s ⊆ t -> set_size s <= set_size t.
Proof. intros Hs. unfold set_size. apply inj_le. by apply subseteq_size. Qed.

Lemma set_size_disj s t : s ## t -> set_size (s ∪ t) = set_size s + set_size t.
Proof. intros Hd. unfold set_size. rewrite size_union by done. lia. Qed.

Lemma small_sums p size t : small_pool p size -> t ⊆ pool p -> 0 <= set_size t <= sum_over (size_of (mapTx p)) t /\ sum_over (size_of (mapTx p)) t < 2 ^ 63.
Proof.
  intros S Ht. pose proof (sp_total _ _ S). unfold set_size. rewrite <- sum_over_one.
  assert (forall x, x ∈ pool p -> 1 <= size_of (mapTx p) x) as Hp by (intros; by eapply size_of_pos).
  pose proof (sum_over_le (fun _ => 1) (size_of (mapTx p)) t ltac:(auto)).
  pose proof (sum_over_subset (size_of (mapTx p)) t (pool p) Ht ltac:(intros x Hx; specialize (Hp x Hx); lia)).
  pose proof (sum_over_nonneg (fun _ => 1) t ltac:(lia)). lia.
Qed.

Lemma u64_id z : 0 <= z < 2 ^ 64 -> u64 z = z.
Proof. apply Z.mod_small. Qed.

Section Ancestors.
Context `{SetOrder}.

Lemma stage_parents_ok p size lim l stage seen :
  small_pool p size -> stage ## seen -> stage ∪ seen ∪ list_to_set l ⊆ pool p ->
  match stage_parents lim l stage seen with
  | inr s => s = stage ∪ (list_to_set l ∖ seen)
      /\ (set_size stage + set_size seen + 1 <= limitAncestorCount lim -> set_size s + set_size seen + 1 <= limitAncestorCount lim)
  | inl _ => limitAncestorCount lim < set_size (stage ∪ (list_to_set l ∖ seen)) + set_size seen + 1
  end.
Proof.
  intros S. revert stage. induction l as [|x l IH]; intros stage D Hp; cbn [stage_parents list_to_set] in *.
  { split; [set_solver|done]. }
  set (stage1 := if decide (x ∈ seen) then stage else {[x]} ∪ stage).
  assert (stage ∪ ({[x]} ∪ list_to_set l) ∖ seen = stage1 ∪ list_to_set l ∖ seen) as -> by (unfold stage1; case_decide; set_solver).
  assert (stage1 ## seen) as D1 by (unfold stage1; case_decide; set_solver).
  assert (stage1 ∪ seen ∪ list_to_set l ⊆ pool p) as Hp1 by (unfold stage1; case_decide; set_solver).
  assert (0 <= set_size stage1 + set_size seen < 2 ^ 63) as Hb.
  { rewrite <- set_size_disj by done. pose proof (small_sums p size (stage1 ∪ seen) S ltac:(set_solver)). lia. }
  rewrite u64_id by lia. rewrite Z.gtb_ltb. destruct (Z.ltb_spec (limitAncestorCount lim) (set_size stage1 + set_size seen + 1)) as [Hlt|Hge].
  - pose proof (set_size_le stage1 (stage1 ∪ list_to_set l ∖ seen) ltac:(set_solver)). lia.
  - specialize (IH stage1 D1 Hp1). destruct (stage_parents lim l stage1 seen) as [r|s]; [done|]. destruct IH as [-> IH]. split; [done|]. intros _. apply IH. lia.
Qed.

Lemma ancestors_loop_ok fuel p size lim stage seen t :
  up_ok p -> small_pool p size -> worklist (up p) stage seen -> within (up p) (pool p) stage seen -> (base.size (pool p ∖ seen) < fuel)%nat ->
  (forall y, y ∈ t <-> covered (up p) stage seen y) -> within_limits p size lim seen ->
  (stage ∪ seen <> ∅ -> set_size stage + set_size seen + 1 <= limitAncestorCount lim) ->
  exists s r, ancestors_loop fuel p size lim stage seen (size + sum_over (size_of (mapTx p)) seen) = Some (s, r)
  /\ match r with None => s = t /\ within_limits p size lim t | Some _ => s ⊆ t /\ ~ within_limits p size lim t end.
Proof.
  intros L S. revert stage seen. induction fuel as [|fuel IH]; intros stage seen W I Hf Ht Hlim Hcount; [lia|]. cbn [ancestors_loop].
  destruct (set_list stage) as [|x l] eqn:E.
  { apply set_list_nil in E as ->. exists seen, None. split; [done|]. assert (seen = t) as <-; [|done].
    apply set_eq. intros y. by rewrite Ht, covered_done. }
  apply set_list_head in E. assert (x ∈ pool p) as Hx by by apply (proj1 I). pose proof Hx as [e He]%elem_of_dom. rewrite He. cbn [mbind option_bind].
  pose proof (wl_disj _ _ _ W) as D. pose proof (worklist_expand _ _ _ _ E W) as W'. pose proof (within_expand _ _ _ _ _ E I) as I'.
  pose proof (measure_expand _ _ _ _ _ E W I).
  assert (forall y, y ∈ t <-> covered (up p) (expand (up p) x stage seen) ({[x]} ∪ seen) y) as Ht' by (intros y; by rewrite Ht, covered_expand).
  assert (expand (up p) x stage seen ∪ ({[x]} ∪ seen) ⊆ t) as Hsub.
  { intros y [Hy|Hy]%elem_of_union; apply Ht'; [right; by exists y|by left]. }
  assert (t ⊆ pool p) as Htp by (intros y Hy; apply Ht in Hy; exact (covered_within _ _ _ _ _ I Hy)).
  assert (t <> ∅) as Hne by set_solver.
  assert (sum_over (size_of (mapTx p)) ({[x]} ∪ seen) = nTxSize e + sum_over (size_of (mapTx p)) seen) as Esum.
  { rewrite sum_over_insert by set_solver. f_equal. unfold size_of. by rewrite He. }
  pose proof (small_sums p size ({[x]} ∪ seen) S ltac:(set_solver)) as Hs1. pose proof (small_sums p size t S Htp) as Hs2.
  pose proof (sp_size _ _ S). pose proof (sp_entry _ _ S x e He) as (Hpos & Hds & Hdc).
  assert (sum_over (size_of (mapTx p)) ({[x]} ∪ seen) <= sum_over (size_of (mapTx p)) t) as Hle.
  { apply sum_over_subset; [set_solver|]. intros y Hy. pose proof (size_of_pos p size y S ltac:(set_solver)). lia. }
  rewrite !u64_id by lia. replace (size + sum_over (size_of (mapTx p)) seen + nTxSize e) with (size + sum_over (size_of (mapTx p)) ({[x]} ∪ seen)) by lia.
  rewrite !Z.gtb_ltb.
  destruct (Z.ltb_spec (limitDescendantSize lim) (nSizeWithDescendants e + size)).
  { eexists _, _. split; [reflexivity|]. split; [set_solver|]. intros [Hw _]. destruct (Hw x e); [set_solver|done|lia]. }
  destruct (Z.ltb_spec (limitDescendantCount lim) (nCountWithDescendants e + 1)).
  { eexists _, _. split; [reflexivity|]. split; [set_solver|]. intros [Hw _]. destruct (Hw x e); [set_solver|done|lia]. }
  destruct (Z.ltb_spec (limitAncestorSize lim) (size + sum_over (size_of (mapTx p)) ({[x]} ∪ seen))).
  { eexists _, _. split; [reflexivity|]. split; [set_solver|]. intros [_ Hw]. destruct (Hw Hne). lia. }
  rewrite up_ok_parents by done. cbn [mbind option_bind].
  assert (set_size (stage ∖ {[x]}) + set_size ({[x]} ∪ seen) = set_size stage + set_size seen) as Ecount.
  { rewrite <- !set_size_disj by set_solver. f_equal. apply set_eq. intros y. destruct (decide (y = x)) as [->|]; set_solver. }
  pose proof (stage_parents_ok p size lim (set_list (up p x)) (stage ∖ {[x]}) ({[x]} ∪ seen) S ltac:(set_solver)) as Hsp.
  rewrite set_list_to_set in Hsp. fold (expand (up p) x stage seen) in Hsp. rewrite Ecount in Hsp.
  destruct (stage_parents lim _ _ _) as [r|stage'].
  - eexists _, _. split; [reflexivity|]. split; [set_solver|]. intros [_ Hw]. destruct (Hw Hne) as [_ Hc].
    rewrite <- set_size_disj in Hsp by apply W'. pose proof (set_size_le _ _ Hsub). pose proof (uo_up p L x). destruct I as (? & ? & _). specialize (Hsp ltac:(set_solver)). lia.
  - destruct Hsp as [-> Hc]; [pose proof (uo_up p L x); destruct I as (? & ? & _); set_solver|].
    apply (IH _ _ W' I'); [lia|done| |].
    + split; [|intros _; split; [lia|]].
      * intros y e' [->%elem_of_singleton|Hy]%elem_of_union Hy'; [|by apply (proj1 Hlim y)]. rewrite He in Hy'. injection Hy' as <-. lia.
      * specialize (Hc (Hcount ltac:(set_solver))). assert (0 <= set_size (expand (up p) x stage seen)) by (unfold set_size; lia). lia.
    + intros _. apply Hc, Hcount. set_solver.
Qed.

End Ancestors.

Section AncestorSets.
Context `{SetOrder}.

(** The parents of a transaction in the pool. *)
Definition pool_parents (p : CTxMemPool) (tx : CTransaction) : gset Z := input_hashes (vin tx) ∩ pool p.

Lemma parents_by_inputs_ok p size lim l acc :
  small_pool p size -> acc ⊆ pool p ->
  match parents_by_inputs p lim l acc with
  | inr s => s = acc ∪ (input_hashes l ∩ pool p) /\ (s = acc \/ set_size s + 1 <= limitAncestorCount lim)
  | inl _ => acc ∪ (input_hashes l ∩ pool p) <> ∅ /\ limitAncestorCount lim < set_size (acc ∪ (input_hashes l ∩ pool p)) + 1
  end.
Proof.
  intros S. revert acc. induction l as [|i l IH]; intros acc Ha; cbn [parents_by_inputs].
  { split; [unfold input_hashes; cbn; set_solver|by left]. }
  change (input_hashes (i :: l)) with ({[op_hash (prevout i)]} ∪ input_hashes l). set (h := op_hash (prevout i)).
  destruct (mapTx p !! h) as [e|] eqn:E.
  - assert (h ∈ pool p) as Hh by (apply elem_of_dom; eauto).
    assert (acc ∪ ({[h]} ∪ input_hashes l) ∩ pool p = ({[h]} ∪ acc) ∪ input_hashes l ∩ pool p) as -> by set_solver.
    pose proof (small_sums p size ({[h]} ∪ acc) S ltac:(set_solver)). rewrite u64_id by lia. rewrite Z.gtb_ltb.
    destruct (Z.ltb_spec (limitAncestorCount lim) (set_size ({[h]} ∪ acc) + 1)).
    + pose proof (set_size_le ({[h]} ∪ acc) ({[h]} ∪ acc ∪ input_hashes l ∩ pool p) ltac:(set_solver)). split; [set_solver|lia].
    + specialize (IH ({[h]} ∪ acc) ltac:(set_solver)). destruct (parents_by_inputs p lim l _); [done|].
      destruct IH as [-> [->|IH]]; (split; [done|right; lia]).
  - assert (h ∉ pool p) as Hh by (by apply not_elem_of_dom).
    assert (acc ∪ ({[h]} ∪ input_hashes l) ∩ pool p = acc ∪ input_hashes l ∩ pool p) as -> by set_solver. by apply IH.
Qed.

Lemma within_limits_empty p size lim : within_limits p size lim ∅.
Proof. split; [by intros x e ?%elem_of_empty|done]. Qed.

Lemma fuel_enough p seen : (base.size (pool p ∖ seen) < S (base.size (mapTx p)))%nat.
Proof. pose proof (subseteq_size (pool p ∖ seen) (pool p) ltac:(set_solver)) as Hle. rewrite size_dom in Hle. lia. Qed.

Lemma up_within p stage : up_ok p -> stage ⊆ pool p -> within (up p) (pool p) stage ∅.
Proof. intros L Hs. apply within_start; [done|]. intros x _. by apply uo_up. Qed.

(** The ancestors of a transaction that is not in the pool, or is, found from its inputs. *)
Lemma ancestors_search p entry lim t :
  up_ok p -> small_pool p (nTxSize entry) -> (forall y, y ∈ t <-> covered (up p) (pool_parents p (e_tx entry)) ∅ y) ->
  exists s r, CalculateMemPoolAncestors p entry ∅ lim true = Some (s, r)
  /\ match r with None => s = t /\ within_limits p (nTxSize entry) lim t | Some _ => ~ within_limits p (nTxSize entry) lim t end.
Proof.
  intros L S Ht. unfold CalculateMemPoolAncestors. pose proof (parents_by_inputs_ok p (nTxSize entry) lim (vin (e_tx entry)) ∅ S (empty_subseteq _)) as Hp.
  rewrite union_empty_l_L in Hp. fold (pool_parents p (e_tx entry)) in Hp. set (ps := pool_parents p (e_tx entry)) in *.
  assert (ps ⊆ pool p) as Hps by (unfold ps, pool_parents; set_solver).
  destruct (parents_by_inputs p lim _ ∅) as [r|acc].
  - exists ∅, (Some r). split; [done|]. intros [_ Hw].
    assert (ps ⊆ t) as Hpt by (intros y Hy; apply Ht; right; by exists y).
    pose proof (set_size_le ps t Hpt). destruct Hp as [Hne Hp]. destruct Hw as [_ Hw]; [set_solver|lia].
  - destruct Hp as [-> Hc].
    destruct (ancestors_loop_ok (Datatypes.S (base.size (mapTx p))) p (nTxSize entry) lim ps ∅ t L S (worklist_start _ _) (up_within p ps L Hps)
      (fuel_enough p ∅) Ht (within_limits_empty _ _ _)) as (s & r & E & Hr).
    + rewrite union_empty_r_L. intros Hne. destruct Hc as [->|Hc]; [done|]. unfold set_size in *. rewrite size_empty. lia.
    + rewrite sum_over_empty, Z.add_0_r in E. exists s, r. split; [exact E|]. destruct r; tauto.
Qed.

(** The ancestors of an entry of the pool, by its links, without limits. *)
Lemma ancestors_unlimited p h e t :
  up_ok p -> small_pool p (nTxSize e) -> h ∈ pool p -> e_hash e = h -> reach_set (up p) h t ->
  CalculateMemPoolAncestors p e ∅ no_limits false = Some (t, None).
Proof.
  intros L S Hh He Ht. unfold CalculateMemPoolAncestors. rewrite He, up_ok_parents by done. cbn [mbind option_bind].
  pose proof (uo_up p L h) as Hup. assert (t ⊆ pool p) as Htp.
  { intros y Hy. apply Ht, covered_start in Hy. exact (covered_within _ _ _ _ _ (up_within p _ L Hup) Hy). }
  assert (within_limits p (nTxSize e) no_limits t) as Hw.
  { pose proof (sp_size _ _ S). pose proof (small_sums p (nTxSize e) t S Htp). unfold no_limits, nNoLimit. split; cbn.
    - intros x ex _ Hx. pose proof (sp_entry _ _ S x ex Hx). lia.
    - intros _. lia. }
  destruct (ancestors_loop_ok (Datatypes.S (base.size (mapTx p))) p (nTxSize e) no_limits (up p h) ∅ t L S (worklist_start _ _) (up_within p _ L Hup)
      (fuel_enough p ∅)) as (s & r & E & Hr).
  - intros y. rewrite covered_start. apply Ht.
  - apply within_limits_empty.
  - intros _. pose proof (small_sums p (nTxSize e) (up p h) S Hup). unfold no_limits, nNoLimit, set_size in *. cbn. rewrite size_empty. lia.
  - rewrite sum_over_empty, Z.add_0_r in E. rewrite E. destruct r; [by destruct Hr as [_ []]|]. by destruct Hr as [-> _].
Qed.

End AncestorSets.

(** ** Lemmas: counters *)

(** The entry without the counters and the index. *)
Definition core (e : CTxMemPoolEntry) : CTxMemPoolEntry := set_idx 0 (set_anc 0 0 0 0 (set_desc 0 0 0 e)).
Definition desc_part (e : CTxMemPoolEntry) : Z * Z * Z := (nCountWithDescendants e, nSizeWithDescendants e, nModFeesWithDescendants e).
Definition anc_part (e : CTxMemPoolEntry) : Z * Z * Z * Z :=
  (nCountWithAncestors e, nSizeWithAncestors e, nModFeesWithAncestors e, nSigOpCountWithAncestors e).

(** Two maps of entries agree on a part of them. *)
Definition same {A} (f : CTxMemPoolEntry -> A) (m m' : gmap Z CTxMemPoolEntry) : Prop := forall k, f <$> m !! k = f <$> m' !! k.

Lemma same_refl {A} (f : CTxMemPoolEntry -> A) m : same f m m.
Proof. done. Qed.

Lemma same_trans {A} (f : CTxMemPoolEntry -> A) m1 m2 m3 : same f m1 m2 -> same f m2 m3 -> same f m1 m3.
Proof. intros H1 H2 k. by rewrite H1. Qed.

Lemma same_sym {A} (f : CTxMemPoolEntry -> A) m1 m2 : same f m1 m2 -> same f m2 m1.
Proof. intros H k. by rewrite H. Qed.

Lemma same_Some {A} (f : CTxMemPoolEntry -> A) m m' k e : same f m m' -> m !! k = Some e -> exists e', m' !! k = Some e' /\ f e' = f e.
Proof. intros H E. specialize (H k). rewrite E in H. destruct (m' !! k) as [e'|]; [|done]. exists e'. split; [done|]. by injection H as ->. Qed.

Lemma same_dom {A} (f : CTxMemPoolEntry -> A) m m' : same f m m' -> dom m = dom m'.
Proof.
  intros H. apply set_eq. intros k. rewrite !elem_of_dom. specialize (H k). destruct (m !! k), (m' !! k); try done; split; by intros [].
Qed.

Lemma same_compose {A B} (f : CTxMemPoolEntry -> A) (g : A -> B) m m' : same f m m' -> same (fun e => g (f e)) m m'.
Proof. intros H k. specialize (H k). destruct (m !! k), (m' !! k); try done. cbn in *. by injection H as ->. Qed.

Lemma core_sizes m m' : same core m m' ->
  (forall x, size_of m x = size_of m' x) /\ (forall x, fee_of m x = fee_of m' x) /\ (forall x, sig_of m x = sig_of m' x).
Proof.
  intros H. split_and!; intros x; unfold size_of, fee_of, sig_of; specialize (H x); destruct (m !! x) as [e|], (m' !! x) as [e'|]; try done; cbn in *;
    injection H; unfold GetModifiedFee; congruence.
Qed.

(** What the counters of all entries are, by sets of entries and their sizes, fees and signature operations. *)
Definition desc_counts (m : gmap Z CTxMemPoolEntry) (dd : Z -> gset Z) (sz fe : Z -> Z) : Prop :=
  forall h e, m !! h = Some e -> desc_part e = (set_size (dd h), sum_over sz (dd h), sum_over fe (dd h)).
Definition anc_counts (m : gmap Z CTxMemPoolEntry) (aa : Z -> gset Z) (sz fe sg : Z -> Z) : Prop :=
  forall h e, m !! h = Some e -> anc_part e = (set_size (aa h), sum_over sz (aa h), sum_over fe (aa h), sum_over sg (aa h)).

Lemma desc_counts_same m m' dd sz fe : same desc_part m m' -> desc_counts m dd sz fe -> desc_counts m' dd sz fe.
Proof. intros H D h e' E. destruct (same_Some _ _ _ _ _ (same_sym _ _ _ H) E) as (e & E0 & <-). by apply D. Qed.

Lemma anc_counts_same m m' aa sz fe sg : same anc_part m m' -> anc_counts m aa sz fe sg -> anc_counts m' aa sz fe sg.
Proof. intros H D h e' E. destruct (same_Some _ _ _ _ _ (same_sym _ _ _ H) E) as (e & E0 & <-). by apply D. Qed.

Lemma desc_counts_ext m dd sz fe dd' sz' fe' :
  (forall h, h ∈ dom m -> set_size (dd h) = set_size (dd' h) /\ sum_over sz (dd h) = sum_over sz' (dd' h) /\ sum_over fe (dd h) = sum_over fe' (dd' h)) ->
  desc_counts m dd sz fe -> desc_counts m dd' sz' fe'.
Proof. intros H D h e E. destruct (H h) as (H1 & H2 & H3); [apply elem_of_dom; eauto|]. rewrite (D h e E). congruence. Qed.

Lemma anc_counts_ext m aa sz fe sg aa' sz' fe' sg' :
  (forall h, h ∈ dom m -> set_size (aa h) = set_size (aa' h) /\ sum_over sz (aa h) = sum_over sz' (aa' h) /\ sum_over fe (aa h) = sum_over fe' (aa' h)
    /\ sum_over sg (aa h) = sum_over sg' (aa' h)) ->
  anc_counts m aa sz fe sg -> anc_counts m aa' sz' fe' sg'.
Proof. intros H D h e E. destruct (H h) as (H1 & H2 & H3 & H4); [apply elem_of_dom; eauto|]. rewrite (D h e E). congruence. Qed.

Lemma i64_u64 z : 0 <= z < 2 ^ 63 -> i64 (u64 z) = z.
Proof. intros Hz. rewrite u64_id by lia. apply swrap_small; [lia|]. unfold in_s. lia. Qed.

Lemma UpdateDescendantState_ok ds df dc e :
  0 < nSizeWithDescendants e + ds < 2 ^ 63 -> 0 < nCountWithDescendants e + dc < 2 ^ 63 -> in_s 64 (nModFeesWithDescendants e + df) ->
  UpdateDescendantState ds df dc e = Some (set_desc (nCountWithDescendants e + dc) (nSizeWithDescendants e + ds) (nModFeesWithDescendants e + df) e).
Proof.
  intros Hs Hc Hf. unfold UpdateDescendantState. rewrite !i64_u64, checked_in by (done || lia). rewrite !u64_id by lia.
  rewrite !(proj2 (Z.gtb_gt _ 0)) by lia. done.
Qed.

Lemma UpdateAncestorState_ok ds df dc dg e :
  0 < nSizeWithAncestors e + ds < 2 ^ 63 -> 0 < nCountWithAncestors e + dc < 2 ^ 63 -> in_s 64 (nModFeesWithAncestors e + df) ->
  0 <= nSigOpCountWithAncestors e + dg < 2 ^ 31 ->
  UpdateAncestorState ds df dc dg e
  = Some (set_anc (nCountWithAncestors e + dc) (nSizeWithAncestors e + ds) (nModFeesWithAncestors e + df) (nSigOpCountWithAncestors e + dg) e).
Proof.
  intros Hs Hc Hf Hg. unfold UpdateAncestorState. rewrite !i64_u64, checked_in by (done || lia). rewrite !u64_id by lia.
  rewrite !(proj2 (Z.gtb_gt _ 0)) by lia. cbn [negb mbind option_bind].
  assert (u32 (nSigOpCountWithAncestors e + dg) = nSigOpCountWithAncestors e + dg) as -> by (apply Z.mod_small; lia).
  rewrite swrap_small by (unfold in_s; lia). rewrite (proj2 (Z.geb_le _ 0)) by lia. done.
Qed.

Lemma update_entries f upd l p :
  NoDup l -> (forall k, k ∈ l -> exists e, mapTx p !! k = Some e /\ f e = Some (upd e)) ->
  exists m', foreach (modify f) l p = Some (with_tx m' p)
  /\ (forall k e', m' !! k = Some e' -> exists e, mapTx p !! k = Some e /\ e' = if decide (k ∈ l) then upd e else e)
  /\ forall A (g : CTxMemPoolEntry -> A), (forall e, g (upd e) = g e) -> same g m' (mapTx p).
Proof.
  intros Hn Hl. destruct (foreach_modify f l p Hn) as (m' & E & Hm); [intros k Hk; destruct (Hl k Hk) as (e & ? & ?); eauto|].
  exists m'. split_and!; [done| |].
  - intros k e' E'. rewrite Hm in E'. destruct (decide (k ∈ l)) as [Hk|]; [|by exists e'].
    destruct (Hl k Hk) as (e & Ek & Hf). rewrite Ek in E'. cbn in E'. rewrite Hf in E'. injection E' as <-. by exists e.
  - intros A g Hg k. rewrite Hm. destruct (decide (k ∈ l)) as [Hk|]; [|done].
    destruct (Hl k Hk) as (e & Ek & Hf). rewrite Ek. cbn. rewrite Hf. cbn. by rewrite Hg.
Qed.

(** New counters for the entries of a list, which differ by the same amounts. *)
Lemma update_descendants l ds df dc p dd sz fe dd' sz' fe' :
  NoDup l -> (forall k, k ∈ l -> k ∈ pool p) -> desc_counts (mapTx p) dd sz fe ->
  (forall k, k ∈ l -> (set_size (dd' k) = set_size (dd k) + dc /\ sum_over sz' (dd' k) = sum_over sz (dd k) + ds /\ sum_over fe' (dd' k) = sum_over fe (dd k) + df)
    /\ 0 < set_size (dd' k) < 2 ^ 63 /\ 0 < sum_over sz' (dd' k) < 2 ^ 63 /\ in_s 64 (sum_over fe' (dd' k))) ->
  (forall k, k ∈ pool p -> k ∉ l -> set_size (dd k) = set_size (dd' k) /\ sum_over sz (dd k) = sum_over sz' (dd' k) /\ sum_over fe (dd k) = sum_over fe' (dd' k)) ->
  exists m', foreach (modify (UpdateDescendantState ds df dc)) l p = Some (with_tx m' p)
  /\ same core m' (mapTx p) /\ same anc_part m' (mapTx p) /\ same vTxHashesIdx m' (mapTx p) /\ desc_counts m' dd' sz' fe'.
Proof.
  intros Hn Hl Hd Hin Hout.
  set (upd := fun e => set_desc (nCountWithDescendants e + dc) (nSizeWithDescendants e + ds) (nModFeesWithDescendants e + df) e).
  destruct (update_entries (UpdateDescendantState ds df dc) upd l p Hn) as (m' & E & Hm & Hsame).
  { intros k Hk. destruct (proj1 (elem_of_dom _ _) (Hl k Hk)) as [e He]. exists e. split; [done|].
    destruct (Hin k Hk) as ((H1 & H2 & H3) & H4 & H5 & H6). pose proof (Hd k e He) as Hp. unfold desc_part in Hp. injection Hp as E1 E2 E3.
    apply UpdateDescendantState_ok; rewrite ?E1, ?E2, ?E3, <- ?H1, <- ?H2, <- ?H3; done. }
  exists m'. split_and!; [done|by apply Hsame|by apply Hsame|by apply Hsame|].
  intros k e' E'. destruct (Hm k e' E') as (e & Ek & ->). pose proof (Hd k e Ek) as Hp. unfold desc_part in *. injection Hp as H1 H2 H3. destruct (decide (k ∈ l)) as [Hk|Hk].
  - destruct (Hin k Hk) as ((G1 & G2 & G3) & _). cbn. rewrite H1, H2, H3, G1, G2, G3. done.
  - destruct (Hout k) as (G1 & G2 & G3); [apply elem_of_dom; eauto|done|]. congruence.
Qed.

Lemma update_ancestors l ds df dc dg p aa sz fe sg aa' sz' fe' sg' :
  NoDup l -> (forall k, k ∈ l -> k ∈ pool p) -> anc_counts (mapTx p) aa sz fe sg ->
  (forall k, k ∈ l -> (set_size (aa' k) = set_size (aa k) + dc /\ sum_over sz' (aa' k) = sum_over sz (aa k) + ds /\ sum_over fe' (aa' k) = sum_over fe (aa k) + df
      /\ sum_over sg' (aa' k) = sum_over sg (aa k) + dg)
    /\ 0 < set_size (aa' k) < 2 ^ 63 /\ 0 < sum_over sz' (aa' k) < 2 ^ 63 /\ in_s 64 (sum_over fe' (aa' k)) /\ 0 <= sum_over sg' (aa' k) < 2 ^ 31) ->
  (forall k, k ∈ pool p -> k ∉ l -> set_size (aa k) = set_size (aa' k) /\ sum_over sz (aa k) = sum_over sz' (aa' k) /\ sum_over fe (aa k) = sum_over fe' (aa' k)
    /\ sum_over sg (aa k) = sum_over sg' (aa' k)) ->
  exists m', foreach (modify (UpdateAncestorState ds df dc dg)) l p = Some (with_tx m' p)
  /\ same core m' (mapTx p) /\ same desc_part m' (mapTx p) /\ same vTxHashesIdx m' (mapTx p) /\ anc_counts m' aa' sz' fe' sg'.
Proof.
  intros Hn Hl Hd Hin Hout.
  set (upd := fun e => set_anc (nCountWithAncestors e + dc) (nSizeWithAncestors e + ds) (nModFeesWithAncestors e + df) (nSigOpCountWithAncestors e + dg) e).
  destruct (update_entries (UpdateAncestorState ds df dc dg) upd l p Hn) as (m' & E & Hm & Hsame).
  { intros k Hk. destruct (proj1 (elem_of_dom _ _) (Hl k Hk)) as [e He]. exists e. split; [done|].
    destruct (Hin k Hk) as ((H1 & H2 & H3 & H4) & H5 & H6 & H7 & H8). pose proof (Hd k e He) as Hp. unfold anc_part in Hp. injection Hp as E1 E2 E3 E4.
    apply UpdateAncestorState_ok; rewrite ?E1, ?E2, ?E3, ?E4, <- ?H1, <- ?H2, <- ?H3, <- ?H4; done. }
  exists m'. split_and!; [done|by apply Hsame|by apply Hsame|by apply Hsame|].
  intros k e' E'. destruct (Hm k e' E') as (e & Ek & ->). pose proof (Hd k e Ek) as Hp. unfold anc_part in *. injection Hp as H1 H2 H3 H4. destruct (decide (k ∈ l)) as [Hk|Hk].
  - destruct (Hin k Hk) as ((G1 & G2 & G3 & G4) & _). cbn. rewrite H1, H2, H3, H4, G1, G2, G3, G4. done.
  - destruct (Hout k) as (G1 & G2 & G3 & G4); [apply elem_of_dom; eauto|done|]. congruence.
Qed.

(** ** Lemmas: changing links *)

Definition up_in (m : gmap Z TxLinks) (x : Z) : gset Z := parents (default no_links (m !! x)).
Definition down_in (m : gmap Z TxLinks) (x : Z) : gset Z := children (default no_links (m !! x)).

Lemma up_in_insert m k l x : up_in (<[k := l]> m) x = if decide (x = k) then parents l else up_in m x.
Proof. unfold up_in. case_decide as E; [subst; by rewrite lookup_insert_eq|by rewrite lookup_insert_ne]. Qed.

Lemma down_in_insert m k l x : down_in (<[k := l]> m) x = if decide (x = k) then children l else down_in m x.
Proof. unfold down_in. case_decide as E; [subst; by rewrite lookup_insert_eq|by rewrite lookup_insert_ne]. Qed.

Section Links.
Variable node_usage : Z.

Definition edit (add : bool) (x : Z) (s : gset Z) : gset Z := if add then {[x]} ∪ s else s ∖ {[x]}.

Lemma UpdateChild_ok add k c p : exists lk u, UpdateChild node_usage add k c p = with_links lk u p
  /\ dom lk = {[k]} ∪ dom (mapLinks p) /\ (forall x, up_in lk x = up p x) /\ forall x, down_in lk x = if decide (x = k) then edit add c (down p x) else down p x.
Proof.
  unfold UpdateChild, edit. destruct add; (eexists _, _; split; [reflexivity|]; split_and!; [by rewrite dom_insert_L| |]); intros x.
  1,3: rewrite up_in_insert; case_decide as E; [subst; done|done].
  all: rewrite down_in_insert; case_decide as E; [subst; done|done].
Qed.

Lemma UpdateParent_ok add k c p : exists lk u, UpdateParent node_usage add k c p = with_links lk u p
  /\ dom lk = {[k]} ∪ dom (mapLinks p) /\ (forall x, down_in lk x = down p x) /\ forall x, up_in lk x = if decide (x = k) then edit add c (up p x) else up p x.
Proof.
  unfold UpdateParent, edit. destruct add; (eexists _, _; split; [reflexivity|]; split_and!; [by rewrite dom_insert_L| |]); intros x.
  1,3: rewrite down_in_insert; case_decide as E; [subst; done|done].
  all: rewrite up_in_insert; case_decide as E; [subst; done|done].
Qed.

Lemma edit_idem add x s : edit add x (edit add x s) = edit add x s.
Proof. unfold edit. destruct add; set_solver. Qed.

(** One child in the links of several parents, one parent in the links of several children. *)
Lemma UpdateChild_all add c l p : exists lk u, foldl (fun p k => UpdateChild node_usage add k c p) p l = with_links lk u p
  /\ dom lk = list_to_set l ∪ dom (mapLinks p) /\ (forall x, up_in lk x = up p x) /\ forall x, down_in lk x = if decide (x ∈ l) then edit add c (down p x) else down p x.
Proof.
  revert p. induction l as [|k l IH]; intros p; cbn [foldl list_to_set].
  { exists (mapLinks p), (cachedInnerUsage p). split_and!; [by destruct p|set_solver|done|]. intros x. by rewrite decide_False by apply not_elem_of_nil. }
  destruct (UpdateChild_ok add k c p) as (lk1 & u1 & -> & D1 & U1 & W1). destruct (IH (with_links lk1 u1 p)) as (lk & u & -> & D & U & W).
  exists lk, u. split_and!; [done|rewrite D; cbn; rewrite D1; set_solver|intros x; by rewrite U; apply U1|].
  intros x. rewrite W. change (down (with_links lk1 u1 p) x) with (down_in lk1 x). rewrite W1.
  destruct (decide (x = k)) as [->|Hne]; [rewrite (decide_True (P := k ∈ k :: l)) by left; case_decide; [apply edit_idem|done]|].
  destruct (decide (x ∈ l)); [by rewrite decide_True by (by right)|]. rewrite decide_False; [done|]. by intros [?|?]%elem_of_cons.
Qed.

Lemma UpdateParent_all add c l p : exists lk u, foldl (fun p k => UpdateParent node_usage add k c p) p l = with_links lk u p
  /\ dom lk = list_to_set l ∪ dom (mapLinks p) /\ (forall x, down_in lk x = down p x) /\ forall x, up_in lk x = if decide (x ∈ l) then edit add c (up p x) else up p x.
Proof.
  revert p. induction l as [|k l IH]; intros p; cbn [foldl list_to_set].
  { exists (mapLinks p), (cachedInnerUsage p). split_and!; [by destruct p|set_solver|done|]. intros x. by rewrite decide_False by apply not_elem_of_nil. }
  destruct (UpdateParent_ok add k c p) as (lk1 & u1 & -> & D1 & U1 & W1). destruct (IH (with_links lk1 u1 p)) as (lk & u & -> & D & U & W).
  exists lk, u. split_and!; [done|rewrite D; cbn; rewrite D1; set_solver|intros x; by rewrite U; apply U1|].
  intros x. rewrite W. change (up (with_links lk1 u1 p) x) with (up_in lk1 x). rewrite W1.
  destruct (decide (x = k)) as [->|Hne]; [rewrite (decide_True (P := k ∈ k :: l)) by left; case_decide; [apply edit_idem|done]|].
  destruct (decide (x ∈ l)); [by rewrite decide_True by (by right)|]. rewrite decide_False; [done|]. by intros [?|?]%elem_of_cons.
Qed.

End Links.

(** ** The invariant of the pool *)

(** What keeps the counters within their widths. *)
Record bounded (m : gmap Z CTxMemPoolEntry) : Prop := {
  bd_entry : forall h e, m !! h = Some e -> 0 < nTxSize e /\ 0 <= sigOpCount e;
  bd_size : sum_over (size_of m) (dom m) < 2 ^ 63;
  bd_fee : sum_over (fun x => Z.abs (fee_of m x)) (dom m) < 2 ^ 63;
  bd_sig : sum_over (sig_of m) (dom m) < 2 ^ 31;
}.

(** The counters of every entry are those of the entries its links lead to, itself included. *)
Record accounted (p : CTxMemPool) : Prop := {
  ac_desc : desc_counts (mapTx p) (closure (down p) (pool p)) (size_of (mapTx p)) (fee_of (mapTx p));
  ac_anc : anc_counts (mapTx p) (closure (up p) (pool p)) (size_of (mapTx p)) (fee_of (mapTx p)) (sig_of (mapTx p));
}.

(** The spent outpoints, the list of hashes and the total size agree with the entries. *)
Record indexed (p : CTxMemPool) : Prop := {
  ix_next : forall o h, mapNextTx p !! o = Some h <-> exists e, mapTx p !! h = Some e /\ o ∈ map prevout (vin (e_tx e));
  ix_hashes : forall h e, mapTx p !! h = Some e -> vTxHashes p !! vTxHashesIdx e = Some h;
  ix_hash_list : vTxHashes p ≡ₚ elements (pool p);
  ix_total : totalTxSize p = sum_over (size_of (mapTx p)) (pool p);
}.

(** The pool as a whole. *)
Record consistent (p : CTxMemPool) : Prop := {
  cs_key : forall h e, mapTx p !! h = Some e -> e_hash e = h;
  cs_linked : linked p;
  cs_parents : forall h e, mapTx p !! h = Some e -> up p h = pool_parents p (e_tx e);
  cs_acyclic : forall h, ~ tc (step (up p)) h h;
  cs_indexed : indexed p;
  cs_bounded : bounded (mapTx p);
  cs_accounted : accounted p;
}.

Lemma bounded_same m m' : same core m m' -> bounded m -> bounded m'.
Proof.
  intros H [B1 B2 B3 B4]. destruct (core_sizes m m' H) as (S1 & S2 & S3). pose proof (same_dom core m m' H) as Hd. constructor.
  - intros h e' E'. destruct (same_Some _ _ _ _ _ (same_sym _ _ _ H) E') as (e & E & Hc). specialize (B1 h e E).
    unfold core in Hc. injection Hc. intros. cbn in *. split; congruence || lia.
  - rewrite <- Hd. erewrite sum_over_ext; [exact B2|]. intros. by rewrite S1.
  - rewrite <- Hd. erewrite sum_over_ext; [exact B3|]. intros. cbn. by rewrite S2.
  - rewrite <- Hd. erewrite sum_over_ext; [exact B4|]. intros. by rewrite S3.
Qed.

Lemma bounded_sums m t : bounded m -> t ⊆ dom m ->
  set_size t <= sum_over (size_of m) t < 2 ^ 63 /\ Z.abs (sum_over (fee_of m) t) < 2 ^ 63 /\ 0 <= sum_over (sig_of m) t < 2 ^ 31.
Proof.
  intros [B1 B2 B3 B4] Ht.
  assert (forall x, x ∈ dom m -> 1 <= size_of m x /\ 0 <= sig_of m x) as Hp.
  { intros x [e E]%elem_of_dom. unfold size_of, sig_of. rewrite E. cbn. specialize (B1 x e E). lia. }
  pose proof (sum_over_le (fun _ => 1) (size_of m) t) as H1. rewrite sum_over_one in H1. fold (set_size t) in H1.
  pose proof (sum_over_subset (size_of m) t (dom m) Ht) as H2. pose proof (sum_over_subset (fun x => Z.abs (fee_of m x)) t (dom m) Ht ltac:(lia)) as H3.
  pose proof (sum_over_subset (sig_of m) t (dom m) Ht) as H4. pose proof (sum_over_abs (fee_of m) t). pose proof (sum_over_nonneg (sig_of m) t) as H5.
  assert (set_size t <= sum_over (size_of m) t) by (apply H1; intros x Hx; by apply Hp, Ht).
  assert (sum_over (size_of m) t <= sum_over (size_of m) (dom m)) by (apply H2; intros x Hx; destruct (Hp x Hx); lia).
  assert (sum_over (sig_of m) t <= sum_over (sig_of m) (dom m)) by (apply H4; intros x Hx; by apply Hp).
  assert (0 <= sum_over (sig_of m) t) by (apply H5; intros x Hx; by apply Hp, Ht). lia.
Qed.

Lemma set_size_pos (t : gset Z) x : x ∈ t -> 0 < set_size t.
Proof. intros Hx. unfold set_size. assert (base.size t <> 0)%nat; [|lia]. intros E%size_empty_inv. set_solver. Qed.

Lemma bounded_small p dd size : bounded (mapTx p) -> (forall k, k ∈ pool p -> k ∈ dd k /\ dd k ⊆ pool p) ->
  desc_counts (mapTx p) dd (size_of (mapTx p)) (fee_of (mapTx p)) -> 0 < size < 2 ^ 63 -> small_pool p size.
Proof.
  intros B Hd D Hs. constructor; [|apply B|done]. intros x e E. destruct (Hd x) as [H1 H2]; [apply elem_of_dom; eauto|].
  pose proof (bounded_sums _ _ B H2) as (G1 & _). pose proof (bd_entry _ B x e E). pose proof (D x e E) as Hp. unfold desc_part in Hp. injection Hp as -> -> _.
  pose proof (set_size_pos _ _ H1). lia.
Qed.
