(* ===== verification/MempoolRemove.v ===== *)
(** * Removing from the memory pool

    [RemoveStaged] of [src/src/txmempool.cpp] keeps the pool of [Mempool] consistent: the counters of what stays are
    those of its own ancestors and descendants, and links, spent outpoints, the list of hashes and the total size
    follow.  Then the operations built on it: [removeRecursive], [removeConflicts], [removeForBlock], [Expire] and
    [TrimToSize]. *)

From stdpp Require Import gmap relations.
From S2P Require Import Transaction TxVerify Graph Mempool Prelude.

(** ** Lemmas: taking transactions out of the counters *)

Lemma set_size_delete (t : gset Z) x : x ∈ t -> set_size (t ∖ {[x]}) = set_size t + -1.
Proof.
  intros Hx. assert (t = {[x]} ∪ t ∖ {[x]}) as E by (apply set_eq; intros y; destruct (decide (y = x)) as [->|]; set_solver).
  rewrite E at 2. rewrite set_size_disj by set_solver. unfold set_size at 2. rewrite size_singleton. lia.
Qed.

(** The sets without those removed so far, an entry itself excepted. *)
Definition without (dd : Z -> gset Z) (r : gset Z) (k : Z) : gset Z := dd k ∖ (r ∖ {[k]}).

Lemma without_more dd r x k : x <> k -> without dd ({[x]} ∪ r) k = without dd r k ∖ {[x]}.
Proof. intros Hx. unfold without. apply set_eq. intros y. destruct (decide (y = x)) as [->|]; set_solver. Qed.

Lemma without_self dd r x : without dd ({[x]} ∪ r) x = without dd r x.
Proof. unfold without. apply set_eq. intros y. destruct (decide (y = x)) as [->|]; set_solver. Qed.

Lemma without_absent dd r x k : x ∉ dd k -> without dd ({[x]} ∪ r) k = without dd r k.
Proof. intros Hx. unfold without. apply set_eq. intros y. destruct (decide (y = x)) as [->|]; set_solver. Qed.

Lemma without_none dd k : without dd ∅ k = dd k.
Proof. unfold without. apply set_eq. set_solver. Qed.

Lemma without_outside dd r k : k ∉ r -> without dd r k = dd k ∖ r.
Proof. intros Hk. unfold without. apply set_eq. intros y. destruct (decide (y = k)) as [->|]; set_solver. Qed.

(** Sets of entries that hold the entry itself and stay in the pool. *)
Definition reaches (p : CTxMemPool) (dd : Z -> gset Z) : Prop := forall k, k ∈ pool p -> k ∈ dd k /\ dd k ⊆ pool p.

Lemma reaches_without p dd r : reaches p dd -> reaches p (without dd r).
Proof. intros H k Hk. destruct (H k Hk) as [H1 H2]. unfold without. split; set_solver. Qed.

Section Removal.
Context `{SetOrder}.
Variable node_usage : Z.

(** The pool before the removal. *)
Variable p : CTxMemPool.
Hypothesis Hlinked : linked p.
Hypothesis Hkey : forall h e, mapTx p !! h = Some e -> e_hash e = h.
Hypothesis Hbounded : bounded (mapTx p).
Hypothesis Hacyclic : forall h, ~ tc (step (up p)) h h.

Abbreviation sz := (size_of (mapTx p)) (only parsing).
Abbreviation fe := (fee_of (mapTx p)) (only parsing).
Abbreviation sg := (sig_of (mapTx p)) (only parsing).

Lemma removed_bounds t k : k ∈ t -> t ⊆ pool p ->
  0 < set_size t < 2 ^ 63 /\ 0 < sum_over sz t < 2 ^ 63 /\ in_s 64 (sum_over fe t) /\ 0 <= sum_over sg t < 2 ^ 31.
Proof using Type*.
  intros Hk Ht. pose proof (bounded_sums _ _ Hbounded Ht) as (H1 & H2 & H3). pose proof (set_size_pos _ _ Hk). unfold in_s. lia.
Qed.

Lemma entry_values r e m : same core m (mapTx p) -> m !! r = Some e ->
  r ∈ pool p /\ e_hash e = r /\ nTxSize e = sz r /\ GetModifiedFee e = fe r /\ sigOpCount e = sg r
  /\ 0 < sz r < 2 ^ 63 /\ Z.abs (fe r) < 2 ^ 63 /\ 0 <= sg r < 2 ^ 31.
Proof using Type*.
  intros Hc E. destruct (same_Some _ _ _ _ _ Hc E) as (e' & E' & Ec). assert (r ∈ pool p) as Hr by (apply elem_of_dom; eauto).
  pose proof (bounded_sums _ {[r]} Hbounded ltac:(set_solver)) as (H1 & H2 & H3). rewrite !sum_over_singleton in *.
  unfold set_size in H1. rewrite size_singleton in H1.
  assert (nTxSize e = sz r /\ GetModifiedFee e = fe r /\ sigOpCount e = sg r /\ e_hash e = r) as (? & ? & ? & ?).
  { unfold size_of, fee_of, sig_of. rewrite E'. cbn. unfold core in Ec. injection Ec. intros. unfold GetModifiedFee, e_hash in *.
    rewrite <- (Hkey r e' E'). unfold e_hash. split_and!; congruence. }
  split_and!; try done; lia.
Qed.

Section Ancestors.
Variable aa : Z -> gset Z.
Hypothesis Haa : forall k y, k ∈ pool p -> y ∈ aa k <-> rtc (step (up p)) k y.
Hypothesis Haa_in : reaches p aa.

Lemma forget_ancestor_ok m r x :
  same core m (mapTx p) -> anc_counts m (without aa r) sz fe sg -> x ∈ pool p -> x ∉ r ->
  exists m', forget_ancestor x (with_tx m p) = Some (with_tx m' p)
  /\ same core m' (mapTx p) /\ same desc_part m' m /\ same vTxHashesIdx m' m /\ anc_counts m' (without aa ({[x]} ∪ r)) sz fe sg.
Proof using Type*.
  intros Hc Ha Hx Hxr. pose proof (same_dom _ _ _ Hc) as Hdom. unfold forget_ancestor.
  destruct (CalculateDescendants_ok (with_tx m p) x ∅) as (s & Es & Hs); [by destruct Hlinked; constructor; cbn; rewrite ?Hdom|cbn; by rewrite Hdom|set_solver|set_solver|].
  rewrite Es. cbn [mbind option_bind mapTx with_tx]. rewrite <- Hdom in Hx. pose proof Hx as [e E]%elem_of_dom. rewrite E. cbn [mbind option_bind]. rewrite Hdom in Hx.
  destruct (entry_values x e m Hc E) as (_ & _ & V1 & V2 & V3 & V4 & V5 & V6). rewrite V2, checked_in by (unfold in_s; lia). cbn [mbind option_bind].
  rewrite V1, V3, !swrap_small by (unfold in_s; lia).
  assert (forall k, k ∈ s ∖ {[x]} -> k ∈ pool p /\ x <> k /\ x ∈ aa k) as Hin.
  { intros k [[?%elem_of_empty|Hk]%Hs Hne]%elem_of_difference; [done|]. change (down (with_tx m p)) with (down p) in Hk.
    assert (k ∈ pool p) as Hkp. { apply (covered_within (down p) _ {[x]} ∅); [|by apply covered_one]. apply within_start; [set_solver|]. intros; by apply linked_down. }
    split_and!; [done|set_solver|]. apply Haa; [done|]. by apply (rtc_reverse (up p) (down p) k x), Hk; apply (lk_sym p Hlinked). }
  destruct (update_ancestors (set_list (s ∖ {[x]})) (- sz x) (- fe x) (-1) (- sg x) (with_tx m p) (without aa r) sz fe sg (without aa ({[x]} ∪ r)) sz fe sg)
    as (m' & Em & C1 & C2 & C3 & C4).
  - apply NoDup_set_list.
  - intros k Hk%elem_of_set_list. cbn. rewrite Hdom. by apply Hin.
  - exact Ha.
  - intros k Hk%elem_of_set_list. destruct (Hin k Hk) as (H1 & H2 & H3). split.
    + rewrite without_more by done. assert (x ∈ without aa r k) as Hw by (unfold without; set_solver).
      rewrite set_size_delete by done. rewrite !(sum_over_delete _ x (without aa r k)) by done. lia.
    + apply (removed_bounds _ k); apply (reaches_without p aa _ Haa_in k H1).
  - intros k Hk Hns. cbn in Hk. rewrite Hdom in Hk. rewrite elem_of_set_list in Hns. destruct (decide (x = k)) as [->|Hne]; [by rewrite without_self|].
    rewrite without_absent; [done|]. rewrite Haa by done. intros Hr. apply Hns, elem_of_difference. split; [|set_solver].
    apply Hs. right. change (down (with_tx m p)) with (down p). by apply (rtc_reverse (down p) (up p)); [intros; symmetry; apply (lk_sym p Hlinked)|].
  - exists m'. split_and!; [exact Em|by eapply same_trans|done|done|done].
Qed.

Lemma forget_ancestor_all l m r :
  NoDup l -> Forall (fun x => x ∈ pool p /\ x ∉ r) l -> same core m (mapTx p) -> anc_counts m (without aa r) sz fe sg ->
  exists m', foreach forget_ancestor l (with_tx m p) = Some (with_tx m' p)
  /\ same core m' (mapTx p) /\ same desc_part m' m /\ same vTxHashesIdx m' m /\ anc_counts m' (without aa (list_to_set l ∪ r)) sz fe sg.
Proof using Type*.
  revert m r. induction l as [|x l IH]; intros m r Hn Hl Hc Ha; cbn [foreach list_to_set].
  { exists m. rewrite union_empty_l_L. done. }
  apply NoDup_cons in Hn as [Hx Hn]. apply Forall_cons in Hl as [[Hxp Hxr] Hl].
  destruct (forget_ancestor_ok m r x Hc Ha Hxp Hxr) as (m1 & -> & C1 & C2 & C3 & C4). cbn [mbind option_bind].
  destruct (IH m1 ({[x]} ∪ r) Hn) as (m' & -> & D1 & D2 & D3 & D4); [|done|done|].
  { rewrite Forall_forall in *. intros y Hy. destruct (Hl y Hy). split; [done|]. intros [->%elem_of_singleton|?]%elem_of_union; done. }
  exists m'. split_and!; [done|done|by eapply same_trans|by eapply same_trans|].
  assert ({[x]} ∪ list_to_set l ∪ r = list_to_set l ∪ ({[x]} ∪ r)) as -> by set_solver. done.
Qed.

End Ancestors.

Section Descendants.
Variable dd : Z -> gset Z.
Hypothesis Hdd : forall k y, k ∈ pool p -> y ∈ dd k <-> rtc (step (down p)) k y.
Hypothesis Hdd_in : reaches p dd.

(** The links while transactions are taken out: the children of the set [r] are cut off, the parents are as before. *)
Record cut_links (lk : gmap Z TxLinks) (r : gset Z) : Prop := {
  cl_dom : dom lk = pool p;
  cl_up : forall x, up_in lk x = up p x;
  cl_down : forall x, down_in lk x = down p x ∖ r;
}.

Lemma forget_descendant_ok m lk u r x :
  same core m (mapTx p) -> desc_counts m (without dd r) sz fe -> cut_links lk r -> x ∈ pool p -> x ∉ r ->
  exists m' lk' u', forget_descendant node_usage x (with_tx m (with_links lk u p)) = Some (with_tx m' (with_links lk' u' p))
  /\ same core m' (mapTx p) /\ same anc_part m' m /\ same vTxHashesIdx m' m /\ desc_counts m' (without dd ({[x]} ∪ r)) sz fe /\ cut_links lk' ({[x]} ∪ r).
Proof using Type*.
  intros Hc Hd [L1 L2 L3] Hx Hxr. pose proof (same_dom _ _ _ Hc) as Hdom. set (q := with_tx m (with_links lk u p)).
  assert (forall y, up q y = up p y) as Hup by exact L2.
  assert (up_ok q) as Hq by (constructor; [cbn; by rewrite L1, Hdom|intros y; rewrite Hup; cbn; rewrite Hdom; by apply lk_up]).
  unfold forget_descendant. rewrite <- Hdom in Hx. pose proof Hx as [e E]%elem_of_dom. cbn [mapTx q with_tx]. rewrite E. cbn [mbind option_bind]. rewrite Hdom in Hx.
  destruct (entry_values x e m Hc E) as (_ & V0 & V1 & V2 & V3 & V4 & V5 & V6).
  assert (small_pool q (nTxSize e)) as Hsmall.
  { destruct (core_sizes _ _ Hc) as (S1 & S2 & _). apply (bounded_small q (without dd r)); [apply (bounded_same (mapTx p)); [by apply same_sym|done]| | |lia].
    - cbn. rewrite Hdom. by apply reaches_without.
    - eapply desc_counts_ext; [|exact Hd]. intros h _. split_and!; [done|apply sum_over_ext; intros; cbn; by rewrite S1|apply sum_over_ext; intros; cbn; by rewrite S2]. }
  set (t := closure (up p) (pool p) x ∖ {[x]}).
  assert (forall y, y ∈ t <-> tc (step (up p)) x y) as Ht.
  { intros y. unfold t. rewrite elem_of_difference, elem_of_singleton, closure_ok by (done || intros; by apply lk_up). rewrite rtc_tc_iff.
    split; [intros [[->|?] ?]; done|]. intros Hy. split; [by right|]. intros ->. by apply (Hacyclic x). }
  rewrite (ancestors_unlimited q x e t Hq Hsmall); [|cbn; by rewrite Hdom|done|].
  2:{ intros y. rewrite Ht. split; apply tc_congruence_step; intros a b; unfold step; by rewrite Hup. }
  cbn [mbind option_bind]. unfold UpdateAncestorsOf. rewrite up_ok_parents by (done || cbn; by rewrite Hdom). cbn [mbind option_bind]. rewrite Hup.
  destruct (UpdateChild_all node_usage false x (set_list (up p x)) q) as (lk' & u' & -> & M1 & M2 & M3). cbn [mapTx with_links q with_tx]. rewrite E. cbn [mbind option_bind].
  rewrite V1, V2. replace (i64 (-1 * sz x)) with (- sz x) by (rewrite swrap_small by (unfold in_s; lia); lia). rewrite checked_in by (unfold in_s; lia). cbn [mbind option_bind].
  replace (-1 * fe x) with (- fe x) by lia.
  assert (forall k, k ∈ t -> k ∈ pool p /\ x <> k /\ x ∈ dd k) as Hin.
  { intros k Hk%Ht. assert (k ∈ pool p) as Hkp.
    { apply covered_start in Hk. apply (covered_within (up p) _ (up p x) ∅); [|done]. apply within_start; [by apply lk_up|]. intros; by apply lk_up. }
    split_and!; [done|by intros ->; apply (Hacyclic k)|]. apply Hdd; [done|]. apply (rtc_reverse (down p) (up p)); [intros; symmetry; apply (lk_sym p Hlinked)|]. by apply tc_rtc. }
  destruct (update_descendants (set_list t) (- sz x) (- fe x) (-1) (with_links lk' u' q) (without dd r) sz fe (without dd ({[x]} ∪ r)) sz fe)
    as (m' & Em & C1 & C2 & C3 & C4).
  - apply NoDup_set_list.
  - intros k Hk%elem_of_set_list. cbn. rewrite Hdom. by apply Hin.
  - exact Hd.
  - intros k Hk%elem_of_set_list. destruct (Hin k Hk) as (H1 & H2 & H3). split.
    + rewrite without_more by done. assert (x ∈ without dd r k) as Hw by (unfold without; set_solver).
      rewrite set_size_delete by done. rewrite !(sum_over_delete _ x (without dd r k)) by done. lia.
    + destruct (removed_bounds (without dd ({[x]} ∪ r) k) k) as (? & ? & ? & _); [apply (reaches_without p dd _ Hdd_in k H1)..|done].
  - intros k Hk Hns. cbn in Hk. rewrite Hdom in Hk. rewrite elem_of_set_list, Ht in Hns. destruct (decide (x = k)) as [->|Hne]; [by rewrite without_self|].
    rewrite without_absent; [done|]. rewrite Hdd by done. intros Hr. apply Hns. apply (rtc_reverse (down p) (up p)) in Hr; [|intros; symmetry; apply (lk_sym p Hlinked)].
    by apply rtc_tc_iff in Hr as [|].
  - exists m', lk', u'. split_and!; [exact Em|by eapply same_trans|done|done|done|]. constructor.
    + rewrite M1, set_list_to_set. cbn. rewrite L1. pose proof (lk_up p Hlinked x). set_solver.
    + intros y. by rewrite M2, Hup.
    + intros y. rewrite M3. change (down q y) with (down_in lk y). rewrite L3. unfold edit. case_decide as Hy; rewrite elem_of_set_list in Hy.
      * set_solver.
      * assert (x ∉ down p y) by (by rewrite <- (lk_sym p Hlinked)). set_solver.
Qed.

Lemma forget_descendant_all l m lk u r :
  NoDup l -> Forall (fun x => x ∈ pool p /\ x ∉ r) l -> same core m (mapTx p) -> desc_counts m (without dd r) sz fe -> cut_links lk r ->
  exists m' lk' u', foreach (forget_descendant node_usage) l (with_tx m (with_links lk u p)) = Some (with_tx m' (with_links lk' u' p))
  /\ same core m' (mapTx p) /\ same anc_part m' m /\ same vTxHashesIdx m' m /\ desc_counts m' (without dd (list_to_set l ∪ r)) sz fe
  /\ cut_links lk' (list_to_set l ∪ r).
Proof using Type*.
  revert m lk u r. induction l as [|x l IH]; intros m lk u r Hn Hl Hc Hd Hk; cbn [foreach list_to_set].
  { exists m, lk, u. rewrite union_empty_l_L. done. }
  apply NoDup_cons in Hn as [Hx Hn]. apply Forall_cons in Hl as [[Hxp Hxr] Hl].
  destruct (forget_descendant_ok m lk u r x Hc Hd Hk Hxp Hxr) as (m1 & lk1 & u1 & -> & C1 & C2 & C3 & C4 & C5). cbn [mbind option_bind].
  destruct (IH m1 lk1 u1 ({[x]} ∪ r) Hn) as (m' & lk' & u' & -> & D1 & D2 & D3 & D4 & D5); [|done|done|done|].
  { rewrite Forall_forall in *. intros y Hy. destruct (Hl y Hy). split; [done|]. intros [->%elem_of_singleton|?]%elem_of_union; done. }
  assert ({[x]} ∪ list_to_set l ∪ r = list_to_set l ∪ ({[x]} ∪ r)) as -> by set_solver.
  exists m', lk', u'. split_and!; [done|done|by eapply same_trans|by eapply same_trans|done|done].
Qed.

End Descendants.

(** The links once the parents of the entries that stay are cut too. *)
Record severed (lk : gmap Z TxLinks) (s r : gset Z) : Prop := {
  sv_dom : dom lk = pool p;
  sv_down : forall x, down_in lk x = down p x ∖ s;
  sv_up : forall x, x ∉ s -> up_in lk x = up p x ∖ r;
}.

Lemma UpdateChildrenForRemoval_all l q s r :
  Forall (fun x => x ∈ pool p /\ x ∈ s) l -> severed (mapLinks q) s r ->
  exists lk u, foreach (UpdateChildrenForRemoval node_usage) l q = Some (with_links lk u q) /\ severed lk s (list_to_set l ∪ r).
Proof using Type*.
  revert q r. induction l as [|x l IH]; intros q r Hl Hk; cbn [foreach list_to_set].
  { exists (mapLinks q), (cachedInnerUsage q). rewrite union_empty_l_L. by destruct q. }
  apply Forall_cons in Hl as [[Hx Hxs] Hl]. destruct Hk as [K1 K2 K3].
  assert (GetMemPoolChildren q x = Some (down p x ∖ s)) as Eg.
  { rewrite <- K2. rewrite <- K1 in Hx. apply elem_of_dom in Hx as [ln E]. unfold GetMemPoolChildren, down_in. by rewrite E. }
  destruct (UpdateParent_all node_usage false x (set_list (down p x ∖ s)) q) as (lk1 & u1 & E1 & M1 & M2 & M3).
  assert (UpdateChildrenForRemoval node_usage x q = Some (with_links lk1 u1 q)) as E2.
  { unfold UpdateChildrenForRemoval. rewrite Eg. cbn [mbind option_bind]. by rewrite E1. }
  rewrite E2. cbn [mbind option_bind].
  destruct (IH (with_links lk1 u1 q) ({[x]} ∪ r) Hl) as (lk & u & -> & K).
  - constructor.
    + cbn. rewrite M1, set_list_to_set, K1. pose proof (linked_down p x Hlinked). set_solver.
    + intros y. rewrite <- K2. apply M2.
    + intros y Hy. cbn. rewrite M3. change (up q y) with (up_in (mapLinks q) y). rewrite K3 by done. unfold edit. case_decide as Hin; rewrite elem_of_set_list in Hin; [set_solver|].
      assert (x ∉ up p y) as Hxy by (rewrite (lk_sym p Hlinked); set_solver). set_solver.
  - exists lk, u. assert ({[x]} ∪ list_to_set l ∪ r = list_to_set l ∪ ({[x]} ∪ r)) as -> by set_solver. by destruct q.
Qed.

End Removal.

(** ** Lemmas: deleting entries *)

Lemma last_snoc_inv (l : list Z) x : last l = Some x -> exists v, l = v ++ [x].
Proof. intros E. apply last_Some in E. exact E. Qed.

(** The last element in the place of another one. *)
Lemma swap_with_last (v : list Z) it i back :
  NoDup v -> v !! i = Some it -> last v = Some back ->
  v ≡ₚ it :: take (length v - 1) (<[i := back]> v)
  /\ forall j k, v !! j = Some k -> k <> it -> take (length v - 1) (<[i := back]> v) !! (if decide (k = back) then i else j) = Some k.
Proof.
  intros Hn Hi Hb. destruct (last_snoc_inv _ _ Hb) as [w ->]. rewrite length_app. cbn [length]. replace (length w + 1 - 1)%nat with (length w) by lia.
  destruct (decide (i = length w)) as [->|Hne].
  - rewrite lookup_app_r, Nat.sub_diag in Hi by lia. injection Hi as ->. rewrite list_insert_id by (rewrite lookup_app_r by lia; by rewrite Nat.sub_diag).
    rewrite take_app_length. split; [symmetry; apply Permutation_cons_append|]. intros j k Hj Hk. rewrite decide_False by done.
    apply lookup_app_Some in Hj as [Hj|[Hle Hj]]; [done|]. destruct (j - length w)%nat as [|n]; cbn in Hj; [congruence|done].
  - assert (i < length w)%nat as Hlt by (apply lookup_lt_Some in Hi; rewrite length_app in Hi; cbn in Hi; lia).
    rewrite insert_app_l, take_app_length' by (done || by rewrite length_insert). rewrite lookup_app_l in Hi by done. split.
    + rewrite <- (take_drop_middle w i it Hi) at 1. rewrite (insert_take_drop w i back Hlt). solve_Permutation.
    + intros j k Hj Hk. destruct (decide (k = back)) as [->|Hkb]; [by apply list_lookup_insert_eq|].
      apply lookup_app_Some in Hj as [Hj|[Hle Hj]].
      * rewrite list_lookup_insert_ne; [done|]. intros ->. congruence.
      * destruct (j - length w)%nat as [|n]; cbn in Hj; [congruence|done].
Qed.

Lemma delete_inputs_ok l m o :
  foldl (fun m i => delete (prevout i) m) m l !! o = if decide (o ∈ map prevout l) then None else (m : gmap COutPoint Z) !! o.
Proof.
  revert m. induction l as [|i l IH]; intros m; cbn [foldl map]; [by rewrite decide_False by apply not_elem_of_nil|]. rewrite IH.
  destruct (decide (o ∈ map prevout l)) as [|Hn]; [by rewrite decide_True by (by right)|].
  destruct (decide (o = prevout i)) as [->|Hne]; [rewrite decide_True by left; apply lookup_delete_eq|].
  rewrite decide_False by (by intros [?|?]%elem_of_cons). by rewrite lookup_delete_ne.
Qed.

Section Deleting.
Variable node_usage : Z.

(** What the index of an entry does not enter. *)
Definition no_idx {A} (f : CTxMemPoolEntry -> A) : Prop := forall i e, f (set_idx i e) = f e.

Lemma remove_hash_ok q it e :
  indexed q -> mapTx q !! it = Some e ->
  exists m v, remove_hash (vTxHashesIdx e) q = Some (with_totals v (totalTxSize q) (nTransactionsUpdated q) (with_tx m q))
  /\ vTxHashes q ≡ₚ it :: v /\ (forall A (f : CTxMemPoolEntry -> A), no_idx f -> same f m (mapTx q))
  /\ forall k e', k <> it -> m !! k = Some e' -> v !! vTxHashesIdx e' = Some k.
Proof.
  intros [I1 I2 I3 I4] He. pose proof (I2 it e He) as Hi. assert (NoDup (vTxHashes q)) as Hn by (rewrite I3; apply NoDup_elements).
  unfold remove_hash. destruct (Nat.ltb_spec 1 (length (vTxHashes q))) as [Hlen|Hlen].
  - destruct (last (vTxHashes q)) as [back|] eqn:Eb; [|apply last_None in Eb; rewrite Eb in Hlen; cbn in Hlen; lia]. cbn [mbind option_bind].
    rewrite Hi. cbn [mbind option_bind]. destruct (swap_with_last _ _ _ _ Hn Hi Eb) as [Hp Hl].
    assert (is_Some (mapTx q !! back)) as [eb Hb].
    { apply elem_of_dom, elem_of_elements. rewrite <- I3. destruct (last_snoc_inv _ _ Eb) as [w ->]. apply elem_of_app. right. left. }
    rewrite (modify_ok (fun e0 => Some (set_idx (vTxHashesIdx e) e0)) back q eb _ Hb eq_refl). cbn [mbind option_bind mapTx with_tx vTxHashes totalTxSize nTransactionsUpdated]. rewrite length_insert.
    eexists _, _. split; [reflexivity|]. split_and!; [exact Hp| |].
    + intros A f Hf k. destruct (decide (k = back)) as [->|Hne]; [rewrite lookup_insert_eq, Hb; cbn; by rewrite Hf|by rewrite lookup_insert_ne by congruence].
    + intros k e' Hk Ek. destruct (decide (k = back)) as [->|Hne].
      * rewrite lookup_insert_eq in Ek. injection Ek as <-. cbn. specialize (Hl _ _ (I2 back eb Hb) Hk). by rewrite decide_True in Hl.
      * rewrite lookup_insert_ne in Ek by congruence. specialize (Hl _ _ (I2 k e' Ek) Hk). by rewrite decide_False in Hl.
  - exists (mapTx q), []. assert (vTxHashes q = [it]) as E.
    { destruct (vTxHashes q) as [|x [|y l]]; [done| |cbn in Hlen; lia]. destruct (vTxHashesIdx e); cbn in Hi; [by injection Hi as ->|done]. }
    split_and!; [by destruct q|by rewrite E|done|]. intros k e' Hk Ek. pose proof (I2 k e' Ek) as Hk'. rewrite E in Hk'.
    destruct (vTxHashesIdx e'); cbn in Hk'; [congruence|done].
Qed.

Lemma remove_hash_next idx n q : remove_hash idx (with_next n q) = with_next n <$> remove_hash idx q.
Proof.
  unfold remove_hash, modify. cbn [vTxHashes mapTx with_next]. case_match; [|done]. destruct (last _) as [b|]; cbn [mbind option_bind]; [|done].
  destruct (vTxHashes q !! idx); cbn [mbind option_bind]; [|done]. by destruct (mapTx q !! b).
Qed.

Lemma removeUnchecked_ok q it :
  indexed q -> bounded (mapTx q) -> it ∈ pool q ->
  exists q', removeUnchecked node_usage it q = Some q' /\ indexed q'
  /\ (forall A (f : CTxMemPoolEntry -> A), no_idx f -> same f (mapTx q') (delete it (mapTx q)))
  /\ mapLinks q' = delete it (mapLinks q) /\ mapDeltas q' = mapDeltas q.
Proof.
  intros I B [e He]%elem_of_dom. unfold removeUnchecked. rewrite He. cbn [mbind option_bind].
  set (q1 := with_next _ q). assert (indexed q) as I' by done. destruct (remove_hash_ok q it e I He) as (m & v & Eh & Hp & Hm & Hv).
  assert (remove_hash (vTxHashesIdx e) q1 = Some (with_totals v (totalTxSize q1) (nTransactionsUpdated q1) (with_tx m q1))) as ->.
  { unfold q1. by rewrite remove_hash_next, Eh. }
  cbn [mbind option_bind]. eexists. split; [reflexivity|]. destruct I as [I1 I2 I3 I4].
  assert (forall A (f : CTxMemPoolEntry -> A), no_idx f -> same f (delete it m) (delete it (mapTx q))) as Hsame.
  { intros A f Hf k. specialize (Hm A f Hf k). destruct (decide (k = it)) as [->|Hne]; [by rewrite !lookup_delete_eq|by rewrite !lookup_delete_ne by congruence]. }
  assert (dom (delete it m) = dom (mapTx q) ∖ {[it]}) as Hdom by (rewrite (same_dom core _ _ (Hsame _ core ltac:(done))); apply dom_delete_L).
  split_and!; [|exact Hsame|done|done]. constructor; cbn [mapNextTx mapTx vTxHashes totalTxSize with_tx with_links with_totals q1 with_next].
  - intros o h. rewrite delete_inputs_ok. pose proof (I1 o it) as Hit. case_decide as Ho.
    + split; [done|]. intros (e' & Eh' & Ho'). exfalso. destruct (decide (h = it)) as [->|Hne]; [by rewrite lookup_delete_eq in Eh'|]. rewrite lookup_delete_ne in Eh' by congruence.
      destruct (same_Some e_tx _ _ _ _ (Hm _ e_tx ltac:(done)) Eh') as (e0 & E0 & Et). rewrite <- Et in Ho'.
      assert (mapNextTx q !! o = Some h) as H1 by (apply I1; eauto). assert (mapNextTx q !! o = Some it) as H2 by (apply I1; eauto). congruence.
    + rewrite I1. split; intros (e' & Eh' & Ho').
      * assert (h <> it) as Hne by (intros ->; rewrite He in Eh'; by injection Eh' as <-).
        destruct (same_Some e_tx _ _ _ _ (same_sym _ _ _ (Hm _ e_tx ltac:(done))) Eh') as (e0 & E0 & Et). exists e0. rewrite lookup_delete_ne by congruence. by rewrite Et.
      * destruct (decide (h = it)) as [->|Hne]; [by rewrite lookup_delete_eq in Eh'|]. rewrite lookup_delete_ne in Eh' by congruence.
        destruct (same_Some e_tx _ _ _ _ (Hm _ e_tx ltac:(done)) Eh') as (e0 & E0 & Et). exists e0. by rewrite Et.
  - intros h e' Eh'. destruct (decide (h = it)) as [->|Hne]; [by rewrite lookup_delete_eq in Eh'|]. rewrite lookup_delete_ne in Eh' by congruence. by apply Hv.
  - rewrite Hdom. apply (Permutation_cons_inv (a := it)). rewrite <- Hp, I3.
    assert (dom (mapTx q) = {[it]} ∪ dom (mapTx q) ∖ {[it]}) as E by (apply set_eq; intros y; pose proof (elem_of_dom_2 _ _ _ He); destruct (decide (y = it)) as [->|]; set_solver).
    rewrite E at 1. rewrite elements_disj_union by set_solver. by rewrite elements_singleton.
  - rewrite Hdom, I4. pose proof (elem_of_dom_2 _ _ _ He) as Hin. rewrite (sum_over_delete _ it (dom (mapTx q)) Hin).
    assert (size_of (mapTx q) it = nTxSize e) as Es by (unfold size_of; by rewrite He). rewrite Es. pose proof (bounded_sums _ (dom (mapTx q) ∖ {[it]}) B ltac:(set_solver)) as (Hs & _).
    replace (nTxSize e + sum_over (size_of (mapTx q)) (dom (mapTx q) ∖ {[it]}) - nTxSize e) with (sum_over (size_of (mapTx q)) (dom (mapTx q) ∖ {[it]})) by lia.
    rewrite u64_id by (unfold set_size in Hs; lia). apply sum_over_ext. intros x Hx. destruct (core_sizes _ _ (Hsame _ core ltac:(done))) as (S1 & _). rewrite S1.
    unfold size_of. rewrite lookup_delete_ne; [done|]. intros ->. set_solver.
Qed.

(** A map of entries without some of another's. *)
Definition part_of (m' m : gmap Z CTxMemPoolEntry) : Prop := forall k e', m' !! k = Some e' -> exists e, m !! k = Some e /\ core e = core e'.

Lemma part_sizes m' m x : part_of m' m -> x ∈ dom m' -> size_of m' x = size_of m x /\ fee_of m' x = fee_of m x /\ sig_of m' x = sig_of m x.
Proof.
  intros H [e' E']%elem_of_dom. destruct (H x e' E') as (e & E & Hc). unfold size_of, fee_of, sig_of. rewrite E, E'. cbn. unfold core in Hc. injection Hc. intros.
  unfold GetModifiedFee. split_and!; congruence.
Qed.

Lemma part_dom m' m : part_of m' m -> dom m' ⊆ dom m.
Proof. intros H x [e' E']%elem_of_dom. destruct (H x e' E') as (e & E & _). apply elem_of_dom. eauto. Qed.

Lemma bounded_part m' m : part_of m' m -> bounded m -> bounded m'.
Proof.
  intros H B. pose proof (part_dom _ _ H) as Hd. pose proof B as [B1 B2 B3 B4].
  assert (forall x, x ∈ dom m -> 0 <= size_of m x /\ 0 <= sig_of m x) as Hp.
  { intros x [e E]%elem_of_dom. unfold size_of, sig_of. rewrite E. cbn. specialize (B1 x e E). lia. }
  constructor.
  - intros h e' E'. destruct (H h e' E') as (e & E & Hc). specialize (B1 h e E). unfold core in Hc. injection Hc. intros. cbn in *. lia.
  - rewrite (sum_over_ext _ (size_of m)) by (intros x Hx; by apply (part_sizes m' m x)).
    pose proof (sum_over_subset (size_of m) _ _ Hd ltac:(intros x Hx; by apply Hp)). lia.
  - rewrite (sum_over_ext _ (fun x => Z.abs (fee_of m x))) by (intros x Hx; cbn; f_equal; by apply (part_sizes m' m x)).
    pose proof (sum_over_subset (fun x => Z.abs (fee_of m x)) _ _ Hd ltac:(intros x Hx; lia)). lia.
  - rewrite (sum_over_ext _ (sig_of m)) by (intros x Hx; by apply (part_sizes m' m x)).
    pose proof (sum_over_subset (sig_of m) _ _ Hd ltac:(intros x Hx; by apply Hp)). lia.
Qed.

Lemma removeUnchecked_all l q :
  NoDup l -> (forall x, x ∈ l -> x ∈ pool q) -> indexed q -> bounded (mapTx q) ->
  exists q', foreach (removeUnchecked node_usage) l q = Some q' /\ indexed q'
  /\ (forall A (f : CTxMemPoolEntry -> A), no_idx f -> forall k, f <$> mapTx q' !! k = if decide (k ∈ l) then None else f <$> mapTx q !! k)
  /\ (forall k, mapLinks q' !! k = if decide (k ∈ l) then None else mapLinks q !! k) /\ mapDeltas q' = mapDeltas q.
Proof.
  revert q. induction l as [|x l IH]; intros q Hn Hl I B; cbn [foreach].
  { by exists q. }
  apply NoDup_cons in Hn as [Hx Hn]. destruct (removeUnchecked_ok q x I B (Hl x ltac:(left))) as (q1 & -> & I1 & S1 & L1 & D1). cbn [mbind option_bind].
  destruct (IH q1) as (q' & -> & I' & S' & L' & D'); [done| |done| |].
  - intros y Hy. rewrite (same_dom core _ _ (S1 _ core ltac:(done))), dom_delete_L. apply elem_of_difference. split; [apply Hl; by right|]. intros ->%elem_of_singleton. done.
  - apply (bounded_part _ (mapTx q)); [|done]. intros k e' E'. destruct (same_Some _ _ _ _ _ (S1 _ core ltac:(done)) E') as (e & E & Hc).
    apply lookup_delete_Some in E as [_ E]. by exists e.
  - exists q'. split_and!; [done|done| | |by rewrite D'].
    + intros A f Hf k. rewrite (S' A f Hf). pose proof (S1 A f Hf k) as Hk. destruct (decide (k = x)) as [->|Hne].
      * rewrite lookup_delete_eq in Hk. rewrite (decide_True (P := x ∈ x :: l)) by left. rewrite decide_False by done. exact Hk.
      * rewrite lookup_delete_ne in Hk by congruence. rewrite Hk. destruct (decide (k ∈ l)); [by rewrite decide_True by (by right)|]. by rewrite decide_False by (by intros [?|?]%elem_of_cons).
    + intros k. rewrite L', L1. destruct (decide (k = x)) as [->|Hne].
      * rewrite (decide_True (P := x ∈ x :: l)) by left. rewrite decide_False by done. apply lookup_delete_eq.
      * rewrite lookup_delete_ne by congruence. destruct (decide (k ∈ l)); [by rewrite decide_True by (by right)|]. by rewrite decide_False by (by intros [?|?]%elem_of_cons).
Qed.

End Deleting.

(** ** Lemmas: removing a set *)

(** The graph of a consistent pool, followed to the end. *)
Lemma descends p k y : linked p -> k ∈ pool p -> y ∈ closure (down p) (pool p) k <-> rtc (step (down p)) k y.
Proof. intros L Hk. apply closure_ok; [done|]. intros. by apply linked_down. Qed.

Lemma ascends p k y : linked p -> k ∈ pool p -> y ∈ closure (up p) (pool p) k <-> rtc (step (up p)) k y.
Proof. intros L Hk. apply closure_ok; [done|]. intros. by apply lk_up. Qed.

Lemma descends_in p : linked p -> reaches p (closure (down p) (pool p)).
Proof. intros L k Hk. split; [by apply descends|]. apply closure_subset; [done|]. intros. by apply linked_down. Qed.

Lemma ascends_in p : linked p -> reaches p (closure (up p) (pool p)).
Proof. intros L k Hk. split; [by apply ascends|]. apply closure_subset; [done|]. intros. by apply lk_up. Qed.

(** What may be removed: with ancestors when the descendants are updated, with descendants when not. *)
Definition removable (p : CTxMemPool) (s : gset Z) (updateDescendants : bool) : Prop :=
  s ⊆ pool p /\ forall x y, x ∈ s -> y ∈ (if updateDescendants then up p x else down p x) -> y ∈ s.

Section Removing.
Context `{SetOrder}.
Variable node_usage : Z.

Lemma UpdateForRemoveFromMempool_ok p s b :
  consistent p -> removable p s b ->
  exists m lk u, UpdateForRemoveFromMempool node_usage s b p = Some (with_tx m (with_links lk u p))
  /\ same core m (mapTx p) /\ same vTxHashesIdx m (mapTx p) /\ severed p lk s s
  /\ desc_counts m (without (closure (down p) (pool p)) s) (size_of (mapTx p)) (fee_of (mapTx p))
  /\ anc_counts m (if b then without (closure (up p) (pool p)) s else closure (up p) (pool p)) (size_of (mapTx p)) (fee_of (mapTx p)) (sig_of (mapTx p)).
Proof.
  intros [Hk L _ Ha _ B [Ad Aa]] [Hs _]. unfold UpdateForRemoveFromMempool.
  assert (Forall (fun x => x ∈ pool p /\ x ∉ (∅ : gset Z)) (set_list s)) as Hl.
  { apply Forall_forall. intros x Hx%elem_of_set_list. split; [by apply Hs|set_solver]. }
  assert (exists m1, (if b then foreach forget_ancestor (set_list s) p else Some p) = Some (with_tx m1 p) /\ same core m1 (mapTx p) /\ same desc_part m1 (mapTx p)
    /\ same vTxHashesIdx m1 (mapTx p)
    /\ anc_counts m1 (if b then without (closure (up p) (pool p)) s else closure (up p) (pool p)) (size_of (mapTx p)) (fee_of (mapTx p)) (sig_of (mapTx p)))
    as (m1 & -> & C1 & C2 & C3 & C4).
  { destruct b; [|exists (mapTx p); by destruct p].
    destruct (forget_ancestor_all p L Hk B Ha (closure (up p) (pool p)) ltac:(intros; by apply ascends) (ascends_in p L) (set_list s) (mapTx p) ∅)
      as (m1 & E & D); [apply NoDup_set_list|done|done| |].
    - eapply anc_counts_ext; [|exact Aa]. intros h _. by rewrite without_none.
    - rewrite set_list_to_set, union_empty_r_L in D. exists m1. split; [by destruct p|done]. }
  cbn [mbind option_bind].
  destruct (forget_descendant_all node_usage p L Hk B Ha (closure (down p) (pool p)) ltac:(intros; by apply descends) (descends_in p L)
    (set_list s) m1 (mapLinks p) (cachedInnerUsage p) ∅) as (m2 & lk2 & u2 & E & D1 & D2 & D3 & D4 & D5); [apply NoDup_set_list|done|done| | |].
  - apply (desc_counts_same (mapTx p)); [by apply same_sym|]. eapply desc_counts_ext; [|exact Ad]. intros h _. by rewrite without_none.
  - constructor; [apply L|done|]. intros x. change (down p x = down p x ∖ ∅). set_solver.
  - replace (with_tx m1 (with_links (mapLinks p) (cachedInnerUsage p) p)) with (with_tx m1 p) in E by done. rewrite E. cbn [mbind option_bind].
    rewrite set_list_to_set, union_empty_r_L in D4, D5.
    destruct (UpdateChildrenForRemoval_all node_usage p L Hk B Ha (set_list s) (with_tx m2 (with_links lk2 u2 p)) s ∅) as (lk3 & u3 & E3 & K).
    + apply Forall_forall. intros x Hx%elem_of_set_list. split; [by apply Hs|done].
    + destruct D5 as [F1 F2 F3]. constructor; [done|done|]. intros x _. cbn. rewrite F2. set_solver.
    + rewrite set_list_to_set, union_empty_r_L in K. exists m2, lk3, u3. split_and!; [exact E3|done|by eapply same_trans|done|done|].
      apply (anc_counts_same m1); [by apply same_sym|done].
Qed.

(** The pool without a set: the entries that stay are the same up to their counters and indices. *)
Record remains (p p' : CTxMemPool) (s : gset Z) : Prop := {
  rm_core : forall k, core <$> mapTx p' !! k = if decide (k ∈ s) then None else core <$> mapTx p !! k;
  rm_up : forall k, up p' k = if decide (k ∈ s) then ∅ else up p k ∖ s;
  rm_down : forall k, down p' k = if decide (k ∈ s) then ∅ else down p k ∖ s;
}.

Lemma remains_Some p p' s k e' : remains p p' s -> mapTx p' !! k = Some e' -> k ∉ s /\ exists e, mapTx p !! k = Some e /\ core e = core e'.
Proof.
  intros R E. pose proof (rm_core _ _ _ R k) as Hk. rewrite E in Hk. destruct (decide (k ∈ s)); [done|]. split; [done|].
  destruct (mapTx p !! k) as [e|]; [|done]. exists e. split; [done|]. symmetry. exact (Some_inj _ _ Hk).
Qed.

Lemma remains_part p p' s : remains p p' s -> part_of (mapTx p') (mapTx p).
Proof. intros R k e' E. by apply (remains_Some _ _ _ _ _ R E). Qed.

Lemma remains_dom p p' s : remains p p' s -> pool p' = pool p ∖ s.
Proof.
  intros R. apply set_eq. intros k. rewrite elem_of_difference, !elem_of_dom. pose proof (rm_core _ _ _ R k) as Hk. split.
  - intros [e' E]. destruct (remains_Some _ _ _ _ _ R E) as (? & e & ? & _). eauto.
  - intros [[e E] Hn]. rewrite decide_False, E in Hk by done. destruct (mapTx p' !! k); [eauto|done].
Qed.

Lemma core_tx e e' : core e = core e' -> e_tx e = e_tx e'.
Proof. intros Hc. exact (f_equal e_tx Hc). Qed.

Lemma part_sums m' m t : part_of m' m -> t ⊆ dom m' ->
  sum_over (size_of m) t = sum_over (size_of m') t /\ sum_over (fee_of m) t = sum_over (fee_of m') t /\ sum_over (sig_of m) t = sum_over (sig_of m') t.
Proof. intros P Ht. split_and!; apply sum_over_ext; intros x Hx; destruct (part_sizes m' m x P (Ht x Hx)) as (? & ? & ?); done. Qed.

(** A removal that leaves the counters of the sets of what stays keeps the pool consistent. *)
Lemma remains_consistent p p' s b :
  consistent p -> removable p s b -> remains p p' s -> dom (mapLinks p') = pool p' -> indexed p' ->
  desc_counts (mapTx p') (without (closure (down p) (pool p)) s) (size_of (mapTx p)) (fee_of (mapTx p)) ->
  anc_counts (mapTx p') (if b then without (closure (up p) (pool p)) s else closure (up p) (pool p)) (size_of (mapTx p)) (fee_of (mapTx p)) (sig_of (mapTx p)) ->
  consistent p'.
Proof.
  intros [Hk L Hps Ha _ B _] [Hs Hb] R Hd I Hdc Hac. pose proof (remains_dom _ _ _ R) as Hdom. pose proof (remains_part _ _ _ R) as Hpart.
  assert (linked p') as L'.
  { constructor; [done| |].
    - intros x y. rewrite (rm_up _ _ _ R), (rm_down _ _ _ R). pose proof (lk_sym p L x y). repeat case_decide; set_solver.
    - intros x. rewrite (rm_up _ _ _ R), Hdom. pose proof (lk_up p L x). case_decide; set_solver. }
  assert (forall k, k ∈ pool p' -> without (closure (down p) (pool p)) s k = closure (down p') (pool p') k) as Edd.
  { intros k Hkp. apply set_eq. intros y. symmetry. rewrite descends by done. rewrite Hdom in Hkp. apply elem_of_difference in Hkp as [Hkp Hks]. rewrite without_outside, elem_of_difference, descends by done.
    apply rtc_restrict; [intros x Hx; rewrite (rm_down _ _ _ R); by rewrite decide_False| |done].
    destruct b; [right|by left]. intros x z Hz Hzx. apply (lk_sym p L) in Hzx. by eapply Hb. }
  assert (forall k, k ∈ pool p' -> (if b then without (closure (up p) (pool p)) s else closure (up p) (pool p)) k = closure (up p') (pool p') k) as Eaa.
  { intros k Hkp. apply set_eq. intros y. symmetry. rewrite ascends by done. rewrite Hdom in Hkp. apply elem_of_difference in Hkp as [Hkp Hks].
    assert (rtc (step (up p')) k y <-> rtc (step (up p)) k y /\ y ∉ s) as ->.
    { apply rtc_restrict; [intros x Hx; rewrite (rm_up _ _ _ R); by rewrite decide_False| |done].
      destruct b; [by left|right]. intros x z Hz Hzx. apply (lk_sym p L) in Hzx. by eapply Hb. }
    destruct b; [by rewrite without_outside, elem_of_difference, ascends by done|]. rewrite ascends by done. split; [tauto|]. intros Hr. split; [done|]. intros Hy.
    apply (rtc_reverse (up p) (down p)) in Hr; [|apply (lk_sym p L)]. apply Hks. clear -Hr Hy Hb. induction Hr; [done|]. apply IHHr. by eapply Hb. }
  assert (forall k, k ∈ pool p' -> closure (down p') (pool p') k ⊆ pool p' /\ closure (up p') (pool p') k ⊆ pool p') as Hin.
  { intros k Hkp. split; [by apply descends_in|by apply ascends_in]. }
  constructor; [|exact L'| | |exact I|exact (bounded_part _ _ Hpart B)|].
  - intros h e' E. destruct (remains_Some _ _ _ _ _ R E) as (_ & e & E0 & Hc). rewrite <- (Hk h e E0). unfold e_hash. by rewrite (core_tx _ _ Hc).
  - intros h e' E. destruct (remains_Some _ _ _ _ _ R E) as (Hns & e & E0 & Hc). rewrite (rm_up _ _ _ R), decide_False, (Hps h e E0) by done.
    rewrite (core_tx _ _ Hc). unfold pool_parents. rewrite Hdom. set_solver.
  - intros h Ht. apply (Ha h). revert Ht. apply tc_congruence_step. intros a c. unfold step. rewrite (rm_up _ _ _ R). case_decide; set_solver.
  - constructor.
    + eapply desc_counts_ext; [|exact Hdc]. intros k Hkp. cbn beta. rewrite Edd by done. destruct (part_sums _ _ _ Hpart (proj1 (Hin k Hkp))) as (-> & -> & _). done.
    + eapply anc_counts_ext; [|exact Hac]. intros k Hkp. cbn beta. rewrite Eaa by done. destruct (part_sums _ _ _ Hpart (proj2 (Hin k Hkp))) as (-> & -> & ->). done.
Qed.

(** Removing a set of transactions with their descendants, or with their ancestors. *)
Lemma RemoveStaged_ok p s b :
  consistent p -> removable p s b -> exists p', RemoveStaged node_usage s b p = Some p' /\ consistent p' /\ remains p p' s /\ mapDeltas p' = mapDeltas p.
Proof.
  intros C Hs. destruct (UpdateForRemoveFromMempool_ok p s b C Hs) as (m & lk & u & E & C1 & C2 & K & D & A). unfold RemoveStaged. rewrite E. cbn [mbind option_bind].
  set (q := with_tx m (with_links lk u p)). pose proof (same_dom _ _ _ C1) as Hdom. pose proof (proj1 Hs) as Hsp.
  assert (indexed q) as I.
  { destruct (cs_indexed p C) as [I1 I2 I3 I4]. destruct (core_sizes _ _ C1) as (S1 & _). constructor; cbn.
    - intros o h. rewrite I1. split; intros (e & Ee & Ho).
      + destruct (same_Some _ _ _ _ _ (same_sym _ _ _ C1) Ee) as (e' & Ee' & Hc). exists e'. by rewrite (core_tx _ _ Hc).
      + destruct (same_Some _ _ _ _ _ C1 Ee) as (e' & Ee' & Hc). exists e'. by rewrite (core_tx _ _ Hc).
    - intros h e Ee. destruct (same_Some _ _ _ _ _ C2 Ee) as (e' & Ee' & <-). by apply I2.
    - by rewrite Hdom.
    - rewrite Hdom, I4. apply sum_over_ext. intros. by rewrite S1. }
  destruct (removeUnchecked_all node_usage (set_list s) q) as (q' & Eq & I' & F & Fl & Fd); [apply NoDup_set_list| |done| |].
  - intros x Hx%elem_of_set_list. cbn. rewrite Hdom. by apply Hsp.
  - cbn. apply (bounded_same (mapTx p)); [by apply same_sym|apply C].
  - exists q'. split; [done|]. assert (forall k (A0 : Type) (a c : A0), (if decide (k ∈ set_list s) then a else c) = (if decide (k ∈ s) then a else c)) as Hdec.
    { intros k A0 a c. destruct (decide (k ∈ s)) as [Hk|Hk]; [rewrite decide_True; [done|by apply elem_of_set_list]|rewrite decide_False; [done|by rewrite elem_of_set_list]]. }
    assert (remains p q' s) as R.
    { constructor.
      - intros k. rewrite (F _ core) by done. rewrite Hdec. cbn. by rewrite (C1 k).
      - intros k. unfold up at 1, links_of. rewrite Fl, Hdec. case_decide as Hk; [done|]. by apply (sv_up _ _ _ _ K).
      - intros k. unfold down at 1, links_of. rewrite Fl, Hdec. case_decide as Hk; [done|]. by apply (sv_down _ _ _ _ K).
    }
    split; [|done]. apply (remains_consistent p q' s b); try done.
    + rewrite (remains_dom _ _ _ R). apply set_eq. intros k. rewrite elem_of_dom, Fl, Hdec, elem_of_difference. pose proof (sv_dom _ _ _ _ K) as Hk. rewrite <- Hk.
      case_decide; [split; [by intros []|tauto]|]. rewrite elem_of_dom. tauto.
    + intros k e' Ek. pose proof (F _ desc_part ltac:(done) k) as Hk. rewrite Ek, Hdec in Hk. case_decide; [done|]. cbn in Hk.
      destruct (m !! k) as [e|] eqn:Em; [|done]. rewrite <- (D k e Em). exact (Some_inj _ _ Hk).
    + intros k e' Ek. pose proof (F _ anc_part ltac:(done) k) as Hk. rewrite Ek, Hdec in Hk. case_decide; [done|]. cbn in Hk.
      destruct (m !! k) as [e|] eqn:Em; [|done]. rewrite <- (A k e Em). exact (Some_inj _ _ Hk).
Qed.

Lemma remains_trans p p1 p2 s1 s2 : remains p p1 s1 -> remains p1 p2 s2 -> remains p p2 (s1 ∪ s2).
Proof.
  intros R1 R2. constructor; intros k.
  - rewrite (rm_core _ _ _ R2), (rm_core _ _ _ R1). repeat case_decide; (done || set_solver).
  - rewrite (rm_up _ _ _ R2), (rm_up _ _ _ R1). repeat case_decide; set_solver.
  - rewrite (rm_down _ _ _ R2), (rm_down _ _ _ R1). repeat case_decide; set_solver.
Qed.

Lemma remains_refl p : remains p p ∅.
Proof. constructor; intros k; case_decide; set_solver. Qed.

Lemma remains_descend p p' s x y : remains p p' s -> rtc (step (down p')) x y -> rtc (step (down p)) x y.
Proof. intros R. induction 1 as [|a b c Hab _ IH]; [done|]. eapply rtc_l; [|exact IH]. unfold step in *. rewrite (rm_down _ _ _ R) in Hab. case_decide; set_solver. Qed.

Lemma remains_next p p' s o h : consistent p -> consistent p' -> remains p p' s -> mapNextTx p' !! o = Some h <-> mapNextTx p !! o = Some h /\ h ∉ s.
Proof.
  intros C C' R. rewrite (ix_next _ (cs_indexed _ C')), (ix_next _ (cs_indexed _ C)). split.
  - intros (e' & E & Ho). destruct (remains_Some _ _ _ _ _ R E) as (Hn & e & E0 & Hc). split; [|done]. exists e. by rewrite (core_tx _ _ Hc).
  - intros [(e & E & Ho) Hn]. pose proof (rm_core _ _ _ R h) as Hk. rewrite decide_False, E in Hk by done. destruct (mapTx p' !! h) as [e'|]; [|done].
    exists e'. split; [done|]. by rewrite (core_tx e' e (Some_inj _ _ Hk)).
Qed.

Lemma next_in_pool p o h : indexed p -> mapNextTx p !! o = Some h -> h ∈ pool p.
Proof. intros I Ho. apply (ix_next p I) in Ho as (e & E & _). apply elem_of_dom. eauto. Qed.

(** Removing some transactions with all that depend on them. *)
Lemma remove_descendants p l :
  consistent p -> Forall (fun x => x ∈ pool p) l ->
  exists s p', all_descendants p l ∅ = Some s /\ RemoveStaged node_usage s false p = Some p' /\ consistent p' /\ remains p p' s /\ mapDeltas p' = mapDeltas p
  /\ removable p s false /\ forall y, y ∈ s <-> exists x, x ∈ l /\ rtc (step (down p)) x y.
Proof.
  intros C Hl. destruct (all_descendants_ok p l ∅ (cs_linked p C) Hl) as (s & E & H1 & H2 & H3); [set_solver|set_solver|].
  assert (removable p s false) as Hr by done. destruct (RemoveStaged_ok p s false C Hr) as (p' & Ep & C' & R & D).
  exists s, p'. split_and!; try done. intros y. rewrite H3. split; [by intros [?%elem_of_empty|]|by right].
Qed.

Lemma spenders_of_ok p h n i :
  indexed p -> exists s, spenders_of p h n i = Some s /\ s ⊆ pool p
  /\ forall y, y ∈ s <-> exists k, i <= k < i + Z.of_nat n /\ mapNextTx p !! {| op_hash := h; op_n := k |} = Some y.
Proof.
  intros I. revert i. induction n as [|n IH]; intros i; cbn [spenders_of].
  { exists ∅. split_and!; [done|set_solver|]. intros y. split; [by intros ?%elem_of_empty|]. intros (k & Hk & _). lia. }
  destruct (IH (i + 1)) as (s & -> & Hs & Hy). cbn [mbind option_bind]. destruct (mapNextTx p !! _) as [x|] eqn:E.
  - pose proof (next_in_pool _ _ _ I E) as Hx. pose proof Hx as [e Ee]%elem_of_dom. rewrite Ee. cbn [mbind option_bind]. exists ({[x]} ∪ s). split_and!; [done|set_solver|].
    intros y. rewrite elem_of_union, elem_of_singleton, Hy. split.
    + intros [->|(k & Hk & Ek)]; [exists i; split; [lia|done]|exists k; split; [lia|done]].
    + intros (k & Hk & Ek). destruct (decide (k = i)) as [->|]; [left; congruence|right; exists k; split; [lia|done]].
  - exists s. split_and!; [done|done|]. intros y. rewrite Hy. split; intros (k & Hk & Ek); [exists k; split; [lia|done]|].
    destruct (decide (k = i)) as [->|]; [congruence|]. exists k. split; [lia|done].
Qed.

(** What a transaction removed from outside takes along: itself, or what spends its outputs, with the descendants. *)
Definition depends_on (p : CTxMemPool) (tx : CTransaction) (y : Z) : Prop :=
  exists x, (if decide (tx_hash tx ∈ pool p) then x = tx_hash tx
             else exists k, 0 <= k < Z.of_nat (length (vout tx)) /\ mapNextTx p !! {| op_hash := tx_hash tx; op_n := k |} = Some x)
            /\ rtc (step (down p)) x y.

Lemma removeRecursive_ok p tx :
  consistent p -> exists s p', removeRecursive node_usage tx p = Some p' /\ consistent p' /\ remains p p' s /\ mapDeltas p' = mapDeltas p
  /\ removable p s false /\ forall y, y ∈ s <-> depends_on p tx y.
Proof.
  intros C. unfold removeRecursive, depends_on.
  assert (exists t : gset Z, (match mapTx p !! tx_hash tx with Some _ => Some {[tx_hash tx]} | None => spenders_of p (tx_hash tx) (length (vout tx)) 0 end) = Some t
    /\ t ⊆ pool p /\ forall x, x ∈ t <-> if decide (tx_hash tx ∈ pool p) then x = tx_hash tx
       else exists k, 0 <= k < Z.of_nat (length (vout tx)) /\ mapNextTx p !! {| op_hash := tx_hash tx; op_n := k |} = Some x) as (t & -> & Ht & Hx).
  { destruct (mapTx p !! tx_hash tx) as [e|] eqn:E.
    - assert (tx_hash tx ∈ pool p) by (apply elem_of_dom; eauto). exists {[tx_hash tx]}. split_and!; [done|set_solver|]. intros x. rewrite decide_True by done. apply elem_of_singleton.
    - apply not_elem_of_dom in E. destruct (spenders_of_ok p (tx_hash tx) (length (vout tx)) 0 (cs_indexed p C)) as (s & Es & H1 & H2).
      exists s. split_and!; [done|done|]. intros x. rewrite decide_False by done. apply H2. }
  cbn [mbind option_bind]. destruct (remove_descendants p (set_list t) C) as (s & p' & -> & Ep & H1 & H2 & H3 & H4 & H5).
  { apply Forall_forall. intros x Hin%elem_of_set_list. by apply Ht. }
  cbn [mbind option_bind]. exists s, p'. split_and!; try done. intros y. rewrite H5. split; intros (x & Hin & Hr); exists x; (split; [|done]).
  - by apply Hx, elem_of_set_list.
  - by apply elem_of_set_list, Hx.
Qed.

End Removing.

(** ** Conflicts, expiry and trimming *)

Lemma consistent_deltas d p : consistent p -> consistent (with_deltas d p).
Proof.
  intros [H1 [L1 L2 L3] H3 H4 [I1 I2 I3 I4] B [A1 A2]].
  constructor; [exact H1|by constructor|exact H3|exact H4|by constructor|exact B|by constructor].
Qed.

Lemma removable_descend p s x y : removable p s false -> x ∈ s -> rtc (step (down p)) x y -> y ∈ s.
Proof. intros [_ Hc] Hx Hr. induction Hr as [|a b c Hab _ IH]; [done|]. apply IH. by eapply Hc. Qed.

(** What a removal leaves is reached as before. *)
Lemma remains_restrict p p' s b k y :
  linked p -> removable p s b -> remains p p' s -> k ∉ s -> rtc (step (down p')) k y <-> rtc (step (down p)) k y /\ y ∉ s.
Proof.
  intros L [Hs Hc] R Hk. apply rtc_restrict; [intros x Hx; rewrite (rm_down _ _ _ R); by rewrite decide_False| |done].
  destruct b; [right|by left]. intros x z Hz Hzx. apply (lk_sym p L) in Hzx. by eapply Hc.
Qed.

Lemma removable_union p p1 s1 s2 : removable p s1 false -> remains p p1 s1 -> removable p1 s2 false -> removable p (s1 ∪ s2) false.
Proof.
  intros [H1 C1] R [H2 C2]. rewrite (remains_dom _ _ _ R) in H2. split; [set_solver|].
  intros x y [Hx|Hx]%elem_of_union Hy; apply elem_of_union; [left; by eapply C1|]. destruct (decide (y ∈ s1)); [by left|right].
  apply (C2 x y Hx). rewrite (rm_down _ _ _ R). rewrite decide_False by set_solver. set_solver.
Qed.

(** Reached from one of the entries [f] picks. *)
Definition below (p : CTxMemPool) (f : Z -> Prop) (y : Z) : Prop := exists c, f c /\ rtc (step (down p)) c y.

(** Two removals after each other take what one would. *)
Lemma below_union p p1 s1 s2 b f1 f2 g :
  linked p -> removable p s1 b -> (forall x y, x ∈ s1 -> rtc (step (down p)) x y -> below p f1 y) -> remains p p1 s1 ->
  (forall y, y ∈ s1 <-> below p f1 y) -> (forall y, y ∈ s2 <-> below p1 f2 y) -> (forall c, f2 c <-> g c /\ c ∉ s1) ->
  forall y, y ∈ s1 ∪ s2 <-> below p (fun c => f1 c \/ g c) y.
Proof.
  intros L Hr Hc R E1 E2 Hf y. rewrite elem_of_union, E1, E2. split.
  - intros [(c & Hfc & Hcy)|(c & [Hg Hn]%Hf & Hcy)]; exists c; (split; [tauto|]); [done|]. by apply (remains_descend _ _ _ _ _ R).
  - intros (c & [Hfc|Hg] & Hcy); [left; by exists c|]. destruct (decide (c ∈ s1)) as [Hin|Hn]; [left; by eapply Hc|].
    destruct (decide (y ∈ s1)) as [Hy|Hy]; [left; by apply E1|right]. exists c. split; [by apply Hf|]. by apply (remains_restrict p p1 s1 b).
Qed.

Section Clients.
Context `{SetOrder}.
Variable node_usage : Z.

(** An entry that spends an outpoint one of the inputs spends, without being the transaction. *)
Definition conflicts (p : CTxMemPool) (tx : CTransaction) (l : list CTxIn) (c : Z) : Prop :=
  c <> tx_hash tx /\ exists i, i ∈ l /\ mapNextTx p !! prevout i = Some c.

Lemma remove_conflicts_ok tx l p :
  consistent p -> exists s p', remove_conflicts node_usage tx l p = Some p' /\ consistent p' /\ remains p p' s /\ removable p s false
  /\ (forall y, y ∈ s <-> below p (conflicts p tx l) y) /\ forall k, mapDeltas p' !! k = mapDeltas p !! k \/ (k ∈ s /\ mapDeltas p' !! k = None).
Proof.
  revert p. induction l as [|i l IH]; intros p C; cbn [remove_conflicts].
  { exists ∅, p. split_and!; [done|done|apply remains_refl|by split; set_solver| |by left]. intros y. split; [by intros ?%elem_of_empty|].
    by intros (c & (_ & i & ?%elem_of_nil & _) & _). }
  assert (forall (P : Prop), (forall c, mapNextTx p !! prevout i = Some c -> c = tx_hash tx) ->
     (exists s p', remove_conflicts node_usage tx l p = Some p' /\ consistent p' /\ remains p p' s /\ removable p s false
       /\ (forall y, y ∈ s <-> below p (conflicts p tx (i :: l)) y) /\ forall k, mapDeltas p' !! k = mapDeltas p !! k \/ (k ∈ s /\ mapDeltas p' !! k = None))) as Hskip.
  { intros _ Hno. destruct (IH p C) as (s & p' & E & C' & R & Hr & Hy & Hd). exists s, p'. split_and!; try done. intros y. rewrite Hy.
    split; intros (c & (Hne & j & Hj & Ej) & Hcy); exists c; (split; [|done]); (split; [done|]).
    - exists j. split; [by right|done].
    - apply elem_of_cons in Hj as [->|Hj]; [by apply Hno in Ej|]. by exists j. }
  destruct (mapNextTx p !! prevout i) as [h|] eqn:E; cbn [mbind option_bind]; [|by apply (Hskip True)].
  pose proof (next_in_pool _ _ _ (cs_indexed p C) E) as Hh. pose proof Hh as [e Ee]%elem_of_dom. rewrite Ee. cbn [mbind option_bind].
  rewrite (cs_key p C h e Ee). destruct (Z.eqb_spec h (tx_hash tx)) as [->|Hne]; cbn [mbind option_bind]; [apply (Hskip True); congruence|].
  destruct (removeRecursive_ok node_usage (ClearPrioritisation h p) (e_tx e) (consistent_deltas _ _ C)) as (s1 & p1 & -> & C1 & R1 & D1 & Hr1 & H1). cbn [mbind option_bind].
  assert (remains p p1 s1) as R1' by (destruct R1; by constructor). assert (removable p s1 false) as Hr1' by done.
  assert (forall y, y ∈ s1 <-> below p (fun c => c = h) y) as H1'.
  { intros y. rewrite H1. unfold depends_on. change (tx_hash (e_tx e)) with (e_hash e). rewrite (cs_key p C h e Ee). cbn [mapTx ClearPrioritisation with_deltas].
    split; intros (x & Hx & Hr); exists x; (split; [|exact Hr]); [by rewrite decide_True in Hx|by rewrite decide_True]. }
  destruct (IH p1 C1) as (s2 & p' & E2 & C2 & R2 & Hr2 & H2 & D2). exists (s1 ∪ s2), p'. split_and!; try done.
  - by eapply remains_trans.
  - by eapply removable_union.
  - intros y. rewrite (below_union p p1 s1 s2 false (fun c => c = h) (conflicts p1 tx l) (conflicts p tx l)); try done; [|apply C| |].
    + split; intros (c & Hc & Hcy); exists c; (split; [|done]).
      * destruct Hc as [->|(? & j & ? & ?)]; (split; [done|]); [exists i; split; [left|done]|exists j; split; [by right|done]].
      * destruct Hc as (? & j & [->|Hj]%elem_of_cons & Ej); [left; congruence|right]. split; [done|]. by exists j.
    + intros x z Hx Hxz. apply H1'. by eapply removable_descend.
    + intros c. unfold conflicts. split.
      * intros (Hc & j & Hj & [Ej Hn]%(remains_next p p1 s1 _ _ C C1 R1')). split; [|done]. split; [done|]. by exists j.
      * intros [(Hc & j & Hj & Ej) Hn]. split; [done|]. exists j. split; [done|]. by apply (remains_next p p1 s1 _ _ C C1 R1').
  - intros k. destruct (D2 k) as [->|[Hk ->]]; [|right; split; [set_solver|done]]. rewrite D1. cbn. destruct (decide (k = h)) as [->|Hk].
    + right. split; [|apply lookup_delete_eq]. apply elem_of_union. left. apply H1'. exists h. split; [done|apply rtc_refl].
    + left. by apply lookup_delete_ne.
Qed.

Lemma Expire_ok locked time p :
  consistent p -> exists s p', Expire node_usage locked time p = Some (p', set_size s) /\ consistent p' /\ remains p p' s /\ mapDeltas p' = mapDeltas p
  /\ forall y, y ∈ s <-> below p (fun x => exists e, mapTx p !! x = Some e /\ nTime e < time /\ locked x = false) y.
Proof.
  intros C. unfold Expire. set (old := dom (filter _ (mapTx p))).
  assert (forall x, x ∈ old <-> exists e, mapTx p !! x = Some e /\ nTime e < time /\ locked x = false) as Hold.
  { intros x. unfold old. rewrite elem_of_dom. unfold is_Some. split; intros (e & He).
    - apply map_lookup_filter_Some in He as [He Hc]. cbn in Hc. exists e. split; [done|]. apply andb_true_iff in Hc as [Hc Hl]. apply Z.ltb_lt in Hc. by apply negb_true_iff in Hl.
    - exists e. apply map_lookup_filter_Some. destruct He as (He & Hc & Hl). split; [done|]. cbn. by rewrite (proj2 (Z.ltb_lt _ _) Hc), Hl. }
  destruct (remove_descendants node_usage p (set_list old) C) as (s & p' & -> & Ep & C' & R & D & _ & Hy).
  { apply Forall_forall. intros x (e & He & _)%elem_of_set_list%Hold. apply elem_of_dom. eauto. }
  cbn [mbind option_bind]. rewrite Ep. cbn [mbind option_bind]. exists s, p'. split_and!; try done. intros y. rewrite Hy.
  split; intros (x & Hx & Hxy); exists x; (split; [|done]); [by apply Hold, elem_of_set_list|by apply elem_of_set_list, Hold].
Qed.

Section Trim.
Variable usage : CTxMemPool -> Z.
Variable worst : CTxMemPool -> option Z.
(** The entry of lowest score is an entry. *)
Hypothesis worst_ok : forall q, mapTx q <> ∅ -> exists h, worst q = Some h /\ h ∈ pool q.

(** An outpoint of no transaction of the pool that no entry spends. *)
Definition unspent_outside (q : CTxMemPool) (o : COutPoint) : Prop := op_hash o ∉ pool q /\ mapNextTx q !! o = None.

Lemma unspent_outside_less q q' s o : consistent q -> consistent q' -> remains q q' s -> unspent_outside q o -> unspent_outside q' o.
Proof.
  intros C C' R [H1 H2]. split; [rewrite (remains_dom _ _ _ R); set_solver|].
  destruct (mapNextTx q' !! o) eqn:E; [|done]. apply (remains_next q q' s _ _ C C' R) in E as [E _]. congruence.
Qed.

(** What the removed entries spent. *)
Lemma no_spends_remaining_ok p p' s l o :
  consistent p -> consistent p' -> remains p p' s -> (forall x, x ∈ l -> x ∈ s) ->
  o ∈ no_spends_remaining p' (map e_tx (omap (fun k => mapTx p !! k) l)) -> unspent_outside p' o.
Proof.
  intros C C' R Hl Ho. unfold no_spends_remaining in Ho. apply list_elem_of_In, in_flat_map in Ho as (tx & Htx & Ho).
  apply in_map_iff in Htx as (e & <- & He). apply list_elem_of_In, list_elem_of_omap in He as (k & Hk & Ek).
  apply list_elem_of_In, list_elem_of_filter in Ho as [Hx Ho]. split.
  - apply bool_decide_eq_false in Hx. intros [e' E]%elem_of_dom. apply Hx. eauto.
  - destruct (mapNextTx p' !! o) as [h|] eqn:E; [|done]. apply (remains_next p p' s _ _ C C' R) in E as [E Hn]. exfalso. apply Hn.
    assert (mapNextTx p !! o = Some k) as E2 by (apply (ix_next _ (cs_indexed p C)); eauto). rewrite E in E2. injection E2 as ->. by apply Hl.
Qed.

Lemma trim_loop_ok fuel limit p acc :
  consistent p -> (base.size (mapTx p) < fuel)%nat -> (forall o, o ∈ acc -> unspent_outside p o) ->
  exists s p' l, trim_loop node_usage usage worst fuel limit p acc = Some (p', l) /\ consistent p' /\ remains p p' s /\ removable p s false /\ mapDeltas p' = mapDeltas p
  /\ (mapTx p' = ∅ \/ usage p' <= limit) /\ (usage p <= limit -> p' = p) /\ forall o, o ∈ l -> unspent_outside p' o.
Proof using Type*.
  revert p acc. induction fuel as [|fuel IH]; intros p acc C Hf Ha; [lia|]. cbn [trim_loop].
  assert (removable p ∅ false) as Hno by (split; set_solver). destruct (bool_decide (mapTx p = ∅)) eqn:Ee; cbn [orb].
  { apply bool_decide_eq_true in Ee. exists ∅, p, acc. split_and!; try done; [apply remains_refl|by left]. }
  apply bool_decide_eq_false in Ee. rewrite Z.gtb_ltb. destruct (Z.ltb_spec limit (usage p)) as [Hu|Hu]; cbn [negb].
  2: { exists ∅, p, acc. split_and!; try done; [apply remains_refl|by right]. }
  destruct (worst_ok p Ee) as (h & -> & Hh). cbn [mbind option_bind].
  destruct (CalculateDescendants_ok p h ∅ (cs_linked p C) Hh ltac:(set_solver) ltac:(set_solver)) as (s1 & -> & H1). cbn [mbind option_bind].
  assert (removable p s1 false) as Hr1.
  { split.
    - intros y [?%elem_of_empty|Hy]%H1; [done|]. apply descends in Hy; [|apply C|done]. by apply (descends_in p (cs_linked p C) h Hh).
    - intros x y [?%elem_of_empty|Hx]%H1 Hxy; [done|]. apply H1. right. by eapply rtc_r. }
  destruct (RemoveStaged_ok node_usage p s1 false C Hr1) as (p1 & -> & C1 & R1 & D1). cbn [mbind option_bind].
  destruct (IH p1 (acc ++ no_spends_remaining p1 (map e_tx (omap (fun k => mapTx p !! k) (set_list s1)))) C1) as (s2 & p' & l & E & C' & R2 & Hr2 & D2 & Hl & _ & Ho).
  { assert (h ∈ s1) as Hin by (apply H1; right; apply rtc_refl). rewrite <- !size_dom in *. rewrite (remains_dom _ _ _ R1).
    pose proof (subset_size (pool p ∖ s1) (pool p) ltac:(set_solver)). lia. }
  { intros o [Hin|Hin]%elem_of_app; [by apply (unspent_outside_less p p1 s1); try done; apply Ha|].
    apply (no_spends_remaining_ok p p1 s1 (set_list s1)); try done. intros x. by rewrite elem_of_set_list. }
  exists (s1 ∪ s2), p', l. split_and!; [done|done|by eapply remains_trans|by eapply removable_union|congruence|done|lia|done].
Qed.

End Trim.

(** The parents of a block's transactions in the pool come before them in the block. *)
Definition parents_first (p : CTxMemPool) (vtx : list CTransaction) : Prop :=
  forall pre tx post, vtx = pre ++ tx :: post -> tx_hash tx ∈ pool p -> up p (tx_hash tx) ⊆ list_to_set (map tx_hash pre).

Lemma parents_first_step p p' s tx vtx :
  linked p -> remains p p' s -> (tx_hash tx ∈ pool p -> tx_hash tx ∈ s) -> parents_first p (tx :: vtx) -> parents_first p' vtx.
Proof.
  intros L R Hs Hp pre t post -> Ht x Hx. rewrite (remains_dom _ _ _ R) in Ht. apply elem_of_difference in Ht as [Ht Hn]. rewrite (rm_up _ _ _ R), decide_False in Hx by done.
  apply elem_of_difference in Hx as [Hx Hxs]. pose proof (lk_up p L _ x Hx) as Hxp. apply (Hp (tx :: pre) t post eq_refl Ht) in Hx. cbn in Hx.
  apply elem_of_union in Hx as [->%elem_of_singleton|Hx]; [|done]. by apply Hs in Hxp.
Qed.

(** What a block takes out: its transactions, and what hangs on the conflicts with them. *)
Definition block_takes (p : CTxMemPool) (vtx : list CTransaction) (y : Z) : Prop :=
  (exists tx, tx ∈ vtx /\ tx_hash tx = y) \/ below p (fun c => exists tx, tx ∈ vtx /\ conflicts p tx (vin tx) c) y.

Lemma block_takes_more p vtx tx y : block_takes p vtx y -> block_takes p (tx :: vtx) y.
Proof. intros [(t & Ht & E)|(c & (t & Ht & Hc) & Hy)]; [left; exists t|right; exists c; split; [exists t|done]]; (split; [by right|done]). Qed.

Lemma block_takes_before p p' s vtx y : consistent p -> consistent p' -> remains p p' s -> block_takes p' vtx y -> block_takes p vtx y.
Proof.
  intros C C' R [?|(c & (t & Ht & Hn & i & Hi & Hc) & Hy)]; [by left|right]. exists c. split; [|by apply (remains_descend _ _ _ _ _ R)].
  exists t. split; [done|]. split; [done|]. exists i. split; [done|]. by apply (remains_next p p' s _ _ C C' R) in Hc as [? _].
Qed.

(** One transaction of the block, in the pool or not. *)
Lemma remove_mined_ok p tx :
  consistent p -> (tx_hash tx ∈ pool p -> up p (tx_hash tx) = ∅) ->
  exists s p', (p ← (match mapTx p !! tx_hash tx with Some _ => RemoveStaged node_usage {[tx_hash tx]} true p | None => Some p end);
                removeConflicts node_usage tx p) = Some p'
  /\ consistent p' /\ remains p p' s /\ (tx_hash tx ∈ pool p -> tx_hash tx ∈ s) /\ (forall y, y ∈ s -> block_takes p [tx] y)
  /\ (forall i, i ∈ vin tx -> mapNextTx p' !! prevout i = None) /\ forall k, mapDeltas p' !! k = mapDeltas p !! k \/ (k ∈ s /\ mapDeltas p' !! k = None).
Proof.
  intros C Hup. set (h := tx_hash tx) in *.
  assert (exists s1 p1, (match mapTx p !! h with Some _ => RemoveStaged node_usage {[h]} true p | None => Some p end) = Some p1
    /\ consistent p1 /\ remains p p1 s1 /\ (h ∈ pool p -> h ∈ s1) /\ (forall y, y ∈ s1 -> y = h) /\ mapDeltas p1 = mapDeltas p) as (s1 & p1 & -> & C1 & R1 & H1 & H1' & D1).
  { destruct (mapTx p !! h) as [e|] eqn:E.
    - assert (h ∈ pool p) as Hh by (apply elem_of_dom; eauto). destruct (RemoveStaged_ok node_usage p {[h]} true C) as (p1 & E1 & C1 & R1 & D1).
      + split; [set_solver|]. intros x y ->%elem_of_singleton Hy. rewrite (Hup Hh) in Hy. set_solver.
      + exists {[h]}, p1. split_and!; [done|done|done|set_solver|set_solver|done].
    - apply not_elem_of_dom in E. exists ∅, p. split_and!; [done|done|apply remains_refl|done|set_solver|done]. }
  cbn [mbind option_bind]. destruct (remove_conflicts_ok tx (vin tx) p1 C1) as (s2 & p2 & E2 & C2 & R2 & _ & H2 & D2).
  exists (s1 ∪ s2), p2. pose proof (remains_trans _ _ _ _ _ R1 R2) as R. split_and!; try done.
  - intros Hh. apply elem_of_union. left. by apply H1.
  - intros y [->%H1'|Hy%H2]%elem_of_union; [left; exists tx; split; [by left|done]|]. apply (block_takes_before p p1 s1); try done. right.
    destruct Hy as (c & Hc & Hy). exists c. split; [|done]. exists tx. split; [by left|done].
  - intros i Hi. destruct (mapNextTx p2 !! prevout i) as [c|] eqn:Ec; [exfalso|done].
    pose proof (next_in_pool _ _ _ (cs_indexed _ C2) Ec) as Hc2. rewrite (remains_dom _ _ _ R) in Hc2. apply elem_of_difference in Hc2 as [Hcp Hcs].
    apply (remains_next p1 p2 s2 _ _ C1 C2 R2) in Ec as [Ec Hcn]. destruct (decide (c = h)) as [->|Hne]; [set_solver|].
    apply Hcn, H2. exists c. split; [|apply rtc_refl]. split; [done|]. by exists i.
  - intros k. rewrite <- D1. destruct (D2 k) as [->|[Hk ->]]; [by left|right; split; [set_solver|done]].
Qed.

Lemma removeForBlock_ok vtx p :
  consistent p -> parents_first p vtx ->
  exists s p', removeForBlock node_usage vtx p = Some p' /\ consistent p' /\ remains p p' s
  /\ (forall y, y ∈ s -> block_takes p vtx y)
  /\ (forall tx, tx ∈ vtx -> tx_hash tx ∉ pool p' /\ mapDeltas p' !! tx_hash tx = None /\ forall i, i ∈ vin tx -> mapNextTx p' !! prevout i = None)
  /\ forall k, mapDeltas p' !! k = mapDeltas p !! k \/ mapDeltas p' !! k = None.
Proof.
  revert p. induction vtx as [|tx vtx IH]; intros p C Hp; cbn [removeForBlock].
  { exists ∅, p. split_and!; [done|done|apply remains_refl|set_solver|by intros tx ?%elem_of_nil|by left]. }
  destruct (remove_mined_ok p tx C) as (s1 & p1 & E1 & C1 & R1 & H1 & H2 & H3 & D1).
  { intros Hh. specialize (Hp [] tx vtx eq_refl Hh). set_solver. }
  destruct (match mapTx p !! tx_hash tx with Some _ => _ | None => _ end) as [p0|]; cbn [mbind option_bind] in E1 |- *; [|done]. rewrite E1. cbn [mbind option_bind].
  set (q := ClearPrioritisation (tx_hash tx) p1). assert (consistent q) as Cq by by apply consistent_deltas. assert (remains p q s1) as Rq by (destruct R1; by constructor).
  destruct (IH q Cq) as (s2 & p' & E & C' & R2 & H4 & H5 & D2); [by apply (parents_first_step p q s1 tx vtx); [apply C|..]|].
  pose proof (remains_trans _ _ _ _ _ Rq R2) as R. exists (s1 ∪ s2), p'. split_and!; try done.
  - intros y [[(t & ->%list_elem_of_singleton & Hy)|(c & (t & ->%list_elem_of_singleton & Hc) & Hy)]%H2|Hy%H4]%elem_of_union.
    + left. exists tx. split; [left|done].
    + right. exists c. split; [|done]. exists tx. split; [left|done].
    + by apply block_takes_more, (block_takes_before p q s1).
  - assert (tx_hash tx ∉ pool p') as Hout by (rewrite (remains_dom _ _ _ R); set_solver).
    intros t [->|Ht]%elem_of_cons; [|by apply H5]. split_and!; [done| |].
    + destruct (D2 (tx_hash tx)) as [->|]; [apply lookup_delete_eq|done].
    + intros i Hi. destruct (mapNextTx p' !! prevout i) eqn:Ei; [|done]. apply (remains_next q p' s2 _ _ Cq C' R2) in Ei as [Ei _].
      change (mapNextTx q) with (mapNextTx p1) in Ei. by rewrite H3 in Ei.
  - intros k. destruct (D2 k) as [->| ->]; [|by right]. unfold q. cbn. destruct (decide (k = tx_hash tx)) as [->|Hk]; [right; apply lookup_delete_eq|].
    rewrite lookup_delete_ne by congruence. destruct (D1 k) as [->|[_ ->]]; [by left|by right].
Qed.

End Clients.
