(* ===== verification/MempoolAdd.v ===== *)
(** * Adding to the memory pool

    [addUnchecked] and [PrioritiseTransaction] of [src/src/txmempool.cpp] keep the pool of [Mempool] consistent, and
    the properties of the pool as a whole: what each operation returns, on what pool, and what it leaves. *)

From stdpp Require Import gmap relations.
From S2P Require Import Transaction TxVerify Graph Mempool MempoolRemove Prelude.

(** ** Lemmas: the graph with a new node *)

Section NewNode.
Variable p : CTxMemPool.
Variable new : Z.
Variable pp : gset Z.
Hypothesis Hlinked : linked p.
Hypothesis Hnew : new ∉ pool p.
Hypothesis Hpp : pp ⊆ pool p.
Hypothesis Hacyclic : forall h, ~ tc (step (up p)) h h.

Definition up_new (x : Z) : gset Z := if decide (x = new) then pp else up p x.

Lemma up_new_pool x y : x ∈ pool p -> rtc (step up_new) x y <-> rtc (step (up p)) x y.
Proof using Type*.
  intros Hx. split; intros Hr; revert Hx; induction Hr as [|a b c Hab _ IH]; intros Ha; try done.
  - assert (a <> new) as Hne by congruence. unfold step, up_new in Hab. rewrite decide_False in Hab by done.
    eapply rtc_l; [exact Hab|]. apply IH. by apply (lk_up p Hlinked a).
  - assert (a <> new) as Hne by congruence. eapply rtc_l; [|apply IH; by apply (lk_up p Hlinked a)]. unfold step, up_new. by rewrite decide_False.
Qed.

Lemma up_new_start y : tc (step up_new) new y <-> covered (up p) pp ∅ y.
Proof using Type*.
  rewrite tc_rtc_iff. unfold covered. unfold up_new at 1. rewrite decide_True by done. split.
  - intros (z & Hz & Hr). right. exists z. split; [done|]. apply up_new_pool in Hr; [done|by apply Hpp].
  - intros [?%elem_of_empty|(z & Hz & Hr)]; [done|]. exists z. split; [done|]. apply up_new_pool; [by apply Hpp|done].
Qed.

Lemma up_pool x y : x ∈ pool p -> rtc (step (up p)) x y -> y ∈ pool p.
Proof using Type*. intros Hx Hr. revert Hx. induction Hr as [|a b c Hab _ IH]; [done|]. intros Ha. apply IH. by apply (lk_up p Hlinked a). Qed.

Lemma up_new_acyclic h : ~ tc (step up_new) h h.
Proof using Type*.
  intros Ht. destruct (decide (h = new)) as [->|Hne].
  - apply up_new_start in Ht as [?%elem_of_empty|(z & Hz & Hr)]; [done|]. apply Hnew. by apply (up_pool z), Hr; apply Hpp.
  - apply tc_rtc_iff in Ht as (z & Hz & Hr). unfold up_new in Hz. rewrite decide_False in Hz by done. pose proof (lk_up p Hlinked h z Hz) as Hzp.
    apply up_new_pool in Hr; [|done]. apply (Hacyclic h), tc_rtc_iff. by exists z.
Qed.

End NewNode.

Section Adding.
Context `{SetOrder}.
Variable node_usage : Z.

(** ** Lemmas: the steps of [addUnchecked] *)

(** An entry as its constructor leaves it. *)
Record fresh (e : CTxMemPoolEntry) : Prop := {
  fr_delta : feeDelta e = 0;
  fr_desc : desc_part e = (1, nTxSize e, nFee e);
  fr_anc : anc_part e = (1, nTxSize e, nFee e, sigOpCount e);
}.

Lemma make_fresh tx fee time height coinbase sigOps lp txSize usage : fresh (CTxMemPoolEntry_make tx fee time height coinbase sigOps lp txSize usage).
Proof. by constructor. Qed.

Lemma UpdateFeeDelta_ok d e :
  in_s 64 (d - feeDelta e) -> in_s 64 (nModFeesWithDescendants e + (d - feeDelta e)) -> in_s 64 (nModFeesWithAncestors e + (d - feeDelta e)) ->
  exists e', UpdateFeeDelta d e = Some e' /\ core e' = core (set_delta d e) /\ vTxHashesIdx e' = vTxHashesIdx e
  /\ desc_part e' = (nCountWithDescendants e, nSizeWithDescendants e, nModFeesWithDescendants e + (d - feeDelta e))
  /\ anc_part e' = (nCountWithAncestors e, nSizeWithAncestors e, nModFeesWithAncestors e + (d - feeDelta e), nSigOpCountWithAncestors e).
Proof. intros H1 H2 H3. unfold UpdateFeeDelta. rewrite !checked_in by done. cbn [mbind option_bind]. rewrite !checked_in by done. cbn [mbind option_bind]. by eexists. Qed.

Lemma insert_inputs_ok new l m o :
  (forall i, i ∈ l -> m !! prevout i = None \/ m !! prevout i = Some new) ->
  insert_inputs new l m !! o = if decide (o ∈ map prevout l) then Some new else m !! o.
Proof.
  unfold insert_inputs. revert m. induction l as [|i l IH]; intros m Hl; cbn [foldl map]; [by rewrite decide_False by apply not_elem_of_nil|].
  set (m1 := match m !! prevout i with Some _ => m | None => <[prevout i := new]> m end).
  assert (forall k, m1 !! k = if decide (k = prevout i) then Some new else m !! k) as Hm1.
  { intros k. unfold m1. destruct (Hl i ltac:(left)) as [E|E]; rewrite E; destruct (decide (k = prevout i)) as [->|Hk]; [apply lookup_insert_eq|by apply lookup_insert_ne|done|done]. }
  rewrite IH.
  - rewrite Hm1. destruct (decide (o ∈ map prevout l)); [by rewrite decide_True by (by right)|]. destruct (decide (o = prevout i)) as [->|]; [by rewrite decide_True by left|].
    by rewrite decide_False by (by intros [?|?]%elem_of_cons).
  - intros j Hj. rewrite Hm1. destruct (decide (prevout j = prevout i)); [by right|]. apply Hl. by right.
Qed.

(** The links to the parents that are in the pool. *)
Lemma parents_linked new l p :
  exists lk u, foldl (fun p phash => match mapTx p !! phash with Some _ => UpdateParent node_usage true new phash p | None => p end) p l = with_links lk u p
  /\ (new ∈ dom (mapLinks p) -> dom lk = dom (mapLinks p)) /\ (forall x, down_in lk x = down p x)
  /\ forall x, up_in lk x = if decide (x = new) then (list_to_set l ∩ pool p) ∪ up p x else up p x.
Proof.
  revert p. induction l as [|h l IH]; intros p; cbn [foldl list_to_set].
  { exists (mapLinks p), (cachedInnerUsage p). split_and!; [by destruct p|done|done|]. intros x. case_decide; [|done]. change (up p x = ∅ ∩ pool p ∪ up p x). set_solver. }
  destruct (mapTx p !! h) as [e|] eqn:E.
  - assert (h ∈ pool p) as Hh by (apply elem_of_dom; eauto). destruct (UpdateParent_ok node_usage true new h p) as (lk1 & u1 & -> & D1 & W1 & U1).
    destruct (IH (with_links lk1 u1 p)) as (lk & u & -> & D & W & U). exists lk, u. split_and!; [done| |intros x; by rewrite W; apply W1|].
    + intros Hn. rewrite D; cbn; [rewrite D1; set_solver|rewrite D1; set_solver].
    + intros x. rewrite U. change (up (with_links lk1 u1 p) x) with (up_in lk1 x). rewrite U1. cbn [mapTx with_links]. unfold edit. case_decide; [set_solver|done].
  - apply not_elem_of_dom in E. destruct (IH p) as (lk & u & -> & D & W & U). exists lk, u. split_and!; [done|done|done|]. intros x. rewrite U. case_decide; [set_solver|done].
Qed.

Lemma entry_sums_ok p l a b c :
  (forall k, k ∈ l -> k ∈ pool p) -> bounded (mapTx p) -> 0 <= a -> 0 <= c ->
  a + foldr (fun x n => size_of (mapTx p) x + n) 0 l < 2 ^ 63 -> Z.abs b + foldr (fun x n => Z.abs (fee_of (mapTx p) x) + n) 0 l < 2 ^ 63 ->
  c + foldr (fun x n => sig_of (mapTx p) x + n) 0 l < 2 ^ 31 ->
  entry_sums p l (a, b, c) = Some (a + foldr (fun x n => size_of (mapTx p) x + n) 0 l, b + foldr (fun x n => fee_of (mapTx p) x + n) 0 l, c + foldr (fun x n => sig_of (mapTx p) x + n) 0 l).
Proof.
  intros Hl B. revert a b c Hl. induction l as [|k l IH]; intros a b c Hl Ha Hc H1 H2 H3; cbn [entry_sums foldr] in *; [by rewrite !Z.add_0_r|].
  assert (k ∈ pool p) as [e E]%elem_of_dom by (apply Hl; left). rewrite E. cbn [mbind option_bind].
  assert (size_of (mapTx p) k = nTxSize e /\ fee_of (mapTx p) k = GetModifiedFee e /\ sig_of (mapTx p) k = sigOpCount e) as (Es & Ef & Eg) by (unfold size_of, fee_of, sig_of; by rewrite E).
  assert (0 <= foldr (fun x n => size_of (mapTx p) x + n) 0 l /\ 0 <= foldr (fun x n => sig_of (mapTx p) x + n) 0 l /\ 0 <= foldr (fun x n => Z.abs (fee_of (mapTx p) x) + n) 0 l) as (P1 & P2 & P3).
  { clear -B. assert (forall x, 0 <= size_of (mapTx p) x /\ 0 <= sig_of (mapTx p) x) as Hp.
    { intros x. unfold size_of, sig_of. destruct (mapTx p !! x) as [e|] eqn:E; cbn; [|lia]. pose proof (bd_entry _ B x e E). lia. }
    induction l as [|x l IH]; cbn; [lia|]. destruct (Hp x). lia. }
  pose proof (bd_entry _ B k e E) as [G1 G2]. rewrite Es, Ef, Eg in *. rewrite checked_in by (unfold in_s; lia). cbn [mbind option_bind].
  rewrite !swrap_small by (unfold in_s; lia). rewrite IH by (lia || by intros; apply Hl; right). by rewrite !Z.add_assoc.
Qed.

(** What a caller of [addUnchecked] sees to. *)
Definition delta_of (p : CTxMemPool) (h : Z) : Z := default 0 (mapDeltas p !! h).

Record addable (p : CTxMemPool) (entry : CTxMemPoolEntry) : Prop := {
  ad_fresh : fresh entry;
  ad_new : e_hash entry ∉ pool p;
  ad_inputs : forall i, i ∈ vin (e_tx entry) -> mapNextTx p !! prevout i = None;
  ad_self : e_hash entry ∉ input_hashes (vin (e_tx entry));
  ad_childless : forall h e, mapTx p !! h = Some e -> e_hash entry ∉ input_hashes (vin (e_tx e));
  ad_delta : in_s 64 (delta_of p (e_hash entry));
  ad_bounded : bounded (<[e_hash entry := set_delta (delta_of p (e_hash entry)) entry]> (mapTx p));
}.

Section OneEntry.
Variable p : CTxMemPool.
Variable entry : CTxMemPoolEntry.
Variable ancs : gset Z.
Hypothesis Hp : consistent p.
Hypothesis Hadd : addable p entry.
Hypothesis Hancs : forall y, y ∈ ancs <-> covered (up p) (pool_parents p (e_tx entry)) ∅ y.

Abbreviation new := (e_hash entry) (only parsing).
Abbreviation pp := (pool_parents p (e_tx entry)) (only parsing).
Abbreviation final := (set_delta (delta_of p (e_hash entry)) entry) (only parsing).

Lemma parents_in_pool : pp ⊆ pool p.
Proof using Type*. unfold pool_parents. set_solver. Qed.

Lemma ancs_in_pool : ancs ⊆ pool p.
Proof using Type*.
  intros y Hy%Hancs. apply (covered_within (up p) _ pp ∅); [|done]. apply within_start; [apply parents_in_pool|]. intros. apply lk_up, Hp.
Qed.

Lemma new_outside : new ∉ ancs /\ up p new = ∅ /\ down p new = ∅.
Proof using Type*.
  pose proof (ad_new _ _ Hadd) as Hn. split; [intros ?%ancs_in_pool; done|]. unfold up, down, links_of.
  assert (mapLinks p !! new = None) as -> by (apply not_elem_of_dom; by rewrite (lk_dom p (cs_linked p Hp))). done.
Qed.

Lemma insert_entry_ok :
  exists e1 lk u, insert_entry node_usage entry p = Some (with_links lk u (with_next (insert_inputs new (vin (e_tx entry)) (mapNextTx p)) (with_tx (<[new := e1]> (mapTx p)) p)))
  /\ core e1 = core final /\ desc_part e1 = (1, nTxSize final, GetModifiedFee final) /\ anc_part e1 = (1, nTxSize final, GetModifiedFee final, sigOpCount final)
  /\ dom lk = {[new]} ∪ pool p /\ (forall x, down_in lk x = down p x) /\ forall x, up_in lk x = up_new p new pp x.
Proof using Type*.
  pose proof (ad_new _ _ Hadd) as Hn. destruct new_outside as (_ & Hu & Hd). unfold insert_entry. pose proof (proj1 (not_elem_of_dom _ _) Hn) as ->.
  assert (mapLinks p !! new = None) as E by (apply not_elem_of_dom; by rewrite (lk_dom p (cs_linked p Hp))). cbn [mapLinks with_tx]. rewrite E.
  destruct (ad_fresh _ _ Hadd) as [F1 F2 F3]. unfold desc_part in F2. injection F2 as F21 F22 F23. unfold anc_part in F3. injection F3 as F31 F32 F33 F34.
  assert (in_s 64 (nFee entry + delta_of p new)) as Hfee.
  { pose proof (bounded_sums _ {[new]} (ad_bounded _ _ Hadd) ltac:(set_solver)) as (_ & Hf & _). rewrite sum_over_singleton in Hf. unfold fee_of in Hf. rewrite lookup_insert_eq in Hf.
    cbn in Hf. unfold GetModifiedFee in Hf. cbn in Hf. unfold in_s. lia. }
  set (q := with_links (<[new := no_links]> (mapLinks p)) (cachedInnerUsage p) (with_tx (<[new := entry]> (mapTx p)) p)).
  assert (exists e1, (match mapDeltas q !! new with Some d => if negb (d =? 0) then modify (UpdateFeeDelta d) new q else Some q | None => Some q end)
      = Some (with_links (<[new := no_links]> (mapLinks p)) (cachedInnerUsage p) (with_tx (<[new := e1]> (mapTx p)) p))
    /\ core e1 = core final /\ desc_part e1 = (1, nTxSize final, GetModifiedFee final) /\ anc_part e1 = (1, nTxSize final, GetModifiedFee final, sigOpCount final))
    as (e1 & E1 & G1 & G2 & G3).
  { assert (delta_of p new = 0 -> core entry = core final /\ desc_part entry = (1, nTxSize final, GetModifiedFee final)
      /\ anc_part entry = (1, nTxSize final, GetModifiedFee final, sigOpCount final)) as Hz.
    { intros ->. unfold core, desc_part, anc_part, GetModifiedFee, set_delta. cbn. rewrite F21, F22, F23, F31, F32, F33, F34, Z.add_0_r. split_and!; [|done|done].
      unfold set_idx, set_anc, set_desc. cbn. by rewrite F1. }
    unfold delta_of in *. change (mapDeltas q) with (mapDeltas p). destruct (mapDeltas p !! new) as [d|] eqn:Ed; cbn [default] in *; [|exists entry; by destruct Hz].
    destruct (Z.eqb_spec d 0) as [->|Hd0]; cbn [negb]; [exists entry; by destruct Hz|].
    pose proof (ad_delta _ _ Hadd) as Hdr. unfold delta_of in Hdr. rewrite Ed in Hdr. cbn in Hdr.
    destruct (UpdateFeeDelta_ok d entry) as (e1 & Ef & K1 & K2 & K3 & K4); [rewrite F1, Z.sub_0_r; done|by rewrite F23, F1, Z.sub_0_r|by rewrite F33, F1, Z.sub_0_r|].
    exists e1. rewrite (modify_ok _ _ _ entry e1) by (done || apply lookup_insert_eq). split_and!; [unfold q; cbn [mapTx with_links with_tx]; by rewrite insert_insert_eq|done| |].
    - rewrite K3, F21, F22, F23, F1, Z.sub_0_r. done.
    - rewrite K4, F31, F32, F33, F34, F1, Z.sub_0_r. done. }
  change (with_links (<[new:=no_links]> (mapLinks p)) (cachedInnerUsage (with_tx (<[new := entry]> (mapTx p)) p)) (with_tx (<[new:=entry]> (mapTx p)) p)) with q.
  rewrite E1. cbn [mbind option_bind].
  match goal with |- context[foldl ?f ?q0 ?l] => destruct (parents_linked new l q0) as (lk & u & -> & D & W & U) end.
  exists e1, lk, u. split; [done|]. split_and!; [done|done|done| | |].
  - rewrite D; cbn; rewrite dom_insert_L; [|set_solver]. by rewrite (lk_dom p (cs_linked p Hp)).
  - intros x. rewrite W. change (down_in (<[new := no_links]> (mapLinks p)) x = down p x). rewrite down_in_insert. case_decide as Hx; [by rewrite Hx, Hd|done].
  - intros x. rewrite U. unfold up_new. match goal with |- context[up ?q0 x] => change (up q0 x) with (up_in (<[new := no_links]> (mapLinks p)) x) end.
    rewrite up_in_insert. case_decide as Hx; [|done]. cbn [mapTx with_next with_links with_tx parents no_links]. rewrite dom_insert_L, set_list_to_set.
    pose proof (ad_self _ _ Hadd). unfold pool_parents. set_solver.
Qed.

(** The sets of the graph with the new entry. *)
Definition down_sets (s : gset Z) (k : Z) : gset Z := if decide (k = new) then {[new]} else (if decide (k ∈ s) then {[new]} else ∅) ∪ closure (down p) (pool p) k.
Definition up_sets (s : gset Z) (k : Z) : gset Z := if decide (k = new) then {[new]} ∪ s else closure (up p) (pool p) k.

Lemma entry_not_new k : k ∈ pool p -> k <> new.
Proof using Type*. intros Hk ->. by apply (ad_new _ _ Hadd). Qed.

(** The pool with the new entry in it, once all counters are brought up to date. *)
Lemma added_consistent p' :
  same core (mapTx p') (<[new := final]> (mapTx p)) -> dom (mapLinks p') = pool p' ->
  (forall x, up p' x = up_new p new pp x) -> (forall x, down p' x = if decide (x ∈ pp) then {[new]} ∪ down p x else down p x) -> indexed p' ->
  desc_counts (mapTx p') (down_sets ancs) (size_of (mapTx p')) (fee_of (mapTx p')) ->
  anc_counts (mapTx p') (up_sets ancs) (size_of (mapTx p')) (fee_of (mapTx p')) (sig_of (mapTx p')) -> consistent p'.
Proof using Type*.
  intros Hc Hd Hup Hdown I Dc Ac. destruct new_outside as (Hna & Hu & Hdn). pose proof (ad_new _ _ Hadd) as Hn. destruct Hp as [Hk L Hps Ha _ _ _].
  pose proof parents_in_pool as Hpp. assert (pool p' = {[new]} ∪ pool p) as Hdom by (rewrite (same_dom _ _ _ Hc); apply dom_insert_L).
  assert (linked p') as L'.
  { constructor; [done| |].
    - intros x y. rewrite Hup, Hdown. unfold up_new. pose proof (lk_sym p L x y) as Hs. pose proof (lk_up p L x). pose proof (linked_down p y L). repeat case_decide; subst; set_solver.
    - intros x. rewrite Hup, Hdom. unfold up_new. pose proof (lk_up p L x). case_decide; set_solver. }
  assert (forall x y, rtc (step (up p')) x y <-> rtc (step (up_new p new pp)) x y) as Hrtc.
  { intros x y. by apply rtc_same. }
  assert (forall k, k ∈ pool p' -> up_sets ancs k = closure (up p') (pool p') k) as Eup.
  { intros k Hkp. apply set_eq. intros y. rewrite ascends, Hrtc by done. unfold up_sets. case_decide as Hkn.
    - subst k. rewrite rtc_tc_iff, up_new_start by done. rewrite <- Hancs. set_solver.
    - assert (k ∈ pool p) by (rewrite Hdom in Hkp; set_solver). rewrite up_new_pool by done. by apply ascends. }
  assert (forall k, k ∈ pool p' -> down_sets ancs k = closure (down p') (pool p') k) as Edown.
  { intros k Hkp. apply set_eq. intros y. rewrite descends by done. rewrite (rtc_reverse (down p') (up p')) by (intros; symmetry; apply (lk_sym p' L')).
    rewrite Hrtc. assert (rtc (step (up_new p new pp)) new k <-> k = new \/ k ∈ ancs) as Hfrom.
    { rewrite rtc_tc_iff, up_new_start, <- Hancs by done. naive_solver. }
    assert (forall z, z <> new -> z ∉ pool p -> rtc (step (up_new p new pp)) z k -> z = k) as Hout.
    { intros z Hz1 Hz2 Hr. apply rtc_tc_iff in Hr as [?|(w & Hw & _)%tc_rtc_iff]; [done|]. exfalso. unfold up_new in Hw. rewrite decide_False in Hw by done.
      apply (lk_sym p L), (linked_down p w L) in Hw. done. }
    unfold down_sets. destruct (decide (y = new)) as [->|Hyn].
    - rewrite Hfrom. destruct (decide (k = new)) as [->|Hkn]; [set_solver|]. assert (new ∉ closure (down p) (pool p) k) as Hnk.
      { assert (k ∈ pool p) by (rewrite Hdom in Hkp; set_solver). intros Hin. apply Hn. by apply (descends_in p L k). }
      destruct (decide (k ∈ ancs)); set_solver.
    - destruct (decide (k = new)) as [->|Hkn].
      + split; [set_solver|]. intros Hr. destruct (decide (y ∈ pool p)) as [Hy|Hy]; [|apply Hout in Hr; set_solver].
        apply up_new_pool in Hr; try done. exfalso. apply Hn. by eapply up_pool.
      + assert (k ∈ pool p) as Hkk by (rewrite Hdom in Hkp; set_solver). destruct (decide (y ∈ pool p)) as [Hy|Hy].
        * rewrite up_new_pool by done. rewrite elem_of_union, descends by done. rewrite (rtc_reverse (down p) (up p)) by (intros; symmetry; apply (lk_sym p L)). case_decide; set_solver.
        * split; [|intros Hr; apply Hout in Hr; [by subst|done|done]]. intros [Hy'|Hy']%elem_of_union; [case_decide; set_solver|]. exfalso. apply Hy. by apply (descends_in p L k). }
  constructor; [|exact L'| | |exact I|exact (bounded_same _ _ (same_sym _ _ _ Hc) (ad_bounded _ _ Hadd))|].
  - intros h e' E. destruct (same_Some _ _ _ _ _ Hc E) as (e & Ee & Hce). unfold e_hash at 1. rewrite <- (core_tx _ _ Hce). apply lookup_insert_Some in Ee as [[<- <-]|[_ Ee]]; [done|]. by apply Hk.
  - intros h e' E. destruct (same_Some _ _ _ _ _ Hc E) as (e & Ee & Hce). rewrite <- (core_tx _ _ Hce). rewrite Hup. unfold up_new, pool_parents. rewrite Hdom.
    apply lookup_insert_Some in Ee as [[<- <-]|[Hne Ee]].
    + rewrite decide_True by done. cbn [e_tx set_delta]. pose proof (ad_self _ _ Hadd). set_solver.
    + rewrite decide_False by done. rewrite (Hps h e Ee). unfold pool_parents. pose proof (ad_childless _ _ Hadd h e Ee). set_solver.
  - intros h Ht. apply (up_new_acyclic p new pp L Hn Hpp Ha h). revert Ht. apply tc_congruence_step. intros a b. unfold step. by rewrite Hup.
  - constructor.
    + eapply desc_counts_ext; [|exact Dc]. intros k Hkp. cbn beta. by rewrite Edown.
    + eapply anc_counts_ext; [|exact Ac]. intros k Hkp. cbn beta. by rewrite Eup.
Qed.

(** The entries with the new one, before the counters change. *)
Section Counting.
Variable e1 : CTxMemPoolEntry.
Hypothesis Hcore : core e1 = core final.
Hypothesis Hdesc : desc_part e1 = (1, nTxSize final, GetModifiedFee final).
Hypothesis Hanc : anc_part e1 = (1, nTxSize final, GetModifiedFee final, sigOpCount final).

Abbreviation m1 := (<[new := e1]> (mapTx p)) (only parsing).
Abbreviation sz := (size_of m1) (only parsing).
Abbreviation fe := (fee_of m1) (only parsing).
Abbreviation sg := (sig_of m1) (only parsing).

Lemma same_final : same core m1 (<[new := final]> (mapTx p)).
Proof using Type*. intros k. destruct (decide (k = new)) as [->|Hk]; [rewrite !lookup_insert_eq; cbn [fmap option_fmap option_map]; by rewrite Hcore|by rewrite !lookup_insert_ne]. Qed.

Lemma new_values : sz new = nTxSize final /\ fe new = GetModifiedFee final /\ sg new = sigOpCount final
  /\ nTxSize e1 = nTxSize final /\ GetModifiedFee e1 = GetModifiedFee final.
Proof using Type*.
  unfold size_of, fee_of, sig_of. rewrite lookup_insert_eq. cbn [fmap option_fmap option_map default]. pose proof Hcore as Hc. unfold core in Hc. injection Hc. intros.
  unfold GetModifiedFee. cbn. split_and!; congruence.
Qed.

Lemma old_sums t : t ⊆ pool p ->
  sum_over sz t = sum_over (size_of (mapTx p)) t /\ sum_over fe t = sum_over (fee_of (mapTx p)) t /\ sum_over sg t = sum_over (sig_of (mapTx p)) t.
Proof using Type*.
  intros Ht. split_and!; apply sum_over_ext; intros x Hx; unfold size_of, fee_of, sig_of; rewrite lookup_insert_ne; try done; intros E; apply (entry_not_new x); auto.
Qed.

Lemma counts_before : desc_counts m1 (down_sets ∅) sz fe /\ anc_counts m1 (up_sets ∅) sz fe sg.
Proof using Type*.
  destruct (cs_accounted p Hp) as [Ad Aa]. destruct new_values as (V1 & V2 & V3 & _). pose proof (cs_linked p Hp) as L.
  split; intros k e [[<- <-]|[Hk E]]%lookup_insert_Some.
  - unfold down_sets. rewrite decide_True by done. rewrite Hdesc, !sum_over_singleton, V1, V2. unfold set_size. by rewrite size_singleton.
  - assert (k ∈ pool p) as Hkp by (apply elem_of_dom; eauto). unfold down_sets. rewrite decide_False by done. rewrite decide_False by set_solver. rewrite union_empty_l_L.
    rewrite (Ad k e E). destruct (old_sums (closure (down p) (pool p) k)) as (-> & -> & _); [by apply descends_in|done].
  - unfold up_sets. rewrite decide_True by done. rewrite union_empty_r_L, Hanc, !sum_over_singleton, V1, V2, V3. unfold set_size. by rewrite size_singleton.
  - assert (k ∈ pool p) as Hkp by (apply elem_of_dom; eauto). unfold up_sets. rewrite decide_False by done.
    rewrite (Aa k e E). destruct (old_sums (closure (up p) (pool p) k)) as (-> & -> & ->); [by apply ascends_in|done].
Qed.

Lemma bounded_new : bounded m1.
Proof using Type*. exact (bounded_same _ _ (same_sym _ _ _ same_final) (ad_bounded _ _ Hadd)). Qed.

Lemma sets_in k : k ∈ dom m1 -> (k ∈ down_sets ancs k /\ down_sets ancs k ⊆ dom m1) /\ (k ∈ up_sets ancs k /\ up_sets ancs k ⊆ dom m1).
Proof using Type*.
  intros Hk. rewrite dom_insert_L in *. pose proof (cs_linked p Hp) as L. pose proof ancs_in_pool as Hap. unfold down_sets, up_sets. case_decide as Hn; [subst; set_solver|].
  assert (k ∈ pool p) as Hkp by set_solver. destruct (descends_in p L k Hkp), (ascends_in p L k Hkp). case_decide; set_solver.
Qed.

Lemma set_bounds (t : gset Z) k : k ∈ t -> t ⊆ dom m1 -> 0 < set_size t < 2 ^ 63 /\ 0 < sum_over sz t < 2 ^ 63 /\ in_s 64 (sum_over fe t) /\ 0 <= sum_over sg t < 2 ^ 31.
Proof using Type*. intros Hk Ht. pose proof (bounded_sums _ _ bounded_new Ht) as (H1 & H2 & H3). pose proof (set_size_pos _ _ Hk). unfold in_s. lia. Qed.

Lemma down_sets_more k : k ∈ ancs -> set_size (down_sets ancs k) = set_size (down_sets ∅ k) + 1
  /\ sum_over sz (down_sets ancs k) = sum_over sz (down_sets ∅ k) + sz new /\ sum_over fe (down_sets ancs k) = sum_over fe (down_sets ∅ k) + fe new.
Proof using Type*.
  intros Hk. pose proof (ancs_in_pool k Hk) as Hkp. pose proof (entry_not_new k Hkp). unfold down_sets. rewrite !(decide_False (P := k = new)) by done. rewrite decide_True by done. rewrite (decide_False (P := k ∈ ∅)) by set_solver. rewrite union_empty_l_L.
  assert (new ∉ closure (down p) (pool p) k) as Hn by (intros Hin; apply (ad_new _ _ Hadd); by apply (descends_in p (cs_linked p Hp) k)).
  rewrite !sum_over_insert, set_size_disj by set_solver. unfold set_size at 1. rewrite size_singleton. lia.
Qed.

Lemma UpdateAncestorsOf_ok lk u nx :
  dom lk = {[new]} ∪ pool p -> (forall x, down_in lk x = down p x) -> (forall x, up_in lk x = up_new p new pp x) ->
  exists m lk' u', UpdateAncestorsOf node_usage true new ancs (with_links lk u (with_next nx (with_tx m1 p))) = Some (with_tx m (with_links lk' u' (with_next nx p)))
  /\ same core m m1 /\ same anc_part m m1 /\ same vTxHashesIdx m m1 /\ desc_counts m (down_sets ancs) sz fe
  /\ dom lk' = {[new]} ∪ pool p /\ (forall x, up_in lk' x = up_new p new pp x) /\ forall x, down_in lk' x = if decide (x ∈ pp) then {[new]} ∪ down p x else down p x.
Proof using Type*.
  intros D W U. set (q := with_links lk u (with_next nx (with_tx m1 p))). unfold UpdateAncestorsOf.
  assert (GetMemPoolParents q new = Some pp) as ->.
  { assert (new ∈ dom lk) as [ln E]%elem_of_dom by set_solver. unfold GetMemPoolParents. cbn [mapLinks q with_links]. rewrite E. cbn. f_equal.
    pose proof (U new) as Hu. unfold up_in, up_new in Hu. rewrite E, decide_True in Hu by done. exact Hu. }
  cbn [mbind option_bind]. destruct (UpdateChild_all node_usage true new (set_list pp) q) as (lk' & u' & -> & D' & U' & W').
  cbn [mapTx with_links q with_next with_tx]. rewrite lookup_insert_eq. cbn [mbind option_bind]. destruct new_values as (V1 & V2 & _ & V4 & V5).
  assert (new ∈ dom m1) as Hnd by (rewrite dom_insert_L; set_solver). destruct (set_bounds {[new]} new) as (_ & B1 & B2 & _); [set_solver|set_solver|]. rewrite sum_over_singleton in B1, B2.
  rewrite V4, V5, <- V1, <- V2, !Z.mul_1_l, swrap_small, checked_in by (done || unfold in_s; lia). cbn [mbind option_bind].
  destruct (update_descendants (set_list ancs) (sz new) (fe new) 1 (with_links lk' u' q) (down_sets ∅) sz fe (down_sets ancs) sz fe) as (m & E & C1 & C2 & C3 & C4).
  - apply NoDup_set_list.
  - intros k Hk%elem_of_set_list. cbn. rewrite dom_insert_L. pose proof (ancs_in_pool k Hk). set_solver.
  - apply counts_before.
  - intros k Hk%elem_of_set_list. split; [by apply down_sets_more|]. destruct (sets_in k) as ((S1 & S2) & _); [rewrite dom_insert_L; pose proof (ancs_in_pool k Hk); set_solver|].
    destruct (set_bounds _ k S1 S2) as (? & ? & ? & _). done.
  - intros k Hk Hns. rewrite elem_of_set_list in Hns. unfold down_sets. rewrite (decide_False (P := k ∈ ancs)) by done. by rewrite (decide_False (P := k ∈ ∅)) by set_solver.
  - exists m, lk', u'. split_and!; [exact E|done|done|done|done| | |].
    + rewrite D', set_list_to_set. cbn. rewrite D. pose proof parents_in_pool. set_solver.
    + intros x. rewrite U'. apply U.
    + intros x. rewrite W'. change (down q x) with (down_in lk x). rewrite W. unfold edit. destruct (decide (x ∈ pp)) as [Hx|Hx].
      * by rewrite decide_True by by apply elem_of_set_list.
      * by rewrite decide_False by by rewrite elem_of_set_list.
Qed.

Lemma foreach_one f k q : foreach f [k] q = f k q.
Proof using. cbn. by destruct (f k q). Qed.

Lemma UpdateEntryForAncestors_ok q :
  same core (mapTx q) m1 -> anc_counts (mapTx q) (up_sets ∅) sz fe sg ->
  exists m, UpdateEntryForAncestors new ancs q = Some (with_tx m q)
  /\ same core m m1 /\ same desc_part m (mapTx q) /\ same vTxHashesIdx m (mapTx q) /\ anc_counts m (up_sets ancs) sz fe sg.
Proof using Type*.
  intros Hc Ha. pose proof (same_dom _ _ _ Hc) as Hdom. destruct (core_sizes _ _ Hc) as (S1 & S2 & S3). pose proof ancs_in_pool as Hap. destruct new_outside as (Hna & _).
  assert (ancs ⊆ dom m1) as Had by (rewrite dom_insert_L; set_solver). assert (new ∈ dom m1) as Hnd by (rewrite dom_insert_L; set_solver).
  pose proof (bounded_same _ _ (same_sym _ _ _ Hc) bounded_new) as B. unfold UpdateEntryForAncestors.
  assert (forall f, foldr (fun x n => f x + n) 0 (set_list ancs) = sum_over f ancs) as Hsum by (intros f; apply sum_list_perm, set_list_perm).
  rewrite entry_sums_ok; rewrite ?Hsum; [| |exact B|lia|lia| | |].
  2: { intros k Hk%elem_of_set_list. rewrite Hdom. by apply Had. }
  2-4: pose proof B as [_ G1 G2 G3]; rewrite Hdom in G1, G2, G3; cbn [Z.abs Z.add].
  2: { assert (forall x, 0 <= size_of (mapTx q) x) as Hpos by (intros x; unfold size_of; destruct (mapTx q !! x) as [e|] eqn:E; cbn; [pose proof (bd_entry _ B x e E)|]; lia).
       pose proof (sum_over_subset (size_of (mapTx q)) ancs (dom m1) Had ltac:(auto)). lia. }
  2: { pose proof (sum_over_subset (fun x => Z.abs (fee_of (mapTx q) x)) ancs (dom m1) Had ltac:(intros; lia)). lia. }
  2: { assert (forall x, 0 <= sig_of (mapTx q) x) as Hpos by (intros x; unfold sig_of; destruct (mapTx q !! x) as [e|] eqn:E; cbn; [pose proof (bd_entry _ B x e E)|]; lia).
       pose proof (sum_over_subset (sig_of (mapTx q)) ancs (dom m1) Had ltac:(auto)). lia. }
  cbn [mbind option_bind]. rewrite !Z.add_0_l, (sum_over_ext (size_of (mapTx q)) sz), (sum_over_ext (fee_of (mapTx q)) fe), (sum_over_ext (sig_of (mapTx q)) sg) by auto.
  destruct (update_ancestors [new] (sum_over sz ancs) (sum_over fe ancs) (set_size ancs) (sum_over sg ancs) q (up_sets ∅) sz fe sg (up_sets ancs) sz fe sg) as (m & E & C1 & C2 & C3 & C4).
  - apply NoDup_singleton.
  - intros k ->%list_elem_of_singleton. by rewrite Hdom.
  - exact Ha.
  - intros k ->%list_elem_of_singleton. destruct (sets_in new Hnd) as (_ & T1 & T2). split; [|by apply (set_bounds _ new)].
    unfold up_sets. rewrite !decide_True by done. rewrite union_empty_r_L, !sum_over_insert, set_size_disj, !sum_over_singleton by set_solver. lia.
  - intros k Hk Hns. rewrite list_elem_of_singleton in Hns. unfold up_sets. by rewrite !decide_False.
  - rewrite foreach_one in E. exists m. split_and!; [exact E|by eapply same_trans|done|done|done].
Qed.

Lemma indexed_new (m : gmap Z CTxMemPoolEntry) lk u :
  same core m m1 -> same vTxHashesIdx m m1 ->
  exists e, m !! new = Some e
  /\ indexed (with_tx (<[new := set_idx (length (vTxHashes p)) e]> m) (with_totals (vTxHashes p ++ [new]) (u64 (totalTxSize p + nTxSize entry)) (u32 (nTransactionsUpdated p + 1))
       (with_links lk u (with_next (insert_inputs new (vin (e_tx entry)) (mapNextTx p)) p)))).
Proof using Type*.
  intros Hc Hi. destruct (cs_indexed p Hp) as [I1 I2 I3 I4]. pose proof (same_trans _ _ _ _ Hc same_final) as Hcf.
  assert (exists e, m !! new = Some e /\ e_tx e = e_tx entry) as (e & E & Et).
  { destruct (same_Some _ _ _ new final (same_sym _ _ _ Hcf) (lookup_insert_eq _ _ _)) as (e & E & Hx). exists e. split; [done|]. by rewrite (core_tx _ _ Hx). }
  exists e. split; [done|]. pose proof (same_dom _ _ _ Hcf) as Hdom. rewrite dom_insert_L in Hdom.
  set (m' := <[new := set_idx (length (vTxHashes p)) e]> m). assert (dom m' = {[new]} ∪ pool p) as Hdom' by (unfold m'; rewrite dom_insert_L; set_solver).
  assert (forall h, h <> new -> e_tx <$> m' !! h = e_tx <$> mapTx p !! h /\ vTxHashesIdx <$> m' !! h = vTxHashesIdx <$> mapTx p !! h) as Hold.
  { intros h Hh. unfold m'. rewrite lookup_insert_ne by done. split; [|by rewrite (Hi h), lookup_insert_ne].
    pose proof (Hc h) as Hch. rewrite lookup_insert_ne in Hch by done. destruct (m !! h), (mapTx p !! h); try done. cbn in *. by rewrite (core_tx _ _ (Some_inj _ _ Hch)). }
  pose proof (ad_new _ _ Hadd) as Hn. constructor; cbn [mapNextTx with_tx with_totals with_links with_next mapTx vTxHashes totalTxSize]; fold m'.
  - intros o h. rewrite insert_inputs_ok by (intros i Hin; left; by apply (ad_inputs _ _ Hadd)). split.
    + case_decide as Ho.
      * intros [= <-]. exists (set_idx (length (vTxHashes p)) e). split; [apply lookup_insert_eq|]. cbn. by rewrite Et.
      * intros (e0 & E0 & Ho0)%I1. assert (h <> new) as Hne by (apply entry_not_new, elem_of_dom; eauto). destruct (Hold h Hne) as [Hx _]. rewrite E0 in Hx.
        destruct (m' !! h) as [e'|]; [|done]. exists e'. split; [done|]. injection Hx as ->. done.
    + intros (e' & E' & Ho). destruct (decide (h = new)) as [->|Hne].
      * unfold m' in E'. rewrite lookup_insert_eq in E'. injection E' as <-. cbn in Ho. rewrite Et in Ho. by rewrite decide_True.
      * destruct (Hold h Hne) as [Hx _]. rewrite E' in Hx. destruct (mapTx p !! h) as [e0|] eqn:E0; [|done]. injection Hx as Hx. rewrite Hx in Ho.
        assert (mapNextTx p !! o = Some h) as Hoh by (apply I1; eauto). rewrite decide_False; [done|]. intros (i & -> & Hin)%list_elem_of_fmap.
        rewrite (ad_inputs _ _ Hadd i Hin) in Hoh. done.
  - intros h e' E'. destruct (decide (h = new)) as [->|Hne].
    + unfold m' in E'. rewrite lookup_insert_eq in E'. injection E' as <-. cbn. by rewrite lookup_app_r, Nat.sub_diag by lia.
    + destruct (Hold h Hne) as [_ Hx]. rewrite E' in Hx. destruct (mapTx p !! h) as [e0|] eqn:E0; [|done]. injection Hx as ->. apply lookup_app_l_Some. by apply I2.
  - rewrite Hdom', elements_disj_union, elements_singleton by set_solver. rewrite I3. by rewrite Permutation_app_comm.
  - assert (forall h, size_of m' h = sz h) as Hs.
    { intros h. destruct (core_sizes _ _ Hc) as (S1 & _). rewrite <- S1. unfold size_of, m'. destruct (decide (h = new)) as [->|]; [by rewrite lookup_insert_eq, E|by rewrite lookup_insert_ne]. }
    rewrite Hdom', (sum_over_ext _ _ _ (fun h _ => Hs h)), sum_over_insert by done. destruct new_values as (-> & _). destruct (old_sums (pool p)) as (Hso & _); [set_solver|].
    pose proof (bounded_sums _ (dom m1) bounded_new ltac:(set_solver)) as (Hb & _). rewrite dom_insert_L, sum_over_insert in Hb by done. destruct new_values as (Hv & _). rewrite Hv in Hb.
    pose proof (bounded_sums _ (pool p) (cs_bounded p Hp) ltac:(set_solver)) as (Hb2 & _). pose proof (bd_entry _ (ad_bounded _ _ Hadd) new final (lookup_insert_eq _ _ _)) as [Hpos _].
    rewrite Hso in *. rewrite I4. cbn in *. rewrite u64_id by (unfold set_size in *; lia). lia.
Qed.

End Counting.

Lemma addUnchecked_ok :
  exists p', addUnchecked node_usage entry ancs p = Some p' /\ consistent p' /\ same core (mapTx p') (<[new := final]> (mapTx p))
  /\ (forall x, up p' x = up_new p new pp x) /\ mapDeltas p' = mapDeltas p.
Proof using Type*.
  destruct insert_entry_ok as (e1 & lk & u & E1 & G1 & G2 & G3 & D & W & U). unfold addUnchecked. rewrite E1. cbn [mbind option_bind].
  destruct (UpdateAncestorsOf_ok e1 G1 G2 G3 lk u (insert_inputs new (vin (e_tx entry)) (mapNextTx p)) D W U) as (m2 & lk2 & u2 & E2 & C2 & A2 & X2 & D2 & Dl & Ul & Wl). rewrite E2. cbn [mbind option_bind].
  destruct (UpdateEntryForAncestors_ok e1 G1 G2 G3 (with_tx m2 (with_links lk2 u2 (with_next (insert_inputs new (vin (e_tx entry)) (mapNextTx p)) p)))) as (m3 & E3 & C3 & A3 & X3 & D3); [done|by eapply anc_counts_same; [apply same_sym|apply counts_before]|].
  rewrite E3. cbn [mbind option_bind]. pose proof (same_trans _ _ _ _ X3 X2) as Hi. destruct (indexed_new e1 G1 G2 G3 m3 lk2 u2 C3 Hi) as (e & E & I).
  rewrite (modify_ok _ _ _ e (set_idx (length (vTxHashes p)) e)); [|done|cbn; rewrite length_app; cbn; do 2 f_equal; lia].
  eexists. split; [reflexivity|]. cbn [mapTx with_tx mapDeltas with_totals with_links with_next].
  assert (forall A (f : CTxMemPoolEntry -> A), no_idx f -> same f (<[new := set_idx (length (vTxHashes p)) e]> m3) m3) as Hidx.
  { intros A f Hf k. destruct (decide (k = new)) as [->|]; [rewrite lookup_insert_eq, E; cbn; by rewrite Hf|by rewrite lookup_insert_ne]. }
  pose proof (same_trans _ _ _ _ (Hidx _ core ltac:(done)) C3) as Hc. pose proof (same_trans _ _ _ _ Hc (same_final e1 G1 G2 G3)) as Hcf. destruct (core_sizes _ _ Hc) as (S1 & S2 & S3).
  split_and!; [|exact Hcf|exact Ul|done].
  apply added_consistent; cbn [mapTx with_tx mapDeltas with_totals with_links with_next mapLinks]; [exact Hcf| |exact Ul|exact Wl|exact I| |].
  - rewrite Dl, (same_dom _ _ _ Hcf), dom_insert_L. done.
  - apply (desc_counts_same m2).
    + apply (same_trans _ _ m3); [by apply same_sym|]. by apply same_sym, Hidx.
    + eapply desc_counts_ext; [|exact D2]. intros k _. split_and!; [done|apply sum_over_ext; intros; by rewrite S1|apply sum_over_ext; intros; by rewrite S2].
  - apply (anc_counts_same m3); [by apply same_sym, Hidx|].
    eapply anc_counts_ext; [|exact D3]. intros k _. split_and!; [done|apply sum_over_ext; intros; by rewrite S1|apply sum_over_ext; intros; by rewrite S2|apply sum_over_ext; intros; by rewrite S3].
Qed.


End OneEntry.

(** ** Lemmas: fee deltas *)

Lemma sum_over_change f g h n s : (forall x, x <> h -> g x = f x) -> g h = f h + n -> sum_over g s = sum_over f s + (if decide (h ∈ s) then n else 0).
Proof.
  intros Hx Hh. case_decide as Hin.
  - rewrite !(sum_over_delete _ h s Hin), Hh, (sum_over_ext g f) by (intros x ?; apply Hx; set_solver). lia.
  - rewrite (sum_over_ext g f) by (intros x ?; apply Hx; congruence). lia.
Qed.

Lemma UpdateDescendantState_fee n e p t :
  bounded (mapTx p) -> t ⊆ pool p -> t <> ∅ -> desc_part e = (set_size t, sum_over (size_of (mapTx p)) t, nModFeesWithDescendants e) -> in_s 64 (nModFeesWithDescendants e + n) ->
  UpdateDescendantState 0 n 0 e = Some (set_desc (nCountWithDescendants e) (nSizeWithDescendants e) (nModFeesWithDescendants e + n) e).
Proof.
  intros B Ht [x Hx]%set_choose_L Hd Hn. pose proof (bounded_sums _ _ B Ht) as (Hs & _). pose proof (set_size_pos _ _ Hx). unfold desc_part in Hd. injection Hd as E1 E2.
  rewrite UpdateDescendantState_ok by (rewrite ?E1, ?E2; (done || lia)). by rewrite !Z.add_0_r.
Qed.

Lemma UpdateAncestorState_fee n e p t :
  bounded (mapTx p) -> t ⊆ pool p -> t <> ∅ -> anc_part e = (set_size t, sum_over (size_of (mapTx p)) t, nModFeesWithAncestors e, sum_over (sig_of (mapTx p)) t) ->
  in_s 64 (nModFeesWithAncestors e + n) ->
  UpdateAncestorState 0 n 0 0 e = Some (set_anc (nCountWithAncestors e) (nSizeWithAncestors e) (nModFeesWithAncestors e + n) (nSigOpCountWithAncestors e) e).
Proof.
  intros B Ht [x Hx]%set_choose_L Hd Hn. pose proof (bounded_sums _ _ B Ht) as (Hs & _ & Hg). pose proof (set_size_pos _ _ Hx). unfold anc_part in Hd. injection Hd as E1 E2 E3.
  rewrite UpdateAncestorState_ok by (rewrite ?E1, ?E2, ?E3; (done || lia)). by rewrite !Z.add_0_r.
Qed.

Section Prioritise.
Variable p : CTxMemPool.
Variable h n : Z.
Variable e : CTxMemPoolEntry.
Hypothesis Hp : consistent p.
Hypothesis He : mapTx p !! h = Some e.
(** The delta of the entry is the recorded one. *)
Hypothesis Hdelta : feeDelta e = delta_of p h.
Hypothesis Hn : in_s 64 n.
Hypothesis Hsum : in_s 64 (delta_of p h + n).
Hypothesis Hbound : bounded (<[h := set_delta (delta_of p h + n) e]> (mapTx p)).

Abbreviation final := (<[h := set_delta (delta_of p h + n) e]> (mapTx p)) (only parsing).
Abbreviation dd := (closure (down p) (pool p)) (only parsing).
Abbreviation aa := (closure (up p) (pool p)) (only parsing).

Lemma final_sums t :
  sum_over (size_of final) t = sum_over (size_of (mapTx p)) t /\ sum_over (sig_of final) t = sum_over (sig_of (mapTx p)) t
  /\ sum_over (fee_of final) t = sum_over (fee_of (mapTx p)) t + (if decide (h ∈ t) then n else 0).
Proof using Type*.
  assert (forall x, size_of final x = size_of (mapTx p) x /\ sig_of final x = sig_of (mapTx p) x) as Hs.
  { intros x. unfold size_of, sig_of. destruct (decide (x = h)) as [->|]; [by rewrite lookup_insert_eq, He|by rewrite lookup_insert_ne]. }
  split_and!; [apply sum_over_ext; intros; apply Hs|apply sum_over_ext; intros; apply Hs|]. apply sum_over_change.
  - intros x Hx. unfold fee_of. by rewrite lookup_insert_ne.
  - unfold fee_of. rewrite lookup_insert_eq, He. cbn. unfold GetModifiedFee. cbn. lia.
Qed.

Lemma in_final k : k ∈ pool p -> k ∈ dom final.
Proof using Type*. intros Hk. rewrite dom_insert_L. set_solver. Qed.

Lemma pool_final : dom final = pool p.
Proof using Type*. apply dom_insert_lookup_L. eauto. Qed.

Lemma fee_bounds t : t ⊆ pool p -> in_s 64 (sum_over (fee_of (mapTx p)) t + (if decide (h ∈ t) then n else 0)).
Proof using Type*.
  intros Ht. destruct (final_sums t) as (_ & _ & <-). pose proof (bounded_sums _ t Hbound ltac:(intros x Hx; by apply in_final, Ht)) as (_ & Hf & _). unfold in_s. lia.
Qed.

(** The entries once the delta, the counters for descendants and those for ancestors have changed. *)
Definition reprioritised (k : Z) (e0 : CTxMemPoolEntry) : CTxMemPoolEntry :=
  set_delta (if decide (k = h) then delta_of p h + n else feeDelta e0)
    (set_anc (nCountWithAncestors e0) (nSizeWithAncestors e0) (nModFeesWithAncestors e0 + (if decide (h ∈ aa k) then n else 0)) (nSigOpCountWithAncestors e0)
      (set_desc (nCountWithDescendants e0) (nSizeWithDescendants e0) (nModFeesWithDescendants e0 + (if decide (h ∈ dd k) then n else 0)) e0)).

Lemma above_h k : k ∈ pool p -> h ∈ dd k <-> k = h \/ tc (step (up p)) h k.
Proof using Type*.
  intros Hk. rewrite descends by (done || apply Hp). rewrite (rtc_reverse (down p) (up p)) by (intros; symmetry; apply (lk_sym p (cs_linked p Hp))). rewrite rtc_tc_iff. naive_solver.
Qed.

Lemma below_h k : k ∈ pool p -> h ∈ aa k <-> k = h \/ rtc (step (down p)) h k.
Proof using Type*.
  intros Hk. rewrite ascends by (done || apply Hp). rewrite (rtc_reverse (up p) (down p)) by apply (lk_sym p (cs_linked p Hp)). split; [tauto|]. by intros [->|].
Qed.

Lemma entry_parts k e0 : mapTx p !! k = Some e0 ->
  k ∈ pool p /\ (dd k ⊆ pool p /\ dd k <> ∅ /\ desc_part e0 = (set_size (dd k), sum_over (size_of (mapTx p)) (dd k), nModFeesWithDescendants e0)
    /\ nModFeesWithDescendants e0 = sum_over (fee_of (mapTx p)) (dd k))
  /\ (aa k ⊆ pool p /\ aa k <> ∅ /\ anc_part e0 = (set_size (aa k), sum_over (size_of (mapTx p)) (aa k), nModFeesWithAncestors e0, sum_over (sig_of (mapTx p)) (aa k))
    /\ nModFeesWithAncestors e0 = sum_over (fee_of (mapTx p)) (aa k)).
Proof using Type*.
  intros E. assert (k ∈ pool p) as Hk by (apply elem_of_dom; eauto). pose proof (cs_linked p Hp) as L. destruct (cs_accounted p Hp) as [Ad Aa].
  pose proof (Ad k e0 E) as Hd. pose proof (Aa k e0 E) as Ha. unfold desc_part, anc_part in *. injection Hd as D1 D2 D3. injection Ha as A1 A2 A3 A4.
  destruct (descends_in p L k Hk), (ascends_in p L k Hk). split_and!; try done; try set_solver; congruence.
Qed.

Lemma desc_step k e0 : mapTx p !! k = Some e0 -> h ∈ dd k ->
  UpdateDescendantState 0 n 0 e0 = Some (set_desc (nCountWithDescendants e0) (nSizeWithDescendants e0) (nModFeesWithDescendants e0 + n) e0).
Proof using Type*.
  intros E Hk. destruct (entry_parts k e0 E) as (_ & (K1 & K2 & K3 & K4) & _). apply (UpdateDescendantState_fee n e0 p (dd k)); try done; [apply Hp|].
  rewrite K4. pose proof (fee_bounds _ K1) as Hb. by rewrite decide_True in Hb.
Qed.

Lemma anc_step k e0 : mapTx p !! k = Some e0 -> h ∈ aa k ->
  UpdateAncestorState 0 n 0 0 e0 = Some (set_anc (nCountWithAncestors e0) (nSizeWithAncestors e0) (nModFeesWithAncestors e0 + n) (nSigOpCountWithAncestors e0) e0).
Proof using Type*.
  intros E Hk. destruct (entry_parts k e0 E) as (_ & _ & K1 & K2 & K3 & K4). apply (UpdateAncestorState_fee n e0 p (aa k)); try done; [apply Hp|].
  rewrite K4. pose proof (fee_bounds _ K1) as Hb. by rewrite decide_True in Hb.
Qed.

Lemma reprioritised_self k e0 : k <> h -> h ∉ dd k -> h ∉ aa k -> reprioritised k e0 = e0.
Proof using. intros H1 H2 H3. unfold reprioritised. rewrite !decide_False by done. rewrite !Z.add_0_r. by destruct e0. Qed.

(** The three updates together. *)
Lemma prioritise_entries q :
  mapTx q = mapTx p -> mapLinks q = mapLinks p ->
  exists m, (p1 ← modify (UpdateFeeDelta (delta_of p h + n)) h q;
             e1 ← mapTx p1 !! h;
             '(setAncestors, _) ← CalculateMemPoolAncestors p1 e1 ∅ no_limits false;
             p2 ← foreach (modify (UpdateDescendantState 0 n 0)) (set_list setAncestors) p1;
             setDescendants ← CalculateDescendants p2 h ∅;
             foreach (modify (UpdateAncestorState 0 n 0 0)) (set_list (setDescendants ∖ {[h]})) p2) = Some (with_tx m q)
  /\ forall k, m !! k = reprioritised k <$> mapTx p !! k.
Proof using Type*.
  intros Et El. pose proof (cs_linked p Hp) as L. destruct (entry_parts h e He) as (Hh & (D1 & D2 & D3 & D4) & A1 & A2 & A3 & A4).
  assert (h ∈ dd h /\ h ∈ aa h) as [Hd Ha] by (split; [apply above_h|apply below_h]; tauto).
  pose proof (fee_bounds _ D1) as Bd. pose proof (fee_bounds _ A1) as Ba. rewrite decide_True in Bd by done. rewrite decide_True in Ba by done. rewrite <- D4 in Bd. rewrite <- A4 in Ba.
  set (e1 := reprioritised h e). set (q1 := with_tx (<[h := e1]> (mapTx q)) q).
  assert (modify (UpdateFeeDelta (delta_of p h + n)) h q = Some q1) as ->.
  { apply (modify_ok _ _ _ e); [by rewrite Et|]. unfold UpdateFeeDelta. rewrite Hdelta. replace (delta_of p h + n - delta_of p h) with n by lia. rewrite !checked_in by done. cbn [mbind option_bind].
    rewrite !checked_in by done. cbn [mbind option_bind]. unfold e1, reprioritised. by rewrite !decide_True. }
  cbn [mbind option_bind]. assert (mapTx q1 !! h = Some e1) as -> by (cbn; apply lookup_insert_eq). cbn [mbind option_bind].
  assert (forall x, up q1 x = up p x) as Hup by (intros x; unfold up, links_of; cbn; by rewrite El).
  assert (forall x, down q1 x = down p x) as Hdown by (intros x; unfold down, links_of; cbn; by rewrite El).
  assert (pool q1 = pool p) as Hdom by (cbn; rewrite Et; apply dom_insert_lookup_L; eauto).
  assert (linked q1) as L1.
  { constructor; [cbn [mapLinks q1 with_tx]; by rewrite El, (lk_dom p L)|intros; rewrite Hup, Hdown; apply (lk_sym p L)|intros x; rewrite Hup, Hdom; apply (lk_up p L)]. }
  set (t := aa h ∖ {[h]}). assert (forall y, y ∈ t <-> tc (step (up p)) h y) as Ht.
  { intros y. unfold t. rewrite elem_of_difference, elem_of_singleton, ascends, rtc_tc_iff by done. split; [intros [[->|?] ?]; done|]. intros Hy. split; [by right|].
    intros ->. by apply (cs_acyclic p Hp h). }
  assert (small_pool q1 (nTxSize e1)) as Hsmall.
  { assert (small_pool p (nTxSize e)) as [S1 S2 S3].
    { apply (bounded_small p dd); [apply Hp|by apply descends_in|apply Hp|]. assert ({[h]} ⊆ pool p) as Hsub by (by apply singleton_subseteq_l).
      pose proof (bounded_sums _ _ (cs_bounded p Hp) Hsub) as (Hb & _).
      rewrite sum_over_singleton in Hb. unfold size_of in Hb. rewrite He in Hb. cbn in Hb. pose proof (bd_entry _ (cs_bounded p Hp) h e He). lia. }
    constructor; [| |exact S3].
    - intros x ex Ex. cbn in Ex. rewrite Et in Ex. apply lookup_insert_Some in Ex as [[<- <-]|[_ Ex]]; [exact (S1 h e He)|by apply (S1 x)].
    - rewrite Hdom. rewrite (sum_over_ext _ (size_of (mapTx p))); [done|]. intros x _. unfold size_of. cbn. rewrite Et. destruct (decide (x = h)) as [->|]; [by rewrite lookup_insert_eq, He|by rewrite lookup_insert_ne]. }
  rewrite (ancestors_unlimited q1 h e1 t (linked_up_ok _ L1) Hsmall); [|by rewrite Hdom|exact (cs_key p Hp h e He)|].
  2: { intros y. rewrite Ht. split; apply tc_congruence_step; intros a b; unfold step; by rewrite Hup. }
  cbn [mbind option_bind].
  assert (forall k, k ∈ t -> k <> h /\ k ∈ pool p /\ h ∈ dd k) as Hin.
  { intros k Hk. assert (k <> h /\ k ∈ pool p) as [? ?] by (unfold t in Hk; set_solver). split_and!; try done. apply above_h; [done|]. right. by apply Ht. }
  destruct (foreach_modify (UpdateDescendantState 0 n 0) (set_list t) q1 (NoDup_set_list t)) as (m2 & -> & M2).
  { intros k Hk%elem_of_set_list. destruct (Hin k Hk) as (Hkh & [ek Ek]%elem_of_dom & Hhk). cbn. rewrite Et, lookup_insert_ne by done. eexists ek, _. split; [done|]. by apply (desc_step k). }
  cbn [mbind option_bind]. set (q2 := with_tx m2 q1).
  assert (forall k e0, k <> h -> mapTx p !! k = Some e0 -> m2 !! k = Some (if decide (k ∈ t) then set_desc (nCountWithDescendants e0) (nSizeWithDescendants e0) (nModFeesWithDescendants e0 + n) e0 else e0)) as M2'.
  { intros k e0 Hkh Ek. rewrite M2. cbn. rewrite Et, lookup_insert_ne by done. rewrite Ek. destruct (decide (k ∈ t)) as [Hk|Hk].
    - rewrite decide_True by by apply elem_of_set_list. cbn. apply (desc_step k); [done|by apply Hin].
    - by rewrite decide_False by by rewrite elem_of_set_list. }
  assert (m2 !! h = Some e1) as M2h by (rewrite M2, decide_False by (rewrite elem_of_set_list; intros Hk; by destruct (Hin h Hk)); cbn; apply lookup_insert_eq).
  assert (dom m2 = pool p) as Hdom2.
  { apply set_eq. intros k. destruct (decide (k = h)) as [->|Hkh]; [rewrite elem_of_dom, M2h; split; [done|eauto]|]. rewrite !elem_of_dom. split.
    - rewrite M2. cbn. rewrite Et, lookup_insert_ne by done. destruct (mapTx p !! k); [eauto|]. case_decide; by intros [].
    - intros [e0 Ek]. rewrite (M2' k e0 Hkh Ek). eauto. }
  assert (linked q2) as L2.
  { destruct L1 as [L11 L12 L13]. constructor; [cbn [mapLinks mapTx q2 with_tx] in *; by rewrite Hdom2, <- Hdom|exact L12|intros x; cbn [mapTx q2 with_tx]; rewrite Hdom2, <- Hdom; apply L13]. }
  destruct (CalculateDescendants_ok q2 h ∅ L2) as (s & -> & Hs); [cbn [mapTx q2 with_tx]; by rewrite Hdom2|set_solver|set_solver|]. cbn [mbind option_bind].
  assert (forall k, k ∈ s ∖ {[h]} <-> k <> h /\ rtc (step (down p)) h k) as Hs'.
  { intros k. rewrite elem_of_difference, elem_of_singleton, Hs. assert (rtc (step (down q2)) h k <-> rtc (step (down p)) h k) as ->.
    { apply rtc_same. intros a. exact (Hdown a). }
    set_solver. }
  assert (forall k, k ∈ s ∖ {[h]} -> k <> h /\ k ∈ pool p /\ h ∈ aa k /\ k ∉ t) as Hin2.
  { intros k [Hkh Hr]%Hs'. assert (k ∈ pool p) as Hkp by (apply (descends_in p L h Hh); by apply descends). split_and!; [done|done|apply below_h; tauto|].
    intros Hk%Ht. apply (rtc_reverse (down p) (up p)) in Hr; [|intros; symmetry; apply (lk_sym p L)]. apply rtc_tc_iff in Hr as [Hr|Hr]; [done|].
    apply (cs_acyclic p Hp h). by eapply tc_transitive. }
  destruct (foreach_modify (UpdateAncestorState 0 n 0 0) (set_list (s ∖ {[h]})) q2 (NoDup_set_list _)) as (m3 & -> & M3).
  { intros k Hk%elem_of_set_list. destruct (Hin2 k Hk) as (Hkh & [ek Ek]%elem_of_dom & Hhk & Hkt). cbn. rewrite (M2' k ek Hkh Ek), decide_False by done. eexists ek, _. split; [done|]. by apply (anc_step k). }
  exists m3. split; [done|]. intros k. rewrite M3. cbn [mapTx q2 with_tx].
  destruct (decide (k = h)) as [->|Hkh].
  { rewrite decide_False by (rewrite elem_of_set_list, Hs'; tauto). by rewrite M2h, He. }
  destruct (mapTx p !! k) as [e0|] eqn:Ek; cbn [fmap option_fmap option_map].
  2: { assert (m2 !! k = None) as -> by (apply not_elem_of_dom; rewrite Hdom2; by apply not_elem_of_dom). by case_decide. }
  assert (k ∈ pool p) as Hkp by (apply elem_of_dom; eauto). rewrite (M2' k e0 Hkh Ek). destruct (decide (k ∈ set_list (s ∖ {[h]}))) as [Hk|Hk].
  - apply elem_of_set_list in Hk. destruct (Hin2 k Hk) as (_ & _ & Hhk & Hkt). rewrite decide_False by done. cbn [mbind option_bind]. rewrite (anc_step k) by done.
    f_equal. unfold reprioritised. rewrite (decide_False (P := k = h)), (decide_True (P := h ∈ aa k)) by done. rewrite decide_False; [by destruct e0; cbn; rewrite Z.add_0_r|]. rewrite above_h by done. rewrite <- Ht. tauto.
  - rewrite elem_of_set_list, Hs' in Hk. assert (h ∉ aa k) as Hhk by (rewrite below_h by done; tauto). f_equal. destruct (decide (k ∈ t)) as [Hkt|Hkt].
    + unfold reprioritised. rewrite (decide_False (P := k = h)), (decide_False (P := h ∈ aa k)) by done. rewrite decide_True by by apply Hin. by destruct e0; cbn; rewrite Z.add_0_r.
    + symmetry. apply reprioritised_self; try done. rewrite above_h by done. rewrite <- Ht. tauto.
Qed.

Lemma reprioritised_consistent p' :
  (forall k, mapTx p' !! k = reprioritised k <$> mapTx p !! k) -> mapLinks p' = mapLinks p -> mapNextTx p' = mapNextTx p -> vTxHashes p' = vTxHashes p ->
  totalTxSize p' = totalTxSize p -> same core (mapTx p') final /\ consistent p'.
Proof using Type*.
  intros Hm El En Ev Es. assert (same core (mapTx p') final) as Hc.
  { intros k. rewrite Hm. destruct (decide (k = h)) as [->|Hk].
    - rewrite lookup_insert_eq, He. cbn [fmap option_fmap option_map]. f_equal. unfold reprioritised. by rewrite (decide_True (P := h = h)).
    - rewrite lookup_insert_ne by done. destruct (mapTx p !! k) as [e0|]; [|done]. cbn [fmap option_fmap option_map]. f_equal. unfold reprioritised. rewrite (decide_False (P := k = h)) by done. by destruct e0. }
  split; [done|]. pose proof (same_dom _ _ _ Hc) as Hdom. rewrite pool_final in Hdom.
  destruct Hp as [Hk [L1 L2 L3] Hps Ha [I1 I2 I3 I4] B _]. destruct (core_sizes _ _ Hc) as (S1 & S2 & S3).
  assert (forall x, up p' x = up p x) as Hup by (intros x; unfold up, links_of; by rewrite El).
  assert (forall x, down p' x = down p x) as Hdown by (intros x; unfold down, links_of; by rewrite El).
  assert (forall k e', mapTx p' !! k = Some e' -> exists e0, mapTx p !! k = Some e0 /\ e' = reprioritised k e0) as Hof.
  { intros k e' E. rewrite Hm in E. apply fmap_Some in E as (e0 & ? & ->). eauto. }
  assert (linked p') as L' by (constructor; [by rewrite El, L1|intros; rewrite Hup, Hdown; apply L2|intros x; rewrite Hup, Hdom; apply L3]).
  assert (forall k, k ∈ pool p -> closure (down p') (pool p') k = dd k /\ closure (up p') (pool p') k = aa k) as Hcl.
  { intros k Hkp. split; apply set_eq; intros y.
    - rewrite !descends by (done || by rewrite Hdom). by apply rtc_same.
    - rewrite !ascends by (done || by rewrite Hdom). by apply rtc_same. }
  constructor.
  - intros k e' (e0 & E0 & ->)%Hof. exact (Hk k e0 E0).
  - exact L'.
  - intros k e' (e0 & E0 & ->)%Hof. rewrite Hup, (Hps k e0 E0). unfold pool_parents. by rewrite Hdom.
  - intros k Ht. apply (Ha k). revert Ht. apply tc_congruence_step. intros a b. unfold step. by rewrite Hup.
  - constructor.
    + intros o k. rewrite En, I1. split; [intros (e0 & E0 & Ho)|intros (e' & (e0 & E0 & ->)%Hof & Ho)].
      * exists (reprioritised k e0). by rewrite Hm, E0.
      * by exists e0.
    + intros k e' (e0 & E0 & ->)%Hof. rewrite Ev. exact (I2 k e0 E0).
    + by rewrite Ev, Hdom.
    + rewrite Es, Hdom, I4. destruct (final_sums (pool p)) as (Hs & _). rewrite <- Hs. apply sum_over_ext. intros. by rewrite S1.
  - exact (bounded_same _ _ (same_sym _ _ _ Hc) Hbound).
  - assert (forall t, sum_over (size_of (mapTx p')) t = sum_over (size_of (mapTx p)) t /\ sum_over (sig_of (mapTx p')) t = sum_over (sig_of (mapTx p)) t
      /\ sum_over (fee_of (mapTx p')) t = sum_over (fee_of (mapTx p)) t + (if decide (h ∈ t) then n else 0)) as Hsums.
    { intros t. destruct (final_sums t) as (<- & <- & <-). split_and!; apply sum_over_ext; auto. }
    constructor.
    + intros k e' (e0 & E0 & ->)%Hof. destruct (entry_parts k e0 E0) as (Hkp & (_ & _ & D1 & D2) & _). destruct (Hcl k Hkp) as [-> _]. destruct (Hsums (dd k)) as (-> & _ & ->).
      unfold desc_part in *. injection D1 as D3 D4. unfold reprioritised. cbn. by rewrite D3, D4, D2.
    + intros k e' (e0 & E0 & ->)%Hof. destruct (entry_parts k e0 E0) as (Hkp & _ & _ & _ & D1 & D2). destruct (Hcl k Hkp) as [_ ->]. destruct (Hsums (aa k)) as (-> & -> & ->).
      unfold anc_part in *. injection D1 as D3 D4 D5. unfold reprioritised. cbn. by rewrite D3, D4, D5, D2.
Qed.

Lemma PrioritiseTransaction_ok :
  exists p', PrioritiseTransaction h n p = Some p' /\ consistent p' /\ same core (mapTx p') final /\ mapDeltas p' = <[h := delta_of p h + n]> (mapDeltas p).
Proof using Type*.
  unfold PrioritiseTransaction. fold (delta_of p h). rewrite checked_in by done. cbn [mbind option_bind]. set (q := with_deltas _ p).
  destruct (prioritise_entries q eq_refl eq_refl) as (m & E & Hm). cbn [mapTx q with_deltas]. rewrite He.
  destruct (modify _ h q) as [p1|]; cbn [mbind option_bind] in E |- *; [|done]. destruct (mapTx p1 !! h) as [e1|]; cbn [mbind option_bind] in E |- *; [|done].
  destruct (CalculateMemPoolAncestors p1 e1 ∅ no_limits false) as [[t r]|]; cbn [mbind option_bind] in E |- *; [|done].
  destruct (foreach _ (set_list t) p1) as [p2|]; cbn [mbind option_bind] in E |- *; [|done]. destruct (CalculateDescendants p2 h ∅) as [s|]; cbn [mbind option_bind] in E |- *; [|done].
  rewrite E. cbn [mbind option_bind]. eexists. split; [reflexivity|].
  match goal with |- consistent ?p0 /\ _ => destruct (reprioritised_consistent p0) as [Hc C]; try done end.
Qed.

End Prioritise.

End Adding.
