(* ===== verification/MempoolProps.v ===== *)
(** * Properties of the memory pool

    The pool of [Mempool] stays consistent: every entry's counters are the numbers, sizes and fees of its descendants
    and ancestors in the graph of the inputs.  Theorems for accepting with limits on packages, removing, connecting a
    block, trimming and prioritising, and a pool of three transactions on which they are witnessed. *)

From stdpp Require Import gmap relations.
From S2P Require Import Transaction TxVerify Graph Mempool MempoolRemove MempoolAdd Prelude.

(** ** A pool of three transactions *)

(** The sets of the witnesses are gone through in the order of their keys. *)
#[local] Instance by_elements : SetOrder.
Proof. by exists elements. Defined.

Definition empty_pool : CTxMemPool :=
  {| mapTx := ∅; mapLinks := ∅; mapNextTx := ∅; mapDeltas := {[2 := 50]}; vTxHashes := []; totalTxSize := 0; cachedInnerUsage := 0; nTransactionsUpdated := 0 |}.

Definition pay (h : Z) (ins : list (Z * Z)) : CTransaction :=
  {| tx_nVersion := 1; vin := map (fun i => {| prevout := {| op_hash := i.1; op_n := i.2 |}; scriptSig := []; nSequence := SEQUENCE_FINAL |}) ins;
     vout := [CTxOut_make 10 []]; nLockTime := 0; tx_hash := h |}.

(** Transaction 2 spends 1, transaction 3 spends an output that is not in the pool; 2 has a fee delta. *)
Definition entry_of (tx : CTransaction) : CTxMemPoolEntry :=
  CTxMemPoolEntry_make tx (100 * tx_hash tx) (tx_hash tx) 10 false 1 {| lp_height := 0; lp_time := 0; maxInputBlock := None |} 200 300.
Definition tx1 : CTransaction := pay 1 [(77, 0)].
Definition tx2 : CTransaction := pay 2 [(1, 0)].
Definition tx3 : CTransaction := pay 3 [(78, 0)].

Definition pool1 : CTxMemPool := default empty_pool (addUnchecked_alone 48 (entry_of tx1) empty_pool).
Definition pool2 : CTxMemPool := default empty_pool (addUnchecked_alone 48 (entry_of tx2) pool1).
Definition pool3 : CTxMemPool := default empty_pool (addUnchecked_alone 48 (entry_of tx3) pool2).

Example pool3_hashes : vTxHashes pool3 = [1; 2; 3] /\ totalTxSize pool3 = 600.
Proof. by vm_compute. Qed.

Example pool3_counts : desc_part <$> mapTx pool3 !! 1 = Some (2, 400, 350) /\ anc_part <$> mapTx pool3 !! 2 = Some (2, 400, 350, 2).
Proof. by vm_compute. Qed.

Lemma empty_consistent : consistent empty_pool.
Proof.
  constructor; [done| |done| |constructor|constructor|constructor].
  - constructor; [done|split; by intros ?%elem_of_empty|set_solver].
  - intros h [z [?%elem_of_empty _]]%tc_rtc_iff. done.
  - intros o h. split; [done|by intros (e & ? & _)].
  - done.
  - done.
  - done.
  - done.
  - done.
  - done.
  - done.
  - done.
  - done.
Qed.

(** ** Accepting *)

Section Props.
Context `{SetOrder}.
Variable node_usage : Z.

Lemma small_of_consistent p n : consistent p -> 0 < n < 2 ^ 63 -> small_pool p n.
Proof. intros C Hn. apply (bounded_small p (closure (down p) (pool p))); [apply C|apply descends_in, C|apply C|done]. Qed.

Lemma ancestors_exist p tx : consistent p -> exists t : gset Z, forall y, y ∈ t <-> covered (up p) (pool_parents p tx) ∅ y.
Proof.
  intros C. apply (covered_exists (up p) (pool p)); [apply worklist_start|]. apply within_start; [unfold pool_parents; set_solver|]. intros. apply lk_up, C.
Qed.

Lemma addable_size p entry : addable p entry -> 0 < nTxSize entry < 2 ^ 63.
Proof.
  intros A. pose proof (ad_bounded _ _ A) as B. pose proof (bd_entry _ B (e_hash entry) _ (lookup_insert_eq _ _ _)) as [Hpos _].
  assert ({[e_hash entry]} ⊆ dom (<[e_hash entry := set_delta (delta_of p (e_hash entry)) entry]> (mapTx p))) as Hs by (apply singleton_subseteq_l; rewrite dom_insert_L; set_solver).
  pose proof (bounded_sums _ _ B Hs) as (Hb & _). rewrite sum_over_singleton in Hb. unfold size_of in Hb. rewrite lookup_insert_eq in Hb. cbn in *. lia.
Qed.

Lemma add_alone_ok p entry : consistent p -> addable p entry ->
  exists p', addUnchecked_alone node_usage entry p = Some p' /\ consistent p'.
Proof.
  intros C A. destruct (ancestors_exist p (e_tx entry) C) as [t Ht]. pose proof (addable_size p entry A) as Hs. unfold addUnchecked_alone.
  destruct (ancestors_search p entry no_limits t (linked_up_ok _ (cs_linked p C)) (small_of_consistent p _ C Hs) Ht) as (s & r & E & Hr). rewrite E. cbn [mbind option_bind].
  assert (s = t) as ->.
  { destruct r; [|by destruct Hr]. exfalso. apply Hr. assert (t ⊆ pool p) as Htp by by apply (ancs_in_pool p entry).
    pose proof (small_of_consistent p _ C Hs) as Sm. pose proof (small_sums p _ t Sm Htp). unfold no_limits, nNoLimit. split; cbn.
    - intros x ex _ Hx. pose proof (sp_entry _ _ Sm x ex Hx). lia.
    - intros _. lia. }
  destruct (addUnchecked_ok node_usage p entry t C A Ht) as (p' & ? & ? & _). eauto.
Qed.

(** C8: Accepting a transaction, under limits on packages: the search for ancestors answers on every consistent
    pool, and it lets the transaction through exactly when with it no ancestor has too many or too large
    descendants and its own ancestors are neither too many nor too large.  Then [addUnchecked] with the ancestors
    found succeeds, the pool is consistent again - every counter of every entry is that of the entries the links
    lead to -, it has the new entry with its fee delta, and all others are what they were but for their counters. *)
Theorem accept_consistent p entry lim :
  consistent p -> addable p entry ->
  exists t s r, (forall y, y ∈ t <-> covered (up p) (pool_parents p (e_tx entry)) ∅ y)
  /\ CalculateMemPoolAncestors p entry ∅ lim true = Some (s, r) /\ (r = None <-> within_limits p (nTxSize entry) lim t)
  /\ (r = None -> s = t /\ exists p', addUnchecked node_usage entry s p = Some p' /\ consistent p'
       /\ same core (mapTx p') (<[e_hash entry := set_delta (delta_of p (e_hash entry)) entry]> (mapTx p)) /\ mapDeltas p' = mapDeltas p).
Proof.
  intros C A. destruct (ancestors_exist p (e_tx entry) C) as [t Ht]. exists t.
  destruct (ancestors_search p entry lim t (linked_up_ok _ (cs_linked p C)) (small_of_consistent p _ C (addable_size p entry A)) Ht) as (s & r & E & Hr).
  exists s, r. split_and!; [done|done|destruct r; split; (done || tauto)|]. intros ->. destruct Hr as [-> _]. split; [done|].
  destruct (addUnchecked_ok node_usage p entry t C A Ht) as (p' & ? & ? & ? & _ & ?). eauto.
Qed.

(** C9: Removing a set of entries that is closed under children, or under parents when the descendants are to be
    updated: it never fails, and the pool without them is consistent - the counters of what stays are those of its
    own ancestors and descendants, however the set is gone through -, with all other entries up to their counters
    and indices, the links among them, and the deltas. *)
Theorem RemoveStaged_consistent p s b :
  consistent p -> removable p s b -> exists p', RemoveStaged node_usage s b p = Some p' /\ consistent p' /\ remains p p' s /\ mapDeltas p' = mapDeltas p.
Proof. apply RemoveStaged_ok. Qed.

(** C10: A connected block leaves the pool consistent, without the block's transactions, without their deltas, and
    with no entry that spends an outpoint the block spends; nothing leaves but the block's transactions, the
    conflicts with them and what depends on those. *)
Theorem removeForBlock_clean vtx p :
  consistent p -> parents_first p vtx ->
  exists s p', removeForBlock node_usage vtx p = Some p' /\ consistent p' /\ remains p p' s
  /\ (forall y, y ∈ s -> block_takes p vtx y)
  /\ (forall tx, tx ∈ vtx -> exists_tx p' (tx_hash tx) = false /\ mapDeltas p' !! tx_hash tx = None /\ forall i, i ∈ vin tx -> isSpent p' (prevout i) = false).
Proof.
  intros C Hp. destruct (removeForBlock_ok node_usage vtx p C Hp) as (s & p' & E & C' & R & Hs & Hb & _). exists s, p'. split_and!; try done.
  intros tx Htx. destruct (Hb tx Htx) as (Hn & Hd & Hi). split_and!; [|done|].
  - apply not_elem_of_dom in Hn. unfold exists_tx. rewrite Hn. by apply bool_decide_eq_false; intros [].
  - intros i Hin. unfold isSpent. rewrite Hi by done. by apply bool_decide_eq_false; intros [].
Qed.

(** Trimming ends whatever the limit, within as many rounds as there are entries, with the pool within the
    limit or empty, and does nothing when it already is; it takes only whole sets of descendants, so what stays is
    consistent; every outpoint reported as without spends is spent by no entry left, and is of none. *)
Theorem TrimToSize_ends usage worst limit p :
  consistent p -> (forall q, mapTx q <> ∅ -> exists h, worst q = Some h /\ h ∈ pool q) ->
  exists s p' l, TrimToSize node_usage usage worst limit p = Some (p', l) /\ consistent p' /\ remains p p' s /\ removable p s false
  /\ (mapTx p' = ∅ \/ usage p' <= limit) /\ (usage p <= limit -> p' = p) /\ forall o, o ∈ l -> exists_tx p' (op_hash o) = false /\ isSpent p' o = false.
Proof.
  intros C Hw. destruct (trim_loop_ok node_usage usage worst Hw (S (base.size (mapTx p))) limit p [] C ltac:(lia)) as (s & p' & l & E & C' & R & Hr & _ & Hl & Hid & Ho).
  { by intros o ?%elem_of_nil. }
  exists s, p', l. split_and!; try done. intros o [H1 H2]%Ho. unfold exists_tx, isSpent. apply not_elem_of_dom in H1. by rewrite H1, H2.
Qed.

(** A fee delta for an entry changes its fee, the fees its ancestors have with their descendants and those its
    descendants have with their ancestors, and nothing else: the pool stays consistent. *)
Theorem PrioritiseTransaction_consistent p h n e :
  consistent p -> mapTx p !! h = Some e -> feeDelta e = delta_of p h -> in_s 64 n -> in_s 64 (delta_of p h + n) ->
  bounded (<[h := set_delta (delta_of p h + n) e]> (mapTx p)) ->
  exists p', PrioritiseTransaction h n p = Some p' /\ consistent p' /\ same core (mapTx p') (<[h := set_delta (delta_of p h + n) e]> (mapTx p))
  /\ mapDeltas p' = <[h := delta_of p h + n]> (mapDeltas p).
Proof. apply PrioritiseTransaction_ok. Qed.

(** Expiry removes the entries older than the time that are not locked, with all their descendants, and nothing
    else; it returns how many, and the pool stays consistent. *)
Theorem Expire_exact locked time p :
  consistent p -> exists s p', Expire node_usage locked time p = Some (p', set_size s) /\ consistent p' /\ remains p p' s
  /\ forall y, y ∈ s <-> below p (fun x => exists e, mapTx p !! x = Some e /\ nTime e < time /\ locked x = false) y.
Proof. intros C. destruct (Expire_ok node_usage locked time p C) as (s & p' & ? & ? & ? & _ & ?). by exists s, p'. Qed.

End Props.

(** ** Witnesses *)

(** Bounds of a concrete map of entries. *)
Definition bounded_b (m : gmap Z CTxMemPoolEntry) : bool :=
  forallb (fun x => (0 <? nTxSize x.2) && (0 <=? sigOpCount x.2)) (map_to_list m)
  && (sum_over (size_of m) (dom m) <? 2 ^ 63) && (sum_over (fun x => Z.abs (fee_of m x)) (dom m) <? 2 ^ 63) && (sum_over (sig_of m) (dom m) <? 2 ^ 31).

Lemma bounded_b_ok m : bounded_b m = true -> bounded m.
Proof.
  unfold bounded_b. rewrite !andb_true_iff, !Z.ltb_lt. intros [[[H1 H2] H3] H4]. constructor; [|done..]. intros h e E.
  apply elem_of_map_to_list, list_elem_of_In in E. rewrite forallb_forall in H1. specialize (H1 _ E). cbn in H1. apply andb_true_iff in H1 as [H1 H5].
  split; [by apply Z.ltb_lt|by apply Z.leb_le].
Qed.

(** What [addable] asks for, checked. *)
Definition addable_b (p : CTxMemPool) (e : CTxMemPoolEntry) : bool :=
  bool_decide (e_hash e ∉ pool p) && forallb (fun i => bool_decide (mapNextTx p !! prevout i = None)) (vin (e_tx e))
  && bool_decide (e_hash e ∉ input_hashes (vin (e_tx e))) && forallb (fun x => bool_decide (e_hash e ∉ input_hashes (vin (e_tx x.2)))) (map_to_list (mapTx p))
  && (- 2 ^ 63 <=? delta_of p (e_hash e)) && (delta_of p (e_hash e) <? 2 ^ 63)
  && bounded_b (<[e_hash e := set_delta (delta_of p (e_hash e)) e]> (mapTx p)).

Lemma addable_b_ok p tx : addable_b p (entry_of tx) = true -> addable p (entry_of tx).
Proof.
  unfold addable_b. rewrite !andb_true_iff, Z.leb_le, Z.ltb_lt. intros [[[[[[H1 H2] H3] H4] H5] H6] H7]. apply bool_decide_eq_true in H1, H3. constructor; try done.
  - intros i Hi. rewrite forallb_forall in H2. apply list_elem_of_In in Hi. specialize (H2 i Hi). by apply bool_decide_eq_true in H2.
  - intros h e E. rewrite forallb_forall in H4. apply elem_of_map_to_list, list_elem_of_In in E. specialize (H4 _ E). by apply bool_decide_eq_true in H4.
  - by apply bounded_b_ok.
Qed.

(** A pool grown by one entry. *)
Lemma grown_consistent `{SetOrder} p tx : consistent p -> addable_b p (entry_of tx) = true -> consistent (default empty_pool (addUnchecked_alone 48 (entry_of tx) p)).
Proof. intros C A%addable_b_ok. destruct (add_alone_ok 48 p (entry_of tx) C A) as (p' & -> & C'). exact C'. Qed.

Lemma pools_consistent : consistent pool1 /\ consistent pool2 /\ consistent pool3.
Proof.
  assert (consistent pool1) as C1 by (apply grown_consistent; [apply empty_consistent|by vm_compute]).
  assert (consistent pool2) as C2 by (apply grown_consistent; [done|by vm_compute]).
  split_and!; [done|done|]. apply grown_consistent; [done|by vm_compute].
Qed.

#[local] Opaque pool1 pool2 pool3.

Lemma accept_consistent_witness :
  exists p', CalculateMemPoolAncestors pool1 (entry_of tx2) ∅ no_limits true = Some ({[1]}, None) /\ addUnchecked 48 (entry_of tx2) {[1]} pool1 = Some p' /\ consistent p'.
Proof.
  destruct (accept_consistent 48 pool1 (entry_of tx2) no_limits) as (t & s & r & _ & E & _ & Ht); [apply pools_consistent|apply addable_b_ok; by vm_compute|].
  assert (CalculateMemPoolAncestors pool1 (entry_of tx2) ∅ no_limits true = Some ({[1]}, None)) as E' by (by vm_compute).
  rewrite E in E'. injection E' as Es Er. destruct (Ht Er) as (_ & p' & Ep & C & _). exists p'. rewrite <- Es. split; [rewrite E, Er; reflexivity|exact (conj Ep C)].
Defined.

(** What may be removed, checked. *)
Definition removable_b (p : CTxMemPool) (s : gset Z) (b : bool) : bool :=
  bool_decide (s ⊆ pool p) && forallb (fun x => bool_decide ((if b then up p x else down p x) ⊆ s)) (elements s).

Lemma removable_b_ok p s b : removable_b p s b = true -> removable p s b.
Proof.
  unfold removable_b. rewrite andb_true_iff, forallb_forall. intros [H1 H2]. apply bool_decide_eq_true in H1. split; [done|]. intros x y Hx Hy.
  apply elem_of_elements, list_elem_of_In in Hx. specialize (H2 x Hx). apply bool_decide_eq_true in H2. by apply H2.
Qed.

Lemma RemoveStaged_consistent_witness :
  exists p' p'', RemoveStaged 48 {[1; 2]} false pool3 = Some p' /\ consistent p' /\ RemoveStaged 48 {[1]} true pool3 = Some p'' /\ consistent p''.
Proof.
  pose proof pools_consistent as (_ & _ & C).
  destruct (RemoveStaged_consistent 48 pool3 {[1; 2]} false C) as (p' & E & C' & _); [apply removable_b_ok; by vm_compute|].
  destruct (RemoveStaged_consistent 48 pool3 {[1]} true C) as (p'' & E' & C'' & _); [apply removable_b_ok; by vm_compute|].
  exists p', p''. exact (conj E (conj C' (conj E' C''))).
Defined.

Lemma parents_first_pair p a b : up p (tx_hash a) = ∅ -> tx_hash b ∉ pool p -> parents_first p [a; b].
Proof.
  intros Ha Hb pre tx post Ev Ht. destruct pre as [|c [|d pre]]; injection Ev.
  - intros _ <-. by rewrite Ha.
  - by intros _ <- _.
  - intros E _ _. by destruct pre.
Qed.

(** A block with the first transaction and one that spends what the third does. *)
Lemma removeForBlock_clean_witness :
  exists p', removeForBlock 48 [tx1; pay 9 [(78, 0)]] pool3 = Some p' /\ consistent p' /\ exists_tx p' 1 = false /\ isSpent p' {| op_hash := 78; op_n := 0 |} = false.
Proof.
  destruct (removeForBlock_clean 48 [tx1; pay 9 [(78, 0)]] pool3) as (s & p' & E & C & _ & _ & Hb); [apply pools_consistent| |].
  - apply parents_first_pair; [by vm_compute|apply (bool_decide_eq_true _); by vm_compute].
  - exists p'. destruct (Hb tx1 ltac:(left)) as (H1 & _). destruct (Hb (pay 9 [(78, 0)]) ltac:(right; left)) as (_ & _ & H2). split; [exact E|]. split; [exact C|]. split; [exact H1|].
    exact (H2 {| prevout := {| op_hash := 78; op_n := 0 |}; scriptSig := []; nSequence := SEQUENCE_FINAL |} ltac:(left)).
Defined.

Lemma TrimToSize_ends_witness :
  exists p', TrimToSize 48 totalTxSize (fun q => head (elements (dom (mapTx q)))) 200 pool3 = Some (p', [{| op_hash := 78; op_n := 0 |}])
  /\ consistent p' /\ (mapTx p' = ∅ \/ totalTxSize p' <= 200).
Proof.
  destruct (TrimToSize_ends 48 totalTxSize (fun q => head (elements (dom (mapTx q)))) 200 pool3) as (s & p' & l & E & C & _ & _ & Hl & _); [apply pools_consistent| |].
  - intros q Hq. destruct (elements (dom (mapTx q))) as [|h l] eqn:Ee.
    + apply elements_empty_inv in Ee. exfalso. apply Hq, dom_empty_inv_L. by apply leibniz_equiv.
    + exists h. split; [done|]. apply elem_of_elements. rewrite Ee. left.
  - exists p'. assert (snd <$> TrimToSize 48 totalTxSize (fun q => head (elements (dom (mapTx q)))) 200 pool3 = Some [{| op_hash := 78; op_n := 0 |}]) as El by (by vm_compute).
    rewrite E in El. cbn in El. injection El as El. rewrite El in E. exact (conj E (conj C Hl)).
Defined.

Lemma PrioritiseTransaction_consistent_witness :
  exists e p', mapTx pool3 !! 2 = Some e /\ PrioritiseTransaction 2 7 pool3 = Some p' /\ consistent p' /\ mapDeltas p' = {[2 := 57]}.
Proof.
  set (e := default (entry_of tx2) (mapTx pool3 !! 2)).
  destruct (PrioritiseTransaction_consistent pool3 2 7 e) as (p' & E & C & _ & D).
  - apply pools_consistent.
  - by vm_compute.
  - by vm_compute.
  - unfold in_s. lia.
  - assert (delta_of pool3 2 = 50) as -> by (by vm_compute). unfold in_s. lia.
  - apply bounded_b_ok. by vm_compute.
  - exists e, p'. split; [by vm_compute|]. split; [exact E|]. split; [exact C|]. rewrite D. by vm_compute.
Defined.

Lemma Expire_exact_witness : exists p', Expire 48 (fun _ => false) 2 pool3 = Some (p', 2) /\ consistent p'.
Proof.
  destruct (Expire_exact 48 (fun _ => false) 2 pool3) as (s & p' & E & C & _); [apply pools_consistent|].
  assert (snd <$> Expire 48 (fun _ => false) 2 pool3 = Some 2) as Es by (by vm_compute). rewrite E in Es. cbn in Es. injection Es as Es. exists p'. rewrite Es in E. exact (conj E C).
Defined.
