(* ===== verification/Compressor.v ===== *)
(** * Compressed outputs: coins in the database and undo records

    Models [src/src/compressor.h] and [src/src/compressor.cpp] (amounts and scripts in their short forms), the
    serialization of [Coin] in [src/src/coins.h], the keys of coins in [src/src/txdb.cpp], and [src/src/undo.h].

    Public keys are checked and decompressed by the curve library, behind the interface [CurveKeys], whose law is what
    decompressing is; the witnesses are stated in a library that knows one key of the curve.  A failed [assert] and the overflow of [nHeight * 2], computed as an [int], are [None] when
    writing; [None] when reading is the exception of [Serialize].  What is read goes into a default object, as in all
    callers. *)

From stdpp Require Import gmap.
From S2P Require Import Prelude Amount Script Transaction Serialize Coins TxVerify.

(** ** Amounts *)

(** [while (((n % 10) == 0) && e < 9)]; the exponent is the number of rounds. *)
Fixpoint strip_zeros (rounds : nat) (n e : Z) : Z * Z :=
  match rounds with
  | O => (n, e)
  | S rounds => if (n mod 10 =? 0) && (e <? 9) then strip_zeros rounds (n / 10) (e + 1) else (n, e)
  end.

Definition CompressAmount (n : Z) : option Z :=
  if n =? 0 then Some 0
  else
    let '(n, e) := strip_zeros 10 n 0 in
    if e <? 9 then
      let d := n mod 10 in
      if negb ((1 <=? d) && (d <=? 9)) then None else Some (u64 (1 + (n / 10 * 9 + d - 1) * 10 + e))
    else Some (u64 (1 + (n - 1) * 10 + 9)).

Fixpoint times_ten (e : nat) (n : Z) : Z :=
  match e with
  | O => n
  | S e => times_ten e (u64 (n * 10))
  end.

Definition DecompressAmount (x : Z) : Z :=
  if x =? 0 then 0
  else
    let x := u64 (x - 1) in
    let e := x mod 10 in
    let x := x / 10 in
    let n := if e <? 9 then u64 (x / 9 * 10 + (x mod 9 + 1)) else u64 (x + 1) in
    times_ten (Z.to_nat e) n.

(** ** Scripts *)

Definition nSpecialScripts : Z := 6.

(** [memcpy] from position [i]. *)
Definition bytes_at (s : list Z) (i n : nat) : list Z := take n (drop i s).

Definition IsToKeyID (script : list Z) : option (list Z) :=
  if (length script =? 25)%nat && byte_at script 0 OP_DUP && byte_at script 1 OP_HASH160 && byte_at script 2 20
     && byte_at script 23 OP_EQUALVERIFY && byte_at script 24 OP_CHECKSIG
  then Some (bytes_at script 3 20) else None.

Definition IsToScriptID (script : list Z) : option (list Z) :=
  if (length script =? 23)%nat && byte_at script 0 OP_HASH160 && byte_at script 1 20 && byte_at script 22 OP_EQUAL
  then Some (bytes_at script 2 20) else None.

(** The curve library on serialized public keys. *)
Class CurveKeys := {
  IsFullyValid : list Z -> bool;
  pubkey_Decompress : list Z -> option (list Z);
  (** A valid uncompressed key is that of its first coordinate and the parity of its second. *)
  decompress_valid : forall x y, length x = 32%nat -> length y = 32%nat -> bytes_ok (x ++ y) -> IsFullyValid (4 :: x ++ y) = true ->
    pubkey_Decompress ((2 + Z.land (y !!! 31%nat) 1) :: x) = Some (4 :: x ++ y);
}.

Section Keys.
Context `{CurveKeys}.

Definition IsToPubKey (script : list Z) : option (list Z) :=
  if (length script =? 35)%nat && byte_at script 0 33 && byte_at script 34 OP_CHECKSIG && (byte_at script 1 0x02 || byte_at script 1 0x03)
  then Some (bytes_at script 1 33)
  else if (length script =? 67)%nat && byte_at script 0 65 && byte_at script 66 OP_CHECKSIG && byte_at script 1 0x04
  then (let pubkey := bytes_at script 1 65 in if IsFullyValid pubkey then Some pubkey else None)
  else None.

Definition Compress (script : list Z) : option (list Z) :=
  match IsToKeyID script with
  | Some keyID => Some (0x00 :: keyID)
  | None =>
      match IsToScriptID script with
      | Some scriptID => Some (0x01 :: scriptID)
      | None =>
          match IsToPubKey script with
          | Some pubkey =>
              let b := pubkey !!! 0%nat in
              if (b =? 0x02) || (b =? 0x03) then Some (b :: bytes_at pubkey 1 32)
              else if b =? 0x04 then Some (Z.lor 0x04 (Z.land (pubkey !!! 64%nat) 0x01) :: bytes_at pubkey 1 32)
              else None
          | None => None
          end
      end
  end.

Definition GetSpecialSize (nSize : Z) : Z :=
  if (nSize =? 0) || (nSize =? 1) then 20
  else if (nSize =? 2) || (nSize =? 3) || (nSize =? 4) || (nSize =? 5) then 32
  else 0.

(** The new script; [None] leaves it as it is, and an [assert] on the library's answer is not modelled. *)
Definition Decompress (nSize : Z) (v : list Z) : option (list Z) :=
  if nSize =? 0x00 then Some ([OP_DUP; OP_HASH160; 20] ++ v ++ [OP_EQUALVERIFY; OP_CHECKSIG])
  else if nSize =? 0x01 then Some ([OP_HASH160; 20] ++ v ++ [OP_EQUAL])
  else if (nSize =? 0x02) || (nSize =? 0x03) then Some ([33; nSize] ++ v ++ [OP_CHECKSIG])
  else if (nSize =? 0x04) || (nSize =? 0x05) then pubkey ← pubkey_Decompress ((nSize - 2) :: v); Some ([65] ++ pubkey ++ [OP_CHECKSIG])
  else None.

(** [CScriptCompressor::Serialize] and [Unserialize] *)
Definition ser_script (script : list Z) : list Z :=
  match Compress script with
  | Some compr => compr
  | None => WriteVarInt 32 (u32 (Z.of_nat (length script) + nSpecialScripts)) ++ script
  end.

Definition read_script : Reader (list Z) := (
  nSize <- ReadVarInt 32 ;;
  if nSize <? nSpecialScripts then
    v <- read_block (Z.to_nat (GetSpecialSize nSize)) ;; rd_ret (default [] (Decompress nSize v))
  else
    let nSize := nSize - nSpecialScripts in
    if nSize >? MAX_SCRIPT_SIZE then _ <- read_block (Z.to_nat nSize) ;; rd_ret [OP_RETURN]
    else read_block (Z.to_nat nSize))%reader.

(** ** Outputs, coins and undo records *)

(** [CTxOutCompressor::SerializationOp] *)
Definition ser_compressed (o : CTxOut) : option (list Z) :=
  nVal ← CompressAmount (u64 (nValue o)); Some (WriteVarInt 64 nVal ++ ser_script (scriptPubKey o)).

Definition read_compressed : Reader CTxOut := (
  nVal <- ReadVarInt 64 ;; script <- read_script ;; rd_ret (CTxOut_make (i64 (DecompressAmount nVal)) script))%reader.

(** [nHeight * 2 + fCoinBase] as an [int] *)
Definition coin_code (c : Coin) : option Z :=
  let code := coin_nHeight c * 2 + (if fCoinBase c then 1 else 0) in
  if decide (in_s 32 code) then Some code else None.

(** [Coin::Serialize] and [Coin::Unserialize] *)
Definition ser_coin (c : Coin) : option (list Z) :=
  if IsSpent c then None
  else code ← coin_code c; o ← ser_compressed (out c); Some (WriteVarInt 32 code ++ o).

Definition read_coin : Reader Coin := (
  code <- ReadVarInt 32 ;; o <- read_compressed ;;
  rd_ret {| out := o; fCoinBase := negb (Z.land code 1 =? 0); coin_nHeight := Z.shiftr code 1 |})%reader.

(** [CoinEntry], the key of a coin in the database. *)
Definition DB_COIN : Z := 0x43.

Definition ser_coin_entry (o : COutPoint) : list Z := ser_writedata 1 DB_COIN ++ le_encode 32 (op_hash o) ++ WriteVarInt 32 (op_n o).

Definition read_coin_entry : Reader (Z * COutPoint) := (
  key <- ser_readdata 1 ;; h <- read_block 32 ;; n <- ReadVarInt 32 ;; rd_ret (key, {| op_hash := le_decode h; op_n := n |}))%reader.

(** [TxInUndoSerializer] and [TxInUndoDeserializer] *)
Definition ser_txin_undo (c : Coin) : option (list Z) :=
  code ← coin_code c; o ← ser_compressed (out c);
  Some (WriteVarInt 32 code ++ (if coin_nHeight c >? 0 then ser_writedata 1 0 else []) ++ o).

Definition read_txin_undo : Reader Coin := (
  nCode <- ReadVarInt 32 ;;
  _ <- (if nCode / 2 >? 0 then ReadVarInt 32 else rd_ret 0) ;;
  o <- read_compressed ;;
  rd_ret {| out := o; fCoinBase := negb (Z.land nCode 1 =? 0); coin_nHeight := nCode / 2 |})%reader.

(** The size of [CTxIn()] is 41 bytes. *)
Definition CTxIn_default : CTxIn := {| prevout := COutPoint_null; scriptSig := []; nSequence := SEQUENCE_FINAL |}.
Definition MAX_INPUTS_PER_BLOCK : Z := MaxBlockSize true / Z.of_nat (length (ser_txin CTxIn_default)).

(** [CTxUndo]: the list [vprevout]. *)
Definition ser_tx_undo (vprevout : list Coin) : option (list Z) :=
  l ← mapM ser_txin_undo vprevout; Some (WriteCompactSize (Z.of_nat (length vprevout)) ++ concat l).

Definition read_tx_undo : Reader (list Coin) := (
  count <- ReadCompactSize ;;
  if count >? MAX_INPUTS_PER_BLOCK then rd_fail else read_elements read_txin_undo (Z.to_nat count))%reader.

(** [CBlockUndo]: the list [vtxundo]. *)
Definition ser_block_undo (vtxundo : list (list Coin)) : option (list Z) :=
  l ← mapM ser_tx_undo vtxundo; Some (WriteCompactSize (Z.of_nat (length vtxundo)) ++ concat l).

Definition read_block_undo : Reader (list (list Coin)) := read_vector read_tx_undo.

End Keys.

(** ** Lemmas: amounts *)

Lemma u64_small z : 0 <= z < 2 ^ 64 -> u64 z = z.
Proof. apply Z.mod_small. Qed.

Lemma strip_zeros_ok rounds n e n' e' :
  0 < n -> 0 <= e <= 9 -> 9 - e < Z.of_nat rounds -> strip_zeros rounds n e = (n', e') ->
  0 < n' /\ e <= e' <= 9 /\ n = n' * 10 ^ (e' - e) /\ (e' = 9 \/ n' mod 10 <> 0).
Proof.
  revert n e. induction rounds as [|rounds IH]; intros n e Hn He Hr; [lia|]. cbn [strip_zeros].
  destruct (Z.eqb_spec (n mod 10) 0) as [Hm|Hm]; cbn [andb].
  - destruct (Z.ltb_spec e 9) as [Hl|Hl].
    + pose proof (Z.div_mod n 10 ltac:(lia)) as Hd. intros (H1 & H2 & H3 & H4)%IH; [|lia..]. split_and!; try lia.
      replace (e' - e) with (1 + (e' - (e + 1))) by lia. rewrite Z.pow_add_r by lia. lia.
    + intros [= <- <-]. rewrite Z.sub_diag. split_and!; lia.
  - intros [= <- <-]. rewrite Z.sub_diag. split_and!; lia.
Qed.

Lemma times_ten_ok e n : 0 <= n -> n * 10 ^ Z.of_nat e < 2 ^ 64 -> times_ten e n = n * 10 ^ Z.of_nat e.
Proof.
  revert n. induction e as [|e IH]; intros n Hn Hb; cbn [times_ten]; [lia|]. replace (Z.of_nat (S e)) with (1 + Z.of_nat e) in * by lia.
  rewrite Z.pow_add_r in * by lia. pose proof (Z.pow_pos_nonneg 10 (Z.of_nat e) ltac:(lia) ltac:(lia)). rewrite u64_small by nia. rewrite IH by lia. lia.
Qed.

(** What the short form of an amount is read as. *)
Lemma CompressAmount_ok n : 0 <= n <= 2 ^ 60 -> exists x, CompressAmount n = Some x /\ 0 <= x < 2 ^ 64 /\ DecompressAmount x = n.
Proof.
  intros Hn. unfold CompressAmount, DecompressAmount. destruct (Z.eqb_spec n 0) as [->|Hz]; [by exists 0|].
  destruct (strip_zeros 10 n 0) as [n' e] eqn:E. apply strip_zeros_ok in E as (Hn' & He & En & Hmax); [|lia..]. rewrite Z.sub_0_r in En.
  pose proof (Z.pow_pos_nonneg 10 e ltac:(lia) ltac:(lia)) as Hp.
  pose proof (Z.div_mod n' 10 ltac:(lia)) as Hd. pose proof (Z.mod_pos_bound n' 10 ltac:(lia)) as Hm. destruct (Z.ltb_spec e 9) as [Hl|Hl].
  - destruct Hmax as [?|Hne]; [lia|]. rewrite (proj2 (Z.leb_le 1 _)), (proj2 (Z.leb_le _ 9)) by lia. cbn [andb negb].
    set (d := n' mod 10) in *. set (q := n' / 10) in *. assert (n' <= n) by nia. eexists. split; [reflexivity|]. rewrite u64_small by lia.
    rewrite (proj2 (Z.eqb_neq _ 0)) by lia. rewrite u64_small by lia. replace (1 + (q * 9 + d - 1) * 10 + e - 1) with (e + (q * 9 + d - 1) * 10) by lia.
    rewrite Z.mod_add, (Z.mod_small e 10), Z.div_add, (Z.div_small e 10) by lia. rewrite (proj2 (Z.ltb_lt e 9)) by lia.
    replace (0 + (q * 9 + d - 1)) with (d - 1 + q * 9) by lia. rewrite Z.mod_add, Z.mod_small, Z.div_add, Z.div_small by lia. rewrite u64_small by lia.
    split; [lia|]. rewrite times_ten_ok; rewrite ?Z2Nat.id by lia; nia.
  - assert (e = 9) as -> by lia. assert (n' <= n) by nia. eexists. split; [reflexivity|]. rewrite u64_small by lia. rewrite (proj2 (Z.eqb_neq _ 0)) by lia. rewrite u64_small by lia.
    replace (1 + (n' - 1) * 10 + 9 - 1) with (9 + (n' - 1) * 10) by lia. rewrite Z.mod_add, Z.div_add by lia. cbn [Z.modulo Z.div Z.ltb]. change (9 mod 10) with 9. change (9 / 10) with 0.
    cbn [Z.ltb Z.compare Pos.compare Pos.compare_cont]. rewrite u64_small by lia. split; [lia|]. rewrite times_ten_ok; change (Z.of_nat (Z.to_nat 9)) with 9; nia.
Qed.

(** ** Lemmas: scripts *)

Lemma byte_at_ok s i b : byte_at s i b = true -> (i < length s)%nat -> s !! i = Some b.
Proof. intros E%Z.eqb_eq Hi. rewrite <- E. by apply list_lookup_lookup_total_lt. Qed.

Lemma bytes_at_length s i n : (i + n <= length s)%nat -> length (bytes_at s i n) = n.
Proof. intros Hl. unfold bytes_at. rewrite length_take, length_drop. lia. Qed.

(** A script by its parts. *)
Lemma split_bytes (s : list Z) i n : s = take i s ++ bytes_at s i n ++ drop (i + n) s.
Proof. unfold bytes_at. rewrite <- (take_drop i s) at 1. f_equal. rewrite <- (take_drop n (drop i s)) at 1. by rewrite drop_drop. Qed.

Section KeyLemmas.
Context `{CurveKeys}.

Lemma IsToKeyID_ok s k : IsToKeyID s = Some k -> length k = 20%nat /\ s = [OP_DUP; OP_HASH160; 20] ++ k ++ [OP_EQUALVERIFY; OP_CHECKSIG].
Proof.
  unfold IsToKeyID. destruct (_ && _) eqn:E; [|done]. intros [= <-]. rewrite !andb_true_iff in E. destruct E as [[[[[El%Nat.eqb_eq E0] E1] E2] E3] E4].
  split; [apply bytes_at_length; lia|]. apply byte_at_ok in E0, E1, E2, E3, E4; try lia.
  do 25 (destruct s as [|? s]; [discriminate El|]). destruct s; [|discriminate El]. cbn in *. congruence.
Qed.

Lemma IsToScriptID_ok s k : IsToScriptID s = Some k -> length k = 20%nat /\ s = [OP_HASH160; 20] ++ k ++ [OP_EQUAL].
Proof.
  unfold IsToScriptID. destruct (_ && _) eqn:E; [|done]. intros [= <-]. rewrite !andb_true_iff in E. destruct E as [[[El%Nat.eqb_eq E0] E1] E2].
  split; [apply bytes_at_length; lia|]. apply byte_at_ok in E0, E1, E2; try lia.
  do 23 (destruct s as [|? s]; [discriminate El|]). destruct s; [|discriminate El]. cbn in *. congruence.
Qed.

Lemma IsToPubKey_ok s k : bytes_ok s -> IsToPubKey s = Some k ->
  (exists b x, k = b :: x /\ length x = 32%nat /\ (b = 2 \/ b = 3) /\ s = [33] ++ k ++ [OP_CHECKSIG])
  \/ exists x y, k = 4 :: x ++ y /\ length x = 32%nat /\ length y = 32%nat /\ bytes_ok (x ++ y) /\ IsFullyValid k = true /\ s = [65] ++ k ++ [OP_CHECKSIG].
Proof.
  intros Hb. unfold IsToPubKey. destruct (_ && _) eqn:E.
  - intros [= <-]. left. rewrite !andb_true_iff, orb_true_iff in E. destruct E as [[[El%Nat.eqb_eq E0] E1] E2].
    apply byte_at_ok in E0, E1; try lia. do 35 (destruct s as [|? s]; [discriminate El|]). destruct s; [|discriminate El].
    eexists _, _. cbn in *. split_and!; [done|done|destruct E2 as [E2%Z.eqb_eq|E2%Z.eqb_eq]; cbn in E2; lia|]. injection E0 as ->. injection E1 as ->. reflexivity.
  - clear E. destruct (_ && _) eqn:E; [|done]. destruct (IsFullyValid _) eqn:Ev; [|done]. intros [= <-]. right. rewrite !andb_true_iff in E. destruct E as [[[El%Nat.eqb_eq E0] E1] E2].
    apply byte_at_ok in E0, E1, E2; try lia. do 67 (destruct s as [|? s]; [discriminate El|]). destruct s; [|discriminate El].
    cbn in E0, E1, E2. injection E0 as ->. injection E1 as ->. injection E2 as ->.
    match type of Ev with IsFullyValid (bytes_at ?s _ _) = _ => exists (bytes_at s 2 32), (bytes_at s 34 32) end.
    split_and!; try reflexivity; [|exact Ev]. apply Forall_app. split; unfold bytes_at; by apply Forall_take, Forall_drop.
Qed.

Lemma parity_byte z : 0 <= z -> (4 | z) -> forall b, Z.lor 4 (Z.land b 1) - 2 = 2 + Z.land b 1.
Proof.
  intros _ _ b. change 1 with (Z.ones 1). rewrite Z.land_ones by lia. pose proof (Z.mod_pos_bound b (2 ^ 1) ltac:(lia)) as Hb. change (2 ^ 1) with 2 in *.
  assert (b mod 2 = 0 \/ b mod 2 = 1) as [->| ->] by lia; reflexivity.
Qed.

(** Reading a script back. *)
Lemma reads_script s : bytes_ok s -> Z.of_nat (length s) <= MAX_SCRIPT_SIZE -> reads read_script (ser_script s) s.
Proof.
  intros Hb Hl. unfold read_script, ser_script.
  assert (forall n v k s', 0 <= n < 6 -> GetSpecialSize n = Z.of_nat (length v) -> Decompress n v = Some s' -> k = n :: v ->
    reads (nSize <- ReadVarInt 32 ;; if nSize <? nSpecialScripts then v <- read_block (Z.to_nat (GetSpecialSize nSize)) ;; rd_ret (default [] (Decompress nSize v))
           else let nSize := nSize - nSpecialScripts in if nSize >? MAX_SCRIPT_SIZE then _ <- read_block (Z.to_nat nSize) ;; rd_ret [OP_RETURN] else read_block (Z.to_nat nSize))%reader k s') as Hspecial.
  { intros n v k s' Hn Hg Hd ->. change (n :: v) with ([n] ++ v). eapply reads_bind.
    - replace [n] with (WriteVarInt 32 n); [apply reads_VarInt; lia|]. assert (n = 0 \/ n = 1 \/ n = 2 \/ n = 3 \/ n = 4 \/ n = 5) as [->|[->|[->|[->|[->| ->]]]]] by lia; reflexivity.
    - cbn beta. rewrite (proj2 (Z.ltb_lt n _)) by (unfold nSpecialScripts; lia). rewrite Hg, Nat2Z.id. replace s' with (default [] (Decompress n v)) by by rewrite Hd.
      apply (reads_bind_ret _ (fun v => default [] (Decompress n v))), reads_block. }
  unfold Compress. destruct (IsToKeyID s) as [k|] eqn:E1.
  { apply IsToKeyID_ok in E1 as [Hk ->]. apply (Hspecial 0 k); try done. by rewrite Hk. }
  destruct (IsToScriptID s) as [k|] eqn:E2.
  { apply IsToScriptID_ok in E2 as [Hk ->]. apply (Hspecial 1 k); try done. by rewrite Hk. }
  destruct (IsToPubKey s) as [k|] eqn:E3.
  - apply IsToPubKey_ok in E3 as [(b & x & -> & Hx & Hb2 & ->)|(x & y & -> & Hx & Hy & Hxy & Hv & ->)]; [| |done].
    + cbn [lookup_total list_lookup_total]. assert ((b =? 2) || (b =? 3) = true) as -> by (destruct Hb2 as [->| ->]; done).
      change (bytes_at (b :: x) 1 32) with (take 32 x). rewrite (take_ge x 32) by lia. destruct Hb2 as [->| ->]; [apply (Hspecial 2 x)|apply (Hspecial 3 x)]; try done; by rewrite Hx.
    + change ((4 :: x ++ y) !!! 0%nat) with 4. change ((4 :: x ++ y) !!! 64%nat) with ((x ++ y) !!! 63%nat). cbn [Z.eqb Pos.eqb orb]. change (bytes_at (4 :: x ++ y) 1 32) with (take 32 (x ++ y)). rewrite (take_app_length' x y 32) by done.
      assert ((x ++ y) !!! 63%nat = y !!! 31%nat) as -> by (rewrite lookup_total_app_r by lia; by rewrite Hx).
      pose proof (parity_byte 0 ltac:(lia) ltac:(by exists 0) (y !!! 31%nat)) as Hpar. set (n := Z.lor 4 _) in *.
      assert (n = 4 \/ n = 5) as Hn.
      { unfold n. change 1 with (Z.ones 1). rewrite Z.land_ones by lia. pose proof (Z.mod_pos_bound (y !!! 31%nat) (2 ^ 1) ltac:(lia)) as Hp. change (2 ^ 1) with 2 in *.
        assert (y !!! 31%nat mod 2 = 0 \/ y !!! 31%nat mod 2 = 1) as [->| ->] by lia; [by left|by right]. }
      apply (Hspecial n x); [lia|rewrite Hx; destruct Hn as [->| ->]; done| |done].
      unfold Decompress. assert ((n =? 0) = false /\ (n =? 1) = false /\ (n =? 2) = false /\ (n =? 3) = false /\ (n =? 4) || (n =? 5) = true) as (-> & -> & -> & -> & ->) by (destruct Hn as [->| ->]; done).
      cbn [orb]. rewrite Hpar, decompress_valid by done. done.
  - unfold nSpecialScripts, MAX_SCRIPT_SIZE in *. eapply reads_bind; [apply reads_VarInt; [lia|]; apply wrap_range; lia|]. cbn beta.
    rewrite wrap_small by (unfold in_u; lia). rewrite (proj2 (Z.ltb_ge _ _)) by lia. cbv zeta. replace (Z.of_nat (length s) + 6 - 6) with (Z.of_nat (length s)) by lia.
    rewrite Z.gtb_ltb, (proj2 (Z.ltb_ge _ _)) by lia. rewrite Nat2Z.id. apply reads_block.
Qed.

(** A script too long is replaced. *)
Lemma reads_long_script s : Z.of_nat (length s) < 2 ^ 32 - 6 -> MAX_SCRIPT_SIZE < Z.of_nat (length s) -> reads read_script (ser_script s) [OP_RETURN].
Proof.
  intros Hl Hm. unfold read_script, ser_script, MAX_SCRIPT_SIZE in *.
  assert (Compress s = None) as ->.
  { unfold Compress, IsToKeyID, IsToScriptID, IsToPubKey. assert (forall k, (k <= 100)%nat -> (length s =? k)%nat = false) as Hk by (intros k Hk; apply Nat.eqb_neq; lia).
    by rewrite !Hk by lia. }
  eapply reads_bind; [apply reads_VarInt; [lia|]; apply wrap_range; lia|]. cbn beta. unfold nSpecialScripts. rewrite wrap_small by (unfold in_u; lia).
  rewrite (proj2 (Z.ltb_ge _ _)) by lia. cbv zeta. replace (Z.of_nat (length s) + 6 - 6) with (Z.of_nat (length s)) by lia.
  rewrite Z.gtb_ltb, (proj2 (Z.ltb_lt _ _)) by lia. rewrite Nat2Z.id. eapply (reads_bind_ret _ (fun _ => [OP_RETURN])), reads_block.
Qed.

End KeyLemmas.

(** ** Lemmas: outputs, coins and undo records *)

Section Records.
Context `{CurveKeys}.

(** What an output is read back as. *)
Definition stored_out (o : CTxOut) : CTxOut :=
  CTxOut_make (nValue o) (if Z.of_nat (length (scriptPubKey o)) >? MAX_SCRIPT_SIZE then [OP_RETURN] else scriptPubKey o).
Definition stored (c : Coin) : Coin := {| out := stored_out (out c); fCoinBase := fCoinBase c; coin_nHeight := coin_nHeight c |}.

(** Values in range, a script of bytes, and a height whose double is an [int]. *)
Definition storable (c : Coin) : Prop :=
  MoneyRange (nValue (out c)) = true /\ bytes_ok (scriptPubKey (out c)) /\ Z.of_nat (length (scriptPubKey (out c))) < 2 ^ 32 - 6 /\ 0 <= coin_nHeight c < 2 ^ 30.

Lemma MoneyRange_small v : MoneyRange v = true -> 0 <= v <= 2 ^ 60.
Proof. unfold MoneyRange, MAX_MONEY, COIN. rewrite andb_true_iff, Z.geb_le, Z.leb_le. lia. Qed.

Lemma compressed_ok o :
  MoneyRange (nValue o) = true -> bytes_ok (scriptPubKey o) -> Z.of_nat (length (scriptPubKey o)) < 2 ^ 32 - 6 ->
  exists b, ser_compressed o = Some b /\ reads read_compressed b (stored_out o).
Proof.
  intros Hv%MoneyRange_small Hb Hl. unfold ser_compressed. rewrite u64_small by lia. destruct (CompressAmount_ok (nValue o) Hv) as (x & -> & Hx & Hd). cbn [mbind option_bind].
  eexists. split; [reflexivity|]. unfold read_compressed. eapply reads_bind; [apply reads_VarInt; lia|]. cbn beta.
  unfold stored_out. replace (nValue o) with (i64 (DecompressAmount x)) by (rewrite Hd; apply swrap_small; [lia|unfold in_s; lia]).
  apply (reads_bind_ret read_script (fun script => CTxOut_make (i64 (DecompressAmount x)) script)).
  rewrite Z.gtb_ltb. destruct (Z.ltb_spec MAX_SCRIPT_SIZE (Z.of_nat (length (scriptPubKey o)))); [by apply reads_long_script|by apply reads_script].
Qed.

Lemma coin_code_ok c : 0 <= coin_nHeight c < 2 ^ 30 ->
  exists code, coin_code c = Some code /\ 0 <= code < 2 ^ 31 /\ code / 2 = coin_nHeight c /\ negb (Z.land code 1 =? 0) = fCoinBase c.
Proof.
  intros Hh. unfold coin_code. set (b := if fCoinBase c then 1 else 0). assert (0 <= b <= 1 /\ (b =? 0) = negb (fCoinBase c)) as [Hb Eb] by (unfold b; by destruct (fCoinBase c)).
  rewrite decide_True by (unfold in_s; lia). eexists. split; [reflexivity|]. change 1 with (Z.ones 1). rewrite Z.land_ones by lia. change (2 ^ 1) with 2.
  rewrite (Z.add_comm _ b), Z.div_add, Z.mod_add, Z.div_small, Z.mod_small by lia. split_and!; [lia|lia|lia|]. rewrite Eb. by destruct (fCoinBase c).
Qed.

Lemma coin_ok c : storable c -> exists b, ser_coin c = Some b /\ reads read_coin b (stored c).
Proof.
  intros (Hv & Hb & Hl & Hh). unfold ser_coin. assert (IsSpent c = false) as ->.
  { unfold IsSpent, CTxOut_IsNull. pose proof (MoneyRange_small _ Hv). apply Z.eqb_neq. lia. }
  destruct (coin_code_ok c Hh) as (code & -> & Hc & Hq & Hp). cbn [mbind option_bind]. destruct (compressed_ok (out c) Hv Hb Hl) as (bo & -> & Hr). cbn [mbind option_bind].
  eexists. split; [reflexivity|]. unfold read_coin. eapply reads_bind; [apply reads_VarInt; lia|]. cbn beta. unfold stored. rewrite <- Hq, <- Hp.
  rewrite Z.shiftr_div_pow2 by lia. change (2 ^ 1) with 2.
  apply (reads_bind_ret read_compressed (fun o => {| out := o; fCoinBase := negb (Z.land code 1 =? 0); coin_nHeight := code / 2 |})). done.
Qed.

Lemma txin_undo_ok c : storable c -> exists b, ser_txin_undo c = Some b /\ reads read_txin_undo b (stored c).
Proof.
  intros (Hv & Hb & Hl & Hh). unfold ser_txin_undo. destruct (coin_code_ok c Hh) as (code & -> & Hc & Hq & Hp). cbn [mbind option_bind].
  destruct (compressed_ok (out c) Hv Hb Hl) as (bo & -> & Hr). cbn [mbind option_bind].
  eexists. split; [reflexivity|]. unfold read_txin_undo. eapply reads_bind; [apply reads_VarInt; lia|]. cbn beta. unfold stored. rewrite Hq, Hp.
  eapply (reads_bind _ _ _ _ 0); [destruct (coin_nHeight c >? 0); [apply (reads_VarInt 32 0); lia|apply reads_ret]|]. cbn beta.
  apply (reads_bind_ret read_compressed (fun o => {| out := o; fCoinBase := fCoinBase c; coin_nHeight := coin_nHeight c |})). done.
Qed.

(** Lists of records that are written one by one. *)
Lemma mapM_reads {A} (f : A -> option (list Z)) (g : A -> A) (r : Reader A) l :
  Forall (fun x => exists b, f x = Some b /\ reads r b (g x)) l -> exists bs, mapM f l = Some bs /\ reads (read_elements r (length l)) (concat bs) (map g l).
Proof.
  induction 1 as [|x l (b & Hb & Hr) _ (bs & Hm & IH)]; [exists []; by split|]. exists (b :: bs). split; [cbn; by rewrite Hb; cbn; rewrite Hm|].
  cbn [length read_elements map concat]. eapply reads_bind; [exact Hr|]. apply (reads_bind_ret _ (cons (g x))), IH.
Qed.

Lemma tx_undo_ok l : Forall storable l -> Z.of_nat (length l) <= MAX_INPUTS_PER_BLOCK -> exists b, ser_tx_undo l = Some b /\ reads read_tx_undo b (map stored l).
Proof.
  intros Hl Hn. destruct (mapM_reads ser_txin_undo stored read_txin_undo l) as (bs & E & Hr).
  { eapply Forall_impl; [exact Hl|]. apply txin_undo_ok. }
  unfold ser_tx_undo. rewrite E. cbn [mbind option_bind]. eexists. split; [reflexivity|]. unfold read_tx_undo.
  assert (MAX_INPUTS_PER_BLOCK <= MAX_SIZE) by (by vm_compute). eapply reads_bind; [apply reads_CompactSize; lia|]. cbn beta.
  rewrite Z.gtb_ltb, (proj2 (Z.ltb_ge _ _)) by done. by rewrite Nat2Z.id.
Qed.

Lemma block_undo_ok l :
  Forall (fun u => Forall storable u /\ Z.of_nat (length u) <= MAX_INPUTS_PER_BLOCK) l -> Z.of_nat (length l) <= MAX_SIZE ->
  exists b, ser_block_undo l = Some b /\ reads read_block_undo b (map (map stored) l).
Proof.
  intros Hl Hn. destruct (mapM_reads ser_tx_undo (map stored) read_tx_undo l) as (bs & E & Hr).
  { eapply Forall_impl; [exact Hl|]. intros u [Hu Hc]. by apply tx_undo_ok. }
  unfold ser_block_undo. rewrite E. cbn [mbind option_bind]. eexists. split; [reflexivity|]. unfold read_block_undo, read_vector.
  eapply reads_bind; [apply reads_CompactSize; lia|]. cbn beta. by rewrite Nat2Z.id.
Qed.

Lemma stored_id c : Z.of_nat (length (scriptPubKey (out c))) <= MAX_SCRIPT_SIZE -> nRounds (out c) = -10 -> stored c = c.
Proof.
  intros Hl Hr. unfold stored, stored_out, CTxOut_make. rewrite Z.gtb_ltb, (proj2 (Z.ltb_ge _ _)) by done. destruct c as [[v s r] b h]. cbn in *. by rewrite Hr.
Qed.

Lemma coin_entry_ok o : outpoint_ok o -> reads read_coin_entry (ser_coin_entry o) (DB_COIN, o).
Proof.
  intros [Hh Hn]. unfold read_coin_entry, ser_coin_entry. eapply reads_bind; [apply (reads_data 1 DB_COIN); by vm_compute|]. cbn beta.
  eapply reads_bind; [rewrite <- (le_encode_length 32 (op_hash o)) at 1; apply reads_block|]. cbn beta. rewrite le_decode_encode by done.
  destruct o as [h n]. cbn [op_hash op_n] in *. apply (reads_bind_ret (ReadVarInt 32) (fun n => (DB_COIN, {| op_hash := h; op_n := n |}))). apply reads_VarInt; [lia|exact Hn].
Qed.

End Records.

(** ** Properties *)

Lemma map_id_Forall {A} (f : A -> A) l : Forall (fun x => f x = x) l -> map f l = l.
Proof. induction 1 as [|x l Hx _ IH]; [done|]. cbn. by rewrite Hx, IH. Qed.

(** A record of the database of coins is read back as it was written, the key as the outpoint and the value as
    the coin, whatever follows it: amounts and scripts survive their short forms (a key is decompressed to itself
    again); only a script longer than the limit, which no one can spend, is replaced by [OP_RETURN]. *)
Theorem coin_record_roundtrip `{CurveKeys} o c rest :
  outpoint_ok o -> storable c ->
  read_coin_entry (ser_coin_entry o ++ rest) = Some ((DB_COIN, o), rest)
  /\ exists b, ser_coin c = Some b /\ read_coin (b ++ rest) = Some (stored c, rest)
  /\ (Z.of_nat (length (scriptPubKey (out c))) <= MAX_SCRIPT_SIZE -> nRounds (out c) = -10 -> stored c = c).
Proof.
  intros Ho Hc. split; [by apply coin_entry_ok|]. destruct (coin_ok c Hc) as (b & E & Hr). exists b. split_and!; [done|apply Hr|apply stored_id].
Qed.

(** C39: The undo records of a block, written when no transaction has more inputs than fit in a block, are read back
    as one list of coins per transaction, each coin as [stored] has it: the same height and coinbase flag, and the output with the
    same value, the same script unless that is longer than 10000 bytes, for which OP_RETURN is read, and the rounds of a default
    output, which are not written.  So records are read back as they were written when no script is longer and no output
    has other rounds.  Nothing behind the records is read.  Between code and output stands the dummy version or, for a height
    of zero, nothing. *)
Theorem block_undo_roundtrip `{CurveKeys} vtxundo rest :
  Forall (fun u => Forall storable u /\ Z.of_nat (length u) <= MAX_INPUTS_PER_BLOCK) vtxundo -> Z.of_nat (length vtxundo) <= MAX_SIZE ->
  (exists b, ser_block_undo vtxundo = Some b /\ read_block_undo (b ++ rest) = Some (map (map stored) vtxundo, rest))
  /\ (Forall (Forall (fun c => Z.of_nat (length (scriptPubKey (out c))) <= MAX_SCRIPT_SIZE /\ nRounds (out c) = -10)) vtxundo ->
      map (map stored) vtxundo = vtxundo).
Proof.
  intros Hu Hn. split; [destruct (block_undo_ok vtxundo Hu Hn) as (b & E & Hr); exists b; split; [done|apply Hr]|]. clear Hu Hn.
  intros Hs. apply map_id_Forall. eapply Forall_impl; [exact Hs|]. intros u Hu. apply map_id_Forall. eapply Forall_impl; [exact Hu|].
  intros c [H1 H2]. by apply stored_id.
Qed.

(** ** Witnesses *)

(** The generator of the curve secp256k1, as an uncompressed key, and a library that knows this key alone. *)
Definition be_bytes (n : Z) : list Z := reverse (le_encode 32 n).
Definition generator_x : Z := 0x79be667ef9dcbbac55a06295ce870b07029bfcdb2dce28d959f2815b16f81798.
Definition generator_y : Z := 0x483ada7726a3c4655da4fbfc0e1108a8fd17b448a68554199c47d08ffb10d4b8.
Definition generator : list Z := 4 :: be_bytes generator_x ++ be_bytes generator_y.

Example generator_on_curve :
  (generator_y * generator_y - generator_x * generator_x * generator_x - 7) mod (2 ^ 256 - 2 ^ 32 - 977) = 0.
Proof. reflexivity. Qed.

#[local] Instance one_key : CurveKeys.
Proof.
  exists (fun k => bool_decide (k = generator)) (fun k => if bool_decide (k = 2 :: be_bytes generator_x) then Some generator else None).
  intros x y Hx Hy _ E%bool_decide_eq_true. pose proof (f_equal tail E) as E'. change (x ++ y = be_bytes generator_x ++ be_bytes generator_y) in E'.
  apply app_inj_1 in E' as [-> ->]; [|by rewrite Hx]. reflexivity.
Defined.

(** A script that pays to that key: 33 bytes instead of 67, and back. *)
Definition key_script : list Z := [65] ++ generator ++ [OP_CHECKSIG].

Example key_script_compressed :
  Compress key_script = Some (4 :: be_bytes generator_x) /\ read_script (4 :: be_bytes generator_x) = Some (key_script, []).
Proof. split; vm_compute; reflexivity. Qed.

Definition sample_script : list Z := [OP_DUP; OP_HASH160; 20] ++ replicate 20 7 ++ [OP_EQUALVERIFY; OP_CHECKSIG].
Definition sample_coin : Coin := {| out := CTxOut_make 1250000000 sample_script; fCoinBase := true; coin_nHeight := 300000 |}.

Lemma sample_storable : storable sample_coin.
Proof. split_and!; try done. unfold sample_coin, sample_script. cbn. by repeat constructor. Qed.

(** Three bytes of height and flag, two of the amount, 21 of the script. *)
Example sample_bytes : ser_coin sample_coin = Some ([163; 206; 65; 135; 104; 0] ++ replicate 20 7).
Proof. reflexivity. Qed.

Lemma coin_record_roundtrip_witness :
  exists b, ser_coin sample_coin = Some b /\ read_coin (b ++ [1; 2]) = Some (sample_coin, [1; 2])
  /\ read_coin_entry (ser_coin_entry {| op_hash := 5; op_n := 300 |} ++ [1; 2]) = Some ((DB_COIN, {| op_hash := 5; op_n := 300 |}), [1; 2]).
Proof.
  destruct (coin_record_roundtrip {| op_hash := 5; op_n := 300 |} sample_coin [1; 2]) as (H1 & b & E & H2 & H3); [split; unfold in_u; cbn; lia|apply sample_storable|].
  rewrite H3 in H2 by done. exists b. done.
Defined.

(** A block whose transactions spend a coin of a key hash and one of the key, none, and one with a script that is too long. *)
Definition key_coin : Coin := {| out := CTxOut_make 5000 key_script; fCoinBase := false; coin_nHeight := 7 |}.
Definition long_coin : Coin := {| out := CTxOut_make 5000 (replicate 10001 0); fCoinBase := false; coin_nHeight := 0 |}.
Definition sample_undo : list (list Coin) := [[sample_coin; key_coin]; []; [long_coin]].

Lemma key_storable : storable key_coin.
Proof. split_and!; try done. apply (bool_decide_unpack (bytes_ok key_script)). by vm_compute. Qed.

Lemma long_length : length (scriptPubKey (out long_coin)) = 10001%nat.
Proof. apply length_replicate. Qed.

Lemma long_storable : storable long_coin.
Proof. split_and!; [done|by apply Forall_replicate|rewrite long_length; by vm_compute|done|done]. Qed.

Lemma long_stored : stored long_coin = {| out := CTxOut_make 5000 [OP_RETURN]; fCoinBase := false; coin_nHeight := 0 |}.
Proof. unfold stored, stored_out. rewrite long_length. reflexivity. Qed.

Lemma sample_undo_ok : Forall (fun u => Forall storable u /\ Z.of_nat (length u) <= MAX_INPUTS_PER_BLOCK) sample_undo.
Proof.
  apply Forall_cons; split; [|apply Forall_cons; split; [|apply Forall_cons; split; [|constructor]]]; (split; [|by vm_compute]).
  - apply Forall_cons; split; [apply sample_storable|]. apply Forall_cons; split; [apply key_storable|constructor].
  - constructor.
  - apply Forall_cons; split; [apply long_storable|constructor].
Qed.

Lemma sample_undo_stored : map (map stored) sample_undo = [[sample_coin; key_coin]; []; [stored long_coin]].
Proof. unfold sample_undo. cbn [map]. by rewrite (stored_id sample_coin), (stored_id key_coin) by done. Qed.

Lemma block_undo_roundtrip_witness :
  exists b, ser_block_undo sample_undo = Some b
  /\ read_block_undo (b ++ [9]) = Some ([[sample_coin; key_coin]; []; [{| out := CTxOut_make 5000 [OP_RETURN]; fCoinBase := false; coin_nHeight := 0 |}]], [9]).
Proof.
  rewrite <- long_stored, <- sample_undo_stored. apply (proj1 (block_undo_roundtrip sample_undo [9] sample_undo_ok ltac:(by vm_compute))).
Defined.
