(* ===== verification/Base58.v ===== *)
(** * Base 58: addresses and secrets as text

    Models [src/src/base58.h] and [src/src/base58.cpp]: the two conversions of bases, the checksum, the version bytes,
    addresses of the three kinds and secrets, with the prefixes of [src/src/chainparams.cpp].

    A string is the list of its characters as bytes; the functions that take a [const char*] see it up to its first zero.
    The vectors of digits, which the code runs through in reverse, are kept with the least significant digit first.
    The sizes of the vectors and the counts are [int] in the code: a size is wrapped to 32 bits, and [None] is a failed
    [assert], the exception of a vector of a negative size or a count of leading digits beyond [int].  The result of a
    function that returns [false] is [Some None].  The double hash is a parameter. *)

From stdpp Require Import gmap.
From S2P Require Import Prelude.

(** ** The digits *)

(** [pszBase58]: no 0, I, O and l. *)
Definition pszBase58 : list Z :=
  (* 123456789ABCDEFGHJKLMNPQRSTUVWXYZabcdefghijkmnopqrstuvwxyz *)
  seqZ 49 9 ++ seqZ 65 8 ++ seqZ 74 5 ++ seqZ 80 11 ++ seqZ 97 11 ++ seqZ 109 14.

(** [isspace] in the "C" locale. *)
Definition isspace (c : Z) : bool := (c =? 32) || ((9 <=? c) && (c <=? 13)).

(** [strchr(pszBase58, c) - pszBase58] *)
Fixpoint index_of (c : Z) (l : list Z) (i : Z) : option Z :=
  match l with
  | [] => None
  | x :: l => if x =? c then Some i else index_of c l (i + 1)
  end.

(** The loop over the digits: [digits = digits * mul + carry]; the new digits, the carry left and the digits passed. *)
Fixpoint mul_add (base mul : Z) (digits : list Z) (carry : Z) (i length : nat) : list Z * Z * nat :=
  match digits with
  | [] => ([], carry, i)
  | it :: digits' =>
      if negb (carry =? 0) || (i <? length)%nat then
        let carry := carry + mul * it in
        let '(rest, out, i) := mul_add base mul digits' (carry / base) (S i) length in
        (carry mod base :: rest, out, i)
      else (digits, carry, i)
  end.

(** The loop over the input; the carry must be used up each time. *)
Fixpoint convert (base mul : Z) (l : list Z) (digits : list Z) (length : nat) : option (list Z * nat) :=
  match l with
  | [] => Some (digits, length)
  | c :: l =>
      let '(digits, carry, i) := mul_add base mul digits c 0 length in
      if negb (carry =? 0) then None else convert base mul l digits i
  end.

Fixpoint drop_zeros (l : list Z) : list Z :=
  match l with
  | 0 :: l => drop_zeros l
  | _ => l
  end.

Fixpoint count_lead (c : Z) (l : list Z) : nat :=
  match l with
  | x :: l => if x =? c then S (count_lead c l) else O
  | [] => O
  end.

(** The digits from the most significant one, without leading zeros. *)
Definition significant (digits : list Z) (length : nat) : list Z := drop_zeros (reverse (take length digits)).

(** [int size = ...; std::vector<unsigned char> b(size)]: the number of digits. *)
Definition int_size (n : Z) : option nat := let size := i32 n in if size <? 0 then None else Some (Z.to_nat size).

(** The counter [int zeroes]. *)
Definition int_count (n : nat) : option nat := if Z.of_nat n <? 2 ^ 31 then Some n else None.

Definition EncodeBase58 (v : list Z) : option (list Z) :=
  zeroes ← int_count (count_lead 0 v);
  let v := drop zeroes v in
  size ← int_size (Z.of_nat (length v) * 138 / 100 + 1);
  '(b58, length) ← convert 58 256 v (replicate size 0) 0;
  Some (replicate zeroes 49 ++ map (fun d => pszBase58 !!! Z.to_nat d) (significant b58 length)).

Fixpoint skip_spaces (s : list Z) : list Z :=
  match s with
  | c :: s' => if isspace c then skip_spaces s' else s
  | [] => []
  end.

(** What a [const char*] to the string shows: the characters up to a zero. *)
Fixpoint c_str (s : list Z) : list Z :=
  match s with
  | c :: s' => if c =? 0 then [] else c :: c_str s'
  | [] => []
  end.

(** The characters up to a space: the digits, how many are used, and what follows. *)
Fixpoint decode_loop (s : list Z) (b256 : list Z) (length : nat) : option (option (list Z * nat * list Z)) :=
  match s with
  | [] => Some (Some (b256, length, []))
  | c :: s' =>
      if isspace c then Some (Some (b256, length, s))
      else match index_of c pszBase58 0 with
           | None => Some None
           | Some carry =>
               let '(b256, carry, i) := mul_add 256 58 b256 carry 0 length in
               if negb (carry =? 0) then None else decode_loop s' b256 i
           end
  end.

Definition DecodeBase58 (s : list Z) : option (option (list Z)) :=
  let s := skip_spaces (c_str s) in
  zeroes ← int_count (count_lead 49 s);
  let s := drop zeroes s in
  size ← int_size (u64 (Z.of_nat (length s) * 733) / 1000 + 1);
  r ← decode_loop s (replicate size 0) 0;
  match r with
  | None => Some None
  | Some (b256, length, rest) =>
      if bool_decide (skip_spaces rest = []) then Some (Some (replicate zeroes 0 ++ significant b256 length)) else Some None
  end.

(** ** The checksum *)

Section Check.
(** [Hash(begin, end)]: the 32 bytes of the double SHA-256. *)
Variable Hash : list Z -> list Z.

Definition EncodeBase58Check (vchIn : list Z) : option (list Z) := EncodeBase58 (vchIn ++ take 4 (Hash vchIn)).

Definition DecodeBase58Check (s : list Z) : option (option (list Z)) :=
  r ← DecodeBase58 s;
  match r with
  | None => Some None
  | Some v =>
      if (length v <? 4)%nat then Some None
      else
        let data := take (length v - 4) v in
        if bool_decide (take 4 (Hash data) = drop (length v - 4) v) then Some (Some data) else Some None
  end.

(** ** Versioned data *)

Record CBase58Data := { vchVersion : list Z; vchData : list Z }.

(** [CChainParams::Base58Prefix] *)
Record Base58Prefixes := {
  PUBKEY_ADDRESS_MINR : list Z; SCRIPT_ADDRESS_MINR : list Z; SECRET_KEY_MINR : list Z;
  PUBKEY_ADDRESS_BTC : list Z; SCRIPT_ADDRESS_BTC : list Z; SECRET_KEY_BTC : list Z;
  PUBKEY_ADDRESS_ZEC : list Z; SCRIPT_ADDRESS_ZEC : list Z; SECRET_KEY_ZEC : list Z;
  EXT_PUBLIC_KEY : list Z; EXT_SECRET_KEY : list Z;
}.

Variable Params : Base58Prefixes.

(** [CBase58Data::SetString]; data and version are cleared when it fails. *)
Definition SetString (s : list Z) (nVersionBytes : nat) : option (option CBase58Data) :=
  r ← DecodeBase58Check s;
  match r with
  | None => Some None
  | Some vchTemp =>
      if (length vchTemp <? nVersionBytes)%nat then Some None
      else
        let two := take 2 vchTemp in
        let nVersionBytes := if (2 <=? length vchTemp)%nat && (bool_decide (two = PUBKEY_ADDRESS_ZEC Params) || bool_decide (two = SCRIPT_ADDRESS_ZEC Params))
                             then 2%nat else nVersionBytes in
        Some (Some {| vchVersion := take nVersionBytes vchTemp; vchData := drop nVersionBytes vchTemp |})
  end.

Definition ToString (d : CBase58Data) : option (list Z) := EncodeBase58Check (vchVersion d ++ vchData d).

(** ** Addresses *)

Inductive AddressType := ADDRESS_MINR | ADDRESS_BTC | ADDRESS_ZEC.
Inductive CTxDestination := CNoDestination | CKeyID (id : list Z) | CScriptID (id : list Z).

Definition pubkey_prefix (t : AddressType) : list Z :=
  match t with ADDRESS_MINR => PUBKEY_ADDRESS_MINR Params | ADDRESS_BTC => PUBKEY_ADDRESS_BTC Params | ADDRESS_ZEC => PUBKEY_ADDRESS_ZEC Params end.
Definition script_prefix (t : AddressType) : list Z :=
  match t with ADDRESS_MINR => SCRIPT_ADDRESS_MINR Params | ADDRESS_BTC => SCRIPT_ADDRESS_BTC Params | ADDRESS_ZEC => SCRIPT_ADDRESS_ZEC Params end.

(** [CMineriumAddress::Set]; [None] is [false]. *)
Definition address_Set (dest : CTxDestination) (sysVer : AddressType) : option CBase58Data :=
  match dest with
  | CKeyID id => Some {| vchVersion := pubkey_prefix sysVer; vchData := id |}
  | CScriptID id => Some {| vchVersion := script_prefix sysVer; vchData := id |}
  | CNoDestination => None
  end.

Definition is_pubkey_version (v : list Z) : bool :=
  bool_decide (v = PUBKEY_ADDRESS_MINR Params) || bool_decide (v = PUBKEY_ADDRESS_BTC Params) || bool_decide (v = PUBKEY_ADDRESS_ZEC Params).
Definition is_script_version (v : list Z) : bool :=
  bool_decide (v = SCRIPT_ADDRESS_MINR Params) || bool_decide (v = SCRIPT_ADDRESS_BTC Params) || bool_decide (v = SCRIPT_ADDRESS_ZEC Params).

Definition address_IsValid (d : CBase58Data) : bool :=
  (length (vchData d) =? 20)%nat && (is_pubkey_version (vchVersion d) || is_script_version (vchVersion d)).

Definition address_Get (d : CBase58Data) : CTxDestination :=
  if negb (address_IsValid d) then CNoDestination
  else if is_pubkey_version (vchVersion d) then CKeyID (take 20 (vchData d))
  else if is_script_version (vchVersion d) then CScriptID (take 20 (vchData d))
  else CNoDestination.

Definition GetIndexKey (d : CBase58Data) : option (list Z * Z) :=
  if negb (address_IsValid d) then None
  else if bool_decide (vchVersion d = PUBKEY_ADDRESS_MINR Params) then Some (take 20 (vchData d), 1)
  else if bool_decide (vchVersion d = SCRIPT_ADDRESS_MINR Params) then Some (take 20 (vchData d), 2)
  else None.

Definition GetKeyID (d : CBase58Data) : option (list Z) :=
  if negb (address_IsValid d) || negb (is_pubkey_version (vchVersion d)) then None else Some (take 20 (vchData d)).

Definition IsScript (d : CBase58Data) : bool := address_IsValid d && is_script_version (vchVersion d).

(** ** Secrets *)

(** A [CKey]: 32 bytes, and whether its public key is compressed. *)
Record CKey := { fValid : bool; fCompressed : bool; keydata : list Z }.

(** [CKey::Check]: the library's test of a private key. *)
Variable CheckKey : list Z -> bool.

Definition CKey_default : CKey := {| fValid := false; fCompressed := false; keydata := replicate 32 0 |}.

(** [CKey::Set] *)
Definition CKey_Set (k : CKey) (bytes : list Z) (fCompressedIn : bool) : CKey :=
  if negb (length bytes =? length (keydata k))%nat then {| fValid := false; fCompressed := fCompressed k; keydata := keydata k |}
  else if CheckKey bytes then {| fValid := true; fCompressed := fCompressedIn; keydata := bytes |}
  else {| fValid := false; fCompressed := fCompressed k; keydata := keydata k |}.

Definition SetKey (vchSecret : CKey) : option CBase58Data :=
  if negb (fValid vchSecret) then None
  else Some {| vchVersion := SECRET_KEY_MINR Params; vchData := keydata vchSecret ++ (if fCompressed vchSecret then [1] else []) |}.

Definition GetKey (d : CBase58Data) : option CKey :=
  if negb (32 <=? length (vchData d))%nat then None
  else Some (CKey_Set CKey_default (take 32 (vchData d)) ((32 <? length (vchData d))%nat && (vchData d !!! 32%nat =? 1))).

Definition secret_IsValid (d : CBase58Data) : bool :=
  ((length (vchData d) =? 32)%nat || ((length (vchData d) =? 33)%nat && (vchData d !!! 32%nat =? 1)))
  && (bool_decide (vchVersion d = SECRET_KEY_MINR Params) || bool_decide (vchVersion d = SECRET_KEY_BTC Params)).

(** [CMineriumSecret::SetString]: the data and whether it is a valid secret. *)
Definition secret_SetString (s : list Z) : option (option CBase58Data) :=
  r ← SetString s 1;
  match r with
  | Some d => if secret_IsValid d then Some (Some d) else Some None
  | None => Some None
  end.

End Check.

(** ** The networks *)

Definition main_prefixes : Base58Prefixes :=
  {| PUBKEY_ADDRESS_MINR := [50]; SCRIPT_ADDRESS_MINR := [63]; SECRET_KEY_MINR := [48];
     PUBKEY_ADDRESS_BTC := [0]; SCRIPT_ADDRESS_BTC := [5]; SECRET_KEY_BTC := [128];
     PUBKEY_ADDRESS_ZEC := [0x1C; 0xB8]; SCRIPT_ADDRESS_ZEC := [0x1C; 0xBD]; SECRET_KEY_ZEC := [128];
     EXT_PUBLIC_KEY := [0x04; 0x88; 0xb2; 0x1e]; EXT_SECRET_KEY := [0x04; 0x88; 0xad; 0xe4] |}.

(** [std::vector<unsigned char>(0x1C, 0xB8)] is 0x1C elements; the prefixes of extended keys are not set. *)
Definition test_prefixes : Base58Prefixes :=
  {| PUBKEY_ADDRESS_MINR := [65]; SCRIPT_ADDRESS_MINR := [60]; SECRET_KEY_MINR := [23];
     PUBKEY_ADDRESS_BTC := [111]; SCRIPT_ADDRESS_BTC := [196]; SECRET_KEY_BTC := [239];
     PUBKEY_ADDRESS_ZEC := replicate 0x1C 0xB8; SCRIPT_ADDRESS_ZEC := replicate 0x1C 0xBD; SECRET_KEY_ZEC := [239];
     EXT_PUBLIC_KEY := []; EXT_SECRET_KEY := [] |}.

(** The development network and the regression test. *)
Definition dev_prefixes : Base58Prefixes :=
  {| PUBKEY_ADDRESS_MINR := [66]; SCRIPT_ADDRESS_MINR := [61]; SECRET_KEY_MINR := [24];
     PUBKEY_ADDRESS_BTC := [111]; SCRIPT_ADDRESS_BTC := [196]; SECRET_KEY_BTC := [239];
     PUBKEY_ADDRESS_ZEC := [0x1C; 0xB8]; SCRIPT_ADDRESS_ZEC := [0x1C; 0xBD]; SECRET_KEY_ZEC := [239];
     EXT_PUBLIC_KEY := [0x04; 0x35; 0x87; 0xcf]; EXT_SECRET_KEY := [0x04; 0x35; 0x83; 0x94] |}.

(** ** Lemmas: numbers in a base *)

(** The value of digits, the least significant or the most significant one first. *)
Fixpoint value_le (base : Z) (l : list Z) : Z := match l with [] => 0 | d :: l => d + base * value_le base l end.
Definition value_be (base : Z) (l : list Z) : Z := foldl (fun n d => n * base + d) 0 l.
Abbreviation digits_ok base := (Forall (fun d => 0 <= d < base)) (only parsing).
Abbreviation zeros := (Forall (fun d => d = 0)) (only parsing).

(** No leading zero. *)
Definition no_lead (l : list Z) : Prop := match l with 0 :: _ => False | _ => True end.

Lemma value_be_app base l d : value_be base (l ++ [d]) = value_be base l * base + d.
Proof. unfold value_be. by rewrite foldl_app. Qed.

Lemma foldl_value base n l : foldl (fun n d => n * base + d) n l = n * base ^ Z.of_nat (length l) + value_be base l.
Proof.
  induction l as [|d l IH] using rev_ind; [cbn; lia|]. rewrite foldl_app. cbn [foldl]. rewrite value_be_app, IH, length_app. cbn [length].
  replace (Z.of_nat (length l + 1)) with (Z.of_nat (length l) + 1) by lia. rewrite Z.pow_add_r by lia. lia.
Qed.

Lemma value_be_reverse base l : value_be base (reverse l) = value_le base l.
Proof. induction l as [|d l IH]; [done|]. rewrite reverse_cons, value_be_app, IH. cbn. lia. Qed.

Lemma value_le_range base l : 0 < base -> digits_ok base l -> 0 <= value_le base l < base ^ Z.of_nat (length l).
Proof.
  intros Hb. induction 1 as [|d l Hd Hl IH]; [cbn; lia|]. cbn [value_le length]. rewrite Nat2Z.inj_succ, Z.pow_succ_r by lia. nia.
Qed.

Lemma value_be_range base l : 0 < base -> digits_ok base l -> 0 <= value_be base l < base ^ Z.of_nat (length l).
Proof.
  intros Hb Hl. pose proof (value_le_range base (reverse l) Hb ltac:(by apply Forall_reverse)) as Hr.
  by rewrite length_reverse, <- value_be_reverse, reverse_involutive in Hr.
Qed.

Lemma value_le_zeros base l : zeros l -> value_le base l = 0.
Proof. induction 1 as [|d l -> _ IH]; [done|]. cbn. lia. Qed.

Lemma value_le_app base l k : value_le base (l ++ k) = value_le base l + base ^ Z.of_nat (length l) * value_le base k.
Proof. induction l as [|d l IH]; [cbn; lia|]. cbn [app value_le length]. rewrite IH, Nat2Z.inj_succ, Z.pow_succ_r by lia. lia. Qed.

Lemma value_be_pos base l : 1 < base -> digits_ok base l -> no_lead l -> l <> [] -> 0 < value_be base l.
Proof.
  intros Hb Hl Hn Hne. destruct l as [|d l]; [done|]. apply Forall_cons in Hl as [Hd Hl]. unfold value_be. cbn [foldl]. rewrite foldl_value.
  pose proof (value_be_range base l ltac:(lia) Hl). pose proof (Z.pow_pos_nonneg base (Z.of_nat (length l)) ltac:(lia) ltac:(lia)).
  assert (d <> 0) by (intros ->; done). nia.
Qed.

Lemma no_lead_app l d : no_lead (l ++ [d]) -> no_lead l.
Proof. by destruct l as [|[] l]. Qed.

(** A number has one writing without leading zeros. *)
Lemma value_be_inj base l k :
  1 < base -> digits_ok base l -> digits_ok base k -> no_lead l -> no_lead k -> value_be base l = value_be base k -> l = k.
Proof.
  intros Hb. revert k. induction l as [|d l IH] using rev_ind; intros k Hl Hk Nl Nk E.
  - destruct k as [|c k]; [done|]. pose proof (value_be_pos base (c :: k) Hb Hk Nk ltac:(done)). change (value_be base []) with 0 in E. lia.
  - pose proof (value_be_pos base (l ++ [d]) Hb Hl Nl ltac:(by destruct l)). apply Forall_app in Hl as [Hl Hd]. apply Forall_cons in Hd as [Hd _]. destruct k as [|c k _] using rev_ind.
    + change (value_be base []) with 0 in E. lia.
    + apply Forall_app in Hk as [Hk Hc]. apply Forall_cons in Hc as [Hc _]. rewrite !value_be_app in E.
      assert (d = c) as ->.
      { pose proof (f_equal (fun z => z mod base) E) as E'. cbn beta in E'. rewrite !(Z.add_comm (_ * _)), !Z.mod_add, !Z.mod_small in E' by lia. done. }
      assert (value_be base l = value_be base k) as E' by nia.
      f_equal. apply IH; try done; by eapply no_lead_app.
Qed.

(** ** Lemmas: the conversion *)

Lemma mul_add_ok base mul digits carry i len ds out i' :
  1 < base -> 0 <= mul -> digits_ok base digits -> 0 <= carry -> zeros (drop (len - i) digits) -> mul_add base mul digits carry i len = (ds, out, i') ->
  length ds = length digits /\ digits_ok base ds /\ 0 <= out /\ value_le base ds + out * base ^ Z.of_nat (length digits) = mul * value_le base digits + carry
  /\ (i <= i')%nat /\ zeros (drop (i' - i) ds).
Proof.
  intros Hb Hm. revert carry i ds out i'. induction digits as [|it digits IH]; intros carry i ds out i' Hd Hc Hz; cbn [mul_add].
  { intros [= <- <- <-]. rewrite drop_nil. split_and!; try done. cbn. lia. }
  apply Forall_cons in Hd as [Hit Hd]. destruct (negb (carry =? 0) || (i <? len)%nat) eqn:Eg.
  - destruct (mul_add base mul digits ((carry + mul * it) / base) (S i) len) as [[rest out0] i0] eqn:E. intros [= <- <- <-].
    apply IH in E as (H1 & H2 & H3 & H4 & H5 & H6); [|done|apply Z.div_pos; nia|].
    2: { destruct (len - i)%nat as [|n] eqn:El; [|replace (len - S i)%nat with n by lia; exact Hz]. replace (len - S i)%nat with 0%nat by lia. rewrite drop_0 in *. by apply Forall_cons in Hz as [_ Hz]. }
    pose proof (Z.div_mod (carry + mul * it) base ltac:(lia)). pose proof (Z.mod_pos_bound (carry + mul * it) base ltac:(lia)).
    split_and!; [cbn; lia|by constructor|done| |lia|].
    + cbn [value_le length]. rewrite Nat2Z.inj_succ, Z.pow_succ_r by lia. nia.
    + replace (i0 - i)%nat with (S (i0 - S i)) by lia. exact H6.
  - intros [= <- <- <-]. apply orb_false_iff in Eg as [Ec%negb_false_iff%Z.eqb_eq El%Nat.ltb_ge]. subst carry. replace (len - i)%nat with 0%nat in Hz by lia. rewrite drop_0 in Hz.
    rewrite (value_le_zeros base (it :: digits) Hz), Nat.sub_diag, drop_0. split_and!; try done; [by constructor|lia].
Qed.

Lemma mul_add_fits base mul digits carry len :
  1 < base -> 0 <= mul -> digits_ok base digits -> 0 <= carry -> zeros (drop len digits) -> mul * value_le base digits + carry < base ^ Z.of_nat (length digits) ->
  exists ds i, mul_add base mul digits carry 0 len = (ds, 0, i) /\ length ds = length digits /\ digits_ok base ds
  /\ value_le base ds = mul * value_le base digits + carry /\ zeros (drop i ds).
Proof.
  intros Hb Hm Hd Hc Hz Hv. destruct (mul_add base mul digits carry 0 len) as [[ds out] i] eqn:E.
  apply mul_add_ok in E as (H1 & H2 & H3 & H4 & _ & H5); [|done|done|done|done|by rewrite Nat.sub_0_r]. rewrite Nat.sub_0_r in H5.
  pose proof (value_le_range base ds ltac:(lia) H2). assert (out = 0) as -> by nia. exists ds, i. split_and!; try done. lia.
Qed.

Lemma convert_ok base mul l digits len :
  1 < base -> 1 < mul -> digits_ok base digits -> digits_ok mul l -> zeros (drop len digits) ->
  foldl (fun n d => n * mul + d) (value_le base digits) l < base ^ Z.of_nat (length digits) ->
  exists ds i, convert base mul l digits len = Some (ds, i) /\ digits_ok base ds /\ zeros (drop i ds) /\ value_le base ds = foldl (fun n d => n * mul + d) (value_le base digits) l.
Proof.
  intros Hb Hm. revert digits len. induction l as [|c l IH]; intros digits len Hd Hl Hz Hv; cbn [convert]; [by eexists _, _|].
  apply Forall_cons in Hl as [Hc Hl]. cbn [foldl] in *.
  assert (mul * value_le base digits + c < base ^ Z.of_nat (length digits)) as Hfit.
  { rewrite foldl_value in Hv. pose proof (value_be_range mul l ltac:(lia) Hl). pose proof (Z.pow_pos_nonneg mul (Z.of_nat (length l)) ltac:(lia) ltac:(lia)).
    pose proof (value_le_range base digits ltac:(lia) Hd). nia. }
  destruct (mul_add_fits base mul digits c len Hb ltac:(lia) Hd ltac:(lia) Hz Hfit) as (ds & i & -> & H1 & H2 & H3 & H4). cbn [Z.eqb negb].
  destruct (IH ds i H2 Hl H4) as (ds' & i' & -> & H5 & H6 & H7).
  { by rewrite H1, H3, (Z.mul_comm mul). }
  exists ds', i'. split_and!; try done. by rewrite H7, H3, (Z.mul_comm mul).
Qed.

Lemma drop_zeros_ok base l : no_lead (drop_zeros l) /\ (digits_ok base l -> digits_ok base (drop_zeros l)) /\ value_be base (drop_zeros l) = value_be base l.
Proof.
  induction l as [|[] l IH]; cbn [drop_zeros]; try done. destruct IH as (H1 & H2 & H3). split_and!; [done| |].
  - intros [_ Hl]%Forall_cons. by apply H2.
  - rewrite H3. done.
Qed.

Lemma significant_ok base ds i : digits_ok base ds -> zeros (drop i ds) ->
  no_lead (significant ds i) /\ digits_ok base (significant ds i) /\ value_be base (significant ds i) = value_le base ds.
Proof.
  intros Hd Hz. unfold significant. destruct (drop_zeros_ok base (reverse (take i ds))) as (H1 & H2 & H3). split_and!; [done| |].
  - apply H2, Forall_reverse. by apply Forall_take.
  - rewrite H3, value_be_reverse. rewrite <- (take_drop i ds) at 2. rewrite value_le_app, (value_le_zeros base _ Hz). lia.
Qed.

(** The sizes the code allocates. *)
Lemma size_fits a b p q n : 1 < a -> 1 < b -> 0 < q -> 0 <= p -> a ^ q <= b ^ p -> a ^ Z.of_nat n < b ^ (Z.of_nat n * p / q + 1).
Proof.
  intros Ha Hb Hq Hp H. set (s := Z.of_nat n * p / q + 1). pose proof (Z.div_mod (Z.of_nat n * p) q ltac:(lia)) as Hd. pose proof (Z.mod_pos_bound (Z.of_nat n * p) q ltac:(lia)) as Hr.
  assert (0 <= Z.of_nat n * p / q) by (apply Z.div_pos; nia).
  apply (Z.pow_lt_mono_l_iff _ _ q); try lia; try (apply Z.pow_nonneg; lia). rewrite <- !Z.pow_mul_r by lia.
  apply Z.le_lt_trans with ((b ^ p) ^ Z.of_nat n).
  - rewrite (Z.mul_comm _ q), Z.pow_mul_r by lia. apply Z.pow_le_mono_l. split; [apply Z.pow_nonneg; lia|done].
  - rewrite <- Z.pow_mul_r by lia. apply Z.pow_lt_mono_r; [lia|apply Z.mul_nonneg_nonneg; lia|]. unfold s. nia.
Qed.

(** ** Lemmas: the alphabet and the text *)

Definition base58_char (d : Z) : Z := pszBase58 !!! Z.to_nat d.

Lemma base58_char_ok d : 0 <= d < 58 -> index_of (base58_char d) pszBase58 0 = Some d /\ isspace (base58_char d) = false /\ (base58_char d =? 49) = (d =? 0).
Proof.
  intros Hd. assert (forallb (fun d => bool_decide (index_of (base58_char d) pszBase58 0 = Some d) && negb (isspace (base58_char d)) && Bool.eqb (base58_char d =? 49) (d =? 0)) (seqZ 0 58) = true) as H by by vm_compute.
  rewrite forallb_forall in H. specialize (H d ltac:(apply list_elem_of_In, elem_of_seqZ; lia)). rewrite !andb_true_iff in H. destruct H as [[H1 H2] H3].
  apply bool_decide_eq_true in H1. apply negb_true_iff in H2. apply eqb_prop in H3. done.
Qed.

Lemma index_of_ok c l i d : index_of c l i = Some d -> i <= d < i + Z.of_nat (length l) /\ l !! Z.to_nat (d - i) = Some c.
Proof.
  revert i. induction l as [|x l IH]; intros i; cbn [index_of]; [done|]. destruct (Z.eqb_spec x c) as [->|Hx].
  - intros [= <-]. rewrite Z.sub_diag. cbn. split; [lia|done].
  - intros H. apply IH in H as [H1 H2]. cbn [length]. split; [lia|]. replace (Z.to_nat (d - i)) with (S (Z.to_nat (d - (i + 1)))) by lia. done.
Qed.

Lemma base58_index c d : index_of c pszBase58 0 = Some d -> 0 <= d < 58 /\ c = base58_char d.
Proof.
  intros H. apply index_of_ok in H as [H1 H2]. change (Z.of_nat (length pszBase58)) with 58 in H1. split; [lia|]. unfold base58_char. rewrite Z.sub_0_r in H2. by rewrite (list_lookup_total_correct _ _ _ H2).
Qed.

Lemma count_lead_ok c l : l = replicate (count_lead c l) c ++ drop (count_lead c l) l /\ forall x k, drop (count_lead c l) l = x :: k -> x <> c.
Proof.
  induction l as [|x l [IH1 IH2]]; cbn [count_lead]; [done|]. destruct (Z.eqb_spec x c) as [->|Hx].
  - cbn. split; [by f_equal|done].
  - rewrite drop_0. split; [done|]. by intros y k [= -> ->].
Qed.

Lemma count_lead_app c z l : (forall x k, l = x :: k -> x <> c) -> count_lead c (replicate z c ++ l) = z /\ drop z (replicate z c ++ l) = l.
Proof.
  intros H. induction z as [|z [IH1 IH2]]; cbn [replicate app count_lead drop].
  - split; [|done]. destruct l as [|x l]; [done|]. cbn. rewrite (proj2 (Z.eqb_neq x c)); [done|]. by eapply H.
  - rewrite Z.eqb_refl. split; [by rewrite IH1|done].
Qed.

Lemma no_lead_head l : no_lead l <-> forall x k, l = x :: k -> x <> 0.
Proof. split; [by intros H x k -> ->|]. destruct l as [|[] l]; try done. intros H. by destruct (H 0 l eq_refl). Qed.

Abbreviation spaces := (Forall (fun c => isspace c = true)) (only parsing).

Lemma skip_spaces_app pre l : spaces pre -> (forall x k, l = x :: k -> isspace x = false) -> skip_spaces (pre ++ l) = l.
Proof. intros Hp Hl. induction Hp as [|c pre Hc _ IH]; cbn; [|by rewrite Hc]. destruct l as [|x l]; [done|]. cbn. by rewrite (Hl x l eq_refl). Qed.

Lemma skip_spaces_ok s : exists pre, spaces pre /\ s = pre ++ skip_spaces s.
Proof.
  induction s as [|c s (pre & Hp & E)]; cbn [skip_spaces]; [by exists []|]. destruct (isspace c) eqn:Ec; [|by exists []].
  exists (c :: pre). split; [by constructor|]. cbn. by f_equal.
Qed.

Lemma spaces_skip s : spaces s -> skip_spaces s = [].
Proof. intros H. rewrite <- (app_nil_r s). by apply skip_spaces_app. Qed.

(** The text for [z] leading zeros and the digits [D]. *)
Definition text (z : nat) (D : list Z) : list Z := replicate z 49 ++ map base58_char D.

(** Bytes and digits of the same number, without leading zeros. *)
Record same_number (D v : list Z) : Prop := {
  sn_digits : digits_ok 58 D; sn_bytes : digits_ok 256 v; sn_lead : no_lead D; sn_lead' : no_lead v; sn_value : value_be 58 D = value_be 256 v;
}.

Lemma same_number_bytes D v v' : same_number D v -> same_number D v' -> v = v'.
Proof. intros [A1 A2 A3 A4 A5] [B1 B2 B3 B4 B5]. apply (value_be_inj 256); try done. by rewrite <- A5. Qed.

Lemma same_number_digits D D' v : same_number D v -> same_number D' v -> D = D'.
Proof. intros [A1 A2 A3 A4 A5] [B1 B2 B3 B4 B5]. apply (value_be_inj 58); try done. by rewrite A5. Qed.

Lemma replicate_zeros n : zeros (replicate n 0).
Proof. by apply Forall_replicate. Qed.

Lemma zeros_digits base n : 0 < base -> digits_ok base (replicate n 0).
Proof. intros Hb. apply Forall_replicate. lia. Qed.

Lemma int_size_ok n : 0 <= n < 2 ^ 31 -> int_size n = Some (Z.to_nat n).
Proof. intros Hn. unfold int_size. rewrite swrap_small by (unfold in_s; lia). by rewrite (proj2 (Z.ltb_ge _ _)) by lia. Qed.

Lemma int_count_ok n : Z.of_nat n < 2 ^ 31 -> int_count n = Some n.
Proof. intros Hn. unfold int_count. by rewrite (proj2 (Z.ltb_lt _ _)). Qed.

(** The most bytes for which the size of the vector of digits is an [int]. *)
Definition MAX_BYTES : Z := 1556147570.
Abbreviation fits v := (Z.of_nat (length v) <= MAX_BYTES) (only parsing).
Abbreviation fits_text s := (Z.of_nat (length (c_str s)) < 2 ^ 31) (only parsing).

Lemma encode_size n : 0 <= n <= MAX_BYTES -> int_size (n * 138 / 100 + 1) = Some (Z.to_nat (n * 138 / 100 + 1)).
Proof. unfold MAX_BYTES. intros Hn. apply int_size_ok. pose proof (Z.div_mod (n * 138) 100). pose proof (Z.mod_pos_bound (n * 138) 100). lia. Qed.

Lemma decode_size n : 0 <= n < 2 ^ 31 -> int_size (u64 (n * 733) / 1000 + 1) = Some (Z.to_nat (n * 733 / 1000 + 1)).
Proof.
  intros Hn. rewrite wrap_small by (unfold in_u; lia). apply int_size_ok. pose proof (Z.div_mod (n * 733) 1000). pose proof (Z.mod_pos_bound (n * 733) 1000). lia.
Qed.

Lemma EncodeBase58_ok z v : digits_ok 256 v -> no_lead v -> fits (replicate z 0 ++ v) -> exists D, same_number D v /\ EncodeBase58 (replicate z 0 ++ v) = Some (text z D).
Proof.
  intros Hv Hn Hf. rewrite length_app, length_replicate in Hf. unfold EncodeBase58. destruct (count_lead_app 0 z v (proj1 (no_lead_head v) Hn)) as [-> Ed].
  rewrite int_count_ok by (unfold MAX_BYTES in *; lia). cbn [mbind option_bind]. rewrite Ed, encode_size by lia. cbn [mbind option_bind].
  set (n := Z.of_nat (length v) * 138 / 100 + 1). assert (0 <= n) as Hn0 by (unfold n; pose proof (Z.div_pos (Z.of_nat (length v) * 138) 100); lia). set (size := Z.to_nat n).
  destruct (convert_ok 58 256 v (replicate size 0) 0) as (ds & i & -> & H1 & H2 & H3); [lia|lia|by apply zeros_digits|done|rewrite drop_0; apply replicate_zeros| |].
  { rewrite (value_le_zeros 58 _ (replicate_zeros _)), length_replicate. unfold size. rewrite Z2Nat.id by done.
    eapply Z.le_lt_trans; [|apply (size_fits 256 58 138 100 (length v)); [lia|lia|lia|lia|by apply Z.leb_le; vm_compute]].
    pose proof (value_be_range 256 v ltac:(lia) Hv). unfold value_be in *. lia. }
  cbn [mbind option_bind]. destruct (significant_ok 58 ds i H1 H2) as (G1 & G2 & G3). exists (significant ds i). split; [|done]. constructor; try done.
  rewrite G3, H3, (value_le_zeros 58 _ (replicate_zeros _)). done.
Qed.

(** The loop of the decoder never runs out of room, whatever the characters. *)
Lemma decode_loop_ok s ds len :
  digits_ok 256 ds -> zeros (drop len ds) -> (value_le 256 ds + 1) * 58 ^ Z.of_nat (length s) <= 256 ^ Z.of_nat (length ds) ->
  exists r, decode_loop s ds len = Some r
  /\ forall ds' i rest, r = Some (ds', i, rest) -> digits_ok 256 ds' /\ zeros (drop i ds')
     /\ exists D, s = map base58_char D ++ rest /\ digits_ok 58 D /\ value_le 256 ds' = foldl (fun n d => n * 58 + d) (value_le 256 ds) D /\ (forall c k, rest = c :: k -> isspace c = true).
Proof.
  revert ds len. induction s as [|c s IH]; intros ds len Hd Hz Hv; cbn [decode_loop].
  { eexists. split; [reflexivity|]. intros ds' i rest [= -> -> <-]. split_and!; try done. exists []. split_and!; [done|constructor|done|done]. }
  destruct (isspace c) eqn:Es.
  { eexists. split; [reflexivity|]. intros ds' i rest [= -> -> <-]. split_and!; try done. exists []. split_and!; [done|constructor|done|]. by intros ?? [= -> ->]. }
  destruct (index_of c pszBase58 0) as [d|] eqn:Ei; [|eexists; by split]. apply base58_index in Ei as [Hdr ->].
  cbn [length] in Hv. rewrite Nat2Z.inj_succ, Z.pow_succ_r in Hv by lia. pose proof (value_le_range 256 ds ltac:(lia) Hd). pose proof (Z.pow_pos_nonneg 58 (Z.of_nat (length s)) ltac:(lia) ltac:(lia)).
  destruct (mul_add_fits 256 58 ds d len) as (ds1 & i1 & -> & H1 & H2 & H3 & H4); [lia|lia|done|lia|done|nia|]. cbn [Z.eqb negb].
  destruct (IH ds1 i1 H2 H4) as (r & E & Hr); [rewrite H1, H3; nia|]. exists r. split; [done|]. intros ds' i rest Er. destruct (Hr ds' i rest Er) as (G1 & G2 & D & -> & G3 & G4 & G5).
  split_and!; try done. exists (d :: D). split_and!; [done|by constructor|cbn [foldl]; by rewrite G4, H3, (Z.mul_comm 58)|done].
Qed.

Lemma decode_loop_text D rest ds len :
  digits_ok 58 D -> (forall c k, rest = c :: k -> isspace c = true) ->
  decode_loop (map base58_char D ++ rest) ds len = '(ds, i) ← convert 256 58 D ds len; Some (Some (ds, i, rest)).
Proof.
  intros HD Hr. revert ds len. induction HD as [|d D Hd _ IH]; intros ds len; cbn [map app convert].
  - destruct rest as [|c rest]; [done|]. cbn. by rewrite (Hr c rest eq_refl).
  - cbn [decode_loop]. destruct (base58_char_ok d Hd) as (-> & -> & _). destruct (mul_add 256 58 ds d 0 len) as [[ds1 out] i]. destruct (negb (out =? 0)); [done|]. apply IH.
Qed.

Lemma text_head z D x k : digits_ok 58 D -> text z D = x :: k -> isspace x = false.
Proof.
  intros HD. unfold text. destruct z; cbn; [|by intros [= <- <-]]. destruct HD as [|d D Hd _]; cbn; [done|]. intros [= <- <-]. by apply base58_char_ok.
Qed.

Lemma text_no_lead D rest x k : digits_ok 58 D -> no_lead D -> (forall c l, rest = c :: l -> isspace c = true) -> map base58_char D ++ rest = x :: k -> x <> 49.
Proof.
  intros HD Hn Hr. destruct HD as [|d D Hd _]; cbn.
  - intros -> ->. specialize (Hr 49 k eq_refl). done.
  - intros [= <- <-] E. destruct (base58_char_ok d Hd) as (_ & _ & H). rewrite E, Z.eqb_refl in H. symmetry in H. apply Z.eqb_eq in H as ->. done.
Qed.

Lemma spaces_head post c k : spaces post -> post = c :: k -> isspace c = true.
Proof. intros H ->. by apply Forall_cons in H as [H _]. Qed.

Lemma c_str_id s : Forall (fun c => c <> 0) s -> c_str s = s.
Proof. induction 1 as [|c s Hc _ IH]; cbn [c_str]; [done|]. rewrite (proj2 (Z.eqb_neq _ _)) by done. by f_equal. Qed.

Lemma c_str_prefix s : exists rest, s = c_str s ++ rest.
Proof. induction s as [|c s (rest & IH)]; cbn [c_str]; [by exists []|]. destruct (c =? 0); [by eexists|]. exists rest. cbn. by f_equal. Qed.

Lemma c_str_length s : (length (c_str s) <= length s)%nat.
Proof. destruct (c_str_prefix s) as (rest & E). rewrite E at 2. rewrite length_app. lia. Qed.

(** A text between spaces holds no zero. *)
Lemma text_nonzero pre post z D : spaces pre -> spaces post -> digits_ok 58 D -> Forall (fun c => c <> 0) (pre ++ text z D ++ post).
Proof.
  intros Hpre Hpost HD. assert (forall l, spaces l -> Forall (fun c => c <> 0) l) as Hs.
  { intros l Hl. eapply Forall_impl; [exact Hl|]. by intros c Hc ->. }
  apply Forall_app; split; [by apply Hs|]. apply Forall_app; split; [|by apply Hs]. apply Forall_app; split; [apply Forall_replicate; lia|].
  apply Forall_map. eapply Forall_impl; [exact HD|]. unfold compose. intros d Hd E. destruct (base58_char_ok d Hd) as (H & _). by rewrite E in H.
Qed.

Lemma DecodeBase58_text s pre post z D v :
  c_str s = pre ++ text z D ++ post -> fits_text s ->
  spaces pre -> spaces post -> same_number D v -> DecodeBase58 s = Some (Some (replicate z 0 ++ v)).
Proof.
  intros Es Hf Hpre Hpost S. pose proof S as [HD Hv Nl Nl' Ev]. unfold DecodeBase58. rewrite Es in Hf |- *.
  assert (exists post', skip_spaces (pre ++ text z D ++ post) = text z D ++ post' /\ spaces post') as (post' & Ek & Hp').
  { destruct (text z D) as [|x k] eqn:Et.
    - exists []. split; [|constructor]. cbn. apply spaces_skip. by apply Forall_app.
    - exists post. split; [|done]. apply skip_spaces_app; [done|]. intros y l [= <- _]. by eapply text_head. }
  destruct (skip_spaces_ok (pre ++ text z D ++ post)) as (pre' & _ & Epre). rewrite Ek in Epre. rewrite Epre, length_app in Hf. rewrite Ek.
  unfold text in Hf |- *. rewrite <- app_assoc in Hf |- *. rewrite length_app, length_replicate in Hf. destruct (count_lead_app 49 z (map base58_char D ++ post')) as [-> Ed].
  { intros x k. apply text_no_lead; try done. intros c l. by apply spaces_head. }
  rewrite int_count_ok by lia. cbn [mbind option_bind]. rewrite Ed, decode_size by lia. cbn [mbind option_bind].
  rewrite decode_loop_text by (done || intros c l; by apply spaces_head).
  set (n := Z.of_nat (length (map base58_char D ++ post')) * 733 / 1000 + 1). assert (0 <= n) as Hn0 by (unfold n; pose proof (Z.div_pos (Z.of_nat (length (map base58_char D ++ post')) * 733) 1000); lia). set (size := Z.to_nat n).
  destruct (convert_ok 256 58 D (replicate size 0) 0) as (ds & i & -> & H1 & H2 & H3); [lia|lia|by apply zeros_digits|done|rewrite drop_0; apply replicate_zeros| |].
  { rewrite (value_le_zeros 256 _ (replicate_zeros _)), length_replicate. unfold size. rewrite Z2Nat.id by done.
    eapply Z.le_lt_trans; [|apply (size_fits 58 256 733 1000 (length (map base58_char D ++ post'))); [lia|lia|lia|lia|by apply Z.leb_le; vm_compute]].
    pose proof (value_be_range 58 D ltac:(lia) HD). unfold value_be in *. rewrite length_app, length_map.
    pose proof (Z.pow_le_mono_r 58 (Z.of_nat (length D)) (Z.of_nat (length D + length post')) ltac:(lia) ltac:(lia)). lia. }
  cbn [mbind option_bind]. rewrite (spaces_skip post' Hp'), bool_decide_eq_true_2 by done. do 3 f_equal.
  destruct (significant_ok 256 ds i H1 H2) as (G1 & G2 & G3). apply (same_number_bytes D); [|done]. constructor; try done.
  rewrite G3, H3, (value_le_zeros 256 _ (replicate_zeros _)). done.
Qed.

Lemma DecodeBase58_inv s :
  fits_text s -> exists r, DecodeBase58 s = Some r
  /\ forall v, r = Some v -> exists pre z D w post, c_str s = pre ++ text z D ++ post /\ spaces pre /\ spaces post /\ same_number D w /\ v = replicate z 0 ++ w.
Proof.
  intros Hf. unfold DecodeBase58. destruct (skip_spaces_ok (c_str s)) as (pre & Hpre & Es). set (s1 := skip_spaces (c_str s)) in *. destruct (count_lead_ok 49 s1) as [E1 Hhead].
  set (z := count_lead 49 s1) in *. assert (Z.of_nat (length pre + (z + length (drop z s1))) < 2 ^ 31) as Hf'.
  { rewrite Es, length_app in Hf. rewrite E1, length_app, length_replicate in Hf. done. }
  rewrite int_count_ok by lia. cbn [mbind option_bind]. set (s2 := drop z s1) in *. rewrite decode_size by lia. cbn [mbind option_bind].
  set (n := Z.of_nat (length s2) * 733 / 1000 + 1). assert (0 <= n) as Hn0 by (unfold n; pose proof (Z.div_pos (Z.of_nat (length s2) * 733) 1000); lia). set (size := Z.to_nat n).
  destruct (decode_loop_ok s2 (replicate size 0) 0) as (r & -> & Hr); [by apply zeros_digits|rewrite drop_0; apply replicate_zeros| |].
  { rewrite (value_le_zeros 256 _ (replicate_zeros _)), length_replicate. unfold size. rewrite Z2Nat.id by done.
    pose proof (size_fits 58 256 733 1000 (length s2) ltac:(lia) ltac:(lia) ltac:(lia) ltac:(lia) ltac:(by apply Z.leb_le; vm_compute)). unfold n. lia. }
  cbn [mbind option_bind]. destruct r as [[[ds i] rest]|]; [|by eexists]. destruct (Hr ds i rest eq_refl) as (H1 & H2 & D & E2 & H3 & H4 & H5).
  destruct (bool_decide_reflect (skip_spaces rest = [])) as [Hskip|Hskip]; [|by eexists]. eexists. split; [reflexivity|]. intros v [= <-].
  destruct (skip_spaces_ok rest) as (post & Hpost & Er). rewrite Hskip, app_nil_r in Er. subst rest.
  exists pre, z, D, (significant ds i), post. destruct (significant_ok 256 ds i H1 H2) as (G1 & G2 & G3). split_and!; try done.
  - rewrite Es, E1, E2. unfold text. by rewrite <- app_assoc.
  - constructor; try done; [|by rewrite G3, H4, (value_le_zeros 256 _ (replicate_zeros _))].
    apply no_lead_head. intros d k ->. cbn in E2. specialize (Hhead _ _ E2). apply Forall_cons in H3 as [H3 _]. destruct (base58_char_ok d H3) as (_ & _ & Hc).
    intros ->. by apply Hhead.
Qed.

Lemma split_zeros v : exists z w, v = replicate z 0 ++ w /\ no_lead w.
Proof. destruct (count_lead_ok 0 v) as [E H]. eexists _, _. split; [exact E|]. by apply no_lead_head. Qed.

Lemma bytes_digits v : bytes_ok v <-> digits_ok 256 v.
Proof. split; intros H; (eapply Forall_impl; [exact H|]); done. Qed.

(** A number has at least as many digits as bytes. *)
Lemma same_number_length D v : same_number D v -> (length v <= length D)%nat.
Proof.
  intros [HD Hv Nl Nl' Ev]. destruct v as [|b v]; [cbn; lia|]. apply Forall_cons in Hv as [Hb Hv]. pose proof (value_be_range 58 D ltac:(lia) HD) as Hr.
  unfold value_be at 2 in Ev. cbn [foldl] in Ev. rewrite foldl_value in Ev. pose proof (value_be_range 256 v ltac:(lia) Hv).
  assert (b <> 0) by (intros ->; done). pose proof (Z.pow_pos_nonneg 256 (Z.of_nat (length v)) ltac:(lia) ltac:(lia)).
  pose proof (Z.pow_le_mono_l 58 256 (Z.of_nat (length D)) ltac:(lia)).
  pose proof (proj2 (Z.pow_lt_mono_r_iff 256 (Z.of_nat (length v)) (Z.of_nat (length D)) ltac:(lia) ltac:(lia)) ltac:(nia)). cbn [length]. lia.
Qed.

(** And fewer than the vector has room for. *)
Lemma same_number_digits_length D v : same_number D v -> Z.of_nat (length D) <= Z.of_nat (length v) * 138 / 100 + 1.
Proof.
  intros [HD Hv Nl Nl' Ev]. assert (0 <= Z.of_nat (length v) * 138 / 100) as H0 by (apply Z.div_pos; lia). destruct D as [|d D]; [cbn; lia|].
  apply Forall_cons in HD as [Hd HD]. pose proof (value_be_range 256 v ltac:(lia) Hv) as Hr. unfold value_be at 1 in Ev. cbn [foldl] in Ev. rewrite foldl_value in Ev.
  pose proof (value_be_range 58 D ltac:(lia) HD). assert (d <> 0) by (intros ->; done). pose proof (Z.pow_pos_nonneg 58 (Z.of_nat (length D)) ltac:(lia) ltac:(lia)).
  pose proof (size_fits 256 58 138 100 (length v) ltac:(lia) ltac:(lia) ltac:(lia) ltac:(lia) ltac:(by apply Z.leb_le; vm_compute)).
  pose proof (proj2 (Z.pow_lt_mono_r_iff 58 (Z.of_nat (length D)) (Z.of_nat (length v) * 138 / 100 + 1) ltac:(lia) ltac:(lia)) ltac:(nia)). cbn [length]. lia.
Qed.

(** What the two functions are to each other. *)
Lemma encode_text v : bytes_ok v -> fits v -> exists z D w, v = replicate z 0 ++ w /\ same_number D w /\ EncodeBase58 v = Some (text z D).
Proof.
  intros Hv%bytes_digits Hf. destruct (split_zeros v) as (z & w & -> & Hw). apply Forall_app in Hv as [_ Hv].
  destruct (EncodeBase58_ok z w Hv Hw Hf) as (D & S & E). by exists z, D, w.
Qed.

Lemma base58_inverse s v e pre post : bytes_ok v -> fits v -> EncodeBase58 v = Some e -> c_str s = pre ++ e ++ post -> fits_text s -> spaces pre -> spaces post ->
  DecodeBase58 s = Some (Some v).
Proof.
  intros Hv Hf Ee Es Hs Hpre Hpost. destruct (encode_text v Hv Hf) as (z & D & w & -> & S & E). rewrite E in Ee. injection Ee as <-. by apply (DecodeBase58_text s pre post z D w).
Qed.

(** The text of bytes holds no zero, and is not too long to be read. *)
Lemma EncodeBase58_total v : bytes_ok v -> fits v -> exists e, EncodeBase58 v = Some e /\ c_str e = e /\ fits_text e.
Proof.
  intros Hv Hf. destruct (encode_text v Hv Hf) as (z & D & w & -> & S & E). exists (text z D). pose proof S as [HD _ _ _ _].
  pose proof (text_nonzero [] [] z D ltac:(constructor) ltac:(constructor) HD) as Hn. cbn [app] in Hn. rewrite app_nil_r in Hn. rewrite (c_str_id _ Hn). split_and!; [done|done|].
  pose proof (same_number_digits_length D w S) as HL. rewrite length_app, length_replicate in Hf. unfold text. rewrite length_app, length_replicate, length_map. unfold MAX_BYTES in Hf.
  pose proof (Z.div_mod (Z.of_nat (length w) * 138) 100). pose proof (Z.mod_pos_bound (Z.of_nat (length w) * 138) 100). lia.
Qed.

Lemma text_roundtrip v : bytes_ok v -> fits v -> exists e, EncodeBase58 v = Some e /\ fits_text e /\ DecodeBase58 e = Some (Some v).
Proof.
  intros Hv Hf. destruct (EncodeBase58_total v Hv Hf) as (e & E & Ec & Hl). exists e. split_and!; [done|done|].
  apply (base58_inverse e v e [] []); try done. by rewrite app_nil_r.
Qed.

Lemma decoded_text s v : fits_text s -> DecodeBase58 s = Some (Some v) ->
  bytes_ok v /\ (length v <= length (c_str s))%nat /\ (fits v -> exists pre e post, c_str s = pre ++ e ++ post /\ spaces pre /\ spaces post /\ EncodeBase58 v = Some e).
Proof.
  intros Hf. destruct (DecodeBase58_inv s Hf) as (r & -> & Hr). intros [= ->]. destruct (Hr v eq_refl) as (pre & z & D & w & post & Es & H1 & H2 & S & ->). pose proof S as [S1 S2 S3 S4 S5]. split_and!.
  - apply bytes_digits, Forall_app. split; [by apply zeros_digits|done].
  - rewrite Es. unfold text. pose proof (same_number_length D w S). rewrite !length_app, !length_replicate, length_map. lia.
  - intros Hv. destruct (EncodeBase58_ok z w S2 S4 Hv) as (D' & S' & E). rewrite (same_number_digits D' D w S' S) in E. by exists pre, (text z D), post.
Qed.


(** ** Lemmas: checksums and addresses *)

Section Strings.
Variable Hash : list Z -> list Z.
Hypothesis Hash_ok : forall v, bytes_ok (Hash v) /\ length (Hash v) = 32%nat.

Lemma check_roundtrip v : bytes_ok v -> Z.of_nat (length v) + 4 <= MAX_BYTES -> exists s, EncodeBase58Check Hash v = Some s /\ DecodeBase58Check Hash s = Some (Some v).
Proof using Type*.
  intros Hv Hf. destruct (Hash_ok v) as [Hh Hl]. assert (bytes_ok (v ++ take 4 (Hash v))) as Hb by (apply Forall_app; split; [done|by apply Forall_take]).
  destruct (text_roundtrip _ Hb) as (s & E & _ & Hd); [rewrite length_app, length_take, Hl; lia|]. exists s. split; [done|]. unfold DecodeBase58Check.
  rewrite Hd. cbn [mbind option_bind].
  rewrite length_app, length_take, Hl. change (4 `min` 32)%nat with 4%nat. rewrite (proj2 (Nat.ltb_ge _ 4)) by lia.
  replace (length v + 4 - 4)%nat with (length v) by lia. rewrite take_app_length, drop_app_length, bool_decide_eq_true_2 by done. done.
Qed.

(** A string that is accepted is the text of the data with its checksum, between spaces. *)
Lemma check_inv s v : fits (c_str s) -> DecodeBase58Check Hash s = Some (Some v) ->
  exists pre e post, c_str s = pre ++ e ++ post /\ spaces pre /\ spaces post /\ EncodeBase58Check Hash v = Some e.
Proof using Type*.
  intros Hf. unfold DecodeBase58Check. destruct (DecodeBase58 s) as [[w|]|] eqn:E; cbn [mbind option_bind]; [|done..].
  destruct (Nat.ltb_spec (length w) 4); [done|]. case_bool_decide as Hc; [|done]. intros [= <-].
  apply decoded_text in E as (_ & Hw & Ht); [|unfold MAX_BYTES in *; lia].
  destruct Ht as (pre & e & post & Es & H1 & H2 & E); [lia|]. exists pre, e, post. split_and!; try done.
  unfold EncodeBase58Check. by rewrite Hc, take_drop.
Qed.

Variable P : Base58Prefixes.

(** Versions that [SetString] takes apart again. *)
Definition readable (version data : list Z) : Prop :=
  let two := take 2 (version ++ data) in
  (length version = 1%nat /\ two <> PUBKEY_ADDRESS_ZEC P /\ two <> SCRIPT_ADDRESS_ZEC P)
  \/ (length version = 2%nat /\ (version = PUBKEY_ADDRESS_ZEC P \/ version = SCRIPT_ADDRESS_ZEC P)).

Lemma SetString_ok d :
  bytes_ok (vchVersion d ++ vchData d) -> Z.of_nat (length (vchVersion d ++ vchData d)) + 4 <= MAX_BYTES -> readable (vchVersion d) (vchData d) -> exists s, ToString Hash d = Some s /\ SetString Hash P s 1 = Some (Some d).
Proof using Type*.
  intros Hb Hlen Hr. destruct d as [ver data]. cbn [vchVersion vchData] in *. unfold ToString. cbn [vchVersion vchData]. destruct (check_roundtrip _ Hb Hlen) as (s & E & Es). exists s. split; [done|].
  unfold SetString. rewrite Es. cbn [mbind option_bind]. rewrite length_app. destruct Hr as [(Hl & H1 & H2)|(Hl & Hz)].
  - rewrite (proj2 (Nat.ltb_ge _ 1)) by lia. rewrite !bool_decide_eq_false_2 by done. rewrite andb_false_r, take_app_length', drop_app_length' by done. done.
  - rewrite (proj2 (Nat.ltb_ge _ 1)), (proj2 (Nat.leb_le 2 _)) by lia. rewrite (take_app_length' ver data 2) by done.
    assert (bool_decide (ver = PUBKEY_ADDRESS_ZEC P) || bool_decide (ver = SCRIPT_ADDRESS_ZEC P) = true) as -> by (apply orb_true_iff; destruct Hz; [left|right]; by apply bool_decide_eq_true_2).
    cbn [andb]. rewrite take_app_length', drop_app_length' by done. done.
Qed.

(** A string that is taken apart is the text of the parts. *)
Lemma SetString_inv s n d : fits (c_str s) -> SetString Hash P s n = Some (Some d) -> exists pre e post, c_str s = pre ++ e ++ post /\ spaces pre /\ spaces post /\ ToString Hash d = Some e.
Proof using Type*.
  intros Hf. unfold SetString. destruct (DecodeBase58Check Hash s) as [[v|]|] eqn:E; cbn [mbind option_bind]; [|done..].
  destruct (Nat.ltb_spec (length v) n); [done|]. intros [= <-]. apply check_inv in E as (pre & e & post & E); [|done]. exists pre, e, post.
  destruct E as (E & H1 & H2 & H3). split_and!; try done. unfold ToString. cbn [vchVersion vchData]. by rewrite take_drop.
Qed.

Lemma SetString_total s n : fits_text s -> exists r, SetString Hash P s n = Some r.
Proof using Type*.
  intros Hf. unfold SetString, DecodeBase58Check. destruct (DecodeBase58_inv s Hf) as (r & -> & _). cbn [mbind option_bind].
  destruct r as [v|]; [|by eexists]. destruct (length v <? 4)%nat; cbn [mbind option_bind]; [by eexists|].
  case_bool_decide; cbn [mbind option_bind]; [|by eexists]. destruct (_ <? n)%nat; by eexists.
Qed.

End Strings.

(** The networks whose prefixes of the three kinds of addresses are one or two bytes. *)
Definition usable (P : Base58Prefixes) (t : AddressType) : Prop :=
  P = main_prefixes \/ P = dev_prefixes \/ (P = test_prefixes /\ t <> ADDRESS_ZEC).

Definition dest_id (d : CTxDestination) : list Z :=
  match d with CKeyID id => id | CScriptID id => id | CNoDestination => [] end.

Definition dest_ok (d : CTxDestination) : Prop := bytes_ok (dest_id d) /\ length (dest_id d) = 20%nat.

Lemma address_readable P t d b : usable P t -> dest_ok d -> address_Set P d t = Some b -> readable P (vchVersion b) (vchData b).
Proof.
  intros HP Hd Hb. unfold readable. destruct d as [|id|id]; [done|..]; injection Hb as <-; destruct Hd as [_ Hl]; cbn [dest_id] in Hl; cbn [vchVersion vchData];
    (destruct id as [|x id]; [done|]); destruct HP as [->|[->|[-> Ht]]]; destruct t; cbn; first [done | left; split_and!; done | right; split; [done|by (left + right)]].
Qed.

Lemma prefix_bytes P t d b : usable P t -> address_Set P d t = Some b -> bytes_ok (vchVersion b).
Proof.
  intros HP Hb. destruct d as [|id|id]; [done|..]; injection Hb as <-; cbn [vchVersion];
    destruct HP as [->|[->|[-> Ht]]]; destruct t; try done; cbn; repeat constructor; unfold in_u; lia.
Qed.

Lemma address_Get_Set P t d b : usable P t -> dest_ok d -> address_Set P d t = Some b -> address_Get P b = d.
Proof.
  intros HP Hd Hb. destruct d as [|id|id]; [done|..]; injection Hb as <-; destruct Hd as [_ Hl]; cbn [dest_id] in Hl;
    unfold address_Get, address_IsValid; cbn [vchVersion vchData]; rewrite Hl, Nat.eqb_refl;
    destruct HP as [->|[->|[-> Ht]]]; destruct t; try done; cbn -[take];
    rewrite take_ge by lia; reflexivity.
Qed.

(** A valid key is 32 bytes that pass the test. *)
Definition key_ok (CheckKey : list Z -> bool) (k : CKey) : Prop :=
  fValid k = true /\ bytes_ok (keydata k) /\ length (keydata k) = 32%nat /\ CheckKey (keydata k) = true.

Abbreviation networks := [main_prefixes; test_prefixes; dev_prefixes].

Lemma secret_SetKey Check P k : In P networks -> key_ok Check k ->
  exists d, SetKey P k = Some d /\ readable P (vchVersion d) (vchData d) /\ bytes_ok (vchVersion d ++ vchData d)
    /\ secret_IsValid P d = true /\ GetKey Check d = Some k.
Proof.
  intros HP (Hv & Hb & Hl & Hc). destruct k as [v c data]. cbn [keydata fValid] in *. subst v. eexists. split; [reflexivity|]. cbn [vchVersion vchData keydata fCompressed].
  assert (exists x, SECRET_KEY_MINR P = [x] /\ in_u 8 x /\ x <> 0x1C /\ x <> 0xB8 /\ x <> 0xBD
    /\ (PUBKEY_ADDRESS_ZEC P !!! 0%nat = 0x1C \/ PUBKEY_ADDRESS_ZEC P !!! 0%nat = 0xB8) /\ (SCRIPT_ADDRESS_ZEC P !!! 0%nat = 0x1C \/ SCRIPT_ADDRESS_ZEC P !!! 0%nat = 0xBD)) as (x & Ex & Hx & H1 & H2 & H3 & H4 & H5).
  { repeat destruct HP as [<-|HP]; try destruct HP; eexists; (split; [reflexivity|]); unfold in_u; cbn; lia. }
  rewrite !Ex. split_and!.
  - left. destruct data as [|y data]; [done|]. cbn. split_and!; [done|..]; intros E; first [rewrite <- E in H4; cbn in H4; lia|rewrite <- E in H5; cbn in H5; lia].
  - apply Forall_cons; split; [done|]. apply Forall_app; split; [done|]. destruct c; repeat constructor; unfold in_u; lia.
  - unfold secret_IsValid. cbn [vchVersion vchData]. rewrite Ex, length_app, Hl, (bool_decide_eq_true_2 ([x] = [x])) by done. destruct c; [|done].
    by rewrite lookup_total_app_r, Hl by lia.
  - unfold GetKey, CKey_Set. cbn [vchVersion vchData]. rewrite length_app, Hl. destruct c; cbn [length].
    + rewrite lookup_total_app_r, Hl by lia. cbn [Nat.leb Nat.ltb negb Nat.add]. rewrite take_app_length' by done. by rewrite Hl, Hc.
    + rewrite app_nil_r. cbn [Nat.leb Nat.ltb negb Nat.add]. rewrite take_ge by lia. by rewrite Hl, Hc.
Qed.

(** Addresses and secrets are short. *)
Lemma address_length P t d b : In P networks -> dest_ok d -> address_Set P d t = Some b -> Z.of_nat (length (vchVersion b ++ vchData b)) + 4 <= MAX_BYTES.
Proof.
  intros HP [_ Hl] Hb. rewrite length_app. destruct d as [|id|id]; [done|..]; injection Hb as <-; cbn [vchVersion vchData dest_id] in *; rewrite Hl;
    (repeat destruct HP as [<-|HP]; try destruct HP); destruct t; by vm_compute.
Qed.

Lemma secret_length P k d : In P networks -> length (keydata k) = 32%nat -> SetKey P k = Some d -> Z.of_nat (length (vchVersion d ++ vchData d)) + 4 <= MAX_BYTES.
Proof.
  intros HP Hl. unfold SetKey. destruct (negb _); [done|]. intros [= <-]. cbn [vchVersion vchData]. rewrite !length_app, Hl.
  (repeat destruct HP as [<-|HP]; try destruct HP); destruct (fCompressed k); by vm_compute.
Qed.

Lemma usable_networks P t : usable P t -> In P networks.
Proof. intros [->|[->|[-> _]]]; cbn; auto. Qed.

(** On the test network the text of a ZEC address is not read back: its prefix is 28 bytes. *)
Lemma zec_lost (Hash : list Z -> list Z) (HH : forall v, bytes_ok (Hash v) /\ length (Hash v) = 32%nat) d b :
  dest_ok d -> address_Set test_prefixes d ADDRESS_ZEC = Some b ->
  exists s b', ToString Hash b = Some s /\ SetString Hash test_prefixes s 1 = Some (Some b')
    /\ address_Get test_prefixes b = d /\ address_Get test_prefixes b' = CNoDestination.
Proof.
  intros [Hb Hl] E. assert (bytes_ok (vchVersion b ++ vchData b)) as Hok.
  { apply Forall_app. destruct d as [|id|id]; [done|..]; injection E as <-; (split; [|exact Hb]); cbn; repeat constructor; unfold in_u; lia. }
  destruct (check_roundtrip Hash HH _ Hok) as (s & E1 & E2); [by eapply (address_length test_prefixes); [cbn; auto| |exact E]|]. unfold ToString, SetString.
  destruct d as [|id|id]; [done|..]; injection E as <-; cbn [vchVersion vchData dest_id] in *; exists s; rewrite E1, E2; cbn [mbind option_bind];
    eexists; (split; [done|]); (split; [cbn; reflexivity|]); unfold address_Get, address_IsValid; cbn -[take Nat.eqb]; rewrite ?Hl; (split; [|done]);
    cbn -[take]; by rewrite take_ge by lia.
Qed.

(** ** The theorems *)



(** Addresses and secrets survive their text.  On the main, the development and the regression network the text
    of an address of any of the three kinds, and on the test network of the kinds MINR and BTC, is read back as the
    destination; a string, of the lengths of [base58_exact] up to its first zero, that is read is the text of what is read, between spaces, so an address cannot be written in
    two ways; the text of a secret is read back as the key.  On the test network an address of the kind ZEC is read
    back as no destination: its prefix is 28 bytes. *)
Theorem address_roundtrip (Hash : list Z -> list Z) :
  (forall v, bytes_ok (Hash v) /\ length (Hash v) = 32%nat) ->
  (forall P t d b, usable P t -> dest_ok d -> address_Set P d t = Some b ->
     exists s, ToString Hash b = Some s /\ SetString Hash P s 1 = Some (Some b) /\ address_Get P b = d)
  /\ (forall P s, Z.of_nat (length (c_str s)) <= MAX_BYTES -> exists r, SetString Hash P s 1 = Some r
      /\ forall d, r = Some d -> exists pre e post, c_str s = pre ++ e ++ post /\ spaces pre /\ spaces post /\ ToString Hash d = Some e)
  /\ (forall Check P k, In P networks -> key_ok Check k ->
      exists d s, SetKey P k = Some d /\ ToString Hash d = Some s /\ secret_SetString Hash P s = Some (Some d) /\ GetKey Check d = Some k)
  /\ (forall d b, dest_ok d -> address_Set test_prefixes d ADDRESS_ZEC = Some b ->
      exists s b', ToString Hash b = Some s /\ SetString Hash test_prefixes s 1 = Some (Some b')
        /\ address_Get test_prefixes b = d /\ address_Get test_prefixes b' = CNoDestination).
Proof.
  intros HH. split_and!.
  - intros P t d b HP Hd Hb. destruct (SetString_ok Hash HH P b) as (s & E1 & E2).
    + apply Forall_app. split; [by eapply prefix_bytes|]. destruct d as [|id|id]; [done|..]; injection Hb as <-; apply Hd.
    + eapply address_length; [by eapply usable_networks|done|done].
    + by eapply address_readable.
    + exists s. split_and!; try done. by eapply address_Get_Set.
  - intros P s Hs. destruct (SetString_total Hash HH P s 1) as (r & E); [unfold MAX_BYTES in *; lia|]. exists r. split; [done|]. intros d ->. by apply (SetString_inv Hash HH) in E.
  - intros Check P k HP Hk. destruct (secret_SetKey Check P k HP Hk) as (d & Ed & Hr & Hb & Hv & Hg). destruct (SetString_ok Hash HH P d Hb ltac:(eapply secret_length; [done|apply Hk|done]) Hr) as (s & E1 & E2).
    exists d, s. split_and!; try done. unfold secret_SetString. rewrite E2. cbn [mbind option_bind]. by rewrite Hv.
  - apply zec_lost; done.
Qed.

Lemma address_roundtrip_witness :
  exists s, ToString (fun _ => replicate 32 7) {| vchVersion := [50]; vchData := replicate 20 9 |} = Some s
    /\ SetString (fun _ => replicate 32 7) main_prefixes s 1 = Some (Some {| vchVersion := [50]; vchData := replicate 20 9 |})
    /\ address_Get main_prefixes {| vchVersion := [50]; vchData := replicate 20 9 |} = CKeyID (replicate 20 9).
Proof.
  apply (proj1 (address_roundtrip (fun _ => replicate 32 7) ltac:(intros v; split; [repeat constructor; unfold in_u; lia|done])) main_prefixes ADDRESS_MINR); [by left| |done].
  split; [repeat constructor; unfold in_u; lia|done].
Defined.
