(* ===== verification/Ranges.v ===== *)
(** * Ranges of token numbers

    Models [src/src/ranges.h] and [src/src/ranges.cpp]: the ranges of 32-bit numbers by which an asset
    keeps track of single tokens, and the routines that merge, subtract, count and compare lists of them.

    A vector that is passed by reference and changed is a part of the result: [mergeRanges] sorts its
    argument, [subtractRanges] sorts both and cuts the ranges of the first in place, without dropping the
    deleted ones.  The deletions, used as a stack, are kept with the top (the back of the vector) first.
    [std::sort] leaves the order of equal elements open; it is behind the interface [RangeSort], whose
    laws are what the standard says of it. *)

From stdpp Require Import list sorting.
From S2P Require Import Prelude.

(** ** Data *)

Record CRange := { r_start : Z; r_end : Z }.

#[export] Instance CRange_eq_dec : EqDecision CRange.
Proof. solve_decision. Defined.

Definition compareRange (i1 i2 : CRange) : bool := r_start i1 <? r_start i2.
Definition compareRangeReverse (i1 i2 : CRange) : bool := r_start i1 >? r_start i2.

(** [std::sort] with one of the two comparisons. *)
Class RangeSort := {
  range_sort : (CRange -> CRange -> bool) -> list CRange -> list CRange;
  range_sort_perm lt l : range_sort lt l ≡ₚ l;
  range_sort_up l : StronglySorted (fun a b => compareRange b a = false) (range_sort compareRange l);
  range_sort_down l : StronglySorted (fun a b => compareRangeReverse b a = false) (range_sort compareRangeReverse l);
}.

(** ** Operations *)

Section Operations.
Context `{RangeSort}.

(** One range against the top of the output. *)
Definition merge_step (output : list CRange) (r : CRange) : list CRange :=
  match last output with
  | None => output
  | Some top =>
      if u32 (r_end top + 1) <? r_start r then output ++ [r]
      else if r_end top <? r_end r then removelast output ++ [{| r_start := r_start top; r_end := r_end r |}]
      else output
  end.

(** The sorted argument and the output. *)
Definition mergeRanges (arr output : list CRange) : list CRange * list CRange :=
  match range_sort compareRange arr with
  | [] => (arr, output)
  | r :: rest => (r :: rest, foldl merge_step (output ++ [r]) rest)
  end.

(** The deletions that end before the range starts are popped, but for the last. *)
Fixpoint pop_passed (a : CRange) (deletions : list CRange) : list CRange :=
  match deletions with
  | deletion :: ((_ :: _) as deletions') => if r_start a >? r_end deletion then pop_passed a deletions' else deletions
  | _ => deletions
  end.

Definition pop_one (deletions : list CRange) : list CRange :=
  match deletions with
  | _ :: ((_ :: _) as deletions') => deletions'
  | _ => deletions
  end.

(** The loop over the ranges: [done] are the ranges already handled, as they are left; a range that is to be
    handled again stays in front.  The result are the ranges as they are left, the deletions and the output. *)
Fixpoint subtract_loop (fuel : nat) (done todo deletions output : list CRange) : option (list CRange * list CRange * list CRange) :=
  match todo with
  | [] => Some (done, deletions, output)
  | a :: todo' =>
      match fuel with
      | O => None
      | S fuel =>
          let deletions := pop_passed a deletions in
          deletion ← head deletions;
          if (r_end a <? r_start deletion) || (r_start a >? r_end deletion) then
            subtract_loop fuel (done ++ [a]) todo' deletions (output ++ [a])
          else if (r_start a >=? r_start deletion) && (r_end a <=? r_end deletion) then
            subtract_loop fuel (done ++ [a]) todo' deletions output
          else if (r_start a <? r_start deletion) && (r_end a <=? r_end deletion) then
            let a := {| r_start := r_start a; r_end := u32 (r_start deletion - 1) |} in
            subtract_loop fuel (done ++ [a]) todo' deletions (output ++ [a])
          else if (r_end a >? r_end deletion) && (r_start a >=? r_start deletion) then
            let a := {| r_start := u32 (r_end deletion + 1); r_end := r_end a |} in
            subtract_loop fuel done (a :: todo') (pop_one deletions) output
          else if (r_start a <? r_start deletion) && (r_end a >? r_end deletion) then
            let r := {| r_start := r_start a; r_end := u32 (r_start deletion - 1) |} in
            let a := {| r_start := u32 (r_end deletion + 1); r_end := r_end a |} in
            subtract_loop fuel done (a :: todo') (pop_one deletions) (output ++ [r])
          else subtract_loop fuel (done ++ [a]) todo' deletions output
      end
  end.

(** The ranges as they are left, the deletions as they are left, and the output. *)
Definition subtractRanges (arr deletions output : list CRange) : option (list CRange * list CRange * list CRange) :=
  match arr, deletions with
  | [], _ | _, [] => Some (arr, deletions, output)
  | _, _ =>
      let arr := range_sort compareRange arr in
      let deletions := range_sort compareRangeReverse deletions in
      '(arr, deletions, output) ← subtract_loop (2 * length arr + length deletions) [] arr (reverse deletions) output;
      Some (arr, reverse deletions, output)
  end.

End Operations.

Fixpoint validate_loop (arr : list CRange) (total nLastEnd : Z) : Z :=
  match arr with
  | [] => total
  | range :: arr =>
      if r_end range <? r_start range then 0
      else if (r_start range >? 0) && (r_start range <=? nLastEnd) then 0
      else validate_loop arr (u32 (total + u32 (u32 (r_end range - r_start range) + 1))) (r_end range)
  end.

Definition validateRangesAndGetCount (arr : list CRange) : Z := validate_loop arr 0 0.

Definition child_in (parentRange childRange : CRange) : bool :=
  (r_start childRange >=? r_start parentRange) && (r_end childRange <=? r_end parentRange).

Definition doesRangeContain (parent child : list CRange) : bool :=
  match parent, child with
  | [], _ | _, [] => false
  | _, _ => forallb (fun childRange => existsb (fun parentRange => child_in parentRange childRange) parent) child
  end.

(** ** Specification: lists of ranges as sets of numbers *)

Definition wf_range (r : CRange) : Prop := 0 <= r_start r <= r_end r /\ r_end r < 2 ^ 32.
Definition in_range (x : Z) (r : CRange) : Prop := r_start r <= x <= r_end r.
Definition covers (l : list CRange) (x : Z) : Prop := exists r, r ∈ l /\ in_range x r.
Definition range_size (r : CRange) : Z := r_end r - r_start r + 1.
Definition size_of (l : list CRange) : Z := foldr (fun r n => range_size r + n) 0 l.

(** Each range ends before the next starts, or even leaves a number between them out. *)
Abbreviation disjoint l := (StronglySorted (fun a b => r_end a < r_start b) l) (only parsing).
Abbreviation gapped l := (StronglySorted (fun a b => r_end a + 1 < r_start b) l) (only parsing).

#[export] Instance wf_range_dec r : Decision (wf_range r).
Proof. unfold wf_range. apply _. Defined.

Lemma covers_nil x : ~ covers [] x.
Proof. by intros (r & Hr%elem_of_nil & _). Qed.

Lemma covers_cons r l x : covers (r :: l) x <-> in_range x r \/ covers l x.
Proof.
  split.
  - intros (r' & [->|Hr]%elem_of_cons & Hx); [by left|right]. by exists r'.
  - intros [Hx|(r' & Hr & Hx)]; [exists r|exists r']; (split; [|done]); [by left|by right].
Qed.

Lemma covers_app l1 l2 x : covers (l1 ++ l2) x <-> covers l1 x \/ covers l2 x.
Proof.
  induction l1 as [|r l1 IH]; cbn; [split; [by right|intros [?%covers_nil|]; done]|]. rewrite !covers_cons, IH. tauto.
Qed.

Lemma covers_perm l1 l2 x : l1 ≡ₚ l2 -> covers l1 x <-> covers l2 x.
Proof. intros E. unfold covers. by setoid_rewrite E. Qed.

#[export] Instance covers_proper : Proper (Permutation ==> eq ==> iff) covers.
Proof. intros l1 l2 E x _ <-. by apply covers_perm. Qed.

Lemma covers_singleton r x : covers [r] x <-> in_range x r.
Proof. rewrite covers_cons. split; [intros [|?%covers_nil]; done|by left]. Qed.

(** Nothing of a sorted list lies below its head. *)
Lemma disjoint_above r l x : disjoint (r :: l) -> covers l x -> r_end r < x.
Proof.
  intros [_ Hall]%StronglySorted_inv (r' & Hr & Hx). rewrite Forall_forall in Hall. specialize (Hall r' Hr). unfold in_range in Hx. lia.
Qed.

Lemma gapped_disjoint l : gapped l -> disjoint l.
Proof. induction 1 as [|r l Hs IH Hall]; constructor; [done|]. eapply Forall_impl; [exact Hall|]. cbn. lia. Qed.

Lemma disjoint_snoc l r : disjoint l -> Forall (fun a => r_end a < r_start r) l -> disjoint (l ++ [r]).
Proof.
  intros Hl Hall. induction Hl as [|a l Hs IH Ha]; [by repeat constructor|]. apply Forall_cons in Hall as [Har Hall].
  cbn. constructor; [by apply IH|]. apply Forall_app. split; [done|by constructor].
Qed.

Lemma gapped_snoc l r : gapped l -> Forall (fun a => r_end a + 1 < r_start r) l -> gapped (l ++ [r]).
Proof.
  intros Hl Hall. induction Hl as [|a l Hs IH Ha]; [by repeat constructor|]. apply Forall_cons in Hall as [Har Hall].
  cbn. constructor; [by apply IH|]. apply Forall_app. split; [done|by constructor].
Qed.

(** ** Lemmas: merging *)

(** A range whose end has a successor. *)
Definition small_range (r : CRange) : Prop := wf_range r /\ r_end r < 2 ^ 32 - 1.

(** In a list in increasing order of the starts no start comes before the first. *)
Abbreviation increasing l := (StronglySorted (fun a b => compareRange b a = false) l) (only parsing).
Abbreviation decreasing l := (StronglySorted (fun a b => compareRangeReverse b a = false) l) (only parsing).

Lemma increasing_cons r l : increasing (r :: l) -> increasing l /\ Forall (fun r' => r_start r <= r_start r') l.
Proof. intros [Hs Hall]%StronglySorted_inv. split; [done|]. eapply Forall_impl; [exact Hall|]. unfold compareRange. intros a Ha. zbool. lia. Qed.

Lemma gapped_replace_last l r1 r2 : r_start r2 = r_start r1 -> gapped (l ++ [r1]) -> gapped (l ++ [r2]).
Proof.
  intros E. induction l as [|a l IH]; cbn; intros Hs; [by repeat constructor|]. apply StronglySorted_inv in Hs as [Hs Hall].
  constructor; [by apply IH|]. apply Forall_app in Hall as [Hl Hr]. apply Forall_app. split; [done|].
  rewrite Forall_singleton in Hr. apply Forall_singleton. cbn in Hr |- *. lia.
Qed.

Lemma gapped_last_below l r : gapped (l ++ [r]) -> Forall (fun a => r_end a + 1 < r_start r) l.
Proof.
  induction l as [|a l IH]; cbn; intros Hs; constructor; apply StronglySorted_inv in Hs as [Hs Hall]; [|by apply IH].
  apply Forall_app in Hall as [_ Hr]. by rewrite Forall_singleton in Hr.
Qed.

Lemma merge_step_ok o top r :
  gapped (o ++ [top]) -> Forall small_range (o ++ [top]) -> small_range r -> r_start top <= r_start r ->
  exists o' top', merge_step (o ++ [top]) r = o' ++ [top'] /\ gapped (o' ++ [top']) /\ Forall small_range (o' ++ [top'])
  /\ r_start top' <= r_start r /\ forall x, covers (o' ++ [top']) x <-> covers (o ++ [top]) x \/ in_range x r.
Proof.
  intros Hg Hs Hr Hle. apply Forall_app in Hs as [Ho Htop]. rewrite Forall_singleton in Htop. unfold small_range, wf_range in *.
  unfold merge_step. rewrite last_snoc. assert (u32 (r_end top + 1) = r_end top + 1) as -> by (apply Z.mod_small; lia).
  destruct (Z.ltb_spec (r_end top + 1) (r_start r)) as [Hlt|Hge].
  - exists (o ++ [top]), r. split_and!; [done| | |lia|].
    + apply gapped_snoc; [done|]. apply Forall_app. split; [|by apply Forall_singleton].
      eapply Forall_impl; [exact (gapped_last_below o top Hg)|]. cbn. lia.
    + apply Forall_app. split; [apply Forall_app; split; [done|]|]; by apply Forall_singleton.
    + intros x. by rewrite covers_app, covers_singleton.
  - destruct (Z.ltb_spec (r_end top) (r_end r)) as [Hend|Hend].
    + rewrite removelast_last. eexists o, _. split; [reflexivity|]. split_and!; [by apply (gapped_replace_last o top)| |done|].
      * apply Forall_app. split; [done|]. apply Forall_singleton. cbn. lia.
      * intros x. rewrite !covers_app, !covers_singleton. unfold in_range. cbn. split.
        -- intros [Hx|Hx]; [by left; left|]. destruct (decide (x <= r_end top)); [left; right; lia|right; lia].
        -- intros [[Hx|Hx]|Hx]; [by left|right; lia|right; lia].
    + exists o, top. split_and!; [done|done| |done|].
      * apply Forall_app. split; [done|]. by apply Forall_singleton.
      * intros x. rewrite !covers_app, !covers_singleton. unfold in_range. split; [by left|]. intros [?|?]; [done|right; lia].
Qed.

Lemma merge_fold_ok o top rest :
  gapped (o ++ [top]) -> Forall small_range (o ++ [top]) -> increasing rest -> Forall small_range rest ->
  Forall (fun r => r_start top <= r_start r) rest ->
  gapped (foldl merge_step (o ++ [top]) rest) /\ Forall small_range (foldl merge_step (o ++ [top]) rest)
  /\ forall x, covers (foldl merge_step (o ++ [top]) rest) x <-> covers (o ++ [top]) x \/ covers rest x.
Proof.
  revert o top. induction rest as [|r rest IH]; intros o top Hg Hs Hinc Hr Hle; cbn [foldl].
  - split_and!; [done|done|]. intros x. split; [by left|]. intros [?|?%covers_nil]; done.
  - apply increasing_cons in Hinc as [Hinc Hall]. apply Forall_cons in Hr as [Hr Hrest]. apply Forall_cons in Hle as [Hle _].
    destruct (merge_step_ok o top r Hg Hs Hr Hle) as (o' & top' & -> & Hg' & Hs' & Hle' & Hc).
    destruct (IH o' top' Hg' Hs' Hinc Hrest) as (G & S & C).
    { eapply Forall_impl; [exact Hall|]. cbn. lia. }
    split_and!; [done|done|]. intros x. rewrite C, Hc, covers_cons. tauto.
Qed.

(** ** Lemmas: subtracting *)

Lemma decreasing_head d l : increasing (d :: l) -> forall d', d' ∈ l -> r_start d <= r_start d'.
Proof. intros [_ Hall]%increasing_cons d' Hd. by apply (proj1 (Forall_forall _ _) Hall). Qed.

Lemma pop_passed_ok a ds :
  ds <> [] -> increasing ds ->
  exists d ds', pop_passed a ds = d :: ds' /\ increasing (d :: ds') /\ (exists gone, ds = gone ++ d :: ds' /\ Forall (fun g => r_end g < r_start a) gone)
  /\ (r_end d < r_start a -> ds' = []).
Proof.
  intros Hne Hinc. induction ds as [|d ds IH]; [done|]. clear Hne. cbn [pop_passed]. destruct ds as [|d2 ds].
  { exists d, []. split_and!; [done|done| |done]. by exists []. }
  rewrite Z.gtb_ltb. destruct (Z.ltb_spec (r_end d) (r_start a)).
  - apply increasing_cons in Hinc as Hinc'. destruct (IH ltac:(done) (proj1 Hinc')) as (d' & ds' & E & Hs & (gone & Eg & Hg) & Hl).
    exists d', ds'. split_and!; [done|done| |done]. exists (d :: gone). cbn. rewrite Eg. split; [done|]. by constructor.
  - exists d, (d2 :: ds). split_and!; [done|done| |lia]. by exists [].
Qed.

Lemma pop_one_ok d ds : increasing (d :: ds) ->
  exists d' ds', pop_one (d :: ds) = d' :: ds' /\ increasing (d' :: ds')
  /\ (forall x, r_end d < x -> covers (d' :: ds') x <-> covers (d :: ds) x)
  /\ (forall P : CRange -> Prop, Forall P (d :: ds) -> Forall P (d' :: ds'))
  /\ (ds' = [] /\ d' = d /\ ds = [] \/ ds = d' :: ds').
Proof.
  intros Hinc. destruct ds as [|d2 ds]; cbn [pop_one]; [exists d, []|exists d2, ds].
  - split_and!; try done. by left.
  - apply increasing_cons in Hinc as Hinc'. split_and!; [done|apply Hinc'| |by intros P [_ ?]%Forall_cons|by right].
    intros x Hx. rewrite (covers_cons d). split; [by right|]. intros [Hin|?]; [|done]. unfold in_range in Hin. lia.
Qed.

Lemma covers_head_free d ds x : increasing (d :: ds) -> x < r_start d -> ~ covers (d :: ds) x.
Proof.
  intros Hinc Hx (r & Hr & Hin). unfold in_range in Hin. apply elem_of_cons in Hr as [->|Hr]; [lia|].
  pose proof (decreasing_head d ds Hinc r Hr). lia.
Qed.

Lemma disjoint_cons r l : disjoint l -> Forall wf_range l -> (forall x, covers l x -> r_end r < x) -> disjoint (r :: l).
Proof.
  intros Hl Hw Hx. constructor; [done|]. apply Forall_forall. intros r' Hr. apply Hx. exists r'. split; [done|].
  rewrite Forall_forall in Hw. destruct (Hw r' Hr) as [? _]. unfold in_range. lia.
Qed.

(** One more unit of fuel is needed unless the range in front is past the only deletion left. *)
Definition past (todo ds : list CRange) : nat :=
  match todo, ds with a :: _, [d] => if r_end d <? r_start a then 1%nat else 0%nat | _, _ => 0%nat end.

Lemma past_le todo ds : (past todo ds <= 1)%nat.
Proof. unfold past. destruct todo, ds as [|? []]; try lia. case_if; lia. Qed.

(** What the loop adds to the output. *)
Definition subtracts (todo ds out : list CRange) : Prop :=
  disjoint out /\ Forall wf_range out /\ forall x, covers out x <-> covers todo x /\ ~ covers ds x.

Lemma subtracts_keep a a2 todo ds out :
  disjoint (a :: todo) -> wf_range a2 -> r_end a2 <= r_end a -> subtracts todo ds out ->
  (forall x, in_range x a2 <-> in_range x a /\ ~ covers ds x) -> subtracts (a :: todo) ds (a2 :: out).
Proof.
  intros Hd Hw Hle (Ho & Hwo & Hc) Ha. split_and!.
  - apply disjoint_cons; [done|done|]. intros x [Hx _]%Hc. pose proof (disjoint_above a todo x Hd Hx). lia.
  - by constructor.
  - intros x. rewrite !covers_cons, Hc, Ha. tauto.
Qed.

Lemma subtracts_skip a todo ds out : subtracts todo ds out -> (forall x, in_range x a -> covers ds x) -> subtracts (a :: todo) ds out.
Proof. intros (Ho & Hwo & Hc) Ha. split_and!; [done|done|]. intros x. rewrite covers_cons, Hc. specialize (Ha x). tauto. Qed.

(** The cases of the loop, on a range [a] in front and the next deletion [d]. *)
Section Cases.
Variables (a d : CRange) (todo ds out : list CRange).
Hypothesis Hd : disjoint (a :: todo).
Hypothesis Hw : wf_range a.
Hypothesis Hwd : wf_range d.
Hypothesis Hinc : increasing (d :: ds).

Lemma todo_low x : covers (a :: todo) x -> r_start a <= x.
Proof.
  intros [Hx|Hx]%covers_cons; [unfold in_range in Hx; lia|]. pose proof (disjoint_above a todo x Hd Hx). unfold wf_range in Hw. lia.
Qed.

(** What is left of [a] above the deletion. *)
Definition right_part : CRange := {| r_start := r_end d + 1; r_end := r_end a |}.
(** What is left of [a] below the deletion. *)
Definition left_part : CRange := {| r_start := r_start a; r_end := r_start d - 1 |}.

Lemma right_covers x : r_start a <= r_end d < r_end a -> covers (right_part :: todo) x <-> covers (a :: todo) x /\ r_end d < x.
Proof.
  intros Hlt. rewrite !covers_cons. unfold in_range. cbn. pose proof (disjoint_above a todo x Hd) as Hab. split.
  - intros [?|Hx]; [split; [left|]; lia|]. specialize (Hab Hx). split; [by right|lia].
  - intros [[?|?] ?]; [left; lia|by right].
Qed.

Lemma left_free x : r_start a < r_start d -> in_range x left_part <-> r_start a <= x < r_start d /\ ~ covers (d :: ds) x.
Proof.
  intros Hlt. unfold in_range. cbn. split; [|lia]. intros Hx. split; [lia|]. apply covers_head_free; [done|lia].
Qed.

Lemma subtracts_apart :
  r_end a < r_start d \/ r_end d < r_start a /\ ds = [] -> subtracts todo (d :: ds) out -> subtracts (a :: todo) (d :: ds) (a :: out).
Proof.
  intros Hap S. apply (subtracts_keep a a); [done|done|lia|done|]. intros x. split; [|tauto]. intros Hx. split; [done|]. unfold in_range in Hx.
  destruct Hap as [?|[? ->]]; [apply covers_head_free; [done|lia]|]. rewrite covers_singleton. unfold in_range. lia.
Qed.

Lemma subtracts_within : r_start d <= r_start a -> r_end a <= r_end d -> subtracts todo (d :: ds) out -> subtracts (a :: todo) (d :: ds) out.
Proof. intros H1 H2 S. apply subtracts_skip; [done|]. intros x Hx. rewrite covers_cons. left. unfold in_range in *. lia. Qed.

Lemma subtracts_left :
  r_start a < r_start d <= r_end a -> r_end a <= r_end d -> subtracts todo (d :: ds) out -> subtracts (a :: todo) (d :: ds) (left_part :: out).
Proof.
  intros H1 H2 S. unfold wf_range in *. apply (subtracts_keep a left_part); [done|unfold wf_range; cbn; lia|cbn; lia|done|]. intros x.
  rewrite (left_free x) by lia. unfold in_range. split; intros [Hx Hn]; (split; [|done]); [lia|].
  rewrite covers_cons in Hn. unfold in_range in Hn. lia.
Qed.

Lemma subtracts_right :
  r_start d <= r_start a <= r_end d -> r_end d < r_end a -> subtracts (right_part :: todo) (d :: ds) out -> subtracts (a :: todo) (d :: ds) out.
Proof.
  intros H1 H2 (S1 & S2 & S3). split_and!; [done|done|]. intros x. rewrite S3, right_covers by lia. split; [tauto|]. intros [Hx Hn]. split_and!; [done| |done].
  rewrite covers_cons in Hn. pose proof (todo_low x Hx). unfold in_range in Hn. lia.
Qed.

Lemma subtracts_middle :
  r_start a < r_start d -> r_end d < r_end a -> subtracts (right_part :: todo) (d :: ds) out -> subtracts (a :: todo) (d :: ds) (left_part :: out).
Proof.
  intros H1 H2 (S1 & S2 & S3). unfold wf_range in *. assert (forall x, covers out x -> r_end d < x) as Hout.
  { intros x [Hx _]%S3. apply right_covers in Hx as [_ ?]; lia. }
  split_and!.
  - apply disjoint_cons; [done|done|]. intros x Hx%Hout. cbn. lia.
  - constructor; [unfold wf_range; cbn; lia|done].
  - intros x. rewrite (covers_cons left_part), left_free, S3, right_covers by lia. split.
    + intros [[Hx Hn]|[[Hx _] Hn]]; (split; [|done]); [|done]. rewrite covers_cons. left. unfold in_range. lia.
    + intros [Hx Hn]. destruct (decide (r_end d < x)); [by right|left]. pose proof (todo_low x Hx). split; [|done].
      rewrite covers_cons in Hn. unfold in_range in Hn. lia.
Qed.

(** A deletion that ends below what is left may be popped. *)
Lemma subtracts_popped ds2 :
  r_start a <= r_end d < r_end a -> (forall x, r_end d < x -> covers ds2 x <-> covers (d :: ds) x) ->
  subtracts (right_part :: todo) ds2 out -> subtracts (right_part :: todo) (d :: ds) out.
Proof.
  intros Hlt Hcov (S1 & S2 & S3). split_and!; [done|done|]. intros x. rewrite S3, right_covers by done.
  split; intros [[Hx Hg] Hn]; (split; [done|]); by rewrite Hcov in * by exact Hg.
Qed.

End Cases.

(** Deletions that end before the ranges start do not matter. *)
Lemma subtracts_passed a todo gone ds out :
  disjoint (a :: todo) -> wf_range a -> Forall (fun g => r_end g < r_start a) gone -> subtracts (a :: todo) ds out -> subtracts (a :: todo) (gone ++ ds) out.
Proof.
  intros Hd Hw Hgone (S1 & S2 & S3). split_and!; [done|done|]. intros x. rewrite S3, covers_app. split; [|tauto].
  intros [Hx Hn]. split; [done|]. intros [(g & Hg & Hin)|?]; [|done]. rewrite Forall_forall in Hgone. specialize (Hgone g Hg).
  pose proof (todo_low a todo Hd Hw x Hx). unfold in_range in Hin. lia.
Qed.

(** The fuel when the range in front is cut and handled again. *)
Lemma cut_fuel a d d2 gone ds ds2 todo fuel :
  r_start a <= r_end d < r_end a ->
  (2 * length (a :: todo) + length (gone ++ d :: ds) <= S fuel + past (a :: todo) (gone ++ d :: ds))%nat ->
  ds2 = [] /\ d2 = d /\ ds = [] \/ ds = d2 :: ds2 ->
  (2 * length (right_part a d :: todo) + length (d2 :: ds2) <= fuel + past (right_part a d :: todo) (d2 :: ds2))%nat.
Proof.
  intros Hlt Hf [(-> & -> & ->)| ->]; rewrite length_app in Hf; cbn [length] in *.
  - cbn [past]. rewrite (proj2 (Z.ltb_lt _ _)) by (cbn; lia). destruct gone as [|g gone]; cbn [app past length] in Hf.
    + rewrite (proj2 (Z.ltb_ge _ _)) in Hf by lia. lia.
    + pose proof (past_le (a :: todo) (g :: gone ++ [d])). unfold past in Hf. destruct (gone ++ [d]) eqn:E; [by destruct gone|]. lia.
  - assert (past (a :: todo) (gone ++ d :: d2 :: ds2) = 0%nat) as E.
    { unfold past. destruct (gone ++ d :: d2 :: ds2) as [|? [|]] eqn:E; try done. by destruct gone as [|? [|]]. }
    rewrite E in Hf. lia.
Qed.

Lemma subtract_loop_ok `{RangeSort} fuel don todo ds out :
  ds <> [] -> increasing ds -> Forall wf_range ds -> disjoint todo -> Forall wf_range todo ->
  (2 * length todo + length ds <= fuel + past todo ds)%nat ->
  exists don' ds' out', subtract_loop fuel don todo ds out = Some (don', ds', out ++ out') /\ subtracts todo ds out'.
Proof.
  revert don todo ds out. induction fuel as [|fuel IH]; intros don todo ds out Hne Hinc Hwd Hd Hw Hf; (destruct todo as [|a todo];
    [exists don, ds, []; rewrite app_nil_r; split; [done|]; split_and!; [constructor|constructor|]; intros x; split; [by intros ?%covers_nil|by intros [?%covers_nil _]]|]).
  { pose proof (past_le (a :: todo) ds). cbn [length] in Hf. lia. }
  cbn [subtract_loop]. destruct (pop_passed_ok a ds Hne Hinc) as (d & ds' & E & Hinc' & (gone & Eds & Hgone) & Hlast). rewrite E, Eds in *. clear E.
  apply Forall_cons in Hw as [Hwa Hw]. apply StronglySorted_inv in Hd as Hd'. destruct Hd' as [Hd' _]. apply Forall_app in Hwd as [_ Hwd]. pose proof Hwd as [Hwdd _]%Forall_cons.
  cbn [head mbind option_bind].
  assert (forall don o, exists don' ds2 out', subtract_loop fuel don todo (d :: ds') o = Some (don', ds2, o ++ out') /\ subtracts todo (d :: ds') out') as Hnext.
  { intros don2 o. apply IH; [done|done|done|done|done|]. pose proof (past_le (a :: todo) (gone ++ d :: ds')). rewrite length_app in Hf. cbn [length] in *. lia. }
  assert (r_start a <= r_end d < r_end a -> forall o, exists don' ds3 out', subtract_loop fuel don (right_part a d :: todo) (pop_one (d :: ds')) o = Some (don', ds3, o ++ out')
    /\ subtracts (right_part a d :: todo) (d :: ds') out') as Hagain.
  { intros Hlt o. destruct (pop_one_ok d ds' Hinc') as (d2 & ds2 & -> & Hinc2 & Hcov2 & HP & Hcase). unfold wf_range in *.
    destruct (IH don (right_part a d :: todo) (d2 :: ds2) o) as (don' & ds3 & out' & Eo & S); [done|done|by apply HP| | |by eapply cut_fuel|].
    - apply StronglySorted_inv in Hd as [? Hall]. by constructor.
    - constructor; [unfold wf_range; cbn; lia|done].
    - exists don', ds3, out'. split; [done|]. by apply (subtracts_popped a d todo ds' out' Hd (d2 :: ds2)). }
  unfold wf_range in Hwdd, Hwa. rewrite !Z.gtb_ltb, !Z.geb_leb.
  assert (r_start d <= r_end a -> r_start a < r_start d -> u32 (r_start d - 1) = r_start d - 1) as Hu1 by (intros; apply Z.mod_small; lia).
  assert (r_end d < r_end a -> u32 (r_end d + 1) = r_end d + 1) as Hu2 by (intros; apply Z.mod_small; lia).
  repeat case_if; rewrite ?Hu1, ?Hu2 by lia; fold (left_part a d) (right_part a d);
  match goal with
       | |- context [subtract_loop fuel don (right_part a d :: todo) _ ?o] => destruct (Hagain ltac:(lia) o) as (don' & ds2 & out' & Eo & S)
       | |- context [subtract_loop fuel ?dn todo _ ?o] => destruct (Hnext dn o) as (don' & ds2 & out' & Eo & S)
       end; rewrite Eo, <- ?app_assoc; eexists don', ds2, _; (split; [reflexivity|]); apply subtracts_passed; try done.
  - apply subtracts_apart; try done. match goal with Hor : _ || _ = true |- _ => apply orb_true_iff in Hor as [?|?] end; zbool; [by left|right].
    split; [done|by apply Hlast].
  - by apply subtracts_within.
  - apply subtracts_left; (done || lia).
  - apply subtracts_right; (done || lia).
  - apply subtracts_middle; (done || lia).
  - exfalso. lia.
Qed.

(** ** Lemmas: lists in any order, and their numbers *)

(** No two ranges of the list overlap, in whatever order they are. *)
Definition clear (a b : CRange) : Prop := r_end a < r_start b \/ r_end b < r_start a.
Abbreviation apart l := (StronglySorted clear l) (only parsing).

Lemma apart_perm l1 l2 : l1 ≡ₚ l2 -> apart l1 -> apart l2.
Proof.
  induction 1 as [|r l1 l2 E IH|r s l|l1 l2 l3 _ IH1 _ IH2]; intros Hs; [done| | |by apply IH2, IH1].
  - apply StronglySorted_inv in Hs as [Hs Hall]. constructor; [by apply IH|]. by rewrite <- E.
  - apply StronglySorted_inv in Hs as [Hs Hr]. apply StronglySorted_inv in Hs as [Hs Hs']. apply Forall_cons in Hr as [Hrs Hr].
    constructor; [by constructor|]. constructor; [|done]. unfold clear in *. lia.
Qed.

Lemma disjoint_apart l : disjoint l -> apart l.
Proof. induction 1 as [|r l Hs IH Hall]; constructor; [done|]. eapply Forall_impl; [exact Hall|]. unfold clear. cbn. lia. Qed.

Lemma apart_sorted l : increasing l -> Forall wf_range l -> apart l -> disjoint l.
Proof.
  intros Hi Hw Ha. induction l as [|r l IH]; [constructor|]. apply increasing_cons in Hi as [Hi Hle]. apply Forall_cons in Hw as [Hr Hw].
  apply StronglySorted_inv in Ha as [Ha Hall]. constructor; [by apply IH|]. rewrite Forall_forall in *. intros r' Hr'.
  specialize (Hle r' Hr'). specialize (Hall r' Hr'). specialize (Hw r' Hr'). unfold clear, wf_range in *. lia.
Qed.

Lemma increasing_reverse l : decreasing l -> increasing (reverse l).
Proof.
  induction l as [|r l IH]; intros Hs; [constructor|]. apply StronglySorted_inv in Hs as [Hs Hall]. rewrite reverse_cons.
  assert (Forall (fun b => compareRange r b = false) (reverse l)) as Hr.
  { rewrite reverse_Permutation. eapply Forall_impl; [exact Hall|]. unfold compareRange, compareRangeReverse. cbn. intros b Hb. zbool. apply Z.ltb_ge. lia. }
  specialize (IH Hs). clear Hall Hs. induction IH as [|a l' Hs IH Ha]; [by repeat constructor|]. apply Forall_cons in Hr as [Har Hr].
  cbn. constructor; [by apply IH|]. apply Forall_app. split; [done|by constructor].
Qed.

(** The numbers of a list. *)
Definition numbers (l : list CRange) : list Z := flat_map (fun r => seqZ (r_start r) (range_size r)) l.

Lemma numbers_cons r l : numbers (r :: l) = seqZ (r_start r) (range_size r) ++ numbers l.
Proof. done. Qed.

Lemma elem_of_numbers l x : x ∈ numbers l <-> covers l x.
Proof.
  induction l as [|r l IH]; cbn; [split; [by intros ?%elem_of_nil|by intros ?%covers_nil]|].
  rewrite elem_of_app, IH, covers_cons, elem_of_seqZ. unfold in_range, range_size. split; (intros [?|?]; [left; lia|by right]).
Qed.

Lemma numbers_NoDup l : apart l -> NoDup (numbers l).
Proof.
  induction 1 as [|r l Hs IH Hall]; cbn; [constructor|]. apply NoDup_app. split_and!; [apply NoDup_seqZ| |done].
  intros x Hx%elem_of_seqZ (r' & Hr & Hin)%elem_of_numbers. rewrite Forall_forall in Hall. specialize (Hall r' Hr).
  unfold clear, in_range, range_size in *. lia.
Qed.

Lemma numbers_length l : Forall wf_range l -> Z.of_nat (length (numbers l)) = size_of l.
Proof.
  induction 1 as [|r l Hr Hl IH]; [done|]. rewrite numbers_cons, length_app, length_seqZ, Nat2Z.inj_add, IH. change (size_of (r :: l)) with (range_size r + size_of l). unfold wf_range, range_size in *. lia.
Qed.

(** The size of lists of separate ranges depends only on the numbers they hold. *)
Lemma size_of_split l l1 l2 :
  apart l -> apart l1 -> apart l2 -> Forall wf_range l -> Forall wf_range l1 -> Forall wf_range l2 ->
  (forall x, covers l x <-> covers l1 x \/ covers l2 x) -> (forall x, covers l1 x -> ~ covers l2 x) -> size_of l = size_of l1 + size_of l2.
Proof.
  intros Ha Ha1 Ha2 Hw Hw1 Hw2 Hc Hd. rewrite <- !numbers_length, <- Nat2Z.inj_add, <- length_app by done. f_equal.
  apply Permutation_length, NoDup_Permutation.
  - by apply numbers_NoDup.
  - apply NoDup_app. split_and!; [by apply numbers_NoDup| |by apply numbers_NoDup]. intros x. rewrite !elem_of_numbers. apply Hd.
  - intros x. rewrite elem_of_app, !elem_of_numbers. apply Hc.
Qed.

Lemma mergeRanges_ok `{RangeSort} arr :
  Forall small_range arr ->
  exists s out, mergeRanges arr [] = (s, out) /\ s ≡ₚ arr /\ gapped out /\ Forall small_range out /\ forall x, covers out x <-> covers arr x.
Proof.
  intros Hs. unfold mergeRanges. pose proof (range_sort_perm compareRange arr) as E. pose proof (range_sort_up arr) as Hi.
  destruct (range_sort compareRange arr) as [|r rest].
  - apply Permutation_nil in E as ->. exists [], []. split_and!; try done; constructor.
  - rewrite <- E in Hs. apply Forall_cons in Hs as [Hr Hrest]. apply increasing_cons in Hi as [Hi Hle].
    destruct (merge_fold_ok [] r rest) as (G & S & C); [by repeat constructor|by constructor|done|done|done|].
    eexists _, _. split; [reflexivity|]. cbn [app] in *. split_and!; [done|done|done|]. intros x. by rewrite C, <- E, (covers_cons r rest), covers_singleton.
Qed.

Lemma subtractRanges_ok `{RangeSort} arr deletions :
  apart arr -> Forall wf_range arr -> deletions <> [] -> Forall wf_range deletions ->
  exists arr' del' out, subtractRanges arr deletions [] = Some (arr', del', out) /\ disjoint out /\ Forall wf_range out
  /\ forall x, covers out x <-> covers arr x /\ ~ covers deletions x.
Proof.
  intros Ha Hw Hne Hd. unfold subtractRanges. destruct arr as [|a0 arr0].
  { exists [], deletions, []. split_and!; [done|constructor|constructor|]. intros x. split; [by intros ?%covers_nil|by intros [?%covers_nil _]]. }
  destruct deletions as [|d0 ds0]; [done|]. remember (a0 :: arr0) as arr eqn:Ea. remember (d0 :: ds0) as ds eqn:Ed. clear Ea Ed.
  set (sa := range_sort compareRange arr). set (sd := range_sort compareRangeReverse ds).
  assert (sa ≡ₚ arr) as Esa by apply range_sort_perm. assert (reverse sd ≡ₚ ds) as Esd by (rewrite reverse_Permutation; apply range_sort_perm).
  destruct (subtract_loop_ok (2 * length sa + length sd) [] sa (reverse sd) []) as (arr' & del' & out & -> & S1 & S2 & S3).
  - intros E. rewrite E in Esd. by apply Permutation_nil in Esd.
  - apply increasing_reverse, range_sort_down.
  - by rewrite Esd.
  - apply apart_sorted; [apply range_sort_up|by rewrite Esa|by apply (apart_perm arr)].
  - by rewrite Esa.
  - rewrite length_reverse. lia.
  - cbn [mbind option_bind]. exists arr', (reverse del'), out. split_and!; [done|done|done|]. intros x. by rewrite S3, Esa, Esd.
Qed.

(** ** Lemmas: counting and inclusion *)

Lemma if_bool_decide_ext (P Q : Prop) `{Decision P, Decision Q} (a b : Z) : (P <-> Q) -> (if bool_decide P then a else b) = (if bool_decide Q then a else b).
Proof. intros E. by rewrite (bool_decide_ext P Q). Qed.

Lemma validate_loop_ok arr total nLastEnd :
  Forall (fun r => 0 <= r_start r < 2 ^ 32 /\ 0 <= r_end r < 2 ^ 32) arr -> Forall (fun r => r_start r <> 0) arr ->
  0 <= total < 2 ^ 32 -> 0 <= nLastEnd ->
  validate_loop arr total nLastEnd =
    if bool_decide (Forall wf_range arr /\ disjoint arr /\ Forall (fun r => nLastEnd < r_start r) arr) then (total + size_of arr) mod 2 ^ 32 else 0.
Proof.
  revert total nLastEnd. induction arr as [|r arr IH]; intros total nLastEnd Hu Hz Ht Hl; cbn [validate_loop].
  { rewrite bool_decide_eq_true_2 by by repeat constructor. rewrite Z.add_0_r, Z.mod_small by lia. done. }
  apply Forall_cons in Hu as [Hr Hu]. apply Forall_cons in Hz as [Hrz Hz]. rewrite Z.gtb_ltb. symmetry.
  destruct (Z.ltb_spec (r_end r) (r_start r)).
  { rewrite bool_decide_eq_false_2; [done|]. intros ([Hw _]%Forall_cons & _). unfold wf_range in Hw. lia. }
  rewrite (proj2 (Z.ltb_lt 0 (r_start r))) by lia. cbn [andb]. destruct (Z.leb_spec (r_start r) nLastEnd).
  { rewrite bool_decide_eq_false_2; [done|]. intros (_ & _ & [Hw _]%Forall_cons). lia. }
  rewrite IH by (done || lia || (apply Z.mod_pos_bound; lia)).
  assert (u32 (total + u32 (u32 (r_end r - r_start r) + 1)) = (total + range_size r) mod 2 ^ 32) as ->.
  { unfold u32, wrap, range_size. rewrite (Z.mod_small (r_end r - r_start r)) by lia. rewrite Z.add_mod_idemp_r by lia. done. }
  change (size_of (r :: arr)) with (range_size r + size_of arr). rewrite Z.add_mod_idemp_l, Z.add_assoc by lia.
  apply if_bool_decide_ext. rewrite !Forall_cons. split.
  - intros ((Hw & Hws) & Hd & (_ & _)). apply StronglySorted_inv in Hd as [Hd Hall]. by split_and!.
  - intros (Hws & Hd & Hall). split; [split; [unfold wf_range; lia|done]|split; [by constructor|split; [lia|]]]. eapply Forall_impl; [exact Hall|]. cbn. lia.
Qed.

Lemma gapped_pair l a b : gapped l -> a ∈ l -> b ∈ l -> a = b \/ r_end a + 1 < r_start b \/ r_end b + 1 < r_start a.
Proof.
  induction 1 as [|r l Hs IH Hall]; [by intros ?%elem_of_nil|]. rewrite Forall_forall in Hall.
  intros [->|Ha]%elem_of_cons [->|Hb]%elem_of_cons; [by left|right; left; by apply Hall|right; right; by apply Hall|by apply IH].
Qed.

(** A range all of whose numbers are in a list with gaps lies in one range of it. *)
Lemma gapped_contains l c : gapped l -> wf_range c -> (forall x, in_range x c -> covers l x) -> exists p, p ∈ l /\ child_in p c = true.
Proof.
  intros Hg Hc Hx. unfold wf_range in Hc. destruct (Hx (r_start c)) as (p & Hp & Hin); [unfold in_range; lia|]. exists p. split; [done|].
  unfold child_in. unfold in_range in Hin. rewrite !Z.geb_leb. apply andb_true_iff. split; [apply Z.leb_le; lia|]. apply Z.leb_le.
  destruct (decide (r_end c <= r_end p)) as [|Hgt]; [done|exfalso].
  destruct (Hx (r_end p + 1)) as (p' & Hp' & Hin'); [unfold in_range; lia|]. unfold in_range in Hin'.
  destruct (gapped_pair l p p' Hg Hp Hp') as [->|[?|?]]; lia.
Qed.

Lemma doesRangeContain_true parent child :
  doesRangeContain parent child = true <-> parent <> [] /\ child <> [] /\ forall c, c ∈ child -> exists p, p ∈ parent /\ child_in p c = true.
Proof.
  assert (forallb (fun c => existsb (fun p => child_in p c) parent) child = true <-> forall c, c ∈ child -> exists p, p ∈ parent /\ child_in p c = true) as E.
  { rewrite forallb_forall. setoid_rewrite existsb_exists. split; intros H c Hc; (destruct (H c) as (p & Hp & Hin); [by apply list_elem_of_In|]); exists p; (split; [by apply list_elem_of_In|done]). }
  unfold doesRangeContain. destruct parent as [|p ps]; [split; [done|by intros []]|]. destruct child as [|c cs]; [split; [done|by intros (_ & [] & _)]|].
  rewrite E. split; [by intros ?|tauto].
Qed.

(** ** Properties *)

(** [mergeRanges] on ranges whose ends have a successor leaves in the output exactly the numbers of the
    argument, in ranges in increasing order between which at least one number is missing. *)
Theorem mergeRanges_correct `{RangeSort} arr :
  Forall small_range arr ->
  exists s out, mergeRanges arr [] = (s, out) /\ s ≡ₚ arr /\ gapped out /\ Forall wf_range out /\ forall x, covers out x <-> covers arr x.
Proof.
  intros Hs. destruct (mergeRanges_ok arr Hs) as (s & out & E & Es & G & S & C). exists s, out. split_and!; try done.
  eapply Forall_impl; [exact S|]. by intros r [? _].
Qed.

(** [subtractRanges] ends, and its output are the numbers of the ranges that are in no deletion, in
    disjoint ranges in increasing order; the ranges must not overlap, the deletions may.  When the deletions do
    not overlap and lie in the ranges, the output holds as many numbers fewer as they hold. *)
Theorem subtractRanges_correct `{RangeSort} arr deletions :
  apart arr -> Forall wf_range arr -> deletions <> [] -> Forall wf_range deletions ->
  exists arr' del' out, subtractRanges arr deletions [] = Some (arr', del', out) /\ disjoint out /\ Forall wf_range out
  /\ (forall x, covers out x <-> covers arr x /\ ~ covers deletions x)
  /\ (apart deletions -> (forall x, covers deletions x -> covers arr x) -> size_of out = size_of arr - size_of deletions).
Proof.
  intros Ha Hw Hne Hd. destruct (subtractRanges_ok arr deletions Ha Hw Hne Hd) as (arr' & del' & out & E & Ho & Hwo & C).
  exists arr', del', out. split_and!; try done. intros Had Hsub.
  assert (size_of arr = size_of out + size_of deletions) as ->; [|lia].
  apply size_of_split; try done; [by apply disjoint_apart| |].
  - intros x. rewrite C. split; [|intros [[? _]|?]; auto]. intros Hx.
    destruct (decide (x ∈ numbers deletions)) as [Hin|Hn]; [right|left]; rewrite elem_of_numbers in *; done.
  - intros x [_ Hn]%C. done.
Qed.

(** [validateRangesAndGetCount] on a list in which only the first range may start at 0 is the count of the
    numbers modulo 2^32 when the ranges are well formed and in increasing order, and 0 otherwise; as the ranges
    are disjoint then, the count is wrong only for all 2^32 numbers together. *)
Theorem validate_ranges_correct arr :
  Forall (fun r => 0 <= r_start r < 2 ^ 32 /\ 0 <= r_end r < 2 ^ 32) arr -> Forall (fun r => r_start r <> 0) (tail arr) ->
  validateRangesAndGetCount arr = (if bool_decide (Forall wf_range arr /\ disjoint arr) then size_of arr mod 2 ^ 32 else 0)
  /\ (Forall wf_range arr -> disjoint arr -> size_of arr <= 2 ^ 32).
Proof.
  intros Hu Hz. split.
  - unfold validateRangesAndGetCount. destruct arr as [|r arr]; cbn [validate_loop tail] in *.
    { by rewrite bool_decide_eq_true_2 by by repeat constructor. }
    apply Forall_cons in Hu as [Hr Hu]. rewrite Z.gtb_ltb. symmetry. destruct (Z.ltb_spec (r_end r) (r_start r)).
    { rewrite bool_decide_eq_false_2; [done|]. intros ([Hw _]%Forall_cons & _). unfold wf_range in Hw. lia. }
    assert ((0 <? r_start r) && (r_start r <=? 0) = false) as -> by (destruct (Z.ltb_spec 0 (r_start r)), (Z.leb_spec (r_start r) 0); (done || lia)).
    rewrite validate_loop_ok by (done || lia || (apply Z.mod_pos_bound; lia)).
    assert (u32 (0 + u32 (u32 (r_end r - r_start r) + 1)) = range_size r mod 2 ^ 32) as ->.
    { unfold u32, wrap, range_size. rewrite (Z.mod_small (r_end r - r_start r)) by lia. by rewrite Z.add_0_l, Z.mod_mod by lia. }
    change (size_of (r :: arr)) with (range_size r + size_of arr). rewrite Z.add_mod_idemp_l by lia.
    apply if_bool_decide_ext. rewrite Forall_cons. split.
    + intros ((Hw & Hws) & Hd). apply StronglySorted_inv in Hd as [Hd Hall]. by split_and!.
    + intros (Hws & Hd & Hall). split; [split; [unfold wf_range; lia|done]|by constructor].
  - intros Hw Hd. rewrite <- numbers_length by done.
    assert (length (numbers arr) <= length (seqZ 0 (2 ^ 32)))%nat; [|rewrite length_seqZ in *; lia].
    apply submseteq_length, NoDup_submseteq; [by apply numbers_NoDup, disjoint_apart|].
    intros x (r & Hr & Hx)%elem_of_numbers. rewrite Forall_forall in Hw. specialize (Hw r Hr). apply elem_of_seqZ. unfold wf_range, in_range in *. lia.
Qed.

(** [doesRangeContain] on merged ranges says whether all numbers of the second list are among those of the
    first, for lists that are not empty. *)
Theorem doesRangeContain_correct parent child :
  gapped parent -> Forall wf_range child ->
  doesRangeContain parent child = true <-> parent <> [] /\ child <> [] /\ forall x, covers child x -> covers parent x.
Proof.
  intros Hg Hw. rewrite doesRangeContain_true. split; intros (Hp & Hc & H); (split_and!; [done|done|]).
  - intros x (c & Hin & Hx). destruct (H c Hin) as (p & Hpin & Hb). exists p. split; [done|]. unfold child_in in Hb. rewrite !Z.geb_leb in Hb.
    unfold in_range in *. zbool. lia.
  - intros c Hin. apply gapped_contains; [done|by apply (proj1 (Forall_forall _ _) Hw)|]. intros x Hx. apply H. by exists c.
Qed.

(** ** Witnesses *)

Definition before (lt : CRange -> CRange -> bool) (a b : CRange) : Prop := lt b a = false.
#[local] Instance before_dec lt : RelDecision (before lt).
Proof. intros a b. unfold before. apply _. Defined.

Section MergeSort.
Variable lt : CRange -> CRange -> bool.
Hypothesis lt_total : forall a b, lt a b = false \/ lt b a = false.
Hypothesis lt_trans : forall a b c, lt b a = false -> lt c b = false -> lt c a = false.

Lemma merge_sort_strongly l : StronglySorted (before lt) (merge_sort (before lt) l).
Proof.
  apply StronglySorted_merge_sort; [intros a b c; apply lt_trans|].
  intros a b. destruct (lt_total b a); auto.
Qed.
End MergeSort.

(** A sort that keeps the order of equal elements. *)
#[local] Program Instance stable_sort : RangeSort := {| range_sort lt l := merge_sort (before lt) l |}.
Next Obligation. intros. apply merge_sort_Permutation. Qed.
Next Obligation. intros. apply (merge_sort_strongly compareRange); unfold compareRange; intros; rewrite !Z.ltb_ge in *; lia. Qed.
Next Obligation. intros. apply (merge_sort_strongly compareRangeReverse); unfold compareRangeReverse; intros; rewrite !Z.gtb_ltb, !Z.ltb_ge in *; lia. Qed.

Definition range (s e : Z) : CRange := {| r_start := s; r_end := e |}.

Lemma mergeRanges_correct_witness : exists s, mergeRanges [range 8 9; range 0 3; range 4 6] [] = (s, [range 0 6; range 8 9]).
Proof.
  destruct (mergeRanges_correct [range 8 9; range 0 3; range 4 6]) as (s & out & E & _).
  - repeat constructor; unfold small_range, wf_range; cbn; lia.
  - exists s. rewrite E. assert (snd (mergeRanges [range 8 9; range 0 3; range 4 6] []) = [range 0 6; range 8 9]) as H by (vm_compute; reflexivity).
    rewrite E in H. cbn in H. by rewrite H.
Defined.

Lemma subtractRanges_correct_witness : exists arr' del' out,
  subtractRanges [range 20 29; range 0 9] [range 3 5] [] = Some (arr', del', out) /\ size_of out = 17.
Proof.
  destruct (subtractRanges_correct [range 20 29; range 0 9] [range 3 5]) as (arr' & del' & out & E & _ & _ & _ & Hs).
  - constructor; [repeat constructor|]. constructor; [right; reflexivity|constructor].
  - apply (bool_decide_unpack _). vm_compute. exact I.
  - discriminate.
  - apply (bool_decide_unpack _). vm_compute. exact I.
  - exists arr', del', out. split; [exact E|]. rewrite Hs; [reflexivity|by repeat constructor|].
    intros x. rewrite !covers_cons. unfold in_range. cbn. intros [?|?%covers_nil]; [right; left; lia|done].
Defined.

Lemma validate_ranges_correct_witness : validateRangesAndGetCount [range 0 9; range 20 29] = 20.
Proof.
  rewrite (proj1 (validate_ranges_correct [range 0 9; range 20 29] ltac:(repeat constructor; cbn; lia) ltac:(repeat constructor; cbn; lia))).
  vm_compute. reflexivity.
Defined.

Lemma doesRangeContain_correct_witness : doesRangeContain [range 0 9; range 20 29] [range 3 5; range 20 22] = true.
Proof.
  apply (doesRangeContain_correct [range 0 9; range 20 29] [range 3 5; range 20 22]).
  - repeat constructor; cbn; lia.
  - apply (bool_decide_unpack _). vm_compute. exact I.
  - split; [discriminate|split; [discriminate|]]. intros x. rewrite !covers_cons. unfold in_range. cbn.
    intros [?|[?|?%covers_nil]]; [left; lia|right; left; lia|done].
Defined.

(** A second range that starts at 0 escapes the test for overlaps. *)
Example overlap_at_zero : validateRangesAndGetCount [range 0 5; range 0 5] = 12.
Proof. reflexivity. Qed.

(** All the numbers together are counted as none. *)
Example all_numbers : validateRangesAndGetCount [range 0 (2 ^ 32 - 1)] = 0.
Proof. reflexivity. Qed.
