(* ===== verification/AssetAllocation.v ===== *)
(** * Asset allocations: balances and token ranges of an asset's holders

    Models [CheckAssetAllocationInputs] of [src/src/assetallocation.cpp] with what it calls there and in
    [src/src/assetallocation.h]: the records, the database of allocations with its current ("i") and confirmed
    ("p") entries and arrival times, [RevertAssetAllocation], [AccumulateInterestSinceLastClaim] and
    [ApplyAssetAllocationInterest].

    The databases are finite maps; a failed write raises an exception in [CDBWrapper] and never returns
    false, and with [nShareFeeBlock = 0], its value on all networks, reading back a record gives the record.
    The sets of tuples of [sorted_vector] compare tuples by [ToString], so they are sets of these
    strings.  [double] and [float] are IEEE binary64 and binary32 with rounding to nearest.  The compound
    interest, computed with a library of decimal numbers, the maximum supply in units, the decoding of the payload
    of the transaction, the check of the owner's address and of the inputs are parameters; the index for RPC and
    its notifications are left out.  [None] is the overflow of a signed 64-bit amount. *)

From stdpp Require Import gmap sorting.
From Stdlib Require Import SpecFloat.
From S2P Require Import Prelude Script Ranges.

(** ** Floating point *)

Abbreviation double := spec_float (only parsing).
Abbreviation float := spec_float (only parsing).

Definition double_of_Z (z : Z) : double := binary_normalize 53 1024 z 0 false.
Definition float_of_Z (z : Z) : float := binary_normalize 24 128 z 0 false.
Definition double_mul : double -> double -> double := SFmul 53 1024.
Definition double_add : double -> double -> double := SFadd 53 1024.
Definition float_mul : float -> float -> float := SFmul 24 128.
Definition float_add : float -> float -> float := SFadd 24 128.
Definition positive_float (x : float) : bool := SFltb (S754_zero false) x.
Definition float_le_zero (x : float) : bool := SFleb x (S754_zero false).

(** ** Data *)

Abbreviation vch := (list Z) (only parsing).

Record CAssetAllocation := {
  aa_vchAsset : vch;
  aa_vchAliasOrAddress : vch;
  aa_txHash : Z;
  aa_nHeight : Z;
  aa_nLastInterestClaimHeight : Z;
  aa_listAllocationInputs : list CRange;
  aa_listSendingAllocationInputs : list (vch * list CRange);
  aa_listSendingAllocationAmounts : list (vch * Z);
  aa_nBalance : Z;
  aa_nAccumulatedBalanceSinceLastInterestClaim : double;
  aa_fAccumulatedInterestSinceLastInterestClaim : float;
  aa_fInterestRate : float;
  aa_vchMemo : vch;
}.

Record CAsset := {
  as_vchAsset : vch;
  as_vchSymbol : vch;
  as_vchAliasOrAddress : vch;
  as_listAllocationInputs : list CRange;
  as_txHash : Z;
  as_nHeight : Z;
  as_vchPubData : vch;
  as_sCategory : vch;
  as_nBalance : Z;
  as_nTotalSupply : Z;
  as_nMaxSupply : Z;
  as_bUseInputRanges : bool;
  as_nPrecision : Z;
  as_fInterestRate : float;
  as_bCanAdjustInterestRate : bool;
}.

Definition CAssetAllocationTuple : Type := vch * vch.

(** [ToString]; 45 is the hyphen. *)
Definition tuple_ToString (t : CAssetAllocationTuple) : vch := t.1 ++ [45] ++ t.2.

Definition tuple_of (a : CAssetAllocation) : CAssetAllocationTuple := (aa_vchAsset a, aa_vchAliasOrAddress a).

(** ** Assignments to fields *)

(** The holder of a record, the transaction that wrote it and its memo. *)
Definition set_owner (alias : vch) (a : CAssetAllocation) : CAssetAllocation :=
  {| aa_vchAsset := aa_vchAsset a; aa_vchAliasOrAddress := alias; aa_txHash := aa_txHash a; aa_nHeight := aa_nHeight a;
     aa_nLastInterestClaimHeight := aa_nLastInterestClaimHeight a; aa_listAllocationInputs := aa_listAllocationInputs a;
     aa_listSendingAllocationInputs := aa_listSendingAllocationInputs a; aa_listSendingAllocationAmounts := aa_listSendingAllocationAmounts a;
     aa_nBalance := aa_nBalance a; aa_nAccumulatedBalanceSinceLastInterestClaim := aa_nAccumulatedBalanceSinceLastInterestClaim a;
     aa_fAccumulatedInterestSinceLastInterestClaim := aa_fAccumulatedInterestSinceLastInterestClaim a; aa_fInterestRate := aa_fInterestRate a;
     aa_vchMemo := aa_vchMemo a |}.
Definition set_written (txHash height : Z) (a : CAssetAllocation) : CAssetAllocation :=
  {| aa_vchAsset := aa_vchAsset a; aa_vchAliasOrAddress := aa_vchAliasOrAddress a; aa_txHash := txHash; aa_nHeight := height;
     aa_nLastInterestClaimHeight := aa_nLastInterestClaimHeight a; aa_listAllocationInputs := aa_listAllocationInputs a;
     aa_listSendingAllocationInputs := aa_listSendingAllocationInputs a; aa_listSendingAllocationAmounts := aa_listSendingAllocationAmounts a;
     aa_nBalance := aa_nBalance a; aa_nAccumulatedBalanceSinceLastInterestClaim := aa_nAccumulatedBalanceSinceLastInterestClaim a;
     aa_fAccumulatedInterestSinceLastInterestClaim := aa_fAccumulatedInterestSinceLastInterestClaim a; aa_fInterestRate := aa_fInterestRate a;
     aa_vchMemo := aa_vchMemo a |}.
Definition set_memo (memo : vch) (a : CAssetAllocation) : CAssetAllocation :=
  {| aa_vchAsset := aa_vchAsset a; aa_vchAliasOrAddress := aa_vchAliasOrAddress a; aa_txHash := aa_txHash a; aa_nHeight := aa_nHeight a;
     aa_nLastInterestClaimHeight := aa_nLastInterestClaimHeight a; aa_listAllocationInputs := aa_listAllocationInputs a;
     aa_listSendingAllocationInputs := aa_listSendingAllocationInputs a; aa_listSendingAllocationAmounts := aa_listSendingAllocationAmounts a;
     aa_nBalance := aa_nBalance a; aa_nAccumulatedBalanceSinceLastInterestClaim := aa_nAccumulatedBalanceSinceLastInterestClaim a;
     aa_fAccumulatedInterestSinceLastInterestClaim := aa_fAccumulatedInterestSinceLastInterestClaim a; aa_fInterestRate := aa_fInterestRate a;
     aa_vchMemo := memo |}.

(** The balance and the ranges. *)
Definition set_balance (n : Z) (a : CAssetAllocation) : CAssetAllocation :=
  {| aa_vchAsset := aa_vchAsset a; aa_vchAliasOrAddress := aa_vchAliasOrAddress a; aa_txHash := aa_txHash a; aa_nHeight := aa_nHeight a;
     aa_nLastInterestClaimHeight := aa_nLastInterestClaimHeight a; aa_listAllocationInputs := aa_listAllocationInputs a;
     aa_listSendingAllocationInputs := aa_listSendingAllocationInputs a; aa_listSendingAllocationAmounts := aa_listSendingAllocationAmounts a;
     aa_nBalance := n; aa_nAccumulatedBalanceSinceLastInterestClaim := aa_nAccumulatedBalanceSinceLastInterestClaim a;
     aa_fAccumulatedInterestSinceLastInterestClaim := aa_fAccumulatedInterestSinceLastInterestClaim a; aa_fInterestRate := aa_fInterestRate a;
     aa_vchMemo := aa_vchMemo a |}.
Definition set_ranges (l : list CRange) (a : CAssetAllocation) : CAssetAllocation :=
  {| aa_vchAsset := aa_vchAsset a; aa_vchAliasOrAddress := aa_vchAliasOrAddress a; aa_txHash := aa_txHash a; aa_nHeight := aa_nHeight a;
     aa_nLastInterestClaimHeight := aa_nLastInterestClaimHeight a; aa_listAllocationInputs := l;
     aa_listSendingAllocationInputs := aa_listSendingAllocationInputs a; aa_listSendingAllocationAmounts := aa_listSendingAllocationAmounts a;
     aa_nBalance := aa_nBalance a; aa_nAccumulatedBalanceSinceLastInterestClaim := aa_nAccumulatedBalanceSinceLastInterestClaim a;
     aa_fAccumulatedInterestSinceLastInterestClaim := aa_fAccumulatedInterestSinceLastInterestClaim a; aa_fInterestRate := aa_fInterestRate a;
     aa_vchMemo := aa_vchMemo a |}.
Definition set_sending_ranges (l : list (vch * list CRange)) (a : CAssetAllocation) : CAssetAllocation :=
  {| aa_vchAsset := aa_vchAsset a; aa_vchAliasOrAddress := aa_vchAliasOrAddress a; aa_txHash := aa_txHash a; aa_nHeight := aa_nHeight a;
     aa_nLastInterestClaimHeight := aa_nLastInterestClaimHeight a; aa_listAllocationInputs := aa_listAllocationInputs a;
     aa_listSendingAllocationInputs := l; aa_listSendingAllocationAmounts := aa_listSendingAllocationAmounts a;
     aa_nBalance := aa_nBalance a; aa_nAccumulatedBalanceSinceLastInterestClaim := aa_nAccumulatedBalanceSinceLastInterestClaim a;
     aa_fAccumulatedInterestSinceLastInterestClaim := aa_fAccumulatedInterestSinceLastInterestClaim a; aa_fInterestRate := aa_fInterestRate a;
     aa_vchMemo := aa_vchMemo a |}.

(** The interest: the two accumulators, the height of the last claim and the rate. *)
Definition set_interest (claim : Z) (balance : double) (interest rate : float) (a : CAssetAllocation) : CAssetAllocation :=
  {| aa_vchAsset := aa_vchAsset a; aa_vchAliasOrAddress := aa_vchAliasOrAddress a; aa_txHash := aa_txHash a; aa_nHeight := aa_nHeight a;
     aa_nLastInterestClaimHeight := claim; aa_listAllocationInputs := aa_listAllocationInputs a;
     aa_listSendingAllocationInputs := aa_listSendingAllocationInputs a; aa_listSendingAllocationAmounts := aa_listSendingAllocationAmounts a;
     aa_nBalance := aa_nBalance a; aa_nAccumulatedBalanceSinceLastInterestClaim := balance;
     aa_fAccumulatedInterestSinceLastInterestClaim := interest; aa_fInterestRate := rate; aa_vchMemo := aa_vchMemo a |}.
Definition set_rate (rate : float) (a : CAssetAllocation) : CAssetAllocation :=
  set_interest (aa_nLastInterestClaimHeight a) (aa_nAccumulatedBalanceSinceLastInterestClaim a) (aa_fAccumulatedInterestSinceLastInterestClaim a) rate a.

(** The balance, the supply and the maximum supply of an asset. *)
Definition set_issue (balance total max : Z) (a : CAsset) : CAsset :=
  {| as_vchAsset := as_vchAsset a; as_vchSymbol := as_vchSymbol a; as_vchAliasOrAddress := as_vchAliasOrAddress a;
     as_listAllocationInputs := as_listAllocationInputs a; as_txHash := as_txHash a; as_nHeight := as_nHeight a; as_vchPubData := as_vchPubData a;
     as_sCategory := as_sCategory a; as_nBalance := balance; as_nTotalSupply := total; as_nMaxSupply := max;
     as_bUseInputRanges := as_bUseInputRanges a; as_nPrecision := as_nPrecision a; as_fInterestRate := as_fInterestRate a;
     as_bCanAdjustInterestRate := as_bCanAdjustInterestRate a |}.

(** A record as it is made for a holder without one. *)
Definition new_allocation (t : CAssetAllocationTuple) (height : Z) (rate : float) : CAssetAllocation :=
  {| aa_vchAsset := t.1; aa_vchAliasOrAddress := t.2; aa_txHash := 0; aa_nHeight := u32 height; aa_nLastInterestClaimHeight := u32 height;
     aa_listAllocationInputs := []; aa_listSendingAllocationInputs := []; aa_listSendingAllocationAmounts := []; aa_nBalance := 0;
     aa_nAccumulatedBalanceSinceLastInterestClaim := S754_zero false; aa_fAccumulatedInterestSinceLastInterestClaim := S754_zero false;
     aa_fInterestRate := rate; aa_vchMemo := [] |}.

(** ** The databases *)

(** Allocations, current and confirmed, arrival times by transaction, assets, and [assetAllocationConflicts]. *)
Record AllocationDB := {
  db_current : gmap CAssetAllocationTuple CAssetAllocation;
  db_confirmed : gmap CAssetAllocationTuple CAssetAllocation;
  db_arrivals : gmap CAssetAllocationTuple (gmap Z Z);
  db_assets : gmap vch CAsset;
  assetAllocationConflicts : gset vch;
}.

Definition INT64_MAX : Z := 2 ^ 63 - 1.

Definition with_conflicts (s : gset vch) (db : AllocationDB) : AllocationDB :=
  {| db_current := db_current db; db_confirmed := db_confirmed db; db_arrivals := db_arrivals db; db_assets := db_assets db; assetAllocationConflicts := s |}.
Definition with_arrivals (m : gmap CAssetAllocationTuple (gmap Z Z)) (db : AllocationDB) : AllocationDB :=
  {| db_current := db_current db; db_confirmed := db_confirmed db; db_arrivals := m; db_assets := db_assets db; assetAllocationConflicts := assetAllocationConflicts db |}.

Definition WriteAssetAllocation (assetallocation : CAssetAllocation) (arrivalTime : Z) (fJustCheck : bool) (db : AllocationDB) : AllocationDB :=
  let t := tuple_of assetallocation in
  {| db_current := <[t := assetallocation]> (db_current db);
     db_confirmed := if negb fJustCheck then <[t := assetallocation]> (db_confirmed db) else db_confirmed db;
     db_arrivals := if fJustCheck && (arrivalTime <? INT64_MAX)
                    then let times := default ∅ (db_arrivals db !! t) in
                         <[t := match times !! aa_txHash assetallocation with Some _ => times | None => <[aa_txHash assetallocation := arrivalTime]> times end]> (db_arrivals db)
                    else db_arrivals db;
     db_assets := db_assets db;
     assetAllocationConflicts := assetAllocationConflicts db |}.

Definition EraseISArrivalTime (t : CAssetAllocationTuple) (txid : Z) (db : AllocationDB) : AllocationDB :=
  let times := delete txid (default ∅ (db_arrivals db !! t)) in
  with_arrivals (if (0 <? size times)%nat then <[t := times]> (db_arrivals db) else delete t (db_arrivals db)) db.

Definition WriteAsset (asset : CAsset) (db : AllocationDB) : AllocationDB :=
  {| db_current := db_current db; db_confirmed := db_confirmed db; db_arrivals := db_arrivals db;
     db_assets := <[as_vchAsset asset := asset]> (db_assets db); assetAllocationConflicts := assetAllocationConflicts db |}.

(** ** Reverting to the confirmed state *)

(** The tuples already reverted in this block, by [ToString], and the databases. *)
Record Env := { reverted : gset vch; env_db : AllocationDB }.

Definition with_db (db : AllocationDB) (env : Env) : Env := {| reverted := reverted env; env_db := db |}.

Definition RevertAssetAllocation (t : CAssetAllocationTuple) (asset : CAsset) (txHash nHeight : Z) (env : Env) : Env :=
  let db := EraseISArrivalTime t txHash (env_db env) in
  if decide (tuple_ToString t ∈ reverted env) then with_db db env
  else
    let dbAssetAllocation := default (new_allocation t nHeight (as_fInterestRate asset)) (db_confirmed db !! t) in
    let db := WriteAssetAllocation dbAssetAllocation INT64_MAX false db in
    {| reverted := {[tuple_ToString t]} ∪ reverted env;
       env_db := with_conflicts (assetAllocationConflicts db ∖ {[tuple_ToString t]}) db |}.

(** ** Interest *)

Definition ONE_MONTH_IN_BLOCKS : Z := 43800.

(** [nHeight - assetAllocation.nHeight], an unsigned difference taken as an [int]. *)
Definition blocks_since (nHeight from : Z) : Z := i32 (nHeight - from).

(** Whether it counted the blocks, and the record as it is left. *)
Definition AccumulateInterestSinceLastClaim (a : CAssetAllocation) (nHeight : Z) : bool * CAssetAllocation :=
  let nBlocksSinceLastUpdate := blocks_since nHeight (aa_nHeight a) in
  if nBlocksSinceLastUpdate <=? 0 then (false, a)
  else (true,
    set_interest (aa_nLastInterestClaimHeight a)
      (double_add (aa_nAccumulatedBalanceSinceLastInterestClaim a) (double_mul (double_of_Z (aa_nBalance a)) (double_of_Z nBlocksSinceLastUpdate)))
      (float_add (aa_fAccumulatedInterestSinceLastInterestClaim a) (float_mul (aa_fInterestRate a) (float_of_Z nBlocksSinceLastUpdate)))
      (aa_fInterestRate a) a).

(** ** The handler *)

Definition OP_ASSET_ALLOCATION_SEND : Z := 1.
Definition OP_ASSET_COLLECT_INTEREST : Z := 2.
Definition MAX_MEMO_LENGTH : nat := 128.

(** What stops the handler: the value it returns and the code of its error message, if it has one. *)
Inductive Stop := Returns (good : bool) (error : option Z).

Section Handler.
Context `{RangeSort}.

(** The units of interest on a record [blocks] after its last claim; the maximum supply in units. *)
Variable compound_interest : CAssetAllocation -> Z -> Z.
Variable supply_in_units : CAsset -> Z.
Variable fUnitTest : bool.

(** [CMineriumAddress(user).IsValid()] and [FindAssetOwnerInTx(inputs, tx, user)] *)
Variable address_valid : vch -> bool.
Variable owner_in_tx : vch -> bool.

(** The transaction: whether it is a coinbase, its hash, and its payload with the hash of the payload. *)
Variable isCoinBase : bool.
Variable txHash : Z.
Variable payload : option (CAssetAllocation * vch).

(** The arguments of the call, and the time of it in milliseconds. *)
Variable op : Z.
Variable vvchArgs : list vch.
Variable vchAlias : vch.
Variable fJustCheck : bool.
Variable nHeight : Z.
Variable bSanityCheck : bool.
Variable now : Z.

(** The result, the error, and the record with what it has accumulated. *)
Definition GetAssetAllocationInterest (a : CAssetAllocation) : Z * CAssetAllocation :=
  let '(counted, a) := AccumulateInterestSinceLastClaim a nHeight in
  if negb counted then (0, a)
  else
    let nInterestClaimBlockThreshold := if fUnitTest then 1 else ONE_MONTH_IN_BLOCKS in
    let since := u32 (nHeight - aa_nLastInterestClaimHeight a) in
    if (since <? nInterestClaimBlockThreshold) || (aa_nLastInterestClaimHeight a =? 0) then (0, a)
    else (compound_interest a since, a).

Definition ApplyAssetAllocationInterest (asset : CAsset) (a : CAssetAllocation) : option (bool * CAsset * CAssetAllocation) :=
  let '(nInterest, a) := GetAssetAllocationInterest a in
  if nInterest <=? 0 then Some (false, asset, a)
  else
    let nMaxSupply := supply_in_units asset in
    supply ← checked (nInterest + as_nTotalSupply asset);
    nInterest ← (if supply >? nMaxSupply then checked (nMaxSupply - as_nTotalSupply asset) else Some nInterest);
    if (nInterest : Z) <=? 0 then Some (false, asset, a)
    else
      balance ← checked (aa_nBalance a + nInterest);
      total ← checked (as_nTotalSupply asset + nInterest);
      Some (true,
        set_issue (as_nBalance asset) total (as_nMaxSupply asset) asset,
        set_interest (u32 nHeight) (S754_zero false) (S754_zero false) (aa_fInterestRate a) (set_balance balance a)).

(** The checks on the transaction alone. *)
Definition just_check (theAssetAllocation : CAssetAllocation) (vchHash : vch) : option Stop :=
  match vvchArgs with
  | [arg] =>
      if negb (bool_decide (vchHash = arg)) then Some (Returns true (Some 1003))
      else if op =? OP_ASSET_ALLOCATION_SEND then
        if bool_decide (aa_listSendingAllocationInputs theAssetAllocation = []) && bool_decide (aa_listSendingAllocationAmounts theAssetAllocation = [])
        then Some (Returns false (Some 1004))
        else if (250 <? length (aa_listSendingAllocationInputs theAssetAllocation))%nat || (250 <? length (aa_listSendingAllocationAmounts theAssetAllocation))%nat
        then Some (Returns false (Some 1005))
        else if (MAX_MEMO_LENGTH <? length (aa_vchMemo theAssetAllocation))%nat then Some (Returns false (Some 1006))
        else None
      else if op =? OP_ASSET_COLLECT_INTEREST then
        if negb (bool_decide (aa_listSendingAllocationInputs theAssetAllocation = [])) || negb (bool_decide (aa_listSendingAllocationAmounts theAssetAllocation = []))
        then Some (Returns false (Some 1007))
        else if (0 <? length (aa_vchMemo theAssetAllocation))%nat then Some (Returns false (Some 1008))
        else None
      else Some (Returns false (Some 1009))
  | _ => Some (Returns false (Some 1002))
  end.

Definition bRevert : bool := negb bSanityCheck && negb fJustCheck.

Definition revert (t : CAssetAllocationTuple) (asset : CAsset) (env : Env) : Env :=
  if bRevert then RevertAssetAllocation t asset txHash nHeight env else env.

Definition GetAssetAllocation (t : CAssetAllocationTuple) (env : Env) : option CAssetAllocation := db_current (env_db env) !! t.

Definition add_conflict (t : CAssetAllocationTuple) (env : Env) : Env :=
  with_db (with_conflicts ({[tuple_ToString t]} ∪ assetAllocationConflicts (env_db env)) (env_db env)) env.

(** The test of the sender's balance: whether it is overrun, whether all receivers get into conflict, the error. *)
Definition check_balance (t : CAssetAllocationTuple) (balance nTotal code : Z) (env : Env) : option (bool * bool * option Z * Env) :=
  nBalanceAfterSend ← checked (balance - nTotal);
  if nBalanceAfterSend <? 0 then
    Some (true, false, if bSanityCheck then Some code else None, if fJustCheck && negb bSanityCheck then add_conflict t env else env)
  else if fJustCheck && negb bSanityCheck then
    Some (false, bool_decide (tuple_ToString t ∈ assetAllocationConflicts (env_db env)), None, env)
  else Some (false, false, None, env).

(** The loop that adds up the amounts. *)
Fixpoint total_amounts (asset : CAsset) (vchAsset : vch) (amounts : list (vch * Z)) (nTotal : Z) (env : Env) : option (Stop * Env + Z * Env) :=
  match amounts with
  | [] => Some (inr (nTotal, env))
  | (alias, amount) :: amounts =>
      let env := revert (vchAsset, alias) asset env in
      nTotal ← checked (nTotal + amount);
      if amount <=? 0 then Some (inl (Returns true (Some 1020), env)) else total_amounts asset vchAsset amounts nTotal env
  end.

(** The record of a receiver, the one in the database or a new one. *)
Definition receiver_of (t : CAssetAllocationTuple) (asset : CAsset) (env : Env) : CAssetAllocation :=
  default (new_allocation t nHeight (as_fInterestRate asset)) (GetAssetAllocation t env).

(** A receiver and the sender after the transfer of an amount. *)
Definition transfer_amount (asset : CAsset) (amount : Z) (receiver sender : CAssetAllocation) : option (CAssetAllocation * CAssetAllocation) :=
  let '(receiver, sender) :=
    if positive_float (as_fInterestRate asset)
    then ((AccumulateInterestSinceLastClaim receiver nHeight).2, (AccumulateInterestSinceLastClaim sender nHeight).2)
    else (receiver, sender) in
  let receiver := set_memo (aa_vchMemo sender) (set_rate (as_fInterestRate asset) (set_written txHash (u32 nHeight) receiver)) in
  more ← checked (aa_nBalance receiver + amount);
  less ← checked (aa_nBalance sender - amount);
  Some (set_balance more receiver, set_balance less sender).

(** The loop over the receivers of amounts. *)
Fixpoint send_amounts (asset : CAsset) (overrun conflict : bool) (amounts : list (vch * Z)) (sender : CAssetAllocation) (env : Env)
    : option (Stop * Env + CAssetAllocation * Env) :=
  match amounts with
  | [] => Some (inr (sender, env))
  | (alias, amount) :: amounts =>
      if bool_decide (alias = aa_vchAliasOrAddress sender) then Some (inl (Returns true (Some 1022), env))
      else if bSanityCheck then send_amounts asset overrun conflict amounts sender env
      else
        let t := (aa_vchAsset sender, alias) in
        let env := if fJustCheck && (conflict || overrun) then add_conflict t env else env in
        let receiver := receiver_of t asset env in
        '(receiver, sender) ← (if overrun then Some (receiver, sender) else transfer_amount asset amount receiver sender);
        send_amounts asset overrun conflict amounts sender (with_db (WriteAssetAllocation receiver INT64_MAX fJustCheck (env_db env)) env)
  end.

(** The loop that adds up the sizes of the ranges. *)
Fixpoint total_ranges (asset : CAsset) (vchAsset : vch) (inputs : list (vch * list CRange)) (nTotal : Z) (rangeTotals : list Z) (env : Env)
    : option (Stop * Env + Z * list Z * Env) :=
  match inputs with
  | [] => Some (inr (nTotal, rangeTotals, env))
  | (alias, ranges) :: inputs =>
      let env := revert (vchAsset, alias) asset env in
      let rangeTotal := validateRangesAndGetCount ranges in
      if rangeTotal =? 0 then Some (inl (Returns true (Some 1026), env))
      else
        nTotal ← checked (nTotal + rangeTotal);
        total_ranges asset vchAsset inputs nTotal (rangeTotals ++ [rangeTotal]) env
  end.

(** The receiver, the sender, the sender's record of the database and the ranges sent after the transfer of the ranges;
    [subtractRanges] works on the sender's record of the database and leaves its cuts in it. *)
Definition transfer_ranges (asset : CAsset) (rangeTotal : Z) (ranges : list CRange) (receiver sender dbAssetAllocation : CAssetAllocation)
    : option (CAssetAllocation * CAssetAllocation * CAssetAllocation * list CRange) :=
  let receiver := set_memo (aa_vchMemo sender) (set_written txHash (u32 nHeight) (set_rate (as_fInterestRate asset) receiver)) in
  let receiver := set_ranges (mergeRanges (aa_listAllocationInputs receiver ++ ranges) []).2 receiver in
  more ← checked (aa_nBalance receiver + rangeTotal);
  '(arr, ranges, outputSubtract) ← subtractRanges (aa_listAllocationInputs dbAssetAllocation) ranges [];
  less ← checked (aa_nBalance sender - rangeTotal);
  Some (set_balance more receiver, set_balance less (set_ranges outputSubtract sender), set_ranges arr dbAssetAllocation, ranges).

(** The loop over the receivers of ranges; [done] are the entries of [listSendingAllocationInputs] handled already. *)
Fixpoint send_ranges (asset : CAsset) (overrun conflict : bool) (done inputs : list (vch * list CRange)) (rangeTotals : list Z)
    (sender dbAssetAllocation : CAssetAllocation) (env : Env) : option (Stop * Env + CAssetAllocation * Env) :=
  match inputs, rangeTotals with
  | (alias, ranges) :: inputs, rangeTotal :: rangeTotals =>
      if bool_decide (alias = aa_vchAliasOrAddress sender) then Some (inl (Returns true (Some 1028), env))
      else if bSanityCheck then send_ranges asset overrun conflict (done ++ [(alias, ranges)]) inputs rangeTotals sender dbAssetAllocation env
      else
        let t := (aa_vchAsset sender, alias) in
        let env := if fJustCheck && (conflict || overrun) then add_conflict t env else env in
        if negb (doesRangeContain (aa_listAllocationInputs dbAssetAllocation) ranges) then Some (inl (Returns true (Some 1029), env))
        else
          let receiver := receiver_of t asset env in
          '(receiver, sender, dbAssetAllocation, ranges) ←
            (if overrun then Some (receiver, sender, dbAssetAllocation, ranges)
             else transfer_ranges asset rangeTotal ranges receiver sender dbAssetAllocation);
          send_ranges asset overrun conflict (done ++ [(alias, ranges)]) inputs rangeTotals
            (set_sending_ranges (done ++ (alias, ranges) :: inputs) sender) dbAssetAllocation
            (with_db (WriteAssetAllocation receiver INT64_MAX fJustCheck (env_db env)) env)
  | _, _ => Some (inr (sender, env))
  end.

(** [OP_ASSET_COLLECT_INTEREST]: the record to write and the asset. *)
Definition collect_interest (t : CAssetAllocationTuple) (env : Env) : option (Stop * Env + CAssetAllocation * CAsset * Env) :=
  match GetAssetAllocation t env with
  | None => Some (inl (Returns true (Some 1010), env))
  | Some dbAssetAllocation =>
      match db_assets (env_db env) !! aa_vchAsset dbAssetAllocation with
      | None => Some (inl (Returns true (Some 1011), env))
      | Some dbAsset =>
          if float_le_zero (as_fInterestRate dbAsset) || float_le_zero (aa_fInterestRate dbAssetAllocation)
          then Some (inl (Returns true (Some 1012), env))
          else
            let env := revert t dbAsset env in
            match (if bRevert then GetAssetAllocation t env else Some dbAssetAllocation) with
            | None => Some (inl (Returns true (Some 1015), env))
            | Some dbAssetAllocation =>
                if negb fJustCheck then
                  '(ok, dbAsset, theAssetAllocation) ← ApplyAssetAllocationInterest dbAsset dbAssetAllocation;
                  if negb (ok : bool) then Some (inl (Returns true (Some 1013), env))
                  else
                    let env := if bSanityCheck then env else with_db (WriteAsset dbAsset (env_db env)) env in
                    Some (inr (if bSanityCheck then dbAssetAllocation else theAssetAllocation, dbAsset, env))
                else Some (inr (dbAssetAllocation, dbAsset, env))
            end
      end
  end.

(** The sender's record as it enters a transfer: the payload with what the database holds, except for the ranges. *)
Definition sender_of (theAssetAllocation dbAssetAllocation : CAssetAllocation) (alias : vch) : CAssetAllocation :=
  {| aa_vchAsset := aa_vchAsset theAssetAllocation; aa_vchAliasOrAddress := alias; aa_txHash := aa_txHash theAssetAllocation;
     aa_nHeight := aa_nHeight dbAssetAllocation; aa_nLastInterestClaimHeight := aa_nLastInterestClaimHeight dbAssetAllocation;
     aa_listAllocationInputs := aa_listAllocationInputs theAssetAllocation;
     aa_listSendingAllocationInputs := aa_listSendingAllocationInputs theAssetAllocation;
     aa_listSendingAllocationAmounts := aa_listSendingAllocationAmounts theAssetAllocation; aa_nBalance := aa_nBalance dbAssetAllocation;
     aa_nAccumulatedBalanceSinceLastInterestClaim := aa_nAccumulatedBalanceSinceLastInterestClaim dbAssetAllocation;
     aa_fAccumulatedInterestSinceLastInterestClaim := aa_fAccumulatedInterestSinceLastInterestClaim dbAssetAllocation;
     aa_fInterestRate := aa_fInterestRate dbAssetAllocation; aa_vchMemo := aa_vchMemo theAssetAllocation |}.

(** The two kinds of transfer, from the record of the sender [sender] with the record [dbAssetAllocation] of the database. *)
Definition transfer (t : CAssetAllocationTuple) (dbAsset : CAsset) (sender dbAssetAllocation : CAssetAllocation) (env : Env)
    : option (Stop * Env + bool * option Z * CAssetAllocation * Env) :=
  if negb (bool_decide (aa_listSendingAllocationAmounts sender = [])) then
    if as_bUseInputRanges dbAsset then Some (inl (Returns true (Some 1018), env))
    else
      r ← total_amounts dbAsset (aa_vchAsset sender) (aa_listSendingAllocationAmounts sender) 0 env;
      match r with
      | inl stop => Some (inl stop)
      | inr (nTotal, env) =>
          '(overrun, conflict, err, env) ← check_balance t (aa_nBalance dbAssetAllocation) nTotal 1021 env;
          r ← send_amounts dbAsset overrun conflict (aa_listSendingAllocationAmounts sender) sender env;
          match r with
          | inl stop => Some (inl stop)
          | inr (sender, env) => Some (inr (overrun, err, sender, env))
          end
      end
  else if negb (bool_decide (aa_listSendingAllocationInputs sender = [])) then
    if negb (as_bUseInputRanges dbAsset) then Some (inl (Returns true (Some 1024), env))
    else
      r ← total_ranges dbAsset (aa_vchAsset sender) (aa_listSendingAllocationInputs sender) 0 [] env;
      match r with
      | inl stop => Some (inl stop)
      | inr (nTotal, rangeTotals, env) =>
          '(overrun, conflict, err, env) ← check_balance t (aa_nBalance dbAssetAllocation) nTotal 1027 env;
          r ← send_ranges dbAsset overrun conflict [] (aa_listSendingAllocationInputs sender) rangeTotals sender dbAssetAllocation env;
          match r with
          | inl stop => Some (inl stop)
          | inr (sender, env) => Some (inr (overrun, err, sender, env))
          end
      end
  else Some (inr (false, None, sender, env)).

(** [OP_ASSET_ALLOCATION_SEND] *)
Definition allocation_send (theAssetAllocation : CAssetAllocation) (alias : vch) (env : Env)
    : option (Stop * Env + bool * option Z * CAssetAllocation * Env) :=
  let t := (aa_vchAsset theAssetAllocation, alias) in
  if negb (bool_decide (vchAlias = [])) && address_valid alias then Some (inl (Returns true (Some 1016), env))
  else
    match GetAssetAllocation t env with
    | None => Some (inl (Returns true (Some 1015), env))
    | Some dbAssetAllocation =>
        if (if bool_decide (vchAlias = [])
            then negb (bool_decide (aa_vchAliasOrAddress dbAssetAllocation = aa_vchAliasOrAddress theAssetAllocation)) || negb (owner_in_tx alias)
            else false)
        then Some (inl (Returns true (Some 1015), env))
        else if negb (bool_decide (vchAlias = [])) && negb (bool_decide (aa_vchAliasOrAddress dbAssetAllocation = vchAlias))
        then Some (inl (Returns true (Some 1017), env))
        else
          match db_assets (env_db env) !! aa_vchAsset theAssetAllocation with
          | None => Some (inl (Returns true (Some 1016), env))
          | Some dbAsset =>
              let env := revert t dbAsset env in
              match (if bRevert then GetAssetAllocation t env else Some dbAssetAllocation) with
              | None => Some (inl (Returns true (Some 1015), env))
              | Some dbAssetAllocation => transfer t dbAsset (sender_of theAssetAllocation dbAssetAllocation alias) dbAssetAllocation env
              end
          end
    end.

(** The record of the owner is written at the end. *)
Definition write_allocation (overrun : bool) (theAssetAllocation : CAssetAllocation) (env : Env) : Env :=
  if negb bSanityCheck && ((op =? OP_ASSET_COLLECT_INTEREST) && negb fJustCheck || negb (op =? OP_ASSET_COLLECT_INTEREST)) then
    let a := if overrun then theAssetAllocation else set_written txHash (u32 nHeight) theAssetAllocation in
    with_db (WriteAssetAllocation a (if fJustCheck then now else INT64_MAX) fJustCheck (env_db env)) env
  else env.

Definition CheckAssetAllocationInputs (env : Env) : option (Stop * Env) :=
  if isCoinBase && negb fJustCheck && negb bSanityCheck then Some (Returns true None, env)
  else
    match payload with
    | None => Some (Returns true (Some 1001), env)
    | Some (theAssetAllocation, vchHash) =>
        match (if fJustCheck then just_check theAssetAllocation vchHash else None) with
        | Some stop => Some (stop, env)
        | None =>
            let alias := if bool_decide (vchAlias = []) then aa_vchAliasOrAddress theAssetAllocation else vchAlias in
            if op =? OP_ASSET_COLLECT_INTEREST then
              r ← collect_interest (aa_vchAsset theAssetAllocation, alias) env;
              match r with
              | inl stop => Some stop
              | inr (a, _, env) => Some (Returns true None, write_allocation false a env)
              end
            else if op =? OP_ASSET_ALLOCATION_SEND then
              r ← allocation_send theAssetAllocation alias env;
              match r with
              | inl stop => Some stop
              | inr (overrun, err, a, env) => Some (Returns true err, write_allocation overrun a env)
              end
            else Some (Returns true None, write_allocation false theAssetAllocation env)
        end
    end.

End Handler.

(** ** Specification: balances *)

Definition balance_at (m : gmap CAssetAllocationTuple CAssetAllocation) (t : CAssetAllocationTuple) : Z :=
  match m !! t with Some a => aa_nBalance a | None => 0 end.

(** The sum of all balances. *)
Definition total_balance (m : gmap CAssetAllocationTuple CAssetAllocation) : Z := map_fold (fun _ a n => aa_nBalance a + n) 0 m.

Definition sum_amounts (l : list (vch * Z)) : Z := foldr (fun x n => x.2 + n) 0 l.

(** What the list holds for one receiver. *)
Definition amount_for (alias : vch) (l : list (vch * Z)) : Z := sum_amounts (filter (fun x => x.1 = alias) l).

Lemma total_balance_insert_new m t a : m !! t = None -> total_balance (<[t := a]> m) = aa_nBalance a + total_balance m.
Proof. intros Ht. unfold total_balance. rewrite map_fold_insert_L; [done| |done]. intros. lia. Qed.

Lemma total_balance_insert m t a : total_balance (<[t := a]> m) = total_balance m - balance_at m t + aa_nBalance a.
Proof.
  unfold balance_at. destruct (m !! t) as [b|] eqn:Ht.
  - rewrite <- (insert_id m t b Ht) at 2. rewrite <- (insert_delete_eq m t a), <- (insert_delete_eq m t b).
    rewrite !total_balance_insert_new by apply lookup_delete_eq. lia.
  - rewrite total_balance_insert_new by done. lia.
Qed.

Lemma balance_at_insert m t a u : balance_at (<[t := a]> m) u = if decide (u = t) then aa_nBalance a else balance_at m u.
Proof.
  unfold balance_at. destruct (decide (u = t)) as [->|Hne]; [by rewrite lookup_insert_eq|by rewrite lookup_insert_ne].
Qed.

Lemma balance_at_Some m t a : m !! t = Some a -> balance_at m t = aa_nBalance a.
Proof. intros E. unfold balance_at. by rewrite E. Qed.

Lemma sum_amounts_cons x l : sum_amounts (x :: l) = x.2 + sum_amounts l.
Proof. done. Qed.

Lemma amount_for_cons alias x l : amount_for alias (x :: l) = (if decide (x.1 = alias) then x.2 else 0) + amount_for alias l.
Proof. unfold amount_for. rewrite filter_cons. by destruct (decide (x.1 = alias)). Qed.

(** ** Lemmas: steps of the handler *)

Section Lemmas.
Context `{RangeSort}.
Variables (compound_interest : CAssetAllocation -> Z -> Z) (supply_in_units : CAsset -> Z) (fUnitTest : bool) (address_valid owner_in_tx : vch -> bool).
Variables (txHash op : Z) (vchAlias : vch) (fJustCheck : bool) (nHeight : Z) (now : Z).

(** Reverting a list of tuples, when the transaction is in a block. *)
Definition revert_all (asset : CAsset) (l : list CAssetAllocationTuple) (env : Env) : Env :=
  foldl (fun env t => revert txHash fJustCheck nHeight false t asset env) env l.

Lemma total_amounts_ok asset vchAsset amounts nTotal env n env' :
  total_amounts txHash fJustCheck nHeight false asset vchAsset amounts nTotal env = Some (inr (n, env')) ->
  n = nTotal + sum_amounts amounts /\ Forall (fun x => 0 < x.2) amounts /\ env' = revert_all asset (map (fun x => (vchAsset, x.1)) amounts) env.
Proof.
  revert nTotal env. induction amounts as [|[alias amount] l IH]; intros nTotal env Ht; cbn [total_amounts] in Ht.
  { injection Ht as <- <-. split_and!; [cbn; lia|constructor|done]. }
  step_checked Ht. case_if_in Ht; [done|]. apply IH in Ht as (-> & Hall & ->). split_and!; [rewrite sum_amounts_cons; cbn; lia| |done].
  constructor; [cbn; lia|done].
Qed.

Lemma accumulate_fields a n : let b := (AccumulateInterestSinceLastClaim a n).2 in
  tuple_of b = tuple_of a /\ aa_nBalance b = aa_nBalance a /\ aa_listAllocationInputs b = aa_listAllocationInputs a
  /\ aa_vchMemo b = aa_vchMemo a.
Proof. unfold AccumulateInterestSinceLastClaim. by case_if. Qed.

Lemma transfer_amount_ok asset amount r s r' s' :
  transfer_amount txHash nHeight asset amount r s = Some (r', s') ->
  tuple_of r' = tuple_of r /\ tuple_of s' = tuple_of s /\ aa_nBalance r' = aa_nBalance r + amount /\ aa_nBalance s' = aa_nBalance s - amount.
Proof.
  unfold transfer_amount. intros Ht. destruct (accumulate_fields r nHeight) as (R1 & R2 & _), (accumulate_fields s nHeight) as (S1 & S2 & _).
  destruct (positive_float (as_fInterestRate asset)); cbn in Ht; repeat step_checked Ht; injection Ht as <- <-; cbn in *; unfold tuple_of in *; cbn in *;
    split_and!; congruence.
Qed.

Lemma receiver_of_ok t asset env :
  (forall u a, db_current (env_db env) !! u = Some a -> tuple_of a = u) ->
  tuple_of (receiver_of nHeight t asset env) = t /\ aa_nBalance (receiver_of nHeight t asset env) = balance_at (db_current (env_db env)) t.
Proof.
  intros K. unfold receiver_of, GetAssetAllocation, balance_at. destruct (db_current (env_db env) !! t) as [a|] eqn:E; cbn; [by rewrite (K t a E)|by destruct t].
Qed.

Lemma write_current a ms env : db_current (env_db (with_db (WriteAssetAllocation a ms fJustCheck (env_db env)) env)) = <[tuple_of a := a]> (db_current (env_db env)).
Proof. done. Qed.

Lemma conflict_current (b : bool) t env : db_current (env_db (if b then add_conflict t env else env)) = db_current (env_db env).
Proof. by destruct b. Qed.

(** Every record of the map is under its own tuple. *)
Definition keyed (m : gmap CAssetAllocationTuple CAssetAllocation) : Prop := forall t a, m !! t = Some a -> tuple_of a = t.

Lemma keyed_insert m a : keyed m -> keyed (<[tuple_of a := a]> m).
Proof. intros K t b [[<- <-]|[_ Hb]]%lookup_insert_Some; [done|by apply K]. Qed.

(** The loop over the receivers: each gets what the list holds for it, and the sender, who is none of them, pays. *)
Lemma send_amounts_ok asset overrun conflict amounts s env s' env' :
  keyed (db_current (env_db env)) ->
  send_amounts txHash fJustCheck nHeight false asset overrun conflict amounts s env = Some (inr (s', env')) ->
  keyed (db_current (env_db env')) /\ tuple_of s' = tuple_of s
  /\ aa_nBalance s' = aa_nBalance s - (if overrun then 0 else sum_amounts amounts)
  /\ Forall (fun x => x.1 <> aa_vchAliasOrAddress s) amounts
  /\ (forall u, balance_at (db_current (env_db env')) u = balance_at (db_current (env_db env)) u
        + (if overrun then 0 else if decide (u.1 = aa_vchAsset s) then amount_for u.2 amounts else 0))
  /\ total_balance (db_current (env_db env')) = total_balance (db_current (env_db env)) + (if overrun then 0 else sum_amounts amounts).
Proof.
  revert s env. induction amounts as [|[alias amount] l IH]; intros s env K Hs; cbn [send_amounts] in Hs.
  { injection Hs as <- <-. split_and!; [done|done|destruct overrun; cbn; lia|constructor| |destruct overrun; cbn; lia].
    intros u. destruct overrun, (decide (u.1 = aa_vchAsset s)); cbn; lia. }
  destruct (bool_decide (alias = aa_vchAliasOrAddress s)) eqn:Ea; [done|]. apply bool_decide_eq_false in Ea.
  set (env1 := if fJustCheck && (conflict || overrun) then add_conflict (aa_vchAsset s, alias) env else env) in *.
  assert (db_current (env_db env1) = db_current (env_db env)) as E1 by apply conflict_current.
  destruct (receiver_of_ok (aa_vchAsset s, alias) asset env1) as [Rt Rb]; [by rewrite E1|]. rewrite E1 in Rb.
  set (r := receiver_of nHeight (aa_vchAsset s, alias) asset env1) in *.
  destruct (if overrun then Some (r, s) else transfer_amount txHash nHeight asset amount r s) as [[r1 s1]|] eqn:Et; cbn [mbind option_bind] in Hs; [|done].
  assert (tuple_of r1 = (aa_vchAsset s, alias) /\ tuple_of s1 = tuple_of s /\ aa_nBalance r1 = aa_nBalance r + (if overrun then 0 else amount)
    /\ aa_nBalance s1 = aa_nBalance s - (if overrun then 0 else amount)) as (T1 & T2 & T3 & T4).
  { destruct overrun; [injection Et as <- <-; split_and!; (done || lia)|]. apply transfer_amount_ok in Et as (A & B & C & D). split_and!; congruence. }
  assert (aa_vchAsset s1 = aa_vchAsset s /\ aa_vchAliasOrAddress s1 = aa_vchAliasOrAddress s) as [Ts Ta] by (unfold tuple_of in T2; by injection T2).
  apply IH in Hs as (K' & B1 & B2 & B3 & B4 & B5); rewrite ?write_current, ?E1, ?T1 in *; [|rewrite <- T1; by apply keyed_insert].
  rewrite Ts, Ta in *. split_and!; [done|congruence|rewrite B2, T4, sum_amounts_cons; destruct overrun; cbn; lia|by constructor| |].
  - intros u. rewrite B4, balance_at_insert, amount_for_cons. cbn [fst snd]. destruct (decide (u = (aa_vchAsset s, alias))) as [->|Hne].
    + cbn [fst snd]. rewrite T3, Rb. rewrite !decide_True by done. destruct overrun; lia.
    + destruct overrun; [lia|]. destruct (decide (u.1 = aa_vchAsset s)) as [Eu|]; [|lia]. rewrite decide_False; [lia|].
      intros ->. apply Hne. by destruct u; cbn in *; subst.
  - rewrite B5, total_balance_insert, T3, Rb, sum_amounts_cons. destruct overrun; cbn; lia.
Qed.

Lemma revert_keyed t asset env :
  keyed (db_current (env_db env)) -> keyed (db_confirmed (env_db env)) ->
  keyed (db_current (env_db (revert txHash fJustCheck nHeight false t asset env)))
  /\ keyed (db_confirmed (env_db (revert txHash fJustCheck nHeight false t asset env)))
  /\ forall u, u <> t -> db_current (env_db (revert txHash fJustCheck nHeight false t asset env)) !! u = db_current (env_db env) !! u.
Proof.
  intros K C. unfold revert. destruct (bRevert fJustCheck false); [|done]. unfold RevertAssetAllocation. case_decide; [done|].
  cbn [env_db db_current db_confirmed with_conflicts WriteAssetAllocation EraseISArrivalTime with_arrivals negb].
  set (a := default _ _). assert (tuple_of a = t) as Ea.
  { unfold a. destruct (db_confirmed (env_db env) !! t) as [b|] eqn:E; cbn; [by apply C|by destruct t]. }
  split_and!; [by apply keyed_insert|by apply keyed_insert|]. intros u Hu. by rewrite lookup_insert_ne by congruence.
Qed.

Lemma revert_all_keyed asset l env :
  keyed (db_current (env_db env)) -> keyed (db_confirmed (env_db env)) ->
  keyed (db_current (env_db (revert_all asset l env)))
  /\ forall u, u ∉ l -> db_current (env_db (revert_all asset l env)) !! u = db_current (env_db env) !! u.
Proof.
  unfold revert_all. revert env. induction l as [|t l IH]; intros env K C; cbn [foldl]; [done|].
  destruct (revert_keyed t asset env K C) as (K' & C' & E). destruct (IH _ K' C') as [K2 E2]. split; [done|].
  intros u [Hu Hl]%not_elem_of_cons. rewrite E2 by done. by apply E.
Qed.

(** What the checks before the transfer come to: the sender's record is there, and so is the asset. *)
Lemma allocation_send_ok pa alias env asset r :
  db_assets (env_db env) !! aa_vchAsset pa = Some asset ->
  allocation_send address_valid owner_in_tx txHash vchAlias fJustCheck nHeight false pa alias env = Some (inr r) ->
  exists dbA, let env1 := revert txHash fJustCheck nHeight false (aa_vchAsset pa, alias) asset env in
  GetAssetAllocation (aa_vchAsset pa, alias) env1 = Some dbA
  /\ transfer txHash fJustCheck nHeight false (aa_vchAsset pa, alias) asset (sender_of pa dbA alias) dbA env1 = Some (inr r).
Proof.
  intros Has. unfold allocation_send.
  destruct (negb _ && address_valid alias); [done|].
  destruct (GetAssetAllocation _ env) as [d0|] eqn:E0; [|done].
  match goal with |- context [if (if ?b then ?c else false) then _ else _] => destruct (if b then c else false) end; [done|].
  match goal with |- context [if negb ?b && negb ?c then _ else _] => destruct (negb b && negb c) end; [done|]. rewrite Has.
  match goal with |- context [match ?x with Some _ => _ | None => _ end] => destruct x as [dbA|] eqn:Ed end; [|done].
  intros Ht. exists dbA. split; [|done]. revert Ed. unfold revert. destruct (bRevert fJustCheck false); congruence.
Qed.

Lemma amount_for_none alias l : Forall (fun x => x.1 <> alias) l -> amount_for alias l = 0.
Proof. induction 1 as [|x l Hx Hl IH]; [done|]. rewrite amount_for_cons, decide_False by done. by rewrite IH. Qed.

(** The transfer and the write of the sender's record. *)
Lemma transfer_amounts_ok pa alias dbA asset env overrun err s env2 :
  let t := (aa_vchAsset pa, alias) in let l := aa_listSendingAllocationAmounts pa in
  let m := db_current (env_db (revert_all asset (map (fun x => (aa_vchAsset pa, x.1)) l) env)) in
  let m' := db_current (env_db (write_allocation txHash OP_ASSET_ALLOCATION_SEND fJustCheck nHeight false now overrun s env2)) in
  keyed (db_current (env_db env)) -> keyed (db_confirmed (env_db env)) -> GetAssetAllocation t env = Some dbA -> l <> [] ->
  transfer txHash fJustCheck nHeight false t asset (sender_of pa dbA alias) dbA env = Some (inr (overrun, err, s, env2)) ->
  Forall (fun x => 0 < x.2) l /\ total_balance m' = total_balance m
  /\ forall u, balance_at m' u = balance_at m u
       + (if decide (sum_amounts l <= balance_at m t)
          then (if decide (u = t) then - sum_amounts l else 0) + (if decide (u.1 = aa_vchAsset pa) then amount_for u.2 l else 0) else 0).
Proof.
  intros t l m m' K C Hdb Hne. unfold transfer. cbn [aa_listSendingAllocationAmounts sender_of aa_vchAsset]. fold l.
  rewrite bool_decide_eq_false_2 by done. cbn [negb]. destruct (as_bUseInputRanges asset); [done|].
  destruct (total_amounts _ _ _ _ _ _ _ _ env) as [[stop|[n env1]]|] eqn:Et; cbn [mbind option_bind]; try done.
  apply total_amounts_ok in Et as (-> & Hpos & ->). rewrite Z.add_0_l.
  destruct (revert_all_keyed asset (map (fun x => (aa_vchAsset pa, x.1)) l) env K C) as [K1 E1].
  set (env1 := revert_all asset _ env) in *. fold m in K1, E1.
  destruct (check_balance _ _ t (aa_nBalance dbA) (sum_amounts l) 1021 env1) as [[[[ov cf] er] env1']|] eqn:Eb; cbn [mbind option_bind]; [|done].
  assert (ov = bool_decide (aa_nBalance dbA < sum_amounts l) /\ db_current (env_db env1') = m) as [Eov Em].
  { unfold check_balance in Eb. step_checked Eb. destruct (Z.ltb_spec (aa_nBalance dbA - sum_amounts l) 0).
    - injection Eb as <- <- <- <-. split; [by rewrite bool_decide_eq_true_2 by lia|by destruct fJustCheck].
    - rewrite bool_decide_eq_false_2 by lia. by case_if_in Eb; injection Eb as <- <- <- <-. }
  destruct (send_amounts _ _ _ _ _ ov cf _ _ env1') as [[stop|[s' env3]]|] eqn:Es; cbn [mbind option_bind]; try done.
  intros Hr. injection Hr as <- <- <- <-. apply send_amounts_ok in Es as (K3 & T3 & B3 & F3 & P3 & S3); [|by rewrite Em].
  rewrite Em in P3, S3. cbn [aa_nBalance aa_vchAsset aa_vchAliasOrAddress sender_of] in *.
  assert (m !! t = Some dbA) as Ht.
  { unfold m. rewrite E1; [done|]. rewrite list_elem_of_fmap. intros (x & Ex & Hx). rewrite Forall_forall in F3. apply (F3 x Hx). unfold t in Ex. congruence. }
  assert (balance_at m t = aa_nBalance dbA) as Hbt by by apply balance_at_Some.
  set (a := if ov then s' else set_written txHash (u32 nHeight) s').
  assert (m' = <[t := a]> (db_current (env_db env3)) /\ aa_nBalance a = aa_nBalance s') as [Em' Ea].
  { unfold m', write_allocation. cbn. fold a. assert (tuple_of a = t) as -> by (unfold a; destruct ov; exact T3). split; [done|by unfold a; destruct ov]. }
  assert (balance_at (db_current (env_db env3)) t = balance_at m t) as Hb3.
  { rewrite P3. cbn [fst snd t]. rewrite decide_True, (amount_for_none alias) by done. destruct ov; lia. }
  split_and!; [done| |].
  - rewrite Em', total_balance_insert, Ea, S3, Hb3, B3, Hbt. lia.
  - intros u. rewrite Em', balance_at_insert, Ea, B3, Eov, Hbt. destruct (decide (sum_amounts l <= aa_nBalance dbA)).
    + rewrite bool_decide_eq_false_2 in * by lia. destruct (decide (u = t)) as [->|Hut].
      * rewrite Hbt. cbn [fst snd t]. rewrite decide_True, (amount_for_none alias) by done. lia.
      * rewrite P3, Eov. lia.
    + rewrite bool_decide_eq_true_2 in * by lia. destruct (decide (u = t)) as [->|Hut]; [lia|]. rewrite P3, Eov. lia.
Qed.

(** A transfer refused for a payment to the sender has credited the receivers before it. *)
Lemma send_amounts_refused asset overrun conflict amounts s env env' :
  keyed (db_current (env_db env)) ->
  send_amounts txHash fJustCheck nHeight false asset overrun conflict amounts s env = Some (inl (Returns true (Some 1022), env')) ->
  exists paid k rest, amounts = paid ++ (aa_vchAliasOrAddress s, k) :: rest
  /\ total_balance (db_current (env_db env')) = total_balance (db_current (env_db env)) + (if overrun then 0 else sum_amounts paid)
  /\ balance_at (db_current (env_db env')) (tuple_of s) = balance_at (db_current (env_db env)) (tuple_of s).
Proof.
  revert s env. induction amounts as [|[alias amount] l IH]; intros s env K Hs; [done|].
  destruct (decide (alias = aa_vchAliasOrAddress s)) as [->|Ea].
  { cbn [send_amounts] in Hs. rewrite bool_decide_eq_true_2 in Hs by done. injection Hs as <-. exists [], amount, l.
    split_and!; [done|destruct overrun; cbn; lia|done]. }
  assert (exists s1 env1, send_amounts txHash fJustCheck nHeight false asset overrun conflict [(alias, amount)] s env = Some (inr (s1, env1))
    /\ send_amounts txHash fJustCheck nHeight false asset overrun conflict l s1 env1 = Some (inl (Returns true (Some 1022), env'))) as (s1 & env1 & H1 & H2).
  { cbn [send_amounts] in *. rewrite bool_decide_eq_false_2 in * by done.
    match goal with |- context [if overrun then ?x else ?y] => destruct (if overrun then x else y) as [[r1 s1]|]; cbn [mbind option_bind] in *; [|done] end.
    eauto. }
  apply send_amounts_ok in H1 as (K1 & T1 & _ & F1 & P1 & S1); [|done].
  assert (aa_vchAliasOrAddress s1 = aa_vchAliasOrAddress s) as Ealias by (unfold tuple_of in T1; by injection T1).
  apply IH in H2 as (paid & k & rest & -> & S2 & P2); [|done]. exists ((alias, amount) :: paid), k, rest.
  rewrite Ealias in *. split_and!; [done| |].
  - rewrite S2, S1, !sum_amounts_cons. cbn. destruct overrun; lia.
  - rewrite T1 in P2. rewrite P2, P1. cbn [fst snd tuple_of]. rewrite decide_True, (amount_for_none _ _ F1) by done. destruct overrun; lia.
Qed.

End Lemmas.

(** ** The handler: transfers of amounts *)

Definition is_error (codes : list Z) (stop : Stop) : Prop := exists good code, stop = Returns good (Some code) /\ code ∈ codes.

#[local] Hint Extern 1 (is_error _ _) => eexists _, _; split; [reflexivity|apply (bool_decide_unpack _); exact I] : core.

Lemma is_error_weaken codes codes' stop : is_error codes stop -> codes ⊆ codes' -> is_error codes' stop.
Proof. intros (good & code & -> & Hc) Hs. exists good, code. auto. Qed.

Lemma disjoint_codes (code : Z) (codes codes' : list Z) : code ∈ codes -> code ∈ codes' -> bool_decide (Forall (fun c => c ∉ codes') codes) = true -> False.
Proof. intros Hc Hc' Hd%bool_decide_eq_true. rewrite Forall_forall in Hd. by apply (Hd code). Qed.

Lemma sub_codes (codes codes' : list Z) : bool_decide (Forall (fun c => c ∈ codes') codes) = true -> codes ⊆ codes'.
Proof. intros Hd%bool_decide_eq_true. rewrite Forall_forall in Hd. exact Hd. Qed.

Definition transfer_codes : list Z := [1018; 1020; 1022; 1024; 1026; 1028; 1029].
Definition send_codes : list Z := [1015; 1016; 1017] ++ transfer_codes.

Section Stops.
Context `{RangeSort}.
Variables (address_valid owner_in_tx : vch -> bool) (txHash op : Z) (vvchArgs : list vch) (vchAlias : vch).
Variables (fJustCheck : bool) (nHeight : Z) (bSanityCheck : bool).

Lemma total_amounts_stops asset vchAsset amounts nTotal env stop env' :
  total_amounts txHash fJustCheck nHeight bSanityCheck asset vchAsset amounts nTotal env = Some (inl (stop, env')) -> is_error [1020] stop.
Proof.
  revert nTotal env. induction amounts as [|[alias amount] l IH]; intros nTotal env Ht; cbn [total_amounts] in Ht; [done|].
  step_checked Ht. case_if_in Ht; [|by eapply IH]. injection Ht as <- _. auto.
Qed.

Lemma send_amounts_stops asset overrun conflict amounts s env stop env' :
  send_amounts txHash fJustCheck nHeight bSanityCheck asset overrun conflict amounts s env = Some (inl (stop, env')) -> is_error [1022] stop.
Proof.
  revert s env. induction amounts as [|[alias amount] l IH]; intros s env Hs; cbn [send_amounts] in Hs; [done|].
  case_if_in Hs; [injection Hs as <- _; auto|]. destruct bSanityCheck; [by eapply IH|].
  match type of Hs with context [if overrun then ?x else ?y] => destruct (if overrun then x else y) as [[r1 s1]|]; cbn [mbind option_bind] in Hs; [|done] end.
  by eapply IH.
Qed.

Lemma total_ranges_stops asset vchAsset inputs nTotal totals env stop env' :
  total_ranges txHash fJustCheck nHeight bSanityCheck asset vchAsset inputs nTotal totals env = Some (inl (stop, env')) -> is_error [1026] stop.
Proof.
  revert nTotal totals env. induction inputs as [|[alias ranges] l IH]; intros nTotal totals env Ht; cbn [total_ranges] in Ht; [done|].
  case_if_in Ht; [injection Ht as <- _; auto|]. step_checked Ht. by eapply IH.
Qed.

Lemma send_ranges_stops asset overrun conflict sent inputs totals s dbA env stop env' :
  send_ranges txHash fJustCheck nHeight bSanityCheck asset overrun conflict sent inputs totals s dbA env = Some (inl (stop, env')) -> is_error [1028; 1029] stop.
Proof.
  revert sent totals s dbA env. induction inputs as [|[alias ranges] l IH]; intros sent totals s dbA env Hs; cbn [send_ranges] in Hs; [done|].
  destruct totals as [|n totals]; [done|]. case_if_in Hs; [injection Hs as <- _; auto|]. destruct bSanityCheck; [by eapply IH|].
  case_if_in Hs; [injection Hs as <- _; auto|].
  match type of Hs with context [if overrun then ?x else ?y] => destruct (if overrun then x else y) as [[[[r1 s1] d1] l1]|]; cbn [mbind option_bind] in Hs; [|done] end.
  by eapply IH.
Qed.

Lemma check_balance_error t balance nTotal code env ov cf err env' :
  check_balance fJustCheck bSanityCheck t balance nTotal code env = Some (ov, cf, err, env') -> err = if ov && bSanityCheck then Some code else None.
Proof. unfold check_balance. intros Hc. step_checked Hc. repeat case_if_in Hc; injection Hc as <- <- <- <-; by destruct bSanityCheck. Qed.

(** Whatever stops a transfer is an error, and outside of a sanity check a transfer that comes to its end has none. *)
Lemma transfer_stops t asset s dbA env r :
  transfer txHash fJustCheck nHeight bSanityCheck t asset s dbA env = Some r ->
  match r with inl (stop, _) => is_error transfer_codes stop | inr (_, err, _, _) => bSanityCheck = false -> err = None end.
Proof.
  unfold transfer. intros Ht. case_if_in Ht.
  - case_if_in Ht; [injection Ht as <-; auto|].
    destruct (total_amounts _ _ _ _ _ _ _ _ env) as [[[stop e]|[n env1]]|] eqn:Et; cbn [mbind option_bind] in Ht; [| |done].
    { injection Ht as <-. eapply is_error_weaken; [by eapply total_amounts_stops|by apply sub_codes]. }
    destruct (check_balance _ _ _ _ _ _ env1) as [[[[ov cf] err] env2]|] eqn:Ec; cbn [mbind option_bind] in Ht; [|done].
    destruct (send_amounts _ _ _ _ _ _ _ _ _ env2) as [[[stop e]|[s' env3]]|] eqn:Es; cbn [mbind option_bind] in Ht; [| |done]; injection Ht as <-.
    + eapply is_error_weaken; [by eapply send_amounts_stops|by apply sub_codes].
    + intros Hsc. apply check_balance_error in Ec as ->. by rewrite Hsc, andb_false_r.
  - case_if_in Ht; [|by injection Ht as <-].
    case_if_in Ht; [injection Ht as <-; auto|].
    destruct (total_ranges _ _ _ _ _ _ _ _ _ env) as [[[stop e]|[[n l] env1]]|] eqn:Et; cbn [mbind option_bind] in Ht; [| |done].
    { injection Ht as <-. eapply is_error_weaken; [by eapply total_ranges_stops|by apply sub_codes]. }
    destruct (check_balance _ _ _ _ _ _ env1) as [[[[ov cf] err] env2]|] eqn:Ec; cbn [mbind option_bind] in Ht; [|done].
    destruct (send_ranges _ _ _ _ _ _ _ _ _ _ _ _ env2) as [[[stop e]|[s' env3]]|] eqn:Es; cbn [mbind option_bind] in Ht; [| |done]; injection Ht as <-.
    + eapply is_error_weaken; [by eapply send_ranges_stops|by apply sub_codes].
    + intros Hsc. apply check_balance_error in Ec as ->. by rewrite Hsc, andb_false_r.
Qed.

Lemma allocation_send_stops pa alias env r :
  allocation_send address_valid owner_in_tx txHash vchAlias fJustCheck nHeight bSanityCheck pa alias env = Some r ->
  match r with inl (stop, _) => is_error send_codes stop | inr (_, err, _, _) => bSanityCheck = false -> err = None end.
Proof.
  unfold allocation_send. intros Ha. case_if_in Ha; [injection Ha as <-; auto|].
  destruct (GetAssetAllocation _ env) as [d0|]; [|injection Ha as <-; auto].
  match type of Ha with context [if (if ?b then ?c else false) then _ else _] => destruct (if b then c else false) end; [injection Ha as <-; auto|].
  case_if_in Ha; [injection Ha as <-; auto|].
  destruct (db_assets (env_db env) !! _) as [asset|]; [|injection Ha as <-; auto].
  match type of Ha with context [match ?x with Some _ => _ | None => _ end] => destruct x as [dbA|] end; [|injection Ha as <-; auto].
  apply transfer_stops in Ha. destruct r as [[stop e]|[[[ov err] a] e]]; [|done]. eapply is_error_weaken; [done|by apply sub_codes].
Qed.

Lemma check_balance_overrun t balance nTotal code env ov cf err env' :
  check_balance fJustCheck bSanityCheck t balance nTotal code env = Some (ov, cf, err, env') ->
  ov = bool_decide (balance < nTotal) /\ db_current (env_db env') = db_current (env_db env).
Proof.
  unfold check_balance. intros Hc. step_checked Hc. destruct (Z.ltb_spec (balance - nTotal) 0).
  - injection Hc as <- <- <- <-. split; [by rewrite bool_decide_eq_true_2 by lia|by destruct (fJustCheck && negb bSanityCheck)].
  - rewrite bool_decide_eq_false_2 by lia. by case_if_in Hc; injection Hc as <- <- <- <-.
Qed.

(** A payment to the sender is refused in the loop over the receivers only. *)
Lemma transfer_1022 t asset s dbA env env' :
  transfer txHash fJustCheck nHeight bSanityCheck t asset s dbA env = Some (inl (Returns true (Some 1022), env')) ->
  aa_listSendingAllocationAmounts s <> [] /\ exists n env1 ov cf err env2,
    total_amounts txHash fJustCheck nHeight bSanityCheck asset (aa_vchAsset s) (aa_listSendingAllocationAmounts s) 0 env = Some (inr (n, env1))
    /\ check_balance fJustCheck bSanityCheck t (aa_nBalance dbA) n 1021 env1 = Some (ov, cf, err, env2)
    /\ send_amounts txHash fJustCheck nHeight bSanityCheck asset ov cf (aa_listSendingAllocationAmounts s) s env2 = Some (inl (Returns true (Some 1022), env')).
Proof.
  unfold transfer. intros Ht. destruct (bool_decide (aa_listSendingAllocationAmounts s = [])) eqn:Ea; cbn [negb] in Ht.
  - exfalso. case_if_in Ht; [|done]. case_if_in Ht; [done|].
    destruct (total_ranges _ _ _ _ _ _ _ _ _ env) as [[[stop e]|[[n l] env1]]|] eqn:Et; cbn [mbind option_bind] in Ht; [| |done].
    { injection Ht as -> _. apply total_ranges_stops in Et as (? & ? & [= <- <-] & Hin). by destruct (disjoint_codes _ _ [1022] Hin); [apply (bool_decide_unpack _)|]. }
    destruct (check_balance _ _ _ _ _ _ env1) as [[[[ov cf] err] env2]|]; cbn [mbind option_bind] in Ht; [|done].
    destruct (send_ranges _ _ _ _ _ _ _ _ _ _ _ _ env2) as [[[stop e]|[s' env3]]|] eqn:Es; cbn [mbind option_bind] in Ht; [|done|done].
    injection Ht as -> _. apply send_ranges_stops in Es as (? & ? & [= <- <-] & Hin). by destruct (disjoint_codes _ _ [1022] Hin); [apply (bool_decide_unpack _)|].
  - apply bool_decide_eq_false in Ea. split; [done|]. case_if_in Ht; [done|].
    destruct (total_amounts _ _ _ _ _ _ _ _ env) as [[[stop e]|[n env1]]|] eqn:Et; cbn [mbind option_bind] in Ht; [| |done].
    { exfalso. injection Ht as -> _. apply total_amounts_stops in Et as (? & ? & [= <- <-] & Hin). by destruct (disjoint_codes _ _ [1022] Hin); [apply (bool_decide_unpack _)|]. }
    destruct (check_balance _ _ _ _ _ _ env1) as [[[[ov cf] err] env2]|] eqn:Ec; cbn [mbind option_bind] in Ht; [|done].
    destruct (send_amounts _ _ _ _ _ _ _ _ _ env2) as [[[stop e]|[s' env3]]|] eqn:Es; cbn [mbind option_bind] in Ht; [|done|done].
    injection Ht as -> ->. eauto 10.
Qed.

(** A refusal with a code of the transfer comes from the transfer, out of the sender's record. *)
Lemma allocation_send_refused pa alias env asset code env' :
  db_assets (env_db env) !! aa_vchAsset pa = Some asset -> bSanityCheck = false -> code ∈ transfer_codes ->
  allocation_send address_valid owner_in_tx txHash vchAlias fJustCheck nHeight bSanityCheck pa alias env = Some (inl (Returns true (Some code), env')) ->
  exists dbA, let env1 := revert txHash fJustCheck nHeight bSanityCheck (aa_vchAsset pa, alias) asset env in
  GetAssetAllocation (aa_vchAsset pa, alias) env1 = Some dbA
  /\ transfer txHash fJustCheck nHeight bSanityCheck (aa_vchAsset pa, alias) asset (sender_of pa dbA alias) dbA env1
     = Some (inl (Returns true (Some code), env')).
Proof.
  intros Has Hsc Hin Ha. assert (code <> 1015 /\ code <> 1016 /\ code <> 1017) as (N1 & N2 & N3) by (split_and!; intros ->; by apply (disjoint_codes _ _ [1015; 1016; 1017] Hin); [apply (bool_decide_unpack _)|]).
  unfold allocation_send in Ha. case_if_in Ha; [congruence|].
  destruct (GetAssetAllocation _ env) as [d0|] eqn:E0; [|congruence].
  match type of Ha with context [if (if ?b then ?c else false) then _ else _] => destruct (if b then c else false) end; [congruence|].
  case_if_in Ha; [congruence|]. rewrite Has in Ha.
  match type of Ha with context [match ?x with Some _ => _ | None => _ end] => destruct x as [dbA|] eqn:Ed end; [|congruence].
  exists dbA. split; [|done]. revert Ed. unfold revert. destruct (bRevert fJustCheck bSanityCheck); congruence.
Qed.

Lemma just_check_stops pa h stop : just_check op vvchArgs pa h = Some stop -> is_error [1002; 1003; 1004; 1005; 1006; 1007; 1008; 1009] stop.
Proof.
  unfold just_check. intros Hj. destruct vvchArgs as [|a [|b l]]; try (injection Hj as <-; auto).
  repeat (case_if_in Hj); try done; injection Hj as <-; auto.
Qed.

End Stops.

(** ** Theorems *)

Definition alias_of (vchAlias : vch) (pa : CAssetAllocation) : vch := if bool_decide (vchAlias = []) then aa_vchAliasOrAddress pa else vchAlias.

(** A handled send: what [allocation_send] returned. *)
Lemma handler_send `{RangeSort} ci sup ut av ow txHash pa h args vchAlias fJustCheck nHeight bSanityCheck now env err env' :
  CheckAssetAllocationInputs ci sup ut av ow false txHash (Some (pa, h)) OP_ASSET_ALLOCATION_SEND args vchAlias fJustCheck nHeight bSanityCheck now env
    = Some (Returns true err, env') ->
  match err with Some code => code ∈ send_codes | None => True end ->
  exists r, allocation_send av ow txHash vchAlias fJustCheck nHeight bSanityCheck pa (alias_of vchAlias pa) env = Some r
  /\ match r with
     | inl (stop, e) => stop = Returns true err /\ e = env'
     | inr (overrun, err', a, e) => err' = err /\ env' = write_allocation txHash OP_ASSET_ALLOCATION_SEND fJustCheck nHeight bSanityCheck now overrun a e
     end.
Proof.
  unfold CheckAssetAllocationInputs. cbn [andb]. fold (alias_of vchAlias pa). intros Hc Herr.
  destruct (if fJustCheck then _ else None) as [stop|] eqn:Ej.
  { exfalso. destruct fJustCheck; [|done]. injection Hc as -> _. apply just_check_stops in Ej as (good & code & [= <- ->] & Hin).
    by destruct (disjoint_codes _ _ _ Hin Herr). }
  change (OP_ASSET_ALLOCATION_SEND =? OP_ASSET_COLLECT_INTEREST) with false in Hc. cbn iota in Hc.
  rewrite Z.eqb_refl in Hc. destruct (allocation_send _ _ _ _ _ _ _ pa _ env) as [r|]; cbn [mbind option_bind] in Hc; [|done].
  exists r. split; [done|]. destruct r as [[stop e]|[[[ov err'] a] e]]; injection Hc as H1 H2; subst; done.
Qed.

(** C19: a send of amounts that the handler completes without an error moves balances and makes none.  All amounts
    are positive; the sum of the balances of all holders of all assets is what it was once the sender and the receivers
    are reverted to their confirmed records (which happens in a block only); and each balance is as a ledger has it:
    if the sender's balance covers the sum, he pays the sum and each receiver gets what the list holds for
    him, counting repeated entries; else no balance changes. *)
Theorem amounts_conserved `{RangeSort} ci sup ut av ow txHash pa h args vchAlias fJustCheck nHeight now env asset env' :
  let t := (aa_vchAsset pa, alias_of vchAlias pa) in let l := aa_listSendingAllocationAmounts pa in
  let m := db_current (env_db (revert_all txHash fJustCheck nHeight asset (t :: map (fun x => (aa_vchAsset pa, x.1)) l) env)) in
  let m' := db_current (env_db env') in
  keyed (db_current (env_db env)) -> keyed (db_confirmed (env_db env)) -> db_assets (env_db env) !! aa_vchAsset pa = Some asset -> l <> [] ->
  CheckAssetAllocationInputs ci sup ut av ow false txHash (Some (pa, h)) OP_ASSET_ALLOCATION_SEND args vchAlias fJustCheck nHeight false now env
    = Some (Returns true None, env') ->
  Forall (fun x => 0 < x.2) l /\ total_balance m' = total_balance m
  /\ forall u, balance_at m' u = balance_at m u
       + (if decide (sum_amounts l <= balance_at m t)
          then (if decide (u = t) then - sum_amounts l else 0) + (if decide (u.1 = aa_vchAsset pa) then amount_for u.2 l else 0) else 0).
Proof.
  intros t l m m' K C Has Hne Hc. apply handler_send in Hc as (r & Ha & Hr); [|done].
  destruct r as [[stop e]|[[[ov err'] a] e]].
  { apply allocation_send_stops in Ha as (? & ? & -> & _). by destruct Hr. }
  destruct Hr as [-> Hw]. destruct (allocation_send_ok _ _ _ _ _ _ _ _ _ _ _ Has Ha) as (dbA & Hdb & Ht). cbn zeta in *.
  destruct (revert_keyed txHash fJustCheck nHeight t asset env K C) as (K1 & C1 & _).
  pose proof (transfer_amounts_ok _ _ _ now pa (alias_of vchAlias pa) dbA asset _ ov None a e K1 C1 Hdb Hne Ht) as Hok.
  unfold m'. rewrite Hw. exact Hok.
Qed.

(** A payment to the sender himself is found only on the way.  When the handler returns error 1022, it returns
    [true], the list of amounts is [paid ++ (alias, k) :: rest] for the sender's [alias], and the receivers before that entry keep what
    they were credited, if the sender's balance covers the sum of the list, while the sender has paid nothing: the sum of all balances
    has grown by the sum of [paid].  In a block the caller goes on as after a success. *)
Theorem self_payment_mints `{RangeSort} ci sup ut av ow txHash pa h args vchAlias fJustCheck nHeight now env asset env' :
  let t := (aa_vchAsset pa, alias_of vchAlias pa) in let l := aa_listSendingAllocationAmounts pa in
  let m := db_current (env_db (revert_all txHash fJustCheck nHeight asset (t :: map (fun x => (aa_vchAsset pa, x.1)) l) env)) in
  let m' := db_current (env_db env') in
  keyed (db_current (env_db env)) -> keyed (db_confirmed (env_db env)) -> db_assets (env_db env) !! aa_vchAsset pa = Some asset ->
  CheckAssetAllocationInputs ci sup ut av ow false txHash (Some (pa, h)) OP_ASSET_ALLOCATION_SEND args vchAlias fJustCheck nHeight false now env
    = Some (Returns true (Some 1022), env') ->
  exists dbA paid k rest, GetAssetAllocation t (revert txHash fJustCheck nHeight false t asset env) = Some dbA
  /\ l = paid ++ (alias_of vchAlias pa, k) :: rest /\ Forall (fun x => 0 < x.2) l
  /\ total_balance m' = total_balance m + (if decide (sum_amounts l <= aa_nBalance dbA) then sum_amounts paid else 0)
  /\ balance_at m' t = balance_at m t.
Proof.
  intros t l m m' K C Has Hc. apply handler_send in Hc as (r & Ha & Hr); [|apply (bool_decide_unpack _); exact I].
  destruct r as [[stop e]|[[[ov err'] a] e]].
  2:{ apply allocation_send_stops in Ha. destruct Hr as [-> _]. by specialize (Ha eq_refl). }
  destruct Hr as [-> ->]. destruct (revert_keyed txHash fJustCheck nHeight t asset env K C) as (K1 & C1 & _).
  apply allocation_send_refused with (asset := asset) in Ha as (dbA & Hdb & Ht); [|done|done|apply (bool_decide_unpack _); exact I].
  apply transfer_1022 in Ht as (Hne & n & env1 & ov & cf & err & env2 & Et & Ec & Es).
  cbn [aa_vchAsset aa_listSendingAllocationAmounts sender_of] in Hne, Et, Ec, Es. fold l in Hne, Et, Es. cbn zeta in Hdb. fold t in Hdb, Et, Ec, Es.
  apply total_amounts_ok in Et as (-> & Hpos & ->).
  apply check_balance_overrun in Ec as [-> Em].
  destruct (revert_all_keyed txHash fJustCheck nHeight asset (map (fun x => (aa_vchAsset pa, x.1)) l) _ K1 C1) as [K2 _].
  apply send_amounts_refused in Es as (paid & k & rest & E & S & P); [|by rewrite Em].
  rewrite Em in S, P. exists dbA, paid, k, rest. split_and!; [done|done|done| |exact P].
  unfold m'. rewrite S. rewrite Z.add_0_l. change (db_current _) with m. destruct (decide _).
  - by rewrite bool_decide_eq_false_2 by lia.
  - by rewrite bool_decide_eq_true_2 by lia.
Qed.

(** ** The handler: transfers of ranges *)

(** A record whose ranges are in order and do not overlap, and whose balance counts their numbers. *)
Definition good_record (a : CAssetAllocation) : Prop :=
  Forall small_range (aa_listAllocationInputs a) /\ disjoint (aa_listAllocationInputs a) /\ aa_nBalance a = size_of (aa_listAllocationInputs a).

Lemma small_covers l l' : Forall small_range l -> Forall wf_range l' -> (forall x, covers l' x -> covers l x) -> Forall small_range l'.
Proof.
  intros Hl Hl' Hc. apply Forall_forall. intros r Hr. rewrite Forall_forall in Hl'. pose proof (Hl' r Hr) as Hw. split; [done|].
  destruct (Hc (r_end r)) as (r' & Hr' & Hin). { exists r. split; [done|]. unfold in_range, wf_range in *. lia. }
  rewrite Forall_forall in Hl. destruct (Hl r' Hr') as [_ Hs]. unfold in_range in Hin. lia.
Qed.

Lemma small_wf l : Forall small_range l -> Forall wf_range l.
Proof. intros Hl. eapply Forall_impl; [exact Hl|]. by intros r [? _]. Qed.

Lemma size_of_nonneg l : Forall wf_range l -> 0 <= size_of l.
Proof. induction 1 as [|r l Hr Hl IH]; [done|]. change (size_of (r :: l)) with (range_size r + size_of l). unfold wf_range, range_size in *. lia. Qed.

Lemma disjoint_size l lo : disjoint l -> Forall wf_range l -> Forall (fun r => lo <= r_start r /\ r_end r < 2 ^ 32 - 1) l -> lo < 2 ^ 32 ->
  size_of l <= 2 ^ 32 - 1 - lo.
Proof.
  revert lo. induction l as [|r l IH]; intros lo Hd Hw Hb Hlo; [cbn; lia|]. apply StronglySorted_inv in Hd as [Hd Hall].
  apply Forall_cons in Hw as [Hr Hw]. apply Forall_cons in Hb as [[Hr1 Hr2] Hb]. change (size_of (r :: l)) with (range_size r + size_of l).
  assert (size_of l <= 2 ^ 32 - 1 - (r_end r + 1)); [|unfold range_size; lia]. apply IH; [done|done| |lia].
  rewrite Forall_forall in *. intros r' Hr'. specialize (Hall r' Hr'). specialize (Hb r' Hr'). lia.
Qed.

Lemma size_of_sub l l1 :
  apart l -> apart l1 -> Forall wf_range l -> Forall wf_range l1 -> (forall x, covers l1 x -> covers l x) -> size_of l1 <= size_of l.
Proof.
  intros Ha Ha1 Hw Hw1 Hs. rewrite <- !numbers_length by done. apply inj_le, submseteq_length.
  apply NoDup_submseteq; [by apply numbers_NoDup|]. intros x. rewrite !elem_of_numbers. apply Hs.
Qed.

Lemma transfer_ranges_ok `{RangeSort} txHash nHeight asset n ranges receiver s dbA r' s' d' l' :
  good_record receiver -> good_record dbA -> aa_nBalance s = aa_nBalance dbA ->
  (forall x, covers (aa_listAllocationInputs receiver) x -> ~ covers (aa_listAllocationInputs dbA) x) ->
  ranges <> [] -> Forall wf_range ranges -> disjoint ranges -> n = size_of ranges ->
  (forall x, covers ranges x -> covers (aa_listAllocationInputs dbA) x) ->
  transfer_ranges txHash nHeight asset n ranges receiver s dbA = Some (r', s', d', l') ->
  good_record r' /\ good_record s' /\ tuple_of r' = tuple_of receiver /\ tuple_of s' = tuple_of s
  /\ (forall x, covers (aa_listAllocationInputs r') x <-> covers (aa_listAllocationInputs receiver) x \/ covers ranges x)
  /\ (forall x, covers (aa_listAllocationInputs s') x <-> covers (aa_listAllocationInputs dbA) x /\ ~ covers ranges x).
Proof.
  intros (R1 & R2 & R3) (D1 & D2 & D3) Eb Hfree Hne Hw Hd -> Hsub Ht. unfold transfer_ranges in Ht. cbn [aa_listAllocationInputs aa_nBalance] in Ht.
  pose proof (small_covers _ _ D1 Hw Hsub) as Hsm.
  destruct (mergeRanges_ok (aa_listAllocationInputs receiver ++ ranges)) as (m & out & Em & _ & G & S & C); [by apply Forall_app|].
  cbn [set_ranges set_memo set_written set_rate set_interest aa_listAllocationInputs aa_nBalance] in Ht. rewrite Em in Ht. cbn [snd] in Ht. step_checked Ht.
  destruct (subtractRanges_ok (aa_listAllocationInputs dbA) ranges) as (arr' & del' & out2 & E2 & Ho & Hwo & C2);
    [by apply disjoint_apart|by apply small_wf|done|done|].
  rewrite E2 in Ht. cbn [mbind option_bind] in Ht. step_checked Ht. injection Ht as <- <- <- <-. cbn [aa_listAllocationInputs aa_nBalance set_balance set_ranges] in *.
  assert (size_of out = size_of (aa_listAllocationInputs receiver) + size_of ranges) as Es1.
  { apply size_of_split; try (by apply disjoint_apart); try (by apply small_wf); [by apply disjoint_apart, gapped_disjoint| |].
    - intros x. by rewrite C, covers_app.
    - intros x Hx Hr. by apply (Hfree x Hx), Hsub. }
  assert (size_of (aa_listAllocationInputs dbA) = size_of out2 + size_of ranges) as Es2.
  { apply size_of_split; try (by apply disjoint_apart); try (by apply small_wf); try done.
    - intros x. rewrite C2. split; [|intros [[? _]|?]; auto]. intros Hx.
      destruct (decide (x ∈ numbers ranges)) as [Hin|Hn]; [right|left]; rewrite elem_of_numbers in *; done.
    - by intros x [_ Hn]%C2. }
  split_and!; try done.
  - unfold good_record; cbn [aa_listAllocationInputs aa_nBalance set_balance set_ranges set_memo set_written set_rate set_interest]; split_and!; [done|by apply gapped_disjoint|lia].
  - unfold good_record; cbn [aa_listAllocationInputs aa_nBalance set_balance set_ranges set_memo set_written set_rate set_interest]; split_and!; [|done|lia]. apply (small_covers _ _ D1 Hwo). by intros x [Hx _]%C2.
  - intros x. by rewrite C, covers_app.
Qed.

Lemma good_size a : good_record a -> aa_nBalance a <= 2 ^ 32 - 1.
Proof.
  intros (S & D & ->). assert (size_of (aa_listAllocationInputs a) <= 2 ^ 32 - 1 - 0); [|lia].
  apply disjoint_size; [done|by apply small_wf| |lia]. eapply Forall_impl; [exact S|]. unfold small_range, wf_range. lia.
Qed.

Lemma good_set_written txHash height l a : good_record (set_written txHash height (set_sending_ranges l a)) <-> good_record a.
Proof. done. Qed.

(** What the record of a transfer of ranges to one receiver is worth once its checks passed. *)
Lemma one_range_checked dbA ranges :
  good_record dbA -> Forall (fun r => 0 <= r_start r < 2 ^ 32 /\ 0 <= r_end r < 2 ^ 32) ranges -> Forall (fun r => r_start r <> 0) (tail ranges) ->
  validateRangesAndGetCount ranges <> 0 -> doesRangeContain (aa_listAllocationInputs dbA) ranges = true ->
  ranges <> [] /\ Forall wf_range ranges /\ disjoint ranges /\ validateRangesAndGetCount ranges = size_of ranges
  /\ size_of ranges <= aa_nBalance dbA /\ forall x, covers ranges x -> covers (aa_listAllocationInputs dbA) x.
Proof.
  intros Hg Hu Hz Hv Hc. pose proof (good_size dbA Hg) as Hsz. destruct Hg as (S & D & B).
  destruct (validate_ranges_correct ranges Hu Hz) as [Ev _]. rewrite Ev in *. case_bool_decide as Hwd; [|done]. destruct Hwd as [Hw Hd].
  apply doesRangeContain_true in Hc as (_ & Hne & Hin).
  assert (forall x, covers ranges x -> covers (aa_listAllocationInputs dbA) x) as Hsub.
  { intros x (c & Hcin & Hx). destruct (Hin c Hcin) as (p & Hp & Hb). exists p. split; [done|]. unfold child_in, in_range in *. rewrite !Z.geb_leb in Hb. zbool. lia. }
  assert (size_of ranges <= size_of (aa_listAllocationInputs dbA)) as Hle.
  { apply size_of_sub; try (by apply disjoint_apart); try done. by apply small_wf. }
  pose proof (size_of_nonneg ranges Hw). split_and!; try done; [|lia]. apply Z.mod_small. lia.
Qed.

Lemma transfer_one_range `{RangeSort} txHash fJustCheck nHeight asset pa alias dbA to ranges env overrun err s env2 :
  let t := (aa_vchAsset pa, alias) in let u := (aa_vchAsset pa, to) in
  let m := db_current (env_db (revert txHash fJustCheck nHeight false u asset env)) in
  let receiver := default (new_allocation u nHeight (as_fInterestRate asset)) (m !! u) in
  keyed m -> aa_listSendingAllocationAmounts pa = [] -> aa_listSendingAllocationInputs pa = [(to, ranges)] ->
  good_record dbA -> good_record receiver -> (forall x, covers (aa_listAllocationInputs receiver) x -> ~ covers (aa_listAllocationInputs dbA) x) ->
  Forall (fun r => 0 <= r_start r < 2 ^ 32 /\ 0 <= r_end r < 2 ^ 32) ranges -> Forall (fun r => r_start r <> 0) (tail ranges) ->
  transfer txHash fJustCheck nHeight false t asset (sender_of pa dbA alias) dbA env = Some (inr (overrun, err, s, env2)) ->
  to <> alias /\ overrun = false /\ tuple_of s = t /\ (forall x, covers ranges x -> covers (aa_listAllocationInputs dbA) x)
  /\ exists r, db_current (env_db env2) = <[u := r]> m /\ good_record r /\ good_record s
  /\ (forall x, covers (aa_listAllocationInputs r) x <-> covers (aa_listAllocationInputs receiver) x \/ covers ranges x)
  /\ (forall x, covers (aa_listAllocationInputs s) x <-> covers (aa_listAllocationInputs dbA) x /\ ~ covers ranges x).
Proof.
  intros t u m receiver K Ea Ei Hg Hgr Hfree Hu Hz. unfold transfer.
  cbn [aa_listSendingAllocationAmounts aa_listSendingAllocationInputs aa_vchAsset sender_of]. rewrite Ea, Ei.
  rewrite bool_decide_eq_true_2 by done. rewrite bool_decide_eq_false_2 by done. cbn [negb].
  destruct (negb (as_bUseInputRanges asset)); [done|]. cbn [total_ranges]. fold u. set (env1 := revert _ _ _ _ u asset env) in *.
  destruct (Z.eqb_spec (validateRangesAndGetCount ranges) 0) as [|Hv]; [done|].
  destruct (checked (0 + validateRangesAndGetCount ranges)) as [n|] eqn:En; cbn [mbind option_bind app]; [|done]. apply checked_Some in En as [-> _].
  rewrite Z.add_0_l. destruct (check_balance _ _ t _ _ _ env1) as [[[[ov cf] er] env1']|] eqn:Eb; cbn [mbind option_bind]; [|done].
  apply check_balance_overrun in Eb as [Eov Em]. cbn [send_ranges aa_vchAliasOrAddress aa_vchAsset sender_of]. fold u.
  destruct (bool_decide (to = alias)) eqn:Eto; [done|]. apply bool_decide_eq_false in Eto.
  destruct (doesRangeContain (aa_listAllocationInputs dbA) ranges) eqn:Ec; cbn [negb]; [|done].
  destruct (one_range_checked dbA ranges Hg Hu Hz Hv Ec) as (Hne & Hw & Hd & Ev & Hle & Hsub). rewrite Ev in *.
  rewrite bool_decide_eq_false_2 in Eov by lia. subst ov.
  set (env1'' := if fJustCheck && (cf || false) then add_conflict u env1' else env1').
  assert (db_current (env_db env1'') = m) as Em' by (unfold env1''; by rewrite conflict_current).
  assert (receiver_of nHeight u asset env1'' = receiver) as -> by (unfold receiver_of, GetAssetAllocation; by rewrite Em').
  destruct (transfer_ranges _ _ asset _ ranges receiver _ dbA) as [[[[r' s'] d'] l']|] eqn:Et; cbn [mbind option_bind]; [|done].
  apply transfer_ranges_ok in Et as (G1 & G2 & T1 & T2 & C1 & C2); try done. intros Hr. injection Hr as <- <- <- <-.
  assert (tuple_of receiver = u) as Tu.
  { unfold receiver. destruct (m !! u) as [b|] eqn:Eu; cbn; [by apply K|done]. }
  split_and!; [done|done|exact T2|done|]. exists r'. split_and!; [|done|done|done|done].
  rewrite write_current, Em', T1, Tu. done.
Qed.

Lemma self_send_refused `{RangeSort} txHash fJustCheck nHeight asset pa alias dbA ranges env t r :
  aa_listSendingAllocationAmounts pa = [] -> aa_listSendingAllocationInputs pa = [(alias, ranges)] ->
  transfer txHash fJustCheck nHeight false t asset (sender_of pa dbA alias) dbA env = Some (inr r) -> False.
Proof.
  intros Ea Ei. unfold transfer. cbn [aa_listSendingAllocationAmounts aa_listSendingAllocationInputs aa_vchAsset sender_of]. rewrite Ea, Ei.
  rewrite bool_decide_eq_true_2 by done. rewrite bool_decide_eq_false_2 by done. cbn [negb total_ranges].
  destruct (negb _); [done|]. destruct (_ =? 0); [done|]. destruct (checked _); cbn [mbind option_bind app]; [|done].
  destruct (check_balance _ _ _ _ _ _ _) as [[[[ov cf] er] e]|]; cbn [mbind option_bind]; [|done].
  cbn [send_ranges aa_vchAliasOrAddress sender_of]. by rewrite bool_decide_eq_true_2 by done.
Qed.

(** A send of ranges to one receiver, completed without an error, moves exactly these ranges.  Let the sender's and
    the receiver's records, as they are once reverted, be good (ranges in order, without overlap, the balance counts their
    numbers) and share no number, and let no range of the list but the first start at 0.  Then the ranges sent are
    the sender's, he is not the receiver, the two records are the only ones to change, and afterwards they
    are good again, with the numbers sent in the receiver's and not in the sender's. *)
Theorem ranges_moved `{RangeSort} ci sup ut av ow txHash pa h args vchAlias fJustCheck nHeight now env asset to ranges dbA env' :
  let t := (aa_vchAsset pa, alias_of vchAlias pa) in let u := (aa_vchAsset pa, to) in
  let m := db_current (env_db (revert_all txHash fJustCheck nHeight asset [t; u] env)) in
  let receiver := default (new_allocation u nHeight (as_fInterestRate asset)) (m !! u) in
  keyed (db_current (env_db env)) -> keyed (db_confirmed (env_db env)) -> db_assets (env_db env) !! aa_vchAsset pa = Some asset ->
  aa_listSendingAllocationAmounts pa = [] -> aa_listSendingAllocationInputs pa = [(to, ranges)] ->
  m !! t = Some dbA -> good_record dbA -> good_record receiver ->
  (forall x, covers (aa_listAllocationInputs receiver) x -> ~ covers (aa_listAllocationInputs dbA) x) ->
  Forall (fun r => 0 <= r_start r < 2 ^ 32 /\ 0 <= r_end r < 2 ^ 32) ranges -> Forall (fun r => r_start r <> 0) (tail ranges) ->
  CheckAssetAllocationInputs ci sup ut av ow false txHash (Some (pa, h)) OP_ASSET_ALLOCATION_SEND args vchAlias fJustCheck nHeight false now env
    = Some (Returns true None, env') ->
  t <> u /\ (forall x, covers ranges x -> covers (aa_listAllocationInputs dbA) x)
  /\ exists s r, db_current (env_db env') = <[t := s]> (<[u := r]> m) /\ good_record s /\ good_record r
  /\ (forall x, covers (aa_listAllocationInputs s) x <-> covers (aa_listAllocationInputs dbA) x /\ ~ covers ranges x)
  /\ (forall x, covers (aa_listAllocationInputs r) x <-> covers (aa_listAllocationInputs receiver) x \/ covers ranges x).
Proof.
  intros t u m receiver K C Has Ea Ei Hdb Hg Hgr Hfree Hu Hz Hc. apply handler_send in Hc as (r & Ha & Hr); [|done].
  destruct r as [[stop e]|[[[ov err'] a] e]].
  { apply allocation_send_stops in Ha as (? & ? & -> & _). by destruct Hr. }
  destruct Hr as [-> ->]. destruct (allocation_send_ok _ _ _ _ _ _ _ _ _ _ _ Has Ha) as (dbA' & Hdb' & Ht). cbn zeta in *. fold t in Hdb', Ht.
  destruct (revert_keyed txHash fJustCheck nHeight t asset env K C) as (K1 & C1 & _).
  destruct (revert_keyed txHash fJustCheck nHeight u asset _ K1 C1) as (K2 & C2 & E2).
  change (keyed m) in K2.
  destruct (decide (t = u)) as [Etu|Hne].
  { exfalso. assert (to = alias_of vchAlias pa) as -> by (unfold t, u in Etu; congruence).
    by apply (self_send_refused _ _ _ _ _ _ _ _ _ _ _ Ea Ei Ht). }
  assert (dbA' = dbA) as ->. { unfold GetAssetAllocation in Hdb'. rewrite <- (E2 t Hne) in Hdb'. change (m !! t = Some dbA') in Hdb'. congruence. }
  destruct (transfer_one_range txHash fJustCheck nHeight asset pa _ dbA to ranges _ _ _ _ _ K2 Ea Ei Hg Hgr Hfree Hu Hz Ht)
    as (_ & -> & Ts & Hsub & r & Em & G1 & G2 & H1 & H2).
  split_and!; [done|done|]. exists (set_written txHash (u32 nHeight) a), r. split_and!; [|done|done|done|done].
  change (write_allocation _ _ _ _ _ _ _ _ _) with (with_db (WriteAssetAllocation (set_written txHash (u32 nHeight) a) (if fJustCheck then now else INT64_MAX) fJustCheck (env_db e)) e).
  rewrite write_current, Em. by change (tuple_of (set_written txHash (u32 nHeight) a)) with (tuple_of a); rewrite Ts.
Qed.

(** ** What the handler writes in each mode *)

Lemma if_inv {A} (b : bool) (x y r : A) : (if b then x else y) = r -> (b = true /\ x = r) \/ (b = false /\ y = r).
Proof. destruct b; auto. Qed.

(** A predicate on the databases that the writes of the handler keep is kept by the handler: reverting a record of the
    payload's asset, noting a conflict when the transaction is not in a block, and writing a record or an asset, all
    of it outside of a sanity check only. *)
Section Writes.
Context `{RangeSort}.
Variables (compound_interest : CAssetAllocation -> Z -> Z) (supply_in_units : CAsset -> Z) (fUnitTest : bool) (address_valid owner_in_tx : vch -> bool).
Variables (isCoinBase : bool) (txHash op : Z) (pa : CAssetAllocation) (vchHash : vch) (vvchArgs : list vch) (vchAlias : vch).
Variables (fJustCheck : bool) (nHeight : Z) (bSanityCheck : bool) (now : Z).
Variable P : Env -> Prop.
Hypothesis P_revert : forall alias asset env, P env -> P (revert txHash fJustCheck nHeight bSanityCheck (aa_vchAsset pa, alias) asset env).
Hypothesis P_conflict : bSanityCheck = false -> fJustCheck = true -> forall t env, P env -> P (add_conflict t env).
Hypothesis P_write : bSanityCheck = false -> forall a ms env, P env -> P (with_db (WriteAssetAllocation a ms fJustCheck (env_db env)) env).
Hypothesis P_asset : bSanityCheck = false -> fJustCheck = false -> forall asset env, P env -> P (with_db (WriteAsset asset (env_db env)) env).

Lemma total_amounts_writes asset amounts nTotal env r :
  P env -> total_amounts txHash fJustCheck nHeight bSanityCheck asset (aa_vchAsset pa) amounts nTotal env = Some r ->
  P (match r with inl (_, e) | inr (_, e) => e end).
Proof.
  revert nTotal env. induction amounts as [|[alias amount] l IH]; intros nTotal env HP Ht; cbn [total_amounts] in Ht; [by injection Ht as <-|].
  step_checked Ht. case_if_in Ht; [injection Ht as <-; by apply P_revert|]. eapply IH; [|done]. by apply P_revert.
Qed.

Lemma total_ranges_writes asset inputs nTotal totals env r :
  P env -> total_ranges txHash fJustCheck nHeight bSanityCheck asset (aa_vchAsset pa) inputs nTotal totals env = Some r ->
  P (match r with inl (_, e) | inr (_, _, e) => e end).
Proof.
  revert nTotal totals env. induction inputs as [|[alias ranges] l IH]; intros nTotal totals env HP Ht; cbn [total_ranges] in Ht; [by injection Ht as <-|].
  case_if_in Ht; [injection Ht as <-; by apply P_revert|]. step_checked Ht. eapply IH; [|done]. by apply P_revert.
Qed.

Lemma check_balance_writes t balance nTotal code env ov cf err env' :
  P env -> check_balance fJustCheck bSanityCheck t balance nTotal code env = Some (ov, cf, err, env') -> P env'.
Proof.
  unfold check_balance. intros HP Hc. step_checked Hc. case_if_in Hc; [|by case_if_in Hc; injection Hc as <- <- <- <-].
  injection Hc as H1 H2 H3 H4. apply if_inv in H4 as [[[Hj Hsc%negb_true_iff]%andb_true_iff <-]|[_ <-]]; auto.
Qed.

Lemma send_conflict_writes (b : bool) t env : bSanityCheck = false -> P env -> P (if fJustCheck && b then add_conflict t env else env).
Proof.
  intros Hsc HP. destruct (if_inv (fJustCheck && b) (add_conflict t env) env _ eq_refl) as [[[Hj _]%andb_true_iff <-]|[_ <-]]; auto.
Qed.

Lemma send_amounts_writes asset overrun conflict amounts s env r :
  P env -> send_amounts txHash fJustCheck nHeight bSanityCheck asset overrun conflict amounts s env = Some r ->
  P (match r with inl (_, e) | inr (_, e) => e end).
Proof.
  revert s env. induction amounts as [|[alias amount] l IH]; intros s env HP Hs; cbn [send_amounts] in Hs; [by injection Hs as <-|].
  case_if_in Hs; [by injection Hs as <-|]. apply if_inv in Hs as [[Hsc Hs]|[Hsc Hs]]; [by eapply IH|].
  match type of Hs with context [if overrun then ?x else ?y] => destruct (if overrun then x else y) as [[r1 s1]|]; cbn [mbind option_bind] in Hs; [|done] end.
  eapply IH; [|done]. apply P_write; [done|]. by apply send_conflict_writes.
Qed.

Lemma send_ranges_writes asset overrun conflict sent inputs totals s dbA env r :
  P env -> send_ranges txHash fJustCheck nHeight bSanityCheck asset overrun conflict sent inputs totals s dbA env = Some r ->
  P (match r with inl (_, e) | inr (_, e) => e end).
Proof.
  revert sent totals s dbA env. induction inputs as [|[alias ranges] l IH]; intros sent totals s dbA env HP Hs; cbn [send_ranges] in Hs; [by injection Hs as <-|].
  destruct totals as [|n totals]; [by injection Hs as <-|]. case_if_in Hs; [by injection Hs as <-|]. apply if_inv in Hs as [[Hsc Hs]|[Hsc Hs]]; [by eapply IH|].
  pose proof (send_conflict_writes (conflict || overrun) (aa_vchAsset s, alias) env Hsc HP) as HP1.
  case_if_in Hs; [by injection Hs as <-|].
  match type of Hs with context [if overrun then ?x else ?y] => destruct (if overrun then x else y) as [[[[r1 s1] d1] l1]|]; cbn [mbind option_bind] in Hs; [|done] end.
  eapply IH; [|done]. by apply P_write.
Qed.

Lemma transfer_writes t asset alias dbA env r :
  P env -> transfer txHash fJustCheck nHeight bSanityCheck t asset (sender_of pa dbA alias) dbA env = Some r ->
  P (match r with inl (_, e) | inr (_, _, _, e) => e end).
Proof.
  intros HP. unfold transfer. cbn [aa_vchAsset sender_of]. intros Ht. case_if_in Ht.
  - case_if_in Ht; [by injection Ht as <-|].
    destruct (total_amounts _ _ _ _ _ _ _ _ env) as [r1|] eqn:Et; cbn [mbind option_bind] in Ht; [|done].
    apply total_amounts_writes in Et; [|done]. destruct r1 as [[stop e]|[n env1]]; [by injection Ht as <-|].
    destruct (check_balance _ _ _ _ _ _ env1) as [[[[ov cf] err] env2]|] eqn:Ec; cbn [mbind option_bind] in Ht; [|done].
    apply check_balance_writes in Ec; [|done].
    destruct (send_amounts _ _ _ _ _ _ _ _ _ env2) as [r2|] eqn:Es; cbn [mbind option_bind] in Ht; [|done].
    apply send_amounts_writes in Es; [|done]. by destruct r2 as [[stop e]|[s' env3]]; injection Ht as <-.
  - case_if_in Ht; [|by injection Ht as <-]. case_if_in Ht; [by injection Ht as <-|].
    destruct (total_ranges _ _ _ _ _ _ _ _ _ env) as [r1|] eqn:Et; cbn [mbind option_bind] in Ht; [|done].
    apply total_ranges_writes in Et; [|done]. destruct r1 as [[stop e]|[[n l] env1]]; [by injection Ht as <-|].
    destruct (check_balance _ _ _ _ _ _ env1) as [[[[ov cf] err] env2]|] eqn:Ec; cbn [mbind option_bind] in Ht; [|done].
    apply check_balance_writes in Ec; [|done].
    destruct (send_ranges _ _ _ _ _ _ _ _ _ _ _ _ env2) as [r2|] eqn:Es; cbn [mbind option_bind] in Ht; [|done].
    apply send_ranges_writes in Es; [|done]. by destruct r2 as [[stop e]|[s' env3]]; injection Ht as <-.
Qed.

Lemma allocation_send_writes alias env r :
  P env -> allocation_send address_valid owner_in_tx txHash vchAlias fJustCheck nHeight bSanityCheck pa alias env = Some r ->
  P (match r with inl (_, e) | inr (_, _, _, e) => e end).
Proof.
  unfold allocation_send. intros HP Ha. case_if_in Ha; [by injection Ha as <-|].
  destruct (GetAssetAllocation _ env) as [d0|]; [|by injection Ha as <-].
  match type of Ha with context [if (if ?b then ?c else false) then _ else _] => destruct (if b then c else false) end; [by injection Ha as <-|].
  case_if_in Ha; [by injection Ha as <-|].
  destruct (db_assets (env_db env) !! _) as [asset|]; [|by injection Ha as <-].
  match type of Ha with context [match ?x with Some _ => _ | None => _ end] => destruct x as [dbA|] end; [|injection Ha as <-; by apply P_revert].
  eapply transfer_writes; [|done]. by apply P_revert.
Qed.

Lemma collect_interest_writes alias env r :
  P env -> collect_interest compound_interest supply_in_units fUnitTest txHash fJustCheck nHeight bSanityCheck (aa_vchAsset pa, alias) env = Some r ->
  P (match r with inl (_, e) | inr (_, _, e) => e end).
Proof.
  unfold collect_interest. intros HP Ha. destruct (GetAssetAllocation _ env) as [d0|]; [|by injection Ha as <-].
  destruct (db_assets (env_db env) !! _) as [asset|]; [|by injection Ha as <-]. case_if_in Ha; [by injection Ha as <-|].
  pose proof (P_revert alias asset env HP) as HP1.
  match type of Ha with context [match ?x with Some _ => _ | None => _ end] => destruct x as [dbA|] end; [|by injection Ha as <-].
  apply if_inv in Ha as [[Hj%negb_true_iff Ha]|[_ Ha]]; [|by injection Ha as <-].
  destruct (ApplyAssetAllocationInterest _ _ _ _ asset dbA) as [[[ok a1] al]|]; cbn [mbind option_bind] in Ha; [|done].
  case_if_in Ha; [by injection Ha as <-|]. injection Ha as <-.
  match goal with |- P (if _ then ?x else ?y) => destruct (if_inv bSanityCheck x y _ eq_refl) as [[_ <-]|[Hsc <-]]; auto end.
Qed.

Lemma write_allocation_writes overrun a env :
  P env -> P (write_allocation txHash op fJustCheck nHeight bSanityCheck now overrun a env).
Proof. 
  intros HP. unfold write_allocation. match goal with |- P (if ?b then ?x else ?y) => destruct (if_inv b x y _ eq_refl) as [[Hb <-]|[_ <-]]; [|done] end.
  apply andb_true_iff in Hb as [Hsc%negb_true_iff _]. by apply P_write.
Qed.

Lemma handler_writes env stop env' :
  P env ->
  CheckAssetAllocationInputs compound_interest supply_in_units fUnitTest address_valid owner_in_tx isCoinBase txHash (Some (pa, vchHash)) op vvchArgs vchAlias fJustCheck nHeight
    bSanityCheck now env = Some (stop, env') -> P env'.
Proof.
  unfold CheckAssetAllocationInputs. intros HP Hc. case_if_in Hc; [by injection Hc as <- <-|].
  destruct (if fJustCheck then _ else None) as [s|]; [by injection Hc as <- <-|]. case_if_in Hc.
  - destruct (collect_interest _ _ _ _ _ _ _ _ env) as [r|] eqn:E; cbn [mbind option_bind] in Hc; [|done].
    apply collect_interest_writes in E; [|done]. destruct r as [[s e]|[[a ?] e]]; injection Hc as <- <-; [done|]. by apply write_allocation_writes.
  - case_if_in Hc; [|injection Hc as <- <-; by apply write_allocation_writes].
    destruct (allocation_send _ _ _ _ _ _ _ _ _ env) as [r|] eqn:E; cbn [mbind option_bind] in Hc; [|done].
    apply allocation_send_writes in E; [|done]. destruct r as [[s e]|[[[ov err] a] e]]; injection Hc as <- <-; [done|]. by apply write_allocation_writes.
Qed.

End Writes.

(** Records already reverted in the block have no unconfirmed version. *)
Definition synced (env : Env) : Prop :=
  forall t, 45 ∉ t.1 -> tuple_ToString t ∈ reverted env -> db_current (env_db env) !! t = db_confirmed (env_db env) !! t.

Lemma hyphen_split (a1 a2 b1 b2 : vch) : 45 ∉ a1 -> 45 ∉ a2 -> a1 ++ [45] ++ b1 = a2 ++ [45] ++ b2 -> a1 = a2 /\ b1 = b2.
Proof.
  revert a2. induction a1 as [|x a1 IH]; intros [|y a2] H1 H2 E; cbn in E.
  - by injection E as ->.
  - injection E as <- _. destruct H2. left.
  - injection E as -> _. destruct H1. left.
  - injection E as -> E. rewrite not_elem_of_cons in H1, H2. destruct (IH a2) as [-> ->]; tauto.
Qed.

Lemma tuple_ToString_inj t u : 45 ∉ t.1 -> 45 ∉ u.1 -> tuple_ToString t = tuple_ToString u -> t = u.
Proof. destruct t as [a b], u as [c d]. unfold tuple_ToString. cbn [fst snd]. intros H1 H2 E. by destruct (hyphen_split a c b d H1 H2 E) as [-> ->]. Qed.

Lemma revert_synced txHash nHeight (t : CAssetAllocationTuple) asset env :
  45 ∉ t.1 -> synced env /\ keyed (db_confirmed (env_db env)) ->
  synced (RevertAssetAllocation t asset txHash nHeight env) /\ keyed (db_confirmed (env_db (RevertAssetAllocation t asset txHash nHeight env))).
Proof.
  intros Ht [Hs C]. unfold RevertAssetAllocation. case_decide as Hd; [done|]. unfold synced.
  cbn [reverted env_db db_current db_confirmed with_conflicts WriteAssetAllocation EraseISArrivalTime with_arrivals negb].
  set (a := default _ _). assert (tuple_of a = t) as Ea.
  { unfold a. destruct (db_confirmed (env_db env) !! t) as [b|] eqn:E; cbn [default id]; [exact (C t b E)|by destruct t]. }
  split; [|by apply keyed_insert]. intros u Hu. rewrite Ea.
  destruct (decide (u = t)) as [->|Hne]; [by rewrite !lookup_insert_eq|]. rewrite !lookup_insert_ne by congruence.
  intros [E%elem_of_singleton|Hin]%elem_of_union; [|by apply Hs]. apply tuple_ToString_inj in E; done.
Qed.

Lemma write_synced a ms env :
  synced env /\ keyed (db_confirmed (env_db env)) ->
  synced (with_db (WriteAssetAllocation a ms false (env_db env)) env) /\ keyed (db_confirmed (env_db (with_db (WriteAssetAllocation a ms false (env_db env)) env))).
Proof.
  intros [Hs C]. split; [|by apply keyed_insert]. intros u Hu Hr. cbn.
  destruct (decide (u = tuple_of a)) as [->|Hne]; [by rewrite !lookup_insert_eq|]. rewrite !lookup_insert_ne by congruence. by apply Hs.
Qed.

(** Who writes what.  A sanity check changes no record of any database.  A transaction that is not in a block leaves the confirmed
    records, the assets and the set of records reverted alone.  And through the transactions of a block, of assets whose
    identifier holds no hyphen, the records already reverted in the block stay equal to the confirmed ones: what an
    unconfirmed transaction did to them is gone, and what the block did is confirmed. *)
Theorem write_modes `{RangeSort} ci sup ut av ow isCoinBase txHash pa h op args vchAlias fJustCheck nHeight bSanityCheck now env stop env' :
  CheckAssetAllocationInputs ci sup ut av ow isCoinBase txHash (Some (pa, h)) op args vchAlias fJustCheck nHeight bSanityCheck now env = Some (stop, env') ->
  (bSanityCheck = true -> env' = env)
  /\ (fJustCheck = true -> db_confirmed (env_db env') = db_confirmed (env_db env) /\ db_assets (env_db env') = db_assets (env_db env) /\ reverted env' = reverted env)
  /\ (bSanityCheck = false -> fJustCheck = false -> 45 ∉ aa_vchAsset pa -> keyed (db_confirmed (env_db env)) -> synced env ->
      keyed (db_confirmed (env_db env')) /\ synced env').
Proof.
  intros Hc. split_and!.
  - intros ->. refine (handler_writes _ _ _ _ _ _ _ _ _ _ _ _ _ _ true _ (fun e => e = env) _ _ _ _ env stop env' eq_refl Hc); done.
  - intros ->. refine (handler_writes _ _ _ _ _ _ _ _ _ _ _ _ true _ _ _
      (fun e => db_confirmed (env_db e) = db_confirmed (env_db env) /\ db_assets (env_db e) = db_assets (env_db env) /\ reverted e = reverted env)
      _ _ _ _ env stop env' (conj eq_refl (conj eq_refl eq_refl)) Hc); try done.
    intros alias asset e He. unfold revert, bRevert. by rewrite andb_false_r.
  - intros -> -> Hh K S. apply and_comm. refine (handler_writes _ _ _ _ _ _ _ _ _ _ _ _ false _ false _
      (fun e => synced e /\ keyed (db_confirmed (env_db e))) _ _ _ _ env stop env' (conj S K) Hc); try done.
    + intros alias asset e He. by apply revert_synced.
    + intros _ a ms e He. by apply write_synced.
Qed.

(** What a block's transaction writes without a check of its payload.  With an operation that is neither a send nor a claim
    of interest, which the decoder of the scripts lets pass, the payload is written as it is, as the current and the
    confirmed record of the holder it names, whatever its balance and its ranges.  And a send of nothing, which the
    handler refuses outside of a block only, gives the sender the ranges of the payload with his old balance. *)
Theorem unchecked_payload `{RangeSort} ci sup ut av ow txHash pa h op args vchAlias nHeight now env :
  (op <> OP_ASSET_ALLOCATION_SEND -> op <> OP_ASSET_COLLECT_INTEREST -> exists env',
    CheckAssetAllocationInputs ci sup ut av ow false txHash (Some (pa, h)) op args vchAlias false nHeight false now env = Some (Returns true None, env')
    /\ forall m, m = db_current (env_db env') \/ m = db_confirmed (env_db env') -> m !! tuple_of pa = Some (set_written txHash (u32 nHeight) pa))
  /\ (op = OP_ASSET_ALLOCATION_SEND -> aa_listSendingAllocationAmounts pa = [] -> aa_listSendingAllocationInputs pa = [] ->
      forall env', CheckAssetAllocationInputs ci sup ut av ow false txHash (Some (pa, h)) op args vchAlias false nHeight false now env = Some (Returns true None, env') ->
      db_assets (env_db env) !! aa_vchAsset pa <> None ->
      exists a, db_confirmed (env_db env') !! (aa_vchAsset pa, alias_of vchAlias pa) = Some a /\ aa_listAllocationInputs a = aa_listAllocationInputs pa).
Proof.
  split.
  - intros H1%Z.eqb_neq H2%Z.eqb_neq. eexists. unfold CheckAssetAllocationInputs. cbn [andb]. rewrite H1, H2. split; [reflexivity|].
    unfold write_allocation. rewrite H2. cbn. intros m [-> | ->]; apply lookup_insert_eq.
  - intros -> Ea Ei env' Hc Has. destruct (db_assets (env_db env) !! aa_vchAsset pa) as [asset|] eqn:Easset; [|done].
    apply handler_send in Hc as (r & Ha & Hr); [|done]. destruct r as [[stop e]|[[[ov err'] a] e]].
    { apply allocation_send_stops in Ha as (? & ? & -> & _). by destruct Hr. }
    destruct Hr as [-> ->]. destruct (allocation_send_ok _ _ _ _ _ _ _ _ _ _ _ Easset Ha) as (dbA & _ & Ht). cbn zeta in Ht.
    unfold transfer in Ht. cbn [aa_listSendingAllocationAmounts aa_listSendingAllocationInputs sender_of] in Ht. rewrite Ea, Ei in Ht. injection Ht as <- <- <-.
    eexists. split; [apply lookup_insert_eq|done].
Qed.

(** ** Witnesses *)

#[local] Existing Instance stable_sort.

Definition demo_asset (ranges : bool) : CAsset :=
  {| as_vchAsset := [65]; as_vchSymbol := [65]; as_vchAliasOrAddress := [1]; as_listAllocationInputs := []; as_txHash := 0; as_nHeight := 0;
     as_vchPubData := []; as_sCategory := []; as_nBalance := 0; as_nTotalSupply := 100; as_nMaxSupply := 1000; as_bUseInputRanges := ranges;
     as_nPrecision := 0; as_fInterestRate := S754_zero false; as_bCanAdjustInterestRate := false |}.

(** The record of a holder and the payload of a send of his. *)
Definition demo_record (alias : vch) (balance : Z) (ranges : list CRange) : CAssetAllocation :=
  set_balance balance (set_ranges ranges (new_allocation ([65], alias) 1 (S754_zero false))).
Definition demo_payload (alias : vch) (ranges : list CRange) (inputs : list (vch * list CRange)) (amounts : list (vch * Z)) : CAssetAllocation :=
  {| aa_vchAsset := [65]; aa_vchAliasOrAddress := alias; aa_txHash := 0; aa_nHeight := 0; aa_nLastInterestClaimHeight := 0;
     aa_listAllocationInputs := ranges; aa_listSendingAllocationInputs := inputs; aa_listSendingAllocationAmounts := amounts; aa_nBalance := 0;
     aa_nAccumulatedBalanceSinceLastInterestClaim := S754_zero false; aa_fAccumulatedInterestSinceLastInterestClaim := S754_zero false;
     aa_fInterestRate := S754_zero false; aa_vchMemo := [] |}.

Definition demo_env (a : CAssetAllocation) (ranges : bool) : Env :=
  {| reverted := ∅; env_db := {| db_current := {[tuple_of a := a]}; db_confirmed := {[tuple_of a := a]}; db_arrivals := ∅;
       db_assets := {[[65] := demo_asset ranges]}; assetAllocationConflicts := ∅ |} |}.

(** A block at height 10 holds the transaction 7, whose inputs own every holder. *)
Definition demo_run (pa : CAssetAllocation) (op : Z) (env : Env) : option (Stop * Env) :=
  CheckAssetAllocationInputs (fun _ _ => 0) (fun _ => 1000) false (fun _ => false) (fun _ => true) false 7 (Some (pa, [])) op [[]] [] false 10 false 0 env.

Definition demo_after (pa : CAssetAllocation) (op : Z) (env : Env) : Env := match demo_run pa op env with Some (_, e) => e | None => env end.

Lemma demo_keyed a ranges : keyed (db_current (env_db (demo_env a ranges))) /\ keyed (db_confirmed (env_db (demo_env a ranges))).
Proof.
  split; intros t b Ht; change (({[tuple_of a := a]} : gmap CAssetAllocationTuple CAssetAllocation) !! t = Some b) in Ht;
    by apply lookup_singleton_Some in Ht as [<- <-].
Qed.

Definition holder : CAssetAllocation := demo_record [1] 100 [].

Lemma amounts_conserved_witness :
  let pa := demo_payload [1] [] [] [([2], 30); ([3], 20); ([2], 5)] in
  let m' := db_current (env_db (demo_after pa 1 (demo_env holder false))) in
  total_balance m' = 100 /\ balance_at m' ([65], [2]) = 35 /\ balance_at m' ([65], [1]) = 45.
Proof.
  pose proof (amounts_conserved (fun _ _ => 0) (fun _ => 1000) false (fun _ => false) (fun _ => true) 7
    (demo_payload [1] [] [] [([2], 30); ([3], 20); ([2], 5)]) [] [[]] [] false 10 0 (demo_env holder false) (demo_asset false)
    (demo_after (demo_payload [1] [] [] [([2], 30); ([3], 20); ([2], 5)]) 1 (demo_env holder false))
    (proj1 (demo_keyed _ _)) (proj2 (demo_keyed _ _)) eq_refl) as (_ & Ht & Hb); [discriminate|vm_compute; reflexivity|].
  cbv zeta. split; [exact (eq_trans Ht ltac:(vm_compute; reflexivity))|split].
  - exact (eq_trans (Hb ([65], [2])) ltac:(vm_compute; reflexivity)).
  - exact (eq_trans (Hb ([65], [1])) ltac:(vm_compute; reflexivity)).
Defined.

(** 30 units are credited to the second holder and are taken from nobody. *)
Lemma self_payment_mints_witness :
  let pa := demo_payload [1] [] [] [([2], 30); ([1], 1)] in
  let m' := db_current (env_db (demo_after pa 1 (demo_env holder false))) in
  balance_at m' ([65], [1]) = 100 /\ total_balance m' = 130.
Proof.
  pose proof (self_payment_mints (fun _ _ => 0) (fun _ => 1000) false (fun _ => false) (fun _ => true) 7
    (demo_payload [1] [] [] [([2], 30); ([1], 1)]) [] [[]] [] false 10 0 (demo_env holder false) (demo_asset false)
    (demo_after (demo_payload [1] [] [] [([2], 30); ([1], 1)]) 1 (demo_env holder false))
    (proj1 (demo_keyed _ _)) (proj2 (demo_keyed _ _)) eq_refl) as (dbA & paid & k & rest & _ & _ & _ & _ & Hb); [vm_compute; reflexivity|].
  cbv zeta. split; [exact (eq_trans Hb ltac:(vm_compute; reflexivity))|vm_compute; reflexivity].
Defined.

Definition range_holder : CAssetAllocation := demo_record [1] 20 [range 0 9; range 20 29].
Definition range_payload (inputs : list (vch * list CRange)) : CAssetAllocation := demo_payload [1] [] inputs [].

Definition good_bool (a : CAssetAllocation) : bool :=
  bool_decide (Forall (fun r => 0 <= r_start r /\ r_start r <= r_end r /\ r_end r < 2 ^ 32 - 1) (aa_listAllocationInputs a))
  && bool_decide (disjoint (aa_listAllocationInputs a)) && (aa_nBalance a =? size_of (aa_listAllocationInputs a)).

Lemma good_bool_ok a : good_bool a = true -> good_record a.
Proof.
  intros [[H1%bool_decide_eq_true H2%bool_decide_eq_true]%andb_true_iff H3%Z.eqb_eq]%andb_true_iff. split_and!; [|done|done].
  eapply Forall_impl; [exact H1|]. intros r Hr. unfold small_range, wf_range. cbn in Hr. lia.
Qed.

Lemma ranges_moved_witness : exists s r,
  db_current (env_db (demo_after (range_payload [([2], [range 3 4; range 20 29])]) 1 (demo_env range_holder true))) !! ([65], [1]) = Some s
  /\ good_record s /\ good_record r /\ covers (aa_listAllocationInputs r) 3 /\ covers (aa_listAllocationInputs s) 5.
Proof.
  destruct (ranges_moved (fun _ _ => 0) (fun _ => 1000) false (fun _ => false) (fun _ => true) 7
    (range_payload [([2], [range 3 4; range 20 29])]) [] [[]] [] false 10 0 (demo_env range_holder true) (demo_asset true) [2] [range 3 4; range 20 29] range_holder
    (demo_after (range_payload [([2], [range 3 4; range 20 29])]) 1 (demo_env range_holder true))
    (proj1 (demo_keyed _ _)) (proj2 (demo_keyed _ _)) eq_refl eq_refl eq_refl) as (_ & _ & s & r & E & G1 & G2 & C1 & C2).
  - vm_compute. reflexivity.
  - apply good_bool_ok. vm_compute. reflexivity.
  - apply good_bool_ok. vm_compute. reflexivity.
  - intros x (c & Hc & _). vm_compute in Hc. by apply elem_of_nil in Hc.
  - apply (bool_decide_unpack _). vm_compute. exact I.
  - apply (bool_decide_unpack _). vm_compute. exact I.
  - vm_compute. reflexivity.
  - exists s, r. split; [exact (eq_trans (f_equal (fun m => m !! (([65], [1]) : CAssetAllocationTuple)) E) (lookup_insert_eq _ _ _))|].
    split_and!; [exact G1|exact G2| |].
    + apply C2. right. exists (range 3 4). split; [left|unfold in_range; cbn; lia].
    + apply C1. split; [exists (range 0 9); split; [left|unfold in_range; cbn; lia]|].
      intros (c & [-> |[-> |Hn%elem_of_nil]%elem_of_cons]%elem_of_cons & Hin); unfold in_range in Hin; cbn in Hin; lia || done.
Defined.

Lemma write_modes_witness :
  keyed (db_confirmed (env_db (demo_after (demo_payload [1] [] [] [([2], 30)]) 1 (demo_env holder false))))
  /\ synced (demo_after (demo_payload [1] [] [] [([2], 30)]) 1 (demo_env holder false)).
Proof.
  apply (write_modes (fun _ _ => 0) (fun _ => 1000) false (fun _ => false) (fun _ => true) false 7
    (demo_payload [1] [] [] [([2], 30)]) [] 1 [[]] [] false 10 false 0 (demo_env holder false) (Returns true None)
    (demo_after (demo_payload [1] [] [] [([2], 30)]) 1 (demo_env holder false))).
  - vm_compute. reflexivity.
  - reflexivity.
  - reflexivity.
  - apply (bool_decide_unpack _). vm_compute. exact I.
  - apply demo_keyed.
  - intros t _ Ht. by apply not_elem_of_empty in Ht.
Defined.

(** Operation 4 of [IsAssetOp]: a holder without a record writes himself a million. *)
Lemma unchecked_payload_witness :
  exists env', demo_run (set_balance 1000000 (demo_payload [9] [] [] [])) 4 (demo_env holder false) = Some (Returns true None, env')
  /\ balance_at (db_confirmed (env_db env')) ([65], [9]) = 1000000.
Proof.
  destruct (unchecked_payload (fun _ _ => 0) (fun _ => 1000) false (fun _ => false) (fun _ => true) 7
    (set_balance 1000000 (demo_payload [9] [] [] [])) [] 4 [[]] [] 10 0 (demo_env holder false)) as [(env' & E & Hm) _]; [done|done|].
  exists env'. split; [exact E|]. exact (balance_at_Some _ _ _ (Hm _ (or_intror eq_refl))).
Defined.

(** ** The same range for two receivers *)

(** A range taken as a whole stays in the sender's record of the database, from which [subtractRanges] works and
    against which the next range is checked: sent to two receivers in one transaction, the range from 0 to 9 gets into
    both receivers' records, and the sender pays twice, with a range of ten left and a balance of 0. *)
Example same_range_twice :
  option_map (fun x => map (fun a => (aa_vchAliasOrAddress a.2, aa_nBalance a.2, aa_listAllocationInputs a.2)) (map_to_list (db_confirmed (env_db x.2))))
    (demo_run (range_payload [([2], [range 0 9]); ([3], [range 0 9])]) 1 (demo_env range_holder true))
  = Some [([3], 10, [range 0 9]); ([1], 0, [range 20 29]); ([2], 10, [range 0 9])].
Proof. vm_compute. reflexivity. Qed.
