(* ===== verification/Asset.v ===== *)
(** * Assets: issuing, updating, transferring and sending

    Models [CheckAssetInputs] of [src/src/asset.cpp] and [AssetRange] there and in [src/src/asset.h].  The databases are
    those of [AssetAllocation]; the time and the index of the RPC interface are left out.  The payload of the
    transaction, the validity of an address and whether the owner of the asset owns an input of the transaction are
    parameters, as they are there.  The handler is a computation on the databases that ends, stops with a returned
    value and an error code, or raises: an exception of [AssetRange], or the overflow of a signed amount. *)

From stdpp Require Import gmap sorting.
From Stdlib Require Import SpecFloat.
From S2P Require Import Prelude Script Ranges AssetAllocation.

(** ** Computations *)

Inductive Fault := JSONRPCError | Overflow.

Inductive Result (A : Type) :=
  | Ends (a : A) (env : Env)
  | Stops (stop : Stop) (env : Env)
  | Raises (fault : Fault).
Arguments Ends {A} a env.
Arguments Stops {A} stop env.
Arguments Raises {A} fault.

Definition M (A : Type) : Type := Env -> Result A.

#[export] Instance M_ret : MRet M := fun A a env => Ends a env.
#[export] Instance M_bind : MBind M := fun A B f x env =>
  match x env with
  | Ends a env => f a env
  | Stops stop env => Stops stop env
  | Raises fault => Raises fault
  end.

Definition stop {A} (good : bool) (code : Z) : M A := fun env => Stops (Returns good (Some code)) env.
Definition raise {A} (fault : Fault) : M A := fun _ => Raises fault.
Definition lift {A} (x : option A) : M A := fun env => match x with Some a => Ends a env | None => Raises Overflow end.
Definition reads {A} (f : Env -> A) : M A := fun env => Ends (f env) env.
Definition writes (f : AllocationDB -> AllocationDB) : M unit := fun env => Ends tt (with_db (f (env_db env)) env).

(** ** Constants *)

Definition OP_ASSET_ACTIVATE : Z := 1.
Definition OP_ASSET_UPDATE : Z := 2.
Definition OP_ASSET_TRANSFER : Z := 3.
Definition OP_ASSET_SEND : Z := 4.

Definition MAX_GUID_LENGTH : nat := 20.
Definition MAX_NAME_LENGTH : nat := 256.
Definition MAX_VALUE_LENGTH : nat := 512.
Definition MIN_SYMBOL_LENGTH : nat := 1.
Definition MAX_SYMBOL_LENGTH : nat := 8.
Definition MAX_INPUTRANGE_ASSET : Z := 10000000.
Definition MAX_ASSET : Z := 1000000000000000000 - 1.

(** ** Amounts *)

(** The two overloads of [AssetRange]. *)
Definition AssetRange_units (nValue : Z) (bUseInputRange : bool) : bool :=
  (0 <? nValue) && (nValue <=? (if bUseInputRange then MAX_INPUTRANGE_ASSET else MAX_ASSET)).

Definition AssetRange (amount precision : Z) (isInputRange : bool) : M bool :=
  let precision := if isInputRange then 0 else precision in
  if (precision <? 0) || (precision >? 8) then raise JSONRPCError
  else
    n_abs ← lift (if amount <? 0 then checked (- amount) else Some amount);
    mret (AssetRange_units (if precision >? 0 then n_abs / 10 ^ precision else n_abs) isInputRange).

(** ** Strings *)

Definition to_upper_char (c : Z) : Z := if (97 <=? c) && (c <=? 122) then c - 32 else c.
Definition to_upper (s : vch) : vch := map to_upper_char s.

(** "assets" *)
Definition assets_prefix : vch := [97; 115; 115; 101; 116; 115].
Definition starts_with (s prefix : vch) : bool := bool_decide (take (length prefix) s = prefix).
Definition istarts_with (s prefix : vch) : bool := starts_with (to_upper s) (to_upper prefix).

(** ** Records *)

(** [SetNull] of the two classes. *)
Definition null_asset : CAsset :=
  {| as_vchAsset := []; as_vchSymbol := []; as_vchAliasOrAddress := []; as_listAllocationInputs := []; as_txHash := 0; as_nHeight := 0;
     as_vchPubData := []; as_sCategory := []; as_nBalance := 0; as_nTotalSupply := 0; as_nMaxSupply := 0; as_bUseInputRanges := false;
     as_nPrecision := 8; as_fInterestRate := S754_zero false; as_bCanAdjustInterestRate := false |}.
Definition null_allocation : CAssetAllocation := new_allocation ([], []) 0 (S754_zero false).

Definition set_as_ranges (l : list CRange) (a : CAsset) : CAsset :=
  {| as_vchAsset := as_vchAsset a; as_vchSymbol := as_vchSymbol a; as_vchAliasOrAddress := as_vchAliasOrAddress a; as_listAllocationInputs := l;
     as_txHash := as_txHash a; as_nHeight := as_nHeight a; as_vchPubData := as_vchPubData a; as_sCategory := as_sCategory a;
     as_nBalance := as_nBalance a; as_nTotalSupply := as_nTotalSupply a; as_nMaxSupply := as_nMaxSupply a;
     as_bUseInputRanges := as_bUseInputRanges a; as_nPrecision := as_nPrecision a; as_fInterestRate := as_fInterestRate a;
     as_bCanAdjustInterestRate := as_bCanAdjustInterestRate a |}.
Definition set_as_written (txHash height : Z) (a : CAsset) : CAsset :=
  {| as_vchAsset := as_vchAsset a; as_vchSymbol := as_vchSymbol a; as_vchAliasOrAddress := as_vchAliasOrAddress a;
     as_listAllocationInputs := as_listAllocationInputs a; as_txHash := txHash; as_nHeight := height; as_vchPubData := as_vchPubData a;
     as_sCategory := as_sCategory a; as_nBalance := as_nBalance a; as_nTotalSupply := as_nTotalSupply a; as_nMaxSupply := as_nMaxSupply a;
     as_bUseInputRanges := as_bUseInputRanges a; as_nPrecision := as_nPrecision a; as_fInterestRate := as_fInterestRate a;
     as_bCanAdjustInterestRate := as_bCanAdjustInterestRate a |}.

(** The fields that do not change after activation, and those an empty field of the payload leaves. *)
Definition inherit (dbAsset a : CAsset) : CAsset :=
  let keep (new old : vch) := if bool_decide (new = []) then old else new in
  {| as_vchAsset := as_vchAsset a; as_vchSymbol := as_vchSymbol dbAsset;
     as_vchAliasOrAddress := keep (as_vchAliasOrAddress a) (as_vchAliasOrAddress dbAsset); as_listAllocationInputs := as_listAllocationInputs a;
     as_txHash := as_txHash a; as_nHeight := as_nHeight a; as_vchPubData := keep (as_vchPubData a) (as_vchPubData dbAsset);
     as_sCategory := keep (as_sCategory a) (as_sCategory dbAsset); as_nBalance := as_nBalance a; as_nTotalSupply := as_nTotalSupply a;
     as_nMaxSupply := as_nMaxSupply a; as_bUseInputRanges := as_bUseInputRanges dbAsset; as_nPrecision := as_nPrecision dbAsset;
     as_fInterestRate := as_fInterestRate a; as_bCanAdjustInterestRate := as_bCanAdjustInterestRate dbAsset |}.
(** The ranges and the rate, which a transfer does not change. *)
Definition keep_ranges (dbAsset a : CAsset) : CAsset :=
  {| as_vchAsset := as_vchAsset a; as_vchSymbol := as_vchSymbol a; as_vchAliasOrAddress := as_vchAliasOrAddress a;
     as_listAllocationInputs := as_listAllocationInputs dbAsset; as_txHash := as_txHash a; as_nHeight := as_nHeight a;
     as_vchPubData := as_vchPubData a; as_sCategory := as_sCategory a; as_nBalance := as_nBalance a; as_nTotalSupply := as_nTotalSupply a;
     as_nMaxSupply := as_nMaxSupply a; as_bUseInputRanges := as_bUseInputRanges a; as_nPrecision := as_nPrecision a;
     as_fInterestRate := as_fInterestRate dbAsset; as_bCanAdjustInterestRate := as_bCanAdjustInterestRate a |}.
(** The symbol in capitals, the starting supply, and no decimals with input ranges. *)
Definition activated (a : CAsset) : CAsset :=
  {| as_vchAsset := as_vchAsset a; as_vchSymbol := to_upper (as_vchSymbol a); as_vchAliasOrAddress := as_vchAliasOrAddress a;
     as_listAllocationInputs := as_listAllocationInputs a; as_txHash := as_txHash a; as_nHeight := as_nHeight a;
     as_vchPubData := as_vchPubData a; as_sCategory := as_sCategory a; as_nBalance := as_nBalance a; as_nTotalSupply := as_nBalance a;
     as_nMaxSupply := as_nMaxSupply a; as_bUseInputRanges := as_bUseInputRanges a;
     as_nPrecision := if as_bUseInputRanges a then 0 else as_nPrecision a; as_fInterestRate := as_fInterestRate a;
     as_bCanAdjustInterestRate := as_bCanAdjustInterestRate a |}.

(** The fields a receiver without a record starts with. *)
Definition start_record (t : CAssetAllocationTuple) (height : Z) (rate : float) (a : CAssetAllocation) : CAssetAllocation :=
  {| aa_vchAsset := t.1; aa_vchAliasOrAddress := t.2; aa_txHash := aa_txHash a; aa_nHeight := u32 height;
     aa_nLastInterestClaimHeight := u32 height; aa_listAllocationInputs := aa_listAllocationInputs a;
     aa_listSendingAllocationInputs := aa_listSendingAllocationInputs a; aa_listSendingAllocationAmounts := aa_listSendingAllocationAmounts a;
     aa_nBalance := aa_nBalance a; aa_nAccumulatedBalanceSinceLastInterestClaim := aa_nAccumulatedBalanceSinceLastInterestClaim a;
     aa_fAccumulatedInterestSinceLastInterestClaim := aa_fAccumulatedInterestSinceLastInterestClaim a; aa_fInterestRate := rate;
     aa_vchMemo := aa_vchMemo a |}.

(** ** The handler *)

Section Handler.
Context `{RangeSort}.

(** [nShareFeeBlock], and [CMineriumAddress(user).IsValid()] and [FindAssetOwnerInTx(inputs, tx, user)]. *)
Variable nShareFeeBlock : Z.
Variable address_valid : vch -> bool.
Variable owner_in_tx : vch -> bool.

(** The transaction: whether it is a coinbase, its hash, and its payload as an asset and as an allocation, each with
    the hash of the payload. *)
Variable isCoinBase : bool.
Variable txHash : Z.
Variable asset_payload : option (CAsset * vch).
Variable allocation_payload : option (CAssetAllocation * vch).

(** The arguments of the call. *)
Variable op : Z.
Variable vvchArgs : list vch.
Variable vchAlias : vch.
Variable fJustCheck : bool.
Variable nHeight : Z.
Variable bSanityCheck : bool.

Definition rate_out_of_range (f : float) : bool := SFltb f (S754_zero false) || SFltb (float_of_Z 1) f.

(** *** The checks on the transaction alone *)

Definition check_activate (a : CAsset) : M unit :=
  if (MAX_GUID_LENGTH <? length (as_vchAsset a))%nat then stop false 2005
  else if (length (as_vchSymbol a) <? MIN_SYMBOL_LENGTH)%nat || (MAX_SYMBOL_LENGTH <? length (as_vchSymbol a))%nat then stop false 2006
  else if negb (starts_with (as_sCategory a) assets_prefix) then stop false 2007
  else if as_bUseInputRanges a && bool_decide (as_listAllocationInputs a = []) then stop false 2008
  else if negb (as_bUseInputRanges a) && negb (bool_decide (as_listAllocationInputs a = [])) then stop false 2009
  else if rate_out_of_range (as_fInterestRate a) then stop false 2010
  else if (negb (SFeqb (as_fInterestRate a) (S754_zero false)) || as_bCanAdjustInterestRate a) && as_bUseInputRanges a then stop false 2011
  else
    ok ← AssetRange (as_nBalance a) (as_nPrecision a) (as_bUseInputRanges a);
    if negb ok then stop true 2012
    else if as_nPrecision a >? 8 then stop true 2013
    else
      ok ← (if as_nMaxSupply a =? -1 then mret true else AssetRange (as_nMaxSupply a) (as_nPrecision a) (as_bUseInputRanges a));
      if negb ok then stop true 2014
      else if as_nBalance a >? as_nMaxSupply a then stop true 2015
      else if (nHeight <? nShareFeeBlock) && address_valid (as_vchAliasOrAddress a) then stop true 2015
      else mret tt.

Definition check_update (a : CAsset) : M unit :=
  if (0 <? length (as_sCategory a))%nat && negb (istarts_with (as_sCategory a) assets_prefix) then stop false 2016
  else if as_nBalance a <? 0 then stop false 2017
  else if rate_out_of_range (as_fInterestRate a) then stop false 2018
  else mret tt.

Definition check_transfer (a : CAsset) (theAssetAllocation : CAssetAllocation) : M unit :=
  if negb (bool_decide (aa_listSendingAllocationInputs theAssetAllocation = []))
     || negb (bool_decide (aa_listSendingAllocationAmounts theAssetAllocation = []))
     || negb (bool_decide (as_listAllocationInputs a = [])) then stop false 2019
  else mret tt.

Definition check_send (theAssetAllocation : CAssetAllocation) : M unit :=
  if bool_decide (aa_listSendingAllocationInputs theAssetAllocation = []) && bool_decide (aa_listSendingAllocationAmounts theAssetAllocation = [])
  then stop false 2020
  else if (250 <? length (aa_listSendingAllocationInputs theAssetAllocation))%nat || (250 <? length (aa_listSendingAllocationAmounts theAssetAllocation))%nat
  then stop false 2021
  else if (MAX_MEMO_LENGTH <? length (aa_vchMemo theAssetAllocation))%nat then stop false 2022
  else mret tt.

Definition check_payload (theAsset : CAsset) (theAssetAllocation : CAssetAllocation) (vchHash : vch) : M unit :=
  match vvchArgs with
  | [arg] =>
      if negb (bool_decide (vchHash = arg)) then stop true 2002
      else if negb (op =? OP_ASSET_SEND) && (MAX_NAME_LENGTH <? length (as_sCategory theAsset))%nat then stop false 2003
      else if negb (op =? OP_ASSET_SEND) && (MAX_VALUE_LENGTH <? length (as_vchPubData theAsset))%nat then stop false 2004
      else if op =? OP_ASSET_ACTIVATE then check_activate theAsset
      else if op =? OP_ASSET_UPDATE then check_update theAsset
      else if op =? OP_ASSET_TRANSFER then check_transfer theAsset theAssetAllocation
      else if op =? OP_ASSET_SEND then check_send theAssetAllocation
      else stop false 2023
  | _ => stop false 2001
  end.

(** *** Update *)

(** Whether the owner signs: with an alias it is the alias, without one an input is his. *)
Definition signed_off (user1 owner : vch) : bool :=
  if bool_decide (vchAlias = []) then owner_in_tx user1 else bool_decide (owner = vchAlias).

(** The increase of the balance, and the asset with its new ranges. *)
Definition added_inputs (theAsset dbAsset : CAsset) (increase : Z) : M (Z * CAsset) :=
  let inputs := as_listAllocationInputs theAsset in
  if bool_decide (inputs = []) then mret (increase, theAsset)
  else if negb (as_bUseInputRanges dbAsset) then stop true 2026
  else if existsb (fun input => r_start input <? as_nTotalSupply dbAsset) inputs then stop true 2027
  else
    let increase := validateRangesAndGetCount inputs in
    if increase =? 0 then stop true 2028
    else mret (increase, set_as_ranges (mergeRanges (as_listAllocationInputs dbAsset ++ inputs) []).2 theAsset).

Definition asset_update (theAsset dbAsset : CAsset) (user1 : vch) : M CAsset :=
  if negb (signed_off user1 (as_vchAliasOrAddress dbAsset)) then stop true 1015
  else
    '(increase, theAsset) ← added_inputs (set_issue (as_nBalance dbAsset) (as_nTotalSupply theAsset) (as_nMaxSupply theAsset) theAsset) dbAsset (as_nBalance theAsset);
    balance ← lift (checked (as_nBalance theAsset + increase));
    total ← lift (checked (as_nTotalSupply theAsset + increase));
    ok ← AssetRange total (as_nPrecision dbAsset) (as_bUseInputRanges dbAsset);
    if negb ok then stop true 2029
    else if total >? as_nMaxSupply dbAsset then stop true 2030
    else
      let theAsset := inherit dbAsset (set_issue balance total (as_nMaxSupply theAsset) theAsset) in
      if negb (as_bCanAdjustInterestRate theAsset) && negb (SFeqb (as_fInterestRate theAsset) (as_fInterestRate dbAsset)) then stop true 2040
      else mret theAsset.

(** *** Transfer *)

Definition asset_transfer (theAsset dbAsset : CAsset) : CAsset :=
  keep_ranges dbAsset (inherit dbAsset (set_issue (as_nBalance dbAsset) (as_nBalance dbAsset) (as_nMaxSupply dbAsset) theAsset)).

(** *** Send *)

Fixpoint total_sent (amounts : list (vch * Z)) (nTotal : Z) : M Z :=
  match amounts with
  | [] => mret nTotal
  | (_, amount) :: amounts =>
      nTotal ← lift (checked (nTotal + amount));
      if amount <=? 0 then stop true 2032 else total_sent amounts nTotal
  end.

(** The record of a receiver of an amount; one without a name of the asset counts as none. *)
Definition amount_receiver (t : CAssetAllocationTuple) (dbAsset : CAsset) (env : Env) : CAssetAllocation :=
  let a := default null_allocation (GetAssetAllocation t env) in
  if bool_decide (aa_vchAsset a = []) then start_record t nHeight (as_fInterestRate dbAsset) a else a.

Definition write_receiver (a : CAssetAllocation) : M unit := writes (WriteAssetAllocation a INT64_MAX fJustCheck).

(** The loop over the receivers of amounts. *)
Fixpoint credit_amounts (vchAsset memo : vch) (dbAsset : CAsset) (amounts : list (vch * Z)) (theAsset : CAsset) : M CAsset :=
  match amounts with
  | [] => mret theAsset
  | (alias, amount) :: amounts =>
      if bSanityCheck then credit_amounts vchAsset memo dbAsset amounts theAsset
      else
        receiver ← reads (amount_receiver (vchAsset, alias) dbAsset);
        let receiver := if positive_float (as_fInterestRate theAsset) then (AccumulateInterestSinceLastClaim receiver nHeight).2 else receiver in
        let receiver := set_memo memo (set_written txHash (u32 nHeight) (set_rate (as_fInterestRate theAsset) receiver)) in
        more ← lift (checked (aa_nBalance receiver + amount));
        less ← lift (checked (as_nBalance theAsset - amount));
        _ ← write_receiver (set_balance more receiver);
        credit_amounts vchAsset memo dbAsset amounts (set_issue less (as_nTotalSupply theAsset) (as_nMaxSupply theAsset) theAsset)
  end.

Fixpoint total_inputs (inputs : list (vch * list CRange)) (nTotal : Z) (rangeTotals : list Z) : M (Z * list Z) :=
  match inputs with
  | [] => mret (nTotal, rangeTotals)
  | (_, ranges) :: inputs =>
      let rangeTotal := validateRangesAndGetCount ranges in
      if rangeTotal =? 0 then stop true 2036
      else
        nTotal ← lift (checked (nTotal + rangeTotal));
        total_inputs inputs nTotal (rangeTotals ++ [rangeTotal])
  end.

(** The loop over the receivers of ranges; [arr] are the ranges of [dbAsset], in which [subtractRanges] leaves its cuts. *)
Fixpoint credit_ranges (vchAsset memo : vch) (dbAsset : CAsset) (arr : list CRange) (inputs : list (vch * list CRange)) (rangeTotals : list Z)
    (theAsset : CAsset) : M CAsset :=
  match inputs, rangeTotals with
  | (alias, ranges) :: inputs, rangeTotal :: rangeTotals =>
      if negb (doesRangeContain arr ranges) then stop true 2038
      else if bSanityCheck then credit_ranges vchAsset memo dbAsset arr inputs rangeTotals theAsset
      else
        receiver ← reads (receiver_of nHeight (vchAsset, alias) dbAsset);
        let receiver := set_memo memo (set_written txHash (u32 nHeight) (set_rate (as_fInterestRate theAsset) receiver)) in
        let receiver := set_ranges (mergeRanges (aa_listAllocationInputs receiver ++ ranges) []).2 receiver in
        more ← lift (checked (aa_nBalance receiver + rangeTotal));
        '(arr, _, outputSubtract) ← lift (subtractRanges arr ranges []);
        less ← lift (checked (as_nBalance theAsset - rangeTotal));
        _ ← write_receiver (set_balance more receiver);
        credit_ranges vchAsset memo dbAsset arr inputs rangeTotals
          (set_as_ranges outputSubtract (set_issue less (as_nTotalSupply theAsset) (as_nMaxSupply theAsset) theAsset))
  | _, _ => mret theAsset
  end.

Definition asset_send (theAssetAllocation : CAssetAllocation) (dbAsset : CAsset) (user1 : vch) : M CAsset :=
  if negb (bool_decide (vchAlias = [])) && address_valid user1 then stop true 1016
  else if (if bool_decide (vchAlias = [])
           then negb (bool_decide (as_vchAliasOrAddress dbAsset = aa_vchAliasOrAddress theAssetAllocation)) || negb (owner_in_tx user1)
           else negb (bool_decide (as_vchAliasOrAddress dbAsset = vchAlias))) then stop true 1015
  else if negb (bool_decide (aa_listSendingAllocationAmounts theAssetAllocation = [])) then
    if as_bUseInputRanges dbAsset then stop true 2031
    else
      nTotal ← total_sent (aa_listSendingAllocationAmounts theAssetAllocation) 0;
      if as_nBalance dbAsset <? nTotal then stop true 2033
      else credit_amounts (aa_vchAsset theAssetAllocation) (aa_vchMemo theAssetAllocation) dbAsset (aa_listSendingAllocationAmounts theAssetAllocation) dbAsset
  else if negb (bool_decide (aa_listSendingAllocationInputs theAssetAllocation = [])) then
    if negb (as_bUseInputRanges dbAsset) then stop true 2035
    else
      '(nTotal, rangeTotals) ← total_inputs (aa_listSendingAllocationInputs theAssetAllocation) 0 [];
      if as_nBalance dbAsset <? nTotal then stop true 2037
      else credit_ranges (aa_vchAsset theAssetAllocation) (aa_vchMemo theAssetAllocation) dbAsset (as_listAllocationInputs dbAsset)
             (aa_listSendingAllocationInputs theAssetAllocation) rangeTotals dbAsset
  else mret dbAsset.

(** *** The transaction in a block *)

(** The asset to be written. *)
Definition apply_asset (theAsset : CAsset) (theAssetAllocation : CAssetAllocation) : M CAsset :=
  found ← reads (fun env => db_assets (env_db env) !! (if op =? OP_ASSET_SEND then aa_vchAsset theAssetAllocation else as_vchAsset theAsset));
  if negb (bool_decide (is_Some found)) && negb (op =? OP_ASSET_ACTIVATE) then stop true 2024
  else
    let dbAsset := default null_asset found in
    let vchOwner := if op =? OP_ASSET_SEND then aa_vchAliasOrAddress theAssetAllocation else as_vchAliasOrAddress theAsset in
    let vchThisAlias := if bool_decide (vchAlias = []) then vchOwner else vchAlias in
    let user1 := if bool_decide (as_vchAsset dbAsset = []) then vchThisAlias else as_vchAliasOrAddress dbAsset in
    if op =? OP_ASSET_UPDATE then asset_update theAsset dbAsset user1
    else if op =? OP_ASSET_SEND then asset_send theAssetAllocation dbAsset user1
    else if op =? OP_ASSET_ACTIVATE then
      if negb (signed_off user1 (as_vchAliasOrAddress theAsset)) then stop true 1015
      else if bool_decide (is_Some found) then stop true 2041
      else mret (activated theAsset)
    else if op =? OP_ASSET_TRANSFER then mret (asset_transfer theAsset dbAsset)
    else mret (inherit dbAsset (set_issue (as_nBalance dbAsset) (as_nBalance dbAsset) (as_nMaxSupply dbAsset) theAsset)).

Definition connect_asset (theAsset : CAsset) (theAssetAllocation : CAssetAllocation) : M unit :=
  theAsset ← apply_asset theAsset theAssetAllocation;
  let theAsset := set_as_written txHash (u32 nHeight) theAsset in
  if bSanityCheck then mret tt else writes (WriteAsset theAsset).

(** The payload, of the class its operation has; the other record is null. *)
Definition read_payload : option (CAsset * CAssetAllocation * vch) :=
  if op =? OP_ASSET_SEND then '(a, h) ← allocation_payload; Some (null_asset, a, h)
  else '(a, h) ← asset_payload; Some (a, null_allocation, h).

Definition CheckAssetInputs : M unit :=
  if isCoinBase && negb fJustCheck && negb bSanityCheck then mret tt
  else
    match read_payload with
    | None => stop true 2000
    | Some (theAsset, theAssetAllocation, vchHash) =>
        if fJustCheck then check_payload theAsset theAssetAllocation vchHash else connect_asset theAsset theAssetAllocation
    end.

End Handler.

(** ** Lemmas *)

Lemma bind_ends {A B} (x : M A) (f : A -> M B) env b env' :
  (x ≫= f) env = Ends b env' <-> exists a env1, x env = Ends a env1 /\ f a env1 = Ends b env'.
Proof.
  unfold mbind, M_bind. split; [destruct (x env) as [a env1| |]; [by eauto|done..]|by intros (a & env1 & -> & ?)].
Qed.

Lemma lift_ends {A} (x : option A) env a env' : lift x env = Ends a env' <-> x = Some a /\ env' = env.
Proof. unfold lift. destruct x; split; [intros [= -> ->]; done|intros [[= ->] ->]; done|done|by intros [? _]]. Qed.

Lemma stop_ends {A} good code env (a : A) env' : stop good code env = Ends a env' <-> False.
Proof. done. Qed.

Lemma if_stop_ends {A} (c : bool) good code (k : M A) env a env' :
  (if c then stop good code else k) env = Ends a env' <-> c = false /\ k env = Ends a env'.
Proof. destruct c; split; [done|by intros []|done|by intros []]. Qed.

Lemma if_app {A} (c : bool) (x y : M A) env : (if c then x else y) env = if c then x env else y env.
Proof. by destruct c. Qed.

Lemma lift_run {A} (x : option A) env a env' : lift x env = Ends a env' -> x = Some a /\ env' = env.
Proof. apply lift_ends. Qed.

Lemma checked_run z env n env' : lift (checked z) env = Ends n env' -> n = z /\ env' = env.
Proof. intros [E ->]%lift_ends. by apply checked_Some in E as [-> _]. Qed.

Lemma AssetRange_ends amount precision ranges env ok env' :
  AssetRange amount precision ranges env = Ends ok env' ->
  let p := if ranges then 0 else precision in
  env' = env /\ 0 <= p <= 8 /\ ok = AssetRange_units (Z.abs amount / 10 ^ p) ranges.
Proof.
  unfold AssetRange. intros H. set (p := if ranges then 0 else precision) in *. cbn zeta. rewrite if_app in H. destruct ((p <? 0) || (p >? 8)) eqn:Ep; [done|].
  apply bind_ends in H as (n & env1 & H1 & H). apply lift_ends in H1 as [H1 ->]. injection H as <- <-. rewrite Z.gtb_ltb in *. zbool.
  split_and!; try (done || lia). assert (n = Z.abs amount) as ->.
  { destruct (Z.ltb_spec amount 0); [apply checked_Some in H1 as [-> _]; lia|injection H1 as <-; lia]. }
  destruct (Z.ltb_spec 0 p); [done|]. replace p with 0 by lia. by rewrite Z.div_1_r.
Qed.

Section Lemmas.
Context `{RangeSort}.
Variables (nShareFeeBlock : Z) (address_valid owner_in_tx : vch -> bool) (txHash : Z) (vchAlias : vch) (fJustCheck : bool) (nHeight : Z).

Lemma total_sent_ends amounts nTotal env n env' :
  total_sent amounts nTotal env = Ends n env' -> n = nTotal + sum_amounts amounts /\ Forall (fun x => 0 < x.2) amounts /\ env' = env.
Proof using Type.
  revert nTotal. induction amounts as [|[alias amount] l IH]; intros nTotal Ht; cbn [total_sent] in Ht.
  { injection Ht as <- <-. split_and!; [cbn; lia|constructor|done]. }
  apply bind_ends in Ht as (m & env1 & Hm & Ht). apply checked_run in Hm as [-> ->]. apply if_stop_ends in Ht as [Hp Ht]. zbool.
  apply IH in Ht as (-> & Hall & ->). rewrite sum_amounts_cons. cbn [snd]. split_and!; [lia|constructor; [cbn; lia|done]|done].
Qed.

(** What a loop over receivers leaves alone. *)
Definition same_rest (env env' : Env) : Prop :=
  db_assets (env_db env') = db_assets (env_db env) /\ db_arrivals (env_db env') = db_arrivals (env_db env)
  /\ assetAllocationConflicts (env_db env') = assetAllocationConflicts (env_db env) /\ reverted env' = reverted env.

Lemma amount_receiver_ok (t : CAssetAllocationTuple) dbAsset env :
  keyed (db_current (env_db env)) -> t.1 <> [] ->
  tuple_of (amount_receiver nHeight t dbAsset env) = t /\ aa_nBalance (amount_receiver nHeight t dbAsset env) = balance_at (db_current (env_db env)) t.
Proof using Type.
  intros K Ht. unfold amount_receiver, GetAssetAllocation, balance_at. destruct (db_current (env_db env) !! t) as [a|] eqn:E; cbn [default].
  - pose proof (K t a E) as Ka. rewrite bool_decide_eq_false_2; [by split|]. intros Ha. apply Ht. subst t. exact Ha.
  - by destruct t.
Qed.

(** The loop over the receivers of amounts: each gets what the list holds for it and the asset pays. *)
Lemma credit_amounts_ends vchAsset memo dbAsset amounts a env a' env' :
  vchAsset <> [] -> keyed (db_current (env_db env)) ->
  credit_amounts txHash false nHeight false vchAsset memo dbAsset amounts a env = Ends a' env' ->
  keyed (db_current (env_db env')) /\ same_rest env env'
  /\ a' = set_issue (as_nBalance a - sum_amounts amounts) (as_nTotalSupply a) (as_nMaxSupply a) a
  /\ (forall u, balance_at (db_current (env_db env')) u = balance_at (db_current (env_db env)) u + if decide (u.1 = vchAsset) then amount_for u.2 amounts else 0)
  /\ total_balance (db_current (env_db env')) = total_balance (db_current (env_db env)) + sum_amounts amounts.
Proof using Type.
  intros Hne. revert a env. induction amounts as [|[alias amount] l IH]; intros a env K Hc; cbn [credit_amounts] in Hc.
  { injection Hc as <- <-. split_and!; [done|done| | |cbn; lia].
    - change (sum_amounts []) with 0. rewrite Z.sub_0_r. by destruct a.
    - intros u. case_decide; cbn; lia. }
  apply bind_ends in Hc as (r & env1 & Hr & Hc). injection Hr as <- <-.
  destruct (amount_receiver_ok (vchAsset, alias) dbAsset env K Hne) as [Rt Rb]. set (r := amount_receiver nHeight (vchAsset, alias) dbAsset env) in *.
  set (r1 := if positive_float (as_fInterestRate a) then (AccumulateInterestSinceLastClaim r nHeight).2 else r) in *.
  assert (tuple_of r1 = tuple_of r /\ aa_nBalance r1 = aa_nBalance r) as [R1 R2].
  { destruct (accumulate_fields r nHeight) as (A & B & _). unfold r1. by destruct (positive_float _). }
  set (r2 := set_memo _ _) in Hc. assert (tuple_of r2 = tuple_of r1 /\ aa_nBalance r2 = aa_nBalance r1) as [R3 R4] by done.
  apply bind_ends in Hc as (more & env1 & Hm & Hc). apply checked_run in Hm as [-> ->].
  apply bind_ends in Hc as (less & env1 & Hl & Hc). apply checked_run in Hl as [-> ->].
  apply bind_ends in Hc as ([] & env1 & Hw & Hc). injection Hw as <-.
  set (r3 := set_balance _ r2) in Hc. assert (tuple_of r3 = (vchAsset, alias) /\ aa_nBalance r3 = balance_at (db_current (env_db env)) (vchAsset, alias) + amount) as [R5 R6].
  { unfold r3. split; [change (tuple_of r2 = (vchAsset, alias)); congruence|cbn -[r2]; lia]. }
  apply IH in Hc as (K' & S' & -> & B' & T'); [|rewrite write_current; by apply keyed_insert].
  rewrite write_current, R5 in B', T'. split_and!; [done|exact S'| | |].
  - rewrite sum_amounts_cons. unfold set_issue. cbn. f_equal. lia.
  - intros u. rewrite B', balance_at_insert, amount_for_cons, R6. cbn [fst snd]. destruct (decide (u = (vchAsset, alias))) as [->|Hu]; cbn [fst snd].
    + rewrite !decide_True by done. lia.
    + case_decide as Hv; [|lia]. rewrite decide_False; [lia|]. intros ->. apply Hu. destruct u; cbn in *; congruence.
  - rewrite T', total_balance_insert, R6, sum_amounts_cons. cbn. lia.
Qed.

End Lemmas.

(** What a transaction in a block is run with: no coinbase, no mere check. *)
Section Block.
Context `{RangeSort}.
Variables (nShareFeeBlock : Z) (address_valid owner_in_tx : vch -> bool) (txHash : Z).
Variables (asset_payload : option (CAsset * vch)) (allocation_payload : option (CAssetAllocation * vch)) (vvchArgs : list vch) (vchAlias : vch) (nHeight : Z).

Definition run (op : Z) : M unit :=
  CheckAssetInputs nShareFeeBlock address_valid owner_in_tx false txHash asset_payload allocation_payload op vvchArgs vchAlias false nHeight false.

(** Both kinds of owner: an address with an input of his, or the alias of the transaction. *)
Definition owner_signs (dbAsset : CAsset) : Prop :=
  (vchAlias = [] /\ owner_in_tx (as_vchAliasOrAddress dbAsset) = true) \/ (vchAlias <> [] /\ vchAlias = as_vchAliasOrAddress dbAsset).

Lemma signed_off_ok dbAsset : signed_off owner_in_tx vchAlias (as_vchAliasOrAddress dbAsset) (as_vchAliasOrAddress dbAsset) = true <-> owner_signs dbAsset.
Proof using Type.
  unfold signed_off, owner_signs. destruct (bool_decide_reflect (vchAlias = [])) as [E|E].
  - split; [by left|]. by intros [[_ ?]|[? _]].
  - rewrite bool_decide_eq_true. split; [by right|]. by intros [[? _]|[_ ?]].
Qed.

(** The end of a run: an asset was made and is written. *)
Lemma run_ends op pa al h env env' :
  read_payload asset_payload allocation_payload op = Some (pa, al, h) -> run op env = Ends tt env' ->
  exists a env1, apply_asset address_valid owner_in_tx txHash op vchAlias false nHeight false pa al env = Ends a env1
  /\ env' = with_db (WriteAsset (set_as_written txHash (u32 nHeight) a) (env_db env1)) env1.
Proof using Type.
  unfold run, CheckAssetInputs. intros -> Hr. cbn [andb] in Hr. unfold connect_asset in Hr. apply bind_ends in Hr as (a & env1 & Ha & Hr).
  injection Hr as <-. by exists a, env1.
Qed.

Lemma apply_asset_found op pa al env asset a env1 :
  let name := if op =? OP_ASSET_SEND then aa_vchAsset al else as_vchAsset pa in
  db_assets (env_db env) !! name = Some asset -> as_vchAsset asset <> [] ->
  apply_asset address_valid owner_in_tx txHash op vchAlias false nHeight false pa al env = Ends a env1 ->
  (if op =? OP_ASSET_UPDATE then asset_update owner_in_tx vchAlias pa asset (as_vchAliasOrAddress asset)
   else if op =? OP_ASSET_SEND then asset_send address_valid owner_in_tx txHash vchAlias false nHeight false al asset (as_vchAliasOrAddress asset)
   else if op =? OP_ASSET_ACTIVATE then stop true 2041
   else if op =? OP_ASSET_TRANSFER then mret (asset_transfer pa asset)
   else mret (inherit asset (set_issue (as_nBalance asset) (as_nBalance asset) (as_nMaxSupply asset) pa))) env = Ends a env1.
Proof using Type.
  intros name Hf Hne Ha. unfold apply_asset in Ha. apply bind_ends in Ha as (f & e & Hr & Ha). injection Hr as <- <-. fold name in Ha. rewrite Hf in Ha.
  rewrite bool_decide_eq_true_2 in Ha by done. cbn [negb andb default] in Ha. rewrite bool_decide_eq_false_2 in Ha by done.
  destruct (op =? OP_ASSET_UPDATE); [done|]. destruct (op =? OP_ASSET_SEND); [done|]. destruct (op =? OP_ASSET_ACTIVATE); [|done].
  by apply if_stop_ends in Ha as [_ Ha].
Qed.

Lemma asset_send_ends al asset a env env1 :
  asset_send address_valid owner_in_tx txHash vchAlias false nHeight false al asset (as_vchAliasOrAddress asset) env = Ends a env1 ->
  aa_listSendingAllocationAmounts al <> [] ->
  owner_signs asset /\ sum_amounts (aa_listSendingAllocationAmounts al) <= as_nBalance asset /\ Forall (fun x => 0 < x.2) (aa_listSendingAllocationAmounts al)
  /\ credit_amounts txHash false nHeight false (aa_vchAsset al) (aa_vchMemo al) asset (aa_listSendingAllocationAmounts al) asset env = Ends a env1.
Proof using Type.
  unfold asset_send. intros Hs Hl. apply if_stop_ends in Hs as [_ Hs]. apply if_stop_ends in Hs as [Ho Hs]. rewrite bool_decide_eq_false_2 in Hs by done. cbn [negb] in Hs.
  apply if_stop_ends in Hs as [_ Hs]. apply bind_ends in Hs as (n & e & Hn & Hs). apply total_sent_ends in Hn as (-> & Hp & ->). apply if_stop_ends in Hs as [Hb Hs].
  zbool. split_and!; [|lia|done|done]. unfold owner_signs. destruct (bool_decide_reflect (vchAlias = [])) as [E|E].
  - apply orb_false_iff in Ho as [_ Ho]. apply negb_false_iff in Ho. by left.
  - apply negb_false_iff, bool_decide_eq_true in Ho. by right.
Qed.

End Block.

(** ** Lemmas: updates *)

Lemma added_inputs_ends `{RangeSort} a dbAsset increase env r env' :
  added_inputs a dbAsset increase env = Ends r env' ->
  env' = env /\ ((as_listAllocationInputs a = [] /\ r = (increase, a))
    \/ (as_listAllocationInputs a <> [] /\ as_bUseInputRanges dbAsset = true /\ Forall (fun i => as_nTotalSupply dbAsset <= r_start i) (as_listAllocationInputs a)
        /\ r.1 = validateRangesAndGetCount (as_listAllocationInputs a) /\ r.1 <> 0
        /\ r.2 = set_as_ranges (mergeRanges (as_listAllocationInputs dbAsset ++ as_listAllocationInputs a) []).2 a)).
Proof.
  unfold added_inputs. intros Hr. rewrite if_app in Hr. destruct (bool_decide_reflect (as_listAllocationInputs a = [])) as [E|E].
  { injection Hr as <- <-. auto. }
  apply if_stop_ends in Hr as [Hu Hr]. apply if_stop_ends in Hr as [Hs Hr]. apply if_stop_ends in Hr as [Hz Hr]. injection Hr as <- <-. zbool.
  split; [done|]. right. split_and!; try done. apply Forall_forall. intros i Hi. apply Z.nlt_ge. intros Hlt.
  assert (existsb (fun input => r_start input <? as_nTotalSupply dbAsset) (as_listAllocationInputs a) = true); [|congruence].
  apply existsb_exists. exists i. split; [by apply list_elem_of_In|]. by apply Z.ltb_lt.
Qed.

Lemma asset_update_ends `{RangeSort} ow vchAlias pa asset env a env' :
  asset_update ow vchAlias pa asset (as_vchAliasOrAddress asset) env = Ends a env' ->
  env' = env /\ owner_signs ow vchAlias asset /\ exists inc ranges,
  a = inherit asset (set_issue (as_nBalance asset + inc) (as_nTotalSupply pa + inc) (as_nMaxSupply pa) (set_as_ranges ranges pa))
  /\ AssetRange_units (Z.abs (as_nTotalSupply pa + inc) / 10 ^ (if as_bUseInputRanges asset then 0 else as_nPrecision asset)) (as_bUseInputRanges asset) = true
  /\ as_nTotalSupply pa + inc <= as_nMaxSupply asset
  /\ (as_bCanAdjustInterestRate asset = false -> SFeqb (as_fInterestRate pa) (as_fInterestRate asset) = true)
  /\ ((as_listAllocationInputs pa = [] /\ inc = as_nBalance pa /\ ranges = [])
      \/ (as_listAllocationInputs pa <> [] /\ as_bUseInputRanges asset = true /\ Forall (fun i => as_nTotalSupply asset <= r_start i) (as_listAllocationInputs pa)
          /\ inc = validateRangesAndGetCount (as_listAllocationInputs pa) /\ inc <> 0
          /\ ranges = (mergeRanges (as_listAllocationInputs asset ++ as_listAllocationInputs pa) []).2)).
Proof.
  unfold asset_update. intros Hu. apply if_stop_ends in Hu as [Hs Hu]. apply negb_false_iff, signed_off_ok in Hs.
  apply bind_ends in Hu as ([inc a1] & e & Hi & Hu). apply added_inputs_ends in Hi as [-> Hi].
  change (as_listAllocationInputs (set_issue _ _ _ pa)) with (as_listAllocationInputs pa) in Hi.
  assert (exists ranges, a1 = set_issue (as_nBalance asset) (as_nTotalSupply pa) (as_nMaxSupply pa) (set_as_ranges ranges pa)
    /\ ((as_listAllocationInputs pa = [] /\ inc = as_nBalance pa /\ ranges = [])
      \/ (as_listAllocationInputs pa <> [] /\ as_bUseInputRanges asset = true /\ Forall (fun i => as_nTotalSupply asset <= r_start i) (as_listAllocationInputs pa)
          /\ inc = validateRangesAndGetCount (as_listAllocationInputs pa) /\ inc <> 0
          /\ ranges = (mergeRanges (as_listAllocationInputs asset ++ as_listAllocationInputs pa) []).2))) as (ranges & -> & Hcases).
  { destruct Hi as [[E Hi]|(E & H1 & H2 & H3 & H4 & H5)].
    - injection Hi as -> ->. exists []. split; [by rewrite <- E; destruct pa|by left].
    - cbn [fst snd] in *. eexists. split; [rewrite H5; reflexivity|]. by right. }
  apply bind_ends in Hu as (b & e & Hb & Hu). apply checked_run in Hb as [-> ->]. apply bind_ends in Hu as (t & e & Ht & Hu). apply checked_run in Ht as [-> ->].
  cbn [as_nBalance as_nTotalSupply as_nMaxSupply set_issue] in Hu. apply bind_ends in Hu as (ok & e & Hr & Hu). apply AssetRange_ends in Hr as (-> & _ & ->).
  apply if_stop_ends in Hu as [Hok Hu]. apply negb_false_iff in Hok. apply if_stop_ends in Hu as [Hmax Hu]. rewrite Z.gtb_ltb in Hmax. apply Z.ltb_ge in Hmax.
  apply if_stop_ends in Hu as [Hrate Hu]. injection Hu as <- <-. split_and!; [done|done|]. exists inc, ranges. split_and!; try done.
  intros Hadj. cbn [as_bCanAdjustInterestRate as_fInterestRate inherit set_issue set_as_ranges] in Hrate. rewrite Hadj in Hrate. cbn [negb andb] in Hrate. by apply negb_false_iff in Hrate.
Qed.

(** The payload of an update that adds tokens and gives 0 as the supply. *)
Definition mint (asset : CAsset) (n : Z) : CAsset :=
  set_issue n 0 (as_nMaxSupply asset)
    {| as_vchAsset := as_vchAsset asset; as_vchSymbol := []; as_vchAliasOrAddress := []; as_listAllocationInputs := []; as_txHash := 0; as_nHeight := 0;
       as_vchPubData := []; as_sCategory := []; as_nBalance := 0; as_nTotalSupply := 0; as_nMaxSupply := 0; as_bUseInputRanges := false;
       as_nPrecision := 0; as_fInterestRate := as_fInterestRate asset; as_bCanAdjustInterestRate := false |}.

Fixpoint times (k : nat) (x : M unit) : M unit := match k with O => mret tt | S k => x ≫= fun _ => times k x end.

(** An asset that can be minted again: its recorded supply plays no part. *)
Record mintable (asset : CAsset) (name owner : vch) (precision max : Z) (rate : float) : Prop := {
  mi_name : as_vchAsset asset = name;
  mi_owner : as_vchAliasOrAddress asset = owner;
  mi_ranges : as_bUseInputRanges asset = false;
  mi_precision : as_nPrecision asset = precision;
  mi_max : as_nMaxSupply asset = max;
  mi_rate : as_fInterestRate asset = rate;
}.

Lemma AssetRange_run amount precision env :
  0 <= precision <= 8 -> 0 <= amount -> AssetRange amount precision false env = Ends (AssetRange_units (amount / 10 ^ precision) false) env.
Proof.
  intros Hp Ha. unfold AssetRange. rewrite Z.gtb_ltb, (proj2 (Z.ltb_ge precision 0)), (proj2 (Z.ltb_ge 8 precision)) by lia. cbn [orb].
  rewrite (proj2 (Z.ltb_ge amount 0)) by lia. rewrite Z.gtb_ltb. destruct (Z.ltb_spec 0 precision); [done|]. replace precision with 0 by lia. cbn. by rewrite Z.div_1_r.
Qed.

Lemma mint_once `{RangeSort} fee av ow txHash h pay args nHeight env asset src name owner precision max rate n :
  mintable asset name owner precision max rate -> mintable src name owner precision max rate -> name <> [] -> owner_signs ow [] asset ->
  db_assets (env_db env) !! name = Some asset -> 0 <= precision <= 8 -> SFeqb rate rate = true -> 0 < n <= max ->
  AssetRange_units (n / 10 ^ precision) false = true -> in_s 64 n -> in_s 64 (as_nBalance asset + n) ->
  exists env' asset', run fee av ow txHash (Some (mint src n, h)) pay args [] nHeight OP_ASSET_UPDATE env = Ends tt env'
  /\ db_assets (env_db env') !! name = Some asset' /\ mintable asset' name owner precision max rate /\ as_nBalance asset' = as_nBalance asset + n.
Proof.
  intros [M1 M2 M3 M4 M5 M6] [S1 S2 S3 S4 S5 S6] Hne Ho Hf Hp Hrate Hn Hu H64 Hb.
  eexists _, (set_as_written txHash (u32 nHeight) (inherit asset (set_issue (as_nBalance asset + n) n max (mint src n)))). split.
  - unfold run, CheckAssetInputs, connect_asset, apply_asset, mbind, M_bind, reads, read_payload. cbn [andb Z.eqb OP_ASSET_UPDATE OP_ASSET_SEND mbind option_bind]. cbn -[asset_update mint].
    change (as_vchAsset (mint src n)) with (as_vchAsset src). rewrite S1, Hf. rewrite bool_decide_eq_true_2 by done. cbn -[asset_update mint]. rewrite bool_decide_eq_false_2 by congruence.
    assert (asset_update ow [] (mint src n) asset (as_vchAliasOrAddress asset) env = Ends (inherit asset (set_issue (as_nBalance asset + n) n max (mint src n))) env) as ->; [|reflexivity].
    unfold asset_update. rewrite (proj2 (signed_off_ok _ _ _) Ho). cbn [negb]. unfold mbind, M_bind, added_inputs, lift. cbn -[checked AssetRange SFeqb inherit]. rewrite checked_in by done.
    rewrite checked_in by done. rewrite M4, M3. rewrite Z.add_0_l, AssetRange_run by lia. rewrite Hu. cbn [negb]. rewrite M5, Z.gtb_ltb, (proj2 (Z.ltb_ge max n)) by lia.
    rewrite S5. cbn [as_bCanAdjustInterestRate as_fInterestRate inherit set_issue]. change (as_fInterestRate (mint src n)) with (as_fInterestRate src). rewrite S6, M6, Hrate, andb_false_r. reflexivity.
  - split_and!; [|constructor; cbn; congruence|done]. cbn. by rewrite S1, lookup_insert_eq.
Qed.

Lemma times_mint `{RangeSort} fee av ow txHash h pay args nHeight k env asset src name owner precision max rate n :
  mintable asset name owner precision max rate -> mintable src name owner precision max rate -> name <> [] -> ow owner = true ->
  db_assets (env_db env) !! name = Some asset -> 0 <= precision <= 8 -> SFeqb rate rate = true -> 0 < n <= max ->
  AssetRange_units (n / 10 ^ precision) false = true -> 0 <= as_nBalance asset -> as_nBalance asset + Z.of_nat k * n < 2 ^ 63 ->
  exists env' asset', times k (run fee av ow txHash (Some (mint src n, h)) pay args [] nHeight OP_ASSET_UPDATE) env = Ends tt env'
  /\ db_assets (env_db env') !! name = Some asset' /\ as_nBalance asset' = as_nBalance asset + Z.of_nat k * n /\ as_nMaxSupply asset' = max.
Proof.
  revert env asset. induction k as [|k IH]; intros env asset Ma Ms Hne Ho Hf Hp Hq Hn Hr H0 Hb.
  { exists env, asset. split_and!; [done|done|lia|by apply (mi_max _ _ _ _ _ _ Ma)]. }
  destruct (mint_once fee av ow txHash h pay args nHeight env asset src name owner precision max rate n) as (env1 & asset1 & E1 & F1 & M1 & B1); try done.
  { left. split; [done|]. by rewrite (mi_owner _ _ _ _ _ _ Ma). }
  1, 2: unfold in_s; lia.
  destruct (IH env1 asset1) as (env2 & asset2 & E2 & F2 & B2 & X2); try done; [lia|lia|].
  exists env2, asset2. cbn [times]. unfold mbind, M_bind. rewrite E1. split_and!; [done|done|lia|done].
Qed.

(** ** Lemmas: sends of ranges *)

(** The asset's ranges and balance, as a record of a holder with the memo of the payload. *)
Definition holding (memo : vch) (a : CAsset) : CAssetAllocation :=
  set_memo memo (set_ranges (as_listAllocationInputs a) (set_balance (as_nBalance a) null_allocation)).

Lemma credit_one_range `{RangeSort} txHash nHeight name memo asset to ranges n env a env' :
  credit_ranges txHash false nHeight false name memo asset (as_listAllocationInputs asset) [(to, ranges)] [n] asset env = Ends a env' ->
  doesRangeContain (as_listAllocationInputs asset) ranges = true
  /\ exists r s d l, transfer_ranges txHash nHeight asset n ranges (receiver_of nHeight (name, to) asset env) (holding memo asset) (holding memo asset) = Some (r, s, d, l)
  /\ a = set_as_ranges (aa_listAllocationInputs s) (set_issue (aa_nBalance s) (as_nTotalSupply asset) (as_nMaxSupply asset) asset)
  /\ env' = with_db (WriteAssetAllocation r INT64_MAX false (env_db env)) env.
Proof.
  cbn [credit_ranges]. intros Hc. apply if_stop_ends in Hc as [Hin Hc]. apply negb_false_iff in Hin. split; [done|].
  apply bind_ends in Hc as (r & e & Hr & Hc). injection Hr as <- <-. apply bind_ends in Hc as (more & e & Hm & Hc). apply lift_ends in Hm as [Hm ->].
  apply bind_ends in Hc as ([[arr del] out] & e & Ho & Hc). apply lift_ends in Ho as [Ho ->]. apply bind_ends in Hc as (less & e & Hl & Hc). apply lift_ends in Hl as [Hl ->].
  apply bind_ends in Hc as ([] & e & Hw & Hc). injection Hw as <-. injection Hc as <- <-.
  eexists _, _, _, _. split; [|split; [|reflexivity]].
  - unfold transfer_ranges. change (aa_vchMemo (holding memo asset)) with memo. rewrite Hm. cbn [mbind option_bind].
    change (aa_listAllocationInputs (holding memo asset)) with (as_listAllocationInputs asset). rewrite Ho. cbn [mbind option_bind].
    change (aa_nBalance (holding memo asset)) with (as_nBalance asset). rewrite Hl. reflexivity.
  - reflexivity.
Qed.

(** The ranges of an asset are in order, do not overlap, and its balance counts their numbers. *)
Definition good_asset (a : CAsset) : Prop :=
  Forall small_range (as_listAllocationInputs a) /\ disjoint (as_listAllocationInputs a) /\ as_nBalance a = size_of (as_listAllocationInputs a).

Lemma asset_send_range_ends `{RangeSort} av ow txHash vchAlias nHeight al asset to ranges a env env1 :
  asset_send av ow txHash vchAlias false nHeight false al asset (as_vchAliasOrAddress asset) env = Ends a env1 ->
  aa_listSendingAllocationAmounts al = [] -> aa_listSendingAllocationInputs al = [(to, ranges)] ->
  owner_signs ow vchAlias asset /\ as_bUseInputRanges asset = true /\ validateRangesAndGetCount ranges <> 0
  /\ credit_ranges txHash false nHeight false (aa_vchAsset al) (aa_vchMemo al) asset (as_listAllocationInputs asset) [(to, ranges)]
       [validateRangesAndGetCount ranges] asset env = Ends a env1.
Proof.
  unfold asset_send. intros Hs Hl Hi. rewrite Hl, Hi in Hs. apply if_stop_ends in Hs as [_ Hs]. apply if_stop_ends in Hs as [Ho Hs].
  rewrite (bool_decide_eq_true_2 ([] = [])) in Hs by done. rewrite bool_decide_eq_false_2 in Hs by done. cbn [negb] in Hs.
  apply if_stop_ends in Hs as [Hu Hs]. apply negb_false_iff in Hu. apply bind_ends in Hs as ([n totals] & e & Hn & Hs). cbn [total_inputs app] in Hn.
  apply if_stop_ends in Hn as [Hz Hn]. apply bind_ends in Hn as (m & e' & Hm & Hn). apply lift_ends in Hm as [_ ->]. injection Hn as -> <- <-.
  apply if_stop_ends in Hs as [_ Hs]. apply Z.eqb_neq in Hz. split_and!; try done. unfold owner_signs. destruct (bool_decide_reflect (vchAlias = [])) as [E|E].
  - apply orb_false_iff in Ho as [_ Ho]. apply negb_false_iff in Ho. by left.
  - apply negb_false_iff, bool_decide_eq_true in Ho. by right.
Qed.

(** ** Theorems *)

(** C20: a send of amounts from an asset, in a block, moves tokens from the asset to its holders and makes none.  When
    the handler ends, the owner has signed, all amounts are positive and the asset's balance covers their sum; the
    asset keeps everything but its balance, which is lower by the sum; each holder named has what the list holds for
    him more, no other balance of any asset changes, and the balances of all holders with that of the asset have the
    sum they had. *)
Theorem asset_send_conserves `{RangeSort} fee av ow txHash pay al h args vchAlias nHeight env env' asset :
  let l := aa_listSendingAllocationAmounts al in let name := aa_vchAsset al in
  keyed (db_current (env_db env)) -> db_assets (env_db env) !! name = Some asset -> as_vchAsset asset = name -> name <> [] -> l <> [] ->
  run fee av ow txHash pay (Some (al, h)) args vchAlias nHeight OP_ASSET_SEND env = Ends tt env' ->
  owner_signs ow vchAlias asset /\ Forall (fun x => 0 < x.2) l /\ sum_amounts l <= as_nBalance asset
  /\ db_assets (env_db env') = <[name := set_as_written txHash (u32 nHeight) (set_issue (as_nBalance asset - sum_amounts l) (as_nTotalSupply asset) (as_nMaxSupply asset) asset)]> (db_assets (env_db env))
  /\ (forall u, balance_at (db_current (env_db env')) u = balance_at (db_current (env_db env)) u + if decide (u.1 = name) then amount_for u.2 l else 0)
  /\ total_balance (db_current (env_db env')) + (as_nBalance asset - sum_amounts l) = total_balance (db_current (env_db env)) + as_nBalance asset.
Proof.
  intros l name K Hf Hn Hne Hl Hr. apply (run_ends _ _ _ _ _ _ _ _ _ _ null_asset al h) in Hr as (a & env1 & Ha & ->); [|done].
  apply (apply_asset_found _ _ _ _ _ _ _ _ _ asset) in Ha; [|done|congruence]. cbn in Ha.
  apply asset_send_ends in Ha as (Hs & Hb & Hp & Hc); [|done]. apply credit_amounts_ends in Hc as (K' & (S & _) & -> & B & T); [|done..].
  fold l name in B, T, Hb, Hp. split_and!; [done|done|done| |exact B|cbn [env_db with_db WriteAsset db_current]; lia].
  cbn [env_db with_db WriteAsset db_assets]. rewrite S. cbn [as_vchAsset set_as_written set_issue]. by rewrite Hn.
Qed.

(** C21: anyone can take an asset.  A transfer in a block that names an asset always ends, whatever its inputs and
    alias are, and writes the payload's address as the owner; the asset keeps its balance, ranges, rate and maximum
    supply, and its supply becomes its balance, however many tokens it has issued. *)
Theorem asset_transfer_unsigned `{RangeSort} fee av ow txHash pa h pay args vchAlias nHeight env asset :
  db_assets (env_db env) !! as_vchAsset pa = Some asset -> as_vchAsset asset = as_vchAsset pa -> as_vchAsset pa <> [] -> as_vchAliasOrAddress pa <> [] ->
  exists env' asset', run fee av ow txHash (Some (pa, h)) pay args vchAlias nHeight OP_ASSET_TRANSFER env = Ends tt env'
  /\ db_assets (env_db env') = <[as_vchAsset pa := asset']> (db_assets (env_db env)) /\ db_current (env_db env') = db_current (env_db env)
  /\ as_vchAliasOrAddress asset' = as_vchAliasOrAddress pa /\ as_nBalance asset' = as_nBalance asset
  /\ as_listAllocationInputs asset' = as_listAllocationInputs asset /\ as_fInterestRate asset' = as_fInterestRate asset
  /\ as_nMaxSupply asset' = as_nMaxSupply asset /\ as_nTotalSupply asset' = as_nBalance asset.
Proof.
  intros Hf Hn Hne Ho. eexists _, (set_as_written txHash (u32 nHeight) (asset_transfer pa asset)). split.
  - unfold run, CheckAssetInputs, connect_asset, apply_asset, mbind, M_bind, reads, read_payload. cbn [andb Z.eqb OP_ASSET_TRANSFER OP_ASSET_SEND mbind option_bind]. cbn.
    rewrite Hf. rewrite bool_decide_eq_true_2 by done. cbn. reflexivity.
  - cbn. rewrite (bool_decide_eq_false_2 (as_vchAliasOrAddress pa = [])) by done. split_and!; done.
Qed.

(** What an update in a block can change.  When the handler ends, the owner has signed; name, symbol, decimals,
    use of ranges and the right to adjust the rate are as they were, and the rate too without that right.  The balance
    grows by the tokens added.  The supply, which must be in range and within the maximum recorded so far, is the
    payload's supply plus the tokens added, and the maximum is the payload's from then on.  With ranges in the payload,
    which must start past the recorded supply, the asset's numbers are those it had and those added; without ranges
    in the payload it is left with none. *)
Theorem asset_update_changes `{RangeSort} fee av ow txHash pa h pay args vchAlias nHeight env env' asset :
  db_assets (env_db env) !! as_vchAsset pa = Some asset -> as_vchAsset asset = as_vchAsset pa -> as_vchAsset pa <> [] ->
  Forall small_range (as_listAllocationInputs asset ++ as_listAllocationInputs pa) ->
  run fee av ow txHash (Some (pa, h)) pay args vchAlias nHeight OP_ASSET_UPDATE env = Ends tt env' ->
  owner_signs ow vchAlias asset /\ db_current (env_db env') = db_current (env_db env) /\ exists asset' inc,
  db_assets (env_db env') = <[as_vchAsset pa := asset']> (db_assets (env_db env))
  /\ as_vchAsset asset' = as_vchAsset asset /\ as_vchSymbol asset' = as_vchSymbol asset /\ as_nPrecision asset' = as_nPrecision asset
  /\ as_bUseInputRanges asset' = as_bUseInputRanges asset /\ as_bCanAdjustInterestRate asset' = as_bCanAdjustInterestRate asset
  /\ (as_bCanAdjustInterestRate asset = false -> SFeqb (as_fInterestRate asset') (as_fInterestRate asset) = true)
  /\ as_nBalance asset' = as_nBalance asset + inc /\ as_nTotalSupply asset' = as_nTotalSupply pa + inc
  /\ as_nTotalSupply asset' <= as_nMaxSupply asset /\ as_nMaxSupply asset' = as_nMaxSupply pa
  /\ (if decide (as_listAllocationInputs pa = []) then inc = as_nBalance pa /\ as_listAllocationInputs asset' = []
      else inc = validateRangesAndGetCount (as_listAllocationInputs pa) /\ Forall (fun r => as_nTotalSupply asset <= r_start r) (as_listAllocationInputs pa)
           /\ gapped (as_listAllocationInputs asset')
           /\ forall x, covers (as_listAllocationInputs asset') x <-> covers (as_listAllocationInputs asset) x \/ covers (as_listAllocationInputs pa) x).
Proof.
  intros Hf Hn Hne Hsm Hr. apply (run_ends _ _ _ _ _ _ _ _ _ _ pa null_allocation h) in Hr as (a & env1 & Ha & ->); [|done].
  apply (apply_asset_found _ _ _ _ _ _ _ _ _ asset) in Ha; [|done|congruence]. cbn in Ha.
  apply asset_update_ends in Ha as (-> & Hs & inc & ranges & -> & _ & Hmax & Hrate & Hc). split_and!; [done|done|].
  eexists _, inc. split; [cbn; reflexivity|]. cbn. split_and!; try done. destruct Hc as [(E & -> & ->)|(E & Hu & Hst & -> & Hz & ->)].
  - by rewrite decide_True.
  - rewrite decide_False by done. destruct (mergeRanges_ok _ Hsm) as (s & out & Em & _ & G & _ & C). rewrite Em. cbn [snd]. split_and!; try done.
    intros x. by rewrite C, covers_app.
Qed.

(** The maximum supply does not bound what is minted.  The owner of an asset without ranges can update it any
    number of times, each time with a payload that gives 0 as the supply and [n] as the tokens to add: the update
    passes the checks of the memory pool, it ends in a block each time, and the asset has [n] tokens more, as long as
    the balance fits, while its maximum stays what it was. *)
Theorem asset_supply_unbounded `{RangeSort} fee av ow txHash h pay nHeight env asset n k :
  let name := as_vchAsset asset in let p := as_nPrecision asset in
  name <> [] -> db_assets (env_db env) !! name = Some asset -> as_bUseInputRanges asset = false -> 0 <= p <= 8 ->
  SFeqb (as_fInterestRate asset) (as_fInterestRate asset) = true -> rate_out_of_range (as_fInterestRate asset) = false ->
  ow (as_vchAliasOrAddress asset) = true -> 0 < n <= as_nMaxSupply asset -> AssetRange_units (n / 10 ^ p) false = true ->
  0 <= as_nBalance asset -> as_nBalance asset + Z.of_nat (S k) * n < 2 ^ 63 ->
  CheckAssetInputs fee av ow false txHash (Some (mint asset n, h)) pay OP_ASSET_UPDATE [h] [] true nHeight false env = Ends tt env
  /\ exists env' asset', times (S k) (run fee av ow txHash (Some (mint asset n, h)) pay [h] [] nHeight OP_ASSET_UPDATE) env = Ends tt env'
    /\ db_assets (env_db env') !! name = Some asset' /\ as_nBalance asset' = as_nBalance asset + Z.of_nat (S k) * n /\ as_nMaxSupply asset' = as_nMaxSupply asset.
Proof.
  intros name p Hne Hf Hu Hp Hq Hrate Ho Hn Hrange Hb0 Hb. split.
  - unfold CheckAssetInputs. cbn -[rate_out_of_range]. rewrite bool_decide_eq_true_2 by done. unfold check_update. cbn -[rate_out_of_range].
    rewrite (proj2 (Z.ltb_ge n 0)) by lia. by rewrite Hrate.
  - pose proof (Build_mintable asset name (as_vchAliasOrAddress asset) p (as_nMaxSupply asset) (as_fInterestRate asset) eq_refl eq_refl Hu eq_refl eq_refl eq_refl) as Hm.
    apply (times_mint fee av ow txHash h pay [h] nHeight (S k) env asset asset name _ p _ _ n Hm Hm); done.
Qed.

(** A send of ranges from an asset to one holder, in a block.  When the handler ends, the owner has signed, the
    ranges sent were the asset's, they are the receiver's then and the asset's no more, no other record changes,
    and both records count their numbers: every number has one owner. *)
Theorem asset_send_range `{RangeSort} fee av ow txHash pay al h args vchAlias nHeight env env' asset to ranges :
  let name := aa_vchAsset al in let u := (name, to) in
  let receiver := default (new_allocation u nHeight (as_fInterestRate asset)) (db_current (env_db env) !! u) in
  keyed (db_current (env_db env)) -> db_assets (env_db env) !! name = Some asset -> as_vchAsset asset = name -> name <> [] ->
  aa_listSendingAllocationAmounts al = [] -> aa_listSendingAllocationInputs al = [(to, ranges)] -> good_asset asset -> good_record receiver ->
  (forall x, covers (aa_listAllocationInputs receiver) x -> ~ covers (as_listAllocationInputs asset) x) ->
  Forall (fun r => 0 <= r_start r < 2 ^ 32 /\ 0 <= r_end r < 2 ^ 32) ranges -> Forall (fun r => r_start r <> 0) (tail ranges) ->
  run fee av ow txHash pay (Some (al, h)) args vchAlias nHeight OP_ASSET_SEND env = Ends tt env' ->
  owner_signs ow vchAlias asset /\ (forall x, covers ranges x -> covers (as_listAllocationInputs asset) x)
  /\ exists asset' r, db_assets (env_db env') = <[name := asset']> (db_assets (env_db env)) /\ db_current (env_db env') = <[u := r]> (db_current (env_db env))
  /\ good_asset asset' /\ good_record r /\ as_vchAliasOrAddress asset' = as_vchAliasOrAddress asset
  /\ (forall x, covers (aa_listAllocationInputs r) x <-> covers (aa_listAllocationInputs receiver) x \/ covers ranges x)
  /\ (forall x, covers (as_listAllocationInputs asset') x <-> covers (as_listAllocationInputs asset) x /\ ~ covers ranges x).
Proof.
  intros name u receiver K Hf Hn Hne Hl Hi Hg Hgr Hfree Hb Hz Hr. apply (run_ends _ _ _ _ _ _ _ _ _ _ null_asset al h) in Hr as (a & env1 & Ha & ->); [|done].
  apply (apply_asset_found _ _ _ _ _ _ _ _ _ asset) in Ha; [|done|congruence]. cbn in Ha.
  apply (asset_send_range_ends _ _ _ _ _ _ _ to ranges) in Ha as (Hs & Hu & Hv & Hc); [|done..].
  apply credit_one_range in Hc as (Hin & r & s & d & l & Ht & -> & ->). set (memo := aa_vchMemo al) in *.
  destruct (one_range_checked (holding memo asset) ranges Hg Hb Hz Hv Hin) as (Hrn & Hw & Hd & Ev & Hle & Hsub). rewrite Ev in Ht.
  assert (receiver_of nHeight u asset env = receiver) as Er by done. fold name in Ht. fold u in Ht. rewrite Er in Ht.
  apply transfer_ranges_ok in Ht as (G1 & G2 & T1 & _ & C1 & C2); try done.
  assert (tuple_of receiver = u) as Tu by (rewrite <- Er; by apply receiver_of_ok).
  split_and!; [done|done|]. eexists _, r. split; [cbn; by rewrite Hn|]. split; [|split_and!; done].
  cbn [env_db with_db WriteAsset db_current WriteAssetAllocation]. by rewrite T1, Tu.
Qed.

(** ** Witnesses *)

#[local] Existing Instance stable_sort.

(** An asset of the first holder with 100 tokens, in a block at height 10 with the transaction 7. *)
Definition demo_stock (ranges : bool) : CAsset :=
  {| as_vchAsset := [65]; as_vchSymbol := [65]; as_vchAliasOrAddress := [1]; as_listAllocationInputs := if ranges then [range 1 100] else [];
     as_txHash := 0; as_nHeight := 0; as_vchPubData := []; as_sCategory := []; as_nBalance := 100; as_nTotalSupply := 100; as_nMaxSupply := 1000;
     as_bUseInputRanges := ranges; as_nPrecision := 0; as_fInterestRate := S754_zero false; as_bCanAdjustInterestRate := false |}.

Definition stock_env (ranges : bool) : Env :=
  {| reverted := ∅; env_db := {| db_current := ∅; db_confirmed := ∅; db_arrivals := ∅;
       db_assets := {[[65] := demo_stock ranges]}; assetAllocationConflicts := ∅ |} |}.

Definition after {A} (r : Result A) (env : Env) : Env := match r with Ends _ e => e | _ => env end.

Definition run_send (pa : CAssetAllocation) (env : Env) : Result unit :=
  run 0 (fun _ => false) (fun _ => true) 7 None (Some (pa, [])) [[]] [] 10 OP_ASSET_SEND env.
Definition run_update (pa : CAsset) (env : Env) : Result unit :=
  run 0 (fun _ => false) (fun _ => true) 7 (Some (pa, [])) None [[]] [] 10 OP_ASSET_UPDATE env.

Lemma stock_keyed ranges : keyed (db_current (env_db (stock_env ranges))).
Proof. intros t a Ht. change ((∅ : gmap CAssetAllocationTuple CAssetAllocation) !! t = Some a) in Ht. by rewrite lookup_empty in Ht. Qed.

Definition demo_send : CAssetAllocation := demo_payload [1] [] [] [([2], 30); ([3], 20); ([2], 5)].

Lemma asset_send_conserves_witness :
  let e := after (run_send demo_send (stock_env false)) (stock_env false) in
  total_balance (db_current (env_db e)) + 45 = 100 /\ balance_at (db_current (env_db e)) ([65], [2]) = 35.
Proof.
  destruct (asset_send_conserves 0 (fun _ => false) (fun _ => true) 7 None demo_send [] [[]] [] 10 (stock_env false)
    (after (run_send demo_send (stock_env false)) (stock_env false)) (demo_stock false) (stock_keyed false) eq_refl eq_refl ltac:(discriminate) ltac:(discriminate)
    ltac:(vm_compute; reflexivity)) as (_ & _ & _ & _ & B & T).
  cbv zeta. split; [|exact (eq_trans (B ([65], [2])) ltac:(vm_compute; reflexivity))].
  exact (eq_trans T ltac:(vm_compute; reflexivity)).
Defined.

(** The second holder, who owns no input, takes the asset. *)
Definition demo_theft : CAsset :=
  {| as_vchAsset := [65]; as_vchSymbol := []; as_vchAliasOrAddress := [2]; as_listAllocationInputs := []; as_txHash := 0; as_nHeight := 0;
     as_vchPubData := []; as_sCategory := []; as_nBalance := 0; as_nTotalSupply := 0; as_nMaxSupply := 0; as_bUseInputRanges := false;
     as_nPrecision := 0; as_fInterestRate := S754_zero false; as_bCanAdjustInterestRate := false |}.

Lemma asset_transfer_unsigned_witness : exists env' asset',
  run 0 (fun _ => false) (fun _ => false) 7 (Some (demo_theft, [])) None [[]] [] 10 OP_ASSET_TRANSFER (stock_env false) = Ends tt env'
  /\ db_assets (env_db env') !! [65] = Some asset' /\ as_vchAliasOrAddress asset' = [2] /\ as_nBalance asset' = 100.
Proof.
  destruct (asset_transfer_unsigned 0 (fun _ => false) (fun _ => false) 7 demo_theft [] None [[]] [] 10 (stock_env false) (demo_stock false)
    eq_refl eq_refl ltac:(discriminate) ltac:(discriminate)) as (env' & asset' & E & F & _ & O & B & _).
  exists env', asset'. split_and!; [exact E| |exact O|exact B]. rewrite F. apply lookup_insert_eq.
Defined.

(** An update that adds nothing, as the RPC interface makes it: every range of the asset is lost. *)
Definition demo_update : CAsset := set_issue 0 100 1000 (mint (demo_stock true) 0).

Lemma asset_update_changes_witness :
  let e := after (run_update demo_update (stock_env true)) (stock_env true) in
  exists asset', db_assets (env_db e) !! [65] = Some asset' /\ as_nBalance asset' = 100 + 0 /\ as_listAllocationInputs asset' = [].
Proof.
  destruct (asset_update_changes 0 (fun _ => false) (fun _ => true) 7 demo_update [] None [[]] [] 10 (stock_env true)
    (after (run_update demo_update (stock_env true)) (stock_env true)) (demo_stock true)) as (_ & _ & asset' & inc & F & _ & _ & _ & _ & _ & _ & B & _ & _ & _ & R);
    [reflexivity|reflexivity|discriminate| |vm_compute; reflexivity|].
  { repeat constructor; unfold small_range, wf_range; cbn; lia. }
  rewrite decide_True in R by reflexivity. destruct R as [-> R]. exists asset'. cbv zeta. split_and!; [|exact B|exact R]. rewrite F. apply lookup_insert_eq.
Defined.

Lemma asset_supply_unbounded_witness : exists env' asset',
  times 11 (run 0 (fun _ => false) (fun _ => true) 7 (Some (mint (demo_stock false) 1000, [])) None [[]] [] 10 OP_ASSET_UPDATE) (stock_env false) = Ends tt env'
  /\ db_assets (env_db env') !! [65] = Some asset' /\ as_nBalance asset' = 100 + Z.of_nat 11 * 1000 /\ as_nMaxSupply asset' = 1000.
Proof.
  exact (proj2 (asset_supply_unbounded 0 (fun _ => false) (fun _ => true) 7 [] None 10 (stock_env false) (demo_stock false) 1000 10
    ltac:(discriminate) eq_refl eq_refl ltac:(cbn; lia) ltac:(vm_compute; reflexivity) ltac:(vm_compute; reflexivity) eq_refl ltac:(cbn; lia)
    ltac:(vm_compute; reflexivity) ltac:(cbn; lia) ltac:(cbn; lia))).
Defined.

Definition demo_send_ranges (inputs : list (vch * list CRange)) : CAssetAllocation := demo_payload [1] [] inputs [].

Lemma demo_stock_good : good_asset (demo_stock true).
Proof. split_and!; [repeat constructor; unfold small_range, wf_range; cbn; lia|apply (bool_decide_unpack _); exact I|reflexivity]. Qed.

Lemma asset_send_range_witness :
  let e := after (run_send (demo_send_ranges [([2], [range 11 20])]) (stock_env true)) (stock_env true) in
  exists asset' r, db_assets (env_db e) !! [65] = Some asset' /\ db_current (env_db e) !! ([65], [2]) = Some r
  /\ covers (aa_listAllocationInputs r) 15 /\ ~ covers (as_listAllocationInputs asset') 15 /\ covers (as_listAllocationInputs asset') 21.
Proof.
  destruct (asset_send_range 0 (fun _ => false) (fun _ => true) 7 None (demo_send_ranges [([2], [range 11 20])]) [] [[]] [] 10 (stock_env true)
    (after (run_send (demo_send_ranges [([2], [range 11 20])]) (stock_env true)) (stock_env true)) (demo_stock true) [2] [range 11 20])
    as (_ & _ & asset' & r & F & C & _ & _ & _ & R1 & R2); [exact (stock_keyed true)|reflexivity|reflexivity|discriminate|reflexivity|reflexivity|exact demo_stock_good| | | | |vm_compute; reflexivity|].
  - split_and!; [constructor|constructor|reflexivity].
  - intros x (r & Hr & _). exact (False_ind _ (not_elem_of_nil r Hr)).
  - repeat constructor; cbn; lia.
  - constructor.
  - exists asset', r. cbv zeta. split_and!; [rewrite F; apply lookup_insert_eq|rewrite C; apply lookup_insert_eq|apply R1; right|intros Hc; apply R2 in Hc as [_ Hc]; apply Hc|apply R2; split].
    + exists (range 11 20). split; [by left|unfold in_range; cbn; lia].
    + exists (range 11 20). split; [by left|unfold in_range; cbn; lia].
    + exists (range 1 100). split; [by left|unfold in_range; cbn; lia].
    + intros (s & [->|Hs]%elem_of_cons & Hx); [unfold in_range in Hx; cbn in Hx; lia|by apply not_elem_of_nil in Hs].
Defined.

(** ** Sends to two receivers *)

(** Of an asset with the numbers 1 to 50 and 61 to 110, the first range sent to two receivers goes to both, and the
    asset is left with the second range and a balance of 0: a range taken as a whole stays among the asset's, against
    which the next one is checked. *)
Definition split_env : Env :=
  with_db (WriteAsset (set_as_ranges [range 1 50; range 61 110] (demo_stock true)) (env_db (stock_env true))) (stock_env true).

Example asset_range_twice :
  let e := after (run_send (demo_send_ranges [([2], [range 1 50]); ([3], [range 1 50])]) split_env) split_env in
  (map (fun a => (aa_vchAliasOrAddress a.2, aa_nBalance a.2, aa_listAllocationInputs a.2)) (map_to_list (db_current (env_db e))),
   option_map (fun a => (as_nBalance a, as_listAllocationInputs a)) (db_assets (env_db e) !! [65]))
  = ([([3], 50, [range 1 50]); ([2], 50, [range 1 50])], Some (0, [range 61 110])).
Proof. vm_compute. reflexivity. Qed.
