(* ===== verification/Standard.v ===== *)
(** * Standard scripts and relay policy

    Models [src/src/script/standard.cpp] and [src/src/policy/policy.cpp]: the templates of scripts, the destinations
    of a script and the scripts of a destination, and which transactions a node relays.

    A script that may be a service's is stripped of its prefix first, as [Script] has it.  The hash of a script or a
    key, the size of a transaction on the network, the interpreter's cryptography and the node's options are
    parameters. *)

From stdpp Require Import gmap strings.
From S2P Require Import Prelude Amount Script Transaction Serialize Coins TxVerify Interpreter Base58.

(** ** Templates *)

Inductive txnouttype := TX_NONSTANDARD | TX_PUBKEY | TX_PUBKEYHASH | TX_SCRIPTHASH | TX_MULTISIG | TX_NULL_DATA.
#[export] Instance txnouttype_eq_dec : EqDecision txnouttype.
Proof. solve_decision. Defined.

(** Opcodes that only templates hold. *)
Definition OP_SMALLINTEGER : Z := 0xfa.
Definition OP_PUBKEYS : Z := 0xfb.
Definition OP_PUBKEYHASH : Z := 0xfd.
Definition OP_PUBKEY : Z := 0xfe.

(** The multimap is in the order of the type. *)
Definition mTemplates : list (txnouttype * list Z) :=
  [(TX_PUBKEY, [OP_PUBKEY; OP_CHECKSIG]);
   (TX_PUBKEYHASH, [OP_DUP; OP_HASH160; OP_PUBKEYHASH; OP_EQUALVERIFY; OP_CHECKSIG]);
   (TX_MULTISIG, [OP_SMALLINTEGER; OP_PUBKEYS; OP_SMALLINTEGER; OP_CHECKMULTISIG])].

Definition key_size (vch : list Z) : bool := (33 <=? length vch)%nat && (length vch <=? 65)%nat.
Definition is_small (opcode : Z) : bool := (opcode =? OP_0) || ((opcode >=? OP_1) && (opcode <=? OP_16)).

(** The inner loop over public keys: the last read and the solutions. *)
Fixpoint pubkeys_loop (fuel : nat) (r : GetOpResult) (vSolutionsRet : list (list Z)) : GetOpResult * list (list Z) :=
  match fuel with
  | O => (r, vSolutionsRet)
  | S fuel =>
      if key_size (vchRet r) then
        let r' := GetOp2 (pcRet r) in
        if negb (fRet r') then (r', vSolutionsRet ++ [vchRet r]) else pubkeys_loop fuel r' (vSolutionsRet ++ [vchRet r])
      else (r, vSolutionsRet)
  end.

(** What one instruction of the template asks of one of the script; [None] is the [break]. *)
Definition match_op (r1 r2 : GetOpResult) (vSolutionsRet : list (list Z)) : option (list (list Z)) :=
  if opcodeRet r2 =? OP_PUBKEY then if key_size (vchRet r1) then Some (vSolutionsRet ++ [vchRet r1]) else None
  else if opcodeRet r2 =? OP_PUBKEYHASH then if (length (vchRet r1) =? 20)%nat then Some (vSolutionsRet ++ [vchRet r1]) else None
  else if opcodeRet r2 =? OP_SMALLINTEGER then
    if is_small (opcodeRet r1) then n ← DecodeOP_N (opcodeRet r1); Some (vSolutionsRet ++ [[n]]) else None
  else if bool_decide (opcodeRet r1 = opcodeRet r2) && bool_decide (vchRet r1 = vchRet r2) then Some vSolutionsRet else None.

Fixpoint match_loop (fuel : nat) (pc1 pc2 : list Z) (vSolutionsRet : list (list Z)) : option (list (list Z)) :=
  match fuel with
  | O => None
  | S fuel =>
      if (length pc1 =? 0)%nat && (length pc2 =? 0)%nat then Some vSolutionsRet
      else
        let r1 := GetOp2 pc1 in
        if negb (fRet r1) then None
        else
          let r2 := GetOp2 pc2 in
          if negb (fRet r2) then None
          else if opcodeRet r2 =? OP_PUBKEYS then
            let '(r1, vSolutionsRet) := pubkeys_loop (length pc1) r1 vSolutionsRet in
            let r2 := GetOp2 (pcRet r2) in
            if negb (fRet r2) then None
            else vSolutionsRet ← match_op r1 r2 vSolutionsRet; match_loop fuel (pcRet r1) (pcRet r2) vSolutionsRet
          else vSolutionsRet ← match_op r1 r2 vSolutionsRet; match_loop fuel (pcRet r1) (pcRet r2) vSolutionsRet
  end.

(** The first byte of the first and of the last solution. *)
Definition front_byte (l : list (list Z)) : Z := match l with (b :: _) :: _ => b | _ => 0 end.
Definition back_byte (l : list (list Z)) : Z := match last l with Some (b :: _) => b | _ => 0 end.

Fixpoint scan_templates (l : list (txnouttype * list Z)) (script1 : list Z) : bool * txnouttype * list (list Z) :=
  match l with
  | [] => (false, TX_NONSTANDARD, [])
  | (t, script2) :: l =>
      match match_loop (S (length script2)) script1 script2 [] with
      | Some sols =>
          if bool_decide (t = TX_MULTISIG) then
            let m := front_byte sols in let n := back_byte sols in
            if (m <? 1) || (n <? 1) || (m >? n) || negb (Z.of_nat (length sols) - 2 =? n) then (false, t, sols) else (true, t, sols)
          else (true, t, sols)
      | None => scan_templates l script1
      end
  end.

(** What [Solver] returns, the type and the solutions.  The script is stripped again by [IsPayToScriptHash], while the bytes 2
    to 21 are taken from the script stripped once. *)
Definition Solver (scriptPubKeyIn : list Z) : bool * txnouttype * list (list Z) :=
  let scriptPubKey := strip_service scriptPubKeyIn in
  if IsPayToScriptHash scriptPubKey then (true, TX_SCRIPTHASH, [take 20 (drop 2 scriptPubKey)])
  else if (1 <=? length scriptPubKey)%nat && byte_at scriptPubKey 0 OP_RETURN && IsPushOnly (drop 1 scriptPubKey) then (true, TX_NULL_DATA, [])
  else scan_templates mTemplates scriptPubKey.

(** ** Destinations *)

Section Destinations.
(** [CPubKey::GetID] and [CScriptID(script)] hash with this. *)
Variable Hash160 : list Z -> list Z.

(** [None]: the function returns false. *)
Definition ExtractDestination (scriptPubKey : list Z) : option CTxDestination :=
  match Solver scriptPubKey with
  | (true, TX_PUBKEY, sol :: _) => if pubkey_IsValid sol then Some (CKeyID (Hash160 sol)) else None
  | (true, TX_PUBKEYHASH, sol :: _) => Some (CKeyID sol)
  | (true, TX_SCRIPTHASH, sol :: _) => Some (CScriptID sol)
  | _ => None
  end.

(** The result, the type, the addresses and [nRequiredRet] where it is set. *)
Definition ExtractDestinations (scriptPubKey : list Z) : bool * txnouttype * list CTxDestination * option Z :=
  match Solver scriptPubKey with
  | (false, typeRet, _) => (false, typeRet, [], None)
  | (true, TX_NULL_DATA, _) => (false, TX_NULL_DATA, [], None)
  | (true, TX_MULTISIG, sols) =>
      let addressRet := map (fun k => CKeyID (Hash160 k)) (filter (fun k => pubkey_IsValid k) (take (length sols - 2) (drop 1 sols))) in
      (negb (length addressRet =? 0)%nat, TX_MULTISIG, addressRet, Some (front_byte sols))
  | (true, typeRet, _) =>
      match ExtractDestination scriptPubKey with
      | Some address => (true, typeRet, [address], Some 1)
      | None => (false, typeRet, [], Some 1)
      end
  end.

Definition GetScriptForDestination (dest : CTxDestination) : list Z :=
  match dest with
  | CNoDestination => []
  | CKeyID keyID => push_data [OP_DUP; OP_HASH160] keyID ++ [OP_EQUALVERIFY; OP_CHECKSIG]
  | CScriptID scriptID => push_data [OP_HASH160] scriptID ++ [OP_EQUAL]
  end.

Definition GetScriptForRawPubKey (pubKey : list Z) : list Z := push_data [] pubKey ++ [OP_CHECKSIG].

(** [None] is the assertion of [EncodeOP_N]. *)
Definition GetScriptForMultisig (nRequired : Z) (keys : list (list Z)) : option (list Z) :=
  m ← EncodeOP_N nRequired;
  n ← EncodeOP_N (Z.of_nat (length keys));
  Some (foldl push_data [m] keys ++ [n; OP_CHECKMULTISIG]).

End Destinations.

(** ** Policy *)

Definition MAX_STANDARD_VERSION : Z := 2.
Definition MINERIUM_TX_VERSION : Z := 0x7400.
Definition MAX_P2SH_SIGOPS : Z := 15.

Section Policy.
(** [fAcceptDatacarrier], [nMaxDatacarrierBytes], [fIsBareMultisigStd] and [dustRelayFee]. *)
Variable fAcceptDatacarrier : bool.
Variable nMaxDatacarrierBytes : Z.
Variable fIsBareMultisigStd : bool.
Variable dustRelayFee : CFeeRate.
Variable timeToPrune expired : list Z -> bool.

Definition IsStandard (scriptPubKey : list Z) : bool * txnouttype :=
  match Solver scriptPubKey with
  | (false, whichType, _) => (false, whichType)
  | (true, whichType, vSolutions) =>
      if bool_decide (whichType = TX_MULTISIG) then
        let m := front_byte vSolutions in let n := back_byte vSolutions in
        if (n <? 1) || (n >? 3) then (false, whichType) else if (m <? 1) || (m >? n) then (false, whichType) else (true, whichType)
      else if bool_decide (whichType = TX_NULL_DATA) && (negb fAcceptDatacarrier || (Z.of_nat (length scriptPubKey) >? u32 (nMaxDatacarrierBytes * 200)))
      then (false, whichType)
      else (negb (bool_decide (whichType = TX_NONSTANDARD)), whichType)
  end.

(** [CTxOut::GetDustThreshold]; [None] is an overflow. *)
Definition GetDustThreshold (o : CTxOut) : option Z :=
  if IsUnspendable (scriptPubKey o) then Some 0
  else
    fee ← GetFee dustRelayFee (u64 (Z.of_nat (length (ser_txout timeToPrune expired false o)) + 148));
    Prelude.checked (3 * fee).
Definition IsDust (o : CTxOut) : option bool := t ← GetDustThreshold o; Some (nValue o <? t).

Fixpoint check_standard_inputs (l : list CTxIn) : option string :=
  match l with
  | [] => None
  | i :: l =>
      if Z.of_nat (length (scriptSig i)) >? 1650 then Some "scriptsig-size"
      else if negb (IsPushOnly (scriptSig i)) then Some "scriptsig-not-pushonly"
      else check_standard_inputs l
  end.

(** The reason of a refusal, or the number of data outputs. *)
Fixpoint check_standard_outputs (nVersion : Z) (l : list CTxOut) (nDataOut : Z) : option (string + Z) :=
  match l with
  | [] => Some (inr nDataOut)
  | o :: l =>
      let '(ok, whichType) := IsStandard (scriptPubKey o) in
      if negb ok then Some (inl "scriptpubkey")
      else if bool_decide (whichType = TX_NULL_DATA) then
        if negb (nVersion =? MINERIUM_TX_VERSION) && (Z.of_nat (length (scriptPubKey o)) >? nMaxDatacarrierBytes)
        then Some (inl "scriptpubkey")
        else check_standard_outputs nVersion l (u32 (nDataOut + 1))
      else if bool_decide (whichType = TX_MULTISIG) && negb fIsBareMultisigStd then Some (inl "bare-multisig")
      else
        dust ← IsDust o;
        if dust : bool then Some (inl "dust") else check_standard_outputs nVersion l nDataOut
  end.

(** [Some None] is true, [Some (Some reason)] false; [None] is an overflow in the dust threshold. *)
Definition IsStandardTx (tx : CTransaction) : option (option string) :=
  if ((tx_nVersion tx >? MAX_STANDARD_VERSION) || (tx_nVersion tx <? 1)) && negb (tx_nVersion tx =? MINERIUM_TX_VERSION) then Some (Some "version")
  else if u32 (GetSerializeSize timeToPrune expired tx) >=? MAX_STANDARD_TX_SIZE then Some (Some "tx-size")
  else
    match check_standard_inputs (vin tx) with
    | Some reason => Some (Some reason)
    | None =>
        r ← check_standard_outputs (tx_nVersion tx) (vout tx) 0;
        match r with
        | inl reason => Some (Some reason)
        | inr nDataOut => if nDataOut >? 1 then Some (Some "multi-op-return") else Some None
        end
    end.

(** *** Inputs *)

Variable CheckLowS : list Z -> bool.
Variable RIPEMD160 SHA1 SHA256 HASH160 HASH256 : list Z -> list Z.

(** One input, from the script it spends; [None] is an abort of the interpreter. *)
Definition input_standard (prevScript scriptSig : list Z) : option bool :=
  match Solver prevScript with
  | (false, _, _) => Some false
  | (true, whichType, _) =>
      if bool_decide (whichType = TX_SCRIPTHASH) then
        match EvalScript CheckLowS RIPEMD160 SHA1 SHA256 HASH160 HASH256 [] scriptSig 0 BaseSignatureChecker with
        | Ok (subscript :: _) => Some (negb (GetSigOpCount subscript true >? MAX_P2SH_SIGOPS))
        | Ok [] | Err _ => Some false
        | Abort => None
        end
      else Some true
  end.

Context {V : Type} `{CCoinsView V}.

Fixpoint inputs_standard_loop (l : list CTxIn) (c : CCoinsViewCache V) : option (bool * CCoinsViewCache V) :=
  match l with
  | [] => Some (true, c)
  | i :: l =>
      let '(coin, c) := AccessCoin (prevout i) c in
      ok ← input_standard (scriptPubKey (out coin)) (scriptSig i);
      if negb (ok : bool) then Some (false, c) else inputs_standard_loop l c
  end.

Definition AreInputsStandard (tx : CTransaction) (c : CCoinsViewCache V) : option (bool * CCoinsViewCache V) :=
  if IsCoinBase tx then Some (true, c) else inputs_standard_loop (vin tx) c.

End Policy.

(** ** The forms of standard scripts, by their instructions *)

Inductive standard : list (Z * list Z) -> txnouttype -> list (list Z) -> Prop :=
  | std_pubkey o k : key_size k = true -> standard [(o, k); (OP_CHECKSIG, [])] TX_PUBKEY [k]
  | std_pubkeyhash o h : length h = 20%nat ->
      standard [(OP_DUP, []); (OP_HASH160, []); (o, h); (OP_EQUALVERIFY, []); (OP_CHECKSIG, [])] TX_PUBKEYHASH [h]
  | std_multisig om on m n (keys : list (Z * list Z)) :
      is_small om = true -> is_small on = true -> DecodeOP_N om = Some m -> DecodeOP_N on = Some n ->
      Forall (fun k => key_size k.2 = true) keys -> 1 <= m <= n -> Z.of_nat (length keys) = n ->
      standard ((om, []) :: keys ++ [(on, []); (OP_CHECKMULTISIG, [])]) TX_MULTISIG ([m] :: map snd keys ++ [[n]]).

(** ** Lemmas: reading *)

Lemma instrs_inv pc x l e : instrs pc (x :: l) e -> exists pc', GetOp2 pc = {| fRet := true; opcodeRet := x.1; vchRet := x.2; pcRet := pc' |} /\ instrs pc' l e.
Proof. intros Hi. inversion Hi as [|? ? ? Hr Hl]; subst. exists (pcRet (GetOp2 pc)). split; [|done]. destruct (GetOp2 pc) as [b o v p]. cbn in *. by subst b. Qed.

Lemma instrs_cons pc o d pc' l e : GetOp2 pc = {| fRet := true; opcodeRet := o; vchRet := d; pcRet := pc' |} -> instrs pc' l e -> instrs pc ((o, d) :: l) e.
Proof.
  intros E Hi. pose proof (instrs_step pc l e) as Hs. rewrite E in Hs. cbn in Hs. by apply Hs.
Qed.

Lemma instrs_nil pc : instrs pc [] [] -> pc = [].
Proof. by inversion 1. Qed.

Lemma instrs_end : instrs [] [] [].
Proof. by constructor. Qed.

Lemma GetOp2_data pc : OP_PUSHDATA4 < opcodeRet (GetOp2 pc) \/ opcodeRet (GetOp2 pc) = OP_0 -> vchRet (GetOp2 pc) = [].
Proof.
  unfold GetOp2. destruct pc as [|o pc]; [done|]. destruct (Z.leb_spec o OP_PUSHDATA4); [|done].
  destruct (read_push_size o pc) as [[n|] q] eqn:E; [|done]. case_if; [done|]. cbn [opcodeRet vchRet]. intros [?| ->]; [lia|].
  cbn in E. by injection E as <- <-.
Qed.

Lemma is_small_data pc : is_small (opcodeRet (GetOp2 pc)) = true -> vchRet (GetOp2 pc) = [].
Proof.
  unfold is_small, OP_1. intros [Ho|[Ho _]%andb_true_iff]%orb_true_iff; apply GetOp2_data; [right; by apply Z.eqb_eq|left; unfold OP_PUSHDATA4; zbool; lia].
Qed.

Lemma failed_op pc : fRet (GetOp2 pc) = false -> opcodeRet (GetOp2 pc) = OP_INVALIDOPCODE /\ vchRet (GetOp2 pc) = [].
Proof.
  unfold GetOp2. destruct pc as [|o pc]; [done|]. destruct (o <=? OP_PUSHDATA4); [|done]. destruct (read_push_size o pc) as [[n|] q]; [|done]. by case_if.
Qed.

(** ** Lemmas: matching *)

Lemma match_end f pc1 sols : match_loop (S f) pc1 [] sols = if (length pc1 =? 0)%nat then Some sols else None.
Proof. cbn [match_loop]. change (length ([] : list Z) =? 0)%nat with true. rewrite andb_true_r. destruct (length pc1 =? 0)%nat; [done|]. by destruct (fRet (GetOp2 pc1)). Qed.

Lemma match_cons f pc1 o pc2 sols :
  OP_PUSHDATA4 < o -> o <> OP_PUBKEYS ->
  match_loop (S f) pc1 (o :: pc2) sols =
    if fRet (GetOp2 pc1) then
      match match_op (GetOp2 pc1) {| fRet := true; opcodeRet := o; vchRet := []; pcRet := pc2 |} sols with
      | Some sols => match_loop f (pcRet (GetOp2 pc1)) pc2 sols
      | None => None
      end
    else None.
Proof.
  intros Ho Hk. cbn [match_loop]. rewrite andb_false_r. destruct (fRet (GetOp2 pc1)) eqn:Er; [|done]. cbn [negb].
  rewrite (GetOp2_opcode o) by done. cbn [fRet negb opcodeRet pcRet]. rewrite (proj2 (Z.eqb_neq o OP_PUBKEYS)) by done. reflexivity.
Qed.

(** One instruction of the script, matched by an opcode of the template that stands for itself. *)
Lemma match_opcode f pc1 o pc2 sols r :
  OP_PUSHDATA4 < o -> o < OP_SMALLINTEGER ->
  match_loop (S f) pc1 (o :: pc2) sols = Some r <->
  exists pc', GetOp2 pc1 = {| fRet := true; opcodeRet := o; vchRet := []; pcRet := pc' |} /\ match_loop f pc' pc2 sols = Some r.
Proof.
  intros Ho Hs. unfold OP_SMALLINTEGER in Hs. rewrite match_cons by (unfold OP_PUBKEYS; lia). unfold match_op. cbn [opcodeRet vchRet].
  rewrite !(proj2 (Z.eqb_neq o _)) by (unfold OP_PUBKEY, OP_PUBKEYHASH, OP_SMALLINTEGER; lia). split.
  - destruct (GetOp2 pc1) as [b o1 v1 p1]. cbn [fRet opcodeRet vchRet pcRet]. destruct b; [|done]. case_bool_decide as Eo; [|done]. cbn [andb].
    case_bool_decide as Ev; [|done]. subst o1 v1. eauto.
  - intros (pc' & -> & E). cbn [fRet opcodeRet vchRet pcRet]. rewrite (bool_decide_eq_true_2 (o = o)), (bool_decide_eq_true_2 (([] : list Z) = [])) by done. exact E.
Qed.

(** One that stands for data of a size. *)
Lemma match_data f pc1 o pc2 sols r (ok : list Z -> bool) :
  (o = OP_PUBKEY /\ ok = key_size) \/ (o = OP_PUBKEYHASH /\ ok = fun v => (length v =? 20)%nat) ->
  match_loop (S f) pc1 (o :: pc2) sols = Some r <->
  exists o' v pc', GetOp2 pc1 = {| fRet := true; opcodeRet := o'; vchRet := v; pcRet := pc' |} /\ ok v = true /\ match_loop f pc' pc2 (sols ++ [v]) = Some r.
Proof.
  intros Ho. rewrite match_cons by (destruct Ho as [[-> _]|[-> _]]; unfold OP_PUSHDATA4, OP_PUBKEY, OP_PUBKEYHASH, OP_PUBKEYS; lia).
  assert (match_op (GetOp2 pc1) {| fRet := true; opcodeRet := o; vchRet := []; pcRet := pc2 |} sols
    = if ok (vchRet (GetOp2 pc1)) then Some (sols ++ [vchRet (GetOp2 pc1)]) else None) as ->.
  { by destruct Ho as [[-> ->]|[-> ->]]. }
  destruct (GetOp2 pc1) as [b o1 v1 p1]. cbn. split.
  - destruct b; [|done]. destruct (ok v1) eqn:Ek; [|done]. intros E. by exists o1, v1, p1.
  - intros (o2 & v & pc2' & Eq & Hk & E). injection Eq as -> -> -> ->. by rewrite Hk.
Qed.

Lemma match_small r sols r' :
  match_op r {| fRet := true; opcodeRet := OP_SMALLINTEGER; vchRet := []; pcRet := r' |} sols
  = if is_small (opcodeRet r) then (n ← DecodeOP_N (opcodeRet r); Some (sols ++ [[n]])) else None.
Proof. reflexivity. Qed.

Lemma small_decodes o : is_small o = true -> exists n, DecodeOP_N o = Some n /\ 0 <= n <= 16.
Proof.
  unfold is_small, DecodeOP_N. intros Ho. destruct (o =? OP_0) eqn:E0; [exists 0; split; [done|lia]|]. cbn [orb] in Ho. rewrite Ho. eexists. split; [done|].
  unfold OP_1, OP_16 in *. zbool. lia.
Qed.

Lemma key_size_nil v : key_size v = true -> v <> [].
Proof. by intros E ->. Qed.

(** The inner loop takes the pushes of the size of a key. *)
Lemma pubkeys_loop_ok pc fuel sols :
  (length pc <= fuel)%nat ->
  exists keys pc', pubkeys_loop fuel (GetOp2 pc) sols = (GetOp2 pc', sols ++ map snd keys) /\ Forall (fun k => key_size k.2 = true) keys
  /\ key_size (vchRet (GetOp2 pc')) = false /\ forall l e, instrs pc' l e -> instrs pc (keys ++ l) e.
Proof.
  revert pc sols. induction fuel as [|fuel IH]; intros pc sols Hf.
  { destruct pc; [|cbn in Hf; lia]. exists [], []. cbn. rewrite app_nil_r. split_and!; done. }
  cbn [pubkeys_loop]. destruct (key_size (vchRet (GetOp2 pc))) eqn:Ek.
  - assert (fRet (GetOp2 pc) = true) as Er.
    { destruct (fRet (GetOp2 pc)) eqn:E; [done|]. apply failed_op in E as [_ E]. by rewrite E in Ek. }
    pose proof (GetOp2_shrinks pc (GetOp2_nonempty pc Er)). destruct (IH (pcRet (GetOp2 pc)) (sols ++ [vchRet (GetOp2 pc)])) as (keys & pc' & E & Hk & Hn & Hi); [lia|].
    exists ((opcodeRet (GetOp2 pc), vchRet (GetOp2 pc)) :: keys), pc'. split_and!; [|by constructor|done|intros l e Hl; cbn; apply instrs_step; [done|by apply Hi]].
    cbn [map snd]. rewrite <- app_assoc in E. cbn [app] in E. rewrite <- E.
    destruct (fRet (GetOp2 (pcRet (GetOp2 pc)))) eqn:Er'; [done|]. cbn [negb]. apply failed_op in Er' as [_ Ev].
    destruct fuel as [|fuel]; [done|]. cbn [pubkeys_loop]. by rewrite Ev.
  - exists [], pc. cbn. rewrite app_nil_r. split_and!; try done.
Qed.

Lemma keys_unique (keys keys' l l' : list (Z * list Z)) :
  Forall (fun k => key_size k.2 = true) keys -> Forall (fun k => key_size k.2 = true) keys' ->
  (forall x k, l = x :: k -> key_size x.2 = false) -> (forall x k, l' = x :: k -> key_size x.2 = false) ->
  keys ++ l = keys' ++ l' -> keys = keys' /\ l = l'.
Proof.
  intros H. revert keys'. induction H as [|x keys Hx _ IH]; intros keys' H' Hl Hl' E; destruct H' as [|y keys' Hy H']; cbn in E; [done|..].
  - subst l. specialize (Hl _ _ eq_refl). congruence.
  - subst l'. specialize (Hl' _ _ eq_refl). congruence.
  - injection E as -> E. by destruct (IH keys' H' Hl Hl' E) as [-> ->].
Qed.

Lemma match_all f pc r sols : match_loop (S f) pc [] sols = Some r <-> pc = [] /\ r = sols.
Proof.
  rewrite match_end. destruct pc; cbn; split; [by intros [= ->]|by intros [_ ->]|done|by intros [? _]].
Qed.

Lemma instrs_one pc o d pc' : GetOp2 pc = {| fRet := true; opcodeRet := o; vchRet := d; pcRet := pc' |} -> forall l, instrs pc' l [] -> instrs pc ((o, d) :: l) [].
Proof. intros E l Hl. by eapply instrs_cons. Qed.

Lemma pubkey_match s sols :
  match_loop 3 s [OP_PUBKEY; OP_CHECKSIG] [] = Some sols <-> exists o k, sols = [k] /\ key_size k = true /\ instrs s [(o, k); (OP_CHECKSIG, [])] [].
Proof.
  rewrite (match_data 2 s OP_PUBKEY _ _ _ key_size) by auto. split.
  - intros (o & v & p1 & E1 & Hk & Hm). apply match_opcode in Hm as (p2 & E2 & Hm); [|done..]. apply match_all in Hm as [-> ->].
    exists o, v. split_and!; [done|done|]. apply (instrs_one _ _ _ _ E1), (instrs_one _ _ _ _ E2), instrs_end.
  - intros (o & k & -> & Hk & Hi). apply instrs_inv in Hi as (p1 & E1 & Hi). apply instrs_inv in Hi as (p2 & E2 & Hi). apply instrs_nil in Hi as ->.
    exists o, k, p1. split_and!; [done|done|]. apply match_opcode; [done..|]. exists []. split; [done|]. by apply match_all.
Qed.

Lemma pubkeyhash_match s sols :
  match_loop 6 s [OP_DUP; OP_HASH160; OP_PUBKEYHASH; OP_EQUALVERIFY; OP_CHECKSIG] [] = Some sols <->
  exists o h, sols = [h] /\ length h = 20%nat /\ instrs s [(OP_DUP, []); (OP_HASH160, []); (o, h); (OP_EQUALVERIFY, []); (OP_CHECKSIG, [])] [].
Proof.
  rewrite match_opcode by done. split.
  - intros (p1 & E1 & Hm). apply match_opcode in Hm as (p2 & E2 & Hm); [|done..].
    apply (match_data 3 p2 OP_PUBKEYHASH _ _ _ (fun v => (length v =? 20)%nat)) in Hm as (o & h & p3 & E3 & Hh & Hm); [|auto].
    apply match_opcode in Hm as (p4 & E4 & Hm); [|done..]. apply match_opcode in Hm as (p5 & E5 & Hm); [|done..]. apply match_all in Hm as [-> ->].
    exists o, h. split_and!; [done|by apply Nat.eqb_eq|].
    apply (instrs_one _ _ _ _ E1), (instrs_one _ _ _ _ E2), (instrs_one _ _ _ _ E3), (instrs_one _ _ _ _ E4), (instrs_one _ _ _ _ E5), instrs_end.
  - intros (o & h & -> & Hh & Hi). apply instrs_inv in Hi as (p1 & E1 & Hi). apply instrs_inv in Hi as (p2 & E2 & Hi). apply instrs_inv in Hi as (p3 & E3 & Hi).
    apply instrs_inv in Hi as (p4 & E4 & Hi). apply instrs_inv in Hi as (p5 & E5 & Hi). apply instrs_nil in Hi as ->.
    exists p1. split; [done|]. apply match_opcode; [done..|]. exists p2. split; [done|].
    apply (match_data 3 p2 OP_PUBKEYHASH _ _ _ (fun v => (length v =? 20)%nat)); [auto|]. exists o, h, p3. split_and!; [done|by apply Nat.eqb_eq|].
    apply match_opcode; [done..|]. exists p4. split; [done|]. apply match_opcode; [done..|]. exists []. split; [done|]. by apply match_all.
Qed.

(** A small integer read by the loop. *)
Lemma small_op pc : is_small (opcodeRet (GetOp2 pc)) = true ->
  GetOp2 pc = {| fRet := true; opcodeRet := opcodeRet (GetOp2 pc); vchRet := []; pcRet := pcRet (GetOp2 pc) |}.
Proof.
  intros Hs. pose proof (is_small_data pc Hs) as Hd. destruct (fRet (GetOp2 pc)) eqn:Er; [|apply failed_op in Er as [Eo _]; by rewrite Eo in Hs].
  destruct (GetOp2 pc) as [b o v p]. cbn in *. congruence.
Qed.

Lemma match_op_small r p sols sols' :
  match_op r {| fRet := true; opcodeRet := OP_SMALLINTEGER; vchRet := []; pcRet := p |} sols = Some sols' <->
  is_small (opcodeRet r) = true /\ exists n, DecodeOP_N (opcodeRet r) = Some n /\ sols' = sols ++ [[n]].
Proof.
  rewrite match_small. destruct (is_small (opcodeRet r)) eqn:Es.
  - destruct (small_decodes _ Es) as (n & E & _). rewrite E. cbn. split; [intros [= <-]; eauto|by intros (_ & m & [= <-] & ->)].
  - split; [done|by intros [? _]].
Qed.

Lemma match_pubkeys f pc1 pc2 sols :
  match_loop (S f) pc1 (OP_PUBKEYS :: OP_SMALLINTEGER :: pc2) sols =
    if fRet (GetOp2 pc1) then
      let '(r1, sols) := pubkeys_loop (length pc1) (GetOp2 pc1) sols in
      match match_op r1 {| fRet := true; opcodeRet := OP_SMALLINTEGER; vchRet := []; pcRet := pc2 |} sols with
      | Some sols => match_loop f (pcRet r1) pc2 sols
      | None => None
      end
    else None.
Proof. cbn [match_loop]. rewrite andb_false_r. destruct (fRet (GetOp2 pc1)); [|done]. reflexivity. Qed.

Definition multisig_instrs (om on : Z) (keys : list (Z * list Z)) : list (Z * list Z) := (om, []) :: keys ++ [(on, []); (OP_CHECKMULTISIG, [])].

Lemma multisig_match s sols :
  match_loop 5 s [OP_SMALLINTEGER; OP_PUBKEYS; OP_SMALLINTEGER; OP_CHECKMULTISIG] [] = Some sols <->
  exists om on m n keys, is_small om = true /\ is_small on = true /\ DecodeOP_N om = Some m /\ DecodeOP_N on = Some n
  /\ Forall (fun k => key_size k.2 = true) keys /\ sols = [m] :: map snd keys ++ [[n]] /\ instrs s (multisig_instrs om on keys) [].
Proof.
  rewrite match_cons by done. split.
  - destruct (fRet (GetOp2 s)) eqn:E1; [|done]. destruct (match_op _ _ []) as [sols1|] eqn:Em; [|done]. apply match_op_small in Em as (H1 & m & D1 & ->).
    apply small_op in H1 as G1. set (om := opcodeRet (GetOp2 s)) in *. set (p1 := pcRet (GetOp2 s)) in *. rewrite match_pubkeys. destruct (fRet (GetOp2 p1)) eqn:E2; [|done].
    destruct (pubkeys_loop_ok p1 (length p1) ([] ++ [[m]])) as (keys & p2 & -> & Hk & _ & Hi); [done|].
    destruct (match_op (GetOp2 p2) _ _) as [sols2|] eqn:Em; [|done]. apply match_op_small in Em as (H2 & n & D2 & ->). apply small_op in H2 as G2.
    intros Hm. apply match_opcode in Hm as (p4 & G4 & Hm); [|done..]. apply match_all in Hm as [-> ->].
    exists om, (opcodeRet (GetOp2 p2)), m, n, keys. split_and!; try done. apply (instrs_one _ _ _ _ G1), Hi, (instrs_one _ _ _ _ G2), (instrs_one _ _ _ _ G4), instrs_end.
  - intros (om & on & m & n & keys & H1 & H2 & D1 & D2 & Hk & -> & Hi). unfold multisig_instrs in Hi. apply instrs_inv in Hi as (p1 & E1 & Hi). rewrite E1.
    cbn [fRet opcodeRet pcRet fst snd]. rewrite match_small. cbn [opcodeRet]. rewrite H1, D1. cbn [mbind option_bind]. rewrite match_pubkeys.
    assert (fRet (GetOp2 p1) = true) as ->. { destruct keys; cbn in Hi; apply instrs_inv in Hi as (q & Eq & _); by rewrite Eq. }
    destruct (pubkeys_loop_ok p1 (length p1) ([] ++ [[m]])) as (keys' & p2 & -> & Hk' & Hn & Hi'); [done|].
    destruct (instrs_total p2) as (l2 & e2 & Hi2). pose proof (Hi' _ _ Hi2) as Hi3. destruct (instrs_fun _ _ _ _ _ Hi Hi3) as [El <-].
    apply keys_unique in El as [<- <-]; [|done|done|by intros x k [= <- _]|].
    2: { intros x k ->. apply instrs_inv in Hi2 as (q & Eq & _). rewrite Eq in Hn. exact Hn. }
    apply instrs_inv in Hi2 as (q & Eq & Hi2). rewrite Eq. rewrite match_small. cbn [opcodeRet pcRet fst]. rewrite H2, D2. cbn [mbind option_bind].
    apply instrs_inv in Hi2 as (q2 & Eq2 & Hi2). apply instrs_nil in Hi2 as ->. apply match_opcode; [done..|]. exists []. split; [done|]. apply match_all. split; [done|].
    cbn. done.
Qed.

(** Which template a script matches. *)
Lemma scan_templates_ok b t sols : scan_templates mTemplates b = (true, t, sols) <-> exists l, instrs b l [] /\ standard l t sols.
Proof.
  unfold mTemplates. cbn [scan_templates length]. split.
  - destruct (match_loop 3 b _ []) as [s1|] eqn:E1.
    { apply pubkey_match in E1 as (o & k & -> & Hk & Hi). intros [= <- <-]. eexists. split; [exact Hi|]. by constructor. }
    destruct (match_loop 6 b _ []) as [s1|] eqn:E2.
    { apply pubkeyhash_match in E2 as (o & k & -> & Hk & Hi). intros [= <- <-]. eexists. split; [exact Hi|]. by constructor. }
    destruct (match_loop 5 b _ []) as [s1|] eqn:E3; [|done]. apply multisig_match in E3 as (om & on & m & n & keys & H1 & H2 & D1 & D2 & Hk & -> & Hi).
    rewrite bool_decide_eq_true_2 by done. unfold back_byte. rewrite app_comm_cons, last_snoc. cbn [front_byte app].
    destruct ((m <? 1) || _ || _ || _) eqn:Ec; [done|]. intros [= <- <-]. eexists. split; [exact Hi|].
    rewrite !Z.gtb_ltb, !orb_false_iff in Ec. destruct Ec as [[[C1 C2] C3] C4]. apply negb_false_iff in C4. cbn [length] in C4. rewrite length_app, length_map in C4. cbn [length] in C4. zbool.
    constructor; try done; lia.
  - intros (l & Hi & Hs). destruct Hs as [o k Hk|o h Hh|om on m n keys H1 H2 D1 D2 Hk Hmn Hn].
    + destruct (match_loop 3 b _ []) as [s1|] eqn:E1.
      * apply pubkey_match in E1 as (o' & k' & -> & _ & Hi'). destruct (instrs_fun _ _ _ _ _ Hi Hi') as [[= _ <-] _]. done.
      * assert (match_loop 3 b [OP_PUBKEY; OP_CHECKSIG] [] = Some [k]) by (apply pubkey_match; eauto). congruence.
    + destruct (match_loop 3 b _ []) as [s1|] eqn:E1.
      { apply pubkey_match in E1 as (o' & k' & -> & _ & Hi'). by destruct (instrs_fun _ _ _ _ _ Hi Hi') as [[=] _]. }
      assert (match_loop 6 b [OP_DUP; OP_HASH160; OP_PUBKEYHASH; OP_EQUALVERIFY; OP_CHECKSIG] [] = Some [h]) as -> by (apply pubkeyhash_match; eauto). done.
    + destruct (match_loop 3 b _ []) as [s1|] eqn:E1.
      { apply pubkey_match in E1 as (o' & k' & -> & Hk' & Hi'). destruct (instrs_fun _ _ _ _ _ Hi Hi') as [El _]. injection El as <- Ek _. by subst k'. }
      destruct (match_loop 6 b _ []) as [s1|] eqn:E2.
      { apply pubkeyhash_match in E2 as (o' & k' & -> & Hk' & Hi'). destruct (instrs_fun _ _ _ _ _ Hi Hi') as [El _]. injection El as -> _. done. }
      assert (match_loop 5 b [OP_SMALLINTEGER; OP_PUBKEYS; OP_SMALLINTEGER; OP_CHECKMULTISIG] [] = Some ([m] :: map snd keys ++ [[n]])) as ->.
      { apply multisig_match. exists om, on, m, n, keys. done. }
      rewrite bool_decide_eq_true_2 by done. unfold back_byte. rewrite app_comm_cons, last_snoc. cbn [front_byte app].
      assert ((m <? 1) || (n <? 1) || (m >? n) || negb (Z.of_nat (length ([m] :: map snd keys ++ [[n]])) - 2 =? n) = false) as ->; [|done].
      rewrite !Z.gtb_ltb, !orb_false_iff, negb_false_iff. cbn [length]. rewrite length_app, length_map. cbn [length].
      split_and!; [apply Z.ltb_ge|apply Z.ltb_ge|apply Z.ltb_ge|apply Z.eqb_eq]; lia.
Qed.

(** ** Lemmas: scripts of destinations *)

Lemma not_service_first o pc : OP_16 < o -> RemoveMineriumScript (o :: pc) = None.
Proof.
  intros Ho. assert (read_OP_N (o :: pc) = None) as E.
  { unfold read_OP_N. rewrite GetOp2_opcode by (unfold OP_16, OP_PUSHDATA4 in *; lia). cbn [fRet opcodeRet negb].
    rewrite Z.gtb_ltb, (proj2 (Z.ltb_lt OP_16 o)) by done. by rewrite orb_true_r. }
  unfold RemoveMineriumScript, RemoveAliasScriptPrefix, RemoveOfferScriptPrefix, RemoveCertScriptPrefix, RemoveEscrowScriptPrefix, RemoveAssetScriptPrefix,
    RemoveAssetAllocationScriptPrefix, DecodeAliasScript, DecodeOfferScript, DecodeCertScript, DecodeEscrowScript, DecodeAssetScript,
    DecodeAssetAllocationScript, decode_service. by rewrite E.
Qed.

(** A script as a service puts it in an output, or alone. *)
Inductive service_output : list Z -> list Z -> Prop :=
  | plain s : service_output s s
  | prefixed service op args drops s :
      service_op_ok service op = true -> Forall (fun a => Z.of_nat (length a) < 2 ^ 32) args ->
      drops <> [] -> Forall (fun x => is_drop x = true) drops -> service_output (service_prefix service op args drops ++ s) s.

Lemma service_output_strip s o pc :
  service_output s (o :: pc) -> OP_16 < o -> is_drop o = false -> strip_service s = o :: pc.
Proof.
  intros Hs Ho Hd. unfold strip_service. inversion Hs; subst; [by rewrite not_service_first|].
  rewrite RemoveMineriumScript_prefix by (rewrite ?GetOp2_opcode by (unfold OP_16, OP_PUSHDATA4 in *; lia); done).
  rewrite GetOp2_opcode by (unfold OP_16, OP_PUSHDATA4 in *; lia). cbn [pcRet]. by rewrite step_back_app.
Qed.

Lemma push_data_short s d : (length d < 76)%nat -> push_data s d = s ++ Z.of_nat (length d) :: d.
Proof.
  intros Hd. unfold push_data. rewrite (proj2 (Z.ltb_lt _ OP_PUSHDATA1)) by (unfold OP_PUSHDATA1; lia). rewrite wrap_small by (unfold in_u; lia). by rewrite <- app_assoc.
Qed.

Lemma Solver_key h s :
  length h = 20%nat -> service_output s (GetScriptForDestination (CKeyID h)) -> Solver s = (true, TX_PUBKEYHASH, [h]).
Proof.
  intros Hh Hs. cbn [GetScriptForDestination] in Hs. rewrite push_data_short in Hs by lia. cbn [app] in Hs. apply service_output_strip in Hs as Hb; [|done..].
  unfold Solver. rewrite Hb. assert (IsPayToScriptHash (OP_DUP :: OP_HASH160 :: Z.of_nat (length h) :: h ++ [OP_EQUALVERIFY; OP_CHECKSIG]) = false) as ->.
  { unfold IsPayToScriptHash, strip_service. rewrite not_service_first by done. cbn [default]. cbn [length]. by rewrite length_app, Hh. }
  change (byte_at (OP_DUP :: _) 0 OP_RETURN) with false. rewrite andb_false_r. cbn [andb].
  destruct (GetOp2_push h [OP_EQUALVERIFY; OP_CHECKSIG]) as (o & E & _); [lia|]. rewrite push_data_short in E by lia. cbn [app] in E.
  apply scan_templates_ok. eexists. split; [|by apply (std_pubkeyhash o)].
  apply (instrs_one _ OP_DUP [] _ (GetOp2_opcode OP_DUP _ eq_refl)), (instrs_one _ OP_HASH160 [] _ (GetOp2_opcode OP_HASH160 _ eq_refl)), (instrs_one _ o h _ E).
  apply (instrs_one _ OP_EQUALVERIFY [] _ (GetOp2_opcode OP_EQUALVERIFY _ eq_refl)), (instrs_one _ OP_CHECKSIG [] _ (GetOp2_opcode OP_CHECKSIG _ eq_refl)), instrs_end.
Qed.

Lemma p2sh_plain h : length h = 20%nat -> IsPayToScriptHash (OP_HASH160 :: 20 :: h ++ [OP_EQUAL]) = true.
Proof.
  intros Hh. unfold IsPayToScriptHash, strip_service. rewrite not_service_first by done. cbn [default]. cbn [length]. rewrite length_app, Hh.
  unfold byte_at. assert ((OP_HASH160 :: 20 :: h ++ [OP_EQUAL]) !!! 22%nat = OP_EQUAL) as ->; [|done].
  change ((h ++ [OP_EQUAL]) !!! 20%nat = OP_EQUAL). by rewrite lookup_total_app_r, Hh by lia.
Qed.

Lemma Solver_script h s :
  length h = 20%nat -> service_output s (GetScriptForDestination (CScriptID h)) -> Solver s = (true, TX_SCRIPTHASH, [h]).
Proof.
  intros Hh Hs. cbn [GetScriptForDestination] in Hs. rewrite push_data_short, Hh in Hs by lia. cbn [app Z.of_nat] in Hs. apply service_output_strip in Hs as Hb; [|done..].
  unfold Solver. rewrite Hb. change (Z.of_nat 20) with 20 in *. rewrite p2sh_plain by done.
  change (drop 2 (OP_HASH160 :: 20 :: h ++ [OP_EQUAL])) with (h ++ [OP_EQUAL]). by rewrite take_app_length'.
Qed.

Lemma key_size_push k rest : key_size k = true -> exists o, GetOp2 (push_data [] k ++ rest) = {| fRet := true; opcodeRet := o; vchRet := k; pcRet := rest |}.
Proof.
  intros [_ Hk%Nat.leb_le]%andb_true_iff. destruct (GetOp2_push k rest) as (o & E & _); [lia|]. eauto.
Qed.

Lemma pushes_instrs keys pc l : Forall (fun k => key_size k = true) keys -> instrs pc l [] ->
  exists ks, map snd ks = keys /\ instrs (concat (map (push_data []) keys) ++ pc) (ks ++ l) [].
Proof.
  intros Hk Hp. induction Hk as [|k keys Hk _ (ks & <- & IH)]; [by exists []|]. cbn [map concat]. rewrite <- app_assoc.
  destruct (key_size_push k (concat (map (push_data []) (map snd ks)) ++ pc) Hk) as (o & E). exists ((o, k) :: ks). split; [done|]. cbn. by apply (instrs_one _ _ _ _ E).
Qed.

Lemma foldl_push s keys : foldl push_data s keys = s ++ concat (map (push_data []) keys).
Proof. revert s. induction keys as [|k keys IH]; intros s; cbn [foldl map concat]; [by rewrite app_nil_r|]. by rewrite IH, (push_data_app s k), <- app_assoc. Qed.

Lemma EncodeOP_N_ok n : 1 <= n <= 16 -> EncodeOP_N n = Some (OP_1 + n - 1) /\ is_small (OP_1 + n - 1) = true /\ DecodeOP_N (OP_1 + n - 1) = Some n.
Proof.
  intros Hn. unfold EncodeOP_N, is_small. rewrite (proj2 (Z.geb_le n 0)), (proj2 (Z.leb_le n 16)), (proj2 (Z.eqb_neq n 0)) by lia. split; [done|]. unfold OP_1, OP_16 in *. split.
  - rewrite (proj2 (Z.geb_le _ 81)), (proj2 (Z.leb_le _ 96)) by lia. apply orb_true_r.
  - rewrite DecodeOP_N_small by (unfold OP_1, OP_16; lia). f_equal. unfold OP_1. lia.
Qed.

(** A multisignature script starts with a small integer, like a service prefix, but goes on with a key. *)
Lemma not_service_push o k rest : key_size k = true -> RemoveMineriumScript (o :: push_data [] k ++ rest) = None.
Proof.
  intros Hk. assert (forall n pc, read_OP_N (o :: push_data [] k ++ rest) = Some (n, pc) -> read_OP_N pc = None) as Hr.
  { intros n pc. unfold read_OP_N. destruct (decide (OP_PUSHDATA4 < o)) as [Ho|Ho].
    - rewrite GetOp2_opcode by done. cbn [fRet negb opcodeRet pcRet]. case_if; [done|]. destruct (DecodeOP_N o); [|done]. cbn. intros [= _ <-].
      apply andb_true_iff in Hk as [_ Hk%Nat.leb_le]. destruct (GetOp2_push k rest) as (o' & E & Ho'); [lia|]. rewrite E. cbn [fRet opcodeRet negb].
      rewrite (proj2 (Z.ltb_lt o' OP_1)) by (unfold OP_1, OP_PUSHDATA4 in *; lia). done.
    - destruct (fRet (GetOp2 (o :: push_data [] k ++ rest))) eqn:E; [|done]. cbn [negb].
      assert (opcodeRet (GetOp2 (o :: push_data [] k ++ rest)) = o) as ->.
      { revert E. unfold GetOp2. rewrite (proj2 (Z.leb_le o OP_PUSHDATA4)) by lia. destruct (read_push_size o _) as [[n'|] q]; [|done]. by case_if. }
      rewrite (proj2 (Z.ltb_lt o OP_1)) by (unfold OP_1, OP_PUSHDATA4 in *; lia). done. }
  unfold RemoveMineriumScript, RemoveAliasScriptPrefix, RemoveOfferScriptPrefix, RemoveCertScriptPrefix, RemoveEscrowScriptPrefix, RemoveAssetScriptPrefix,
    RemoveAssetAllocationScriptPrefix, DecodeAliasScript, DecodeOfferScript, DecodeCertScript, DecodeEscrowScript, DecodeAssetScript,
    DecodeAssetAllocationScript, decode_service. destruct (read_OP_N (o :: _)) as [[n pc]|]; [|done]. cbn [mbind option_bind]. rewrite (Hr n pc eq_refl).
  by repeat case_if.
Qed.

Lemma not_service_data k rest : Z.of_nat (length k) < 2 ^ 32 -> RemoveMineriumScript (push_data [] k ++ rest) = None.
Proof.
  intros Hk. assert (read_OP_N (push_data [] k ++ rest) = None) as E.
  { destruct (GetOp2_push k rest Hk) as (o & E & Ho). unfold read_OP_N. rewrite E. cbn [fRet opcodeRet negb].
    rewrite (proj2 (Z.ltb_lt o OP_1)) by (unfold OP_1, OP_PUSHDATA4 in *; lia). done. }
  unfold RemoveMineriumScript, RemoveAliasScriptPrefix, RemoveOfferScriptPrefix, RemoveCertScriptPrefix, RemoveEscrowScriptPrefix, RemoveAssetScriptPrefix,
    RemoveAssetAllocationScriptPrefix, DecodeAliasScript, DecodeOfferScript, DecodeCertScript, DecodeEscrowScript, DecodeAssetScript,
    DecodeAssetAllocationScript, decode_service. by rewrite E.
Qed.

Lemma valid_key_size k : pubkey_IsValid k = true -> length k = 33%nat \/ length k = 65%nat.
Proof.
  destruct k as [|h k]; [done|]. cbn [pubkey_IsValid]. intros [H0 H1]%andb_true_iff. apply negb_true_iff, Z.eqb_neq in H0. apply Z.eqb_eq in H1. revert H0 H1.
  unfold GetLen. case_if; [lia|]. case_if; lia.
Qed.

Lemma valid_keys_size keys : Forall (fun k => pubkey_IsValid k = true) keys -> Forall (fun k => key_size k = true) keys.
Proof. intros H. eapply Forall_impl; [exact H|]. cbn. intros k Hk. unfold key_size. by destruct (valid_key_size k Hk) as [-> | ->]. Qed.

Lemma Solver_raw_key k : pubkey_IsValid k = true -> Solver (GetScriptForRawPubKey k) = (true, TX_PUBKEY, [k]).
Proof.
  intros Hv. pose proof (valid_key_size k Hv) as Hl. assert (key_size k = true) as Hk by (unfold key_size; by destruct Hl as [-> | ->]).
  unfold Solver, GetScriptForRawPubKey, strip_service. rewrite not_service_data by lia. cbn [default].
  assert (IsPayToScriptHash (push_data [] k ++ [OP_CHECKSIG]) = false) as ->.
  { unfold IsPayToScriptHash, strip_service. rewrite not_service_data by lia. cbn [default]. rewrite length_app. destruct (length _ + _ =? 23)%nat eqn:E; [|done].
    apply Nat.eqb_eq in E. exfalso. revert E. unfold push_data. repeat case_if; rewrite ?length_app; cbn [length]; lia. }
  assert (byte_at (push_data [] k ++ [OP_CHECKSIG]) 0 OP_RETURN = false) as Eb.
  { destruct (decide (length k < 76)%nat); [|lia]. rewrite push_data_short by lia. by destruct Hl as [-> | ->]. }
  rewrite Eb, andb_false_r. cbn [andb]. apply scan_templates_ok. destruct (key_size_push k [OP_CHECKSIG] Hk) as (o & E).
  eexists. split; [|by apply (std_pubkey o)]. apply (instrs_one _ _ _ _ E), (instrs_one _ OP_CHECKSIG [] _ (GetOp2_opcode OP_CHECKSIG _ eq_refl)), instrs_end.
Qed.

Lemma Solver_multisig m keys :
  Forall (fun k => key_size k = true) keys -> 1 <= m <= Z.of_nat (length keys) -> Z.of_nat (length keys) <= 16 ->
  exists s, GetScriptForMultisig m keys = Some s /\ Solver s = (true, TX_MULTISIG, [m] :: keys ++ [[Z.of_nat (length keys)]]).
Proof.
  intros Hk Hm Hn. destruct (EncodeOP_N_ok m) as (Em & Sm & Dm); [lia|]. destruct (EncodeOP_N_ok (Z.of_nat (length keys))) as (En & Sn & Dn); [lia|].
  unfold GetScriptForMultisig. rewrite Em, En. cbn [mbind option_bind]. set (om := OP_1 + m - 1) in *. set (on := OP_1 + Z.of_nat (length keys) - 1) in *. eexists. split; [done|].
  rewrite foldl_push, <- app_assoc. cbn [app]. set (b := om :: _).
  assert (exists k rest, b = om :: push_data [] k ++ rest /\ key_size k = true) as (k & rest & Eb & Hks).
  { unfold b. destruct Hk as [|k keys Hk _]; [cbn in Hm; lia|]. cbn [map concat]. rewrite <- app_assoc. eauto. }
  assert (RemoveMineriumScript b = None) as Er by (rewrite Eb; by apply not_service_push).
  unfold Solver, strip_service. rewrite Er. cbn [default].
  assert (byte_at b 0 OP_HASH160 = false /\ byte_at b 0 OP_RETURN = false) as [B1 B2].
  { change (byte_at b 0 OP_HASH160) with (om =? OP_HASH160). change (byte_at b 0 OP_RETURN) with (om =? OP_RETURN). split; apply Z.eqb_neq; unfold om, OP_1, OP_HASH160, OP_RETURN; lia. }
  assert (IsPayToScriptHash b = false) as ->. { unfold IsPayToScriptHash, strip_service. rewrite Er. cbn [default]. rewrite B1. by rewrite andb_false_r. }
  rewrite B2, andb_false_r. cbn [andb]. apply scan_templates_ok. destruct (pushes_instrs keys [on; OP_CHECKMULTISIG] [(on, []); (OP_CHECKMULTISIG, [])] Hk) as (ks & Eks & Hi).
  { apply (instrs_one _ on [] _ (GetOp2_opcode on _ ltac:(unfold on, OP_1, OP_PUSHDATA4; lia))), (instrs_one _ OP_CHECKMULTISIG [] _ (GetOp2_opcode OP_CHECKMULTISIG _ eq_refl)), instrs_end. }
  exists ((om, []) :: ks ++ [(on, []); (OP_CHECKMULTISIG, [])]). split.
  - apply (instrs_one _ om [] _ (GetOp2_opcode om _ ltac:(unfold om, OP_1, OP_PUSHDATA4; lia))), Hi.
  - pose proof (std_multisig om on m (Z.of_nat (length keys)) ks Sm Sn Dm Dn) as Hstd. rewrite Eks in Hstd. apply Hstd; [|done|rewrite <- Eks, length_map; done].
    clear -Hk Eks. subst keys. by apply Forall_map in Hk.
Qed.

(** ** Lemmas: policy *)

Section Policy.
Variables (fAcceptDatacarrier : bool) (nMaxDatacarrierBytes : Z) (fIsBareMultisigStd : bool) (dustRelayFee : CFeeRate) (timeToPrune expired : list Z -> bool).

(** Scripts of a standard form, with the limits of the policy. *)
Definition script_standard (s : list Z) (t : txnouttype) : Prop :=
  exists sols, Solver s = (true, t, sols) /\ (t = TX_MULTISIG -> back_byte sols <= 3)
  /\ (t = TX_NULL_DATA -> fAcceptDatacarrier = true /\ Z.of_nat (length s) <= u32 (nMaxDatacarrierBytes * 200)).

Lemma multisig_bytes s sols : Solver s = (true, TX_MULTISIG, sols) -> 1 <= front_byte sols <= back_byte sols.
Proof.
  unfold Solver. case_if; [done|]. case_if; [done|]. intros (l & _ & Hs)%scan_templates_ok. inversion Hs; subst.
  unfold back_byte. rewrite app_comm_cons, last_snoc. cbn. lia.
Qed.

Lemma Solver_type s t sols : Solver s = (true, t, sols) -> t <> TX_NONSTANDARD.
Proof. unfold Solver. case_if; [by intros [= <- _]|]. case_if; [by intros [= <- _]|]. by intros (l & _ & Hs)%scan_templates_ok; inversion Hs. Qed.

Lemma IsStandard_ok s t : IsStandard fAcceptDatacarrier nMaxDatacarrierBytes s = (true, t) <-> script_standard s t.
Proof.
  unfold IsStandard, script_standard. destruct (Solver s) as [[[] t'] sols] eqn:E; [|split; [done|by intros (? & [=] & _)]].
  pose proof (Solver_type _ _ _ E) as Ht. destruct (bool_decide_reflect (t' = TX_MULTISIG)) as [->|Hm].
  - pose proof (multisig_bytes _ _ E). rewrite !Z.gtb_ltb. rewrite (proj2 (Z.ltb_ge (front_byte sols) 1)), (proj2 (Z.ltb_ge (back_byte sols) 1)), (proj2 (Z.ltb_ge (back_byte sols) (front_byte sols))) by lia. cbn [orb].
    destruct (Z.ltb_spec 3 (back_byte sols)).
    + split; [done|]. intros (sols' & [= <- <-] & Hb & _). specialize (Hb eq_refl). lia.
    + split; [intros [= <-]; exists sols; split_and!; done|by intros (sols' & [= <- <-] & _)].
  - rewrite (bool_decide_eq_false_2 (t' = TX_NONSTANDARD)) by done. cbn [negb].
    destruct (bool_decide_reflect (t' = TX_NULL_DATA)) as [->|Hn]; cbn [andb].
    + rewrite Z.gtb_ltb. destruct fAcceptDatacarrier; cbn [negb orb].
      * destruct (Z.ltb_spec (u32 (nMaxDatacarrierBytes * 200)) (Z.of_nat (length s))).
        -- split; [done|]. intros (sols' & [= <- <-] & _ & Hd). destruct (Hd eq_refl). lia.
        -- split; [intros [= <-]; exists sols; split_and!; done|by intros (sols' & [= <- <-] & _)].
      * split; [done|]. intros (sols' & [= <- <-] & _ & Hd). by destruct (Hd eq_refl).
    + split; [intros [= <-]; exists sols; split_and!; done|by intros (sols' & [= <- <-] & _)].
Qed.

Definition is_data (o : CTxOut) : bool := bool_decide ((IsStandard fAcceptDatacarrier nMaxDatacarrierBytes (scriptPubKey o)).2 = TX_NULL_DATA).

(** An output of a transaction with the version [v]. *)
Definition output_standard (v : Z) (o : CTxOut) : Prop :=
  exists t, script_standard (scriptPubKey o) t
  /\ if decide (t = TX_NULL_DATA) then v = MINERIUM_TX_VERSION \/ Z.of_nat (length (scriptPubKey o)) <= nMaxDatacarrierBytes
     else (t = TX_MULTISIG -> fIsBareMultisigStd = true) /\ IsDust dustRelayFee timeToPrune expired o = Some false.

Definition data_outputs (l : list CTxOut) : Z := Z.of_nat (length (filter (fun o => is_data o = true) l)).

Lemma data_outputs_cons o l : data_outputs (o :: l) = (if is_data o then 1 else 0) + data_outputs l.
Proof. unfold data_outputs. rewrite filter_cons. destruct (is_data o); [rewrite decide_True by done; cbn [length]; lia|by rewrite decide_False]. Qed.

Lemma check_standard_outputs_ok v l n k :
  0 <= n -> n + Z.of_nat (length l) < 2 ^ 32 ->
  check_standard_outputs fAcceptDatacarrier nMaxDatacarrierBytes fIsBareMultisigStd dustRelayFee timeToPrune expired v l n = Some (inr k) <->
  Forall (output_standard v) l /\ k = n + data_outputs l.
Proof.
  revert n. induction l as [|o l IH]; intros n Hn Hl; cbn [check_standard_outputs].
  { unfold data_outputs. cbn. split; [intros [= <-]; split; [done|lia]|intros [_ ->]; do 2 f_equal; lia]. }
  cbn [length] in Hl. rewrite Forall_cons, data_outputs_cons. unfold is_data.
  destruct (IsStandard _ _ (scriptPubKey o)) as [[] t] eqn:E; cbn [negb snd].
  2: { split; [done|]. intros [[(t' & Hs & _) _] _]. apply IsStandard_ok in Hs. congruence. }
  assert (output_standard v o <-> if decide (t = TX_NULL_DATA) then v = MINERIUM_TX_VERSION \/ Z.of_nat (length (scriptPubKey o)) <= nMaxDatacarrierBytes
     else (t = TX_MULTISIG -> fIsBareMultisigStd = true) /\ IsDust dustRelayFee timeToPrune expired o = Some false) as ->.
  { unfold output_standard. split; [|intros Hx; exists t; split; [by apply IsStandard_ok|done]]. intros (t' & Hs & Hx). apply IsStandard_ok in Hs. rewrite E in Hs. by injection Hs as <-. }
  destruct (decide (t = TX_NULL_DATA)) as [->|Ht].
  - rewrite bool_decide_eq_true_2 by done. destruct (Z.eqb_spec v MINERIUM_TX_VERSION) as [->|Hv]; cbn [negb andb].
    + rewrite wrap_small by (unfold in_u; lia). rewrite IH by lia. split; [intros [? ->]; split; [auto|lia]|intros [[_ ?] ->]; split; [done|lia]].
    + rewrite Z.gtb_ltb. destruct (Z.ltb_spec nMaxDatacarrierBytes (Z.of_nat (length (scriptPubKey o)))).
      * split; [done|]. intros [[[?|?] _] _]; [done|lia].
      * rewrite wrap_small by (unfold in_u; lia). rewrite IH by lia. split; [intros [? ->]; split; [auto|lia]|intros [[_ ?] ->]; split; [done|lia]].
  - rewrite bool_decide_eq_false_2 by done.
    assert (bool_decide (t = TX_MULTISIG) && negb fIsBareMultisigStd = false <-> (t = TX_MULTISIG -> fIsBareMultisigStd = true)) as Hb.
    { destruct fIsBareMultisigStd; cbn [negb]; [rewrite andb_false_r; by split|]. rewrite andb_true_r, bool_decide_eq_false. split; [by intros ? ?|]. intros Hx Hy. by specialize (Hx Hy). }
    destruct (bool_decide (t = TX_MULTISIG) && negb fIsBareMultisigStd) eqn:Eb.
    { split; [done|]. intros [[[Hx _] _] _]. apply Hb in Hx. done. }
    destruct (IsDust _ _ _ o) as [[]|]; cbn [mbind option_bind]; [split; [done|by intros [[[_ [=]] _] _]]| |split; [done|by intros [[[_ [=]] _] _]]].
    rewrite IH by lia. split; [intros [? ->]; split; [split_and!; [by apply Hb|done|done]|lia]|intros [[_ ?] ->]; split; [done|lia]].
Qed.

Lemma check_standard_inputs_ok l :
  check_standard_inputs l = None <-> Forall (fun i => Z.of_nat (length (scriptSig i)) <= 1650 /\ IsPushOnly (scriptSig i) = true) l.
Proof.
  induction l as [|i l IH]; cbn [check_standard_inputs]; [by split|]. rewrite Forall_cons, Z.gtb_ltb. destruct (Z.ltb_spec 1650 (Z.of_nat (length (scriptSig i)))).
  { split; [done|]. intros [[? _] _]. lia. }
  destruct (IsPushOnly (scriptSig i)); cbn [negb]; [rewrite IH; tauto|]. split; [done|by intros [[_ [=]] _]].
Qed.

End Policy.



(** ** Theorems *)




(** Scripts and destinations are inverse to each other.  The script of a key hash or a script hash, alone or behind
    the prefix of any service, gives the destination back; the script of a valid key alone gives the hash of the key;
    and a multisignature script of up to 16 valid keys gives the hashes of all its keys and the number required. *)
Theorem destination_roundtrip Hash160 :
  (forall d s, d <> CNoDestination -> length (dest_id d) = 20%nat -> service_output s (GetScriptForDestination d) ->
     ExtractDestination Hash160 s = Some d
     /\ ExtractDestinations Hash160 s = (true, match d with CScriptID _ => TX_SCRIPTHASH | _ => TX_PUBKEYHASH end, [d], Some 1))
  /\ (forall k, pubkey_IsValid k = true -> ExtractDestination Hash160 (GetScriptForRawPubKey k) = Some (CKeyID (Hash160 k)))
  /\ (forall m keys, Forall (fun k => pubkey_IsValid k = true) keys -> 1 <= m <= Z.of_nat (length keys) -> Z.of_nat (length keys) <= 16 ->
     exists s, GetScriptForMultisig m keys = Some s
     /\ ExtractDestinations Hash160 s = (true, TX_MULTISIG, map (fun k => CKeyID (Hash160 k)) keys, Some m)).
Proof.
  split_and!.
  - intros d s Hd Hl Hs. unfold ExtractDestinations, ExtractDestination. destruct d as [|h|h]; [done|..]; cbn [dest_id] in Hl.
    + by rewrite (Solver_key h s Hl Hs).
    + by rewrite (Solver_script h s Hl Hs).
  - intros k Hv. unfold ExtractDestination. rewrite (Solver_raw_key k Hv). by rewrite Hv.
  - intros m keys Hv Hm Hn. destruct (Solver_multisig m keys (valid_keys_size keys Hv) Hm Hn) as (s & Es & Hs). exists s. split; [done|].
    unfold ExtractDestinations. rewrite Hs. cbn [drop front_byte length]. rewrite length_app. cbn [length].
    change (drop 0 (keys ++ [[Z.of_nat (length keys)]])) with (keys ++ [[Z.of_nat (length keys)]]). rewrite take_app_length' by lia.
    assert (filter (fun k => pubkey_IsValid k) keys = keys) as ->.
    { clear -Hv. induction Hv as [|k keys Hk _ IH]; [done|]. rewrite filter_cons, decide_True by (by rewrite Hk). by rewrite IH. }
    rewrite length_map. destruct keys; [cbn in Hm; lia|done].
Qed.

(** C26: which transactions are relayed.  A transaction is standard if and only if its version is 1, 2 or that of the
    services, it is smaller than 100000 bytes, every input script is push only and at most 1650 bytes, every output is
    of a standard form within the policy, is no dust unless it carries data, and at most one output carries data;
    only a service transaction may carry more data than the limit of the node, up to 200 times as much. *)
Theorem IsStandardTx_correct fAcceptDatacarrier nMaxDatacarrierBytes fIsBareMultisigStd dustRelayFee timeToPrune expired tx :
  Z.of_nat (length (vout tx)) < 2 ^ 32 -> GetSerializeSize timeToPrune expired tx < 2 ^ 32 ->
  IsStandardTx fAcceptDatacarrier nMaxDatacarrierBytes fIsBareMultisigStd dustRelayFee timeToPrune expired tx = Some None <->
  (1 <= tx_nVersion tx <= 2 \/ tx_nVersion tx = MINERIUM_TX_VERSION) /\ GetSerializeSize timeToPrune expired tx < MAX_STANDARD_TX_SIZE
  /\ Forall (fun i => Z.of_nat (length (scriptSig i)) <= 1650 /\ IsPushOnly (scriptSig i) = true) (vin tx)
  /\ Forall (output_standard fAcceptDatacarrier nMaxDatacarrierBytes fIsBareMultisigStd dustRelayFee timeToPrune expired (tx_nVersion tx)) (vout tx)
  /\ data_outputs fAcceptDatacarrier nMaxDatacarrierBytes (vout tx) <= 1.
Proof.
  intros Hl Hsz. unfold IsStandardTx.
  assert (((tx_nVersion tx >? MAX_STANDARD_VERSION) || (tx_nVersion tx <? 1)) && negb (tx_nVersion tx =? MINERIUM_TX_VERSION) = false <-> 1 <= tx_nVersion tx <= 2 \/ tx_nVersion tx = MINERIUM_TX_VERSION) as Hv.
  { rewrite Z.gtb_ltb, andb_false_iff, orb_false_iff, negb_false_iff, Z.ltb_ge, Z.ltb_ge, Z.eqb_eq. unfold MAX_STANDARD_VERSION. tauto. }
  destruct (((tx_nVersion tx >? MAX_STANDARD_VERSION) || (tx_nVersion tx <? 1)) && negb (tx_nVersion tx =? MINERIUM_TX_VERSION)).
  { split; [done|]. intros [Hx _]. apply Hv in Hx. done. }
  rewrite wrap_small by (unfold in_u, GetSerializeSize in *; lia). rewrite Z.geb_leb. destruct (Z.leb_spec MAX_STANDARD_TX_SIZE (GetSerializeSize timeToPrune expired tx)).
  { split; [done|]. intros (_ & ? & _). lia. }
  pose proof (check_standard_inputs_ok (vin tx)) as Hi. destruct (check_standard_inputs (vin tx)) as [r|].
  { split; [done|]. intros (_ & _ & Hx & _). apply Hi in Hx. done. }
  pose proof (fun k => check_standard_outputs_ok fAcceptDatacarrier nMaxDatacarrierBytes fIsBareMultisigStd dustRelayFee timeToPrune expired (tx_nVersion tx) (vout tx) 0 k ltac:(lia) ltac:(lia)) as Ho.
  destruct (check_standard_outputs _ _ _ _ _ _ _ (vout tx) 0) as [[r|k]|]; cbn [mbind option_bind].
  - split; [done|]. intros (_ & _ & _ & Hf & _). discriminate (proj2 (Ho _) (conj Hf eq_refl)).
  - destruct (proj1 (Ho k) eq_refl) as [Hf ->]. rewrite Z.add_0_l, Z.gtb_ltb. destruct (Z.ltb_spec 1 (data_outputs fAcceptDatacarrier nMaxDatacarrierBytes (vout tx))).
    + split; [done|]. intros (_ & _ & _ & _ & ?). lia.
    + split; [|done]. intros _. split_and!; [by apply Hv|lia|by apply Hi|done|lia].
  - split; [done|]. intros (_ & _ & _ & Hf & _). discriminate (proj2 (Ho _) (conj Hf eq_refl)).
Qed.

(** ** Witnesses *)

(** One input without a script, an output to a key hash and one with four bytes of data. *)
Definition demo_standard_tx : CTransaction :=
  {| tx_nVersion := 2; vin := [{| prevout := {| Transaction.op_hash := 1; Transaction.op_n := 0 |}; scriptSig := [1; 7]; nSequence := SEQUENCE_FINAL |}];
     vout := [CTxOut_make 100000 (GetScriptForDestination (CKeyID (replicate 20 3))); CTxOut_make 0 [OP_RETURN; 4; 1; 2; 3; 4]]; nLockTime := 0; tx_hash := 0 |}.

Lemma IsStandardTx_correct_witness :
  let dust := {| nSatoshisPerK := 10000 |} in
  IsStandardTx true 83 true dust (fun _ => false) (fun _ => false) demo_standard_tx = Some None
  /\ data_outputs true 83 (vout demo_standard_tx) <= 1.
Proof.
  assert (IsStandardTx true 83 true {| nSatoshisPerK := 10000 |} (fun _ => false) (fun _ => false) demo_standard_tx = Some None) as E by (vm_compute; reflexivity).
  split; [exact E|].
  exact (proj2 (proj2 (proj2 (proj2 (proj1 (IsStandardTx_correct true 83 true {| nSatoshisPerK := 10000 |} (fun _ => false) (fun _ => false) demo_standard_tx
    ltac:(vm_compute; reflexivity) ltac:(vm_compute; reflexivity)) E))))).
Defined.

(** A pay-to-script-hash script behind two prefixes, of which one is taken off before the hash is read and both before
    the form is tested: the twenty bytes that are taken start inside of the second prefix. *)
Example nested_prefix_hash :
  let prefix := service_prefix OP_MINERIUM_ALIAS 2 [] [OP_DROP] in
  Solver (prefix ++ GetScriptForDestination (CScriptID (replicate 20 7))) = (true, TX_SCRIPTHASH, [replicate 20 7])
  /\ Solver (service_prefix OP_MINERIUM_CERT 1 [] [OP_DROP] ++ prefix ++ GetScriptForDestination (CScriptID (replicate 20 7)))
     = (true, TX_SCRIPTHASH, [[OP_DROP; OP_HASH160; 20] ++ replicate 17 7]).
Proof. split; vm_compute; reflexivity. Qed.
