(* ===== verification/Bloom.v ===== *)
(** * Bloom filters

    Models [src/src/bloom.h], [src/src/bloom.cpp] and [MurmurHash3] of [src/src/hash.cpp]: the filter a light client
    gives to its peers, which transactions it selects, and the rolling filter of what a peer already knows.

    [None] is a division by the size of an empty filter, an access out of bounds or the overflow of a counter.  The
    logarithms of the constructors are computed by the mathematical library: the sizes in bits they lead to, and the
    number of hash functions of the rolling filter before it is clipped, are parameters, and so are random tweaks. *)

From stdpp Require Import gmap relations.
From Stdlib Require Import SpecFloat.
From S2P Require Import Prelude Amount Script Transaction Serialize TxVerify Merkle MerkleBlock Base58 Standard.

(** ** MurmurHash3 *)

Definition ROTL32 (x r : Z) : Z := Z.lor (u32 (Z.shiftl x r)) (Z.shiftr x (32 - r)).

Definition murmur_c1 : Z := 0xcc9e2d51.
Definition murmur_c2 : Z := 0x1b873593.
Definition mix_k1 (k1 : Z) : Z := u32 (ROTL32 (u32 (k1 * murmur_c1)) 15 * murmur_c2).

(** The blocks of four bytes; the rest is the tail. *)
Fixpoint murmur_body (nblocks : nat) (data : list Z) (h1 : Z) : Z * list Z :=
  match nblocks with
  | O => (h1, data)
  | S nblocks =>
      let h1 := ROTL32 (Z.lxor h1 (mix_k1 (le_decode (take 4 data)))) 13 in
      murmur_body nblocks (drop 4 data) (u32 (h1 * 5 + 0xe6546b64))
  end.

Definition murmur_tail (tail : list Z) (h1 : Z) : Z :=
  match tail with
  | [a] => Z.lxor h1 (mix_k1 a)
  | [a; b] => Z.lxor h1 (mix_k1 (Z.lxor (Z.shiftl b 8) a))
  | [a; b; c] => Z.lxor h1 (mix_k1 (Z.lxor (Z.lxor (Z.shiftl c 16) (Z.shiftl b 8)) a))
  | _ => h1
  end.

Definition murmur_final (h1 : Z) : Z :=
  let h1 := u32 (Z.lxor h1 (Z.shiftr h1 16) * 0x85ebca6b) in
  let h1 := u32 (Z.lxor h1 (Z.shiftr h1 13) * 0xc2b2ae35) in
  Z.lxor h1 (Z.shiftr h1 16).

Definition MurmurHash3 (nHashSeed : Z) (vDataToHash : list Z) : Z :=
  let '(h1, tail) := murmur_body (length vDataToHash / 4) vDataToHash nHashSeed in
  murmur_final (u32 (Z.lxor (murmur_tail tail h1) (Z.of_nat (length vDataToHash)))).

(** The seed of the hash function of a number, in both filters. *)
Definition hash_seed (nHashNum nTweak : Z) : Z := u32 (nHashNum * 0xFBA4C795 + nTweak).

(** ** The filter *)

Definition MAX_BLOOM_FILTER_SIZE : Z := 36000.
Definition MAX_HASH_FUNCS : Z := 50.

Definition BLOOM_UPDATE_NONE : Z := 0.
Definition BLOOM_UPDATE_ALL : Z := 1.
Definition BLOOM_UPDATE_P2PUBKEY_ONLY : Z := 2.
Definition BLOOM_UPDATE_MASK : Z := 3.

Record CBloomFilter := {
  vData : list Z;
  isFull : bool;
  isEmpty : bool;
  nHashFuncs : Z;
  nTweak : Z;
  nFlags : Z;
}.

Definition LN2 : spec_float := S754_finite false 6243314768165359 (-53).

(** [nFilterBits] is the ideal size, [-1 / LN2SQUARED * nElements * log(nFPRate)], as an [unsigned int]. *)
Definition CBloomFilter_make (nFilterBits nElements nTweakIn nFlagsIn : Z) : option CBloomFilter :=
  let size := Z.min nFilterBits (u32 (MAX_BLOOM_FILTER_SIZE * 8)) / 8 in
  if nElements =? 0 then None
  else Some {| vData := replicate (Z.to_nat size) 0; isFull := false; isEmpty := true;
               nHashFuncs := Z.min (u32 (mul_double (size * 8 / nElements) LN2)) MAX_HASH_FUNCS; nTweak := nTweakIn; nFlags := nFlagsIn |}.

Definition CBloomFilter_default : CBloomFilter :=
  {| vData := []; isFull := true; isEmpty := false; nHashFuncs := 0; nTweak := 0; nFlags := 0 |}.

Definition with_bits (bits : list Z) (full empty : bool) (f : CBloomFilter) : CBloomFilter :=
  {| vData := bits; isFull := full; isEmpty := empty; nHashFuncs := nHashFuncs f; nTweak := nTweak f; nFlags := nFlags f |}.

Definition Hash (f : CBloomFilter) (nHashNum : Z) (vDataToHash : list Z) : option Z :=
  let size := Z.of_nat (length (vData f)) * 8 in
  if size =? 0 then None else Some (MurmurHash3 (hash_seed nHashNum (nTweak f)) vDataToHash mod size).

(** [vData[nIndex >> 3] |= (1 << (7 & nIndex))] and the test of that bit. *)
Definition set_bit (bits : list Z) (nIndex : Z) : option (list Z) :=
  let i := Z.to_nat (Z.shiftr nIndex 3) in
  b ← bits !! i; Some (<[i := u8 (Z.lor b (Z.shiftl 1 (Z.land 7 nIndex)))]> bits).

Definition test_bit (bits : list Z) (nIndex : Z) : option bool :=
  b ← bits !! Z.to_nat (Z.shiftr nIndex 3); Some (negb (Z.land b (Z.shiftl 1 (Z.land 7 nIndex)) =? 0)).

(** The loops over the hash functions, from the number [i] on. *)
Fixpoint insert_loop (n : nat) (i : Z) (f : CBloomFilter) (vKey : list Z) : option CBloomFilter :=
  match n with
  | O => Some f
  | S n =>
      nIndex ← Hash f i vKey;
      bits ← set_bit (vData f) nIndex;
      insert_loop n (i + 1) (with_bits bits (isFull f) (isEmpty f) f) vKey
  end.

Definition insert (f : CBloomFilter) (vKey : list Z) : option CBloomFilter :=
  if isFull f then Some f
  else f ← insert_loop (Z.to_nat (nHashFuncs f)) 0 f vKey; Some (with_bits (vData f) (isFull f) false f).

Fixpoint contains_loop (n : nat) (i : Z) (f : CBloomFilter) (vKey : list Z) : option bool :=
  match n with
  | O => Some true
  | S n =>
      nIndex ← Hash f i vKey;
      b ← test_bit (vData f) nIndex;
      if negb (b : bool) then Some false else contains_loop n (i + 1) f vKey
  end.

Definition contains (f : CBloomFilter) (vKey : list Z) : option bool :=
  if isFull f then Some true
  else if isEmpty f then Some false
  else contains_loop (Z.to_nat (nHashFuncs f)) 0 f vKey.

(** The keys of outpoints and of hashes. *)
Definition outpoint_key (o : COutPoint) : list Z := ser_outpoint o.
Definition hash_key (h : Z) : list Z := le_encode 32 h.

Definition clear (f : CBloomFilter) : CBloomFilter := with_bits (replicate (length (vData f)) 0) false true f.

Definition reset (nNewTweak : Z) (f : CBloomFilter) : CBloomFilter :=
  {| vData := vData (clear f); isFull := isFull (clear f); isEmpty := isEmpty (clear f); nHashFuncs := nHashFuncs f;
     nTweak := nNewTweak; nFlags := nFlags f |}.

Definition IsWithinSizeConstraints (f : CBloomFilter) : bool :=
  (Z.of_nat (length (vData f)) <=? MAX_BLOOM_FILTER_SIZE) && (nHashFuncs f <=? MAX_HASH_FUNCS).

Fixpoint empty_full_loop (bits : list Z) (full empty : bool) : bool * bool :=
  match bits with
  | [] => (full, empty)
  | b :: bits => empty_full_loop bits (full && (b =? 0xff)) (empty && (b =? 0))
  end.

Definition UpdateEmptyFull (f : CBloomFilter) : CBloomFilter :=
  let '(full, empty) := empty_full_loop (vData f) true true in with_bits (vData f) full empty f.

(** *** Which transactions are relevant *)

(** The first piece of data of a script that is in the filter ends the loop. *)
Fixpoint data_matches (fuel : nat) (f : CBloomFilter) (pc : list Z) : option bool :=
  match fuel with
  | O => Some false
  | S fuel =>
      let r := GetOp2 pc in
      if negb (fRet r) then Some false
      else if (length (vchRet r) =? 0)%nat then data_matches fuel f (pcRet r)
      else b ← contains f (vchRet r); if b : bool then Some true else data_matches fuel f (pcRet r)
  end.

Definition update_output (f : CBloomFilter) (hash i : Z) (script : list Z) : option CBloomFilter :=
  let flags := Z.land (nFlags f) BLOOM_UPDATE_MASK in
  let key := outpoint_key {| op_hash := hash; op_n := i |} in
  if flags =? BLOOM_UPDATE_ALL then insert f key
  else if flags =? BLOOM_UPDATE_P2PUBKEY_ONLY then
    match Solver script with
    | (true, TX_PUBKEY, _) | (true, TX_MULTISIG, _) => insert f key
    | _ => Some f
    end
  else Some f.

Fixpoint match_outputs (l : list CTxOut) (hash i : Z) (fFound : bool) (f : CBloomFilter) : option (bool * CBloomFilter) :=
  match l with
  | [] => Some (fFound, f)
  | txout :: l =>
      b ← data_matches (length (scriptPubKey txout)) f (scriptPubKey txout);
      if b : bool then f ← update_output f hash i (scriptPubKey txout); match_outputs l hash (u32 (i + 1)) true f
      else match_outputs l hash (u32 (i + 1)) fFound f
  end.

Fixpoint match_inputs (l : list CTxIn) (f : CBloomFilter) : option bool :=
  match l with
  | [] => Some false
  | txin :: l =>
      b ← contains f (outpoint_key (prevout txin));
      if b : bool then Some true
      else
        b ← data_matches (length (scriptSig txin)) f (scriptSig txin);
        if b : bool then Some true else match_inputs l f
  end.

Definition IsRelevantAndUpdate (f : CBloomFilter) (tx : CTransaction) : option (bool * CBloomFilter) :=
  if isFull f then Some (true, f)
  else if isEmpty f then Some (false, f)
  else
    b ← contains f (hash_key (tx_hash tx));
    '(fFound, f) ← match_outputs (vout tx) (tx_hash tx) 0 b f;
    if fFound : bool then Some (true, f) else b ← match_inputs (vin tx) f; Some (b, f).

(** ** The rolling filter *)

Record CRollingBloomFilter := {
  nEntriesPerGeneration : Z;
  nEntriesThisGeneration : Z;
  nGeneration : Z;
  data : list Z;
  rolling_nTweak : Z;
  rolling_nHashFuncs : Z;
}.

Definition rolling_with (entries generation : Z) (words : list Z) (f : CRollingBloomFilter) : CRollingBloomFilter :=
  {| nEntriesPerGeneration := nEntriesPerGeneration f; nEntriesThisGeneration := entries; nGeneration := generation; data := words;
     rolling_nTweak := rolling_nTweak f; rolling_nHashFuncs := rolling_nHashFuncs f |}.

Definition rolling_reset (tweak : Z) (f : CRollingBloomFilter) : CRollingBloomFilter :=
  {| nEntriesPerGeneration := nEntriesPerGeneration f; nEntriesThisGeneration := 0; nGeneration := 1;
     data := replicate (length (data f)) 0; rolling_nTweak := tweak; rolling_nHashFuncs := rolling_nHashFuncs f |}.

(** [rounded] is [(int)round(log(fpRate) / log(0.5))], [nFilterBits] the number of bits that follows from it. *)
Definition CRollingBloomFilter_make (rounded nFilterBits nElements tweak : Z) : CRollingBloomFilter :=
  rolling_reset tweak
    {| nEntriesPerGeneration := i32 (u32 (nElements + 1) / 2); nEntriesThisGeneration := 0; nGeneration := 0;
       data := replicate (Z.to_nat (u32 (Z.shiftl (u32 (nFilterBits + 63) / 64) 1))) 0; rolling_nTweak := 0;
       rolling_nHashFuncs := Z.max 1 (Z.min rounded 50) |}.

Definition RollingBloomHash (nHashNum tweak : Z) (vDataToHash : list Z) : Z := MurmurHash3 (hash_seed nHashNum tweak) vDataToHash.

(** Wipe the entries of a generation. *)
Fixpoint wipe (mask1 mask2 : Z) (words : list Z) : option (list Z) :=
  match words with
  | [] => Some []
  | [_] => None
  | p1 :: p2 :: words =>
      let mask := Z.lor (Z.lxor p1 mask1) (Z.lxor p2 mask2) in
      words ← wipe mask1 mask2 words; Some (Z.land p1 mask :: Z.land p2 mask :: words)
  end.

(** The position of a hash: the index of its first word and its bit. *)
Definition position (words : list Z) (h : Z) : option (nat * Z) :=
  let size := Z.of_nat (length words) in
  if size =? 0 then None else Some (Z.to_nat (Z.land (Z.shiftr h 6 mod size) (u32 (Z.lnot 1))), Z.land h 0x3F).

Definition put_bit (words : list Z) (i : nat) (bit v : Z) : option (list Z) :=
  w ← words !! i; Some (<[i := Z.lor (Z.land w (u64 (Z.lnot (u64 (Z.shiftl 1 bit))))) (u64 (Z.shiftl v bit))]> words).

(** [pos | 1] is the word after [pos & ~1]. *)
Fixpoint rolling_insert_loop (n : nat) (i : Z) (generation tweak : Z) (words : list Z) (vKey : list Z) : option (list Z) :=
  match n with
  | O => Some words
  | S n =>
      '(pos, bit) ← position words (RollingBloomHash i tweak vKey);
      words ← put_bit words pos bit (Z.land generation 1);
      words ← put_bit words (S pos) bit (Z.shiftr generation 1);
      rolling_insert_loop n (i + 1) generation tweak words vKey
  end.

(** A new generation when the current one is full. *)
Definition rotate (f : CRollingBloomFilter) : option CRollingBloomFilter :=
  if nEntriesThisGeneration f =? nEntriesPerGeneration f then
    let generation := if nGeneration f + 1 =? 4 then 1 else nGeneration f + 1 in
    words ← wipe (u64 (- Z.land generation 1)) (u64 (- Z.shiftr generation 1)) (data f);
    Some (rolling_with 0 generation words f)
  else Some f.

Definition rolling_insert (f : CRollingBloomFilter) (vKey : list Z) : option CRollingBloomFilter :=
  f ← rotate f;
  if nEntriesThisGeneration f + 1 >=? 2 ^ 31 then None
  else
    words ← rolling_insert_loop (Z.to_nat (rolling_nHashFuncs f)) 0 (nGeneration f) (rolling_nTweak f) (data f) vKey;
    Some (rolling_with (nEntriesThisGeneration f + 1) (nGeneration f) words f).

Fixpoint rolling_contains_loop (n : nat) (i : Z) (tweak : Z) (words : list Z) (vKey : list Z) : option bool :=
  match n with
  | O => Some true
  | S n =>
      '(pos, bit) ← position words (RollingBloomHash i tweak vKey);
      a ← words !! pos;
      b ← words !! S pos;
      if Z.land (Z.shiftr (Z.lor a b) bit) 1 =? 0 then Some false else rolling_contains_loop n (i + 1) tweak words vKey
  end.

Definition rolling_contains (f : CRollingBloomFilter) (vKey : list Z) : option bool :=
  rolling_contains_loop (Z.to_nat (rolling_nHashFuncs f)) 0 (rolling_nTweak f) (data f) vKey.

(** *** Filters on the wire and in a peer *)

Definition ser_filter (f : CBloomFilter) : list Z :=
  ser_bytes (vData f) ++ ser_writedata 4 (nHashFuncs f) ++ ser_writedata 4 (nTweak f) ++ ser_writedata 1 (nFlags f).

(** Into a filter of the default constructor. *)
Definition read_filter : Reader CBloomFilter := (
  bits <- read_bytes ;; funcs <- ser_readdata 4 ;; tweak <- ser_readdata 4 ;; flags <- ser_readdata 1 ;;
  rd_ret {| vData := bits; isFull := true; isEmpty := false; nHashFuncs := funcs; nTweak := tweak; nFlags := flags |})%reader.

(** The part of [CNode] and of its state that the filter messages touch. *)
Record FilterPeer := {
  pfilter : option CBloomFilter;
  fRelayTxes : bool;
  nVersion : Z;
  fDisconnect : bool;
  nMisbehavior : Z;
  fShouldBan : bool;
}.

Definition NO_BLOOM_VERSION : Z := 70201.

Definition with_filter (f : CBloomFilter) (p : FilterPeer) : FilterPeer :=
  {| pfilter := Some f; fRelayTxes := fRelayTxes p; nVersion := nVersion p; fDisconnect := fDisconnect p; nMisbehavior := nMisbehavior p;
     fShouldBan := fShouldBan p |}.
Definition relay_on (p : FilterPeer) : FilterPeer :=
  {| pfilter := pfilter p; fRelayTxes := true; nVersion := nVersion p; fDisconnect := fDisconnect p; nMisbehavior := nMisbehavior p;
     fShouldBan := fShouldBan p |}.
Definition disconnect (p : FilterPeer) : FilterPeer :=
  {| pfilter := pfilter p; fRelayTxes := fRelayTxes p; nVersion := nVersion p; fDisconnect := true; nMisbehavior := nMisbehavior p;
     fShouldBan := fShouldBan p |}.

Section Peers.
(** The option [-banscore]. *)
Variable banscore : Z.

(** A peer that crosses the score is marked to be banned; the score stays far below the bounds of an [int]. *)
Definition Misbehaving (howmuch : Z) (p : FilterPeer) : FilterPeer :=
  if howmuch =? 0 then p
  else
    let score := nMisbehavior p + howmuch in
    {| pfilter := pfilter p; fRelayTxes := fRelayTxes p; nVersion := nVersion p; fDisconnect := fDisconnect p; nMisbehavior := score;
       fShouldBan := if (score >=? banscore) && (score - howmuch <? banscore) then true else fShouldBan p |}.

Definition on_filterload (filter : CBloomFilter) (p : FilterPeer) : FilterPeer :=
  if negb (IsWithinSizeConstraints filter) then Misbehaving 100 p else relay_on (with_filter (UpdateEmptyFull filter) p).

Definition on_filteradd (item : list Z) (p : FilterPeer) : option FilterPeer :=
  if Z.of_nat (length item) >? MAX_SCRIPT_ELEMENT_SIZE then Some (Misbehaving 100 p)
  else match pfilter p with
       | Some f => f ← insert f item; Some (with_filter f p)
       | None => Some (Misbehaving 100 p)
       end.

(** [bloom]: the node offers [NODE_BLOOM]. *)
Definition on_filterclear (bloom : bool) (p : FilterPeer) : FilterPeer :=
  relay_on (if bloom then with_filter CBloomFilter_default p else p).

(** The filter test of [SendMessages], for the transactions to be sent as for the answer to a request of the pool: whether a transaction passes
    that is in the pool and not known to the peer.  These two conditions are tested before ([mempool.info] and
    [filterInventoryKnown]) and are not part of the filter. *)
Definition announces (tx : CTransaction) (p : FilterPeer) : option (bool * FilterPeer) :=
  match pfilter p with
  | Some f => '(b, f) ← IsRelevantAndUpdate f tx; Some (b, with_filter f p)
  | None => Some (true, p)
  end.

(** What reaches the filter of a peer; payloads are bytes. *)
Inductive FilterEvent :=
  | FILTERLOAD (payload : list Z)
  | FILTERADD (payload : list Z)
  | FILTERCLEAR
  | ANNOUNCE (tx : CTransaction).

(** A payload that cannot be read ends the message with an exception that is caught; a node without [NODE_BLOOM]
    refuses the first two. *)
Definition process (bloom : bool) (e : FilterEvent) (p : FilterPeer) : option FilterPeer :=
  let guarded (k : option FilterPeer) :=
    if negb bloom then Some (if nVersion p >=? NO_BLOOM_VERSION then Misbehaving 100 p else disconnect p) else k in
  match e with
  | FILTERLOAD payload => guarded (match read_filter payload with Some (filter, _) => Some (on_filterload filter p) | None => Some p end)
  | FILTERADD payload => guarded (match read_bytes payload with Some (item, _) => on_filteradd item p | None => Some p end)
  | FILTERCLEAR => Some (on_filterclear bloom p)
  | ANNOUNCE tx => '(_, p) ← announces tx p; Some p
  end.

Fixpoint process_all (bloom : bool) (l : list FilterEvent) (p : FilterPeer) : option FilterPeer :=
  match l with
  | [] => Some p
  | e :: l => p ← process bloom e p; process_all bloom l p
  end.

End Peers.

(** *** A block for a peer *)

(** [vMatch] of [CMerkleBlock(block, filter)], with the filter that is left. *)
Fixpoint match_block (f : CBloomFilter) (txs : list CTransaction) : option (list bool * CBloomFilter) :=
  match txs with
  | [] => Some ([], f)
  | tx :: txs =>
      '(b, f) ← IsRelevantAndUpdate f tx;
      '(vMatch, f) ← match_block f txs;
      Some (b :: vMatch, f)
  end.

Definition CMerkleBlock_filtered (HashPair : Z -> Z -> Z) (f : CBloomFilter) (txs : list CTransaction)
    : option (CPartialMerkleTree * CBloomFilter) :=
  '(vMatch, f) ← match_block f txs;
  t ← CPartialMerkleTree_of HashPair (map tx_hash txs) vMatch;
  Some (t, f).

(** ** Lemmas: bits *)

Definition bit_on (bits : list Z) (i : Z) : Prop :=
  exists b, bits !! Z.to_nat (Z.shiftr i 3) = Some b /\ Z.testbit b (Z.land 7 i) = true.

Lemma land7 i : 0 <= Z.land 7 i < 8.
Proof. rewrite Z.land_comm. change 7 with (Z.ones 3). rewrite Z.land_ones by lia. apply Z.mod_pos_bound. lia. Qed.

Lemma bit_index i : Z.shiftr i 3 = i / 8 /\ Z.land 7 i = i mod 8.
Proof. split; [by rewrite Z.shiftr_div_pow2 by lia|]. rewrite Z.land_comm. change 7 with (Z.ones 3). by rewrite Z.land_ones by lia. Qed.

Lemma same_bit i j : 0 <= i -> 0 <= j -> Z.to_nat (Z.shiftr i 3) = Z.to_nat (Z.shiftr j 3) -> Z.land 7 i = Z.land 7 j -> i = j.
Proof.
  destruct (bit_index i) as [-> ->], (bit_index j) as [-> ->]. intros Hi Hj Hq%Z2Nat.inj Hr; [|apply Z.div_pos; lia..].
  rewrite (Z.div_mod i 8), (Z.div_mod j 8) by lia. congruence.
Qed.

Lemma byte_lookup (bits : list Z) i : 0 <= i < Z.of_nat (length bits) * 8 -> exists b, bits !! Z.to_nat (Z.shiftr i 3) = Some b.
Proof.
  intros Hi. apply lookup_lt_is_Some. destruct (bit_index i) as [-> _].
  pose proof (Z.div_lt_upper_bound i 8 (Z.of_nat (length bits)) ltac:(lia) ltac:(lia)). pose proof (Z.div_pos i 8). lia.
Qed.

Lemma same_length_nonempty (l l' : list Z) : length l = length l' -> l' <> [] -> l <> [].
Proof. intros H Hn ->. by destruct l'. Qed.

Lemma test_bit_ok bits i :
  0 <= i < Z.of_nat (length bits) * 8 -> exists b : bool, test_bit bits i = Some b /\ (b = true <-> bit_on bits i).
Proof.
  intros Hi. destruct (byte_lookup bits i Hi) as [b Eb]. unfold test_bit, bit_on. rewrite Eb. cbn.
  rewrite land_pow2_testbit by apply land7. eexists. split; [done|]. split; [by eauto|]. by intros (b' & [= <-] & ?).
Qed.

Lemma filter_set_bit_ok bits i :
  0 <= i < Z.of_nat (length bits) * 8 -> bytes_ok bits ->
  exists bits', set_bit bits i = Some bits' /\ length bits' = length bits /\ bytes_ok bits'
  /\ forall j, 0 <= j -> bit_on bits' j <-> bit_on bits j \/ j = i.
Proof.
  intros Hi Hb. destruct (byte_lookup bits i Hi) as [b Eb]. unfold set_bit. rewrite Eb. cbn. eexists. split; [done|].
  split; [by rewrite length_insert|]. split; [apply Forall_insert; [done|by apply wrap_range]|].
  intros j Hj. unfold bit_on. destruct (decide (Z.to_nat (Z.shiftr i 3) = Z.to_nat (Z.shiftr j 3))) as [E|E].
  - rewrite <- E, list_lookup_insert_eq by (by eapply lookup_lt_Some). rewrite Eb.
    assert (Z.testbit (u8 (Z.lor b (Z.shiftl 1 (Z.land 7 i)))) (Z.land 7 j) = Z.testbit b (Z.land 7 j) || (Z.land 7 i =? Z.land 7 j)) as Ht.
    { pose proof (land7 i). pose proof (land7 j). unfold wrap. rewrite <- Z.land_ones, Z.land_spec, Z.ones_spec_low, andb_true_r by lia.
      rewrite Z.lor_spec, Z.shiftl_1_l, Z.pow2_bits_eqb by lia. done. }
    split.
    + intros (b' & [= <-] & Hx). rewrite Ht in Hx. apply orb_true_iff in Hx as [Hx|Hx%Z.eqb_eq]; [left; eauto|right; symmetry; apply same_bit; [lia|done..]].
    + intros [(b' & [= <-] & Hx)| ->]; (eexists; split; [done|]; rewrite Ht); [by rewrite Hx|by rewrite Z.eqb_refl, orb_true_r].
  - rewrite list_lookup_insert_ne by done. split; [by auto|]. intros [?| ->]; done.
Qed.

(** ** Lemmas: inserting and testing *)

(** The index a filter gives to a key for a hash function. *)
Definition index_of (f : CBloomFilter) (i : Z) (vKey : list Z) : Z :=
  MurmurHash3 (hash_seed i (nTweak f)) vKey mod (Z.of_nat (length (vData f)) * 8).

Definition has_key (f : CBloomFilter) (vKey : list Z) : Prop :=
  forall i, 0 <= i < nHashFuncs f -> bit_on (vData f) (index_of f i vKey).

(** What an operation that adds to a filter does not change, and the bits it may only set. *)
Record extends (f f' : CBloomFilter) : Prop := {
  ext_funcs : nHashFuncs f' = nHashFuncs f;
  ext_tweak : nTweak f' = nTweak f;
  ext_flags : nFlags f' = nFlags f;
  ext_len : length (vData f') = length (vData f);
  ext_full : isFull f' = isFull f;
  ext_empty : isEmpty f' = true -> isEmpty f = true;
  ext_bits j : 0 <= j -> bit_on (vData f) j -> bit_on (vData f') j;
}.

#[export] Instance extends_preorder : PreOrder extends.
Proof.
  split.
  - intros f. by split.
  - intros f g h [F1 F2 F3 F4 F5 F6 F7] [G1 G2 G3 G4 G5 G6 G7]. split; try congruence; auto.
Qed.

Lemma extends_index f f' i k : extends f f' -> index_of f' i k = index_of f i k.
Proof. intros H. unfold index_of. by rewrite (ext_len _ _ H), (ext_tweak _ _ H). Qed.

Lemma index_range f i k : vData f <> [] -> 0 <= index_of f i k < Z.of_nat (length (vData f)) * 8.
Proof. intros Hn. apply Z.mod_pos_bound. destruct (vData f); [done|cbn; lia]. Qed.

Lemma extends_has f f' k : vData f <> [] -> extends f f' -> has_key f k -> has_key f' k.
Proof.
  intros Hn He Hk i Hi. rewrite (extends_index f f') by done. apply (ext_bits _ _ He); [by apply index_range|].
  apply Hk. by rewrite <- (ext_funcs _ _ He).
Qed.

Lemma Hash_ok f i k : vData f <> [] -> Hash f i k = Some (index_of f i k).
Proof. intros Hn. unfold Hash. rewrite (proj2 (Z.eqb_neq _ 0)); [done|]. destruct (vData f); [done|cbn; lia]. Qed.

Lemma extends_bits f bits e :
  length bits = length (vData f) -> (e = true -> isEmpty f = true) -> (forall j, 0 <= j -> bit_on (vData f) j -> bit_on bits j) ->
  extends f (with_bits bits (isFull f) e f).
Proof. intros Hl He Hb. by split. Qed.

Lemma insert_loop_ok n i f k :
  vData f <> [] -> bytes_ok (vData f) ->
  exists f', insert_loop n i f k = Some f' /\ extends f f' /\ isEmpty f' = isEmpty f /\ bytes_ok (vData f')
  /\ (forall m, i <= m < i + Z.of_nat n -> bit_on (vData f') (index_of f m k)).
Proof.
  revert i f. induction n as [|n IH]; intros i f Hn Hb; cbn [insert_loop].
  { exists f. split_and!; [done|done|done|done|lia]. }
  rewrite Hash_ok by done. cbn [mbind option_bind]. pose proof (index_range f i k Hn) as Hr.
  destruct (filter_set_bit_ok (vData f) (index_of f i k) Hr Hb) as (bits & -> & Hl & Hb' & Hbits). cbn [mbind option_bind].
  set (f1 := with_bits bits (isFull f) (isEmpty f) f).
  assert (extends f f1) as He by (apply extends_bits; [done|done|intros j Hj Hx; by apply Hbits; [|left]]).
  assert (vData f1 <> []) as Hn1 by (by apply (same_length_nonempty _ (vData f))).
  destruct (IH (i + 1) f1 Hn1 Hb') as (f' & E & He' & Hem & Hbf & Hm). exists f'. split; [done|].
  split; [by transitivity f1|]. split; [done|]. split; [done|].
  intros m Hm'. destruct (decide (m = i)) as [->|].
  - apply (ext_bits _ _ He'); [lia|]. apply Hbits; [lia|by right].
  - rewrite <- (extends_index f f1) by done. apply Hm. lia.
Qed.

Lemma contains_loop_ok n i f k :
  vData f <> [] ->
  exists b : bool, contains_loop n i f k = Some b /\ (b = true <-> forall m, i <= m < i + Z.of_nat n -> bit_on (vData f) (index_of f m k)).
Proof.
  intros Hn. revert i. induction n as [|n IH]; intros i; cbn [contains_loop].
  { exists true. split; [done|]. split; [intros _ m; lia|done]. }
  rewrite Hash_ok by done. cbn [mbind option_bind]. destruct (test_bit_ok (vData f) (index_of f i k) (index_range f i k Hn)) as (b & -> & Hb). cbn [mbind option_bind].
  destruct b; cbn [negb].
  - destruct (IH (i + 1)) as (b & -> & Hb'). exists b. split; [done|]. rewrite Hb'. split.
    + intros H m Hm. destruct (decide (m = i)) as [->|]; [by apply Hb|]. apply H. lia.
    + intros H m Hm. apply H. lia.
  - exists false. split; [done|]. split; [done|]. intros H. apply Hb, H. lia.
Qed.

(** A filter whose operations never divide by zero: full, or with data. *)
Record filter_ok (f : CBloomFilter) : Prop := {
  fo_data : isFull f = true \/ vData f <> [];
  fo_bytes : bytes_ok (vData f);
}.

Definition in_filter (f : CBloomFilter) (k : list Z) : Prop := isFull f = true \/ (isEmpty f = false /\ has_key f k).

Lemma contains_ok f k : filter_ok f -> exists b : bool, contains f k = Some b /\ (b = true <-> in_filter f k).
Proof.
  intros [Hd _]. unfold contains, in_filter. destruct (isFull f) eqn:Ef; [exists true; split; [done|tauto]|].
  destruct Hd as [?|Hn]; [done|]. destruct (isEmpty f) eqn:Ee; [exists false; split; [done|]; split; [done|intros [?|[? _]]; done]|].
  destruct (contains_loop_ok (Z.to_nat (nHashFuncs f)) 0 f k Hn) as (b & -> & Hb). exists b. split; [done|]. rewrite Hb. unfold has_key. split.
  - intros H. right. split; [done|]. intros i Hi. apply H. lia.
  - intros [?|[_ H]] m Hm; [done|]. apply H. lia.
Qed.

Lemma contains_true f k : filter_ok f -> contains f k = Some true <-> in_filter f k.
Proof. intros H. destruct (contains_ok f k H) as (b & -> & Hb). rewrite <- Hb. by split; [intros [= ->]|intros ->]. Qed.

Lemma insert_ok f k :
  filter_ok f -> exists f', insert f k = Some f' /\ filter_ok f' /\ extends f f' /\ in_filter f' k.
Proof.
  intros [Hd Hb]. unfold insert. destruct (isFull f) eqn:Ef; [exists f; split_and!; [done|split; [by left|done]|done|by left]|].
  destruct Hd as [?|Hn]; [done|]. destruct (insert_loop_ok (Z.to_nat (nHashFuncs f)) 0 f k Hn Hb) as (f1 & -> & He & Hem & Hb1 & Hm).
  cbn [mbind option_bind].
  assert (extends f (with_bits (vData f1) (isFull f1) false f1)) as He1.
  { transitivity f1; [done|]. by apply extends_bits. }
  assert (vData f1 <> []) as Hn1 by (by apply (same_length_nonempty _ (vData f)); [apply (ext_len _ _ He)|]).
  rewrite (ext_full _ _ He), Ef in He1 |- *. eexists. split; [done|]. split; [split; [by right|done]|]. split; [done|].
  right. split; [done|]. intros i Hi. rewrite (extends_index f _) by done. apply Hm. rewrite (ext_funcs _ _ He1) in Hi. lia.
Qed.

Lemma extends_in f f' k : filter_ok f -> extends f f' -> in_filter f k -> in_filter f' k.
Proof.
  intros [Hd _] He [Hf|[He0 Hk]]; [left; by rewrite (ext_full _ _ He)|].
  destruct (isFull f) eqn:Ef; [left; by rewrite (ext_full _ _ He)|]. destruct Hd as [?|Hn]; [done|].
  right. split; [|by eapply extends_has]. destruct (isEmpty f') eqn:E; [|done]. by rewrite (ext_empty _ _ He E) in He0.
Qed.

#[export] Hint Resolve extends_in : core.

(** ** Lemmas: relevant transactions *)

(** The non-empty data that reading a script gives, up to where it cannot be read. *)
Inductive holds : list Z -> list Z -> Prop :=
  | holds_here pc : fRet (GetOp2 pc) = true -> vchRet (GetOp2 pc) <> [] -> holds pc (vchRet (GetOp2 pc))
  | holds_later pc k : fRet (GetOp2 pc) = true -> holds (pcRet (GetOp2 pc)) k -> holds pc k.

(** What a light client can look for in a transaction. *)
Inductive element (tx : CTransaction) : list Z -> Prop :=
  | el_hash : element tx (hash_key (tx_hash tx))
  | el_output o k : o ∈ vout tx -> holds (scriptPubKey o) k -> element tx k
  | el_prevout i : i ∈ vin tx -> element tx (outpoint_key (prevout i))
  | el_input i k : i ∈ vin tx -> holds (scriptSig i) k -> element tx k.

(** Whether the flags ask for the outpoint of a matching output. *)
Definition updates (f : CBloomFilter) (script : list Z) : Prop :=
  Z.land (nFlags f) BLOOM_UPDATE_MASK = BLOOM_UPDATE_ALL
  \/ (Z.land (nFlags f) BLOOM_UPDATE_MASK = BLOOM_UPDATE_P2PUBKEY_ONLY
      /\ exists t sols, Solver script = (true, t, sols) /\ (t = TX_PUBKEY \/ t = TX_MULTISIG)).

Lemma holds_inv pc k : holds pc k -> fRet (GetOp2 pc) = true /\ ((k = vchRet (GetOp2 pc) /\ k <> []) \/ holds (pcRet (GetOp2 pc)) k).
Proof. destruct 1; auto. Qed.

Lemma data_matches_ok fuel f pc :
  filter_ok f -> (length pc <= fuel)%nat ->
  exists b : bool, data_matches fuel f pc = Some b /\ (b = true <-> exists k, holds pc k /\ in_filter f k).
Proof.
  intros Hf. revert pc. induction fuel as [|fuel IH]; intros pc Hl; cbn [data_matches].
  { exists false. split; [done|]. destruct pc; [|cbn in Hl; lia]. split; [done|]. intros (k & Hk & _). by apply holds_inv in Hk as [? _]. }
  destruct (fRet (GetOp2 pc)) eqn:Er; cbn [negb].
  2:{ exists false. split; [done|]. split; [done|]. intros (k & Hk & _). apply holds_inv in Hk as [? _]. congruence. }
  pose proof (GetOp2_shrinks pc (GetOp2_nonempty pc Er)). destruct (IH (pcRet (GetOp2 pc)) ltac:(lia)) as (b & Eb & Hb).
  destruct (vchRet (GetOp2 pc)) as [|x v] eqn:Ev; cbn [length Nat.eqb].
  - exists b. split; [done|]. rewrite Hb. split; intros (k & Hk & Hin); exists k; (split; [|done]); [by apply holds_later|].
    apply holds_inv in Hk as [_ [[-> Hk]|Hk]]; [by rewrite Ev in Hk|done].
  - destruct (contains_ok f (x :: v) Hf) as (c & -> & Hc). cbn [mbind option_bind]. destruct c.
    + exists true. split; [done|]. split; [|done]. intros _. exists (x :: v). split; [rewrite <- Ev; apply holds_here; [done|by rewrite Ev]|by apply Hc].
    + exists b. split; [done|]. rewrite Hb. split; intros (k & Hk & Hin); exists k; (split; [|done]); [by apply holds_later|].
      apply holds_inv in Hk as [_ [[-> Hk]|Hk]]; [|done]. rewrite Ev in Hin. apply Hc in Hin. done.
Qed.

Lemma update_output_ok f hash i script :
  filter_ok f -> exists f', update_output f hash i script = Some f' /\ filter_ok f' /\ extends f f'
  /\ (updates f script -> in_filter f' (outpoint_key {| op_hash := hash; op_n := i |})).
Proof.
  intros Hf. unfold update_output, updates. destruct (insert_ok f (outpoint_key {| op_hash := hash; op_n := i |}) Hf) as (f1 & E1 & H1 & H2 & H3).
  destruct (Z.eqb_spec (Z.land (nFlags f) BLOOM_UPDATE_MASK) BLOOM_UPDATE_ALL) as [->|Ha]; [by exists f1|].
  destruct (Z.eqb_spec (Z.land (nFlags f) BLOOM_UPDATE_MASK) BLOOM_UPDATE_P2PUBKEY_ONLY) as [->|Hp]; [|exists f; split_and!; try done; by intros [?|[? _]]].
  destruct (Solver script) as [[b t] sols] eqn:Es.
  assert (b = true /\ (t = TX_PUBKEY \/ t = TX_MULTISIG) \/ ~ (b = true /\ (t = TX_PUBKEY \/ t = TX_MULTISIG))) as [[-> [-> | ->]]|Hn].
  { destruct b, t; (right; intros [? [? | ?]]; done) || (left; split; [done|]; auto). }
  - by exists f1.
  - by exists f1.
  - exists f. split; [destruct b, t; try done; by destruct Hn; auto|]. split_and!; [done|done|].
    intros [?|[_ (t' & s' & [= -> -> ->] & Ht)]]; [done|]. by destruct Hn.
Qed.

Lemma updates_extends f f' script : extends f f' -> updates f script -> updates f' script.
Proof. intros He. unfold updates. by rewrite (ext_flags _ _ He). Qed.

Lemma match_outputs_ok l hash i found f :
  filter_ok f -> 0 <= i -> i + Z.of_nat (length l) <= 2 ^ 32 ->
  exists b f', match_outputs l hash i found f = Some (b, f') /\ filter_ok f' /\ extends f f'
  /\ (found = true -> b = true) /\ (b = true -> found = true \/ exists o k, o ∈ l /\ holds (scriptPubKey o) k /\ in_filter f' k)
  /\ (forall j o k, l !! j = Some o -> holds (scriptPubKey o) k -> in_filter f k ->
        b = true /\ (updates f (scriptPubKey o) -> in_filter f' (outpoint_key {| op_hash := hash; op_n := i + Z.of_nat j |}))).
Proof.
  revert i found f. induction l as [|o l IH]; intros i found f Hf Hi Hl; cbn [match_outputs].
  { exists found, f. split_and!; [done|done|done|done|by left|done]. }
  cbn [length] in Hl. destruct (data_matches_ok (length (scriptPubKey o)) f (scriptPubKey o) Hf ltac:(lia)) as (c & -> & Hc). cbn [mbind option_bind].
  assert (l = [] \/ u32 (i + 1) = i + 1) as Hu.
  { destruct l; [by left|right]. cbn [length] in Hl. apply wrap_small. unfold in_u. lia. }
  assert (forall found f, filter_ok f -> exists b f', match_outputs l hash (u32 (i + 1)) found f = Some (b, f') /\ filter_ok f' /\ extends f f'
    /\ (found = true -> b = true) /\ (b = true -> found = true \/ exists o k, o ∈ l /\ holds (scriptPubKey o) k /\ in_filter f' k)
    /\ (forall j o k, l !! j = Some o -> holds (scriptPubKey o) k -> in_filter f k ->
        b = true /\ (updates f (scriptPubKey o) -> in_filter f' (outpoint_key {| op_hash := hash; op_n := i + Z.of_nat (S j) |})))) as IH'.
  { clear -IH Hu Hi Hl. intros found f Hf. destruct Hu as [->|Hu].
    - exists found, f. split_and!; [done|done|done|done|by left|done].
    - rewrite Hu. destruct (IH (i + 1) found f Hf ltac:(lia) ltac:(lia)) as (b & f' & E & H1 & H2 & H3 & H3' & H4). exists b, f'. do 5 (split; [assumption|]).
      intros j o k Hj Hk Hin. destruct (H4 j o k Hj Hk Hin) as [Hb Hup]. split; [done|]. intros Hx. replace (i + Z.of_nat (S j)) with (i + 1 + Z.of_nat j) by lia. exact (Hup Hx). }
  destruct c.
  - (* the output matches *)
    destruct (update_output_ok f hash i (scriptPubKey o) Hf) as (f1 & -> & Hf1 & He1 & Hu1). cbn [mbind option_bind].
    destruct (IH' true f1 Hf1) as (b & f' & E & H1 & H2 & H3 & H3' & H4). exists b, f'. rewrite (H3 eq_refl) in *.
    assert (extends f f') as He by (by transitivity f1).
    split; [assumption|]. split; [assumption|]. split; [assumption|]. split; [done|]. split.
    + intros _. right. destruct (proj1 Hc eq_refl) as (k & Hk & Hin). exists o, k. split; [by left|]. split; [done|]. exact (extends_in f f' k Hf He Hin).
    + intros [|j] o' k Hj Hk Hin.
      * injection Hj as <-. split; [done|]. intros Hx. rewrite Z.add_0_r. exact (extends_in f1 f' _ Hf1 H2 (Hu1 Hx)).
      * destruct (H4 j o' k Hj Hk (extends_in _ _ _ Hf He1 Hin)) as [_ Hup]. split; [done|]. intros Hx. exact (Hup (updates_extends _ _ _ He1 Hx)).
  - destruct (IH' found f Hf) as (b & f' & E & H1 & H2 & H3 & H3' & H4). exists b, f'. do 4 (split; [assumption|]). split.
    + intros Hb. apply H3' in Hb as [?|(o' & k & Ho & Hx)]; [by left|right]. exists o', k. split; [by right|exact Hx].
    + intros [|j] o' k Hj Hk Hin; [|exact (H4 j o' k Hj Hk Hin)]. injection Hj as <-. discriminate (proj2 Hc (ex_intro _ k (conj Hk Hin))).
Qed.

Lemma match_inputs_ok l f :
  filter_ok f ->
  exists b : bool, match_inputs l f = Some b
  /\ (b = true <-> exists i, i ∈ l /\ (in_filter f (outpoint_key (prevout i)) \/ exists k, holds (scriptSig i) k /\ in_filter f k)).
Proof.
  intros Hf. induction l as [|i l (b & Eb & Hb)]; cbn [match_inputs].
  { exists false. split; [done|]. split; [done|]. by intros (? & ?%not_elem_of_nil & _). }
  destruct (contains_ok f (outpoint_key (prevout i)) Hf) as (c & -> & Hc). cbn [mbind option_bind].
  destruct c; [exists true; split; [done|]; split; [|done]; intros _; exists i; split; [by left|left; by apply Hc]|].
  destruct (data_matches_ok (length (scriptSig i)) f (scriptSig i) Hf ltac:(lia)) as (d & -> & Hd). cbn [mbind option_bind].
  destruct d; [exists true; split; [done|]; split; [|done]; intros _; exists i; split; [by left|right; by apply Hd]|].
  exists b. split; [done|]. rewrite Hb. split.
  - intros (x & Hx & H). exists x. split; [by right|done].
  - intros (x & Hx & H). apply elem_of_cons in Hx as [->|Hx]; [|by exists x]. exfalso. destruct H as [H|H]; [apply Hc in H|apply Hd in H]; done.
Qed.

(** The whole test: what is found, what is added, and nothing else. *)
Lemma relevant_ok f tx :
  filter_ok f -> Z.of_nat (length (vout tx)) <= 2 ^ 32 ->
  exists b f', IsRelevantAndUpdate f tx = Some (b, f') /\ filter_ok f' /\ extends f f'
  /\ (b = true -> exists k, element tx k /\ in_filter f' k)
  /\ (forall k, element tx k -> in_filter f k -> b = true)
  /\ (forall j o k, vout tx !! j = Some o -> holds (scriptPubKey o) k -> in_filter f k -> updates f (scriptPubKey o) ->
        in_filter f' (outpoint_key {| op_hash := tx_hash tx; op_n := Z.of_nat j |})).
Proof.
  intros Hf Hl. unfold IsRelevantAndUpdate. destruct (isFull f) eqn:Ef.
  { exists true, f. split_and!; [done|done|done| |done|intros; by left]. intros _. exists (hash_key (tx_hash tx)). split; [constructor|by left]. }
  destruct (isEmpty f) eqn:Ee.
  { assert (forall k, ~ in_filter f k) as Hno by (intros k [?|[? _]]; congruence). exists false, f. split_and!; [done|done|done|done| |].
    - intros k _ Hk. by apply Hno in Hk.
    - intros j o k _ _ Hk. by apply Hno in Hk. }
  destruct (contains_ok f (hash_key (tx_hash tx)) Hf) as (c & -> & Hc). cbn [mbind option_bind].
  destruct (match_outputs_ok (vout tx) (tx_hash tx) 0 c f Hf ltac:(lia) ltac:(lia)) as (b & f' & -> & Hf' & He & Hb & Hb' & Hup). cbn [mbind option_bind].
  assert (forall j o k, vout tx !! j = Some o -> holds (scriptPubKey o) k -> in_filter f k -> updates f (scriptPubKey o) ->
     in_filter f' (outpoint_key {| op_hash := tx_hash tx; op_n := Z.of_nat j |})) as Hup'.
  { intros j o k Hj Hk Hin. exact (proj2 (Hup j o k Hj Hk Hin)). }
  destruct b.
  - exists true, f'. split_and!; [done|done|done| |done|done]. intros _. 
    destruct (Hb' eq_refl) as [->|(o & k & Ho & Hk & Hin)]; [|exists k; split; [by eapply el_output|done]].
    exists (hash_key (tx_hash tx)). split; [constructor|]. exact (extends_in _ _ _ Hf He (proj1 Hc eq_refl)).
  - destruct (match_inputs_ok (vin tx) f' Hf') as (d & -> & Hd). cbn [mbind option_bind]. exists d, f'. split_and!; [done|done|done| | |done].
    + intros (i & Hi & [Hx|(k & Hk & Hx)])%Hd; (eexists; split; [|exact Hx]); [by constructor|by eapply el_input].
    + intros k Hk Hin. destruct Hk as [|o k Ho Hk|i Hi|i k Hi Hk].
      * discriminate (Hb (proj2 Hc Hin)).
      * apply list_elem_of_lookup in Ho as [j Hj]. by destruct (Hup j o k Hj Hk Hin).
      * apply Hd. exists i. split; [done|left]. exact (extends_in _ _ _ Hf He Hin).
      * apply Hd. exists i. split; [done|right]. exists k. split; [done|]. exact (extends_in _ _ _ Hf He Hin).
Qed.

(** ** Lemmas: building, sending and loading *)

Fixpoint insert_all (f : CBloomFilter) (keys : list (list Z)) : option CBloomFilter :=
  match keys with
  | [] => Some f
  | k :: keys => f ← insert f k; insert_all f keys
  end.

Lemma insert_all_ok keys f :
  filter_ok f -> exists f', insert_all f keys = Some f' /\ filter_ok f' /\ extends f f' /\ forall k, k ∈ keys -> in_filter f' k.
Proof.
  revert f. induction keys as [|k keys IH]; intros f Hf; cbn [insert_all].
  { exists f. split_and!; [done|done|done|]. by intros k ?%not_elem_of_nil. }
  destruct (insert_ok f k Hf) as (f1 & -> & Hf1 & He1 & Hk). cbn [mbind option_bind].
  destruct (IH f1 Hf1) as (f2 & -> & Hf2 & He2 & Hks). exists f2. split; [done|]. split; [done|]. split; [by transitivity f1|].
  intros x [->|Hx]%elem_of_cons; [exact (extends_in _ _ _ Hf1 He2 Hk)|by apply Hks].
Qed.

(** A filter within the limits of the protocol whose fields fit their types. *)
Record sendable (f : CBloomFilter) : Prop := {
  se_bytes : bytes_ok (vData f);
  se_size : Z.of_nat (length (vData f)) <= MAX_BLOOM_FILTER_SIZE;
  se_funcs : 0 <= nHashFuncs f <= MAX_HASH_FUNCS;
  se_tweak : 0 <= nTweak f < 2 ^ 32;
  se_flags : 0 <= nFlags f < 2 ^ 8;
}.

Lemma make_ok bits n tweak flags f :
  CBloomFilter_make bits n tweak flags = Some f -> 8 <= bits -> 0 <= tweak < 2 ^ 32 -> 0 <= flags < 2 ^ 8 ->
  sendable f /\ filter_ok f /\ isFull f = false /\ vData f <> [].
Proof.
  unfold CBloomFilter_make. case_if; [done|]. intros [= <-] Hb Ht Hf.
  change (u32 (MAX_BLOOM_FILTER_SIZE * 8)) with 288000. set (size := Z.min bits 288000 / 8).
  assert (1 <= size <= 36000) as Hs.
  { split; [apply (Z.div_le_lower_bound _ 8); lia|apply (Z.div_le_upper_bound _ 8); lia]. }
  assert (bytes_ok (replicate (Z.to_nat size) 0)) as Hbytes by (apply Forall_replicate; unfold in_u; lia).
  split; [split; cbn [vData nHashFuncs nTweak nFlags]; [done| | |done|done]|split; [split; cbn [vData]; [right|done]|split; [done|]]].
  - rewrite length_replicate. unfold MAX_BLOOM_FILTER_SIZE. lia.
  - pose proof (wrap_range 32 (mul_double (size * 8 / n) LN2) ltac:(lia)) as [Hr _]. unfold MAX_HASH_FUNCS. lia.
  - destruct (Z.to_nat size) eqn:E; [lia|done].
  - cbn [vData]. destruct (Z.to_nat size) eqn:E; [lia|done].
Qed.

(** What a peer reads of a filter it is sent. *)
Definition received (f : CBloomFilter) : CBloomFilter := with_bits (vData f) true false f.

Lemma reads_filter f : sendable f -> reads read_filter (ser_filter f) (received f).
Proof.
  intros [_ Hs Hf Ht Hg]. unfold MAX_BLOOM_FILTER_SIZE, MAX_HASH_FUNCS in *. unfold read_filter, ser_filter.
  eapply reads_bind; [apply reads_bytes; unfold MAX_SIZE; lia|]. eapply reads_bind; [apply (reads_data 4); cbn; lia|].
  eapply reads_bind; [apply (reads_data 4); cbn; lia|]. rewrite <- (app_nil_r (ser_writedata 1 _)).
  eapply reads_bind; [apply (reads_data 1); cbn; lia|]. apply reads_ret.
Qed.

Lemma yields_filter : yields read_filter (fun f => bytes_ok (vData f)).
Proof.
  eapply yields_bind; [apply yields_bytes|]. intros b [Hb _]. eapply yields_bind; [apply (yields_data 4)|]. intros n _.
  eapply yields_bind; [apply (yields_data 4)|]. intros t _. eapply yields_bind; [apply (yields_data 1)|]. intros g _. by apply yields_ret.
Qed.

Lemma empty_full_ok bits full empty :
  empty_full_loop bits full empty = (full && forallb (fun b => b =? 0xff) bits, empty && forallb (fun b => b =? 0) bits).
Proof.
  revert full empty. induction bits as [|b bits IH]; intros full empty; cbn [empty_full_loop forallb]; [by rewrite !andb_true_r|].
  rewrite IH. by rewrite !andb_assoc.
Qed.

Lemma UpdateEmptyFull_eq f :
  UpdateEmptyFull f = with_bits (vData f) (forallb (fun b => b =? 0xff) (vData f)) (forallb (fun b => b =? 0) (vData f)) f.
Proof. unfold UpdateEmptyFull. by rewrite empty_full_ok. Qed.

Lemma UpdateEmptyFull_ok f : bytes_ok (vData f) -> filter_ok (UpdateEmptyFull f).
Proof. intros Hb. rewrite UpdateEmptyFull_eq. split; cbn; [|done]. destruct (vData f); [by left|by right]. Qed.

Lemma bit_on_nonzero bits i : bit_on bits i -> forallb (fun b => b =? 0) bits = false.
Proof.
  intros (b & Hb & Ht). apply not_true_iff_false. intros Hz. rewrite forallb_forall in Hz.
  apply list_elem_of_lookup_2, list_elem_of_In, Hz, Z.eqb_eq in Hb as ->. by rewrite Z.bits_0 in Ht.
Qed.

(** Loading a filter keeps its keys, if it has a hash function. *)
Lemma load_keeps f k : 0 < nHashFuncs f -> isFull f = false -> in_filter f k -> in_filter (UpdateEmptyFull (received f)) k.
Proof.
  intros Hn Hf [?|[_ Hk]]; [congruence|]. rewrite UpdateEmptyFull_eq. right. cbn [isEmpty vData with_bits received].
  split; [|exact Hk]. eapply bit_on_nonzero, (Hk 0). lia.
Qed.

(** ** Lemmas: peers *)

Definition peer_ok (p : FilterPeer) : Prop := forall f, pfilter p = Some f -> filter_ok f.

Definition event_ok (e : FilterEvent) : Prop :=
  match e with
  | FILTERLOAD payload | FILTERADD payload => bytes_ok payload
  | FILTERCLEAR => True
  | ANNOUNCE tx => Z.of_nat (length (vout tx)) <= 2 ^ 32
  end.

(** The events that do not replace the filter. *)
Definition keeps (e : FilterEvent) : Prop := match e with FILTERADD _ | ANNOUNCE _ => True | _ => False end.

Lemma default_ok : filter_ok CBloomFilter_default.
Proof. split; [by left|by constructor]. Qed.

Lemma announces_ok tx p :
  peer_ok p -> Z.of_nat (length (vout tx)) <= 2 ^ 32 ->
  exists b p', announces tx p = Some (b, p') /\ peer_ok p'
  /\ (forall f, pfilter p = Some f -> exists f', pfilter p' = Some f' /\ extends f f' /\ forall k, element tx k -> in_filter f k -> b = true).
Proof.
  intros Hp Hl. unfold announces. destruct (pfilter p) as [f|] eqn:E; [|exists true, p; split_and!; [done|done|congruence]].
  destruct (relevant_ok f tx (Hp f E) Hl) as (b & f' & -> & Hf' & He & _ & Hb & _). cbn [mbind option_bind].
  exists b, (with_filter f' p). split; [done|]. split; [by intros ? [= <-]|]. intros ? [= <-]. exists f'. split; [done|]. by split.
Qed.

Lemma filteradd_ok banscore item p :
  peer_ok p -> exists p', on_filteradd banscore item p = Some p' /\ peer_ok p'
  /\ (forall f, pfilter p = Some f -> exists f', pfilter p' = Some f' /\ extends f f').
Proof.
  intros Hp. unfold on_filteradd. case_if; [exists (Misbehaving banscore 100 p); split; [done|]; split; [exact Hp|intros f Hf; by exists f]|].
  destruct (pfilter p) as [f|] eqn:E; [|exists (Misbehaving banscore 100 p); split; [done|]; split; [intros f; cbn; congruence|done]].
  destruct (insert_ok f item (Hp f E)) as (f' & -> & Hf' & He & _). cbn [mbind option_bind].
  exists (with_filter f' p). split; [done|]. split; [by intros ? [= <-]|]. intros ? [= <-]. eauto.
Qed.

Lemma process_ok banscore bloom e p :
  peer_ok p -> event_ok e -> exists p', process banscore bloom e p = Some p' /\ peer_ok p'
  /\ (keeps e -> forall f, pfilter p = Some f -> exists f', pfilter p' = Some f' /\ extends f f').
Proof.
  intros Hp He. destruct e as [payload|payload| |tx]; cbn [process keeps event_ok] in *.
  - destruct bloom; cbn [negb]; [|eexists; split; [done|]; split; [by case_if|done]].
    destruct (read_filter payload) as [[filter rest]|] eqn:E; [|by exists p].
    apply yields_filter in E as [Hb _]; [|done]. eexists. split; [done|]. split; [|done].
    unfold on_filterload. case_if; [exact Hp|]. intros f [= <-]. by apply UpdateEmptyFull_ok.
  - destruct bloom; cbn [negb]; [|eexists; split; [done|]; split; [by case_if|]; intros _ f Hf; exists f; by case_if].
    destruct (read_bytes payload) as [[item rest]|]; [|exists p; split; [done|]; split; [done|]; intros _ f Hf; by exists f].
    destruct (filteradd_ok banscore item p Hp) as (p' & -> & Hp' & Hk). by exists p'.
  - eexists. split; [done|]. split; [|done]. unfold on_filterclear. destruct bloom; [|exact Hp]. intros f [= <-]. apply default_ok.
  - destruct (announces_ok tx p Hp He) as (b & p' & -> & Hp' & Hk). exists p'. split; [done|]. split; [done|].
    intros _ f Hf. destruct (Hk f Hf) as (f' & ? & ? & _). by exists f'.
Qed.

Lemma process_all_ok banscore bloom l p :
  peer_ok p -> Forall event_ok l -> exists p', process_all banscore bloom l p = Some p' /\ peer_ok p'
  /\ (Forall keeps l -> forall f, pfilter p = Some f -> exists f', pfilter p' = Some f' /\ extends f f').
Proof.
  intros Hp Hl. revert p Hp. induction Hl as [|e l He _ IH]; intros p Hp; cbn [process_all].
  { exists p. split; [done|]. split; [done|]. intros _ f Hf. by exists f. }
  destruct (process_ok banscore bloom e p Hp He) as (p1 & -> & Hp1 & Hk1). cbn [mbind option_bind].
  destruct (IH p1 Hp1) as (p2 & -> & Hp2 & Hk2). exists p2. split; [done|]. split; [done|].
  intros Hk f Hf. inversion_clear Hk as [|? ? Hke Hkl]. destruct (Hk1 Hke f Hf) as (f1 & Hf1 & He1).
  destruct (Hk2 Hkl f1 Hf1) as (f2 & Hf2 & He2). exists f2. split; [done|]. by transitivity f1.
Qed.

(** ** Lemmas: blocks *)

Lemma match_block_ok txs f :
  filter_ok f -> Forall (fun tx => Z.of_nat (length (vout tx)) <= 2 ^ 32) txs ->
  exists vMatch f', match_block f txs = Some (vMatch, f') /\ filter_ok f' /\ extends f f' /\ length vMatch = length txs
  /\ (forall i tx k, txs !! i = Some tx -> element tx k -> in_filter f k -> vMatch !! i = Some true)
  /\ (forall i tx j o k n tx' inp, txs !! i = Some tx -> vout tx !! j = Some o -> holds (scriptPubKey o) k -> in_filter f k ->
        updates f (scriptPubKey o) -> (i < n)%nat -> txs !! n = Some tx' -> inp ∈ vin tx' ->
        prevout inp = {| op_hash := tx_hash tx; op_n := Z.of_nat j |} -> vMatch !! n = Some true).
Proof.
  intros Hf Hl. revert f Hf. induction Hl as [|tx txs Htx _ IH]; intros f Hf; cbn [match_block].
  { exists [], f. split_and!; [done|done|done|done|done|]. intros ? ? ? ? ? ? ? ? ?. done. }
  destruct (relevant_ok f tx Hf Htx) as (b & f1 & -> & Hf1 & He1 & _ & Hb & Hup). cbn [mbind option_bind].
  destruct (IH f1 Hf1) as (vMatch & f2 & -> & Hf2 & He2 & Hlen & Hm & Hc). cbn [mbind option_bind].
  exists (b :: vMatch), f2. split; [done|]. split; [done|]. split; [by transitivity f1|]. split; [cbn; by rewrite Hlen|]. split.
  - intros [|i] t k Hi Hk Hin; [injection Hi as <-; cbn; by rewrite (Hb k Hk Hin)|].
    exact (Hm i t k Hi Hk (extends_in _ _ _ Hf He1 Hin)).
  - intros [|i] t j o k [|n] t' inp Hi Hj Hk Hin Hu Hlt Hn Hinp Hp; [lia| |lia|].
    + injection Hi as <-. apply (Hm n t' (outpoint_key (prevout inp)) Hn); [by constructor|]. rewrite Hp. exact (Hup j o k Hj Hk Hin Hu).
    + apply (Hc i t j o k n t' inp Hi Hj Hk (extends_in _ _ _ Hf He1 Hin) (updates_extends _ _ _ He1 Hu) ltac:(lia) Hn Hinp Hp).
Qed.

Lemma elem_of_matched vMatch i : vMatch !! i = Some true -> i ∈ matched vMatch.
Proof.
  intros Hi. unfold matched, sel. apply list_elem_of_filter. split; [done|]. apply elem_of_seq.
  apply lookup_lt_Some in Hi. lia.
Qed.

(** ** Lemmas: the cells of the rolling filter *)

(** The two bits at a position and the two bits of a generation number. *)
Definition cell (words : list Z) (pos : nat) (bit : Z) : bool * bool := (Z.testbit (words !!! pos) bit, Z.testbit (words !!! S pos) bit).
Definition stamp (g : Z) : bool * bool := (Z.testbit g 0, Z.testbit g 1).
(** The number of the [G]-th generation, from 0 on. *)
Definition number (G : Z) : Z := G mod 3 + 1.

Definition even_length (words : list Z) : Prop := exists n : nat, (0 < n)%nat /\ length words = (2 * n)%nat.

Lemma number_range G : number G = 1 \/ number G = 2 \/ number G = 3.
Proof. unfold number. pose proof (Z.mod_pos_bound G 3). lia. Qed.

Lemma stamp_set G : stamp (number G) <> (false, false).
Proof. by destruct (number_range G) as [-> | [-> | ->]]. Qed.

Lemma stamp_inj G H : stamp (number G) = stamp (number H) -> number G = number H.
Proof. by destruct (number_range G) as [-> | [-> | ->]], (number_range H) as [-> | [-> | ->]]. Qed.

Lemma number_next G : number (G + 1) = if number G + 1 =? 4 then 1 else number G + 1.
Proof. unfold number. case_if; pose proof (Z.div_mod G 3); pose proof (Z.div_mod (G + 1) 3); pose proof (Z.mod_pos_bound G 3); pose proof (Z.mod_pos_bound (G + 1) 3); lia. Qed.

Lemma number_other G H : G < H <= G + 2 -> number G <> number H.
Proof. unfold number. intros HH E. pose proof (Z.div_mod G 3). pose proof (Z.div_mod H 3). lia. Qed.

Lemma position_ok words h : even_length words -> 0 <= h ->
  exists pos bit, position words h = Some (pos, bit) /\ 0 <= bit < 64 /\ (exists n, pos = 2 * n)%nat /\ (S pos < length words)%nat.
Proof.
  intros (n & Hn & Hl) Hh. unfold position. rewrite (proj2 (Z.eqb_neq _ 0)) by lia.
  set (p := Z.shiftr h 6 mod Z.of_nat (length words)). assert (0 <= p < Z.of_nat (length words)) as Hp by (apply Z.mod_pos_bound; lia).
  pose proof (land_le_l p (u32 (Z.lnot 1)) ltac:(lia)) as Hq. set (q := Z.land p (u32 (Z.lnot 1))) in *.
  assert (Z.even q = true) as He.
  { rewrite <- Z.negb_odd. apply negb_true_iff. rewrite <- Z.bit0_odd. unfold q. rewrite Z.land_spec. apply andb_false_r. }
  apply Z.even_spec in He as [m Hm].
  eexists _, _. split; [done|]. split; [|split; [exists (Z.to_nat m); lia|lia]].
  change 0x3F with (Z.ones 6). rewrite Z.land_ones by lia. apply Z.mod_pos_bound. lia.
Qed.

Lemma put_bit_ok words i bit v :
  (i < length words)%nat -> 0 <= bit < 64 -> v = 0 \/ v = 1 ->
  exists words', put_bit words i bit v = Some words' /\ length words' = length words
  /\ forall i' b', 0 <= b' < 64 -> Z.testbit (words' !!! i') b' = if decide (i' = i /\ b' = bit) then Z.testbit v 0 else Z.testbit (words !!! i') b'.
Proof.
  intros Hi Hb Hv. destruct (lookup_lt_is_Some_2 words i Hi) as [w Ew]. unfold put_bit. rewrite Ew. cbn [mbind option_bind].
  eexists. split; [done|]. split; [apply length_insert|]. intros i' b' Hb'.
  destruct (decide (i' = i)) as [->|Hne].
  2:{ rewrite list_lookup_total_insert_ne by done. rewrite decide_False; [done|by intros [? _]]. }
  rewrite list_lookup_total_insert_eq by done. rewrite (list_lookup_total_correct _ _ _ Ew).
  assert (forall x, Z.testbit (u64 x) b' = Z.testbit x b') as Hu.
  { intros x. unfold wrap. rewrite <- Z.land_ones, Z.land_spec, Z.ones_spec_low, andb_true_r by lia. done. }
  rewrite Z.lor_spec, Z.land_spec, Hu, Z.lnot_spec, !Hu, Z.shiftl_1_l, Z.pow2_bits_eqb, Z.shiftl_spec by lia.
  destruct (decide (b' = bit)) as [->|Hb2].
  - rewrite decide_True by done. rewrite Z.eqb_refl, andb_false_r, Z.sub_diag. done.
  - rewrite decide_False by (intros [_ ?]; done). rewrite (proj2 (Z.eqb_neq _ _)) by done. cbn [negb]. rewrite andb_true_r.
    assert (Z.testbit v (b' - bit) = false) as ->; [|by rewrite orb_false_r].
    destruct Hv as [-> | ->]; [apply Z.bits_0|]. destruct (Z.lt_ge_cases b' bit); [apply Z.testbit_neg_r; lia|].
    apply Z.bits_above_log2; [lia|]. cbn. lia.
Qed.

Lemma mask_bits g bit : g = 1 \/ g = 2 \/ g = 3 -> 0 <= bit < 64 ->
  (Z.testbit (u64 (- Z.land g 1)) bit, Z.testbit (u64 (- Z.shiftr g 1)) bit) = stamp g.
Proof.
  intros Hg Hb. assert (Z.testbit (2 ^ 64 - 1) bit = true) as Ho by (change (2 ^ 64 - 1) with (Z.ones 64); apply Z.ones_spec_low; lia).
  destruct Hg as [-> | [-> | ->]].
  - change (u64 (- Z.land 1 1)) with (2 ^ 64 - 1). change (u64 (- Z.shiftr 1 1)) with 0. by rewrite Ho, Z.bits_0.
  - change (u64 (- Z.land 2 1)) with 0. change (u64 (- Z.shiftr 2 1)) with (2 ^ 64 - 1). by rewrite Ho, Z.bits_0.
  - change (u64 (- Z.land 3 1)) with (2 ^ 64 - 1). change (u64 (- Z.shiftr 3 1)) with (2 ^ 64 - 1). by rewrite Ho.
Qed.

(** Wiping a generation leaves the cells of the others. *)
Lemma wipe_ok g n words : g = 1 \/ g = 2 \/ g = 3 -> length words = (2 * n)%nat ->
  exists words', wipe (u64 (- Z.land g 1)) (u64 (- Z.shiftr g 1)) words = Some words' /\ length words' = length words
  /\ forall m bit, (m < n)%nat -> 0 <= bit < 64 -> cell words (2 * m) bit <> stamp g -> cell words' (2 * m) bit = cell words (2 * m) bit.
Proof.
  intros Hg. revert words. induction n as [|n IH]; intros words Hl.
  { destruct words; [|cbn in Hl; lia]. exists []. split_and!; [done|done|lia]. }
  destruct words as [|p1 [|p2 words]]; [cbn in Hl; lia..|]. destruct (IH words ltac:(cbn in Hl; lia)) as (words' & E & Hl' & Hc).
  cbn [wipe]. rewrite E. cbn [mbind option_bind]. eexists. split; [done|]. split; [cbn; by rewrite Hl'|].
  intros [|m] bit Hm Hb Hs.
  - pose proof (mask_bits g bit Hg Hb) as Hk. unfold cell in *. cbn [lookup_total list_lookup_total Nat.mul Nat.add] in *.
    rewrite !Z.land_spec, !Z.lor_spec, !Z.lxor_spec. unfold stamp in Hs, Hk. pose proof (f_equal fst Hk) as Hk1. pose proof (f_equal snd Hk) as Hk2.
    cbn [fst snd] in Hk1, Hk2. rewrite Hk1, Hk2. destruct (Z.testbit p1 bit), (Z.testbit p2 bit), (Z.testbit g 0), (Z.testbit g 1); done.
  - replace (2 * S m)%nat with (S (S (2 * m))) in * by lia. unfold cell in *. cbn [lookup_total list_lookup_total] in *.
    apply Hc; [lia|done|done].
Qed.

(** ** Lemmas: inserting into the rolling filter *)

Lemma murmur_nonneg seed d : 0 <= MurmurHash3 seed d.
Proof.
  unfold MurmurHash3. destruct (murmur_body _ _ _) as [h1 t]. unfold murmur_final.
  apply Z.lxor_nonneg. rewrite Z.shiftr_nonneg. done.
Qed.

(** The cell of a key for a hash function; it depends on the length of the words only. *)
Definition key_cell (words : list Z) (tweak i : Z) (k : list Z) : option (nat * Z) := position words (RollingBloomHash i tweak k).

Lemma key_cell_ok words tweak i k : even_length words ->
  exists m bit, key_cell words tweak i k = Some ((2 * m)%nat, bit) /\ 0 <= bit < 64 /\ (S (2 * m) < length words)%nat.
Proof.
  intros He. destruct (position_ok words (RollingBloomHash i tweak k) He (murmur_nonneg _ _)) as (pos & bit & E & Hb & (m & ->) & Hp).
  by exists m, bit.
Qed.

Lemma key_cell_length words words' tweak i k : length words' = length words -> key_cell words' tweak i k = key_cell words tweak i k.
Proof. intros H. unfold key_cell, position. by rewrite H. Qed.

Lemma even_length_eq words words' : length words' = length words -> even_length words -> even_length words'.
Proof. intros H (n & Hn & Hl). exists n. by rewrite H. Qed.

Lemma generation_bits G : let g := number G in
  (Z.land g 1 = 0 \/ Z.land g 1 = 1) /\ (Z.shiftr g 1 = 0 \/ Z.shiftr g 1 = 1) /\ stamp g = (Z.testbit (Z.land g 1) 0, Z.testbit (Z.shiftr g 1) 0).
Proof. cbn zeta. destruct (number_range G) as [-> | [-> | ->]]; cbn; auto. Qed.

Lemma rolling_insert_loop_ok G n i tweak words k :
  even_length words ->
  exists words', rolling_insert_loop n i (number G) tweak words k = Some words' /\ length words' = length words
  /\ (forall m bit, 0 <= bit < 64 -> cell words' (2 * m) bit = cell words (2 * m) bit \/ cell words' (2 * m) bit = stamp (number G))
  /\ (forall j m bit, i <= j < i + Z.of_nat n -> key_cell words tweak j k = Some ((2 * m)%nat, bit) -> cell words' (2 * m) bit = stamp (number G)).
Proof.
  destruct (generation_bits G) as (Hg1 & Hg2 & Hs). revert i words. induction n as [|n IH]; intros i words He; cbn [rolling_insert_loop].
  { exists words. split_and!; [done|done|by left|]. intros. lia. }
  destruct (key_cell_ok words tweak i k He) as (m & bit & E & Hb & Hm). unfold key_cell in E. rewrite E. cbn [mbind option_bind].
  destruct (put_bit_ok words (2 * m) bit (Z.land (number G) 1) ltac:(lia) Hb Hg1) as (w1 & -> & Hl1 & H1). cbn [mbind option_bind].
  destruct (put_bit_ok w1 (S (2 * m)) bit (Z.shiftr (number G) 1) ltac:(lia) Hb Hg2) as (w2 & -> & Hl2 & H2). cbn [mbind option_bind].
  assert (length w2 = length words) as Hl by congruence.
  destruct (IH (i + 1) w2 (even_length_eq _ _ Hl He)) as (w3 & -> & Hl3 & Hc & Hk). exists w3. split; [done|]. split; [congruence|].
  assert (cell w2 (2 * m) bit = stamp (number G)) as Hm2.
  { rewrite Hs. unfold cell. rewrite !H2, !H1 by done. rewrite (decide_False (P := (2 * m)%nat = S (2 * m) /\ _)) by lia. by rewrite !decide_True by done. }
  assert (forall m' bit', 0 <= bit' < 64 -> cell w2 (2 * m') bit' = cell words (2 * m') bit' \/ cell w2 (2 * m') bit' = stamp (number G)) as Hold.
  { intros m' bit' Hb'. destruct (decide (m' = m /\ bit' = bit)) as [[-> ->]|Hne]; [by right|left]. unfold cell.
    rewrite !H2, !H1 by done. rewrite !decide_False by (intros [? ->]; apply Hne; split; [lia|done]). done. }
  split.
  - intros m' bit' Hb'. destruct (Hc m' bit' Hb') as [->|?]; [by apply Hold|by right].
  - intros j m' bit' Hj Hp. destruct (decide (j = i)) as [->|].
    + unfold key_cell in Hp. rewrite E in Hp. injection Hp as Hp1 Hp2. assert (m' = m) as -> by lia. subst bit'.
      destruct (Hc m bit Hb) as [->|?]; done.
    + apply (Hk j); [lia|]. by rewrite (key_cell_length words).
Qed.

Lemma rolling_contains_ok n i tweak words k :
  even_length words ->
  exists b : bool, rolling_contains_loop n i tweak words k = Some b
  /\ (b = true <-> forall j m bit, i <= j < i + Z.of_nat n -> key_cell words tweak j k = Some ((2 * m)%nat, bit) -> cell words (2 * m) bit <> (false, false)).
Proof.
  intros He. revert i. induction n as [|n IH]; intros i; cbn [rolling_contains_loop].
  { exists true. split; [done|]. split; [intros _ j; lia|done]. }
  destruct (key_cell_ok words tweak i k He) as (m & bit & E & Hb & Hm). pose proof E as E'. unfold key_cell in E'. rewrite E'. cbn [mbind option_bind].
  destruct (lookup_lt_is_Some_2 words (2 * m) ltac:(lia)) as [a Ea], (lookup_lt_is_Some_2 words (S (2 * m)) Hm) as [b Eb].
  rewrite Ea, Eb. cbn [mbind option_bind].
  assert (Z.land (Z.shiftr (Z.lor a b) bit) 1 =? 0 = bool_decide (cell words (2 * m) bit = (false, false))) as ->.
  { unfold cell. rewrite (list_lookup_total_correct _ _ _ Ea), (list_lookup_total_correct _ _ _ Eb).
    change 1 with (Z.ones 1). rewrite Z.land_ones by lia. change (2 ^ 1) with 2. rewrite Zmod_odd, <- Z.bit0_odd, Z.shiftr_spec, Z.add_0_l, Z.lor_spec by lia.
    by destruct (Z.testbit a bit), (Z.testbit b bit). }
  case_bool_decide as Hc.
  - exists false. split; [done|]. split; [done|]. intros H. by destruct (H i m bit ltac:(lia) E).
  - destruct (IH (i + 1)) as (c & -> & Hx). exists c. split; [done|]. rewrite Hx. split.
    + intros H j m' bit' Hj Hp. destruct (decide (j = i)) as [->|]; [|apply (H j); [lia|done]].
      rewrite E in Hp. injection Hp as Hp1 Hp2. assert (m' = m) as -> by lia. by subst bit'.
    + intros H j m' bit' Hj. apply H. lia.
Qed.

(** ** The invariant of the rolling filter *)

(** [k] was inserted in generation [Gk] and its cells are of that generation or a later one. *)
Definition marked (f : CRollingBloomFilter) (G Gk : Z) (k : list Z) : Prop :=
  forall i m bit, 0 <= i < rolling_nHashFuncs f -> key_cell (data f) (rolling_nTweak f) i k = Some ((2 * m)%nat, bit) ->
    exists G', Gk <= G' <= G /\ cell (data f) (2 * m) bit = stamp (number G').

Record rolling_inv (f : CRollingBloomFilter) (G : Z) (keys : list (list Z)) : Prop := {
  ri_generation : 0 <= G;
  ri_number : nGeneration f = number G;
  ri_words : even_length (data f);
  ri_capacity : 1 <= nEntriesPerGeneration f < 2 ^ 31;
  ri_entries : 0 <= nEntriesThisGeneration f <= nEntriesPerGeneration f;
  ri_count : Z.of_nat (length keys) = G * nEntriesPerGeneration f + nEntriesThisGeneration f;
  ri_marks j k : keys !! j = Some k ->
    exists Gk, 0 <= Gk <= G /\ Z.of_nat j < (Gk + 1) * nEntriesPerGeneration f /\ (G - Gk <= 2 -> marked f G Gk k);
}.

Lemma rotate_ok f G keys :
  rolling_inv f G keys ->
  exists f' G', rotate f = Some f' /\ rolling_inv f' G' keys /\ nEntriesThisGeneration f' < nEntriesPerGeneration f'
  /\ rolling_nHashFuncs f' = rolling_nHashFuncs f /\ rolling_nTweak f' = rolling_nTweak f /\ nEntriesPerGeneration f' = nEntriesPerGeneration f.
Proof.
  intros Hi. pose proof Hi as [H1 H2 (n & Hn & Hl) H4 H5 H6 H7]. unfold rotate. destruct (Z.eqb_spec (nEntriesThisGeneration f) (nEntriesPerGeneration f)) as [E|E].
  2:{ exists f, G. split_and!; try done. lia. }
  rewrite H2, <- number_next. destruct (wipe_ok (number (G + 1)) n (data f) (number_range _) Hl) as (words & -> & Hl' & Hw). cbn [mbind option_bind].
  eexists _, (G + 1). split; [done|]. split; [|split_and!; cbn; [lia|done|done|done]].
  split; cbn; [lia|done|exists n; split; [done|congruence]|done|lia|lia|].
  intros j k Hj. destruct (H7 j k Hj) as (Gk & Hg & Hc & Hm). exists Gk. split; [lia|]. split; [done|]. intros Hd i m bit Hi' Hp. cbn [rolling_with data rolling_nTweak rolling_nHashFuncs] in *.
  rewrite (key_cell_length (data f)) in Hp by done. destruct (Hm ltac:(lia) i m bit Hi' Hp) as (G' & HG' & Hcell). exists G'. split; [lia|].
  destruct (key_cell_ok (data f) (rolling_nTweak f) i k) as (m' & bit' & Hp' & Hb' & Hm'); [by exists n|]. rewrite Hp in Hp'. injection Hp' as Ha Hbit. subst bit'.
  rewrite Hw; [done|lia|done|]. rewrite Hcell. intros Hx%stamp_inj. by apply (number_other G' (G + 1)) in Hx; [|lia].
Qed.

Lemma rolling_insert_ok f G keys k :
  rolling_inv f G keys ->
  exists f' G', rolling_insert f k = Some f' /\ rolling_inv f' G' (keys ++ [k])
  /\ rolling_nHashFuncs f' = rolling_nHashFuncs f /\ nEntriesPerGeneration f' = nEntriesPerGeneration f.
Proof.
  intros Hi. destruct (rotate_ok f G keys Hi) as (f1 & G1 & E1 & [H1 H2 H3 H4 H5 H6 H7] & Hlt & Hh & _ & Hc). unfold rolling_insert. rewrite E1. cbn [mbind option_bind].
  rewrite Z.geb_leb, (proj2 (Z.leb_gt (2 ^ 31) _)) by lia. rewrite H2.
  destruct (rolling_insert_loop_ok G1 (Z.to_nat (rolling_nHashFuncs f1)) 0 (rolling_nTweak f1) (data f1) k H3) as (words & -> & Hl & Hold & Hnew).
  cbn [mbind option_bind]. eexists _, G1. split; [done|]. split; [|by cbn].
  split; cbn; [done|done|by eapply even_length_eq|done|lia|rewrite length_app; cbn; lia|].
  intros j k' Hj. apply lookup_app_Some in Hj as [Hj|[Hj1 Hj]].
  - destruct (H7 j k' Hj) as (Gk & Hg & Hb & Hm). exists Gk. split; [done|]. split; [done|]. intros Hd i m bit Hi' Hp. cbn [rolling_with data rolling_nTweak rolling_nHashFuncs] in *.
    rewrite (key_cell_length (data f1)) in Hp by done. destruct (Hm Hd i m bit Hi' Hp) as (G' & HG' & Hcell).
    destruct (key_cell_ok (data f1) (rolling_nTweak f1) i k' H3) as (m' & bit' & Hp' & Hbit & _). rewrite Hp in Hp'. injection Hp' as _ <-.
    destruct (Hold m bit Hbit) as [-> | ->]; [by exists G'|exists G1; split; [lia|done]].
  - apply list_lookup_singleton_Some in Hj as [Hj0 <-]. exists G1. split; [lia|]. split; [lia|]. intros _ i m bit Hi' Hp. cbn [rolling_with data rolling_nTweak rolling_nHashFuncs] in *.
    rewrite (key_cell_length (data f1)) in Hp by done. exists G1. split; [lia|]. apply (Hnew i); [lia|done].
Qed.

Fixpoint rolling_insert_all (f : CRollingBloomFilter) (keys : list (list Z)) : option CRollingBloomFilter :=
  match keys with
  | [] => Some f
  | k :: keys => f ← rolling_insert f k; rolling_insert_all f keys
  end.

Lemma rolling_insert_all_ok f G keys l :
  rolling_inv f G keys -> exists f' G', rolling_insert_all f l = Some f' /\ rolling_inv f' G' (keys ++ l)
  /\ rolling_nHashFuncs f' = rolling_nHashFuncs f /\ nEntriesPerGeneration f' = nEntriesPerGeneration f.
Proof.
  revert f G keys. induction l as [|k l IH]; intros f G keys Hi; cbn [rolling_insert_all].
  { exists f, G. by rewrite app_nil_r. }
  destruct (rolling_insert_ok f G keys k Hi) as (f1 & G1 & -> & Hi1 & Hh1 & Hc1). cbn [mbind option_bind].
  destruct (IH f1 G1 (keys ++ [k]) Hi1) as (f2 & G2 & -> & Hi2 & Hh2 & Hc2). rewrite <- app_assoc in Hi2. exists f2, G2. split_and!; [done|done|congruence|congruence].
Qed.

Lemma rolling_make_inv rounded bits n tweak :
  1 <= n <= 2 ^ 32 - 2 -> 1 <= bits <= 2 ^ 32 - 64 -> rolling_inv (CRollingBloomFilter_make rounded bits n tweak) 0 []
  /\ nEntriesPerGeneration (CRollingBloomFilter_make rounded bits n tweak) = (n + 1) / 2.
Proof.
  intros Hn Hb. unfold CRollingBloomFilter_make, rolling_reset. cbn [nEntriesPerGeneration data rolling_nHashFuncs].
  rewrite (wrap_small 32 (n + 1)) by (unfold in_u; lia). rewrite (wrap_small 32 (bits + 63)) by (unfold in_u; lia).
  assert (1 <= (n + 1) / 2 < 2 ^ 31) as Hc by (split; [apply Z.div_le_lower_bound; lia|apply Z.div_lt_upper_bound; lia]).
  rewrite (swrap_small 32) by (lia || (unfold in_s; lia)).
  assert (1 <= (bits + 63) / 64 < 2 ^ 26) as Hw by (split; [apply Z.div_le_lower_bound; lia|apply Z.div_lt_upper_bound; lia]).
  rewrite Z.shiftl_mul_pow2 by lia. rewrite wrap_small by (unfold in_u; lia). split; [|done].
  split; cbn; [lia|done| |lia|lia|lia|intros j k; by rewrite lookup_nil].
  exists (Z.to_nat ((bits + 63) / 64)). rewrite !length_replicate. lia.
Qed.

Lemma rolling_new rounded bits n tweak k :
  1 <= n <= 2 ^ 32 - 2 -> 1 <= bits <= 2 ^ 32 - 64 -> rolling_contains (CRollingBloomFilter_make rounded bits n tweak) k = Some false.
Proof.
  intros Hn Hb. destruct (rolling_make_inv rounded bits n tweak Hn Hb) as [[_ _ He _ _ _ _] _]. set (f := CRollingBloomFilter_make rounded bits n tweak) in *.
  unfold rolling_contains. destruct (rolling_contains_ok (Z.to_nat (rolling_nHashFuncs f)) 0 (rolling_nTweak f) (data f) k He) as ([|] & -> & Hx); [exfalso|done].
  destruct (key_cell_ok (data f) (rolling_nTweak f) 0 k He) as (m & bit & E & Hbit & Hm).
  apply (proj1 Hx eq_refl 0 m bit); [|done|].
  - unfold f, CRollingBloomFilter_make. cbn. lia.
  - assert (forall i, (i < length (data f))%nat -> data f !!! i = 0) as H0; [|unfold cell; by rewrite !H0, !Z.bits_0 by lia].
    unfold f, CRollingBloomFilter_make, rolling_reset. cbn [data]. intros i. rewrite !length_replicate. apply lookup_total_replicate_2.
Qed.

(** ** Properties *)

(** Which transactions a filter selects, exactly.  The test never fails on a filter that is full or has data; a
    transaction that is selected has an element in the filter that is left, and one with an element in the filter - its
    hash, the data in its scripts, an outpoint it spends - is selected.  The outpoints of matching outputs that the
    flags ask for are in the filter that is left, and no key is lost. *)
Theorem IsRelevantAndUpdate_correct f tx :
  filter_ok f -> Z.of_nat (length (vout tx)) <= 2 ^ 32 ->
  exists b f', IsRelevantAndUpdate f tx = Some (b, f') /\ filter_ok f'
  /\ (b = true -> exists k, element tx k /\ contains f' k = Some true)
  /\ (forall k, element tx k -> contains f k = Some true -> b = true)
  /\ (forall j o k, vout tx !! j = Some o -> holds (scriptPubKey o) k -> contains f k = Some true -> updates f (scriptPubKey o) ->
        contains f' (outpoint_key {| op_hash := tx_hash tx; op_n := Z.of_nat j |}) = Some true)
  /\ (forall k, contains f k = Some true -> contains f' k = Some true).
Proof.
  intros Hf Hl. destruct (relevant_ok f tx Hf Hl) as (b & f' & E & Hf' & He & H1 & H2 & H3). exists b, f'.
  split; [exact E|]. split; [exact Hf'|]. split; [|split; [|split]].
  - intros Hb. destruct (H1 Hb) as (k & Hk & Hin). exists k. split; [done|]. by apply contains_true.
  - intros k Hk Hc. apply contains_true in Hc; [|done]. by apply (H2 k).
  - intros j o k Hj Hk Hc Hu. apply contains_true in Hc; [|done]. apply contains_true; [done|]. exact (H3 j o k Hj Hk Hc Hu).
  - intros k Hc. apply contains_true in Hc; [|done]. apply contains_true; [done|]. exact (extends_in f f' k Hf He Hc).
Qed.

(** C28: a light client is served.  A filter that a client builds with at least a byte and a hash function, fills with keys
    and sends is accepted by a node that offers the service, whatever the state of the peer; any messages and
    announcements after it never abort the node; and as long as none of them replaces the filter, every transaction
    with one of the keys passes the filter test for the announcements to the client. *)
Theorem filter_serves_client banscore bits n tweak flags c0 keys p rest events :
  CBloomFilter_make bits n tweak flags = Some c0 -> 8 <= bits -> 0 <= tweak < 2 ^ 32 -> 0 <= flags < 2 ^ 8 -> 0 < nHashFuncs c0 ->
  bytes_ok rest -> peer_ok p -> Forall event_ok events ->
  exists c p1 p2, insert_all c0 keys = Some c /\ process banscore true (FILTERLOAD (ser_filter c ++ rest)) p = Some p1
  /\ fRelayTxes p1 = true /\ nMisbehavior p1 = nMisbehavior p /\ process_all banscore true events p1 = Some p2
  /\ (Forall keeps events -> forall tx k, Z.of_nat (length (vout tx)) <= 2 ^ 32 -> k ∈ keys -> element tx k ->
        exists p3, announces tx p2 = Some (true, p3)).
Proof.
  intros Hm Hb Ht Hg Hn Hrest Hp Hev. destruct (make_ok _ _ _ _ _ Hm Hb Ht Hg) as (Hs & Hf0 & Hfull & Hd).
  destruct (insert_all_ok keys c0 Hf0) as (c & Ec & Hfc & Hec & Hk). exists c.
  assert (sendable c) as Hsc.
  { destruct Hs as [S1 S2 S3 S4 S5]. destruct Hec as [E1 E2 E3 E4 _ _ _]. split; rewrite ?E1, ?E2, ?E3, ?E4; [apply Hfc|done..]. }
  assert (process banscore true (FILTERLOAD (ser_filter c ++ rest)) p = Some (relay_on (with_filter (UpdateEmptyFull (received c)) p))) as Ep.
  { unfold process. cbn [negb]. rewrite (reads_filter c Hsc rest). unfold on_filterload.
    assert (IsWithinSizeConstraints (received c) = true) as ->; [|done].
    apply andb_true_iff. split; apply Z.leb_le; cbn; apply Hsc. }
  set (p1 := relay_on (with_filter (UpdateEmptyFull (received c)) p)) in *.
  assert (peer_ok p1) as Hp1 by (intros f [= <-]; apply UpdateEmptyFull_ok, Hfc).
  destruct (process_all_ok banscore true events p1 Hp1 Hev) as (p2 & E2 & Hp2 & Hkeep). exists p1, p2.
  do 5 (split; [done|]). intros Hks tx k Hl Hin Hel. destruct (Hkeep Hks _ eq_refl) as (f2 & Hf2 & He2).
  destruct (announces_ok tx p2 Hp2 Hl) as (b & p3 & E3 & _ & Hb3). exists p3. rewrite E3.
  destruct (Hb3 f2 Hf2) as (f3 & _ & _ & Hx). rewrite (Hx k Hel); [done|].
  apply (extends_in (UpdateEmptyFull (received c)) f2); [exact (Hp1 _ eq_refl)|exact He2|].
  apply load_keeps; [by rewrite (ext_funcs _ _ Hec)|by rewrite (ext_full _ _ Hec)|by apply Hk].
Qed.

(** C27: a filtered block holds what the client needs.  From the partial tree made with its filter, packed and read
    back, the client extracts the Merkle root of the block, and among the transactions it extracts are all those with
    an element in the filter and those that spend, later in the block, an output whose outpoint the flags ask for. *)
Theorem filtered_block_served HashPair f txs :
  filter_ok f -> Forall (fun tx => Z.of_nat (length (vout tx)) <= 2 ^ 32) txs ->
  1 <= Z.of_nat (length txs) <= MaxBlockSize true / 60 -> siblings_differ HashPair (map tx_hash txs) ->
  exists t f' vMatched vnIndex, CMerkleBlock_filtered HashPair f txs = Some (t, f')
  /\ ExtractMatches HashPair (reread t) = Some (tree_root HashPair 31 (map tx_hash txs), vMatched, vnIndex)
  /\ (forall i tx k, txs !! i = Some tx -> element tx k -> contains f k = Some true -> tx_hash tx ∈ vMatched /\ Z.of_nat i ∈ vnIndex)
  /\ (forall i tx j o k m tx' inp, txs !! i = Some tx -> vout tx !! j = Some o -> holds (scriptPubKey o) k -> contains f k = Some true ->
        updates f (scriptPubKey o) -> (i < m)%nat -> txs !! m = Some tx' -> inp ∈ vin tx' ->
        prevout inp = {| op_hash := tx_hash tx; op_n := Z.of_nat j |} -> tx_hash tx' ∈ vMatched /\ Z.of_nat m ∈ vnIndex).
Proof.
  intros Hf Hl Hn Hd. destruct (match_block_ok txs f Hf Hl) as (vMatch & f' & Em & Hf' & He & Hlen & Hm & Hc).
  assert (length (map tx_hash txs) = length txs) as Hlm by apply length_map.
  destruct (roundtrip_ok HashPair (map tx_hash txs) ltac:(rewrite Hlm; exact Hn) vMatch ltac:(congruence) Hd) as (t & Et & _ & Hx).
  exists t, f', (map (map tx_hash txs !!!.) (matched vMatch)), (map Z.of_nat (matched vMatch)).
  assert (forall i tx, txs !! i = Some tx -> vMatch !! i = Some true ->
    tx_hash tx ∈ map (map tx_hash txs !!!.) (matched vMatch) /\ Z.of_nat i ∈ map Z.of_nat (matched vMatch)) as Hout.
  { intros i tx Hi Hv. apply elem_of_matched in Hv. split; apply list_elem_of_fmap; exists i; (split; [|done]); [|done].
    symmetry. apply list_lookup_total_correct. by rewrite list_lookup_fmap, Hi. }
  split; [unfold CMerkleBlock_filtered; rewrite Em; cbn [mbind option_bind]; by rewrite Et|]. split; [|split].
  - destruct (unpack_pack_bits (vBits t)) as (m & Eu & El). apply Hx; [done|done|done|by exists m|]. unfold reread. cbn [vBits]. by rewrite Eu.
  - intros i tx k Hi Hk Hin%contains_true; [|done]. apply (Hout i tx Hi). exact (Hm i tx k Hi Hk Hin).
  - intros i tx j o k m tx' inp Hi Hj Hk Hin%contains_true Hu Hlt Hm' Hinp Hp; [|done]. apply (Hout m tx' Hm').
    exact (Hc i tx j o k m tx' inp Hi Hj Hk Hin Hu Hlt Hm' Hinp Hp).
Qed.

(** C29: the rolling filter forgets nothing too early.  A filter made for [nElements] elements contains nothing at first,
    takes any number of elements without leaving its words or overflowing its counters, and contains each of the last
    [nElements] that were inserted (and of as many more as make the number even). *)
Theorem rolling_keeps_last rounded nFilterBits nElements tweak keys :
  1 <= nElements <= 2 ^ 32 - 2 -> 1 <= nFilterBits <= 2 ^ 32 - 64 ->
  let f0 := CRollingBloomFilter_make rounded nFilterBits nElements tweak in
  (forall k, rolling_contains f0 k = Some false)
  /\ exists f, rolling_insert_all f0 keys = Some f
     /\ forall j k, keys !! j = Some k -> Z.of_nat (length keys) - Z.of_nat j <= 2 * ((nElements + 1) / 2) -> rolling_contains f k = Some true.
Proof.
  intros Hn Hb. cbn zeta. split; [intros k; by apply rolling_new|].
  destruct (rolling_make_inv rounded nFilterBits nElements tweak Hn Hb) as [Hi HE].
  destruct (rolling_insert_all_ok _ _ _ keys Hi) as (f & G & E & [H1 H2 H3 H4 H5 H6 H7] & Hh & Hc). cbn [app] in *. exists f. split; [done|].
  intros j k Hj Hlast. destruct (H7 j k Hj) as (Gk & Hg & Hjb & Hm). rewrite HE in Hc. rewrite Hc in *.
  set (E0 := (nElements + 1) / 2) in *.
  assert (G - Gk <= 2) as Hd.
  { destruct (Z.le_gt_cases (G - Gk) 2); [done|]. pose proof (Z.mul_le_mono_nonneg_r (Gk + 1) (G - 2) E0). lia. }
  unfold rolling_contains.
  destruct (rolling_contains_ok (Z.to_nat (rolling_nHashFuncs f)) 0 (rolling_nTweak f) (data f) k H3) as (b & -> & Hx).
  f_equal. apply Hx. intros i m bit Hi' Hp Hcell. destruct (Hm Hd i m bit ltac:(lia) Hp) as (G' & _ & Hs). rewrite Hcell in Hs. by apply (stamp_set G').
Qed.

(** ** Witnesses *)

(** A payment to a key hash, and a transaction that spends it. *)
Definition demo_paid : CTransaction :=
  {| tx_nVersion := 2; vin := [{| prevout := {| op_hash := 1; op_n := 0 |}; scriptSig := [1; 7]; nSequence := SEQUENCE_FINAL |}];
     vout := [CTxOut_make 100000 (GetScriptForDestination (CKeyID (replicate 20 3)))]; nLockTime := 0; tx_hash := 11 |}.
Definition demo_spent : CTransaction :=
  {| tx_nVersion := 2; vin := [{| prevout := {| op_hash := 11; op_n := 0 |}; scriptSig := [1; 8]; nSequence := SEQUENCE_FINAL |}];
     vout := [CTxOut_make 90000 (GetScriptForDestination (CKeyID (replicate 20 4)))]; nLockTime := 0; tx_hash := 22 |}.

(** A filter of 100 bytes with the hash of the key, which asks for all outpoints. *)
Definition demo_key : list Z := replicate 20 3.
Definition demo_filter : CBloomFilter := default CBloomFilter_default (f ← CBloomFilter_make 800 60 5 BLOOM_UPDATE_ALL; insert f demo_key).

Lemma demo_filter_ok : filter_ok demo_filter.
Proof. split; [right; vm_compute; discriminate|apply (bool_decide_unpack _); vm_compute; exact I]. Qed.

Lemma demo_holds : holds (GetScriptForDestination (CKeyID demo_key)) demo_key.
Proof. apply holds_later; [reflexivity|]. apply holds_later; [reflexivity|]. apply (holds_here (20 :: demo_key ++ [OP_EQUALVERIFY; OP_CHECKSIG])); [reflexivity|discriminate]. Qed.

Lemma demo_element : element demo_paid demo_key.
Proof. apply (el_output demo_paid (CTxOut_make 100000 (GetScriptForDestination (CKeyID demo_key)))); [by left|exact demo_holds]. Qed.

Lemma IsRelevantAndUpdate_correct_witness :
  exists f', IsRelevantAndUpdate demo_filter demo_paid = Some (true, f')
  /\ contains f' (outpoint_key {| op_hash := 11; op_n := 0 |}) = Some true /\ contains demo_filter (outpoint_key {| op_hash := 11; op_n := 0 |}) = Some false.
Proof.
  destruct (IsRelevantAndUpdate_correct demo_filter demo_paid demo_filter_ok ltac:(cbn; lia)) as (b & f' & E & _ & _ & Hb & Hu & _).
  assert (contains demo_filter demo_key = Some true) as Hk by (vm_compute; reflexivity).
  exists f'. rewrite E, (Hb demo_key demo_element Hk). split; [reflexivity|]. split; [|vm_compute; reflexivity].
  exact (Hu 0%nat _ demo_key eq_refl demo_holds Hk (or_introl eq_refl)).
Defined.

Definition demo_peer : FilterPeer := {| pfilter := Some CBloomFilter_default; fRelayTxes := false; nVersion := 70300; fDisconnect := false; nMisbehavior := 0; fShouldBan := false |}.

Lemma filter_serves_client_witness :
  exists c0 c p1 p2 p3, CBloomFilter_make 800 60 5 BLOOM_UPDATE_ALL = Some c0 /\ nHashFuncs c0 = 9 /\ insert_all c0 [[1; 2; 3]; demo_key] = Some c
  /\ process 100 true (FILTERLOAD (ser_filter c)) demo_peer = Some p1 /\ process_all 100 true [ANNOUNCE demo_spent; FILTERADD [1; 9]] p1 = Some p2
  /\ announces demo_paid p2 = Some (true, p3).
Proof.
  destruct (CBloomFilter_make 800 60 5 BLOOM_UPDATE_ALL) as [c0|] eqn:E0; [|exfalso; vm_compute in E0; discriminate].
  assert (nHashFuncs c0 = 9) as Hn by (vm_compute in E0; injection E0 as <-; reflexivity).
  destruct (filter_serves_client 100 800 60 5 BLOOM_UPDATE_ALL c0 [[1; 2; 3]; demo_key] demo_peer [] [ANNOUNCE demo_spent; FILTERADD [1; 9]] E0
    ltac:(lia) ltac:(lia) ltac:(unfold BLOOM_UPDATE_ALL; lia) ltac:(lia) ltac:(constructor) ltac:(intros f [= <-]; exact default_ok)
    ltac:(repeat constructor; cbn; unfold in_u; lia)) as (c & p1 & p2 & Ec & E1 & _ & _ & E2 & Ha).
  destruct (Ha ltac:(repeat constructor) demo_paid demo_key ltac:(cbn; lia) ltac:(right; left) demo_element) as (p3 & E3).
  exists c0, c, p1, p2, p3. rewrite app_nil_r in E1. split_and!; assumption || reflexivity.
Defined.

Lemma filtered_block_served_witness :
  exists t f' vMatched vnIndex, CMerkleBlock_filtered toy_merkle_hash demo_filter [demo_paid; demo_spent] = Some (t, f')
  /\ ExtractMatches toy_merkle_hash (reread t) = Some (11022, vMatched, vnIndex) /\ 11 ∈ vMatched /\ 22 ∈ vMatched.
Proof.
  assert (contains demo_filter demo_key = Some true) as Hk by (vm_compute; reflexivity).
  destruct (filtered_block_served toy_merkle_hash demo_filter [demo_paid; demo_spent] demo_filter_ok) as (t & f' & m & x & E1 & E2 & H1 & H2).
  - repeat constructor; cbn; lia.
  - vm_compute. split; discriminate.
  - intros k Hk'. do 18 (destruct k as [|k]; [vm_compute; reflexivity|]). lia.
  - exists t, f', m, x. split; [exact E1|]. split; [exact E2|]. split.
    + exact (proj1 (H1 0%nat demo_paid demo_key eq_refl demo_element Hk)).
    + exact (proj1 (H2 0%nat demo_paid 0%nat _ demo_key 1%nat demo_spent _ eq_refl eq_refl demo_holds Hk (or_introl eq_refl)
        ltac:(lia) eq_refl ltac:(left) eq_refl)).
Defined.

(** Five elements into a filter for two: the last two are in it, and the first one is not. *)
Lemma rolling_keeps_last_witness :
  let keys := [[1]; [2]; [3]; [4]; [5]] in
  exists f, rolling_insert_all (CRollingBloomFilter_make 5 1000 2 77) keys = Some f
  /\ rolling_contains f [4] = Some true /\ rolling_contains f [5] = Some true /\ rolling_contains f [1] = Some false.
Proof.
  destruct (rolling_keeps_last 5 1000 2 77 [[1]; [2]; [3]; [4]; [5]] ltac:(lia) ltac:(lia)) as [_ (f & E & H)].
  exists f. split; [exact E|]. split; [exact (H 3%nat [4] eq_refl ltac:(vm_compute; discriminate))|]. split; [exact (H 4%nat [5] eq_refl ltac:(vm_compute; discriminate))|].
  assert (match rolling_insert_all (CRollingBloomFilter_make 5 1000 2 77) [[1]; [2]; [3]; [4]; [5]] with Some f => rolling_contains f [1] | None => None end = Some false) as Hf
    by (vm_compute; reflexivity).
  rewrite E in Hf. exact Hf.
Defined.

(** A filter without hash functions contains everything once something is inserted, and nothing after it was loaded. *)
Example no_hash_functions :
  let f := {| vData := [0; 0]; isFull := false; isEmpty := true; nHashFuncs := 0; nTweak := 0; nFlags := 0 |} in
  match insert f [1] with
  | Some f => contains f [2] = Some true /\ contains (UpdateEmptyFull (received f)) [1] = Some false
  | None => False
  end.
Proof. split; reflexivity. Qed.

(** The test vectors of the repository's own tests. *)
Example murmur_vectors :
  MurmurHash3 0 [] = 0 /\ MurmurHash3 0xFBA4C795 [] = 0x6a396f08 /\ MurmurHash3 0xffffffff [] = 0x81f16f39
  /\ MurmurHash3 0xFBA4C795 [0] = 0xea3f0b17 /\ MurmurHash3 0 [0xff] = 0xfd6cf10d /\ MurmurHash3 0 [0; 0x11] = 0x16c6b7ab
  /\ MurmurHash3 0 [0; 0x11; 0x22] = 0x8eb51c3d /\ MurmurHash3 0 [0; 0x11; 0x22; 0x33] = 0xb4471bf8
  /\ MurmurHash3 0 [0; 0x11; 0x22; 0x33; 0x44; 0x55; 0x66] = 0xb074502c
  /\ MurmurHash3 0 [0; 0x11; 0x22; 0x33; 0x44; 0x55; 0x66; 0x77; 0x88] = 0xb4698def.
Proof. vm_compute. repeat split. Qed.
