(* ===== verification/Accept.v ===== *)
(** * Accepting transactions to the memory pool

    Models [AcceptToMemoryPoolWorker] and its callers of [src/src/validation.cpp], with [CheckInputs],
    [LimitMempoolSize], the task a thread of the pool runs later, [CCoinsViewMemPool] of [src/src/txmempool.cpp] and
    the priority of a transaction ([src/src/coins.cpp], [src/src/txmempool.cpp]).

    The handler is a computation on the state it shares with the rest of the node - the coins cache [pcoinsTip], the
    pool, the cache of executed scripts, the queue of the thread pool - that stops with an answer or goes on with a
    value; [None] is an assertion, an exception or the overflow of a signed integer.  [pcoinsTip] is one object: the
    view over the pool reads and fills it through a pointer, so every operation on that view takes it from the state
    and puts it back.  The pool is the node's own.  Left out: the metrics, the log, notifications, the address and
    spent indexes, and writing the coins to disk; [CheckMineriumInputs], InstantSend, the rolling minimum fee of the pool
    and [pow] are parameters; the cache of executed scripts is a set. *)

From Stdlib Require Import SpecFloat.
From stdpp Require Import gmap strings relations.
From S2P Require Import Prelude Graph Chain Amount Script Transaction Serialize Coins TxVerify Interpreter.
From S2P Require Import Mempool MempoolRemove MempoolAdd MempoolProps Standard.

(** ** Codes and flags *)

Definition REJECT_NONSTANDARD : Z := 0x40.
Definition REJECT_INSUFFICIENTFEE : Z := 0x42.
Definition REJECT_HIGHFEE : Z := 0x100.
Definition REJECT_ALREADY_KNOWN : Z := 0x101.
Definition REJECT_CONFLICT : Z := 0x102.

Definition MAX_STANDARD_TX_SIGOPS : Z := 4000.
Definition MANDATORY_SCRIPT_VERIFY_FLAGS : Z := SCRIPT_VERIFY_P2SH.
Definition STANDARD_SCRIPT_VERIFY_FLAGS : Z :=
  Z.lor MANDATORY_SCRIPT_VERIFY_FLAGS (Z.lor SCRIPT_VERIFY_DERSIG (Z.lor SCRIPT_VERIFY_STRICTENC (Z.lor SCRIPT_VERIFY_MINIMALDATA
    (Z.lor SCRIPT_VERIFY_NULLDUMMY (Z.lor SCRIPT_VERIFY_DISCOURAGE_UPGRADABLE_NOPS (Z.lor SCRIPT_VERIFY_CLEANSTACK
    (Z.lor SCRIPT_VERIFY_NULLFAIL (Z.lor SCRIPT_VERIFY_CHECKLOCKTIMEVERIFY (Z.lor SCRIPT_VERIFY_CHECKSEQUENCEVERIFY SCRIPT_VERIFY_LOW_S))))))))).
Definition STANDARD_LOCKTIME_VERIFY_FLAGS : Z := Z.lor LOCKTIME_VERIFY_SEQUENCE LOCKTIME_MEDIAN_TIME_PAST.

(** ** Doubles *)

Definition double_add : spec_float -> spec_float -> spec_float := SFadd 53 1024.
Definition double_sub : spec_float -> spec_float -> spec_float := SFsub 53 1024.
Definition double_div : spec_float -> spec_float -> spec_float := SFdiv 53 1024.

(** ** The view over the pool *)

Definition mempool_get (p : CTxMemPool) (h : Z) : option CTransaction := e_tx <$> mapTx p !! h.

(** What the local view of the handler stands on: [CCoinsView dummy], or [CCoinsViewMemPool] with its two pointers. *)
Inductive Backend (V : Type) := Dummy | MemPoolView (base : CCoinsViewCache V) (mempool : CTxMemPool).
Arguments Dummy {V}.
Arguments MemPoolView {V} _ _.

#[export] Instance Backend_view {V} `{CCoinsView V} : CCoinsView (Backend V) := {
  view_GetCoin o v :=
    match v with
    | Dummy => (None, Dummy)
    | MemPoolView b p => let '(r, b) := mempool_GetCoin (mempool_get p) o b in (r, MemPoolView b p)
    end;
  view_GetBestBlock v :=
    match v with
    | Dummy => (0, Dummy)
    | MemPoolView b p => let '(h, b) := GetBestBlock b in (h, MemPoolView b p)
    end;
  view_BatchWrite l h v :=
    match v with
    | Dummy => Some (false, Dummy)
    | MemPoolView b p => '(r, b) ← BatchWrite l h b; Some (r, MemPoolView b p)
    end;
}.

Definition SetBackend {V} (b : Backend V) (c : CCoinsViewCache (Backend V)) : CCoinsViewCache (Backend V) :=
  {| base := b; hashBlock := hashBlock c; cacheCoins := cacheCoins c; cachedCoinsUsage := cachedCoinsUsage c |}.

(** ** Priorities *)

Section Priority.
Context {V : Type} `{CCoinsView V}.

(** The sum of value times age, the value of the inputs on the chain, and the cache. *)
Fixpoint priority_loop (l : list CTxIn) (nHeight : Z) (dResult : spec_float) (inChainInputValue : Z) (c : CCoinsViewCache V)
    : spec_float * Z * CCoinsViewCache V :=
  match l with
  | [] => (dResult, inChainInputValue, c)
  | i :: l =>
      let '(co, c) := AccessCoin (prevout i) c in
      if IsSpent co then priority_loop l nHeight dResult inChainInputValue c
      else if coin_nHeight co <=? nHeight then
        priority_loop l nHeight
          (double_add dResult (Amount.double_mul (double_of_int (nValue (out co))) (double_of_int (nHeight - coin_nHeight co))))
          (inChainInputValue + nValue (out co)) c
      else priority_loop l nHeight dResult inChainInputValue c
  end.

(** [txSize] is the serialized size. *)
Definition ComputePriority (txSize : Z) (tx : CTransaction) (dPriorityInputs : spec_float) : spec_float :=
  let nTxSize := CalculateModifiedSize txSize tx 0 in
  if nTxSize =? 0 then S754_zero false else double_div dPriorityInputs (double_of_int nTxSize).

Definition GetPriority (txSize : Z) (tx : CTransaction) (nHeight : Z) (c : CCoinsViewCache V) : spec_float * Z * CCoinsViewCache V :=
  if IsCoinBase tx then (S754_zero false, 0, c)
  else
    let '(dResult, inChainInputValue, c) := priority_loop (vin tx) nHeight (S754_zero false) 0 c in
    (ComputePriority txSize tx dResult, inChainInputValue, c).

End Priority.

(** [CTxMemPoolEntry::GetPriority] of an entry of modified size [nModSize]. *)
Definition entry_priority (entryPriority : spec_float) (entryHeight inChainInputValue nModSize currentHeight : Z) : spec_float :=
  let deltaPriority := double_div (Amount.double_mul (double_of_int (u32 (currentHeight - entryHeight))) (double_of_int inChainInputValue)) (double_of_int nModSize) in
  let dResult := double_add entryPriority deltaPriority in
  if SFltb dResult (S754_zero false) then S754_zero false else dResult.

(** An integer division: 57600000. *)
Definition AllowFreeThreshold : spec_float := double_of_int (COIN * 144 / 250).
Definition AllowFree (dPriority : spec_float) : bool := SFltb AllowFreeThreshold dPriority.

(** ** The checks of the inputs *)

(** What [CScriptCheck] holds for later. *)
Record CScriptCheck := { chk_scriptPubKey : list Z; ptxTo : CTransaction; chk_nIn : nat; nFlags : Z; chk_cacheStore : bool }.

Section CheckInputs.
Variable timeToPrune expired : list Z -> bool.
Variable Hash : list Z -> Z.
Variable Verify : list Z -> Z -> list Z -> bool.
Variable CheckLowS : list Z -> bool.
Variable RIPEMD160 SHA1 SHA256 HASH160 HASH256 : list Z -> list Z.

(** [CScriptCheck::operator()]; [None] is an abort of the interpreter.  The signature cache answers as [Verify]. *)
Definition run_check (c : CScriptCheck) : option bool :=
  i ← vin (ptxTo c) !! chk_nIn c;
  match VerifyScript CheckLowS RIPEMD160 SHA1 SHA256 HASH160 HASH256 (scriptSig i) (chk_scriptPubKey c) (nFlags c)
          (TransactionSignatureChecker timeToPrune expired Hash Verify (ptxTo c) (chk_nIn c)) with
  | Ok _ => Some true
  | Err _ => Some false
  | Abort => None
  end.

(** The checks one after the other, up to the first that fails. *)
Fixpoint run_checks (l : list CScriptCheck) : option bool :=
  match l with
  | [] => Some true
  | c :: l => ok ← run_check c; if ok : bool then run_checks l else Some false
  end.

Context {V : Type} `{CCoinsView V}.

Definition GetSpendHeight (m : BlockMap) (c : CCoinsViewCache V) : option Z * CCoinsViewCache V :=
  let '(h, c) := GetBestBlock c in (b ← m !! h; Some (nHeight b + 1), c).

(** The loop of [CheckInputs] from input [n] on: the rejection or the checks left to do, which are run at once when
    there is no vector for them. *)
Fixpoint script_checks (tx : CTransaction) (l : list CTxIn) (n : nat) (flags : Z) (cacheStore pvChecks : bool) (st : CValidationState)
    (c : CCoinsViewCache V) : option ((bool * CValidationState) + list CScriptCheck) * CCoinsViewCache V :=
  match l with
  | [] => (Some (inr []), c)
  | i :: l =>
      let '(coin, c) := AccessCoin (prevout i) c in
      if IsSpent coin then (Some (inl (state_Invalid st false REJECT_INVALID "undefined-coins")), c)
      else
        let check := {| chk_scriptPubKey := scriptPubKey (out coin); ptxTo := tx; chk_nIn := n; nFlags := flags; chk_cacheStore := cacheStore |} in
        let rest := script_checks tx l (S n) flags cacheStore pvChecks st c in
        if pvChecks then
          match rest with
          | (Some (inr checks), c) => (Some (inr (check :: checks)), c)
          | r => r
          end
        else
          match run_check check with
          | None => (None, c)
          | Some true => rest
          | Some false => (Some (inl (DoS st 100 false REJECT_INVALID "mandatory-script-verify-flag-failed (unknown error)" false)), c)
          end
  end.

(** What [CheckInputs] returns and stores through its pointers, with the cache of executed scripts. *)
Record InputsResult := {
  ci_ret : bool;
  ci_state : CValidationState;
  ci_checks : list CScriptCheck;
  ci_entry : Z;
  isCached : bool;
  ci_cache : gset Z;
}.

(** [scriptExecutionCacheNonce], of 32 bytes; the entry of a transaction is the hash of 19 of them and its own hash. *)
Variable scriptExecutionCacheNonce : list Z.
Definition hashCacheEntry (tx : CTransaction) : Z :=
  le_decode (SHA256 (take 19 scriptExecutionCacheNonce ++ le_encode 32 (tx_hash tx))).

(** [CheckInputs] with [pvChecks] telling whether there is a vector for the checks. *)
Definition CheckInputs (m : BlockMap) (tx : CTransaction) (st : CValidationState) (fScriptChecks : bool) (flags : Z)
    (cacheStore cacheFullScriptStore pvChecks : bool) (scriptExecutionCache : gset Z) (c : CCoinsViewCache V)
    : option InputsResult * CCoinsViewCache V :=
  let result ret st checks entry cached cache :=
    Some {| ci_ret := ret; ci_state := st; ci_checks := checks; ci_entry := entry; isCached := cached; ci_cache := cache |} in
  if IsCoinBase tx then (result true st [] 0 false scriptExecutionCache, c)
  else
    match GetSpendHeight m c with
    | (None, c) => (None, c)
    | (Some nSpendHeight, c) =>
        match CheckTxInputs tx st nSpendHeight c with
        | (None, c) => (None, c)
        | (Some (false, st), c) => (result false st [] 0 false scriptExecutionCache, c)
        | (Some (true, st), c) =>
            if negb fScriptChecks then (result true st [] 0 false scriptExecutionCache, c)
            else
              let entry := hashCacheEntry tx in
              if bool_decide (entry ∈ scriptExecutionCache) then (result true st [] entry true scriptExecutionCache, c)
              else
                match script_checks tx (vin tx) 0 flags cacheStore pvChecks st c with
                | (None, c) => (None, c)
                | (Some (inl (r, st)), c) => (result r st [] entry false scriptExecutionCache, c)
                | (Some (inr checks), c) =>
                    (result true st checks entry false
                       (if cacheFullScriptStore && negb pvChecks then {[entry]} ∪ scriptExecutionCache else scriptExecutionCache), c)
                end
        end
    end.

End CheckInputs.

(** ** The state of the handler *)

(** The task given to the thread pool: what its closure captures by value. *)
Record Task := { task_tx : CTransaction; task_uncache : list COutPoint; task_entry : Z; task_checks : list CScriptCheck }.

Record Env (V : Type) := {
  pcoinsTip : CCoinsViewCache V;
  pool : CTxMemPool;
  vstate : CValidationState;
  coins_to_uncache : list COutPoint;
  pfMissingInputs : option bool;
  plTxnReplaced : option (list CTransaction);
  scriptExecutionCache : gset Z;
  freeLimiter : spec_float * Z;
  threadpool : option (list Task);
  nLastMultithreadMempoolFailure : Z;
}.
Arguments pcoinsTip {V} _. Arguments pool {V} _. Arguments vstate {V} _. Arguments coins_to_uncache {V} _.
Arguments pfMissingInputs {V} _. Arguments plTxnReplaced {V} _. Arguments scriptExecutionCache {V} _.
Arguments freeLimiter {V} _. Arguments threadpool {V} _. Arguments nLastMultithreadMempoolFailure {V} _.

Section Setters.
Context {V : Type}.
Definition set_tip (x : CCoinsViewCache V) (e : Env V) : Env V :=
  {| pcoinsTip := x; pool := pool e; vstate := vstate e; coins_to_uncache := coins_to_uncache e; pfMissingInputs := pfMissingInputs e;
     plTxnReplaced := plTxnReplaced e; scriptExecutionCache := scriptExecutionCache e; freeLimiter := freeLimiter e;
     threadpool := threadpool e; nLastMultithreadMempoolFailure := nLastMultithreadMempoolFailure e |}.
Definition set_pool (x : CTxMemPool) (e : Env V) : Env V :=
  {| pcoinsTip := pcoinsTip e; pool := x; vstate := vstate e; coins_to_uncache := coins_to_uncache e; pfMissingInputs := pfMissingInputs e;
     plTxnReplaced := plTxnReplaced e; scriptExecutionCache := scriptExecutionCache e; freeLimiter := freeLimiter e;
     threadpool := threadpool e; nLastMultithreadMempoolFailure := nLastMultithreadMempoolFailure e |}.
Definition set_state (x : CValidationState) (e : Env V) : Env V :=
  {| pcoinsTip := pcoinsTip e; pool := pool e; vstate := x; coins_to_uncache := coins_to_uncache e; pfMissingInputs := pfMissingInputs e;
     plTxnReplaced := plTxnReplaced e; scriptExecutionCache := scriptExecutionCache e; freeLimiter := freeLimiter e;
     threadpool := threadpool e; nLastMultithreadMempoolFailure := nLastMultithreadMempoolFailure e |}.
Definition push_uncache (o : COutPoint) (e : Env V) : Env V :=
  {| pcoinsTip := pcoinsTip e; pool := pool e; vstate := vstate e; coins_to_uncache := coins_to_uncache e ++ [o]; pfMissingInputs := pfMissingInputs e;
     plTxnReplaced := plTxnReplaced e; scriptExecutionCache := scriptExecutionCache e; freeLimiter := freeLimiter e;
     threadpool := threadpool e; nLastMultithreadMempoolFailure := nLastMultithreadMempoolFailure e |}.
Definition set_missing (b : bool) (e : Env V) : Env V :=
  {| pcoinsTip := pcoinsTip e; pool := pool e; vstate := vstate e; coins_to_uncache := coins_to_uncache e; pfMissingInputs := (fun _ => b) <$> pfMissingInputs e;
     plTxnReplaced := plTxnReplaced e; scriptExecutionCache := scriptExecutionCache e; freeLimiter := freeLimiter e;
     threadpool := threadpool e; nLastMultithreadMempoolFailure := nLastMultithreadMempoolFailure e |}.
Definition push_replaced (l : list CTransaction) (e : Env V) : Env V :=
  {| pcoinsTip := pcoinsTip e; pool := pool e; vstate := vstate e; coins_to_uncache := coins_to_uncache e; pfMissingInputs := pfMissingInputs e;
     plTxnReplaced := (fun old => old ++ l) <$> plTxnReplaced e; scriptExecutionCache := scriptExecutionCache e; freeLimiter := freeLimiter e;
     threadpool := threadpool e; nLastMultithreadMempoolFailure := nLastMultithreadMempoolFailure e |}.
Definition set_script_cache (x : gset Z) (e : Env V) : Env V :=
  {| pcoinsTip := pcoinsTip e; pool := pool e; vstate := vstate e; coins_to_uncache := coins_to_uncache e; pfMissingInputs := pfMissingInputs e;
     plTxnReplaced := plTxnReplaced e; scriptExecutionCache := x; freeLimiter := freeLimiter e;
     threadpool := threadpool e; nLastMultithreadMempoolFailure := nLastMultithreadMempoolFailure e |}.
Definition set_limiter (x : spec_float * Z) (e : Env V) : Env V :=
  {| pcoinsTip := pcoinsTip e; pool := pool e; vstate := vstate e; coins_to_uncache := coins_to_uncache e; pfMissingInputs := pfMissingInputs e;
     plTxnReplaced := plTxnReplaced e; scriptExecutionCache := scriptExecutionCache e; freeLimiter := x;
     threadpool := threadpool e; nLastMultithreadMempoolFailure := nLastMultithreadMempoolFailure e |}.
Definition post_task (t : Task) (e : Env V) : Env V :=
  {| pcoinsTip := pcoinsTip e; pool := pool e; vstate := vstate e; coins_to_uncache := coins_to_uncache e; pfMissingInputs := pfMissingInputs e;
     plTxnReplaced := plTxnReplaced e; scriptExecutionCache := scriptExecutionCache e; freeLimiter := freeLimiter e;
     threadpool := (fun q => q ++ [t]) <$> threadpool e; nLastMultithreadMempoolFailure := nLastMultithreadMempoolFailure e |}.
Definition set_failure (t : Z) (e : Env V) : Env V :=
  {| pcoinsTip := pcoinsTip e; pool := pool e; vstate := vstate e; coins_to_uncache := coins_to_uncache e; pfMissingInputs := pfMissingInputs e;
     plTxnReplaced := plTxnReplaced e; scriptExecutionCache := scriptExecutionCache e; freeLimiter := freeLimiter e;
     threadpool := threadpool e; nLastMultithreadMempoolFailure := t |}.
End Setters.

(** ** Computations that may stop with an answer *)

Definition M (V A : Type) : Type := Env V -> option ((bool + A) * Env V).

Section Monad.
Context {V : Type}.

#[export] Instance M_ret : MRet (M V) := fun A a e => Some (inr a, e).
#[export] Instance M_bind : MBind (M V) := fun A B f m e =>
  match m e with
  | None => None
  | Some (inl b, e) => Some (inl b, e)
  | Some (inr a, e) => f a e
  end.

(** [return b], reading, writing, and what may fail an assertion. *)
Definition stop {A} (b : bool) : M V A := fun e => Some (inl b, e).
Definition get {A} (f : Env V -> A) : M V A := fun e => Some (inr (f e), e).
Definition put (f : Env V -> Env V) : M V unit := fun e => Some (inr tt, f e).
Definition lift {A} (x : option A) : M V A := fun e => match x with Some a => Some (inr a, e) | None => None end.

(** [return state.DoS(...)], and [if (!f(tx, state)) return false]. *)
Definition refuse {A} (f : CValidationState -> bool * CValidationState) : M V A := fun e =>
  let '(b, st) := f (vstate e) in Some (inl b, set_state st e).
Definition verdict (f : CValidationState -> bool * CValidationState) : M V unit := fun e =>
  let '(b, st) := f (vstate e) in Some (if b then inr tt else inl false, set_state st e).

Definition when (b : bool) (m : M V unit) : M V unit := if b then m else mret tt.

(** An operation of the local view while it stands on [CCoinsViewMemPool], which points at [pcoinsTip]. *)
Definition on_view {A} (f : CCoinsViewCache (Backend V) -> A * CCoinsViewCache (Backend V)) (c : CCoinsViewCache (Backend V))
    : M V (A * CCoinsViewCache (Backend V)) := fun e =>
  let '(a, c) := f (SetBackend (MemPoolView (pcoinsTip e) (pool e)) c) in
  Some (inr (a, c), match base c with MemPoolView b _ => set_tip b e | Dummy => e end).

End Monad.

(** ** The handler *)

(** The arguments of the call that are not in the state. *)
Record AcceptArgs := {
  fLimitFree : bool;
  nAcceptTime : Z;
  fOverrideMempoolLimit : bool;
  nAbsurdFee : Z;
  fDryRun : bool;
  bMultiThreaded : bool;
}.

(** The options of the node, by the names of their variables or arguments. *)
Record Options := {
  fTPSTestEnabled : bool;
  fRequireStandard : bool;
  fEnableReplacement : bool;
  relaypriority : bool;
  nBytesPerSigOp : Z;
  limitfreerelay : Z;
  minRelayTxFee : CFeeRate;
  incrementalRelayFee : CFeeRate;
  maxmempool : Z;
  mempoolexpiry : Z;
  limitancestorcount : Z;
  limitancestorsize : Z;
  limitdescendantcount : Z;
  limitdescendantsize : Z;
  fAcceptDatacarrier : bool;
  nMaxDatacarrierBytes : Z;
  fIsBareMultisigStd : bool;
  dustRelayFee : CFeeRate;
  DIP0001Height : Z;
}.

(** What the rest of the node and the machine answer during the call: the active chain, the clocks, InstantSend, and
    whether one of the attempts to post a task succeeds. *)
Record World := {
  mapBlocks : gmap Z CBlockIndex;
  chainActive : list (option Z);
  adjustedTime : Z;
  now : Z;
  HasTxLockRequest : Z -> bool;
  lock_request_valid : CTransaction -> bool;
  GetLockedOutPointTxHash : COutPoint -> option Z;
  tryPost : bool;
}.

(** What the checks of fees hand on. *)
Record Candidate := { entry : CTxMemPoolEntry; nSize : Z; cand_nFees : Z; nModifiedFees : Z }.

Section Handler.
Context {V : Type} `{CCoinsView V} `{SetOrder}.

(** As in [Mempool]: the cost of a node of a set, the memory of the pool, the entry of lowest score; the memory of a
    transaction; [pool.GetMinFee]. *)
Variable node_usage : Z.
Variable usage : CTxMemPool -> Z.
Variable worst : CTxMemPool -> option Z.
Variable tx_usage : CTransaction -> Z.
Variable GetMinFee : CTxMemPool -> Z -> CFeeRate.
Variable pow : spec_float -> spec_float -> spec_float.
(** As in [Serialize] and [Interpreter]. *)
Variable timeToPrune expired : list Z -> bool.
Variable Hash : list Z -> Z.
Variable Verify : list Z -> Z -> list Z -> bool.
Variable CheckLowS : list Z -> bool.
Variable RIPEMD160 SHA1 SHA256 HASH160 HASH256 : list Z -> list Z.
Variable scriptExecutionCacheNonce : list Z.
(** [CheckMineriumInputs(tx, state, view, true, nHeight, CBlock())] *)
Variable CheckMineriumInputs : CTransaction -> Z -> CValidationState -> bool * CValidationState.

Variable o : Options.
Variable w : World.

Abbreviation view := (CCoinsViewCache (Backend V)).
Abbreviation run_checks := (run_checks timeToPrune expired Hash Verify CheckLowS RIPEMD160 SHA1 SHA256 HASH160 HASH256).

Definition tip_index : option CBlockIndex := p ← chain_Tip (chainActive w); mapBlocks w !! p.

(** No completed lock of InstantSend is on an outpoint the transaction spends. *)
Fixpoint check_locks (tx : CTransaction) (l : list CTxIn) : M V unit :=
  match l with
  | [] => mret tt
  | i :: l =>
      match GetLockedOutPointTxHash w (prevout i) with
      | Some hashLocked =>
          if negb (tx_hash tx =? hashLocked) then refuse (fun st => DoS st 10 false REJECT_INVALID "tx-txlock-conflict" false)
          else check_locks tx l
      | None => check_locks tx l
      end
  end.

(** What needs no coins. *)
Definition check_loose (tx : CTransaction) : M V unit :=
  if fTPSTestEnabled o then mret tt
  else
    _ ← verdict (fun st => CheckTransaction timeToPrune expired tx st true);
    _ ← verdict (fun st => ContextualCheckTransaction timeToPrune expired (DIP0001Height o) tx st tip_index);
    _ ← when (IsCoinBase tx) (refuse (fun st => DoS st 100 false REJECT_INVALID "coinbase" false));
    _ ← (if fRequireStandard o then
           r ← lift (IsStandardTx (fAcceptDatacarrier o) (nMaxDatacarrierBytes o) (fIsBareMultisigStd o) (dustRelayFee o) timeToPrune expired tx);
           match r with
           | Some reason => refuse (fun st => DoS st 0 false REJECT_NONSTANDARD reason false)
           | None => mret tt
           end
         else mret tt);
    final ← lift (CheckFinalTx (mapBlocks w) (chainActive w) (adjustedTime w) tx STANDARD_LOCKTIME_VERIFY_FLAGS);
    _ ← when (negb final) (refuse (fun st => DoS st 0 false REJECT_NONSTANDARD "non-final" false));
    p ← get pool;
    _ ← when (exists_tx p (tx_hash tx)) (refuse (fun st => state_Invalid st false REJECT_ALREADY_KNOWN "txn-already-in-mempool"));
    _ ← when (HasTxLockRequest w (tx_hash tx) && negb (lock_request_valid w tx))
          (refuse (fun st => DoS st 10 false REJECT_INVALID "bad-txlockrequest" false));
    check_locks tx (vin tx).

(** The transactions of the pool that spend the same outpoints, where all may be replaced. *)
Fixpoint find_conflicts (tx : CTransaction) (l : list CTxIn) (setConflicts : gset Z) : M V (gset Z) :=
  match l with
  | [] => mret setConflicts
  | i :: l =>
      p ← get pool;
      match mapNextTx p !! prevout i with
      | None => find_conflicts tx l setConflicts
      | Some h =>
          ptxConflicting ← lift (e_tx <$> mapTx p !! h);
          let hc := tx_hash ptxConflicting in
          if bool_decide (hc ∈ setConflicts) then find_conflicts tx l setConflicts
          else if HasTxLockRequest w hc then refuse (fun st => DoS st 0 false REJECT_INVALID "tx-txlockreq-mempool-conflict" false)
          else if HasTxLockRequest w (tx_hash tx) then refuse (fun st => DoS st 0 false REJECT_INVALID "txlockreq-tx-mempool-conflict" false)
          else if tx_nVersion ptxConflicting =? MINERIUM_TX_VERSION
          then refuse (fun st => DoS st 0 false REJECT_INVALID "txn-mempool-conflict" false)
          else
            let fReplacementOptOut := negb (fEnableReplacement o && existsb (fun i => nSequence i <? 2 ^ 32 - 1 - 1) (vin ptxConflicting)) in
            if fReplacementOptOut then refuse (fun st => state_Invalid st false REJECT_CONFLICT "txn-mempool-conflict")
            else find_conflicts tx l ({[hc]} ∪ setConflicts)
      end
  end.

(** *** Fetching the coins *)

(** Whether an output of the transaction, from number [n] on, is there already. *)
Fixpoint check_outputs_new (tx : CTransaction) (l : list CTxOut) (n : Z) (c : view) : M V view :=
  match l with
  | [] => mret c
  | _ :: l =>
      let outpoint := {| Transaction.op_hash := tx_hash tx; op_n := u32 n |} in
      had_coin_in_cache ← get (fun e => HaveCoinInCache outpoint (pcoinsTip e));
      '(have, c) ← on_view (HaveCoin outpoint) c;
      if have : bool then
        _ ← when (negb had_coin_in_cache) (put (push_uncache outpoint));
        refuse (fun st => state_Invalid st false REJECT_ALREADY_KNOWN "txn-already-known")
      else check_outputs_new tx l (n + 1) c
  end.

Fixpoint fetch_inputs (l : list CTxIn) (c : view) : M V view :=
  match l with
  | [] => mret c
  | i :: l =>
      cached ← get (fun e => HaveCoinInCache (prevout i) (pcoinsTip e));
      _ ← when (negb cached) (put (push_uncache (prevout i)));
      '(have, c) ← on_view (HaveCoin (prevout i)) c;
      if have : bool then fetch_inputs l c
      else
        _ ← put (set_missing true);
        stop false
  end.

(** The local view with all inputs and the best block in it, what they are worth, and the lock points. *)
Definition fetch_coins (tx : CTransaction) : M V (view * Z * LockPoints) :=
  let view := CCoinsViewCache_make Dummy in
  view ← check_outputs_new tx (vout tx) 0 view;
  view ← fetch_inputs (vin tx) view;
  '(_, view) ← on_view GetBestBlock view;
  '(nValueIn, view) ← on_view (GetValueIn tx) view;
  let view := SetBackend Dummy view in
  e ← get id;
  '(ok, lp, tip) ← lift (CheckSequenceLocks (mempool_get (pool e)) (mapBlocks w) (chainActive w) tx STANDARD_LOCKTIME_VERIFY_FLAGS
                           (Some {| lp_height := 0; lp_time := 0; maxInputBlock := None |}) false (pcoinsTip e));
  _ ← put (set_tip tip);
  _ ← when (negb ok) (refuse (fun st => DoS st 0 false REJECT_NONSTANDARD "non-BIP68-final" false));
  lp ← lift lp;
  mret (view, nValueIn, lp).

(** *** Size, fees and priority *)

Fixpoint spends_coinbase (l : list CTxIn) (c : view) : bool * view :=
  match l with
  | [] => (false, c)
  | i :: l => let '(coin, c) := AccessCoin (prevout i) c in if fCoinBase coin then (true, c) else spends_coinbase l c
  end.

(** [dFreeCount] and [nLastTime]: whether the transaction is over the limit, and their values after it. *)
Definition free_limit (limit : Z) (nSize : Z) (s : spec_float * Z) : bool * (spec_float * Z) :=
  let '(dFreeCount, nLastTime) := s in
  let nNow := now w in
  let one := double_of_int 1 in
  let dFreeCount := Amount.double_mul dFreeCount (pow (double_sub one (double_div one (double_of_int 600))) (double_of_int (nNow - nLastTime))) in
  let nLastTime := nNow in
  let more := double_add dFreeCount (double_of_int nSize) in
  if SFleb (double_of_int limit) more then (true, (dFreeCount, nLastTime)) else (false, (more, nLastTime)).

Definition check_fees (a : AcceptArgs) (tx : CTransaction) (c : view) (nValueIn : Z) (lp : LockPoints) : M V (Candidate * view) :=
  let height := chain_Height (chainActive w) in
  '(ok, c) ← (if fRequireStandard o then lift (AreInputsStandard CheckLowS RIPEMD160 SHA1 SHA256 HASH160 HASH256 tx c) else mret (true, c));
  _ ← when (negb ok) (refuse (fun st => state_Invalid st false REJECT_NONSTANDARD "bad-txns-nonstandard-inputs"));
  '(p2sh, c) ← lift (GetP2SHSigOpCount tx c);
  let nSigOps := u32 (GetLegacySigOpCount tx + p2sh) in
  nValueOut ← lift (GetValueOut tx);
  nFees ← lift (Prelude.checked (nValueIn - nValueOut));
  p ← get pool;
  nModifiedFees ← lift (Prelude.checked (nFees + default 0 (mapDeltas p !! tx_hash tx)));
  let txSize := GetSerializeSize timeToPrune expired tx in
  let '(dPriority, inChainInputValue, c) := GetPriority txSize tx height c in
  let '(fSpendsCoinbase, c) := spends_coinbase (vin tx) c in
  let entry := CTxMemPoolEntry_make tx nFees (nAcceptTime a) (u32 height) fSpendsCoinbase nSigOps lp txSize (tx_usage tx) in
  _ ← lift (if inChainInputValue <=? nValueOut + nFees then Some () else None);
  let nSize := u32 (nTxSize entry) in
  _ ← when ((nSigOps >? MAX_STANDARD_TX_SIGOPS) || (negb (nBytesPerSigOp o =? 0) && (nSigOps >? nSize / nBytesPerSigOp o)))
        (refuse (fun st => DoS st 0 false REJECT_NONSTANDARD "bad-txns-too-many-sigops" false));
  limit ← lift (Prelude.checked (maxmempool o * 1000000));
  mempoolRejectFee ← lift (GetFee (GetMinFee p (u64 limit)) nSize);
  relayFee ← lift (GetFee (minRelayTxFee o) nSize);
  _ ← (if (mempoolRejectFee >? 0) && (nModifiedFees <? mempoolRejectFee)
       then refuse (fun st => DoS st 0 false REJECT_INSUFFICIENTFEE "mempool min fee not met" false)
       else when (relaypriority o && (nModifiedFees <? relayFee)
                  && negb (AllowFree (entry_priority dPriority (u32 height) inChainInputValue (CalculateModifiedSize txSize tx txSize) (u32 (height + 1)))))
              (refuse (fun st => DoS st 0 false REJECT_INSUFFICIENTFEE "insufficient priority" false)));
  _ ← when (fLimitFree a && (nModifiedFees <? relayFee))
        (limit ← lift (l ← Prelude.checked (limitfreerelay o * 10); Prelude.checked (l * 1000));
         s ← get freeLimiter;
         let '(over, s) := free_limit limit nSize s in
         _ ← put (set_limiter s);
         when over (refuse (fun st => DoS st 0 false REJECT_INSUFFICIENTFEE "rate limited free transaction" false)));
  _ ← when (negb (nAbsurdFee a =? 0) && (nFees >? nAbsurdFee a))
        (refuse (fun st => state_Invalid st false REJECT_HIGHFEE "absurdly-high-fee"));
  mret ({| entry := entry; nSize := nSize; cand_nFees := nFees; nModifiedFees := nModifiedFees |}, c).

(** *** Ancestors and replacement *)

Definition check_ancestors (en : CTxMemPoolEntry) (setConflicts : gset Z) : M V (gset Z) :=
  p ← get pool;
  ancestorSize ← lift (Prelude.checked (limitancestorsize o * 1000));
  descendantSize ← lift (Prelude.checked (limitdescendantsize o * 1000));
  '(setAncestors, r) ← lift (CalculateMemPoolAncestors p en ∅
    {| limitAncestorCount := u64 (limitancestorcount o); limitAncestorSize := u64 ancestorSize;
       limitDescendantCount := u64 (limitdescendantcount o); limitDescendantSize := u64 descendantSize |} true);
  _ ← when (bool_decide (is_Some r)) (refuse (fun st => DoS st 0 false REJECT_NONSTANDARD "too-long-mempool-chain" false));
  _ ← when (negb (bool_decide (setAncestors ∩ setConflicts = ∅)))
        (refuse (fun st => DoS st 10 false REJECT_INVALID "bad-txns-spends-conflicting-tx" false));
  mret setAncestors.

(** The loop on the conflicts: those in the pool, what they spend, how many they are with their descendants. *)
Fixpoint replacement_loop (newFeeRate : CFeeRate) (l : list Z) (setIterConflicting setConflictsParents : gset Z) (nConflictingCount : Z)
    : M V (gset Z * gset Z * Z) :=
  match l with
  | [] => mret (setIterConflicting, setConflictsParents, nConflictingCount)
  | h :: l =>
      p ← get pool;
      match mapTx p !! h with
      | None => replacement_loop newFeeRate l setIterConflicting setConflictsParents nConflictingCount
      | Some mi =>
          oldFeeRate ← lift (CFeeRate_make (GetModifiedFee mi) (nTxSize mi));
          if nSatoshisPerK newFeeRate <=? nSatoshisPerK oldFeeRate
          then refuse (fun st => DoS st 0 false REJECT_INSUFFICIENTFEE "insufficient fee" false)
          else replacement_loop newFeeRate l ({[h]} ∪ setIterConflicting) (input_hashes (vin (e_tx mi)) ∪ setConflictsParents)
                 (u64 (nConflictingCount + nCountWithDescendants mi))
      end
  end.

Fixpoint sum_fees (p : CTxMemPool) (l : list Z) (nConflictingFees : Z) : option Z :=
  match l with
  | [] => Some nConflictingFees
  | k :: l => e ← mapTx p !! k; s ← Prelude.checked (nConflictingFees + GetModifiedFee e); sum_fees p l s
  end.

(** The conflicts with their descendants, if replacing them pays. *)
Definition check_replacement (tx : CTransaction) (cd : Candidate) (setConflicts : gset Z) : M V (gset Z) :=
  if bool_decide (setConflicts = ∅) then mret ∅
  else
    newFeeRate ← lift (CFeeRate_make (nModifiedFees cd) (nSize cd));
    '(setIterConflicting, setConflictsParents, nConflictingCount) ← replacement_loop newFeeRate (set_list setConflicts) ∅ ∅ 0;
    p ← get pool;
    if negb (nConflictingCount <=? 100)
    then refuse (fun st => DoS st 0 false REJECT_NONSTANDARD "too many potential replacements" false)
    else
      allConflicting ← lift (all_descendants p (set_list setIterConflicting) ∅);
      nConflictingFees ← lift (sum_fees p (set_list allConflicting) 0);
      _ ← when (existsb (fun i => negb (bool_decide (Transaction.op_hash (prevout i) ∈ setConflictsParents)) && exists_tx p (Transaction.op_hash (prevout i))) (vin tx))
            (refuse (fun st => DoS st 0 false REJECT_NONSTANDARD "replacement-adds-unconfirmed" false));
      _ ← when (nModifiedFees cd <? nConflictingFees) (refuse (fun st => DoS st 0 false REJECT_INSUFFICIENTFEE "insufficient fee" false));
      nDeltaFees ← lift (Prelude.checked (nModifiedFees cd - nConflictingFees));
      relay ← lift (GetFee (incrementalRelayFee o) (nSize cd));
      _ ← when (nDeltaFees <? relay) (refuse (fun st => DoS st 0 false REJECT_INSUFFICIENTFEE "insufficient fee" false));
      mret allConflicting.

(** *** Scripts, and changing the pool *)

(** The checks left to do and the entry of the cache; a transaction that is in the cache is answered at once. *)
Definition check_scripts (a : AcceptArgs) (tx : CTransaction) (c : view) : M V (list CScriptCheck * Z) :=
  e ← get id;
  r ← lift (fst (CheckInputs timeToPrune expired Hash Verify CheckLowS RIPEMD160 SHA1 SHA256 HASH160 HASH256 scriptExecutionCacheNonce
                   (mapBlocks w) tx (vstate e) true STANDARD_SCRIPT_VERIFY_FLAGS true true true (scriptExecutionCache e) c));
  _ ← put (set_state (ci_state r));
  _ ← put (set_script_cache (ci_cache r));
  if negb (ci_ret r) then stop false
  else if isCached r then stop true
  else if bMultiThreaded a then mret (ci_checks r, ci_entry r)
  else
    ok ← lift (run_checks (ci_checks r));
    if negb (ok : bool) then stop false
    else
      _ ← verdict (CheckMineriumInputs tx (chain_Height (chainActive w)));
      mret (ci_checks r, ci_entry r).

(** [limit] and [age] are unsigned; a removed outpoint leaves the coins cache. *)
Definition LimitMempoolSize (limit age : Z) : M V unit :=
  e ← get id;
  '(p, _) ← lift (Expire node_usage (HasTxLockRequest w) (i64 (now w - age)) (pool e));
  '(p, vNoSpendsRemaining) ← lift (TrimToSize node_usage usage worst limit p);
  _ ← put (set_pool p);
  put (set_tip (foldl (fun c removed => Uncache removed c) (pcoinsTip e) vNoSpendsRemaining)).

Definition change_pool (a : AcceptArgs) (tx : CTransaction) (cd : Candidate) (setAncestors allConflicting : gset Z) : M V unit :=
  p ← get pool;
  _ ← put (push_replaced (map e_tx (omap (fun k => mapTx p !! k) (set_list allConflicting))));
  p ← lift (RemoveStaged node_usage allConflicting false p);
  p ← lift (addUnchecked node_usage (entry cd) setAncestors p);
  _ ← put (set_pool p);
  if fOverrideMempoolLimit a then mret tt
  else
    limit ← lift (Prelude.checked (maxmempool o * 1000000));
    age ← lift (m ← Prelude.checked (mempoolexpiry o * 60); Prelude.checked (m * 60));
    _ ← LimitMempoolSize (u64 limit) (u64 age);
    p ← get pool;
    when (negb (exists_tx p (tx_hash tx))) (refuse (fun st => DoS st 0 false REJECT_INSUFFICIENTFEE "mempool full" false)).

(** The task for the thread pool, if there is one; a queue that stays full is a refusal. *)
Definition post (a : AcceptArgs) (tx : CTransaction) (checks : list CScriptCheck) (hashCacheEntry : Z) : M V unit :=
  e ← get id;
  when (bMultiThreaded a && bool_decide (is_Some (threadpool e)))
    (if tryPost w
     then put (post_task {| task_tx := tx; task_uncache := coins_to_uncache e; task_entry := hashCacheEntry; task_checks := checks |})
     else refuse (fun st => DoS st 0 false REJECT_INVALID "threadpool-full" false)).

Definition AcceptToMemoryPoolWorker (a : AcceptArgs) (tx : CTransaction) : M V bool :=
  _ ← put (set_missing false);
  _ ← check_loose tx;
  setConflicts ← (if fTPSTestEnabled o then mret ∅ else find_conflicts tx (vin tx) ∅);
  '(view, nValueIn, lp) ← fetch_coins tx;
  '(cd, view) ← check_fees a tx view nValueIn lp;
  setAncestors ← check_ancestors (entry cd) setConflicts;
  allConflicting ← check_replacement tx cd setConflicts;
  if fDryRun a then stop true
  else
    '(checks, hashCacheEntry) ← check_scripts a tx view;
    _ ← change_pool a tx cd setAncestors allConflicting;
    _ ← post a tx checks hashCacheEntry;
    mret true.

Definition uncache_all (l : list COutPoint) (e : Env V) : Env V :=
  set_tip (foldl (fun c out => Uncache out c) (pcoinsTip e) l) e.

(** [AcceptToMemoryPool]; the coins to uncache are local to the call. *)
Definition AcceptToMemoryPool (a : AcceptArgs) (tx : CTransaction) (e : Env V) : option (bool * Env V) :=
  let e := {| pcoinsTip := pcoinsTip e; pool := pool e; vstate := vstate e; coins_to_uncache := []; pfMissingInputs := pfMissingInputs e;
              plTxnReplaced := plTxnReplaced e; scriptExecutionCache := scriptExecutionCache e; freeLimiter := freeLimiter e;
              threadpool := threadpool e; nLastMultithreadMempoolFailure := nLastMultithreadMempoolFailure e |} in
  since ← Prelude.checked (now w - nLastMultithreadMempoolFailure e);
  let a := {| fLimitFree := fLimitFree a; nAcceptTime := now w; fOverrideMempoolLimit := fOverrideMempoolLimit a; nAbsurdFee := nAbsurdFee a;
              fDryRun := fDryRun a; bMultiThreaded := if since <? 60 then false else bMultiThreaded a |} in
  '(r, e) ← AcceptToMemoryPoolWorker a tx e;
  let res := match r with inl b => b | inr b => b end in
  Some (res, if negb res || fDryRun a then uncache_all (coins_to_uncache e) e else e).

(** *** The task *)

(** What the task does when a check fails. *)
Definition task_failed (t : Task) (e : Env V) : option (Env V) :=
  let e := uncache_all (task_uncache t) (set_failure (now w) e) in
  p ← removeRecursive node_usage (task_tx t) (pool e);
  Some (set_pool (ClearPrioritisation (tx_hash (task_tx t)) p) e).

Definition run_task (t : Task) (e : Env V) : option (Env V) :=
  isCheckPassing ← run_checks (task_checks t);
  if negb (isCheckPassing : bool) then task_failed t e
  else
    e ← (if fst (CheckMineriumInputs (task_tx t) (chain_Height (chainActive w)) CValidationState_make) then Some e else task_failed t e);
    Some (set_script_cache ({[task_entry t]} ∪ scriptExecutionCache e) e).

End Handler.

(** ** Lemmas: what a computation does on every way out *)

Section Ends.
Context {V : Type}.
Implicit Types (e : Env V).

(** From [e], [m] goes on with a value as [Q] says, or stops with an answer as [R] says. *)
Definition ends {A} (m : M V A) e (Q : A -> Env V -> Prop) (R : bool -> Env V -> Prop) : Prop :=
  match m e with None => True | Some (inl b, e') => R b e' | Some (inr a, e') => Q a e' end.

Lemma ends_bind {A B} (m : M V A) (f : A -> M V B) e Q R : ends m e (fun a e' => ends (f a) e' Q R) R -> ends (m ≫= f) e Q R.
Proof. unfold ends, mbind, M_bind. destruct (m e) as [[[b|a] e']|]; auto. Qed.
Lemma ends_mono {A} (m : M V A) e (Q Q' : A -> Env V -> Prop) (R R' : bool -> Env V -> Prop) :
  ends m e Q R -> (forall a e', Q a e' -> Q' a e') -> (forall b e', R b e' -> R' b e') -> ends m e Q' R'.
Proof. unfold ends. destruct (m e) as [[[b|a] e']|]; auto. Qed.
Lemma ends_ret {A} (a : A) e (Q : A -> Env V -> Prop) R : Q a e -> ends (mret a) e Q R.
Proof. done. Qed.
Lemma ends_stop {A} b e Q (R : bool -> Env V -> Prop) : R b e -> ends (stop (A := A) b) e Q R.
Proof. done. Qed.
Lemma ends_get {A} (f : Env V -> A) e (Q : A -> Env V -> Prop) R : Q (f e) e -> ends (get f) e Q R.
Proof. done. Qed.
Lemma ends_put f e (Q : unit -> Env V -> Prop) R : Q tt (f e) -> ends (put f) e Q R.
Proof. done. Qed.
Lemma ends_lift {A} (x : option A) e (Q : A -> Env V -> Prop) R : (forall a, x = Some a -> Q a e) -> ends (lift x) e Q R.
Proof. unfold ends, lift. destruct x; auto. Qed.
Lemma ends_verdict f e (Q : unit -> Env V -> Prop) (R : bool -> Env V -> Prop) :
  (forall st, f (vstate e) = (true, st) -> Q tt (set_state st e)) -> (forall st, f (vstate e) = (false, st) -> R false (set_state st e)) -> ends (verdict f) e Q R.
Proof. unfold ends, verdict. destruct (f (vstate e)) as [[|] st]; auto. Qed.
Lemma ends_DoS {A} level code reason cor e Q (R : bool -> Env V -> Prop) :
  (forall st, R false (set_state st e)) -> ends (refuse (A := A) (fun st => DoS st level false code reason cor)) e Q R.
Proof. intros HR. unfold ends, refuse, DoS. destruct (mode (vstate e)); apply HR. Qed.
Lemma ends_Invalid {A} code reason e Q (R : bool -> Env V -> Prop) :
  (forall st, R false (set_state st e)) -> ends (refuse (A := A) (fun st => state_Invalid st false code reason)) e Q R.
Proof. apply ends_DoS. Qed.
Lemma ends_when b (m : M V unit) e (Q : unit -> Env V -> Prop) R : (b = true -> ends m e Q R) -> (b = false -> Q tt e) -> ends (when b m) e Q R.
Proof. unfold when. destruct b; intros H1 H2; [by apply H1|by apply H2]. Qed.
End Ends.

(** One step of a handler from its first operation. *)
Ltac ends_step :=
  cbv beta iota;
  lazymatch goal with
  | |- ends (_ ≫= _) _ _ _ => apply ends_bind
  | |- ends (mret _) _ _ _ => apply ends_ret
  | |- ends (stop _) _ _ _ => apply ends_stop
  | |- ends (get _) _ _ _ => apply ends_get
  | |- ends (put _) _ _ _ => apply ends_put
  | |- ends (lift _) _ _ _ => apply ends_lift; intros ? ?
  | |- ends (refuse (fun _ => state_Invalid _ _ _ _)) _ _ _ => apply ends_Invalid; intros ?
  | |- ends (refuse _) _ _ _ => apply ends_DoS; intros ?
  | |- ends (when _ _) _ _ _ => apply ends_when; intros ?
  | |- ends (if ?b then _ else _) _ _ _ => destruct b eqn:?
  end.

(** ** Lemmas: reading a cache that has everything *)

Section Cached.
Context {V : Type} `{CCoinsView V} {V' : Type} `{CCoinsView V'}.

(** Every coin an input spends is in the cache. *)
Definition cached {V} (c : CCoinsViewCache V) (l : list CTxIn) : Prop := Forall (fun i => is_Some (cacheCoins c !! prevout i)) l.

Lemma FetchCoin_cached out e (c : CCoinsViewCache V) : cacheCoins c !! out = Some e -> FetchCoin out c = (Some e, c).
Proof. intros E. unfold FetchCoin. by rewrite E. Qed.
Lemma AccessCoin_cached out e (c : CCoinsViewCache V) : cacheCoins c !! out = Some e -> AccessCoin out c = (coin e, c).
Proof. intros E. unfold AccessCoin. by rewrite (FetchCoin_cached _ _ _ E). Qed.
Lemma HaveCoin_cached out e (c : CCoinsViewCache V) : cacheCoins c !! out = Some e -> HaveCoin out c = (negb (IsSpent (coin e)), c).
Proof. intros E. unfold HaveCoin. by rewrite (FetchCoin_cached _ _ _ E). Qed.

Lemma p2sh_sigops_cached (c : CCoinsViewCache V) l n r c' : cached c l -> p2sh_sigops_loop l n c = Some (r, c') -> c' = c.
Proof.
  intros Hl. revert n. induction Hl as [|i l [e E] Hl IH]; intros n; cbn [p2sh_sigops_loop]; [by intros [= _ ->]|].
  rewrite (AccessCoin_cached _ _ _ E). destruct (IsSpent (coin e)); [done|apply IH].
Qed.
Lemma priority_cached (c : CCoinsViewCache V) l h d v : cached c l -> (priority_loop l h d v c).2 = c.
Proof.
  intros Hl. revert d v. induction Hl as [|i l [e E] Hl IH]; intros d v; cbn [priority_loop]; [done|].
  rewrite (AccessCoin_cached _ _ _ E). destruct (IsSpent (coin e)); [apply IH|]. destruct (_ <=? h); apply IH.
Qed.
Lemma inputs_standard_cached (CheckLowS : list Z -> bool) R1 S1 S2 H1 H2 (c : CCoinsViewCache V) l b c' :
  cached c l -> inputs_standard_loop CheckLowS R1 S1 S2 H1 H2 l c = Some (b, c') -> c' = c.
Proof.
  intros Hl. induction Hl as [|i l [e E] Hl IH]; cbn [inputs_standard_loop]; [by intros [= _ ->]|].
  rewrite (AccessCoin_cached _ _ _ E). destruct (input_standard _ _ _ _ _ _ _ _) as [[|]|]; cbn [mbind option_bind negb]; [apply IH|by intros [= _ ->]|done].
Qed.

(** The rules on values do not depend on what is below such a cache. *)
Lemma have_inputs_cached (c : CCoinsViewCache V) (c' : CCoinsViewCache V') l : cached c l -> cacheCoins c' = cacheCoins c ->
  exists b, have_inputs_loop l c = (b, c) /\ have_inputs_loop l c' = (b, c').
Proof.
  intros Hl Ec. induction Hl as [|i l [e E] Hl IH]; cbn [have_inputs_loop]; [by exists true|].
  rewrite (HaveCoin_cached _ _ _ E). unfold HaveCoin, FetchCoin. rewrite Ec, E. destruct (negb (IsSpent (coin e))); [exact IH|by exists false].
Qed.
Lemma check_inputs_cached (c : CCoinsViewCache V) (c' : CCoinsViewCache V') l h acc st : cached c l -> cacheCoins c' = cacheCoins c ->
  exists r, check_inputs_loop l h acc st c = (r, c) /\ check_inputs_loop l h acc st c' = (r, c').
Proof.
  intros Hl Ec. revert acc. induction Hl as [|i l [e E] Hl IH]; intros acc; cbn [check_inputs_loop]; [by eexists|].
  rewrite (AccessCoin_cached _ _ _ E). unfold AccessCoin, FetchCoin. rewrite Ec, E.
  destruct (IsSpent (coin e)); [by eexists|]. destruct (_ && _); [by eexists|]. destruct (_ || _); [by eexists|apply IH].
Qed.
Lemma CheckTxInputs_cached (c : CCoinsViewCache V) (c' : CCoinsViewCache V') tx st h : cached c (vin tx) -> cacheCoins c' = cacheCoins c ->
  exists r, CheckTxInputs tx st h c = (r, c) /\ CheckTxInputs tx st h c' = (r, c').
Proof.
  intros Hl Ec. unfold CheckTxInputs, HaveInputs. destruct (have_inputs_cached c c' (vin tx) Hl Ec) as (b & E1 & E2).
  destruct (check_inputs_cached c c' (vin tx) h 0 st Hl Ec) as (r & E3 & E4). rewrite E1, E2.
  destruct (IsCoinBase tx); cbn [negb].
  - rewrite E3, E4. destruct r as [[?|?]|]; by eexists.
  - destruct b; cbn [negb]; [|by eexists]. rewrite E3, E4. destruct r as [[?|?]|]; by eexists.
Qed.
End Cached.

(** ** Lemmas: the coins of the chain and of the pool *)

(** The coin an outpoint has for a transaction that would join the pool. *)
Definition pool_coin (p : CTxMemPool) (u : gmap COutPoint Coin) (out : COutPoint) : option Coin :=
  match mempool_get p (Transaction.op_hash out) with
  | Some tx => if op_n out <? Z.of_nat (length (vout tx)) then x ← vout tx !! Z.to_nat (op_n out); live (Coin_make x MEMPOOL_HEIGHT false) else None
  | None => u !! out
  end.

(** The coins of the inputs of a transaction. *)
Definition input_coins (p : CTxMemPool) (u : gmap COutPoint Coin) (tx : CTransaction) : gmap COutPoint Coin :=
  list_to_map (omap (fun i => pair (prevout i) <$> pool_coin p u (prevout i)) (vin tx)).

Lemma input_coins_lookup p u tx i : i ∈ vin tx -> input_coins p u tx !! prevout i = pool_coin p u (prevout i).
Proof.
  unfold input_coins. induction (vin tx) as [|j l IH]; [by intros ?%elem_of_nil|]. cbn [omap list_omap].
  assert (forall l', list_to_map (M := gmap COutPoint Coin) (omap (fun i => pair (prevout i) <$> pool_coin p u (prevout i)) l') !! prevout i <> None ->
    list_to_map (M := gmap COutPoint Coin) (omap (fun i => pair (prevout i) <$> pool_coin p u (prevout i)) l') !! prevout i = pool_coin p u (prevout i)) as Hl.
  { clear. induction l' as [|j l IH]; [done|]. cbn [omap list_omap]. destruct (pool_coin p u (prevout j)) as [co|] eqn:E; cbn [fmap option_fmap option_map]; [|exact IH].
    rewrite list_to_map_cons. destruct (decide (prevout j = prevout i)) as [<-|Hn]; [by rewrite lookup_insert_eq, E|by rewrite lookup_insert_ne]. }
  intros [<-|Hi]%elem_of_cons.
  - destruct (pool_coin p u (prevout i)) as [co|] eqn:E; cbn [fmap option_fmap option_map].
    + rewrite list_to_map_cons. by rewrite lookup_insert_eq.
    + specialize (Hl l). destruct (list_to_map _ !! prevout i); [|done]. by apply Hl.
  - specialize (IH Hi). destruct (pool_coin p u (prevout j)) as [co|] eqn:E; cbn [fmap option_fmap option_map]; [|exact IH].
    rewrite list_to_map_cons. destruct (decide (prevout j = prevout i)) as [Ej|Hn]; [|by rewrite lookup_insert_ne]. rewrite <- Ej. by rewrite lookup_insert_eq, E.
Qed.

(** The entries of the local view are those coins, whatever it stands on. *)
Definition fetched {V} (p : CTxMemPool) (u : gmap COutPoint Coin) (c : CCoinsViewCache V) : Prop :=
  forall out e, cacheCoins c !! out = Some e -> live (coin e) = pool_coin p u out /\ (has_flag (flags e) FRESH = true -> live (coin e) = None).

Definition grows {V} (c c' : CCoinsViewCache V) : Prop := hashBlock c' = hashBlock c /\ forall out e, cacheCoins c !! out = Some e -> cacheCoins c' !! out = Some e.

Lemma grows_trans {V} (c1 c2 c3 : CCoinsViewCache V) : grows c1 c2 -> grows c2 c3 -> grows c1 c3.
Proof. intros [H1 G1] [H2 G2]. split; [congruence|auto]. Qed.
Lemma grows_cached {V} (c c' : CCoinsViewCache V) l : grows c c' -> cached c l -> cached c' l.
Proof. intros [_ G] Hl. eapply Forall_impl; [exact Hl|]. intros i [e E]. exists e. by apply G. Qed.

Section Views.
Context {V : Type} `{CCoinsViewLaws V}.
Implicit Types (b : CCoinsViewCache V) (c : CCoinsViewCache (Backend V)).

Lemma mempool_GetCoin_ok p b out r b' : cache_ok b -> mempool_GetCoin (mempool_get p) out b = (r, b') ->
  same_view b b' /\ (r ≫= live) = pool_coin p (cache_utxo b) out.
Proof.
  intros Hok. unfold mempool_GetCoin, pool_coin. destruct (mempool_get p (Transaction.op_hash out)) as [tx|].
  - destruct (op_n out <? _); intros [= <- <-]; (split; [by apply same_view_refl|done]) || idtac.
    split; [by apply same_view_refl|]. by destruct (vout tx !! Z.to_nat (op_n out)).
  - intros E. destruct (GetCoin_ok _ _ _ _ Hok E) as [-> Hs]. split; [done|]. pose proof (cache_utxo_unspent b Hok out) as Hu.
    destruct (cache_utxo b !! out) as [co|]; [|done]. cbn. apply live_unspent. by apply Hu.
Qed.

Lemma FetchCoin_pool p b c out it c' : cache_ok b -> base c = MemPoolView b p -> fetched p (cache_utxo b) c -> FetchCoin out c = (it, c') ->
  exists b', base c' = MemPoolView b' p /\ same_view b b' /\ fetched p (cache_utxo b) c' /\ grows c c'
  /\ cacheCoins c' !! out = it /\ (it ≫= (fun e => live (coin e))) = pool_coin p (cache_utxo b) out.
Proof.
  intros Hok Hb Hf. unfold FetchCoin. destruct (cacheCoins c !! out) as [e|] eqn:Ho.
  { intros [= <- <-]. exists b. split_and!; [done|by apply same_view_refl|done|done|done|]. by apply Hf. }
  rewrite Hb. cbn [view_GetCoin Backend_view]. destruct (mempool_GetCoin (mempool_get p) out b) as [r b'] eqn:Eg.
  destruct (mempool_GetCoin_ok _ _ _ _ _ Hok Eg) as [Hs Hr]. destruct r as [co|]; intros [= <- <-]; exists b'; (split_and!; [done|done| | | |exact Hr]).
  - intros k e. cbn [cacheCoins set_coins]. destruct (decide (out = k)) as [->|Hn].
    + rewrite lookup_insert_eq. intros [= <-]. cbn [coin flags]. split; [exact Hr|]. destruct (IsSpent co) eqn:Es; [by rewrite live_spent|]. by rewrite has_FRESH.
    + rewrite lookup_insert_ne by done. apply Hf.
  - split; [done|]. intros k e. cbn [cacheCoins set_coins]. intros E. rewrite lookup_insert_ne; [done|]. by intros ->; rewrite Ho in E.
  - cbn [cacheCoins set_coins]. by rewrite lookup_insert_eq.
  - exact Hf.
  - done.
  - exact Ho.
Qed.

(** *** The relative lock times read the coins and change nothing *)

Lemma input_heights_same p l h b r b' : cache_ok b -> input_heights (mempool_get p) l h b = (r, b') -> same_view b b'.
Proof.
  revert b r. induction l as [|i l IH]; intros b r Hok; cbn [input_heights]; [intros [= <- <-]; by apply same_view_refl|].
  destruct (mempool_GetCoin (mempool_get p) (prevout i) b) as [r1 b1] eqn:E. destruct (mempool_GetCoin_ok _ _ _ _ _ Hok E) as [Hs _].
  destruct r1; [|by intros [= <- <-]]. destruct (input_heights (mempool_get p) l h b1) as [r2 b2] eqn:E2. intros [= <- <-].
  destruct Hs as (Hok1 & ? & ?). by eapply same_view_trans; [|eapply IH].
Qed.

Lemma CheckSequenceLocks_same p m ch tx f lp b r lp' b' : cache_ok b ->
  CheckSequenceLocks (mempool_get p) m ch tx f lp false b = Some (r, lp', b') -> same_view b b'.
Proof.
  intros Hok. unfold CheckSequenceLocks. destruct (chain_Tip ch) as [t|]; [|done]. cbn [mbind option_bind]. destruct (m !! t) as [bi|]; [|done]. cbn [mbind option_bind].
  destruct (input_heights (mempool_get p) (vin tx) (nHeight bi) b) as [r1 b1] eqn:E. pose proof (input_heights_same _ _ _ _ _ _ Hok E) as Hs.
  destruct r1 as [hs|]; [|by intros [= <- <- <-]]. destruct (CalculateSequenceLocks _ _ _ _ _) as [[[? ?] ?]|]; [|done]. cbn [mbind option_bind].
  intros Hc. apply bind_Some in Hc as (lp1 & _ & Hc). apply bind_Some in Hc as (ok & _ & Hc). by injection Hc as <- <- <-.
Qed.

(** *** What the handler may not touch before it decides *)

Record keeps (e e' : Env V) : Prop := {
  kp_tip : same_view (pcoinsTip e) (pcoinsTip e');
  kp_pool : pool e' = pool e;
  kp_cache : scriptExecutionCache e' = scriptExecutionCache e;
  kp_tasks : threadpool e' = threadpool e;
}.

Lemma keeps_refl e : cache_ok (pcoinsTip e) -> keeps e e.
Proof. intros Hok. constructor; (done || by apply same_view_refl). Qed.
Lemma keeps_trans e1 e2 e3 : keeps e1 e2 -> keeps e2 e3 -> keeps e1 e3.
Proof. intros [T1 P1 C1 Q1] [T2 P2 C2 Q2]. constructor; [by eapply same_view_trans|congruence..]. Qed.
Lemma keeps_ok e e' : keeps e e' -> cache_ok (pcoinsTip e').
Proof. by intros [[? _] _ _ _]. Qed.
Lemma keeps_utxo e e' : keeps e e' -> cache_utxo (pcoinsTip e') = cache_utxo (pcoinsTip e).
Proof. by intros [(_ & ? & _) _ _ _]. Qed.

(** What is not the coins, the pool, the caches and the tasks changes freely. *)
Lemma keeps_state st e : cache_ok (pcoinsTip e) -> keeps e (set_state st e).
Proof. intros Hok. constructor; (done || by apply same_view_refl). Qed.
Lemma keeps_tip b e : same_view (pcoinsTip e) b -> keeps e (set_tip b e).
Proof. by constructor. Qed.
Lemma keeps_push out e : cache_ok (pcoinsTip e) -> keeps e (push_uncache out e).
Proof. intros Hok. constructor; (done || by apply same_view_refl). Qed.
Lemma keeps_missing x e : cache_ok (pcoinsTip e) -> keeps e (set_missing x e).
Proof. intros Hok. constructor; (done || by apply same_view_refl). Qed.
Lemma keeps_limiter x e : cache_ok (pcoinsTip e) -> keeps e (set_limiter x e).
Proof. intros Hok. constructor; (done || by apply same_view_refl). Qed.

Definition pooled (e : Env V) c : Prop := fetched (pool e) (cache_utxo (pcoinsTip e)) c.

Lemma pooled_keeps e e' c : keeps e e' -> pooled e c -> pooled e' c.
Proof. intros K. unfold pooled. by rewrite (kp_pool _ _ K), (keeps_utxo _ _ K). Qed.

Lemma on_view_HaveCoin out c e (Q : bool * CCoinsViewCache (Backend V) -> Env V -> Prop) R : cache_ok (pcoinsTip e) -> pooled e c ->
  (forall have c' e', keeps e e' -> pooled e' c' -> grows c c' -> (have = true <-> is_Some (pool_coin (pool e) (cache_utxo (pcoinsTip e)) out)) ->
     (have = true -> is_Some (cacheCoins c' !! out)) -> Q (have, c') e') ->
  ends (on_view (HaveCoin out) c) e Q R.
Proof.
  intros Hok Hf HQ. unfold ends, on_view, HaveCoin. set (c0 := SetBackend _ c). destruct (FetchCoin out c0) as [it c'] eqn:E.
  destruct (FetchCoin_pool (pool e) (pcoinsTip e) c0 out it c' Hok eq_refl Hf E) as (b' & Hb & Hs & Hf' & Hg & Hit & Hl). rewrite Hb.
  pose proof (keeps_tip b' e Hs) as K. apply HQ; [done|unfold pooled; by rewrite (keeps_utxo _ _ K)|exact Hg| |].
  - rewrite <- Hl. destruct it as [e1|]; cbn; [|by split; [|intros []]]. unfold live. destruct (IsSpent (coin e1)); cbn; split; (done || by intros []).
  - destruct it as [e1|]; [|done]. rewrite Hit. by eexists.
Qed.

End Views.

(** ** Lemmas: the stages of the handler *)

Section Stages.
Context {V : Type} `{CCoinsViewLaws V} `{SetOrder}.
Variable node_usage : Z.
Variable usage : CTxMemPool -> Z.
Variable worst : CTxMemPool -> option Z.
Variable tx_usage : CTransaction -> Z.
Variable GetMinFee : CTxMemPool -> Z -> CFeeRate.
Variable pow : spec_float -> spec_float -> spec_float.
Variable timeToPrune expired : list Z -> bool.
Variable Hash : list Z -> Z.
Variable Verify : list Z -> Z -> list Z -> bool.
Variable CheckLowS : list Z -> bool.
Variable RIPEMD160 SHA1 SHA256 HASH160 HASH256 : list Z -> list Z.
Variable scriptExecutionCacheNonce : list Z.
Variable CheckMineriumInputs : CTransaction -> Z -> CValidationState -> bool * CValidationState.
Variable o : Options.
Variable w : World.
Implicit Types (e : Env V) (tx : CTransaction).

(** A refusal that changed nothing but the state of the verdict. *)
Definition refused e (b : bool) (e' : Env V) : Prop := b = false /\ keeps e e'.

Lemma refused_keeps e e1 b e' : keeps e e1 -> refused e1 b e' -> refused e b e'.
Proof. intros K [-> K']. split; [done|by eapply keeps_trans]. Qed.
Lemma refused_state e e1 st : keeps e e1 -> refused e false (set_state st e1).
Proof. intros K. split; [done|]. eapply keeps_trans; [exact K|]. by apply keeps_state, (keeps_ok e). Qed.

Ltac kp := first [assumption | by apply keeps_refl | solve [constructor; (done || by apply same_view_refl)]].
Ltac refuses := first [apply refused_state; kp | split; [done|kp]].

(** Going on after a stage that keeps things. *)
Lemma ends_then {A} (m : M V A) e e1 (P : A -> Env V -> Prop) Q :
  ends m e1 (fun a e' => keeps e1 e' /\ P a e') (refused e1) -> keeps e e1 -> (forall a e', keeps e1 e' -> keeps e e' -> P a e' -> Q a e') ->
  ends m e1 Q (refused e).
Proof.
  intros Hm K HQ. eapply ends_mono; [exact Hm| |].
  - intros a e' [K' HP]. apply HQ; [done|by eapply keeps_trans|done].
  - intros b e'. by apply refused_keeps.
Qed.

Lemma check_locks_ok tx l e : cache_ok (pcoinsTip e) -> ends (check_locks w tx l) e (fun _ e' => keeps e e' /\ True) (refused e).
Proof.
  intros Hok. induction l as [|i l IH]; cbn [check_locks]; [split; [by apply keeps_refl|done]|].
  destruct (GetLockedOutPointTxHash w (prevout i)); [|exact IH]. destruct (negb _); [|exact IH]. apply ends_DoS. intros. refuses.
Qed.

(** What a transaction is that passed the checks without coins. *)
Record loose_ok tx e : Prop := {
  lo_check : exists st st', CheckTransaction timeToPrune expired tx st true = (true, st');
  lo_coinbase : IsCoinBase tx = false;
  lo_standard : fRequireStandard o = true ->
    IsStandardTx (fAcceptDatacarrier o) (nMaxDatacarrierBytes o) (fIsBareMultisigStd o) (dustRelayFee o) timeToPrune expired tx = Some None;
  lo_final : CheckFinalTx (mapBlocks w) (chainActive w) (adjustedTime w) tx STANDARD_LOCKTIME_VERIFY_FLAGS = Some true;
  lo_new : mapTx (pool e) !! tx_hash tx = None;
}.

Lemma check_loose_ok tx e : cache_ok (pcoinsTip e) ->
  ends (check_loose timeToPrune expired o w tx) e (fun _ e' => keeps e e' /\ (fTPSTestEnabled o = false -> loose_ok tx e)) (refused e).
Proof.
  intros Hok. unfold check_loose. destruct (fTPSTestEnabled o); [split; [by apply keeps_refl|done]|].
  apply ends_bind, ends_verdict; intros st1 E1; [|refuses]. apply ends_bind, ends_verdict; intros st2 E2; [|apply refused_state; kp].
  cbn [vstate set_state] in E2. apply ends_bind, ends_when; [intros _; ends_step; apply refused_state; kp|intros Hcb]. apply ends_bind.
  set (e2 := set_state st2 (set_state st1 e)). assert (keeps e e2) as K2 by kp.
  apply (ends_mono _ _ (fun _ e' => keeps e e' /\ (fRequireStandard o = true ->
    IsStandardTx (fAcceptDatacarrier o) (nMaxDatacarrierBytes o) (fIsBareMultisigStd o) (dustRelayFee o) timeToPrune expired tx = Some None)) _ (refused e)); [|clear K2|by intros].
  { destruct (fRequireStandard o); [|by split]. repeat ends_step. destruct a as [reason|]; [ends_step; refuses|by split]. }
  intros _ e3 [K3 Hstd]. pose proof (keeps_ok _ _ K3) as Hok3. apply ends_bind, ends_lift. intros a Ha. apply ends_bind, ends_when; [intros _; ends_step; refuses|intros Hfin].
  apply ends_bind, ends_get. apply ends_bind, ends_when; [intros _; ends_step; refuses|intros Hnew]. apply ends_bind, ends_when; [intros _; ends_step; refuses|intros _].
  eapply ends_then; [by apply check_locks_ok|done|]. intros _ e4 _ K4 _. split; [done|]. intros _. constructor; [by eexists _, _|done|done| |].
  - destruct a; [done|]. done.
  - rewrite (kp_pool _ _ K3) in Hnew. unfold exists_tx in Hnew. apply bool_decide_eq_false in Hnew. by apply eq_None_not_Some.
Qed.

Lemma find_conflicts_ok tx l s e : cache_ok (pcoinsTip e) ->
  ends (find_conflicts o w tx l s) e (fun s' e' => keeps e e'
    /\ (fEnableReplacement o = false -> s = ∅ -> s' = ∅ /\ forall i, i ∈ l -> mapNextTx (pool e) !! prevout i = None)) (refused e).
Proof.
  intros Hok. revert s. induction l as [|i l IH]; intros s; cbn [find_conflicts].
  { split; [by apply keeps_refl|]. intros _ ->. split; [done|]. by intros i ?%elem_of_nil. }
  apply ends_bind, ends_get. destruct (mapNextTx (pool e) !! prevout i) as [h|] eqn:En.
  - apply ends_bind, ends_lift. intros ptx _. cbv zeta. case_bool_decide as Hh.
    + eapply ends_mono; [apply IH| |by intros]. intros s' e' [K Hs]. split; [done|]. intros _ ->. by apply elem_of_empty in Hh.
    + do 3 (ends_step; [ends_step; refuses|]). destruct (fEnableReplacement o); cbn [andb negb]; [|ends_step; refuses].
      destruct (negb _); [ends_step; refuses|]. eapply ends_mono; [apply IH| |by intros]. intros s' e' [K _]. by split.
  - eapply ends_mono; [apply IH| |by intros]. intros s' e' [K Hs]. split; [done|]. intros Hr Hse. destruct (Hs Hr Hse) as [-> Hi]. split; [done|].
    intros j [->|Hj]%elem_of_cons; [done|by apply Hi].
Qed.

(** *** The coins *)

Lemma check_outputs_new_ok tx l n c e : cache_ok (pcoinsTip e) -> pooled e c ->
  ends (check_outputs_new tx l n c) e (fun c' e' => keeps e e' /\ pooled e' c' /\ hashBlock c' = hashBlock c) (refused e).
Proof.
  revert n c e. induction l as [|out l IH]; intros n c e Hok Hc; cbn [check_outputs_new]; [split; [by apply keeps_refl|done]|].
  apply ends_bind, ends_get. cbv beta. apply ends_bind. apply on_view_HaveCoin; [done|done|]. intros have c1 e1 K1 Hc1 [Hh _] _ _. cbv beta iota.
  pose proof (keeps_ok _ _ K1) as Hok1. destruct have.
  - repeat ends_step; (eapply refused_keeps; [exact K1|]); apply refused_state; kp.
  - eapply ends_then; [by apply IH|done|]. intros c' e' _ K [Hp Hh']. split_and!; [done|done|congruence].
Qed.

Lemma fetch_inputs_ok l c e : cache_ok (pcoinsTip e) -> pooled e c ->
  ends (fetch_inputs l c) e (fun c' e' => keeps e e' /\ pooled e' c' /\ grows c c' /\ cached c' l
    /\ Forall (fun i => is_Some (pool_coin (pool e) (cache_utxo (pcoinsTip e)) (prevout i))) l) (refused e).
Proof.
  revert c e. induction l as [|i l IH]; intros c e Hok Hc; cbn [fetch_inputs]; [split_and!; [by apply keeps_refl|done|done|constructor|constructor]|].
  apply ends_bind, ends_get. cbv beta.
  set (b0 := negb _). assert (ends (when b0 (put (push_uncache (prevout i)))) e (fun _ e' => keeps e e') (refused e)) as Hw.
  { apply ends_when; [intros _; apply ends_put; by apply keeps_push|intros _; by apply keeps_refl]. }
  apply ends_bind. eapply ends_mono; [exact Hw| |by intros]. intros [] e1 K1. cbv beta in K1. pose proof (keeps_ok _ _ K1) as Hok1.
  apply ends_bind. apply on_view_HaveCoin; [done|by apply (pooled_keeps e)|]. intros have c2 e2 K2 Hc2 Hg Hh Hin. cbv beta iota.
  pose proof (keeps_ok _ _ K2) as Hok2. assert (keeps e e2) as K02 by by eapply keeps_trans.
  rewrite (kp_pool _ _ K1), (keeps_utxo _ _ K1) in Hh. destruct have.
  - eapply ends_then; [by apply IH|done|]. intros c' e' _ K (Hp & Hg' & Hca & Hco). split_and!; [done|done|by eapply grows_trans| |].
    + constructor; [|done]. destruct (Hin eq_refl) as [en E]. exists en. by apply Hg'.
    + rewrite (kp_pool _ _ K02), (keeps_utxo _ _ K02) in Hco. constructor; [by apply Hh|done].
  - repeat ends_step. split; [done|]. eapply keeps_trans; [exact K02|by apply keeps_missing].
Qed.

(** What the inputs are worth together. *)
Definition value_of (m : gmap COutPoint Coin) tx : Z := sum_inputs (vin tx) m.

Lemma value_in_cached m (c : CCoinsViewCache (Backend V)) l acc : cached c l ->
  (forall i en, i ∈ l -> cacheCoins c !! prevout i = Some en -> Some (coin en) = m !! prevout i) ->
  value_in_loop l acc c = (acc + sum_inputs l m, c).
Proof.
  intros Hl. revert acc. induction Hl as [|i l [en E] Hl IH]; intros acc Hm; cbn [value_in_loop]; [cbn; do 2 f_equal; lia|].
  rewrite (AccessCoin_cached _ _ _ E), IH by (intros j ej Hj; by apply Hm; right). cbn [sum_inputs foldr]. fold (sum_inputs l m).
  rewrite <- (Hm i en) by (done || by left). cbn. f_equal. lia.
Qed.

Lemma pooled_input_coins e c tx : pooled e c -> Forall (fun i => is_Some (pool_coin (pool e) (cache_utxo (pcoinsTip e)) (prevout i))) (vin tx) ->
  forall i en, i ∈ vin tx -> cacheCoins c !! prevout i = Some en ->
    Some (coin en) = input_coins (pool e) (cache_utxo (pcoinsTip e)) tx !! prevout i /\ IsSpent (coin en) = false.
Proof.
  intros Hp Hf i en Hi E. rewrite Forall_forall in Hf. destruct (Hf i Hi) as [co Hco]. destruct (Hp _ _ E) as [Hl _].
  rewrite input_coins_lookup, Hco by done. rewrite Hco in Hl. by apply live_Some in Hl as [-> ?].
Qed.

(** The local view when the coins are in it and it stands on nothing. *)
Record view_ready e tx (c : CCoinsViewCache (Backend V)) : Prop := {
  vr_base : base c = Dummy;
  vr_best : hashBlock c = cache_best (pcoinsTip e);
  vr_pooled : pooled e c;
  vr_cached : cached c (vin tx);
  vr_coins : Forall (fun i => is_Some (pool_coin (pool e) (cache_utxo (pcoinsTip e)) (prevout i))) (vin tx);
}.

Lemma view_ready_keeps e e' tx c : keeps e e' -> view_ready e tx c -> view_ready e' tx c.
Proof.
  intros K [B1 B2 B3 B4 B5]. constructor; [done| |by apply (pooled_keeps e)|done|by rewrite (kp_pool _ _ K), (keeps_utxo _ _ K)].
  destruct (kp_tip _ _ K) as (_ & _ & ->). done.
Qed.

Lemma on_view_GetBestBlock c e (Q : Z * CCoinsViewCache (Backend V) -> Env V -> Prop) R : cache_ok (pcoinsTip e) -> hashBlock c = 0 ->
  (forall h c' e', keeps e e' -> cacheCoins c' = cacheCoins c -> hashBlock c' = cache_best (pcoinsTip e) -> Q (h, c') e') -> ends (on_view GetBestBlock c) e Q R.
Proof.
  intros Hok Hh HQ. unfold ends, on_view, GetBestBlock at 1. cbn [hashBlock SetBackend]. rewrite Hh, Z.eqb_refl. cbn [base SetBackend view_GetBestBlock Backend_view].
  destruct (GetBestBlock (pcoinsTip e)) as [h b] eqn:E. destruct (GetBestBlock_ok _ _ _ Hok E) as [-> Hs]. cbn [base].
  apply HQ; [by apply keeps_tip|done|done].
Qed.

Lemma fetch_coins_ok tx e : cache_ok (pcoinsTip e) -> IsCoinBase tx = false ->
  ends (fetch_coins w tx) e (fun x e' => keeps e e' /\ view_ready e' tx x.1.1
    /\ x.1.2 = value_of (input_coins (pool e) (cache_utxo (pcoinsTip e)) tx) tx) (refused e).
Proof.
  intros Hok Hcb. unfold fetch_coins. apply ends_bind. eapply ends_then; [apply check_outputs_new_ok; [done|]|by apply keeps_refl|].
  { intros out en. cbn. by rewrite lookup_empty. }
  intros c1 e1 _ K1 [Hc1 Hh1]. cbn [hashBlock CCoinsViewCache_make] in Hh1. pose proof (keeps_ok _ _ K1) as Hok1.
  apply ends_bind. eapply ends_then; [by apply fetch_inputs_ok|done|]. intros c2 e2 K12 K2 (Hc2 & [Hh2 _] & Hca & Hco). pose proof (keeps_ok _ _ K2) as Hok2.
  apply ends_bind. apply on_view_GetBestBlock; [done|congruence|]. intros h c3 e3 K23 Ec3 Hb3. cbv beta iota. assert (keeps e e3) as K3 by by eapply keeps_trans.
  assert (cached c3 (vin tx)) as Hca3 by (unfold cached; by rewrite Ec3).
  assert (pooled e3 c3) as Hc3 by (apply (pooled_keeps e2 e3 _ K23) in Hc2; intros out en; rewrite Ec3; apply Hc2).
  assert (Forall (fun i => is_Some (pool_coin (pool e3) (cache_utxo (pcoinsTip e3)) (prevout i))) (vin tx)) as Hco3.
  { rewrite (kp_pool _ _ K1), (keeps_utxo _ _ K1) in Hco. by rewrite (kp_pool _ _ K3), (keeps_utxo _ _ K3). }
  apply ends_bind. unfold ends at 1, on_view, GetValueIn. rewrite Hcb.
  rewrite (value_in_cached (input_coins (pool e3) (cache_utxo (pcoinsTip e3)) tx)) by (first [exact Hca3|intros i en Hi E; by apply (pooled_input_coins e3 c3)]).
  cbn [base SetBackend]. rewrite Z.add_0_l. cbv beta iota. set (e4 := set_tip (pcoinsTip e3) e3). assert (keeps e3 e4) as K34 by (pose proof (keeps_ok _ _ K3); kp).
  apply ends_bind, ends_get. cbn [id]. apply ends_bind, ends_lift. intros [[ok lp] tip] El. cbv beta iota.
  apply CheckSequenceLocks_same in El; [|exact (keeps_ok _ _ K3)]. apply ends_bind, ends_put. set (e5 := set_tip tip e4).
  assert (keeps e3 e5) as K35 by (constructor; done). assert (keeps e e5) as K5 by by eapply keeps_trans. pose proof (keeps_ok _ _ K5) as Hok5.
  repeat ends_step; [refuses|]. split; [done|]. cbn [fst snd].
  split; [|by rewrite (kp_pool _ _ K3), (keeps_utxo _ _ K3)]. apply (view_ready_keeps e3); [done|]. constructor; [done| |exact Hc3|exact Hca3|exact Hco3].
  cbn [hashBlock SetBackend]. rewrite Hb3. destruct (kp_tip _ _ K23) as (_ & _ & ->). done.
Qed.

(** *** Fees *)

Lemma spends_coinbase_cached (c : CCoinsViewCache (Backend V)) l : cached c l -> (spends_coinbase l c).2 = c.
Proof.
  intros Hl. induction Hl as [|i l [e E] Hl IH]; cbn [spends_coinbase]; [done|]. rewrite (AccessCoin_cached _ _ _ E). by destruct (fCoinBase (coin e)).
Qed.

(** The entry made for a transaction whose inputs are worth [nValueIn]. *)
Record entry_ok tx (nValueIn : Z) (en : CTxMemPoolEntry) : Prop := {
  en_tx : e_tx en = tx;
  en_fresh : fresh en;
  en_fee : exists vo, GetValueOut tx = Some vo /\ nFee en = nValueIn - vo;
  en_size : nTxSize en = GetSerializeSize timeToPrune expired tx;
  en_sigops : 0 <= sigOpCount en <= MAX_STANDARD_TX_SIGOPS;
}.

Lemma check_fees_ok a tx c v lp e : cache_ok (pcoinsTip e) -> IsCoinBase tx = false -> view_ready e tx c ->
  ends (check_fees tx_usage GetMinFee pow timeToPrune expired CheckLowS RIPEMD160 SHA1 SHA256 HASH160 HASH256 o w a tx c v lp) e
    (fun x e' => keeps e e' /\ (x.2 = c /\ entry_ok tx v (entry x.1))) (refused e).
Proof.
  intros Hok Hcb Hv. pose proof (vr_cached _ _ _ Hv) as Hca. unfold check_fees.
  apply ends_bind, (ends_mono _ _ (fun x e' => e' = e /\ x.2 = c) _ (refused e)); [| |by intros].
  { destruct (fRequireStandard o); [|by split]. apply ends_lift. intros [b c'] E. unfold AreInputsStandard in E. rewrite Hcb in E.
    split; [done|]. by apply inputs_standard_cached in E. }
  intros [b c'] e' [-> Ec]. cbn in Ec. subst c'. cbv beta iota. apply ends_bind, ends_when; intros _; [ends_step; refuses|].
  apply ends_bind, ends_lift. intros [p2sh c'] E. cbv beta iota. unfold GetP2SHSigOpCount in E. rewrite Hcb in E. apply p2sh_sigops_cached in E as ->; [|done].
  set (nSigOps := u32 (GetLegacySigOpCount tx + p2sh)). apply ends_bind, ends_lift. intros vo Hvo. apply ends_bind, ends_lift. intros fee [-> Hfee]%checked_Some.
  apply ends_bind, ends_get. apply ends_bind, ends_lift. intros mfee Hm. unfold GetPriority. rewrite Hcb.
  pose proof (priority_cached c (vin tx) (chain_Height (chainActive w)) (S754_zero false) 0 Hca) as Ep.
  destruct (priority_loop _ _ _ _ c) as [[d inc] c']. cbn in Ep. subst c'. cbv beta iota.
  pose proof (spends_coinbase_cached c (vin tx) Hca) as Es. destruct (spends_coinbase (vin tx) c) as [cb c']. cbn in Es. subst c'. cbv beta iota zeta.
  set (en := CTxMemPoolEntry_make _ _ _ _ _ _ _ _ _). apply ends_bind, ends_lift. intros _ _.
  apply ends_bind, ends_when; [intros _; ends_step; refuses|]. intros Hso. apply orb_false_iff in Hso as [Hso _].
  assert (0 <= nSigOps <= MAX_STANDARD_TX_SIGOPS) as Hn.
  { rewrite Z.gtb_ltb in Hso. apply Z.ltb_ge in Hso. pose proof (wrap_range 32 (GetLegacySigOpCount tx + p2sh) ltac:(lia)) as Hw. unfold in_u in Hw. fold nSigOps in Hw. lia. }
  assert (entry_ok tx v en) as Hen by (constructor; [done|apply make_fresh|by exists vo|done|done]). clearbody en.
  apply ends_bind, ends_lift. intros limit _. apply ends_bind, ends_lift. intros rej _. apply ends_bind, ends_lift. intros relay _.
  apply ends_bind, (ends_mono _ _ (fun _ e' => e' = e) _ (refused e)); [| |by intros].
  { destruct (_ && _); [ends_step; refuses|]. apply ends_when; [intros _; ends_step; refuses|by intros _]. }
  intros [] ? ->. apply ends_bind, (ends_mono _ _ (fun _ e' => keeps e e') _ (refused e)); [| |by intros].
  { apply ends_when; [|intros _; kp]. intros _. apply ends_bind, ends_lift. intros l _. apply ends_bind, ends_get. destruct (free_limit _ _ _ _) as [over s].
    apply ends_bind, ends_put. apply ends_when; intros _; [ends_step; apply refused_state; kp|kp]. }
  intros [] e1 K1. cbv beta in K1. apply ends_bind, ends_when; intros _; [ends_step; refuses|]. split; [done|]. by split.
Qed.

Lemma check_ancestors_ok en s e : cache_ok (pcoinsTip e) ->
  ends (check_ancestors o en s) e (fun anc e' => keeps e e' /\ exists lim, CalculateMemPoolAncestors (pool e) en ∅ lim true = Some (anc, None)) (refused e).
Proof.
  intros Hok. unfold check_ancestors. apply ends_bind, ends_get. apply ends_bind, ends_lift. intros s1 _. apply ends_bind, ends_lift. intros s2 _.
  apply ends_bind, ends_lift. intros [anc r] E. cbv beta iota. apply ends_bind, ends_when; [intros _; ends_step; refuses|intros Hr].
  apply ends_bind, ends_when; intros _; [ends_step; refuses|]. split; [kp|]. destruct r; [done|]. by eexists.
Qed.

Lemma replacement_loop_ok r l s1 s2 n e : cache_ok (pcoinsTip e) -> ends (replacement_loop r l s1 s2 n) e (fun _ e' => keeps e e' /\ True) (refused e).
Proof.
  intros Hok. revert s1 s2 n. induction l as [|h l IH]; intros s1 s2 n; cbn [replacement_loop]; [split; [kp|done]|].
  apply ends_bind, ends_get. destruct (mapTx (pool e) !! h); [|apply IH]. apply ends_bind, ends_lift. intros r' _. destruct (_ <=? _); [ends_step; refuses|apply IH].
Qed.

Lemma check_replacement_ok tx cd s e : cache_ok (pcoinsTip e) ->
  ends (check_replacement o tx cd s) e (fun s' e' => keeps e e' /\ (s = ∅ -> s' = ∅)) (refused e).
Proof.
  intros Hok. unfold check_replacement. case_bool_decide as Hs; [split; [kp|done]|]. apply ends_bind, ends_lift. intros r _.
  apply ends_bind. eapply ends_then; [by apply replacement_loop_ok|kp|]. intros [[s1 s2] n] e1 _ K1 _. cbv beta iota.
  apply ends_bind, ends_get. destruct (negb _); [ends_step; refuses|]. apply ends_bind, ends_lift. intros all _. apply ends_bind, ends_lift. intros fees _.
  apply ends_bind, ends_when; intros _; [ends_step; refuses|]. apply ends_bind, ends_when; intros _; [ends_step; refuses|].
  apply ends_bind, ends_lift. intros d _. apply ends_bind, ends_lift. intros relay _. apply ends_bind, ends_when; intros _; [ends_step; refuses|].
  by split.
Qed.

(** *** Scripts *)

(** A view over a database that has just the coins of a view. *)
Definition ghost (c : CCoinsViewCache (Backend V)) : CCoinsViewCache CCoinsViewDB :=
  {| base := {| db_coins := omap (fun en => live (coin en)) (cacheCoins c); db_best := 0 |}; hashBlock := 0;
     cacheCoins := cacheCoins c; cachedCoinsUsage := u64 (usage_sum (cacheCoins c)) |}.

Lemma ghost_lookup c out : cache_utxo (ghost c) !! out = en ← cacheCoins c !! out; live (coin en).
Proof. rewrite cache_utxo_lookup. cbn. rewrite lookup_omap. by destruct (cacheCoins c !! out). Qed.

Lemma ghost_ok p u c : fetched p u c -> cache_ok (ghost c).
Proof.
  intros Hf. constructor; [| |by cbn].
  - intros out co. cbn. rewrite lookup_omap. intros E. apply bind_Some in E as (en & _ & E). by apply live_Some in E as [-> E].
  - intros out en E. cbn in E. assert (view_utxo (base (ghost c)) !! out = live (coin en)) as ->; [cbn; by rewrite lookup_omap, E|].
    split; [|done]. by apply (Hf out en E).
Qed.

(** Every coin a transaction may spend has a value of 64 bits. *)
Definition values_ok (p : CTxMemPool) (u : gmap COutPoint Coin) : Prop := forall out co, pool_coin p u out = Some co -> in_s 64 (nValue (Coins.out co)).

Lemma ghost_inputs e tx c : view_ready e tx c -> forall i, i ∈ vin tx ->
  cache_utxo (ghost c) !! prevout i = input_coins (pool e) (cache_utxo (pcoinsTip e)) tx !! prevout i.
Proof.
  intros Hv i Hi. rewrite ghost_lookup, input_coins_lookup by done. pose proof (vr_cached _ _ _ Hv) as Hca. unfold cached in Hca. rewrite Forall_forall in Hca.
  destruct (Hca i Hi) as [en E]. rewrite E. cbn. by apply (vr_pooled _ _ _ Hv).
Qed.

Lemma sum_inputs_ext (m m' : gmap COutPoint Coin) l : (forall i, i ∈ l -> m !! prevout i = m' !! prevout i) -> sum_inputs l m = sum_inputs l m'.
Proof.
  unfold sum_inputs. induction l as [|i l IH]; intros Hm; [done|]. cbn [foldr]. rewrite (Hm i) by left. rewrite IH; [done|]. intros j Hj. apply Hm. by right.
Qed.

(** What [Consensus::CheckTxInputs] asks of a transaction in the next block. *)
Definition inputs_ok e tx : Prop :=
  let m := input_coins (pool e) (cache_utxo (pcoinsTip e)) tx in
  exists b vo, mapBlocks w !! cache_best (pcoinsTip e) = Some b /\ GetValueOut tx = Some vo
  /\ Forall (input_ok m (nHeight b + 1)) (vin tx) /\ vo <= value_of m tx <= MAX_MONEY.

(** The checks of the scripts of all inputs. *)
Definition input_checks (m : gmap COutPoint Coin) tx : list CScriptCheck :=
  imap (fun n i => {| chk_scriptPubKey := from_option (fun co => scriptPubKey (Coins.out co)) [] (m !! prevout i); ptxTo := tx; chk_nIn := n;
                      nFlags := STANDARD_SCRIPT_VERIFY_FLAGS; chk_cacheStore := true |}) (vin tx).

Abbreviation all_checks l := (run_checks timeToPrune expired Hash Verify CheckLowS RIPEMD160 SHA1 SHA256 HASH160 HASH256 l) (only parsing).
Abbreviation one_check c := (run_check timeToPrune expired Hash Verify CheckLowS RIPEMD160 SHA1 SHA256 HASH160 HASH256 c) (only parsing).

Lemma run_checks_ok l : all_checks l = Some true <-> Forall (fun c => one_check c = Some true) l.
Proof.
  induction l as [|c l IH]; cbn [run_checks]; [by split|]. rewrite Forall_cons. destruct (run_check _ _ _ _ _ _ _ _ _ _ c) as [[|]|]; cbn [mbind option_bind].
  - rewrite IH. tauto.
  - split; [done|by intros [? _]].
  - split; [done|by intros [? _]].
Qed.

Lemma script_checks_cached (m : gmap COutPoint Coin) (c : CCoinsViewCache (Backend V)) tx l n st : cached c l ->
  (forall i en, i ∈ l -> cacheCoins c !! prevout i = Some en -> Some (coin en) = m !! prevout i /\ IsSpent (coin en) = false) ->
  script_checks timeToPrune expired Hash Verify CheckLowS RIPEMD160 SHA1 SHA256 HASH160 HASH256 tx l n STANDARD_SCRIPT_VERIFY_FLAGS true true st c
  = (Some (inr (imap (fun k i => {| chk_scriptPubKey := from_option (fun co => scriptPubKey (Coins.out co)) [] (m !! prevout i); ptxTo := tx; chk_nIn := n + k;
       nFlags := STANDARD_SCRIPT_VERIFY_FLAGS; chk_cacheStore := true |}) l)), c).
Proof.
  intros Hl. revert n. induction Hl as [|i l [en E] Hl IH]; intros n Hm; cbn [script_checks imap]; [done|].
  rewrite (AccessCoin_cached _ _ _ E). destruct (Hm i en) as [Hco Hsp]; [left|done|]. rewrite Hsp, <- Hco, IH by (intros j ej Hj; by apply Hm; right). cbn [from_option].
  rewrite Nat.add_0_r. do 4 f_equal. apply imap_ext. intros k j _. cbn. by rewrite Nat.add_succ_r.
Qed.

Lemma GetSpendHeight_ok e tx c m : view_ready e tx c ->
  exists c', GetSpendHeight m c = (b ← m !! cache_best (pcoinsTip e); Some (nHeight b + 1), c') /\ cacheCoins c' = cacheCoins c.
Proof.
  intros Hv. unfold GetSpendHeight, GetBestBlock. rewrite (vr_base _ _ _ Hv), <- (vr_best _ _ _ Hv). cbn [view_GetBestBlock Backend_view].
  destruct (Z.eqb_spec (hashBlock c) 0) as [E|]; [rewrite E|]; by eexists.
Qed.

Lemma check_inputs_refuses {W} `{CCoinsView W} l h acc st (c : CCoinsViewCache W) st' c' : check_inputs_loop l h acc st c <> (Some (inl (true, st')), c').
Proof.
  revert acc c. induction l as [|i l IH]; intros acc c; cbn [check_inputs_loop]; [done|]. destruct (AccessCoin (prevout i) c) as [co c1].
  destruct (IsSpent co); [done|]. destruct (_ && _); [unfold state_Invalid, DoS; by destruct (mode st)|]. destruct (_ || _); [unfold DoS; by destruct (mode st)|]. apply IH.
Qed.

Lemma CheckTxInputs_sums {W} `{CCoinsView W} tx st h (c : CCoinsViewCache W) st' c' : CheckTxInputs tx st h c = (Some (true, st'), c') -> is_Some (GetValueOut tx).
Proof.
  unfold CheckTxInputs. destruct (HaveInputs tx c) as [[|] c1]; cbn [negb]; [|unfold state_Invalid, DoS; by destruct (mode st)].
  destruct (check_inputs_loop _ _ _ _ _) as [[[[r st1]|v]|] c2] eqn:E; [|destruct (GetValueOut tx); [by eexists|done]|done].
  intros [= -> -> ->]. by apply check_inputs_refuses in E.
Qed.

(** [CheckInputs] as the handler calls it. *)
Lemma CheckInputs_ready e tx c st r c' : IsCoinBase tx = false -> view_ready e tx c ->
  CheckInputs timeToPrune expired Hash Verify CheckLowS RIPEMD160 SHA1 SHA256 HASH160 HASH256 scriptExecutionCacheNonce
    (mapBlocks w) tx st true STANDARD_SCRIPT_VERIFY_FLAGS true true true (scriptExecutionCache e) c = (Some r, c') ->
  ci_cache r = scriptExecutionCache e
  /\ (values_ok (pool e) (cache_utxo (pcoinsTip e)) -> ci_ret r = true -> inputs_ok e tx /\ ci_entry r = hashCacheEntry SHA256 scriptExecutionCacheNonce tx
      /\ (isCached r = true <-> hashCacheEntry SHA256 scriptExecutionCacheNonce tx ∈ scriptExecutionCache e)
      /\ (isCached r = false -> ci_checks r = input_checks (input_coins (pool e) (cache_utxo (pcoinsTip e)) tx) tx)).
Proof.
  intros Hcb Hv. unfold CheckInputs. rewrite Hcb. destruct (GetSpendHeight_ok e tx c (mapBlocks w) Hv) as (c1 & -> & Ec1).
  destruct (mapBlocks w !! cache_best (pcoinsTip e)) as [b|] eqn:Eb; [|done]. cbn [mbind option_bind].
  assert (cached c1 (vin tx)) as Hca by (unfold cached; rewrite Ec1; apply (vr_cached _ _ _ Hv)).
  destruct (CheckTxInputs_cached c1 (ghost c) tx st (nHeight b + 1) Hca ltac:(by rewrite Ec1)) as (r1 & -> & Eg).
  destruct r1 as [[[|] st']|]; [|by intros [= <- _]|done]. cbn [negb].
  pose proof (ghost_inputs e tx c Hv) as Hgi. set (m := input_coins _ _ tx) in *.
  assert (values_ok (pool e) (cache_utxo (pcoinsTip e)) -> inputs_ok e tx) as Hin.
  { intros Hval. assert (is_Some (GetValueOut tx)) as [vo Hvo].
    { exact (CheckTxInputs_sums _ _ _ _ _ _ Eg). }
    assert (forall out co, cache_utxo (ghost c) !! out = Some co -> in_s 64 (nValue (Coins.out co))) as Hgv.
    { intros out co. rewrite ghost_lookup. intros E. apply bind_Some in E as (en & E1 & E2). apply (vr_pooled _ _ _ Hv) in E1 as [E1 _]. rewrite E1 in E2. by apply (Hval out). }
    destruct (CheckTxInputs_ok tx st (nHeight b + 1) (ghost c) vo _ _ (ghost_ok _ _ _ (vr_pooled _ _ _ Hv)) Hcb Hvo Hgv Eg) as (_ & Hr).
    destruct Hr as [[_ [Hf Hs]]|[(? & Hx & _) _]]; [|done]. exists b, vo. split; [exact Eb|]. split; [exact Hvo|]. fold m. split.
    - apply Forall_forall. intros i Hi. rewrite Forall_forall in Hf. destruct (Hf i Hi) as (co & Hco & Hx). exists co. rewrite <- (Hgi i Hi). done.
    - unfold value_of. by rewrite <- (sum_inputs_ext (cache_utxo (ghost c)) m). }
  case_bool_decide as Hce; [intros [= <- _]; cbn; split_and!; [done|]; intros Hval _; split_and!; [by apply Hin|done|done|done]|].
  rewrite (script_checks_cached m).
  - intros [= <- _]. cbn. split_and!; [done|]. intros Hval _. split_and!; [by apply Hin|done|by split|done].
  - exact Hca.
  - intros i en Hi E. rewrite Ec1 in E. by apply (pooled_input_coins e c tx (vr_pooled _ _ _ Hv) (vr_coins _ _ _ Hv)).
Qed.

Definition in_script_cache e tx : Prop := hashCacheEntry SHA256 scriptExecutionCacheNonce tx ∈ scriptExecutionCache e.

(** Every script of the inputs ran to true, and so did the checks of the services. *)
Definition verified e tx : Prop :=
  Forall (fun c => one_check c = Some true) (input_checks (input_coins (pool e) (cache_utxo (pcoinsTip e)) tx) tx)
  /\ exists st st', CheckMineriumInputs tx (chain_Height (chainActive w)) st = (true, st').

Lemma check_scripts_ok a tx c e : cache_ok (pcoinsTip e) -> IsCoinBase tx = false -> view_ready e tx c ->
  ends (check_scripts timeToPrune expired Hash Verify CheckLowS RIPEMD160 SHA1 SHA256 HASH160 HASH256 scriptExecutionCacheNonce CheckMineriumInputs w a tx c) e
    (fun x e' => keeps e e' /\ (values_ok (pool e) (cache_utxo (pcoinsTip e)) -> inputs_ok e tx /\ ~ in_script_cache e tx
       /\ x = (input_checks (input_coins (pool e) (cache_utxo (pcoinsTip e)) tx) tx, hashCacheEntry SHA256 scriptExecutionCacheNonce tx)
       /\ (bMultiThreaded a = false -> verified e tx)))
    (fun b e' => keeps e e' /\ (values_ok (pool e) (cache_utxo (pcoinsTip e)) -> b = true -> inputs_ok e tx /\ in_script_cache e tx)).
Proof.
  intros Hok Hcb Hv. unfold check_scripts. apply ends_bind, ends_get. cbn [id]. apply ends_bind, ends_lift. intros r Er.
  destruct (CheckInputs _ _ _ _ _ _ _ _ _ _ _ _ _ _ _ _ _ _ _ _ c) as [ro c'] eqn:E. cbn [fst] in Er. subst ro.
  destruct (CheckInputs_ready e tx c (vstate e) r c' Hcb Hv E) as [Hce Hr]. apply ends_bind, ends_put. apply ends_bind, ends_put.
  set (e1 := set_script_cache _ _). assert (keeps e e1) as K1 by (constructor; [by apply same_view_refl|done|exact Hce|done]).
  destruct (ci_ret r) eqn:Eret; cbn [negb]; [|by split]. specialize (fun Hval => Hr Hval eq_refl).
  destruct (isCached r) eqn:Ec; [split; [done|]; intros Hval _; destruct (Hr Hval) as (Hin & _ & Hca & _); split; [done|by apply Hca]|].
  assert (values_ok (pool e) (cache_utxo (pcoinsTip e)) -> inputs_ok e tx /\ ~ in_script_cache e tx
    /\ (ci_checks r, ci_entry r) = (input_checks (input_coins (pool e) (cache_utxo (pcoinsTip e)) tx) tx, hashCacheEntry SHA256 scriptExecutionCacheNonce tx)) as Hg.
  { intros Hval. destruct (Hr Hval) as (Hin & Hent & Hca & Hch). rewrite (Hch eq_refl), Hent. split_and!; [done| |done]. intros Hi. by apply Hca in Hi. }
  destruct (bMultiThreaded a) eqn:Em; [split; [done|]; intros Hval; destruct (Hg Hval) as (? & ? & ?); by split_and!|].
  apply ends_bind, ends_lift. intros ok Eok. destruct ok; cbn [negb]; [|by split]. apply ends_bind, ends_verdict; intros st Est.
  - split; [eapply keeps_trans; [exact K1|by apply keeps_state, (keeps_ok e)]|]. intros Hval. destruct (Hg Hval) as (? & ? & Ex). split_and!; [done..|]. intros _.
    injection Ex as Ex _. rewrite Ex in Eok. split; [by apply run_checks_ok|by eexists _, _].
  - split; [|done]. eapply keeps_trans; [exact K1|by apply keeps_state, (keeps_ok e)].
Qed.

(** *** The change of the pool *)

(** The pool has room for the transaction, and does not know it. *)
Record has_room (p : CTxMemPool) tx : Prop := {
  hr_self : tx_hash tx ∉ input_hashes (vin tx);
  hr_childless : forall h en, mapTx p !! h = Some en -> tx_hash tx ∉ input_hashes (vin (e_tx en));
  hr_delta : in_s 64 (delta_of p (tx_hash tx));
  hr_size : sum_over (size_of (mapTx p)) (dom (mapTx p)) + GetSerializeSize timeToPrune expired tx < 2 ^ 63;
  hr_fee : sum_over (fun x => Z.abs (fee_of (mapTx p) x)) (dom (mapTx p)) + MAX_MONEY + Z.abs (delta_of p (tx_hash tx)) < 2 ^ 63;
  hr_sigops : sum_over (sig_of (mapTx p)) (dom (mapTx p)) + MAX_STANDARD_TX_SIGOPS < 2 ^ 31;
}.

Lemma GetSerializeSize_pos tx : 0 < GetSerializeSize timeToPrune expired tx.
Proof. unfold GetSerializeSize, ser_tx. rewrite length_app. unfold ser_writedata. rewrite le_encode_length. lia. Qed.

Lemma sum_over_insert_new {A} (g : gmap Z CTxMemPoolEntry -> Z -> Z) (f : CTxMemPoolEntry -> A) (m : gmap Z CTxMemPoolEntry) h en v : m !! h = None ->
  (forall x, x <> h -> g (<[h := en]> m) x = g m x) -> g (<[h := en]> m) h = v -> sum_over (g (<[h := en]> m)) (dom (<[h := en]> m)) = v + sum_over (g m) (dom m).
Proof.
  intros Hn Hg Hv. rewrite dom_insert_L, sum_over_insert by by apply not_elem_of_dom. rewrite Hv. f_equal. apply sum_over_ext. intros x Hx. apply Hg.
  intros ->. apply elem_of_dom in Hx as [? Hx]. by rewrite Hn in Hx.
Qed.

Lemma room_addable p tx v en : consistent p -> has_room p tx -> mapTx p !! tx_hash tx = None -> (forall i, i ∈ vin tx -> mapNextTx p !! prevout i = None) ->
  entry_ok tx v en -> 0 <= nFee en <= MAX_MONEY -> addable p en.
Proof.
  intros C R Hn Hi [Etx Hfr _ Hsz Hso] Hfee. assert (e_hash en = tx_hash tx) as Eh by (unfold e_hash; by rewrite Etx).
  constructor; rewrite ?Eh, ?Etx; try apply R; try done; [by apply not_elem_of_dom|].
  set (fin := set_delta _ en). assert (nTxSize fin = nTxSize en /\ sigOpCount fin = sigOpCount en /\ GetModifiedFee fin = nFee en + delta_of p (tx_hash tx)) as (F1 & F2 & F3) by done.
  pose proof (cs_bounded p C) as [B1 B2 B3 B4]. pose proof (GetSerializeSize_pos tx) as Hpos. destruct R as [_ _ _ R1 R2 R3].
  constructor.
  - intros h e0. destruct (decide (h = tx_hash tx)) as [->|Hh]; [rewrite lookup_insert_eq; intros [= <-]; rewrite F1, F2; lia|rewrite lookup_insert_ne by done; apply B1].
  - rewrite (sum_over_insert_new size_of nTxSize _ _ _ (nTxSize en)); [lia|done| |]; unfold size_of; intros; [by rewrite lookup_insert_ne|by rewrite lookup_insert_eq].
  - rewrite (sum_over_insert_new (fun m x => Z.abs (fee_of m x)) nFee _ _ _ (Z.abs (nFee en + delta_of p (tx_hash tx)))); [lia|done| |]; unfold fee_of; intros; [by rewrite lookup_insert_ne|by rewrite lookup_insert_eq].
  - rewrite (sum_over_insert_new sig_of sigOpCount _ _ _ (sigOpCount en)); [lia|done| |]; unfold sig_of; intros; [by rewrite lookup_insert_ne|by rewrite lookup_insert_eq].
Qed.

Lemma set_list_empty : set_list ∅ = [].
Proof. pose proof (set_list_perm ∅) as Hp. rewrite elements_empty in Hp. by apply Permutation_nil_r in Hp. Qed.

Lemma RemoveStaged_nothing p : RemoveStaged node_usage ∅ false p = Some p.
Proof. unfold RemoveStaged, UpdateForRemoveFromMempool. by rewrite set_list_empty. Qed.

(** The pool with the transaction: the entry is the candidate's with its fee delta, and every other one was there. *)
Record joined (p p' : CTxMemPool) tx (en : CTxMemPoolEntry) : Prop := {
  jn_consistent : consistent p';
  jn_entry : core <$> mapTx p' !! tx_hash tx = Some (core (set_delta (delta_of p (tx_hash tx)) en));
  jn_others : forall k en1, k <> tx_hash tx -> mapTx p' !! k = Some en1 -> exists en0, mapTx p !! k = Some en0 /\ core en0 = core en1;
}.

Lemma add_joined p tx v en lim anc p' : consistent p -> addable p en -> entry_ok tx v en ->
  CalculateMemPoolAncestors p en ∅ lim true = Some (anc, None) -> addUnchecked node_usage en anc p = Some p' -> joined p p' tx en.
Proof.
  intros C A [Etx _ _ _ _] Ec Ea. assert (e_hash en = tx_hash tx) as Eh by (unfold e_hash; by rewrite Etx). destruct (ancestors_exist p (e_tx en) C) as [t Ht].
  destruct (ancestors_search p en lim t (linked_up_ok _ (cs_linked p C)) (small_of_consistent p _ C (addable_size p en A)) Ht) as (s & r & E & Hr).
  rewrite Ec in E. injection E as <- <-. destruct Hr as [-> _]. destruct (addUnchecked_ok node_usage p en t C A Ht) as (p1 & E1 & C1 & Hs & _ & _).
  rewrite Ea in E1. injection E1 as <-. constructor; [done| |].
  - rewrite (Hs (tx_hash tx)), Eh. by rewrite lookup_insert_eq.
  - intros k e1 Hk E1. pose proof (Hs k) as Hsk. rewrite Eh, lookup_insert_ne, E1 in Hsk by done. destruct (mapTx p !! k) as [e0|]; [|done].
    exists e0. split; [done|]. symmetry. exact (Some_inj _ _ Hsk).
Qed.

Lemma joined_remains p p1 p2 tx en s : joined p p1 tx en -> remains p1 p2 s -> consistent p2 -> is_Some (mapTx p2 !! tx_hash tx) -> joined p p2 tx en.
Proof.
  intros [J1 J2 J3] R C2 [e2 E2]. constructor; [done| |].
  - destruct (remains_Some _ _ _ _ _ R E2) as (_ & e1 & E1 & Hc). rewrite E1 in J2. rewrite E2. cbn in *. by rewrite <- Hc.
  - intros k e3 Hk E3. destruct (remains_Some _ _ _ _ _ R E3) as (_ & e1 & E1 & Hc). destruct (J3 k e1 Hk E1) as (e0 & E0 & Hc0). exists e0. split; [done|congruence].
Qed.

Lemma Uncache_all_same l (b : CCoinsViewCache V) : cache_ok b -> same_view b (foldl (fun c out => Uncache out c) b l).
Proof.
  revert b. induction l as [|out l IH]; intros b Hok; cbn [foldl]; [by apply same_view_refl|].
  pose proof (Uncache_ok out b Hok) as Hs. eapply same_view_trans; [exact Hs|]. apply IH, Hs.
Qed.

Hypothesis worst_ok : forall q, mapTx q <> ∅ -> exists h, worst q = Some h /\ h ∈ dom (mapTx q).

Lemma LimitMempoolSize_ok limit age e : cache_ok (pcoinsTip e) -> consistent (pool e) ->
  ends (LimitMempoolSize node_usage usage worst w limit age) e
    (fun _ e' => same_view (pcoinsTip e) (pcoinsTip e') /\ consistent (pool e') /\ exists s, remains (pool e) (pool e') s) (fun _ _ => False).
Proof.
  intros Hok C. unfold LimitMempoolSize. apply ends_bind, ends_get. cbn [id]. apply ends_bind, ends_lift. intros [p1 n] E1. cbv beta iota.
  destruct (Expire_ok node_usage (HasTxLockRequest w) (i64 (now w - age)) (pool e) C) as (s1 & q1 & Eq1 & C1 & R1 & _). rewrite Eq1 in E1. injection E1 as <- <-.
  apply ends_bind, ends_lift. intros [p2 l] E2. cbv beta iota.
  destruct (trim_loop_ok node_usage usage worst worst_ok (S (base.size (mapTx q1))) limit q1 [] C1 ltac:(lia)) as (s2 & q2 & l2 & Eq2 & C2 & R2 & _).
  { by intros ? ?%elem_of_nil. }
  unfold TrimToSize in E2. rewrite Eq2 in E2. injection E2 as <- <-. apply ends_bind, ends_put, ends_put. split; [by apply Uncache_all_same|]. split; [done|].
  exists (s1 ∪ s2). by eapply remains_trans.
Qed.

(** What stays when the pool changes. *)
Definition around e e' : Prop :=
  same_view (pcoinsTip e) (pcoinsTip e') /\ scriptExecutionCache e' = scriptExecutionCache e /\ threadpool e' = threadpool e /\ coins_to_uncache e' = coins_to_uncache e.

Lemma around_trans e1 e2 e3 : around e1 e2 -> around e2 e3 -> around e1 e3.
Proof. intros (S1 & C1 & T1 & U1) (S2 & C2 & T2 & U2). split_and!; [by eapply same_view_trans|congruence..]. Qed.
Lemma around_state st e e' : around e e' -> around e (set_state st e').
Proof. done. Qed.

Lemma LimitMempoolSize_around limit age e : cache_ok (pcoinsTip e) ->
  ends (LimitMempoolSize node_usage usage worst w limit age) e (fun _ e' => around e e') (fun _ _ => False).
Proof.
  intros Hok. unfold LimitMempoolSize. apply ends_bind, ends_get. cbn [id]. apply ends_bind, ends_lift. intros [p1 n] _. cbv beta iota.
  apply ends_bind, ends_lift. intros [p2 l] _. cbv beta iota. apply ends_bind, ends_put, ends_put. split_and!; try done. by apply Uncache_all_same.
Qed.

Lemma addUnchecked_in en anc p p' : addUnchecked node_usage en anc p = Some p' -> is_Some (mapTx p' !! e_hash en).
Proof.
  unfold addUnchecked. intros E. apply bind_Some in E as (p1 & _ & E). apply bind_Some in E as (p2 & _ & E). apply bind_Some in E as (p3 & _ & E).
  unfold modify in E. apply bind_Some in E as (e0 & _ & E). cbn in E. injection E as <-. cbn. rewrite lookup_insert_eq. by eexists.
Qed.

Lemma exists_tx_true p h : exists_tx p h = true <-> is_Some (mapTx p !! h).
Proof. unfold exists_tx. by rewrite bool_decide_eq_true. Qed.
Lemma exists_tx_false p h : exists_tx p h = false <-> mapTx p !! h = None.
Proof. unfold exists_tx. rewrite bool_decide_eq_false, <- eq_None_not_Some. done. Qed.

Lemma change_pool_ok a tx cd anc all e : cache_ok (pcoinsTip e) -> e_tx (entry cd) = tx ->
  ends (change_pool node_usage usage worst o w a tx cd anc all) e
    (fun _ e' => around e e' /\ exists_tx (pool e') (tx_hash tx) = true
       /\ forall v lim, all = ∅ -> consistent (pool e) -> addable (pool e) (entry cd) -> entry_ok tx v (entry cd) ->
            CalculateMemPoolAncestors (pool e) (entry cd) ∅ lim true = Some (anc, None) -> joined (pool e) (pool e') tx (entry cd))
    (fun b e' => b = false /\ around e e' /\ strRejectReason (vstate e') = "mempool full" /\ exists_tx (pool e') (tx_hash tx) = false).
Proof.
  intros Hok Etx. assert (e_hash (entry cd) = tx_hash tx) as Eh by (unfold e_hash; by rewrite Etx). unfold change_pool.
  apply ends_bind, ends_get. apply ends_bind, ends_put. apply ends_bind, ends_lift. intros p1 E1. apply ends_bind, ends_lift. intros p2 E2. apply ends_bind, ends_put.
  set (e2 := set_pool p2 _). assert (around e e2) as A2 by (split_and!; try done; by apply same_view_refl).
  pose proof (addUnchecked_in _ _ _ _ E2) as Hin. rewrite Eh in Hin.
  assert (forall v lim, all = ∅ -> consistent (pool e) -> addable (pool e) (entry cd) -> entry_ok tx v (entry cd) ->
    CalculateMemPoolAncestors (pool e) (entry cd) ∅ lim true = Some (anc, None) -> joined (pool e) p2 tx (entry cd)) as J.
  { intros v lim -> C A Hen Ec. rewrite RemoveStaged_nothing in E1. injection E1 as <-. by eapply add_joined. }
  destruct (fOverrideMempoolLimit a); [split_and!; [done|by apply exists_tx_true|done]|].
  apply ends_bind, ends_lift. intros limit _. apply ends_bind, ends_lift. intros age _.
  apply ends_bind. apply (ends_mono _ _ (fun _ e' => around e2 e' /\ (consistent p2 -> consistent (pool e') /\ exists s, remains p2 (pool e') s)) _ (fun _ _ => False)); [| |done].
  - pose proof (LimitMempoolSize_around (u64 limit) (u64 age) e2 Hok) as L1. pose proof (LimitMempoolSize_ok (u64 limit) (u64 age) e2 Hok) as L2. unfold ends in *.
    destruct (LimitMempoolSize _ _ _ _ _ _ e2) as [[[b|u] e']|]; [done| |done]. split; [done|]. intros C. destruct (L2 C) as (_ & C' & s & R). split; [done|]. by exists s.
  - intros _ e3 [A3 L3]. pose proof (around_trans _ _ _ A2 A3) as A.
    apply ends_bind, ends_get. apply ends_when; intros Hex.
    + apply negb_true_iff in Hex. unfold ends, refuse, DoS. destruct (mode (vstate e3)); (split_and!; [done|by apply around_state|done|done]).
    + apply negb_false_iff in Hex. split_and!; [done|done|]. intros v lim Hall C Ha Hen Ec. pose proof (J v lim Hall C Ha Hen Ec) as Jp.
      destruct (L3 (jn_consistent _ _ _ _ Jp)) as (C3 & s & R). eapply joined_remains; [exact Jp|exact R|exact C3|by apply exists_tx_true].
Qed.

Lemma post_ok a tx checks ent e : cache_ok (pcoinsTip e) ->
  ends (post w a tx checks ent) e
    (fun _ e' => pool e' = pool e /\ pcoinsTip e' = pcoinsTip e /\ scriptExecutionCache e' = scriptExecutionCache e /\ threadpool e' =
       if bMultiThreaded a then (fun q => q ++ [{| task_tx := tx; task_uncache := coins_to_uncache e; task_entry := ent; task_checks := checks |}]) <$> threadpool e
       else threadpool e)
    (fun b e' => b = false /\ bMultiThreaded a = true /\ around e e' /\ pool e' = pool e /\ strRejectReason (vstate e') = "threadpool-full").
Proof.
  intros Hok. unfold post. apply ends_bind, ends_get. cbn [id]. apply ends_when.
  - intros [Hm Hq]%andb_true_iff. rewrite Hm. destruct (tryPost w); [by apply ends_put|]. unfold ends, refuse, DoS.
    destruct (mode (vstate e)); (split_and!; try done; by apply same_view_refl).
  - intros Hq. destruct (bMultiThreaded a); [|done]. cbn in Hq. destruct (threadpool e); [by apply bool_decide_eq_false in Hq; destruct Hq|done].
Qed.

(** What an answer of true means for a transaction whose scripts are not in the cache. *)
Record accepted (multi : bool) e e' tx : Prop := {
  ac_loose : loose_ok tx e;
  ac_conflicts : forall i, i ∈ vin tx -> mapNextTx (pool e) !! prevout i = None;
  ac_inputs : inputs_ok e tx;
  ac_scripts : if multi then forall q, threadpool e = Some q -> exists t, threadpool e' = Some (q ++ [t]) /\ task_tx t = tx
                 /\ task_checks t = input_checks (input_coins (pool e) (cache_utxo (pcoinsTip e)) tx) tx
                 /\ task_entry t = hashCacheEntry SHA256 scriptExecutionCacheNonce tx
               else verified e tx /\ threadpool e' = threadpool e;
  ac_pool : exists en, entry_ok tx (value_of (input_coins (pool e) (cache_utxo (pcoinsTip e)) tx) tx) en /\ joined (pool e) (pool e') tx en;
}.

(** What an answer of false may have done to the pool. *)
Definition refusal (multi : bool) e e' tx : Prop :=
  pool e' = pool e
  \/ strRejectReason (vstate e') = "mempool full" /\ exists_tx (pool e') (tx_hash tx) = false
  \/ multi = true /\ strRejectReason (vstate e') = "threadpool-full" /\ exists_tx (pool e') (tx_hash tx) = true.

(** The facts of a stage, back at the start of the call. *)
Lemma inputs_ok_keeps e e1 tx : keeps e e1 -> inputs_ok e1 tx -> inputs_ok e tx.
Proof. intros K. unfold inputs_ok. rewrite (kp_pool _ _ K), (keeps_utxo _ _ K). destruct (kp_tip _ _ K) as (_ & _ & ->). done. Qed.
Lemma verified_keeps e e1 tx : keeps e e1 -> verified e1 tx -> verified e tx.
Proof. intros K. unfold verified. by rewrite (kp_pool _ _ K), (keeps_utxo _ _ K). Qed.
Lemma loose_ok_keeps e e1 tx : keeps e e1 -> loose_ok tx e1 -> loose_ok tx e.
Proof. intros K [L1 L2 L3 L4 L5]. constructor; try done. by rewrite <- (kp_pool _ _ K). Qed.

Definition ready e tx : Prop :=
  fEnableReplacement o = false /\ consistent (pool e) /\ values_ok (pool e) (cache_utxo (pcoinsTip e)) /\ has_room (pool e) tx.

Lemma fee_range e tx en : inputs_ok e tx -> entry_ok tx (value_of (input_coins (pool e) (cache_utxo (pcoinsTip e)) tx) tx) en -> 0 <= nFee en <= MAX_MONEY.
Proof.
  intros (b & vo & _ & Hvo & _ & Hs) [_ _ (vo' & Hvo' & ->) _ _]. rewrite Hvo in Hvo'. injection Hvo' as <-.
  apply GetValueOut_ok in Hvo as (Hvr & -> & _). enough (0 <= sum_values (vout tx)) by lia.
  clear -Hvr. induction Hvr; cbn; [done|]. fold (sum_values l). lia.
Qed.

Abbreviation worker a tx := (AcceptToMemoryPoolWorker node_usage usage worst tx_usage GetMinFee pow timeToPrune expired Hash Verify CheckLowS RIPEMD160 SHA1 SHA256
  HASH160 HASH256 scriptExecutionCacheNonce CheckMineriumInputs o w a tx) (only parsing).

Lemma worker_ok a tx e : cache_ok (pcoinsTip e) -> fTPSTestEnabled o = false ->
  ends (worker a tx) e
    (fun b e' => b = true /\ fDryRun a = false /\ same_view (pcoinsTip e) (pcoinsTip e')
       /\ (ready e tx -> ~ in_script_cache e tx /\ accepted (bMultiThreaded a) e e' tx))
    (fun b e' => same_view (pcoinsTip e) (pcoinsTip e') /\ threadpool e' = threadpool e /\ scriptExecutionCache e' = scriptExecutionCache e
       /\ (b = true -> fDryRun a = false -> values_ok (pool e) (cache_utxo (pcoinsTip e)) -> pool e' = pool e /\ loose_ok tx e /\ inputs_ok e tx /\ in_script_cache e tx)
       /\ (b = false -> refusal (bMultiThreaded a) e e' tx)).
Proof.
  intros Hok Htps. unfold AcceptToMemoryPoolWorker.
  set (R := fun b e' => same_view (pcoinsTip e) (pcoinsTip e') /\ _).
  assert (forall b e', refused e b e' -> R b e') as HR by (intros b e' [-> [? ? ? ?]]; split_and!; try done; intros _; by left).
  apply ends_bind, ends_put. set (e1 := set_missing false e). assert (keeps e e1) as K1 by kp. pose proof (keeps_ok _ _ K1) as Hok1.
  assert (forall A (m : M V A) e2 P Q, ends m e2 (fun a e' => keeps e2 e' /\ P a e') (refused e2) -> keeps e e2 ->
    (forall a e', keeps e2 e' -> keeps e e' -> P a e' -> Q a e') -> ends m e2 Q R) as step.
  { intros A m e2 P Q Hm K HQ. eapply ends_mono; [exact Hm| |].
    - intros x e' [K' HP]. apply HQ; [done|by eapply keeps_trans|done].
    - intros b e' Hr. apply HR. by eapply refused_keeps. }
  apply ends_bind. eapply step; [by apply check_loose_ok|done|]. intros [] e2 _ K2 L. cbv beta in L. specialize (L Htps). apply (loose_ok_keeps e) in L; [|done]. pose proof (keeps_ok _ _ K2) as Hok2.
  rewrite Htps. apply ends_bind. eapply step; [by apply find_conflicts_ok|done|]. intros confl e3 _ K3 Hconf. pose proof (keeps_ok _ _ K3) as Hok3. rewrite (kp_pool _ _ K2) in Hconf.
  pose proof (lo_coinbase _ _ L) as Hcb. apply ends_bind. eapply step; [by apply fetch_coins_ok|done|]. intros [[c v] lp] e4 _ K4 [Hv Ev]. cbn [fst snd] in Hv, Ev. cbv beta iota. pose proof (keeps_ok _ _ K4) as Hok4.
  rewrite (kp_pool _ _ K3), (keeps_utxo _ _ K3) in Ev.
  apply ends_bind. eapply step; [by apply check_fees_ok|done|]. intros [cd c'] e5 K45 K5 [Ec Hen]. cbn [fst snd] in Ec, Hen. subst c'. cbv beta iota. pose proof (keeps_ok _ _ K5) as Hok5.
  apply ends_bind. eapply step; [by apply check_ancestors_ok|done|]. intros anc e6 K56 K6 [lim Hanc]. pose proof (keeps_ok _ _ K6) as Hok6. rewrite (kp_pool _ _ K5) in Hanc.
  apply ends_bind. eapply step; [by apply check_replacement_ok|done|]. intros all e7 K67 K7 Hall. pose proof (keeps_ok _ _ K7) as Hok7.
  assert (view_ready e7 tx c) as Hv7 by (apply (view_ready_keeps e4); [eapply keeps_trans; [exact K45|]; by eapply keeps_trans|done]).
  destruct (fDryRun a) eqn:Edry.
  { apply ends_stop. destruct K7 as [? ? ? ?]. unfold R. split_and!; first [done|by intros]. }
  apply ends_bind. eapply ends_mono; [by apply check_scripts_ok| |].
  2:{ intros b e' [K Hb]. assert (keeps e e') as K8 by by eapply keeps_trans. destruct K8 as [? Hp ? ?] eqn:EK. split_and!; try done; [|by left].
      intros Hbt _ Hval. destruct Hb as [Hin Hc]; [by rewrite (kp_pool _ _ K7), (keeps_utxo _ _ K7)|done|]. split_and!; [done|exact L|exact (inputs_ok_keeps _ _ _ K7 Hin)|].
      unfold in_script_cache in *. by rewrite (kp_cache _ _ K7) in Hc. }
  intros [checks ent] e8 [K78 Hs]. cbv beta iota. assert (keeps e e8) as K8 by by eapply keeps_trans. pose proof (keeps_ok _ _ K8) as Hok8.
  rewrite (kp_pool _ _ K7), (keeps_utxo _ _ K7) in Hs.
  apply ends_bind. eapply ends_mono; [apply change_pool_ok; [done|apply Hen]| |].
  2:{ intros b e' (-> & (? & ? & ? & _) & Hr & Hx). destruct K8 as [? ? ? ?]. split_and!; [by eapply same_view_trans|congruence|congruence|done|]. intros _. right. by left. }
  intros _ e9 ((S9 & C9 & T9 & U9) & Hex & Hj). pose proof (proj1 S9) as Hok9. rewrite (kp_pool _ _ K8) in Hj.
  apply ends_bind. eapply ends_mono; [by apply post_ok| |].
  2:{ intros b e' (-> & Hm & (? & ? & ? & _) & Hp & Hr). destruct K8 as [? ? ? ?]. split_and!; [|congruence|congruence|done|].
      - eapply same_view_trans; [eassumption|]. by eapply same_view_trans.
      - intros _. right. right. by rewrite Hp. }
  intros _ e10 (P10 & T10 & C10 & Q10). apply ends_ret. split_and!; [done|done|rewrite T10; eapply same_view_trans; [apply K8|done]|].
  intros (Hrep & Cp & Hval & Hroom). destruct (Hs Hval) as (Hin & Hnc & Ex & Hver). injection Ex as -> ->. apply (inputs_ok_keeps e) in Hin; [|done].
  destruct (Hconf Hrep eq_refl) as [-> Hci]. specialize (Hall eq_refl). subst v. split; [unfold in_script_cache in *; by rewrite (kp_cache _ _ K7) in Hnc|].
  assert (addable (pool e) (entry cd)) as Ha by (eapply room_addable; [done|done|apply L|exact Hci|exact Hen|by eapply fee_range]).
  constructor; [done|done|done| |].
  - rewrite Q10, T9, (kp_tasks _ _ K8). destruct (bMultiThreaded a).
    + intros q Hq. rewrite Hq. eexists. split; [done|]. by split_and!.
    + split; [|done]. apply (verified_keeps e e7); [done|]. by apply Hver.
  - exists (entry cd). split; [done|]. rewrite P10. by eapply Hj.
Qed.

Abbreviation accept a tx e := (AcceptToMemoryPool node_usage usage worst tx_usage GetMinFee pow timeToPrune expired Hash Verify CheckLowS RIPEMD160 SHA1 SHA256
  HASH160 HASH256 scriptExecutionCacheNonce CheckMineriumInputs o w a tx e) (only parsing).

(** Whether the scripts are left to the thread pool: not within a minute of a failure there. *)
Definition multithreaded a e : bool := bMultiThreaded a && negb (now w - nLastMultithreadMempoolFailure e <? 60).

Lemma accepted_keeps m e e1 e' tx : keeps e e1 -> accepted m e1 e' tx -> accepted m e e' tx.
Proof.
  intros K [A1 A2 A3 A4 A5]. constructor; [by eapply loose_ok_keeps|by rewrite <- (kp_pool _ _ K)|by eapply inputs_ok_keeps| |].
  - rewrite (kp_pool _ _ K), (keeps_utxo _ _ K), (kp_tasks _ _ K) in A4. destruct m; [done|]. destruct A4 as [Hv Ht]. split; [by eapply verified_keeps|done].
  - by rewrite (kp_pool _ _ K), (keeps_utxo _ _ K) in A5.
Qed.

Lemma accept_run a tx e r e' : cache_ok (pcoinsTip e) -> fTPSTestEnabled o = false -> accept a tx e = Some (r, e') ->
  (r = true -> fDryRun a = false -> ready e tx -> same_view (pcoinsTip e) (pcoinsTip e')
     /\ (pool e' = pool e /\ threadpool e' = threadpool e /\ exists_tx (pool e') (tx_hash tx) = false /\ inputs_ok e tx /\ in_script_cache e tx
         \/ ~ in_script_cache e tx /\ accepted (multithreaded a e) e e' tx))
  /\ (r = false -> same_view (pcoinsTip e) (pcoinsTip e') /\ threadpool e' = threadpool e /\ scriptExecutionCache e' = scriptExecutionCache e
     /\ refusal (multithreaded a e) e e' tx).
Proof.
  intros Hok Htps E. unfold AcceptToMemoryPool in E. cbn [nLastMultithreadMempoolFailure] in E.
  apply bind_Some in E as (since & Es & E). apply checked_Some in Es as [-> _]. cbv zeta in E.
  match type of E with context [AcceptToMemoryPoolWorker _ _ _ _ _ _ _ _ _ _ _ _ _ _ _ _ _ _ _ _ ?x tx ?y] => set (a0 := x) in *; set (e0 := y) in * end.
  assert (keeps e e0) as K by kp. assert (bMultiThreaded a0 = multithreaded a e) as Hm by (unfold a0, multithreaded; cbn; destruct (_ <? 60); by rewrite ?andb_false_r, ?andb_true_r).
  assert (fDryRun a0 = fDryRun a) as Hd by done. clearbody a0. pose proof (worker_ok a0 tx e0 Hok Htps) as W. unfold ends in W. rewrite Hm, Hd in W. rewrite Hd in E.
  destruct (AcceptToMemoryPoolWorker _ _ _ _ _ _ _ _ _ _ _ _ _ _ _ _ _ _ _ _ a0 tx e0) as [[[b|b] e1]|]; [| |done]; cbn [mbind option_bind] in E; injection E as <- <-.
  - destruct W as (S & Q & C & Wt & Wf). split.
    + intros -> Hdry (Hr & Cp & Hval & Hroom). rewrite Hdry. cbn. destruct (Wt eq_refl Hdry Hval) as (Hp & L & Hin & Hc). split; [done|]. left.
      split_and!; [done|done|rewrite Hp; by apply exists_tx_false, L|by eapply inputs_ok_keeps|done].
    + intros ->. cbn. split_and!; [|done|done|by apply Wf]. eapply same_view_trans; [exact S|]. apply Uncache_all_same, S.
  - destruct W as (-> & Hdry & S & Wt). rewrite Hdry. cbn. split; [|done]. intros _ _ Hr. split; [exact S|]. right. destruct (Wt Hr) as [Hn Ha]. split; [done|]. by eapply accepted_keeps.
Qed.

(** *** The task *)

Abbreviation task t e := (run_task node_usage timeToPrune expired Hash Verify CheckLowS RIPEMD160 SHA1 SHA256 HASH160 HASH256 CheckMineriumInputs w t e) (only parsing).

Lemma task_failed_ok t e : cache_ok (pcoinsTip e) -> consistent (pool e) ->
  exists s e', task_failed node_usage w t e = Some e' /\ same_view (pcoinsTip e) (pcoinsTip e') /\ consistent (pool e') /\ remains (pool e) (pool e') s
  /\ (forall y, y ∈ s <-> depends_on (pool e) (task_tx t) y) /\ exists_tx (pool e') (tx_hash (task_tx t)) = false
  /\ nLastMultithreadMempoolFailure e' = now w /\ scriptExecutionCache e' = scriptExecutionCache e.
Proof.
  intros Hok C. unfold task_failed. destruct (removeRecursive_ok node_usage (pool e) (task_tx t) C) as (s & p & E & C' & R & _ & _ & Hs).
  cbn [pool uncache_all set_tip set_failure]. rewrite E. cbn [mbind option_bind]. eexists s, _. split; [reflexivity|]. cbn.
  split; [by apply Uncache_all_same|]. split; [by apply consistent_deltas|]. split; [destruct R; by constructor|]. split; [exact Hs|]. split; [|done].
  apply exists_tx_false. cbn. destruct (mapTx p !! tx_hash (task_tx t)) as [en|] eqn:Ep; [exfalso|done].
  destruct (remains_Some _ _ _ _ _ R Ep) as (Hn & e0 & E0 & _). apply Hn, Hs. exists (tx_hash (task_tx t)). split; [|done].
  rewrite decide_True; [done|]. apply elem_of_dom. by eexists.
Qed.

End Stages.

(** ** Lemmas: what the thread pool is left with *)

Section Blind.
Context {V : Type}.

Lemma M_bind_ext {A B} (m : M V A) (f g : A -> M V B) e : (forall a e', f a e' = g a e') -> (m ≫= f) e = (m ≫= g) e.
Proof. intros Hfg. unfold mbind, M_bind. destruct (m e) as [[[b|a] e']|]; [done|apply Hfg|done]. Qed.
Lemma M_bind_cong {A B} (m n : M V A) (f g : A -> M V B) e : m e = n e -> (forall a e', f a e' = g a e') -> (m ≫= f) e = (n ≫= g) e.
Proof. intros Hm Hfg. unfold mbind, M_bind. rewrite Hm. destruct (n e) as [[[b|a] e']|]; [done|apply Hfg|done]. Qed.

Context `{CCoinsView V}.
Variables (timeToPrune expired : list Z -> bool) (Hash : list Z -> Z) (Verify1 Verify2 : list Z -> Z -> list Z -> bool) (CheckLowS : list Z -> bool).
Variables (RIPEMD160 SHA1 SHA256 HASH160 HASH256 : list Z -> list Z).

Lemma script_checks_blind tx l n flags store st (c : CCoinsViewCache V) :
  script_checks timeToPrune expired Hash Verify1 CheckLowS RIPEMD160 SHA1 SHA256 HASH160 HASH256 tx l n flags store true st c
  = script_checks timeToPrune expired Hash Verify2 CheckLowS RIPEMD160 SHA1 SHA256 HASH160 HASH256 tx l n flags store true st c.
Proof.
  revert n c. induction l as [|i l IH]; intros n c; cbn [script_checks]; [done|]. destruct (AccessCoin (prevout i) c) as [co c1]. by rewrite IH.
Qed.

Lemma CheckInputs_blind nonce m tx st f flags s1 s2 cache (c : CCoinsViewCache V) :
  CheckInputs timeToPrune expired Hash Verify1 CheckLowS RIPEMD160 SHA1 SHA256 HASH160 HASH256 nonce m tx st f flags s1 s2 true cache c
  = CheckInputs timeToPrune expired Hash Verify2 CheckLowS RIPEMD160 SHA1 SHA256 HASH160 HASH256 nonce m tx st f flags s1 s2 true cache c.
Proof.
  unfold CheckInputs. destruct (IsCoinBase tx); [done|]. destruct (GetSpendHeight m c) as [[h|] c1]; [|done]. destruct (CheckTxInputs tx st h c1) as [[[[|] st1]|] c2]; [|done..].
  destruct (negb f); [done|]. cbv zeta. case_bool_decide; [done|]. by rewrite script_checks_blind.
Qed.
End Blind.

(** ** Properties *)

Section Properties.
Context {V : Type} `{CCoinsViewLaws V} `{SetOrder}.
Variables (node_usage : Z) (usage : CTxMemPool -> Z) (worst : CTxMemPool -> option Z) (tx_usage : CTransaction -> Z) (GetMinFee : CTxMemPool -> Z -> CFeeRate).
Variables (pow : spec_float -> spec_float -> spec_float) (timeToPrune expired : list Z -> bool) (Hash : list Z -> Z) (Verify : list Z -> Z -> list Z -> bool).
Variables (CheckLowS : list Z -> bool) (RIPEMD160 SHA1 SHA256 HASH160 HASH256 : list Z -> list Z) (nonce : list Z).
Variable CheckMineriumInputs : CTransaction -> Z -> CValidationState -> bool * CValidationState.
Variables (o : Options) (w : World).
Hypothesis worst_ok : forall q, mapTx q <> ∅ -> exists h, worst q = Some h /\ h ∈ dom (mapTx q).

Abbreviation accept_with verify minerium a tx e := (AcceptToMemoryPool node_usage usage worst tx_usage GetMinFee pow timeToPrune expired Hash verify CheckLowS
  RIPEMD160 SHA1 SHA256 HASH160 HASH256 nonce minerium o w a tx e) (only parsing).
Abbreviation accept a tx e := (accept_with Verify CheckMineriumInputs a tx e) (only parsing).

Lemma checked_bind_ext {A} z (f g : Z -> option A) : (forall x, x = z -> f x = g x) -> (Prelude.checked z ≫= f) = (Prelude.checked z ≫= g).
Proof. intros Hfg. unfold Prelude.checked. destruct (decide _); [by apply Hfg|done]. Qed.

Lemma worker_blind Verify' CheckMineriumInputs' a tx (e : Env V) : bMultiThreaded a = true ->
  AcceptToMemoryPoolWorker node_usage usage worst tx_usage GetMinFee pow timeToPrune expired Hash Verify' CheckLowS RIPEMD160 SHA1 SHA256 HASH160 HASH256 nonce
    CheckMineriumInputs' o w a tx e
  = AcceptToMemoryPoolWorker node_usage usage worst tx_usage GetMinFee pow timeToPrune expired Hash Verify CheckLowS RIPEMD160 SHA1 SHA256 HASH160 HASH256 nonce
    CheckMineriumInputs o w a tx e.
Proof.
  intros Ha. unfold AcceptToMemoryPoolWorker. apply M_bind_ext; intros _ e1. apply M_bind_ext; intros _ e2. apply M_bind_ext; intros confl e3. apply M_bind_ext; intros [[c v] lp] e4.
  apply M_bind_ext; intros [cd c'] e5. apply M_bind_ext; intros anc e6. apply M_bind_ext; intros all e7. destruct (fDryRun a); [done|].
  apply M_bind_cong; [|done]. unfold check_scripts. apply M_bind_ext; intros e8 e9. rewrite (CheckInputs_blind _ _ _ Verify' Verify), Ha. done.
Qed.

#[local] Opaque AcceptToMemoryPoolWorker.

(** C11: What a true answer of [AcceptToMemoryPool] means, without replacements: the coins show what they showed, the
    inputs exist in the chain or the pool, are mature, and are worth at least the outputs.  Either the scripts of
    the transaction are in the cache of executed scripts, and then the pool is as it was, without the transaction;
    or it passed every check - loose, standard, final, new, no input spent in the pool -, the pool is consistent
    with its entry, fee and delta and otherwise only entries it had, and every script ran to true and the services
    agreed - or, with the thread pool, all its checks are in a task still to run. *)
Theorem accept_sound a tx (e e' : Env V) :
  cache_ok (pcoinsTip e) -> fTPSTestEnabled o = false -> fDryRun a = false -> ready timeToPrune expired o e tx ->
  accept a tx e = Some (true, e') ->
  same_view (pcoinsTip e) (pcoinsTip e')
  /\ (pool e' = pool e /\ exists_tx (pool e') (tx_hash tx) = false /\ inputs_ok w e tx /\ in_script_cache SHA256 nonce e tx
      \/ ~ in_script_cache SHA256 nonce e tx
         /\ accepted timeToPrune expired Hash Verify CheckLowS RIPEMD160 SHA1 SHA256 HASH160 HASH256 nonce CheckMineriumInputs o w (multithreaded w a e) e e' tx).
Proof.
  intros Hok Htps Hdry Hr E. destruct (accept_run _ _ _ _ _ _ _ _ _ _ _ _ _ _ _ _ _ _ _ _ worst_ok a tx e true e' Hok Htps E) as [Ht _].
  destruct (Ht eq_refl Hdry Hr) as (S & [(? & ? & ? & ? & ?)|Ha]); split; [done|by left|done|by right].
Qed.

(** C12: What a false answer of [AcceptToMemoryPool] leaves, whatever the options but the test mode: the coins show what
    they showed, no task is posted and no script is remembered, and the pool is untouched, except in two cases that
    the state names: the pool was full, and no longer has the transaction; or the queue of the thread pool was full,
    and the transaction stays in the pool although nothing will check its scripts. *)
Theorem accept_refused a tx (e e' : Env V) :
  cache_ok (pcoinsTip e) -> fTPSTestEnabled o = false -> accept a tx e = Some (false, e') ->
  same_view (pcoinsTip e) (pcoinsTip e') /\ threadpool e' = threadpool e /\ scriptExecutionCache e' = scriptExecutionCache e
  /\ (pool e' = pool e
      \/ strRejectReason (vstate e') = "mempool full" /\ exists_tx (pool e') (tx_hash tx) = false
      \/ multithreaded w a e = true /\ strRejectReason (vstate e') = "threadpool-full" /\ exists_tx (pool e') (tx_hash tx) = true).
Proof.
  intros Hok Htps E. by destruct (accept_run _ _ _ _ _ _ _ _ _ _ _ _ _ _ _ _ _ _ _ _ worst_ok a tx e false e' Hok Htps E) as [_ Hf]; apply Hf.
Qed.

(** C13: With the thread pool the answer and the resulting state do not depend on the signatures or on the services'
    checks: the same call answers the same whatever the verification of signatures and [CheckMineriumInputs] say. *)
Theorem multithreaded_blind Verify' CheckMineriumInputs' a tx (e : Env V) :
  multithreaded w a e = true -> accept_with Verify' CheckMineriumInputs' a tx e = accept a tx e.
Proof.
  intros Hm. unfold multithreaded in Hm. apply andb_true_iff in Hm as [Ha Hw]. apply negb_true_iff in Hw. unfold AcceptToMemoryPool.
  apply checked_bind_ext. intros since ->. cbn [nLastMultithreadMempoolFailure]. rewrite Hw, Ha. by rewrite (worker_blind Verify' CheckMineriumInputs').
Qed.

(** C14: The task a thread runs later.  When all its checks and those of the services pass, it does nothing but put the
    transaction into the cache of executed scripts.  When one fails, the transaction and all that depends on it
    leave the pool, which is consistent, the coins show what they showed, and the time is kept that makes the next
    minute single-threaded; if it was the services that refused, the transaction is in the cache all the same. *)
Theorem run_task_correct t (e : Env V) ok :
  cache_ok (pcoinsTip e) -> consistent (pool e) ->
  run_checks timeToPrune expired Hash Verify CheckLowS RIPEMD160 SHA1 SHA256 HASH160 HASH256 (task_checks t) = Some ok ->
  let agreed := fst (CheckMineriumInputs (task_tx t) (chain_Height (chainActive w)) CValidationState_make) in
  exists e', run_task node_usage timeToPrune expired Hash Verify CheckLowS RIPEMD160 SHA1 SHA256 HASH160 HASH256 CheckMineriumInputs w t e = Some e'
  /\ scriptExecutionCache e' = (if ok then {[task_entry t]} ∪ scriptExecutionCache e else scriptExecutionCache e)
  /\ same_view (pcoinsTip e) (pcoinsTip e')
  /\ (if ok && agreed then pool e' = pool e
      else consistent (pool e') /\ exists_tx (pool e') (tx_hash (task_tx t)) = false /\ nLastMultithreadMempoolFailure e' = now w
           /\ exists s, remains (pool e) (pool e') s /\ forall y, y ∈ s <-> depends_on (pool e) (task_tx t) y).
Proof.
  intros Hok C Ec agreed. unfold run_task. rewrite Ec. cbn [mbind option_bind]. fold agreed.
  destruct (task_failed_ok node_usage w t e Hok C) as (s & e' & Ef & S & C' & R & Hs & Hx & Hn & Hc).
  destruct ok; cbn [negb andb].
  - destruct agreed; cbn [mbind option_bind].
    + eexists. split; [reflexivity|]. split_and!; [done|by apply same_view_refl|done].
    + rewrite Ef. cbn [mbind option_bind]. eexists. split; [reflexivity|]. cbn. rewrite Hc. split_and!; try done. by exists s.
  - exists e'. rewrite Ef. split_and!; try done. by exists s.
Qed.

End Properties.

(** ** Witnesses *)

#[local] Instance by_keys : SetOrder.
Proof. by exists elements. Defined.

Definition demo_options : Options :=
  {| fTPSTestEnabled := false; fRequireStandard := false; fEnableReplacement := false; relaypriority := true; nBytesPerSigOp := 20;
     limitfreerelay := 0; minRelayTxFee := {| nSatoshisPerK := 10 |}; incrementalRelayFee := {| nSatoshisPerK := 1000 |}; maxmempool := 3000;
     mempoolexpiry := 336; limitancestorcount := 25; limitancestorsize := 101; limitdescendantcount := 25; limitdescendantsize := 101;
     fAcceptDatacarrier := true; nMaxDatacarrierBytes := 1000; fIsBareMultisigStd := true; dustRelayFee := {| nSatoshisPerK := 10000 |}; DIP0001Height := 1 |}.

(** The chain of [Chain.toy_state]; [posts] is whether the thread pool takes tasks. *)
Definition demo_world (posts : bool) : World :=
  {| mapBlocks := mapBlockIndex toy_state; chainActive := toy_chain; adjustedTime := 100; now := 100; HasTxLockRequest := fun _ => false;
     lock_request_valid := fun _ => true; GetLockedOutPointTxHash := fun _ => None; tryPost := posts |}.
Definition demo_args (multi : bool) : AcceptArgs :=
  {| fLimitFree := true; nAcceptTime := 100; fOverrideMempoolLimit := false; nAbsurdFee := 0; fDryRun := false; bMultiThreaded := multi |}.

(** The pool of [MempoolProps] over one coin of 50 that anybody ([OP_1]) or nobody ([OP_0]) can spend. *)
Definition demo_coins (opcode : Z) : CCoinsViewDB := {| db_coins := {[ Coins.toy_outpoint := Coin_make (CTxOut_make 50 [opcode]) 2 false ]}; db_best := 8 |}.
Definition demo_state (opcode : Z) : Env CCoinsViewDB :=
  {| pcoinsTip := CCoinsViewCache_make (demo_coins opcode); pool := pool3; vstate := CValidationState_make; coins_to_uncache := [];
     pfMissingInputs := Some true; plTxnReplaced := None; scriptExecutionCache := ∅; freeLimiter := (S754_zero false, 0);
     threadpool := Some []; nLastMultithreadMempoolFailure := 0 |}.

(** It spends that coin and the output of transaction 2 of the pool, and pays a fee of 5. *)
Definition demo_tx : CTransaction :=
  {| tx_nVersion := 2; vin := [{| prevout := Coins.toy_outpoint; scriptSig := []; nSequence := SEQUENCE_FINAL |};
                               {| prevout := {| Transaction.op_hash := 2; op_n := 0 |}; scriptSig := [0x51]; nSequence := SEQUENCE_FINAL |}];
     vout := [CTxOut_make 55 [0x51]]; nLockTime := 0; tx_hash := 99 |}.

Definition demo_worst (p : CTxMemPool) : option Z := head (elements (dom (mapTx p))).

Definition demo_accept (verify posts multi : bool) (e : Env CCoinsViewDB) : option (bool * Env CCoinsViewDB) :=
  AcceptToMemoryPool 48 (fun _ => 0) demo_worst (fun _ => 300) (fun _ _ => {| nSatoshisPerK := 0 |}) (fun x _ => x)
    (fun _ => false) (fun _ => false) (fun _ => 0) (fun _ _ _ => verify) (fun _ => true) (fun _ => []) (fun _ => []) (take 32) (fun _ => []) (fun _ => [])
    [] (fun _ _ st => (true, st)) demo_options (demo_world posts) (demo_args multi) demo_tx e.

#[local] Opaque pool1 pool2 pool3 AcceptToMemoryPool.

Lemma demo_worst_ok q : mapTx q <> ∅ -> exists h, demo_worst q = Some h /\ h ∈ dom (mapTx q).
Proof.
  intros Hq. unfold demo_worst. destruct (elements (dom (mapTx q))) as [|h l] eqn:E.
  - apply elements_empty_inv in E. exfalso. apply Hq. apply dom_empty_inv_L. apply set_eq. intros x. by rewrite E.
  - exists h. split; [done|]. apply elem_of_elements. rewrite E. by left.
Qed.

Lemma demo_coins_ok opcode : view_ok (demo_coins opcode).
Proof. intros k x Hx. cbn in Hx. by apply lookup_singleton_Some in Hx as [_ <-]. Qed.
Lemma demo_cache_ok opcode : cache_ok (pcoinsTip (demo_state opcode)).
Proof. apply cache_make_ok, demo_coins_ok. Qed.

(** What holds of all entries, checked. *)
Definition entries_all (f : CTxMemPoolEntry -> bool) (p : CTxMemPool) : bool := forallb (fun x => f x.2) (map_to_list (mapTx p)).
Lemma entries_all_ok f p h en : entries_all f p = true -> mapTx p !! h = Some en -> f en = true.
Proof. unfold entries_all. rewrite forallb_forall. intros Hf E. apply (Hf (h, en)). apply list_elem_of_In. by apply elem_of_map_to_list. Qed.

Lemma values_ok_b p u : entries_all (fun en => bool_decide (Forall (fun x => in_s 64 (nValue x)) (vout (e_tx en)))) p = true ->
  map_Forall (fun _ co => in_s 64 (nValue (Coins.out co))) u -> values_ok p u.
Proof.
  intros Hp Hu out co. unfold pool_coin, mempool_get. destruct (mapTx p !! Transaction.op_hash out) as [en|] eqn:E; cbn [fmap option_fmap option_map].
  - destruct (_ <? _); [|done]. intros Hx. apply bind_Some in Hx as (x & Ex & Hx). apply live_Some in Hx as [<- _]. cbn.
    pose proof (entries_all_ok _ _ _ _ Hp E) as Hf. apply bool_decide_eq_true in Hf. rewrite Forall_forall in Hf. apply Hf. by eapply list_elem_of_lookup_2.
  - intros Ho. by apply (Hu out co).
Qed.

Lemma demo_ready opcode : ready (fun _ => false) (fun _ => false) demo_options (demo_state opcode) demo_tx.
Proof.
  split; [done|]. split; [apply pools_consistent|]. split.
  - apply values_ok_b; [by vm_compute|]. cbn [pcoinsTip demo_state].
    destruct (cache_make_ok (demo_coins opcode) (demo_coins_ok opcode)) as (_ & -> & _).
    intros k x Hx. cbn in Hx. apply lookup_singleton_Some in Hx as [_ <-]. split; by vm_compute.
  - assert (entries_all (fun en => bool_decide (tx_hash demo_tx ∉ input_hashes (vin (e_tx en)))) pool3 = true) as Hc by by vm_compute.
    constructor; [refine (bool_decide_unpack _ _); by vm_compute|intros h en E; by apply (entries_all_ok _ _ _ _ Hc), bool_decide_eq_true in E|split; by vm_compute|by vm_compute|by vm_compute|by vm_compute].
Qed.

(** Single-threaded, with a pool whose tasks are run at once. *)
Lemma accept_sound_witness :
  exists e', demo_accept true true false (demo_state 0x51) = Some (true, e') /\ same_view (pcoinsTip (demo_state 0x51)) (pcoinsTip e')
    /\ consistent (pool e') /\ exists_tx (pool e') 99 = true.
Proof.
  assert ((fun x => (x.1, exists_tx (pool x.2) 99)) <$> demo_accept true true false (demo_state 0x51) = Some (true, true)) as E by (vm_compute; reflexivity).
  destruct (demo_accept true true false (demo_state 0x51)) as [[r e']|] eqn:Ea; [|discriminate E]. cbn in E. injection E as -> Ex.
  exists e'. split; [reflexivity|]. unfold demo_accept in Ea.
  destruct (accept_sound 48 (fun _ => 0) demo_worst (fun _ => 300) (fun _ _ => {| nSatoshisPerK := 0 |}) (fun x _ => x) (fun _ => false) (fun _ => false) (fun _ => 0) (fun _ _ _ => true)
    (fun _ => true) (fun _ => []) (fun _ => []) (take 32) (fun _ => []) (fun _ => []) [] (fun _ _ st => (true, st)) demo_options (demo_world true) demo_worst_ok (demo_args false) demo_tx _ e' (demo_cache_ok 0x51) eq_refl eq_refl (demo_ready 0x51) Ea) as (S & [(_ & Hx & _)|[_ A]]).
  - exfalso. cbn in Hx. rewrite Ex in Hx. discriminate Hx.
  - destruct A as [_ _ _ _ (en & _ & J)]. exact (conj S (conj (jn_consistent _ _ _ _ J) Ex)).
Defined.

(** The script of the coin fails, and nobody runs it: the queue is full, the call refuses, the transaction stays. *)
Lemma accept_refused_witness :
  exists e', demo_accept true false true (demo_state 0x00) = Some (false, e') /\ exists_tx (pool e') 99 = true /\ threadpool e' = Some []
    /\ strRejectReason (vstate e') = "threadpool-full"%string.
Proof.
  assert ((fun x => (x.1, exists_tx (pool x.2) 99)) <$> demo_accept true false true (demo_state 0x00) = Some (false, true)) as E by (vm_compute; reflexivity).
  destruct (demo_accept true false true (demo_state 0x00)) as [[r e']|] eqn:Ea; [|discriminate E]. cbn in E. injection E as -> Ex.
  exists e'. split; [reflexivity|]. split; [exact Ex|]. unfold demo_accept in Ea.
  destruct (accept_refused 48 (fun _ => 0) demo_worst (fun _ => 300) (fun _ _ => {| nSatoshisPerK := 0 |}) (fun x _ => x) (fun _ => false) (fun _ => false) (fun _ => 0) (fun _ _ _ => true)
    (fun _ => true) (fun _ => []) (fun _ => []) (take 32) (fun _ => []) (fun _ => []) [] (fun _ _ st => (true, st)) demo_options (demo_world false) demo_worst_ok (demo_args true) demo_tx _ e' (demo_cache_ok 0x00) eq_refl Ea) as (_ & Ht & _ & [Hp|[[_ Hx]|(_ & Hr & _)]]).
  - exfalso. rewrite Hp in Ex. vm_compute in Ex. discriminate Ex.
  - exfalso. cbn in Hx. rewrite Ex in Hx. discriminate Hx.
  - exact (conj Ht Hr).
Defined.

Lemma multithreaded_blind_witness :
  multithreaded (demo_world true) (demo_args true) (demo_state 0x00) = true
  /\ demo_accept false true true (demo_state 0x00) = demo_accept true true true (demo_state 0x00).
Proof.
  split; [vm_compute; reflexivity|]. apply multithreaded_blind. vm_compute. reflexivity.
Defined.

(** The task for it fails, and the transaction leaves the pool it is in. *)
Definition demo_task : Task :=
  {| task_tx := tx1; task_uncache := []; task_entry := 5;
     task_checks := [{| chk_scriptPubKey := [0x00]; ptxTo := tx1; chk_nIn := 0; nFlags := STANDARD_SCRIPT_VERIFY_FLAGS; chk_cacheStore := true |}] |}.

Lemma run_task_correct_witness :
  exists e', run_task 48 (fun _ => false) (fun _ => false) (fun _ => 0) (fun _ _ _ => true) (fun _ => true) (fun _ => []) (fun _ => []) (take 32) (fun _ => []) (fun _ => [])
    (fun _ _ st => (true, st)) (demo_world true) demo_task (demo_state 0x51) = Some e' /\ consistent (pool e') /\ exists_tx (pool e') 1 = false.
Proof.
  destruct (run_task_correct 48 (fun _ => false) (fun _ => false) (fun _ => 0) (fun _ _ _ => true) (fun _ => true) (fun _ => []) (fun _ => []) (take 32) (fun _ => []) (fun _ => [])
    (fun _ _ st => (true, st)) (demo_world true) demo_task (demo_state 0x51) false (demo_cache_ok 0x51)) as (e' & E & _ & _ & C & Hx & _).
  - apply pools_consistent.
  - vm_compute. reflexivity.
  - exists e'. exact (conj E (conj C Hx)).
Defined.
