(* ===== verification/Assembler.v ===== *)
(** * Choosing the transactions of a block

    Models [BlockAssembler] of [src/src/miner.h] and [src/src/miner.cpp] up to the choice of the transactions: the
    limits, the queue by priority, and the walk over the packages of an entry with its ancestors by fee rate, with
    the comparators of [src/src/txmempool.h].

    The pool does not change during the call and is a variable of the section.  An element of the queue carries the
    entry its iterator points to.  An index of [boost::multi_index] is the list of its elements sorted by its comparator
    ([mapTx]), or a map with its least element ([mapModifiedTx]); the heap is a list from which a greatest element is
    taken.  [None] is a failed [assert], a missing element or the overflow of a signed integer.  Left out: what is only
    counted for the log, and [-printpriority]. *)

From Stdlib Require Import SpecFloat.
From stdpp Require Import gmap sorting relations.
From S2P Require Import Accept Graph Amount Transaction TxVerify Mempool MempoolRemove MempoolAdd MempoolProps Prelude.

(** ** Comparators *)

Abbreviation double := spec_float (only parsing).

(** [f1 == f2] and [f1 > f2] *)
Definition double_eq (f1 f2 : double) : bool := SFeqb f1 f2.
Definition double_gt (f1 f2 : double) : bool := SFltb f2 f1.

Definition CompareTxMemPoolEntryByScore (a b : CTxMemPoolEntry) : bool :=
  let f1 := double_mul (double_of_int (GetModifiedFee a)) (double_of_int (nTxSize b)) in
  let f2 := double_mul (double_of_int (GetModifiedFee b)) (double_of_int (nTxSize a)) in
  if double_eq f1 f2 then e_hash b <? e_hash a else double_gt f1 f2.

Definition CompareTxMemPoolEntryByAncestorFee (a b : CTxMemPoolEntry) : bool :=
  let f1 := double_mul (double_of_int (nModFeesWithAncestors a)) (double_of_int (nSizeWithAncestors b)) in
  let f2 := double_mul (double_of_int (nSizeWithAncestors a)) (double_of_int (nModFeesWithAncestors b)) in
  if double_eq f1 f2 then e_hash a <? e_hash b else double_gt f1 f2.

Definition CompareTxIterByAncestorCount (a b : CTxMemPoolEntry) : bool :=
  if negb (nCountWithAncestors a =? nCountWithAncestors b) then nCountWithAncestors a <? nCountWithAncestors b
  else e_hash a <? e_hash b.

(** The priority of an entry, and the entry. *)
Definition TxCoinAgePriority : Type := double * CTxMemPoolEntry.
Definition TxCoinAgePriorityCompare (a b : TxCoinAgePriority) : bool :=
  if double_eq a.1 b.1 then CompareTxMemPoolEntryByScore b.2 a.2 else double_gt b.1 a.1.

(** [std::pop_heap] and [pop_back]: an element no other is greater than, and the others. *)
Fixpoint heap_max {A} (less : A -> A -> bool) (best : A) (l : list A) : A * list A :=
  match l with
  | [] => (best, [])
  | x :: l => if less best x then let '(m, r) := heap_max less x l in (m, best :: r) else let '(m, r) := heap_max less best l in (m, x :: r)
  end.
Definition heap_pop {A} (less : A -> A -> bool) (l : list A) : option (A * list A) :=
  match l with [] => None | x :: l => Some (heap_max less x l) end.

(** [std::sort], and the order of an index *)
Definition not_less {A} (less : A -> A -> bool) (a b : A) : Prop := less b a = false.
#[export] Instance not_less_dec {A} (less : A -> A -> bool) : RelDecision (not_less less).
Proof. intros a b. unfold not_less. apply _. Defined.
Definition sort_by {A} (less : A -> A -> bool) (l : list A) : list A := merge_sort (not_less less) l.

(** ** Modified entries *)

Record CTxMemPoolModifiedEntry := { iter : Z; mod_nSizeWithAncestors : Z; mod_nModFeesWithAncestors : Z; mod_nSigOpCountWithAncestors : Z }.

Definition CTxMemPoolModifiedEntry_make (e : CTxMemPoolEntry) : CTxMemPoolModifiedEntry :=
  {| iter := e_hash e; mod_nSizeWithAncestors := nSizeWithAncestors e; mod_nModFeesWithAncestors := nModFeesWithAncestors e;
     mod_nSigOpCountWithAncestors := nSigOpCountWithAncestors e |}.

Definition CompareModifiedEntry (a b : CTxMemPoolModifiedEntry) : bool :=
  let f1 := double_mul (double_of_int (mod_nModFeesWithAncestors a)) (double_of_int (mod_nSizeWithAncestors b)) in
  let f2 := double_mul (double_of_int (mod_nModFeesWithAncestors b)) (double_of_int (mod_nSizeWithAncestors a)) in
  if double_eq f1 f2 then iter a <? iter b else double_gt f1 f2.

(** An entry less an ancestor with a fee. *)
Definition less_ancestor (fee : Z) (it : CTxMemPoolEntry) (e : CTxMemPoolModifiedEntry) : option CTxMemPoolModifiedEntry :=
  fees ← checked (mod_nModFeesWithAncestors e - fee);
  Some {| iter := iter e; mod_nSizeWithAncestors := u64 (mod_nSizeWithAncestors e - nTxSize it); mod_nModFeesWithAncestors := fees;
          mod_nSigOpCountWithAncestors := u32 (mod_nSigOpCountWithAncestors e - sigOpCount it) |}.

(** The fee taken off is that without the delta. *)
Definition update_for_parent_inclusion (it : CTxMemPoolEntry) : CTxMemPoolModifiedEntry -> option CTxMemPoolModifiedEntry :=
  less_ancestor (nFee it) it.

Abbreviation modified_set := (gmap Z CTxMemPoolModifiedEntry) (only parsing).

(** [mapModifiedTx.get<ancestor_score>().begin()] *)
Definition modified_front (m : modified_set) : option CTxMemPoolModifiedEntry :=
  fst <$> heap_pop (fun a b => CompareModifiedEntry b a) (map snd (map_to_list m)).

(** ** The assembler *)

(** The template and the counters; the first transaction of the block is the null reference of the coinbase. *)
Record BlockAssembler := {
  vtx : list (option CTransaction);
  vTxFees : list Z;
  vTxSigOps : list Z;
  nBlockSize : Z;
  nBlockTx : Z;
  nBlockSigOps : Z;
  nFees : Z;
  inBlock : gset Z;
  lastFewTxs : Z;
  blockFinished : bool;
}.

Definition DEFAULT_BLOCK_MAX_SIZE : Z := 7500000.
Definition DEFAULT_BLOCK_PRIORITY_SIZE : Z := 10000.
Definition DEFAULT_BLOCK_MIN_TX_FEE : Z := 100.

(** [nBlockMaxSize] and [blockMinFeeRate] as the constructor sets them, from the options: the size is an [int64_t], the
    fee the amount that was read, if the option is given. *)
Definition make_nBlockMaxSize (blockmaxsize : option Z) (fDIP0001ActiveAtTip : bool) : Z :=
  Z.max 1000 (Z.min (u32 (MaxBlockSize fDIP0001ActiveAtTip - 1000)) (u32 (default DEFAULT_BLOCK_MAX_SIZE blockmaxsize))).
Definition make_blockMinFeeRate (blockmintxfee : option Z) : CFeeRate :=
  {| nSatoshisPerK := default DEFAULT_BLOCK_MIN_TX_FEE blockmintxfee |}.

(** A template with the place of the coinbase, after [resetBlock]. *)
Definition resetBlock : BlockAssembler :=
  {| vtx := [None]; vTxFees := [-1]; vTxSigOps := [-1]; nBlockSize := 1000; nBlockTx := 0; nBlockSigOps := 100; nFees := 0;
     inBlock := ∅; lastFewTxs := 0; blockFinished := false |}.

Definition set_finished (b : BlockAssembler) : BlockAssembler :=
  {| vtx := vtx b; vTxFees := vTxFees b; vTxSigOps := vTxSigOps b; nBlockSize := nBlockSize b; nBlockTx := nBlockTx b; nBlockSigOps := nBlockSigOps b;
     nFees := nFees b; inBlock := inBlock b; lastFewTxs := lastFewTxs b; blockFinished := true |}.
(** [lastFewTxs++]; it is at most 50 before. *)
Definition count_few (b : BlockAssembler) : BlockAssembler :=
  {| vtx := vtx b; vTxFees := vTxFees b; vTxSigOps := vTxSigOps b; nBlockSize := nBlockSize b; nBlockTx := nBlockTx b; nBlockSigOps := nBlockSigOps b;
     nFees := nFees b; inBlock := inBlock b; lastFewTxs := lastFewTxs b + 1; blockFinished := blockFinished b |}.

(** The fields of an entry that only its priority depends on, and the priority delta of [mapDeltas]. *)
Record PriorityFields := { entryPriority : double; inChainInputValue : Z; nModSize : Z; priorityDelta : option double }.

Section Assembler.
Context `{SetOrder}.
Variable p : CTxMemPool.
Variable priority_fields : Z -> PriorityFields.
Variable nBlockMaxSize : Z.
Variable blockMinFeeRate : CFeeRate.
Variables nHeight nLockTimeCutoff : Z.
Variable fDIP0001ActiveAtTip : bool.

Definition isStillDependent (it : Z) (b : BlockAssembler) : option bool :=
  ps ← GetMemPoolParents p it;
  Some (existsb (fun parent => negb (bool_decide (parent ∈ inBlock b))) (set_list ps)).

Definition onlyUnconfirmed (testSet : gset Z) (b : BlockAssembler) : gset Z := testSet ∖ inBlock b.

Definition TestPackage (packageSize packageSigOps : Z) (b : BlockAssembler) : bool :=
  if u64 (nBlockSize b + packageSize) >=? nBlockMaxSize then false
  else if u32 (nBlockSigOps b + packageSigOps) >=? MaxBlockSigOps fDIP0001ActiveAtTip then false
  else true.

Definition entries_of (s : gset Z) : option (list CTxMemPoolEntry) := mapM (fun k => mapTx p !! k) (set_list s).

Definition TestPackageTransactions (package : gset Z) : option bool :=
  es ← entries_of package; Some (forallb (fun e => IsFinalTx (e_tx e) nHeight nLockTimeCutoff) es).

Definition TestForBlock (e : CTxMemPoolEntry) (b : BlockAssembler) : bool * BlockAssembler :=
  if u64 (nBlockSize b + nTxSize e) >=? nBlockMaxSize then
    if (nBlockSize b >? u32 (nBlockMaxSize - 100)) || (lastFewTxs b >? 50) then (false, set_finished b)
    else if nBlockSize b >? u32 (nBlockMaxSize - 1000) then (false, count_few b)
    else (false, b)
  else
    let nMaxBlockSigOps := MaxBlockSigOps fDIP0001ActiveAtTip in
    if u32 (nBlockSigOps b + sigOpCount e) >=? nMaxBlockSigOps then
      if nBlockSigOps b >? u32 (nMaxBlockSigOps - 2) then (false, set_finished b) else (false, b)
    else if negb (IsFinalTx (e_tx e) nHeight nLockTimeCutoff) then (false, b)
    else (true, b).

Definition AddToBlock (e : CTxMemPoolEntry) (b : BlockAssembler) : option BlockAssembler :=
  fees ← checked (nFees b + nFee e);
  Some {| vtx := vtx b ++ [Some (e_tx e)]; vTxFees := vTxFees b ++ [nFee e]; vTxSigOps := vTxSigOps b ++ [sigOpCount e];
          nBlockSize := u64 (nBlockSize b + nTxSize e); nBlockTx := u64 (nBlockTx b + 1); nBlockSigOps := u32 (nBlockSigOps b + sigOpCount e);
          nFees := fees; inBlock := {[e_hash e]} ∪ inBlock b; lastFewTxs := lastFewTxs b; blockFinished := blockFinished b |}.

(** ** By priority *)

(** [GetPriority] of an entry, and [ApplyDeltas]. *)
Definition priority_at (e : CTxMemPoolEntry) : double :=
  let f := priority_fields (e_hash e) in
  let dPriority := entry_priority (entryPriority f) (entryHeight e) (inChainInputValue f) (nModSize f) (u32 nHeight) in
  match priorityDelta f with Some d => double_add dPriority d | None => dPriority end.

(** The children that wait go to the queue. *)
Fixpoint push_children (l : list Z) (vecPriority : list TxCoinAgePriority) (waitPriMap : gmap Z double) : option (list TxCoinAgePriority * gmap Z double) :=
  match l with
  | [] => Some (vecPriority, waitPriMap)
  | child :: l =>
      match waitPriMap !! child with
      | Some d => e ← mapTx p !! child; push_children l (vecPriority ++ [(d, e)]) (delete child waitPriMap)
      | None => push_children l vecPriority waitPriMap
      end
  end.

Fixpoint priority_loop (fuel : nat) (nBlockPrioritySize : Z) (vecPriority : list TxCoinAgePriority) (waitPriMap : gmap Z double) (b : BlockAssembler)
    : option BlockAssembler :=
  match fuel with
  | O => None
  | S fuel =>
      match heap_pop TxCoinAgePriorityCompare vecPriority with
      | None => Some b
      | Some ((actualPriority, e), vecPriority) =>
          if blockFinished b then Some b
          else if decide (e_hash e ∈ inBlock b) then None
          else
            dependent ← isStillDependent (e_hash e) b;
            if (dependent : bool) then
              priority_loop fuel nBlockPrioritySize vecPriority
                (match waitPriMap !! e_hash e with Some _ => waitPriMap | None => <[e_hash e := actualPriority]> waitPriMap end) b
            else
              let '(fits, b) := TestForBlock e b in
              if fits then
                b ← AddToBlock e b;
                if (nBlockSize b >=? nBlockPrioritySize) || negb (AllowFree actualPriority) then Some b
                else
                  cs ← GetMemPoolChildren p (e_hash e);
                  '(vecPriority, waitPriMap) ← push_children (set_list cs) vecPriority waitPriMap;
                  priority_loop fuel nBlockPrioritySize vecPriority waitPriMap b
              else priority_loop fuel nBlockPrioritySize vecPriority waitPriMap b
      end
  end.

Definition addPriorityTxs (blockprioritysize : option Z) (b : BlockAssembler) : option BlockAssembler :=
  let nBlockPrioritySize := Z.min nBlockMaxSize (u32 (default DEFAULT_BLOCK_PRIORITY_SIZE blockprioritysize)) in
  if nBlockPrioritySize =? 0 then Some b
  else
    let n := size (mapTx p) in
    priority_loop (S n * S n) nBlockPrioritySize (map (fun x => (priority_at x.2, x.2)) (map_to_list (mapTx p))) ∅ b.

(** ** By packages *)

(** One descendant of an entry that was added. *)
Definition update_descendant (it : CTxMemPoolEntry) (desc : Z) (mapModifiedTx : modified_set) : option modified_set :=
  m ← (match mapModifiedTx !! desc with
       | None => e ← mapTx p !! desc; less_ancestor (GetModifiedFee it) it (CTxMemPoolModifiedEntry_make e)
       | Some m => update_for_parent_inclusion it m
       end);
  Some (<[desc := m]> mapModifiedTx).

Fixpoint update_descendants (alreadyAdded : gset Z) (it : CTxMemPoolEntry) (l : list Z) (mapModifiedTx : modified_set) : option modified_set :=
  match l with
  | [] => Some mapModifiedTx
  | desc :: l =>
      m ← (if decide (desc ∈ alreadyAdded) then Some mapModifiedTx else update_descendant it desc mapModifiedTx);
      update_descendants alreadyAdded it l m
  end.

Fixpoint update_packages (alreadyAdded : gset Z) (l : list Z) (mapModifiedTx : modified_set) : option modified_set :=
  match l with
  | [] => Some mapModifiedTx
  | k :: l =>
      it ← mapTx p !! k;
      descendants ← CalculateDescendants p k ∅;
      m ← update_descendants alreadyAdded it (set_list descendants) mapModifiedTx;
      update_packages alreadyAdded l m
  end.

Definition UpdatePackagesForAdded (alreadyAdded : gset Z) (mapModifiedTx : modified_set) : option modified_set :=
  update_packages alreadyAdded (set_list alreadyAdded) mapModifiedTx.

(** [mi] is what is left of the index of [mapTx] by the fee rate with ancestors. *)
Record PackageState := { ba : BlockAssembler; mapModifiedTx : modified_set; failedTx : gset Z; mi : list CTxMemPoolEntry; nConsecutiveFailed : Z }.

Definition SkipMapTxEntry (it : Z) (s : PackageState) : bool :=
  bool_decide (it ∈ dom (mapModifiedTx s)) || bool_decide (it ∈ inBlock (ba s)) || bool_decide (it ∈ failedTx s).

Definition SortForBlock (package : gset Z) : option (list CTxMemPoolEntry) :=
  es ← entries_of package; Some (sort_by CompareTxIterByAncestorCount es).

(** The entries of a package enter the block and leave the modified set. *)
Fixpoint add_sorted (l : list CTxMemPoolEntry) (b : BlockAssembler) (m : modified_set) : option (BlockAssembler * modified_set) :=
  match l with
  | [] => Some (b, m)
  | e :: l => b ← AddToBlock e b; add_sorted l b (delete (e_hash e) m)
  end.

(** The package to consider: that of the next entry of the index or of the best modified one, whichever is better;
    with its counters, whether it is a modified one, and what is left of the index. *)
Definition choose (s : PackageState) : option (CTxMemPoolModifiedEntry * bool * list CTxMemPoolEntry) :=
  match mi s with
  | [] => modit ← modified_front (mapModifiedTx s); Some (modit, true, [])
  | e :: rest =>
      let candidate := CTxMemPoolModifiedEntry_make e in
      match modified_front (mapModifiedTx s) with
      | Some modit => if CompareModifiedEntry modit candidate then Some (modit, true, e :: rest) else Some (candidate, false, rest)
      | None => Some (candidate, false, rest)
      end
  end.

(** A modified entry that failed is not considered again. *)
Definition drop_failed (fUsingModified : bool) (it : Z) (mi : list CTxMemPoolEntry) (n : Z) (s : PackageState) : PackageState :=
  if fUsingModified
  then {| ba := ba s; mapModifiedTx := delete it (mapModifiedTx s); failedTx := {[it]} ∪ failedTx s; mi := mi; nConsecutiveFailed := n |}
  else {| ba := ba s; mapModifiedTx := mapModifiedTx s; failedTx := failedTx s; mi := mi; nConsecutiveFailed := n |}.

Definition MAX_CONSECUTIVE_FAILURES : Z := 1000.

(** One round of the loop: the block when it ends, or the next state. *)
Definition package_step (s : PackageState) : option (BlockAssembler + PackageState) :=
  if bool_decide (mi s = []) && bool_decide (mapModifiedTx s = ∅) then Some (inl (ba s))
  else if match mi s with e :: _ => SkipMapTxEntry (e_hash e) s | [] => false end then
    Some (inr {| ba := ba s; mapModifiedTx := mapModifiedTx s; failedTx := failedTx s; mi := tail (mi s); nConsecutiveFailed := nConsecutiveFailed s |})
  else
    '(c, fUsingModified, rest) ← choose s;
    if decide (iter c ∈ inBlock (ba s)) then None
    else
      minFee ← GetFee blockMinFeeRate (mod_nSizeWithAncestors c);
      if mod_nModFeesWithAncestors c <? minFee then Some (inl (ba s))
      else if negb (TestPackage (mod_nSizeWithAncestors c) (mod_nSigOpCountWithAncestors c) (ba s)) then
        let n := nConsecutiveFailed s + 1 in
        if (n >? MAX_CONSECUTIVE_FAILURES) && (nBlockSize (ba s) >? u32 (nBlockMaxSize - 1000)) then Some (inl (ba s))
        else Some (inr (drop_failed fUsingModified (iter c) rest n s))
      else
        e ← mapTx p !! iter c;
        '(ancestors, _) ← CalculateMemPoolAncestors p e ∅ no_limits false;
        let ancestors := {[iter c]} ∪ onlyUnconfirmed ancestors (ba s) in
        final ← TestPackageTransactions ancestors;
        if negb final then Some (inr (drop_failed fUsingModified (iter c) rest (nConsecutiveFailed s) s))
        else
          sortedEntries ← SortForBlock ancestors;
          '(b, m) ← add_sorted sortedEntries (ba s) (mapModifiedTx s);
          m ← UpdatePackagesForAdded ancestors m;
          Some (inr {| ba := b; mapModifiedTx := m; failedTx := failedTx s; mi := rest; nConsecutiveFailed := 0 |}).

Fixpoint package_loop (fuel : nat) (s : PackageState) : option BlockAssembler :=
  match fuel with
  | O => None
  | S fuel => r ← package_step s; match r with inl b => Some b | inr s => package_loop fuel s end
  end.

(** [mempool.mapTx.get<ancestor_score>()] *)
Definition ancestor_index : list CTxMemPoolEntry := sort_by CompareTxMemPoolEntryByAncestorFee (map snd (map_to_list (mapTx p))).

Definition addPackageTxs (b : BlockAssembler) : option BlockAssembler :=
  m ← UpdatePackagesForAdded (inBlock b) ∅;
  let n := size (mapTx p) in
  package_loop (S n * S (n + n)) {| ba := b; mapModifiedTx := m; failedTx := ∅; mi := ancestor_index; nConsecutiveFailed := 0 |}.

(** The transactions of a new block. *)
Definition select_transactions (blockprioritysize : option Z) : option BlockAssembler :=
  b ← addPriorityTxs blockprioritysize resetBlock; addPackageTxs b.

End Assembler.

(** ** Lemmas: sorting and heaps *)

Lemma heap_max_perm {A} (less : A -> A -> bool) best l : let '(m, r) := heap_max less best l in best :: l ≡ₚ m :: r.
Proof.
  revert best. induction l as [|x l IH]; intros best; cbn [heap_max]; [done|]. destruct (less best x).
  - specialize (IH x). destruct (heap_max less x l) as [m r]. rewrite IH. apply perm_swap.
  - specialize (IH best). destruct (heap_max less best l) as [m r]. rewrite perm_swap, IH. apply perm_swap.
Qed.

Lemma heap_pop_perm {A} (less : A -> A -> bool) l m r : heap_pop less l = Some (m, r) -> l ≡ₚ m :: r.
Proof.
  destruct l as [|x l]; cbn [heap_pop]; [done|]. intros E. pose proof (heap_max_perm less x l) as Hp. injection E as E. by rewrite E in Hp.
Qed.

Lemma heap_pop_none {A} (less : A -> A -> bool) l : heap_pop less l = None -> l = [].
Proof. by destruct l. Qed.

Lemma sort_by_perm {A} (less : A -> A -> bool) l : sort_by less l ≡ₚ l.
Proof. apply merge_sort_Permutation. Qed.

Lemma ancestor_count_total : Total (not_less CompareTxIterByAncestorCount).
Proof.
  intros a b. unfold not_less, CompareTxIterByAncestorCount. destruct (Z.eqb_spec (nCountWithAncestors a) (nCountWithAncestors b)) as [E|E], (Z.eqb_spec (nCountWithAncestors b) (nCountWithAncestors a)); cbn [negb]; try congruence.
  all: rewrite !Z.ltb_ge; lia.
Qed.

Lemma ancestor_count_trans : Transitive (not_less CompareTxIterByAncestorCount).
Proof.
  intros a b c. unfold not_less, CompareTxIterByAncestorCount.
  destruct (Z.eqb_spec (nCountWithAncestors b) (nCountWithAncestors a)), (Z.eqb_spec (nCountWithAncestors c) (nCountWithAncestors b)),
    (Z.eqb_spec (nCountWithAncestors c) (nCountWithAncestors a)); cbn [negb]; rewrite !Z.ltb_ge; lia.
Qed.

(** In a sorted list nothing has fewer ancestors than what stands before it. *)
Lemma sorted_counts l l1 a l2 b : sort_by CompareTxIterByAncestorCount l = l1 ++ a :: l2 -> b ∈ l2 -> nCountWithAncestors a <= nCountWithAncestors b.
Proof.
  intros E Hb. pose proof (@StronglySorted_merge_sort _ (not_less CompareTxIterByAncestorCount) _ ancestor_count_trans ancestor_count_total l) as S.
  unfold sort_by in E. rewrite E in S. apply StronglySorted_app in S as (_ & _ & [S _]%StronglySorted_cons).
  assert (not_less CompareTxIterByAncestorCount a b) as Hab by (by eapply Forall_forall).
  unfold not_less, CompareTxIterByAncestorCount in Hab. destruct (Z.eqb_spec (nCountWithAncestors b) (nCountWithAncestors a)); cbn [negb] in Hab; rewrite Z.ltb_ge in Hab; lia.
Qed.

(** ** Lemmas: the block as it is filled *)

Definition sum_of (f : CTxMemPoolEntry -> Z) (l : list CTxMemPoolEntry) : Z := foldr (fun e n => f e + n) 0 l.
Abbreviation keys l := (map e_hash l) (only parsing).

Lemma sum_of_app f l1 l2 : sum_of f (l1 ++ l2) = sum_of f l1 + sum_of f l2.
Proof. unfold sum_of. induction l1; cbn in *; lia. Qed.

Lemma sum_of_perm f l1 l2 : l1 ≡ₚ l2 -> sum_of f l1 = sum_of f l2.
Proof. unfold sum_of. induction 1; cbn in *; lia. Qed.

(** The entry stands in the pool. *)
Definition stands (p : CTxMemPool) (e : CTxMemPoolEntry) : Prop := mapTx p !! e_hash e = Some e.

Definition raw_fee (m : gmap Z CTxMemPoolEntry) (x : Z) : Z := default 0 (nFee <$> m !! x).

(** Room for sums of fees, with and without the deltas. *)
Definition fee_room (p : CTxMemPool) : Prop :=
  2 * sum_over (fun x => Z.abs (fee_of (mapTx p) x)) (pool p) + sum_over (fun x => Z.abs (raw_fee (mapTx p) x)) (pool p) < 2 ^ 63.

(** Distinct entries of the pool, each after its parents. *)
Record ordered (p : CTxMemPool) (es : list CTxMemPoolEntry) : Prop := {
  od_stands : Forall (stands p) es;
  od_nodup : NoDup (keys es);
  od_parents : forall l1 e l2, es = l1 ++ e :: l2 -> up p (e_hash e) ⊆ list_to_set (keys l1);
}.

(** A template with the entries [es] after the coinbase. *)
Record assembled (p : CTxMemPool) (b : BlockAssembler) (es : list CTxMemPoolEntry) : Prop := {
  as_ordered : ordered p es;
  as_inBlock : inBlock b = list_to_set (keys es);
  as_vtx : vtx b = None :: map (fun e => Some (e_tx e)) es;
  as_vTxFees : vTxFees b = -1 :: map nFee es;
  as_vTxSigOps : vTxSigOps b = -1 :: map sigOpCount es;
  as_nBlockSize : nBlockSize b = 1000 + sum_of nTxSize es;
  as_nBlockTx : nBlockTx b = Z.of_nat (length es);
  as_nBlockSigOps : nBlockSigOps b = 100 + sum_of sigOpCount es;
  as_nFees : nFees b = sum_of nFee es;
}.

Lemma resetBlock_assembled p : assembled p resetBlock [].
Proof. constructor; try done. constructor; [constructor|constructor|]. intros l1 e l2 E. by destruct l1. Qed.

Lemma NoDup_snoc {A} (l : list A) x : NoDup (l ++ [x]) <-> NoDup l /\ x ∉ l.
Proof. rewrite (Permutation_app_comm l [x]). cbn. rewrite NoDup_cons. tauto. Qed.

Section Filling.
Variable p : CTxMemPool.
Hypothesis C : consistent p.
Hypothesis R : fee_room p.

Lemma stands_pool e : stands p e -> e_hash e ∈ pool p.
Proof. intros E. apply elem_of_dom. eauto. Qed.

Lemma pool_entry k : k ∈ pool p -> exists e, mapTx p !! k = Some e /\ e_hash e = k /\ stands p e.
Proof. intros [e E]%elem_of_dom. exists e. pose proof (cs_key p C k e E) as Hk. split_and!; [done|done|]. unfold stands. by rewrite Hk. Qed.

(** Sums over entries are sums over their keys. *)
Lemma sum_of_keys (g : CTxMemPoolEntry -> Z) es : Forall (stands p) es -> NoDup (keys es) ->
  sum_of g es = sum_over (fun x => default 0 (g <$> mapTx p !! x)) (list_to_set (keys es)).
Proof.
  induction es as [|e es IH]; cbn [sum_of foldr map list_to_set]; intros Hs Hn; [by rewrite sum_over_empty|].
  apply Forall_cons in Hs as [He Hs]. apply NoDup_cons in Hn as [Hk Hn]. rewrite sum_over_insert by (by rewrite elem_of_list_to_set).
  rewrite He. cbn. unfold sum_of in IH. by rewrite IH.
Qed.

Lemma keys_pool es : Forall (stands p) es -> list_to_set (keys es) ⊆ pool p.
Proof. intros Hs k Hk. apply elem_of_list_to_set, list_elem_of_fmap in Hk as (e & -> & He). apply stands_pool. by eapply Forall_forall. Qed.

Lemma raw_sum t : t ⊆ pool p -> Z.abs (sum_over (raw_fee (mapTx p)) t) < 2 ^ 63.
Proof.
  intros Ht. unfold fee_room in R. pose proof (sum_over_abs (raw_fee (mapTx p)) t).
  pose proof (sum_over_subset (fun x => Z.abs (raw_fee (mapTx p) x)) t (pool p) Ht ltac:(lia)).
  pose proof (sum_over_nonneg (fun x => Z.abs (fee_of (mapTx p) x)) (pool p) ltac:(lia)). lia.
Qed.

(** The sums of the entries of a block are within their widths. *)
Lemma filled_bounds es : Forall (stands p) es -> NoDup (keys es) ->
  Z.of_nat (length es) <= sum_of nTxSize es < 2 ^ 63 /\ 0 <= sum_of sigOpCount es < 2 ^ 31 /\ Z.abs (sum_of nFee es) < 2 ^ 63.
Proof.
  intros Hs Hn. rewrite !(sum_of_keys _ es) by done. pose proof (keys_pool es Hs) as Hp. destruct (bounded_sums _ _ (cs_bounded p C) Hp) as (H1 & _ & H2).
  pose proof (raw_sum _ Hp) as H3. unfold set_size in H1. rewrite size_list_to_set, length_map in H1 by done. unfold size_of, sig_of, raw_fee in *. lia.
Qed.

Lemma ordered_snoc es e : ordered p es -> stands p e -> e_hash e ∉ keys es -> up p (e_hash e) ⊆ list_to_set (keys es) -> ordered p (es ++ [e]).
Proof.
  intros [Hs Hn Hp] He Hk Hu. constructor.
  - apply Forall_app. by repeat constructor.
  - rewrite map_app. cbn. by apply NoDup_snoc.
  - intros l1 x l2 E. destruct l2 as [|y l2 _] using rev_ind; [by apply app_inj_tail in E as [<- <-]|].
    rewrite app_comm_cons, app_assoc in E. apply app_inj_tail in E as [E _]. by eapply Hp.
Qed.

Lemma AddToBlock_ok b es e :
  assembled p b es -> stands p e -> e_hash e ∉ keys es -> up p (e_hash e) ⊆ list_to_set (keys es) ->
  exists b', AddToBlock e b = Some b' /\ assembled p b' (es ++ [e]) /\ lastFewTxs b' = lastFewTxs b /\ blockFinished b' = blockFinished b.
Proof.
  intros A He Hk Hu. pose proof (ordered_snoc es e (as_ordered _ _ _ A) He Hk Hu) as Ho. destruct A as [[Hs Hn Hp] A1 A2 A3 A4 A5 A6 A7 A8].
  pose proof (filled_bounds _ (od_stands _ _ Ho) (od_nodup _ _ Ho)) as Hb. rewrite !sum_of_app, length_app in Hb. cbn [sum_of foldr length] in Hb.
  pose proof (filled_bounds es Hs Hn) as Hb0. pose proof (bd_entry _ (cs_bounded p C) _ _ He) as Hpos.
  unfold AddToBlock. rewrite A8, checked_in by (unfold in_s; lia). cbn [mbind option_bind]. eexists. split; [reflexivity|]. split; [|done].
  constructor; cbn [inBlock vtx vTxFees vTxSigOps nBlockSize nBlockTx nBlockSigOps nFees]; rewrite ?A1, ?A2, ?A3, ?A4, ?A5, ?A6, ?A7, ?map_app, ?sum_of_app, ?length_app; try done.
  - rewrite list_to_set_app_L. cbn. set_solver.
  - cbn [sum_of foldr]. rewrite u64_id by lia. lia.
  - cbn [length]. rewrite u64_id by lia. lia.
  - cbn [sum_of foldr]. unfold u32. rewrite Z.mod_small by lia. lia.
  - cbn [sum_of foldr]. lia.
Qed.

(** Several entries, each after those of its parents that are not in the block. *)
Lemma add_sorted_ok l b es m :
  assembled p b es -> Forall (stands p) l -> NoDup (keys (es ++ l)) ->
  (forall l1 e l2, l = l1 ++ e :: l2 -> up p (e_hash e) ⊆ list_to_set (keys (es ++ l1))) ->
  exists b', add_sorted l b m = Some (b', foldl (fun m e => delete (e_hash e) m) m l) /\ assembled p b' (es ++ l).
Proof.
  revert b es m. induction l as [|e l IH]; intros b es m A Hs Hn Hp; cbn [add_sorted foldl].
  { exists b. by rewrite app_nil_r. }
  apply Forall_cons in Hs as [He Hs]. rewrite (cons_middle e es l), app_assoc, map_app in Hn. 
  destruct (AddToBlock_ok b es e A He) as (b1 & E1 & A1 & _).
  - apply NoDup_app in Hn as (Hn & _). rewrite map_app in Hn. by apply (NoDup_snoc (keys es) (e_hash e)) in Hn as [_ Hn].
  - specialize (Hp [] e l eq_refl). by rewrite app_nil_r in Hp.
  - rewrite E1. cbn [mbind option_bind]. destruct (IH b1 (es ++ [e]) (delete (e_hash e) m) A1 Hs) as (b' & E & A').
    + by rewrite map_app.
    + intros l1 x l2 ->. rewrite <- app_assoc. apply (Hp (e :: l1) x l2). done.
    + rewrite E. exists b'. split; [done|]. by rewrite <- app_assoc in A'.
Qed.

End Filling.

(** ** Lemmas: by priority *)

Section Choosing.
Context `{SetOrder}.
Variable p : CTxMemPool.
Hypothesis C : consistent p.
Hypothesis R : fee_room p.
Variable nBlockMaxSize : Z.
Variable blockMinFeeRate : CFeeRate.
Variables nHeight nLockTimeCutoff : Z.
Variable fDIP0001ActiveAtTip : bool.

Abbreviation final e := (IsFinalTx (e_tx e) nHeight nLockTimeCutoff).

(** A block of final transactions within the limits. *)
Record filled (b : BlockAssembler) (es : list CTxMemPoolEntry) : Prop := {
  fi_assembled : assembled p b es;
  fi_final : Forall (fun e => final e = true) es;
  fi_limits : es = [] \/ nBlockSize b < nBlockMaxSize /\ nBlockSigOps b < MaxBlockSigOps fDIP0001ActiveAtTip;
}.

(** A test of one entry changes nothing but the hints to stop. *)
Lemma TestForBlock_ok e b es :
  filled b es -> stands p e -> e_hash e ∉ keys es ->
  let '(r, b') := TestForBlock nBlockMaxSize nHeight nLockTimeCutoff fDIP0001ActiveAtTip e b in
  filled b' es /\ if r then b' = b /\ final e = true /\ nBlockSize b + nTxSize e < nBlockMaxSize /\ nBlockSigOps b + sigOpCount e < MaxBlockSigOps fDIP0001ActiveAtTip
                  else True.
Proof.
  intros F He Hk. pose proof (fi_assembled _ _ F) as A. pose proof (as_ordered _ _ _ A) as [Hs Hn _].
  assert (filled (set_finished b) es /\ filled (count_few b) es) as [F1 F2] by (split; destruct F as [[] ? ?]; constructor; done).
  pose proof (filled_bounds p C R es Hs Hn) as (H1 & H2 & _).
  pose proof (filled_bounds p C R (es ++ [e])) as (G1 & G2 & _); [by apply Forall_app; repeat constructor|rewrite map_app; by apply (NoDup_snoc (keys es) (e_hash e))|].
  rewrite !sum_of_app in G1, G2. cbn [sum_of foldr length] in G1, G2. pose proof (bd_entry _ (cs_bounded p C) _ _ He).
  unfold TestForBlock. rewrite (as_nBlockSize _ _ _ A), (as_nBlockSigOps _ _ _ A). rewrite (u64_id (1000 + _ + _)) by lia. unfold u32 at 3. rewrite (Z.mod_small (_ + sigOpCount e)) by lia. rewrite !Z.geb_leb.
  destruct (Z.leb_spec nBlockMaxSize (1000 + sum_of nTxSize es + nTxSize e)); [repeat case_match; simplify_eq; split; done|].
  destruct (Z.leb_spec (MaxBlockSigOps fDIP0001ActiveAtTip) (100 + sum_of sigOpCount es + sigOpCount e)); [repeat case_match; simplify_eq; split; done|].
  destruct (final e); cbn [negb]; [|done]. split; [done|]. split_and!; [done|done|lia|lia].
Qed.

Lemma filled_add b es e :
  filled b es -> stands p e -> e_hash e ∉ keys es -> up p (e_hash e) ⊆ list_to_set (keys es) -> final e = true ->
  nBlockSize b + nTxSize e < nBlockMaxSize -> nBlockSigOps b + sigOpCount e < MaxBlockSigOps fDIP0001ActiveAtTip ->
  exists b', AddToBlock e b = Some b' /\ filled b' (es ++ [e]).
Proof.
  intros [A F L] He Hk Hu Hf H1 H2. destruct (AddToBlock_ok p C R b es e A He Hk Hu) as (b' & E & A' & _). exists b'. split; [done|].
  constructor; [done|apply Forall_app; by repeat constructor|]. right. rewrite (as_nBlockSize _ _ _ A'), (as_nBlockSigOps _ _ _ A'), !sum_of_app.
  rewrite (as_nBlockSize _ _ _ A) in H1. rewrite (as_nBlockSigOps _ _ _ A) in H2. cbn [sum_of foldr]. lia.
Qed.

(** Entries wait in the queue or for a parent, not both, and are not in the block. *)
Record queued (vec : list TxCoinAgePriority) (wait : gmap Z double) (b : BlockAssembler) : Prop := {
  qu_stands : Forall (fun x => stands p x.2) vec;
  qu_nodup : NoDup (map (fun x => e_hash x.2) vec);
  qu_apart : forall x, x ∈ vec -> e_hash x.2 ∉ dom wait /\ e_hash x.2 ∉ inBlock b;
  qu_wait : dom wait ⊆ pool p ∖ inBlock b;
}.

Lemma queued_length vec wait b : queued vec wait b -> (length vec <= base.size (mapTx p))%nat.
Proof.
  intros [Hs Hn _ _]. rewrite <- (length_map (fun x : TxCoinAgePriority => e_hash x.2) vec), <- (size_list_to_set (C := gset Z)) by done. rewrite <- size_dom.
  apply subseteq_size. intros k Hk. apply elem_of_list_to_set, list_elem_of_fmap in Hk as (x & -> & Hx). apply (stands_pool p). by eapply Forall_forall in Hs.
Qed.

Lemma queued_perm vec vec' wait b : vec ≡ₚ vec' -> queued vec wait b -> queued vec' wait b.
Proof.
  intros P [H1 H2 H3 H4]. constructor; [by rewrite <- P| |intros x Hx; apply H3; by rewrite P|done]. by rewrite <- P.
Qed.

Lemma queued_tail x vec wait b : queued (x :: vec) wait b -> queued vec wait b.
Proof.
  intros [H1 H2 H3 H4]. apply Forall_cons in H1 as [_ H1]. apply NoDup_cons in H2 as [_ H2]. constructor; try done. intros y Hy. apply H3. by right.
Qed.

Lemma queued_wait d e vec wait b :
  queued ((d, e) :: vec) wait b -> queued vec (match wait !! e_hash e with Some _ => wait | None => <[e_hash e := d]> wait end) b.
Proof.
  intros Q. pose proof (queued_tail _ _ _ _ Q) as Q'. destruct (wait !! e_hash e); [done|]. destruct Q as [H1 H2 H3 H4]. destruct Q' as [G1 G2 G3 G4].
  apply NoDup_cons in H2 as [Hk _]. apply Forall_cons in H1 as [He _]. cbn in *. constructor; [done|done| |].
  - intros y Hy. destruct (G3 y Hy) as [G5 G6]. split; [|done]. rewrite dom_insert_L. intros [E%elem_of_singleton|?]%elem_of_union; [|done].
    apply Hk. rewrite <- E. apply list_elem_of_fmap. eauto.
  - rewrite dom_insert_L. intros k [->%elem_of_singleton|Hin]%elem_of_union; [|by apply G4]. apply elem_of_difference. split; [by apply (stands_pool p)|].
    by apply (H3 (d, e) ltac:(left)).
Qed.

Lemma push_children_ok l vec wait b : queued vec wait b -> exists vec' wait', push_children p l vec wait = Some (vec', wait') /\ queued vec' wait' b.
Proof.
  revert vec wait. induction l as [|c l IH]; intros vec wait Q; cbn [push_children]; [by eexists _, _|]. destruct (wait !! c) as [d|] eqn:E; [|by apply IH].
  destruct Q as [H1 H2 H3 H4]. assert (c ∈ dom wait) as Hc by (apply elem_of_dom; eauto). pose proof (H4 c Hc) as [Hp Hb]%elem_of_difference.
  destruct (pool_entry p C c Hp) as (e & Ee & Hk & Hs). rewrite Ee. cbn [mbind option_bind]. apply IH. constructor.
  - apply Forall_app. by repeat constructor.
  - rewrite map_app. cbn. apply NoDup_snoc. split; [done|]. intros (x & Ex & Hx)%list_elem_of_fmap. destruct (H3 x Hx) as [Hd _]. apply Hd. rewrite <- Ex. by rewrite Hk.
  - intros x [Hx| ->%list_elem_of_singleton]%elem_of_app; rewrite dom_delete_L.
    + destruct (H3 x Hx). split; [|done]. by intros [? _]%elem_of_difference.
    + cbn. rewrite Hk. split; [|done]. by intros [_ []%not_elem_of_singleton]%elem_of_difference.
  - rewrite dom_delete_L. set_solver.
Qed.

(** The parents are in the block when nothing more is waited for. *)
Lemma isStillDependent_ok k b es : assembled p b es -> k ∈ pool p ->
  exists r, isStillDependent p k b = Some r /\ (r = false -> up p k ⊆ list_to_set (keys es)).
Proof.
  intros A Hk. unfold isStillDependent. rewrite up_ok_parents by (done || apply linked_up_ok, C). cbn [mbind option_bind]. eexists. split; [reflexivity|].
  intros E y Hy. rewrite <- (as_inBlock _ _ _ A). apply not_true_iff_false in E. destruct (decide (y ∈ inBlock b)) as [|Hn]; [done|]. destruct E.
  apply existsb_exists. exists y. split; [by apply list_elem_of_In, elem_of_set_list|]. by rewrite bool_decide_false.
Qed.

Lemma filled_key b es k : filled b es -> k ∈ inBlock b <-> k ∈ keys es.
Proof. intros F. by rewrite (as_inBlock _ _ _ (fi_assembled _ _ F)), elem_of_list_to_set. Qed.

(** The queue empties: each round takes an entry from it, or puts one into the block. *)
Lemma priority_loop_ok fuel nPrio vec wait b es :
  filled b es -> queued vec wait b ->
  (base.size (pool p ∖ inBlock b) * S (base.size (mapTx p)) + length vec < fuel)%nat ->
  exists b' es', priority_loop p nBlockMaxSize nHeight nLockTimeCutoff fDIP0001ActiveAtTip fuel nPrio vec wait b = Some b' /\ filled b' es'.
Proof.
  revert vec wait b es. induction fuel as [|fuel IH]; intros vec wait b es F Q Hf; [lia|]. cbn [priority_loop].
  destruct (heap_pop TxCoinAgePriorityCompare vec) as [[[d e] vec']|] eqn:Ep; [|by exists b, es].
  apply heap_pop_perm in Ep. apply (queued_perm _ _ _ _ Ep) in Q. rewrite Ep in Hf. cbn [length] in Hf. destruct (blockFinished b); [by exists b, es|].
  pose proof (qu_stands _ _ _ Q) as [He _]%Forall_cons. cbn in He. pose proof (qu_apart _ _ _ Q (d, e) ltac:(left)) as [Hw Hb]. cbn in Hw, Hb.
  rewrite decide_False by done. assert (e_hash e ∉ keys es) as Hk by (by rewrite <- (filled_key b)).
  destruct (isStillDependent_ok (e_hash e) b es (fi_assembled _ _ F) (stands_pool p e He)) as (r & -> & Hu). cbn [mbind option_bind].
  destruct r; [apply (IH _ _ _ _ F); [by apply queued_wait|lia]|]. specialize (Hu eq_refl).
  pose proof (TestForBlock_ok e b es F He Hk) as Ht. destruct (TestForBlock _ _ _ _ e b) as [[] b1] eqn:Et.
  - destruct Ht as (_ & -> & Hfin & H1 & H2). destruct (filled_add b es e F He Hk Hu Hfin H1 H2) as (b2 & -> & F2). cbn [mbind option_bind].
    case_match; [by eexists _, _|]. rewrite linked_children by (apply C || by apply stands_pool). cbn [mbind option_bind].
    assert (inBlock b2 = {[e_hash e]} ∪ inBlock b) as Eb.
    { rewrite (as_inBlock _ _ _ (fi_assembled _ _ F2)), (as_inBlock _ _ _ (fi_assembled _ _ F)), map_app, list_to_set_app_L. cbn. by rewrite union_empty_r_L, union_comm_L. }
    assert (queued vec' wait b2) as Q2.
    { pose proof (queued_tail _ _ _ _ Q) as [G1 G2 G3 G4]. pose proof (qu_nodup _ _ _ Q) as [Hn _]%NoDup_cons. cbn in Hn. constructor; [done|done| |].
      - intros x Hx. destruct (G3 x Hx). split; [done|]. rewrite Eb, not_elem_of_union, not_elem_of_singleton. split; [|done]. intros E. apply Hn. rewrite <- E.
        apply list_elem_of_fmap. eauto.
      - rewrite Eb. intros k Hin. pose proof (G4 k Hin) as [? ?]%elem_of_difference. rewrite elem_of_difference, not_elem_of_union, not_elem_of_singleton.
        split_and!; [done| |done]. by intros ->. }
    destruct (push_children_ok (set_list (down p (e_hash e))) vec' wait b2 Q2) as (vec2 & wait2 & -> & Q3). cbn [mbind option_bind].
    apply (IH _ _ _ _ F2 Q3). pose proof (queued_length _ _ _ Q3).
    assert (base.size (pool p ∖ inBlock b2) < base.size (pool p ∖ inBlock b))%nat as Hlt; [|nia].
    apply subset_size. pose proof (stands_pool p e He). rewrite Eb. set_solver.
  - destruct Ht as [F1 _]. assert (inBlock b1 = inBlock b) as Eb.
    { by rewrite (as_inBlock _ _ _ (fi_assembled _ _ F1)), (as_inBlock _ _ _ (fi_assembled _ _ F)). }
    apply (IH _ _ _ _ F1); [|rewrite Eb; lia]. pose proof (queued_tail _ _ _ _ Q) as [G1 G2 G3 G4]. by constructor; rewrite ?Eb.
Qed.

Lemma addPriorityTxs_ok priority_fields o : exists b es, addPriorityTxs p priority_fields nBlockMaxSize nHeight nLockTimeCutoff fDIP0001ActiveAtTip o resetBlock = Some b /\ filled b es.
Proof.
  assert (filled resetBlock []) as F by (constructor; [apply resetBlock_assembled|constructor|by left]).
  unfold addPriorityTxs. case_match; [by eexists _, _|]. eapply priority_loop_ok; [exact F| |].
  - assert (map (fun x => e_hash x.2) (map (fun x => (priority_at priority_fields nHeight x.2, x.2)) (map_to_list (mapTx p))) = map fst (map_to_list (mapTx p))) as Ek.
    { rewrite map_map. apply map_ext_in. intros [k e] Hk%list_elem_of_In%elem_of_map_to_list. cbn. by apply (cs_key p C). }
    constructor.
    + apply Forall_forall. intros x ([k e] & -> & Hk%elem_of_map_to_list)%list_elem_of_fmap. cbn. unfold stands. by rewrite (cs_key p C k e Hk).
    + rewrite Ek. apply NoDup_fst_map_to_list.
    + intros x _. split; [rewrite dom_empty_L|]; apply not_elem_of_empty.
    + rewrite dom_empty_L. apply empty_subseteq.
  - rewrite length_map. cbn [inBlock resetBlock]. pose proof (subseteq_size (pool p ∖ ∅) (pool p) ltac:(set_solver)) as Hle. rewrite size_dom in Hle.
    rewrite length_map_to_list. unfold base.size in *. nia.
Qed.

(** ** Lemmas: modified entries *)

Abbreviation anc k := (closure (up p) (pool p) k).
Abbreviation sz := (size_of (mapTx p)).
Abbreviation fe := (fee_of (mapTx p)).
Abbreviation sg := (sig_of (mapTx p)).

Definition no_deltas : Prop := forall x e, mapTx p !! x = Some e -> feeDelta e = 0.

(** The counters of [k] when [done] is in the block: at least those of what remains of its package, and exactly those
    unless it failed before; the fees only when no fee has a delta. *)
Record tracks (failed done : gset Z) (k : Z) (c : CTxMemPoolModifiedEntry) : Prop := {
  tk_iter : iter c = k;
  tk_pool : k ∈ pool p;
  tk_size : sum_over sz (anc k ∖ done) <= mod_nSizeWithAncestors c < 2 ^ 63;
  tk_sig : sum_over sg (anc k ∖ done) <= mod_nSigOpCountWithAncestors c < 2 ^ 31;
  tk_fees : Z.abs (mod_nModFeesWithAncestors c)
    <= sum_over (fun x => Z.abs (fe x)) (anc k) + sum_over (fun x => Z.abs (fe x) + Z.abs (raw_fee (mapTx p) x)) (anc k ∩ done);
  tk_exact : k ∉ failed -> mod_nSizeWithAncestors c = sum_over sz (anc k ∖ done) /\ mod_nSigOpCountWithAncestors c = sum_over sg (anc k ∖ done)
    /\ (no_deltas -> mod_nModFeesWithAncestors c = sum_over fe (anc k ∖ done));
}.

Lemma anc_pool k : k ∈ pool p -> k ∈ anc k /\ anc k ⊆ pool p.
Proof. apply (ascends_in p (cs_linked p C)). Qed.

Lemma part_le (f : Z -> Z) s t : s ⊆ t -> t ⊆ pool p -> (forall x, x ∈ pool p -> 0 <= f x) -> sum_over f s <= sum_over f t.
Proof. intros Hs Ht Hf. apply sum_over_subset; [done|]. intros x Hx. by apply Hf, Ht. Qed.

Lemma sizes_nonneg x : x ∈ pool p -> 1 <= sz x /\ 0 <= sg x.
Proof. intros [e E]%elem_of_dom. unfold size_of, sig_of. rewrite E. cbn. pose proof (bd_entry _ (cs_bounded p C) x e E). lia. Qed.

(** The counters of the pool are those of an entry that was not touched. *)
Lemma tracks_entry failed done k e : mapTx p !! k = Some e -> k ∈ failed \/ anc k ## done -> tracks failed done k (CTxMemPoolModifiedEntry_make e).
Proof.
  intros E Hd. assert (k ∈ pool p) as Hk by (apply elem_of_dom; eauto). destruct (anc_pool k Hk) as [_ Ha].
  pose proof (ac_anc _ (cs_accounted p C) k e E) as Hp. unfold anc_part in Hp. injection Hp as _ Hs Hf Hg.
  destruct (bounded_sums _ _ (cs_bounded p C) Ha) as (H1 & _ & H2).
  constructor; cbn [iter mod_nSizeWithAncestors mod_nSigOpCountWithAncestors mod_nModFeesWithAncestors CTxMemPoolModifiedEntry_make]; rewrite ?Hs, ?Hf, ?Hg.
  - by apply (cs_key p C).
  - done.
  - pose proof (part_le sz (anc k ∖ done) (anc k) ltac:(set_solver) Ha ltac:(intros x Hx; destruct (sizes_nonneg x Hx); lia)). lia.
  - pose proof (part_le sg (anc k ∖ done) (anc k) ltac:(set_solver) Ha ltac:(intros x Hx; by destruct (sizes_nonneg x Hx))). lia.
  - pose proof (sum_over_abs fe (anc k)). pose proof (sum_over_nonneg (fun x => Z.abs (fe x) + Z.abs (raw_fee (mapTx p) x)) (anc k ∩ done) ltac:(lia)). lia.
  - intros Hn. destruct Hd as [?|Hd]; [done|]. assert (anc k ∖ done = anc k) as -> by set_solver. done.
Qed.

(** One more ancestor in the block, taken off the counters. *)
Lemma less_ancestor_ok failed done k c i it fee :
  tracks failed done k c -> mapTx p !! i = Some it -> i ∈ anc k -> i ∉ done -> fee = GetModifiedFee it \/ fee = nFee it ->
  exists c', less_ancestor fee it c = Some c' /\ tracks failed ({[i]} ∪ done) k c'.
Proof.
  intros [T1 T2 T3 T4 T5 T6] Ei Hi Hd Hfee. destruct (anc_pool k T2) as [_ Ha].
  assert (anc k ∖ ({[i]} ∪ done) = (anc k ∖ done) ∖ {[i]}) as Er by set_solver.
  assert (anc k ∩ ({[i]} ∪ done) = {[i]} ∪ (anc k ∩ done)) as Ed by set_solver.
  assert (sz i = nTxSize it /\ fe i = GetModifiedFee it /\ sg i = sigOpCount it /\ raw_fee (mapTx p) i = nFee it) as (Es & Ef & Eg & Ew).
  { unfold size_of, fee_of, sig_of, raw_fee. by rewrite Ei. }
  assert (forall f, sum_over f (anc k ∖ done) = f i + sum_over f ((anc k ∖ done) ∖ {[i]})) as Hdel by (intros f; apply sum_over_delete; set_solver).
  assert (forall f, (forall x, x ∈ pool p -> 0 <= f x) -> 0 <= sum_over f ((anc k ∖ done) ∖ {[i]})) as Hnn.
  { intros f Hf. apply sum_over_nonneg. intros x Hx. apply Hf, Ha. set_solver. }
  pose proof (Hnn sz ltac:(intros x Hx; destruct (sizes_nonneg x Hx); lia)) as N1. pose proof (Hnn sg ltac:(intros x Hx; by destruct (sizes_nonneg x Hx))) as N2.
  pose proof (sizes_nonneg i (Ha i Hi)) as [P1 P2]. rewrite Hdel, Es in T3. rewrite Hdel, Eg in T4.
  assert (Z.abs (mod_nModFeesWithAncestors c - fee) <= sum_over (fun x => Z.abs (fe x)) (anc k)
    + sum_over (fun x => Z.abs (fe x) + Z.abs (raw_fee (mapTx p) x)) (anc k ∩ ({[i]} ∪ done))) as Hfees.
  { rewrite Ed, sum_over_insert, Ef, Ew by set_solver. destruct Hfee as [-> | ->]; lia. }
  assert (in_s 64 (mod_nModFeesWithAncestors c - fee)) as Hin.
  { pose proof (sum_over_subset (fun x => Z.abs (fe x)) (anc k) (pool p) Ha ltac:(lia)).
    pose proof (sum_over_subset (fun x => Z.abs (fe x) + Z.abs (raw_fee (mapTx p) x)) (anc k ∩ ({[i]} ∪ done)) (pool p) ltac:(set_solver) ltac:(lia)) as Hs.
    rewrite (sum_over_add (fun x => Z.abs (fe x)) (fun x => Z.abs (raw_fee (mapTx p) x)) (pool p)) in Hs. unfold fee_room in R. unfold in_s. lia. }
  unfold less_ancestor. rewrite checked_in by done. cbn [mbind option_bind]. eexists. split; [reflexivity|].
  rewrite u64_id by lia. unfold u32. rewrite Z.mod_small by lia.
  constructor; cbn [iter mod_nSizeWithAncestors mod_nSigOpCountWithAncestors mod_nModFeesWithAncestors]; rewrite ?Er; try done; [lia|lia|].
  intros Hn. destruct (T6 Hn) as (X1 & X2 & X3). rewrite Hdel in X1, X2. split_and!; [lia|lia|]. intros Hz. specialize (X3 Hz). rewrite Hdel in X3.
  assert (fee = fe i) as ->; [|lia]. rewrite Ef. destruct Hfee as [-> | ->]; [done|]. unfold GetModifiedFee. rewrite (Hz i it Ei). lia.
Qed.

Lemma tracks_more failed done k c i : tracks failed done k c -> i ∉ anc k -> tracks failed ({[i]} ∪ done) k c.
Proof.
  intros [T1 T2 T3 T4 T5 T6] Hi. assert (anc k ∖ ({[i]} ∪ done) = anc k ∖ done) as Er by set_solver.
  assert (anc k ∩ ({[i]} ∪ done) = anc k ∩ done) as Ed by set_solver. by constructor; rewrite ?Er, ?Ed.
Qed.

(** Failing more entries asks for less. *)
Lemma tracks_failed failed failed' done k c : failed ⊆ failed' -> tracks failed done k c -> tracks failed' done k c.
Proof. intros Hs [T1 T2 T3 T4 T5 T6]. constructor; try done. intros Hn. apply T6. set_solver. Qed.

(** The modified set when [done] is in the block, and [block] will be. *)
Record covering (failed block done : gset Z) (m : modified_set) : Prop := {
  cv_tracks : forall k c, m !! k = Some c -> tracks failed done k c /\ k ∉ block;
  cv_rest : forall k, k ∈ pool p -> k ∉ block -> m !! k = None -> k ∈ failed \/ anc k ## done;
}.

(** What happens to the counters of one descendant. *)
Definition updated (it : CTxMemPoolEntry) (desc : Z) (o : option CTxMemPoolModifiedEntry) : option CTxMemPoolModifiedEntry :=
  match o with
  | None => e ← mapTx p !! desc; less_ancestor (GetModifiedFee it) it (CTxMemPoolModifiedEntry_make e)
  | Some m => update_for_parent_inclusion it m
  end.

Lemma update_descendants_ok added it l m :
  NoDup l -> (forall y, y ∈ l -> y ∉ added -> is_Some (updated it y (m !! y))) ->
  exists m', update_descendants p added it l m = Some m'
  /\ forall y, m' !! y = if decide (y ∈ l /\ y ∉ added) then updated it y (m !! y) else m !! y.
Proof.
  revert m. induction l as [|x l IH]; intros m Hn Hl; cbn [update_descendants].
  { exists m. split; [done|]. intros y. rewrite decide_False; [done|]. by intros [?%elem_of_nil _]. }
  apply NoDup_cons in Hn as [Hx Hn]. destruct (decide (x ∈ added)) as [Ha|Ha]; cbn [mbind option_bind].
  - destruct (IH m Hn) as (m' & E & Hm); [intros y Hy; apply Hl; by right|]. exists m'. split; [done|]. intros y. rewrite Hm.
    apply decide_ext. rewrite elem_of_cons. naive_solver.
  - destruct (Hl x ltac:(left) Ha) as [c Ec]. unfold update_descendant. fold (updated it x (m !! x)). rewrite Ec. cbn [mbind option_bind].
    destruct (IH (<[x := c]> m) Hn) as (m' & E & Hm).
    { intros y Hy. rewrite lookup_insert_ne by (by intros ->). apply Hl. by right. }
    exists m'. split; [done|]. intros y. rewrite Hm. destruct (decide (y = x)) as [->|Hne].
    + rewrite decide_False by tauto. rewrite lookup_insert_eq, decide_True; [done|]. split; [left|done].
    + rewrite lookup_insert_ne by done. apply decide_ext. rewrite elem_of_cons. naive_solver.
Qed.

Lemma update_packages_ok failed block added l done m :
  added ⊆ block -> block ⊆ pool p -> (forall y i, y ∈ block -> y ∉ added -> i ∈ added -> i ∉ anc y) ->
  NoDup l -> (forall i, i ∈ l -> i ∈ added /\ i ∉ done) -> covering failed block done m ->
  exists m', update_packages p added l m = Some m' /\ covering failed block (list_to_set l ∪ done) m'.
Proof.
  intros Hab Hb Hsep. revert done m. induction l as [|i l IH]; intros done m Hn Hl V; cbn [update_packages list_to_set].
  { exists m. split; [done|]. by rewrite union_empty_l_L. }
  apply NoDup_cons in Hn as [Hi Hn]. destruct (Hl i ltac:(left)) as [Hia Hid]. assert (i ∈ pool p) as Hip by by apply Hb, Hab.
  destruct (pool_entry p C i Hip) as (it & Ei & _ & _). rewrite Ei. cbn [mbind option_bind].
  destruct (CalculateDescendants_ok p i ∅ (cs_linked p C) Hip) as (s & -> & Hs); [apply empty_subseteq|by intros x y ?%elem_of_empty|]. cbn [mbind option_bind].
  assert (forall y, y ∈ pool p -> y ∈ s <-> i ∈ anc y) as Hanc.
  { intros y Hy. rewrite Hs, (ascends p y i (cs_linked p C) Hy), (rtc_reverse (up p) (down p) y i) by apply (lk_sym p (cs_linked p C)).
    split; [intros [?%elem_of_empty|?]; done|by right]. }
  assert (forall y, y ∈ s -> y ∈ pool p) as Hsp.
  { intros y [?%elem_of_empty|Hr]%Hs; [done|]. by apply (descends_in p (cs_linked p C) i Hip), descends; [apply C| |]. }
  assert (forall y, y ∈ s -> y ∉ added -> exists c', updated it y (m !! y) = Some c' /\ tracks failed ({[i]} ∪ done) y c' /\ y ∉ block) as Hup.
  { intros y Hy Hya. pose proof (Hsp y Hy) as Hyp. pose proof (proj1 (Hanc y Hyp) Hy) as Hiy. assert (y ∉ block) as Hyb by (intros Hyb; by apply (Hsep y i Hyb Hya Hia)).
    destruct (m !! y) as [c|] eqn:Ey; cbn [updated].
    - destruct (cv_tracks _ _ _ _ V y c Ey) as [T _]. destruct (less_ancestor_ok failed done y c i it (nFee it) T Ei Hiy Hid ltac:(by right)) as (c' & E & T'). by exists c'.
    - destruct (pool_entry p C y Hyp) as (e & Ee & _ & _). rewrite Ee. cbn [mbind option_bind]. pose proof (tracks_entry failed done y e Ee (cv_rest _ _ _ _ V y Hyp Hyb Ey)) as T.
      destruct (less_ancestor_ok failed done y _ i it (GetModifiedFee it) T Ei Hiy Hid ltac:(by left)) as (c' & E & T'). by exists c'. }
  destruct (update_descendants_ok added it (set_list s) m (NoDup_set_list s)) as (m1 & -> & Hm1).
  { intros y Hy%elem_of_set_list Hya. destruct (Hup y Hy Hya) as (c' & -> & _). done. }
  cbn [mbind option_bind]. destruct (IH ({[i]} ∪ done) m1 Hn) as (m' & E & V').
  - intros j Hj. destruct (Hl j ltac:(by right)) as [? ?]. split; [done|]. rewrite not_elem_of_union, not_elem_of_singleton. split; [by intros ->|done].
  - constructor.
    + intros k c Hk. rewrite Hm1 in Hk. case_decide as Hd; rewrite elem_of_set_list in Hd.
      * destruct Hd as [Hks Hka]. destruct (Hup k Hks Hka) as (c' & Ec & T & Hkb). rewrite Ec in Hk. by injection Hk as <-.
      * destruct (cv_tracks _ _ _ _ V k c Hk) as [T Hkb]. split; [|done]. apply tracks_more; [done|]. rewrite <- Hanc by apply T. intros Hks. apply Hd. split; [done|]. by intros ?%Hab.
    + intros k Hk Hkb Hnone. rewrite Hm1 in Hnone. case_decide as Hd; rewrite elem_of_set_list in Hd.
      * destruct Hd as [Hks Hka]. destruct (Hup k Hks Hka) as (c' & Ec & _). by rewrite Ec in Hnone.
      * destruct (cv_rest _ _ _ _ V k Hk Hkb Hnone) as [?|Hdis]; [by left|right]. assert (i ∉ anc k); [|set_solver].
        rewrite <- Hanc by done. intros Hks. apply Hd. split; [done|]. by intros ?%Hab.
  - exists m'. split; [done|]. by replace ({[i]} ∪ list_to_set l ∪ done) with (list_to_set l ∪ ({[i]} ∪ done)) by set_solver.
Qed.

(** ** Lemmas: by packages *)

(** A block holds the parents of what it holds, and so all ancestors. *)
Lemma ordered_closed es x y : ordered p es -> x ∈ keys es -> rtc (step (up p)) x y -> y ∈ keys es.
Proof.
  intros [_ _ Hp] Hx Hr. induction Hr as [|a b c Hab _ IH]; [done|]. apply IH. apply list_elem_of_fmap in Hx as (e & -> & He).
  apply list_elem_of_split in He as (l1 & l2 & E). pose proof (Hp l1 e l2 E b Hab) as Hb. apply elem_of_list_to_set in Hb. rewrite E, map_app. apply elem_of_app. by left.
Qed.

Lemma block_ancestors b es x y : filled b es -> x ∈ inBlock b -> y ∈ anc x -> y ∈ inBlock b.
Proof.
  intros F Hx Hy. rewrite (filled_key b es) in * by done. pose proof (as_ordered _ _ _ (fi_assembled _ _ F)) as O. apply (ordered_closed es x y O Hx).
  apply ascends; [apply C| |done]. apply (keys_pool p es (od_stands _ _ O)). by apply elem_of_list_to_set.
Qed.

Lemma block_pool b es : filled b es -> inBlock b ⊆ pool p.
Proof. intros F. rewrite (as_inBlock _ _ _ (fi_assembled _ _ F)). apply keys_pool, (fi_assembled _ _ F). Qed.

(** [UpdatePackagesForAdded] after [added] entered the block. *)
Lemma UpdatePackagesForAdded_ok failed b es added done m :
  filled b es -> inBlock b = added ∪ done -> added ## done -> (forall x y, x ∈ done -> y ∈ anc x -> y ∈ done) ->
  covering failed (inBlock b) done m ->
  exists m', UpdatePackagesForAdded p added m = Some m' /\ covering failed (inBlock b) (inBlock b) m'.
Proof.
  intros F Hb Hd Hc V. unfold UpdatePackagesForAdded.
  destruct (update_packages_ok failed (inBlock b) added (set_list added) done m) as (m' & E & V'); try done.
  - set_solver.
  - by eapply block_pool.
  - intros y i Hy Hya Hi Hin. assert (y ∈ done) as Hyd by set_solver. pose proof (Hc y i Hyd Hin). set_solver.
  - apply NoDup_set_list.
  - intros i Hi%elem_of_set_list. split; [done|set_solver].
  - exists m'. split; [done|]. by rewrite set_list_to_set, <- Hb in V'.
Qed.

(** The state of the loop over packages. *)
Record walking (s : PackageState) (es : list CTxMemPoolEntry) : Prop := {
  wk_filled : filled (ba s) es;
  wk_covering : covering (failedTx s) (inBlock (ba s)) (inBlock (ba s)) (mapModifiedTx s);
  wk_mi : Forall (stands p) (mi s);
  wk_length : (length (mi s) <= base.size (mapTx p))%nat;
}.

Lemma modified_size s es : walking s es -> (base.size (mapModifiedTx s) <= base.size (mapTx p))%nat.
Proof.
  intros W. rewrite <- !size_dom. apply subseteq_size. intros k [c E]%elem_of_dom. by destruct (cv_tracks _ _ _ _ (wk_covering _ _ W) k c E) as [[] _].
Qed.

Lemma modified_front_ok (m : modified_set) : match modified_front m with Some c => exists k, m !! k = Some c | None => m = ∅ end.
Proof.
  unfold modified_front. destruct (heap_pop _ (map snd (map_to_list m))) as [[c r]|] eqn:E; cbn.
  - apply heap_pop_perm in E. assert (c ∈ map snd (map_to_list m)) as Hc by (rewrite E; left). apply list_elem_of_fmap in Hc as ([k c'] & -> & Hk). exists k. by apply elem_of_map_to_list.
  - apply heap_pop_none, fmap_nil_inv, map_to_list_empty_iff in E. done.
Qed.

(** What is left to do: entries not in the block, then entries of the two indices. *)
Definition work (s : PackageState) : nat :=
  base.size (pool p ∖ inBlock (ba s)) * S (base.size (mapTx p) + base.size (mapTx p)) + (length (mi s) + base.size (mapModifiedTx s)).

(** The package under consideration has the counters it should, and is taken from one of the indices. *)
Record considered (s : PackageState) (c : CTxMemPoolModifiedEntry) (fUsingModified : bool) (rest : list CTxMemPoolEntry) : Prop := {
  co_tracks : tracks (failedTx s) (inBlock (ba s)) (iter c) c;
  co_new : iter c ∉ inBlock (ba s);
  co_from : if fUsingModified then mapModifiedTx s !! iter c = Some c /\ rest = mi s
            else iter c ∉ failedTx s /\ exists e, mi s = e :: rest;
}.

Lemma choose_ok s es :
  walking s es -> ~ (mi s = [] /\ mapModifiedTx s = ∅) -> match mi s with e :: _ => SkipMapTxEntry (e_hash e) s = false | [] => True end ->
  exists c used rest, choose s = Some (c, used, rest) /\ considered s c used rest.
Proof.
  intros W Hne Hskip. pose proof (modified_front_ok (mapModifiedTx s)) as Hf. pose proof (wk_covering _ _ W) as V. unfold choose.
  assert (forall c rest, (exists k, mapModifiedTx s !! k = Some c) -> rest = mi s -> considered s c true rest) as Hmod.
  { intros c rest (k & Ek) ->. destruct (cv_tracks _ _ _ _ V k c Ek) as [T Hk]. pose proof (tk_iter _ _ _ _ T) as Hi. subst k. by constructor. }
  destruct (mi s) as [|e rest] eqn:Em.
  { destruct (modified_front (mapModifiedTx s)) as [c|]; [|by destruct Hne]. exists c, true, []. split; [done|]. by apply Hmod. }
  assert (considered s (CTxMemPoolModifiedEntry_make e) false rest) as Hnew.
  { pose proof (wk_mi _ _ W) as Hs. rewrite Em in Hs. apply Forall_cons in Hs as [He _]. unfold SkipMapTxEntry in Hskip.
    rewrite !orb_false_iff, !bool_decide_eq_false in Hskip. destruct Hskip as [[H1 H2] H3]. apply not_elem_of_dom in H1. constructor; cbn [iter CTxMemPoolModifiedEntry_make].
    - apply tracks_entry; [done|]. destruct (cv_rest _ _ _ _ V (e_hash e) (stands_pool p e He) H2 H1); [done|by right].
    - done.
    - split; [done|]. by exists e. }
  destruct (modified_front (mapModifiedTx s)) as [c|]; [|by eexists _, _, _].
  destruct (CompareModifiedEntry c _); [|by eexists _, _, _]. exists c, true, (e :: rest). split; [done|]. by apply Hmod.
Qed.

(** A package that is not taken leaves less to do. *)
Lemma drop_failed_ok s es c used rest n :
  walking s es -> considered s c used rest ->
  walking (drop_failed used (iter c) rest n s) es /\ (work (drop_failed used (iter c) rest n s) < work s)%nat.
Proof.
  intros W [T Hn Hfrom]. pose proof (wk_mi _ _ W) as Hmi. pose proof (wk_length _ _ W) as Hl. pose proof (wk_covering _ _ W) as [V1 V2]. destruct used; cbn [drop_failed].
  - destruct Hfrom as [Ec ->]. split.
    + constructor; cbn [ba mapModifiedTx failedTx mi]; [by apply W| |done|done]. constructor.
      * intros k c' [_ Ek]%lookup_delete_Some. destruct (V1 k c' Ek) as [T' ?]. split; [|done]. eapply tracks_failed; [|done]. set_solver.
      * intros k Hk Hkb Ek. destruct (decide (k = iter c)) as [->|Hne]; [left; set_solver|]. rewrite lookup_delete_ne in Ek by done. destruct (V2 k Hk Hkb Ek); [left; set_solver|by right].
    + unfold work. cbn [ba mapModifiedTx mi]. rewrite map_size_delete, Ec. assert (base.size (mapModifiedTx s) <> 0)%nat by (intros E%map_size_empty_inv; by rewrite E, lookup_empty in Ec). lia.
  - destruct Hfrom as (_ & e & E). rewrite E in *. cbn [length] in Hl. apply Forall_cons in Hmi as [_ Hmi]. split.
    + constructor; cbn [ba mapModifiedTx failedTx mi]; [by apply W|by apply W|done|lia].
    + unfold work. cbn [ba mapModifiedTx mi]. rewrite E. cbn [length]. lia.
Qed.

Lemma entries_of_ok s : s ⊆ pool p -> exists es, entries_of p s = Some es /\ Forall (stands p) es /\ keys es = set_list s.
Proof.
  intros Hs. unfold entries_of. assert (forall k, k ∈ set_list s -> k ∈ pool p) as Hl by (intros k Hk%elem_of_set_list; by apply Hs).
  induction (set_list s) as [|k l IH]; [by exists []|]. destruct IH as (es & E & H1 & H2); [intros j Hj; apply Hl; by right|].
  destruct (pool_entry p C k (Hl k ltac:(left))) as (e & Ee & Hk & He). exists (e :: es). cbn [mapM]. split_and!.
  - rewrite Ee. cbn [mbind option_bind]. by rewrite E.
  - by constructor.
  - cbn. by rewrite Hk, H2.
Qed.

(** A parent has fewer ancestors. *)
Lemma parent_count x y : stands p x -> y ∈ up p (e_hash x) ->
  exists e, mapTx p !! y = Some e /\ nCountWithAncestors e < nCountWithAncestors x.
Proof.
  intros Hx Hy. pose proof (stands_pool p x Hx) as Hxp. pose proof (lk_up p (cs_linked p C) _ _ Hy) as Hyp. destruct (pool_entry p C y Hyp) as (e & Ee & _ & _).
  exists e. split; [done|]. pose proof (ac_anc _ (cs_accounted p C)) as A. pose proof (A y e Ee) as P1. pose proof (A _ x Hx) as P2. unfold anc_part in P1, P2.
  injection P1 as -> _. injection P2 as -> _. unfold set_size. apply inj_lt, subset_size. split.
  - intros z Hz. apply ascends; [apply C|done|]. apply (ascends p y z (cs_linked p C) Hyp) in Hz. by eapply rtc_l.
  - intros Hs. assert (e_hash x ∈ anc y) as Hin by (apply Hs; by apply anc_pool). apply (ascends p y _ (cs_linked p C) Hyp) in Hin.
    apply (cs_acyclic p C (e_hash x)). by apply tc_rtc_iff; exists y.
Qed.

(** A package in the order of its ancestor counts goes into the block. *)
Lemma add_package b es m package :
  filled b es -> package ⊆ pool p -> package ## inBlock b -> (forall x y, x ∈ package -> y ∈ up p x -> y ∈ package \/ y ∈ inBlock b) ->
  (forall e, stands p e -> e_hash e ∈ package -> final e = true) ->
  nBlockSize b + sum_over sz package < nBlockMaxSize -> nBlockSigOps b + sum_over sg package < MaxBlockSigOps fDIP0001ActiveAtTip ->
  exists l b' m', SortForBlock p package = Some l /\ add_sorted l b m = Some (b', m') /\ filled b' (es ++ l)
  /\ inBlock b' = package ∪ inBlock b /\ forall k, m' !! k = if decide (k ∈ package) then None else m !! k.
Proof.
  intros F Hp Hd Hup Hfin H1 H2. unfold SortForBlock. destruct (entries_of_ok package Hp) as (es0 & -> & Hs0 & Hk0). cbn [mbind option_bind].
  set (l := sort_by CompareTxIterByAncestorCount es0). pose proof (sort_by_perm CompareTxIterByAncestorCount es0) as P. fold l in P.
  assert (Forall (stands p) l) as Hs by (by rewrite P).
  assert (forall k, k ∈ keys l <-> k ∈ package) as Hk by (intros k; by rewrite P, Hk0, elem_of_set_list).
  assert (NoDup (keys l)) as Hn by (rewrite P, Hk0; apply NoDup_set_list).
  assert (list_to_set (keys l) = package) as Hset by (apply set_eq; intros k; by rewrite elem_of_list_to_set).
  destruct F as [A Ff L]. pose proof (as_ordered _ _ _ A) as [Os On Op]. pose proof (as_inBlock _ _ _ A) as Hb.
  destruct (add_sorted_ok p C R l b es m A Hs) as (b' & E & A').
  - rewrite map_app. apply NoDup_app. split_and!; [done| |done]. intros k Hk1 Hk2. apply (Hd k); [by apply Hk|]. rewrite Hb. by apply elem_of_list_to_set.
  - intros l1 e l2 El y Hy. assert (stands p e) as He by (apply (proj1 (Forall_forall _ _) Hs); rewrite El; apply elem_of_app; right; left).
    assert (e_hash e ∈ package) as Hep by (apply Hk; rewrite El, map_app; apply elem_of_app; right; left).
    rewrite map_app, list_to_set_app_L, <- Hb. destruct (Hup _ y Hep Hy) as [Hyp|?]; [|set_solver]. apply elem_of_union. right. apply elem_of_list_to_set.
    apply Hk in Hyp. rewrite El, map_app in Hyp. apply elem_of_app in Hyp as [?|Hyp]; [done|]. destruct (parent_count e y He Hy) as (ey & Ey & Hlt).
    exfalso. change (keys (e :: l2)) with (e_hash e :: keys l2) in Hyp. apply elem_of_cons in Hyp as [->|Hyp].
    + rewrite He in Ey. injection Ey as <-. lia.
    + apply list_elem_of_fmap in Hyp as (ey' & -> & Hl2). assert (stands p ey') as Hy' by (apply (proj1 (Forall_forall _ _) Hs); rewrite El; apply elem_of_app; right; by right).
      rewrite Hy' in Ey. injection Ey as ->. pose proof (sorted_counts es0 l1 e l2 ey El Hl2). lia.
  - assert (sum_of nTxSize l = sum_over sz package /\ sum_of sigOpCount l = sum_over sg package) as [Es Eg].
    { rewrite !(sum_of_keys p _ l Hs Hn), Hset. done. }
    eexists l, b', _. split_and!; [done|exact E| | |].
    + constructor; [done| |].
      * apply Forall_app. split; [done|]. apply Forall_forall. intros e He. apply Hfin; [exact (proj1 (Forall_forall _ _) Hs e He)|]. apply Hk. apply list_elem_of_fmap. eauto.
      * right. rewrite (as_nBlockSize _ _ _ A'), (as_nBlockSigOps _ _ _ A'), !sum_of_app, Es, Eg. rewrite (as_nBlockSize _ _ _ A) in H1. rewrite (as_nBlockSigOps _ _ _ A) in H2. lia.
    + rewrite (as_inBlock _ _ _ A'), map_app, list_to_set_app_L, Hset, <- Hb. apply union_comm_L.
    + intros k. transitivity (if decide (k ∈ keys l) then None else m !! k); [|apply decide_ext, Hk]. clear. revert m. induction l as [|e l IH]; intros m; cbn [foldl map].
      * by rewrite decide_False by apply not_elem_of_nil.
      * rewrite IH. destruct (decide (k ∈ keys l)); [by rewrite decide_True by (by right)|]. destruct (decide (k = e_hash e)) as [->|Hne].
        -- by rewrite lookup_delete_eq, decide_True by left.
        -- rewrite lookup_delete_ne, decide_False by (done || by intros [?|?]%elem_of_cons). done.
Qed.

Hypothesis M : 1000 <= nBlockMaxSize < 2 ^ 32.

(** The counters of an entry within a package that fits. *)
Lemma TestPackage_ok s es c used rest :
  walking s es -> considered s c used rest ->
  TestPackage nBlockMaxSize fDIP0001ActiveAtTip (mod_nSizeWithAncestors c) (mod_nSigOpCountWithAncestors c) (ba s) = true ->
  let package := anc (iter c) ∖ inBlock (ba s) in
  nBlockSize (ba s) + sum_over sz package < nBlockMaxSize /\ nBlockSigOps (ba s) + sum_over sg package < MaxBlockSigOps fDIP0001ActiveAtTip.
Proof.
  intros W [T _ _] E. pose proof (wk_filled _ _ W) as [A _ L]. pose proof (as_ordered _ _ _ A) as O. destruct (filled_bounds p C R es (od_stands _ _ O) (od_nodup _ _ O)) as (B1 & B2 & _).
  pose proof (tk_size _ _ _ _ T) as S1. pose proof (tk_sig _ _ _ _ T) as S2. destruct (anc_pool _ (tk_pool _ _ _ _ T)) as [_ Ha].
  assert (0 <= sum_over sz (anc (iter c) ∖ inBlock (ba s)) /\ 0 <= sum_over sg (anc (iter c) ∖ inBlock (ba s))) as [N1 N2].
  { split; apply sum_over_nonneg; intros x Hx; destruct (sizes_nonneg x); [|lia| |lia]; apply Ha; set_solver. }
  assert (0 <= nBlockSigOps (ba s) < 2 ^ 31) as B3.
  { rewrite (as_nBlockSigOps _ _ _ A) in *. destruct L as [->|L]; [cbn; lia|]. assert (MaxBlockSigOps fDIP0001ActiveAtTip = 200000) by (by destruct fDIP0001ActiveAtTip). lia. }
  assert (0 <= nBlockSize (ba s) < 2 ^ 32) as B4.
  { rewrite (as_nBlockSize _ _ _ A) in *. destruct L as [->|L]; [cbn; lia|]. lia. }
  unfold TestPackage in E. rewrite (u64_id (nBlockSize (ba s) + _)) in E by lia. unfold u32 in E. rewrite Z.mod_small in E by lia. rewrite !Z.geb_leb in E.
  destruct (Z.leb_spec nBlockMaxSize (nBlockSize (ba s) + mod_nSizeWithAncestors c)); [done|].
  destruct (Z.leb_spec (MaxBlockSigOps fDIP0001ActiveAtTip) (nBlockSigOps (ba s) + mod_nSigOpCountWithAncestors c)); [done|]. cbn zeta. lia.
Qed.

Lemma GetFee_some n : n < 2 ^ 63 -> exists f, GetFee blockMinFeeRate n = Some f.
Proof. intros Hn. unfold GetFee. destruct (Z.leb_spec n (2 ^ 63 - 1)); [by eexists|lia]. Qed.

(** The ancestors of an entry that are not in the block, and the entry. *)
Lemma package_of e b : stands p e -> e_hash e ∉ inBlock b ->
  exists t, CalculateMemPoolAncestors p e ∅ no_limits false = Some (t, None) /\ {[e_hash e]} ∪ onlyUnconfirmed t b = anc (e_hash e) ∖ inBlock b.
Proof.
  intros He Hb. pose proof (stands_pool p e He) as Hk. pose proof (bd_entry _ (cs_bounded p C) _ _ He) as [Hpos _].
  destruct (filled_bounds p C R [e] ltac:(by repeat constructor) ltac:(apply NoDup_singleton)) as (G1 & _). cbn [sum_of foldr] in G1.
  assert (forall y, y ∈ anc (e_hash e) ∖ {[e_hash e]} <-> tc (step (up p)) (e_hash e) y) as Ht.
  { intros y. rewrite elem_of_difference, not_elem_of_singleton, (ascends p _ y (cs_linked p C) Hk), rtc_tc_iff. split; [intros [[->|?] ?]; done|].
    intros Hy. split; [by right|]. intros ->. by apply (cs_acyclic p C (e_hash e)). }
  exists (anc (e_hash e) ∖ {[e_hash e]}). split.
  - apply (ancestors_unlimited p (e_hash e)); [apply linked_up_ok, C|apply small_of_consistent; [done|lia]|done|done|exact Ht].
  - destruct (anc_pool _ Hk) as [Hin _]. unfold onlyUnconfirmed. apply set_eq. intros y. destruct (decide (y = e_hash e)) as [->|Hne]; set_solver.
Qed.

(** One round: the loop ends with the block, or goes on with less to do. *)
Lemma package_step_ok s es : walking s es ->
  exists r, package_step p nBlockMaxSize blockMinFeeRate nHeight nLockTimeCutoff fDIP0001ActiveAtTip s = Some r
  /\ match r with inl b => filled b es | inr s' => (exists es', walking s' (es ++ es')) /\ (work s' < work s)%nat end.
Proof.
  intros W. pose proof (wk_filled _ _ W) as F. unfold package_step.
  destruct (bool_decide (mi s = []) && bool_decide (mapModifiedTx s = ∅)) eqn:Eend; [by exists (inl (ba s))|].
  assert (~ (mi s = [] /\ mapModifiedTx s = ∅)) as Hne by (intros [H1 H2]; by rewrite !bool_decide_true in Eend).
  destruct (match mi s with e :: _ => SkipMapTxEntry (e_hash e) s | [] => false end) eqn:Eskip.
  { destruct (mi s) as [|e rest] eqn:Em; [done|]. eexists. split; [reflexivity|]. pose proof (wk_mi _ _ W) as Hs. pose proof (wk_length _ _ W) as Hl. rewrite Em in Hs, Hl.
    apply Forall_cons in Hs as [_ Hs]. cbn [length] in Hl. split.
    - exists []. rewrite app_nil_r. constructor; cbn [ba mapModifiedTx failedTx mi tail]; [done|by apply W|done|lia].
    - unfold work. cbn [ba mapModifiedTx mi tail]. rewrite Em. cbn [length]. lia. }
  destruct (choose_ok s es W Hne) as (c & used & rest & -> & K); [by destruct (mi s)|]. cbn [mbind option_bind]. pose proof (co_tracks _ _ _ _ K) as T.
  rewrite decide_False by apply K. destruct (GetFee_some (mod_nSizeWithAncestors c)) as [f ->]; [apply T|]. cbn [mbind option_bind].
  assert (forall n, exists r, Some (inr (drop_failed used (iter c) rest n s) : BlockAssembler + PackageState) = Some r
    /\ match r with inl b => filled b es | inr s' => (exists es', walking s' (es ++ es')) /\ (work s' < work s)%nat end) as Hdrop.
  { intros n. eexists. split; [reflexivity|]. destruct (drop_failed_ok s es c used rest n W K) as [W' Hw]. split; [|done]. exists []. by rewrite app_nil_r. }
  destruct (_ <? f); [by exists (inl (ba s))|]. destruct (TestPackage _ _ _ _ (ba s)) eqn:Et; cbn [negb]; [|destruct ((nConsecutiveFailed s + 1 >? _) && _); [by exists (inl (ba s))|apply Hdrop]].
  destruct (pool_entry p C (iter c) (tk_pool _ _ _ _ T)) as (e & -> & Hk & He). cbn [mbind option_bind].
  destruct (package_of e (ba s) He) as (t & -> & Ep); [rewrite Hk; apply K|]. cbn [mbind option_bind]. rewrite Hk in Ep. rewrite Ep.
  destruct (TestPackage_ok s es c used rest W K Et) as [L1 L2]. set (package := anc (iter c) ∖ inBlock (ba s)) in *.
  destruct (anc_pool _ (tk_pool _ _ _ _ T)) as [Hself Ha]. assert (package ⊆ pool p) as Hpp by set_solver.
  unfold TestPackageTransactions. destruct (entries_of_ok package Hpp) as (es1 & -> & Hs1 & Hk1). cbn [mbind option_bind].
  destruct (forallb _ es1) eqn:Ef; cbn [negb]; [|apply Hdrop].
  destruct (add_package (ba s) es (mapModifiedTx s) package F Hpp) as (l & b' & m' & -> & Ea & F' & Hb' & Hm'); [set_solver| | |done|done|].
  { intros x y [Hx Hxb]%elem_of_difference Hy. destruct (decide (y ∈ inBlock (ba s))); [by right|left]. apply elem_of_difference. split; [|done].
    apply ascends; [apply C|apply T|]. eapply rtc_r; [|exact Hy]. by apply (ascends p _ x (cs_linked p C) (tk_pool _ _ _ _ T)). }
  { intros e' He' Hin. rewrite forallb_forall in Ef. apply Ef. apply list_elem_of_In. rewrite <- (elem_of_set_list (e_hash e') package), <- Hk1 in Hin.
    apply list_elem_of_fmap in Hin as (e2 & E2 & Hin). assert (stands p e2) as Hs2 by exact (proj1 (Forall_forall _ _) Hs1 e2 Hin).
    unfold stands in *. rewrite <- E2, He' in Hs2. by injection Hs2 as ->. }
  cbn [mbind option_bind]. rewrite Ea. cbn [mbind option_bind]. pose proof (wk_covering _ _ W) as [V1 V2].
  destruct (UpdatePackagesForAdded_ok (failedTx s) b' (es ++ l) package (inBlock (ba s)) m' F' Hb') as (m2 & -> & V'); [set_solver| | |].
  { intros x y Hx Hy. by eapply block_ancestors. }
  { constructor.
    - intros k c' E. rewrite Hm' in E. case_decide as Hkp; [done|]. destruct (V1 k c' E). split; [done|]. rewrite Hb'. set_solver.
    - intros k Hkp Hkb E. rewrite Hb' in Hkb. rewrite Hm', decide_False in E by set_solver. apply V2; [done|set_solver|done]. }
  cbn [mbind option_bind]. eexists. split; [reflexivity|].
  assert (Forall (stands p) rest /\ (length rest <= base.size (mapTx p))%nat) as [Hr Hrl].
  { pose proof (wk_mi _ _ W) as Hmi. pose proof (wk_length _ _ W) as Hl. pose proof (co_from _ _ _ _ K) as Hfrom. destruct used; [by destruct Hfrom as [_ ->]|].
    destruct Hfrom as (_ & e0 & E0). rewrite E0 in Hmi, Hl. apply Forall_cons in Hmi as [_ Hmi]. cbn [length] in Hl. split; [done|lia]. }
  assert (walking {| ba := b'; mapModifiedTx := m2; failedTx := failedTx s; mi := rest; nConsecutiveFailed := 0 |} (es ++ l)) as W' by (constructor; done).
  split; [by exists l|]. pose proof (modified_size _ _ W') as Hms. unfold work. cbn [ba mapModifiedTx mi] in *.
  assert (base.size (pool p ∖ inBlock b') < base.size (pool p ∖ inBlock (ba s)))%nat as Hlt; [|nia].
  apply subset_size. rewrite Hb'. pose proof (co_new _ _ _ _ K). split; [set_solver|]. intros Hs. specialize (Hs (iter c)). set_solver.
Qed.

Lemma package_loop_ok fuel s es : walking s es -> (work s < fuel)%nat ->
  exists b es', package_loop p nBlockMaxSize blockMinFeeRate nHeight nLockTimeCutoff fDIP0001ActiveAtTip fuel s = Some b /\ filled b es'.
Proof.
  revert s es. induction fuel as [|fuel IH]; intros s es W Hf; [lia|]. cbn [package_loop].
  destruct (package_step_ok s es W) as ([b|s'] & -> & Hr); cbn [mbind option_bind]; [by exists b, es|]. destruct Hr as ((es' & W') & Hw). apply (IH s' (es ++ es') W'). lia.
Qed.

(** The state the walk over the packages starts in. *)
Definition start_packages (b : BlockAssembler) (m : modified_set) : PackageState :=
  {| ba := b; mapModifiedTx := m; failedTx := ∅; mi := ancestor_index p; nConsecutiveFailed := 0 |}.

Lemma start_walking b es : filled b es -> exists m, UpdatePackagesForAdded p (inBlock b) ∅ = Some m /\ walking (start_packages b m) es.
Proof.
  intros F. destruct (UpdatePackagesForAdded_ok ∅ b es (inBlock b) ∅ ∅ F) as (m & E & V); [by rewrite union_empty_r_L|set_solver|by intros x y ?%elem_of_empty| |].
  { constructor; [by intros k c Ek; rewrite lookup_empty in Ek|]. intros k _ _ _. right. set_solver. }
  pose proof (sort_by_perm CompareTxMemPoolEntryByAncestorFee (map snd (map_to_list (mapTx p)))) as P.
  exists m. split; [done|]. constructor; cbn [ba mapModifiedTx failedTx mi start_packages]; [done|done| |]; unfold ancestor_index; rewrite P.
  - apply Forall_forall. intros e ([k e'] & -> & Hk%elem_of_map_to_list)%list_elem_of_fmap. cbn. unfold stands. by rewrite (cs_key p C k e' Hk).
  - by rewrite length_map, length_map_to_list.
Qed.

Lemma addPackageTxs_ok b es : filled b es -> exists b' es', addPackageTxs p nBlockMaxSize blockMinFeeRate nHeight nLockTimeCutoff fDIP0001ActiveAtTip b = Some b' /\ filled b' es'.
Proof.
  intros F. destruct (start_walking b es F) as (m & E & W). unfold addPackageTxs. rewrite E. cbn [mbind option_bind]. fold (start_packages b m).
  apply (package_loop_ok _ _ es W). pose proof (modified_size _ _ W). pose proof (wk_length _ _ W). unfold work.
  pose proof (subseteq_size (pool p ∖ inBlock (ba (start_packages b m))) (pool p) ltac:(set_solver)) as Hle. rewrite size_dom in Hle. nia.
Qed.

Lemma select_ok priority_fields o : exists b es, select_transactions p priority_fields nBlockMaxSize blockMinFeeRate nHeight nLockTimeCutoff fDIP0001ActiveAtTip o = Some b /\ filled b es.
Proof. unfold select_transactions. destruct (addPriorityTxs_ok priority_fields o) as (b & es & -> & F). cbn [mbind option_bind]. by eapply addPackageTxs_ok. Qed.

(** A round of the walk that goes on. *)
Definition round (s s' : PackageState) : Prop :=
  package_step p nBlockMaxSize blockMinFeeRate nHeight nLockTimeCutoff fDIP0001ActiveAtTip s = Some (inr s').

Lemma rounds_walking s s' es : walking s es -> rtc round s s' -> exists es', walking s' es'.
Proof.
  intros W Hr. revert es W. induction Hr as [s|s s1 s2 Hs _ IH]; intros es W; [by exists es|]. destruct (package_step_ok s es W) as (r & E & Hr).
  unfold round in Hs. rewrite Hs in E. injection E as <-. destruct Hr as ((es' & W') & _). by eapply IH.
Qed.

End Choosing.

(** ** Properties *)

(** C15: A choice of transactions for a block: from any consistent pool with room for its sums of fees, by whatever order
    of iteration, priorities and options, the choice ends and no assertion fails; the transactions are distinct
    entries of the pool, each after those it spends outputs of, all final at the height and time; the lists and sums
    of the template are theirs, beside the coinbase; and if there are any, size and signature operations stay below
    the limits. *)
Theorem select_transactions_sound `{SetOrder} p priority_fields nBlockMaxSize blockMinFeeRate nHeight nLockTimeCutoff fDIP0001ActiveAtTip blockprioritysize :
  consistent p -> fee_room p -> 1000 <= nBlockMaxSize < 2 ^ 32 ->
  exists b es, select_transactions p priority_fields nBlockMaxSize blockMinFeeRate nHeight nLockTimeCutoff fDIP0001ActiveAtTip blockprioritysize = Some b
  /\ assembled p b es
  /\ (forall l1 e l2 i, es = l1 ++ e :: l2 -> i ∈ vin (e_tx e) -> op_hash (prevout i) ∈ pool p -> op_hash (prevout i) ∈ keys l1)
  /\ Forall (fun e => IsFinalTx (e_tx e) nHeight nLockTimeCutoff = true) es
  /\ (es = [] \/ nBlockSize b < nBlockMaxSize /\ nBlockSigOps b < MaxBlockSigOps fDIP0001ActiveAtTip).
Proof.
  intros C R M. destruct (select_ok p C R nBlockMaxSize blockMinFeeRate nHeight nLockTimeCutoff fDIP0001ActiveAtTip M priority_fields blockprioritysize) as (b & es & E & [A F L]).
  exists b, es. split_and!; try done. intros l1 e l2 i El Hi Hp. pose proof (as_ordered _ _ _ A) as [Os _ Op]. pose proof (Op l1 e l2 El) as Hu.
  assert (stands p e) as He by (apply (proj1 (Forall_forall _ _) Os); rewrite El; apply elem_of_app; right; left).
  rewrite (cs_parents p C _ e He) in Hu. assert (op_hash (prevout i) ∈ pool_parents p (e_tx e)) as Hin.
  { unfold pool_parents, input_hashes. apply elem_of_intersection. split; [|done]. apply elem_of_list_to_set, list_elem_of_fmap. eauto. }
  specialize (Hu _ Hin). by apply elem_of_list_to_set in Hu.
Qed.

(** C16: The package considered in any round of the walk is an entry that is not in the block, with counters for itself
    and its ancestors that are not in the block: its size and signature operations are never counted short, and when
    it did not fail before they are exact - the fees too, as long as no fee has a delta. *)
Theorem package_counters `{SetOrder} p priority_fields nBlockMaxSize blockMinFeeRate nHeight nLockTimeCutoff fDIP0001ActiveAtTip blockprioritysize b m s :
  consistent p -> fee_room p -> 1000 <= nBlockMaxSize < 2 ^ 32 ->
  addPriorityTxs p priority_fields nBlockMaxSize nHeight nLockTimeCutoff fDIP0001ActiveAtTip blockprioritysize resetBlock = Some b ->
  UpdatePackagesForAdded p (inBlock b) ∅ = Some m ->
  rtc (round p nBlockMaxSize blockMinFeeRate nHeight nLockTimeCutoff fDIP0001ActiveAtTip) (start_packages p b m) s ->
  ~ (mi s = [] /\ mapModifiedTx s = ∅) -> match mi s with e :: _ => SkipMapTxEntry (e_hash e) s = false | [] => True end ->
  exists c used rest, choose s = Some (c, used, rest) /\ iter c ∈ pool p ∖ inBlock (ba s)
  /\ let package := closure (up p) (pool p) (iter c) ∖ inBlock (ba s) in
     sum_over (size_of (mapTx p)) package <= mod_nSizeWithAncestors c /\ sum_over (sig_of (mapTx p)) package <= mod_nSigOpCountWithAncestors c
     /\ (iter c ∉ failedTx s -> mod_nSizeWithAncestors c = sum_over (size_of (mapTx p)) package /\ mod_nSigOpCountWithAncestors c = sum_over (sig_of (mapTx p)) package
          /\ (no_deltas p -> mod_nModFeesWithAncestors c = sum_over (fee_of (mapTx p)) package)).
Proof.
  intros C R M E1 E2 Hr Hne Hskip. destruct (addPriorityTxs_ok p C R nBlockMaxSize nHeight nLockTimeCutoff fDIP0001ActiveAtTip priority_fields blockprioritysize) as (b' & es & E & F).
  rewrite E1 in E. injection E as <-. destruct (start_walking p C R nBlockMaxSize nHeight nLockTimeCutoff fDIP0001ActiveAtTip M b es F) as (m' & E & W). rewrite E2 in E. injection E as <-.
  destruct (rounds_walking p C R nBlockMaxSize blockMinFeeRate nHeight nLockTimeCutoff fDIP0001ActiveAtTip M _ _ _ W Hr) as (es' & W').
  destruct (choose_ok p C R nBlockMaxSize nHeight nLockTimeCutoff fDIP0001ActiveAtTip s es' W' Hne Hskip) as (c & used & rest & Ec & [[T1 T2 T3 T4 T5 T6] K _]).
  exists c, used, rest. split; [done|]. split; [by apply elem_of_difference|]. cbn zeta. split_and!; [apply T3|apply T4|done].
Qed.

(** ** Witnesses *)

(** Sets are gone through by hash, as the code does. *)
#[local] Instance in_hash_order : SetOrder.
Proof. exists (fun s => merge_sort Z.le (elements s)). intros s. apply merge_sort_Permutation. Defined.

(** Priorities that grow with the hash, the delta of the third entry apart. *)
Definition sample_priorities (h : Z) : PriorityFields :=
  {| entryPriority := double_of_int (h * 60000000); inChainInputValue := 0; nModSize := 100; priorityDelta := if h =? 3 then Some (double_of_int 7) else None |}.

(** Room for the fees of a concrete pool. *)
Definition fee_room_b (p : CTxMemPool) : bool :=
  2 * sum_over (fun x => Z.abs (fee_of (mapTx p) x)) (pool p) + sum_over (fun x => Z.abs (raw_fee (mapTx p) x)) (pool p) <? 2 ^ 63.

Lemma fee_room_b_ok p : fee_room_b p = true -> fee_room p.
Proof. apply Z.ltb_lt. Qed.

Definition template_hashes (b : BlockAssembler) : list (option Z) := map (fmap tx_hash) (vtx b).

(** The third entry pays most; then comes the second, with its parent before it. *)
Lemma select_transactions_sound_witness :
  exists b, select_transactions pool3 sample_priorities 100000 {| nSatoshisPerK := 100 |} 100 0 true (Some 0) = Some b
  /\ template_hashes b = [None; Some 3; Some 1; Some 2] /\ nFees b = 600 /\ nBlockSize b < 100000.
Proof.
  destruct (select_transactions_sound pool3 sample_priorities 100000 {| nSatoshisPerK := 100 |} 100 0 true (Some 0)) as (b & es & E & A & _ & _ & L).
  - apply pools_consistent.
  - apply fee_room_b_ok. by vm_compute.
  - lia.
  - exists b. assert ((fun b => (template_hashes b, nFees b)) <$> select_transactions pool3 sample_priorities 100000 {| nSatoshisPerK := 100 |} 100 0 true (Some 0)
      = Some ([None; Some 3; Some 1; Some 2], 600)) as Ev by (by vm_compute).
    rewrite E in Ev. cbn in Ev. injection Ev as E1 E2. split; [exact E|]. split; [exact E1|]. split; [exact E2|].
    destruct L as [->|[L _]]; [|exact L]. pose proof (as_vtx _ _ _ A) as Hv. unfold template_hashes in E1. rewrite Hv in E1. by cbn in E1.
Defined.

(** Rounds of the walk, run. *)
Fixpoint run_rounds (p : CTxMemPool) (n : nat) (s : PackageState) : option PackageState :=
  match n with
  | O => Some s
  | S n => match package_step p 100000 {| nSatoshisPerK := 100 |} 100 0 true s with Some (inr s') => run_rounds p n s' | _ => None end
  end.

Lemma run_rounds_ok p n s s' : run_rounds p n s = Some s' -> rtc (round p 100000 {| nSatoshisPerK := 100 |} 100 0 true) s s'.
Proof.
  revert s. induction n as [|n IH]; intros s; cbn [run_rounds]; [by intros [= ->]|].
  destruct (package_step p 100000 {| nSatoshisPerK := 100 |} 100 0 true s) as [[b|s1]|] eqn:E; [done| |done]. intros Hr. eapply rtc_l; [exact E|]. by apply IH.
Qed.

(** A parent that pays more than its child. *)
Definition tx5 : CTransaction := pay 5 [(79, 0)].
Definition tx4 : CTransaction := pay 4 [(5, 0)].
Definition pool5 : CTxMemPool := default empty_pool (addUnchecked_alone 48 (entry_of tx5) empty_pool).
Definition pool54 : CTxMemPool := default empty_pool (addUnchecked_alone 48 (entry_of tx4) pool5).

Lemma pool54_consistent : consistent pool54.
Proof.
  apply grown_consistent; [|by vm_compute]. apply grown_consistent; [apply empty_consistent|by vm_compute].
Qed.

#[local] Opaque pool5 pool54.

(** The parent is in the block and the child considered as a modified entry, by its own size and fee. *)
Lemma package_counters_witness :
  exists s c, run_rounds pool54 2 (start_packages pool54 resetBlock ∅) = Some s /\ choose s = Some (c, true, [])
  /\ iter c = 4 /\ mod_nSizeWithAncestors c = sum_over (size_of (mapTx pool54)) (closure (up pool54) (dom (mapTx pool54)) (iter c) ∖ inBlock (ba s)).
Proof.
  destruct (run_rounds pool54 2 (start_packages pool54 resetBlock ∅)) as [s|] eqn:E; [|vm_compute in E; discriminate E].
  assert ((fun s => (mi s, bool_decide (mapModifiedTx s = ∅), failedTx s, (fun x => (iter x.1.1, x.1.2, x.2)) <$> choose s)) <$> run_rounds pool54 2 (start_packages pool54 resetBlock ∅)
    = Some ([], false, ∅, Some (4, true, []))) as Ev by (by vm_compute).
  rewrite E in Ev. cbn in Ev. injection Ev as E1 E2 E3 E4.
  destruct (package_counters pool54 sample_priorities 100000 {| nSatoshisPerK := 100 |} 100 0 true (Some 0) resetBlock ∅ s) as (c & used & rest & Ec & _ & Hx).
  - apply pool54_consistent.
  - apply fee_room_b_ok. by vm_compute.
  - lia.
  - by vm_compute.
  - by vm_compute.
  - apply (run_rounds_ok pool54 2), E.
  - intros [_ Hm]. rewrite bool_decide_true in E2 by exact Hm. discriminate E2.
  - rewrite E1. exact I.
  - exists s, c. rewrite Ec in E4. cbn in E4. injection E4 as Ei Eu Er. rewrite Eu, Er in Ec. split; [reflexivity|]. split; [exact Ec|]. split; [exact Ei|].
    cbv zeta in Hx. destruct Hx as (_ & _ & Hx). assert (iter c ∉ failedTx s) as Hf by (rewrite E3; apply not_elem_of_empty).
    exact (proj1 (Hx Hf)).
Defined.

(** The deltas of ancestors after the first are not taken off a modified entry: of the fees of 900 and the delta of 50
    nothing should remain but the child's own 600. *)
Definition tx6 : CTransaction := pay 6 [(2, 0)].
Definition pool126 : CTxMemPool := default empty_pool (addUnchecked_alone 48 (entry_of tx6) pool2).
Example modified_fee_keeps_delta :
  (fun m => mod_nModFeesWithAncestors <$> m !! 6) <$> UpdatePackagesForAdded pool126 {[1; 2]} ∅ = Some (Some 650) /\ (nFee <$> mapTx pool126 !! 6) = Some 600.
Proof. by vm_compute. Qed.
