(* ===== verification/Miner.v ===== *)
(** * Making a block

    Models [CreateNewBlock], [UpdateTime] and [IncrementExtraNonce] of [src/src/miner.cpp], on the choice of transactions
    of [Assembler]; [OrderBasedOnArrivalTime] of [src/src/graph.cpp], which moves the transactions of services to the
    end of the block; the payments of [src/src/masternode-payments.cpp] that become outputs of the coinbase; and
    [FindAliasInTx] of [src/src/alias.cpp].

    [None] is an exception, a failed [assert] or the overflow of a signed integer.  The decoding of a service's payload,
    the databases of arrival times, the payee and the superblock of a height, the state of the synchronization, the hash
    of a transaction and [TestBlockValidity] are parameters. *)

From stdpp Require Import gmap sorting.
From S2P Require Import AuxPow Coins Accept Graph Chain Pow VersionBits Merkle Script Standard Amount AssetAllocation Transaction TxVerify.
From S2P Require Import Mempool MempoolRemove MempoolAdd MempoolProps Assembler Prelude.

(** ** Arrival times *)

Definition DecodeAssetAllocationTx (tx : CTransaction) : bool :=
  (tx_nVersion tx =? MINERIUM_TX_VERSION) && existsb (fun out => bool_decide (is_Some (DecodeAssetAllocationScript (scriptPubKey out)))) (vout tx).
Definition DecodeOfferTx (tx : CTransaction) : bool := existsb (fun out => bool_decide (is_Some (DecodeOfferScript (scriptPubKey out)))) (vout tx).
Definition DecodeCertTx (tx : CTransaction) : bool := existsb (fun out => bool_decide (is_Some (DecodeCertScript (scriptPubKey out)))) (vout tx).

(** [INT64_MAX], the time of a transaction without one *)
Definition no_arrival : Z := 2 ^ 63 - 1.

(** [orderedIndexes.insert]: after what has the same time. *)
Fixpoint multimap_insert {A} (t : Z) (x : A) (l : list (Z * A)) : list (Z * A) :=
  match l with
  | [] => [(t, x)]
  | (t', y) :: l => if t <? t' then (t, x) :: (t', y) :: l else (t', y) :: multimap_insert t x l
  end.

(** What becomes of a transaction: it stays, it is a service's with an arrival time, or it is dropped. *)
Inductive Place := Stays | Arrives (time : Z) | Dropped.

Section Order.
Context {V : Type} `{CCoinsView V}.

(** The payloads that [CAssetAllocation], [COffer] and [CCert] decode, and the arrival times the databases have. *)
Variable allocation_of : CTransaction -> CAssetAllocationTuple.
Variables offer_of cert_of : CTransaction -> vch.
Variable allocation_arrivals : CAssetAllocationTuple -> gmap Z Z.
Variables offer_arrivals cert_arrivals : vch -> gmap Z Z.
Variable nShareFeeBlock : Z.

(** The name of the first alias among the coins a transaction spends. *)
Fixpoint FindAliasInTx (l : list CTxIn) (inputs : CCoinsViewCache V) : option vch * CCoinsViewCache V :=
  match l with
  | [] => (None, inputs)
  | i :: l =>
      let '(prevCoins, inputs) := AccessCoin (prevout i) inputs in
      if IsSpent prevCoins then FindAliasInTx l inputs
      else match DecodeAliasScript (scriptPubKey (out prevCoins)) with
           | Some (_, vvch, _) => (Some (default [] (head vvch)), inputs)
           | None => FindAliasInTx l inputs
           end
  end.

Definition arrival (arrivalTimes : gmap Z Z) (tx : CTransaction) : Place := Arrives (default no_arrival (arrivalTimes !! tx_hash tx)).

Definition place (nHeight : Z) (tx : CTransaction) (view : CCoinsViewCache V) : Place * CCoinsViewCache V :=
  if tx_nVersion tx =? MINERIUM_TX_VERSION then
    if DecodeAssetAllocationTx tx then
      if nHeight >=? nShareFeeBlock then (arrival (allocation_arrivals (allocation_of tx)) tx, view)
      else
        let '(alias, view) := FindAliasInTx (vin tx) view in
        match alias with
        | None => (Dropped, view)
        | Some a => (arrival (allocation_arrivals ((allocation_of tx).1, a)) tx, view)
        end
    else if DecodeOfferTx tx then (arrival (offer_arrivals (offer_of tx)) tx, view)
    else if DecodeCertTx tx then (arrival (cert_arrivals (cert_of tx)) tx, view)
    else (Stays, view)
  else (Stays, view).

(** [orderedVtx] and [orderedIndexes], which holds positions; null references are dropped. *)
Fixpoint order_loop (nHeight : Z) (n : nat) (l : list (option CTransaction)) (orderedVtx : list (option CTransaction)) (orderedIndexes : list (Z * nat))
    (view : CCoinsViewCache V) : list (option CTransaction) * list (Z * nat) * CCoinsViewCache V :=
  match l with
  | [] => (orderedVtx, orderedIndexes, view)
  | None :: l => order_loop nHeight (S n) l orderedVtx orderedIndexes view
  | Some tx :: l =>
      let '(r, view) := place nHeight tx view in
      match r with
      | Stays => order_loop nHeight (S n) l (orderedVtx ++ [Some tx]) orderedIndexes view
      | Arrives time => order_loop nHeight (S n) l orderedVtx (multimap_insert time n orderedIndexes) view
      | Dropped => order_loop nHeight (S n) l orderedVtx orderedIndexes view
      end
  end.

(** The block in its new order, or [None] for [false]; the view stands on [pcoinsTip], which only fills. *)
Definition OrderBasedOnArrivalTime (nHeight : Z) (blockVtx : list (option CTransaction)) (view : CCoinsViewCache V) : option (list (option CTransaction)) :=
  let '(orderedVtx, orderedIndexes, _) := order_loop nHeight 0 blockVtx [] [] view in
  let orderedVtx := orderedVtx ++ map (fun x => default None (blockVtx !! x.2)) orderedIndexes in
  if negb (length blockVtx =? length orderedVtx)%nat then None else Some orderedVtx.

End Order.

(** ** The coinbase *)

Definition set_vout (l : list CTxOut) (tx : CTransaction) : CTransaction :=
  {| tx_nVersion := tx_nVersion tx; vin := vin tx; vout := l; nLockTime := nLockTime tx; tx_hash := tx_hash tx |}.
Definition set_scriptSigs (l : list (list Z)) (tx : CTransaction) : CTransaction :=
  {| tx_nVersion := tx_nVersion tx; vin := zip_with (fun i s => {| prevout := prevout i; scriptSig := s; nSequence := nSequence i |}) (vin tx) l;
     vout := vout tx; nLockTime := nLockTime tx; tx_hash := tx_hash tx |}.

(** [MakeTransactionRef]: the hash is computed. *)
Definition MakeTransactionRef (GetHash : CTransaction -> Z) (tx : CTransaction) : CTransaction :=
  {| tx_nVersion := tx_nVersion tx; vin := vin tx; vout := vout tx; nLockTime := nLockTime tx; tx_hash := GetHash tx |}.

(** A mutable transaction with one null input and one output. *)
Definition coinbase_base (scriptPubKeyIn : list Z) (value : Z) (sig : list Z) : CTransaction :=
  {| tx_nVersion := CURRENT_VERSION; vin := [{| prevout := {| op_hash := 0; op_n := 2 ^ 32 - 1 |}; scriptSig := sig; nSequence := SEQUENCE_FINAL |}];
     vout := [CTxOut_make value scriptPubKeyIn]; nLockTime := 0; tx_hash := 0 |}.

Definition set_nValue (v : Z) (o : CTxOut) : CTxOut := {| nValue := v; scriptPubKey := scriptPubKey o; nRounds := nRounds o |}.

(** The payments of a height: the superblock, if one is due, or the script of the masternode to pay, if one is known. *)
Record Payments := { superblock : option (list CTxOut); payee : option (list Z) }.

(** [FillBlockPayee]: the first output gets the miner's part and half of the fees, the masternode its part and the
    other half, both rounded down. *)
Definition FillBlockPayee (txNew : CTransaction) (nBlockHeight fees nShareFeeBlock : Z) (payee : option (list Z)) : option (CTransaction * option CTxOut) :=
  let nHalfFee := Z.quot fees 2 in
  match payee with
  | None => Some (txNew, None)
  | Some payee =>
      let '(nMasternodeReward, nTotalReward) := GetBlockSubsidy nBlockHeight 0 false true in
      blockReward ← checked (nTotalReward - nMasternodeReward);
      miner ← (if nBlockHeight >=? nShareFeeBlock then checked (blockReward + nHalfFee) else Some blockReward);
      masternode ← (if nBlockHeight >=? nShareFeeBlock then checked (nMasternodeReward + nHalfFee) else Some nMasternodeReward);
      let txoutMasternodeRet := CTxOut_make masternode payee in
      match vout txNew with
      | [] => None
      | o :: l => Some (set_vout (set_nValue miner o :: l ++ [txoutMasternodeRet]) txNew, Some txoutMasternodeRet)
      end
  end.

(** The coinbase, the output of the masternode and those of the superblock. *)
Definition FillBlockPayments (txNew : CTransaction) (nBlockHeight fees nShareFeeBlock : Z) (pay : Payments)
    : option (CTransaction * option CTxOut * list CTxOut) :=
  match superblock pay with
  | Some outs => Some (set_vout (vout txNew ++ outs) txNew, None, outs)
  | None => '(tx, o) ← FillBlockPayee txNew nBlockHeight fees nShareFeeBlock (payee pay); Some (tx, o, [])
  end.

(** ** The template *)

Record CBlockTemplate := {
  block : AuxPow.CBlock;
  template_vTxFees : list Z;
  template_vTxSigOps : list Z;
  txoutMasternode : option CTxOut;
  voutSuperblock : list CTxOut;
}.

Section Miner.
Context {V : Type} `{CCoinsView V} `{SetOrder}.

(** The index, its tip and the parameters of the chain, for the difficulty and the version of the block. *)
Variable mapBlocks : gmap Z CBlockIndex.
Variable pindexPrev : ptr.
Variable params : Pow.Params.
Variable outside : Z -> Z -> Z -> bool.
Variable bip9 : BIP9Params.
Variable versionbitscache : list ThresholdConditionCache.
Variables nAuxpowChainId nShareFeeBlock : Z.
Variable MineBlocksOnDemand : bool.
Variable blockversion : option Z.

(** The rest of the node: the clock, the payments of the height, whether the masternodes are known, the hash of a
    transaction, and the validity of the block on the tip. *)
Variable GetAdjustedTime : Z.
Variable payments : Z -> Payments.
Variable masternodes_synced : bool.
Variables IsInitialBlockDownload fUnitTest : bool.
Variable GetHash : CTransaction -> Z.
Variable TestBlockValidity : AuxPow.CBlock -> bool.

(** [UpdateTime] on the time and bits of a header. *)
Definition UpdateTime (nTime nBits : Z) : option (Z * Z) :=
  let nNewTime := Z.max (GetMedianTimePast mapBlocks pindexPrev + 1) GetAdjustedTime in
  let nTime := if nTime <? nNewTime then u32 nNewTime else nTime in
  if fPowAllowMinDifficultyBlocks params then
    bits ← GetNextWorkRequired mapBlocks outside pindexPrev nTime params; Some (nTime, bits)
  else Some (nTime, nBits).

(** The version: that of the deployments with the chain's number. *)
Definition template_version : option Z :=
  '(v, _) ← ComputeBlockVersion bip9 mapBlocks versionbitscache (Some pindexPrev);
  version ← SetBaseVersion v nAuxpowChainId;
  if MineBlocksOnDemand then SetBaseVersion (default (GetBaseVersion version) blockversion) nAuxpowChainId else Some version.

(** The pool, what priorities depend on, and the options of the assembler. *)
Variable mempool : CTxMemPool.
Variable priority_fields : Z -> PriorityFields.
Variable nBlockMaxSize : Z.
Variable blockMinFeeRate : CFeeRate.
Variable blockprioritysize : option Z.
Variable fDIP0001ActiveAtTip : bool.

(** [OrderBasedOnArrivalTime] with the services' decoders and databases. *)
Variable order : Z -> list (option CTransaction) -> CCoinsViewCache V -> option (list (option CTransaction)).
Variable pcoinsTip : CCoinsViewCache V.

(** The lock time cut-off. *)
Definition lock_time_cutoff (nTime : Z) : Z :=
  if negb (Z.land STANDARD_LOCKTIME_VERIFY_FLAGS LOCKTIME_MEDIAN_TIME_PAST =? 0) then GetMedianTimePast mapBlocks pindexPrev else nTime.

Definition CreateNewBlock (scriptPubKeyIn : list Z) : option CBlockTemplate :=
  prev ← mapBlocks !! pindexPrev;
  let height := Chain.nHeight prev + 1 in
  nVersion ← template_version;
  let nTime := u32 GetAdjustedTime in
  b ← select_transactions mempool priority_fields nBlockMaxSize blockMinFeeRate height (lock_time_cutoff nTime) fDIP0001ActiveAtTip blockprioritysize;
  let '(blockReward, _) := GetBlockSubsidy height 0 false false in
  value ← checked (blockReward + nFees b);
  sig ← push_opcode (push_int64 [] height) OP_0;
  let coinbaseTx := coinbase_base scriptPubKeyIn value sig in
  if negb MineBlocksOnDemand && (height >? 1) && negb IsInitialBlockDownload && negb fUnitTest && negb masternodes_synced then None
  else
    '(coinbaseTx, txoutMasternode, voutSuperblock) ← FillBlockPayments coinbaseTx height (nFees b) nShareFeeBlock (payments height);
    let coinbase := MakeTransactionRef GetHash coinbaseTx in
    fee0 ← checked (- nFees b);
    vtx ← order height (<[0%nat := Some coinbase]> (vtx b)) pcoinsTip;
    '(nTime, _) ← UpdateTime nTime 0;
    nBits ← GetNextWorkRequired mapBlocks outside pindexPrev nTime params;
    txs ← mapM id vtx;
    first ← head txs;
    let header := {| hd_nVersion := nVersion; hd_hashPrevBlock := pindexPrev; hd_hashMerkleRoot := 0; hd_nTime := nTime; hd_nBits := nBits; hd_nNonce := 0 |} in
    let block := {| header := {| pure := header; auxpow := None |}; AuxPow.vtx := txs |} in
    if negb (TestBlockValidity block) then None
    else Some {| block := block; template_vTxFees := <[0%nat := fee0]> (vTxFees b);
                 template_vTxSigOps := <[0%nat := GetLegacySigOpCount first]> (vTxSigOps b);
                 txoutMasternode := txoutMasternode; voutSuperblock := voutSuperblock |}.

(** ** The extra nonce *)

Variable Hash : Z -> Z -> Z.
Variable COINBASE_FLAGS : list Z.

(** The static [hashPrevBlock] and the counter of the caller. *)
Record ExtraNonce := { en_hashPrevBlock : Z; nExtraNonce : Z }.

Definition IncrementExtraNonce (b : AuxPow.CBlock) (s : ExtraNonce) : option (AuxPow.CBlock * ExtraNonce) :=
  let prevHash := hd_hashPrevBlock (pure (header b)) in
  let n := if en_hashPrevBlock s =? prevHash then nExtraNonce s else 0 in
  let n := u32 (n + 1) in
  prev ← mapBlocks !! pindexPrev;
  let height := u32 (Chain.nHeight prev + 1) in
  match AuxPow.vtx b with
  | [] => None
  | txCoinbase :: txs =>
      i ← head (vin txCoinbase);
      let sig := push_data (push_int64 [] height) (scriptnum_serialize n) ++ COINBASE_FLAGS in
      if negb (Z.of_nat (length sig) <=? 100) then None
      else
        let txCoinbase := MakeTransactionRef GetHash (set_scriptSigs (sig :: tail (map scriptSig (vin txCoinbase))) txCoinbase) in
        '(root, _) ← BlockMerkleRoot Hash tx_hash (txCoinbase :: txs);
        let h := pure (header b) in
        Some ({| header := {| pure := {| hd_nVersion := hd_nVersion h; hd_hashPrevBlock := hd_hashPrevBlock h; hd_hashMerkleRoot := root;
                                         hd_nTime := hd_nTime h; hd_nBits := hd_nBits h; hd_nNonce := hd_nNonce h |};
                              auxpow := auxpow (header b) |};
                 AuxPow.vtx := txCoinbase :: txs |}, {| en_hashPrevBlock := prevHash; nExtraNonce := n |})
  end.

End Miner.

(** ** Lemmas: the order by arrival *)

(** Earlier, or at the same time and before in the block. *)
Definition earlier (a b : Z * nat) : Prop := a.1 < b.1 \/ a.1 = b.1 /\ (a.2 < b.2)%nat.

Lemma multimap_insert_perm {A} t (x : A) l : multimap_insert t x l ≡ₚ (t, x) :: l.
Proof.
  induction l as [|[t' y] l IH]; cbn [multimap_insert]; [done|]. destruct (t <? t'); [done|]. rewrite IH. apply perm_swap.
Qed.

Lemma multimap_insert_sorted t n l :
  StronglySorted earlier l -> (forall x, x ∈ l -> (x.2 < n)%nat) -> StronglySorted earlier (multimap_insert t n l).
Proof.
  induction l as [|[t' m] l IH]; cbn [multimap_insert]; intros S Hn; [by repeat constructor|]. apply StronglySorted_cons in S as [Hf S].
  destruct (Z.ltb_spec t t') as [Hlt|Hge].
  - apply StronglySorted_cons. split; [|by apply StronglySorted_cons]. constructor; [by left|]. eapply Forall_impl; [exact Hf|].
    intros [t2 m2] [H1|[H1 _]]; left; cbn in *; lia.
  - apply StronglySorted_cons. split; [|apply IH; [done|]; intros x Hx; apply Hn; by right]. rewrite multimap_insert_perm. constructor; [|done].
    pose proof (Hn (t', m) ltac:(left)). cbn in *. destruct (decide (t' = t)) as [->|]; [by right|left; cbn; lia].
Qed.

Section OrderFacts.
Context {V : Type} `{CCoinsView V}.
Variable allocation_of : CTransaction -> CAssetAllocationTuple.
Variables offer_of cert_of : CTransaction -> vch.
Variable allocation_arrivals : CAssetAllocationTuple -> gmap Z Z.
Variables offer_arrivals cert_arrivals : vch -> gmap Z Z.
Variable nShareFeeBlock : Z.

Abbreviation place_in := (place allocation_of offer_of cert_of allocation_arrivals offer_arrivals cert_arrivals nShareFeeBlock).

(** The arrival time of a service's transaction, from the height on where the payload names the sender. *)
Definition arrival_of (tx : CTransaction) : option Z :=
  if tx_nVersion tx =? MINERIUM_TX_VERSION then
    if DecodeAssetAllocationTx tx then Some (default no_arrival (allocation_arrivals (allocation_of tx) !! tx_hash tx))
    else if DecodeOfferTx tx then Some (default no_arrival (offer_arrivals (offer_of tx) !! tx_hash tx))
    else if DecodeCertTx tx then Some (default no_arrival (cert_arrivals (cert_of tx) !! tx_hash tx))
    else None
  else None.

Lemma place_arrival nHeight tx (view : CCoinsViewCache V) : nShareFeeBlock <= nHeight ->
  place_in nHeight tx view = (match arrival_of tx with Some t => Arrives t | None => Stays end, view).
Proof.
  intros Hh. unfold place, arrival_of, arrival. rewrite (proj2 (Z.geb_le _ _)) by done. destruct (tx_nVersion tx =? MINERIUM_TX_VERSION); [|done].
  destruct (DecodeAssetAllocationTx tx); [done|]. destruct (DecodeOfferTx tx); [done|]. by destruct (DecodeCertTx tx).
Qed.

Abbreviation stays tx := (arrival_of tx = None).

(** The loop: what it met so far is in one list or the other. *)
Lemma order_loop_ok nHeight txs l pre (view : CCoinsViewCache V) idx :
  nShareFeeBlock <= nHeight -> txs = pre ++ l ->
  StronglySorted earlier idx -> (forall t n, (t, n) ∈ idx <-> (n < length pre)%nat /\ exists tx, txs !! n = Some tx /\ arrival_of tx = Some t) ->
  map Some (filter (fun tx => stays tx) pre) ++ map (fun x => txs !! x.2) idx ≡ₚ map Some pre ->
  exists idx', order_loop allocation_of offer_of cert_of allocation_arrivals offer_arrivals cert_arrivals nShareFeeBlock nHeight (length pre) (map Some l)
      (map Some (filter (fun tx => stays tx) pre)) idx view = (map Some (filter (fun tx => stays tx) txs), idx', view)
  /\ StronglySorted earlier idx' /\ (forall t n, (t, n) ∈ idx' <-> exists tx, txs !! n = Some tx /\ arrival_of tx = Some t)
  /\ map Some (filter (fun tx => stays tx) txs) ++ map (fun x => txs !! x.2) idx' ≡ₚ map Some txs.
Proof.
  intros Hh. revert pre idx. induction l as [|tx l IH]; intros pre idx E S Hi P; cbn [order_loop map].
  { rewrite app_nil_r in E. subst pre. exists idx. split_and!; try done. intros t n. rewrite Hi. split; [by intros [_ ?]|].
    intros (tx & Ht & Ha). split; [by eapply lookup_lt_Some|by exists tx]. }
  assert (txs = (pre ++ [tx]) ++ l) as E' by (by rewrite <- app_assoc). assert (length (pre ++ [tx]) = Datatypes.S (length pre)) as El by (rewrite length_app; cbn; lia).
  assert (txs !! length pre = Some tx) as Et by (rewrite E, lookup_app_r, Nat.sub_diag by done; done).
  rewrite place_arrival by done. destruct (arrival_of tx) as [t|] eqn:Ea.
  - specialize (IH (pre ++ [tx]) (multimap_insert t (length pre) idx) E'). rewrite El, filter_app, filter_cons_False, filter_nil, app_nil_r in IH by (by rewrite Ea).
    apply IH.
    + apply multimap_insert_sorted; [done|]. intros [t' n] Hin. by apply Hi in Hin as [? _].
    + intros t' n. rewrite multimap_insert_perm, elem_of_cons, Hi. split.
      * intros [[= -> ->]|(Hn & Hx)]; (split; [lia|]); [by exists tx|done].
      * intros (Hn & tx' & Ht & Ha). destruct (decide (n = length pre)) as [->|]; [left; congruence|right]. split; [lia|by exists tx'].
    + rewrite multimap_insert_perm. cbn [map snd]. rewrite Et, map_app. cbn [map]. rewrite <- Permutation_middle, P. apply (Permutation_app_comm [_]).
  - specialize (IH (pre ++ [tx]) idx E'). rewrite El, filter_app, filter_cons_True, filter_nil, map_app in IH by done. apply IH; [done| |].
    + intros t n. rewrite Hi. split; intros (Hn & tx' & Ht & Ha); (split; [|by exists tx']); [lia|]. assert (n <> length pre) by (intros ->; congruence). lia.
    + rewrite map_app. cbn [map]. rewrite <- app_assoc, (Permutation_app_comm [Some tx]), app_assoc, P. done.
Qed.

(** The services' transactions go to the end, by their times of arrival and then as they were. *)
Lemma order_ok nHeight txs (view : CCoinsViewCache V) :
  nShareFeeBlock <= nHeight ->
  exists moved, OrderBasedOnArrivalTime allocation_of offer_of cert_of allocation_arrivals offer_arrivals cert_arrivals nShareFeeBlock nHeight (map Some txs) view
    = Some (map Some (filter (fun tx => stays tx) txs) ++ map (fun x => txs !! x.2) moved)
  /\ StronglySorted earlier moved /\ (forall t n, (t, n) ∈ moved <-> exists tx, txs !! n = Some tx /\ arrival_of tx = Some t)
  /\ map Some (filter (fun tx => stays tx) txs) ++ map (fun x => txs !! x.2) moved ≡ₚ map Some txs.
Proof.
  intros Hh. destruct (order_loop_ok nHeight txs txs [] view [] Hh eq_refl) as (idx & E & S & Hi & P); [constructor| |done|].
  { intros t n. split; [by intros ?%elem_of_nil|]. intros [Hn _]. cbn in Hn. lia. }
  exists idx. split_and!; try done. unfold OrderBasedOnArrivalTime. cbn [length filter] in E. change (map Some (filter _ [])) with (@nil (option CTransaction)) in E. rewrite E.
  assert (map (fun x => default None (map Some txs !! x.2)) idx = map (fun x => txs !! x.2) idx) as ->.
  { apply map_ext. intros [t n]. cbn. change (map Some txs) with (Some <$> txs). rewrite list_lookup_fmap. by destruct (txs !! n). }
  rewrite <- (Permutation_length P), Nat.eqb_refl. done.
Qed.

End OrderFacts.

(** ** Lemmas: the coinbase *)

Definition value_sum (l : list CTxOut) : Z := foldr (fun o n => nValue o + n) 0 l.

Definition subsidy_at (height : Z) : Z := fst (GetBlockSubsidy height 0 false false).

(** What a coinbase pays in all. *)
Definition coinbase_value (height fees nShareFeeBlock : Z) (pay : Payments) : Z :=
  match superblock pay, payee pay with
  | Some outs, _ => subsidy_at height + fees + value_sum outs
  | None, None => subsidy_at height + fees
  | None, Some _ => if height >=? nShareFeeBlock then subsidy_at height + 2 * Z.quot fees 2 else subsidy_at height
  end.

Lemma FillBlockPayments_ok script sig height fees share pay tx o outs :
  FillBlockPayments (coinbase_base script (subsidy_at height + fees) sig) height fees share pay = Some (tx, o, outs) ->
  tx_nVersion tx = CURRENT_VERSION /\ map scriptSig (vin tx) = [sig] /\ value_sum (vout tx) = coinbase_value height fees share pay.
Proof.
  unfold FillBlockPayments, coinbase_value. destruct (superblock pay) as [l|].
  - intros [= <- <- <-]. split_and!; [done|done|]. unfold value_sum. cbn. lia.
  - unfold FillBlockPayee. destruct (payee pay) as [s|]; cbn [mbind option_bind]; [|intros [= <- <- <-]; cbn; split_and!; [done|done|lia]].
    assert (snd (GetBlockSubsidy height 0 false true) = subsidy_at height) as Es by done.
    destruct (GetBlockSubsidy height 0 false true) as [mn total]. cbn in Es. subst total. intros E. repeat step_checked E.
    destruct (height >=? share); cbn [mbind option_bind] in E; repeat step_checked E; injection E as <- <- <-; cbn; split_and!; (done || lia).
Qed.

Lemma map_Some_perm {A} (l1 l2 : list A) : map Some l1 ≡ₚ map Some l2 -> l1 ≡ₚ l2.
Proof.
  assert (forall l : list A, omap id (map Some l) = l) as Ho by (induction l as [|x l IH]; cbn; [done|by rewrite IH]).
  intros Hp. rewrite <- (Ho l1), <- (Ho l2). by rewrite Hp.
Qed.

Lemma mapM_id {A} (l : list (option A)) k : mapM id l = Some k -> l = map Some k.
Proof.
  revert k. induction l as [|[x|] l IH]; intros k; cbn; [by intros [= <-]| |done]. destruct (mapM id l) as [k'|]; cbn; [|done]. intros [= <-]. cbn. f_equal. by apply IH.
Qed.

(** ** Properties *)

Section Template.
Context {V : Type} `{CCoinsView V} `{SetOrder}.
Variables (mapBlocks : gmap Z CBlockIndex) (pindexPrev : ptr) (params : Pow.Params) (outside : Z -> Z -> Z -> bool) (bip9 : BIP9Params).
Variables (versionbitscache : list ThresholdConditionCache) (nAuxpowChainId nShareFeeBlock : Z) (MineBlocksOnDemand : bool) (blockversion : option Z).
Variables (GetAdjustedTime : Z) (payments : Z -> Payments) (masternodes_synced IsInitialBlockDownload fUnitTest : bool).
Variables (GetHash : CTransaction -> Z) (TestBlockValidity : AuxPow.CBlock -> bool).
Variables (mempool : CTxMemPool) (priority_fields : Z -> PriorityFields) (nBlockMaxSize : Z) (blockMinFeeRate : CFeeRate).
Variables (blockprioritysize : option Z) (fDIP0001ActiveAtTip : bool) (pcoinsTip : CCoinsViewCache V).
Variables (allocation_of : CTransaction -> CAssetAllocationTuple) (offer_of cert_of : CTransaction -> vch).
Variables (allocation_arrivals : CAssetAllocationTuple -> gmap Z Z) (offer_arrivals cert_arrivals : vch -> gmap Z Z).
Variable prev : CBlockIndex.

Hypothesis C : consistent mempool.
Hypothesis R : fee_room mempool.
Hypothesis M : 1000 <= nBlockMaxSize < 2 ^ 32.
Hypothesis P : mapBlocks !! pindexPrev = Some prev.
Abbreviation height := (Chain.nHeight prev + 1).
Hypothesis S : nShareFeeBlock <= height.

Abbreviation arrives := (arrival_of allocation_of offer_of cert_of allocation_arrivals offer_arrivals cert_arrivals).
Abbreviation order := (OrderBasedOnArrivalTime allocation_of offer_of cert_of allocation_arrivals offer_arrivals cert_arrivals nShareFeeBlock).
Abbreviation select := (select_transactions mempool priority_fields nBlockMaxSize blockMinFeeRate height
  (lock_time_cutoff mapBlocks pindexPrev (u32 GetAdjustedTime)) fDIP0001ActiveAtTip blockprioritysize).
Abbreviation create := (CreateNewBlock mapBlocks pindexPrev params outside bip9 versionbitscache nAuxpowChainId nShareFeeBlock MineBlocksOnDemand blockversion
  GetAdjustedTime payments masternodes_synced IsInitialBlockDownload fUnitTest GetHash TestBlockValidity mempool priority_fields nBlockMaxSize blockMinFeeRate
  blockprioritysize fDIP0001ActiveAtTip order pcoinsTip).

(** The template of a block, with the choice it was made from. *)
Record template_of (script : list Z) (t : CBlockTemplate) (b : BlockAssembler) (es : list CTxMemPoolEntry) (coinbase : CTransaction) (moved : list (Z * nat)) : Prop := {
  to_chosen : select = Some b;
  to_assembled : assembled mempool b es;
  to_txs : map Some (AuxPow.vtx (block t)) = map Some (coinbase :: filter (fun tx => arrives tx = None) (map e_tx es)) ++ map (fun x => (coinbase :: map e_tx es) !! x.2) moved;
  to_moved : StronglySorted earlier moved /\ forall time n, (time, n) ∈ moved <-> exists tx, (coinbase :: map e_tx es) !! n = Some tx /\ arrives tx = Some time;
  to_all : AuxPow.vtx (block t) ≡ₚ coinbase :: map e_tx es;
  to_coinbase : tx_nVersion coinbase = CURRENT_VERSION /\ map scriptSig (vin coinbase) = [push_int64 [] height ++ [OP_0]];
  to_value : value_sum (vout coinbase) = coinbase_value height (sum_of nFee es) nShareFeeBlock (payments height);
  to_fees : template_vTxFees t = - sum_of nFee es :: map nFee es;
  to_sigops : template_vTxSigOps t = GetLegacySigOpCount coinbase :: map sigOpCount es;
  to_header : let h := pure (header (block t)) in
    hd_hashPrevBlock h = pindexPrev /\ Some (hd_nBits h) = GetNextWorkRequired mapBlocks outside pindexPrev (hd_nTime h) params
    /\ hd_nTime h = (let now := Z.max (GetMedianTimePast mapBlocks pindexPrev + 1) GetAdjustedTime in if u32 GetAdjustedTime <? now then u32 now else u32 GetAdjustedTime);
  to_valid : TestBlockValidity (block t) = true;
}.

Lemma UpdateTime_time nTime nBits n b : UpdateTime mapBlocks pindexPrev params outside GetAdjustedTime nTime nBits = Some (n, b) ->
  n = let now := Z.max (GetMedianTimePast mapBlocks pindexPrev + 1) GetAdjustedTime in if nTime <? now then u32 now else nTime.
Proof.
  unfold UpdateTime. destruct (fPowAllowMinDifficultyBlocks params); [|by intros [= <- _]]. destruct (GetNextWorkRequired _ _ _ _ _); cbn [mbind option_bind]; [|done].
  by intros [= <- _].
Qed.

Lemma create_template script t : create script = Some t -> exists b es coinbase moved, template_of script t b es coinbase moved.
Proof.
  unfold CreateNewBlock. rewrite P. cbn [mbind option_bind]. destruct (template_version _ _ _ _ _ _ _) as [v|]; cbn [mbind option_bind]; [|done].
  destruct (select_ok mempool C R nBlockMaxSize blockMinFeeRate height (lock_time_cutoff mapBlocks pindexPrev (u32 GetAdjustedTime)) fDIP0001ActiveAtTip M priority_fields blockprioritysize) as (b & es & Eb & F).
  rewrite Eb. cbn [mbind option_bind]. pose proof (fi_assembled _ _ _ _ _ _ _ F) as A. change (GetBlockSubsidy height 0 false false) with (subsidy_at height, subsidy_at height). cbv iota beta.
  intros E. repeat step_checked E. rewrite (as_nFees _ _ _ A) in *. set (fees := sum_of nFee es) in *.
  destruct (push_opcode (push_int64 [] height) OP_0) as [sig|] eqn:Es; cbn [mbind option_bind] in E; [|done]. injection Es as <-. 
  destruct (negb MineBlocksOnDemand && _ && _ && _ && _); [done|].
  destruct (FillBlockPayments _ _ _ _ _) as [[[tx o] outs]|] eqn:Ep; cbn [mbind option_bind] in E; [|done]. repeat step_checked E.
  destruct (FillBlockPayments_ok _ _ _ _ _ _ _ _ _ Ep) as (T1 & T2 & T3). set (coinbase := MakeTransactionRef GetHash tx) in *.
  assert (<[0%nat := Some coinbase]> (vtx b) = map Some (coinbase :: map e_tx es)) as Ev by (rewrite (as_vtx _ _ _ A); cbn; by rewrite map_map).
  rewrite Ev in E. destruct (order_ok allocation_of offer_of cert_of allocation_arrivals offer_arrivals cert_arrivals nShareFeeBlock height (coinbase :: map e_tx es) pcoinsTip S) as (moved & Eo & So & Hm & Pm).
  rewrite Eo in E. cbn [mbind option_bind] in E.
  assert (arrives coinbase = None) as Hc by (unfold arrival_of; cbn [tx_nVersion coinbase MakeTransactionRef]; by rewrite T1).
  rewrite filter_cons_True in E, Pm by done.
  destruct (UpdateTime _ _ _ _ _ _ _) as [[time bits]|] eqn:Et; cbn [mbind option_bind] in E; [|done]. apply UpdateTime_time in Et.
  destruct (GetNextWorkRequired _ _ _ time _) as [nbits|] eqn:En; cbn [mbind option_bind] in E; [|done].
  destruct (mapM id _) as [txs|] eqn:Em; cbn [mbind option_bind] in E; [|done]. apply mapM_id in Em.
  destruct (head txs) as [first|] eqn:Eh; cbn [mbind option_bind] in E; [|done].
  assert (first = coinbase) as -> by (destruct txs as [|x txs]; [done|]; cbn in Em, Eh; congruence).
  destruct (TestBlockValidity _) eqn:Ete; cbn [negb] in E; [|done]. injection E as <-. exists b, es, coinbase, moved.
  constructor; cbn [block AuxPow.vtx template_vTxFees template_vTxSigOps header pure hd_hashPrevBlock hd_nBits hd_nTime]; try done.
  - apply map_Some_perm. by rewrite <- Em.
  - by rewrite (as_vTxFees _ _ _ A).
  - by rewrite (as_vTxSigOps _ _ _ A).
Qed.

(** C18: A template, when one is made: its transactions are the coinbase and the chosen entries of the pool, first those of
    no service as they were chosen, then those of services by their times of arrival; the coinbase commits to the
    height and pays the subsidy, the fees - less one when half of an odd sum goes to a masternode - and the
    superblock, nothing more; the header is on the tip with the bits for its time, which is past the median; the
    fees and signature operations are listed in the order of the choice, not of the block; and the block is valid. *)
Theorem CreateNewBlock_correct script t : create script = Some t -> exists b es coinbase moved, template_of script t b es coinbase moved.
Proof. apply create_template. Qed.

(** C17: A chosen transaction of no service that spends an output of a chosen service's transaction stands before it in the
    block.  When validity asks that no transaction spends an output of a later one, no block is made as long as the
    choice holds such a pair: the call throws. *)
Theorem CreateNewBlock_throws script b parent child time i :
  (forall blk l1 x l2 j y, AuxPow.vtx blk = l1 ++ x :: l2 -> j ∈ vin x -> y ∈ l2 -> op_hash (prevout j) = tx_hash y -> TestBlockValidity blk = false) ->
  select = Some b -> Some parent ∈ vtx b -> Some child ∈ vtx b -> arrives parent = Some time -> arrives child = None ->
  i ∈ vin child -> op_hash (prevout i) = tx_hash parent -> create script = None.
Proof.
  intros Hv Eb Hp Hc Ap Ac Hi Ho. destruct (create script) as [t|] eqn:E; [exfalso|done]. destruct (create_template script t E) as (b' & es & cb & moved & T).
  pose proof (to_chosen _ _ _ _ _ _ T) as Eb'. rewrite Eb in Eb'. injection Eb' as <-. pose proof (as_vtx _ _ _ (to_assembled _ _ _ _ _ _ T)) as Hb.
  assert (forall tx, Some tx ∈ vtx b -> tx ∈ map e_tx es) as Hin.
  { intros tx. rewrite Hb, elem_of_cons, <- (map_map e_tx Some). intros [?|(x & [= ->] & ?)%list_elem_of_fmap]; done. }
  assert (child ∈ cb :: filter (fun tx => arrives tx = None) (map e_tx es)) as Hc1 by (right; apply list_elem_of_filter; split; [done|by apply Hin]).
  apply list_elem_of_split in Hc1 as (l1 & l2 & El).
  assert (Some parent ∈ map (fun x => (cb :: map e_tx es) !! x.2) moved) as Hp1.
  { pose proof (Hin _ Hp) as [n Hn]%list_elem_of_lookup. destruct (to_moved _ _ _ _ _ _ T) as [_ Hm]. apply list_elem_of_fmap. exists (time, Datatypes.S n). split; [done|].
    apply Hm. by exists parent. }
  pose proof (to_txs _ _ _ _ _ _ T) as Ht. rewrite El in Ht. set (txs := AuxPow.vtx (block t)) in *.
  assert (exists rest, txs = l1 ++ child :: rest /\ parent ∈ rest) as (rest & Er & Hr).
  { apply fmap_app_inv in Ht as (k1 & k2 & E1 & E2 & ->). apply (inj (fmap Some)) in E1 as <-. exists (l2 ++ k2). split; [by rewrite <- app_assoc|].
    rewrite E2 in Hp1. apply list_elem_of_fmap in Hp1 as (y & [= ->] & Hy). apply elem_of_app. by right. }
  pose proof (to_valid _ _ _ _ _ _ T) as Hval. by rewrite (Hv (block t) l1 child rest i parent) in Hval.
Qed.

End Template.

(** ** The extra nonce *)

(** The counter goes on while the tip stays and starts over when it changes; the coinbase keeps its outputs and still
    commits to the height, the other transactions stay, and the header gets the root of what there is now. *)
Lemma IncrementExtraNonce_correct mapBlocks pindexPrev GetHash Hash COINBASE_FLAGS (b : AuxPow.CBlock) s cb txs i prev :
  AuxPow.vtx b = cb :: txs -> head (vin cb) = Some i -> mapBlocks !! pindexPrev = Some prev -> 0 <= Chain.nHeight prev + 1 < 2 ^ 31 ->
  (length COINBASE_FLAGS <= 88)%nat -> Z.of_nat (length (cb :: txs)) <= 2 ^ 31 ->
  exists b' s' cb' j, IncrementExtraNonce mapBlocks pindexPrev GetHash Hash COINBASE_FLAGS b s = Some (b', s')
  /\ AuxPow.vtx b' = cb' :: txs /\ vout cb' = vout cb /\ en_hashPrevBlock s' = hd_hashPrevBlock (pure (header b))
  /\ nExtraNonce s' = u32 ((if en_hashPrevBlock s =? hd_hashPrevBlock (pure (header b)) then nExtraNonce s else 0) + 1)
  /\ head (vin cb') = Some j /\ take (length (push_int64 [] (Chain.nHeight prev + 1))) (scriptSig j) = push_int64 [] (Chain.nHeight prev + 1)
  /\ hd_hashMerkleRoot (pure (header b')) = tree_root Hash 31 (map tx_hash (cb' :: txs)).
Proof.
  intros Ev Ei Ep Hh Hf Hl. unfold IncrementExtraNonce. rewrite Ep, Ev. cbn [mbind option_bind]. rewrite Ei. cbn [mbind option_bind].
  assert (u32 (Chain.nHeight prev + 1) = Chain.nHeight prev + 1) as -> by (apply Z.mod_small; lia). set (n := u32 _). set (h := Chain.nHeight prev + 1) in *.
  assert (0 <= n < 2 ^ 32) as Hn by (apply Z.mod_pos_bound; lia).
  assert (forall z, - 2 ^ 39 < z < 2 ^ 39 -> (length (scriptnum_serialize z) <= 5)%nat) as Hs.
  { intros z Hz. apply serialize_length; [lia|]. left. cbn. lia. }
  assert (forall p d, (length d <= 5)%nat -> (length (push_data p d) <= length p + 6)%nat) as Hd.
  { intros p d Hd. unfold push_data. rewrite (proj2 (Z.ltb_lt _ _)) by (unfold OP_PUSHDATA1; lia). rewrite !length_app. cbn. lia. }
  assert (length (push_int64 [] h) <= 6)%nat as H1.
  { unfold push_int64. case_match; [cbn; lia|]. case_match; [cbn; lia|]. apply (Hd [] (scriptnum_serialize h)). apply Hs. lia. }
  pose proof (Hd (push_int64 [] h) _ (Hs n ltac:(lia))) as H2.
  rewrite (proj2 (Z.leb_le _ _)) by (rewrite length_app; lia). cbn [negb].
  destruct (vin cb) as [|i0 ins] eqn:Evin; [done|]. injection Ei as ->.
  set (cb' := MakeTransactionRef GetHash _). unfold BlockMerkleRoot. rewrite ComputeMerkleRoot_ok by (first [done | by rewrite length_map]). cbn [mbind option_bind].
  eexists _, _, cb', _. split; [reflexivity|]. split_and!; try done; [unfold cb'; cbn [vin MakeTransactionRef set_scriptSigs]; rewrite Evin; reflexivity|].
  cbn [scriptSig]. unfold push_data. rewrite (proj2 (Z.ltb_lt _ _)) by (pose proof (Hs n ltac:(lia)); unfold OP_PUSHDATA1; lia).
  rewrite <- !app_assoc. apply take_app_length.
Qed.

(** ** Witnesses *)

(** Sets are gone through by hash. *)
#[local] Instance sets_by_hash : SetOrder.
Proof. exists (fun s => merge_sort Z.le (elements s)). intros s. apply merge_sort_Permutation. Defined.

(** A validity that only asks for parents to stand first. *)
Fixpoint parents_stand_first (l : list CTransaction) : bool :=
  match l with
  | [] => true
  | x :: l => forallb (fun i => forallb (fun y => negb (op_hash (prevout i) =? tx_hash y)) l) (vin x) && parents_stand_first l
  end.

Lemma parents_stand_first_rejects blk l1 x l2 j y :
  AuxPow.vtx blk = l1 ++ x :: l2 -> j ∈ vin x -> y ∈ l2 -> op_hash (prevout j) = tx_hash y -> parents_stand_first (AuxPow.vtx blk) = false.
Proof.
  intros -> Hj Hy Ho. induction l1 as [|z l1 IH]; cbn [parents_stand_first app]; [|by rewrite IH, andb_false_r].
  apply andb_false_iff. left. apply not_true_iff_false. rewrite forallb_forall. intros Hf. specialize (Hf j (proj1 (list_elem_of_In _ _) Hj)).
  rewrite forallb_forall in Hf. specialize (Hf y (proj1 (list_elem_of_In _ _) Hy)). by rewrite Ho, Z.eqb_refl in Hf.
Qed.

(** The payload of every service's transaction names the same asset; the databases know no arrival. *)
Definition demo_create (p : CTxMemPool) (pay : Payments) : option CBlockTemplate :=
  CreateNewBlock (toy_chain 0x1e0fffff 30) 29 main_params (fun _ _ _ => false) {| nRuleChangeActivationThreshold := 75; nMinerConfirmationWindow := 100; vDeployments := [] |}
    [] 6 0 false None 5000 (fun _ => pay) true false false (fun _ => 1000) (fun blk => parents_stand_first (AuxPow.vtx blk)) p sample_priorities 100000
    {| nSatoshisPerK := 100 |} (Some 0) true
    (OrderBasedOnArrivalTime (fun _ => ([1], [2])) (fun _ => []) (fun _ => []) (fun _ => ∅) (fun _ => ∅) (fun _ => ∅) 0) (pcoinsTip (demo_state 0x51)) [0x51].

Definition demo_payments : Payments := {| superblock := None; payee := Some [0x52] |}.

(** The pool of a parent and its child, fees 500 and 400: half goes to the masternode. *)
Lemma CreateNewBlock_correct_witness : exists t b es coinbase,
  demo_create pool54 demo_payments = Some t /\ map tx_hash (AuxPow.vtx (block t)) = [1000; 5; 4] /\ template_vTxFees t = [-900; 500; 400]
  /\ assembled pool54 b es /\ AuxPow.vtx (block t) ≡ₚ coinbase :: map e_tx es.
Proof.
  assert ((fun t => (map tx_hash (AuxPow.vtx (block t)), template_vTxFees t)) <$> demo_create pool54 demo_payments = Some ([1000; 5; 4], [-900; 500; 400])) as Ev by (by vm_compute).
  destruct (demo_create pool54 demo_payments) as [t|] eqn:E; [|discriminate Ev]. cbn in Ev. injection Ev as E1 E2. unfold demo_create in E.
  destruct (CreateNewBlock_correct (toy_chain 0x1e0fffff 30) 29 main_params (fun _ _ _ => false)
    {| nRuleChangeActivationThreshold := 75; nMinerConfirmationWindow := 100; vDeployments := [] |}
    [] 6 0 false None 5000 (fun _ => demo_payments) true false false (fun _ => 1000) (fun blk => parents_stand_first (AuxPow.vtx blk)) pool54 sample_priorities 100000
    {| nSatoshisPerK := 100 |} (Some 0) true (pcoinsTip (demo_state 0x51)) (fun _ => ([1], [2])) (fun _ => []) (fun _ => []) (fun _ => ∅) (fun _ => ∅) (fun _ => ∅)
    (toy_at 0x1e0fffff 29)) with (script := [0x51]) (t := t) as (b & es & cb & moved & T).
  - apply pool54_consistent.
  - apply fee_room_b_ok. by vm_compute.
  - lia.
  - by vm_compute.
  - cbn. lia.
  - exact E.
  - exists t, b, es, cb. split; [reflexivity|]. split; [exact E1|]. split; [exact E2|]. destruct T as [_ T1 _ _ T2 _ _ _ _ _ _]. exact (conj T1 T2).
Defined.

(** A transaction of the asset allocations, and one of no service that spends its output. *)
Definition service_tx : CTransaction :=
  {| tx_nVersion := MINERIUM_TX_VERSION; vin := [{| prevout := {| op_hash := 80; op_n := 0 |}; scriptSig := []; nSequence := SEQUENCE_FINAL |}];
     vout := [CTxOut_make 10 (service_prefix OP_MINERIUM_ASSET_ALLOCATION OP_ASSET_ALLOCATION_SEND [[1]] [OP_2DROP; OP_2DROP] ++ [0x51])];
     nLockTime := 0; tx_hash := 9 |}.
Definition spender_tx : CTransaction := pay 8 [(9, 0)].
Definition pool9 : CTxMemPool := default empty_pool (addUnchecked_alone 48 (entry_of service_tx) empty_pool).
Definition pool98 : CTxMemPool := default empty_pool (addUnchecked_alone 48 (entry_of spender_tx) pool9).

Lemma pool98_consistent : consistent pool98.
Proof.
  apply grown_consistent; [|by vm_compute]. apply grown_consistent; [apply empty_consistent|by vm_compute].
Qed.

(** As long as both are in the pool, no block is made. *)
Lemma CreateNewBlock_throws_witness : demo_create pool98 demo_payments = None /\ length (ancestor_index pool98) = 2%nat.
Proof.
  split; [|by vm_compute]. unfold demo_create.
  assert (vtx <$> select_transactions pool98 sample_priorities 100000 {| nSatoshisPerK := 100 |} (Chain.nHeight (toy_at 0x1e0fffff 29) + 1)
    (lock_time_cutoff (toy_chain 0x1e0fffff 30) 29 (u32 5000)) true (Some 0) = Some [None; Some service_tx; Some spender_tx]) as Ev by (by vm_compute).
  destruct (select_transactions pool98 sample_priorities _ _ _ _ _ _) as [b|] eqn:Es in Ev; [|discriminate Ev]. cbn in Ev. injection Ev as Ev.
  apply (CreateNewBlock_throws (toy_chain 0x1e0fffff 30) 29 main_params (fun _ _ _ => false)
    {| nRuleChangeActivationThreshold := 75; nMinerConfirmationWindow := 100; vDeployments := [] |}
    [] 6 0 false None 5000 (fun _ => demo_payments) true false false (fun _ => 1000) (fun blk => parents_stand_first (AuxPow.vtx blk)) pool98 sample_priorities 100000
    {| nSatoshisPerK := 100 |} (Some 0) true (pcoinsTip (demo_state 0x51)) (fun _ => ([1], [2])) (fun _ => []) (fun _ => []) (fun _ => ∅) (fun _ => ∅) (fun _ => ∅)
    (toy_at 0x1e0fffff 29)) with (b := b) (parent := service_tx) (child := spender_tx) (time := no_arrival)
    (i := {| prevout := {| op_hash := 9; op_n := 0 |}; scriptSig := []; nSequence := SEQUENCE_FINAL |}).
  - apply pool98_consistent.
  - apply fee_room_b_ok. by vm_compute.
  - lia.
  - by vm_compute.
  - cbn. lia.
  - apply parents_stand_first_rejects.
  - exact Es.
  - rewrite Ev. right. left.
  - rewrite Ev. right. right. left.
  - by vm_compute.
  - by vm_compute.
  - left.
  - reflexivity.
Defined.
